(* ===== verification/_CoqProject ===== *)
-Q . S2P
Prelude.v
Memory.v
Fwtree.v
NumStr.v
Intset.v
ListpackEnc.v
Listpack.v
ListpackEdit.v
Lzf.v
Siphash.v
Gf2.v
Crc.v
CrcSpec.v
Sds.v
SdsInv.v
SdsSpec.v
SdsText.v
SdsTextSpec.v
Glob.v
GlobSpec.v
Slot.v
SlotSpec.v
SlotRange.v
SlotRangeSpec.v
Dict.v
DictInv.v
DictSpec.v
DictScan.v
DictLink.v
DictIter.v
DictFrame.v
Kvstore.v
KvstoreInv.v
KvstoreOps.v
KvstoreFind.v
KvstoreMove.v
KvstoreSpec.v
KvstoreIter.v
Skiplist.v
SkiplistInv.v
SkiplistOps.v
SkiplistSpec.v
Bitops.v
BitopsBits.v
BitopsRange.v
BitopsFields.v
BitopsCmd.v
BitopsOp.v
Settype.v
SettypeInv.v
SettypeSpec.v
