(* ===== verification/Prelude.v ===== *)
(** * Verification of the Redis core data structures (redis-stable/src)

    The repository holds a copy of Redis, a C server that keeps a keyspace of
    typed values in memory, and a TypeScript testing application that uses it
    as a queue.  This development models, from the C sources, the data
    structures the server's values are made of, and proves that they implement
    what they promise.  File names below are relative to redis-stable/src.

    ** The parts and how they interact

    - Small collections are flat blocks.  [intset] (intset.c) is a sorted array
      of integers of the smallest sufficient width; [listpack] (listpack.c) is
      a sequence of strings and integers, each stored with its length behind it
      so that the block is walked in both directions.  A listpack stores a
      string that is the decimal form of a 64-bit integer as that integer, by
      the conversions of util.c; LZF (lzf_c.c, lzf_d.c) compresses the blocks
      and long strings.  Blocks also come from files, so listpack.c and
      intset.c have validators of untrusted bytes.
    - A string is an sds (sds.c, sds.h): a pointer behind a header of one of five
      types, as narrow as the length allows.  Command lines are split, and
      strings quoted for them, by the same file.
    - Large collections are a hash table and a skiplist.  [dict] (dict.c) is a
      chained hash table that moves its entries to a new table a few buckets
      at a time, inside the operations; it is also the keyspace.  A sorted set
      (t_zset.c) is a skiplist whose nodes a dict indexes: deleting a range
      deletes from both.
    - A set (t_set.c) is an intset while its members are integers, a listpack while
      it is small, and a dict of sds keys beyond the limits of the configuration;
      its operations convert it and dispatch on the encoding.
    - The bit commands (bitops.c) read and write single bits and integer fields of
      string values, which are sds or integers, and combine whole strings.
    - A database is a [kvstore] (kvstore.c): an array of dicts, one per slot of a
      cluster.  The dicts report their rehashings to it through callbacks, and a
      Fenwick tree [fwTree] (fwtree.c) counts their keys, to find the slot of
      the nth key and the next slot with keys.
    - The slot of a key is a CRC16 of its tag (crc16.c, cluster.h); the slots of a
      node, of a migration or of a command are an array of ranges (cluster.c).  A
      pattern (util.c) that can only match keys of one slot is searched in that slot.
    - Dumps carry a CRC64 (crc64.c), computed by tables and, on long buffers, in
      segments that matrices join (crcspeed.c, crccombine.c).  Dicts hash their
      keys with SipHash (siphash.c), with or without case.

    ** Files

    - [Prelude]: results of C code ([outcome]: a value, a failed assertion, an
      access outside an object, or a model out of fuel), machine integers
      ([u8] ... [u64], [s64]), lists and lengths in [Z].  Every theorem that a
      function returns ([= Ret _]) excludes the three failures.
    - [Memory]: arrays and byte blocks with checked accesses, little-endian
      integers, [memmove], and the class [Allocator], what the code relies on
      of the allocator.
    - [Fwtree]: fwtree.c, on the list of its array.  [Rep ft a] relates a tree to
      the array of counters.
    - [NumStr]: [string2ll], [ll2string], [digits10] and their callers (util.c,
      and the copy in listpack.c), against [decimal].
    - [Intset]: intset.c; [Rep s vs] relates a block to a sorted list.
    - [ListpackEnc], [Listpack], [ListpackEdit]: listpack.c in three parts: one
      element's encoding; the block, navigation, search and validation
      ([lp_wf]); editing ([lp_rep]).
    - [Lzf]: the compressor and the decompressor.
    - [Siphash]: siphash.c and the hash functions of dict.c; hashing without case is
      hashing the lower case.
    - [Gf2]: functions on words that commute with exclusive or.  [Crc]: crc64.c,
      crcspeed.c, crccombine.c; [CrcSpec]: tables, loops and matrices give the
      bit-by-bit [crc_fold].
    - [Sds]: sds.h and sds.c on a block and an offset.  [SdsInv]: the layout
      ([sds_at]), the representation [sds_rep] of a list of bytes, room and
      resizing, over the class [AllocFits] (no block has 2^64 bytes).
      [SdsSpec]: one lemma per operation, sequences of operations, formatting.
      [SdsText]: split, join, quoting and command lines; [SdsTextSpec] its theorems.
    - [Glob]: the glob matcher of util.c.  [GlobSpec]: the tokens of a pattern
      ([parse]) and the strings they match ([glob]).
    - [Slot]: key slots; [SlotSpec]: their CRC bit by bit, tags, patterns.
      [SlotRange]: slot range arrays over the class [SlotEnv] (the allocator's usable
      size and the library's sort); [SlotRangeSpec]: [holds_ranges], the canonical
      form [canon] and the set [slots_of].  A node is what clusterGetNodeSlotRanges
      reads of it: the bitmap and the chain of masters (cluster_legacy.c), finite.
    - [Dict]: dict.c on buckets, entries and tagged pointers; the callbacks that
      observe the dict write to a log.  [DictInv]: the invariant [dict_wf], the
      map [dict_map] and one lemma per operation.  [DictSpec]: sequences of
      operations refine a finite map; rehashing ends; two-phase deletion;
      resizing.  [DictScan]: the cursor scan.  [DictLink]: setting keys at links.
    - [Skiplist]: t_zset.c's skiplist on a store of nodes and pointers.
      [SkiplistInv]: what each relinking does at each level ([zsl_ok]).
      [SkiplistOps]: the order of scores and elements, and the operations on
      sorted lists ([zsl_rep]).  [SkiplistSpec]: ranks, ranges, theorems.
    - [DictIter]: the iterators of dict.c; [pending] is what an iterator has still
      to visit, [iter_step] what its client may do between two calls.
    - [DictFrame]: what no dict operation changes besides the map: the pause
      counters, and the log, which only grows (class [DictFrame]).
    - [Kvstore]: kvstore.c; the callbacks a dict has logged are replayed on the
      store by [dict_done].  [KvstoreInv]: the log of a dict is a run of a
      two-state machine, hence the counters are exact ([kv_counts]); [kv_rep]
      relates a store to a list of maps.  [KvstoreOps]: one lemma per operation.
      [KvstoreFind]: by key number, next dict with keys, scan.  [KvstoreMove]:
      moving a dict.  [KvstoreSpec]: sequences of operations and theorems.
      [KvstoreIter]: the iterators, with [sweep], a client that deletes.
    - [Bitops]: bitops.c, from the arguments of a command and the objects of its keys to
      its reply and the string stored.  [BitopsBits]: the bits of a string
      ([bits_of]), counting and searching.  [BitopsRange]: values and arguments
      ([kv_value]), ranges, BITCOUNT and BITPOS.  [BitopsFields]: integers in bits
      ([field_get], [splice]) and overflow ([fit]).  [BitopsCmd]: GETBIT, SETBIT and
      BITFIELD; [BitopsOp]: BITOP.
    - [Settype]: the set objects of t_set.c over [Intset], [Listpack], [Dict] and
      [Sds], with the callbacks of their dict (server.c).  [SettypeInv]: [set_rep]
      relates an object of any encoding to a finite set of byte strings; one lemma
      per operation.  [SettypeSpec]: sequences of calls, limits, iteration.

    ** What the theorems show

    - Refinement: listpack edits, intset, sds, dict, skiplist, Fenwick tree and
      slot range operations do to the abstract list, set, map or array what their names
      say, on every branch, and keep the representation invariant.
      A set object does so through its conversions between three containers.
      The bit commands do to the list of bits of a value what they say, with each
      error their arguments ask for; the loops on words and bytes agree.
    - Safety: the validators and the decompressor, on arbitrary bytes, stay
      inside their buffers and terminate; what the validators accept is well
      formed; a dict scan misses no key through any resizes.
    - Equivalence: the segmented CRC64 is the bit-by-bit one; the glob matcher decides
      the language of its pattern; canonical slot ranges are equal when their
      sets are.  A pattern with a slot matches only keys of that slot.
    - Round trips: element encodings, integers as strings, compression,
      quoted command lines, split and join, slot ranges as text.
    - Types: every reachable sds has a header type whose fields hold its length
      and capacity.
    - Termination, liveness and bounds: scans, rehashings and the command-line
      parser end; a table gets the least sufficient power of two and sizes that
      overflow are refused.
    - The kvstore composes dict and Fenwick tree: sequences of its operations
      refine a list of maps with exact counters, its scan misses no key across
      dicts, its iteration deletes exactly what its client selects, its fair
      choice is uniform over keys; moving a dict is right up to the number of
      dicts with keys, whose error is computed.

    ** Modelling choices

    Integers are [Z], wrapped where the C type wraps ([u32 (x + 1)]), so
    overflow is in the model.  Blocks are lists of bytes and pointers into them
    offsets; hosts are little-endian with 64-bit words.  Dict entries and
    skiplist nodes live in explicit stores.  Loops are structural on a counter
    the code has, or take fuel: a bound on the remaining input, buckets,
    elements or levels, computed in the definition that starts the loop, and
    the theorems ([= Ret _]) show it is enough.  The results of [random] are
    the arguments of the functions that use them.  Code outside src is a
    parameter: the allocator's usable sizes, a dict's hash and callbacks
    ([dictType], with the laws [DictKeys]), the comparisons of floating-point
    scores ([Score], with the laws [ScoreLaws], which NaN satisfies through its
premises; integer scores witness them), the text that vsnprintf makes of a format,
    the object a key holds, the address of a buffer.  The callbacks of a dict
    scan observe the entries of a bucket and do not change the dict while it is
    walked.  An iterator's nextEntry is a pointer: [reread] follows the entry after a
    deletion, and deleting that very entry, which would leave it dangling, is not a
    step of [iter_step].  The keys of a set's dict are the sds on
    which its callbacks return ([set_key]).  Intsets are treated below 2^29 entries,
    where their 32-bit byte counts wrap.

    ** Not modelled

    In the files above: random sampling, defragmentation callbacks, metadata and
    statistics of dict.c and kvstore.c; lpRandomPair and its
    variants; the big-endian and vector variants of the checksums; printing;
    freeing of whole structures; the tests in the files.
    Of the set objects: the random choice of a member and the size in bytes.
    Of the bit commands: the vector variants, notifications, statistics and dirty counts.
    Of the rest of the server: the other commands, networking, replication,
    cluster, persistence, scripting and modules, which work over sockets,
    threads, files and global state; vendored code; the TypeScript application.
*)

From stdpp Require Export base tactics list list_numbers numbers option.
From Stdlib Require Export ZArith Lia.

#[export] Set Default Goal Selector "!".
#[export] Set Bullet Behavior "Strict Subproofs".
#[global] Open Scope Z_scope.

(** ** Results of C code

    A call either returns, trips an [assert()] (the process aborts), touches
    memory outside the object it was given, or, for a model of a loop, runs
    out of the fuel it was given.  Theorems about a function that returns
    are always stated as [... = Ret _], so they exclude the other three. *)
Inductive outcome (A : Type) : Type :=
| Ret (a : A)
| AssertFail
| OutOfBounds
| OutOfFuel.
Arguments Ret {A} a.
Arguments AssertFail {A}.
Arguments OutOfBounds {A}.
Arguments OutOfFuel {A}.

#[global] Instance outcome_ret : MRet outcome := fun A a => Ret a.
#[global] Instance outcome_bind : MBind outcome := fun A B f m =>
  match m with
  | Ret a => f a
  | AssertFail => AssertFail
  | OutOfBounds => OutOfBounds
  | OutOfFuel => OutOfFuel
  end.

Lemma bind_assoc_outcome {A B C} (m : outcome A) (f : A -> outcome B) (g : B -> outcome C) :
  ((m ≫= f) ≫= g) = (m ≫= (fun a => f a ≫= g)).
Proof. by destruct m. Qed.

Lemma ret_bind {A B} (x : A) (f : A -> outcome B) : (Ret x ≫= f) = f x.
Proof. reflexivity. Qed.

Lemma bind_Ret {A B} (m : outcome A) (f : A -> outcome B) y : m ≫= f = Ret y -> exists x, m = Ret x /\ f x = Ret y.
Proof. destruct m; try done. intros H. by exists a. Qed.

(** A call that returned, taken apart. *)
Ltac inv_ret := repeat (match goal with
  | H : mbind _ _ = Ret _ |- _ => apply bind_Ret in H as (? & ? & ?)
  | H : Ret _ = Ret _ |- _ => injection H; clear H; intros; subst
  | H : OutOfBounds = Ret _ |- _ => discriminate H
  | H : OutOfFuel = Ret _ |- _ => discriminate H
  | H : AssertFail = Ret _ |- _ => discriminate H
  | H : (_, _) = (_, _) |- _ => injection H; clear H; intros; subst
  | H : context [let '(_, _) := ?p in _] |- _ => destruct p eqn:?
  | H : match ?x with _ => _ end = Ret _ |- _ => destruct x eqn:?
  end; cbv beta iota zeta in * ).

(** [assert(b)]. *)
Definition c_assert (b : bool) : outcome unit :=
  if b then Ret tt else AssertFail.

(** ** Machine integers

    A w-bit C integer is a [Z] in the range of its type; the conversions wrap. *)
Definition wrapu (w z : Z) : Z := z mod 2 ^ w.
Definition wraps (w z : Z) : Z := (z + 2 ^ (w - 1)) mod 2 ^ w - 2 ^ (w - 1).

Abbreviation u8 := (wrapu 8).
Abbreviation u16 := (wrapu 16).
Abbreviation u32 := (wrapu 32).
Abbreviation u64 := (wrapu 64).
Abbreviation s8 := (wraps 8).
Abbreviation s16 := (wraps 16).
Abbreviation s32 := (wraps 32).
Abbreviation s64 := (wraps 64).

Definition UINT64_MAX : Z := 2 ^ 64 - 1.
Definition UINT32_MAX : Z := 2 ^ 32 - 1.
Definition UINT16_MAX : Z := 2 ^ 16 - 1.
Definition INT64_MAX : Z := 2 ^ 63 - 1.
Definition INT64_MIN : Z := - 2 ^ 63.
Definition INT32_MAX : Z := 2 ^ 31 - 1.
Definition INT32_MIN : Z := - 2 ^ 31.
Definition INT16_MAX : Z := 2 ^ 15 - 1.
Definition INT16_MIN : Z := - 2 ^ 15.

(** Truth values of C conditions. *)
Definition c_bool (b : bool) : Z := if b then 1 else 0.

Lemma wrapu_id w z : 0 <= z < 2 ^ w -> wrapu w z = z.
Proof. intros H. unfold wrapu. by rewrite Z.mod_small. Qed.

Lemma wrapu_range w z : 0 <= w -> 0 <= wrapu w z < 2 ^ w.
Proof. intros. unfold wrapu. apply Z.mod_pos_bound. lia. Qed.

Lemma wraps_id w z :
  0 < w -> - 2 ^ (w - 1) <= z < 2 ^ (w - 1) -> wraps w z = z.
Proof.
  intros Hw H. unfold wraps.
  assert (2 ^ w = 2 * 2 ^ (w - 1)) as E.
  { rewrite <- (Z.pow_succ_r 2 (w - 1)) by lia. f_equal. lia. }
  rewrite Z.mod_small; lia.
Qed.

Lemma wraps_range w z :
  0 < w -> - 2 ^ (w - 1) <= wraps w z < 2 ^ (w - 1).
Proof.
  intros Hw. unfold wraps.
  assert (2 ^ w = 2 * 2 ^ (w - 1)) as E.
  { rewrite <- (Z.pow_succ_r 2 (w - 1)) by lia. f_equal. lia. }
  pose proof (Z.mod_pos_bound (z + 2 ^ (w - 1)) (2 ^ w)). lia.
Qed.

Lemma wrapu_mod w z k : wrapu w (z + k * 2 ^ w) = wrapu w z.
Proof. unfold wrapu. apply Z_mod_plus_full. Qed.

(** ** Sums of integer lists *)

Fixpoint zsum (l : list Z) : Z :=
  match l with [] => 0 | x :: l => x + zsum l end.

(** The sum of the first [n] elements. *)
Definition psum (l : list Z) (n : Z) : Z := zsum (take (Z.to_nat n) l).

Lemma zsum_app l k : zsum (l ++ k) = zsum l + zsum k.
Proof. induction l; simpl; lia. Qed.

Lemma zsum_nonneg l : Forall (fun x => 0 <= x) l -> 0 <= zsum l.
Proof. induction 1; simpl; lia. Qed.

Lemma zsum_insert l k x y :
  l !! k = Some x -> zsum (<[k := y]> l) = zsum l - x + y.
Proof.
  revert k. induction l as [|z l IH]; intros [|k]; simpl; try done.
  - intros [= ->]. lia.
  - intros H. rewrite (IH _ H). lia.
Qed.

Lemma zsum_replicate_0 n : zsum (replicate n 0) = 0.
Proof. induction n; simpl; lia. Qed.

Lemma psum_0 l n : n <= 0 -> psum l n = 0.
Proof. intros H. unfold psum. by replace (Z.to_nat n) with O by lia. Qed.

Lemma psum_all l n : Z.of_nat (length l) <= n -> psum l n = zsum l.
Proof. intros H. unfold psum. rewrite take_ge; [done|lia]. Qed.

Lemma psum_replicate_0 k n : psum (replicate k 0) n = 0.
Proof. unfold psum. rewrite take_replicate. apply zsum_replicate_0. Qed.

Lemma psum_mono l n m :
  Forall (fun x => 0 <= x) l -> n <= m -> psum l n <= psum l m.
Proof.
  intros Hl H. unfold psum.
  replace (Z.to_nat m) with (Z.to_nat n + (Z.to_nat m - Z.to_nat n))%nat by lia.
  rewrite <- take_take_drop, zsum_app.
  enough (0 <= zsum (take (Z.to_nat m - Z.to_nat n) (drop (Z.to_nat n) l))) by lia.
  apply zsum_nonneg. by apply Forall_take, Forall_drop.
Qed.

Lemma psum_succ l n x :
  0 <= n -> l !! Z.to_nat n = Some x -> psum l (n + 1) = psum l n + x.
Proof.
  intros Hn H. unfold psum. replace (Z.to_nat (n + 1)) with (S (Z.to_nat n)) by lia.
  rewrite (take_S_r _ _ _ H), zsum_app. simpl. lia.
Qed.

Lemma psum_insert l k x d n :
  0 <= k -> l !! Z.to_nat k = Some x ->
  psum (<[Z.to_nat k := x + d]> l) n = psum l n + (if k <? n then d else 0).
Proof.
  intros Hk H. unfold psum. destruct (Z.ltb_spec k n).
  - rewrite take_insert_lt by lia. erewrite zsum_insert; [|rewrite lookup_take_lt; [done|lia]].
    lia.
  - rewrite take_insert_ge by lia. lia.
Qed.

(** [lia] extended to division and remainder by constants. *)
Ltac dlia := Z.div_mod_to_equations; lia.

(** ** Insertion and deletion at an index *)

Definition insert_at {A} (p : nat) (x : A) (l : list A) : list A := take p l ++ x :: drop p l.
Definition delete_at {A} (p : nat) (l : list A) : list A := take p l ++ drop (S p) l.

Lemma lookup_insert_at {A} (l : list A) p x i : (p <= length l)%nat ->
  insert_at p x l !! i =
  if decide (i < p)%nat then l !! i else if decide (i = p) then Some x else l !! (i - 1)%nat.
Proof.
  intros Hp. unfold insert_at. assert (length (take p l) = p) as Hl by (rewrite length_take; lia).
  case_decide; [rewrite lookup_app_l by lia; apply lookup_take_lt; lia|].
  rewrite lookup_app_r, Hl by lia. case_decide as Hi.
  - subst. by rewrite Nat.sub_diag.
  - replace (i - p)%nat with (S (i - p - 1)) by lia. simpl. rewrite lookup_drop. f_equal. lia.
Qed.

Lemma lookup_delete_at {A} (l : list A) p i : (p < length l)%nat ->
  delete_at p l !! i = if decide (i < p)%nat then l !! i else l !! (S i).
Proof.
  intros Hp. unfold delete_at. assert (length (take p l) = p) as Hl by (rewrite length_take; lia).
  case_decide; [rewrite lookup_app_l by lia; apply lookup_take_lt; lia|].
  rewrite lookup_app_r, Hl, lookup_drop by lia. f_equal. lia.
Qed.

Lemma length_insert_at {A} (l : list A) p x : length (insert_at p x l) = S (length l).
Proof.
  unfold insert_at. rewrite length_app, length_take. simpl. rewrite length_drop. lia.
Qed.

Lemma length_delete_at {A} (l : list A) p :
  (p < length l)%nat -> length (delete_at p l) = (length l - 1)%nat.
Proof. intros. unfold delete_at. rewrite length_app, length_take, length_drop. lia. Qed.

Lemma elem_of_insert_at {A} (l : list A) p x y : y ∈ insert_at p x l <-> y = x \/ y ∈ l.
Proof.
  unfold insert_at. rewrite <- (take_drop p l) at 3. rewrite !elem_of_app, elem_of_cons.
  tauto.
Qed.
