(* ===== verification/Memory.v ===== *)
(** * Memory: arrays, byte buffers and the allocator

    C objects of array type are lists; an access outside the list is
    [OutOfBounds].  [rd]/[wr] are the subscript operator, [rdn]/[wrn] block
    copies, [c_memmove] is [memmove()] inside one object, and [Allocator] is
    what the code relies on of [zmalloc()]/[zrealloc()]. *)

From S2P Require Import Prelude.

Definition Zlen {A} (l : list A) : Z := Z.of_nat (length l).

(** [l[i]] as a value and as an assignment. *)
Definition rd {A} (l : list A) (i : Z) : outcome A :=
  if i <? 0 then OutOfBounds
  else match l !! Z.to_nat i with Some x => Ret x | None => OutOfBounds end.

Definition wr {A} (l : list A) (i : Z) (x : A) : outcome (list A) :=
  if (0 <=? i) && (i <? Zlen l) then Ret (<[Z.to_nat i := x]> l) else OutOfBounds.

(** Block read and block write of [n] cells at [i]. *)
Definition rdn {A} (l : list A) (i n : Z) : outcome (list A) :=
  if (0 <=? i) && (0 <=? n) && (i + n <=? Zlen l)
  then Ret (take (Z.to_nat n) (drop (Z.to_nat i) l)) else OutOfBounds.

Definition wrn {A} (l : list A) (i : Z) (xs : list A) : outcome (list A) :=
  if (0 <=? i) && (i + Zlen xs <=? Zlen l)
  then Ret (take (Z.to_nat i) l ++ xs ++ drop (Z.to_nat (i + Zlen xs)) l)
  else OutOfBounds.

(** [memmove(l+dst, l+src, n)]: the source is read in full before the write. *)
Definition c_memmove {A} (l : list A) (dst src n : Z) : outcome (list A) :=
  bs ← rdn l src n; wrn l dst bs.

Section arrays.
Context {A : Type}.
Implicit Types (l : list A) (i n : Z).

Lemma Zlen_nonneg l : 0 <= Zlen l.
Proof. unfold Zlen. lia. Qed.

Lemma Zlen_nil : Zlen (@nil A) = 0.
Proof. done. Qed.

Lemma Zlen_cons x l : Zlen (x :: l) = 1 + Zlen l.
Proof. unfold Zlen. simpl. lia. Qed.

Lemma Zlen_app l k : Zlen (l ++ k) = Zlen l + Zlen k.
Proof. unfold Zlen. rewrite length_app. lia. Qed.

Lemma Zlen_insert l j x : Zlen (<[j := x]> l) = Zlen l.
Proof. unfold Zlen. by rewrite length_insert. Qed.

Lemma Zlen_take n l : 0 <= n <= Zlen l -> Zlen (take (Z.to_nat n) l) = n.
Proof. unfold Zlen. intros H. rewrite length_take. lia. Qed.

Lemma Zlen_drop n l : 0 <= n <= Zlen l -> Zlen (drop (Z.to_nat n) l) = Zlen l - n.
Proof. unfold Zlen. intros H. rewrite length_drop. lia. Qed.

Lemma rd_lookup l i x : 0 <= i -> l !! Z.to_nat i = Some x -> rd l i = Ret x.
Proof. intros Hi H. unfold rd. destruct (Z.ltb_spec i 0); [lia|]. by rewrite H. Qed.

Lemma rd_Ret_inv l i x :
  rd l i = Ret x -> 0 <= i < Zlen l /\ l !! Z.to_nat i = Some x.
Proof.
  unfold rd, Zlen. destruct (Z.ltb_spec i 0); [done|].
  destruct (l !! Z.to_nat i) eqn:E; [|done]. intros [= ->]. split; [|done].
  apply lookup_lt_Some in E. lia.
Qed.

Lemma rd_ok l i : 0 <= i < Zlen l -> exists x, rd l i = Ret x.
Proof.
  unfold Zlen. intros H. destruct (lookup_lt_is_Some_2 l (Z.to_nat i)) as [x Hx]; [lia|].
  exists x. apply rd_lookup; [lia|done].
Qed.

Lemma rd_app_l l k i : i < Zlen l -> rd (l ++ k) i = rd l i.
Proof.
  unfold rd, Zlen. intros H. destruct (Z.ltb_spec i 0); [done|].
  rewrite lookup_app_l by lia. done.
Qed.

Lemma rd_app_r l k i : Zlen l <= i -> rd (l ++ k) i = rd k (i - Zlen l).
Proof.
  unfold rd, Zlen. intros H. destruct (Z.ltb_spec i 0); [lia|].
  destruct (Z.ltb_spec (i - Z.of_nat (length l)) 0); [lia|].
  rewrite lookup_app_r by lia. f_equal.
  replace (Z.to_nat i - length l)%nat with (Z.to_nat (i - Z.of_nat (length l))) by lia.
  done.
Qed.

Lemma rd_app_off l k j : 0 <= j -> rd (l ++ k) (Zlen l + j) = rd k j.
Proof. intros H. rewrite rd_app_r by lia. f_equal. lia. Qed.

Lemma rd_head x l : rd (x :: l) 0 = Ret x.
Proof. done. Qed.

Lemma rd_cons x l i : 0 < i -> rd (x :: l) i = rd l (i - 1).
Proof.
  intros H. change (x :: l) with ([x] ++ l). rewrite rd_app_r; [done|].
  unfold Zlen. simpl. lia.
Qed.

Lemma wr_ok l i x : 0 <= i < Zlen l -> wr l i x = Ret (<[Z.to_nat i := x]> l).
Proof.
  intros H. unfold wr. destruct (Z.leb_spec 0 i), (Z.ltb_spec i (Zlen l)); try lia. done.
Qed.

Lemma wr_Ret_inv l i x l' : wr l i x = Ret l' -> 0 <= i < Zlen l /\ l' = <[Z.to_nat i := x]> l.
Proof. unfold wr. destruct (Z.leb_spec 0 i), (Z.ltb_spec i (Zlen l)); try done. intros [= <-]. done. Qed.

Lemma rd_insert_eq l i x : 0 <= i < Zlen l -> rd (<[Z.to_nat i := x]> l) i = Ret x.
Proof.
  intros H. apply rd_lookup; [lia|]. apply list_lookup_insert_eq. unfold Zlen in H. lia.
Qed.

Lemma rd_insert_ne l i j x :
  0 <= i -> i <> j -> rd (<[Z.to_nat i := x]> l) j = rd l j.
Proof.
  intros Hi H. unfold rd. destruct (Z.ltb_spec j 0); [done|].
  rewrite list_lookup_insert_ne by lia. done.
Qed.

Lemma rdn_app l k m :
  rdn (l ++ k ++ m) (Zlen l) (Zlen k) = Ret k.
Proof.
  unfold rdn. rewrite !Zlen_app.
  pose proof (Zlen_nonneg l); pose proof (Zlen_nonneg k); pose proof (Zlen_nonneg m).
  destruct (Z.leb_spec 0 (Zlen l)), (Z.leb_spec 0 (Zlen k)),
    (Z.leb_spec (Zlen l + Zlen k) (Zlen l + (Zlen k + Zlen m))); try lia. simpl.
  unfold Zlen. rewrite !Nat2Z.id, drop_app_length, take_app_length. done.
Qed.

Lemma wrn_app l k k' m :
  length k = length k' -> wrn (l ++ k ++ m) (Zlen l) k' = Ret (l ++ k' ++ m).
Proof.
  intros E. unfold wrn. rewrite !Zlen_app.
  assert (Zlen k = Zlen k') as EZ by (unfold Zlen; lia).
  pose proof (Zlen_nonneg l); pose proof (Zlen_nonneg k); pose proof (Zlen_nonneg m).
  destruct (Z.leb_spec 0 (Zlen l)),
    (Z.leb_spec (Zlen l + Zlen k') (Zlen l + (Zlen k + Zlen m))); try lia. simpl.
  f_equal. unfold Zlen at 1. rewrite Nat2Z.id, take_app_length. do 2 f_equal.
  replace (Z.to_nat (Zlen l + Zlen k')) with (length l + length k)%nat by (unfold Zlen; lia).
  rewrite app_assoc, <- length_app, drop_app_length. done.
Qed.

Lemma rdn_length l i n bs : rdn l i n = Ret bs -> Zlen bs = n /\ 0 <= i /\ i + n <= Zlen l.
Proof.
  unfold rdn. destruct (Z.leb_spec 0 i), (Z.leb_spec 0 n), (Z.leb_spec (i + n) (Zlen l));
    simpl; try done. intros [= <-]. unfold Zlen in *.
  rewrite length_take, length_drop. lia.
Qed.

Lemma wrn_length l i xs l' : wrn l i xs = Ret l' -> length l' = length l.
Proof.
  unfold wrn. destruct (Z.leb_spec 0 i), (Z.leb_spec (i + Zlen xs) (Zlen l)); simpl; try done.
  intros [= <-]. unfold Zlen in *.
  rewrite !length_app, length_take, length_drop. lia.
Qed.
End arrays.

Create Rewrite HintDb zlen.
#[export] Hint Rewrite @Zlen_nil @Zlen_cons @Zlen_app @Zlen_insert : zlen.
Ltac zlen := autorewrite with zlen in *.

(** ** Block reads after block writes *)

Section blocks.
Context {A : Type}.
Implicit Types (l : list A) (i n : Z).

Lemma rdn_ok l i n : 0 <= i -> 0 <= n -> i + n <= Zlen l ->
  rdn l i n = Ret (take (Z.to_nat n) (drop (Z.to_nat i) l)).
Proof.
  intros. unfold rdn.
  destruct (Z.leb_spec 0 i), (Z.leb_spec 0 n), (Z.leb_spec (i + n) (Zlen l)); try lia. done.
Qed.

Lemma wrn_ok l i xs : 0 <= i -> i + Zlen xs <= Zlen l ->
  wrn l i xs = Ret (take (Z.to_nat i) l ++ xs ++ drop (Z.to_nat (i + Zlen xs)) l).
Proof.
  intros. unfold wrn.
  destruct (Z.leb_spec 0 i), (Z.leb_spec (i + Zlen xs) (Zlen l)); try lia. done.
Qed.

(** A block read depends only on the cells it covers. *)
Lemma rdn_ext l l' i n : 0 <= i -> 0 <= n ->
  i + n <= Zlen l -> i + n <= Zlen l' ->
  (forall j, i <= j < i + n -> l !! Z.to_nat j = l' !! Z.to_nat j) ->
  rdn l i n = rdn l' i n.
Proof.
  intros Hi Hn Hl Hl' H. rewrite !rdn_ok by done. f_equal. apply list_eq. intros k.
  destruct (decide (k < Z.to_nat n)%nat) as [Hk|Hk].
  - rewrite !lookup_take_lt, !lookup_drop by done.
    specialize (H (i + Z.of_nat k) ltac:(lia)).
    by replace (Z.to_nat (i + Z.of_nat k)) with (Z.to_nat i + k)%nat in H by lia.
  - rewrite !lookup_take_ge by lia. done.
Qed.

Lemma lookup_wrn l i xs l' k : wrn l i xs = Ret l' ->
  l' !! k = if decide (i <= Z.of_nat k < i + Zlen xs) then xs !! (k - Z.to_nat i)%nat
            else l !! k.
Proof.
  unfold wrn. destruct (Z.leb_spec 0 i), (Z.leb_spec (i + Zlen xs) (Zlen l)); simpl; try done.
  intros [= <-]. unfold Zlen in *. case_decide as Hk.
  - rewrite lookup_app_r by (rewrite length_take; lia).
    rewrite lookup_app_l by (rewrite length_take; lia).
    f_equal. rewrite length_take. lia.
  - destruct (decide (Z.of_nat k < i)).
    + rewrite lookup_app_l by (rewrite length_take; lia). apply lookup_take_lt. lia.
    + rewrite lookup_app_r by (rewrite length_take; lia).
      rewrite lookup_app_r by (rewrite length_take; lia).
      rewrite lookup_drop. f_equal. rewrite length_take. lia.
Qed.

Lemma rdn_wrn_eq l i xs l' : wrn l i xs = Ret l' -> rdn l' i (Zlen xs) = Ret xs.
Proof.
  intros H. pose proof (wrn_length _ _ _ _ H) as Hl. pose proof (Zlen_nonneg xs).
  assert (0 <= i /\ i + Zlen xs <= Zlen l) as [Hi Hle].
  { unfold wrn in H. destruct (Z.leb_spec 0 i), (Z.leb_spec (i + Zlen xs) (Zlen l)); done. }
  rewrite rdn_ok by (unfold Zlen in *; lia). f_equal. apply list_eq. intros k.
  destruct (decide (k < length xs)%nat) as [Hk|Hk].
  - rewrite lookup_take_lt, lookup_drop, (lookup_wrn _ _ _ _ _ H) by (unfold Zlen in *; lia).
    unfold Zlen in *. rewrite decide_True by lia. f_equal. lia.
  - rewrite lookup_take_ge by (unfold Zlen; lia). symmetry. apply lookup_ge_None. lia.
Qed.

Lemma rdn_wrn_ne l i xs l' j n : wrn l i xs = Ret l' ->
  j + n <= i \/ i + Zlen xs <= j -> rdn l' j n = rdn l j n.
Proof.
  intros H Hd. pose proof (wrn_length _ _ _ _ H) as Hl. unfold rdn.
  replace (Zlen l') with (Zlen l) by (unfold Zlen; lia).
  destruct (Z.leb_spec 0 j), (Z.leb_spec 0 n), (Z.leb_spec (j + n) (Zlen l)); try done. simpl.
  rewrite <- !rdn_ok by (unfold Zlen in *; lia).
  apply rdn_ext; try (unfold Zlen in *; lia). intros k Hk.
  rewrite (lookup_wrn _ _ _ _ _ H), decide_False; [done|]. lia.
Qed.

(** Reading inside a block that was read. *)
Lemma rdn_sub l i n bs j m : rdn l i n = Ret bs -> 0 <= j -> 0 <= m -> j + m <= n ->
  rdn l (i + j) m = rdn bs j m.
Proof.
  intros H Hj Hm Hle. pose proof (rdn_length _ _ _ _ H) as (Hb & Hi & Hl).
  rewrite rdn_ok in H by lia. injection H as <-.
  rewrite !rdn_ok by lia. f_equal. apply list_eq. intros k.
  destruct (decide (k < Z.to_nat m)%nat) as [Hk|Hk].
  - rewrite !lookup_take_lt, !lookup_drop, lookup_take_lt, lookup_drop by lia. f_equal. lia.
  - rewrite !lookup_take_ge by lia. done.
Qed.

(** Block reads in the tail of a list. *)
Lemma rdn_drop l k i n : 0 <= i -> 0 <= k <= Zlen l ->
  rdn (drop (Z.to_nat k) l) i n = rdn l (k + i) n.
Proof.
  intros Hi Hk. unfold rdn. rewrite Zlen_drop by lia.
  destruct (Z.leb_spec 0 i), (Z.leb_spec 0 (k + i)), (Z.leb_spec 0 n),
    (Z.leb_spec (i + n) (Zlen l - k)), (Z.leb_spec (k + i + n) (Zlen l)); try lia; try done.
  simpl. rewrite drop_drop. do 3 f_equal. lia.
Qed.

Lemma rdn_app_off l k i n : 0 <= i -> rdn (l ++ k) (Zlen l + i) n = rdn k i n.
Proof.
  intros Hi. pose proof (Zlen_nonneg l). pose proof (Zlen_nonneg k).
  rewrite <- rdn_drop by (rewrite ?Zlen_app; lia).
  unfold Zlen. by rewrite Nat2Z.id, drop_app_length.
Qed.

(** The cells a [memmove] writes and the cells it keeps. *)
Lemma memmove_spec l dst src n : 0 <= dst -> 0 <= src -> 0 <= n ->
  dst + n <= Zlen l -> src + n <= Zlen l ->
  exists l', c_memmove l dst src n = Ret l' /\ Zlen l' = Zlen l /\
    (forall j m, 0 <= j -> 0 <= m -> j + m <= n -> rdn l' (dst + j) m = rdn l (src + j) m) /\
    (forall j m, j + m <= dst \/ dst + n <= j -> rdn l' j m = rdn l j m).
Proof.
  intros Hd Hs Hn Hdl Hsl. unfold c_memmove.
  destruct (rdn l src n) as [bs| | |] eqn:E; try (rewrite rdn_ok in E by lia; done). simpl.
  pose proof (rdn_length _ _ _ _ E) as (Hb & _ & _).
  destruct (wrn l dst bs) as [l'| | |] eqn:Ew; try (rewrite wrn_ok in Ew by lia; done).
  exists l'. split; [done|]. split; [pose proof (wrn_length _ _ _ _ Ew); unfold Zlen; lia|]. split.
  - intros j m Hj Hm Hle. apply rdn_wrn_eq in Ew as Er. rewrite Hb in Er.
    rewrite (rdn_sub _ _ _ _ _ _ Er), (rdn_sub _ _ _ _ _ _ E) by lia. done.
  - intros j m Hjm. apply (rdn_wrn_ne _ _ _ _ _ _ Ew). lia.
Qed.
End blocks.

(** ** Little-endian integers *)

Fixpoint le_bytes (n : nat) (z : Z) : list Z :=
  match n with O => [] | S n => z mod 256 :: le_bytes n (z / 256) end.

Fixpoint le_value (bs : list Z) : Z :=
  match bs with [] => 0 | b :: bs => b + 256 * le_value bs end.

Definition is_byte (b : Z) : Prop := 0 <= b < 256.

Lemma length_le_bytes n z : length (le_bytes n z) = n.
Proof. revert z. induction n; intros; simpl; [done|]. by rewrite IHn. Qed.

Lemma Zlen_le_bytes n z : Zlen (le_bytes n z) = Z.of_nat n.
Proof. unfold Zlen. by rewrite length_le_bytes. Qed.

Lemma le_bytes_byte n z : Forall is_byte (le_bytes n z).
Proof.
  revert z. induction n; intros; simpl; constructor; [|done].
  unfold is_byte. apply Z.mod_pos_bound. lia.
Qed.

Lemma le_value_bytes n z : le_value (le_bytes n z) = z mod 2 ^ (8 * Z.of_nat n).
Proof.
  revert z. induction n as [|n IH]; intros z; simpl le_bytes; simpl le_value.
  - simpl. by rewrite Z.mod_1_r.
  - rewrite IH. replace (8 * Z.of_nat (S n)) with (8 + 8 * Z.of_nat n) by lia.
    rewrite Z.pow_add_r by lia. change (2 ^ 8) with 256.
    rewrite Z.rem_mul_r by lia. done.
Qed.

Lemma wraps_le_value n z :
  (0 < n)%nat -> - 2 ^ (8 * Z.of_nat n - 1) <= z < 2 ^ (8 * Z.of_nat n - 1) ->
  wraps (8 * Z.of_nat n) (le_value (le_bytes n z)) = z.
Proof.
  intros Hn Hz. rewrite le_value_bytes. set (w := 8 * Z.of_nat n) in *.
  rewrite <- (wraps_id w z) at 2 by lia. unfold wraps. f_equal.
  by rewrite Zplus_mod_idemp_l.
Qed.

Lemma le_value_nonneg bs : Forall is_byte bs -> 0 <= le_value bs.
Proof. induction 1 as [|b bs Hb _ IH]; simpl; unfold is_byte in *; lia. Qed.

Lemma le_bytes_mod n z : le_bytes n (z mod 2 ^ (8 * Z.of_nat n)) = le_bytes n z.
Proof.
  revert z. induction n as [|n IH]; intros z; [done|]. simpl.
  replace (8 * Z.of_nat (S n)) with (8 + 8 * Z.of_nat n) by lia.
  rewrite Z.pow_add_r by lia. change (2 ^ 8) with 256.
  set (m := 2 ^ (8 * Z.of_nat n)). assert (0 < m) by (unfold m; lia).
  rewrite (Z.rem_mul_r z 256 m) by lia. f_equal.
  - rewrite Z.mul_comm, Z.mod_add by lia. apply Z.mod_mod. lia.
  - rewrite Z.mul_comm, Z.div_add by lia. rewrite Z.mod_div, Z.add_0_l by lia. apply IH.
Qed.

Lemma le_bytes_value bs : Forall is_byte bs -> le_bytes (length bs) (le_value bs) = bs.
Proof.
  induction 1 as [|b bs Hb Hbs IH]; [done|]. simpl. unfold is_byte in Hb.
  replace ((b + 256 * le_value bs) mod 256) with b by dlia.
  replace ((b + 256 * le_value bs) / 256) with (le_value bs) by dlia. by rewrite IH.
Qed.

(** Sign-extending the value of bytes does not change its bytes. *)
Lemma le_bytes_wraps n bs :
  Forall is_byte bs -> length bs = n ->
  le_bytes n (wraps (8 * Z.of_nat n) (le_value bs)) = bs.
Proof.
  intros Hb <-. rewrite <- le_bytes_mod. unfold wraps.
  rewrite Zminus_mod_idemp_l, Z.add_simpl_r, le_bytes_mod. by apply le_bytes_value.
Qed.

(** ** Blocks read piecewise *)

Section pieces.
Context {A : Type}.
Implicit Types (l : list A).

Lemma rdn_join l i n m a b : rdn l i n = Ret a -> rdn l (i + n) m = Ret b ->
  rdn l i (n + m) = Ret (a ++ b).
Proof.
  intros Ha Hb. pose proof (rdn_length _ _ _ _ Ha) as (La & ? & ?).
  pose proof (rdn_length _ _ _ _ Hb) as (Lb & ? & ?).
  pose proof (Zlen_nonneg a). pose proof (Zlen_nonneg b).
  rewrite rdn_ok in Ha, Hb |- * by lia. injection Ha as <-. injection Hb as <-. f_equal.
  replace (Z.to_nat (n + m)) with (Z.to_nat n + Z.to_nat m)%nat by lia.
  rewrite <- take_take_drop, drop_drop. do 3 f_equal. lia.
Qed.

Lemma rdn_split l i a b : rdn l i (Zlen a + Zlen b) = Ret (a ++ b) ->
  rdn l i (Zlen a) = Ret a /\ rdn l (i + Zlen a) (Zlen b) = Ret b.
Proof.
  intros H. pose proof (Zlen_nonneg a). pose proof (Zlen_nonneg b). split.
  - rewrite <- (Z.add_0_r i). rewrite (rdn_sub _ _ _ _ _ _ H) by lia. exact (rdn_app [] a b).
  - rewrite (rdn_sub _ _ _ _ _ _ H) by lia. pose proof (rdn_app a b []) as E.
    by rewrite app_nil_r in E.
Qed.

Lemma rdn_nil l i : 0 <= i <= Zlen l -> rdn l i 0 = Ret [].
Proof. intros Hi. by rewrite rdn_ok by lia. Qed.

Lemma rdn_one l i x : rd l i = Ret x -> rdn l i 1 = Ret [x].
Proof.
  intros Hx. apply rd_Ret_inv in Hx as [Hi Hx]. rewrite rdn_ok by lia. f_equal.
  change (Z.to_nat 1) with 1%nat. by rewrite (drop_S _ _ _ Hx).
Qed.
End pieces.

(** A block write: its success, what it writes, what it keeps. *)
Lemma wrn_spec {A} (l : list A) i xs : 0 <= i -> i + Zlen xs <= Zlen l ->
  exists l', wrn l i xs = Ret l' /\ Zlen l' = Zlen l /\ rdn l' i (Zlen xs) = Ret xs /\
    (forall j n, j + n <= i \/ i + Zlen xs <= j -> rdn l' j n = rdn l j n).
Proof.
  intros Hi Hl. destruct (wrn l i xs) as [l'| | |] eqn:E; try (rewrite wrn_ok in E by lia; done).
  exists l'. split; [done|]. pose proof (wrn_length _ _ _ _ E). split; [unfold Zlen; lia|].
  split; [by eapply rdn_wrn_eq|]. intros j n Hjn. by eapply rdn_wrn_ne.
Qed.

Lemma wrn_join (l : list Z) i a b : 0 <= i -> i + Zlen a + Zlen b <= Zlen l ->
  (l1 ← wrn l i a; wrn l1 (i + Zlen a) b) = wrn l i (a ++ b).
Proof.
  intros Hi Hl. pose proof (Zlen_nonneg a). pose proof (Zlen_nonneg b).
  rewrite (wrn_ok l i (a ++ b)) by (rewrite ?Zlen_app; lia).
  rewrite wrn_ok by lia. cbn [mbind outcome_bind].
  assert (Zlen (take (Z.to_nat i) l) = i) as Ht by (apply Zlen_take; lia).
  set (d := drop (Z.to_nat (i + Zlen a)) l).
  assert (Zlen d = Zlen l - (i + Zlen a)) as Hd by (apply Zlen_drop; lia).
  replace (i + Zlen a) with (Zlen (take (Z.to_nat i) l ++ a)) at 1 by (rewrite Zlen_app; lia).
  rewrite (app_assoc _ a d), <- (take_drop (Z.to_nat (Zlen b)) d).
  rewrite wrn_app by (rewrite length_take; unfold Zlen in *; lia).
  f_equal. rewrite <- !app_assoc. do 3 f_equal. unfold d. rewrite drop_drop. f_equal.
  rewrite Zlen_app. lia.
Qed.

Lemma rd_of_rdn {A} (l : list A) p n bs j : rdn l p n = Ret bs -> 0 <= j < n -> rd l (p + j) = rd bs j.
Proof.
  intros H Hj. pose proof (rdn_length _ _ _ _ H) as (Hn & Hp & Hle).
  rewrite rdn_ok in H by lia. injection H as <-. unfold rd.
  destruct (Z.ltb_spec (p + j) 0), (Z.ltb_spec j 0); try lia.
  rewrite lookup_take_lt, lookup_drop by lia. by replace (Z.to_nat (p + j)) with (Z.to_nat p + Z.to_nat j)%nat by lia.
Qed.

Lemma rd_is_byte l q x : Forall is_byte l -> rd l q = Ret x -> is_byte x.
Proof. intros Hl Hq. apply rd_Ret_inv in Hq as [_ Hq]. by apply (Forall_lookup_1 _ _ _ _ Hl Hq). Qed.

(** ** Bit operations as arithmetic *)

Lemma lor_shiftl_add x y n : 0 <= n -> 0 <= x < 2 ^ n -> Z.lor x (Z.shiftl y n) = x + y * 2 ^ n.
Proof.
  intros Hn Hx. rewrite <- Z.shiftl_mul_pow2 by lia.
  enough (Z.land x (Z.shiftl y n) = 0) as E
    by (rewrite <- Z.lxor_lor, <- Z.add_nocarry_lxor; done).
  apply Z.bits_inj'. intros k Hk. rewrite Z.land_spec, Z.bits_0.
  destruct (Z.lt_ge_cases k n) as [H|H].
  - rewrite Z.shiftl_spec_low by lia. apply andb_false_r.
  - rewrite <- (Z.mod_small x (2 ^ n)), Z.mod_pow2_bits_high by lia. done.
Qed.

Lemma shiftr_div x n : 0 <= n -> Z.shiftr x n = x / 2 ^ n.
Proof. apply Z.shiftr_div_pow2. Qed.

(** A bit by a mask. *)
Lemma land_bit x k : 0 <= k -> negb (Z.land x (2 ^ k) =? 0) = Z.testbit x k.
Proof.
  intros Hk. destruct (Z.testbit x k) eqn:E.
  - apply negb_true_iff, Z.eqb_neq. intros H. assert (Z.testbit (Z.land x (2 ^ k)) k = false) as Hf by (rewrite H; apply Z.bits_0).
    rewrite Z.land_spec, E, Z.pow2_bits_true in Hf by lia. done.
  - apply negb_false_iff, Z.eqb_eq. apply Z.bits_inj'. intros i Hi. rewrite Z.land_spec, Z.bits_0. destruct (Z.eq_dec k i) as [->|].
    + by rewrite E.
    + rewrite Z.pow2_bits_false by done. apply andb_false_r.
Qed.

Lemma land_255 x : Z.land x 255 = x mod 256.
Proof. exact (Z.land_ones x 8 ltac:(lia)). Qed.

Lemma land_127 x : Z.land x 127 = x mod 128.
Proof. exact (Z.land_ones x 7 ltac:(lia)). Qed.

(** A decidable fact about one byte is checked on all 256 values. *)
Lemma byte_forallb (P : Z -> bool) :
  forallb P (seqZ 0 256) = true -> forall b, is_byte b -> P b = true.
Proof.
  rewrite forallb_forall. intros H b Hb. apply H. apply list_elem_of_In, elem_of_seqZ.
  unfold is_byte in Hb. lia.
Qed.

Lemma byte_eqb_fun (f g : Z -> bool) :
  forallb (fun b => Bool.eqb (f b) (g b)) (seqZ 0 256) = true -> forall b, is_byte b -> f b = g b.
Proof. intros H b Hb. apply Bool.eqb_prop. by apply (byte_forallb _ H). Qed.

(** Reads inside the middle part of a block. *)
Lemma rd_mid (pre e post : list Z) q j x :
  rd e j = Ret x -> q = Zlen pre + j -> rd (pre ++ e ++ post) q = Ret x.
Proof.
  intros H ->. apply rd_Ret_inv in H as H'. destruct H' as [Hj _].
  rewrite rd_app_off, rd_app_l by lia. done.
Qed.

Lemma rdn_mid (pre e post : list Z) q j n bs :
  rdn e j n = Ret bs -> q = Zlen pre + j -> rdn (pre ++ e ++ post) q n = Ret bs.
Proof.
  intros H ->. pose proof (rdn_length _ _ _ _ H) as (_ & ? & ?).
  pose proof (Zlen_nonneg post). rewrite <- H.
  assert (0 <= n) by (unfold rdn in H; destruct (Z.leb_spec 0 j), (Z.leb_spec 0 n); done).
  rewrite rdn_app_off by lia. apply rdn_ext; zlen; try lia. intros k Hk.
  unfold Zlen in *. rewrite lookup_app_l by lia. done.
Qed.

(** ** The allocator

    [zmalloc(n)] returns a block of at least [n] bytes with unspecified
    contents and [zrealloc(b, n)] one that keeps the first
    [min (size b) n] of them; [zmalloc_size(b)] is the size of the block. Both
    abort the process instead of returning NULL when memory is exhausted
    (zmalloc.c, [zmalloc_default_oom]), so no failure value is modelled. *)
Class Allocator : Type := {
  zmalloc : Z -> list Z;
  zrealloc : list Z -> Z -> list Z;
  zmalloc_size_ge : forall n, n <= Zlen (zmalloc n);
  zrealloc_size_ge : forall b n, n <= Zlen (zrealloc b n);
  zrealloc_prefix : forall b n k, (k <= length b)%nat -> Z.of_nat k <= n ->
    take k (zrealloc b n) = take k b;
}.

(** An allocator that gives exactly what is asked for, zero-filled. *)
#[refine] Definition exact_allocator : Allocator := {|
  zmalloc n := replicate (Z.to_nat n) 0;
  zrealloc b n := take (Z.to_nat n) b ++ replicate (Z.to_nat n - length b) 0;
|}.
Proof.
  - intros n. unfold Zlen. rewrite length_replicate. lia.
  - intros b n. unfold Zlen. rewrite length_app, length_take, length_replicate. lia.
  - intros b n k Hk Hn. rewrite take_app_le by (rewrite length_take; lia).
    rewrite take_take. f_equal. lia.
Defined.

(** Reads of a grown or shrunk block see the old contents. *)
Lemma rdn_zrealloc `{Allocator} (b : list Z) n i k :
  0 <= i -> 0 <= k -> i + k <= Zlen b -> i + k <= n ->
  rdn (zrealloc b n) i k = rdn b i k.
Proof.
  intros Hi Hk Hb Hn. pose proof (zrealloc_size_ge b n).
  apply rdn_ext; try lia. intros j Hj. unfold Zlen in *.
  pose proof (zrealloc_prefix b n (S (Z.to_nat j)) ltac:(lia) ltac:(lia)) as E.
  apply (f_equal (fun l => l !! Z.to_nat j)) in E. by rewrite !lookup_take_lt in E by lia.
Qed.

(** ** 64-bit words *)

Definition is_u64 (x : Z) : Prop := 0 <= x < 2 ^ 64.

Lemma lxor_u64 x y : is_u64 x -> is_u64 y -> is_u64 (Z.lxor x y).
Proof.
  unfold is_u64. intros Hx Hy. assert (0 <= Z.lxor x y) as H0 by (apply Z.lxor_nonneg; lia). split; [done|].
  destruct (Z.eq_dec (Z.lxor x y) 0) as [->|]; [done|]. apply Z.log2_lt_pow2; [lia|].
  pose proof (Z.log2_lxor x y ltac:(lia) ltac:(lia)).
  assert (Z.log2 x < 64) by (destruct (Z.eq_dec x 0) as [->|]; [done|apply Z.log2_lt_pow2; lia]).
  assert (Z.log2 y < 64) by (destruct (Z.eq_dec y 0) as [->|]; [done|apply Z.log2_lt_pow2; lia]). lia.
Qed.

Lemma lor_u64 x y : is_u64 x -> is_u64 y -> is_u64 (Z.lor x y).
Proof.
  unfold is_u64. intros Hx Hy. assert (0 <= Z.lor x y) as H0 by (apply Z.lor_nonneg; lia). split; [done|].
  destruct (Z.eq_dec (Z.lor x y) 0) as [->|]; [done|]. apply Z.log2_lt_pow2; [lia|]. rewrite Z.log2_lor by lia.
  assert (Z.log2 x < 64) by (destruct (Z.eq_dec x 0) as [->|]; [done|apply Z.log2_lt_pow2; lia]).
  assert (Z.log2 y < 64) by (destruct (Z.eq_dec y 0) as [->|]; [done|apply Z.log2_lt_pow2; lia]). lia.
Qed.

Lemma le_value_u64 bs : Forall is_byte bs -> length bs = 8%nat -> is_u64 (le_value bs).
Proof.
  intros Hb Hl. pose proof (le_value_bytes 8 (le_value bs)) as E. rewrite <- Hl, le_bytes_value in E by done. rewrite Hl in E.
  rewrite E. apply Z.mod_pos_bound. lia.
Qed.
