(* ===== verification/Fwtree.v ===== *)
(** * fwtree.c: the Fenwick tree (binary indexed tree) behind kvstore.c and estore.c

    [fenwickTree] is the C struct; [tree] is the 1-based array of 64-bit
    cumulative counters.  [Rep ft a] says that [ft] represents the array [a] of
    per-index counters; the theorems show that every operation implements its
    specification on [a]. *)

From S2P Require Import Prelude Memory.

Record fenwickTree := mkFenwickTree {
  tree : list Z;        (* unsigned long long *tree *)
  size_bits : Z;
  size : Z;
  total : Z;            (* uint64_t total *)
}.

Definition fwTreeCreate (sizeBits : Z) : fenwickTree :=
  let size := s32 (Z.shiftl 1 sizeBits) in
  {| tree := replicate (Z.to_nat (size + 1)) 0;
     size_bits := sizeBits; size := size; total := 0 |}.

(** [idx & -idx]. *)
Definition lowbit (idx : Z) : Z := Z.land idx (- idx).

(** The [while (idx > 0)] loop of [fwTreePrefixSum]. *)
Fixpoint prefixSum_loop (fuel : nat) (t : list Z) (idx sum : Z) : outcome Z :=
  if 0 <? idx then
    match fuel with
    | O => OutOfFuel
    | S fuel =>
      v ← rd t idx;
      prefixSum_loop fuel t (s32 (idx - lowbit idx)) (u64 (sum + v))
    end
  else Ret sum.

(** [ft] is [None] for a NULL argument. *)
Definition fwTreePrefixSum (ft : option fenwickTree) (idx : Z) : outcome Z :=
  match ft with
  | None => Ret 0
  | Some ft =>
    if idx <? 0 then Ret 0 else
    let idx := if size ft <=? idx then size ft - 1 else idx in
    let idx := idx + 1 in
    prefixSum_loop (Z.to_nat idx) (tree ft) idx 0
  end.

(** The [while (idx <= ft->size)] loop of [fwTreeUpdate]. *)
Fixpoint update_loop (fuel : nat) (sz : Z) (t : list Z) (idx delta : Z)
  : outcome (list Z) :=
  if idx <=? sz then
    match fuel with
    | O => OutOfFuel
    | S fuel =>
      v ← rd t idx;
      _ ← (if delta <? 0 then c_assert (u64 (- delta) <=? v) else Ret tt);
      t' ← wr t idx (u64 (v + delta));
      update_loop fuel sz t' (s32 (idx + lowbit idx)) delta
    end
  else Ret t.

Definition fwTreeUpdate (ft : option fenwickTree) (idx delta : Z)
  : outcome (option fenwickTree) :=
  match ft with
  | None => Ret None
  | Some f =>
    if (idx <? 0) || (size f <=? idx) then Ret ft else
    let idx := idx + 1 in
    let tot := u64 (total f + delta) in
    t' ← update_loop (Z.to_nat (size f)) (size f) (tree f) idx delta;
    Ret (Some {| tree := t'; size_bits := size_bits f; size := size f; total := tot |})
  end.

(** The [for (i = bit_mask; i != 0; i >>= 1)] loop of [fwTreeFindIndex]. *)
Fixpoint findIndex_loop (fuel : nat) (t : list Z) (i target result : Z) : outcome Z :=
  if i =? 0 then Ret result else
  match fuel with
  | O => OutOfFuel
  | S fuel =>
    let current := result + i in
    v ← rd t current;
    if v <? target
    then findIndex_loop fuel t (Z.shiftr i 1) (u64 (target - v)) current
    else findIndex_loop fuel t (Z.shiftr i 1) target result
  end.

Definition fwTreeFindIndex (ft : fenwickTree) (target : Z) : outcome Z :=
  if target <=? 0 then Ret 0 else
  let bit_mask := s32 (Z.shiftl 1 (size_bits ft)) in
  findIndex_loop (S (Z.to_nat (size_bits ft))) (tree ft) bit_mask target 0.

Definition fwTreeFindFirstNonEmpty (ft : fenwickTree) : outcome Z :=
  fwTreeFindIndex ft 1.

Definition fwTreeFindNextNonEmpty (ft : option fenwickTree) (idx : Z) : outcome Z :=
  match ft with
  | None => Ret (-1)
  | Some f =>
    if (idx <? 0) || (size f <=? idx) then Ret (-1) else
    s ← fwTreePrefixSum ft idx;
    let next_sum := u64 (s + 1) in
    if next_sum <=? total f then fwTreeFindIndex f next_sum else Ret (-1)
  end.

Definition fwTreeClear (ft : fenwickTree) : fenwickTree :=
  {| tree := replicate (Z.to_nat (size ft + 1)) 0;
     size_bits := size_bits ft; size := size ft; total := 0 |}.

(** ** Sanity: the unit test of the source *)

Definition fwtree_test_state : outcome (option fenwickTree) :=
  a ← fwTreeUpdate (Some (fwTreeCreate 3)) 0 5;
  b ← fwTreeUpdate a 2 3;
  c ← fwTreeUpdate b 4 7;
  fwTreeUpdate c 6 2.

Example fwtree_test :
  (ft ← fwtree_test_state;
   s ← fwTreePrefixSum ft 5; n ← fwTreeFindNextNonEmpty ft 3;
   e ← fwTreeFindNextNonEmpty ft 6; Ret (s, n, e)) = Ret (15, 4, -1).
Proof. vm_compute. reflexivity. Qed.

(** ** Arithmetic of the lowest set bit *)

Section lowbit.

Lemma lowbit_odd m : Z.land (2 * m + 1) (- (2 * m + 1)) = 1.
Proof.
  replace (- (2 * m + 1)) with (2 * Z.lnot m + 1) by (unfold Z.lnot; lia).
  apply Z.bits_inj'. intros n Hn. rewrite Z.land_spec.
  destruct (Z.eq_dec n 0) as [->|].
  - by rewrite !Z.testbit_odd_0.
  - replace n with (Z.succ (n - 1)) by lia.
    rewrite !Z.testbit_odd_succ by lia.
    change 1 with (2 * 0 + 1) at 3. rewrite Z.testbit_odd_succ by lia.
    rewrite Z.lnot_spec, Z.bits_0 by lia. apply andb_negb_r.
Qed.

Lemma lowbit_pow2 p m : 0 <= p -> lowbit (2 ^ p * (2 * m + 1)) = 2 ^ p.
Proof.
  intros Hp. unfold lowbit.
  rewrite (Z.mul_comm (2 ^ p)), <- Z.mul_opp_l.
  rewrite <- !Z.shiftl_mul_pow2, <- Z.shiftl_land, lowbit_odd by lia.
  rewrite Z.shiftl_mul_pow2 by lia. lia.
Qed.

(** Every positive integer is an odd multiple of a power of two. *)
Lemma odd_part k : 0 < k -> exists p m, 0 <= p /\ 0 <= m /\ k = 2 ^ p * (2 * m + 1).
Proof.
  intros Hk. assert (0 <= k) as H0 by lia. revert Hk.
  pattern k. apply Z_lt_induction; [|done]. clear k H0. intros k IH Hk.
  destruct (Z.Even_or_Odd k) as [[h E]|[h E]].
  - destruct (IH h) as (p & m & Hp & Hm & E'); [lia..|].
    exists (Z.succ p), m. rewrite Z.pow_succ_r by lia. lia.
  - exists 0, h. lia.
Qed.

(** Index [k] of the array is counted in node [i]. *)
Definition covers (i k : Z) : Prop := i - lowbit i < k <= i.

Lemma lowbit_bounds k : 0 < k -> 0 < lowbit k <= k.
Proof.
  intros Hk. destruct (odd_part k Hk) as (p & m & Hp & Hm & ->).
  rewrite lowbit_pow2 by lia. nia.
Qed.

(** The nodes that count [k] are [k] itself and those that count
    [k + lowbit k]: the update loop visits exactly them. *)
Lemma covers_next i k : 0 < i -> 0 < k -> covers i k <-> i = k \/ covers i (k + lowbit k).
Proof.
  intros Hi Hk. unfold covers.
  destruct (odd_part k Hk) as (p & m & Hp & Hm & ->).
  destruct (odd_part i Hi) as (q & n & Hq & Hn & ->).
  rewrite !lowbit_pow2 by lia.
  destruct (Z.le_gt_cases q p) as [Hqp|Hqp].
  - replace p with (q + (p - q)) by lia. rewrite Z.pow_add_r by lia.
    set (P := 2 ^ q). set (Y := 2 ^ (p - q)).
    assert (0 < P) by (unfold P; lia). assert (0 < Y) by (unfold Y; lia).
    split.
    + intros [H1 H2]. left.
      assert (2 * n < Y * (2 * m + 1)) by nia.
      assert (Y * (2 * m + 1) <= 2 * n + 1) by nia. nia.
    + intros [E|[H1 H2]]; [nia|]. exfalso.
      assert (2 * n < 2 * (Y * (m + 1))) by nia.
      assert (2 * (Y * (m + 1)) <= 2 * n + 1) by nia. lia.
  - replace q with (p + (1 + (q - p - 1))) by lia. rewrite !Z.pow_add_r by lia.
    set (X := 2 ^ (q - p - 1)). set (P := 2 ^ p). change (2 ^ 1) with 2.
    assert (0 < P) by (unfold P; lia). assert (0 < X) by (unfold X; lia).
    split.
    + intros [H1 H2]. right.
      assert (4 * X * n < 2 * m + 1) by nia. assert (2 * X * n <= m) by lia.
      assert (2 * m + 1 <= 2 * X * (2 * n + 1)) by nia.
      assert (m + 1 <= X * (2 * n + 1)) by lia. split; nia.
    + intros [E|[H1 H2]]; [nia|].
      assert (4 * X * n < 2 * m + 2) by nia. assert (2 * X * n <= m) by lia.
      assert (2 * m + 2 <= 2 * X * (2 * n + 1)) by nia. split; nia.
Qed.
End lowbit.

(** ** Representation *)

(** [ft] counts the elements of [a]: node [i] holds the sum of the [lowbit i]
    elements that end at [i]. *)
Record Rep (ft : fenwickTree) (a : list Z) : Prop := {
  rep_bits : 0 <= size_bits ft <= 29;
  rep_size : size ft = 2 ^ size_bits ft;
  rep_len : Zlen a = size ft;
  rep_tree : Zlen (tree ft) = size ft + 1;
  rep_nonneg : Forall (fun x => 0 <= x) a;
  rep_total : total ft = zsum a;
  rep_fits : zsum a < 2 ^ 64;
  rep_node : forall i, 1 <= i <= size ft ->
    rd (tree ft) i = Ret (psum a i - psum a (i - lowbit i));
}.

Section correctness.
Context (ft : fenwickTree) (a : list Z) (HR : Rep ft a).

Lemma rep_size_bound : 1 <= size ft <= 2 ^ 29.
Proof.
  destruct HR. rewrite rep_size0. split; [lia|]. apply Z.pow_le_mono_r; lia.
Qed.

Lemma psum_bounds n : 0 <= psum a n <= zsum a.
Proof.
  destruct HR. split.
  - rewrite <- (psum_0 a (Z.min n 0)) by lia. apply psum_mono; [done|lia].
  - rewrite <- (psum_all a (Z.max n (Zlen a))) by (unfold Zlen; lia).
    apply psum_mono; [done|lia].
Qed.

Lemma prefixSum_loop_spec fuel idx sum :
  0 <= idx <= size ft -> (Z.to_nat idx <= fuel)%nat ->
  0 <= sum -> sum + psum a idx < 2 ^ 64 ->
  prefixSum_loop fuel (tree ft) idx sum = Ret (sum + psum a idx).
Proof.
  pose proof rep_size_bound as Hsz.
  revert idx sum. induction fuel as [|fuel IH]; intros idx sum Hi Hf Hs Hfit; simpl;
    (destruct (Z.ltb_spec 0 idx); [|rewrite psum_0 by lia; f_equal; lia]); [lia|].
  rewrite (rep_node _ _ HR) by lia. simpl.
  pose proof (lowbit_bounds idx ltac:(lia)).
  pose proof (psum_bounds (idx - lowbit idx)).
  pose proof (psum_mono a (idx - lowbit idx) idx (rep_nonneg _ _ HR) ltac:(lia)).
  rewrite wraps_id, wrapu_id by lia. rewrite IH by lia. f_equal. lia.
Qed.

Lemma fwTreePrefixSum_rep idx :
  0 <= idx -> fwTreePrefixSum (Some ft) idx = Ret (psum a (idx + 1)).
Proof.
  intros Hi. pose proof rep_size_bound as Hsz. unfold fwTreePrefixSum.
  destruct (Z.ltb_spec idx 0); [lia|].
  assert (forall n, psum a n < 2 ^ 64) as Hlt.
  { intros n. pose proof (psum_bounds n). pose proof (rep_fits _ _ HR). lia. }
  destruct (Z.leb_spec (size ft) idx).
  - rewrite prefixSum_loop_spec by (try lia; apply Hlt). f_equal.
    rewrite !psum_all; try (pose proof (rep_len _ _ HR); unfold Zlen in *; lia).
  - rewrite prefixSum_loop_spec by (try lia; apply Hlt). done.
Qed.
End correctness.

(** The update loop adds [delta] to the nodes that count [idx], and to no other. *)
Lemma update_loop_spec fuel sz t idx delta (f : Z -> Z) :
  sz <= 2 ^ 29 -> 0 < idx -> (Z.to_nat (sz - idx + 1) <= fuel)%nat ->
  Zlen t = sz + 1 -> - 2 ^ 63 <= delta ->
  (forall i, 1 <= i <= sz -> rd t i = Ret (f i)) ->
  (forall i, 1 <= i <= sz -> covers i idx -> 0 <= f i + delta < 2 ^ 64) ->
  exists t', update_loop fuel sz t idx delta = Ret t' /\ Zlen t' = sz + 1 /\
    (forall i, 1 <= i <= sz -> covers i idx -> rd t' i = Ret (f i + delta)) /\
    (forall i, 1 <= i <= sz -> ~ covers i idx -> rd t' i = Ret (f i)).
Proof.
  intros Hsz. revert t idx f.
  induction fuel as [|fuel IH]; intros t idx f Hi Hf Hl Hd Hrd Hfit; simpl.
  all: destruct (Z.leb_spec idx sz);
    [|exists t; split_and!; auto; intros i ? [??]; lia].
  { lia. }
  rewrite Hrd by lia. simpl. pose proof (lowbit_bounds idx Hi) as Hlb.
  assert (covers idx idx) as Hcov by (unfold covers; lia).
  specialize (Hfit idx ltac:(lia) Hcov) as Hfi.
  assert ((if delta <? 0 then c_assert (u64 (- delta) <=? f idx) else Ret tt) = Ret tt) as ->.
  { destruct (Z.ltb_spec delta 0); [|done]. unfold c_assert. rewrite wrapu_id by lia.
    destruct (Z.leb_spec (- delta) (f idx)); [done|lia]. }
  simpl. rewrite wr_ok, wrapu_id, wraps_id by lia. simpl.
  destruct (IH (<[Z.to_nat idx:=f idx + delta]> t) (idx + lowbit idx)
              (fun i => if i =? idx then f idx + delta else f i))
    as (t' & E & Hl' & Hin & Hout); try lia; [by rewrite Zlen_insert|..].
  { intros i Hi'. destruct (Z.eqb_spec i idx) as [->|]; [apply rd_insert_eq; lia|].
    rewrite rd_insert_ne by lia. apply Hrd. lia. }
  { intros i Hi' Hc. destruct (Z.eqb_spec i idx) as [->|]; [unfold covers in Hc; lia|].
    apply Hfit; [lia|]. apply covers_next; [lia..|]. by right. }
  exists t'. split_and!; [done|done|..].
  - intros i Hi' Hc. apply covers_next in Hc; [|lia..].
    destruct (Z.eq_dec i idx) as [->|Hne].
    + rewrite Hout; [by rewrite Z.eqb_refl|lia|unfold covers; lia].
    + destruct Hc as [->|Hc]; [lia|]. rewrite Hin by (lia || done).
      destruct (Z.eqb_spec i idx); [lia|done].
  - intros i Hi' Hc. rewrite covers_next in Hc by lia.
    rewrite Hout; [|lia|tauto]. destruct (Z.eqb_spec i idx); [tauto|done].
Qed.

(** Adding [delta] to element [idx]. *)
Definition bump (a : list Z) (idx delta : Z) : list Z :=
  match a !! Z.to_nat idx with
  | Some x => <[Z.to_nat idx := x + delta]> a
  | None => a
  end.

Lemma fwTreeUpdate_rep ft a idx delta x :
  Rep ft a -> 0 <= idx < size ft -> a !! Z.to_nat idx = Some x ->
  0 <= x + delta -> zsum a + delta < 2 ^ 64 -> - 2 ^ 63 <= delta ->
  exists ft', fwTreeUpdate (Some ft) idx delta = Ret (Some ft') /\ Rep ft' (bump a idx delta).
Proof.
  intros HR Hi Hx Hpos Hfit Hd. pose proof (rep_size_bound _ _ HR) as Hsz.
  unfold bump. rewrite Hx. unfold fwTreeUpdate.
  destruct (Z.ltb_spec idx 0); [lia|]. destruct (Z.leb_spec (size ft) idx); [lia|]. simpl.
  set (a' := <[Z.to_nat idx := x + delta]> a).
  assert (Forall (fun y => 0 <= y) a') as Hnn by (apply Forall_insert; [apply HR|done]).
  assert (zsum a' = zsum a + delta) as Hsum by (unfold a'; rewrite (zsum_insert _ _ _ _ Hx); lia).
  assert (forall n, psum a' n = psum a n + (if idx <? n then delta else 0)) as Hps
    by (intros n; apply psum_insert; [lia|done]).
  assert (forall i, 1 <= i <= size ft -> covers i (idx + 1) ->
    psum a' i - psum a' (i - lowbit i) = psum a i - psum a (i - lowbit i) + delta) as Hcov.
  { intros i Hi' [??]. rewrite !Hps.
    destruct (Z.ltb_spec idx i), (Z.ltb_spec idx (i - lowbit i)); lia. }
  assert (forall n m, n <= m -> 0 <= psum a' m - psum a' n < 2 ^ 64) as Hbd.
  { intros n m Hnm. pose proof (psum_mono a' n m Hnn Hnm).
    pose proof (psum_mono a' (Z.min n 0) n Hnn ltac:(lia)).
    rewrite psum_0 in H2 by lia.
    pose proof (psum_mono a' m (Z.max m (Zlen a')) Hnn ltac:(lia)).
    rewrite (psum_all a' (Z.max _ _)) in H3 by (unfold Zlen; lia). lia. }
  destruct (update_loop_spec (Z.to_nat (size ft)) (size ft) (tree ft) (idx + 1) delta
    (fun i => psum a i - psum a (i - lowbit i))) as (t' & E & Hl & Hin & Hout);
    try lia; try apply HR.
  { intros i Hi' Hc. rewrite <- Hcov by done. apply Hbd.
    pose proof (lowbit_bounds i ltac:(lia)). lia. }
  rewrite E. simpl. eexists; split; [done|].
  pose proof (zsum_nonneg _ Hnn). rewrite (rep_total _ _ HR), wrapu_id by lia.
  constructor; simpl; try apply HR; try done; try lia.
  - unfold a'. rewrite Zlen_insert. apply HR.
  - intros i Hi'. destruct (decide (idx + 1 <= i /\ i - lowbit i < idx + 1)) as [Hc|Hc].
    + rewrite Hin by (unfold covers; lia). f_equal. symmetry. apply Hcov; [done|].
      unfold covers. lia.
    + rewrite Hout by (unfold covers; lia). f_equal. rewrite !Hps.
      pose proof (lowbit_bounds i ltac:(lia)).
      destruct (Z.ltb_spec idx i), (Z.ltb_spec idx (i - lowbit i)); lia.
Qed.

(** The node read at a step of the descent. *)
Lemma descent_node ft a i r (j : nat) :
  Rep ft a -> i = 2 ^ Z.of_nat j -> 0 <= r -> 2 * i * r + i <= size ft ->
  rd (tree ft) (2 * i * r + i) = Ret (psum a (2 * i * r + i) - psum a (2 * i * r)).
Proof.
  intros HR Hi Hr Hle. assert (0 < i) by lia. rewrite (rep_node _ _ HR) by nia.
  replace (lowbit (2 * i * r + i)) with i; [by rewrite Z.add_simpl_r|].
  replace (2 * i * r + i) with (i * (2 * r + 1)) by lia. subst i. rewrite lowbit_pow2; lia.
Qed.

Lemma psum_saturates ft a n : Rep ft a -> size ft <= n -> psum a n = zsum a.
Proof.
  intros HR Hn. apply psum_all. pose proof (rep_len _ _ HR). unfold Zlen in *. lia.
Qed.

(** The binary descent: [i = 2^j], [result] is a multiple of [2^(j+1)], and the
    answer lies in [result, result + 2^(j+1)). *)
Lemma findIndex_loop_spec ft a (j : nat) i r result T :
  Rep ft a -> i = 2 ^ Z.of_nat j -> result = 2 * i * r ->
  0 <= r -> (result + 2 * i <= size ft \/ (r = 0 /\ i = size ft)) ->
  psum a result < T <= psum a (result + 2 * i) ->
  exists k, findIndex_loop (S j) (tree ft) i (T - psum a result) result = Ret k /\
    0 <= k < size ft /\ psum a k < T <= psum a (k + 1).
Proof.
  intros HR. revert i r result. induction j as [|j IH]; intros i r result Hi Hres Hr Hb HT.
  all: assert (0 < i) as Hi0 by lia.
  all: assert (0 <= result) as Hres0 by nia.
  all: assert (result + i <= size ft) as Hcur by (destruct Hb as [?|[-> ?]]; lia).
  all: assert (psum a (result + i) < T -> result + 2 * i <= size ft) as Hjump
    by (destruct Hb as [?|[-> ?]]; [done|]; intros;
        rewrite !(psum_saturates ft a (result + _)) in * by (done || lia); lia).
  all: pose proof (psum_bounds _ _ HR (result + i)); pose proof (psum_bounds _ _ HR result).
  all: pose proof (psum_bounds _ _ HR (result + 2 * i)); pose proof (rep_fits _ _ HR).
  all: unfold findIndex_loop; fold findIndex_loop; (destruct (Z.eqb_spec i 0); [lia|]).
  all: assert (rd (tree ft) (result + i) = Ret (psum a (result + i) - psum a result)) as ->
    by (rewrite Hres; apply (descent_node ft a i r _ HR Hi Hr); lia).
  all: simpl.
  - subst i. change (2 ^ Z.of_nat 0) with 1 in *. simpl.
    destruct (Z.ltb_spec (psum a (result + 1) - psum a result) (T - psum a result)).
    + exists (result + 1). split; [done|].
      replace (result + 1 + 1) with (result + 2 * 1) by lia. lia.
    + exists result. split; [done|]. lia.
  - assert (i = 2 * 2 ^ Z.of_nat j) as Ei
      by (rewrite Hi, Nat2Z.inj_succ, Z.pow_succ_r by lia; lia).
    assert (Z.shiftr i 1 = 2 ^ Z.of_nat j) as ->
      by (rewrite Ei, Z.shiftr_div_pow2, Z.mul_comm by lia; apply Z.div_mul; lia).
    set (i' := 2 ^ Z.of_nat j) in *.
    destruct (Z.ltb_spec (psum a (result + i) - psum a result) (T - psum a result)).
    + rewrite wrapu_id by lia.
      replace (T - psum a result - (psum a (result + i) - psum a result))
        with (T - psum a (result + i)) by lia.
      apply (IH i' (2 * r + 1)); try (done || lia).
      replace (result + i + 2 * i') with (result + 2 * i) by lia. lia.
    + apply (IH i' (2 * r)); try (done || lia). rewrite <- Ei. lia.
Qed.

(** ** Properties *)

(** A Fenwick tree that represents [a] answers every prefix-sum query
    [idx >= 0] with the sum of the elements of [a] up to and including [idx]
    (the whole sum past the end), and a query with a negative index with 0; no
    query leaves the tree array or wraps. *)
Theorem fwTreePrefixSum_correct ft a idx :
  Rep ft a ->
  fwTreePrefixSum (Some ft) idx = Ret (if idx <? 0 then 0 else psum a (idx + 1)).
Proof.
  intros HR. destruct (Z.ltb_spec idx 0) as [Hn|Hp].
  - simpl. destruct (Z.ltb_spec idx 0); [done|lia].
  - by apply fwTreePrefixSum_rep.
Qed.

(** [fwTreeUpdate] of an index in range, with a delta that keeps the
    element non-negative and the total in 64 bits, never trips its assertion and
    gives a tree that represents the array with that element changed and no
    other. *)
Theorem fwTreeUpdate_correct ft a idx delta x :
  Rep ft a -> 0 <= idx < size ft -> a !! Z.to_nat idx = Some x ->
  0 <= x + delta -> zsum a + delta < 2 ^ 64 -> - 2 ^ 63 <= delta ->
  exists ft', fwTreeUpdate (Some ft) idx delta = Ret (Some ft') /\
    Rep ft' (<[Z.to_nat idx := x + delta]> a).
Proof.
  intros HR Hi Hx Hp Hfit Hd.
  destruct (fwTreeUpdate_rep ft a idx delta x) as (ft' & E & HR'); try done.
  exists ft'. split; [done|]. unfold bump in HR'. by rewrite Hx in HR'.
Qed.

Lemma fwTreeFindIndex_rep ft a T :
  Rep ft a -> 1 <= T <= zsum a ->
  exists k, fwTreeFindIndex ft T = Ret k /\ 0 <= k < size ft /\
    psum a k < T <= psum a (k + 1).
Proof.
  intros HR HT. pose proof (rep_size_bound _ _ HR) as Hsz. pose proof (rep_bits _ _ HR).
  unfold fwTreeFindIndex. destruct (Z.leb_spec T 0); [lia|].
  rewrite Z.shiftl_mul_pow2, Z.mul_1_l, wraps_id
    by (try (rewrite <- (rep_size _ _ HR)); lia).
  destruct (findIndex_loop_spec ft a (Z.to_nat (size_bits ft)) (2 ^ size_bits ft) 0 0 T)
    as (k & E & Hk); try done; try (rewrite Z2Nat.id by lia; done); try lia.
  - right. split; [done|]. symmetry. apply HR.
  - rewrite psum_0, (psum_saturates ft a) by (done || rewrite <- (rep_size _ _ HR); lia). lia.
  - exists k. split; [|done]. rewrite <- E. f_equal. rewrite psum_0; lia.
Qed.

(** For a target between 1 and the total, [fwTreeFindIndex] returns the
    unique index at which the cumulative sum first reaches the target: the sum
    before it is smaller and the sum including it is not. *)
Theorem fwTreeFindIndex_correct ft a T :
  Rep ft a -> 1 <= T <= zsum a ->
  exists k, fwTreeFindIndex ft T = Ret k /\ 0 <= k < Zlen a /\
    psum a k < T <= psum a (k + 1).
Proof.
  intros HR HT. destruct (fwTreeFindIndex_rep ft a T HR HT) as (k & E & Hk).
  exists k. by rewrite (rep_len _ _ HR).
Qed.

(** Between two indexes with the same prefix sum every element is 0. *)
Lemma psum_flat_zero a i k j x :
  Forall (fun x => 0 <= x) a -> 0 <= i <= j -> j < k ->
  psum a k <= psum a i -> a !! Z.to_nat j = Some x -> x = 0.
Proof.
  intros Hnn Hij Hjk Hflat Hx.
  pose proof (psum_succ a j x ltac:(lia) Hx). pose proof (psum_mono a i j Hnn ltac:(lia)).
  pose proof (psum_mono a (j + 1) k Hnn ltac:(lia)).
  pose proof (Forall_lookup_1 _ _ _ _ Hnn Hx) as Hx0. simpl in Hx0. lia.
Qed.

(** [fwTreeFindNextNonEmpty(idx)] returns the first index after [idx]
    whose element is not 0, or -1 when every later element is 0 (for totals
    below the largest 64-bit value, where [next_sum] cannot wrap to 0). *)
Theorem fwTreeFindNextNonEmpty_correct ft a idx :
  Rep ft a -> 0 <= idx < Zlen a -> zsum a < UINT64_MAX ->
  exists k, fwTreeFindNextNonEmpty (Some ft) idx = Ret k /\
    (k = -1 /\ (forall j, idx < j < Zlen a -> a !! Z.to_nat j = Some 0) \/
     idx < k < Zlen a /\ a !! Z.to_nat k <> Some 0 /\
     forall j, idx < j < k -> a !! Z.to_nat j = Some 0).
Proof.
  unfold UINT64_MAX. intros HR Hi Hmax.
  pose proof (rep_len _ _ HR) as Hlen. pose proof (rep_nonneg _ _ HR) as Hnn.
  pose proof (psum_bounds _ _ HR (idx + 1)).
  assert (forall j, 0 <= j < Zlen a -> exists x, a !! Z.to_nat j = Some x) as Hsome.
  { intros j Hj. apply lookup_lt_is_Some_2. unfold Zlen in Hj. lia. }
  assert (forall k j, idx < j < k -> k <= Zlen a -> psum a k <= psum a (idx + 1) ->
    a !! Z.to_nat j = Some 0) as Hzero.
  { intros k j Hj Hk Hp. destruct (Hsome j) as [x Hx]; [lia|]. rewrite Hx. f_equal.
    eapply (psum_flat_zero a (idx + 1) k j); try done; lia. }
  unfold fwTreeFindNextNonEmpty.
  destruct (Z.ltb_spec idx 0), (Z.leb_spec (size ft) idx); try lia. cbn [orb].
  rewrite (fwTreePrefixSum_rep ft a HR) by lia. simpl.
  rewrite (rep_total _ _ HR).
  rewrite wrapu_id by lia. destruct (Z.leb_spec (psum a (idx + 1) + 1) (zsum a)).
  - destruct (fwTreeFindIndex_rep ft a (psum a (idx + 1) + 1) HR) as (k & E & Hk & Hp); [lia|].
    exists k. split; [done|]. right.
    assert (idx < k) as Hik.
    { destruct (Z.le_gt_cases k idx); [|done].
      pose proof (psum_mono a (k + 1) (idx + 1) Hnn ltac:(lia)). lia. }
    split; [lia|]. split.
    + intros Hx. pose proof (psum_succ a k 0 ltac:(lia) Hx). lia.
    + intros j Hj. apply (Hzero k); lia.
  - exists (-1). split; [done|]. left. split; [done|]. intros j Hj.
    apply (Hzero (Zlen a)); try lia. rewrite (psum_saturates ft a (Zlen a)); [lia|done|lia].
Qed.

(** A tree of zeros. *)
Lemma zeros_rep bits :
  0 <= bits <= 29 ->
  Rep {| tree := replicate (Z.to_nat (2 ^ bits + 1)) 0; size_bits := bits;
         size := 2 ^ bits; total := 0 |} (replicate (Z.to_nat (2 ^ bits)) 0).
Proof.
  intros Hb. assert (0 < 2 ^ bits) by lia.
  constructor; simpl; unfold Zlen; rewrite ?length_replicate; try lia.
  - by apply Forall_replicate.
  - by rewrite zsum_replicate_0.
  - rewrite zsum_replicate_0. lia.
  - intros i Hi. rewrite !psum_replicate_0. apply rd_lookup; [lia|].
    apply lookup_replicate_2. lia.
Qed.

(** [fwTreeCreate] gives a tree that represents [2^sizeBits] zeros, and
    [fwTreeClear] turns any tree into one that represents as many zeros as it
    has elements. *)
Theorem fwTreeCreate_Clear_rep bits ft a :
  0 <= bits <= 29 -> Rep ft a ->
  Rep (fwTreeCreate bits) (replicate (Z.to_nat (2 ^ bits)) 0) /\
  Rep (fwTreeClear ft) (replicate (length a) 0).
Proof.
  intros Hb HR. assert (2 ^ bits <= 2 ^ 29) by (apply Z.pow_le_mono_r; lia). split.
  - unfold fwTreeCreate. rewrite Z.shiftl_mul_pow2, Z.mul_1_l, wraps_id by lia.
    by apply zeros_rep.
  - unfold fwTreeClear. rewrite (rep_size _ _ HR).
    replace (length a) with (Z.to_nat (2 ^ size_bits ft)); [apply zeros_rep, HR|].
    pose proof (rep_len _ _ HR). rewrite (rep_size _ _ HR) in *. unfold Zlen in *. lia.
Qed.

(** ** Witnesses *)

Lemma rep_empty3 : Rep (fwTreeCreate 3) (replicate 8 0).
Proof. apply (zeros_rep 3). lia. Qed.

Lemma fwTreePrefixSum_witness :
  fwTreePrefixSum (Some (fwTreeCreate 3)) 5 = Ret 0.
Proof. exact (fwTreePrefixSum_correct _ _ 5 rep_empty3). Defined.

Lemma fwTreeUpdate_witness : exists ft',
  fwTreeUpdate (Some (fwTreeCreate 3)) 2 7 = Ret (Some ft') /\ Rep ft' [0; 0; 7; 0; 0; 0; 0; 0].
Proof. apply (fwTreeUpdate_correct _ _ 2 7 0 rep_empty3); simpl; lia || done. Defined.

(** A tree with an element at index 2. *)
Definition ft_two : fenwickTree :=
  {| tree := [0; 0; 0; 7; 7; 0; 0; 0; 7]; size_bits := 3; size := 8; total := 7 |}.

Lemma rep_two : Rep ft_two [0; 0; 7; 0; 0; 0; 0; 0].
Proof.
  destruct (fwTreeUpdate_rep _ _ 2 7 0 rep_empty3) as (ft' & E & HR); simpl; try (done || lia).
  vm_compute in E. injection E as <-. exact HR.
Qed.

Lemma fwTreeFindIndex_witness : exists k,
  fwTreeFindIndex ft_two 5 = Ret k /\ 0 <= k < 8 /\
  psum [0; 0; 7; 0; 0; 0; 0; 0] k < 5 <= psum [0; 0; 7; 0; 0; 0; 0; 0] (k + 1).
Proof. apply (fwTreeFindIndex_correct _ _ 5 rep_two). simpl. lia. Defined.

Lemma fwTreeFindNextNonEmpty_witness : exists k,
  fwTreeFindNextNonEmpty (Some ft_two) 0 = Ret k /\
    (k = -1 /\ (forall j, 0 < j < 8 -> [0; 0; 7; 0; 0; 0; 0; 0] !! Z.to_nat j = Some 0) \/
     0 < k < 8 /\ [0; 0; 7; 0; 0; 0; 0; 0] !! Z.to_nat k <> Some 0 /\
     forall j, 0 < j < k -> [0; 0; 7; 0; 0; 0; 0; 0] !! Z.to_nat j = Some 0).
Proof.
  apply (fwTreeFindNextNonEmpty_correct _ _ 0 rep_two); unfold Zlen, UINT64_MAX; simpl; lia.
Defined.

Lemma fwTreeCreate_Clear_witness :
  Rep (fwTreeCreate 4) (replicate (Z.to_nat (2 ^ 4)) 0) /\
  Rep (fwTreeClear ft_two) (replicate 8 0).
Proof. exact (fwTreeCreate_Clear_rep 4 ft_two _ ltac:(lia) rep_two). Defined.
