(* ===== verification/NumStr.v ===== *)
(** * util.c: conversions between 64-bit integers and decimal strings

    [digits10], [sdigits10], [ull2string], [ll2string], [string2ll],
    [string2l], and [lpStringToInt64], listpack.c's copy of [string2ll].
    Characters are byte values; strings are passed with their length, so a
    string is the list of its [slen] bytes and [p[i]] is its i-th element.
    [decimal] is the reference: the canonical decimal representation. *)

From S2P Require Import Prelude Memory.

Definition LONG_STR_SIZE : Z := 21.
Abbreviation ULLONG_MAX := UINT64_MAX.
Abbreviation LLONG_MAX := INT64_MAX.
Abbreviation LLONG_MIN := INT64_MIN.

Abbreviation chr_0 := 48.
Abbreviation chr_1 := 49.
Abbreviation chr_9 := 57.
Abbreviation chr_minus := 45.

(** ** Definitions *)

(** [digits10] recurses on [v / 10^12]; two levels reach every 64-bit value. *)
Fixpoint digits10_rec (fuel : nat) (v : Z) : Z :=
  if v <? 10 then 1 else
  if v <? 100 then 2 else
  if v <? 1000 then 3 else
  if v <? 1000000000000 then
    if v <? 100000000 then
      if v <? 1000000 then
        if v <? 10000 then 4
        else 5 + c_bool (100000 <=? v)
      else 7 + c_bool (10000000 <=? v)
    else if v <? 10000000000 then
      9 + c_bool (1000000000 <=? v)
    else 11 + c_bool (100000000000 <=? v)
  else match fuel with
       | O => 0
       | S fuel => 12 + digits10_rec fuel (v / 1000000000000)
       end.

Definition digits10 (v : Z) : Z := digits10_rec 1 v.

Definition sdigits10 (v : Z) : Z :=
  if v <? 0 then
    let uv := if negb (v =? LLONG_MIN) then u64 (- v) else LLONG_MAX + 1 in
    digits10 uv + 1
  else digits10 v.

(** The [digits[201]] table: "00" to "99" in order, and the final NUL. *)
Definition digits_table : list Z :=
  [48;48;48;49;48;50;48;51;48;52;48;53;48;54;48;55;48;56;48;57;
   49;48;49;49;49;50;49;51;49;52;49;53;49;54;49;55;49;56;49;57;
   50;48;50;49;50;50;50;51;50;52;50;53;50;54;50;55;50;56;50;57;
   51;48;51;49;51;50;51;51;51;52;51;53;51;54;51;55;51;56;51;57;
   52;48;52;49;52;50;52;51;52;52;52;53;52;54;52;55;52;56;52;57;
   53;48;53;49;53;50;53;51;53;52;53;53;53;54;53;55;53;56;53;57;
   54;48;54;49;54;50;54;51;54;52;54;53;54;54;54;55;54;56;54;57;
   55;48;55;49;55;50;55;51;55;52;55;53;55;54;55;55;55;56;55;57;
   56;48;56;49;56;50;56;51;56;52;56;53;56;54;56;55;56;56;56;57;
   57;48;57;49;57;50;57;51;57;52;57;53;57;54;57;55;57;56;57;57;0].

(** The [while (value >= 100)] loop: returns the buffer, [next] and [value]. *)
Fixpoint ull2string_loop (fuel : nat) (dst : list Z) (next value : Z)
  : outcome (list Z * Z * Z) :=
  if 100 <=? value then
    match fuel with
    | O => OutOfFuel
    | S fuel =>
      let i := (value mod 100) * 2 in
      let value := value / 100 in
      c1 ← rd digits_table (i + 1);
      dst ← wr dst next c1;
      c0 ← rd digits_table i;
      dst ← wr dst (next - 1) c0;
      ull2string_loop fuel dst (next - 2) value
    end
  else Ret (dst, next, value).

(** The error exit: force a NUL at the start of a non-empty buffer. *)
Definition num2string_err (dst : list Z) (dstlen : Z) : outcome (list Z * Z) :=
  if 0 <? dstlen then dst ← wr dst 0 0; Ret (dst, 0) else Ret (dst, 0).

(** Returns the buffer and the number of characters. *)
Definition ull2string (dst : list Z) (dstlen value : Z) : outcome (list Z * Z) :=
  let length := digits10 value in
  if dstlen <=? length then num2string_err dst dstlen else
  let next := length - 1 in
  dst ← wr dst (next + 1) 0;
  '(dst, next, value) ← ull2string_loop 10 dst next value;
  if value <? 10 then
    dst ← wr dst next (chr_0 + u32 value);
    Ret (dst, length)
  else
    let i := u32 value * 2 in
    c1 ← rd digits_table (i + 1);
    dst ← wr dst next c1;
    c0 ← rd digits_table i;
    dst ← wr dst (next - 1) c0;
    Ret (dst, length).

Definition ll2string (dst : list Z) (dstlen svalue : Z) : outcome (list Z * Z) :=
  if svalue <? 0 then
    let value := if negb (svalue =? LLONG_MIN) then - svalue else LLONG_MAX + 1 in
    if dstlen <? 2 then num2string_err dst dstlen else
    match dst with
    | [] => OutOfBounds
    | _ :: dst =>                               (* dst[0] = '-'; dst++ *)
      '(dst, length) ← ull2string dst (dstlen - 1) value;
      if length =? 0 then Ret (chr_minus :: dst, 0)
      else Ret (chr_minus :: dst, length + 1)
    end
  else
    '(dst, length) ← ull2string dst dstlen svalue;
    if length =? 0 then Ret (dst, 0) else Ret (dst, length).

(** The digit loop of [string2ll]: [None] on overflow, otherwise the value and
    the characters left. *)
Fixpoint string2ll_loop (p : list Z) (v : Z) : option (Z * list Z) :=
  match p with
  | c :: p' =>
    if (chr_0 <=? c) && (c <=? chr_9) then
      if ULLONG_MAX / 10 <? v then None else
      let v := v * 10 in
      if ULLONG_MAX - (c - chr_0) <? v then None else
      string2ll_loop p' (v + (c - chr_0))
    else Some (v, p)
  | [] => Some (v, p)
  end.

(** [Some value] when the C function returns 1, [None] when it returns 0. *)
Definition string2ll (s : list Z) : option Z :=
  let slen := Zlen s in
  if (slen =? 0) || (LONG_STR_SIZE <=? slen) then None else
  match s with
  | [] => None
  | c :: p' =>
    if (slen =? 1) && (c =? chr_0) then Some 0 else
    let negative := c =? chr_minus in
    let p := if negative then p' else s in
    match p with
    | [] => None                                  (* only a minus sign *)
    | d :: p =>
      if (chr_1 <=? d) && (d <=? chr_9) then
        '(v, rest) ← string2ll_loop p (d - chr_0);
        match rest with
        | _ :: _ => None                           (* not all bytes were used *)
        | [] =>
          if negative then
            if u64 (- (LLONG_MIN + 1)) + 1 <? v then None else Some (s64 (u64 (- v)))
          else
            if LLONG_MAX <? v then None else Some v
        end
      else None
    end
  end.

(** listpack.c keeps its own copy of the function, with [int64_t] for
    [long long]; on this platform the types and the limits coincide. *)
Definition lpStringToInt64 (s : list Z) : option Z :=
  let slen := Zlen s in
  if (slen =? 0) || (LONG_STR_SIZE <=? slen) then None else
  match s with
  | [] => None
  | c :: p' =>
    if (slen =? 1) && (c =? chr_0) then Some 0 else
    let negative := c =? chr_minus in
    let p := if negative then p' else s in
    match p with
    | [] => None
    | d :: p =>
      if (chr_1 <=? d) && (d <=? chr_9) then
        '(v, rest) ← string2ll_loop p (d - chr_0);
        match rest with
        | _ :: _ => None
        | [] =>
          if negative then
            if u64 (- (INT64_MIN + 1)) + 1 <? v then None else Some (s64 (u64 (- v)))
          else
            if INT64_MAX <? v then None else Some v
        end
      else None
    end
  end.

(** [long] is 64 bits wide: [LONG_MIN] and [LONG_MAX] are the limits of [long long]. *)
Definition string2l (s : list Z) : option Z :=
  match string2ll s with
  | None => None
  | Some llval =>
    if (llval <? INT64_MIN) || (INT64_MAX <? llval) then None else Some llval
  end.

(** ** The reference representation *)

Fixpoint decimal_aux (fuel : nat) (n : Z) : list Z :=
  match fuel with
  | O => []
  | S fuel => if n <? 10 then [chr_0 + n] else decimal_aux fuel (n / 10) ++ [chr_0 + n mod 10]
  end.

(** Canonical decimal digits of [n >= 0]. *)
Definition decimal (n : Z) : list Z := decimal_aux (S (Z.to_nat (Z.log2 n))) n.

(** Canonical decimal representation of an integer. *)
Definition dec (v : Z) : list Z := if v <? 0 then chr_minus :: decimal (- v) else decimal v.

Example dec_example : dec (-9223372036854775808) =
  [45; 57;50;50;51;51;55;50;48;51;54;56;53;52;55;55;53;56;48;56].
Proof. vm_compute. reflexivity. Qed.

Example ll2string_example :
  ll2string (replicate 8 1) 8 (-12345) = Ret ([45; 49; 50; 51; 52; 53; 0; 1], 6).
Proof. vm_compute. reflexivity. Qed.

Example string2ll_example : string2ll (dec (-9223372036854775808)) = Some INT64_MIN.
Proof. vm_compute. reflexivity. Qed.

(** ** The reference representation: lemmas *)

Lemma log2_div10 n : 10 <= n -> Z.log2 (n / 10) < Z.log2 n.
Proof.
  intros H. assert (Z.log2 (n / 10) <= Z.log2 (n / 2)) as Hle.
  { apply Z.log2_le_mono. apply Z.div_le_compat_l; lia. }
  rewrite <- (Z.div2_div n), Z.div2_spec, Z.log2_shiftr in Hle by lia.
  pose proof (Z.log2_pos n). lia.
Qed.

Lemma decimal_aux_fuel f1 f2 n :
  0 <= n -> (Z.to_nat (Z.log2 n) < f1)%nat -> (Z.to_nat (Z.log2 n) < f2)%nat ->
  decimal_aux f1 n = decimal_aux f2 n.
Proof.
  revert f2 n. induction f1 as [|f1 IH]; intros f2 n Hn H1 H2; [lia|].
  destruct f2 as [|f2]; [lia|]. simpl. destruct (Z.ltb_spec n 10); [done|]. f_equal.
  pose proof (log2_div10 n ltac:(lia)). pose proof (Z.log2_nonneg (n / 10)).
  apply IH; [apply Z.div_pos; lia|lia..].
Qed.

Lemma decimal_small n : n < 10 -> decimal n = [chr_0 + n].
Proof. intros H. unfold decimal. simpl. destruct (Z.ltb_spec n 10); [done|lia]. Qed.

Lemma decimal_snoc n : 10 <= n -> decimal n = decimal (n / 10) ++ [chr_0 + n mod 10].
Proof.
  intros H. unfold decimal at 1. simpl. destruct (Z.ltb_spec n 10); [lia|]. f_equal.
  pose proof (log2_div10 n ltac:(lia)). pose proof (Z.log2_nonneg (n / 10)).
  apply decimal_aux_fuel; [apply Z.div_pos; lia|lia..].
Qed.

(** Two digits at a time. *)
Lemma decimal_snoc2 n : 100 <= n ->
  decimal n = decimal (n / 100) ++ [chr_0 + n mod 100 / 10; chr_0 + n mod 10].
Proof.
  intros H. rewrite decimal_snoc, (decimal_snoc (n / 10)) by dlia.
  rewrite Z.div_div, <- app_assoc by lia. change (10 * 10) with 100. simpl.
  repeat f_equal. dlia.
Qed.

Lemma decimal_two n : 10 <= n < 100 ->
  decimal n = [chr_0 + n / 10; chr_0 + n mod 10].
Proof. intros H. rewrite decimal_snoc, decimal_small by dlia. done. Qed.

(** Induction along the digits. *)
Lemma digit_ind (P : Z -> Prop) :
  (forall n, 0 <= n < 10 -> P n) ->
  (forall n, 10 <= n -> P (n / 10) -> P n) ->
  forall n, 0 <= n -> P n.
Proof.
  intros Hb Hs n. induction n as [n IH] using (well_founded_induction (Z.lt_wf 0)).
  intros Hn. destruct (Z.lt_ge_cases n 10); [auto with lia|].
  apply Hs; [done|]. apply IH; dlia.
Qed.

Definition is_digit (c : Z) : Prop := chr_0 <= c <= chr_9.

Lemma decimal_digits n : 0 <= n -> Forall is_digit (decimal n).
Proof.
  revert n. apply (digit_ind (fun n => Forall is_digit (decimal n))).
  - intros n Hn. rewrite decimal_small by lia. repeat constructor; unfold is_digit; dlia.
  - intros n Hn IH. rewrite decimal_snoc by lia. apply Forall_app. split; [done|].
    repeat constructor; unfold is_digit; dlia.
Qed.

(** The number of digits, by magnitude. *)
Lemma decimal_length n (d : nat) : 0 <= n ->
  (d = 0%nat \/ 10 ^ Z.of_nat d <= n) -> n < 10 ^ Z.of_nat (S d) ->
  length (decimal n) = S d.
Proof.
  intros Hn. revert n Hn. induction d as [|d IH]; intros n Hn Hlo Hhi.
  - rewrite decimal_small; [done|]. simpl in Hhi. lia.
  - destruct Hlo as [?|Hlo]; [lia|].
    rewrite Nat2Z.inj_succ, Z.pow_succ_r in Hhi by lia.
    rewrite Nat2Z.inj_succ, Z.pow_succ_r in Hlo by lia.
    assert (10 ^ Z.of_nat d <= n / 10) by (apply Z.div_le_lower_bound; lia).
    assert (n / 10 < 10 ^ Z.of_nat (S d)) by (apply Z.div_lt_upper_bound; lia).
    assert (10 <= n) by (pose proof (Z.pow_pos_nonneg 10 (Z.of_nat d)); lia).
    rewrite decimal_snoc, length_app, (IH (n / 10)) by (lia || by right). simpl. lia.
Qed.

Lemma digits10_rec_length f v :
  0 <= v < 10 ^ 12 -> digits10_rec f v = Zlen (decimal v).
Proof.
  intros H. unfold Zlen. destruct f; simpl; unfold c_bool.
  all: repeat match goal with |- context [if ?x <? ?y then _ else _] =>
         destruct (Z.ltb_spec x y) end.
  all: repeat match goal with |- context [if ?x <=? ?y then _ else _] =>
         destruct (Z.leb_spec x y) end; try lia.
  all: match goal with |- ?a = Z.of_nat (length (decimal _)) =>
         let d := eval vm_compute in (Z.to_nat (a - 1)) in
         rewrite (decimal_length v d); [done|lia| |]; simpl; lia end.
Qed.

(** Appending [k] digits. *)
Lemma decimal_length_div n (k : nat) :
  10 ^ Z.of_nat k <= n -> length (decimal n) = (k + length (decimal (n / 10 ^ Z.of_nat k)))%nat.
Proof.
  revert n. induction k as [|k IH]; intros n Hn.
  - by rewrite Z.div_1_r.
  - rewrite Nat2Z.inj_succ, Z.pow_succ_r in * by lia.
    assert (0 < 10 ^ Z.of_nat k) by lia.
    rewrite decimal_snoc, length_app, IH, Z.div_div by
      (try apply Z.div_le_lower_bound; lia). simpl. lia.
Qed.

Lemma digits10_rec_big f v :
  10 ^ 12 <= v -> digits10_rec (S f) v = 12 + digits10_rec f (v / 1000000000000).
Proof.
  intros H. cbn [digits10_rec].
  repeat match goal with |- context [if v <? ?y then _ else _] =>
         destruct (Z.ltb_spec v y); [lia|] end. done.
Qed.

Lemma digits10_length v : 0 <= v < 2 ^ 64 -> digits10 v = Zlen (decimal v).
Proof.
  intros Hv. unfold digits10. destruct (Z.lt_ge_cases v (10 ^ 12)) as [Hs|Hl].
  { apply digits10_rec_length. lia. }
  rewrite digits10_rec_big, digits10_rec_length by dlia. unfold Zlen.
  rewrite (decimal_length_div v 12) by lia. change (10 ^ Z.of_nat 12) with 1000000000000. lia.
Qed.

(** ** [ull2string] writes the reference representation *)

Definition digits_table_entry_ok (k : Z) : bool :=
  match rd digits_table (k * 2), rd digits_table (k * 2 + 1) with
  | Ret c0, Ret c1 => (c0 =? chr_0 + k / 10) && (c1 =? chr_0 + k mod 10)
  | _, _ => false
  end.

Lemma digits_table_spec k : 0 <= k < 100 ->
  rd digits_table (k * 2) = Ret (chr_0 + k / 10) /\
  rd digits_table (k * 2 + 1) = Ret (chr_0 + k mod 10).
Proof.
  intros Hk. assert (forallb digits_table_entry_ok (seqZ 0 100) = true) as H
    by (vm_compute; reflexivity).
  assert (digits_table_entry_ok k = true) as Hok.
  { rewrite forallb_forall in H. apply H, list_elem_of_In, elem_of_seqZ. lia. }
  unfold digits_table_entry_ok in Hok. clear H Hk.
  destruct (rd digits_table (k * 2)), (rd digits_table (k * 2 + 1)); try done.
  apply andb_prop in Hok as [->%Z.eqb_eq ->%Z.eqb_eq]. done.
Qed.

(** Two writes below [next] replace two cells. *)
Lemma two_writes (dst : list Z) next c0 c1 :
  1 <= next < Zlen dst ->
  exists dst', (d ← wr dst next c1; wr d (next - 1) c0) = Ret dst' /\ Zlen dst' = Zlen dst /\
    drop (Z.to_nat (next - 1)) dst' = c0 :: c1 :: drop (Z.to_nat (next + 1)) dst.
Proof.
  intros H. rewrite wr_ok by lia. simpl. rewrite wr_ok by (zlen; lia).
  eexists. split; [done|]. split; [by zlen|]. unfold Zlen in H.
  rewrite !drop_insert_ge by lia.
  rewrite Nat.sub_diag. replace (Z.to_nat next - Z.to_nat (next - 1))%nat with 1%nat by lia.
  destruct (drop (Z.to_nat (next - 1)) dst) as [|x [|y r]] eqn:E.
  1-2: apply (f_equal length) in E; rewrite length_drop in E; simpl in E; lia.
  simpl. do 2 f_equal.
  replace (Z.to_nat (next + 1)) with (2 + Z.to_nat (next - 1))%nat by lia.
  rewrite Nat.add_comm, <- drop_drop, E. done.
Qed.

Lemma decimal_length_pos n : 1 <= Zlen (decimal n).
Proof.
  unfold Zlen, decimal. simpl. destruct (n <? 10); simpl; [lia|].
  rewrite length_app. simpl. lia.
Qed.

Lemma ull2string_loop_spec fuel dst next value :
  0 <= value < 100 ^ Z.of_nat (S fuel) -> next + 1 = Zlen (decimal value) ->
  next < Zlen dst ->
  exists dst' next' value', ull2string_loop fuel dst next value = Ret (dst', next', value') /\
    0 <= value' < 100 /\ next' + 1 = Zlen (decimal value') /\ Zlen dst' = Zlen dst /\
    next' <= next /\
    decimal value' ++ drop (Z.to_nat (next' + 1)) dst' =
    decimal value ++ drop (Z.to_nat (next + 1)) dst.
Proof.
  revert dst next value. induction fuel as [|fuel IH]; intros dst next value Hv Hn Hl; simpl;
    (destruct (Z.leb_spec 100 value);
      [|exists dst, next, value; split; [done|]; split_and!; done || lia]).
  { simpl in Hv. lia. }
  rewrite Nat2Z.inj_succ, Z.pow_succ_r in Hv by lia.
  destruct (digits_table_spec (value mod 100)) as [E0 E1]; [dlia|]. rewrite E1, E0. simpl.
  rewrite (decimal_snoc2 value), Zlen_app in Hn by lia. zlen.
  pose proof (decimal_length_pos (value / 100)).
  destruct (two_writes dst next (chr_0 + value mod 100 / 10) (chr_0 + (value mod 100) mod 10))
    as (d' & Ew & Hl' & Hd); [lia|].
  destruct (wr dst next (chr_0 + (value mod 100) mod 10)) as [d1| | |] eqn:Ew1; try done.
  simpl in Ew |- *. rewrite Ew. simpl.
  destruct (IH d' (next - 2) (value / 100)) as (dst' & next' & value' & E & Hv' & Hn' & Hlen & Hle & Happ);
    [|lia|lia|].
  { split; [dlia|]. apply Z.div_lt_upper_bound; lia. }
  exists dst', next', value'. split_and!; try done; try lia.
  rewrite Happ, (decimal_snoc2 value) by lia. replace (next - 2 + 1) with (next - 1) by lia.
  rewrite Hd, <- app_assoc. simpl. do 3 f_equal. f_equal. dlia.
Qed.

Lemma ull2string_ok dst dstlen value :
  0 <= value < 2 ^ 64 -> dstlen <= Zlen dst -> Zlen (decimal value) < dstlen ->
  ull2string dst dstlen value =
  Ret (decimal value ++ 0 :: drop (S (length (decimal value))) dst, Zlen (decimal value)).
Proof.
  intros Hv Hdst Hlen. unfold ull2string. rewrite digits10_length by done.
  pose proof (decimal_length_pos value) as Hpos.
  destruct (Z.leb_spec dstlen (Zlen (decimal value))); [lia|].
  rewrite wr_ok by lia. cbn [mbind outcome_bind].
  destruct (ull2string_loop_spec 10 (<[Z.to_nat (Zlen (decimal value) - 1 + 1):=0]> dst)
    (Zlen (decimal value) - 1) value) as (dst' & next & v & E & Hv' & Hn & Hl & Hle & Happ);
    [lia..|zlen; lia|].
  rewrite E. cbn [mbind outcome_bind]. zlen.
  replace (Z.to_nat (Zlen (decimal value) - 1 + 1)) with (length (decimal value)) in Happ
    by (unfold Zlen; lia).
  rewrite drop_insert_ge, Nat.sub_diag in Happ by lia.
  assert (<[0%nat:=0]> (drop (length (decimal value)) dst) =
    0 :: drop (S (length (decimal value))) dst) as Ed.
  { destruct (drop (length (decimal value)) dst) as [|x r] eqn:Er.
    - apply (f_equal length) in Er. rewrite length_drop in Er. simpl in Er. unfold Zlen in *. lia.
    - simpl. f_equal. replace (S _) with (length (decimal value) + 1)%nat by lia.
      by rewrite <- drop_drop, Er. }
  rewrite Ed in Happ. pose proof (decimal_length_pos v).
  destruct (Z.ltb_spec v 10).
  - rewrite decimal_small in * by lia. unfold Zlen in Hn. simpl in Hn. assert (next = 0) as -> by lia.
    rewrite wr_ok by lia. simpl. rewrite wrapu_id by lia. do 2 f_equal. rewrite <- Happ.
    destruct dst'; [zlen; lia|reflexivity].
  - rewrite decimal_two in * by lia. unfold Zlen in Hn. simpl in Hn. assert (next = 1) as -> by lia.
    rewrite wrapu_id by lia. destruct (digits_table_spec v) as [-> ->]; [lia|]. simpl.
    rewrite wr_ok by lia. simpl. rewrite wr_ok by (zlen; lia). simpl. do 2 f_equal.
    rewrite <- Happ. destruct dst' as [|x [|y r]]; [zlen; lia..|reflexivity].
Qed.

Lemma ull2string_small dst dstlen value :
  0 <= value < 2 ^ 64 -> 0 <= dstlen <= Zlen dst -> dstlen <= Zlen (decimal value) ->
  exists dst', ull2string dst dstlen value = Ret (dst', 0) /\ Zlen dst' = Zlen dst /\
    (0 < dstlen -> dst' !! 0%nat = Some 0).
Proof.
  intros Hv Hdst Hlen. unfold ull2string. rewrite digits10_length by done.
  destruct (Z.leb_spec dstlen (Zlen (decimal value))); [|lia].
  unfold num2string_err. destruct (Z.ltb_spec 0 dstlen).
  - rewrite wr_ok by lia. eexists. split; [done|]. split; [by zlen|]. intros _.
    apply list_lookup_insert_eq. unfold Zlen in *. lia.
  - exists dst. split_and!; done || lia.
Qed.

(** Absolute value of a negative [long long]. *)
Lemma neg_magnitude v : INT64_MIN <= v < 0 ->
  (if negb (v =? LLONG_MIN) then - v else LLONG_MAX + 1) = - v.
Proof. unfold INT64_MIN, INT64_MAX. intros. destruct (Z.eqb_spec v (- 2 ^ 63)); simpl; lia. Qed.

Lemma ll2string_ok dst dstlen v :
  INT64_MIN <= v <= INT64_MAX -> dstlen <= Zlen dst -> Zlen (dec v) < dstlen ->
  ll2string dst dstlen v = Ret (dec v ++ 0 :: drop (S (length (dec v))) dst, Zlen (dec v)).
Proof.
  unfold INT64_MIN, INT64_MAX, dec. intros Hv Hdst Hlen. unfold ll2string.
  destruct (Z.ltb_spec v 0).
  - rewrite neg_magnitude by (unfold INT64_MIN; lia). zlen.
    pose proof (decimal_length_pos (- v)).
    destruct (Z.ltb_spec dstlen 2); [lia|].
    destruct dst as [|x dst]; zlen; [lia|].
    rewrite ull2string_ok by lia. simpl.
    destruct (Z.eqb_spec (Zlen (decimal (- v))) 0); [lia|].
    rewrite (Z.add_comm 1). reflexivity.
  - rewrite ull2string_ok by lia. simpl. pose proof (decimal_length_pos v).
    destruct (Z.eqb_spec (Zlen (decimal v)) 0); [lia|done].
Qed.

Lemma ll2string_small dst dstlen v :
  INT64_MIN <= v <= INT64_MAX -> 0 <= dstlen <= Zlen dst -> dstlen <= Zlen (dec v) ->
  exists dst', ll2string dst dstlen v = Ret (dst', 0) /\ Zlen dst' = Zlen dst.
Proof.
  unfold INT64_MIN, INT64_MAX, dec. intros Hv Hdst Hlen. unfold ll2string.
  destruct (Z.ltb_spec v 0).
  - rewrite neg_magnitude by (unfold INT64_MIN; lia). zlen.
    destruct (Z.ltb_spec dstlen 2).
    { unfold num2string_err. destruct (Z.ltb_spec 0 dstlen); [|eauto].
      rewrite wr_ok by lia. eexists. split; [done|]. by zlen. }
    destruct dst as [|x dst]; zlen; [lia|].
    destruct (ull2string_small dst (dstlen - 1) (- v)) as (d' & -> & Hl & _); [lia..|].
    simpl. eexists. split; [done|]. zlen. lia.
  - destruct (ull2string_small dst dstlen v) as (d' & -> & Hl & _); [lia..|]. simpl. eauto.
Qed.

(** ** [string2ll] accepts exactly the reference representations *)

Definition dval_from (v : Z) (ds : list Z) : Z :=
  foldl (fun v c => v * 10 + (c - chr_0)) v ds.

Lemma dval_from_snoc v ds c : dval_from v (ds ++ [c]) = dval_from v ds * 10 + (c - chr_0).
Proof. unfold dval_from. by rewrite foldl_app. Qed.

Lemma dval_from_ge v ds : 0 <= v -> Forall is_digit ds -> v <= dval_from v ds.
Proof.
  intros Hv H. revert v Hv. induction H as [|c ds Hc _ IH]; intros v Hv; simpl; [lia|].
  unfold is_digit in Hc. specialize (IH (v * 10 + (c - chr_0))). lia.
Qed.

Lemma is_digit_test c : (chr_0 <=? c) && (c <=? chr_9) = true <-> is_digit c.
Proof. unfold is_digit. rewrite andb_true_iff, !Z.leb_le. done. Qed.

Lemma string2ll_loop_sound p v w :
  string2ll_loop p v = Some (w, []) -> Forall is_digit p /\ w = dval_from v p.
Proof.
  revert v. induction p as [|c p IH]; intros v; simpl; [by intros [= ->]|].
  destruct ((chr_0 <=? c) && (c <=? chr_9)) eqn:Ed; [|done].
  destruct (_ <? v); [done|]. destruct (_ <? v * 10); [done|].
  intros H. apply IH in H as [??]. split; [|done]. constructor; [|done].
  by apply is_digit_test.
Qed.

Lemma string2ll_loop_complete p v :
  Forall is_digit p -> 0 <= v -> dval_from v p <= ULLONG_MAX ->
  string2ll_loop p v = Some (dval_from v p, []).
Proof.
  intros H. revert v. induction H as [|c p Hc Hp IH]; intros v Hv Hle; simpl; [done|].
  apply is_digit_test in Hc as Ed. rewrite Ed. unfold is_digit in Hc.
  change (dval_from v (c :: p)) with (dval_from (v * 10 + (c - chr_0)) p) in *.
  pose proof (dval_from_ge (v * 10 + (c - chr_0)) p ltac:(lia) Hp) as Hge.
  change (ULLONG_MAX / 10) with 1844674407370955161. unfold UINT64_MAX in *.
  destruct (Z.ltb_spec 1844674407370955161 v); [lia|].
  destruct (Z.ltb_spec (2 ^ 64 - 1 - (c - chr_0)) (v * 10)); [lia|].
  apply IH; lia.
Qed.

(** Digits that do not start with 0 are the representation of their value. *)
Lemma decimal_dval d p :
  chr_1 <= d <= chr_9 -> Forall is_digit p ->
  decimal (dval_from (d - chr_0) p) = d :: p.
Proof.
  intros Hd. induction p as [|c p IH] using rev_ind; intros Hp.
  - simpl. rewrite decimal_small by lia. f_equal. lia.
  - rewrite Forall_app, Forall_singleton in Hp. destruct Hp as [Hp Hc]. unfold is_digit in Hc.
    specialize (IH Hp). rewrite dval_from_snoc.
    pose proof (dval_from_ge (d - chr_0) p ltac:(lia) Hp).
    rewrite decimal_snoc by lia. set (x := dval_from (d - chr_0) p) in *.
    replace ((x * 10 + (c - chr_0)) / 10) with x by dlia.
    replace (chr_0 + (x * 10 + (c - chr_0)) mod 10) with c by dlia. by rewrite IH.
Qed.

(** The representation of a positive number starts with a digit from 1 to 9. *)
Lemma decimal_pos_head n : 0 < n ->
  exists d p, decimal n = d :: p /\ chr_1 <= d <= chr_9 /\ Forall is_digit p /\
    dval_from (d - chr_0) p = n.
Proof.
  intros Hn. assert (0 <= n) as H by lia. revert n H Hn. apply (digit_ind (fun n => 0 < n -> _)).
  - intros n ? ?. exists (chr_0 + n), []. rewrite decimal_small by lia.
    split_and!; [done|lia..|constructor|simpl; lia].
  - intros n Hn IH _. destruct IH as (d & p & E & Hd & Hp & Hv); [dlia|].
    exists d, (p ++ [chr_0 + n mod 10]). rewrite decimal_snoc, E by lia. split_and!; [done|lia..| |].
    + apply Forall_app. split; [done|]. repeat constructor; unfold is_digit; dlia.
    + rewrite dval_from_snoc, Hv. dlia.
Qed.

Lemma decimal_inj n m : 0 <= n -> 0 <= m -> decimal n = decimal m -> n = m.
Proof.
  intros Hn Hm E. assert (forall k, 0 <= k -> k = 0 \/ 0 < k) as Hc by lia.
  destruct (Hc n Hn) as [->|Hn'], (Hc m Hm) as [->|Hm']; try done.
  - destruct (decimal_pos_head m Hm') as (d & p & E' & ? & _). rewrite E' in E.
    rewrite decimal_small in E by lia. simplify_eq. lia.
  - destruct (decimal_pos_head n Hn') as (d & p & E' & ? & _). rewrite E' in E.
    rewrite decimal_small in E by lia. simplify_eq. lia.
  - destruct (decimal_pos_head n Hn') as (d & p & E1 & ? & _ & <-).
    destruct (decimal_pos_head m Hm') as (d' & p' & E2 & ? & _ & <-).
    rewrite E1, E2 in E. by simplify_eq.
Qed.

Lemma decimal_length_le n (d : nat) :
  0 <= n < 10 ^ Z.of_nat (S d) -> (length (decimal n) <= S d)%nat.
Proof.
  intros H. revert n H. induction d as [|d IH]; intros n Hn.
  - rewrite decimal_small by (simpl in Hn; lia). done.
  - destruct (Z.lt_ge_cases n 10); [rewrite decimal_small by lia; simpl; lia|].
    rewrite decimal_snoc, length_app by lia. simpl.
    enough (length (decimal (n / 10)) <= S d)%nat by lia. apply IH.
    rewrite Nat2Z.inj_succ, Z.pow_succ_r in Hn by lia.
    split; [dlia|]. apply Z.div_lt_upper_bound; lia.
Qed.

Lemma dec_length v : INT64_MIN <= v <= INT64_MAX -> 1 <= Zlen (dec v) < LONG_STR_SIZE.
Proof.
  unfold INT64_MIN, INT64_MAX, LONG_STR_SIZE, dec. intros Hv.
  destruct (Z.ltb_spec v 0); zlen.
  - pose proof (decimal_length_le (- v) 18 ltac:(lia)). unfold Zlen. lia.
  - pose proof (decimal_length_le v 18 ltac:(lia)). pose proof (decimal_length_pos v).
    unfold Zlen in *. lia.
Qed.

Lemma string2ll_dec v : INT64_MIN <= v <= INT64_MAX -> string2ll (dec v) = Some v.
Proof.
  intros Hv. pose proof (dec_length v Hv) as Hlen. unfold string2ll.
  destruct (Z.eqb_spec (Zlen (dec v)) 0), (Z.leb_spec LONG_STR_SIZE (Zlen (dec v))); try lia.
  cbn [orb]. clear Hlen n H. unfold dec. unfold INT64_MIN, INT64_MAX in *.
  assert (forall d p n, 0 < n <= 2 ^ 63 -> Forall is_digit p -> chr_1 <= d <= chr_9 ->
    dval_from (d - chr_0) p = n -> string2ll_loop p (d - chr_0) = Some (n, [])) as Hloop.
  { intros d p n Hn Hp Hd <-. apply string2ll_loop_complete; [done|lia|].
    unfold UINT64_MAX. lia. }
  destruct (Z.ltb_spec v 0).
  - destruct (decimal_pos_head (- v)) as (d & p & E & Hd & Hp & Hval); [lia|]. rewrite E.
    rewrite andb_false_r. simpl.
    destruct (Z.leb_spec chr_1 d), (Z.leb_spec d chr_9); try lia. simpl.
    rewrite (Hloop d p (- v)) by (lia || done). simpl.
    change (u64 (- (- 2 ^ 63 + 1)) + 1) with (2 ^ 63).
    destruct (Z.ltb_spec (2 ^ 63) (- v)); [lia|]. rewrite Z.opp_involutive. f_equal.
    unfold wrapu, wraps. simpl (64 - 1). dlia.
  - destruct (Z.eq_dec v 0) as [->|]; [done|].
    destruct (decimal_pos_head v) as (d & p & E & Hd & Hp & Hval); [lia|]. rewrite E.
    destruct (Z.eqb_spec d chr_0); [lia|]. rewrite andb_false_r.
    destruct (Z.eqb_spec d chr_minus); [lia|].
    destruct (Z.leb_spec chr_1 d), (Z.leb_spec d chr_9); try lia. simpl.
    rewrite (Hloop d p v) by (lia || done). simpl.
    destruct (Z.ltb_spec (2 ^ 63 - 1) v); [lia|done].
Qed.

Lemma string2ll_sound s v :
  string2ll s = Some v -> s = dec v /\ INT64_MIN <= v <= INT64_MAX.
Proof.
  unfold string2ll. destruct (_ || _); [done|]. destruct s as [|c p']; [done|].
  destruct ((Zlen (c :: p') =? 1) && (c =? chr_0)) eqn:E0.
  { intros [= <-]. apply andb_prop in E0 as [E1%Z.eqb_eq ->%Z.eqb_eq]. zlen.
    destruct p'; zlen; [|pose proof (Zlen_nonneg p'); lia].
    unfold INT64_MIN, INT64_MAX. split; [done|lia]. }
  clear E0. set (neg := c =? chr_minus).
  destruct (if neg then p' else c :: p') as [|d p] eqn:Ep; [done|].
  destruct (Z.leb_spec chr_1 d), (Z.leb_spec d chr_9); try done. simpl.
  destruct (string2ll_loop p (d - chr_0)) as [[w rest]|] eqn:El; [|done]. simpl.
  destruct rest; [|done]. apply string2ll_loop_sound in El as [Hp ->].
  pose proof (decimal_dval d p ltac:(lia) Hp) as Ed.
  pose proof (dval_from_ge (d - chr_0) p ltac:(lia) Hp).
  set (w := dval_from (d - chr_0) p) in *. unfold INT64_MIN, INT64_MAX, neg in *.
  change (u64 (- (- 2 ^ 63 + 1)) + 1) with (2 ^ 63).
  destruct (Z.eqb_spec c chr_minus) as [->|].
  - subst p'. destruct (Z.ltb_spec (2 ^ 63) w); [done|]. intros [= <-].
    assert (s64 (u64 (- w)) = - w) as -> by (unfold wrapu, wraps; simpl (64 - 1); dlia).
    split; [|lia]. unfold dec. destruct (Z.ltb_spec (- w) 0); [|lia].
    by rewrite Z.opp_involutive, Ed.
  - simplify_eq. destruct (Z.ltb_spec (2 ^ 63 - 1) w); [done|]. intros [= <-].
    split; [|lia]. unfold dec. destruct (Z.ltb_spec w 0); [lia|]. done.
Qed.

(** The listpack copy is the same function. *)
Lemma lpStringToInt64_eq s : lpStringToInt64 s = string2ll s.
Proof. reflexivity. Qed.

(** ** Properties *)

(** [string2ll] accepts a byte string exactly when it is the canonical
    decimal representation of a 64-bit signed integer, and then stores that
    integer: no leading zero, plus sign, space, trailing byte, "-0" or
    overflowing number is accepted, and every value in range is. *)
Theorem string2ll_correct s v :
  string2ll s = Some v <-> s = dec v /\ INT64_MIN <= v <= INT64_MAX.
Proof.
  split; [apply string2ll_sound|]. intros [-> Hv]. by apply string2ll_dec.
Qed.

(** [ll2string] into a buffer with room for the representation and the
    NUL writes exactly the canonical representation followed by the NUL, leaves
    the bytes after it alone and returns the length; into a shorter buffer it
    returns 0 and writes inside the buffer only. *)
Theorem ll2string_correct dst dstlen v :
  INT64_MIN <= v <= INT64_MAX -> 0 <= dstlen <= Zlen dst ->
  if Zlen (dec v) <? dstlen
  then ll2string dst dstlen v = Ret (dec v ++ 0 :: drop (S (length (dec v))) dst, Zlen (dec v))
  else exists dst', ll2string dst dstlen v = Ret (dst', 0) /\ Zlen dst' = Zlen dst.
Proof.
  intros Hv Hl. destruct (Z.ltb_spec (Zlen (dec v)) dstlen).
  - apply ll2string_ok; [done|lia..].
  - apply ll2string_small; [done|lia..].
Qed.

(** Printing a 64-bit integer into a 21-byte buffer (the [LONG_STR_SIZE]
    buffers of the callers) always succeeds, and parsing the characters printed
    gives the integer back. *)
Theorem ll2string_string2ll_roundtrip dst v :
  INT64_MIN <= v <= INT64_MAX -> LONG_STR_SIZE <= Zlen dst ->
  exists dst' n, ll2string dst LONG_STR_SIZE v = Ret (dst', n) /\ 0 < n < LONG_STR_SIZE /\
    string2ll (take (Z.to_nat n) dst') = Some v.
Proof.
  intros Hv Hl. pose proof (dec_length v Hv) as Hd.
  rewrite ll2string_ok by (done || lia).
  eexists _, _. split; [done|]. split; [lia|]. unfold Zlen.
  rewrite Nat2Z.id, take_app_length. by apply string2ll_dec.
Qed.

(** [sdigits10] is the length of the canonical representation, for every
    64-bit signed integer, the most negative one included. *)
Theorem sdigits10_correct v :
  INT64_MIN <= v <= INT64_MAX -> sdigits10 v = Zlen (dec v).
Proof.
  unfold sdigits10, dec, INT64_MIN, INT64_MAX. intros Hv. destruct (Z.ltb_spec v 0).
  - assert ((if negb (v =? - 2 ^ 63) then u64 (- v) else 2 ^ 63 - 1 + 1) = - v) as ->.
    { destruct (Z.eqb_spec v (- 2 ^ 63)); simpl negb; cbv iota; [lia|].
      rewrite wrapu_id; lia. }
    rewrite digits10_length by lia. zlen. lia.
  - apply digits10_length. lia.
Qed.

(** ** Witnesses *)

Lemma ll2string_witness :
  ll2string (replicate 8 1) 8 (-12345) = Ret ([45; 49; 50; 51; 52; 53; 0; 1], 6).
Proof.
  refine (ll2string_correct (replicate 8 1) 8 (-12345) _ _);
    unfold INT64_MIN, INT64_MAX, Zlen; simpl; lia.
Defined.

Lemma ll2string_string2ll_witness :
  exists dst' n, ll2string (replicate 21 7) LONG_STR_SIZE (-70) = Ret (dst', n) /\
    0 < n < LONG_STR_SIZE /\ string2ll (take (Z.to_nat n) dst') = Some (-70).
Proof.
  apply (ll2string_string2ll_roundtrip (replicate 21 7) (-70));
    unfold INT64_MIN, INT64_MAX, LONG_STR_SIZE, Zlen; simpl; lia.
Defined.

Lemma sdigits10_witness : sdigits10 INT64_MIN = 20.
Proof.
  exact (sdigits10_correct INT64_MIN ltac:(unfold INT64_MIN, INT64_MAX; lia)).
Defined.

Lemma dec_bytes v : Forall is_byte (dec v).
Proof.
  assert (forall n, 0 <= n -> Forall is_byte (decimal n)) as Hd.
  { intros n Hn. eapply list.Forall_impl; [by apply decimal_digits|]. unfold is_digit, is_byte. lia. }
  unfold dec. destruct (Z.ltb_spec v 0); [|by apply Hd]. apply Forall_cons_2; [done|]. apply Hd. lia.
Qed.
