(* ===== verification/Intset.v ===== *)
(** * intset.c: the sorted array of integers that represents small integer sets

    An [intset] is the C struct: the encoding (bytes per element), the number
    of elements, and the bytes of the flexible array member [contents], on a
    little-endian host (where [intrev32ifbe] and [memrev*ifbe] do nothing).
    Every access goes through the checked block reads and writes of [Memory],
    so a theorem that an operation returns also says that it stays inside the
    allocation.  [Rep s vs] says that [s] holds the strictly increasing list
    [vs]; the operations refine insertion into and removal from it. *)

From stdpp Require Import gmap.
From S2P Require Import Prelude Memory.
From Stdlib Require Import Sorted.

Definition INTSET_ENC_INT16 : Z := 2.
Definition INTSET_ENC_INT32 : Z := 4.
Definition INTSET_ENC_INT64 : Z := 8.

Record intset := mkIntset {
  encoding : Z;          (* uint32_t encoding *)
  ilength : Z;           (* uint32_t length *)
  contents : list Z;     (* int8_t contents[] *)
}.

(** [sizeof(intset)]: the two header words. *)
Definition sizeof_intset : Z := 8.

Definition _intsetValueEncoding (v : Z) : Z :=
  if (v <? INT32_MIN) || (INT32_MAX <? v) then INTSET_ENC_INT64
  else if (v <? INT16_MIN) || (INT16_MAX <? v) then INTSET_ENC_INT32
  else INTSET_ENC_INT16.

Definition _intsetGetEncoded (s : intset) (pos enc : Z) : outcome Z :=
  if enc =? INTSET_ENC_INT64 then
    v64 ← rdn (contents s) (pos * 8) 8; Ret (s64 (le_value v64))
  else if enc =? INTSET_ENC_INT32 then
    v32 ← rdn (contents s) (pos * 4) 4; Ret (s32 (le_value v32))
  else
    v16 ← rdn (contents s) (pos * 2) 2; Ret (s16 (le_value v16)).

Definition _intsetGet (s : intset) (pos : Z) : outcome Z :=
  _intsetGetEncoded s pos (encoding s).

Definition set_contents (s : intset) (c : list Z) : intset :=
  {| encoding := encoding s; ilength := ilength s; contents := c |}.

Definition _intsetSet (s : intset) (pos value : Z) : outcome intset :=
  if encoding s =? INTSET_ENC_INT64 then
    c ← wrn (contents s) (pos * 8) (le_bytes 8 value); Ret (set_contents s c)
  else if encoding s =? INTSET_ENC_INT32 then
    c ← wrn (contents s) (pos * 4) (le_bytes 4 value); Ret (set_contents s c)
  else
    c ← wrn (contents s) (pos * 2) (le_bytes 2 value); Ret (set_contents s c).

Section intset_ops.
Context `{Allocator}.

(** The whole allocation: header words and contents. *)
Definition intset_block (s : intset) : list Z :=
  le_bytes 4 (encoding s) ++ le_bytes 4 (ilength s) ++ contents s.

Definition intsetNew : intset :=
  {| encoding := INTSET_ENC_INT16; ilength := 0;
     contents := drop (Z.to_nat sizeof_intset) (zmalloc sizeof_intset) |}.

Definition intsetAllocSize (s : intset) : outcome Z :=
  let size := u64 (ilength s * encoding s) in
  _ ← c_assert (size <=? UINT64_MAX - sizeof_intset);
  Ret (sizeof_intset + size).

Definition intsetResize (s : intset) (len : Z) : outcome intset :=
  let size := u64 (len * encoding s) in
  _ ← c_assert (size <=? UINT64_MAX - sizeof_intset);
  let b := zrealloc (intset_block s) (sizeof_intset + size) in
  Ret (set_contents s (drop (Z.to_nat sizeof_intset) b)).

(** The binary search loop; returns [(min, mid, cur)] at its exit. *)
Fixpoint search_loop (fuel : nat) (s : intset) (value min max mid cur : Z)
  : outcome (Z * Z * Z) :=
  if min <=? max then
    match fuel with
    | O => OutOfFuel
    | S fuel =>
      let mid := Z.shiftr (u32 (u32 min + u32 max)) 1 in
      cur ← _intsetGet s mid;
      if cur <? value then search_loop fuel s value (mid + 1) max mid cur
      else if value <? cur then search_loop fuel s value min (mid - 1) mid cur
      else Ret (min, mid, cur)
    end
  else Ret (min, mid, cur).

(** Returns the result flag and [*pos]. *)
Definition intsetSearch (s : intset) (value : Z) : outcome (bool * Z) :=
  let max := s32 (ilength s - 1) in
  if ilength s =? 0 then Ret (false, 0) else
  top ← _intsetGet s max;
  if top <? value then Ret (false, ilength s) else
  bot ← _intsetGet s 0;
  if value <? bot then Ret (false, 0) else
  '(min, mid, cur) ← search_loop (Z.to_nat (ilength s)) s value 0 max (-1) (-1);
  if value =? cur then Ret (true, mid) else Ret (false, min).

(** [while (length--)]: rewrites elements [n-1] down to [0] at the new width. *)
Fixpoint upgrade_loop (n : nat) (s : intset) (curenc prepend : Z) : outcome intset :=
  match n with
  | O => Ret s
  | S n =>
    v ← _intsetGetEncoded s (Z.of_nat n) curenc;
    s ← _intsetSet s (Z.of_nat n + prepend) v;
    upgrade_loop n s curenc prepend
  end.

Definition intsetUpgradeAndAdd (s : intset) (value : Z) : outcome intset :=
  let curenc := encoding s in
  let newenc := _intsetValueEncoding value in
  let length := ilength s in
  let prepend := if value <? 0 then 1 else 0 in
  let s := {| encoding := newenc; ilength := ilength s; contents := contents s |} in
  s ← intsetResize s (u32 (ilength s + 1));
  s ← upgrade_loop (Z.to_nat length) s curenc prepend;
  s ← (if negb (prepend =? 0) then _intsetSet s 0 value
        else _intsetSet s (ilength s) value);
  Ret {| encoding := encoding s; ilength := u32 (ilength s + 1); contents := contents s |}.

Definition intsetMoveTail (s : intset) (from to : Z) : outcome intset :=
  let bytes := u32 (ilength s - from) in
  if encoding s =? INTSET_ENC_INT64 then
    c ← c_memmove (contents s) (to * 8) (from * 8) (u32 (bytes * 8)); Ret (set_contents s c)
  else if encoding s =? INTSET_ENC_INT32 then
    c ← c_memmove (contents s) (to * 4) (from * 4) (u32 (bytes * 4)); Ret (set_contents s c)
  else
    c ← c_memmove (contents s) (to * 2) (from * 2) (u32 (bytes * 2)); Ret (set_contents s c).

(** Returns the set and [*success]. *)
Definition intsetAdd (s : intset) (value : Z) : outcome (intset * bool) :=
  let valenc := _intsetValueEncoding value in
  if encoding s <? valenc then
    s ← intsetUpgradeAndAdd s value; Ret (s, true)
  else
    '(found, pos) ← intsetSearch s value;
    if found : bool then Ret (s, false) else
    s ← intsetResize s (u32 (ilength s + 1));
    s ← (if pos <? ilength s then intsetMoveTail s pos (u32 (pos + 1)) else Ret s);
    s ← _intsetSet s pos value;
    Ret ({| encoding := encoding s; ilength := u32 (ilength s + 1);
            contents := contents s |}, true).

Definition intsetRemove (s : intset) (value : Z) : outcome (intset * bool) :=
  let valenc := _intsetValueEncoding value in
  if valenc <=? encoding s then
    '(found, pos) ← intsetSearch s value;
    if found : bool then
      let len := ilength s in
      s ← (if pos <? u32 (len - 1) then intsetMoveTail s (u32 (pos + 1)) pos else Ret s);
      s ← intsetResize s (u32 (len - 1));
      Ret ({| encoding := encoding s; ilength := u32 (len - 1); contents := contents s |}, true)
    else Ret (s, false)
  else Ret (s, false).
End intset_ops.

Definition intsetFind (s : intset) (value : Z) : outcome bool :=
  let valenc := _intsetValueEncoding value in
  if valenc <=? encoding s then
    '(found, _) ← intsetSearch s value; Ret found
  else Ret false.

(** [r] is the value of [rand()]. *)
Definition intsetRandom (s : intset) (r : Z) : outcome Z :=
  let len := ilength s in
  _ ← c_assert (negb (len =? 0));
  _intsetGet s (s32 (u32 r mod len)).

Definition intsetMax (s : intset) : outcome Z := _intsetGet s (s32 (u32 (ilength s - 1))).
Definition intsetMin (s : intset) : outcome Z := _intsetGet s 0.

(** [None] when the position is out of range. *)
Definition intsetGet (s : intset) (pos : Z) : outcome (option Z) :=
  if pos <? ilength s then v ← _intsetGet s pos; Ret (Some v) else Ret None.

Definition intsetLen (s : intset) : Z := ilength s.
Definition intsetBlobLen (s : intset) : Z := sizeof_intset + ilength s * encoding s.

(** The loop over records [i .. count-1]; [prev] is the record before [i]. *)
Fixpoint validate_loop (n : nat) (s : intset) (i prev : Z) : outcome bool :=
  match n with
  | O => Ret true
  | S n =>
    cur ← _intsetGet s i;
    if cur <=? prev then Ret false else validate_loop n s (i + 1) cur
  end.

(** The checks that follow the cast of the buffer to a struct. *)
Definition validate_struct (s : intset) (size : Z) (deep : bool) : outcome bool :=
  let valid_enc := (encoding s =? INTSET_ENC_INT64) || (encoding s =? INTSET_ENC_INT32)
                   || (encoding s =? INTSET_ENC_INT16) in
  if negb valid_enc then Ret false else
  let record_size := encoding s in
  let count := ilength s in
  if negb (sizeof_intset + count * record_size =? size) then Ret false else
  if count =? 0 then Ret false else
  if negb deep then Ret true else
  prev ← _intsetGet s 0;
  validate_loop (Z.to_nat (count - 1)) s 1 prev.

(** [p] is the buffer, [size] its claimed size. *)
Definition intsetValidateIntegrity (p : list Z) (size : Z) (deep : bool) : outcome bool :=
  if size <? sizeof_intset then Ret false else
  e ← rdn p 0 4; l ← rdn p 4 4;
  validate_struct {| encoding := le_value e; ilength := le_value l;
                     contents := drop (Z.to_nat sizeof_intset) p |} size deep.

(** ** Sanity: the type transitions exercised by the unit test of the source *)

Definition add_all `{Allocator} (vs : list Z) : outcome intset :=
  foldl (fun m v => s ← m; '(s, _) ← intsetAdd s v; Ret s) (Ret intsetNew) vs.

Example intset_upgrade_example :
  (s ← @add_all exact_allocator [32; 65535; -4294967296; 5]; '(s, _) ← @intsetRemove exact_allocator s 32;
   f ← intsetFind s 65535; a ← intsetGet s 0; b ← intsetGet s 1; c ← intsetGet s 2;
   Ret (f, ilength s, encoding s, a, b, c))
  = Ret (true, 3, 8, Some (-4294967296), Some 5, Some 65535).
Proof. vm_compute. reflexivity. Qed.

(** ** Elements as chunks of the contents *)

Definition valid_enc (e : Z) : Prop := e = 2 \/ e = 4 \/ e = 8.

(** [v] is representable in [e] bytes. *)
Definition fits (e v : Z) : Prop := - 2 ^ (8 * e - 1) <= v < 2 ^ (8 * e - 1).

(** The [e] bytes of element [i] hold [v]. *)
Definition chunk (e : Z) (c : list Z) (i v : Z) : Prop :=
  rdn c (i * e) e = Ret (le_bytes (Z.to_nat e) v).

Lemma getEncoded_eq s pos e : valid_enc e ->
  _intsetGetEncoded s pos e = (b ← rdn (contents s) (pos * e) e; Ret (wraps (8 * e) (le_value b))).
Proof. by intros [->|[->| ->]]. Qed.

Lemma intsetSet_eq s pos v : valid_enc (encoding s) ->
  _intsetSet s pos v =
  (c ← wrn (contents s) (pos * encoding s) (le_bytes (Z.to_nat (encoding s)) v);
   Ret (set_contents s c)).
Proof. unfold _intsetSet. by intros [->|[->| ->]]. Qed.

Lemma moveTail_eq s from to : valid_enc (encoding s) ->
  intsetMoveTail s from to =
  (c ← c_memmove (contents s) (to * encoding s) (from * encoding s)
         (u32 (u32 (ilength s - from) * encoding s)); Ret (set_contents s c)).
Proof. unfold intsetMoveTail. by intros [->|[->| ->]]. Qed.

Lemma valid_enc_bounds e : valid_enc e -> 2 <= e <= 8.
Proof. unfold valid_enc. lia. Qed.

Lemma getEncoded_chunk s i e v :
  valid_enc e -> fits e v -> chunk e (contents s) i v -> _intsetGetEncoded s i e = Ret v.
Proof.
  intros He Hf Hc. pose proof (valid_enc_bounds e He). rewrite getEncoded_eq, Hc by done. simpl.
  f_equal. replace (8 * e) with (8 * Z.of_nat (Z.to_nat e)) by lia.
  unfold fits in Hf. apply wraps_le_value; [lia|]. by rewrite Z2Nat.id by lia.
Qed.

Lemma set_chunk s i v :
  valid_enc (encoding s) -> 0 <= i -> (i + 1) * encoding s <= Zlen (contents s) ->
  exists c, _intsetSet s i v = Ret (set_contents s c) /\ Zlen c = Zlen (contents s) /\
    chunk (encoding s) c i v /\
    forall j m, j + m <= i * encoding s \/ (i + 1) * encoding s <= j ->
      rdn c j m = rdn (contents s) j m.
Proof.
  intros He Hi Hr. pose proof (valid_enc_bounds _ He). rewrite intsetSet_eq by done.
  set (e := encoding s) in *. set (bs := le_bytes (Z.to_nat e) v).
  assert (Zlen bs = e) as Hb by (unfold bs; rewrite Zlen_le_bytes; lia).
  destruct (wrn (contents s) (i * e) bs) as [c| | |] eqn:Ew; try (rewrite wrn_ok in Ew; [done|nia..]).
  exists c. split; [done|]. split; [pose proof (wrn_length _ _ _ _ Ew); unfold Zlen; lia|]. split.
  - unfold chunk. rewrite <- Hb at 2. by apply (rdn_wrn_eq _ _ _ _ Ew).
  - intros j m Hj. apply (rdn_wrn_ne _ _ _ _ _ _ Ew). rewrite Hb. lia.
Qed.

(** A value that needs a wider encoding lies outside the range of the narrower one. *)
Lemma valueEncoding_valid v : valid_enc (_intsetValueEncoding v).
Proof.
  unfold _intsetValueEncoding, valid_enc.
  repeat case_match; unfold INTSET_ENC_INT64, INTSET_ENC_INT32, INTSET_ENC_INT16; lia.
Qed.

Lemma valueEncoding_fits v e :
  INT64_MIN <= v <= INT64_MAX -> valid_enc e -> (_intsetValueEncoding v <= e <-> fits e v).
Proof.
  unfold _intsetValueEncoding, fits, INT64_MIN, INT64_MAX, INT32_MIN, INT32_MAX, INT16_MIN,
    INT16_MAX, INTSET_ENC_INT64, INTSET_ENC_INT32, INTSET_ENC_INT16.
  intros Hv [->|[->| ->]]; simpl (2 ^ (8 * _ - 1));
    destruct (Z.ltb_spec v (- 2 ^ 31)), (Z.ltb_spec (2 ^ 31 - 1) v),
      (Z.ltb_spec v (- 2 ^ 15)), (Z.ltb_spec (2 ^ 15 - 1) v); simpl; lia.
Qed.

(** ** Representation *)

Record Rep (s : intset) (vs : list Z) : Prop := {
  rep_enc : valid_enc (encoding s);
  rep_len : ilength s = Zlen vs;
  rep_small : Zlen vs < 2 ^ 29;
  rep_sorted : StronglySorted Z.lt vs;
  rep_fits : Forall (fits (encoding s)) vs;
  rep_room : Zlen vs * encoding s <= Zlen (contents s);
  rep_elem : forall i v, vs !! i = Some v -> chunk (encoding s) (contents s) (Z.of_nat i) v;
}.

Lemma sorted_lookup_lt vs i j a b :
  StronglySorted Z.lt vs -> vs !! i = Some a -> vs !! j = Some b -> (i < j)%nat -> a < b.
Proof.
  intros Hs. revert i j. induction Hs as [|x vs Hs IH Hx]; intros i j Ha Hb Hij; [done|].
  destruct j as [|j]; [lia|]. simpl in Hb. destruct i as [|i]; simpl in Ha.
  - injection Ha as ->. by apply (Forall_lookup_1 _ _ _ _ Hx Hb).
  - apply (IH i j); [done..|lia].
Qed.

Lemma sorted_lookup_le vs i j a b :
  StronglySorted Z.lt vs -> vs !! i = Some a -> vs !! j = Some b -> (i <= j)%nat -> a <= b.
Proof.
  intros Hs Ha Hb Hij. destruct (decide (i = j)) as [->|]; [simplify_eq; lia|].
  pose proof (sorted_lookup_lt _ _ _ _ _ Hs Ha Hb). lia.
Qed.

Section search.
Context (s : intset) (vs : list Z) (HR : Rep s vs).

Lemma rep_get i v : vs !! i = Some v -> _intsetGet s (Z.of_nat i) = Ret v.
Proof.
  intros Hv. destruct HR. unfold _intsetGet. apply getEncoded_chunk; [done| |auto].
  by apply (Forall_lookup_1 _ _ _ _ rep_fits0 Hv).
Qed.

Lemma rep_getZ i : 0 <= i < Zlen vs ->
  exists v, vs !! Z.to_nat i = Some v /\ _intsetGet s i = Ret v.
Proof.
  intros Hi. destruct (lookup_lt_is_Some_2 vs (Z.to_nat i)) as [v Hv]; [unfold Zlen in Hi; lia|].
  exists v. split; [done|]. apply rep_get in Hv. by rewrite Z2Nat.id in Hv by lia.
Qed.

(** Everything before [p] is below [v], everything from [q] on is above. *)
Definition below (v p : Z) : Prop := forall i x, vs !! i = Some x -> Z.of_nat i < p -> x < v.
Definition above (v q : Z) : Prop := forall i x, vs !! i = Some x -> q <= Z.of_nat i -> v < x.

Lemma search_loop_spec fuel value min max mid cur :
  0 <= min -> max < Zlen vs -> min <= max + 1 -> max - min + 1 <= Z.of_nat fuel ->
  (max < min -> cur <> value) -> below value min -> above value (max + 1) ->
  exists m md c, search_loop fuel s value min max mid cur = Ret (m, md, c) /\
    ((c = value /\ 0 <= md < Zlen vs /\ vs !! Z.to_nat md = Some value) \/
     (c <> value /\ 0 <= m <= Zlen vs /\ below value m /\ above value m)).
Proof.
  pose proof (rep_small _ _ HR) as Hsm.
  revert min max mid cur. induction fuel as [|fuel IH];
    intros min max mid cur Hmin Hmax Hle Hf Hcur Hb Ha; simpl;
    (destruct (Z.leb_spec min max);
      [|exists min, mid, cur; split; [done|]; right; split_and!; [auto|lia..|done|];
        replace min with (max + 1) by lia; done]); [lia|].
  assert (Z.shiftr (u32 (u32 min + u32 max)) 1 = (min + max) / 2) as ->.
  { rewrite !wrapu_id by (rewrite ?wrapu_id; lia). rewrite Z.shiftr_div_pow2 by lia. done. }
  set (md := (min + max) / 2). assert (min <= md <= max) as Hmd by (unfold md; dlia).
  destruct (rep_getZ md) as (x & Hx & Eg); [lia|]. rewrite Eg. simpl.
  pose proof (rep_sorted _ _ HR) as Hs.
  destruct (Z.ltb_spec x value); [|destruct (Z.ltb_spec value x)].
  - apply IH; try lia; [|done]. intros i y Hy Hi.
    pose proof (sorted_lookup_le _ i (Z.to_nat md) _ _ Hs Hy Hx). lia.
  - apply IH; try lia; [done|]. intros i y Hy Hi.
    pose proof (sorted_lookup_le _ (Z.to_nat md) i _ _ Hs Hx Hy). lia.
  - exists min, md, x. split; [done|]. left. assert (x = value) as -> by lia.
    split_and!; done || lia.
Qed.

Lemma search_spec value :
  exists f p, intsetSearch s value = Ret (f, p) /\ 0 <= p <= Zlen vs /\
    if f : bool then vs !! Z.to_nat p = Some value
    else below value p /\ above value p.
Proof.
  pose proof (rep_small _ _ HR). pose proof (rep_len _ _ HR) as Hl.
  pose proof (rep_sorted _ _ HR) as Hs. pose proof (Zlen_nonneg vs).
  unfold intsetSearch. rewrite Hl. destruct (Z.eqb_spec (Zlen vs) 0) as [E|].
  { exists false, 0. split; [done|]. split; [lia|].
    split; intros i y Hy; apply lookup_lt_Some in Hy; unfold Zlen in E; lia. }
  rewrite wraps_id by lia.
  destruct (rep_getZ (Zlen vs - 1)) as (t & Ht & ->); [lia|]. simpl.
  destruct (Z.ltb_spec t value).
  { eexists _, _. split; [done|]. split; [lia|]. split; intros i y Hy Hi.
    - apply lookup_lt_Some in Hy as Hlt.
      pose proof (sorted_lookup_le _ i _ _ _ Hs Hy Ht). unfold Zlen in *. lia.
    - apply lookup_lt_Some in Hy as Hlt. unfold Zlen in *. lia. }
  destruct (rep_getZ 0) as (b & Hb & ->); [lia|]. simpl.
  destruct (Z.ltb_spec value b).
  { eexists _, _. split; [done|]. split; [lia|]. split; intros i y Hy Hi; [lia|].
    pose proof (sorted_lookup_le _ _ i _ _ Hs Hb Hy). lia. }
  destruct (search_loop_spec (Z.to_nat (Zlen vs)) value 0 (Zlen vs - 1) (-1) (-1))
    as (m & md & c & -> & Hr); try lia.
  { intros i y _ Hi. lia. }
  { intros i y Hy Hi. apply lookup_lt_Some in Hy. unfold Zlen in *. lia. }
  simpl. destruct Hr as [(-> & Hmd & Hx)|(Hne & Hm & Hbel & Habv)].
  - rewrite Z.eqb_refl. eexists _, _. split; [done|]. split; [lia|done].
  - destruct (Z.eqb_spec value c); [lia|]. eexists _, _. split; [done|]. done.
Qed.

Lemma search_found value f p :
  intsetSearch s value = Ret (f, p) -> f = bool_decide (value ∈ vs).
Proof.
  intros E. destruct (search_spec value) as (f' & p' & E' & Hp & H). rewrite E in E'.
  injection E' as <- <-. destruct f.
  - symmetry. apply bool_decide_eq_true. apply list_elem_of_lookup. eauto.
  - symmetry. apply bool_decide_eq_false. intros [i Hi]%list_elem_of_lookup.
    destruct H as [Hb Ha]. specialize (Hb i value Hi). specialize (Ha i value Hi). lia.
Qed.
End search.

(** ** Updates *)

Lemma sorted_of_lookup vs :
  (forall i j a b, vs !! i = Some a -> vs !! j = Some b -> (i < j)%nat -> a < b) ->
  StronglySorted Z.lt vs.
Proof.
  induction vs as [|x vs IH]; intros H; constructor.
  - apply IH. intros i j a b Ha Hb Hij. apply (H (S i) (S j)); [done..|lia].
  - apply Forall_lookup. intros j b Hb. apply (H O (S j)); [done..|lia].
Qed.

Section updates.
Context `{Allocator}.

Lemma resize_spec s len :
  valid_enc (encoding s) -> 0 <= len <= 2 ^ 29 ->
  exists c, intsetResize s len = Ret (set_contents s c) /\ len * encoding s <= Zlen c /\
    forall i k, 0 <= i -> 0 <= k -> i + k <= Zlen (contents s) -> i + k <= len * encoding s ->
      rdn c i k = rdn (contents s) i k.
Proof.
  intros He Hl. pose proof (valid_enc_bounds _ He). unfold intsetResize.
  rewrite wrapu_id by nia. unfold c_assert, UINT64_MAX, sizeof_intset.
  destruct (Z.leb_spec (len * encoding s) (2 ^ 64 - 1 - 8)); [|nia]. simpl.
  eexists. split; [done|].
  set (n := 8 + len * encoding s). set (b := intset_block s).
  assert (Zlen b = 8 + Zlen (contents s)) as Hb
    by (unfold b, intset_block; zlen; rewrite !Zlen_le_bytes; lia).
  pose proof (zrealloc_size_ge b n). change 8%nat with (Z.to_nat 8).
  split; [rewrite Zlen_drop by lia; lia|].
  intros i k Hi Hk Hc Hn. rewrite rdn_drop, rdn_zrealloc by lia.
  unfold b, intset_block. rewrite app_assoc.
  replace (8 + i) with (Zlen (le_bytes 4 (encoding s) ++ le_bytes 4 (ilength s)) + i)
    by (zlen; rewrite !Zlen_le_bytes; lia).
  by apply rdn_app_off.
Qed.

(** Appending room: after growing by one element, the old chunks are in place. *)
Lemma resize_chunks s vs len : Rep s vs -> 0 <= len <= 2 ^ 29 -> Zlen vs <= len ->
  exists c, intsetResize s len = Ret (set_contents s c) /\ len * encoding s <= Zlen c /\
    forall i v, vs !! i = Some v -> chunk (encoding s) c (Z.of_nat i) v.
Proof.
  intros HR Hl Hle. pose proof (rep_enc _ _ HR) as He. pose proof (valid_enc_bounds _ He).
  destruct (resize_spec s len He Hl) as (c & E & Hc & Hrd). exists c. split_and!; [done..|].
  intros i v Hv. unfold chunk. apply lookup_lt_Some in Hv as Hi.
  pose proof (rep_room _ _ HR). unfold Zlen in Hle.
  rewrite Hrd; [by apply (rep_elem _ _ HR)|..]; unfold Zlen in *; nia.
Qed.

Lemma upgrade_loop_spec vs old prepend (n : nat) s :
  valid_enc old -> valid_enc (encoding s) -> old <= encoding s -> Forall (fits old) vs ->
  0 <= prepend <= 1 -> (n <= length vs)%nat ->
  (Zlen vs + prepend) * encoding s <= Zlen (contents s) ->
  (forall i v, vs !! i = Some v -> (i < n)%nat -> chunk old (contents s) (Z.of_nat i) v) ->
  (forall i v, vs !! i = Some v -> (n <= i)%nat ->
     chunk (encoding s) (contents s) (Z.of_nat i + prepend) v) ->
  exists c, upgrade_loop n s old prepend = Ret (set_contents s c) /\ Zlen c = Zlen (contents s) /\
    forall i v, vs !! i = Some v -> chunk (encoding s) c (Z.of_nat i + prepend) v.
Proof.
  intros Hold He Hle Hfit Hp. pose proof (valid_enc_bounds _ Hold). pose proof (valid_enc_bounds _ He).
  revert s He Hle H1. induction n as [|n IH]; intros s He Hle He2 Hn Hroom Hlo Hhi; simpl.
  { exists (contents s). destruct s. split_and!; [done..|]. intros. apply Hhi; [done|lia]. }
  destruct (lookup_lt_is_Some_2 vs n) as [v Hv]; [lia|].
  rewrite (getEncoded_chunk s _ old v); [|done|by apply (Forall_lookup_1 _ _ _ _ Hfit Hv)|auto].
  simpl. destruct (set_chunk s (Z.of_nat n + prepend) v He) as (c & Ec & Hlen & Hch & Hrest);
    [lia|unfold Zlen in *; nia|].
  rewrite Ec. simpl. destruct (IH (set_contents s c)) as (c' & E' & Hlen' & Hall);
    simpl; try done; try lia.
  - intros i w Hw Hi. unfold chunk. rewrite Hrest; [apply Hlo; [done|lia]|]. left. nia.
  - intros i w Hw Hi. destruct (decide (i = n)) as [->|]; [by simplify_eq|].
    unfold chunk. rewrite Hrest; [apply Hhi; [done|lia]|]. right. nia.
  - exists c'. split; [exact E'|]. split; [simpl in Hlen'; lia|done].
Qed.

(** A value that needs a wider encoding is beyond every element, on the side of its sign. *)
Lemma wider_value_outside e v x :
  INT64_MIN <= v <= INT64_MAX -> valid_enc e -> e < _intsetValueEncoding v -> fits e x ->
  if v <? 0 then v < x else x < v.
Proof.
  intros Hv He Hw Hx. pose proof (valueEncoding_fits v e Hv He) as Hf.
  unfold fits in *. pose proof (valid_enc_bounds _ He).
  assert (0 < 2 ^ (8 * e - 1)) by lia. destruct (Z.ltb_spec v 0); lia.
Qed.

Lemma fits_mono e e' v : e <= e' -> 0 < e -> fits e v -> fits e' v.
Proof.
  unfold fits. intros Hle He Hv.
  pose proof (Z.pow_le_mono_r 2 (8 * e - 1) (8 * e' - 1)). lia.
Qed.

Lemma upgradeAndAdd_spec s vs value :
  Rep s vs -> INT64_MIN <= value <= INT64_MAX -> Zlen vs + 1 < 2 ^ 29 ->
  encoding s < _intsetValueEncoding value ->
  exists s', intsetUpgradeAndAdd s value = Ret s' /\
    Rep s' (if value <? 0 then value :: vs else vs ++ [value]).
Proof.
  intros HR Hv Hroom Hw. pose proof (rep_enc _ _ HR) as He. pose proof (valid_enc_bounds _ He).
  pose proof (Zlen_nonneg vs). pose proof (rep_fits _ _ HR) as Hfit.
  set (ne := _intsetValueEncoding value) in *.
  pose proof (valueEncoding_valid value) as Hne. fold ne in Hne. pose proof (valid_enc_bounds _ Hne).
  assert (fits ne value) as Hfv by (apply valueEncoding_fits; done || unfold ne; lia).
  unfold intsetUpgradeAndAdd. fold ne. rewrite (rep_len _ _ HR). simpl.
  rewrite (wrapu_id 32 (Zlen vs + 1)) by lia.
  set (s1 := {| encoding := ne; ilength := Zlen vs; contents := contents s |}).
  destruct (resize_spec s1 (Zlen vs + 1)) as (c1 & -> & Hc1 & Hrd1); [done|lia|]. simpl in Hc1, Hrd1.
  set (pre := if value <? 0 then 1 else 0).
  assert (0 <= pre <= 1) as Hpre by (unfold pre; destruct (value <? 0); lia). simpl.
  destruct (upgrade_loop_spec vs (encoding s) pre (Z.to_nat (Zlen vs)) (set_contents s1 c1))
    as (c2 & -> & Hc2 & Hch2); simpl; try done; try lia.
  { unfold Zlen. lia. }
  { nia. }
  { intros i x Hx Hi. unfold chunk. apply lookup_lt_Some in Hx as Hlt.
    pose proof (rep_room _ _ HR). rewrite Hrd1; [by apply (rep_elem _ _ HR)|..]; unfold Zlen in *; nia. }
  { intros i x Hx Hi. apply lookup_lt_Some in Hx. unfold Zlen in Hi. lia. }
  simpl in Hc2, Hch2.
  set (at_ := if value <? 0 then 0 else Zlen vs).
  destruct (set_chunk (set_contents (set_contents s1 c1) c2) at_ value) as (c3 & E3 & Hc3 & Hch3 & Hrd3);
    simpl; [done|unfold at_; destruct (value <? 0); lia|unfold at_; destruct (value <? 0); nia|].
  simpl in Hc3, Hch3, Hrd3.
  assert (forall i x, vs !! i = Some x -> chunk ne c3 (Z.of_nat i + pre) x) as Hch.
  { intros i x Hx. unfold chunk. apply lookup_lt_Some in Hx as Hlt.
    rewrite Hrd3; [by apply Hch2|]. unfold at_, pre, Zlen in *. destruct (value <? 0); nia. }
  assert ((if negb (pre =? 0) then _intsetSet (set_contents (set_contents s1 c1) c2) 0 value
     else _intsetSet (set_contents (set_contents s1 c1) c2) (Zlen vs) value)
     = Ret (set_contents (set_contents s1 c1) c3)) as ->.
  { unfold pre, at_ in *. destruct (value <? 0); exact E3. }
  simpl. eexists. split; [done|]. rewrite wrapu_id by lia.
  assert (Forall (fits ne) vs) as Hfit' 
    by (revert Hfit; apply Forall_impl; intros x; apply fits_mono; lia).
  assert (forall x, x ∈ vs -> if value <? 0 then value < x else x < value) as Hside.
  { intros x [i Hi]%list_elem_of_lookup. apply (wider_value_outside (encoding s)); try done.
    by apply (Forall_lookup_1 _ _ _ _ Hfit Hi). }
  unfold at_, pre in *. clear E3 Hrd3 Hrd1.
  destruct (value <? 0); constructor; simpl; try done; zlen; try lia; try nia.
  - constructor; [apply HR|]. apply Forall_lookup. intros i x Hx. apply Hside.
    apply list_elem_of_lookup. eauto.
  - by constructor.
  - intros [|i] x Hx; simpl in Hx; [simplify_eq; exact Hch3|].
    replace (Z.of_nat (S i)) with (Z.of_nat i + 1) by lia. auto.
  - apply sorted_of_lookup. intros i j a b Ha Hb Hij.
    apply lookup_lt_Some in Hb as Hj. rewrite length_app in Hj. simpl in Hj.
    rewrite lookup_app_l in Ha by lia. apply lookup_snoc_Some in Hb as [[Hjl Hb]|[-> <-]].
    + apply (sorted_lookup_lt vs i j); [apply HR|done..].
    + apply Hside. apply list_elem_of_lookup. eauto.
  - apply Forall_app. split; [done|]. by constructor.
  - intros i x Hx. apply lookup_snoc_Some in Hx as [[Hi Hx]|[-> <-]]; [|exact Hch3].
    rewrite <- (Z.add_0_r (Z.of_nat i)). auto.
Qed.

(** Shifting the chunks [p ..] by one place, up or down. *)
Lemma moveTail_spec s vs p q :
  valid_enc (encoding s) -> ilength s = Zlen vs -> Zlen vs + 1 < 2 ^ 29 ->
  0 <= p <= Zlen vs -> 0 <= q -> (q + (Zlen vs - p)) * encoding s <= Zlen (contents s) ->
  Zlen vs * encoding s <= Zlen (contents s) ->
  (forall i v, vs !! i = Some v -> chunk (encoding s) (contents s) (Z.of_nat i) v) ->
  exists c, intsetMoveTail s p q = Ret (set_contents s c) /\ Zlen c = Zlen (contents s) /\
    (forall i v, vs !! i = Some v -> Z.of_nat i < q -> Z.of_nat i < p ->
       chunk (encoding s) c (Z.of_nat i) v) /\
    (forall i v, vs !! i = Some v -> p <= Z.of_nat i ->
       chunk (encoding s) c (q + (Z.of_nat i - p)) v).
Proof.
  intros He Hl Hsm Hp Hq Hr1 Hr2 Hch. pose proof (valid_enc_bounds _ He).
  rewrite moveTail_eq, Hl, !wrapu_id by (rewrite ?wrapu_id by lia; nia || done).
  destruct (memmove_spec (contents s) (q * encoding s) (p * encoding s) ((Zlen vs - p) * encoding s))
    as (c & -> & Hlen & Hmv & Hkeep); [nia..|].
  exists c. split_and!; [done|done| |].
  - intros i v Hv Hiq Hip. unfold chunk. rewrite Hkeep; [by apply Hch|]. left. nia.
  - intros i v Hv Hi. apply lookup_lt_Some in Hv as Hlt. unfold chunk.
    replace ((q + (Z.of_nat i - p)) * encoding s)
      with (q * encoding s + (Z.of_nat i - p) * encoding s) by lia.
    rewrite Hmv by (unfold Zlen; nia).
    replace (p * encoding s + (Z.of_nat i - p) * encoding s) with (Z.of_nat i * encoding s) by lia.
    by apply Hch.
Qed.

Lemma insert_at_sorted vs p v :
  StronglySorted Z.lt vs -> (p <= length vs)%nat ->
  below vs v (Z.of_nat p) -> above vs v (Z.of_nat p) -> StronglySorted Z.lt (insert_at p v vs).
Proof.
  intros Hs Hp Hb Ha. apply sorted_of_lookup. intros i j a b. rewrite !lookup_insert_at by done.
  intros Hi Hj Hij. repeat case_decide; simplify_eq; try lia.
  - apply (sorted_lookup_lt vs i j); done || lia.
  - apply (Hb i); [done|lia].
  - apply (sorted_lookup_lt vs i (j - 1)); done || lia.
  - apply (Ha (j - 1)%nat); [done|lia].
  - apply (sorted_lookup_lt vs (i - 1) (j - 1)); done || lia.
Qed.

(** The gap at position [p] that [intsetAdd] opens after growing to [c1]. *)
Lemma make_gap_spec s vs c1 p :
  Rep s vs -> Zlen vs + 1 < 2 ^ 29 -> 0 <= p <= Zlen vs ->
  (Zlen vs + 1) * encoding s <= Zlen c1 ->
  (forall i v, vs !! i = Some v -> chunk (encoding s) c1 (Z.of_nat i) v) ->
  exists c2, (if p <? ilength s then intsetMoveTail (set_contents s c1) p (p + 1)
      else Ret (set_contents s c1)) = Ret (set_contents s c2) /\ Zlen c2 = Zlen c1 /\
    (forall i v, vs !! i = Some v -> Z.of_nat i < p -> chunk (encoding s) c2 (Z.of_nat i) v) /\
    (forall i v, vs !! i = Some v -> p <= Z.of_nat i -> chunk (encoding s) c2 (Z.of_nat i + 1) v).
Proof.
  intros HR Hroom Hp Hc1 Hch1. pose proof (rep_enc _ _ HR) as He.
  pose proof (valid_enc_bounds _ He). pose proof (rep_len _ _ HR) as Hl.
  rewrite Hl. destruct (Z.ltb_spec p (Zlen vs)).
  - destruct (moveTail_spec (set_contents s c1) vs p (p + 1)) as (c & -> & Hc & Hlo & Hhi);
      simpl; try done; try nia. exists c. split_and!; [done|done| |].
    + intros i v ? ?. apply Hlo; [done|lia..].
    + intros i v ? ?. replace (Z.of_nat i + 1) with (p + 1 + (Z.of_nat i - p)) by lia.
      by apply Hhi.
  - exists c1. split_and!; [done|done|auto|].
    intros i v Hi ?. apply lookup_lt_Some in Hi. unfold Zlen in *. lia.
Qed.

Lemma add_spec s vs value :
  Rep s vs -> INT64_MIN <= value <= INT64_MAX -> Zlen vs + 1 < 2 ^ 29 ->
  exists s' vs', intsetAdd s value = Ret (s', negb (bool_decide (value ∈ vs))) /\ Rep s' vs' /\
    forall x, x ∈ vs' <-> x = value \/ x ∈ vs.
Proof.
  intros HR Hv Hroom. unfold intsetAdd. pose proof (rep_enc _ _ HR) as He.
  pose proof (valid_enc_bounds _ He). pose proof (rep_len _ _ HR) as Hl.
  destruct (Z.ltb_spec (encoding s) (_intsetValueEncoding value)) as [Hw|Hw].
  { destruct (upgradeAndAdd_spec s vs value) as (s' & -> & HR'); try done. simpl.
    rewrite bool_decide_eq_false_2.
    - eexists _, _. split; [done|]. split; [done|]. intros x.
      destruct (value <? 0); [apply elem_of_cons|]. rewrite elem_of_app, list_elem_of_singleton. tauto.
    - intros [i Hi]%list_elem_of_lookup.
      pose proof (Forall_lookup_1 _ _ _ _ (rep_fits _ _ HR) Hi) as Hf.
      apply valueEncoding_fits in Hf; [lia|done..]. }
  destruct (search_spec s vs HR value) as (f & p & Es & Hp & Hf). rewrite Es. simpl.
  pose proof (search_found s vs HR _ _ _ Es) as Ef. rewrite <- Ef. destruct f.
  { eexists _, vs. split; [done|]. split; [done|]. intros x. split; [tauto|].
    intros [->|]; [|done]. apply list_elem_of_lookup. eauto. }
  destruct Hf as [Hbel Habv]. clear Ef.
  rewrite Hl, (wrapu_id 32 (Zlen vs + 1)), (wrapu_id 32 (p + 1)) by lia.
  destruct (resize_chunks s vs (Zlen vs + 1)) as (c1 & -> & Hc1 & Hch1); [done|lia..|]. simpl.
  destruct (make_gap_spec s vs c1 p HR) as (c2 & E2 & Hc2 & Hlo & Hhi); [done|lia|done|done|].
  rewrite E2.
  simpl. destruct (set_chunk (set_contents s c2) p value) as (c3 & -> & Hc3 & Hch3 & Hrest);
    simpl; [done|lia|nia|]. simpl in *.
  exists {| encoding := encoding s; ilength := Zlen vs + 1; contents := c3 |},
    (insert_at (Z.to_nat p) value vs).
  rewrite Hl, wrapu_id by lia. split; [done|]. split; [|intros; apply elem_of_insert_at].
  assert (Zlen (insert_at (Z.to_nat p) value vs) = Zlen vs + 1) as Hlen
    by (unfold Zlen; rewrite length_insert_at; lia).
  assert (Z.to_nat p <= length vs)%nat as Hpl by (unfold Zlen in *; lia).
  constructor; simpl; try done; try lia.
  - apply insert_at_sorted; [apply HR|done|by rewrite Z2Nat.id by lia..].
  - apply Forall_lookup. intros i x. rewrite lookup_insert_at by done.
    repeat case_decide; intros Hx; [|simplify_eq; by apply valueEncoding_fits|];
      by apply (Forall_lookup_1 _ _ _ _ (rep_fits _ _ HR) Hx).
  - intros i x. rewrite lookup_insert_at by done. repeat case_decide; intros Hx; simplify_eq.
    + unfold chunk. rewrite Hrest; [apply Hlo; [done|lia]|]. left. nia.
    + by rewrite Z2Nat.id by lia.
    + unfold chunk. rewrite Hrest; [|right; nia].
      specialize (Hhi (i - 1)%nat x Hx ltac:(lia)).
      by replace (Z.of_nat (i - 1) + 1) with (Z.of_nat i) in Hhi by lia.
Qed.

Lemma elem_of_delete_at vs p v x :
  StronglySorted Z.lt vs -> vs !! p = Some v -> x ∈ delete_at p vs <-> x <> v /\ x ∈ vs.
Proof.
  intros Hs Hp. apply lookup_lt_Some in Hp as Hlt.
  rewrite !list_elem_of_lookup. setoid_rewrite lookup_delete_at; [|done]. split.
  - intros [i Hi]. case_decide.
    + pose proof (sorted_lookup_lt _ _ _ _ _ Hs Hi Hp). split; [lia|eauto].
    + pose proof (sorted_lookup_lt _ _ _ _ _ Hs Hp Hi). split; [lia|eauto].
  - intros [Hne [i Hi]]. assert (i <> p) by congruence.
    destruct (decide (i < p)%nat); [exists i; by rewrite decide_True|].
    exists (i - 1)%nat. rewrite decide_False by lia. by replace (S (i - 1)) with i by lia.
Qed.

Lemma remove_at_spec s vs p v :
  Rep s vs -> Zlen vs + 1 < 2 ^ 29 -> vs !! Z.to_nat p = Some v -> 0 <= p ->
  exists c, (s1 ← (if p <? u32 (ilength s - 1) then intsetMoveTail s (u32 (p + 1)) p else Ret s);
             intsetResize s1 (u32 (ilength s - 1))) = Ret (set_contents s c) /\
    (Zlen vs - 1) * encoding s <= Zlen c /\
    forall i x, delete_at (Z.to_nat p) vs !! i = Some x -> chunk (encoding s) c (Z.of_nat i) x.
Proof.
  intros HR Hroom Hv Hp. pose proof (rep_enc _ _ HR) as He. pose proof (valid_enc_bounds _ He).
  pose proof (rep_len _ _ HR) as Hl. pose proof (rep_room _ _ HR) as Hrm.
  apply lookup_lt_Some in Hv as Hlt. assert (p < Zlen vs) by (unfold Zlen; lia).
  rewrite Hl, (wrapu_id 32 (Zlen vs - 1)), (wrapu_id 32 (p + 1)) by lia.
  assert (exists c1, (if p <? Zlen vs - 1 then intsetMoveTail s (p + 1) p else Ret s) =
      Ret (set_contents s c1) /\ Zlen c1 = Zlen (contents s) /\
    forall i x, delete_at (Z.to_nat p) vs !! i = Some x -> chunk (encoding s) c1 (Z.of_nat i) x)
    as (c1 & -> & Hc1 & Hch1).
  { destruct (Z.ltb_spec p (Zlen vs - 1)).
    - destruct (moveTail_spec s vs (p + 1) p) as (c & -> & Hc & Hlo & Hhi); try done; try nia;
        [apply (rep_elem _ _ HR)|]. exists c. split_and!; [done|done|].
      intros i x. rewrite lookup_delete_at by done. case_decide; intros Hx.
      + apply Hlo; [done|lia..].
      + specialize (Hhi (S i) x Hx ltac:(lia)).
        by replace (p + (Z.of_nat (S i) - (p + 1))) with (Z.of_nat i) in Hhi by lia.
    - exists (contents s). split; [by destruct s|]. split; [done|].
      intros i x. rewrite lookup_delete_at by done. case_decide; intros Hx.
      + by apply (rep_elem _ _ HR).
      + apply lookup_lt_Some in Hx. unfold Zlen in *. lia. }
  simpl. destruct (resize_spec (set_contents s c1) (Zlen vs - 1)) as (c2 & -> & Hc2 & Hrd2);
    simpl; [done|lia|]. simpl in *. exists c2. split_and!; [done|done|].
  intros i x Hx. unfold chunk. apply lookup_lt_Some in Hx as Hi.
  rewrite length_delete_at in Hi by done.
  rewrite Hrd2; [by apply Hch1|..]; unfold Zlen in *; nia.
Qed.

Lemma remove_spec s vs value :
  Rep s vs -> INT64_MIN <= value <= INT64_MAX -> Zlen vs + 1 < 2 ^ 29 ->
  exists s' vs', intsetRemove s value = Ret (s', bool_decide (value ∈ vs)) /\ Rep s' vs' /\
    forall x, x ∈ vs' <-> x <> value /\ x ∈ vs.
Proof.
  intros HR Hv Hroom. unfold intsetRemove. pose proof (rep_enc _ _ HR) as He.
  pose proof (valid_enc_bounds _ He). pose proof (rep_sorted _ _ HR) as Hs.
  destruct (Z.leb_spec (_intsetValueEncoding value) (encoding s)) as [Hw|Hw].
  2: { assert (value ∉ vs) as Hn.
       { intros [i Hi]%list_elem_of_lookup.
         pose proof (Forall_lookup_1 _ _ _ _ (rep_fits _ _ HR) Hi) as Hf.
         apply valueEncoding_fits in Hf; [lia|done..]. }
       exists s, vs. rewrite bool_decide_eq_false_2 by done. split; [done|]. split; [done|].
       intros x. split; [|tauto]. intros Hx. split; [congruence|done]. }
  destruct (search_spec s vs HR value) as (f & p & Es & Hp & Hf). rewrite Es. simpl.
  pose proof (search_found s vs HR _ _ _ Es) as Ef. rewrite <- Ef. destruct f.
  2: { exists s, vs. split; [done|]. split; [done|]. intros x. split; [|tauto].
       intros Hx. split; [|done]. intros ->. symmetry in Ef. by apply bool_decide_eq_false in Ef. }
  destruct (remove_at_spec s vs p value) as (c & E & Hc & Hch); [done..|lia|].
  clear Ef. rewrite <- (bind_assoc_outcome _ (fun s1 => intsetResize s1 _)), E. simpl.
  apply lookup_lt_Some in Hf as Hlt.
  rewrite (rep_len _ _ HR), wrapu_id by (unfold Zlen in *; lia).
  eexists _, (delete_at (Z.to_nat p) vs). split; [done|].
  split; [|intros; by apply elem_of_delete_at].
  assert (Zlen (delete_at (Z.to_nat p) vs) = Zlen vs - 1) as Hlen
    by (unfold Zlen; rewrite length_delete_at by done; lia).
  constructor; simpl; try done; try lia.
  - apply sorted_of_lookup. intros i j a b. rewrite !lookup_delete_at by done.
    intros Ha Hb Hij. repeat case_decide; (lia ||
      (eapply (sorted_lookup_lt vs); [done|exact Ha|exact Hb|lia])).
  - apply Forall_lookup. intros i x. rewrite lookup_delete_at by done.
    case_decide; intros Hx; by apply (Forall_lookup_1 _ _ _ _ (rep_fits _ _ HR) Hx).
Qed.
End updates.

(** ** Integrity check of a serialized set *)

(** The struct a buffer is cast to. *)
Definition intset_of_bytes (p : list Z) : intset :=
  {| encoding := le_value (take 4 p); ilength := le_value (take 4 (drop 4 p));
     contents := drop (Z.to_nat sizeof_intset) p |}.

(** The elements a struct of [n] elements holds, in order. *)
Definition decode (s : intset) (n : nat) : list Z :=
  (fun i => wraps (8 * encoding s)
     (le_value (take (Z.to_nat (encoding s)) (drop (i * Z.to_nat (encoding s)) (contents s)))))
  <$> seq 0 n.

Fixpoint increasing_from (prev : Z) (l : list Z) : bool :=
  match l with
  | [] => true
  | x :: l => if x <=? prev then false else increasing_from x l
  end.

Lemma increasing_from_sorted x l :
  increasing_from x l = true <-> StronglySorted Z.lt (x :: l).
Proof.
  assert (StronglySorted Z.lt (x :: l) <-> Sorted Z.lt (x :: l)) as ->.
  { split; [apply StronglySorted_Sorted|].
    apply Sorted_StronglySorted. intros ???. apply Z.lt_trans. }
  revert x. induction l as [|y l IH]; intros x; simpl.
  - split; [repeat constructor|done].
  - destruct (Z.leb_spec y x).
    + split; [done|]. inversion 1 as [|?? _ Hd]. inversion Hd. lia.
    + rewrite IH. split.
      * intros. constructor; [done|]. by constructor.
      * by inversion 1.
Qed.

Section validate.
Context (s : intset) (n : nat).
Context (He : valid_enc (encoding s)) (Hb : Forall is_byte (contents s)).
Context (Hroom : Z.of_nat n * encoding s <= Zlen (contents s)).

Lemma decode_length : length (decode s n) = n.
Proof. unfold decode. by rewrite length_fmap, length_seq. Qed.

Lemma decode_chunk i v : decode s n !! i = Some v ->
  chunk (encoding s) (contents s) (Z.of_nat i) v /\ fits (encoding s) v.
Proof.
  pose proof (valid_enc_bounds _ He) as Hbd. set (e := encoding s) in *.
  intros Hi. apply lookup_lt_Some in Hi as Hlt. rewrite decode_length in Hlt.
  unfold decode in Hi. fold e in Hi. rewrite list_lookup_fmap, lookup_seq_lt in Hi by done.
  simpl in Hi. injection Hi as <-.
  set (bs := take (Z.to_nat e) (drop (i * Z.to_nat e) (contents s))).
  assert (Z.of_nat i * e + e <= Zlen (contents s)) by nia.
  assert (rdn (contents s) (Z.of_nat i * e) e = Ret bs) as Er.
  { rewrite rdn_ok by lia. unfold bs. do 3 f_equal. lia. }
  split.
  - unfold chunk. rewrite Er. f_equal.
    replace (8 * e) with (8 * Z.of_nat (Z.to_nat e)) by lia. symmetry. apply le_bytes_wraps.
    + by apply Forall_take, Forall_drop.
    + apply rdn_length in Er as [Hl _]. unfold Zlen in Hl. lia.
  - unfold fits. apply wraps_range. lia.
Qed.

Lemma decode_get i v : decode s n !! i = Some v -> _intsetGet s (Z.of_nat i) = Ret v.
Proof. intros Hi. apply decode_chunk in Hi as [??]. by apply getEncoded_chunk. Qed.

Lemma validate_loop_spec k i prev :
  (i + k = n)%nat -> validate_loop k s (Z.of_nat i) prev =
  Ret (increasing_from prev (drop i (decode s n))).
Proof.
  revert i prev. induction k as [|k IH]; intros i prev Hik; simpl.
  - rewrite drop_ge; [done|]. rewrite decode_length. lia.
  - destruct (lookup_lt_is_Some_2 (decode s n) i) as [v Hv]; [rewrite decode_length; lia|].
    rewrite (decode_get _ _ Hv), (drop_S _ _ _ Hv). simpl.
    destruct (v <=? prev); [done|]. rewrite <- (IH (S i)) by lia. f_equal. lia.
Qed.

(** Decoding is the only candidate for what the struct represents. *)
Lemma rep_decode vs : Rep s vs -> Zlen vs = Z.of_nat n -> vs = decode s n.
Proof.
  intros HR Hl. apply list_eq. intros i.
  destruct (decide (i < n)%nat) as [Hi|Hi].
  - destruct (lookup_lt_is_Some_2 (decode s n) i) as [w Hw]; [by rewrite decode_length|].
    destruct (lookup_lt_is_Some_2 vs i) as [v Hv]; [unfold Zlen in Hl; lia|].
    pose proof (rep_get s vs HR _ _ Hv) as E1. rewrite (decode_get _ _ Hw) in E1.
    rewrite Hv, Hw. by simplify_eq.
  - rewrite !lookup_ge_None_2; [done|rewrite decode_length; lia|unfold Zlen in Hl; lia].
Qed.
End validate.

Lemma nonempty_Zlen (vs : list Z) : vs <> [] -> 0 < Zlen vs.
Proof. destruct vs as [|x vs]; [done|]. intros _. zlen. pose proof (Zlen_nonneg vs). lia. Qed.

Lemma validate_struct_spec s size :
  Forall is_byte (contents s) -> Zlen (contents s) = size - sizeof_intset -> size < 2 ^ 29 ->
  0 <= ilength s ->
  exists b, validate_struct s size true = Ret b /\
    (b = true <-> exists vs, vs <> [] /\ Rep s vs /\ size = sizeof_intset + Zlen vs * encoding s).
Proof.
  intros Hbc Hc Hsmall Hl0. unfold validate_struct, sizeof_intset in *.
  destruct ((encoding s =? INTSET_ENC_INT64) || (encoding s =? INTSET_ENC_INT32)
    || (encoding s =? INTSET_ENC_INT16)) eqn:Henc; simpl.
  2: { exists false. split; [done|]. split; [done|]. intros (vs & _ & HR & _). exfalso.
       destruct (rep_enc _ _ HR) as [E|[E|E]]; rewrite E in Henc; done. }
  assert (valid_enc (encoding s)) as He.
  { rewrite !orb_true_iff, !Z.eqb_eq in Henc.
    unfold valid_enc, INTSET_ENC_INT64, INTSET_ENC_INT32, INTSET_ENC_INT16 in *. lia. }
  pose proof (valid_enc_bounds _ He) as Hbd.
  destruct (Z.eqb_spec (8 + ilength s * encoding s) size) as [Esz|Esz]; simpl.
  2: { exists false. split; [done|]. split; [done|]. intros (vs & _ & HR & E).
       rewrite <- (rep_len _ _ HR) in E. done. }
  destruct (Z.eqb_spec (ilength s) 0) as [E0|E0].
  { exists false. split; [done|]. split; [done|]. intros (vs & Hvs%nonempty_Zlen & HR & E).
    rewrite (rep_len _ _ HR) in E0. lia. }
  set (n := Z.to_nat (ilength s)).
  assert (Z.of_nat n * encoding s <= Zlen (contents s)) as Hroom by (unfold n; nia).
  pose proof (decode_length s n) as Hdl.
  destruct (decode s n) as [|v0 rest] eqn:Ed; [simpl in Hdl; lia|].
  pose proof (decode_get s n He Hbc Hroom 0 v0) as Hg. rewrite Ed in Hg.
  change (Z.of_nat 0) with 0 in Hg. rewrite Hg by done. simpl.
  pose proof (validate_loop_spec s n He Hbc Hroom (n - 1) 1 v0 ltac:(lia)) as Hv.
  replace (Z.to_nat (ilength s - 1)) with (n - 1)%nat by lia.
  change (Z.of_nat 1) with 1 in Hv. rewrite Hv, Ed. simpl.
  eexists. split; [done|]. rewrite drop_0, increasing_from_sorted, <- Ed. split.
  - intros Hs. exists (decode s n). rewrite Ed at 1. split; [done|].
    assert (Zlen (decode s n) = ilength s) as Hl by (unfold Zlen; rewrite decode_length; lia).
    split; [|rewrite Hl; lia]. constructor; try done; try nia.
    + apply Forall_lookup. intros i x Hx. by apply (decode_chunk s n He Hbc Hroom) in Hx as [??].
    + intros i x Hx. by apply (decode_chunk s n He Hbc Hroom) in Hx as [??].
  - intros (vs & _ & HR & E). rewrite <- (rep_decode s n He Hbc Hroom vs HR); [apply HR|].
    rewrite <- (rep_len _ _ HR). lia.
Qed.

Lemma find_spec s vs value :
  Rep s vs -> INT64_MIN <= value <= INT64_MAX ->
  intsetFind s value = Ret (bool_decide (value ∈ vs)).
Proof.
  intros HR Hv. unfold intsetFind. pose proof (rep_enc _ _ HR) as He.
  destruct (Z.leb_spec (_intsetValueEncoding value) (encoding s)) as [Hw|Hw].
  - destruct (search_spec s vs HR value) as (f & p & Es & _). rewrite Es. simpl.
    by rewrite (search_found s vs HR _ _ _ Es).
  - rewrite bool_decide_eq_false_2; [done|]. intros [i Hi]%list_elem_of_lookup.
    pose proof (Forall_lookup_1 _ _ _ _ (rep_fits _ _ HR) Hi) as Hf.
    apply valueEncoding_fits in Hf; [lia|done..].
Qed.

(** The first and the last element bound the others. *)
Lemma min_max_spec s vs : Rep s vs -> vs <> [] ->
  exists mn mx, intsetMin s = Ret mn /\ intsetMax s = Ret mx /\ mn ∈ vs /\ mx ∈ vs /\ forall x, x ∈ vs -> mn <= x <= mx.
Proof.
  intros HR Hv%nonempty_Zlen. pose proof (rep_len _ _ HR) as Hl. pose proof (rep_sorted _ _ HR) as Hs.
  pose proof (rep_small _ _ HR). unfold intsetMin, intsetMax. rewrite Hl, wrapu_id, wraps_id by lia.
  destruct (rep_getZ s vs HR 0) as (mn & Emn & ->); [lia|].
  destruct (rep_getZ s vs HR (Zlen vs - 1)) as (mx & Emx & ->); [lia|].
  exists mn, mx. split_and!; [done|done|apply list_elem_of_lookup; eauto..|].
  intros x [i Hi]%list_elem_of_lookup. apply lookup_lt_Some in Hi as Hlt.
  pose proof (sorted_lookup_le _ _ _ _ _ Hs Emn Hi). pose proof (sorted_lookup_le _ _ _ _ _ Hs Hi Emx).
  unfold Zlen in *. lia.
Qed.

Lemma new_spec `{Allocator} : Rep intsetNew [].
Proof.
  constructor; simpl; try done; [by left|constructor|].
  unfold Zlen. simpl. lia.
Qed.

(** ** Histories of operations against the abstract set *)

Inductive op := OpAdd (v : Z) | OpRemove (v : Z) | OpFind (v : Z).

Definition op_value (o : op) : Z := match o with OpAdd v | OpRemove v | OpFind v => v end.

Definition step `{Allocator} (s : intset) (o : op) : outcome (intset * bool) :=
  match o with
  | OpAdd v => intsetAdd s v
  | OpRemove v => intsetRemove s v
  | OpFind v => b ← intsetFind s v; Ret (s, b)
  end.

Fixpoint run `{Allocator} (s : intset) (os : list op) : outcome (intset * list bool) :=
  match os with
  | [] => Ret (s, [])
  | o :: os => '(s, b) ← step s o; '(s, bs) ← run s os; Ret (s, b :: bs)
  end.

(** The mathematical set and the answers it gives. *)
Definition set_step (m : gset Z) (o : op) : gset Z * bool :=
  match o with
  | OpAdd v => ({[v]} ∪ m, negb (bool_decide (v ∈ m)))
  | OpRemove v => (m ∖ {[v]}, bool_decide (v ∈ m))
  | OpFind v => (m, bool_decide (v ∈ m))
  end.

Fixpoint set_run (m : gset Z) (os : list op) : gset Z * list bool :=
  match os with
  | [] => (m, [])
  | o :: os => let '(m, b) := set_step m o in let '(m, bs) := set_run m os in (m, b :: bs)
  end.

(** [s] implements the set [m]. *)
Definition implements (s : intset) (m : gset Z) : Prop :=
  exists vs, Rep s vs /\ forall x, x ∈ m <-> x ∈ vs.

Lemma sorted_NoDup vs : StronglySorted Z.lt vs -> NoDup vs.
Proof.
  induction 1 as [|x vs Hs IH Hx]; constructor; [|done].
  intros [i Hi]%list_elem_of_lookup. pose proof (Forall_lookup_1 _ _ _ _ Hx Hi) as Hlt.
  simpl in Hlt. lia.
Qed.

Lemma implements_size s m : implements s m -> ilength s = Z.of_nat (size m).
Proof.
  intros (vs & HR & Hm). rewrite (rep_len _ _ HR). unfold Zlen. f_equal.
  assert (m = list_to_set vs) as -> by (apply set_eq; intros x; rewrite elem_of_list_to_set; apply Hm).
  rewrite size_list_to_set; [done|]. apply sorted_NoDup, HR.
Qed.

Lemma step_spec `{Allocator} s m o :
  implements s m -> INT64_MIN <= op_value o <= INT64_MAX -> Z.of_nat (size m) + 1 < 2 ^ 29 ->
  exists s', step s o = Ret (s', (set_step m o).2) /\ implements s' (set_step m o).1.
Proof.
  intros Him Hv Hsz. pose proof (implements_size _ _ Him) as Hsize.
  destruct Him as (vs & HR & Hm).
  assert (Zlen vs + 1 < 2 ^ 29) as Hroom by (rewrite <- (rep_len _ _ HR); lia).
  assert (forall v, bool_decide (v ∈ vs) = bool_decide (v ∈ m)) as Hbd
    by (intros v; apply bool_decide_ext; symmetry; apply Hm).
  destruct o as [v|v|v]; simpl in *.
  - destruct (add_spec s vs v HR Hv Hroom) as (s' & vs' & E & HR' & Hin).
    exists s'. rewrite E, Hbd. split; [done|]. exists vs'. split; [done|].
    intros x. rewrite elem_of_union, elem_of_singleton, Hin, Hm. done.
  - destruct (remove_spec s vs v HR Hv Hroom) as (s' & vs' & E & HR' & Hin).
    exists s'. rewrite E, Hbd. split; [done|]. exists vs'. split; [done|].
    intros x. rewrite elem_of_difference, not_elem_of_singleton, Hin, Hm. tauto.
  - rewrite (find_spec s vs v HR Hv), Hbd. simpl. exists s. split; [done|]. by exists vs.
Qed.

Lemma set_step_size m o : (size (set_step m o).1 <= S (size m))%nat.
Proof.
  destruct o as [v|v|v]; simpl; [|apply Nat.le_le_succ_r, subseteq_size; clear; set_solver|lia].
  pose proof (size_union_alt {[v]} m) as E. rewrite E, size_singleton.
  enough (size (m ∖ {[v]}) <= size m)%nat by lia. by apply subseteq_size, subseteq_difference_l.
Qed.

(** ** Properties *)

(** C24. Any sequence of additions, removals and membership tests that starts
    from a new intset behaves like the same sequence on a mathematical set: no
    access leaves the allocation, no assertion fails, every answer is the one
    the set gives, and the final struct holds exactly the final set. *)
Theorem intset_refines_set `{Allocator} os :
  Forall (fun o => INT64_MIN <= op_value o <= INT64_MAX) os -> Zlen os < 2 ^ 29 - 1 ->
  exists s, run intsetNew os = Ret (s, (set_run ∅ os).2) /\ implements s (set_run ∅ os).1.
Proof.
  intros Hos Hl.
  enough (forall s m, implements s m -> Z.of_nat (size m) + Zlen os < 2 ^ 29 - 1 ->
    exists s', run s os = Ret (s', (set_run m os).2) /\ implements s' (set_run m os).1) as Hrun.
  { apply (Hrun _ ∅); [|rewrite size_empty; lia]. exists []. split; [apply new_spec|]. set_solver. }
  clear Hl. induction Hos as [|o os Ho _ IH]; intros s m Him Hsz; simpl; [eauto|].
  zlen. pose proof (Zlen_nonneg os).
  destruct (step_spec s m o Him Ho) as (s1 & -> & Him1); [lia|]. simpl.
  pose proof (set_step_size m o).
  destruct (set_step m o) as [m1 b]. simpl in *.
  destruct (IH s1 m1 Him1) as (s2 & -> & Him2); [lia|]. simpl.
  destruct (set_run m1 os) as [m2 bs]. simpl in *. eauto.
Qed.

(** Adding to a set upgrades the encoding exactly when needed and keeps the
    representation: the result holds the old elements and the new one in
    strictly increasing order, and the flag tells whether the value was new. *)
Theorem intsetAdd_correct `{Allocator} s vs value :
  Rep s vs -> INT64_MIN <= value <= INT64_MAX -> Zlen vs + 1 < 2 ^ 29 ->
  exists s' vs', intsetAdd s value = Ret (s', negb (bool_decide (value ∈ vs))) /\ Rep s' vs' /\
    forall x, x ∈ vs' <-> x = value \/ x ∈ vs.
Proof. apply add_spec. Qed.

(** Removing a value keeps every other element, and the flag tells whether
    the value was present. *)
Theorem intsetRemove_correct `{Allocator} s vs value :
  Rep s vs -> INT64_MIN <= value <= INT64_MAX -> Zlen vs + 1 < 2 ^ 29 ->
  exists s' vs', intsetRemove s value = Ret (s', bool_decide (value ∈ vs)) /\ Rep s' vs' /\
    forall x, x ∈ vs' <-> x <> value /\ x ∈ vs.
Proof. apply remove_spec. Qed.

(** The deep integrity check of a byte buffer never reads outside it, and
    accepts it exactly when the buffer is the header and contents of a
    non-empty, strictly increasing set of the encoding it announces. *)
Theorem intsetValidateIntegrity_correct p :
  Forall is_byte p -> Zlen p < 2 ^ 29 ->
  exists b, intsetValidateIntegrity p (Zlen p) true = Ret b /\
    (b = true <-> exists vs, vs <> [] /\ Rep (intset_of_bytes p) vs /\
       Zlen p = sizeof_intset + Zlen vs * encoding (intset_of_bytes p)).
Proof.
  intros Hb Hsmall. unfold intsetValidateIntegrity.
  destruct (Z.ltb_spec (Zlen p) sizeof_intset) as [Hs|Hs]; unfold sizeof_intset in Hs.
  { exists false. split; [done|]. split; [done|]. intros (vs & Hvs%nonempty_Zlen & HR & E).
    pose proof (valid_enc_bounds _ (rep_enc _ _ HR)). unfold sizeof_intset in E. nia. }
  rewrite !rdn_ok by lia. apply validate_struct_spec; simpl; [|apply (Zlen_drop 8); lia|done|].
  - by apply Forall_drop.
  - pose proof (le_value_nonneg (take 4 (drop 4 p))) as Hn. apply Hn.
    by apply Forall_take, Forall_drop.
Qed.

(** Membership tests, positional reads, minimum, maximum and random picks
    answer from the represented list. *)
Theorem intset_queries_correct s vs :
  Rep s vs ->
  (forall v, INT64_MIN <= v <= INT64_MAX -> intsetFind s v = Ret (bool_decide (v ∈ vs))) /\
  (forall i, 0 <= i -> intsetGet s i = Ret (vs !! Z.to_nat i)) /\
  intsetLen s = Zlen vs /\
  (vs <> [] -> exists mn mx, intsetMin s = Ret mn /\ intsetMax s = Ret mx /\ mn ∈ vs /\ mx ∈ vs /\
     forall x, x ∈ vs -> mn <= x <= mx) /\
  (forall r, if decide (vs = []) then intsetRandom s r = AssertFail
             else exists x, intsetRandom s r = Ret x /\ x ∈ vs).
Proof.
  intros HR. pose proof (rep_len _ _ HR) as Hl. pose proof (rep_sorted _ _ HR) as Hs.
  pose proof (rep_small _ _ HR). pose proof (Zlen_nonneg vs).
  pose proof (nonempty_Zlen vs) as Hne.
  split_and!.
  - intros v Hv. by apply find_spec.
  - intros i Hi. unfold intsetGet. rewrite Hl. destruct (Z.ltb_spec i (Zlen vs)).
    + destruct (rep_getZ s vs HR i) as (v & -> & ->); done || lia.
    + rewrite lookup_ge_None_2; [done|]. unfold Zlen in *. lia.
  - exact Hl.
  - by apply min_max_spec.
  - intros r. unfold intsetRandom. rewrite Hl. case_decide as Hv.
    + subst. done.
    + apply Hne in Hv. destruct (Z.eqb_spec (Zlen vs) 0); [lia|]. simpl.
      pose proof (Z.mod_pos_bound (u32 r) (Zlen vs) ltac:(lia)).
      rewrite wraps_id by lia. destruct (rep_getZ s vs HR (u32 r mod Zlen vs)) as (x & Ex & ->); [lia|].
      exists x. split; [done|]. apply list_elem_of_lookup. eauto.
Qed.

(** ** Witnesses *)

(** The set {-5, 32, 65535}, stored in 32-bit elements. *)
Definition three : intset :=
  {| encoding := 4; ilength := 3;
     contents := [251; 255; 255; 255; 32; 0; 0; 0; 255; 255; 0; 0] |}.

Lemma rep_three : Rep three [-5; 32; 65535].
Proof.
  constructor; try done.
  - by right; left.
  - apply (increasing_from_sorted (-5) [32; 65535]). done.
  - repeat constructor; unfold fits; simpl; lia.
  - intros [|[|[|i]]] v Hv; simpl in Hv; simplify_eq; reflexivity.
Qed.

Lemma intset_refines_set_witness : exists s,
  @run exact_allocator (@intsetNew exact_allocator) [OpAdd 5; OpAdd 70000; OpFind 5; OpRemove 5; OpFind 5; OpAdd (-1)]
    = Ret (s, [true; true; true; true; false; true]) /\
  implements s (set_run ∅ [OpAdd 5; OpAdd 70000; OpFind 5; OpRemove 5; OpFind 5; OpAdd (-1)]).1.
Proof.
  apply (@intset_refines_set exact_allocator
    [OpAdd 5; OpAdd 70000; OpFind 5; OpRemove 5; OpFind 5; OpAdd (-1)]).
  - repeat constructor; unfold INT64_MIN, INT64_MAX; simpl; lia.
  - unfold Zlen. simpl. lia.
Defined.

Lemma intsetAdd_witness : exists s' vs',
  @intsetAdd exact_allocator three 7 = Ret (s', true) /\ Rep s' vs' /\
  forall x, x ∈ vs' <-> x = 7 \/ x ∈ [-5; 32; 65535].
Proof.
  apply (@intsetAdd_correct exact_allocator three [-5; 32; 65535] 7 rep_three);
    unfold INT64_MIN, INT64_MAX, Zlen; simpl; lia.
Defined.

Lemma intsetRemove_witness : exists s' vs',
  @intsetRemove exact_allocator three 32 = Ret (s', true) /\ Rep s' vs' /\
  forall x, x ∈ vs' <-> x <> 32 /\ x ∈ [-5; 32; 65535].
Proof.
  apply (@intsetRemove_correct exact_allocator three [-5; 32; 65535] 32 rep_three);
    unfold INT64_MIN, INT64_MAX, Zlen; simpl; lia.
Defined.

Definition three_bytes : list Z :=
  [4; 0; 0; 0; 3; 0; 0; 0; 251; 255; 255; 255; 32; 0; 0; 0; 255; 255; 0; 0].

Lemma intsetValidateIntegrity_witness :
  exists b, intsetValidateIntegrity three_bytes 20 true = Ret b /\
    (b = true <-> exists vs, vs <> [] /\ Rep (intset_of_bytes three_bytes) vs /\
       20 = sizeof_intset + Zlen vs * encoding (intset_of_bytes three_bytes)).
Proof.
  apply (intsetValidateIntegrity_correct three_bytes).
  - repeat constructor; unfold is_byte; lia.
  - unfold Zlen. simpl. lia.
Defined.

Lemma intset_queries_witness :
  intsetFind three 32 = Ret true /\ intsetGet three 1 = Ret (Some 32) /\ intsetLen three = 3.
Proof.
  destruct (intset_queries_correct three [-5; 32; 65535] rep_three) as (Hf & Hg & Hl & _).
  split; [apply (Hf 32); unfold INT64_MIN, INT64_MAX; lia|].
  split; [exact (Hg 1 ltac:(lia))|exact Hl].
Defined.
