(* ===== verification/ListpackEnc.v ===== *)
(** * listpack.c, part 1: the encoding of one element

    A listpack is one memory block ([lp], the list of its bytes); a pointer
    into it is the offset from its start.  An element is stored as its encoding
    byte(s) and data, followed by its length written backwards ("backlen").
    This file models the element encoders and decoders and shows that they are
    inverse to each other. *)

From S2P Require Import Prelude Memory NumStr.

Definition LP_HDR_SIZE : Z := 6.
Definition LP_HDR_NUMELE_UNKNOWN : Z := UINT16_MAX.
Definition LP_ENCODING_INT : Z := 0.
Definition LP_ENCODING_STRING : Z := 1.
Definition LP_EOF : Z := 255.
Definition LP_INTBUF_SIZE : Z := 21.

(** ** The encoding byte *)

Definition LP_ENCODING_IS_7BIT_UINT (b : Z) : bool := Z.land b 0x80 =? 0.
Definition LP_ENCODING_IS_6BIT_STR (b : Z) : bool := Z.land b 0xC0 =? 0x80.
Definition LP_ENCODING_IS_13BIT_INT (b : Z) : bool := Z.land b 0xE0 =? 0xC0.
Definition LP_ENCODING_IS_12BIT_STR (b : Z) : bool := Z.land b 0xF0 =? 0xE0.
Definition LP_ENCODING_IS_16BIT_INT (b : Z) : bool := Z.land b 0xFF =? 0xF1.
Definition LP_ENCODING_IS_24BIT_INT (b : Z) : bool := Z.land b 0xFF =? 0xF2.
Definition LP_ENCODING_IS_32BIT_INT (b : Z) : bool := Z.land b 0xFF =? 0xF3.
Definition LP_ENCODING_IS_64BIT_INT (b : Z) : bool := Z.land b 0xFF =? 0xF4.
Definition LP_ENCODING_IS_32BIT_STR (b : Z) : bool := Z.land b 0xFF =? 0xF0.

Definition LP_ENCODING_6BIT_STR_LEN (lp : list Z) (p : Z) : outcome Z :=
  b ← rd lp p; Ret (Z.land b 0x3F).

Definition LP_ENCODING_12BIT_STR_LEN (lp : list Z) (p : Z) : outcome Z :=
  b0 ← rd lp p; b1 ← rd lp (p + 1);
  Ret (Z.lor (Z.shiftl (Z.land b0 0xF) 8) b1).

(** [p[i] | p[i+1]<<8 | ...]: the little-endian unsigned integers of the format. *)
Definition lor2 (b0 b1 : Z) : Z := Z.lor b0 (Z.shiftl b1 8).
Definition lor3 (b0 b1 b2 : Z) : Z := Z.lor (lor2 b0 b1) (Z.shiftl b2 16).
Definition lor4 (b0 b1 b2 b3 : Z) : Z := Z.lor (lor3 b0 b1 b2) (Z.shiftl b3 24).

Definition LP_ENCODING_32BIT_STR_LEN (lp : list Z) (p : Z) : outcome Z :=
  b1 ← rd lp (p + 1); b2 ← rd lp (p + 2); b3 ← rd lp (p + 3); b4 ← rd lp (p + 4);
  Ret (lor4 b1 b2 b3 b4).

(** ** Encoders *)

(** The bytes stored in [intenc]; [*enclen] is their number. *)
Definition lpEncodeIntegerGetType (v : Z) : list Z :=
  if (0 <=? v) && (v <=? 127) then [u8 v]
  else if (-4096 <=? v) && (v <=? 4095) then
    let v := if v <? 0 then Z.shiftl 1 13 + v else v in
    [u8 (Z.lor (Z.shiftr v 8) 0xC0); Z.land v 0xff]
  else if (-32768 <=? v) && (v <=? 32767) then
    let v := if v <? 0 then Z.shiftl 1 16 + v else v in
    [0xF1; Z.land v 0xff; u8 (Z.shiftr v 8)]
  else if (-8388608 <=? v) && (v <=? 8388607) then
    let v := if v <? 0 then Z.shiftl 1 24 + v else v in
    [0xF2; Z.land v 0xff; Z.land (Z.shiftr v 8) 0xff; u8 (Z.shiftr v 16)]
  else if (-2147483648 <=? v) && (v <=? 2147483647) then
    let v := if v <? 0 then Z.shiftl 1 32 + v else v in
    [0xF3; Z.land v 0xff; Z.land (Z.shiftr v 8) 0xff; Z.land (Z.shiftr v 16) 0xff;
     u8 (Z.shiftr v 24)]
  else
    let uv := u64 v in
    [0xF4; Z.land uv 0xff; Z.land (Z.shiftr uv 8) 0xff; Z.land (Z.shiftr uv 16) 0xff;
     Z.land (Z.shiftr uv 24) 0xff; Z.land (Z.shiftr uv 32) 0xff; Z.land (Z.shiftr uv 40) 0xff;
     Z.land (Z.shiftr uv 48) 0xff; u8 (Z.shiftr uv 56)].

(** Returns the encoding type, the contents of [intenc] and [*enclen]. *)
Definition lpEncodeGetType (ele : list Z) : Z * list Z * Z :=
  let size := Zlen ele in
  match lpStringToInt64 ele with
  | Some v =>
    let intenc := lpEncodeIntegerGetType v in
    (LP_ENCODING_INT, intenc, Zlen intenc)
  | None =>
    let enclen := if size <? 64 then 1 + size
                  else if size <? 4096 then 2 + size else 5 + size in
    (LP_ENCODING_STRING, [], enclen)
  end.

(** The bytes written to [buf]; the return value is their number. *)
Definition lpEncodeBacklen (l : Z) : list Z :=
  if l <=? 127 then [u8 l]
  else if l <=? 16383 then [u8 (Z.shiftr l 7); Z.lor (Z.land l 127) 128]
  else if l <=? 2097151 then
    [u8 (Z.shiftr l 14); Z.lor (Z.land (Z.shiftr l 7) 127) 128; Z.lor (Z.land l 127) 128]
  else if l <=? 268435455 then
    [u8 (Z.shiftr l 21); Z.lor (Z.land (Z.shiftr l 14) 127) 128;
     Z.lor (Z.land (Z.shiftr l 7) 127) 128; Z.lor (Z.land l 127) 128]
  else
    [u8 (Z.shiftr l 28); Z.lor (Z.land (Z.shiftr l 21) 127) 128;
     Z.lor (Z.land (Z.shiftr l 14) 127) 128; Z.lor (Z.land (Z.shiftr l 7) 127) 128;
     Z.lor (Z.land l 127) 128].

Definition lpEncodeBacklenBytes (l : Z) : Z :=
  if l <=? 127 then 1
  else if l <=? 16383 then 2
  else if l <=? 2097151 then 3
  else if l <=? 268435455 then 4
  else 5.

(** Reads backwards from [p], up to [p-4]. *)
Definition lpDecodeBacklen (lp : list Z) (p : Z) : outcome Z :=
  b0 ← rd lp p;
  if Z.land b0 128 =? 0 then Ret (Z.land b0 127) else
  let val := Z.land b0 127 in
  b1 ← rd lp (p - 1);
  if Z.land b1 128 =? 0 then Ret (Z.lor val (Z.shiftl (Z.land b1 127) 7)) else
  let val := Z.lor val (Z.shiftl (Z.land b1 127) 7) in
  b2 ← rd lp (p - 2);
  if Z.land b2 128 =? 0 then Ret (Z.lor val (Z.shiftl (Z.land b2 127) 14)) else
  let val := Z.lor val (Z.shiftl (Z.land b2 127) 14) in
  b3 ← rd lp (p - 3);
  if Z.land b3 128 =? 0 then Ret (Z.lor val (Z.shiftl (Z.land b3 127) 21)) else
  let val := Z.lor val (Z.shiftl (Z.land b3 127) 21) in
  b4 ← rd lp (p - 4);
  if Z.land b4 128 =? 0 then Ret (Z.lor val (Z.shiftl (Z.land b4 127) 28)) else
  Ret UINT64_MAX.

(** Writes the header bytes and the string at [buf]. *)
Definition lpStringHeader (len : Z) : list Z :=
  if len <? 64 then [Z.lor len 0x80]
  else if len <? 4096 then [Z.lor (Z.shiftr len 8) 0xE0; Z.land len 0xff]
  else [0xF0; Z.land len 0xff; Z.land (Z.shiftr len 8) 0xff; Z.land (Z.shiftr len 16) 0xff;
        Z.land (Z.shiftr len 24) 0xff].

Definition lpEncodeString (lp : list Z) (buf : Z) (s : list Z) : outcome (list Z) :=
  wrn lp buf (lpStringHeader (Zlen s) ++ s).

(** ** Sizes *)

Definition lpCurrentEncodedSizeUnsafe (lp : list Z) (p : Z) : outcome Z :=
  b ← rd lp p;
  if LP_ENCODING_IS_7BIT_UINT b then Ret 1 else
  if LP_ENCODING_IS_6BIT_STR b then l ← LP_ENCODING_6BIT_STR_LEN lp p; Ret (1 + l) else
  if LP_ENCODING_IS_13BIT_INT b then Ret 2 else
  if LP_ENCODING_IS_16BIT_INT b then Ret 3 else
  if LP_ENCODING_IS_24BIT_INT b then Ret 4 else
  if LP_ENCODING_IS_32BIT_INT b then Ret 5 else
  if LP_ENCODING_IS_64BIT_INT b then Ret 9 else
  if LP_ENCODING_IS_12BIT_STR b then l ← LP_ENCODING_12BIT_STR_LEN lp p; Ret (2 + l) else
  if LP_ENCODING_IS_32BIT_STR b then l ← LP_ENCODING_32BIT_STR_LEN lp p; Ret (u32 (5 + l)) else
  if b =? LP_EOF then Ret 1 else
  Ret 0.

Definition lpCurrentEncodedSizeBytes (encoding : Z) : Z :=
  if LP_ENCODING_IS_7BIT_UINT encoding then 1 else
  if LP_ENCODING_IS_6BIT_STR encoding then 1 else
  if LP_ENCODING_IS_13BIT_INT encoding then 1 else
  if LP_ENCODING_IS_16BIT_INT encoding then 1 else
  if LP_ENCODING_IS_24BIT_INT encoding then 1 else
  if LP_ENCODING_IS_32BIT_INT encoding then 1 else
  if LP_ENCODING_IS_64BIT_INT encoding then 1 else
  if LP_ENCODING_IS_12BIT_STR encoding then 2 else
  if LP_ENCODING_IS_32BIT_STR encoding then 5 else
  if encoding =? LP_EOF then 1 else
  0.

(** ** Decoders *)

(** What the [lpGet] family returns: a pointer into the listpack and [*count],
    the caller's buffer holding the printed integer and [*count], or NULL with
    the integer in [*count]. *)
Inductive lpGot :=
| GotPtr (p count : Z)
| GotBuf (buf : list Z) (count : Z)
| GotInt (count : Z).

(** The integer tail shared by both decoders: [uval] to [val] by two's
    complement, then printing into [intbuf] if there is one. *)
Definition lpGetInteger (uval negstart negmax : Z) (intbuf : option (list Z)) : outcome lpGot :=
  let val :=
    if negstart <=? uval then
      let uval := u64 (negmax - uval) in
      - s64 uval - 1
    else s64 uval in
  match intbuf with
  | Some buf => '(buf, count) ← ll2string buf LP_INTBUF_SIZE val; Ret (GotBuf buf count)
  | None => Ret (GotInt val)
  end.

(** Returns also [*entry_size] ([old_size] is its value before the call, which
    an entry with an unknown encoding byte leaves alone). *)
Definition lpGetWithSize (lp : list Z) (p : Z) (intbuf : option (list Z)) (old_size : Z)
  : outcome (lpGot * Z) :=
  b ← rd lp p;
  if LP_ENCODING_IS_7BIT_UINT b then
    g ← lpGetInteger (Z.land b 0x7f) UINT64_MAX 0 intbuf; Ret (g, 2)
  else if LP_ENCODING_IS_6BIT_STR b then
    count ← LP_ENCODING_6BIT_STR_LEN lp p;
    Ret (GotPtr (p + 1) count, 1 + count + lpEncodeBacklenBytes (count + 1))
  else if LP_ENCODING_IS_13BIT_INT b then
    b1 ← rd lp (p + 1);
    g ← lpGetInteger (Z.lor (Z.shiftl (Z.land b 0x1f) 8) b1) (Z.shiftl 1 12) 8191 intbuf;
    Ret (g, 3)
  else if LP_ENCODING_IS_16BIT_INT b then
    b1 ← rd lp (p + 1); b2 ← rd lp (p + 2);
    g ← lpGetInteger (lor2 b1 b2) (Z.shiftl 1 15) UINT16_MAX intbuf; Ret (g, 4)
  else if LP_ENCODING_IS_24BIT_INT b then
    b1 ← rd lp (p + 1); b2 ← rd lp (p + 2); b3 ← rd lp (p + 3);
    g ← lpGetInteger (lor3 b1 b2 b3) (Z.shiftl 1 23) (Z.shiftr UINT32_MAX 8) intbuf; Ret (g, 5)
  else if LP_ENCODING_IS_32BIT_INT b then
    b1 ← rd lp (p + 1); b2 ← rd lp (p + 2); b3 ← rd lp (p + 3); b4 ← rd lp (p + 4);
    g ← lpGetInteger (lor4 b1 b2 b3 b4) (Z.shiftl 1 31) UINT32_MAX intbuf; Ret (g, 6)
  else if LP_ENCODING_IS_64BIT_INT b then
    b1 ← rd lp (p + 1); b2 ← rd lp (p + 2); b3 ← rd lp (p + 3); b4 ← rd lp (p + 4);
    b5 ← rd lp (p + 5); b6 ← rd lp (p + 6); b7 ← rd lp (p + 7); b8 ← rd lp (p + 8);
    g ← lpGetInteger
      (Z.lor (Z.lor (Z.lor (Z.lor (lor4 b1 b2 b3 b4) (Z.shiftl b5 32)) (Z.shiftl b6 40))
         (Z.shiftl b7 48)) (Z.shiftl b8 56)) (Z.shiftl 1 63) UINT64_MAX intbuf;
    Ret (g, 10)
  else if LP_ENCODING_IS_12BIT_STR b then
    count ← LP_ENCODING_12BIT_STR_LEN lp p;
    Ret (GotPtr (p + 2) count, 2 + count + lpEncodeBacklenBytes (count + 2))
  else if LP_ENCODING_IS_32BIT_STR b then
    count ← LP_ENCODING_32BIT_STR_LEN lp p;
    Ret (GotPtr (p + 5) count, 5 + count + lpEncodeBacklenBytes (count + 5))
  else
    g ← lpGetInteger (12345678900000000 + b) UINT64_MAX 0 intbuf; Ret (g, old_size).

Definition lpGetWithBuf (lp : list Z) (p : Z) (intbuf : option (list Z)) : outcome lpGot :=
  encoding ← rd lp p;
  if LP_ENCODING_IS_6BIT_STR encoding then
    count ← LP_ENCODING_6BIT_STR_LEN lp p; Ret (GotPtr (p + 1) count)
  else if LP_ENCODING_IS_12BIT_STR encoding then
    count ← LP_ENCODING_12BIT_STR_LEN lp p; Ret (GotPtr (p + 2) count)
  else if LP_ENCODING_IS_32BIT_STR encoding then
    count ← LP_ENCODING_32BIT_STR_LEN lp p; Ret (GotPtr (p + 5) count)
  else if LP_ENCODING_IS_7BIT_UINT encoding then
    lpGetInteger (Z.land encoding 0x7f) UINT64_MAX 0 intbuf
  else if LP_ENCODING_IS_13BIT_INT encoding then
    b1 ← rd lp (p + 1);
    lpGetInteger (Z.lor (Z.shiftl (Z.land encoding 0x1f) 8) b1) (Z.shiftl 1 12) 8191 intbuf
  else if LP_ENCODING_IS_16BIT_INT encoding then
    b1 ← rd lp (p + 1); b2 ← rd lp (p + 2);
    lpGetInteger (lor2 b1 b2) (Z.shiftl 1 15) UINT16_MAX intbuf
  else if LP_ENCODING_IS_24BIT_INT encoding then
    b1 ← rd lp (p + 1); b2 ← rd lp (p + 2); b3 ← rd lp (p + 3);
    lpGetInteger (lor3 b1 b2 b3) (Z.shiftl 1 23) (Z.shiftr UINT32_MAX 8) intbuf
  else if LP_ENCODING_IS_32BIT_INT encoding then
    b1 ← rd lp (p + 1); b2 ← rd lp (p + 2); b3 ← rd lp (p + 3); b4 ← rd lp (p + 4);
    lpGetInteger (lor4 b1 b2 b3 b4) (Z.shiftl 1 31) UINT32_MAX intbuf
  else if LP_ENCODING_IS_64BIT_INT encoding then
    b1 ← rd lp (p + 1); b2 ← rd lp (p + 2); b3 ← rd lp (p + 3); b4 ← rd lp (p + 4);
    b5 ← rd lp (p + 5); b6 ← rd lp (p + 6); b7 ← rd lp (p + 7); b8 ← rd lp (p + 8);
    lpGetInteger
      (Z.lor (Z.lor (Z.lor (Z.lor (lor4 b1 b2 b3 b4) (Z.shiftl b5 32)) (Z.shiftl b6 40))
         (Z.shiftl b7 48)) (Z.shiftl b8 56)) (Z.shiftl 1 63) UINT64_MAX intbuf
  else
    lpGetInteger (12345678900000000 + encoding) UINT64_MAX 0 intbuf.

Definition lpGet (lp : list Z) (p : Z) (intbuf : option (list Z)) : outcome lpGot :=
  lpGetWithBuf lp p intbuf.

(** The result of [lpGetValue]: a string pointer and its [slen], or [*lval]. *)
Definition lpGetValue (lp : list Z) (p : Z) : outcome lpGot :=
  g ← lpGet lp p None;
  match g with
  | GotPtr v ele_len => Ret (GotPtr v (u32 ele_len))
  | g => Ret g
  end.

(** [None] when the entry is a string (the C function returns 0). *)
Definition lpGetIntegerValue (lp : list Z) (p : Z) : outcome (option Z) :=
  g ← lpGet lp p None;
  match g with
  | GotInt v => Ret (Some v)
  | _ => Ret None
  end.

Definition lpEntrySizeInteger (lval : Z) : Z :=
  let enclen := Zlen (lpEncodeIntegerGetType lval) in
  enclen + lpEncodeBacklenBytes enclen.

Definition lpEstimateBytesRepeatedInteger (lval rep : Z) : Z :=
  u64 (LP_HDR_SIZE + u64 (lpEntrySizeInteger lval * rep) + 1).
(** ** The encoding byte, arithmetically *)

Section classes.
Context (b : Z) (Hb : is_byte b).

Lemma is_7bit : LP_ENCODING_IS_7BIT_UINT b = (b <? 128).
Proof. refine (byte_eqb_fun LP_ENCODING_IS_7BIT_UINT (fun b => b <? 128) _ b Hb). vm_compute. done. Qed.
Lemma is_6bit_str : LP_ENCODING_IS_6BIT_STR b = (128 <=? b) && (b <? 192).
Proof. refine (byte_eqb_fun LP_ENCODING_IS_6BIT_STR (fun b => (128 <=? b) && (b <? 192)) _ b Hb). vm_compute. done. Qed.
Lemma is_13bit : LP_ENCODING_IS_13BIT_INT b = (192 <=? b) && (b <? 224).
Proof. refine (byte_eqb_fun LP_ENCODING_IS_13BIT_INT (fun b => (192 <=? b) && (b <? 224)) _ b Hb). vm_compute. done. Qed.
Lemma is_12bit_str : LP_ENCODING_IS_12BIT_STR b = (224 <=? b) && (b <? 240).
Proof. refine (byte_eqb_fun LP_ENCODING_IS_12BIT_STR (fun b => (224 <=? b) && (b <? 240)) _ b Hb). vm_compute. done. Qed.
Lemma is_32bit_str : LP_ENCODING_IS_32BIT_STR b = (b =? 240).
Proof. refine (byte_eqb_fun LP_ENCODING_IS_32BIT_STR (fun b => b =? 240) _ b Hb). vm_compute. done. Qed.
Lemma is_16bit : LP_ENCODING_IS_16BIT_INT b = (b =? 241).
Proof. refine (byte_eqb_fun LP_ENCODING_IS_16BIT_INT (fun b => b =? 241) _ b Hb). vm_compute. done. Qed.
Lemma is_24bit : LP_ENCODING_IS_24BIT_INT b = (b =? 242).
Proof. refine (byte_eqb_fun LP_ENCODING_IS_24BIT_INT (fun b => b =? 242) _ b Hb). vm_compute. done. Qed.
Lemma is_32bit : LP_ENCODING_IS_32BIT_INT b = (b =? 243).
Proof. refine (byte_eqb_fun LP_ENCODING_IS_32BIT_INT (fun b => b =? 243) _ b Hb). vm_compute. done. Qed.
Lemma is_64bit : LP_ENCODING_IS_64BIT_INT b = (b =? 244).
Proof. refine (byte_eqb_fun LP_ENCODING_IS_64BIT_INT (fun b => b =? 244) _ b Hb). vm_compute. done. Qed.
Lemma msb_test : (Z.land b 128 =? 0) = (b <? 128).
Proof. refine (byte_eqb_fun (fun b => Z.land b 128 =? 0) (fun b => b <? 128) _ b Hb). vm_compute. done. Qed.
End classes.

(** Replaces every test of the encoding byte and decides it. *)
Ltac lp_class :=
  rewrite ?is_7bit, ?is_6bit_str, ?is_13bit, ?is_12bit_str, ?is_32bit_str,
    ?is_16bit, ?is_24bit, ?is_32bit, ?is_64bit by (unfold is_byte in *; dlia).

Ltac pow2 :=
  repeat match goal with
  | |- context [2 ^ Zpos ?p] =>
    let r := eval vm_compute in (2 ^ Zpos p) in change (2 ^ Zpos p) with r
  end.

Ltac decide_tests :=
  repeat match goal with
  | |- context [?x <? ?y] =>
    first [ replace (x <? y) with true by (symmetry; apply Z.ltb_lt; dlia)
          | replace (x <? y) with false by (symmetry; apply Z.ltb_ge; dlia) ]
  | |- context [?x <=? ?y] =>
    first [ replace (x <=? y) with true by (symmetry; apply Z.leb_le; dlia)
          | replace (x <=? y) with false by (symmetry; apply Z.leb_gt; dlia) ]
  | |- context [?x =? ?y] =>
    first [ replace (x =? y) with true by (symmetry; apply Z.eqb_eq; dlia)
          | replace (x =? y) with false by (symmetry; apply Z.eqb_neq; dlia) ]
  end; cbn [andb orb negb].

(** ** Back lengths *)

Lemma lor_128 x : Z.lor (x mod 128) 128 = x mod 128 + 128.
Proof. exact (lor_shiftl_add (x mod 128) 1 7 ltac:(lia) ltac:(dlia)). Qed.

Lemma backlen_digits l : 0 <= l < 2 ^ 35 -> lpEncodeBacklen l =
  if l <=? 127 then [l]
  else if l <=? 16383 then [l / 128; l mod 128 + 128]
  else if l <=? 2097151 then [l / 16384; l / 128 mod 128 + 128; l mod 128 + 128]
  else if l <=? 268435455 then
    [l / 2097152; l / 16384 mod 128 + 128; l / 128 mod 128 + 128; l mod 128 + 128]
  else [l / 268435456; l / 2097152 mod 128 + 128; l / 16384 mod 128 + 128;
        l / 128 mod 128 + 128; l mod 128 + 128].
Proof.
  intros Hl. unfold lpEncodeBacklen. rewrite !land_127, !shiftr_div, !lor_128 by lia.
  change (2 ^ 7) with 128. change (2 ^ 14) with 16384. change (2 ^ 21) with 2097152.
  change (2 ^ 28) with 268435456.
  destruct (Z.leb_spec l 127); [by rewrite wrapu_id by lia|].
  destruct (Z.leb_spec l 16383); [by rewrite wrapu_id by dlia|].
  destruct (Z.leb_spec l 2097151); [by rewrite wrapu_id by dlia|].
  destruct (Z.leb_spec l 268435455); by rewrite wrapu_id by dlia.
Qed.

Lemma lpEncodeBacklen_length l : Zlen (lpEncodeBacklen l) = lpEncodeBacklenBytes l.
Proof. unfold lpEncodeBacklen, lpEncodeBacklenBytes. repeat case_match; done. Qed.

Lemma lpEncodeBacklen_bytes l : 0 <= l < 2 ^ 35 -> Forall is_byte (lpEncodeBacklen l).
Proof.
  intros Hl. rewrite backlen_digits by lia. unfold is_byte.
  repeat case_match; repeat constructor; dlia.
Qed.

Lemma lor_add x y n : 0 <= n -> 0 <= x < 2 ^ n -> Z.lor x (Z.shiftl y n) = x + 2 ^ n * y.
Proof. intros. rewrite lor_shiftl_add by lia. lia. Qed.

Lemma bind_rd_mid {B} (pre e post : list Z) q j x (f : Z -> outcome B) r :
  rd e j = Ret x -> q = Zlen pre + j -> f x = r -> (rd (pre ++ e ++ post) q ≫= f) = r.
Proof. intros Hr Hq <-. by rewrite (rd_mid _ _ _ _ _ _ Hr Hq). Qed.

(** One read of the middle block, at index [j] where [x] is found. *)
Ltac lp_rd j x :=
  apply (bind_rd_mid _ _ _ _ j x); [reflexivity|lia|]; cbv beta.

Ltac lp_msb := rewrite msb_test by (unfold is_byte; dlia); decide_tests; rewrite ?land_127.

(** The encoding, read from its last byte. *)
Lemma backlen_roundtrip l pre post q : 0 <= l < 2 ^ 35 ->
  q = Zlen pre + lpEncodeBacklenBytes l - 1 ->
  lpDecodeBacklen (pre ++ lpEncodeBacklen l ++ post) q = Ret l.
Proof.
  intros Hl ->. unfold lpDecodeBacklen, lpEncodeBacklenBytes. rewrite backlen_digits by lia.
  destruct (Z.leb_spec l 127); [|destruct (Z.leb_spec l 16383);
    [|destruct (Z.leb_spec l 2097151); [|destruct (Z.leb_spec l 268435455)]]]; cbv iota.
  - lp_rd 0 l. lp_msb. f_equal. dlia.
  - lp_rd 1 (l mod 128 + 128). lp_msb. lp_rd 0 (l / 128). lp_msb.
    rewrite lor_add by dlia. pow2. f_equal. dlia.
  - lp_rd 2 (l mod 128 + 128). lp_msb. lp_rd 1 (l / 128 mod 128 + 128). lp_msb.
    lp_rd 0 (l / 16384). lp_msb.
    rewrite (lor_add _ _ 7), (lor_add _ _ 14) by dlia. pow2. f_equal. dlia.
  - lp_rd 3 (l mod 128 + 128). lp_msb. lp_rd 2 (l / 128 mod 128 + 128). lp_msb.
    lp_rd 1 (l / 16384 mod 128 + 128). lp_msb. lp_rd 0 (l / 2097152). lp_msb.
    rewrite (lor_add _ _ 7), (lor_add _ _ 14), (lor_add _ _ 21) by dlia. pow2. f_equal. dlia.
  - lp_rd 4 (l mod 128 + 128). lp_msb. lp_rd 3 (l / 128 mod 128 + 128). lp_msb.
    lp_rd 2 (l / 16384 mod 128 + 128). lp_msb. lp_rd 1 (l / 2097152 mod 128 + 128). lp_msb.
    lp_rd 0 (l / 268435456). lp_msb.
    rewrite (lor_add _ _ 7), (lor_add _ _ 14), (lor_add _ _ 21), (lor_add _ _ 28) by dlia.
    pow2. f_equal. dlia.
Qed.

(** ** Integers *)

Lemma lor2_value b0 b1 : is_byte b0 -> lor2 b0 b1 = le_value [b0; b1].
Proof. unfold is_byte, lor2. intros. rewrite lor_add by lia. simpl. lia. Qed.

Lemma lor3_value b0 b1 b2 : is_byte b0 -> is_byte b1 -> lor3 b0 b1 b2 = le_value [b0; b1; b2].
Proof.
  intros H0 H1. unfold lor3. rewrite lor2_value by done. unfold is_byte in *.
  rewrite lor_add by (simpl; lia). simpl. lia.
Qed.

Lemma lor4_value b0 b1 b2 b3 : is_byte b0 -> is_byte b1 -> is_byte b2 ->
  lor4 b0 b1 b2 b3 = le_value [b0; b1; b2; b3].
Proof.
  intros H0 H1 H2. unfold lor4. rewrite lor3_value by done. unfold is_byte in *.
  rewrite lor_add by (simpl; lia). simpl. lia.
Qed.

Lemma lor8_value b1 b2 b3 b4 b5 b6 b7 b8 :
  is_byte b1 -> is_byte b2 -> is_byte b3 -> is_byte b4 -> is_byte b5 -> is_byte b6 ->
  is_byte b7 ->
  Z.lor (Z.lor (Z.lor (Z.lor (lor4 b1 b2 b3 b4) (Z.shiftl b5 32)) (Z.shiftl b6 40))
         (Z.shiftl b7 48)) (Z.shiftl b8 56) = le_value [b1; b2; b3; b4; b5; b6; b7; b8].
Proof.
  intros H1 H2 H3 H4 H5 H6 H7. rewrite lor4_value by done. unfold is_byte in *.
  rewrite (lor_add _ _ 32) by (simpl; lia). rewrite (lor_add _ _ 40) by (simpl; lia).
  rewrite (lor_add _ _ 48) by (simpl; lia). rewrite (lor_add _ _ 56) by (simpl; lia).
  simpl. lia.
Qed.

(** What an integer entry yields. *)
Definition int_got (intbuf : option (list Z)) (v : Z) : outcome lpGot :=
  match intbuf with
  | Some buf => '(buf, count) ← ll2string buf LP_INTBUF_SIZE v; Ret (GotBuf buf count)
  | None => Ret (GotInt v)
  end.

Lemma lpGetInteger_signed uval w intbuf :
  0 < w <= 64 -> 0 <= uval < 2 ^ w ->
  lpGetInteger uval (2 ^ (w - 1)) (2 ^ w - 1) intbuf =
  int_got intbuf (if 2 ^ (w - 1) <=? uval then uval - 2 ^ w else uval).
Proof.
  intros Hw Hu. unfold lpGetInteger, int_got. cbv zeta.
  assert (2 ^ w = 2 * 2 ^ (w - 1)) as E.
  { rewrite <- (Z.pow_succ_r 2 (w - 1)) by lia. f_equal. lia. }
  assert (2 ^ (w - 1) <= 2 ^ 63) by (apply Z.pow_le_mono_r; lia).
  assert ((if 2 ^ (w - 1) <=? uval then - s64 (u64 (2 ^ w - 1 - uval)) - 1 else s64 uval) =
          (if 2 ^ (w - 1) <=? uval then uval - 2 ^ w else uval)) as ->; [|done].
  destruct (Z.leb_spec (2 ^ (w - 1)) uval).
  - rewrite wrapu_id by lia. rewrite wraps_id by lia. lia.
  - by rewrite wraps_id by lia.
Qed.

Lemma lpGetInteger_le_value (n : nat) v intbuf :
  (0 < n <= 8)%nat -> - 2 ^ (8 * Z.of_nat n - 1) <= v < 2 ^ (8 * Z.of_nat n - 1) ->
  lpGetInteger (le_value (le_bytes n v)) (2 ^ (8 * Z.of_nat n - 1)) (2 ^ (8 * Z.of_nat n) - 1)
    intbuf = int_got intbuf v.
Proof.
  intros Hn Hv. set (w := 8 * Z.of_nat n) in *.
  assert (2 ^ w = 2 * 2 ^ (w - 1)) as E.
  { rewrite <- (Z.pow_succ_r 2 (w - 1)) by lia. f_equal. lia. }
  rewrite le_value_bytes. fold w. rewrite lpGetInteger_signed; [|lia|apply Z.mod_pos_bound; lia].
  f_equal. destruct (Z.lt_ge_cases v 0).
  - assert (v mod 2 ^ w = v + 2 ^ w) as ->.
    { symmetry. apply (Z.mod_unique _ _ (-1)); lia. }
    destruct (Z.leb_spec (2 ^ (w - 1)) (v + 2 ^ w)); lia.
  - rewrite Z.mod_small by lia. destruct (Z.leb_spec (2 ^ (w - 1)) v); lia.
Qed.

(** The encoding by range, with the bytes written as a little-endian integer. *)
Lemma int_enc_bytes v : INT64_MIN <= v <= INT64_MAX ->
  lpEncodeIntegerGetType v =
  if (0 <=? v) && (v <=? 127) then [v]
  else if (-4096 <=? v) && (v <=? 4095) then [192 + v mod 8192 / 256; v mod 256]
  else if (-32768 <=? v) && (v <=? 32767) then 241 :: le_bytes 2 v
  else if (-8388608 <=? v) && (v <=? 8388607) then 242 :: le_bytes 3 v
  else if (-2147483648 <=? v) && (v <=? 2147483647) then 243 :: le_bytes 4 v
  else 244 :: le_bytes 8 v.
Proof.
  unfold INT64_MIN, INT64_MAX. intros Hv. unfold lpEncodeIntegerGetType. cbv zeta.
  rewrite <- (le_bytes_mod 8 v : le_bytes 8 (u64 v) = _).
  rewrite !land_255, !shiftr_div by lia. cbn [le_bytes].
  rewrite !Z.div_div by lia. pow2.
  destruct ((0 <=? v) && (v <=? 127)) eqn:E1; [rewrite wrapu_id by lia; done|].
  destruct ((-4096 <=? v) && (v <=? 4095)) eqn:E2.
  { change (Z.shiftl 1 13) with 8192.
    assert ((if v <? 0 then 8192 + v else v) = v mod 8192) as -> by (destruct (Z.ltb_spec v 0); dlia).
    assert (Z.lor (v mod 8192 / 256) 192 = v mod 8192 / 256 + 192) as ->
      by (exact (lor_shiftl_add (v mod 8192 / 256) 3 6 ltac:(lia) ltac:(pow2; dlia))).
    rewrite wrapu_id by (pow2; dlia). f_equal; [lia|]. f_equal. dlia. }
  destruct ((-32768 <=? v) && (v <=? 32767)) eqn:E3.
  { change (Z.shiftl 1 16) with 65536.
    destruct (Z.ltb_spec v 0); unfold wrapu; pow2; repeat (apply (f_equal2 cons); [dlia|]); done. }
  destruct ((-8388608 <=? v) && (v <=? 8388607)) eqn:E4.
  { change (Z.shiftl 1 24) with 16777216.
    destruct (Z.ltb_spec v 0); unfold wrapu; pow2; repeat (apply (f_equal2 cons); [dlia|]); done. }
  destruct ((-2147483648 <=? v) && (v <=? 2147483647)) eqn:E5.
  { change (Z.shiftl 1 32) with 4294967296.
    destruct (Z.ltb_spec v 0); unfold wrapu; pow2; repeat (apply (f_equal2 cons); [dlia|]); done. }
  done.
Qed.

(** Reading an encoded integer back, through either decoder. *)
Lemma lpGet_int v pre post intbuf : INT64_MIN <= v <= INT64_MAX ->
  lpGet (pre ++ lpEncodeIntegerGetType v ++ post) (Zlen pre) intbuf = int_got intbuf v /\
  lpCurrentEncodedSizeUnsafe (pre ++ lpEncodeIntegerGetType v ++ post) (Zlen pre) =
    Ret (Zlen (lpEncodeIntegerGetType v)).
Proof.
  intros Hv. rewrite int_enc_bytes by done.
  unfold lpGet, lpGetWithBuf, lpCurrentEncodedSizeUnsafe.
  destruct ((0 <=? v) && (v <=? 127)) eqn:E1.
  { split; lp_rd 0 v; lp_class; decide_tests; [|done].
    change (Z.land v 0x7f) with (Z.land v 127). rewrite land_127, Z.mod_small by lia.
    unfold lpGetInteger, UINT64_MAX. decide_tests. rewrite wraps_id by lia. done. }
  destruct ((-4096 <=? v) && (v <=? 4095)) eqn:E2.
  { split; lp_rd 0 (192 + v mod 8192 / 256); lp_class; decide_tests; [|done].
    lp_rd 1 (v mod 256). rewrite Z.lor_comm, (Z.land_ones _ 5), lor_add by dlia. pow2.
    change (Z.shiftl 1 12) with (2 ^ (13 - 1)). change 8191 with (2 ^ 13 - 1).
    rewrite lpGetInteger_signed by dlia. change (13 - 1) with 12. pow2. f_equal.
    replace (_ + 256 * _) with (v mod 8192) by dlia.
    destruct (Z.leb_spec 4096 (v mod 8192)); dlia. }
  destruct ((-32768 <=? v) && (v <=? 32767)) eqn:E3.
  { split; lp_rd 0 241; [|done]. lp_class; decide_tests.
    pose proof (lpGetInteger_le_value 2 v intbuf ltac:(lia) ltac:(lia)) as H.
    cbn [le_bytes] in *. lp_rd 1 (v mod 256). lp_rd 2 (v / 256 mod 256).
    rewrite lor2_value by (unfold is_byte; dlia). exact H. }
  destruct ((-8388608 <=? v) && (v <=? 8388607)) eqn:E4.
  { split; lp_rd 0 242; [|done]. lp_class; decide_tests.
    pose proof (lpGetInteger_le_value 3 v intbuf ltac:(lia) ltac:(lia)) as H.
    cbn [le_bytes] in *. lp_rd 1 (v mod 256). lp_rd 2 (v / 256 mod 256).
    lp_rd 3 (v / 256 / 256 mod 256).
    rewrite lor3_value by (unfold is_byte; dlia). exact H. }
  destruct ((-2147483648 <=? v) && (v <=? 2147483647)) eqn:E5.
  { split; lp_rd 0 243; [|done]. lp_class; decide_tests.
    pose proof (lpGetInteger_le_value 4 v intbuf ltac:(lia) ltac:(lia)) as H.
    cbn [le_bytes] in *. lp_rd 1 (v mod 256). lp_rd 2 (v / 256 mod 256).
    lp_rd 3 (v / 256 / 256 mod 256). lp_rd 4 (v / 256 / 256 / 256 mod 256).
    rewrite lor4_value by (unfold is_byte; dlia). exact H. }
  split; lp_rd 0 244; [|done]. lp_class; decide_tests.
  unfold INT64_MIN, INT64_MAX in Hv.
  pose proof (lpGetInteger_le_value 8 v intbuf ltac:(lia) ltac:(lia)) as H.
  pose proof (le_bytes_byte 8 v) as Hb.
  destruct (le_bytes 8 v) as [|b1[|b2[|b3[|b4[|b5[|b6[|b7[|b8[|??]]]]]]]]] eqn:E;
    try (apply (f_equal length) in E; rewrite length_le_bytes in E; done).
  lp_rd 1 b1. lp_rd 2 b2. lp_rd 3 b3. lp_rd 4 b4. lp_rd 5 b5. lp_rd 6 b6. lp_rd 7 b7. lp_rd 8 b8.
  do 8 (apply Forall_cons_1 in Hb as [? Hb]). rewrite lor8_value by done. exact H.
Qed.

(** ** Strings *)

Lemma lpStringHeader_arith len : 0 <= len < 2 ^ 32 -> lpStringHeader len =
  if len <? 64 then [128 + len]
  else if len <? 4096 then [224 + len / 256; len mod 256]
  else 240 :: le_bytes 4 len.
Proof.
  intros Hl. unfold lpStringHeader. rewrite !land_255, !shiftr_div by lia. cbn [le_bytes].
  rewrite !Z.div_div by lia. pow2.
  destruct (Z.ltb_spec len 64).
  { f_equal. rewrite (lor_shiftl_add len 2 6 ltac:(lia) ltac:(lia) : Z.lor len 128 = _). lia. }
  destruct (Z.ltb_spec len 4096); [|done].
  f_equal. rewrite (lor_shiftl_add (len / 256) 14 4 ltac:(lia) ltac:(pow2; dlia)
    : Z.lor (len / 256) 224 = _). lia.
Qed.

Lemma lpGet_str s pre post intbuf : Zlen s < 2 ^ 32 - 5 ->
  let e := lpStringHeader (Zlen s) ++ s in
  lpGet (pre ++ e ++ post) (Zlen pre) intbuf =
    Ret (GotPtr (Zlen pre + Zlen (lpStringHeader (Zlen s))) (Zlen s)) /\
  lpCurrentEncodedSizeUnsafe (pre ++ e ++ post) (Zlen pre) = Ret (Zlen e).
Proof.
  intros Hl e. unfold e. clear e. pose proof (Zlen_nonneg s).
  rewrite <- (app_assoc _ s post), lpStringHeader_arith by lia. zlen.
  unfold lpGet, lpGetWithBuf, lpCurrentEncodedSizeUnsafe.
  destruct (Z.ltb_spec (Zlen s) 64); cbv iota.
  { split; lp_rd 0 (128 + Zlen s); lp_class; decide_tests;
      unfold LP_ENCODING_6BIT_STR_LEN; rewrite bind_assoc_outcome;
      lp_rd 0 (128 + Zlen s); rewrite (Z.land_ones _ 6) by lia; simpl; zlen; do 2 f_equal; dlia. }
  destruct (Z.ltb_spec (Zlen s) 4096); cbv iota.
  { split; lp_rd 0 (224 + Zlen s / 256); lp_class; decide_tests;
      unfold LP_ENCODING_12BIT_STR_LEN; rewrite !bind_assoc_outcome;
      lp_rd 0 (224 + Zlen s / 256); rewrite !bind_assoc_outcome; lp_rd 1 (Zlen s mod 256);
      rewrite Z.lor_comm, (Z.land_ones _ 4), lor_add by dlia; simpl; zlen; do 2 f_equal; dlia. }
  split; lp_rd 0 240; lp_class; decide_tests; unfold LP_ENCODING_32BIT_STR_LEN; cbn [le_bytes];
    rewrite !bind_assoc_outcome; lp_rd 1 (Zlen s mod 256); rewrite !bind_assoc_outcome;
    lp_rd 2 (Zlen s / 256 mod 256); rewrite !bind_assoc_outcome;
    lp_rd 3 (Zlen s / 256 / 256 mod 256); rewrite !bind_assoc_outcome;
    lp_rd 4 (Zlen s / 256 / 256 / 256 mod 256);
    rewrite lor4_value by (unfold is_byte; dlia); cbn [mbind outcome_bind];
    rewrite (le_value_bytes 4 (Zlen s) : le_value [_;_;_;_] = _), Z.mod_small by lia.
  - simpl. zlen. done.
  - rewrite wrapu_id by lia. zlen. done.
Qed.

(** ** Elements: what is stored for a string argument *)

Definition lp_element (ele : list Z) : list Z :=
  match lpStringToInt64 ele with
  | Some v => lpEncodeIntegerGetType v
  | None => lpStringHeader (Zlen ele) ++ ele
  end.

(** The bytes a result of [lpGet] stands for. *)
Definition got_bytes (lp : list Z) (g : lpGot) : outcome (list Z) :=
  match g with
  | GotPtr p n => rdn lp p n
  | GotBuf buf n => rdn buf 0 n
  | GotInt v => Ret (dec v)
  end.

Lemma lpStringToInt64_sound s v :
  lpStringToInt64 s = Some v -> s = dec v /\ INT64_MIN <= v <= INT64_MAX.
Proof. rewrite lpStringToInt64_eq. apply string2ll_sound. Qed.

Lemma lpEncodeGetType_spec ele :
  lpEncodeGetType ele =
  (if lpStringToInt64 ele is Some _ then LP_ENCODING_INT else LP_ENCODING_STRING,
   if lpStringToInt64 ele is Some _ then lp_element ele else [], Zlen (lp_element ele)).
Proof.
  unfold lpEncodeGetType, lp_element, lpStringHeader. destruct (lpStringToInt64 ele); [done|].
  destruct (Zlen ele <? 64); [by zlen|]. destruct (Zlen ele <? 4096); zlen; do 2 f_equal; lia.
Qed.

Lemma lp_element_size ele pre post : Zlen ele < 2 ^ 32 - 5 ->
  lpCurrentEncodedSizeUnsafe (pre ++ lp_element ele ++ post) (Zlen pre) =
  Ret (Zlen (lp_element ele)).
Proof.
  intros Hl. unfold lp_element. destruct (lpStringToInt64 ele) as [v|] eqn:E.
  - apply lpStringToInt64_sound in E as [_ Hv]. by apply (lpGet_int v pre post None).
  - by apply (lpGet_str ele pre post None).
Qed.

Lemma int_got_dec v buf : INT64_MIN <= v <= INT64_MAX -> LP_INTBUF_SIZE <= Zlen buf ->
  exists buf', int_got (Some buf) v = Ret (GotBuf buf' (Zlen (dec v))) /\
    rdn buf' 0 (Zlen (dec v)) = Ret (dec v).
Proof.
  intros Hv Hb. pose proof (dec_length v Hv). unfold int_got, LP_INTBUF_SIZE, LONG_STR_SIZE in *.
  rewrite ll2string_ok by lia. eexists. split; [done|].
  exact (rdn_app [] (dec v) (0 :: drop (S (length (dec v))) buf)).
Qed.

Lemma lp_element_get ele pre post buf : Zlen ele < 2 ^ 32 - 5 -> LP_INTBUF_SIZE <= Zlen buf ->
  let lp := pre ++ lp_element ele ++ post in
  exists g, lpGet lp (Zlen pre) (Some buf) = Ret g /\ got_bytes lp g = Ret ele.
Proof.
  intros Hl Hbuf lp. unfold lp, lp_element. destruct (lpStringToInt64 ele) as [v|] eqn:E.
  - apply lpStringToInt64_sound in E as [-> Hv].
    destruct (lpGet_int v pre post (Some buf) Hv) as [-> _].
    destruct (int_got_dec v buf Hv Hbuf) as (buf' & -> & Hr). eexists. split; [done|]. exact Hr.
  - destruct (lpGet_str ele pre post (Some buf) Hl) as [-> _]. eexists. split; [done|]. simpl.
    refine (rdn_mid _ _ _ _ (Zlen (lpStringHeader (Zlen ele))) _ _ _ _); [|done].
    pose proof (rdn_app (lpStringHeader (Zlen ele)) ele []) as Hr. by rewrite app_nil_r in Hr.
Qed.

(** ** The optimised decoder *)

Lemma lpGetWithBuf_eq lp p intbuf old : (forall b, rd lp p = Ret b -> is_byte b) ->
  lpGetWithBuf lp p intbuf = ('(g, _) ← lpGetWithSize lp p intbuf old; Ret g).
Proof.
  intros Hlp. unfold lpGetWithBuf, lpGetWithSize.
  destruct (rd lp p) as [b| | |] eqn:Eb; try done. cbn [mbind outcome_bind].
  assert (is_byte b) as Hb by (by apply Hlp).
  assert (forall (m : outcome lpGot) (n : Z),
    m = ('(g, _) ← (g ← m; Ret (g, n)); Ret g)) as Hm by (by intros [| | |] ?).
  rewrite is_7bit, is_6bit_str, is_13bit, is_12bit_str, is_32bit_str, is_16bit, is_24bit,
    is_32bit, is_64bit by done.
  destruct (Z.ltb_spec b 128), (Z.leb_spec 128 b); try lia; cbn [andb]; [decide_tests; apply Hm|].
  destruct (Z.ltb_spec b 192), (Z.leb_spec 192 b); try lia; cbn [andb].
  { by destruct (LP_ENCODING_6BIT_STR_LEN lp p). }
  destruct (Z.ltb_spec b 224), (Z.leb_spec 224 b); try lia; cbn [andb].
  { decide_tests. destruct (rd lp (p + 1)); try done. apply Hm. }
  destruct (Z.ltb_spec b 240); cbn [andb].
  { decide_tests. by destruct (LP_ENCODING_12BIT_STR_LEN lp p). }
  destruct (Z.eqb_spec b 240) as [->|].
  { cbn [Z.eqb Pos.eqb]. by destruct (LP_ENCODING_32BIT_STR_LEN lp p). }
  assert (forall (x : bool) (m m1 : outcome lpGot) (k k1 : outcome (lpGot * Z)),
    m = ('(g, _) ← k; Ret g) -> m1 = ('(g, _) ← k1; Ret g) ->
    (if x then m else m1) = ('(g, _) ← (if x then k else k1); Ret g)) as Hif by (by intros [|]).
  assert (forall (r : outcome Z) (F : Z -> outcome lpGot) (G : Z -> outcome (lpGot * Z)),
    (forall x, F x = ('(g, _) ← G x; Ret g)) ->
    (r ≫= F) = ('(g, _) ← (r ≫= G); Ret g)) as Hbind by (intros [| | |] F G HF; simpl; done).
  repeat (apply Hif; [repeat (apply Hbind; intros ?); apply Hm|]). apply Hm.
Qed.

(** The size the slow decoder reports is the size of the whole entry. *)
Lemma lpGetWithSize_entry_size lp p b n intbuf old g es : Forall is_byte lp ->
  rd lp p = Ret b -> b <> LP_EOF -> 0 < n -> (b = 240 -> 5 <= n) ->
  lpCurrentEncodedSizeUnsafe lp p = Ret n ->
  lpGetWithSize lp p intbuf old = Ret (g, es) -> es = n + lpEncodeBacklenBytes n.
Proof.
  intros Hlp Eb Heof Hn H5. unfold lpCurrentEncodedSizeUnsafe, lpGetWithSize.
  rewrite Eb. cbn [mbind outcome_bind].
  assert (forall l q x, Forall is_byte l -> rd l q = Ret x -> is_byte x) as Hrd.
  { intros l q x Hl Hq. apply rd_Ret_inv in Hq as [_ Hq]. by apply (Forall_lookup_1 _ _ _ _ Hl Hq). }
  assert (is_byte b) as Hb by eauto. unfold LP_EOF in *.
  assert (forall (m : outcome lpGot) k, (g ← m; Ret (g, k)) = Ret (g, es) -> es = k) as Hm
    by (intros [| | |] k; simpl; congruence).
  assert (forall (r : outcome Z) (F : Z -> outcome (lpGot * Z)) k,
    (forall x, F x = Ret (g, es) -> es = k) -> (r ≫= F) = Ret (g, es) -> es = k) as Hbind
    by (intros [| | |] F k HF; simpl; [apply HF|done..]).
  rewrite is_7bit, is_6bit_str, is_13bit, is_12bit_str, is_32bit_str, is_16bit, is_24bit,
    is_32bit, is_64bit by done.
  destruct (Z.ltb_spec b 128); [intros [= <-] H'; by apply Hm in H'|].
  destruct (Z.leb_spec 128 b), (Z.ltb_spec b 192); try lia; cbn [andb].
  { destruct (LP_ENCODING_6BIT_STR_LEN lp p) as [l| | |]; try done.
    intros [= <-] [= _ <-]. f_equal. f_equal. lia. }
  destruct (Z.leb_spec 192 b), (Z.ltb_spec b 224); try lia; cbn [andb].
  { intros [= <-]. apply Hbind. intros ?. apply Hm. }
  destruct (Z.eqb_spec b 241); [intros [= <-]; repeat (apply Hbind; intros ?); apply Hm|].
  destruct (Z.eqb_spec b 242); [intros [= <-]; repeat (apply Hbind; intros ?); apply Hm|].
  destruct (Z.eqb_spec b 243); [intros [= <-]; repeat (apply Hbind; intros ?); apply Hm|].
  destruct (Z.eqb_spec b 244); [intros [= <-]; repeat (apply Hbind; intros ?); apply Hm|].
  destruct (Z.leb_spec 224 b), (Z.ltb_spec b 240); try lia; cbn [andb].
  { destruct (LP_ENCODING_12BIT_STR_LEN lp p) as [l| | |]; try done.
    intros [= <-] [= _ <-]. f_equal. f_equal. lia. }
  destruct (Z.eqb_spec b 240) as [E|].
  { specialize (H5 E). unfold LP_ENCODING_32BIT_STR_LEN.
    destruct (rd lp (p + 1)) as [b1| | |] eqn:E1; try done. simpl.
    destruct (rd lp (p + 2)) as [b2| | |] eqn:E2; try done. simpl.
    destruct (rd lp (p + 3)) as [b3| | |] eqn:E3; try done. simpl.
    destruct (rd lp (p + 4)) as [b4| | |] eqn:E4; try done. simpl.
    rewrite lor4_value by eauto. set (len := le_value _).
    assert (0 <= len < 2 ^ 32) as Hlen.
    { assert (is_byte b1 /\ is_byte b2 /\ is_byte b3 /\ is_byte b4) by eauto 10.
      unfold len, is_byte in *. simpl. lia. }
    intros [= Hu] [= _ <-]. unfold wrapu in Hu.
    assert (n = 5 + len) as -> by dlia. f_equal. f_equal. lia. }
  destruct (Z.eqb_spec b 255); [lia|]. intros [= <-]. lia.
Qed.

(** ** Properties *)

(** Element encoding: for every string [ele] (shorter than 2^32-5 bytes) the
    length [lpEncodeGetType] announces is the number of bytes the element takes; storing
    it at any place of a block the way [lpInsert] does (the integer
    encoding when one exists, [lpEncodeString] otherwise) leaves a block in
    which [lpCurrentEncodedSizeUnsafe] reports that length and [lpGet], given a
    buffer, yields exactly the bytes of [ele]. *)
Theorem lpEncode_lpGet_roundtrip lp p ele buf enctype intenc enclen :
  Zlen ele < 2 ^ 32 - 5 -> LP_INTBUF_SIZE <= Zlen buf ->
  lpEncodeGetType ele = (enctype, intenc, enclen) ->
  0 <= p -> p + enclen <= Zlen lp ->
  exists lp' g,
    (if enctype =? LP_ENCODING_INT then wrn lp p intenc else lpEncodeString lp p ele) = Ret lp' /\
    length lp' = length lp /\
    lpCurrentEncodedSizeUnsafe lp' p = Ret enclen /\
    lpGet lp' p (Some buf) = Ret g /\ got_bytes lp' g = Ret ele.
Proof.
  intros Hl Hbuf He Hp Hroom. rewrite lpEncodeGetType_spec in He. injection He as <- <- <-.
  set (e := lp_element ele) in *. pose proof (Zlen_nonneg e).
  set (lp' := take (Z.to_nat p) lp ++ e ++ drop (Z.to_nat (p + Zlen e)) lp).
  assert (wrn lp p e = Ret lp') as Hw by (apply wrn_ok; lia).
  assert (Zlen (take (Z.to_nat p) lp) = p) as Hpre by (apply Zlen_take; lia).
  destruct (lp_element_get ele (take (Z.to_nat p) lp) (drop (Z.to_nat (p + Zlen e)) lp) buf
    Hl Hbuf) as (g & Hg & Hgb).
  pose proof (lp_element_size ele (take (Z.to_nat p) lp) (drop (Z.to_nat (p + Zlen e)) lp) Hl) as Hs.
  rewrite Hpre in Hg, Hs. exists lp', g. split; [|split; [by eapply wrn_length|by repeat split]].
  rewrite <- Hw. unfold e, lp_element, lpEncodeString. by destruct (lpStringToInt64 ele).
Qed.

(** Integer encoding: for every 64-bit integer the 1 to 9 bytes of
    [lpEncodeIntegerGetType], wherever they lie in a block, are decoded by
    [lpGet] (and [lpGetIntegerValue]) to the same integer, are
    [lpCurrentEncodedSizeUnsafe] bytes long, and [lpEntrySizeInteger] is
    their number plus that of the back length. *)
Theorem lpEncodeInteger_roundtrip v pre post :
  INT64_MIN <= v <= INT64_MAX ->
  let e := lpEncodeIntegerGetType v in
  let lp := pre ++ e ++ post in
  lpGet lp (Zlen pre) None = Ret (GotInt v) /\
  lpGetIntegerValue lp (Zlen pre) = Ret (Some v) /\
  lpCurrentEncodedSizeUnsafe lp (Zlen pre) = Ret (Zlen e) /\
  lpEntrySizeInteger v = Zlen (e ++ lpEncodeBacklen (Zlen e)) /\
  1 <= Zlen e <= 9.
Proof.
  intros Hv e lp. destruct (lpGet_int v pre post None Hv) as [Hg Hs].
  unfold lpGetIntegerValue, lp, e. rewrite Hg. repeat split; try done.
  - unfold lpEntrySizeInteger. rewrite Zlen_app, lpEncodeBacklen_length. done.
  - rewrite int_enc_bytes by done. repeat case_match; done.
  - rewrite int_enc_bytes by done. repeat case_match; done.
Qed.

(** The back length: the encoding of any length below 2^35 has
    [lpEncodeBacklenBytes] bytes, between 1 and 5, and [lpDecodeBacklen],
    started on its last byte, yields the length back, whatever surrounds it. *)
Theorem lpDecodeBacklen_lpEncodeBacklen l pre post :
  0 <= l < 2 ^ 35 ->
  Zlen (lpEncodeBacklen l) = lpEncodeBacklenBytes l /\ 1 <= lpEncodeBacklenBytes l <= 5 /\
  lpDecodeBacklen (pre ++ lpEncodeBacklen l ++ post)
    (Zlen pre + Zlen (lpEncodeBacklen l) - 1) = Ret l.
Proof.
  intros Hl. split; [apply lpEncodeBacklen_length|]. split.
  - unfold lpEncodeBacklenBytes. repeat case_match; lia.
  - apply backlen_roundtrip; [done|]. by rewrite lpEncodeBacklen_length.
Qed.

(** The decoder without size ([lpGetWithBuf], the reordered one that
    [lpGet] uses) agrees with [lpGetWithSize] on every position of every block of
    bytes, valid or not: same result, and an access out of bounds for one is
    one for the other. *)
Theorem lpGetWithBuf_equiv_lpGetWithSize lp p intbuf old_size :
  Forall is_byte lp ->
  lpGetWithBuf lp p intbuf = ('(g, _) ← lpGetWithSize lp p intbuf old_size; Ret g).
Proof.
  intros Hlp. apply lpGetWithBuf_eq. intros b Hb. apply rd_Ret_inv in Hb as [_ Hb].
  by apply (Forall_lookup_1 _ _ _ _ Hlp Hb).
Qed.

(** ** Witnesses *)

Lemma lpEncode_lpGet_witness : exists lp' g,
  lpEncodeString (replicate 10 0) 2 [104; 105] = Ret lp' /\ length lp' = 10%nat /\
  lpCurrentEncodedSizeUnsafe lp' 2 = Ret 3 /\
  lpGet lp' 2 (Some (replicate 21 0)) = Ret g /\ got_bytes lp' g = Ret [104; 105].
Proof.
  refine (lpEncode_lpGet_roundtrip (replicate 10 0) 2 [104; 105] (replicate 21 0)
    LP_ENCODING_STRING [] 3 _ _ _ _ _); [done| done | reflexivity | done | done].
Defined.

Lemma lpEncodeInteger_witness :
  lpGet ([1; 2] ++ [0xF1; 0xCD; 0xAB] ++ [9]) 2 None = Ret (GotInt (-21555)).
Proof.
  refine (proj1 (lpEncodeInteger_roundtrip (-21555) [1; 2] [9] _)).
  unfold INT64_MIN, INT64_MAX. lia.
Defined.

Lemma lpDecodeBacklen_witness : lpDecodeBacklen [7; 2; 0xAC; 9] 2 = Ret 300.
Proof.
  exact (proj2 (proj2 (lpDecodeBacklen_lpEncodeBacklen 300 [7] [9] ltac:(lia)))).
Defined.

Lemma lpGetWithBuf_witness :
  lpGetWithBuf [0xE1; 0x03; 1] 0 None =
  ('(g, _) ← lpGetWithSize [0xE1; 0x03; 1] 0 None 7; Ret g).
Proof.
  apply (lpGetWithBuf_equiv_lpGetWithSize [0xE1; 0x03; 1] 0 None 7).
  repeat constructor; unfold is_byte; lia.
Defined.
