(* ===== verification/Listpack.v ===== *)
(** * listpack.c, part 2: the block, navigation, validation and search

    A listpack is a header (total bytes, number of elements), the entries
    (element encoding followed by its back length) and an EOF byte.  [lp] is the
    allocation, an element pointer is an offset into it and NULL is [None].
    The predicate [lp_wf lp es] says that the block holds the element encodings
    [es]; navigation, search and validation are shown correct against it. *)

From S2P Require Import Prelude Memory NumStr ListpackEnc.

(** ** The header *)

Definition lpGetTotalBytes (lp : list Z) : outcome Z :=
  b0 ← rd lp 0; b1 ← rd lp 1; b2 ← rd lp 2; b3 ← rd lp 3; Ret (lor4 b0 b1 b2 b3).

Definition lpGetNumElements (lp : list Z) : outcome Z :=
  b4 ← rd lp 4; b5 ← rd lp 5; Ret (lor2 b4 b5).

Definition lpSetTotalBytes (lp : list Z) (v : Z) : outcome (list Z) :=
  lp ← wr lp 0 (Z.land v 0xff);
  lp ← wr lp 1 (Z.land (Z.shiftr v 8) 0xff);
  lp ← wr lp 2 (Z.land (Z.shiftr v 16) 0xff);
  wr lp 3 (Z.land (Z.shiftr v 24) 0xff).

Definition lpSetNumElements (lp : list Z) (v : Z) : outcome (list Z) :=
  lp ← wr lp 4 (Z.land v 0xff); wr lp 5 (Z.land (Z.shiftr v 8) 0xff).

Definition lpBytes (lp : list Z) : outcome Z := lpGetTotalBytes lp.

Definition ASSERT_INTEGRITY (lp : list Z) (p : Z) : outcome unit :=
  total ← lpGetTotalBytes lp; c_assert ((LP_HDR_SIZE <=? p) && (p <? total)).

Definition ASSERT_INTEGRITY_LEN (lp : list Z) (p len : Z) : outcome unit :=
  total ← lpGetTotalBytes lp; c_assert ((LP_HDR_SIZE <=? p) && (p + len <? total)).

Definition LISTPACK_MAX_SAFETY_SIZE : Z := Z.shiftl 1 30.

Definition lpSafeToAdd (lp : option (list Z)) (add : Z) : outcome bool :=
  len ← (match lp with Some lp => lpGetTotalBytes lp | None => Ret 0 end);
  if (LISTPACK_MAX_SAFETY_SIZE <? add) || (LISTPACK_MAX_SAFETY_SIZE - add <? len)
  then Ret false else Ret true.

Section alloc.
Context `{Allocator}.

Definition lpNew (capacity : Z) : outcome (list Z) :=
  let lp := zmalloc (if LP_HDR_SIZE + 1 <? capacity then capacity else LP_HDR_SIZE + 1) in
  lp ← lpSetTotalBytes lp (LP_HDR_SIZE + 1);
  lp ← lpSetNumElements lp 0;
  wr lp LP_HDR_SIZE LP_EOF.

Definition lpShrinkToFit (lp : list Z) : outcome (list Z) :=
  size ← lpGetTotalBytes lp;
  if size <? Zlen lp then Ret (zrealloc lp size) else Ret lp.

Definition lpDup (lp : list Z) : outcome (list Z) :=
  lpbytes ← lpBytes lp;
  let newlp := zmalloc lpbytes in
  bs ← rdn lp 0 lpbytes; wrn newlp 0 bs.
End alloc.

(** ** Validation *)

Definition lpValidateFirst (lp : list Z) : outcome (option Z) :=
  let p := LP_HDR_SIZE in
  b ← rd lp p; if b =? LP_EOF then Ret None else Ret (Some p).

Definition OUT_OF_RANGE (lpbytes p : Z) : bool := (p <? LP_HDR_SIZE) || (lpbytes - 1 <? p).

(** The result and the new value of [*pp]. *)
Definition lpValidateNext (lp : list Z) (pp : option Z) (lpbytes : Z) : outcome (bool * option Z) :=
  match pp with
  | None => Ret (false, pp)
  | Some p =>
    if OUT_OF_RANGE lpbytes p then Ret (false, pp) else
    b ← rd lp p;
    if b =? LP_EOF then Ret (true, None) else
    let lenbytes := lpCurrentEncodedSizeBytes b in
    if lenbytes =? 0 then Ret (false, pp) else
    if OUT_OF_RANGE lpbytes (p + lenbytes) then Ret (false, pp) else
    entrylen ← lpCurrentEncodedSizeUnsafe lp p;
    let encodedBacklen := lpEncodeBacklenBytes entrylen in
    let entrylen := entrylen + encodedBacklen in
    if OUT_OF_RANGE lpbytes (p + entrylen) then Ret (false, pp) else
    let p := p + entrylen in
    prevlen ← lpDecodeBacklen lp (p - 1);
    if negb (u64 (prevlen + encodedBacklen) =? entrylen) then Ret (false, pp) else
    Ret (true, Some p)
  end.

Definition lpAssertValidEntry (lp : list Z) (lpbytes p : Z) : outcome unit :=
  '(ok, _) ← lpValidateNext lp (Some p) lpbytes; c_assert ok.

(** The entry callback of [lpValidateIntegrity]: a function of the entry, the
    element count of the header and the user data it may change. *)
Section validate.
Context {U : Type} (entry_cb : option (Z -> Z -> U -> bool * U)).

Fixpoint lpValidate_loop (fuel : nat) (lp : list Z) (bytes numele : Z) (p : option Z)
    (count : Z) (u : U) : outcome (option (option Z * Z) * U) :=
  match p with
  | None => Ret (Some (p, count), u)
  | Some q =>
    b ← rd lp q;
    if b =? LP_EOF then Ret (Some (p, count), u) else
    match fuel with
    | O => OutOfFuel
    | S fuel =>
      '(ok, p) ← lpValidateNext lp (Some q) bytes;
      if negb ok then Ret (None, u) else
      let '(ok, u) := match entry_cb with
                      | Some cb => cb q numele u
                      | None => (true, u)
                      end in
      if negb ok then Ret (None, u) else
      lpValidate_loop fuel lp bytes numele p (u32 (count + 1)) u
    end
  end.

(** Returns the verdict and the user data. *)
Definition lpValidateIntegrity (lp : list Z) (size : Z) (deep : bool) (u : U) : outcome (bool * U) :=
  if size <? LP_HDR_SIZE + 1 then Ret (false, u) else
  bytes ← lpGetTotalBytes lp;
  if negb (bytes =? size) then Ret (false, u) else
  last ← rd lp (size - 1);
  if negb (last =? LP_EOF) then Ret (false, u) else
  if negb deep then Ret (true, u) else
  numele ← lpGetNumElements lp;
  '(r, u) ← lpValidate_loop (length lp) lp bytes numele (Some LP_HDR_SIZE) 0 u;
  match r with
  | None => Ret (false, u)
  | Some (p, count) =>
    if negb (match p with Some q => q =? size - 1 | None => false end) then Ret (false, u) else
    if negb (numele =? LP_HDR_NUMELE_UNKNOWN) && negb (numele =? count) then Ret (false, u) else
    Ret (true, u)
  end.
End validate.

(** ** Navigation *)

Definition lpSkip (lp : list Z) (p : Z) : outcome Z :=
  entrylen ← lpCurrentEncodedSizeUnsafe lp p;
  Ret (p + (entrylen + lpEncodeBacklenBytes entrylen)).

Definition lpNextWithBytes (lp : list Z) (p lpbytes : Z) : outcome (option Z) :=
  p ← lpSkip lp p;
  b ← rd lp p;
  if b =? LP_EOF then Ret None else
  _ ← lpAssertValidEntry lp lpbytes p; Ret (Some p).

Definition lpNext (lp : list Z) (p : Z) : outcome (option Z) :=
  p ← lpSkip lp p;
  b ← rd lp p;
  if b =? LP_EOF then Ret None else
  lpbytes ← lpBytes lp;
  _ ← lpAssertValidEntry lp lpbytes p; Ret (Some p).

(** The loop of [lpNextN], [n] iterations left; also returns [validated]. *)
Fixpoint lpNextN_loop (n : nat) (lp : list Z) (lpbytes p : Z) (validated : bool)
  : outcome (option Z * bool) :=
  match n with
  | O => Ret (Some p, validated)
  | S n =>
    p ← lpSkip lp p;
    validated ← (if lpbytes <=? p + 5 then _ ← lpAssertValidEntry lp lpbytes p; Ret true
                 else _ ← c_assert ((LP_HDR_SIZE <=? p) && (p <? lpbytes)); Ret false);
    b ← rd lp p;
    if b =? LP_EOF then Ret (None, validated) else
    lpNextN_loop n lp lpbytes p validated
  end.

Definition lpNextN (lp : list Z) (p : option Z) (n : Z) : outcome (option Z) :=
  lpbytes ← lpBytes lp;
  match p with
  | None => Ret None
  | Some p =>
    '(p, validated) ← lpNextN_loop (Z.to_nat n) lp lpbytes p true;
    match p with
    | Some q => if (validated : bool) then Ret p else _ ← lpAssertValidEntry lp lpbytes q; Ret p
    | None => Ret None
    end
  end.

Definition lpSkipPrev (lp : list Z) (p : Z) : outcome Z :=
  let p := p - 1 in
  prevlen ← lpDecodeBacklen lp p;
  let prevlen := u64 (prevlen + lpEncodeBacklenBytes prevlen) in
  Ret (p - u64 (prevlen - 1)).

Definition lpPrev (lp : list Z) (p : Z) : outcome (option Z) :=
  if p =? LP_HDR_SIZE then Ret None else
  p ← lpSkipPrev lp p;
  lpbytes ← lpBytes lp;
  _ ← lpAssertValidEntry lp lpbytes p; Ret (Some p).

Fixpoint lpPrevN_loop (n : nat) (lp : list Z) (lpbytes p : Z) (validated : bool)
  : outcome (option Z * bool) :=
  match n with
  | O => Ret (Some p, validated)
  | S n =>
    if p =? LP_HDR_SIZE then Ret (None, validated) else
    p ← lpSkipPrev lp p;
    _ ← c_assert ((LP_HDR_SIZE <=? p) && (p <? lpbytes));
    lpPrevN_loop n lp lpbytes p false
  end.

Definition lpPrevN (lp : list Z) (p : option Z) (n : Z) : outcome (option Z) :=
  lpbytes ← lpBytes lp;
  match p with
  | None => Ret None
  | Some p =>
    '(p, validated) ← lpPrevN_loop (Z.to_nat n) lp lpbytes p true;
    match p with
    | Some q => if (validated : bool) then Ret p else _ ← lpAssertValidEntry lp lpbytes q; Ret p
    | None => Ret None
    end
  end.

Definition lpFirst (lp : list Z) : outcome (option Z) :=
  let p := LP_HDR_SIZE in
  b ← rd lp p;
  if b =? LP_EOF then Ret None else
  lpbytes ← lpBytes lp;
  _ ← lpAssertValidEntry lp lpbytes p; Ret (Some p).

Definition lpLast (lp : list Z) : outcome (option Z) :=
  total ← lpGetTotalBytes lp; lpPrev lp (total - 1).

Fixpoint lpLength_loop (fuel : nat) (lp : list Z) (p : option Z) (count : Z) : outcome Z :=
  match p with
  | None => Ret count
  | Some q =>
    match fuel with
    | O => OutOfFuel
    | S fuel => let count := u32 (count + 1) in p ← lpNext lp q; lpLength_loop fuel lp p count
    end
  end.

(** Returns the block, whose header may be updated, and the count. *)
Definition lpLength (lp : list Z) : outcome (list Z * Z) :=
  numele ← lpGetNumElements lp;
  if negb (numele =? LP_HDR_NUMELE_UNKNOWN) then Ret (lp, numele) else
  p ← lpFirst lp;
  count ← lpLength_loop (length lp) lp p 0;
  lp ← (if count <? LP_HDR_NUMELE_UNKNOWN then lpSetNumElements lp count else Ret lp);
  Ret (lp, count).

Definition lpSeek (lp : list Z) (index : Z) : outcome (option Z) :=
  numele ← lpGetNumElements lp;
  let dir : option (bool * Z) :=
    if negb (numele =? LP_HDR_NUMELE_UNKNOWN) then
      let index := if index <? 0 then numele + index else index in
      if index <? 0 then None else
      if numele <=? index then None else
      if numele / 2 <? index then Some (false, numele - index - 1) else Some (true, index)
    else if index <? 0 then Some (false, - index - 1) else Some (true, index) in
  match dir with
  | None => Ret None
  | Some (true, index) => p ← lpFirst lp; lpNextN lp p index
  | Some (false, index) => p ← lpLast lp; lpPrevN lp p index
  end.

(** ** Search *)

(** [lpFindCbInternal] for a comparator [cmp] with its user data. *)
Section find.
Context {U : Type} (cmp : list Z -> Z -> U -> option Z -> Z -> outcome (Z * U)).

Fixpoint lpFind_loop (fuel : nat) (lp : list Z) (lp_bytes p skipcnt entry_size skip : Z) (user : U)
  : outcome (option Z * U) :=
  match fuel with
  | O => OutOfFuel
  | S fuel =>
    r ← (if skipcnt =? 0 then
           '(g, entry_size) ← lpGetWithSize lp p None entry_size;
           let value := match g with GotPtr v _ => Some v | _ => None end in
           let ll := match g with GotPtr _ n | GotBuf _ n | GotInt n => n end in
           _ ← (match value with
                | Some _ => c_assert ((LP_HDR_SIZE <=? p) && (p + entry_size <? lp_bytes))
                | None => Ret tt
                end);
           '(c, user) ← cmp lp p user value ll;
           if c =? 0 then Ret (inl (Some p, user))
           else Ret (inr (p + entry_size, s32 skip, entry_size, user))
         else
           let skipcnt := s32 (skipcnt - 1) in
           p ← lpSkip lp p; Ret (inr (p, skipcnt, entry_size, user)));
    match r with
    | inl found => Ret found
    | inr (p, skipcnt, entry_size, user) =>
      _ ← (if lp_bytes <=? p + 8 then lpAssertValidEntry lp lp_bytes p
           else c_assert ((LP_HDR_SIZE <=? p) && (p <? lp_bytes)));
      b ← rd lp p;
      if b =? LP_EOF then Ret (None, user) else
      lpFind_loop fuel lp lp_bytes p skipcnt entry_size skip user
    end
  end.

Definition lpFindCbInternal (lp : list Z) (p : option Z) (user : U) (skip : Z)
  : outcome (option Z * U) :=
  lp_bytes ← lpBytes lp;
  p ← (match p with None => lpFirst lp | Some p => Ret (Some p) end);
  match p with
  | None => Ret (None, user)
  | Some p => lpFind_loop (length lp) lp lp_bytes p 0 123456789 skip user
  end.
End find.

Definition lpFindCb {U} (lp : list Z) (p : option Z) (user : U)
  (cmp : list Z -> Z -> U -> option Z -> Z -> outcome (Z * U)) (skip : Z) : outcome (option Z * U) :=
  lpFindCbInternal cmp lp p user skip.

Definition UCHAR_MAX : Z := 255.

Record lpFindArg := { arg_s : list Z; vencoding : Z; vll : Z }.

Definition lpFindCmp (lp : list Z) (p : Z) (arg : lpFindArg) (s : option Z) (slen : Z)
  : outcome (Z * lpFindArg) :=
  let arg_slen := Zlen (arg_s arg) in
  match s with
  | Some s =>
    if slen =? arg_slen then
      bs ← rdn lp s slen;
      if decide (arg_s arg = bs) then Ret (0, arg) else Ret (1, arg)
    else Ret (1, arg)
  | None =>
    let arg :=
      if vencoding arg =? 0 then
        if (32 <=? arg_slen) || (arg_slen =? 0)
        then {| arg_s := arg_s arg; vencoding := UCHAR_MAX; vll := vll arg |}
        else match lpStringToInt64 (arg_s arg) with
             | None => {| arg_s := arg_s arg; vencoding := UCHAR_MAX; vll := vll arg |}
             | Some v => {| arg_s := arg_s arg; vencoding := 1; vll := v |}
             end
      else arg in
    if negb (vencoding arg =? UCHAR_MAX) && (slen =? vll arg) then Ret (0, arg) else Ret (1, arg)
  end.

Definition lpFind (lp : list Z) (p : option Z) (s : list Z) (skip : Z) : outcome (option Z) :=
  let arg := {| arg_s := s; vencoding := 0; vll := 0 |} in
  '(r, _) ← lpFindCbInternal lpFindCmp lp p arg skip; Ret r.

(** [cached] is [*cached_longval] and [*cached_valid] when they are passed. *)
Definition lpCompare (lp : list Z) (p : Z) (s : list Z) (cached : option (Z * Z))
  : outcome (bool * option (Z * Z)) :=
  let slen := Zlen s in
  b ← rd lp p;
  if b =? LP_EOF then Ret (false, cached) else
  g ← lpGet lp p None;
  match g with
  | GotPtr value sz =>
    if slen =? sz then
      bs ← rdn lp value slen; Ret (bool_decide (bs = s), cached)
    else Ret (false, cached)
  | GotBuf _ sz | GotInt sz =>
    match cached with
    | Some (longval, valid) =>
      let '(longval, valid) :=
        if valid =? 0 then
          match lpStringToInt64 s with Some v => (v, 1) | None => (longval, -1) end
        else (longval, valid) in
      Ret ((valid =? 1) && (sz =? longval), Some (longval, valid))
    | None =>
      match lpStringToInt64 s with
      | Some sval => Ret (sz =? sval, None)
      | None => Ret (false, None)
      end
    end
  end.

(** ** Blocks that hold a list of encoded elements *)

(** One element encoding: its first byte announces exactly its length. *)
Definition valid_payload (e : list Z) : Prop :=
  Forall is_byte e /\ Zlen e < 2 ^ 32 /\
  lpCurrentEncodedSizeUnsafe e 0 = Ret (Zlen e) /\ rd e 0 <> Ret LP_EOF.

(** Size of the entry: the element and its back length. *)
Definition entry_len (e : list Z) : Z := Zlen e + lpEncodeBacklenBytes (Zlen e).

(** An entry at offset [p]: the element, and a back length that reads back its
    size. *)
Definition entry_at (lp : list Z) (p : Z) (e : list Z) : Prop :=
  valid_payload e /\ rdn lp p (Zlen e) = Ret e /\
  lpDecodeBacklen lp (p + entry_len e - 1) = Ret (Zlen e).

(** Consecutive entries from [p] to [q]. *)
Fixpoint entries_at (lp : list Z) (p : Z) (es : list (list Z)) (q : Z) : Prop :=
  match es with
  | [] => p = q
  | e :: es => entry_at lp p e /\ entries_at lp (p + entry_len e) es q
  end.

(** [lp] is a listpack of [total] bytes holding [es]. *)
Record lp_wf (lp : list Z) (es : list (list Z)) (total : Z) : Prop := {
  wf_total : lpGetTotalBytes lp = Ret total;
  wf_fits : total <= Zlen lp;
  wf_small : total < 2 ^ 32;
  wf_num : exists num, lpGetNumElements lp = Ret num /\
    (num = LP_HDR_NUMELE_UNKNOWN \/ num = Zlen es);
  wf_entries : entries_at lp LP_HDR_SIZE es (total - 1);
  wf_eof : rd lp (total - 1) = Ret LP_EOF;
}.

(** The offset of element [i]. *)
Definition lp_off (es : list (list Z)) (i : nat) : Z :=
  LP_HDR_SIZE + zsum (map entry_len (take i es)).

(** The pointer to element [i], NULL beyond the last. *)
Definition lp_ptr (es : list (list Z)) (i : nat) : option Z :=
  if decide (i < length es)%nat then Some (lp_off es i) else None.

(** *** Reading the size of an element *)

(** The header bytes of an element determine its size. *)
Lemma encoded_size_ext lp p lp' p' b : rd lp p = Ret b -> is_byte b -> rd lp' p' = Ret b ->
  (forall j, 0 < j < lpCurrentEncodedSizeBytes b -> rd lp' (p' + j) = rd lp (p + j)) ->
  lpCurrentEncodedSizeUnsafe lp' p' = lpCurrentEncodedSizeUnsafe lp p.
Proof.
  intros Hr Hb Hr' Hext. unfold lpCurrentEncodedSizeUnsafe, LP_ENCODING_6BIT_STR_LEN,
    LP_ENCODING_12BIT_STR_LEN, LP_ENCODING_32BIT_STR_LEN.
  rewrite Hr, Hr'. cbn [mbind outcome_bind]. unfold lpCurrentEncodedSizeBytes in Hext.
  repeat (case_match; [try reflexivity|]); try reflexivity.
  - by rewrite Hext by lia.
  - by rewrite !Hext by lia.
Qed.

Lemma encoded_size_header lp p b n : Forall is_byte lp -> rd lp p = Ret b ->
  lpCurrentEncodedSizeUnsafe lp p = Ret n ->
  0 <= n < 2 ^ 32 /\
  (lpCurrentEncodedSizeBytes b <= n \/
   b = 240 /\ n < 5 /\ rd lp (p + n) <> OutOfBounds /\ forall x, rd lp (p + n) = Ret x -> 240 <= x).
Proof.
  intros Hlp Hr. assert (is_byte b) as Hb by (eapply rd_is_byte; done).
  unfold lpCurrentEncodedSizeUnsafe, lpCurrentEncodedSizeBytes, LP_ENCODING_6BIT_STR_LEN,
    LP_ENCODING_12BIT_STR_LEN. rewrite Hr. cbn [mbind outcome_bind].
  rewrite is_7bit, is_6bit_str, is_13bit, is_12bit_str, is_32bit_str, is_16bit, is_24bit,
    is_32bit, is_64bit by done.
  destruct (Z.ltb_spec b 128); [intros [= <-]; lia|].
  destruct (Z.leb_spec 128 b), (Z.ltb_spec b 192); try lia; cbn [andb].
  { rewrite (Z.land_ones _ 6) by lia. intros [= <-]. dlia. }
  destruct (Z.leb_spec 192 b), (Z.ltb_spec b 224); try lia; cbn [andb]; [intros [= <-]; lia|].
  destruct (Z.eqb_spec b 241); [intros [= <-]; lia|].
  destruct (Z.eqb_spec b 242); [intros [= <-]; lia|].
  destruct (Z.eqb_spec b 243); [intros [= <-]; lia|].
  destruct (Z.eqb_spec b 244); [intros [= <-]; lia|].
  destruct (Z.leb_spec 224 b), (Z.ltb_spec b 240); try lia; cbn [andb].
  { destruct (rd lp (p + 1)) as [b1| | |] eqn:E1; try done. cbn [mbind outcome_bind].
    apply rd_is_byte in E1; [|done]. unfold is_byte in *.
    rewrite Z.lor_comm, (Z.land_ones _ 4), lor_add by dlia. intros [= <-]. dlia. }
  destruct (Z.eqb_spec b 240) as [E|]; [|destruct (b =? LP_EOF); intros [= <-]; lia].
  unfold LP_ENCODING_32BIT_STR_LEN.
  destruct (rd lp (p + 1)) as [b1| | |] eqn:E1; try done. cbn [mbind outcome_bind].
  destruct (rd lp (p + 2)) as [b2| | |] eqn:E2; try done. cbn [mbind outcome_bind].
  destruct (rd lp (p + 3)) as [b3| | |] eqn:E3; try done. cbn [mbind outcome_bind].
  destruct (rd lp (p + 4)) as [b4| | |] eqn:E4; try done. cbn [mbind outcome_bind].
  assert (is_byte b1 /\ is_byte b2 /\ is_byte b3 /\ is_byte b4) as (Hb1 & Hb2 & Hb3 & Hb4).
  { repeat split; eapply rd_is_byte; done. }
  rewrite lor4_value by done. cbn [le_value]. unfold is_byte in *. intros [= Hn].
  pose proof (wrapu_range 32 (5 + (b1 + 256 * (b2 + 256 * (b3 + 256 * (b4 + 256 * 0))))) ltac:(lia)).
  assert (0 <= n < 2 ^ 32) as Hn0 by lia. split; [done|].
  destruct (Z.lt_ge_cases n 5); [right|by left].
  unfold wrapu in Hn. assert (b1 = 251 + n /\ b2 = 255 /\ b3 = 255 /\ b4 = 255) as (-> & -> & -> & ->)
    by dlia.
  assert (n = 0 \/ n = 1 \/ n = 2 \/ n = 3 \/ n = 4) as Hcase by lia.
  split; [done|]. split; [done|].
  destruct Hcase as [->|[->|[->|[->| ->]]]]; rewrite ?Z.add_0_r, ?Hr, ?E1, ?E2, ?E3, ?E4;
    (split; [done|intros x [= <-]; clear Hn; lia]).
Qed.

(** *** Decoding back lengths *)

Lemma decode_ok lp q : 4 <= q < Zlen lp -> exists v, lpDecodeBacklen lp q = Ret v.
Proof.
  intros Hq. unfold lpDecodeBacklen.
  destruct (rd_ok lp q ltac:(lia)) as [b0 ->]. cbn [mbind outcome_bind].
  case_match; [by eauto|].
  destruct (rd_ok lp (q - 1) ltac:(lia)) as [b1 ->]. cbn [mbind outcome_bind].
  case_match; [by eauto|].
  destruct (rd_ok lp (q - 2) ltac:(lia)) as [b2 ->]. cbn [mbind outcome_bind].
  case_match; [by eauto|].
  destruct (rd_ok lp (q - 3) ltac:(lia)) as [b3 ->]. cbn [mbind outcome_bind].
  case_match; [by eauto|].
  destruct (rd_ok lp (q - 4) ltac:(lia)) as [b4 ->]. cbn [mbind outcome_bind].
  case_match; by eauto.
Qed.

Lemma lor_mod128 x y n : 7 <= n -> 0 <= x < 2 ^ n -> Z.lor x (Z.shiftl y n) mod 128 = x mod 128.
Proof.
  intros Hn Hx. rewrite lor_add by lia. replace n with (7 + (n - 7)) by lia.
  rewrite Z.pow_add_r by lia. change (2 ^ 7) with 128.
  rewrite <- Z.mul_assoc, (Z.mul_comm 128), Z.mod_add by lia. done.
Qed.

(** The last byte carries the low seven bits. *)
Lemma decode_low lp q b v : rd lp q = Ret b -> lpDecodeBacklen lp q = Ret v ->
  v = UINT64_MAX \/ (0 <= v < 2 ^ 35 /\ v mod 128 = b mod 128).
Proof.
  intros Hr. unfold lpDecodeBacklen. rewrite Hr. cbn [mbind outcome_bind]. rewrite !land_127.
  case_match; [intros [= <-]; right; dlia|].
  destruct (rd lp (q - 1)) as [b1| | |]; try done. cbn [mbind outcome_bind]. rewrite !land_127.
  assert (0 <= b mod 128 < 2 ^ 7) as B0 by dlia. set (v0 := b mod 128) in *.
  assert (Z.lor v0 (Z.shiftl (b1 mod 128) 7) = v0 + 2 ^ 7 * (b1 mod 128)) as E1 by (apply lor_add; lia).
  case_match; [intros [= <-]; right; rewrite lor_mod128, E1 by lia; unfold v0; dlia|].
  destruct (rd lp (q - 2)) as [b2| | |]; try done. cbn [mbind outcome_bind]. rewrite !land_127, !E1.
  set (v1 := v0 + _) in *. assert (0 <= v1 < 2 ^ 14 /\ v1 mod 128 = v0 mod 128) as [B1 M1] by (unfold v1; dlia).
  assert (Z.lor v1 (Z.shiftl (b2 mod 128) 14) = v1 + 2 ^ 14 * (b2 mod 128)) as E2 by (apply lor_add; lia).
  case_match; [intros [= <-]; right; rewrite lor_mod128, E2 by lia; unfold v0 in *; dlia|].
  destruct (rd lp (q - 3)) as [b3| | |]; try done. cbn [mbind outcome_bind]. rewrite !land_127, !E2.
  set (v2 := v1 + _) in *. assert (0 <= v2 < 2 ^ 21 /\ v2 mod 128 = v0 mod 128) as [B2 M2] by (unfold v2; dlia).
  assert (Z.lor v2 (Z.shiftl (b3 mod 128) 21) = v2 + 2 ^ 21 * (b3 mod 128)) as E3 by (apply lor_add; lia).
  case_match; [intros [= <-]; right; rewrite lor_mod128, E3 by lia; unfold v0 in *; dlia|].
  destruct (rd lp (q - 4)) as [b4| | |]; try done. cbn [mbind outcome_bind]. rewrite !land_127, !E3.
  set (v3 := v2 + _) in *. assert (0 <= v3 < 2 ^ 28 /\ v3 mod 128 = v0 mod 128) as [B3 M3] by (unfold v3; dlia).
  assert (Z.lor v3 (Z.shiftl (b4 mod 128) 28) = v3 + 2 ^ 28 * (b4 mod 128)) as E4 by (apply lor_add; lia).
  case_match; [intros [= <-]; right; rewrite lor_mod128, E4 by lia; unfold v0 in *; dlia|].
  intros [= <-]. by left.
Qed.

(** *** Entries *)

Lemma backlen_bytes_range l : 1 <= lpEncodeBacklenBytes l <= 5.
Proof. unfold lpEncodeBacklenBytes. repeat case_match; lia. Qed.

Lemma valid_payload_head e : valid_payload e ->
  exists b, rd e 0 = Ret b /\ is_byte b /\ b <> LP_EOF /\ 0 < Zlen e /\
    0 < lpCurrentEncodedSizeBytes b <= Zlen e.
Proof.
  intros (Hb & Hl & Hs & He). destruct e as [|b e']; [done|]. exists b.
  assert (is_byte b) as Hbb by (by apply Forall_cons_1 in Hb as [? _]).
  assert (b <> LP_EOF) by (intros ->; done).
  pose proof (Zlen_nonneg e'). split; [done|]. split; [done|]. split; [done|].
  destruct (encoded_size_header (b :: e') 0 b (Zlen (b :: e')) Hb eq_refl Hs)
    as [_ [H1|(_ & _ & Hoob & _)]].
  - zlen. split; [lia|]. split; [|done]. unfold lpCurrentEncodedSizeUnsafe in Hs.
    change (rd (b :: e') 0) with (Ret b) in Hs. cbn [mbind outcome_bind] in Hs.
    unfold lpCurrentEncodedSizeBytes. repeat (case_match; [lia|]). injection Hs. lia.
  - exfalso. apply Hoob. unfold rd. unfold Zlen. zlen. destruct (Z.ltb_spec (0 + Z.of_nat (length (b :: e'))) 0); [done|].
    rewrite lookup_ge_None_2 by lia. done.
Qed.

Lemma entry_len_bounds e : valid_payload e -> 2 <= entry_len e < 2 ^ 32 + 5.
Proof.
  intros Hv. destruct (valid_payload_head e Hv) as (b & _ & _ & _ & Hp & _).
  pose proof (backlen_bytes_range (Zlen e)). destruct Hv as (_ & Hl & _). unfold entry_len. lia.
Qed.

Section entry.
Context (lp : list Z) (p : Z) (e : list Z) (Hat : entry_at lp p e).

Lemma entry_head : exists b, rd lp p = Ret b /\ rd e 0 = Ret b /\ is_byte b /\ b <> LP_EOF /\
  0 < lpCurrentEncodedSizeBytes b <= Zlen e.
Proof.
  destruct Hat as (Hv & Hr & _). destruct (valid_payload_head e Hv) as (b & Hb & Hbb & Hne & Hp & Hs).
  exists b. split; [|done]. rewrite <- Hb. rewrite <- (Z.add_0_r p) at 1. by apply (rd_of_rdn _ _ _ _ _ Hr).
Qed.

Lemma entry_size : lpCurrentEncodedSizeUnsafe lp p = Ret (Zlen e).
Proof.
  destruct entry_head as (b & Hb & Hb0 & Hbb & _ & Hs). destruct Hat as (Hv & Hr & _).
  destruct Hv as (_ & _ & <- & _). apply (encoded_size_ext e 0 lp p b); try done.
  intros j Hj. apply (rd_of_rdn _ _ _ _ _ Hr). lia.
Qed.

Lemma entry_fits : 0 <= p /\ p + Zlen e <= Zlen lp /\ p + entry_len e <= Zlen lp.
Proof.
  destruct Hat as (Hv & Hr & Hd). pose proof (rdn_length _ _ _ _ Hr) as (_ & ? & ?).
  split; [done|]. split; [done|]. unfold lpDecodeBacklen in Hd.
  destruct (rd lp (p + entry_len e - 1)) eqn:E; try done. apply rd_Ret_inv in E. lia.
Qed.

Lemma lpSkip_entry : lpSkip lp p = Ret (p + entry_len e).
Proof. unfold lpSkip. by rewrite entry_size. Qed.

Lemma lpSkipPrev_entry : lpSkipPrev lp (p + entry_len e) = Ret p.
Proof.
  destruct Hat as (Hv & Hr & Hd). pose proof (entry_len_bounds e Hv) as He.
  unfold lpSkipPrev. rewrite Hd. cbn [mbind outcome_bind]. fold (entry_len e).
  rewrite (wrapu_id 64 (entry_len e)), wrapu_id by lia. f_equal. lia.
Qed.

Lemma lpValidateNext_entry total : LP_HDR_SIZE <= p -> p + entry_len e <= total - 1 ->
  lpValidateNext lp (Some p) total = Ret (true, Some (p + entry_len e)).
Proof.
  intros Hp Hle. destruct entry_head as (b & Hb & _ & _ & Hne & Hs).
  destruct Hat as (Hv & Hr & Hd). pose proof (entry_len_bounds e Hv) as He.
  pose proof (backlen_bytes_range (Zlen e)).
  unfold lpValidateNext, OUT_OF_RANGE. rewrite Hb, entry_size. cbn [mbind outcome_bind].
  fold (entry_len e). rewrite Hd. cbn [mbind outcome_bind]. fold (entry_len e).
  rewrite wrapu_id by lia. unfold entry_len in He, Hle. unfold entry_len.
  decide_tests. done.
Qed.
End entry.

Lemma lpValidateNext_eof lp p total : rd lp p = Ret LP_EOF -> LP_HDR_SIZE <= p <= total - 1 ->
  lpValidateNext lp (Some p) total = Ret (true, None).
Proof. intros Hr Hp. unfold lpValidateNext, OUT_OF_RANGE. decide_tests. by rewrite Hr. Qed.

(** What a successful validation step establishes, and that every step returns. *)
Lemma lpValidateNext_inv lp p total b : Forall is_byte lp -> total <= Zlen lp ->
  LP_HDR_SIZE <= p < total -> rd lp p = Ret b -> b <> LP_EOF ->
  exists ok q, lpValidateNext lp (Some p) total = Ret (ok, q) /\
    (ok = true -> exists e, entry_at lp p e /\ q = Some (p + entry_len e) /\
       p + entry_len e <= total - 1).
Proof.
  intros Hlp Ht Hp Hr Hne. unfold lpValidateNext, OUT_OF_RANGE, LP_HDR_SIZE in *. decide_tests.
  rewrite Hr. cbn [mbind outcome_bind].
  destruct (Z.eqb_spec b LP_EOF) as [|_]; [done|].
  set (h := lpCurrentEncodedSizeBytes b).
  destruct (Z.eqb_spec h 0) as [|Hh]; [eexists _, _; split; [done|discriminate]|].
  assert (0 < h <= 5) as Hh'.
  { unfold h, lpCurrentEncodedSizeBytes in *. repeat case_match; lia. }
  destruct (Z.ltb_spec (p + h) 6); [lia|]. cbn [orb].
  destruct (Z.ltb_spec (total - 1) (p + h)); [eexists _, _; split; [done|discriminate]|].
  assert (exists n, lpCurrentEncodedSizeUnsafe lp p = Ret n) as [n Hn].
  { unfold lpCurrentEncodedSizeUnsafe, LP_ENCODING_6BIT_STR_LEN,
      LP_ENCODING_12BIT_STR_LEN, LP_ENCODING_32BIT_STR_LEN, h, lpCurrentEncodedSizeBytes in *.
    rewrite Hr. cbn [mbind outcome_bind].
    repeat (case_match; [try by eauto|]); try by eauto.
    - destruct (rd_ok lp (p + 1) ltac:(lia)) as [b1 ->]. by eauto.
    - destruct (rd_ok lp (p + 1) ltac:(lia)) as [b1 ->], (rd_ok lp (p + 2) ltac:(lia)) as [b2 ->],
        (rd_ok lp (p + 3) ltac:(lia)) as [b3 ->], (rd_ok lp (p + 4) ltac:(lia)) as [b4 ->].
      by eauto. }
  rewrite Hn. cbn [mbind outcome_bind].
  destruct (encoded_size_header lp p b n Hlp Hr Hn) as [Hn0 Hcase].
  pose proof (backlen_bytes_range n) as Hbl. set (k := lpEncodeBacklenBytes n) in *.
  destruct (Z.ltb_spec (p + (n + k)) 6); [lia|]. cbn [orb].
  destruct (Z.ltb_spec (total - 1) (p + (n + k))); [eexists _, _; split; [done|discriminate]|].
  destruct (decode_ok lp (p + (n + k) - 1) ltac:(lia)) as [v Hv]. rewrite Hv. cbn [mbind outcome_bind].
  destruct (Z.eqb_spec (u64 (v + k)) (n + k)) as [Hu|]; [|eexists _, _; split; [done|discriminate]].
  eexists _, _. split; [done|]. intros _.
  destruct (rd_ok lp (p + (n + k) - 1) ltac:(lia)) as [z Hz].
  destruct (decode_low _ _ _ _ Hz Hv) as [->|[Hv0 Hvm]].
  { exfalso. unfold wrapu, UINT64_MAX in Hu. dlia. }
  rewrite wrapu_id in Hu by lia. assert (v = n) as -> by lia. clear Hu.
  destruct Hcase as [Hhn|(-> & Hn5 & _ & Hbig)].
  2:{ exfalso. assert (k = 1) as -> by (unfold k, lpEncodeBacklenBytes; by destruct (Z.leb_spec n 127); [|lia]).
      replace (p + (n + 1) - 1) with (p + n) in Hz by lia. specialize (Hbig _ Hz).
      apply rd_is_byte in Hz; [|done]. unfold is_byte in Hz. dlia. }
  fold h in Hhn. destruct (rdn lp p n) as [e| | |] eqn:Ee; try (rewrite rdn_ok in Ee by lia; done).
  pose proof (rdn_length _ _ _ _ Ee) as (El & _ & _). exists e.
  unfold entry_len. rewrite El. fold k. split; [|split; [done|lia]].
  split; [|split; [by rewrite El|unfold entry_len; by rewrite El]].
  assert (rd e 0 = Ret b) as He0.
  { rewrite <- Hr, <- (Z.add_0_r p). symmetry. apply (rd_of_rdn _ _ _ _ _ Ee). lia. }
  split; [|split; [lia|split]].
  - rewrite rdn_ok in Ee by lia. injection Ee as <-. by apply Forall_take, Forall_drop.
  - rewrite El, <- Hn. symmetry. apply (encoded_size_ext e 0 lp p b); try done.
    + by eapply rd_is_byte.
    + intros j Hj. apply (rd_of_rdn _ _ _ _ _ Ee). fold h in Hj. lia.
  - rewrite He0. by intros [= ->].
Qed.

(** *** Lists of entries *)

Lemma lp_off_0 es : lp_off es 0 = LP_HDR_SIZE.
Proof. done. Qed.

Lemma lp_off_S es i e : es !! i = Some e -> lp_off es (S i) = lp_off es i + entry_len e.
Proof.
  intros H. unfold lp_off. rewrite (take_S_r _ _ _ H), map_app, zsum_app. simpl. lia.
Qed.

Lemma entries_lookup lp p es q i e : entries_at lp p es q -> es !! i = Some e ->
  entry_at lp (p + zsum (map entry_len (take i es))) e.
Proof.
  revert p i. induction es as [|e' es IH]; intros p [|i]; try done; simpl.
  - intros [H _] [= <-]. by rewrite Z.add_0_r.
  - intros [_ H] Hi. rewrite Z.add_assoc. by apply IH.
Qed.

Lemma entries_end lp p es q : entries_at lp p es q -> q = p + zsum (map entry_len es).
Proof.
  revert p. induction es as [|e es IH]; intros p; simpl; [lia|]. intros [_ H]. apply IH in H. lia.
Qed.

Section wf.
Context (lp : list Z) (es : list (list Z)) (total : Z) (Hwf : lp_wf lp es total).

Lemma wf_at i e : es !! i = Some e -> entry_at lp (lp_off es i) e.
Proof. intros H. by eapply entries_lookup, H; apply wf_entries. Qed.

Lemma wf_valid i e : es !! i = Some e -> valid_payload e.
Proof. intros H. by destruct (wf_at i e H) as [? _]. Qed.

Lemma lp_off_total : lp_off es (length es) = total - 1.
Proof.
  unfold lp_off. rewrite take_ge by lia. symmetry. by eapply entries_end, wf_entries.
Qed.

Lemma lp_off_step i e : es !! i = Some e -> lp_off es i + 2 <= lp_off es (S i).
Proof.
  intros H. rewrite (lp_off_S _ _ _ H). pose proof (entry_len_bounds e (wf_valid i e H)). lia.
Qed.

Lemma lp_off_mono i j : (i <= j <= length es)%nat ->
  lp_off es i + 2 * Z.of_nat (j - i) <= lp_off es j.
Proof.
  intros [Hij Hj]. induction j as [|j IH].
  - replace i with O by lia. simpl. lia.
  - destruct (decide (i = S j)) as [->|]; [rewrite Nat.sub_diag; simpl; lia|].
    destruct (lookup_lt_is_Some_2 es j ltac:(lia)) as [e He].
    pose proof (lp_off_step j e He). specialize (IH ltac:(lia) ltac:(lia)). lia.
Qed.

Lemma lp_off_range i : (i <= length es)%nat -> LP_HDR_SIZE <= lp_off es i <= total - 1.
Proof.
  intros Hi. pose proof (lp_off_mono 0 i ltac:(lia)). pose proof (lp_off_mono i (length es) ltac:(lia)).
  rewrite lp_off_0 in *. rewrite lp_off_total in *. lia.
Qed.

Lemma wf_count : Z.of_nat (length es) < 2 ^ 31.
Proof.
  pose proof (lp_off_mono 0 (length es) ltac:(lia)). rewrite lp_off_total, lp_off_0 in H.
  unfold LP_HDR_SIZE in H. pose proof (wf_small _ _ _ Hwf). lia.
Qed.

(** The byte under a cursor is EOF exactly at the end. *)
Lemma rd_cursor i : (i <= length es)%nat ->
  exists b, rd lp (lp_off es i) = Ret b /\ (b =? LP_EOF) = bool_decide (i = length es).
Proof.
  intros Hi. destruct (decide (i = length es)) as [->|Hne].
  - exists LP_EOF. rewrite bool_decide_true by done. split; [|done].
    rewrite lp_off_total. apply wf_eof with (1 := Hwf).
  - destruct (lookup_lt_is_Some_2 es i ltac:(lia)) as [e He].
    destruct (entry_head _ _ _ (wf_at i e He)) as (b & Hb & _ & _ & Hb' & _).
    exists b. rewrite bool_decide_false by done. split; [done|]. by apply Z.eqb_neq.
Qed.

Lemma lpAssertValidEntry_wf i : (i <= length es)%nat ->
  lpAssertValidEntry lp total (lp_off es i) = Ret tt.
Proof.
  intros Hi. unfold lpAssertValidEntry. pose proof (lp_off_range i Hi).
  destruct (decide (i = length es)) as [->|Hne].
  - rewrite lpValidateNext_eof; [done| |lia]. rewrite lp_off_total. apply wf_eof with (1 := Hwf).
  - destruct (lookup_lt_is_Some_2 es i ltac:(lia)) as [e He].
    rewrite (lpValidateNext_entry _ _ _ (wf_at i e He)); [done|lia|].
    rewrite <- (lp_off_S _ _ _ He). apply lp_off_range. lia.
Qed.

Lemma lpBytes_wf : lpBytes lp = Ret total.
Proof. apply wf_total with (1 := Hwf). Qed.

Lemma lpSkip_wf i : (i < length es)%nat -> lpSkip lp (lp_off es i) = Ret (lp_off es (S i)).
Proof.
  intros Hi. destruct (lookup_lt_is_Some_2 es i ltac:(lia)) as [e He].
  rewrite (lpSkip_entry _ _ _ (wf_at i e He)). by rewrite (lp_off_S _ _ _ He).
Qed.

Lemma lpSkipPrev_wf i : (i < length es)%nat -> lpSkipPrev lp (lp_off es (S i)) = Ret (lp_off es i).
Proof.
  intros Hi. destruct (lookup_lt_is_Some_2 es i ltac:(lia)) as [e He].
  rewrite (lp_off_S _ _ _ He). apply (lpSkipPrev_entry _ _ _ (wf_at i e He)).
Qed.

Lemma lp_ptr_cursor i b : (b =? LP_EOF) = bool_decide (i = length es) -> (i <= length es)%nat ->
  (if b =? LP_EOF then Ret None else Ret (Some (lp_off es i))) = Ret (lp_ptr es i).
Proof.
  intros -> Hi. unfold lp_ptr.
  destruct (decide (i = length es)) as [->|].
  - rewrite bool_decide_true, decide_False by lia. done.
  - rewrite bool_decide_false, decide_True by lia. done.
Qed.

Lemma lpNext_wf i : (i < length es)%nat -> lpNext lp (lp_off es i) = Ret (lp_ptr es (S i)).
Proof.
  intros Hi. unfold lpNext. rewrite lpSkip_wf by done. cbn [mbind outcome_bind].
  destruct (rd_cursor (S i) ltac:(lia)) as (b & -> & Hb). cbn [mbind outcome_bind].
  rewrite lpBytes_wf. cbn [mbind outcome_bind]. rewrite lpAssertValidEntry_wf by lia.
  by apply lp_ptr_cursor.
Qed.

Lemma lpNextWithBytes_wf i :
  (i < length es)%nat -> lpNextWithBytes lp (lp_off es i) total = Ret (lp_ptr es (S i)).
Proof.
  intros Hi. unfold lpNextWithBytes. rewrite lpSkip_wf by done. cbn [mbind outcome_bind].
  destruct (rd_cursor (S i) ltac:(lia)) as (b & -> & Hb). cbn [mbind outcome_bind].
  rewrite lpAssertValidEntry_wf by lia. by apply lp_ptr_cursor.
Qed.

Lemma lpFirst_wf : lpFirst lp = Ret (lp_ptr es 0).
Proof.
  unfold lpFirst. rewrite <- (lp_off_0 es).
  destruct (rd_cursor 0 ltac:(lia)) as (b & -> & Hb). cbn [mbind outcome_bind].
  rewrite lpBytes_wf. cbn [mbind outcome_bind]. rewrite lpAssertValidEntry_wf by lia.
  apply lp_ptr_cursor; [done|lia].
Qed.

Lemma lp_off_hdr i : (i <= length es)%nat -> (lp_off es i =? LP_HDR_SIZE) = bool_decide (i = 0%nat).
Proof.
  intros Hi. pose proof (lp_off_mono 0 i ltac:(lia)). rewrite lp_off_0 in H.
  destruct (decide (i = 0%nat)) as [->|].
  - rewrite bool_decide_true, lp_off_0 by done. done.
  - rewrite bool_decide_false by done. apply Z.eqb_neq. lia.
Qed.

(** The element before a cursor. *)
Definition lp_prev (i : nat) : option Z :=
  match i with O => None | S i => Some (lp_off es i) end.

Lemma lpPrev_wf i : (i <= length es)%nat -> lpPrev lp (lp_off es i) = Ret (lp_prev i).
Proof.
  intros Hi. unfold lpPrev. rewrite lp_off_hdr by done. destruct i as [|i]; [done|].
  rewrite bool_decide_false by done. rewrite lpSkipPrev_wf by lia. cbn [mbind outcome_bind].
  rewrite lpBytes_wf. cbn [mbind outcome_bind]. by rewrite lpAssertValidEntry_wf by lia.
Qed.

Lemma lpLast_wf : lpLast lp = Ret (lp_prev (length es)).
Proof.
  unfold lpLast. rewrite (wf_total _ _ _ Hwf). cbn [mbind outcome_bind].
  rewrite <- lp_off_total. apply lpPrev_wf. lia.
Qed.

Lemma lpNextN_loop_wf n i validated : (i < length es)%nat ->
  exists validated', lpNextN_loop n lp total (lp_off es i) validated =
    Ret (lp_ptr es (i + n), validated').
Proof.
  revert i validated. induction n as [|n IH]; intros i validated Hi; simpl.
  - exists validated. unfold lp_ptr. rewrite decide_True, Nat.add_0_r by lia. done.
  - rewrite lpSkip_wf by done. cbn [mbind outcome_bind].
    pose proof (lp_off_range (S i) ltac:(lia)) as Hr. unfold LP_HDR_SIZE in *.
    assert (forall (k : bool -> outcome (option Z * bool)),
      ((if total <=? lp_off es (S i) + 5 then _ ← lpAssertValidEntry lp total (lp_off es (S i)); Ret true
        else _ ← c_assert ((6 <=? lp_off es (S i)) && (lp_off es (S i) <? total)); Ret false) ≫= k)
      = k (total <=? lp_off es (S i) + 5)) as Hk.
    { intros k. rewrite lpAssertValidEntry_wf by lia. decide_tests. by case_match. }
    rewrite Hk. clear Hk.
    destruct (rd_cursor (S i) ltac:(lia)) as (b & -> & Hb). cbn [mbind outcome_bind]. rewrite Hb.
    rewrite <- Nat.add_succ_comm. destruct (decide (S i = length es)) as [E|E].
    + rewrite bool_decide_true by done. eexists. unfold lp_ptr. by rewrite decide_False by lia.
    + rewrite bool_decide_false by done. apply IH. lia.
Qed.

Lemma lpNextN_wf i n : (i < length es)%nat -> 0 <= n ->
  lpNextN lp (Some (lp_off es i)) n = Ret (lp_ptr es (i + Z.to_nat n)).
Proof.
  intros Hi Hn. unfold lpNextN. rewrite lpBytes_wf. cbn [mbind outcome_bind].
  destruct (lpNextN_loop_wf (Z.to_nat n) i true Hi) as [v ->]. cbn [mbind outcome_bind].
  unfold lp_ptr. case_decide; [|done]. destruct v; [done|]. by rewrite lpAssertValidEntry_wf by lia.
Qed.

Lemma lpPrevN_loop_wf n i validated : (i < length es)%nat ->
  exists validated', lpPrevN_loop n lp total (lp_off es i) validated =
    Ret (if decide (n <= i)%nat then Some (lp_off es (i - n)) else None, validated').
Proof.
  revert i validated. induction n as [|n IH]; intros i validated Hi; cbn [lpPrevN_loop].
  - exists validated. rewrite decide_True, Nat.sub_0_r by lia. done.
  - rewrite lp_off_hdr by lia. destruct i as [|i]; [by exists validated|].
    rewrite bool_decide_false by done. rewrite lpSkipPrev_wf by lia. cbn [mbind outcome_bind].
    pose proof (lp_off_range i ltac:(lia)). unfold LP_HDR_SIZE in *. decide_tests.
    cbn [c_assert mbind outcome_bind]. destruct (IH i false ltac:(lia)) as [v ->].
    exists v. do 2 f_equal. destruct (decide (n <= i)%nat), (decide (S n <= S i)%nat); try lia; done.
Qed.

Lemma lpPrevN_wf i n : (i < length es)%nat -> 0 <= n ->
  lpPrevN lp (Some (lp_off es i)) n =
  Ret (if decide (Z.to_nat n <= i)%nat then Some (lp_off es (i - Z.to_nat n)) else None).
Proof.
  intros Hi Hn. unfold lpPrevN. rewrite lpBytes_wf. cbn [mbind outcome_bind].
  destruct (lpPrevN_loop_wf (Z.to_nat n) i true Hi) as [v ->]. cbn [mbind outcome_bind].
  case_decide; [|done]. destruct v; [done|]. by rewrite lpAssertValidEntry_wf by lia.
Qed.

(** The pointer for a signed index. *)
Definition lp_index (index : Z) : option Z :=
  let i := if index <? 0 then Zlen es + index else index in
  if 0 <=? i then lp_ptr es (Z.to_nat i) else None.

Lemma lpSeek_forward i : 0 <= i ->
  (p ← lpFirst lp; lpNextN lp p i) = Ret (lp_ptr es (Z.to_nat i)).
Proof.
  intros Hi. rewrite lpFirst_wf. cbn [mbind outcome_bind]. unfold lp_ptr at 1. case_decide.
  - rewrite lpNextN_wf by lia. done.
  - unfold lpNextN. rewrite lpBytes_wf. cbn [mbind outcome_bind]. unfold lp_ptr.
    by rewrite decide_False by lia.
Qed.

Lemma lpSeek_backward k : 0 <= k ->
  (p ← lpLast lp; lpPrevN lp p k) =
  Ret (if k <? Zlen es then lp_ptr es (Z.to_nat (Zlen es - k - 1)) else None).
Proof.
  intros Hk. rewrite lpLast_wf. cbn [mbind outcome_bind]. unfold lp_prev, Zlen.
  destruct (length es) as [|n] eqn:El.
  - unfold lpPrevN. rewrite lpBytes_wf. cbn [mbind outcome_bind]. by decide_tests.
  - rewrite lpPrevN_wf by lia. unfold lp_ptr. destruct (Z.ltb_spec k (Z.of_nat (S n))).
    + rewrite !decide_True by lia. do 3 f_equal. lia.
    + by rewrite decide_False by lia.
Qed.

Lemma lpSeek_wf index : lpSeek lp index = Ret (lp_index index).
Proof.
  unfold lpSeek, lp_index. destruct (wf_num _ _ _ Hwf) as (num & Hn & Hnum). rewrite Hn.
  cbn [mbind outcome_bind]. cbv zeta. pose proof (Zlen_nonneg es).
  destruct (Z.eqb_spec num LP_HDR_NUMELE_UNKNOWN) as [E|E]; cbn [negb].
  - destruct (Z.ltb_spec index 0).
    + rewrite lpSeek_backward by lia. f_equal.
      destruct (Z.ltb_spec (- index - 1) (Zlen es)), (Z.leb_spec 0 (Zlen es + index)); try lia; [|done].
      do 2 f_equal. lia.
    + decide_tests. apply lpSeek_forward. lia.
  - destruct Hnum as [?|Hnum]; [done|]. rewrite Hnum.
    set (i := if index <? 0 then Zlen es + index else index).
    destruct (Z.ltb_spec i 0); [by decide_tests|]. destruct (Z.leb_spec 0 i); [|lia].
    destruct (Z.leb_spec (Zlen es) i).
    { unfold lp_ptr, Zlen in *. by rewrite decide_False by lia. }
    destruct (Z.ltb_spec (Zlen es / 2) i).
    + rewrite lpSeek_backward by lia. f_equal. decide_tests. do 2 f_equal. lia.
    + apply lpSeek_forward. lia.
Qed.

Lemma lpLength_loop_wf fuel i : (i <= length es)%nat -> (length es - i <= fuel)%nat ->
  lpLength_loop fuel lp (lp_ptr es i) (Z.of_nat i) = Ret (Zlen es).
Proof.
  pose proof wf_count. revert i. induction fuel as [|fuel IH]; intros i Hi Hf; unfold lp_ptr.
  - rewrite decide_False by lia. simpl. f_equal. unfold Zlen. lia.
  - case_decide; simpl; [|f_equal; unfold Zlen; lia]. rewrite lpNext_wf by lia.
    cbn [mbind outcome_bind]. rewrite wrapu_id by lia.
    replace (Z.of_nat i + 1) with (Z.of_nat (S i)) by lia. apply IH; lia.
Qed.

Lemma wf_fuel : (length es <= length lp)%nat.
Proof.
  pose proof (lp_off_mono 0 (length es) ltac:(lia)). rewrite lp_off_total, lp_off_0 in H.
  pose proof (wf_fits _ _ _ Hwf). unfold Zlen, LP_HDR_SIZE in *. lia.
Qed.

Lemma lpLength_count : exists lp', lpLength lp = Ret (lp', Zlen es) /\
  (lp' = lp \/ lpSetNumElements lp (Zlen es) = Ret lp' /\ Zlen es < LP_HDR_NUMELE_UNKNOWN).
Proof.
  unfold lpLength. destruct (wf_num _ _ _ Hwf) as (num & Hn & Hnum). rewrite Hn.
  cbn [mbind outcome_bind]. destruct (Z.eqb_spec num LP_HDR_NUMELE_UNKNOWN) as [E|E]; cbn [negb].
  - rewrite lpFirst_wf. cbn [mbind outcome_bind].
    pose proof (lpLength_loop_wf (length lp) 0 ltac:(lia) ltac:(pose proof wf_fuel; lia)) as El.
    change (Z.of_nat 0) with 0 in El. rewrite El. cbn [mbind outcome_bind].
    destruct (Z.ltb_spec (Zlen es) LP_HDR_NUMELE_UNKNOWN); [|by eauto].
    assert (exists lp', lpSetNumElements lp (Zlen es) = Ret lp') as [lp' Hlp'].
    { pose proof (lp_off_range 0 ltac:(lia)). pose proof (wf_fits _ _ _ Hwf). rewrite lp_off_0 in *.
      unfold lpSetNumElements, LP_HDR_SIZE in *. rewrite wr_ok by lia. cbn [mbind outcome_bind].
      rewrite wr_ok by (rewrite Zlen_insert; lia). by eauto. }
    exists lp'. rewrite Hlp'. by eauto.
  - destruct Hnum as [?|Hnum]; [done|]. exists lp. split; [congruence|by left].
Qed.
End wf.

(** *** Values of elements *)

(** The string an element stands for. *)
Definition lp_value (e : list Z) : list Z :=
  match lpGet e 0 None with
  | Ret (GotPtr p n) => take (Z.to_nat n) (drop (Z.to_nat p) e)
  | Ret (GotInt v) => dec v
  | _ => []
  end.

Definition got_shift (p : Z) (g : lpGot) : lpGot :=
  match g with GotPtr q n => GotPtr (p + q) n | g => g end.

(** What a decoder returns for an element of [l] bytes. *)
Definition got_ok (l : Z) (g : lpGot) : Prop :=
  match g with
  | GotPtr q n => 0 <= q /\ 0 <= n /\ q + n = l
  | GotInt v => INT64_MIN <= v <= INT64_MAX
  | GotBuf _ _ => False
  end.

Lemma lpGetInteger_ok u ns nm : 0 <= u < 2 ^ 64 ->
  exists v, lpGetInteger u ns nm None = Ret (GotInt v) /\ INT64_MIN <= v <= INT64_MAX.
Proof.
  intros Hu. unfold lpGetInteger, INT64_MIN, INT64_MAX. cbv zeta. eexists. split; [done|].
  pose proof (wraps_range 64 u ltac:(lia)). pose proof (wraps_range 64 (u64 (nm - u)) ltac:(lia)).
  change (64 - 1) with 63 in *. destruct (ns <=? u); lia.
Qed.

(** Decoding inside a larger block. *)
Lemma lpGetWithSize_shift lp p e old g es : Forall is_byte e ->
  (forall j x, rd e j = Ret x -> rd lp (p + j) = Ret x) ->
  lpGetWithSize e 0 None old = Ret (g, es) ->
  lpGetWithSize lp p None old = Ret (got_shift p g, es).
Proof.
  intros He Hrd. unfold lpGetWithSize, LP_ENCODING_6BIT_STR_LEN,
    LP_ENCODING_12BIT_STR_LEN, LP_ENCODING_32BIT_STR_LEN.
  assert (forall j {B} (f f' : Z -> outcome B) r r', (forall x, f x = Ret r -> f' x = Ret r') ->
    (rd e (0 + j) ≫= f) = Ret r -> (rd lp (p + j) ≫= f') = Ret r') as Hstep.
  { intros j B f f' r r' Hf. rewrite Z.add_0_l. destruct (rd e j) eqn:E; try done.
    rewrite (Hrd _ _ E). apply Hf. }
  pose proof (Hstep 0) as Hstep0. rewrite !Z.add_0_r in Hstep0.
  assert (forall u ns nm (k : Z), (g0 ← lpGetInteger u ns nm None; Ret (g0, k)) = Ret (g, es) ->
    (g0 ← lpGetInteger u ns nm None; Ret (g0, k)) = Ret (got_shift p g, es)) as Hint.
  { intros u ns nm k. unfold lpGetInteger. cbv zeta. cbn [mbind outcome_bind]. by intros [= <- <-]. }
  apply Hstep0. intros b.
  repeat (case_match; [rewrite ?bind_assoc_outcome;
    first [apply Hint | apply Hstep0; intros ?; rewrite ?bind_assoc_outcome | idtac];
    repeat (rewrite ?bind_assoc_outcome; apply Hstep; intros ?);
    try apply Hint; cbn [mbind outcome_bind]; intros [= <- <-]; cbn [got_shift];
    rewrite ?Z.add_0_l; done|]).
  apply Hint.
Qed.

Ltac bytes_tac := repeat (apply Forall_cons_2; [assumption|]); apply Forall_nil_2.

Lemma lpGetWithSize_valid e old : valid_payload e ->
  exists g, lpGetWithSize e 0 None old = Ret (g, entry_len e) /\ got_ok (Zlen e) g.
Proof.
  intros Hv. destruct (valid_payload_head e Hv) as (b & Hb & Hbb & Hne & Hp & Hh).
  destruct Hv as (He & Hl & Hs & _).
  enough (exists g es, lpGetWithSize e 0 None old = Ret (g, es) /\ got_ok (Zlen e) g) as (g & es & Hg & Hok).
  { exists g. split; [|done]. rewrite Hg. do 2 f_equal.
    apply (lpGetWithSize_entry_size e 0 b (Zlen e) None old g es); try done.
    intros ->. by destruct Hh as [_ Hh]. }
  assert (exists x1, 1 < Zlen e -> rd e (0 + 1) = Ret x1) as [x1 H1].
  { destruct (Z.lt_ge_cases 1 (Zlen e)) as [Hlt|]; [|by exists 0; lia].
    destruct (rd_ok e 1 ltac:(lia)) as [x Hx]. exists x. done. }
  revert Hs. unfold lpCurrentEncodedSizeUnsafe, lpGetWithSize, LP_ENCODING_6BIT_STR_LEN,
    LP_ENCODING_12BIT_STR_LEN. rewrite Hb. cbn [mbind outcome_bind].
  assert (forall u ns nm (k : Z), 0 <= u < 2 ^ 64 ->
    exists g es, (g ← lpGetInteger u ns nm None; Ret (g, k)) = Ret (g, es) /\ got_ok (Zlen e) g) as Hint.
  { intros u ns nm k Hu. destruct (lpGetInteger_ok u ns nm Hu) as (v & -> & Hv). eexists _, _. by split. }
  assert (forall j, 0 < j < Zlen e -> exists x, rd e (0 + j) = Ret x /\ is_byte x) as Hrd.
  { intros j Hj. rewrite Z.add_0_l. destruct (rd_ok e j ltac:(lia)) as [x Hx]. exists x.
    split; [done|]. by eapply rd_is_byte. }
  assert (forall bs, Forall is_byte bs -> (length bs <= 8)%nat -> 0 <= le_value bs < 2 ^ 64) as Hle.
  { intros bs Hbs Hl8. split; [by apply le_value_nonneg|].
    rewrite <- (le_bytes_value bs Hbs), le_value_bytes.
    eapply Z.lt_le_trans; [apply Z.mod_pos_bound; lia|]. apply Z.pow_le_mono_r; lia. }
  rewrite is_7bit, is_6bit_str, is_13bit, is_12bit_str, is_32bit_str, is_16bit, is_24bit,
    is_32bit, is_64bit by done.
  destruct (Z.ltb_spec b 128).
  { intros _. apply Hint. change (Z.land b 0x7f) with (Z.land b 127). rewrite land_127. dlia. }
  destruct (Z.leb_spec 128 b), (Z.ltb_spec b 192); try lia; cbn [andb].
  { rewrite (Z.land_ones _ 6) by lia. intros [= Hs]. eexists _, _. split; [done|]. simpl. dlia. }
  destruct (Z.leb_spec 192 b), (Z.ltb_spec b 224); try lia; cbn [andb].
  { intros [= Hs]. destruct (Hrd 1 ltac:(lia)) as (b1 & -> & Hb1). cbn [mbind outcome_bind]. apply Hint.
    unfold is_byte in Hb1. rewrite Z.lor_comm, (Z.land_ones _ 5), lor_add by dlia. pow2. dlia. }
  destruct (Z.eqb_spec b 241).
  { intros [= Hs]. destruct (Hrd 1 ltac:(lia)) as (b1 & -> & Hb1), (Hrd 2 ltac:(lia)) as (b2 & -> & Hb2).
    cbn [mbind outcome_bind]. apply Hint. rewrite lor2_value by done. apply Hle; [bytes_tac|simpl; lia]. }
  destruct (Z.eqb_spec b 242).
  { intros [= Hs]. destruct (Hrd 1 ltac:(lia)) as (b1 & -> & Hb1), (Hrd 2 ltac:(lia)) as (b2 & -> & Hb2),
      (Hrd 3 ltac:(lia)) as (b3 & -> & Hb3).
    cbn [mbind outcome_bind]. apply Hint. rewrite lor3_value by done. apply Hle; [bytes_tac|simpl; lia]. }
  destruct (Z.eqb_spec b 243).
  { intros [= Hs]. destruct (Hrd 1 ltac:(lia)) as (b1 & -> & Hb1), (Hrd 2 ltac:(lia)) as (b2 & -> & Hb2),
      (Hrd 3 ltac:(lia)) as (b3 & -> & Hb3), (Hrd 4 ltac:(lia)) as (b4 & -> & Hb4).
    cbn [mbind outcome_bind]. apply Hint. rewrite lor4_value by done. apply Hle; [bytes_tac|simpl; lia]. }
  destruct (Z.eqb_spec b 244).
  { intros [= Hs]. destruct (Hrd 1 ltac:(lia)) as (b1 & -> & Hb1), (Hrd 2 ltac:(lia)) as (b2 & -> & Hb2),
      (Hrd 3 ltac:(lia)) as (b3 & -> & Hb3), (Hrd 4 ltac:(lia)) as (b4 & -> & Hb4),
      (Hrd 5 ltac:(lia)) as (b5 & -> & Hb5), (Hrd 6 ltac:(lia)) as (b6 & -> & Hb6),
      (Hrd 7 ltac:(lia)) as (b7 & -> & Hb7), (Hrd 8 ltac:(lia)) as (b8 & -> & Hb8).
    cbn [mbind outcome_bind]. apply Hint. rewrite lor8_value by done. apply Hle; [bytes_tac|simpl; lia]. }
  destruct (Z.leb_spec 224 b), (Z.ltb_spec b 240); try lia; cbn [andb].
  { unfold lpCurrentEncodedSizeBytes in Hh.
    rewrite is_7bit, is_6bit_str, is_13bit, is_12bit_str, is_32bit_str, is_16bit, is_24bit,
      is_32bit, is_64bit in Hh by done.
    replace (b <? 128) with false in Hh by lia. replace (b <? 192) with false in Hh by lia.
    replace (b <? 224) with false in Hh by lia. rewrite !andb_false_r in Hh.
    replace (b =? 241) with false in Hh by lia. replace (b =? 242) with false in Hh by lia.
    replace (b =? 243) with false in Hh by lia. replace (b =? 244) with false in Hh by lia.
    replace ((224 <=? b) && (b <? 240)) with true in Hh by lia.
    rewrite H1 by lia. cbn [mbind outcome_bind].
    destruct (Hrd 1 ltac:(lia)) as (b1 & Hr1 & Hb1). rewrite H1 in Hr1 by lia. injection Hr1 as ->.
    unfold is_byte in Hb1.
    rewrite Z.lor_comm, (Z.land_ones _ 4), lor_add by dlia. pow2. intros [= Hs].
    eexists _, _. split; [done|]. simpl. dlia. }
  destruct (Z.eqb_spec b 240) as [E|]; [|destruct (Z.eqb_spec b LP_EOF); [done|intros [= Hs]; lia]].
  destruct Hh as [_ Hh]. rewrite E in Hh. change (lpCurrentEncodedSizeBytes 240) with 5 in Hh.
  unfold LP_ENCODING_32BIT_STR_LEN.
  destruct (Hrd 1 ltac:(lia)) as (b1 & -> & Hb1), (Hrd 2 ltac:(lia)) as (b2 & -> & Hb2),
      (Hrd 3 ltac:(lia)) as (b3 & -> & Hb3), (Hrd 4 ltac:(lia)) as (b4 & -> & Hb4).
  cbn [mbind outcome_bind]. rewrite lor4_value by done. set (len := le_value _).
  assert (0 <= len < 2 ^ 32). { unfold len, is_byte in *. simpl. lia. }
  intros [= Hs]. unfold wrapu in Hs. eexists _, _. split; [done|]. simpl. dlia.
Qed.

Lemma entry_get lp p e old : entry_at lp p e ->
  exists g, lpGetWithSize lp p None old = Ret (g, entry_len e) /\
  lpGet lp p None = Ret g /\
  match g with
  | GotPtr q n => rdn lp q n = Ret (lp_value e) /\ n = Zlen (lp_value e)
  | GotInt v => lp_value e = dec v /\ INT64_MIN <= v <= INT64_MAX
  | GotBuf _ _ => False
  end.
Proof.
  intros Hat. pose proof Hat as (Hv & Hr & _). destruct (lpGetWithSize_valid e old Hv) as (g & Hg & Hok).
  pose proof Hv as (He & _). pose proof (rdn_length _ _ _ _ Hr) as (_ & Hp & Hple).
  assert (forall j x, rd e j = Ret x -> rd lp (p + j) = Ret x) as Hrd.
  { intros j x Hj. pose proof (rd_Ret_inv _ _ _ Hj) as [? _]. rewrite <- Hj. by apply (rd_of_rdn _ _ _ _ _ Hr). }
  pose proof (lpGetWithSize_shift lp p e old g _ He Hrd Hg) as Hgl.
  exists (got_shift p g). split; [done|].
  assert (lpGet e 0 None = Ret g) as Hge.
  { unfold lpGet. rewrite (lpGetWithBuf_eq _ _ _ old), Hg; [done|].
    intros b Hb. by eapply rd_is_byte. }
  unfold lp_value. rewrite Hge. split.
  { unfold lpGet. rewrite (lpGetWithBuf_eq _ _ _ old), Hgl; [done|].
    intros b. destruct (entry_head lp p e) as (b' & -> & _ & Hb' & _); [done|]. by intros [= <-]. }
  destruct g as [q n|buf n|v]; simpl in *; [|done|done].
  destruct Hok as (Hq & Hn & Hl). rewrite (rdn_sub _ _ _ _ _ _ Hr) by lia. rewrite rdn_ok by lia.
  split; [done|]. unfold Zlen in *. rewrite length_take, length_drop. lia.
Qed.

(** ** Search *)

(** The first element equal to [s] among those at distance [k], [k+skip+1], ... *)
Fixpoint find_skip (s : list Z) (skip k : nat) (es : list (list Z)) : option nat :=
  match es with
  | [] => None
  | e :: es =>
    match k with
    | O => if decide (lp_value e = s) then Some O else S <$> find_skip s skip skip es
    | S k => S <$> find_skip s skip k es
    end
  end.

(** The integer cache of [lpFindArg] is in one of its three states. *)
Definition find_arg_ok (s : list Z) (arg : lpFindArg) : Prop :=
  arg_s arg = s /\
  (vencoding arg = 0 \/
   vencoding arg = UCHAR_MAX /\ lpStringToInt64 s = None \/
   vencoding arg = 1 /\ lpStringToInt64 s = Some (vll arg)).

Lemma lpStringToInt64_dec v s : INT64_MIN <= v <= INT64_MAX ->
  lpStringToInt64 s = Some v <-> dec v = s.
Proof.
  intros Hv. split.
  - intros H. by apply lpStringToInt64_sound in H as [-> _].
  - intros <-. rewrite lpStringToInt64_eq. by apply string2ll_dec.
Qed.

Lemma lpStringToInt64_len s v : lpStringToInt64 s = Some v -> 0 < Zlen s < 32.
Proof.
  intros H. apply lpStringToInt64_sound in H as [-> Hv].
  pose proof (dec_length v Hv). unfold LONG_STR_SIZE in *. lia.
Qed.

Lemma lpFindCmp_int lp p arg s v : find_arg_ok s arg -> INT64_MIN <= v <= INT64_MAX ->
  exists c arg', lpFindCmp lp p arg None v = Ret (c, arg') /\ find_arg_ok s arg' /\
    (c =? 0) = bool_decide (dec v = s).
Proof.
  intros [Hs Henc] Hv. unfold lpFindCmp. cbv zeta. rewrite Hs.
  set (arg' := if vencoding arg =? 0 then _ else arg).
  assert (find_arg_ok s arg' /\ vencoding arg' <> 0) as [Hok' Hne].
  { unfold arg'. destruct Henc as [H0|[[H1 H2]|[H1 H2]]].
    - rewrite H0. cbn [Z.eqb].
      destruct ((32 <=? Zlen s) || (Zlen s =? 0)) eqn:El.
      + split; [|done]. split; [done|]. right. left. split; [done|].
        destruct (lpStringToInt64 s) eqn:E; [|done]. apply lpStringToInt64_len in E. lia.
      + destruct (lpStringToInt64 s) eqn:E; (split; [|done]); (split; [done|]); right;
          [right|left]; done.
    - rewrite H1. cbn. split; [split; [done|]; right; left; done|]. by rewrite H1.
    - rewrite H1. cbn. split; [split; [done|]; right; right; done|]. by rewrite H1. }
  clearbody arg'. destruct Hok' as [Hs' Henc'].
  exists (if negb (vencoding arg' =? UCHAR_MAX) && (v =? vll arg') then 0 else 1), arg'.
  split; [by destruct (_ && _)|]. split; [done|].
  destruct Henc' as [H0|[[H1 H2]|[H1 H2]]]; [done|..]; rewrite H1; cbn.
  - rewrite bool_decide_false; [done|]. intros E. apply lpStringToInt64_dec in E; [|done]. congruence.
  - destruct (Z.eqb_spec v (vll arg')) as [->|Hn].
    + rewrite bool_decide_true; [done|]. by apply lpStringToInt64_sound in H2 as [-> _].
    + rewrite bool_decide_false; [done|]. intros E. apply lpStringToInt64_dec in E; [|done]. congruence.
Qed.

Lemma lpFindCmp_str lp p arg s q bs : find_arg_ok s arg -> rdn lp q (Zlen bs) = Ret bs ->
  exists c, lpFindCmp lp p arg (Some q) (Zlen bs) = Ret (c, arg) /\ (c =? 0) = bool_decide (bs = s).
Proof.
  intros [Hs _] Hr. unfold lpFindCmp. cbv zeta. rewrite Hs.
  destruct (Z.eqb_spec (Zlen bs) (Zlen s)) as [E|E].
  - rewrite Hr. cbn [mbind outcome_bind]. case_decide as Hd.
    + exists 0. by rewrite bool_decide_true by done.
    + exists 1. rewrite bool_decide_false; [done|]. by intros ->.
  - exists 1. rewrite bool_decide_false; [done|]. by intros ->.
Qed.

Section lpfind.
Context (lp : list Z) (es : list (list Z)) (total : Z) (Hwf : lp_wf lp es total).
Context (s : list Z) (skip : nat) (Hskip : Z.of_nat skip < 2 ^ 31).

Lemma lpFind_loop_wf fuel i k arg entry_size : (i < length es)%nat ->
  (length es - i <= fuel)%nat -> Z.of_nat k < 2 ^ 31 -> find_arg_ok s arg ->
  exists arg', lpFind_loop lpFindCmp fuel lp total (lp_off es i) (Z.of_nat k) entry_size
      (Z.of_nat skip) arg =
    Ret ((fun j => lp_off es (i + j)) <$> find_skip s skip k (drop i es), arg').
Proof.
  revert i k arg entry_size. induction fuel as [|fuel IH]; intros i k arg old Hi Hf Hk Harg; [lia|].
  destruct (lookup_lt_is_Some_2 es i Hi) as [e He]. pose proof (wf_at _ _ _ Hwf i e He) as Hat.
  rewrite (drop_S _ _ _ He). cbn [find_skip lpFind_loop].
  pose proof (lp_off_range _ _ _ Hwf i ltac:(lia)) as Hr0.
  pose proof (lp_off_range _ _ _ Hwf (S i) ltac:(lia)) as Hr1.
  set (tail := fun (k' : nat) (arg' : lpFindArg) (es' : Z) =>
    _ ← (if total <=? lp_off es (S i) + 8 then lpAssertValidEntry lp total (lp_off es (S i))
         else c_assert ((LP_HDR_SIZE <=? lp_off es (S i)) && (lp_off es (S i) <? total)));
    b ← rd lp (lp_off es (S i));
    if b =? LP_EOF then Ret (None, arg') else
    lpFind_loop lpFindCmp fuel lp total (lp_off es (S i)) (Z.of_nat k') es' (Z.of_nat skip) arg').
  assert (forall k' arg' es', Z.of_nat k' < 2 ^ 31 -> find_arg_ok s arg' -> exists arg'',
    tail k' arg' es' =
    Ret ((fun j => lp_off es (i + j)) <$> (S <$> find_skip s skip k' (drop (S i) es)), arg'')) as Htail.
  { intros k' arg' es' Hk' Harg'. unfold tail.
    rewrite lpAssertValidEntry_wf with (1 := Hwf) by lia.
    replace (if total <=? lp_off es (S i) + 8 then Ret tt else _) with (Ret tt)
      by (destruct (_ <=? _); [done|unfold LP_HDR_SIZE in *; by decide_tests]).
    cbn [mbind outcome_bind]. destruct (rd_cursor _ _ _ Hwf (S i) ltac:(lia)) as (b & -> & Hb).
    cbn [mbind outcome_bind]. rewrite Hb. destruct (decide (S i = length es)) as [E|E].
    - rewrite bool_decide_true by done. exists arg'. rewrite drop_ge by lia. done.
    - rewrite bool_decide_false by done.
      destruct (IH (S i) k' arg' es' ltac:(lia) ltac:(lia) Hk' Harg') as [arg'' ->].
      exists arg''. destruct (find_skip _ _ _ _); [|done]. simpl. do 4 f_equal. lia. }
  destruct k as [|k].
  - cbn [Z.of_nat Z.eqb]. destruct (entry_get lp _ e old Hat) as (g & -> & _ & Hg).
    cbn [mbind outcome_bind]. rewrite <- (lp_off_S _ _ _ He).
    assert (exists c arg', lpFindCmp lp (lp_off es i) arg
      (match g with GotPtr v _ => Some v | _ => None end)
      (match g with GotPtr _ n | GotBuf _ n | GotInt n => n end) = Ret (c, arg') /\
      find_arg_ok s arg' /\ (c =? 0) = bool_decide (lp_value e = s)) as (c & arg' & Hc & Harg' & Hc0).
    { destruct g as [q n|buf n|v]; [|done|].
      - destruct Hg as [Hg ->]. destruct (lpFindCmp_str lp (lp_off es i) arg s q _ Harg Hg) as (c & ? & ?).
        by exists c, arg.
      - destruct Hg as [-> Hv]. by apply lpFindCmp_int. }
    assert (match (match g with GotPtr v _ => Some v | _ => None end) with
      | Some _ => c_assert ((LP_HDR_SIZE <=? lp_off es i) && (lp_off es (S i) <? total))
      | None => Ret tt end = Ret tt) as ->.
    { unfold LP_HDR_SIZE in *. decide_tests. by destruct g. }
    cbn [mbind outcome_bind]. rewrite Hc. cbn [mbind outcome_bind]. rewrite Hc0.
    case_decide as Hd.
    + rewrite bool_decide_true by done. exists arg'. simpl. by rewrite Nat.add_0_r.
    + rewrite bool_decide_false by done. cbn [mbind outcome_bind].
      rewrite wraps_id by lia. by apply Htail.
  - destruct (Z.eqb_spec (Z.of_nat (S k)) 0); [lia|]. rewrite lpSkip_wf with (1 := Hwf) by lia.
    cbn [mbind outcome_bind]. replace (s32 (Z.of_nat (S k) - 1)) with (Z.of_nat k)
      by (rewrite wraps_id by lia; lia).
    apply Htail; [lia|done].
Qed.

Lemma lpFind_wf i p : (i < length es)%nat -> p = Some (lp_off es i) \/ p = None /\ i = O ->
  lpFind lp p s (Z.of_nat skip) =
  Ret ((fun j => lp_off es (i + j)) <$> find_skip s skip 0 (drop i es)).
Proof.
  intros Hi Hp. unfold lpFind, lpFindCbInternal. rewrite lpBytes_wf with (1 := Hwf).
  cbn [mbind outcome_bind].
  assert ((match p with None => lpFirst lp | Some p => Ret (Some p) end) = Ret (Some (lp_off es i))) as ->.
  { destruct Hp as [->|[-> ->]]; [done|]. rewrite lpFirst_wf with (1 := Hwf).
    unfold lp_ptr. by rewrite decide_True by lia. }
  cbn [mbind outcome_bind]. pose proof (wf_fuel _ _ _ Hwf).
  destruct (lpFind_loop_wf (length lp) i 0 {| arg_s := s; vencoding := 0; vll := 0 |} 123456789
    Hi ltac:(lia) ltac:(lia) ltac:(split; [done|by left])) as [arg' Ha].
  change (Z.of_nat 0) with 0 in Ha. rewrite Ha. done.
Qed.

Lemma lpFind_empty : es = [] -> lpFind lp None s (Z.of_nat skip) = Ret None.
Proof.
  intros E. unfold lpFind, lpFindCbInternal. rewrite lpBytes_wf with (1 := Hwf).
  cbn [mbind outcome_bind]. rewrite lpFirst_wf with (1 := Hwf). by rewrite E.
Qed.
End lpfind.

(** ** Validation *)

Lemma lpGetTotalBytes_range lp total : Forall is_byte lp ->
  lpGetTotalBytes lp = Ret total -> 0 <= total < 2 ^ 32.
Proof.
  intros Hb. unfold lpGetTotalBytes.
  destruct (rd lp 0) as [b0| | |] eqn:E0; try done. destruct (rd lp 1) as [b1| | |] eqn:E1; try done.
  destruct (rd lp 2) as [b2| | |] eqn:E2; try done. destruct (rd lp 3) as [b3| | |] eqn:E3; try done.
  cbn [mbind outcome_bind]. intros [= <-].
  assert (is_byte b0 /\ is_byte b1 /\ is_byte b2 /\ is_byte b3) as (Hb0 & Hb1 & Hb2 & Hb3).
  { repeat split; eapply rd_is_byte; done. }
  rewrite lor4_value by done. unfold is_byte in *. simpl. lia.
Qed.

Section integrity.
Context {U : Type} (cb : option (Z -> Z -> U -> bool * U)).
Context (lp : list Z) (Hlp : Forall is_byte lp).

(** Every run of the loop returns; a run that accepts has parsed entries up to an EOF byte. *)
Lemma lpValidate_loop_sound fuel p count u numele : Zlen lp < 2 ^ 32 ->
  LP_HDR_SIZE <= p <= Zlen lp - 1 -> (Z.to_nat (Zlen lp - p) <= fuel)%nat -> 0 <= count <= p ->
  exists r u', lpValidate_loop cb fuel lp (Zlen lp) numele (Some p) count u = Ret (r, u') /\
    forall q c, r = Some (q, c) -> exists es q', q = Some q' /\ entries_at lp p es q' /\
      rd lp q' = Ret LP_EOF /\ c = count + Zlen es.
Proof.
  intros Hsz. revert p count u. induction fuel as [|fuel IH]; intros p count u Hp Hf Hc; [lia|].
  cbn [lpValidate_loop]. unfold LP_HDR_SIZE in *. destruct (rd_ok lp p ltac:(lia)) as [b Hb].
  rewrite Hb. cbn [mbind outcome_bind]. destruct (Z.eqb_spec b LP_EOF) as [->|Hne].
  { eexists _, _. split; [done|]. intros q c [= <- <-]. exists [], p. split; [done|].
    split; [done|]. split; [done|]. unfold Zlen. simpl. lia. }
  destruct (lpValidateNext_inv lp p (Zlen lp) b Hlp ltac:(lia) ltac:(unfold LP_HDR_SIZE; lia) Hb Hne)
    as (ok & q & -> & Hok). cbn [mbind outcome_bind].
  destruct ok; cbn [negb]; [|eexists _, _; split; [done|discriminate]].
  destruct (Hok eq_refl) as (e & Hat & -> & Hle). clear Hok.
  pose proof (entry_len_bounds e (proj1 Hat)) as Hel.
  destruct (match cb with Some cb => cb p numele u | None => (true, u) end) as [ok u1].
  destruct ok; cbn [negb]; [|eexists _, _; split; [done|discriminate]].
  rewrite wrapu_id by lia.
  destruct (IH (p + entry_len e) (count + 1) u1 ltac:(lia) ltac:(lia) ltac:(lia)) as (r & u' & Hr & Hs).
  exists r, u'. split; [done|]. intros q c Hq.
  destruct (Hs q c Hq) as (es & q' & -> & Hes & He & ->).
  exists (e :: es), q'. split; [done|]. split; [by split|]. split; [done|]. zlen. lia.
Qed.

(** Without a callback every well-formed block is accepted. *)
Lemma lpValidate_loop_complete es fuel i u numele : lp_wf lp es (Zlen lp) -> cb = None ->
  (i <= length es)%nat -> (length es - i <= fuel)%nat ->
  lpValidate_loop cb fuel lp (Zlen lp) numele (Some (lp_off es i)) (Z.of_nat i) u =
  Ret (Some (Some (Zlen lp - 1), Zlen es), u).
Proof.
  intros Hwf ->. pose proof (wf_count _ _ _ Hwf).
  revert i u. induction fuel as [|fuel IH]; intros i u Hi Hf; cbn [lpValidate_loop];
    destruct (rd_cursor _ _ _ Hwf i Hi) as (b & -> & Hb); cbn [mbind outcome_bind]; rewrite Hb.
  all: destruct (decide (i = length es)) as [->|Hne];
    [rewrite bool_decide_true by done; by rewrite (lp_off_total _ _ _ Hwf)|].
  { lia. }
  rewrite bool_decide_false by done. destruct (lookup_lt_is_Some_2 es i ltac:(lia)) as [e He].
  pose proof (lp_off_range _ _ _ Hwf i ltac:(lia)).
  pose proof (lp_off_range _ _ _ Hwf (S i) ltac:(lia)) as Hs. rewrite (lp_off_S _ _ _ He) in Hs.
  rewrite (lpValidateNext_entry _ _ _ (wf_at _ _ _ Hwf i e He)) by lia.
  cbn [mbind outcome_bind negb]. rewrite wrapu_id by lia. rewrite <- (lp_off_S _ _ _ He).
  replace (Z.of_nat i + 1) with (Z.of_nat (S i)) by lia. apply IH; lia.
Qed.

Lemma lpValidateIntegrity_spec u : exists ok u',
  lpValidateIntegrity cb lp (Zlen lp) true u = Ret (ok, u') /\
  (ok = true -> exists es, lp_wf lp es (Zlen lp)) /\
  (cb = None -> (exists es, lp_wf lp es (Zlen lp)) -> ok = true).
Proof.
  unfold lpValidateIntegrity. unfold LP_HDR_SIZE at 1.
  destruct (Z.ltb_spec (Zlen lp) (6 + 1)) as [Hsz|Hsz].
  { eexists _, _. split; [done|]. split; [done|]. intros _ [es Hwf].
    pose proof (lp_off_range _ _ _ Hwf 0 ltac:(lia)). rewrite lp_off_0 in *. unfold LP_HDR_SIZE in *. lia. }
  assert (exists total, lpGetTotalBytes lp = Ret total) as [total Ht].
  { unfold lpGetTotalBytes.
    destruct (rd_ok lp 0 ltac:(lia)) as [b0 ->], (rd_ok lp 1 ltac:(lia)) as [b1 ->],
      (rd_ok lp 2 ltac:(lia)) as [b2 ->], (rd_ok lp 3 ltac:(lia)) as [b3 ->]. by eexists. }
  rewrite Ht. cbn [mbind outcome_bind]. destruct (Z.eqb_spec total (Zlen lp)) as [->|Hne]; cbn [negb].
  2:{ eexists _, _. split; [done|]. split; [done|]. intros _ [es Hwf].
      pose proof (wf_total _ _ _ Hwf). congruence. }
  destruct (rd_ok lp (Zlen lp - 1) ltac:(lia)) as [b Hb]. rewrite Hb. cbn [mbind outcome_bind].
  destruct (Z.eqb_spec b LP_EOF) as [->|Hne]; cbn [negb].
  2:{ eexists _, _. split; [done|]. split; [done|]. intros _ [es Hwf].
      pose proof (wf_eof _ _ _ Hwf). congruence. }
  assert (exists num, lpGetNumElements lp = Ret num) as [num Hn].
  { unfold lpGetNumElements.
    destruct (rd_ok lp 4 ltac:(lia)) as [b4 ->], (rd_ok lp 5 ltac:(lia)) as [b5 ->]. by eexists. }
  rewrite Hn. cbn [mbind outcome_bind]. pose proof (lpGetTotalBytes_range _ _ Hlp Ht) as Hrange.
  destruct (lpValidate_loop_sound (length lp) LP_HDR_SIZE 0 u num ltac:(lia)
    ltac:(unfold LP_HDR_SIZE; lia) ltac:(unfold Zlen, LP_HDR_SIZE; lia)
    ltac:(unfold LP_HDR_SIZE; lia)) as (r & u' & Hr & Hsound).
  rewrite Hr. cbn [mbind outcome_bind].
  match goal with |- exists ok u'', ?m = _ /\ _ => assert (exists ok, m = Ret (ok, u') /\
    (ok = true <-> exists c, r = Some (Some (Zlen lp - 1), c) /\
      (num = LP_HDR_NUMELE_UNKNOWN \/ num = c))) as (ok & -> & Hiff) end.
  { destruct r as [[[q|] c]|];
      [|by exists false; (split; [done|]); split; [|intros (? & ? & _)]..].
    destruct (Z.eqb_spec q (Zlen lp - 1)) as [->|Hq]; cbn [negb].
    2:{ exists false. split; [done|]. split; [done|]. intros (? & [= ? _] & _). lia. }
    destruct (Z.eqb_spec num LP_HDR_NUMELE_UNKNOWN) as [E1|E1], (Z.eqb_spec num c) as [E2|E2];
      cbn [negb andb]; eexists; (split; [reflexivity|]); split; try done; intros H;
      try (eexists; split; [done|]; tauto).
    by destruct H as (c' & [= <-] & [?|?]). }
  exists ok, u'. split; [done|]. split.
  - intros Hok. apply Hiff in Hok as (c & -> & Hnum).
    destruct (Hsound _ _ eq_refl) as (es & q' & [= <-] & Hes & He & ->).
    exists es. split; try done; try lia. exists num. split; [done|].
    destruct Hnum as [->| ->]; [by left|by right].
  - intros Hcb [es Hwf]. apply Hiff. pose proof (wf_fuel _ _ _ Hwf).
    pose proof (lpValidate_loop_complete es (length lp) 0 u num Hwf Hcb ltac:(lia) ltac:(lia)) as Hc.
    rewrite lp_off_0 in Hc. change (Z.of_nat 0) with 0 in Hc. rewrite Hr in Hc.
    injection Hc as -> _. exists (Zlen es). split; [done|].
    destruct (wf_num _ _ _ Hwf) as (num' & Hn' & Hnum). rewrite Hn in Hn'. by injection Hn' as ->.
Qed.
End integrity.

Lemma lpCompare_wf lp p e s cached : entry_at lp p e ->
  match cached with
  | Some (lv, valid) => valid = 0 \/ (valid = 1 /\ lpStringToInt64 s = Some lv) \/
      (valid = -1 /\ lpStringToInt64 s = None)
  | None => True
  end ->
  exists cached', lpCompare lp p s cached = Ret (bool_decide (lp_value e = s), cached').
Proof.
  intros Hat Hc. unfold lpCompare. cbv zeta.
  destruct (entry_head _ _ _ Hat) as (b & -> & _ & _ & Hne & _). cbn [mbind outcome_bind].
  destruct (Z.eqb_spec b LP_EOF) as [|_]; [done|].
  destruct (entry_get lp p e 0 Hat) as (g & _ & -> & Hg). cbn [mbind outcome_bind].
  destruct g as [q n|buf n|v]; [|done|].
  - destruct Hg as [Hr ->]. exists cached. destruct (Z.eqb_spec (Zlen s) (Zlen (lp_value e))) as [->|Hn].
    + by rewrite Hr.
    + rewrite bool_decide_false; [done|]. by intros <-.
  - destruct Hg as [-> Hv]. pose proof (lpStringToInt64_dec v s Hv) as Hiff.
    assert (forall z, lpStringToInt64 s = Some z -> (v =? z) = bool_decide (dec v = s)) as Hsome.
    { intros z Hz. destruct (Z.eqb_spec v z) as [->|Hn].
      - rewrite bool_decide_true; [done|]. by apply Hiff.
      - rewrite bool_decide_false; [done|]. rewrite <- Hiff. congruence. }
    assert (lpStringToInt64 s = None -> false = bool_decide (dec v = s)) as Hnone.
    { intros Hz. rewrite bool_decide_false; [done|]. rewrite <- Hiff. congruence. }
    destruct cached as [[lv valid]|].
    + destruct Hc as [->|[[-> Hl]|[-> Hl]]]; cbn [Z.eqb Pos.eqb].
      * destruct (lpStringToInt64 s) as [z|] eqn:E; cbn [Z.eqb Pos.eqb andb].
        -- rewrite (Hsome z) by done. by eexists.
        -- rewrite <- Hnone by done. by eexists.
      * rewrite (Hsome lv) by done. by eexists.
      * rewrite <- Hnone by done. by eexists.
    + destruct (lpStringToInt64 s) as [z|] eqn:E.
      * rewrite (Hsome z) by done. by eexists.
      * rewrite <- Hnone by done. by eexists.
Qed.

(** ** Properties *)

(** C8. Integrity validation: on any block of bytes, whatever its contents and
    whatever the entry callback answers, the deep check returns (it never reads
    outside the block, and its loop ends); if it accepts, the block is a
    well-formed listpack ([lp_wf]: the header totals are right and the bytes are
    entries whose back lengths lead back to their start, up to a final EOF);
    and without a callback it accepts every well-formed listpack. *)
Theorem lpValidateIntegrity_correct {U} (cb : option (Z -> Z -> U -> bool * U)) lp u :
  Forall is_byte lp ->
  exists ok u', lpValidateIntegrity cb lp (Zlen lp) true u = Ret (ok, u') /\
    (ok = true -> exists es, lp_wf lp es (Zlen lp)) /\
    (cb = None -> (exists es, lp_wf lp es (Zlen lp)) -> ok = true).
Proof. intros Hlp. by apply lpValidateIntegrity_spec. Qed.

(** Navigation in a well-formed listpack: [lpFirst], [lpLast], [lpNext],
    [lpNextWithBytes], [lpPrev] lead from each element to its neighbours and to NULL at
    the ends, no assertion fails, no read leaves the block; [lpLength] is the
    number of elements even when the header does not record it; and at each
    element [lpGet] yields its value, to which [lpCompare] compares. *)
Theorem lp_navigation_correct lp es total :
  lp_wf lp es total ->
  lpFirst lp = Ret (lp_ptr es 0) /\
  lpLast lp = Ret (lp_prev es (length es)) /\
  (exists lp', lpLength lp = Ret (lp', Zlen es)) /\
  forall i e, es !! i = Some e ->
    lpNext lp (lp_off es i) = Ret (lp_ptr es (S i)) /\
    lpNextWithBytes lp (lp_off es i) total = Ret (lp_ptr es (S i)) /\
    lpPrev lp (lp_off es i) = Ret (lp_prev es i) /\
    (exists g, lpGet lp (lp_off es i) None = Ret g /\ got_bytes lp g = Ret (lp_value e)) /\
    (forall s, lpCompare lp (lp_off es i) s None = Ret (bool_decide (lp_value e = s), None)).
Proof.
  intros Hwf. split; [by apply (lpFirst_wf _ _ _ Hwf)|]. split; [by apply (lpLast_wf _ _ _ Hwf)|].
  split; [destruct (lpLength_count _ _ _ Hwf) as (lp' & ? & _); by exists lp'|].
  intros i e He. pose proof (lookup_lt_Some _ _ _ He) as Hi. pose proof (wf_at _ _ _ Hwf i e He) as Hat.
  split; [by apply (lpNext_wf _ _ _ Hwf)|]. split; [by apply (lpNextWithBytes_wf _ _ _ Hwf)|].
  split; [apply (lpPrev_wf _ _ _ Hwf); lia|]. split.
  - destruct (entry_get lp _ e 0 Hat) as (g & _ & Hg & Hm). exists g. split; [done|].
    destruct g; [by destruct Hm as [? ->]|done|by destruct Hm as [-> _]].
  - intros s. destruct (lpCompare_wf lp _ e s None Hat I) as [c Hc]. rewrite Hc.
    do 2 f_equal. revert Hc. unfold lpCompare. clear.
    destruct (rd lp _); try done. cbn [mbind outcome_bind].
    destruct (_ =? LP_EOF); [by intros [= _ <-]|]. destruct (lpGet _ _ _) as [[]| | |]; try done;
      cbn [mbind outcome_bind]; repeat case_match; try done; try (by intros [= _ <-]).
    destruct (rdn _ _ _); try done. cbn [mbind outcome_bind]. by intros [= _ <-].
Qed.

(** [lpSeek] on a well-formed listpack returns, for every signed index, the
    element at that index from the head, or from the tail when it is negative,
    and NULL exactly when the index is out of range, whichever direction it
    scans and whether or not the header records the number of elements. *)
Theorem lpSeek_correct lp es total index :
  lp_wf lp es total -> lpSeek lp index = Ret (lp_index es index).
Proof. intros Hwf. by apply (lpSeek_wf _ _ _ Hwf). Qed.

(** [lpFind] on a well-formed listpack, from element [i] on, comparing one
    element in [skip+1], returns the first one whose value (as a string,
    whether stored as string or integer) is [s], and NULL if there is none; no
    assertion fails and no read leaves the block. *)
Theorem lpFind_correct lp es total s skip i :
  lp_wf lp es total -> Z.of_nat skip < 2 ^ 31 -> (i < length es)%nat ->
  lpFind lp (Some (lp_off es i)) s (Z.of_nat skip) =
  Ret ((fun j => lp_off es (i + j)) <$> find_skip s skip 0 (drop i es)).
Proof. intros Hwf Hskip Hi. apply (lpFind_wf _ _ _ Hwf); [done|done|by left]. Qed.

(** ** Witnesses *)

Definition example_lp : list Z := [12; 0; 0; 0; 2; 0; 0x05; 1; 0x81; 0x61; 2; 255].
Definition example_es : list (list Z) := [[5]; [0x81; 0x61]].

Lemma example_wf : lp_wf example_lp example_es 12.
Proof.
  split; try done.
  - exists 2. split; [reflexivity|by right].
  - repeat split; try done; repeat constructor; done.
Qed.

Lemma lpValidateIntegrity_witness : exists ok u',
  lpValidateIntegrity (U := unit) None example_lp 12 true tt = Ret (ok, u') /\ ok = true.
Proof.
  destruct (lpValidateIntegrity_correct (U := unit) None example_lp tt) as (ok & u' & H & _ & Hc).
  - repeat constructor; done.
  - exists ok, u'. split; [exact H|]. apply Hc; [done|]. exists example_es. exact example_wf.
Defined.

Lemma lp_navigation_witness : lpFirst example_lp = Ret (Some 6) /\
  lpLast example_lp = Ret (Some 8) /\ lpNext example_lp 6 = Ret (Some 8).
Proof.
  destruct (lp_navigation_correct example_lp example_es 12 example_wf) as (Hf & Hl & _ & Hn).
  split; [exact Hf|]. split; [exact Hl|]. exact (proj1 (Hn 0%nat [5] eq_refl)).
Defined.

Lemma lpSeek_witness : lpSeek example_lp (-2) = Ret (Some 6).
Proof. exact (lpSeek_correct example_lp example_es 12 (-2) example_wf). Defined.

Lemma lpFind_witness : lpFind example_lp (Some 6) [0x61] 0 = Ret (Some 8).
Proof.
  exact (lpFind_correct example_lp example_es 12 [0x61] 0 0 example_wf ltac:(lia) ltac:(simpl; lia)).
Defined.
