(* ===== verification/ListpackEdit.v ===== *)
(** * listpack.c, part 3: editing

    The functions that change a listpack.  The block is reallocated through
    [Allocator]; a NULL result is [None].  [lp_rep lp es] is the invariant the
    functions maintain: the header, the entries of [es] with their canonical
    back lengths and the EOF byte are the first [total] bytes of the block.
    Every function is shown to refine the corresponding operation on the list
    of elements. *)

From S2P Require Import Prelude Memory NumStr ListpackEnc Listpack.
From Stdlib Require Import Sorted.

Definition LP_BEFORE : Z := 0.
Definition LP_AFTER : Z := 1.
Definition LP_REPLACE : Z := 2.

Record listpackEntry := { sval : option (list Z); lval : Z }.

Record listpackInsertEntry := {
  enctype : Z; enclen : Z; intenc : list Z; backlen : list Z; backlen_size : Z }.

Definition lpEncodeEntry (e : listpackEntry) : listpackInsertEntry :=
  let '(ty, ie, l) :=
    match sval e with
    | Some s => lpEncodeGetType s
    | None => let ie := lpEncodeIntegerGetType (lval e) in (LP_ENCODING_INT, ie, Zlen ie)
    end in
  let bl := lpEncodeBacklen l in
  {| enctype := ty; enclen := l; intenc := ie; backlen := bl; backlen_size := Zlen bl |}.

(** The contents of [enc] and the number of bytes added. *)
Fixpoint lpEncodeEntries (entries : list listpackEntry) (addedlen : Z)
  : list listpackInsertEntry * Z :=
  match entries with
  | [] => ([], addedlen)
  | e :: entries =>
    let enc := lpEncodeEntry e in
    let addedlen := u64 (addedlen + enclen enc) in
    let addedlen := u64 (addedlen + backlen_size enc) in
    let '(encs, addedlen) := lpEncodeEntries entries addedlen in
    (enc :: encs, addedlen)
  end.

(** The block, the pointer past the last entry, and [*newp]. *)
Fixpoint lpWriteEntries (lp : list Z) (dst : Z) (entries : list listpackEntry)
    (encs : list listpackInsertEntry) (newp : option Z) : outcome (list Z * Z * option Z) :=
  match entries, encs with
  | ent :: entries, enc :: encs =>
    let newp := Some dst in
    lp ← (if enctype enc =? LP_ENCODING_INT then wrn lp dst (intenc enc)
          else match sval ent with
               | Some s => lpEncodeString lp dst s
               | None => OutOfBounds
               end);
    let dst := dst + enclen enc in
    lp ← wrn lp dst (backlen enc);
    let dst := dst + backlen_size enc in
    lpWriteEntries lp dst entries encs newp
  | _, _ => Ret (lp, dst, newp)
  end.

Section edit.
Context `{Allocator}.

(** The new block and [*newp]. *)
Definition lpInsert (lp : list Z) (elestr eleint : option (list Z)) (p where_ : Z)
  : outcome (option (list Z * option Z)) :=
  let delete := match elestr, eleint with None, None => true | _, _ => false end in
  let where_ := if delete then LP_REPLACE else where_ in
  '(p, where_) ← (if where_ =? LP_AFTER then
                    p ← lpSkip lp p;
                    _ ← ASSERT_INTEGRITY lp p; Ret (p, LP_BEFORE)
                  else Ret (p, where_));
  let poff := p in
  let '(enctype, eleint, enclen) :=
    match elestr with
    | Some s => let '(enctype, intenc, enclen) := lpEncodeGetType s in
                (enctype, if enctype =? LP_ENCODING_INT then Some intenc else eleint, enclen)
    | None => match eleint with
              | Some ie => (LP_ENCODING_INT, Some ie, Zlen ie)
              | None => (-1, None, 0)
              end
    end in
  let backlen := if delete then [] else lpEncodeBacklen enclen in
  let backlen_size := Zlen backlen in
  old_listpack_bytes ← lpGetTotalBytes lp;
  replaced_len ← (if where_ =? LP_REPLACE then
                    l ← lpCurrentEncodedSizeUnsafe lp p;
                    let l := u32 (l + lpEncodeBacklenBytes l) in
                    _ ← ASSERT_INTEGRITY_LEN lp p l; Ret l
                  else Ret 0);
  let new_listpack_bytes := u64 (old_listpack_bytes + enclen + backlen_size - replaced_len) in
  if UINT32_MAX <? new_listpack_bytes then Ret None else
  let lp := if (old_listpack_bytes <? new_listpack_bytes) && (Zlen lp <? new_listpack_bytes)
            then zrealloc lp new_listpack_bytes else lp in
  let dst := poff in
  lp ← (if where_ =? LP_BEFORE
        then c_memmove lp (dst + enclen + backlen_size) dst (old_listpack_bytes - poff)
        else c_memmove lp (dst + enclen + backlen_size) (dst + replaced_len)
               (old_listpack_bytes - poff - replaced_len));
  let lp := if new_listpack_bytes <? old_listpack_bytes
            then zrealloc lp new_listpack_bytes else lp in
  newp ← (if delete then b ← rd lp dst; if b =? LP_EOF then Ret None else Ret (Some dst)
          else Ret (Some dst));
  lp ← (if delete then Ret lp else
        lp ← (if enctype =? LP_ENCODING_INT then
                match eleint with Some ie => wrn lp dst ie | None => OutOfBounds end
              else match elestr with
                   | Some s => lpEncodeString lp dst s
                   | None => AssertFail
                   end);
        wrn lp (dst + enclen) backlen);
  lp ← (if negb (where_ =? LP_REPLACE) || delete then
          num_elements ← lpGetNumElements lp;
          if negb (num_elements =? LP_HDR_NUMELE_UNKNOWN) then
            if delete then lpSetNumElements lp (u32 (num_elements - 1))
            else lpSetNumElements lp (u32 (num_elements + 1))
          else Ret lp
        else Ret lp);
  lp ← lpSetTotalBytes lp new_listpack_bytes;
  Ret (Some (lp, newp)).

Definition lpBatchInsert (lp : list Z) (p where_ : Z) (entries : list listpackEntry)
  : outcome (option (list Z * option Z)) :=
  let len := Zlen entries in
  _ ← c_assert ((where_ =? LP_BEFORE) || (where_ =? LP_AFTER));
  _ ← c_assert (0 <? len);
  p ← (if where_ =? LP_AFTER then
         p ← lpSkip lp p; _ ← ASSERT_INTEGRITY lp p; Ret p
       else Ret p);
  let '(enc, addedlen) := lpEncodeEntries entries 0 in
  old_listpack_bytes ← lpGetTotalBytes lp;
  let new_listpack_bytes := u64 (old_listpack_bytes + addedlen) in
  if UINT32_MAX <? new_listpack_bytes then Ret None else
  let poff := p in
  let dst := poff in
  let lp := if (old_listpack_bytes <? new_listpack_bytes) && (Zlen lp <? new_listpack_bytes)
            then zrealloc lp new_listpack_bytes else lp in
  lp ← c_memmove lp (dst + addedlen) dst (old_listpack_bytes - poff);
  '(lp, _, newp) ← lpWriteEntries lp dst entries enc None;
  num_elements ← lpGetNumElements lp;
  lp ← (if negb (num_elements =? LP_HDR_NUMELE_UNKNOWN) then
          if LP_HDR_NUMELE_UNKNOWN - num_elements <? len
          then lpSetNumElements lp LP_HDR_NUMELE_UNKNOWN
          else lpSetNumElements lp (u32 (num_elements + len))
        else Ret lp);
  lp ← lpSetTotalBytes lp new_listpack_bytes;
  Ret (Some (lp, newp)).

Definition lpNewWithEntries (entries : list listpackEntry) : outcome (option (list Z)) :=
  let len := Zlen entries in
  _ ← c_assert (0 <? len);
  let '(enc, entries_len) := lpEncodeEntries entries 0 in
  let listpack_bytes := u64 (LP_HDR_SIZE + entries_len + 1) in
  if UINT32_MAX <? listpack_bytes then Ret None else
  let lp := zmalloc listpack_bytes in
  '(lp, tail, _) ← lpWriteEntries lp LP_HDR_SIZE entries enc None;
  lp ← wr lp tail LP_EOF;
  let num_elements := if LP_HDR_NUMELE_UNKNOWN <=? len then LP_HDR_NUMELE_UNKNOWN else len in
  lp ← lpSetNumElements lp num_elements;
  lp ← lpSetTotalBytes lp listpack_bytes;
  Ret (Some lp).

Definition lpInsertString (lp s : list Z) (p where_ : Z) : outcome (option (list Z * option Z)) :=
  lpInsert lp (Some s) None p where_.

Definition lpInsertInteger (lp : list Z) (lval p where_ : Z) : outcome (option (list Z * option Z)) :=
  lpInsert lp None (Some (lpEncodeIntegerGetType lval)) p where_.

(** A call with [newp == NULL]. *)
Definition no_newp (r : option (list Z * option Z)) : option (list Z) := fst <$> r.

Definition lpAppend (lp ele : list Z) : outcome (option (list Z)) :=
  listpack_bytes ← lpGetTotalBytes lp;
  let eofptr := listpack_bytes - 1 in
  r ← lpInsert lp (Some ele) None eofptr LP_BEFORE; Ret (no_newp r).

Definition lpAppendInteger (lp : list Z) (lval : Z) : outcome (option (list Z)) :=
  listpack_bytes ← lpGetTotalBytes lp;
  let eofptr := listpack_bytes - 1 in
  r ← lpInsertInteger lp lval eofptr LP_BEFORE; Ret (no_newp r).

Definition lpPrepend (lp s : list Z) : outcome (option (list Z)) :=
  p ← lpFirst lp;
  match p with
  | None => lpAppend lp s
  | Some p => r ← lpInsert lp (Some s) None p LP_BEFORE; Ret (no_newp r)
  end.

Definition lpPrependInteger (lp : list Z) (lval : Z) : outcome (option (list Z)) :=
  p ← lpFirst lp;
  match p with
  | None => lpAppendInteger lp lval
  | Some p => r ← lpInsertInteger lp lval p LP_BEFORE; Ret (no_newp r)
  end.

Definition lpBatchAppend (lp : list Z) (entries : list listpackEntry) : outcome (option (list Z)) :=
  listpack_bytes ← lpGetTotalBytes lp;
  let eofptr := listpack_bytes - 1 in
  r ← lpBatchInsert lp eofptr LP_BEFORE entries; Ret (no_newp r).

Definition lpReplace (lp : list Z) (p : Z) (s : list Z) : outcome (option (list Z * option Z)) :=
  lpInsert lp (Some s) None p LP_REPLACE.

Definition lpReplaceInteger (lp : list Z) (p lval : Z) : outcome (option (list Z * option Z)) :=
  lpInsertInteger lp lval p LP_REPLACE.

Definition lpDelete (lp : list Z) (p : Z) : outcome (option (list Z * option Z)) :=
  lpInsert lp None None p LP_REPLACE.

(** The loop of [lpDeleteRangeWithEntry]: [tail] and [deleted]. *)
Fixpoint lpDeleteRange_loop (fuel : nat) (lp : list Z) (bytes num tail deleted : Z)
  : outcome (Z * Z) :=
  if num =? 0 then Ret (tail, deleted) else
  match fuel with
  | O => OutOfFuel
  | S fuel =>
    let num := num - 1 in
    let deleted := deleted + 1 in
    tail ← lpSkip lp tail;
    b ← rd lp tail;
    if b =? LP_EOF then Ret (tail, deleted) else
    _ ← lpAssertValidEntry lp bytes tail;
    lpDeleteRange_loop fuel lp bytes num tail deleted
  end.

(** Returns the block and the new [*p]. *)
Definition lpDeleteRangeWithEntry (lp : list Z) (p : Z) (num : Z) : outcome (list Z * option Z) :=
  bytes ← lpBytes lp;
  let eofptr := bytes - 1 in
  let first := p in
  if num =? 0 then Ret (lp, Some p) else
  '(tail, deleted) ← lpDeleteRange_loop (length lp) lp bytes num first 0;
  let poff := first in
  lp ← c_memmove lp first tail (eofptr - tail + 1);
  lp ← lpSetTotalBytes lp (bytes - (tail - first));
  numele ← lpGetNumElements lp;
  lp ← (if negb (numele =? LP_HDR_NUMELE_UNKNOWN)
        then lpSetNumElements lp (u64 (numele - deleted)) else Ret lp);
  lp ← lpShrinkToFit lp;
  let p := poff in
  b ← rd lp p;
  Ret (lp, if b =? LP_EOF then None else Some p).

Definition lpDeleteRange (lp : list Z) (index num : Z) : outcome (list Z) :=
  numele ← lpGetNumElements lp;
  if num =? 0 then Ret lp else
  p ← lpSeek lp index;
  match p with
  | None => Ret lp
  | Some p =>
    let index := if negb (numele =? LP_HDR_NUMELE_UNKNOWN) && (index <? 0)
                 then numele + index else index in
    if negb (numele =? LP_HDR_NUMELE_UNKNOWN) && (u64 (numele - u64 index) <=? num) then
      lp ← wr lp p LP_EOF;
      lp ← lpSetTotalBytes lp (p + 1);
      lp ← lpSetNumElements lp index;
      lpShrinkToFit lp
    else '(lp, _) ← lpDeleteRangeWithEntry lp p num; Ret lp
  end.

(** The loop of [lpBatchDelete] over the remaining pointers; returns [dst]. *)
Fixpoint lpBatchDelete_loop (lp : list Z) (ps : list Z) (dst lp_end : Z) : outcome (list Z * Z) :=
  match ps with
  | [] => Ret (lp, dst)
  | skip :: ps =>
    b ← rd lp skip;
    _ ← c_assert (negb (b =? LP_EOF));
    keep_start ← lpSkip lp skip;
    match ps with
    | keep_end :: _ =>
      if keep_start =? keep_end then lpBatchDelete_loop lp ps dst lp_end else
      _ ← c_assert (keep_start <? keep_end);
      let bytes_to_keep := keep_end - keep_start in
      lp ← c_memmove lp dst keep_start bytes_to_keep;
      lpBatchDelete_loop lp ps (dst + bytes_to_keep) lp_end
    | [] =>
      let keep_end := lp_end in
      _ ← c_assert (keep_start <? keep_end);
      let bytes_to_keep := keep_end - keep_start in
      lp ← c_memmove lp dst keep_start bytes_to_keep;
      lpBatchDelete_loop lp ps (dst + bytes_to_keep) lp_end
    end
  end.

Definition lpBatchDelete (lp : list Z) (ps : list Z) : outcome (list Z) :=
  let count := Zlen ps in
  match ps with
  | [] => Ret lp
  | dst :: _ =>
    total_bytes ← lpGetTotalBytes lp;
    let lp_end := total_bytes in
    b ← rd lp (lp_end - 1);
    _ ← c_assert (b =? LP_EOF);
    '(lp, dst) ← lpBatchDelete_loop lp ps dst lp_end;
    let deleted_bytes := lp_end - dst in
    let total_bytes := total_bytes - deleted_bytes in
    b ← rd lp (total_bytes - 1);
    _ ← c_assert (b =? LP_EOF);
    lp ← lpSetTotalBytes lp total_bytes;
    numele ← lpGetNumElements lp;
    lp ← (if negb (numele =? LP_HDR_NUMELE_UNKNOWN)
          then lpSetNumElements lp (u64 (numele - count)) else Ret lp);
    lpShrinkToFit lp
  end.

(** [same] is [*first == *second].  The result is the merged block and whether
    it is the block of [first] ([append]); the other one is freed. *)
Definition lpMerge (first second : option (list Z)) (same : bool) : outcome (option (list Z * bool)) :=
  match first, second with
  | Some first, Some second =>
    if same then Ret None else
    first_bytes ← lpBytes first;
    '(first, first_len) ← lpLength first;
    second_bytes ← lpBytes second;
    '(second, second_len) ← lpLength second;
    let '(target, target_bytes, source, source_bytes, append) :=
      if second_bytes <=? first_bytes
      then (first, first_bytes, second, second_bytes, true)
      else (second, second_bytes, first, first_bytes, false) in
    let lpbytes := u64 (first_bytes + second_bytes - LP_HDR_SIZE - 1) in
    _ ← c_assert (lpbytes <? UINT32_MAX);
    let lplength := first_len + second_len in
    let lplength := if lplength <? UINT16_MAX then lplength else UINT16_MAX in
    let target := zrealloc target lpbytes in
    target ← (if (append : bool) then
                bs ← rdn source LP_HDR_SIZE (source_bytes - LP_HDR_SIZE);
                wrn target (target_bytes - 1) bs
              else
                target ← c_memmove target (source_bytes - 1) LP_HDR_SIZE (target_bytes - LP_HDR_SIZE);
                bs ← rdn source 0 (source_bytes - 1);
                wrn target 0 bs);
    target ← lpSetNumElements target lplength;
    target ← lpSetTotalBytes target lpbytes;
    Ret (Some (target, append))
  | _, _ => Ret None
  end.
End edit.

(** ** The invariant *)

Definition entry (e : list Z) : list Z := e ++ lpEncodeBacklen (Zlen e).
Definition body (es : list (list Z)) : list Z := concat (map entry es).
Definition lp_total (es : list (list Z)) : Z := 7 + Zlen (body es).

Record lp_rep (lp : list Z) (es : list (list Z)) : Prop := {
  rep_valid : Forall valid_payload es;
  rep_small : lp_total es < 2 ^ 32;
  rep_total : rdn lp 0 4 = Ret (le_bytes 4 (lp_total es));
  rep_num : exists num, rdn lp 4 2 = Ret (le_bytes 2 num) /\
    (num = LP_HDR_NUMELE_UNKNOWN \/ num = Zlen es /\ num < LP_HDR_NUMELE_UNKNOWN);
  rep_body : rdn lp LP_HDR_SIZE (Zlen (body es) + 1) = Ret (body es ++ [LP_EOF]);
}.

Lemma Zlen_entry e : Zlen (entry e) = entry_len e.
Proof. unfold entry. rewrite Zlen_app, lpEncodeBacklen_length. done. Qed.

Lemma body_cons e es : body (e :: es) = entry e ++ body es.
Proof. done. Qed.

Lemma body_app es1 es2 : body (es1 ++ es2) = body es1 ++ body es2.
Proof. unfold body. by rewrite map_app, concat_app. Qed.

Lemma Zlen_body es : Zlen (body es) = zsum (map entry_len es).
Proof. induction es as [|e es IH]; [done|]. rewrite body_cons, Zlen_app, IH, Zlen_entry. done. Qed.

Lemma get_total lp t : rdn lp 0 4 = Ret (le_bytes 4 t) -> 0 <= t < 2 ^ 32 -> lpGetTotalBytes lp = Ret t.
Proof.
  intros H Ht. unfold lpGetTotalBytes.
  assert (forall j, 0 <= j < 4 -> rd lp j = rd (le_bytes 4 t) j) as Hrd.
  { intros j Hj. exact (rd_of_rdn _ _ _ _ j H Hj). }
  rewrite !Hrd by lia. cbn [le_bytes rd]. unfold rd; simpl. rewrite lor4_value by (unfold is_byte; dlia).
  f_equal. rewrite (le_value_bytes 4 t : le_value [_;_;_;_] = _). apply Z.mod_small. lia.
Qed.

Lemma get_num lp n : rdn lp 4 2 = Ret (le_bytes 2 n) -> 0 <= n < 2 ^ 16 -> lpGetNumElements lp = Ret n.
Proof.
  intros H Ht. unfold lpGetNumElements.
  assert (forall j, 0 <= j < 2 -> rd lp (4 + j) = rd (le_bytes 2 n) j) as Hrd.
  { intros j Hj. exact (rd_of_rdn _ _ _ _ j H Hj). }
  rewrite (Hrd 0 ltac:(lia) : rd lp 4 = _), (Hrd 1 ltac:(lia) : rd lp 5 = _).
  unfold rd; simpl. rewrite lor2_value by (unfold is_byte; dlia).
  f_equal. rewrite (le_value_bytes 2 n : le_value [_;_] = _). apply Z.mod_small. lia.
Qed.

Lemma lpSetTotalBytes_wrn lp v : 4 <= Zlen lp -> lpSetTotalBytes lp v = wrn lp 0 (le_bytes 4 v).
Proof.
  intros Hl. destruct lp as [|b0 [|b1 [|b2 [|b3 l]]]]; try done.
  assert (0 <= Zlen l) by apply Zlen_nonneg.
  unfold lpSetTotalBytes. rewrite !land_255, !shiftr_div by lia.
  rewrite wrn_ok by (cbn [le_bytes]; zlen; lia).
  rewrite wr_ok by (zlen; lia). cbn [mbind outcome_bind].
  rewrite wr_ok by (zlen; lia). cbn [mbind outcome_bind].
  rewrite wr_ok by (zlen; lia). cbn [mbind outcome_bind].
  rewrite wr_ok by (zlen; lia). simpl. rewrite !Z.div_div by lia. pow2. done.
Qed.

Lemma lpSetNumElements_wrn lp v : 6 <= Zlen lp -> lpSetNumElements lp v = wrn lp 4 (le_bytes 2 v).
Proof.
  intros Hl. destruct lp as [|b0 [|b1 [|b2 [|b3 [|b4 [|b5 l]]]]]]; try done.
  assert (0 <= Zlen l) by apply Zlen_nonneg.
  unfold lpSetNumElements. rewrite !land_255, !shiftr_div by lia.
  rewrite wrn_ok by (cbn [le_bytes]; zlen; lia).
  rewrite wr_ok by (zlen; lia). cbn [mbind outcome_bind].
  rewrite wr_ok by (zlen; lia). simpl. pow2. done.
Qed.

(** ** The invariant implies the well-formedness used for reading *)

Lemma zlen_body_nonneg es : 0 <= Zlen (body es).
Proof. apply Zlen_nonneg. Qed.

Lemma rep_entries lp es p : Forall valid_payload es ->
  rdn lp p (Zlen (body es)) = Ret (body es) -> LP_HDR_SIZE <= p ->
  entries_at lp p es (p + Zlen (body es)).
Proof.
  intros Hv. revert p. induction Hv as [|e es He Hes IH]; intros p Hr Hp; cbn [entries_at].
  { unfold Zlen. simpl. lia. }
  rewrite body_cons, Zlen_app in Hr. apply rdn_split in Hr as [Hr1 Hr2].
  pose proof Hr1 as Hr1'. unfold entry in Hr1'. rewrite Zlen_app in Hr1'.
  apply rdn_split in Hr1' as [Hre Hrb]. rewrite Zlen_entry in Hr2.
  split.
  - split; [done|]. split; [done|].
    pose proof (entry_len_bounds e He). destruct He as (_ & Hl & _).
    pose proof (backlen_bytes_range (Zlen e)). pose proof (Zlen_nonneg e).
    pose proof (rdn_length _ _ _ _ Hr1) as (_ & _ & Hfit). rewrite Zlen_entry in Hfit.
    assert (lp = take (Z.to_nat (p + Zlen e)) lp ++ lpEncodeBacklen (Zlen e) ++
      drop (Z.to_nat (p + entry_len e)) lp) as Elp.
    { rewrite lpEncodeBacklen_length in Hrb. rewrite rdn_ok in Hrb by (unfold entry_len, LP_HDR_SIZE in *; lia).
      injection Hrb as Hrb. rewrite <- Hrb at 1.
      rewrite <- (take_drop (Z.to_nat (p + Zlen e)) lp) at 1. f_equal.
      rewrite <- (take_drop (Z.to_nat (lpEncodeBacklenBytes (Zlen e)))
        (drop (Z.to_nat (p + Zlen e)) lp)) at 1.
      f_equal. rewrite drop_drop. f_equal. unfold entry_len, LP_HDR_SIZE in *. lia. }
    rewrite Elp. apply backlen_roundtrip; [lia|]. rewrite Zlen_take by (unfold entry_len, LP_HDR_SIZE in *; lia).
    unfold entry_len. lia.
  - rewrite body_cons, Zlen_app, Zlen_entry, Z.add_assoc. apply IH; [done|].
    pose proof (entry_len_bounds e He). lia.
Qed.

Section rep.
Context (lp : list Z) (es : list (list Z)) (Hrep : lp_rep lp es).

Lemma rep_size : lp_total es <= Zlen lp.
Proof.
  pose proof (rdn_length _ _ _ _ (rep_body _ _ Hrep)) as (_ & _ & H). unfold lp_total, LP_HDR_SIZE in *. lia.
Qed.

Lemma rep_get_total : lpGetTotalBytes lp = Ret (lp_total es).
Proof.
  apply get_total; [apply rep_total with (1 := Hrep)|]. pose proof (rep_small _ _ Hrep).
  pose proof (zlen_body_nonneg es). unfold lp_total in *. lia.
Qed.

Lemma rep_get_num : exists num, lpGetNumElements lp = Ret num /\ rdn lp 4 2 = Ret (le_bytes 2 num) /\
    0 <= num <= LP_HDR_NUMELE_UNKNOWN /\
    (num = LP_HDR_NUMELE_UNKNOWN \/ num = Zlen es /\ num < LP_HDR_NUMELE_UNKNOWN).
Proof.
  destruct (rep_num _ _ Hrep) as (num & Hn & Hc). exists num. pose proof (Zlen_nonneg es).
  assert (0 <= num <= LP_HDR_NUMELE_UNKNOWN).
  { unfold LP_HDR_NUMELE_UNKNOWN, UINT16_MAX in *. lia. }
  split; [|done]. apply get_num; [done|]. unfold LP_HDR_NUMELE_UNKNOWN, UINT16_MAX in *. lia.
Qed.

Lemma rep_body_split : rdn lp LP_HDR_SIZE (Zlen (body es)) = Ret (body es) /\
  rd lp (lp_total es - 1) = Ret LP_EOF.
Proof.
  destruct (rdn_split _ _ (body es) [LP_EOF] (rep_body _ _ Hrep)) as [H1 H2]. split; [done|].
  pose proof (rd_of_rdn _ _ _ _ 0 H2 ltac:(unfold Zlen; simpl; lia)) as H3.
  rewrite Z.add_0_r in H3. unfold lp_total. unfold LP_HDR_SIZE in *.
  by replace (7 + Zlen (body es) - 1) with (6 + Zlen (body es)) by lia.
Qed.

Lemma rep_wf : lp_wf lp es (lp_total es).
Proof.
  destruct rep_body_split as [Hb He]. split.
  - apply rep_get_total.
  - apply rep_size.
  - apply rep_small with (1 := Hrep).
  - destruct rep_get_num as (num & ? & _ & _ & Hc). exists num. split; [done|]. tauto.
  - replace (lp_total es - 1) with (LP_HDR_SIZE + Zlen (body es)) by (unfold lp_total, LP_HDR_SIZE; lia).
    apply rep_entries; [apply rep_valid with (1 := Hrep)|done|lia].
  - done.
Qed.
End rep.

Lemma lp_off_body es1 es2 : lp_off (es1 ++ es2) (length es1) = LP_HDR_SIZE + Zlen (body es1).
Proof. unfold lp_off. by rewrite take_app_length, Zlen_body. Qed.

(** ** Elements to insert *)

Lemma valid_of_size e n : Forall is_byte e -> Zlen e < 2 ^ 32 ->
  lpCurrentEncodedSizeUnsafe e 0 = Ret n -> n = Zlen e -> rd e 0 <> Ret LP_EOF -> valid_payload e.
Proof. intros ? ? H -> ?. done. Qed.

Lemma lp_element_bytes s : Forall is_byte s -> Zlen s < 2 ^ 32 -> Forall is_byte (lp_element s).
Proof.
  intros Hs Hl. unfold lp_element. destruct (lpStringToInt64 s) as [v|] eqn:E.
  - apply lpStringToInt64_sound in E as [_ Hv]. rewrite int_enc_bytes by done.
    repeat case_match; try (apply Forall_cons_2; [unfold is_byte; lia|apply le_bytes_byte]);
      repeat (apply Forall_cons_2; [unfold is_byte; dlia|]); apply Forall_nil_2.
  - pose proof (Zlen_nonneg s). apply Forall_app_2; [|done]. rewrite lpStringHeader_arith by lia.
    repeat case_match; try (apply Forall_cons_2; [unfold is_byte; lia|apply le_bytes_byte]);
      repeat (apply Forall_cons_2; [unfold is_byte; dlia|]); apply Forall_nil_2.
Qed.

Lemma int_payload_valid v : INT64_MIN <= v <= INT64_MAX -> valid_payload (lpEncodeIntegerGetType v).
Proof.
  intros Hv. destruct (lpGet_int v [] [] None Hv) as [_ Hs]. rewrite app_nil_r in Hs. simpl in Hs.
  assert (Zlen (lpEncodeIntegerGetType v) < 2 ^ 32) as Hl
    by (rewrite int_enc_bytes by done; repeat case_match; vm_compute; done).
  split; [|split; [done|split; [done|]]].
  - rewrite int_enc_bytes by done.
    repeat case_match; try (apply Forall_cons_2; [unfold is_byte; lia|apply le_bytes_byte]);
      repeat (apply Forall_cons_2; [unfold is_byte; dlia|]); apply Forall_nil_2.
  - rewrite int_enc_bytes by done. unfold LP_EOF.
    repeat case_match; unfold rd; simpl; intros [= E]; dlia.
Qed.

Lemma Zlen_lp_element s : lpStringToInt64 s = None -> Zlen s < Zlen (lp_element s) /\
  (4096 <= Zlen s -> Zlen (lp_element s) = 5 + Zlen s).
Proof.
  intros E. unfold lp_element. rewrite E, Zlen_app. unfold lpStringHeader.
  destruct (Z.ltb_spec (Zlen s) 64); [unfold Zlen in *; simpl; lia|].
  destruct (Z.ltb_spec (Zlen s) 4096); unfold Zlen in *; simpl; lia.
Qed.

Lemma str_payload_valid s : Forall is_byte s -> Zlen (lp_element s) < 2 ^ 32 ->
  valid_payload (lp_element s).
Proof.
  intros Hs Hl. destruct (lpStringToInt64 s) as [v|] eqn:E.
  - unfold lp_element. rewrite E. apply lpStringToInt64_sound in E as [_ Hv]. by apply int_payload_valid.
  - destruct (Zlen_lp_element s E) as [H1 H2].
    assert (Zlen s < 2 ^ 32 - 5) as Hsl by lia.
    pose proof (lp_element_size s [] [] Hsl) as Hsz. rewrite app_nil_r in Hsz. simpl in Hsz.
    split; [apply lp_element_bytes; [done|lia]|]. split; [done|]. split; [done|].
    unfold lp_element. rewrite E. pose proof (Zlen_nonneg s). rewrite lpStringHeader_arith by lia.
    unfold LP_EOF. repeat case_match; unfold rd; simpl; intros [= Er]; dlia.
Qed.

(** Reading an inserted string back yields the string. *)
Lemma lp_value_element s : Zlen (lp_element s) < 2 ^ 32 -> lp_value (lp_element s) = s.
Proof.
  intros Hl. unfold lp_value, lp_element in *. destruct (lpStringToInt64 s) as [v|] eqn:E.
  - apply lpStringToInt64_sound in E as [-> Hv]. destruct (lpGet_int v [] [] None Hv) as [Hg _].
    rewrite app_nil_r in Hg. rewrite Zlen_nil in Hg. cbn [app] in Hg. by rewrite Hg.
  - pose proof (Zlen_lp_element s E) as [H1 H2]. unfold lp_element in H1, H2. rewrite E in H1, H2.
    destruct (lpGet_str s [] [] None ltac:(lia)) as [Hg _]. rewrite app_nil_r in Hg. rewrite Zlen_nil in Hg. cbn [app] in Hg.
    rewrite Hg. unfold Zlen at 1 2. rewrite Z.add_0_l, !Nat2Z.id, drop_app_length. by apply take_ge.
Qed.

Lemma lp_value_int v : INT64_MIN <= v <= INT64_MAX -> lp_value (lpEncodeIntegerGetType v) = dec v.
Proof.
  intros Hv. unfold lp_value. destruct (lpGet_int v [] [] None Hv) as [Hg _].
  rewrite app_nil_r in Hg. rewrite Zlen_nil in Hg. cbn [app] in Hg. by rewrite Hg.
Qed.

(** ** Splicing

    The common shape of an edit: the bytes of [es1] stay, the [n_old] bytes
    after them are replaced by [n_new] bytes, the rest (with EOF) is moved. *)

(** [lp] still holds header number [num], the entries of [es1] and, at offset
    [q], the entries of [es2] with EOF. *)
Record spliced (lp : list Z) (num : Z) (es1 es2 : list (list Z)) (q : Z) : Prop := {
  sp_num : rdn lp 4 2 = Ret (le_bytes 2 num);
  sp_left : rdn lp LP_HDR_SIZE (Zlen (body es1)) = Ret (body es1);
  sp_right : rdn lp q (Zlen (body es2) + 1) = Ret (body es2 ++ [LP_EOF]);
}.

Lemma spliced_of_rep lp num es1 rs es2 : lp_rep lp (es1 ++ rs ++ es2) ->
  rdn lp 4 2 = Ret (le_bytes 2 num) ->
  spliced lp num es1 es2 (LP_HDR_SIZE + Zlen (body es1) + Zlen (body rs)).
Proof.
  intros Hrep Hn. pose proof (rep_body _ _ Hrep) as Hb. rewrite !body_app, <- !app_assoc in Hb.
  replace (Zlen (body es1 ++ body rs ++ body es2) + 1)
    with (Zlen (body es1) + Zlen (body rs ++ body es2 ++ [LP_EOF])) in Hb
    by (rewrite !Zlen_app, (Zlen_cons LP_EOF), Zlen_nil; lia).
  apply rdn_split in Hb as [H1 Hb]. rewrite Zlen_app in Hb. apply rdn_split in Hb as [_ Hb].
  split; [done|done|]. by rewrite Zlen_app, (Zlen_cons LP_EOF), Zlen_nil in Hb.
Qed.

(** Growing and shrinking the allocation. *)
Lemma spliced_realloc `{Allocator} lp num es1 es2 q n :
  spliced lp num es1 es2 q -> LP_HDR_SIZE + Zlen (body es1) <= n -> q + Zlen (body es2) + 1 <= n ->
  spliced (zrealloc lp n) num es1 es2 q.
Proof.
  intros [Hn Hl Hr] H1 H2. pose proof (zlen_body_nonneg es1). pose proof (zlen_body_nonneg es2).
  pose proof (rdn_length _ _ _ _ Hn) as (_ & _ & ?). pose proof (rdn_length _ _ _ _ Hl) as (_ & _ & ?).
  pose proof (rdn_length _ _ _ _ Hr) as (_ & ? & ?). unfold LP_HDR_SIZE in *.
  split; unfold LP_HDR_SIZE; (rewrite rdn_zrealloc; [done|lia..]).
Qed.

(** Moving the right part. *)
Lemma spliced_move lp num es1 es2 q q' : spliced lp num es1 es2 q ->
  LP_HDR_SIZE + Zlen (body es1) <= q' -> q' + Zlen (body es2) + 1 <= Zlen lp ->
  exists lp', c_memmove lp q' q (Zlen (body es2) + 1) = Ret lp' /\ Zlen lp' = Zlen lp /\
    spliced lp' num es1 es2 q' /\
    (forall j n, j + n <= q' -> rdn lp' j n = rdn lp j n).
Proof.
  intros [Hn Hl Hr] H1 H2. pose proof (zlen_body_nonneg es1). pose proof (zlen_body_nonneg es2).
  pose proof (rdn_length _ _ _ _ Hr) as (_ & ? & ?). unfold LP_HDR_SIZE in *.
  destruct (memmove_spec lp q' q (Zlen (body es2) + 1)) as (lp' & Hm & Hlen & Hin & Hout); try lia.
  exists lp'. split; [done|]. split; [done|]. split.
  - split; unfold LP_HDR_SIZE.
    + rewrite Hout by lia. done.
    + rewrite Hout by lia. done.
    + specialize (Hin 0 (Zlen (body es2) + 1)). rewrite !Z.add_0_r in Hin. rewrite Hin by lia. done.
  - intros j n Hj. apply Hout. lia.
Qed.

(** Writes between the two parts. *)
Lemma spliced_write lp num es1 es2 q i xs : spliced lp num es1 es2 q ->
  LP_HDR_SIZE + Zlen (body es1) <= i -> i + Zlen xs <= q ->
  exists lp', wrn lp i xs = Ret lp' /\ Zlen lp' = Zlen lp /\ spliced lp' num es1 es2 q /\
    rdn lp' i (Zlen xs) = Ret xs /\
    (forall j n, j + n <= i \/ i + Zlen xs <= j -> rdn lp' j n = rdn lp j n).
Proof.
  intros [Hn Hl Hr] H1 H2. pose proof (zlen_body_nonneg es1). pose proof (zlen_body_nonneg es2).
  pose proof (rdn_length _ _ _ _ Hr) as (_ & ? & ?). unfold LP_HDR_SIZE in *.
  destruct (wrn_spec lp i xs ltac:(lia) ltac:(lia)) as (lp' & Hw & Hlen & Hin & Hout).
  exists lp'. split; [done|]. split; [done|]. split; [|done].
  split; unfold LP_HDR_SIZE; rewrite Hout by lia; done.
Qed.

(** Updating the header. *)
Lemma finish_header lp num num' es1 new es2 :
  spliced lp num es1 es2 (LP_HDR_SIZE + Zlen (body es1) + Zlen (body new)) ->
  rdn lp (LP_HDR_SIZE + Zlen (body es1)) (Zlen (body new)) = Ret (body new) ->
  Forall valid_payload (es1 ++ new ++ es2) -> lp_total (es1 ++ new ++ es2) < 2 ^ 32 ->
  num' = LP_HDR_NUMELE_UNKNOWN \/
    num' = Zlen (es1 ++ new ++ es2) /\ num' < LP_HDR_NUMELE_UNKNOWN ->
  forall lp1, (num' = num /\ lp1 = lp \/ lpSetNumElements lp num' = Ret lp1) ->
  exists lp2, lpSetTotalBytes lp1 (lp_total (es1 ++ new ++ es2)) = Ret lp2 /\
    Zlen lp2 = Zlen lp /\ lp_rep lp2 (es1 ++ new ++ es2).
Proof.
  intros [Hn Hl Hr] Hnew Hv Hsmall Hnum lp1 Hlp1.
  pose proof (zlen_body_nonneg es1). pose proof (zlen_body_nonneg es2).
  pose proof (zlen_body_nonneg new).
  pose proof (rdn_length _ _ _ _ Hr) as (_ & ? & ?). unfold LP_HDR_SIZE in *.
  assert (rdn lp1 4 2 = Ret (le_bytes 2 num') /\ Zlen lp1 = Zlen lp /\
    forall j n, 6 <= j -> rdn lp1 j n = rdn lp j n) as (Hn1 & Hlen1 & Hk1).
  { destruct Hlp1 as [[-> ->]|Hs]; [done|]. rewrite lpSetNumElements_wrn in Hs by lia.
    destruct (wrn_spec lp 4 (le_bytes 2 num')) as (lp1' & Hw & Hlen & Hin & Hout); try done.
    { rewrite Zlen_le_bytes. lia. }
    rewrite Hw in Hs. injection Hs as ->. rewrite Zlen_le_bytes in Hin, Hout.
    split; [done|]. split; [done|]. intros j n Hj. apply Hout. lia. }
  rewrite lpSetTotalBytes_wrn by lia.
  destruct (wrn_spec lp1 0 (le_bytes 4 (lp_total (es1 ++ new ++ es2)))) as (lp2 & Hw & Hlen & Hin & Hout);
    try done.
  { rewrite Zlen_le_bytes. lia. }
  rewrite Zlen_le_bytes in Hin, Hout. exists lp2. split; [done|]. split; [lia|]. split; try done.
  - exists num'. split; [by rewrite Hout by lia|done].
  - unfold LP_HDR_SIZE. rewrite Hout, Hk1 by lia. rewrite !body_app, !Zlen_app, <- !app_assoc.
    rewrite <- !Z.add_assoc. apply rdn_join; [done|]. apply rdn_join; [done|].
    done.
Qed.

(** ** lpInsert *)

(** The elements an insertion adds. *)
Definition ins_new (elestr eleint : option (list Z)) : list (list Z) :=
  match elestr, eleint with
  | Some s, _ => [lp_element s]
  | None, Some ie => [ie]
  | None, None => []
  end.

Lemma Zlen_body_one e : Zlen (body [e]) = entry_len e.
Proof. rewrite Zlen_body. simpl. lia. Qed.

Lemma body_one e : body [e] = e ++ lpEncodeBacklen (Zlen e).
Proof. unfold body, entry. simpl. by rewrite app_nil_r. Qed.

Section insert.
Context `{Allocator}.

(** The part of [lpInsert] after the size check, when the bytes of [rs] make
    place for those of [new]. *)
Lemma insert_core lp num es1 rs es2 new :
  let P := LP_HDR_SIZE + Zlen (body es1) in
  let old := lp_total (es1 ++ rs ++ es2) in
  let nw := lp_total (es1 ++ new ++ es2) in
  lp_rep lp (es1 ++ rs ++ es2) -> rdn lp 4 2 = Ret (le_bytes 2 num) ->
  let lpa := if (old <? nw) && (Zlen lp <? nw) then zrealloc lp nw else lp in
  exists lpb, c_memmove lpa (P + Zlen (body new)) (P + Zlen (body rs)) (old - P - Zlen (body rs)) = Ret lpb /\
  let lpc := if nw <? old then zrealloc lpb nw else lpb in
  spliced lpc num es1 es2 (P + Zlen (body new)).
Proof.
  intros P old nw Hrep Hn lpa. pose proof (rep_size _ _ Hrep) as Hsz. fold old in Hsz.
  pose proof (spliced_of_rep _ _ _ _ _ Hrep Hn) as Hsp. fold P in Hsp.
  pose proof (zlen_body_nonneg es1). pose proof (zlen_body_nonneg es2).
  pose proof (zlen_body_nonneg new). pose proof (zlen_body_nonneg rs).
  assert (old = P + Zlen (body rs) + Zlen (body es2) + 1) as Eold.
  { unfold old, P, lp_total, LP_HDR_SIZE. rewrite !body_app, !Zlen_app. lia. }
  assert (nw = P + Zlen (body new) + Zlen (body es2) + 1) as Enw.
  { unfold nw, P, lp_total, LP_HDR_SIZE. rewrite !body_app, !Zlen_app. lia. }
  assert (6 <= P) by (unfold P, LP_HDR_SIZE; lia).
  clearbody old nw.
  assert (spliced lpa num es1 es2 (P + Zlen (body rs)) /\ nw <= Zlen lpa \/
          spliced lpa num es1 es2 (P + Zlen (body rs)) /\ nw <= old /\ old <= Zlen lpa) as Ha.
  { unfold lpa. destruct (Z.ltb_spec old nw), (Z.ltb_spec (Zlen lp) nw); cbn [andb]; try lia.
    - left. split; [apply spliced_realloc; [done|unfold P in *; lia..]|apply zrealloc_size_ge].
    - left. split; [done|lia].
    - right. split; [done|lia]. }
  assert (spliced lpa num es1 es2 (P + Zlen (body rs)) /\ nw <= Zlen lpa) as [Hspa Hla].
  { destruct Ha as [[? ?]|[? [? ?]]]; (split; [done|lia]). }
  destruct (spliced_move lpa num es1 es2 (P + Zlen (body rs)) (P + Zlen (body new))) as (lpb & Hm & Hlen & Hspb & _);
    [done|unfold P; lia|lia|].
  exists lpb. split; [replace (old - P - Zlen (body rs)) with (Zlen (body es2) + 1) by lia; done|].
  cbv zeta. destruct (nw <? old); [|done]. apply spliced_realloc; [done|unfold P in *; lia..].
Qed.

(** Writing the one new entry. *)
Lemma write_entry lp num es1 es2 e :
  let P := LP_HDR_SIZE + Zlen (body es1) in
  spliced lp num es1 es2 (P + entry_len e) ->
  exists lp1 lp2, wrn lp P e = Ret lp1 /\
    wrn lp1 (P + Zlen e) (lpEncodeBacklen (Zlen e)) = Ret lp2 /\
    spliced lp2 num es1 es2 (P + entry_len e) /\
    rdn lp2 P (entry_len e) = Ret (body [e]).
Proof.
  intros P Hsp. pose proof (Zlen_nonneg e). pose proof (lpEncodeBacklen_length (Zlen e)) as Hbl.
  pose proof (backlen_bytes_range (Zlen e)).
  destruct (spliced_write lp num es1 es2 (P + entry_len e) P e) as (lp1 & Hw1 & Hl1 & Hsp1 & Hin1 & _);
    [done|unfold P; lia|unfold entry_len; lia|].
  destruct (spliced_write lp1 num es1 es2 (P + entry_len e) (P + Zlen e) (lpEncodeBacklen (Zlen e)))
    as (lp2 & Hw2 & Hl2 & Hsp2 & Hin2 & Hout2); [done|unfold P; lia|unfold entry_len; lia|].
  exists lp1, lp2. split; [done|]. split; [done|]. split; [done|].
  rewrite body_one. unfold entry_len. rewrite <- Hbl. apply rdn_join; [|done].
  rewrite Hout2 by lia. done.
Qed.

(** What the caller must know of an element to insert: an encoding, or a
    string too long to fit. *)
Definition ins_ok (e : list Z) : Prop := Zlen e < 2 ^ 33 /\ (Zlen e < 2 ^ 32 -> valid_payload e).

Lemma ins_ok_str s : Forall is_byte s -> Zlen s < 2 ^ 32 -> ins_ok (lp_element s).
Proof.
  intros Hs Hl. split; [|by apply str_payload_valid].
  unfold lp_element. destruct (lpStringToInt64 s) as [v|] eqn:E.
  - apply lpStringToInt64_sound in E as [_ Hv]. destruct (int_payload_valid v Hv) as (_ & ? & _). lia.
  - rewrite Zlen_app. unfold lpStringHeader. repeat case_match; zlen; lia.
Qed.

Lemma ins_ok_int v : INT64_MIN <= v <= INT64_MAX -> ins_ok (lpEncodeIntegerGetType v).
Proof. intros Hv. pose proof (int_payload_valid v Hv) as Hp. split; [destruct Hp as (_ & ? & _); lia|done]. Qed.

Lemma replaced_len lp es1 rs es2 w : lp_rep lp (es1 ++ rs ++ es2) ->
  (w = LP_BEFORE /\ rs = [] \/ w = LP_REPLACE /\ exists x, rs = [x]) ->
  let P := LP_HDR_SIZE + Zlen (body es1) in
  (if w =? LP_REPLACE then
     l ← lpCurrentEncodedSizeUnsafe lp P;
     let l := u32 (l + lpEncodeBacklenBytes l) in
     _ ← ASSERT_INTEGRITY_LEN lp P l; Ret l
   else Ret 0) = Ret (Zlen (body rs)).
Proof.
  intros Hrep [[-> ->]|[-> [x ->]]] P; [done|]. cbn [Z.eqb LP_REPLACE Pos.eqb].
  pose proof (rep_wf _ _ Hrep) as Hwf. pose proof (rep_small _ _ Hrep) as Hsm.
  pose proof (wf_at _ _ _ Hwf (length es1) x) as Hat. rewrite lp_off_body in Hat.
  rewrite lookup_app_r, Nat.sub_diag in Hat by lia. specialize (Hat eq_refl). fold P in Hat.
  rewrite (entry_size _ _ _ Hat). cbn [mbind outcome_bind]. fold (entry_len x).
  pose proof (entry_len_bounds x (proj1 Hat)).
  assert (lp_total (es1 ++ [x] ++ es2) = P + entry_len x + Zlen (body es2) + 1) as Et.
  { unfold lp_total, P, LP_HDR_SIZE. rewrite !body_app, !Zlen_app, Zlen_body_one. lia. }
  pose proof (zlen_body_nonneg es1). pose proof (zlen_body_nonneg es2).
  unfold P, LP_HDR_SIZE in Et.
  rewrite wrapu_id by lia. unfold ASSERT_INTEGRITY_LEN. rewrite (rep_get_total _ _ Hrep).
  cbn [mbind outcome_bind]. unfold P, LP_HDR_SIZE. decide_tests. cbn [c_assert mbind outcome_bind].
  by rewrite Zlen_body_one.
Qed.

(** Reading the byte after the left part. *)
Lemma spliced_eof lp num es1 es2 : Forall valid_payload es2 ->
  spliced lp num es1 es2 (LP_HDR_SIZE + Zlen (body es1)) ->
  exists b, rd lp (LP_HDR_SIZE + Zlen (body es1)) = Ret b /\ (b =? LP_EOF) = bool_decide (es2 = []).
Proof.
  intros Hv [_ _ Hr]. pose proof (zlen_body_nonneg es2).
  pose proof (rd_of_rdn _ _ _ _ 0 Hr ltac:(lia)) as E. rewrite Z.add_0_r in E. rewrite E.
  destruct es2 as [|e es2]; [by exists LP_EOF|]. apply Forall_cons_1 in Hv as [He _].
  destruct (valid_payload_head e He) as (b & Hb & _ & Hne & _). exists b.
  rewrite bool_decide_false by done. destruct e as [|b' e]; [done|]. injection Hb as ->.
  split; [done|]. by apply Z.eqb_neq.
Qed.

(** The header count after the edit. *)
Definition ins_num (num d : Z) : Z := if num =? LP_HDR_NUMELE_UNKNOWN then num else num + d.

Lemma count_step lp num es1 es2 q d : spliced lp num es1 es2 q ->
  0 <= num <= LP_HDR_NUMELE_UNKNOWN -> (num <> LP_HDR_NUMELE_UNKNOWN -> 0 <= num + d < 2 ^ 32) ->
  exists lp1,
    (n ← lpGetNumElements lp;
     if negb (n =? LP_HDR_NUMELE_UNKNOWN) then lpSetNumElements lp (u32 (n + d)) else Ret lp) = Ret lp1 /\
    (ins_num num d = num /\ lp1 = lp \/ lpSetNumElements lp (ins_num num d) = Ret lp1).
Proof.
  intros [Hn _ _] Hnum Hd. rewrite (get_num _ _ Hn)
    by (unfold LP_HDR_NUMELE_UNKNOWN, UINT16_MAX in *; lia).
  cbn [mbind outcome_bind]. unfold ins_num.
  destruct (Z.eqb_spec num LP_HDR_NUMELE_UNKNOWN) as [E|E]; cbn [negb]; [by eauto|].
  rewrite wrapu_id by auto. pose proof (rdn_length _ _ _ _ Hn) as (_ & _ & ?).
  rewrite !lpSetNumElements_wrn by lia.
  destruct (wrn_spec lp 4 (le_bytes 2 (num + d)) ltac:(lia)) as (lp1 & Hw & _).
  { rewrite Zlen_le_bytes. lia. }
  exists lp1. split; [done|by right].
Qed.

Lemma ins_num_ok num n n' : 0 <= num <= LP_HDR_NUMELE_UNKNOWN ->
  (num = LP_HDR_NUMELE_UNKNOWN \/ num = n /\ num < LP_HDR_NUMELE_UNKNOWN) ->
  n' - n <= 1 -> 0 <= n ->
  ins_num num (n' - n) = LP_HDR_NUMELE_UNKNOWN \/
  ins_num num (n' - n) = n' /\ ins_num num (n' - n) < LP_HDR_NUMELE_UNKNOWN.
Proof.
  intros Hb Hc Hd Hn. unfold ins_num, LP_HDR_NUMELE_UNKNOWN, UINT16_MAX in *.
  destruct (Z.eqb_spec num (2 ^ 16 - 1)); lia.
Qed.

Lemma lpInsert_core lp es1 rs es2 elestr eleint w :
  let new := ins_new elestr eleint in
  let P := LP_HDR_SIZE + Zlen (body es1) in
  lp_rep lp (es1 ++ rs ++ es2) -> Forall ins_ok new ->
  (new <> [] /\ w = LP_BEFORE /\ rs = [] \/ (new = [] \/ w = LP_REPLACE) /\ exists x, rs = [x]) ->
  if lp_total (es1 ++ new ++ es2) <? 2 ^ 32 then
    exists lp', lpInsert lp elestr eleint P w =
      Ret (Some (lp', if bool_decide (new = [] /\ es2 = []) then None else Some P)) /\
    lp_rep lp' (es1 ++ new ++ es2)
  else lpInsert lp elestr eleint P w = Ret None.
Proof.
  intros new P Hrep Hok Hcase. unfold lpInsert.
  set (del := match elestr with Some _ => false | None => match eleint with Some _ => false | None => true end end).
  assert (del = bool_decide (new = [])) as Hdel by (unfold del, new; by destruct elestr, eleint).
  set (w' := if del then LP_REPLACE else w).
  assert (w' = LP_BEFORE /\ rs = [] /\ new <> [] \/ w' = LP_REPLACE /\ exists x, rs = [x]) as Hw.
  { unfold w'. rewrite Hdel. destruct Hcase as [(Hn & -> & ->)|[[Hn| ->] Hx]].
    - rewrite bool_decide_false by done. by left.
    - rewrite bool_decide_true by done. by right.
    - right. split; [by destruct (bool_decide _)|done]. }
  assert ((w' =? LP_AFTER) = false) as -> by (by destruct Hw as [(-> & _)|(-> & _)]).
  cbn [mbind outcome_bind]. cbv zeta. rewrite (rep_get_total _ _ Hrep).
  pose proof (rep_small _ _ Hrep) as Hsm. pose proof (rep_size _ _ Hrep) as Hsz.
  destruct (rep_get_num _ _ Hrep) as (num & Hgn & Hnb & Hnr & Hnc).
  pose proof (replaced_len lp es1 rs es2 w' Hrep) as Hrepl. cbv zeta in Hrepl. fold P in Hrepl.
  pose proof (insert_core lp num es1 rs es2 new Hrep Hnb) as Hcore. cbv zeta in Hcore. fold P in Hcore.
  set (old := lp_total (es1 ++ rs ++ es2)) in *. set (nw := lp_total (es1 ++ new ++ es2)) in *.
  pose proof (zlen_body_nonneg es1). pose proof (zlen_body_nonneg es2).
  pose proof (zlen_body_nonneg new). pose proof (zlen_body_nonneg rs).
  assert (nw = old + Zlen (body new) - Zlen (body rs)) as Enw.
  { unfold nw, old, lp_total. rewrite !body_app, !Zlen_app. lia. }
  assert (0 <= nw) as Hnw0 by (unfold nw, lp_total; pose proof (zlen_body_nonneg (es1 ++ new ++ es2)); lia).
  (* the encoded lengths *)
  set (enc := match elestr with Some _ => _ | None => _ end).
  assert (Zlen (body new) < 2 ^ 33 + 5) as Hnewb.
  { unfold new, ins_new in *. destruct elestr as [s|]; [|destruct eleint as [ie|]].
    - apply Forall_cons_1 in Hok as [[? _] _]. rewrite Zlen_body_one. unfold entry_len.
      pose proof (backlen_bytes_range (Zlen (lp_element s))). lia.
    - apply Forall_cons_1 in Hok as [[? _] _]. rewrite Zlen_body_one. unfold entry_len.
      pose proof (backlen_bytes_range (Zlen ie)). lia.
    - unfold Zlen. simpl. lia. }
  assert (exists ty oi l, enc = (ty, oi, l) /\
    l + Zlen (if del then [] else lpEncodeBacklen l) = Zlen (body new) /\
    match new with
    | [e] => l = Zlen e /\ forall lq, (if ty =? LP_ENCODING_INT then
        match oi with Some ie => wrn lq P ie | None => OutOfBounds end
        else match elestr with Some s => lpEncodeString lq P s | None => AssertFail end) = wrn lq P e
    | _ => new = []
    end) as (ty & oi & l & Eenc & Hl & Hwrite).
  { unfold enc, new, ins_new, del. destruct elestr as [s|]; [|destruct eleint as [ie|]].
    - rewrite lpEncodeGetType_spec. cbv iota beta. eexists _, _, _. split; [done|].
      rewrite Zlen_body_one. unfold entry_len. rewrite lpEncodeBacklen_length. split; [done|].
      split; [done|]. intros lq. unfold lp_element, lpEncodeString. by destruct (lpStringToInt64 s).
    - eexists _, _, _. split; [done|]. rewrite Zlen_body_one. unfold entry_len.
      by rewrite lpEncodeBacklen_length.
    - by eexists _, _, _. }
  clearbody enc. subst enc. cbv iota beta. set (bl := if del then [] else lpEncodeBacklen l) in *.
  change (lpGetTotalBytes lp) with (lpBytes lp). unfold lpBytes. cbn [mbind outcome_bind].
  rewrite Hrepl by (destruct Hw as [(? & ? & _)|?]; [by left|by right]).
  cbn [mbind outcome_bind].
  replace (old + l + Zlen bl - Zlen (body rs)) with nw by lia.
  assert (nw < 2 ^ 34) as Hnw34 by lia. rewrite (wrapu_id 64 nw) by lia. clear Hnw34.
  destruct (Z.ltb_spec nw (2 ^ 32)) as [Hfit|Hbig].
  2:{ destruct (Z.ltb_spec UINT32_MAX nw) as [_|Hc]; [reflexivity|unfold UINT32_MAX in Hc; lia]. }
  destruct (Z.ltb_spec UINT32_MAX nw) as [Hc|_]; [unfold UINT32_MAX in Hc; lia|].
  replace (P + l + Zlen bl) with (P + Zlen (body new)) by lia.
  destruct Hcore as (lpb & Hmm & Hsp).
  match goal with |- context [if w' =? LP_BEFORE then ?a else ?b] =>
    replace (if w' =? LP_BEFORE then a else b) with (Ret lpb) end.
  2:{ symmetry. rewrite <- Hmm. destruct Hw as [(-> & -> & _)|(-> & _)]; cbn [Z.eqb LP_BEFORE LP_REPLACE];
      [|done]. change (Zlen (body [])) with 0. by rewrite Z.add_0_r, Z.sub_0_r. }
  cbn [mbind outcome_bind]. set (lpc := if nw <? old then zrealloc lpb nw else lpb) in *.
  assert (Forall valid_payload es1 /\ Forall valid_payload es2) as [Hv1 Hv2].
  { pose proof (rep_valid _ _ Hrep) as Hv. rewrite !Forall_app in Hv. tauto. }
  pose proof (Zlen_nonneg es1) as L1. pose proof (Zlen_nonneg es2) as L2.
  clearbody del w' lpc. unfold bl in *. clear bl. clearbody new.
  destruct new as [|e [|? ?]]; [| |done].
  - (* deletion *)
    rewrite bool_decide_true in Hdel by done. subst del.
    destruct Hw as [(_ & _ & ?)|(-> & x & ->)]; [done|]. cbn [negb orb Z.eqb LP_REPLACE Pos.eqb].
    change (Zlen (body [])) with 0 in *. rewrite Z.add_0_r in Hsp.
    destruct (spliced_eof _ _ _ _ Hv2 Hsp) as (b & Hb & Hbe). fold P in Hb. rewrite Hb.
    cbn [mbind outcome_bind]. rewrite Hbe.
    destruct (count_step _ _ _ _ _ (-1) Hsp Hnr) as (lp1 & Hc1 & Hset).
    { intros Hne. unfold LP_HDR_NUMELE_UNKNOWN, UINT16_MAX in *. rewrite !Zlen_app, Zlen_cons in Hnc.
      change (Zlen []) with 0 in Hnc. lia. }
    destruct (finish_header lpc num (ins_num num (-1)) es1 [] es2) with (lp1 := lp1) as (lp2 & Ht & _ & Hrep2).
    + change (Zlen (body [])) with 0. by rewrite Z.add_0_r.
    + change (Zlen (body [])) with 0. apply rdn_nil. apply rd_Ret_inv in Hb. unfold P in Hb. lia.
    + by apply Forall_app_2.
    + done.
    + pose proof (ins_num_ok num (Zlen (es1 ++ [x] ++ es2)) (Zlen (es1 ++ [] ++ es2)) Hnr Hnc) as Hi.
      rewrite !Zlen_app, Zlen_cons in *. change (Zlen []) with 0 in *.
      replace (Zlen es1 + (0 + Zlen es2) - (Zlen es1 + (1 + 0 + Zlen es2))) with (-1) in Hi by lia.
      apply Hi; lia.
    + done.
    + exists lp2. split; [|done].
      match goal with |- context [mbind ?k (lpGetNumElements lpc)] =>
        replace (mbind k (lpGetNumElements lpc)) with (Ret lp1) by (symmetry; exact Hc1) end.
      fold nw in Ht. destruct (decide (es2 = [])) as [E|E].
      * rewrite !bool_decide_true by done. cbn [mbind outcome_bind]. by rewrite Ht.
      * rewrite !bool_decide_false by tauto. cbn [mbind outcome_bind]. by rewrite Ht.
  - (* insertion or replacement of one element *)
    rewrite bool_decide_false in Hdel by done. subst del. destruct Hwrite as [-> Hwrite].
    rewrite bool_decide_false by (intros [? _]; done).
    rewrite Zlen_body_one in Hsp. cbn [mbind outcome_bind].
    destruct (write_entry _ _ _ _ e Hsp) as (lw1 & lw2 & Hw1 & Hw2 & Hsp2 & Hin).
    fold P in Hw1, Hw2, Hin. rewrite Hwrite, Hw1. cbn [mbind outcome_bind]. rewrite Hw2.
    cbn [mbind outcome_bind].
    assert (exists d lp1, Zlen (es1 ++ [e] ++ es2) - Zlen (es1 ++ rs ++ es2) = d /\
      (if negb (w' =? LP_REPLACE) || false then
         n ← lpGetNumElements lw2;
         if negb (n =? LP_HDR_NUMELE_UNKNOWN) then lpSetNumElements lw2 (u32 (n + 1)) else Ret lw2
       else Ret lw2) = Ret lp1 /\ d <= 1 /\
      (ins_num num d = num /\ lp1 = lw2 \/ lpSetNumElements lw2 (ins_num num d) = Ret lp1))
      as (d & lp1 & Hd & Hc1 & Hd1 & Hset).
    { destruct Hw as [(-> & -> & _)|(-> & x & ->)]; cbn [negb orb Z.eqb LP_REPLACE LP_BEFORE Pos.eqb].
      - destruct (count_step _ _ _ _ _ 1 Hsp2 Hnr) as (lp1 & Hc1 & Hset).
        { unfold LP_HDR_NUMELE_UNKNOWN, UINT16_MAX in *. lia. }
        exists 1, lp1. split; [|done]. rewrite !Zlen_app, Zlen_cons. change (Zlen []) with 0. lia.
      - exists 0, lw2. split; [rewrite !Zlen_app, !Zlen_cons; lia|]. split; [done|]. split; [lia|].
        left. split; [|done]. unfold ins_num. destruct (num =? _); lia. }
    rewrite Hc1. cbn [mbind outcome_bind].
    destruct (finish_header lw2 num (ins_num num d) es1 [e] es2) with (lp1 := lp1)
      as (lp2 & Ht & _ & Hrep2); try done.
    + by rewrite Zlen_body_one.
    + by rewrite Zlen_body_one.
    + apply Forall_app_2; [done|]. apply Forall_app_2; [|done]. apply Forall_cons_2; [|done].
      apply Forall_cons_1 in Hok as [[_ Hok] _]. apply Hok. clear -Hfit H H1 Enw Hsz H0.
      unfold nw, lp_total in Hfit. rewrite !body_app, !Zlen_app, Zlen_body_one in Hfit.
      unfold entry_len in Hfit. pose proof (backlen_bytes_range (Zlen e)). lia.
    + rewrite <- Hd. apply ins_num_ok; [done|done|lia|apply Zlen_nonneg].
    + exists lp2. fold nw in Ht. rewrite Ht. done.
Qed.
End insert.

(** ** The callers of lpInsert *)

Section api.
Context `{Allocator}.

Lemma lpInsert_after lp es1 x es2 elestr eleint : lp_rep lp (es1 ++ x :: es2) ->
  ins_new elestr eleint <> [] ->
  lpInsert lp elestr eleint (LP_HDR_SIZE + Zlen (body es1)) LP_AFTER =
  lpInsert lp elestr eleint (LP_HDR_SIZE + Zlen (body (es1 ++ [x]))) LP_BEFORE.
Proof.
  intros Hrep Hne. pose proof (rep_wf _ _ Hrep) as Hwf.
  assert ((length es1 < length (es1 ++ x :: es2))%nat) as Hlt by (rewrite length_app; simpl; lia).
  pose proof (lpSkip_wf _ _ _ Hwf (length es1) Hlt) as Hskip. rewrite lp_off_body in Hskip.
  assert (lp_off (es1 ++ x :: es2) (S (length es1)) = LP_HDR_SIZE + Zlen (body (es1 ++ [x]))) as Eo.
  { change (es1 ++ x :: es2) with (es1 ++ [x] ++ es2). rewrite app_assoc, <- lp_off_body with (es2 := es2).
    f_equal. rewrite length_app. simpl. lia. }
  rewrite Eo in Hskip. pose proof (lp_off_range _ _ _ Hwf (S (length es1)) ltac:(lia)) as Hr.
  rewrite Eo in Hr. unfold lpInsert, ins_new in *.
  assert (ASSERT_INTEGRITY lp (LP_HDR_SIZE + Zlen (body (es1 ++ [x]))) = Ret tt) as Ha.
  { unfold ASSERT_INTEGRITY. rewrite (rep_get_total _ _ Hrep). cbn [mbind outcome_bind].
    unfold LP_HDR_SIZE in *. decide_tests. done. }
  destruct elestr as [s|]; [|destruct eleint as [ie|]; [|done]];
    cbn [Z.eqb LP_AFTER LP_BEFORE LP_REPLACE Pos.eqb]; rewrite Hskip; cbn [mbind outcome_bind];
    rewrite Ha; reflexivity.
Qed.

(** An insertion of one element [e] where [es1] ends, for any of the ways the
    callers ask for it. *)
Definition insert_result (r : outcome (option (list Z * option Z))) (es1 new es2 : list (list Z)) : Prop :=
  if lp_total (es1 ++ new ++ es2) <? 2 ^ 32 then
    exists lp', r = Ret (Some (lp',
        if bool_decide (new = [] /\ es2 = []) then None else Some (LP_HDR_SIZE + Zlen (body es1)))) /\
      lp_rep lp' (es1 ++ new ++ es2)
  else r = Ret None.

Lemma lpInsert_before_spec lp es1 es2 elestr eleint :
  lp_rep lp (es1 ++ es2) -> Forall ins_ok (ins_new elestr eleint) -> ins_new elestr eleint <> [] ->
  insert_result (lpInsert lp elestr eleint (lp_off (es1 ++ es2) (length es1)) LP_BEFORE)
    es1 (ins_new elestr eleint) es2.
Proof.
  intros Hrep Hok Hne. rewrite lp_off_body. apply (lpInsert_core lp es1 [] es2); [done|done|by left].
Qed.

Lemma lpInsert_after_spec lp es1 x es2 elestr eleint :
  lp_rep lp (es1 ++ x :: es2) -> Forall ins_ok (ins_new elestr eleint) -> ins_new elestr eleint <> [] ->
  insert_result (lpInsert lp elestr eleint (lp_off (es1 ++ x :: es2) (length es1)) LP_AFTER)
    (es1 ++ [x]) (ins_new elestr eleint) es2.
Proof.
  intros Hrep Hok Hne. rewrite lp_off_body, (lpInsert_after lp es1 x es2) by done.
  apply (lpInsert_core lp (es1 ++ [x]) [] es2); [by rewrite <- app_assoc|done|by left].
Qed.

Lemma lpInsert_replace_spec lp es1 x es2 elestr eleint :
  lp_rep lp (es1 ++ x :: es2) -> Forall ins_ok (ins_new elestr eleint) ->
  insert_result (lpInsert lp elestr eleint (lp_off (es1 ++ x :: es2) (length es1)) LP_REPLACE)
    es1 (ins_new elestr eleint) es2.
Proof.
  intros Hrep Hok. rewrite lp_off_body. apply (lpInsert_core lp es1 [x] es2); [done|done|].
  right. split; [by right|by exists x].
Qed.

Lemma lpAppend_gen lp es elestr eleint : lp_rep lp es ->
  Forall ins_ok (ins_new elestr eleint) -> ins_new elestr eleint <> [] ->
  (listpack_bytes ← lpGetTotalBytes lp;
   r ← lpInsert lp elestr eleint (listpack_bytes - 1) LP_BEFORE; Ret (no_newp r)) =
  (r ← lpInsert lp elestr eleint (lp_off es (length es)) LP_BEFORE; Ret (no_newp r)).
Proof.
  intros Hrep Hok Hne. rewrite (rep_get_total _ _ Hrep). cbn [mbind outcome_bind].
  by rewrite (lp_off_total _ _ _ (rep_wf _ _ Hrep)).
Qed.

(** The results of the callers that do not ask for the new pointer. *)
Definition edit_result (r : outcome (option (list Z))) (es : list (list Z)) : Prop :=
  if lp_total es <? 2 ^ 32 then exists lp', r = Ret (Some lp') /\ lp_rep lp' es else r = Ret None.

Lemma insert_edit r es1 new es2 : insert_result r es1 new es2 ->
  edit_result (r ← r; Ret (no_newp r)) (es1 ++ new ++ es2).
Proof.
  unfold insert_result, edit_result. destruct (_ <? _); [intros (lp' & -> & ?); by exists lp'|by intros ->].
Qed.

Lemma lpAppend_spec lp es s : lp_rep lp es -> Forall is_byte s -> Zlen s < 2 ^ 32 ->
  edit_result (lpAppend lp s) (es ++ [lp_element s]).
Proof.
  intros Hrep Hs Hl. unfold lpAppend.
  assert (Forall ins_ok (ins_new (Some s) None)) as Hok
    by (apply Forall_cons_2; [by apply ins_ok_str|apply Forall_nil_2]).
  rewrite (lpAppend_gen lp es (Some s) None) by done.
  pose proof (lpInsert_before_spec lp es [] (Some s) None) as Hi. rewrite app_nil_r in Hi.
  by apply insert_edit in Hi.
Qed.

Lemma lpAppendInteger_spec lp es v : lp_rep lp es -> INT64_MIN <= v <= INT64_MAX ->
  edit_result (lpAppendInteger lp v) (es ++ [lpEncodeIntegerGetType v]).
Proof.
  intros Hrep Hv. unfold lpAppendInteger, lpInsertInteger.
  assert (Forall ins_ok (ins_new None (Some (lpEncodeIntegerGetType v)))) as Hok
    by (apply Forall_cons_2; [by apply ins_ok_int|apply Forall_nil_2]).
  rewrite (lpAppend_gen lp es None (Some (lpEncodeIntegerGetType v))) by done.
  pose proof (lpInsert_before_spec lp es [] None (Some (lpEncodeIntegerGetType v))) as Hi.
  rewrite app_nil_r in Hi. by apply insert_edit in Hi.
Qed.

Lemma lpPrepend_spec lp es s : lp_rep lp es -> Forall is_byte s -> Zlen s < 2 ^ 32 ->
  edit_result (lpPrepend lp s) (lp_element s :: es).
Proof.
  intros Hrep Hs Hl. unfold lpPrepend. rewrite (lpFirst_wf _ _ _ (rep_wf _ _ Hrep)).
  cbn [mbind outcome_bind]. unfold lp_ptr. case_decide as Hd.
  - pose proof (lpInsert_before_spec lp [] es (Some s) None Hrep) as Hi. apply insert_edit in Hi; try done.
    apply Forall_cons_2; [by apply ins_ok_str|apply Forall_nil_2].
  - destruct es; [|simpl in Hd; lia]. by apply (lpAppend_spec lp []).
Qed.

Lemma lpPrependInteger_spec lp es v : lp_rep lp es -> INT64_MIN <= v <= INT64_MAX ->
  edit_result (lpPrependInteger lp v) (lpEncodeIntegerGetType v :: es).
Proof.
  intros Hrep Hv. unfold lpPrependInteger, lpInsertInteger. rewrite (lpFirst_wf _ _ _ (rep_wf _ _ Hrep)).
  cbn [mbind outcome_bind]. unfold lp_ptr. case_decide as Hd.
  - pose proof (lpInsert_before_spec lp [] es None (Some (lpEncodeIntegerGetType v)) Hrep) as Hi.
    apply insert_edit in Hi; try done.
    apply Forall_cons_2; [by apply ins_ok_int|apply Forall_nil_2].
  - destruct es; [|simpl in Hd; lia]. by apply (lpAppendInteger_spec lp []).
Qed.

(** ** Batches *)

(** The element an entry of a batch stands for. *)
Definition ent_payload (e : listpackEntry) : list Z :=
  match sval e with Some s => lp_element s | None => lpEncodeIntegerGetType (lval e) end.

Definition ent_ok (e : listpackEntry) : Prop :=
  match sval e with
  | Some s => Forall is_byte s /\ Zlen s < 2 ^ 32
  | None => INT64_MIN <= lval e <= INT64_MAX
  end.

Lemma ent_ins_ok e : ent_ok e -> ins_ok (ent_payload e).
Proof.
  unfold ent_ok, ent_payload. destruct (sval e); [intros [? ?]; by apply ins_ok_str|apply ins_ok_int].
Qed.

Lemma lpEncodeEntry_spec e :
  enclen (lpEncodeEntry e) = Zlen (ent_payload e) /\
  backlen (lpEncodeEntry e) = lpEncodeBacklen (Zlen (ent_payload e)) /\
  backlen_size (lpEncodeEntry e) = lpEncodeBacklenBytes (Zlen (ent_payload e)) /\
  forall lp p, (if enctype (lpEncodeEntry e) =? LP_ENCODING_INT then wrn lp p (intenc (lpEncodeEntry e))
    else match sval e with Some s => lpEncodeString lp p s | None => OutOfBounds end) =
    wrn lp p (ent_payload e).
Proof.
  unfold lpEncodeEntry, ent_payload. destruct (sval e) as [s|].
  - rewrite lpEncodeGetType_spec. cbn [enclen backlen backlen_size enctype intenc].
    rewrite lpEncodeBacklen_length. repeat split. intros lp p. unfold lp_element, lpEncodeString.
    by destruct (lpStringToInt64 s).
  - cbn [enclen backlen backlen_size enctype intenc]. by rewrite lpEncodeBacklen_length.
Qed.

Lemma lpEncodeEntries_spec es added : 0 <= added ->
  added + Zlen (body (map ent_payload es)) < 2 ^ 64 ->
  lpEncodeEntries es added = (map lpEncodeEntry es, added + Zlen (body (map ent_payload es))).
Proof.
  revert added. induction es as [|e es IH]; intros added H0 Hlt; cbn [lpEncodeEntries map].
  - f_equal. unfold Zlen. simpl. lia.
  - cbn [map] in Hlt. rewrite body_cons, Zlen_app, Zlen_entry in Hlt. unfold entry_len in Hlt.
    destruct (lpEncodeEntry_spec e) as (E1 & _ & E3 & _).
    pose proof (Zlen_nonneg (ent_payload e)). pose proof (backlen_bytes_range (Zlen (ent_payload e))).
    pose proof (zlen_body_nonneg (map ent_payload es)).
    rewrite E1, E3. rewrite (wrapu_id 64 (added + _)) by lia. rewrite wrapu_id by lia.
    rewrite IH by lia. rewrite body_cons, Zlen_app, Zlen_entry. unfold entry_len. f_equal. lia.
Qed.

Lemma lpWriteEntries_spec es lp dst newp : 0 <= dst ->
  dst + Zlen (body (map ent_payload es)) <= Zlen lp ->
  exists newp', lpWriteEntries lp dst es (map lpEncodeEntry es) newp =
    (lp' ← wrn lp dst (body (map ent_payload es));
     Ret (lp', dst + Zlen (body (map ent_payload es)), newp')) /\
    (es <> [] -> exists es0 e, es = es0 ++ [e] /\ newp' = Some (dst + Zlen (body (map ent_payload es0)))).
Proof.
  revert lp dst newp. induction es as [|e es IH]; intros lp dst newp Hd Hl; cbn [lpWriteEntries map] in *.
  - exists newp. split; [|done]. pose proof (Zlen_nonneg lp).
    rewrite wrn_ok by (unfold Zlen in *; simpl; lia). cbn [mbind outcome_bind]. simpl.
    rewrite !Z.add_0_r, take_drop. done.
  - rewrite body_cons, Zlen_app, Zlen_entry in Hl. unfold entry_len in Hl.
    destruct (lpEncodeEntry_spec e) as (E1 & E2 & E3 & E4). rewrite E4, E1, E2, E3.
    pose proof (Zlen_nonneg (ent_payload e)). pose proof (backlen_bytes_range (Zlen (ent_payload e))).
    pose proof (zlen_body_nonneg (map ent_payload es)).
    pose proof (lpEncodeBacklen_length (Zlen (ent_payload e))) as Hbl.
    set (a := ent_payload e) in *. set (bl := lpEncodeBacklen (Zlen a)) in *.
    set (b := body (map ent_payload es)) in *.
    rewrite body_cons. unfold entry. fold a bl b. rewrite <- app_assoc.
    destruct (wrn_spec lp dst a ltac:(lia) ltac:(lia)) as (l1 & Hw1 & Hl1 & _).
    destruct (wrn_spec l1 (dst + Zlen a) bl ltac:(lia) ltac:(lia)) as (l2 & Hw2 & Hl2 & _).
    assert (wrn lp dst (a ++ bl ++ b) = wrn l2 (dst + Zlen a + Zlen bl) b) as ->.
    { rewrite <- (wrn_join lp dst a (bl ++ b)) by (rewrite ?Zlen_app; lia). rewrite Hw1.
      cbn [mbind outcome_bind]. rewrite <- (wrn_join l1 (dst + Zlen a) bl b) by lia. by rewrite Hw2. }
    rewrite Hw1. cbn [mbind outcome_bind]. rewrite Hw2. cbn [mbind outcome_bind].
    destruct (IH l2 (dst + Zlen a + lpEncodeBacklenBytes (Zlen a)) (Some dst)) as (newp' & Hw & Hnp);
      [lia|fold b; lia|].
    exists newp'. rewrite Hw, Hbl. fold b. split.
    + destruct (wrn l2 _ b); try done. cbn [mbind outcome_bind]. do 3 f_equal. rewrite !Zlen_app. lia.
    + intros _. destruct es as [|e' es].
      * exists [], e. split; [done|]. cbn [lpWriteEntries map] in Hw. unfold b in Hw.
        rewrite wrn_ok in Hw by (pose proof (Zlen_nonneg l2); unfold Zlen in *; simpl; lia).
        cbn [mbind outcome_bind] in Hw. injection Hw as _ _ <-. f_equal. unfold Zlen. simpl. lia.
      * destruct Hnp as (es0 & e0 & Ees & ->); [done|]. exists (e :: es0), e0. rewrite Ees.
        split; [done|]. cbn [map]. rewrite body_cons, Zlen_app, Zlen_entry. unfold entry_len. fold a.
        f_equal. lia.
Qed.
End api.

Section batch.
Context `{Allocator}.

(** Both orders of updating the header. *)
Lemma finish_header_total_first lp num num' es1 new es2 :
  spliced lp num es1 es2 (LP_HDR_SIZE + Zlen (body es1) + Zlen (body new)) ->
  rdn lp (LP_HDR_SIZE + Zlen (body es1)) (Zlen (body new)) = Ret (body new) ->
  Forall valid_payload (es1 ++ new ++ es2) -> lp_total (es1 ++ new ++ es2) < 2 ^ 32 ->
  num' = LP_HDR_NUMELE_UNKNOWN \/
    num' = Zlen (es1 ++ new ++ es2) /\ num' < LP_HDR_NUMELE_UNKNOWN ->
  exists lp1, lpSetTotalBytes lp (lp_total (es1 ++ new ++ es2)) = Ret lp1 /\
    rdn lp1 4 2 = Ret (le_bytes 2 num) /\ 6 <= Zlen lp1 /\
    (num' = num -> lp_rep lp1 (es1 ++ new ++ es2)) /\
    exists lp2, lpSetNumElements lp1 num' = Ret lp2 /\ lp_rep lp2 (es1 ++ new ++ es2).
Proof.
  intros Hsp Hnew Hv Hsmall Hnum. pose proof Hsp as [Hn Hl Hr].
  pose proof (zlen_body_nonneg es1). pose proof (zlen_body_nonneg es2).
  pose proof (zlen_body_nonneg new). pose proof (rdn_length _ _ _ _ Hr) as (_ & ? & ?).
  unfold LP_HDR_SIZE in *. set (T := lp_total _) in *.
  rewrite lpSetTotalBytes_wrn by lia.
  destruct (wrn_spec lp 0 (le_bytes 4 T) ltac:(lia)) as (lp1 & Hw1 & Hl1 & Hin1 & Hout1).
  { rewrite Zlen_le_bytes. lia. }
  rewrite Zlen_le_bytes in Hin1, Hout1. exists lp1. split; [done|].
  split; [by rewrite Hout1 by lia|]. split; [lia|].
  assert (rdn lp1 LP_HDR_SIZE (Zlen (body (es1 ++ new ++ es2)) + 1) =
    Ret (body (es1 ++ new ++ es2) ++ [LP_EOF])) as Hbody.
  { unfold LP_HDR_SIZE. rewrite Hout1 by lia. rewrite !body_app, !Zlen_app, <- !app_assoc, <- !Z.add_assoc.
    apply rdn_join; [done|]. apply rdn_join; [done|]. done. }
  split.
  - intros ->. split; try done. exists num. split; [by rewrite Hout1 by lia|done].
  - rewrite lpSetNumElements_wrn by lia.
    destruct (wrn_spec lp1 4 (le_bytes 2 num') ltac:(lia)) as (lp2 & Hw2 & Hl2 & Hin2 & Hout2).
    { rewrite Zlen_le_bytes. lia. }
    rewrite Zlen_le_bytes in Hin2, Hout2. exists lp2. split; [done|]. split; try done.
    + fold T. by rewrite Hout2 by lia.
    + exists num'. done.
    + rewrite Hout2 by (unfold LP_HDR_SIZE; lia). done.
Qed.

Lemma lpShrinkToFit_spec lp es : lp_rep lp es ->
  exists lp', lpShrinkToFit lp = Ret lp' /\ lp_rep lp' es.
Proof.
  intros Hrep. unfold lpShrinkToFit. rewrite (rep_get_total _ _ Hrep). cbn [mbind outcome_bind].
  destruct (_ <? _); [|by exists lp]. eexists. split; [done|].
  destruct Hrep as [Hv Hs Ht (num & Hn & Hc) Hb]. pose proof (zlen_body_nonneg es).
  pose proof (rdn_length _ _ _ _ Ht) as (_ & _ & ?). pose proof (rdn_length _ _ _ _ Hn) as (_ & _ & ?).
  pose proof (rdn_length _ _ _ _ Hb) as (_ & _ & ?). unfold lp_total, LP_HDR_SIZE in *.
  split; try done.
  - rewrite rdn_zrealloc by lia. done.
  - exists num. split; [|done]. by rewrite rdn_zrealloc by lia.
  - unfold LP_HDR_SIZE. rewrite rdn_zrealloc by lia. done.
Qed.

(** A batch inserted where [es1] ends. *)
Lemma lpBatchInsert_core lp es1 es2 ents :
  let news := map ent_payload ents in
  let P := LP_HDR_SIZE + Zlen (body es1) in
  lp_rep lp (es1 ++ es2) -> Forall ent_ok ents -> ents <> [] -> Zlen (body news) < 2 ^ 63 ->
  if lp_total (es1 ++ news ++ es2) <? 2 ^ 32 then
    exists lp', lpBatchInsert lp P LP_BEFORE ents =
      Ret (Some (lp', Some (LP_HDR_SIZE + Zlen (body (es1 ++ removelast news))))) /\
    lp_rep lp' (es1 ++ news ++ es2)
  else lpBatchInsert lp P LP_BEFORE ents = Ret None.
Proof.
  intros news P Hrep Hok Hne Hbig. unfold lpBatchInsert. cbv zeta.
  assert (0 < Zlen ents) as Hlen by (destruct ents; [done|zlen; pose proof (Zlen_nonneg ents); lia]).
  cbn [Z.eqb LP_BEFORE LP_AFTER orb c_assert mbind outcome_bind].
  rewrite (proj2 (Z.ltb_lt 0 (Zlen ents))) by done. cbn [c_assert mbind outcome_bind].
  pose proof (zlen_body_nonneg news) as Hn0.
  rewrite lpEncodeEntries_spec by (fold news; lia). fold news. rewrite Z.add_0_l.
  rewrite (rep_get_total _ _ Hrep). cbn [mbind outcome_bind].
  pose proof (rep_small _ _ Hrep) as Hsm. pose proof (rep_size _ _ Hrep) as Hsz.
  destruct (rep_get_num _ _ Hrep) as (num & Hgn & Hnb & Hnr & Hnc).
  pose proof (insert_core lp num es1 [] es2 news Hrep Hnb) as Hcore. cbv zeta in Hcore. fold P in Hcore.
  change ([] ++ es2) with es2 in *. change (Zlen (body [])) with 0 in Hcore.
  set (old := lp_total (es1 ++ es2)) in *. set (nw := lp_total (es1 ++ news ++ es2)) in *.
  pose proof (zlen_body_nonneg es1). pose proof (zlen_body_nonneg es2).
  assert (nw = old + Zlen (body news)) as Enw.
  { unfold nw, old, lp_total. rewrite !body_app, !Zlen_app. lia. }
  assert (0 <= old) as Hold0 by (unfold old, lp_total; pose proof (zlen_body_nonneg (es1 ++ es2)); lia).
  rewrite <- Enw. rewrite (wrapu_id 64 nw) by lia.
  destruct (Z.ltb_spec nw (2 ^ 32)) as [Hfit|Hbg].
  2:{ destruct (Z.ltb_spec UINT32_MAX nw) as [_|Hc]; [reflexivity|unfold UINT32_MAX in Hc; lia]. }
  destruct (Z.ltb_spec UINT32_MAX nw) as [Hc|_]; [unfold UINT32_MAX in Hc; lia|].
  destruct Hcore as (lpb & Hmm & Hsp). rewrite Z.add_0_r, Z.sub_0_r in Hmm. rewrite Hmm.
  cbn [mbind outcome_bind].
  destruct (Z.ltb_spec nw old) as [?|_]; [lia|].
  destruct (spliced_write lpb num es1 es2 _ P (body news) Hsp) as (lpw & Hw & _ & Hspw & Hin & _);
    [unfold P; lia|lia|].
  pose proof (rdn_length _ _ _ _ (sp_right _ _ _ _ _ Hsp)) as (_ & _ & Hfitb).
  destruct (lpWriteEntries_spec ents lpb P None) as (newp' & Hwe & Hnp).
  { unfold P, LP_HDR_SIZE. lia. }
  { fold news. lia. }
  rewrite Hwe. fold news. rewrite Hw. cbn [mbind outcome_bind].
  destruct (Hnp Hne) as (es0 & e0 & Ees & ->). clear Hnp Hwe.
  assert (removelast news = map ent_payload es0) as ->.
  { unfold news. rewrite Ees, map_app. cbn [map]. by rewrite removelast_last. }
  rewrite (get_num _ _ (sp_num _ _ _ _ _ Hspw)) by (unfold LP_HDR_NUMELE_UNKNOWN, UINT16_MAX in *; lia).
  cbn [mbind outcome_bind].
  assert (Forall valid_payload es1 /\ Forall valid_payload es2) as [Hv1 Hv2].
  { pose proof (rep_valid _ _ Hrep) as Hv. rewrite Forall_app in Hv. tauto. }
  assert (Forall valid_payload (es1 ++ news ++ es2)) as Hvall.
  { apply Forall_app_2; [done|]. apply Forall_app_2; [|done].
    assert (Zlen (body news) < 2 ^ 32) as Hnl by lia. clear -Hok Hnl. unfold news in *.
    induction Hok as [|e ents He _ IH]; [constructor|]. cbn [map] in *.
    rewrite body_cons, Zlen_app, Zlen_entry in Hnl. unfold entry_len in Hnl.
    pose proof (zlen_body_nonneg (map ent_payload ents)). pose proof (Zlen_nonneg (ent_payload e)).
    pose proof (backlen_bytes_range (Zlen (ent_payload e))).
    constructor; [|apply IH; lia]. apply (ent_ins_ok e He). lia. }
  set (num' := if num =? LP_HDR_NUMELE_UNKNOWN then num
    else if LP_HDR_NUMELE_UNKNOWN - num <? Zlen ents then LP_HDR_NUMELE_UNKNOWN else num + Zlen ents).
  match goal with |- context [if negb (num =? _) then ?A else ?B] =>
    assert (exists lp1, (if negb (num =? LP_HDR_NUMELE_UNKNOWN) then A else B) = Ret lp1 /\
      (num' = num /\ lp1 = lpw \/ lpSetNumElements lpw num' = Ret lp1)) as (lp1 & -> & Hset) end.
  { unfold num'. pose proof (rdn_length _ _ _ _ (sp_right _ _ _ _ _ Hspw)) as (_ & _ & Hr6).
    destruct (Z.eqb_spec num LP_HDR_NUMELE_UNKNOWN); cbn [negb]; [by eauto|].
    unfold P, LP_HDR_SIZE in *.
    destruct (Z.ltb_spec (LP_HDR_NUMELE_UNKNOWN - num) (Zlen ents)) as [Hc|Hc].
    - rewrite lpSetNumElements_wrn by lia.
      destruct (wrn_spec lpw 4 (le_bytes 2 LP_HDR_NUMELE_UNKNOWN) ltac:(lia)) as (l1 & Hx & _).
      { rewrite Zlen_le_bytes. lia. }
      exists l1. split; [done|by right].
    - unfold LP_HDR_NUMELE_UNKNOWN, UINT16_MAX in *. rewrite wrapu_id by lia.
      rewrite lpSetNumElements_wrn by lia.
      destruct (wrn_spec lpw 4 (le_bytes 2 (num + Zlen ents)) ltac:(lia)) as (l1 & Hx & _).
      { rewrite Zlen_le_bytes. lia. }
      exists l1. split; [done|by right]. }
  cbn [mbind outcome_bind].
  destruct (finish_header lpw num num' es1 news es2) with (lp1 := lp1) as (lp2 & Ht & _ & Hrep2); try done.
  - assert (Zlen news = Zlen ents) as En by (unfold news, Zlen; by rewrite length_map).
    rewrite !Zlen_app, En in *. unfold num'. unfold LP_HDR_NUMELE_UNKNOWN, UINT16_MAX in *.
    destruct (Z.eqb_spec num (2 ^ 16 - 1)); [by left|].
    destruct (Z.ltb_spec (2 ^ 16 - 1 - num) (Zlen ents)); [by left|].
    destruct (decide (num + Zlen ents = 2 ^ 16 - 1)); [by left|right]. lia.
  - fold nw in Ht. rewrite Ht. exists lp2. split; [|done]. cbn [mbind outcome_bind].
    do 4 f_equal. unfold P. rewrite body_app, Zlen_app. lia.
Qed.
End batch.

Section create.
Context `{Allocator}.

(** Building a block from its three parts. *)
Lemma rep_intro lp es num : Forall valid_payload es -> lp_total es < 2 ^ 32 ->
  rdn lp 0 4 = Ret (le_bytes 4 (lp_total es)) -> rdn lp 4 2 = Ret (le_bytes 2 num) ->
  (num = LP_HDR_NUMELE_UNKNOWN \/ num = Zlen es /\ num < LP_HDR_NUMELE_UNKNOWN) ->
  rdn lp LP_HDR_SIZE (Zlen (body es)) = Ret (body es) ->
  rd lp (lp_total es - 1) = Ret LP_EOF -> lp_rep lp es.
Proof.
  intros Hv Hs Ht Hn Hc Hb He. split; try done; [by exists num|].
  apply rdn_join; [done|]. apply rdn_one. rewrite <- He. f_equal. unfold lp_total, LP_HDR_SIZE. lia.
Qed.

(** Writing the header of a block whose entries are in place. *)
Lemma set_header lp es num : 6 <= Zlen lp -> Forall valid_payload es -> lp_total es < 2 ^ 32 ->
  (num = LP_HDR_NUMELE_UNKNOWN \/ num = Zlen es /\ num < LP_HDR_NUMELE_UNKNOWN) ->
  rdn lp LP_HDR_SIZE (Zlen (body es) + 1) = Ret (body es ++ [LP_EOF]) ->
  exists lp1 lp2, lpSetNumElements lp num = Ret lp1 /\ lpSetTotalBytes lp1 (lp_total es) = Ret lp2 /\
    lp_rep lp2 es.
Proof.
  intros Hl Hv Hs Hn Hb. rewrite lpSetNumElements_wrn by lia.
  destruct (wrn_spec lp 4 (le_bytes 2 num) ltac:(lia)) as (lp1 & Hw1 & Hl1 & Hin1 & Hout1).
  { rewrite Zlen_le_bytes. lia. }
  rewrite Zlen_le_bytes in Hin1, Hout1. exists lp1. rewrite lpSetTotalBytes_wrn by lia.
  destruct (wrn_spec lp1 0 (le_bytes 4 (lp_total es)) ltac:(lia)) as (lp2 & Hw2 & Hl2 & Hin2 & Hout2).
  { rewrite Zlen_le_bytes. lia. }
  rewrite Zlen_le_bytes in Hin2, Hout2. exists lp2. split; [done|]. split; [done|]. split; try done.
  - exists num. split; [by rewrite Hout2 by lia|done].
  - rewrite Hout2, Hout1 by (unfold LP_HDR_SIZE; lia). done.
Qed.

Lemma lpNew_spec capacity : exists lp, lpNew capacity = Ret lp /\ lp_rep lp [].
Proof.
  unfold lpNew, LP_HDR_SIZE. set (c := if 6 + 1 <? capacity then capacity else 6 + 1).
  assert (7 <= c) as Hc by (unfold c; destruct (Z.ltb_spec (6 + 1) capacity); lia).
  pose proof (zmalloc_size_ge c) as Hz. set (lp := zmalloc c) in *.
  rewrite lpSetTotalBytes_wrn by lia.
  destruct (wrn_spec lp 0 (le_bytes 4 (6 + 1)) ltac:(lia)) as (lp1 & -> & Hl1 & Hin1 & _).
  { rewrite Zlen_le_bytes. lia. }
  cbn [mbind outcome_bind]. rewrite Zlen_le_bytes in Hin1. rewrite lpSetNumElements_wrn by lia.
  destruct (wrn_spec lp1 4 (le_bytes 2 0) ltac:(lia)) as (lp2 & -> & Hl2 & Hin2 & Hout2).
  { rewrite Zlen_le_bytes. lia. }
  cbn [mbind outcome_bind]. rewrite Zlen_le_bytes in Hin2, Hout2. rewrite wr_ok by lia.
  eexists. split; [done|].
  assert (forall i n, 0 <= i -> 0 <= n -> i + n <= 6 ->
    rdn (<[Z.to_nat 6:=LP_EOF]> lp2) i n = rdn lp2 i n) as Hk.
  { intros i n Hi Hn Hle. apply rdn_ext; rewrite ?Zlen_insert; try lia. intros j Hj.
    apply list_lookup_insert_ne. lia. }
  apply (rep_intro _ [] 0); try done.
  - rewrite Hk by lia. rewrite Hout2 by lia. done.
  - by rewrite Hk by lia.
  - by right.
  - change (Zlen (body [])) with 0. apply rdn_nil. rewrite Zlen_insert. unfold LP_HDR_SIZE. lia.
  - change (lp_total [] - 1) with 6. apply rd_insert_eq. lia.
Qed.

Lemma ents_valid ents : Forall ent_ok ents -> Zlen (body (map ent_payload ents)) < 2 ^ 32 ->
  Forall valid_payload (map ent_payload ents).
Proof.
  intros Hok Hnl. induction Hok as [|e ents He _ IH]; [constructor|]. cbn [map] in *.
  rewrite body_cons, Zlen_app, Zlen_entry in Hnl. unfold entry_len in Hnl.
  pose proof (zlen_body_nonneg (map ent_payload ents)). pose proof (Zlen_nonneg (ent_payload e)).
  pose proof (backlen_bytes_range (Zlen (ent_payload e))).
  constructor; [|apply IH; lia]. apply (ent_ins_ok e He). lia.
Qed.

Lemma lpNewWithEntries_spec ents : Forall ent_ok ents -> ents <> [] ->
  Zlen (body (map ent_payload ents)) < 2 ^ 63 ->
  edit_result (lpNewWithEntries ents) (map ent_payload ents).
Proof.
  intros Hok Hne Hbig. unfold lpNewWithEntries, edit_result. cbv zeta.
  assert (0 < Zlen ents) as Hlen by (destruct ents; [done|zlen; pose proof (Zlen_nonneg ents); lia]).
  rewrite (proj2 (Z.ltb_lt 0 (Zlen ents))) by done. cbn [c_assert mbind outcome_bind].
  set (news := map ent_payload ents) in *. pose proof (zlen_body_nonneg news) as Hn0.
  rewrite lpEncodeEntries_spec by (fold news; lia). fold news. rewrite Z.add_0_l.
  replace (LP_HDR_SIZE + Zlen (body news) + 1) with (lp_total news) by (unfold lp_total, LP_HDR_SIZE; lia).
  assert (7 <= lp_total news /\ lp_total news = 7 + Zlen (body news)) as [Ht7 Et] by (unfold lp_total; lia).
  rewrite (wrapu_id 64) by lia. destruct (Z.ltb_spec (lp_total news) (2 ^ 32)) as [Hfit|Hbg].
  2:{ destruct (Z.ltb_spec UINT32_MAX (lp_total news)) as [_|Hc]; [reflexivity|unfold UINT32_MAX in Hc; lia]. }
  destruct (Z.ltb_spec UINT32_MAX (lp_total news)) as [Hc|_]; [unfold UINT32_MAX in Hc; lia|].
  pose proof (zmalloc_size_ge (lp_total news)) as Hz. set (lp := zmalloc _) in *.
  destruct (lpWriteEntries_spec ents lp LP_HDR_SIZE None) as (np & Hw & _).
  { unfold LP_HDR_SIZE. lia. }
  { fold news. unfold LP_HDR_SIZE. lia. }
  rewrite Hw. fold news. destruct (wrn_spec lp LP_HDR_SIZE (body news)) as (lp1 & -> & Hl1 & Hin1 & _).
  { unfold LP_HDR_SIZE. lia. }
  { unfold LP_HDR_SIZE. lia. }
  cbn [mbind outcome_bind]. rewrite wr_ok by (unfold LP_HDR_SIZE; lia). cbn [mbind outcome_bind].
  match goal with |- context [lpSetNumElements ?l _] => set (lp2 := l) end.
  destruct (set_header lp2 news
    (if LP_HDR_NUMELE_UNKNOWN <=? Zlen ents then LP_HDR_NUMELE_UNKNOWN else Zlen ents))
    as (lp3 & lp4 & -> & Ht & Hrep).
  - unfold lp2. rewrite Zlen_insert. lia.
  - apply ents_valid; [done|]. fold news. lia.
  - done.
  - destruct (Z.leb_spec LP_HDR_NUMELE_UNKNOWN (Zlen ents)); [by left|right].
    split; [unfold news, Zlen; by rewrite length_map|done].
  - apply rdn_join.
    + rewrite <- Hin1. unfold lp2, LP_HDR_SIZE. apply rdn_ext; rewrite ?Zlen_insert; try lia.
      intros j Hj. apply list_lookup_insert_ne. lia.
    + apply rdn_one. unfold lp2. apply rd_insert_eq. unfold LP_HDR_SIZE. lia.
  - cbn [mbind outcome_bind]. rewrite Ht. by exists lp4.
Qed.

Lemma lpDup_spec lp es : lp_rep lp es -> exists lp', lpDup lp = Ret lp' /\ lp_rep lp' es.
Proof.
  intros Hrep. unfold lpDup, lpBytes. rewrite (rep_get_total _ _ Hrep). cbn [mbind outcome_bind].
  pose proof (rep_size _ _ Hrep) as Hsz. pose proof (zlen_body_nonneg es).
  assert (7 <= lp_total es) as H7 by (unfold lp_total; lia).
  destruct (rdn lp 0 (lp_total es)) as [bs| | |] eqn:Eb; try (rewrite rdn_ok in Eb by lia; done).
  cbn [mbind outcome_bind]. pose proof (rdn_length _ _ _ _ Eb) as (Hbl & _ & _).
  pose proof (zmalloc_size_ge (lp_total es)).
  destruct (wrn_spec (zmalloc (lp_total es)) 0 bs) as (lp' & -> & Hl & Hin & _); [lia|lia|].
  exists lp'. split; [done|]. rewrite Hbl in Hin.
  assert (forall j m, 0 <= j -> 0 <= m -> j + m <= lp_total es -> rdn lp' j m = rdn lp j m) as Hk.
  { intros j m Hj Hm Hle. pose proof (rdn_sub _ _ _ _ j m Hin ltac:(lia) ltac:(lia) ltac:(lia)) as E1.
    pose proof (rdn_sub _ _ _ _ j m Eb ltac:(lia) ltac:(lia) ltac:(lia)) as E2.
    rewrite Z.add_0_l in E1, E2. congruence. }
  destruct Hrep as [Hv Hs Ht (num & Hn & Hc) Hb]. split; try done.
  - by rewrite Hk by lia.
  - exists num. split; [by rewrite Hk by lia|done].
  - rewrite Hk; [done|unfold LP_HDR_SIZE; lia|lia|unfold lp_total, LP_HDR_SIZE in *; lia].
Qed.

(** ** Deleting ranges *)

Lemma lpDeleteRange_loop_wf lp es total fuel num i deleted : lp_wf lp es total ->
  0 <= num -> (i < length es)%nat \/ num = 0 -> (length es - i <= fuel)%nat -> (i <= length es)%nat ->
  let k := Nat.min (Z.to_nat num) (length es - i) in
  lpDeleteRange_loop fuel lp total num (lp_off es i) deleted =
    Ret (lp_off es (i + k), deleted + Z.of_nat k).
Proof.
  intros Hwf Hnum. revert num i deleted Hnum. induction fuel as [|fuel IH];
    intros num i deleted Hnum Hor Hf Hi k; cbn [lpDeleteRange_loop];
    destruct (Z.eqb_spec num 0) as [->|Hne].
  - unfold k. simpl. rewrite Nat.add_0_r, Z.add_0_r. done.
  - lia.
  - unfold k. simpl. rewrite Nat.add_0_r, Z.add_0_r. done.
  - destruct Hor as [Hlt|]; [|lia]. rewrite (lpSkip_wf _ _ _ Hwf) by done. cbn [mbind outcome_bind].
    destruct (rd_cursor _ _ _ Hwf (S i) ltac:(lia)) as (b & -> & Hb). cbn [mbind outcome_bind].
    rewrite Hb. destruct (decide (S i = length es)) as [E|E].
    + rewrite bool_decide_true by done. assert (k = 1%nat) as -> by lia. do 3 f_equal. lia.
    + rewrite bool_decide_false by done. rewrite (lpAssertValidEntry_wf _ _ _ Hwf) by lia.
      cbn [mbind outcome_bind]. rewrite IH by lia. f_equal. f_equal; [f_equal; lia|lia].
Qed.

Lemma lpDeleteRangeWithEntry_core lp es1 es2 num : lp_rep lp (es1 ++ es2) -> 0 < num -> es2 <> [] ->
  exists lp', lpDeleteRangeWithEntry lp (LP_HDR_SIZE + Zlen (body es1)) num =
    Ret (lp', if bool_decide (drop (Z.to_nat num) es2 = []) then None
              else Some (LP_HDR_SIZE + Zlen (body es1))) /\
    lp_rep lp' (es1 ++ drop (Z.to_nat num) es2).
Proof.
  intros Hrep Hnum Hne. pose proof (rep_wf _ _ Hrep) as Hwf.
  set (k := Nat.min (Z.to_nat num) (length es2)).
  set (rs := take (Z.to_nat num) es2). set (es3 := drop (Z.to_nat num) es2).
  assert (es2 = rs ++ es3) as Ees by (symmetry; apply take_drop).
  assert (length rs = k) as Hk by (unfold rs, k; rewrite length_take; done).
  unfold lpDeleteRangeWithEntry. rewrite (lpBytes_wf _ _ _ Hwf). cbn [mbind outcome_bind].
  destruct (Z.eqb_spec num 0) as [|_]; [lia|].
  pose proof (lpDeleteRange_loop_wf lp (es1 ++ es2) _ (length lp) num (length es1) 0 Hwf) as Hloop.
  pose proof (wf_fuel _ _ _ Hwf) as Hfuel. rewrite length_app in Hloop, Hfuel.
  assert (0 < length es2)%nat as Hl2 by (destruct es2; [done|simpl; lia]).
  specialize (Hloop ltac:(lia) ltac:(lia) ltac:(lia) ltac:(lia)). cbv zeta in Hloop.
  replace (length es1 + length es2 - length es1)%nat with (length es2) in Hloop by lia. fold k in Hloop.
  rewrite lp_off_body in Hloop. set (P := LP_HDR_SIZE + Zlen (body es1)) in *.
  assert (lp_off (es1 ++ es2) (length es1 + k) = P + Zlen (body rs)) as Eoff.
  { rewrite Ees, app_assoc, <- Hk, <- length_app, lp_off_body, body_app, Zlen_app. unfold P. lia. }
  rewrite Eoff in Hloop. rewrite Hloop. cbn [mbind outcome_bind]. rewrite Z.add_0_l.
  destruct (rep_get_num _ _ Hrep) as (num0 & Hgn & Hnb & Hnr & Hnc).
  pose proof Hrep as Hrep'. rewrite Ees in Hrep'. pose proof (spliced_of_rep _ _ _ _ _ Hrep' Hnb) as Hsp.
  fold P in Hsp. pose proof (zlen_body_nonneg es1). pose proof (zlen_body_nonneg es3).
  pose proof (zlen_body_nonneg rs). pose proof (rep_size _ _ Hrep) as Hsz. pose proof (rep_small _ _ Hrep) as Hsm.
  assert (lp_total (es1 ++ es2) = P + Zlen (body rs) + Zlen (body es3) + 1) as Et.
  { rewrite Ees. unfold lp_total, P, LP_HDR_SIZE. rewrite !body_app, !Zlen_app. lia. }
  assert (lp_total (es1 ++ es3) = P + Zlen (body es3) + 1) as Et'.
  { unfold lp_total, P, LP_HDR_SIZE. rewrite !body_app, !Zlen_app. lia. }
  destruct (spliced_move lp num0 es1 es3 _ P Hsp) as (lp1 & Hm & Hl1 & Hsp1 & _); [unfold P; lia|lia|].
  replace (lp_total (es1 ++ es2) - 1 - (P + Zlen (body rs)) + 1) with (Zlen (body es3) + 1) by lia.
  rewrite Hm. cbn [mbind outcome_bind].
  replace (lp_total (es1 ++ es2) - (P + Zlen (body rs) - P)) with (lp_total (es1 ++ [] ++ es3))
    by (change ([] ++ es3) with es3; lia).
  set (num' := if num0 =? LP_HDR_NUMELE_UNKNOWN then num0 else num0 - Z.of_nat k).
  assert (Zlen (es1 ++ es2) = Zlen (es1 ++ [] ++ es3) + Z.of_nat k) as Elen.
  { change ([] ++ es3) with es3. rewrite Ees, !Zlen_app, <- Hk. unfold Zlen. lia. }
  pose proof (Zlen_nonneg (es1 ++ [] ++ es3)) as Hn3.
  destruct (finish_header_total_first lp1 num0 num' es1 [] es3) as (lp2 & -> & Hn2 & Hl2' & Hsame & lp3 & Hset & Hrep3).
  - change (Zlen (body [])) with 0. by rewrite Z.add_0_r.
  - apply rdn_nil. unfold P in *. pose proof (rdn_length _ _ _ _ (sp_right _ _ _ _ _ Hsp1)). lia.
  - pose proof (rep_valid _ _ Hrep') as Hv. rewrite !Forall_app in Hv. apply Forall_app_2; [tauto|].
    simpl. tauto.
  - change ([] ++ es3) with es3. lia.
  - unfold num', LP_HDR_NUMELE_UNKNOWN, UINT16_MAX in *. destruct (Z.eqb_spec num0 (2 ^ 16 - 1)); lia.
  - cbn [mbind outcome_bind].
    rewrite (get_num _ _ Hn2) by (unfold LP_HDR_NUMELE_UNKNOWN, UINT16_MAX in *; lia).
    cbn [mbind outcome_bind].
    assert (exists lp4, (if negb (num0 =? LP_HDR_NUMELE_UNKNOWN)
      then lpSetNumElements lp2 (u64 (num0 - Z.of_nat k)) else Ret lp2) = Ret lp4 /\
      lp_rep lp4 (es1 ++ [] ++ es3)) as (lp4 & -> & Hrep4).
    { unfold num', LP_HDR_NUMELE_UNKNOWN, UINT16_MAX in *.
      destruct (Z.eqb_spec num0 (2 ^ 16 - 1)); cbn [negb]; [exists lp2; auto|].
      rewrite wrapu_id by lia. by exists lp3. }
    cbn [mbind outcome_bind]. destruct (lpShrinkToFit_spec lp4 _ Hrep4) as (lp5 & -> & Hrep5).
    cbn [mbind outcome_bind]. change ([] ++ es3) with es3 in *.
    destruct (rep_get_num _ _ Hrep5) as (n5 & _ & Hn5 & _).
    pose proof (spliced_of_rep lp5 n5 es1 [] es3 Hrep5 Hn5) as Hsp5.
    change (Zlen (body [])) with 0 in Hsp5. rewrite Z.add_0_r in Hsp5.
    destruct (spliced_eof lp5 n5 es1 es3) as (b & Hb & Hbe).
    + pose proof (rep_valid _ _ Hrep5) as Hv. rewrite Forall_app in Hv. tauto.
    + done.
    + fold P in Hb. rewrite Hb. cbn [mbind outcome_bind]. rewrite Hbe. by exists lp5.
Qed.

Lemma lpDeleteRange_spec lp es index num : lp_rep lp es -> 0 <= num ->
  let i := if index <? 0 then Zlen es + index else index in
  exists lp', lpDeleteRange lp index num = Ret lp' /\
  lp_rep lp' (if (0 <=? i) && (i <? Zlen es)
              then take (Z.to_nat i) es ++ drop (Z.to_nat i + Z.to_nat num) es else es).
Proof.
  intros Hrep Hnum i. unfold lpDeleteRange. pose proof (rep_wf _ _ Hrep) as Hwf.
  destruct (rep_get_num _ _ Hrep) as (num0 & Hgn & Hnb & Hnr & Hnc).
  rewrite Hgn. cbn [mbind outcome_bind]. destruct (Z.eqb_spec num 0) as [->|Hn0].
  { exists lp. split; [done|]. destruct (_ && _); [|done]. by rewrite Nat.add_0_r, take_drop. }
  rewrite (lpSeek_wf _ _ _ Hwf). cbn [mbind outcome_bind]. unfold lp_index. fold i.
  pose proof (wf_count _ _ _ Hwf) as Hcount.
  destruct (Z.leb_spec 0 i) as [Hi0|]; cbn [andb]; [|by exists lp].
  unfold lp_ptr. destruct (Z.ltb_spec i (Zlen es)) as [Hin|].
  2:{ rewrite decide_False by (unfold Zlen in *; lia). by exists lp. }
  rewrite decide_True by (unfold Zlen in *; lia).
  set (es1 := take (Z.to_nat i) es). set (es2 := drop (Z.to_nat i) es).
  assert (es = es1 ++ es2) as Ees by (symmetry; apply take_drop).
  assert (length es1 = Z.to_nat i) as Hl1 by (unfold es1; rewrite length_take; unfold Zlen in *; lia).
  assert (lp_off es (Z.to_nat i) = LP_HDR_SIZE + Zlen (body es1)) as Eoff.
  { rewrite <- Hl1, Ees at 1. apply lp_off_body. }
  assert (es2 <> []) as Hne2.
  { intros E. apply (f_equal length) in E. unfold es2 in E. rewrite length_drop in E.
    unfold Zlen in *. simpl in E. lia. }
  rewrite <- drop_drop. fold es2.
  destruct (negb (num0 =? LP_HDR_NUMELE_UNKNOWN) &&
    (u64 (num0 - u64 (if negb (num0 =? LP_HDR_NUMELE_UNKNOWN) && (index <? 0)
      then num0 + index else index)) <=? num)) eqn:Etrunc.
  - apply andb_true_iff in Etrunc as [Eu Etrunc]. rewrite Eu in Etrunc |- *. cbn [andb] in Etrunc |- *.
    assert (num0 <> LP_HDR_NUMELE_UNKNOWN) as Hknown by (by destruct (Z.eqb_spec num0 LP_HDR_NUMELE_UNKNOWN)).
    destruct Hnc as [?|[-> Hlt]]; [done|]. fold i in Etrunc |- *.
    unfold Zlen in Hcount, Hin, Etrunc. rewrite (wrapu_id 64 i) in Etrunc by lia.
    rewrite wrapu_id in Etrunc by lia. apply Z.leb_le in Etrunc.
    assert (drop (Z.to_nat num) es2 = []) as ->.
    { apply drop_ge. unfold es2. rewrite length_drop. lia. }
    rewrite app_nil_r, Eoff.
    pose proof Hrep as Hrep'. rewrite Ees in Hrep'.
    pose proof (spliced_of_rep lp _ es1 es2 [] ltac:(by rewrite app_nil_r) Hnb) as Hsp.
    pose proof (zlen_body_nonneg es1). pose proof (zlen_body_nonneg es2).
    pose proof (rep_size _ _ Hrep) as Hsz. pose proof (rep_small _ _ Hrep) as Hsm.
    assert (lp_total es = LP_HDR_SIZE + Zlen (body es1) + Zlen (body es2) + 1) as Et.
    { rewrite Ees. unfold lp_total, LP_HDR_SIZE. rewrite body_app, Zlen_app. lia. }
    assert (2 <= Zlen (body es2)) as Hb2.
    { destruct es2 as [|e es2]; [done|]. rewrite body_cons, Zlen_app, Zlen_entry.
      pose proof (rep_valid _ _ Hrep') as Hv. rewrite Forall_app in Hv. destruct Hv as [_ Hv].
      apply Forall_cons_1 in Hv as [He _]. pose proof (entry_len_bounds e He).
      pose proof (zlen_body_nonneg es2). lia. }
    unfold LP_HDR_SIZE in *. rewrite wr_ok by lia. cbn [mbind outcome_bind].
    set (lp1 := <[_:=_]> lp).
    assert (Zlen lp1 = Zlen lp) as Hlp1 by apply Zlen_insert.
    assert (spliced lp1 (Zlen es) es1 [] (6 + Zlen (body es1))) as Hsp1.
    { destruct Hsp as [S1 S2 S3]. split.
      - rewrite <- S1. apply rdn_ext; try lia. intros j Hj. apply list_lookup_insert_ne. lia.
      - rewrite <- S2. unfold LP_HDR_SIZE. apply rdn_ext; try lia. intros j Hj.
        apply list_lookup_insert_ne. lia.
      - apply rdn_one. apply rd_insert_eq. lia. }
    destruct (finish_header_total_first lp1 (Zlen es) i es1 [] []) as (lp2 & Ht & _ & _ & _ & lp3 & Hset & Hrep3).
    + by rewrite Z.add_0_r.
    + apply rdn_nil. unfold LP_HDR_SIZE. lia.
    + rewrite !app_nil_r. apply Forall_take, (rep_valid _ _ Hrep).
    + rewrite !app_nil_r. unfold lp_total. lia.
    + right. rewrite !app_nil_r. split; [unfold Zlen; lia|]. unfold Zlen in Hlt. lia.
    + rewrite !app_nil_r in *.
      replace (6 + Zlen (body es1) + 1) with (lp_total es1) by (unfold lp_total; lia).
      rewrite Ht. cbn [mbind outcome_bind]. rewrite Hset. cbn [mbind outcome_bind].
      by apply lpShrinkToFit_spec.
  - rewrite Eoff. pose proof Hrep as Hrep'. rewrite Ees in Hrep'.
    destruct (lpDeleteRangeWithEntry_core lp es1 es2 num Hrep' ltac:(lia) Hne2) as (lp' & -> & Hr).
    by exists lp'.
Qed.
End create.

(** ** Merging *)

Section merge.
Context `{Allocator}.

Lemma lpLength_rep lp es : lp_rep lp es ->
  exists lp', lpLength lp = Ret (lp', Zlen es) /\ lp_rep lp' es.
Proof.
  intros Hrep. destruct (lpLength_count _ _ _ (rep_wf _ _ Hrep)) as (lp' & Hl & Hc).
  exists lp'. split; [done|]. destruct Hc as [->|[Hset Hlt]]; [done|].
  pose proof (rep_size _ _ Hrep) as Hsz. pose proof (zlen_body_nonneg es).
  destruct Hrep as [Hv Hs Ht (num & Hn & Hc) Hb].
  pose proof (rdn_length _ _ _ _ Hn) as (_ & _ & ?).
  rewrite lpSetNumElements_wrn in Hset by lia.
  destruct (wrn_spec lp 4 (le_bytes 2 (Zlen es)) ltac:(lia)) as (lp1 & Hw & Hl1 & Hin & Hout).
  { rewrite Zlen_le_bytes. lia. }
  rewrite Zlen_le_bytes in Hin, Hout. rewrite Hw in Hset. injection Hset as ->. split; try done.
  - by rewrite Hout by lia.
  - exists (Zlen es). split; [done|by right].
  - rewrite Hout by (unfold LP_HDR_SIZE; lia). done.
Qed.

(** The two halves of a merge. *)
Lemma merge_append target source es1 es2 n : lp_rep target es1 -> lp_rep source es2 ->
  n = lp_total (es1 ++ es2) ->
  exists t, (bs ← rdn source LP_HDR_SIZE (lp_total es2 - LP_HDR_SIZE);
             wrn (zrealloc target n) (lp_total es1 - 1) bs) = Ret t /\ n <= Zlen t /\
    rdn t LP_HDR_SIZE (Zlen (body (es1 ++ es2)) + 1) = Ret (body (es1 ++ es2) ++ [LP_EOF]).
Proof.
  intros H1 H2 ->. pose proof (zlen_body_nonneg es1). pose proof (zlen_body_nonneg es2).
  assert (lp_total (es1 ++ es2) = 7 + Zlen (body es1) + Zlen (body es2)) as Et.
  { unfold lp_total. rewrite body_app, Zlen_app. lia. }
  assert (lp_total es2 - LP_HDR_SIZE = Zlen (body es2) + 1) as -> by (unfold lp_total, LP_HDR_SIZE; lia).
  rewrite (rep_body _ _ H2). cbn [mbind outcome_bind].
  pose proof (zrealloc_size_ge target (lp_total (es1 ++ es2))) as Hz.
  pose proof (rep_size _ _ H1) as Hs1. set (n := lp_total (es1 ++ es2)) in *.
  unfold lp_total in Hs1 |- *.
  destruct (wrn_spec (zrealloc target n) (7 + Zlen (body es1) - 1) (body es2 ++ [LP_EOF]))
    as (t & Hw & Hl & Hin & Hout); [lia|rewrite Zlen_app, Zlen_cons, Zlen_nil; lia|].
  exists t. split; [done|]. split; [lia|].
  rewrite body_app, <- app_assoc, Zlen_app. rewrite Zlen_app, Zlen_cons, Zlen_nil in Hin, Hout.
  rewrite <- Z.add_assoc. apply rdn_join.
  - rewrite Hout by (unfold LP_HDR_SIZE; lia). destruct (rep_body_split _ _ H1) as [Hb _].
    rewrite rdn_zrealloc by (unfold LP_HDR_SIZE; lia). done.
  - replace (LP_HDR_SIZE + Zlen (body es1)) with (7 + Zlen (body es1) - 1) by (unfold LP_HDR_SIZE; lia).
    rewrite Z.add_0_r in Hin. done.
Qed.

Lemma merge_prepend target source es1 es2 n : lp_rep target es2 -> lp_rep source es1 ->
  n = lp_total (es1 ++ es2) ->
  exists t, (t ← c_memmove (zrealloc target n) (lp_total es1 - 1) LP_HDR_SIZE (lp_total es2 - LP_HDR_SIZE);
             bs ← rdn source 0 (lp_total es1 - 1); wrn t 0 bs) = Ret t /\ n <= Zlen t /\
    rdn t LP_HDR_SIZE (Zlen (body (es1 ++ es2)) + 1) = Ret (body (es1 ++ es2) ++ [LP_EOF]).
Proof.
  intros H2 H1 ->. pose proof (zlen_body_nonneg es1). pose proof (zlen_body_nonneg es2).
  assert (lp_total (es1 ++ es2) = 7 + Zlen (body es1) + Zlen (body es2)) as Et.
  { unfold lp_total. rewrite body_app, Zlen_app. lia. }
  pose proof (zrealloc_size_ge target (lp_total (es1 ++ es2))) as Hz.
  pose proof (rep_size _ _ H2) as Hs2. pose proof (rep_size _ _ H1) as Hs1.
  set (n := lp_total (es1 ++ es2)) in *.
  unfold LP_HDR_SIZE, lp_total in *.
  destruct (memmove_spec (zrealloc target n) (7 + Zlen (body es1) - 1) 6 (7 + Zlen (body es2) - 6))
    as (t1 & -> & Hl1 & Hin1 & _); try lia.
  cbn [mbind outcome_bind].
  destruct (rdn source 0 (7 + Zlen (body es1) - 1)) as [bs| | |] eqn:Eb; try (rewrite rdn_ok in Eb by lia; done).
  cbn [mbind outcome_bind]. pose proof (rdn_length _ _ _ _ Eb) as (Hbl & _ & _).
  destruct (wrn_spec t1 0 bs) as (t & -> & Hl & Hin & Hout); [lia|lia|].
  exists t. split; [done|]. split; [lia|].
  rewrite body_app, <- app_assoc, Zlen_app, <- Z.add_assoc. apply rdn_join.
  - pose proof (rdn_sub _ _ _ _ 6 (Zlen (body es1)) Hin ltac:(lia) ltac:(lia) ltac:(lia)) as E1.
    pose proof (rdn_sub _ _ _ _ 6 (Zlen (body es1)) Eb ltac:(lia) ltac:(lia) ltac:(lia)) as E2.
    rewrite Z.add_0_l in E1, E2. rewrite E1, <- E2. apply (rep_body_split _ _ H1).
  - rewrite Hout by lia. specialize (Hin1 0 (Zlen (body es2) + 1) ltac:(lia) ltac:(lia) ltac:(lia)).
    rewrite !Z.add_0_r in Hin1. replace (6 + Zlen (body es1)) with (7 + Zlen (body es1) - 1) by lia.
    rewrite Hin1. rewrite rdn_zrealloc by lia. apply (rep_body _ _ H2).
Qed.

Lemma lpMerge_spec first second es1 es2 : lp_rep first es1 -> lp_rep second es2 ->
  if lp_total (es1 ++ es2) <? UINT32_MAX then
    exists lp', lpMerge (Some first) (Some second) false =
      Ret (Some (lp', lp_total es2 <=? lp_total es1)) /\ lp_rep lp' (es1 ++ es2)
  else lpMerge (Some first) (Some second) false = AssertFail.
Proof.
  intros H1 H2. unfold lpMerge, lpBytes. rewrite (rep_get_total _ _ H1). cbn [mbind outcome_bind].
  destruct (lpLength_rep _ _ H1) as (f' & -> & H1'). cbn [mbind outcome_bind].
  rewrite (rep_get_total _ _ H2). cbn [mbind outcome_bind].
  destruct (lpLength_rep _ _ H2) as (s' & -> & H2'). cbn [mbind outcome_bind].
  clear first second H1 H2. rename f' into first, s' into second, H1' into H1, H2' into H2.
  pose proof (zlen_body_nonneg es1). pose proof (zlen_body_nonneg es2).
  pose proof (rep_small _ _ H1) as Hs1. pose proof (rep_small _ _ H2) as Hs2.
  assert (lp_total es1 + lp_total es2 - LP_HDR_SIZE - 1 = lp_total (es1 ++ es2)) as Et.
  { unfold lp_total, LP_HDR_SIZE. rewrite body_app, Zlen_app. lia. }
  set (n := lp_total (es1 ++ es2)) in *.
  assert (7 <= n < 2 ^ 33) as Hn by (unfold lp_total, LP_HDR_SIZE in *; lia).
  set (num := if Zlen es1 + Zlen es2 <? UINT16_MAX then Zlen es1 + Zlen es2 else UINT16_MAX).
  assert (num = LP_HDR_NUMELE_UNKNOWN \/ num = Zlen (es1 ++ es2) /\ num < LP_HDR_NUMELE_UNKNOWN) as Hnum.
  { unfold num, LP_HDR_NUMELE_UNKNOWN. rewrite Zlen_app.
    destruct (Z.ltb_spec (Zlen es1 + Zlen es2) UINT16_MAX); [by right|by left]. }
  assert (Forall valid_payload (es1 ++ es2)) as Hv.
  { apply Forall_app_2; [apply (rep_valid _ _ H1)|apply (rep_valid _ _ H2)]. }
  assert (forall (t : outcome (list Z)) (app : bool), n < UINT32_MAX ->
    (exists l, t = Ret l /\ n <= Zlen l /\
      rdn l LP_HDR_SIZE (Zlen (body (es1 ++ es2)) + 1) = Ret (body (es1 ++ es2) ++ [LP_EOF])) ->
    exists lp', (target ← t; target ← lpSetNumElements target num; target ← lpSetTotalBytes target n;
      Ret (Some (target, app))) = Ret (Some (lp', app)) /\ lp_rep lp' (es1 ++ es2)) as Hfin.
  { intros t app Hlt (l & -> & Hl & Hb). cbn [mbind outcome_bind].
    destruct (set_header l (es1 ++ es2) num) as (l1 & l2 & -> & Ht & Hr); try done; try lia.
    { fold n. unfold UINT32_MAX in Hlt. lia. }
    cbn [mbind outcome_bind]. fold n in Ht. rewrite Ht. by exists l2. }
  destruct (Z.leb_spec (lp_total es2) (lp_total es1)) as [Hle|Hgt]; cbv iota beta zeta;
    rewrite Et, (wrapu_id 64 n) by lia; fold num;
    destruct (Z.ltb_spec n UINT32_MAX) as [Hlt|]; cbn [c_assert mbind outcome_bind]; try done.
  - apply Hfin; [done|]. by apply merge_append.
  - apply Hfin; [done|]. by apply merge_prepend.
Qed.
End merge.

(** ** Batch deletion *)

(** The elements whose index is not in [ks]; [i] is the index of the head. *)
Fixpoint drop_indices (i : nat) (ks : list nat) (es : list (list Z)) : list (list Z) :=
  match es with
  | [] => []
  | e :: es => (if decide (i ∈ ks) then [] else [e]) ++ drop_indices (S i) ks es
  end.

Lemma drop_indices_none es i ks : (forall k, k ∈ ks -> (k < i \/ i + length es <= k)%nat) ->
  drop_indices i ks es = es.
Proof.
  revert i. induction es as [|e es IH]; intros i Hks; [done|]. cbn [drop_indices].
  rewrite decide_False.
  - simpl. f_equal. apply IH. intros k Hk. specialize (Hks k Hk). simpl in Hks. lia.
  - intros Hi. specialize (Hks i Hi). simpl in Hks. lia.
Qed.

Lemma drop_indices_app es1 es2 i ks :
  drop_indices i ks (es1 ++ es2) = drop_indices i ks es1 ++ drop_indices (i + length es1) ks es2.
Proof.
  revert i. induction es1 as [|e es1 IH]; intros i; cbn [app drop_indices length].
  - by rewrite Nat.add_0_r.
  - rewrite IH, <- app_assoc. do 2 f_equal. f_equal. lia.
Qed.

Lemma drop_indices_cons i k ks es : (forall j, j ∈ ks -> k < j)%nat -> (k < i)%nat ->
  drop_indices i (k :: ks) es = drop_indices i ks es.
Proof.
  intros Hks. revert i. induction es as [|e es IH]; intros i Hi; [done|]. cbn [drop_indices].
  rewrite IH by lia. f_equal. destruct (decide (i ∈ ks)) as [Hin|Hin].
  - rewrite decide_True; [done|]. apply elem_of_cons. by right.
  - rewrite decide_False; [done|]. rewrite elem_of_cons. intros [->|?]; [lia|done].
Qed.

Section batchdelete.
Context `{Allocator}.

Lemma spliced_skip lp num es1 e es2 q : valid_payload e -> LP_HDR_SIZE <= q ->
  spliced lp num es1 (e :: es2) q ->
  lpSkip lp q = Ret (q + entry_len e) /\ spliced lp num es1 es2 (q + entry_len e) /\
  (exists b, rd lp q = Ret b /\ (b =? LP_EOF) = false).
Proof.
  intros He Hq [Hn Hl Hr]. rewrite body_cons, <- app_assoc, Zlen_app, <- Z.add_assoc in Hr.
  replace (Zlen (body es2) + 1) with (Zlen (body es2 ++ [LP_EOF])) in Hr
    by (rewrite Zlen_app, Zlen_cons, Zlen_nil; lia).
  apply rdn_split in Hr as [Hr1 Hr2]. rewrite Zlen_entry in Hr2.
  assert (entry_at lp q e) as Hat.
  { pose proof (rep_entries lp [e] q) as Hre. rewrite body_cons, Zlen_app in Hre.
    change (body []) with (@nil Z) in Hre. rewrite app_nil_r, Zlen_nil, Z.add_0_r in Hre.
    by destruct Hre as [? _]; [apply Forall_cons_2; [|apply Forall_nil_2]| | |]. }
  split; [by apply lpSkip_entry|]. split.
  - split; [done|done|]. by rewrite Zlen_app, Zlen_cons, Zlen_nil in Hr2.
  - destruct (entry_head _ _ _ Hat) as (b & Hb & _ & _ & Hne & _). exists b. split; [done|].
    by apply Z.eqb_neq.
Qed.

(** Moving a middle part [mid] down, next to the kept part. *)
Lemma spliced_move_mid lp num es1 mid es2 q : spliced lp num es1 (mid ++ es2) q ->
  LP_HDR_SIZE + Zlen (body es1) <= q ->
  exists lp', c_memmove lp (LP_HDR_SIZE + Zlen (body es1)) q (Zlen (body mid)) = Ret lp' /\
    Zlen lp' = Zlen lp /\ spliced lp' num (es1 ++ mid) es2 (q + Zlen (body mid)).
Proof.
  intros [Hn Hl Hr] Hq. rewrite body_app, <- app_assoc, Zlen_app, <- Z.add_assoc in Hr.
  replace (Zlen (body es2) + 1) with (Zlen (body es2 ++ [LP_EOF])) in Hr
    by (rewrite Zlen_app, Zlen_cons, Zlen_nil; lia).
  apply rdn_split in Hr as [Hr1 Hr2].
  pose proof (zlen_body_nonneg es1). pose proof (zlen_body_nonneg mid).
  pose proof (Zlen_nonneg (body es2 ++ [LP_EOF])).
  pose proof (rdn_length _ _ _ _ Hr2) as (_ & ? & ?). unfold LP_HDR_SIZE in *.
  destruct (memmove_spec lp (6 + Zlen (body es1)) q (Zlen (body mid))) as (lp' & Hm & Hlen & Hin & Hout);
    try lia.
  exists lp'. split; [done|]. split; [done|]. split.
  - rewrite Hout by lia. done.
  - rewrite body_app, Zlen_app. apply rdn_join.
    + unfold LP_HDR_SIZE. rewrite Hout by lia. done.
    + specialize (Hin 0 (Zlen (body mid)) ltac:(lia) ltac:(lia) ltac:(lia)).
      rewrite !Z.add_0_r in Hin. unfold LP_HDR_SIZE. rewrite Hin. done.
  - rewrite Hout by lia. rewrite Zlen_app, Zlen_cons, Zlen_nil in Hr2. done.
Qed.

Lemma lpBatchDelete_loop_spec es : Forall valid_payload es -> forall ks lp num kept k0,
  StronglySorted lt (k0 :: ks) -> Forall (fun k => k < length es)%nat (k0 :: ks) ->
  spliced lp num kept (drop k0 es) (lp_off es k0) ->
  LP_HDR_SIZE + Zlen (body kept) <= lp_off es k0 ->
  exists lp', lpBatchDelete_loop lp (map (lp_off es) (k0 :: ks)) (LP_HDR_SIZE + Zlen (body kept))
      (lp_total es) =
    Ret (lp', lp_total (kept ++ drop_indices k0 (k0 :: ks) (drop k0 es))) /\
    Zlen lp' = Zlen lp /\
    rdn lp' 4 2 = Ret (le_bytes 2 num) /\
    let out := kept ++ drop_indices k0 (k0 :: ks) (drop k0 es) in
    rdn lp' LP_HDR_SIZE (Zlen (body out) + 1) = Ret (body out ++ [LP_EOF]).
Proof.
  intros Hv ks. induction ks as [|k1 ks IH]; intros lp num kept k0 Hsort Hlt Hsp Hle;
    apply Forall_cons_1 in Hlt as [Hk0 Hlt]; destruct (lookup_lt_is_Some_2 es k0 Hk0) as [e He];
    rewrite (drop_S _ _ _ He) in *;
    assert (valid_payload e) as Hve by (by apply (Forall_lookup_1 _ _ _ _ Hv He));
    pose proof (zlen_body_nonneg kept);
    destruct (spliced_skip lp num kept e _ (lp_off es k0) Hve ltac:(lia) Hsp) as (Hskip & Hsp1 & b & Hb & Hbe);
    rewrite <- (lp_off_S _ _ _ He) in *; pose proof (entry_len_bounds e Hve) as Hel;
    pose proof (lp_off_S _ _ _ He) as HoS;
    cbn [map lpBatchDelete_loop]; rewrite Hb; cbn [mbind outcome_bind]; rewrite Hbe;
    cbn [negb c_assert mbind outcome_bind]; rewrite Hskip; cbn [mbind outcome_bind].
  - (* the last pointer: the rest moves, with EOF *)
    set (rest := drop (S k0) es) in *. pose proof (zlen_body_nonneg rest).
    assert (lp_total es = lp_off es (S k0) + Zlen (body rest) + 1) as Et.
    { unfold lp_total, lp_off, LP_HDR_SIZE. rewrite <- Zlen_body.
      rewrite <- (take_drop (S k0) es) at 1. rewrite body_app, Zlen_app. unfold rest. lia. }
    rewrite (proj2 (Z.ltb_lt _ _)) by lia. cbn [c_assert mbind outcome_bind].
    replace (lp_total es - lp_off es (S k0)) with (Zlen (body rest) + 1) by lia.
    pose proof (rdn_length _ _ _ _ (sp_right _ _ _ _ _ Hsp1)) as (_ & _ & Hfit).
    destruct (spliced_move lp num kept rest _ (LP_HDR_SIZE + Zlen (body kept)) Hsp1)
      as (lp' & Hm & Hl & [Hn Hleft Hright] & _); [lia|lia|].
    rewrite Hm. cbn [mbind outcome_bind lpBatchDelete_loop]. exists lp'.
    assert (drop_indices k0 [k0] (e :: rest) = rest) as Edi.
    { cbn [drop_indices]. rewrite decide_True by (apply elem_of_cons; by left). cbn [app].
      apply drop_indices_none. intros k Hk. apply elem_of_cons in Hk as [->|Hk]; [lia|].
      by apply not_elem_of_nil in Hk. }
    rewrite Edi. split; [|split; [done|split; [done|]]].
    + do 2 f_equal. unfold lp_total, LP_HDR_SIZE. rewrite body_app, Zlen_app. lia.
    + cbv zeta. rewrite body_app, Zlen_app, <- app_assoc, <- Z.add_assoc. by apply rdn_join.
  - (* another pointer follows *)
    assert (k0 < k1)%nat as Hk01.
    { apply StronglySorted_inv in Hsort as [_ Hs]. by apply Forall_cons_1 in Hs as [? _]. }
    assert (StronglySorted lt (k1 :: ks)) as Hsort1 by (by apply StronglySorted_inv in Hsort as [? _]).
    assert (k1 < length es)%nat as Hk1 by (by apply Forall_cons_1 in Hlt as [? _]).
    set (mid := take (k1 - S k0) (drop (S k0) es)).
    assert (drop (S k0) es = mid ++ drop k1 es) as Emid.
    { unfold mid. rewrite <- (take_drop (k1 - S k0) (drop (S k0) es)) at 1. f_equal.
      rewrite drop_drop. f_equal. lia. }
    assert (lp_off es k1 = lp_off es (S k0) + Zlen (body mid)) as Eoff.
    { unfold lp_off. rewrite <- !Zlen_body. replace k1 with (S k0 + (k1 - S k0))%nat at 1 by lia.
      rewrite <- take_take_drop, body_app, Zlen_app. unfold mid. lia. }
    assert (drop_indices k0 (k0 :: k1 :: ks) (e :: drop (S k0) es) =
      mid ++ drop_indices k1 (k1 :: ks) (drop k1 es)) as Edi.
    { cbn [drop_indices]. rewrite decide_True by (apply elem_of_cons; by left). cbn [app].
      apply StronglySorted_inv in Hsort as [_ Hs].
      rewrite drop_indices_cons; [|intros j Hj; rewrite Forall_forall in Hs; apply Hs; by apply list_elem_of_In|lia].
      rewrite Emid, drop_indices_app. f_equal.
      - apply drop_indices_none. intros k Hk.
        assert (k1 <= k)%nat.
        { apply elem_of_cons in Hk as [->|Hk]; [lia|]. apply StronglySorted_inv in Hsort1 as [_ Hs1].
          rewrite Forall_forall in Hs1. apply list_elem_of_In in Hk. specialize (Hs1 _ Hk). lia. }
        right. unfold mid. rewrite length_take. lia.
      - f_equal. unfold mid. rewrite length_take, length_drop. lia. }
    rewrite Edi, app_assoc. rewrite Emid in Hsp1.
    destruct (spliced_move_mid lp num kept mid _ _ Hsp1) as (lp1 & Hm & Hl1 & Hsp2); [lia|].
    rewrite <- Eoff in Hsp2. pose proof (zlen_body_nonneg mid).
    destruct (Z.eqb_spec (lp_off es (S k0)) (lp_off es k1)) as [Eq|Hneq].
    + (* consecutive elements *)
      assert (mid = []) as Em.
      { destruct mid as [|m mid]; [done|]. exfalso. rewrite body_cons, Zlen_app, Zlen_entry in Eoff.
        assert (valid_payload m) as Hm1.
        { pose proof (Forall_drop _ (S k0) _ Hv) as Hv1. rewrite Emid in Hv1. apply Forall_app in Hv1 as [Hv1 _].
          by apply Forall_cons_1 in Hv1 as [? _]. }
        pose proof (entry_len_bounds m Hm1). pose proof (zlen_body_nonneg mid). lia. }
      rewrite Em in *. cbn [app] in *. rewrite Eq in Hsp1.
      destruct (IH lp num kept k1 Hsort1 Hlt Hsp1 ltac:(lia)) as (lp' & Hr & Hl & Hn & Hb').
      exists lp'. rewrite app_nil_r. by split.
    + rewrite (proj2 (Z.ltb_lt _ _)) by lia. cbn [c_assert mbind outcome_bind].
      replace (lp_off es k1 - lp_off es (S k0)) with (Zlen (body mid)) by lia. rewrite Hm.
      cbn [mbind outcome_bind].
      destruct (IH lp1 num (kept ++ mid) k1 Hsort1 Hlt Hsp2) as (lp' & Hr & Hl & Hn & Hb').
      { rewrite body_app, Zlen_app. lia. }
      exists lp'. rewrite body_app, Zlen_app, Z.add_assoc in Hr.
      split; [exact Hr|]. split; [lia|]. by split.
Qed.

Lemma length_drop_indices es : forall ks i, StronglySorted lt ks ->
  Forall (fun k => i <= k < i + length es)%nat ks ->
  (length (drop_indices i ks es) + length ks = length es)%nat.
Proof.
  induction es as [|e es IH]; intros ks i Hs Hf.
  - destruct ks as [|k ks]; [done|]. apply Forall_cons_1 in Hf as [Hk _]. simpl in Hk. lia.
  - cbn [drop_indices]. rewrite length_app. destruct (decide (i ∈ ks)) as [Hin|Hnin].
    + destruct ks as [|k ks]; [by apply not_elem_of_nil in Hin|].
      apply StronglySorted_inv in Hs as [Hs Hlt].
      apply Forall_cons_1 in Hf as [Hk Hf].
      assert (k = i) as ->.
      { apply elem_of_cons in Hin as [->|Hin]; [done|]. rewrite Forall_forall in Hlt.
        apply list_elem_of_In in Hin. specialize (Hlt _ Hin). lia. }
      rewrite drop_indices_cons; [|intros j Hj; rewrite Forall_forall in Hlt; apply Hlt; by apply list_elem_of_In|lia].
      specialize (IH ks (S i) Hs). simpl. rewrite <- IH; [lia|].
      apply Forall_forall. intros j Hj. rewrite Forall_forall in Hf, Hlt.
      specialize (Hf _ Hj). specialize (Hlt _ Hj). simpl in Hf. lia.
    + specialize (IH ks (S i) Hs). simpl. rewrite <- IH; [lia|].
      apply Forall_forall. intros j Hj. rewrite Forall_forall in Hf. specialize (Hf _ Hj). simpl in Hf.
      assert (j <> i) by (intros ->; by apply Hnin, list_elem_of_In). lia.
Qed.

Lemma lpBatchDelete_spec lp es ks : lp_rep lp es -> StronglySorted lt ks ->
  Forall (fun k => k < length es)%nat ks ->
  exists lp', lpBatchDelete lp (map (lp_off es) ks) = Ret lp' /\ lp_rep lp' (drop_indices 0 ks es).
Proof.
  intros Hrep Hsort Hlt. unfold lpBatchDelete. destruct ks as [|k0 ks]; cbn [map].
  { exists lp. split; [done|]. rewrite drop_indices_none; [done|]. intros k Hk. by apply not_elem_of_nil in Hk. }
  rewrite (rep_get_total _ _ Hrep). cbn [mbind outcome_bind].
  destruct (rep_body_split _ _ Hrep) as [_ He]. rewrite He. cbn [mbind outcome_bind].
  replace (LP_EOF =? LP_EOF) with true by done. cbn [c_assert mbind outcome_bind].
  destruct (rep_get_num _ _ Hrep) as (num & Hgn & Hnb & Hnr & Hnc).
  pose proof Hlt as Hlt'. apply Forall_cons_1 in Hlt' as [Hk0 _].
  pose proof (rep_valid _ _ Hrep) as Hv.
  assert (lp_off es k0 = LP_HDR_SIZE + Zlen (body (take k0 es))) as Eo by (unfold lp_off; by rewrite Zlen_body).
  pose proof (spliced_of_rep lp num (take k0 es) [] (drop k0 es)) as Hsp.
  cbn [app] in Hsp. rewrite take_drop in Hsp. specialize (Hsp Hrep Hnb).
  change (Zlen (body [])) with 0 in Hsp. rewrite Z.add_0_r, <- Eo in Hsp.
  destruct (lpBatchDelete_loop_spec es Hv ks lp num (take k0 es) k0 Hsort Hlt Hsp ltac:(lia))
    as (lp1 & Hloop & Hl1 & Hn1 & Hb1).
  rewrite <- Eo in Hloop. cbn [map] in Hloop. rewrite Hloop. cbn [mbind outcome_bind].
  assert (take k0 es ++ drop_indices k0 (k0 :: ks) (drop k0 es) = drop_indices 0 (k0 :: ks) es) as Eout.
  { rewrite <- (take_drop k0 es) at 3. rewrite drop_indices_app. f_equal.
    - symmetry. apply drop_indices_none. intros k Hk. right. rewrite length_take.
      assert (k0 <= k)%nat; [|lia]. apply elem_of_cons in Hk as [->|Hk]; [lia|].
      apply StronglySorted_inv in Hsort as [_ Hs]. rewrite Forall_forall in Hs.
      apply list_elem_of_In in Hk. specialize (Hs _ Hk). lia.
    - f_equal. rewrite length_take. lia. }
  rewrite Eout in *. cbv zeta in Hb1. set (out := drop_indices 0 (k0 :: ks) es) in *.
  replace (lp_total es - (lp_total es - lp_total out)) with (lp_total out) by lia.
  pose proof (zlen_body_nonneg out).
  assert (rd lp1 (lp_total out - 1) = Ret LP_EOF) as Heof.
  { destruct (rdn_split _ _ (body out) [LP_EOF] Hb1) as [_ H2].
    pose proof (rd_of_rdn _ _ _ _ 0 H2 ltac:(unfold Zlen; simpl; lia)) as H3.
    rewrite Z.add_0_r in H3. unfold lp_total. unfold LP_HDR_SIZE in *.
    by replace (7 + Zlen (body out) - 1) with (6 + Zlen (body out)) by lia. }
  rewrite Heof. cbn [mbind outcome_bind]. replace (LP_EOF =? LP_EOF) with true by done.
  cbn [c_assert mbind outcome_bind].
  pose proof (length_drop_indices es (k0 :: ks) 0 Hsort) as Hlen.
  specialize (Hlen ltac:(revert Hlt; apply Forall_impl; simpl; intros; lia)). fold out in Hlen.
  assert (Forall valid_payload out) as Hvo.
  { unfold out. clear -Hv. generalize 0%nat. induction Hv as [|e es He _ IH]; intros i; [constructor|].
    cbn [drop_indices]. apply Forall_app_2; [case_decide; [apply Forall_nil_2|by apply Forall_cons_2, Forall_nil_2]|apply IH]. }
  assert (Zlen (body out) <= Zlen (body es)) as Hble.
  { unfold out. clear. generalize 0%nat. induction es as [|e es IH]; intros i; [done|].
    cbn [drop_indices]. rewrite body_app, body_cons, !Zlen_app. specialize (IH (S i)).
    pose proof (Zlen_nonneg (entry e)). case_decide; [change (Zlen (body [])) with 0; lia|].
    rewrite body_cons, Zlen_app. change (Zlen (body [])) with 0. lia. }
  pose proof (rep_small _ _ Hrep) as Hsm.
  set (num' := if num =? LP_HDR_NUMELE_UNKNOWN then num else num - Zlen (k0 :: ks)).
  destruct (finish_header_total_first lp1 num num' [] out []) as (lp2 & Ht & Hn2 & _ & Hsame & lp3 & Hset & Hrep3).
  - split; [done|apply rdn_nil; unfold LP_HDR_SIZE; pose proof (rdn_length _ _ _ _ Hn1); lia|].
    apply rdn_one. rewrite <- Heof. f_equal. change (Zlen (body [])) with 0.
    unfold lp_total, LP_HDR_SIZE. lia.
  - change (Zlen (body [])) with 0. rewrite Z.add_0_r. by destruct (rdn_split _ _ (body out) [LP_EOF] Hb1) as [? _].
  - by rewrite app_nil_r.
  - rewrite app_nil_r. cbn [app]. unfold lp_total in *. lia.
  - rewrite app_nil_r. cbn [app]. unfold num'. unfold LP_HDR_NUMELE_UNKNOWN, UINT16_MAX, Zlen in *.
    destruct (Z.eqb_spec num (2 ^ 16 - 1)); lia.
  - rewrite app_nil_r in *. cbn [app] in *. rewrite Ht. cbn [mbind outcome_bind].
    rewrite (get_num _ _ Hn2) by (unfold LP_HDR_NUMELE_UNKNOWN, UINT16_MAX in *; lia).
    cbn [mbind outcome_bind].
    assert (exists lp4, (if negb (num =? LP_HDR_NUMELE_UNKNOWN)
      then lpSetNumElements lp2 (u64 (num - Zlen (lp_off es k0 :: map (lp_off es) ks))) else Ret lp2) = Ret lp4 /\
      lp_rep lp4 out) as (lp4 & -> & Hrep4).
    { assert (Zlen (lp_off es k0 :: map (lp_off es) ks) = Zlen (k0 :: ks)) as ->
        by (unfold Zlen; simpl; by rewrite length_map).
      unfold num', LP_HDR_NUMELE_UNKNOWN, UINT16_MAX in *.
      destruct (Z.eqb_spec num (2 ^ 16 - 1)); cbn [negb]; [exists lp2; auto|].
      unfold Zlen in *. rewrite wrapu_id by lia. by exists lp3. }
    cbn [mbind outcome_bind]. by apply lpShrinkToFit_spec.
Qed.
End batchdelete.

(** ** Properties *)

(** C9. Inserting, replacing and deleting at an element of a listpack refines the
    list operation: with [x] at offset [p] between [es1] and [es2], the string [s]
    (or the integer [v]) is put before it, after it or in its place, or [x] is
    removed; the call returns NULL exactly when the result would not fit in
    2^32-1 bytes, otherwise a listpack (with the invariant of all listpacks)
    of exactly those elements and the offset of the new element, or of the one
    after a deleted one (NULL at the end); the new element's value is [s]. *)
Theorem lpInsert_correct `{Allocator} lp es1 x es2 s v :
  lp_rep lp (es1 ++ x :: es2) -> Forall is_byte s -> Zlen s < 2 ^ 32 ->
  INT64_MIN <= v <= INT64_MAX ->
  let p := lp_off (es1 ++ x :: es2) (length es1) in
  let e := lp_element s in
  let i := lpEncodeIntegerGetType v in
  insert_result (lpInsertString lp s p LP_BEFORE) es1 [e] (x :: es2) /\
  insert_result (lpInsertString lp s p LP_AFTER) (es1 ++ [x]) [e] es2 /\
  insert_result (lpReplace lp p s) es1 [e] es2 /\
  insert_result (lpInsertInteger lp v p LP_BEFORE) es1 [i] (x :: es2) /\
  insert_result (lpInsertInteger lp v p LP_AFTER) (es1 ++ [x]) [i] es2 /\
  insert_result (lpReplaceInteger lp p v) es1 [i] es2 /\
  insert_result (lpDelete lp p) es1 [] es2 /\
  (Zlen e < 2 ^ 32 -> lp_value e = s) /\ lp_value i = dec v.
Proof.
  intros Hrep Hs Hl Hv p e i.
  assert (Forall ins_ok (ins_new (Some s) None)) as Hoks
    by (apply Forall_cons_2; [by apply ins_ok_str|apply Forall_nil_2]).
  assert (Forall ins_ok (ins_new None (Some i))) as Hoki
    by (apply Forall_cons_2; [by apply ins_ok_int|apply Forall_nil_2]).
  split; [by apply (lpInsert_before_spec lp es1 (x :: es2) (Some s) None)|].
  split; [by apply (lpInsert_after_spec lp es1 x es2 (Some s) None)|].
  split; [by apply (lpInsert_replace_spec lp es1 x es2 (Some s) None)|].
  split; [by apply (lpInsert_before_spec lp es1 (x :: es2) None (Some i))|].
  split; [by apply (lpInsert_after_spec lp es1 x es2 None (Some i))|].
  split; [by apply (lpInsert_replace_spec lp es1 x es2 None (Some i))|].
  split; [apply (lpInsert_replace_spec lp es1 x es2 None None); [done|apply Forall_nil_2]|].
  split; [apply lp_value_element|by apply lp_value_int].
Qed.

(** [lpNew] makes an empty listpack, and adding at either end refines cons
    and snoc: NULL exactly when the result would not fit in 2^32-1 bytes,
    otherwise a listpack with the element added. *)
Theorem lpAppend_lpPrepend_correct `{Allocator} lp es s v capacity :
  lp_rep lp es -> Forall is_byte s -> Zlen s < 2 ^ 32 -> INT64_MIN <= v <= INT64_MAX ->
  (exists lp0, lpNew capacity = Ret lp0 /\ lp_rep lp0 []) /\
  edit_result (lpAppend lp s) (es ++ [lp_element s]) /\
  edit_result (lpAppendInteger lp v) (es ++ [lpEncodeIntegerGetType v]) /\
  edit_result (lpPrepend lp s) (lp_element s :: es) /\
  edit_result (lpPrependInteger lp v) (lpEncodeIntegerGetType v :: es).
Proof.
  intros Hrep Hs Hl Hv. split; [apply lpNew_spec|]. split; [by apply lpAppend_spec|].
  split; [by apply lpAppendInteger_spec|]. split; [by apply lpPrepend_spec|by apply lpPrependInteger_spec].
Qed.

(** Batches: [lpBatchInsert] before an element (or EOF) inserts the encodings
    of all the entries there, in order, with one move of the memory, and
    returns the offset of the last of them; [lpBatchAppend] appends them and
    [lpNewWithEntries] builds a listpack of exactly them; the result is NULL
    exactly when it would not fit. *)
Theorem lpBatchInsert_correct `{Allocator} lp es1 es2 ents :
  lp_rep lp (es1 ++ es2) -> Forall ent_ok ents -> ents <> [] ->
  Zlen (body (map ent_payload ents)) < 2 ^ 63 ->
  let news := map ent_payload ents in
  (if lp_total (es1 ++ news ++ es2) <? 2 ^ 32 then
     exists lp', lpBatchInsert lp (lp_off (es1 ++ es2) (length es1)) LP_BEFORE ents =
       Ret (Some (lp', Some (lp_off (es1 ++ news ++ es2) (length es1 + length ents - 1)))) /\
     lp_rep lp' (es1 ++ news ++ es2)
   else lpBatchInsert lp (lp_off (es1 ++ es2) (length es1)) LP_BEFORE ents = Ret None) /\
  edit_result (lpBatchAppend lp ents) ((es1 ++ es2) ++ news) /\
  edit_result (lpNewWithEntries ents) news.
Proof.
  intros Hrep Hok Hne Hbig news. split; [|split].
  - pose proof (lpBatchInsert_core lp es1 es2 ents Hrep Hok Hne Hbig) as Hc. cbv zeta in Hc.
    rewrite lp_off_body. fold news in Hc. destruct (_ <? _); [|done].
    destruct Hc as (lp' & Hr & Hrep'). exists lp'. split; [|done]. rewrite Hr. do 4 f_equal.
    assert (exists n l, news = n ++ [l] /\ length n = (length ents - 1)%nat) as (n & l & En & Hn).
    { destruct (exists_last Hne) as (es0 & e0 & ->). exists (map ent_payload es0), (ent_payload e0).
      unfold news. rewrite map_app. split; [done|]. rewrite length_map, length_app. simpl. lia. }
    rewrite En, removelast_last. replace (length es1 + length ents - 1)%nat with (length (es1 ++ n)).
    + rewrite app_assoc, app_assoc, <- (app_assoc (es1 ++ n)). symmetry. apply lp_off_body.
    + rewrite length_app. destruct ents; [done|]. simpl in *. lia.
  - unfold lpBatchAppend, edit_result. rewrite (rep_get_total _ _ Hrep). cbn [mbind outcome_bind].
    rewrite <- (lp_off_total _ _ _ (rep_wf _ _ Hrep)).
    pose proof (lpBatchInsert_core lp (es1 ++ es2) [] ents) as Hc. cbv zeta in Hc. fold news in Hc.
    rewrite !app_nil_r in Hc. specialize (Hc Hrep Hok Hne Hbig).
    pose proof (lp_off_body (es1 ++ es2) []) as Ho. rewrite app_nil_r in Ho. rewrite Ho.
    destruct (lp_total _ <? _); [|by rewrite Hc]. destruct Hc as (lp' & -> & Hrep'). by exists lp'.
  - by apply lpNewWithEntries_spec.
Qed.

(** [lpDeleteRange] removes the [num] elements from the (signed) index on, as
    many as there are, and nothing when the index is out of range, on both of
    its paths; the result is a listpack of the remaining elements. *)
Theorem lpDeleteRange_correct `{Allocator} lp es index num :
  lp_rep lp es -> 0 <= num ->
  let i := if index <? 0 then Zlen es + index else index in
  exists lp', lpDeleteRange lp index num = Ret lp' /\
  lp_rep lp' (if (0 <=? i) && (i <? Zlen es)
              then take (Z.to_nat i) es ++ drop (Z.to_nat i + Z.to_nat num) es else es).
Proof. intros Hrep Hnum. by apply lpDeleteRange_spec. Qed.

(** [lpBatchDelete], given the offsets of any strictly increasing
    selection of elements, removes exactly those, in one pass of memory moves;
    no assertion fails and the result is a listpack of the others. *)
Theorem lpBatchDelete_correct `{Allocator} lp es ks :
  lp_rep lp es -> StronglySorted lt ks -> Forall (fun k => k < length es)%nat ks ->
  exists lp', lpBatchDelete lp (map (lp_off es) ks) = Ret lp' /\ lp_rep lp' (drop_indices 0 ks es).
Proof. intros Hrep Hs Hf. by apply lpBatchDelete_spec. Qed.

(** [lpMerge] of two listpacks is a listpack of the elements of the first
    followed by those of the second, in the larger of the two blocks; when the
    sum would reach 2^32-1 bytes the size assertion stops it. *)
Theorem lpMerge_correct `{Allocator} first second es1 es2 :
  lp_rep first es1 -> lp_rep second es2 ->
  if lp_total (es1 ++ es2) <? UINT32_MAX then
    exists lp', lpMerge (Some first) (Some second) false =
      Ret (Some (lp', lp_total es2 <=? lp_total es1)) /\ lp_rep lp' (es1 ++ es2)
  else lpMerge (Some first) (Some second) false = AssertFail.
Proof. apply lpMerge_spec. Qed.

(** ** A block the deep validation accepts and an edit breaks

    The back length of the one element (the empty string, one byte 0x80) is
    written 0x81, with the continuation bit set.  [lpDecodeBacklen] reads on into
    the element byte (0x80, seven zero bits) and the header byte before it
    (0), and obtains 1, so the block is accepted; after an element is added in
    front, the byte before is no longer 0, and walking back from the end fails
    an assertion. *)
Definition noncanonical_lp : list Z := [9; 0; 0; 0; 1; 0; 0x80; 0x81; 255].

(** Deep validation is not enough for later edits: it accepts this block,
    [lpPrepend] on it returns a listpack, and [lpLast] of that listpack fails
    the assertion of [lpAssertValidEntry]. *)
Theorem noncanonical_accepted :
  lpValidateIntegrity (U := unit) None noncanonical_lp 9 true tt = Ret (true, tt) /\
  exists lp', lpPrepend (H := exact_allocator) noncanonical_lp [0x61] = Ret (Some lp') /\
    lpLast lp' = AssertFail.
Proof.
  split; [reflexivity|]. eexists. split; [vm_compute; reflexivity|]. vm_compute. reflexivity.
Qed.

(** ** Witnesses *)

Lemma example_rep : lp_rep example_lp example_es.
Proof.
  split; try done.
  - repeat (apply Forall_cons_2; [repeat split; try done; repeat constructor; done|]). apply Forall_nil_2.
  - exists 2. split; [done|by right].
Qed.

Lemma lpInsert_witness : exists lp',
  lpInsertString (H := exact_allocator) example_lp [0x62] 6 LP_BEFORE = Ret (Some (lp', Some 6)) /\
  lp_rep lp' [[0x81; 0x62]; [5]; [0x81; 0x61]].
Proof.
  refine (proj1 (lpInsert_correct (H := exact_allocator) example_lp [] [5] [[0x81; 0x61]] [0x62] 0
    example_rep _ _ _)).
  - repeat constructor; done.
  - done.
  - done.
Defined.

Lemma lpAppend_witness : exists lp',
  lpAppend (H := exact_allocator) example_lp [0x62] = Ret (Some lp') /\
  lp_rep lp' [[5]; [0x81; 0x61]; [0x81; 0x62]].
Proof.
  refine (proj1 (proj2 (lpAppend_lpPrepend_correct (H := exact_allocator) example_lp example_es [0x62] 0 0
    example_rep _ _ _))).
  - repeat constructor; done.
  - done.
  - done.
Defined.

Lemma lpBatchInsert_witness : exists lp',
  lpBatchInsert (H := exact_allocator) example_lp 8 LP_BEFORE
    [{| sval := Some [0x62]; lval := 0 |}; {| sval := None; lval := 7 |}] =
    Ret (Some (lp', Some 11)) /\
  lp_rep lp' [[5]; [0x81; 0x62]; [7]; [0x81; 0x61]].
Proof.
  refine (proj1 (lpBatchInsert_correct (H := exact_allocator) example_lp [[5]] [[0x81; 0x61]]
    [{| sval := Some [0x62]; lval := 0 |}; {| sval := None; lval := 7 |}] example_rep _ _ _)).
  - repeat (apply Forall_cons_2; [repeat split; repeat constructor; done|]). apply Forall_nil_2.
  - done.
  - done.
Defined.

Lemma lpDeleteRange_witness : exists lp',
  lpDeleteRange (H := exact_allocator) example_lp (-1) 5 = Ret lp' /\ lp_rep lp' [[5]].
Proof.
  exact (lpDeleteRange_correct (H := exact_allocator) example_lp example_es (-1) 5 example_rep ltac:(lia)).
Defined.

Lemma lpBatchDelete_witness : exists lp',
  lpBatchDelete (H := exact_allocator) example_lp [6] = Ret lp' /\ lp_rep lp' [[0x81; 0x61]].
Proof.
  refine (lpBatchDelete_correct (H := exact_allocator) example_lp example_es [0%nat] example_rep _ _).
  - repeat constructor.
  - repeat constructor.
Defined.

Lemma lpMerge_witness : exists lp',
  lpMerge (H := exact_allocator) (Some example_lp) (Some example_lp) false = Ret (Some (lp', true)) /\
  lp_rep lp' (example_es ++ example_es).
Proof.
  exact (lpMerge_correct (H := exact_allocator) example_lp example_lp example_es example_es
    example_rep example_rep).
Defined.
