(* ===== verification/Lzf.v ===== *)
(** * lzf_c.c, lzf_d.c: LZF compression of strings and quicklist nodes

    The configuration is the one the headers select (lzfP.h): HLOG 16,
    VERY_FAST, no INIT_HTAB, pointers in the hash table, CHECK_INPUT.  [inp] and
    [out] are the two buffers, with exactly [in_len] and [out_len] bytes; a
    pointer into one of them is an offset.  The hash table is not initialised:
    it is modelled as a function from slots to offsets, arbitrary at the start
    (a stale pointer is an arbitrary address, hence an arbitrary offset). *)

From S2P Require Import Prelude Memory.

Definition HLOG : Z := 16.
Definition HSIZE : Z := Z.shiftl 1 HLOG.
Definition MAX_LIT : Z := Z.shiftl 1 5.
Definition MAX_OFF : Z := Z.shiftl 1 13.
Definition MAX_REF : Z := Z.shiftl 1 8 + Z.shiftl 1 3.

(** ** Decompression *)

(** [*op++ = *ip++], [n] times, from the input. *)
Fixpoint copy_lit (n : nat) (inp out : list Z) (ip op : Z) : outcome (list Z) :=
  match n with
  | O => Ret out
  | S n => c ← rd inp ip; out ← wr out op c; copy_lit n inp out (ip + 1) (op + 1)
  end.

(** [*op++ = *ref++], [n] times, inside the output. *)
Fixpoint copy_ref (n : nat) (out : list Z) (ref op : Z) : outcome (list Z) :=
  match n with
  | O => Ret out
  | S n => c ← rd out ref; out ← wr out op c; copy_ref n out (ref + 1) (op + 1)
  end.

Fixpoint lzf_decompress_loop (fuel : nat) (inp out : list Z) (ip op : Z) : outcome (Z * list Z) :=
  let in_end := Zlen inp in
  let out_end := Zlen out in
  if negb (ip <? in_end) then Ret (op, out) else
  match fuel with
  | O => OutOfFuel
  | S fuel =>
    ctrl ← rd inp ip;
    let ip := ip + 1 in
    if ctrl <? Z.shiftl 1 5 then
      let ctrl := ctrl + 1 in
      if out_end <? op + ctrl then Ret (0, out) else
      if in_end <? ip + ctrl then Ret (0, out) else
      out ← copy_lit (Z.to_nat ctrl) inp out ip op;
      lzf_decompress_loop fuel inp out (ip + ctrl) (op + ctrl)
    else
      let len := Z.shiftr ctrl 5 in
      let ref := op - Z.shiftl (Z.land ctrl 0x1f) 8 - 1 in
      if in_end <=? ip then Ret (0, out) else
      r ← (if len =? 7 then
             b ← rd inp ip;
             let ip := ip + 1 in
             if in_end <=? ip then Ret None else Ret (Some (len + b, ip))
           else Ret (Some (len, ip)));
      match r with
      | None => Ret (0, out)
      | Some (len, ip) =>
        b ← rd inp ip;
        let ref := ref - b in
        let ip := ip + 1 in
        if out_end <? op + len + 2 then Ret (0, out) else
        if ref <? 0 then Ret (0, out) else
        out ← (if (len <=? 9) then copy_ref (Z.to_nat (len + 2)) out ref op
               else
                 let len := len + 2 in
                 if ref + len <=? op then bs ← rdn out ref len; wrn out op bs
                 else copy_ref (Z.to_nat len) out ref op);
        lzf_decompress_loop fuel inp out ip (op + len + 2)
      end
  end.

(** The return value (0 is an error) and the output buffer. *)
Definition lzf_decompress (inp out : list Z) : outcome (Z * list Z) :=
  lzf_decompress_loop (length inp) inp out 0 0.

(** ** Compression *)

Definition FRST (inp : list Z) (p : Z) : outcome Z :=
  b0 ← rd inp p; b1 ← rd inp (p + 1); Ret (Z.lor (Z.shiftl b0 8) b1).

Definition NEXT (v : Z) (inp : list Z) (p : Z) : outcome Z :=
  b2 ← rd inp (p + 2); Ret (Z.lor (u32 (Z.shiftl v 8)) b2).

Definition IDX (h : Z) : Z :=
  Z.land (u32 (Z.shiftr h (3 * 8 - HLOG) - u32 (h * 5))) (HSIZE - 1).

Definition set_slot (htab : Z -> Z) (i p : Z) : Z -> Z := fun j => if j =? i then p else htab j.

(** [n] times [len++; if (ref[len] != ip[len]) break;]; tells whether it broke. *)
Fixpoint match_unrolled (n : nat) (inp : list Z) (ref ip len : Z) : outcome (Z * bool) :=
  match n with
  | O => Ret (len, false)
  | S n =>
    let len := len + 1 in
    r ← rd inp (ref + len); c ← rd inp (ip + len);
    if negb (r =? c) then Ret (len, true) else match_unrolled n inp ref ip len
  end.

(** [do len++; while (len < maxlen && ref[len] == ip[len]);] *)
Fixpoint match_while (fuel : nat) (inp : list Z) (ref ip maxlen len : Z) : outcome Z :=
  match fuel with
  | O => OutOfFuel
  | S fuel =>
    let len := len + 1 in
    if len <? maxlen then
      r ← rd inp (ref + len); c ← rd inp (ip + len);
      if r =? c then match_while fuel inp ref ip maxlen len else Ret len
    else Ret len
  end.

Definition match_len (inp : list Z) (ref ip maxlen : Z) : outcome Z :=
  let len := 2 in
  '(len, broke) ← (if 16 <? maxlen then match_unrolled 16 inp ref ip len else Ret (len, false));
  if (broke : bool) then Ret len
  else match_while (Z.to_nat MAX_REF) inp ref ip maxlen len.

Record lzf_state := {
  c_out : list Z; c_htab : Z -> Z; c_ip : Z; c_op : Z; c_lit : Z; c_hval : Z }.

(** The code after a match: stop the run, write the reference, advance and
    hash two more positions.  [None] is [return 0]; the boolean tells whether
    the loop is left by [break]. *)
Definition emit_match (inp : list Z) (s : lzf_state) (htab : Z -> Z) (hval ref off : Z)
  : outcome (option (lzf_state * bool)) :=
  let in_end := Zlen inp in
  let out_end := Zlen (c_out s) in
  let ip := c_ip s in
  let op := c_op s in
  let lit := c_lit s in
  let maxlen := u64 (in_end - ip - 2) in
  let maxlen := if MAX_REF <? maxlen then MAX_REF else maxlen in
  if (out_end <=? op + 3 + 1) && (out_end <=? op - c_bool (lit =? 0) + 3 + 1) then Ret None else
  out ← wr (c_out s) (op - lit - 1) (u8 (lit - 1));
  let op := op - c_bool (lit =? 0) in
  len ← match_len inp ref ip maxlen;
  let len := len - 2 in
  let ip := ip + 1 in
  '(out, op) ← (if len <? 7 then
                  out ← wr out op (u8 (Z.shiftr off 8 + Z.shiftl len 5)); Ret (out, op + 1)
                else
                  out ← wr out op (u8 (Z.shiftr off 8 + Z.shiftl 7 5));
                  out ← wr out (op + 1) (u8 (len - 7)); Ret (out, op + 2));
  out ← wr out op (u8 off);
  let op := op + 1 in
  let lit := 0 in
  let op := op + 1 in
  let ip := ip + (len + 1) in
  if in_end - 2 <=? ip then
    Ret (Some ({| c_out := out; c_htab := htab; c_ip := ip; c_op := op; c_lit := lit; c_hval := hval |}, true))
  else
    let ip := ip - 2 in
    hval ← FRST inp ip;
    hval ← NEXT hval inp ip;
    let htab := set_slot htab (IDX hval) ip in
    let ip := ip + 1 in
    hval ← NEXT hval inp ip;
    let htab := set_slot htab (IDX hval) ip in
    let ip := ip + 1 in
    Ret (Some ({| c_out := out; c_htab := htab; c_ip := ip; c_op := op; c_lit := lit; c_hval := hval |}, false)).

(** One literal byte, closing a full run. *)
Definition emit_literal (inp : list Z) (s : lzf_state) : outcome lzf_state :=
  let lit := c_lit s + 1 in
  c ← rd inp (c_ip s);
  out ← wr (c_out s) (c_op s) c;
  let op := c_op s + 1 in
  let ip := c_ip s + 1 in
  if lit =? MAX_LIT then
    out ← wr out (op - lit - 1) (u8 (lit - 1));
    Ret {| c_out := out; c_htab := c_htab s; c_ip := ip; c_op := op + 1; c_lit := 0; c_hval := c_hval s |}
  else
    Ret {| c_out := out; c_htab := c_htab s; c_ip := ip; c_op := op; c_lit := lit; c_hval := c_hval s |}.

(** The condition of the match branch. *)
Definition is_match (inp : list Z) (ref ip off : Z) : outcome bool :=
  if (off <? MAX_OFF) && (0 <? ref) then
    r2 ← rd inp (ref + 2); i2 ← rd inp (ip + 2);
    if r2 =? i2 then
      r0 ← rd inp ref; r1 ← rd inp (ref + 1); i0 ← rd inp ip; i1 ← rd inp (ip + 1);
      Ret ((r0 =? i0) && (r1 =? i1))
    else Ret false
  else Ret false.

Fixpoint lzf_compress_loop (fuel : nat) (inp : list Z) (s : lzf_state) : outcome (option lzf_state) :=
  let in_end := Zlen inp in
  if negb (c_ip s <? in_end - 2) then Ret (Some s) else
  match fuel with
  | O => OutOfFuel
  | S fuel =>
    hval ← NEXT (c_hval s) inp (c_ip s);
    let hslot := IDX hval in
    let ref := c_htab s hslot in
    let htab := set_slot (c_htab s) hslot (c_ip s) in
    let off := u64 (c_ip s - ref - 1) in
    m ← is_match inp ref (c_ip s) off;
    if (m : bool) then
      r ← emit_match inp s htab hval ref off;
      match r with
      | None => Ret None
      | Some (s, broke) => if (broke : bool) then Ret (Some s) else lzf_compress_loop fuel inp s
      end
    else
      if Zlen (c_out s) <=? c_op s then Ret None else
      s ← emit_literal inp {| c_out := c_out s; c_htab := htab; c_ip := c_ip s; c_op := c_op s;
                              c_lit := c_lit s; c_hval := hval |};
      lzf_compress_loop fuel inp s
  end.

(** The last bytes: [while (ip < in_end)]. *)
Fixpoint lzf_tail_loop (fuel : nat) (inp : list Z) (s : lzf_state) : outcome lzf_state :=
  if negb (c_ip s <? Zlen inp) then Ret s else
  match fuel with
  | O => OutOfFuel
  | S fuel => s ← emit_literal inp s; lzf_tail_loop fuel inp s
  end.

(** The return value and the output buffer; [None] is [return 0] (no compression). *)
Definition lzf_compress (htab : Z -> Z) (inp out : list Z) : outcome (option (Z * list Z)) :=
  let in_len := Zlen inp in
  let out_len := Zlen out in
  if (in_len =? 0) || (out_len =? 0) then Ret None else
  let lit := 0 in
  let op := 1 in
  hval ← FRST inp 0;
  r ← lzf_compress_loop (length inp) inp
        {| c_out := out; c_htab := htab; c_ip := 0; c_op := op; c_lit := lit; c_hval := hval |};
  match r with
  | None => Ret None
  | Some s =>
    if out_len <? c_op s + 3 then Ret None else
    s ← lzf_tail_loop 2 inp s;
    out ← wr (c_out s) (c_op s - c_lit s - 1) (u8 (c_lit s - 1));
    let op := c_op s - c_bool (c_lit s =? 0) in
    Ret (Some (op, out))
  end.

Example lzf_small :
  (let inp := [97;98;99;97;98;99;97;98;99;97;98;99;97;98;99;97;98;99;97;98] in
   r ← lzf_compress (fun _ => -7) inp (replicate 18 0);
   match r with
   | Some (n, out) => lzf_decompress (take (Z.to_nat n) out) (replicate 20 0)
   | None => Ret (0, [])
   end) =
  Ret (20, [97;98;99;97;98;99;97;98;99;97;98;99;97;98;99;97;98;99;97;98]).
Proof. vm_compute. reflexivity. Qed.

(** ** Memory safety of the decompressor *)

Lemma copy_lit_ok n inp out ip op : 0 <= ip -> ip + Z.of_nat n <= Zlen inp ->
  0 <= op -> op + Z.of_nat n <= Zlen out ->
  exists out', copy_lit n inp out ip op = Ret out' /\ Zlen out' = Zlen out.
Proof.
  revert out ip op. induction n as [|n IH]; intros out ip op Hi Hil Ho Hol; cbn [copy_lit]; [by exists out|].
  destruct (rd_ok inp ip ltac:(lia)) as [c ->]. cbn [mbind outcome_bind].
  rewrite wr_ok by lia. cbn [mbind outcome_bind].
  destruct (IH (<[Z.to_nat op := c]> out) (ip + 1) (op + 1)) as (out' & -> & Hl); rewrite ?Zlen_insert; try lia.
  exists out'. split; [done|]. by rewrite Hl, Zlen_insert.
Qed.

Lemma copy_ref_ok n out ref op : 0 <= ref < op -> op + Z.of_nat n <= Zlen out ->
  exists out', copy_ref n out ref op = Ret out' /\ Zlen out' = Zlen out.
Proof.
  revert out ref op. induction n as [|n IH]; intros out ref op Hr Ho; cbn [copy_ref]; [by exists out|].
  destruct (rd_ok out ref ltac:(lia)) as [c ->]. cbn [mbind outcome_bind].
  rewrite wr_ok by lia. cbn [mbind outcome_bind].
  destruct (IH (<[Z.to_nat op := c]> out) (ref + 1) (op + 1)) as (out' & -> & Hl); rewrite ?Zlen_insert; try lia.
  exists out'. split; [done|]. by rewrite Hl, Zlen_insert.
Qed.

(** The copy of a back reference, whichever way it is done. *)
Definition copy_back (len : Z) (out : list Z) (ref op : Z) : outcome (list Z) :=
  if len <=? 9 then copy_ref (Z.to_nat (len + 2)) out ref op
  else
    let len := len + 2 in
    if ref + len <=? op then bs ← rdn out ref len; wrn out op bs
    else copy_ref (Z.to_nat len) out ref op.

Lemma copy_back_ok len out ref op : 0 <= len -> 0 <= ref < op -> op + len + 2 <= Zlen out ->
  exists out', copy_back len out ref op = Ret out' /\ Zlen out' = Zlen out.
Proof.
  intros Hl Hr Ho. unfold copy_back. cbv zeta.
  destruct (len <=? 9); [apply copy_ref_ok; lia|].
  destruct (Z.leb_spec (ref + (len + 2)) op); [|apply copy_ref_ok; lia].
  destruct (rdn out ref (len + 2)) as [bs| | |] eqn:E; try (rewrite rdn_ok in E by lia; done).
  cbn [mbind outcome_bind]. pose proof (rdn_length _ _ _ _ E) as (Hb & _ & _).
  destruct (wrn out op bs) as [o| | |] eqn:Ew; try (rewrite wrn_ok in Ew by lia; done).
  exists o. split; [done|]. apply wrn_length in Ew. unfold Zlen. lia.
Qed.

Lemma lzf_decompress_loop_safe fuel inp out ip op : Forall is_byte inp ->
  0 <= ip <= Zlen inp -> 0 <= op <= Zlen out -> (Z.to_nat (Zlen inp - ip) <= fuel)%nat ->
  exists n out', lzf_decompress_loop fuel inp out ip op = Ret (n, out') /\
    0 <= n <= Zlen out /\ Zlen out' = Zlen out.
Proof.
  intros Hb. revert out ip op. induction fuel as [|fuel IH]; intros out ip op Hi Ho Hf;
    cbn [lzf_decompress_loop]; destruct (Z.ltb_spec ip (Zlen inp)) as [Hlt|]; cbn [negb];
    try (exists op, out; split; [done|lia]); [lia|].
  assert (forall q x, rd inp q = Ret x -> 0 <= x < 256) as Hbyte.
  { intros q x Hq. apply rd_Ret_inv in Hq as [_ Hq]. exact (Forall_lookup_1 _ _ _ _ Hb Hq). }
  destruct (rd_ok inp ip ltac:(lia)) as [ctrl Hctrl]. rewrite Hctrl. cbn [mbind outcome_bind].
  apply Hbyte in Hctrl. change (Z.shiftl 1 5) with 32.
  assert (forall o', Zlen o' = Zlen out -> forall ip' op', ip < ip' <= Zlen inp -> 0 <= op' <= Zlen out ->
    exists n out', lzf_decompress_loop fuel inp o' ip' op' = Ret (n, out') /\
      0 <= n <= Zlen out /\ Zlen out' = Zlen out) as Hnext.
  { intros o' Ho' ip' op' Hip' Hop'. rewrite <- Ho' in *. apply IH; lia. }
  assert (exists n out', Ret (0, out) = Ret (n, out') /\ 0 <= n <= Zlen out /\ Zlen out' = Zlen out) as H0
    by (exists 0, out; split; [done|lia]).
  destruct (Z.ltb_spec ctrl 32).
  - destruct (Z.ltb_spec (Zlen out) (op + (ctrl + 1))); [done|].
    destruct (Z.ltb_spec (Zlen inp) (ip + 1 + (ctrl + 1))); [done|].
    destruct (copy_lit_ok (Z.to_nat (ctrl + 1)) inp out (ip + 1) op) as (o' & -> & Ho'); try lia.
    apply Hnext; [done|lia|lia].
  - destruct (Z.leb_spec (Zlen inp) (ip + 1)); [done|].
    rewrite shiftr_div by lia. change (2 ^ 5) with 32. rewrite (Z.land_ones _ 5) by lia.
    change (2 ^ 5) with 32. rewrite Z.shiftl_mul_pow2 by lia. change (2 ^ 8) with 256.
    assert (forall len ip', 0 <= len -> ip < ip' < Zlen inp -> exists n out',
      (b ← rd inp ip';
       (if Zlen out <? op + len + 2 then Ret (0, out) else
        if op - ctrl mod 32 * 256 - 1 - b <? 0 then Ret (0, out) else
        out ← copy_back len out (op - ctrl mod 32 * 256 - 1 - b) op;
        lzf_decompress_loop fuel inp out (ip' + 1) (op + len + 2))) = Ret (n, out') /\
      0 <= n <= Zlen out /\ Zlen out' = Zlen out) as Hback.
    { intros len ip' Hl Hip'. destruct (rd_ok inp ip' ltac:(lia)) as [b Eb]. rewrite Eb.
      apply Hbyte in Eb. cbn [mbind outcome_bind].
      destruct (Z.ltb_spec (Zlen out) (op + len + 2)); [done|].
      destruct (Z.ltb_spec (op - ctrl mod 32 * 256 - 1 - b) 0); [done|].
      destruct (copy_back_ok len out (op - ctrl mod 32 * 256 - 1 - b) op) as (o' & -> & Ho'); try dlia.
      cbn [mbind outcome_bind]. apply Hnext; [done|lia|lia]. }
    destruct (ctrl / 32 =? 7).
    + destruct (rd_ok inp (ip + 1) ltac:(lia)) as [b Eb]. rewrite Eb. apply Hbyte in Eb.
      cbn [mbind outcome_bind]. destruct (Z.leb_spec (Zlen inp) (ip + 1 + 1)); [done|].
      cbn [mbind outcome_bind]. apply Hback; [dlia|lia].
    + cbn [mbind outcome_bind]. apply Hback; [dlia|lia].
Qed.

(** ** The format *)

(** A compressed stream is a sequence of literal runs and back references. *)
Inductive token :=
| TLit (bs : list Z)
| TRef (off len : Z).

Definition token_ok (t : token) : Prop :=
  match t with
  | TLit bs => 1 <= Zlen bs <= 32
  | TRef off len => 0 <= off < 8192 /\ 3 <= len <= 264
  end.

(** The bytes of a token. *)
Definition tok_bytes (t : token) : list Z :=
  match t with
  | TLit bs => (Zlen bs - 1) :: bs
  | TRef off len =>
    let l := len - 2 in
    if l <? 7 then [off / 256 + l * 32; off mod 256] else [off / 256 + 224; l - 7; off mod 256]
  end.

(** Appends [n] bytes, each the one [off+1] before the end. *)
Fixpoint back_copy (n : nat) (off : Z) (acc : list Z) : option (list Z) :=
  match n with
  | O => Some acc
  | S n =>
    match rd acc (Zlen acc - off - 1) with
    | Ret c => back_copy n off (acc ++ [c])
    | _ => None
    end
  end.

Definition tok_run (t : token) (acc : list Z) : option (list Z) :=
  match t with
  | TLit bs => Some (acc ++ bs)
  | TRef off len => if off <? Zlen acc then back_copy (Z.to_nat len) off acc else None
  end.

Fixpoint toks_run (ts : list token) (acc : list Z) : option (list Z) :=
  match ts with
  | [] => Some acc
  | t :: ts => match tok_run t acc with Some acc => toks_run ts acc | None => None end
  end.

Definition toks_bytes (ts : list token) : list Z := concat (map tok_bytes ts).

Lemma toks_run_app ts1 ts2 acc : toks_run (ts1 ++ ts2) acc =
  match toks_run ts1 acc with Some acc => toks_run ts2 acc | None => None end.
Proof. revert acc. induction ts1 as [|t ts1 IH]; intros acc; simpl; [done|]. by destruct (tok_run t acc). Qed.

Lemma toks_bytes_app ts1 ts2 : toks_bytes (ts1 ++ ts2) = toks_bytes ts1 ++ toks_bytes ts2.
Proof. unfold toks_bytes. by rewrite map_app, concat_app. Qed.

(** *** The decompressor follows the format *)

(** [out] starts with [acc]. *)
Definition holds (out acc : list Z) : Prop := exists rest, out = acc ++ rest.

Lemma holds_write out acc c : holds out acc -> Zlen acc < Zlen out ->
  exists out', wr out (Zlen acc) c = Ret out' /\ Zlen out' = Zlen out /\ holds out' (acc ++ [c]).
Proof.
  intros [rest ->] Hl. rewrite Zlen_app in Hl. pose proof (Zlen_nonneg acc).
  rewrite wr_ok by (rewrite Zlen_app; lia). eexists. split; [done|]. split; [apply Zlen_insert|].
  unfold Zlen at 1. rewrite Nat2Z.id. destruct rest as [|r rest]; [rewrite Zlen_nil in Hl; lia|].
  exists rest. rewrite insert_app_r_alt by lia. rewrite Nat.sub_diag. simpl. by rewrite <- app_assoc.
Qed.

Lemma copy_lit_run bs : forall inp out ip acc, rdn inp ip (Zlen bs) = Ret bs ->
  holds out acc -> Zlen acc + Zlen bs <= Zlen out ->
  exists out', copy_lit (length bs) inp out ip (Zlen acc) = Ret out' /\ Zlen out' = Zlen out /\
    holds out' (acc ++ bs).
Proof.
  induction bs as [|c bs IH]; intros inp out ip acc Hr Hh Hl; cbn [copy_lit length].
  - exists out. by rewrite app_nil_r.
  - rewrite Zlen_cons in Hr, Hl. pose proof (Zlen_nonneg bs).
    change (c :: bs) with ([c] ++ bs) in Hr. apply (rdn_split inp ip [c] bs) in Hr as [Hr0 Hr'].
    change (Zlen [c]) with 1 in *. pose proof (rd_of_rdn _ _ _ _ 0 Hr0 ltac:(lia)) as Hc.
    rewrite Z.add_0_r in Hc. rewrite Hc.
    change (rd [c] 0) with (Ret c). cbn [mbind outcome_bind]. destruct (holds_write out acc c Hh ltac:(lia)) as (o1 & -> & Hl1 & Hh1).
    cbn [mbind outcome_bind].
    destruct (IH inp o1 (ip + 1) (acc ++ [c]) Hr' Hh1) as (o2 & Hcp & Hl2 & Hh2).
    { rewrite Zlen_app, Zlen_cons, Zlen_nil. lia. }
    exists o2. rewrite Zlen_app, Zlen_cons, Zlen_nil in Hcp. replace (Zlen acc + 1) with (Zlen acc + (1 + 0)) by lia.
    rewrite Hcp. split; [done|]. split; [lia|]. by rewrite <- app_assoc in Hh2.
Qed.

Lemma holds_rd out acc i c : holds out acc -> rd acc i = Ret c -> rd out i = Ret c.
Proof. intros [rest ->] H. rewrite rd_app_l; [done|]. apply rd_Ret_inv in H. lia. Qed.

Lemma back_copy_length n off acc acc' : back_copy n off acc = Some acc' -> Zlen acc' = Zlen acc + Z.of_nat n.
Proof.
  revert acc. induction n as [|n IH]; intros acc; cbn [back_copy]; [intros [= ->]; lia|].
  destruct (rd acc _); try done. intros H. apply IH in H. rewrite Zlen_app, Zlen_cons, Zlen_nil in H. lia.
Qed.

Lemma copy_ref_run n : forall out off acc acc', back_copy n off acc = Some acc' ->
  holds out acc -> Zlen acc' <= Zlen out ->
  exists out', copy_ref n out (Zlen acc - off - 1) (Zlen acc) = Ret out' /\ Zlen out' = Zlen out /\
    holds out' acc'.
Proof.
  induction n as [|n IH]; intros out off acc acc' Hb Hh Hl; cbn [copy_ref back_copy] in *.
  - injection Hb as <-. by exists out.
  - destruct (rd acc (Zlen acc - off - 1)) as [c| | |] eqn:Ec; try done.
    rewrite (holds_rd _ _ _ _ Hh Ec). cbn [mbind outcome_bind].
    pose proof (back_copy_length _ _ _ _ Hb) as Hlen. rewrite Zlen_app, Zlen_cons, Zlen_nil in Hlen.
    destruct (holds_write out acc c Hh ltac:(lia)) as (o1 & -> & Hl1 & Hh1). cbn [mbind outcome_bind].
    destruct (IH o1 off (acc ++ [c]) acc' Hb Hh1 ltac:(lia)) as (o2 & Hc & Hl2 & Hh2).
    rewrite Zlen_app, Zlen_cons, Zlen_nil in Hc.
    replace (Zlen acc + (1 + 0) - off - 1) with (Zlen acc - off - 1 + 1) in Hc by lia.
    replace (Zlen acc + (1 + 0)) with (Zlen acc + 1) in Hc by lia.
    exists o2. rewrite Hc. split; [done|]. split; [lia|done].
Qed.

(** A copy from before the end: what it appends when it does not overlap. *)
Lemma back_copy_disjoint n off acc acc' bs : back_copy n off acc = Some acc' ->
  Z.of_nat n <= off + 1 -> rdn acc (Zlen acc - off - 1) (Z.of_nat n) = Ret bs -> acc' = acc ++ bs.
Proof.
  revert acc bs. induction n as [|n IH]; intros acc bs Hb Hle Hr; cbn [back_copy] in Hb.
  - injection Hb as <-. apply rdn_length in Hr as (Hr & _). destruct bs; [by rewrite app_nil_r|].
    rewrite Zlen_cons in Hr. pose proof (Zlen_nonneg bs). lia.
  - destruct (rd acc (Zlen acc - off - 1)) as [c| | |] eqn:Ec; try done.
    pose proof (rdn_length _ _ _ _ Hr) as (Hlb & Hi & Hil).
    destruct bs as [|c' bs]; [rewrite Zlen_nil in Hlb; lia|].
    pose proof (rdn_length _ _ _ _ Hr) as _.
    assert (rd (c' :: bs) 0 = Ret c) as Hc'.
    { rewrite <- Ec. rewrite <- (rd_of_rdn _ _ _ _ 0 Hr) by lia. f_equal. lia. }
    injection Hc' as ->. apply IH with (bs := bs) in Hb.
    + by rewrite <- app_assoc in Hb.
    + lia.
    + rewrite Zlen_app, Zlen_cons, Zlen_nil.
      replace (Zlen acc + (1 + 0) - off - 1) with (Zlen acc - off - 1 + 1) by lia.
      rewrite Zlen_cons in Hlb.
      assert (rdn acc (Zlen acc - off - 1 + 1) (Z.of_nat n) = Ret bs) as E.
      { rewrite (rdn_sub _ _ _ _ _ _ Hr) by lia. pose proof (rdn_app [c] bs []) as E2.
        rewrite app_nil_r in E2. change (Zlen [c]) with 1 in E2. by replace (Z.of_nat n) with (Zlen bs) by lia. }
      rewrite <- E. apply rdn_ext; rewrite ?Zlen_app, ?Zlen_cons, ?Zlen_nil; try lia. intros j Hj.
      rewrite lookup_app_l by (unfold Zlen in *; lia). done.
Qed.

Lemma copy_back_run len out off acc acc' : 1 <= len ->
  back_copy (Z.to_nat (len + 2)) off acc = Some acc' -> 0 <= off < Zlen acc ->
  holds out acc -> Zlen acc' <= Zlen out ->
  exists out', copy_back len out (Zlen acc - off - 1) (Zlen acc) = Ret out' /\ Zlen out' = Zlen out /\
    holds out' acc'.
Proof.
  intros Hl Hb Hoff Hh Hfit. unfold copy_back. cbv zeta.
  destruct (len <=? 9); [by apply (copy_ref_run _ _ _ _ _ Hb)|].
  destruct (Z.leb_spec (Zlen acc - off - 1 + (len + 2)) (Zlen acc)) as [Hd|Hd];
    [|by apply (copy_ref_run _ _ _ _ _ Hb)].
  pose proof (back_copy_length _ _ _ _ Hb) as Hlen.
  destruct Hh as [rest ->]. rewrite Zlen_app in Hfit.
  destruct (rdn acc (Zlen acc - off - 1) (len + 2)) as [bs| | |] eqn:E;
    try (rewrite rdn_ok in E by lia; done).
  pose proof (rdn_length _ _ _ _ E) as (Hbs & _ & _).
  assert (acc' = acc ++ bs) as ->.
  { apply (back_copy_disjoint _ _ _ _ _ Hb); [lia|]. by rewrite Z2Nat.id by lia. }
  assert (rdn (acc ++ rest) (Zlen acc - off - 1) (len + 2) = Ret bs) as ->.
  { rewrite <- E. apply rdn_ext; rewrite ?Zlen_app; try (pose proof (Zlen_nonneg rest); lia). intros j Hj.
    rewrite lookup_app_l by (unfold Zlen in *; lia). done. }
  cbn [mbind outcome_bind].
  rewrite <- (take_drop (length bs) rest). rewrite wrn_app by (rewrite length_take; unfold Zlen in *; lia).
  eexists. split; [done|]. split; [|exists (drop (length bs) rest); by rewrite <- app_assoc].
  rewrite take_drop. unfold Zlen in *. rewrite !length_app, length_drop. lia.
Qed.

Lemma tok_run_length t acc acc' : token_ok t -> tok_run t acc = Some acc' -> Zlen acc < Zlen acc'.
Proof.
  destruct t as [bs|off len]; simpl; intros Hok.
  - intros [= <-]. rewrite Zlen_app. lia.
  - destruct (_ <? _); [|done]. intros H. apply back_copy_length in H. lia.
Qed.

Lemma toks_run_length ts acc acc' : Forall token_ok ts -> toks_run ts acc = Some acc' -> Zlen acc <= Zlen acc'.
Proof.
  intros Hok. revert acc. induction Hok as [|t ts Ht _ IH]; intros acc; simpl; [intros [= ->]; lia|].
  destruct (tok_run t acc) as [a|] eqn:E; [|done]. intros H. apply IH in H.
  pose proof (tok_run_length _ _ _ Ht E). lia.
Qed.

Lemma rd_at_pre (pre l : list Z) j : 0 <= j -> rd (pre ++ l) (Zlen pre + j) = rd l j.
Proof. intros. by apply rd_app_off. Qed.

(** One token, at the head of the remaining input. *)
Lemma dec_token fuel t pre rest out acc acc' : token_ok t -> tok_run t acc = Some acc' ->
  holds out acc -> Zlen acc' <= Zlen out ->
  exists out', lzf_decompress_loop (S fuel) (pre ++ tok_bytes t ++ rest) out (Zlen pre) (Zlen acc) =
      lzf_decompress_loop fuel (pre ++ tok_bytes t ++ rest) out' (Zlen (pre ++ tok_bytes t)) (Zlen acc') /\
    Zlen out' = Zlen out /\ holds out' acc'.
Proof.
  intros Hok Hrun Hh Hfit. cbn [lzf_decompress_loop].
  pose proof (Zlen_nonneg rest). pose proof (Zlen_nonneg pre). pose proof (Zlen_nonneg acc).
  assert (0 < Zlen (tok_bytes t)) as Htb.
  { destruct t as [bs|off len]; simpl; [zlen; pose proof (Zlen_nonneg bs); lia|].
    destruct (_ <? _); zlen; lia. }
  destruct (Z.ltb_spec (Zlen pre) (Zlen (pre ++ tok_bytes t ++ rest))); [|rewrite !Zlen_app in *; lia].
  cbn [negb]. pose proof (rd_at_pre pre (tok_bytes t ++ rest) 0 ltac:(lia)) as Hr0.
  rewrite Z.add_0_r in Hr0. rewrite Hr0. clear Hr0.
  change (Z.shiftl 1 5) with 32.
  destruct t as [bs|off len]; cbn [tok_bytes tok_run token_ok] in *.
  - injection Hrun as <-. rewrite Zlen_app in Hfit. cbn [app].
    change (rd ((Zlen bs - 1) :: bs ++ rest) 0) with (Ret (Zlen bs - 1)). cbn [mbind outcome_bind].
    destruct (Z.ltb_spec (Zlen bs - 1) 32); [|lia]. rewrite Z.sub_add.
    destruct (Z.ltb_spec (Zlen out) (Zlen acc + Zlen bs)); [lia|].
    destruct (Z.ltb_spec (Zlen (pre ++ (Zlen bs - 1) :: bs ++ rest)) (Zlen pre + 1 + Zlen bs));
      [zlen; lia|].
    assert (rdn (pre ++ (Zlen bs - 1) :: bs ++ rest) (Zlen pre + 1) (Zlen bs) = Ret bs) as Hbs.
    { replace (pre ++ (Zlen bs - 1) :: bs ++ rest) with ((pre ++ [Zlen bs - 1]) ++ bs ++ rest)
        by (by rewrite <- app_assoc).
      replace (Zlen pre + 1) with (Zlen (pre ++ [Zlen bs - 1])) by (zlen; lia). apply rdn_app. }
    destruct (copy_lit_run bs _ out _ acc Hbs Hh) as (o1 & Hc & Hl & Hh1); [lia|].
    unfold Zlen at 6. rewrite Nat2Z.id.
    replace (Z.to_nat (Zlen bs)) with (length bs) by (unfold Zlen; lia).
    rewrite Hc. cbn [mbind outcome_bind]. exists o1. split; [|done].
    f_equal; [zlen; lia|zlen; lia].
  - destruct (Z.ltb_spec off (Zlen acc)) as [Hoff|]; [|done].
    pose proof (back_copy_length _ _ _ _ Hrun) as Hlen.
    set (l := len - 2) in *. assert (1 <= l <= 262) as Hlr by (unfold l; lia).
    assert (Z.to_nat len = Z.to_nat (l + 2)) as El by (unfold l; f_equal; lia). rewrite El in *.
    destruct (copy_back_run l out off acc acc' ltac:(lia) Hrun ltac:(lia) Hh Hfit) as (o1 & Hc & Hl1 & Hh1).
    assert (forall x, (if l <=? 9 then copy_ref (Z.to_nat (l + 2)) out x (Zlen acc)
      else let len := l + 2 in if x + len <=? Zlen acc then bs ← rdn out x len; wrn out (Zlen acc) bs
           else copy_ref (Z.to_nat len) out x (Zlen acc)) = copy_back l out x (Zlen acc)) as Hcb by done.
    destruct (Z.ltb_spec l 7) as [Hl7|Hl7]; cbn [app].
    + change (rd (off / 256 + l * 32 :: off mod 256 :: rest) 0) with (Ret (off / 256 + l * 32)).
      cbn [mbind outcome_bind]. destruct (Z.ltb_spec (off / 256 + l * 32) 32); [dlia|].
      rewrite shiftr_div, (Z.land_ones _ 5), Z.shiftl_mul_pow2 by lia.
      change (2 ^ 5) with 32. change (2 ^ 8) with 256.
      replace ((off / 256 + l * 32) / 32) with l by dlia.
      replace ((off / 256 + l * 32) mod 32) with (off / 256) by dlia.
      destruct (Z.leb_spec (Zlen (pre ++ off / 256 + l * 32 :: off mod 256 :: rest)) (Zlen pre + 1));
        [zlen; lia|].
      destruct (Z.eqb_spec l 7); [lia|]. cbn [mbind outcome_bind].
      rewrite rd_at_pre by lia. change (rd (off / 256 + l * 32 :: off mod 256 :: rest) 1) with (Ret (off mod 256)).
      cbn [mbind outcome_bind]. destruct (Z.ltb_spec (Zlen out) (Zlen acc + l + 2)); [lia|].
      replace (Zlen acc - off / 256 * 256 - 1 - off mod 256) with (Zlen acc - off - 1) by dlia.
      destruct (Z.ltb_spec (Zlen acc - off - 1) 0); [lia|].
      rewrite Hcb, Hc. cbn [mbind outcome_bind]. exists o1. split; [|done]. f_equal; [zlen; lia|lia].
    + change (rd (off / 256 + 224 :: l - 7 :: off mod 256 :: rest) 0) with (Ret (off / 256 + 224)).
      cbn [mbind outcome_bind]. destruct (Z.ltb_spec (off / 256 + 224) 32); [dlia|].
      rewrite shiftr_div, (Z.land_ones _ 5), Z.shiftl_mul_pow2 by lia.
      change (2 ^ 5) with 32. change (2 ^ 8) with 256.
      replace ((off / 256 + 224) / 32) with 7 by dlia.
      replace ((off / 256 + 224) mod 32) with (off / 256) by dlia.
      destruct (Z.leb_spec (Zlen (pre ++ off / 256 + 224 :: l - 7 :: off mod 256 :: rest)) (Zlen pre + 1));
        [zlen; lia|].
      cbn [Z.eqb Pos.eqb]. rewrite rd_at_pre by lia.
      change (rd (off / 256 + 224 :: l - 7 :: off mod 256 :: rest) 1) with (Ret (l - 7)).
      cbn [mbind outcome_bind].
      destruct (Z.leb_spec (Zlen (pre ++ off / 256 + 224 :: l - 7 :: off mod 256 :: rest)) (Zlen pre + 1 + 1));
        [zlen; lia|].
      cbn [mbind outcome_bind]. rewrite <- (Z.add_assoc (Zlen pre) 1 1). rewrite rd_at_pre by lia.
      change (rd (off / 256 + 224 :: l - 7 :: off mod 256 :: rest) (1 + 1)) with (Ret (off mod 256)).
      cbn [mbind outcome_bind]. replace (7 + (l - 7)) with l by lia.
      destruct (Z.ltb_spec (Zlen out) (Zlen acc + l + 2)); [lia|].
      replace (Zlen acc - off / 256 * 256 - 1 - off mod 256) with (Zlen acc - off - 1) by dlia.
      destruct (Z.ltb_spec (Zlen acc - off - 1) 0); [lia|].
      rewrite Hcb, Hc. cbn [mbind outcome_bind]. exists o1. split; [|done]. f_equal; [zlen; lia|lia].
Qed.

Lemma dec_tokens ts : forall fuel pre out acc acc', Forall token_ok ts ->
  toks_run ts acc = Some acc' -> holds out acc -> Zlen acc' <= Zlen out -> (length ts <= fuel)%nat ->
  exists out', lzf_decompress_loop fuel (pre ++ toks_bytes ts) out (Zlen pre) (Zlen acc) =
    Ret (Zlen acc', out') /\ Zlen out' = Zlen out /\ holds out' acc'.
Proof.
  induction ts as [|t ts IH]; intros fuel pre out acc acc' Hok Hrun Hh Hfit Hf.
  - injection Hrun as <-. exists out. split; [|done]. change (toks_bytes []) with (@nil Z). rewrite app_nil_r.
    destruct fuel; cbn [lzf_decompress_loop]; (destruct (Z.ltb_spec (Zlen pre) (Zlen pre)); [lia|done]).
  - apply Forall_cons_1 in Hok as [Ht Hok]. cbn [toks_run] in Hrun.
    destruct (tok_run t acc) as [a|] eqn:Et; [|done]. destruct fuel as [|fuel]; [simpl in Hf; lia|].
    pose proof (toks_run_length _ _ _ Hok Hrun).
    change (toks_bytes (t :: ts)) with (tok_bytes t ++ toks_bytes ts).
    destruct (dec_token fuel t pre (toks_bytes ts) out acc a Ht Et Hh ltac:(lia)) as (o1 & -> & Hl1 & Hh1).
    rewrite app_assoc. destruct (IH fuel (pre ++ tok_bytes t) o1 a acc' Hok Hrun Hh1) as (o2 & Hr & Hl2 & Hh2);
      [lia|simpl in Hf; lia|].
    exists o2. split; [done|]. split; [lia|done].
Qed.

Lemma toks_bytes_length ts : Forall token_ok ts -> (length ts <= length (toks_bytes ts))%nat.
Proof.
  induction 1 as [|t ts Ht _ IH]; [done|]. change (toks_bytes (t :: ts)) with (tok_bytes t ++ toks_bytes ts).
  rewrite length_app. simpl length at 1. destruct t as [bs|off len]; simpl; [lia|].
  destruct (_ <? _); simpl; lia.
Qed.

(** ** The compressor emits a stream of the format *)

(** The addresses a stale slot can hold, as offsets from the input, which lies
    at [base]: any 64-bit address; the first two pages are never mapped. *)
Definition slot_ok (base x : Z) : Prop := 0 <= base + x < 2 ^ 64.

Definition layout_ok (base : Z) (inp : list Z) : Prop :=
  8192 <= base /\ base + Zlen inp <= 2 ^ 64.

Lemma off_in_window base inp ip x : layout_ok base inp -> slot_ok base x -> 0 <= ip < Zlen inp ->
  u64 (ip - x - 1) < MAX_OFF -> u64 (ip - x - 1) = ip - x - 1 /\ 0 <= ip - x - 1 < 8192.
Proof.
  unfold layout_ok, slot_ok. intros Hl Hx Hip Ho. change MAX_OFF with 8192 in Ho.
  unfold wrapu in *. destruct (Z.lt_ge_cases (ip - x - 1) 0).
  - assert ((ip - x - 1) mod 2 ^ 64 = ip - x - 1 + 2 ^ 64) as E.
    { symmetry. apply (Z.mod_unique _ _ (-1)); lia. }
    lia.
  - rewrite Z.mod_small in * by lia. lia.
Qed.

(** [IDX] is a slot of the table. *)
Lemma IDX_range h : 0 <= IDX h < HSIZE.
Proof.
  unfold IDX. change (HSIZE - 1) with (Z.ones 16). rewrite Z.land_ones by lia.
  change HSIZE with (2 ^ 16). apply Z.mod_pos_bound. lia.
Qed.

Section compress.
Context (inp : list Z) (base : Z) (Hbase : layout_ok base inp).

(** The first [n] bytes at [ref] and [ip] agree. *)
Definition agree (ref ip n : Z) : Prop :=
  forall j, 0 <= j < n -> rd inp (ref + j) = rd inp (ip + j).

Lemma agree_snoc ref ip n : agree ref ip n -> rd inp (ref + n) = rd inp (ip + n) -> agree ref ip (n + 1).
Proof. intros H E j Hj. destruct (decide (j = n)) as [->|]; [done|apply H; lia]. Qed.

Lemma is_match_spec ref ip off : 0 <= ip -> ip + 2 < Zlen inp -> (off < MAX_OFF -> ref < ip) ->
  exists b, is_match inp ref ip off = Ret b /\
    (b = true -> off < MAX_OFF /\ 0 < ref /\ agree ref ip 3).
Proof.
  intros Hip Hlen Hoff. unfold is_match.
  destruct (Z.ltb_spec off MAX_OFF), (Z.ltb_spec 0 ref); cbn [andb]; try (exists false; done).
  specialize (Hoff ltac:(done)).
  destruct (rd_ok inp (ref + 2) ltac:(lia)) as [r2 E2], (rd_ok inp (ip + 2) ltac:(lia)) as [i2 F2].
  rewrite E2, F2. cbn [mbind outcome_bind].
  destruct (Z.eqb_spec r2 i2) as [->|]; [|exists false; done].
  destruct (rd_ok inp ref ltac:(lia)) as [r0 E0], (rd_ok inp (ref + 1) ltac:(lia)) as [r1 E1],
    (rd_ok inp ip ltac:(lia)) as [i0 F0], (rd_ok inp (ip + 1) ltac:(lia)) as [i1 F1].
  rewrite E0, E1, F0, F1. cbn [mbind outcome_bind].
  destruct (Z.eqb_spec r0 i0) as [->|]; [|exists false; done].
  destruct (Z.eqb_spec r1 i1) as [->|]; cbn [andb]; [|exists false; done].
  exists true. split; [done|]. intros _. split; [done|]. split; [done|].
  intros j Hj. assert (j = 0 \/ j = 1 \/ j = 2) as [->|[->| ->]] by lia;
    rewrite ?Z.add_0_r; congruence.
Qed.

Lemma match_unrolled_spec n ref ip len : 0 <= ref < ip -> 0 <= len ->
  ip + len + Z.of_nat n < Zlen inp -> agree ref ip (len + 1) ->
  exists len' broke, match_unrolled n inp ref ip len = Ret (len', broke) /\
    if (broke : bool) then len < len' <= len + Z.of_nat n /\ agree ref ip len'
    else len' = len + Z.of_nat n /\ agree ref ip (len' + 1).
Proof.
  intros Hr. revert len. induction n as [|n IH]; intros len Hl Hfit Ha; cbn [match_unrolled].
  - exists len, false. split; [done|]. split; [lia|done].
  - destruct (rd_ok inp (ref + (len + 1)) ltac:(lia)) as [r E], (rd_ok inp (ip + (len + 1)) ltac:(lia)) as [c F].
    rewrite E, F. cbn [mbind outcome_bind]. destruct (Z.eqb_spec r c) as [->|]; cbn [negb].
    + destruct (IH (len + 1)) as (len' & broke & -> & Hs); [lia|lia|apply agree_snoc; [done|congruence]|].
      exists len', broke. split; [done|]. destruct broke; (split; [lia|tauto]).
    + exists (len + 1), true. split; [done|]. split; [lia|done].
Qed.

Lemma match_while_spec fuel ref ip maxlen len : 0 <= ref < ip -> 0 <= len ->
  ip + maxlen <= Zlen inp -> (Z.to_nat (maxlen - len) < fuel)%nat -> agree ref ip (len + 1) ->
  exists len', match_while fuel inp ref ip maxlen len = Ret len' /\
    len < len' <= Z.max (len + 1) maxlen /\ agree ref ip len'.
Proof.
  intros Hr. revert len. induction fuel as [|fuel IH]; intros len Hl Hfit Hf Ha; [lia|]. cbn [match_while].
  destruct (Z.ltb_spec (len + 1) maxlen) as [Hlt|].
  - destruct (rd_ok inp (ref + (len + 1)) ltac:(lia)) as [r E], (rd_ok inp (ip + (len + 1)) ltac:(lia)) as [c F].
    rewrite E, F. cbn [mbind outcome_bind]. destruct (Z.eqb_spec r c) as [->|].
    + destruct (IH (len + 1)) as (len' & -> & Hb & Ha'); [lia|lia|lia|apply agree_snoc; [done|congruence]|].
      exists len'. split; [done|]. split; [lia|done].
    + exists (len + 1). split; [done|]. split; [lia|done].
  - exists (len + 1). split; [done|]. split; [lia|done].
Qed.

Lemma match_len_spec ref ip maxlen : 0 <= ref < ip -> ip + maxlen + 2 <= Zlen inp ->
  1 <= maxlen <= MAX_REF -> agree ref ip 3 ->
  exists len, match_len inp ref ip maxlen = Ret len /\ 3 <= len <= MAX_REF /\
    ip + len <= Zlen inp /\ agree ref ip len.
Proof.
  intros Hr Hfit Hm Ha. unfold match_len. cbv zeta. change MAX_REF with 264 in *.
  destruct (Z.ltb_spec 16 maxlen) as [Hbig|Hsmall].
  - destruct (match_unrolled_spec 16 ref ip 2) as (len & broke & -> & Hs); [lia|lia|lia|done|].
    cbn [mbind outcome_bind]. destruct broke.
    + destruct Hs as [Hl Ha']. exists len. split; [done|]. split; [lia|]. split; [lia|done].
    + destruct Hs as [-> Ha'].
      destruct (match_while_spec (Z.to_nat 264) ref ip maxlen (2 + Z.of_nat 16)) as (len & -> & Hl & Ha'');
        [lia|lia|lia|lia|done|].
      exists len. split; [done|]. split; [lia|]. split; [lia|done].
  - cbn [mbind outcome_bind].
    destruct (match_while_spec (Z.to_nat 264) ref ip maxlen 2) as (len & -> & Hl & Ha');
      [lia|lia|lia|lia|done|].
    exists len. split; [done|]. split; [lia|]. split; [lia|done].
Qed.

(** A back reference to agreeing bytes reproduces the input. *)
Lemma back_copy_agree n off ip : 0 <= off < ip -> ip + Z.of_nat n <= Zlen inp ->
  agree (ip - off - 1) ip (Z.of_nat n) ->
  back_copy n off (take (Z.to_nat ip) inp) = Some (take (Z.to_nat (ip + Z.of_nat n)) inp).
Proof.
  revert ip. induction n as [|n IH]; intros ip Hoff Hfit Ha; cbn [back_copy].
  - by rewrite Z.add_0_r.
  - rewrite Zlen_take by lia.
    assert (rd (take (Z.to_nat ip) inp) (ip - off - 1) = rd inp (ip - off - 1)) as ->.
    { rewrite <- (take_drop (Z.to_nat ip) inp) at 2. rewrite rd_app_l; [done|]. rewrite Zlen_take by lia. lia. }
    pose proof (Ha 0 ltac:(lia)) as H0. rewrite !Z.add_0_r in H0. rewrite H0.
    destruct (rd_ok inp ip ltac:(lia)) as [c Hc]. rewrite Hc.
    assert (take (Z.to_nat ip) inp ++ [c] = take (Z.to_nat (ip + 1)) inp) as ->.
    { apply rd_Ret_inv in Hc as [_ Hc]. replace (Z.to_nat (ip + 1)) with (S (Z.to_nat ip)) by lia.
      symmetry. by apply take_S_r. }
    rewrite IH; [do 2 f_equal; lia|lia|lia|].
    intros j Hj. specialize (Ha (j + 1) ltac:(lia)).
    replace (ip + 1 - off - 1 + j) with (ip - off - 1 + (j + 1)) by lia.
    by replace (ip + 1 + j) with (ip + (j + 1)) by lia.
Qed.

(** *** The invariant *)

(** The stream emitted so far is [ts]; it decompresses to the input read so
    far less the [lit] bytes of the open run, which follow their length byte. *)
Record c_inv (s : lzf_state) (ts : list token) (lits : list Z) : Prop := {
  ci_ok : Forall token_ok ts;
  ci_lit : Zlen lits = c_lit s;
  ci_lit32 : c_lit s < 32;
  ci_ip : 0 <= c_ip s <= Zlen inp;
  ci_run : exists done, toks_run ts [] = Some done /\ take (Z.to_nat (c_ip s)) inp = done ++ lits;
  ci_size : 32 * Zlen (toks_bytes ts) <= 33 * (c_ip s - c_lit s);
  ci_op : c_op s = Zlen (toks_bytes ts) + 1 + c_lit s;
  ci_fit : c_op s <= Zlen (c_out s) + 1;
  ci_holds : holds (c_out s) (toks_bytes ts);
  ci_open : c_lit s <> 0 -> exists x, holds (c_out s) (toks_bytes ts ++ x :: lits);
  ci_htab : forall i, slot_ok base (c_htab s i);
}.

Lemma holds_open out acc : holds out acc -> Zlen acc < Zlen out -> exists x, holds out (acc ++ [x]).
Proof.
  intros [rest ->] Hl. rewrite Zlen_app in Hl. destruct rest as [|x rest]; [rewrite Zlen_nil in Hl; lia|].
  exists x, rest. by rewrite <- app_assoc.
Qed.

Lemma holds_set out acc x l y : holds out (acc ++ x :: l) ->
  exists out', wr out (Zlen acc) y = Ret out' /\ Zlen out' = Zlen out /\ holds out' (acc ++ y :: l).
Proof.
  intros [rest ->]. pose proof (Zlen_nonneg acc). pose proof (Zlen_nonneg l). pose proof (Zlen_nonneg rest).
  rewrite wr_ok by (zlen; lia). eexists. split; [done|]. split; [apply Zlen_insert|].
  exists rest. unfold Zlen at 1. rewrite Nat2Z.id, <- app_assoc. rewrite insert_app_r_alt by lia.
  rewrite Nat.sub_diag. simpl. by rewrite <- app_assoc.
Qed.

Lemma holds_prefix out a b : holds out (a ++ b) -> holds out a.
Proof. intros [rest ->]. exists (b ++ rest). by rewrite app_assoc. Qed.

Lemma holds_len out a : holds out a -> Zlen a <= Zlen out.
Proof. intros [rest ->]. rewrite Zlen_app. pose proof (Zlen_nonneg rest). lia. Qed.

Lemma take_ip_snoc ip c : 0 <= ip -> rd inp ip = Ret c ->
  take (Z.to_nat (ip + 1)) inp = take (Z.to_nat ip) inp ++ [c].
Proof.
  intros Hip Hc. apply rd_Ret_inv in Hc as [_ Hc].
  replace (Z.to_nat (ip + 1)) with (S (Z.to_nat ip)) by lia. by apply take_S_r.
Qed.

Lemma emit_literal_inv s ts lits : c_inv s ts lits -> c_ip s < Zlen inp -> c_op s < Zlen (c_out s) ->
  exists s' ts' lits', emit_literal inp s = Ret s' /\ c_inv s' ts' lits' /\
    c_ip s' = c_ip s + 1 /\ Zlen (c_out s') = Zlen (c_out s) /\
    (c_lit s + 1 = 32 /\ c_lit s' = 0 /\ c_op s' = c_op s + 2 \/
     c_lit s + 1 < 32 /\ c_lit s' = c_lit s + 1 /\ c_op s' = c_op s + 1).
Proof.
  intros [Hok Hlit H32 Hip (dn & Hrun & Htake) Hsize Hop Hfit Hh Hopen Htab] Hin Hroom.
  pose proof (Zlen_nonneg (toks_bytes ts)). pose proof (Zlen_nonneg lits).
  destruct (rd_ok inp (c_ip s) ltac:(lia)) as [c Hc].
  assert (exists x, holds (c_out s) (toks_bytes ts ++ x :: lits)) as [x Hx].
  { destruct (decide (c_lit s = 0)) as [E|E]; [|by apply Hopen].
    destruct (holds_open _ _ Hh ltac:(lia)) as [x Hx]. exists x.
    destruct lits; [done|]. rewrite Zlen_cons in Hlit. pose proof (Zlen_nonneg lits). lia. }
  destruct (holds_write _ _ c Hx) as (o1 & Hw1 & Hl1 & Hh1); [zlen; lia|].
  replace (Zlen (toks_bytes ts ++ x :: lits)) with (c_op s) in Hw1 by (zlen; lia).
  rewrite <- app_assoc in Hh1. cbn [app] in Hh1.
  unfold emit_literal. rewrite Hc. cbn [mbind outcome_bind]. rewrite Hw1. cbn [mbind outcome_bind].
  change MAX_LIT with 32. destruct (Z.eqb_spec (c_lit s + 1) 32) as [E|E].
  - replace (c_op s + 1 - (c_lit s + 1) - 1) with (Zlen (toks_bytes ts)) by lia.
    destruct (holds_set _ _ _ _ (u8 (c_lit s + 1 - 1)) Hh1) as (o2 & -> & Hl2 & Hh2).
    cbn [mbind outcome_bind].
    assert (u8 (c_lit s + 1 - 1) = Zlen (lits ++ [c]) - 1) as Eb by (rewrite wrapu_id by lia; zlen; lia).
    rewrite Eb in Hh2. assert (toks_bytes (ts ++ [TLit (lits ++ [c])]) =
      toks_bytes ts ++ (Zlen (lits ++ [c]) - 1) :: lits ++ [c]) as Et.
    { rewrite toks_bytes_app. unfold toks_bytes at 2. simpl. by rewrite app_nil_r. }
    eexists _, (ts ++ [TLit (lits ++ [c])]), []. split; [done|].
    split; [|split; [done|split; [simpl; lia|left; simpl; lia]]].
    split; cbn [c_out c_htab c_ip c_op c_lit c_hval]; try done.
    + apply Forall_app_2; [done|]. apply Forall_cons_2; [|apply Forall_nil_2]. simpl. zlen. lia.
    + lia.
    + exists (dn ++ lits ++ [c]). split; [rewrite toks_run_app, Hrun; done|].
      by rewrite (take_ip_snoc _ c), Htake, app_nil_r, <- app_assoc by (done || lia).
    + rewrite Et. zlen. lia.
    + rewrite Et. zlen. lia.
    + lia.
    + by rewrite Et.
  - eexists _, ts, (lits ++ [c]). split; [done|].
    split; [|split; [done|split; [done|right; simpl; lia]]].
    split; cbn [c_out c_htab c_ip c_op c_lit c_hval]; try done.
    + zlen. lia.
    + lia.
    + lia.
    + exists dn. split; [done|]. by rewrite (take_ip_snoc _ c), Htake, <- app_assoc by (done || lia).
    + lia.
    + lia.
    + lia.
    + by apply holds_prefix in Hh1.
    + intros _. by exists x.
Qed.

(** Closing the open run, or undoing an empty one. *)
Lemma flush_inv s ts lits : c_inv s ts lits -> c_op s - c_bool (c_lit s =? 0) <= Zlen (c_out s) ->
  exists out' ts', wr (c_out s) (c_op s - c_lit s - 1) (u8 (c_lit s - 1)) = Ret out' /\
    Zlen out' = Zlen (c_out s) /\ Forall token_ok ts' /\ holds out' (toks_bytes ts') /\
    toks_run ts' [] = Some (take (Z.to_nat (c_ip s)) inp) /\
    c_op s - c_bool (c_lit s =? 0) = Zlen (toks_bytes ts') /\
    32 * Zlen (toks_bytes ts') <= 33 * c_ip s + 32 \/
  c_lit s = 0 /\ c_op s = Zlen (c_out s) + 1.
Proof.
  intros [Hok Hlit H32 Hip (dn & Hrun & Htake) Hsize Hop Hfit Hh Hopen Htab] Hroom.
  pose proof (Zlen_nonneg (toks_bytes ts)). pose proof (Zlen_nonneg lits).
  replace (c_op s - c_lit s - 1) with (Zlen (toks_bytes ts)) by lia.
  destruct (Z.eqb_spec (c_lit s) 0) as [E|E]; cbn [c_bool] in *.
  - destruct (decide (c_op s = Zlen (c_out s) + 1)) as [?|Hne]; [exists (c_out s), ts; by right|].
    destruct (holds_write _ _ (u8 (c_lit s - 1)) Hh) as (o1 & Hw & Hl1 & Hh1); [lia|].
    exists o1, ts. left. split; [done|]. split; [done|]. split; [done|].
    split; [by apply holds_prefix in Hh1|]. split; [|lia].
    rewrite Htake. destruct lits; [by rewrite app_nil_r|]. rewrite Zlen_cons in Hlit.
    pose proof (Zlen_nonneg lits). lia.
  - destruct (Hopen E) as [x Hx].
    destruct (holds_set _ _ _ _ (u8 (c_lit s - 1)) Hx) as (o2 & Hw & Hl2 & Hh2).
    assert (u8 (c_lit s - 1) = Zlen lits - 1) as Eb by (rewrite wrapu_id by lia; lia).
    assert (toks_bytes (ts ++ [TLit lits]) = toks_bytes ts ++ (Zlen lits - 1) :: lits) as Et.
    { rewrite toks_bytes_app. unfold toks_bytes at 2. simpl. by rewrite app_nil_r. }
    exists o2, (ts ++ [TLit lits]). left. split; [done|]. split; [done|].
    split; [apply Forall_app_2; [done|apply Forall_cons_2; [simpl; lia|apply Forall_nil_2]]|].
    split; [by rewrite Et, <- Eb|]. split; [rewrite toks_run_app, Hrun; simpl; by rewrite Htake|].
    rewrite Et. zlen. lia.
Qed.

Lemma set_slot_ok htab i p : (forall j, slot_ok base (htab j)) -> 0 <= p < Zlen inp ->
  forall j, slot_ok base (set_slot htab i p j).
Proof.
  intros H Hp j. unfold set_slot. destruct (_ =? _); [|done].
  unfold slot_ok, layout_ok in *. lia.
Qed.

(** The bytes of a back reference, as the compressor writes them. *)
Lemma emit_ref_bytes out acc off len : holds out acc -> Zlen acc + 3 <= Zlen out ->
  0 <= off < 8192 -> 1 <= len <= 262 ->
  exists out1 op1 out', (if len <? 7 then
       out ← wr out (Zlen acc) (u8 (Z.shiftr off 8 + Z.shiftl len 5)); Ret (out, Zlen acc + 1)
     else
       out ← wr out (Zlen acc) (u8 (Z.shiftr off 8 + Z.shiftl 7 5));
       out ← wr out (Zlen acc + 1) (u8 (len - 7)); Ret (out, Zlen acc + 2)) = Ret (out1, op1) /\
    wr out1 op1 (u8 off) = Ret out' /\ op1 + 1 = Zlen (acc ++ tok_bytes (TRef off (len + 2))) /\
    Zlen out' = Zlen out /\ holds out' (acc ++ tok_bytes (TRef off (len + 2))).
Proof.
  intros Hh Hroom Hoff Hlen. rewrite !Z.shiftr_div_pow2, !Z.shiftl_mul_pow2 by lia.
  change (2 ^ 8) with 256. change (2 ^ 5) with 32. change (7 * 32) with 224.
  assert (u8 off = off mod 256) as -> by done.
  rewrite (wrapu_id 8 (off / 256 + 224)) by dlia. 
  destruct (holds_write _ _ (off / 256 + (if len <? 7 then len * 32 else 224)) Hh) as (o1 & Hw1 & Hl1 & Hh1); [lia|].
  cbn [tok_bytes]. cbv zeta. replace (len + 2 - 2) with len by lia.
  destruct (Z.ltb_spec len 7).
  - rewrite (wrapu_id 8) by dlia. rewrite Hw1. cbn [mbind outcome_bind].
    destruct (holds_write _ _ (off mod 256) Hh1) as (o2 & Hw2 & Hl2 & Hh2); [zlen; lia|].
    replace (Zlen (acc ++ [off / 256 + len * 32])) with (Zlen acc + 1) in Hw2 by (zlen; lia).
    rewrite <- app_assoc in Hh2. exists o1, (Zlen acc + 1), o2.
    split; [done|]. split; [done|]. split; [zlen; lia|]. split; [lia|done].
  - rewrite Hw1. cbn [mbind outcome_bind].
    destruct (holds_write _ _ (len - 7) Hh1) as (o2 & Hw2 & Hl2 & Hh2); [zlen; lia|].
    rewrite (wrapu_id 8) by lia.
    replace (Zlen (acc ++ [off / 256 + 224])) with (Zlen acc + 1) in Hw2 by (zlen; lia).
    rewrite Hw2. cbn [mbind outcome_bind].
    destruct (holds_write _ _ (off mod 256) Hh2) as (o3 & Hw3 & Hl3 & Hh3); [zlen; lia|].
    replace (Zlen ((acc ++ [off / 256 + 224]) ++ [len - 7])) with (Zlen acc + 2) in Hw3 by (zlen; lia).
    rewrite <- !app_assoc in Hh3. exists o2, (Zlen acc + 2), o3.
    split; [done|]. split; [done|]. split; [zlen; lia|]. split; [lia|done].
Qed.

Lemma emit_match_inv s ts lits htab hval ref : c_inv s ts lits -> c_ip s < Zlen inp - 2 ->
  0 <= c_ip s - ref - 1 < 8192 -> 0 < ref -> agree ref (c_ip s) 3 ->
  (forall j, slot_ok base (htab j)) ->
  emit_match inp s htab hval ref (c_ip s - ref - 1) = Ret None /\ Zlen (c_out s) <= c_op s + 4 \/
  exists s' ts' broke, emit_match inp s htab hval ref (c_ip s - ref - 1) = Ret (Some (s', broke)) /\
    c_inv s' ts' [] /\ c_ip s < c_ip s' /\ Zlen (c_out s') = Zlen (c_out s) /\
    ((broke : bool) = true -> Zlen inp - 2 <= c_ip s').
Proof.
  intros Hinv Hip Hoff Href Hag Htab. assert (Zlen inp < 2 ^ 64) by (unfold layout_ok in Hbase; lia). pose proof (ci_ip _ _ _ Hinv) as Hip0.
  pose proof (ci_lit _ _ _ Hinv) as Hlit. pose proof (Zlen_nonneg lits).
  unfold emit_match. cbv zeta. rewrite (wrapu_id 64 (Zlen inp - c_ip s - 2)) by lia.
  set (mx := if MAX_REF <? _ then _ else _).
  assert (1 <= mx <= MAX_REF /\ mx <= Zlen inp - c_ip s - 2) as [Hmx1 Hmx2].
  { subst mx. change MAX_REF with 264. destruct (Z.ltb_spec 264 (Zlen inp - c_ip s - 2)); lia. }
  destruct (((Zlen (c_out s) <=? c_op s + 3 + 1) &&
    (Zlen (c_out s) <=? c_op s - c_bool (c_lit s =? 0) + 3 + 1))) eqn:Eg.
  { left. split; [done|]. apply andb_true_iff in Eg as [Eg _]. apply Z.leb_le in Eg. lia. }
  right.
  assert (c_op s - c_bool (c_lit s =? 0) + 4 < Zlen (c_out s)) as Hroom.
  { apply andb_false_iff in Eg as [Eg|Eg]; apply Z.leb_gt in Eg; [|lia].
    destruct (c_lit s =? 0); simpl; lia. }
  destruct (flush_inv s ts lits Hinv ltac:(lia)) as (o1 & ts1 & [(Hw & Hl1 & Hok & Hh & Hrun & Hop & Hsz)|Hx]);
    [|destruct (c_lit s =? 0); simpl in *; lia].
  rewrite Hw. cbn [mbind outcome_bind]. rewrite Hop.
  destruct (match_len_spec ref (c_ip s) mx) as (len & -> & Hlen & Hfit & Hag'); [lia|lia|lia|done|].
  cbn [mbind outcome_bind]. change MAX_REF with 264 in *.
  destruct (emit_ref_bytes o1 (toks_bytes ts1) (c_ip s - ref - 1) (len - 2))
    as (o2 & op2 & o3 & Hw2 & Hw3 & Hop3 & Hl3 & Hh3); [done|lia|lia|lia|].
  rewrite Hw2. cbn [mbind outcome_bind]. rewrite Hw3. cbn [mbind outcome_bind].
  replace (len - 2 + 2) with len in * by lia.
  set (ts' := ts1 ++ [TRef (c_ip s - ref - 1) len]).
  assert (toks_bytes ts' = toks_bytes ts1 ++ tok_bytes (TRef (c_ip s - ref - 1) len)) as Et.
  { unfold ts'. rewrite toks_bytes_app. unfold toks_bytes at 2. cbn [map concat]. by rewrite app_nil_r. }
  assert (forall htab' h, (forall j, slot_ok base (htab' j)) ->
    c_inv {| c_out := o3; c_htab := htab'; c_ip := c_ip s + len; c_op := op2 + 1 + 1; c_lit := 0; c_hval := h |}
      ts' []) as Hnew.
  { intros htab' h Hh'. rewrite <- Et in *. pose proof (holds_len _ _ Hh3).
    split; cbn [c_out c_htab c_ip c_op c_lit c_hval]; try done; try lia.
    - apply Forall_app_2; [done|]. apply Forall_cons_2; [simpl; lia|apply Forall_nil_2].
    - exists (take (Z.to_nat (c_ip s + len)) inp). rewrite app_nil_r. split; [|done].
      unfold ts'. rewrite toks_run_app, Hrun. cbn [toks_run tok_run]. rewrite Zlen_take by lia.
      destruct (Z.ltb_spec (c_ip s - ref - 1) (c_ip s)); [|lia].
      rewrite back_copy_agree; rewrite ?Z2Nat.id by lia; [done|lia|lia|].
      by replace (c_ip s - (c_ip s - ref - 1) - 1) with ref by lia.
    - rewrite Et, Zlen_app. cbn [tok_bytes]. destruct (Z.ltb_spec (len - 2) 7); zlen; lia. }
  replace (c_ip s + 1 + (len - 2 + 1)) with (c_ip s + len) by lia.
  destruct (Z.leb_spec (Zlen inp - 2) (c_ip s + len)) as [Hend|Hend].
  - eexists _, ts', true. split; [done|]. split; [by apply Hnew|].
    cbn [c_ip c_out]. split; [lia|]. split; [lia|done].
  - unfold FRST, NEXT.
    destruct (rd_ok inp (c_ip s + len - 2) ltac:(lia)) as [b0 ->],
      (rd_ok inp (c_ip s + len - 2 + 1) ltac:(lia)) as [b1 ->],
      (rd_ok inp (c_ip s + len - 2 + 2) ltac:(lia)) as [b2 ->],
      (rd_ok inp (c_ip s + len - 2 + 1 + 2) ltac:(lia)) as [b3 ->].
    cbn [mbind outcome_bind]. eexists _, ts', false. split; [done|].
    replace (c_ip s + len - 2 + 1 + 1) with (c_ip s + len) by lia.
    split; [apply Hnew; apply set_slot_ok; [apply set_slot_ok; [done|lia]|lia]|].
    cbn [c_ip c_out]. split; [lia|]. split; [lia|done].
Qed.

Lemma lzf_compress_loop_inv fuel s ts lits : c_inv s ts lits ->
  (Z.to_nat (Zlen inp - c_ip s) <= fuel)%nat ->
  lzf_compress_loop fuel inp s = Ret None /\ 32 * Zlen (c_out s) <= 33 * Zlen inp + 5 * 32 \/
  exists s' ts' lits', lzf_compress_loop fuel inp s = Ret (Some s') /\ c_inv s' ts' lits' /\
    Zlen inp - 2 <= c_ip s' /\ Zlen (c_out s') = Zlen (c_out s).
Proof.
  revert s ts lits. induction fuel as [|fuel IH]; intros s ts lits Hinv Hf; cbn [lzf_compress_loop];
    destruct (Z.ltb_spec (c_ip s) (Zlen inp - 2)) as [Hlt|Hge]; cbn [negb];
    try (right; exists s, ts, lits; done); [lia|].
  pose proof (ci_ip _ _ _ Hinv) as Hip. pose proof (ci_htab _ _ _ Hinv) as Htab.
  unfold NEXT. destruct (rd_ok inp (c_ip s + 2) ltac:(lia)) as [b2 ->]. cbn [mbind outcome_bind].
  set (h := Z.lor _ b2). set (ref := c_htab s (IDX h)).
  assert (forall j, slot_ok base (set_slot (c_htab s) (IDX h) (c_ip s) j)) as Htab'
    by (apply set_slot_ok; [done|lia]).
  assert (u64 (c_ip s - ref - 1) < MAX_OFF ->
    u64 (c_ip s - ref - 1) = c_ip s - ref - 1 /\ 0 <= c_ip s - ref - 1 < 8192) as Hwin
    by (apply (off_in_window base inp); [done|apply Htab|lia]).
  destruct (is_match_spec ref (c_ip s) (u64 (c_ip s - ref - 1))) as (m & -> & Hm); [lia|lia|intros; lia|].
  cbn [mbind outcome_bind]. destruct m.
  - destruct (Hm eq_refl) as (Ho & Href & Hag). destruct (Hwin Ho) as [-> Hoff].
    destruct (emit_match_inv s ts lits (set_slot (c_htab s) (IDX h) (c_ip s)) h ref Hinv)
      as [[-> Hfull]|(s' & ts' & broke & -> & Hinv' & Hadv & Hlen & Hbr)]; try done;
      [left; split; [done|]; destruct Hinv; pose proof (Zlen_nonneg lits); lia|].
    cbn [mbind outcome_bind]. destruct broke.
    + right. exists s', ts', []. split; [done|]. split; [done|]. split; [by apply Hbr|done].
    + rewrite <- Hlen. apply (IH s' ts' []); [done|lia].
  - destruct (Z.leb_spec (Zlen (c_out s)) (c_op s)); [left; split; [done|]; destruct Hinv; pose proof (Zlen_nonneg lits); lia|].
    set (s1 := {| c_out := c_out s |}).
    destruct (emit_literal_inv s1 ts lits) as (s' & ts' & lits' & -> & Hinv' & Hadv & Hlen & _);
      [destruct Hinv; split; done|simpl; lia|done|].
    cbn [mbind outcome_bind]. change (c_out s) with (c_out s1). rewrite <- Hlen.
    apply (IH s' ts' lits'); [done|]. change (c_ip s1) with (c_ip s) in Hadv. lia.
Qed.

Lemma lzf_tail_loop_inv s ts lits : c_inv s ts lits -> Zlen inp - 2 <= c_ip s ->
  c_op s + 3 <= Zlen (c_out s) ->
  exists s' ts' lits', lzf_tail_loop 2 inp s = Ret s' /\ c_inv s' ts' lits' /\
    c_ip s' = Zlen inp /\ Zlen (c_out s') = Zlen (c_out s) /\ c_op s' <= c_op s + 3.
Proof.
  intros Hinv Hge Hroom. cbn [lzf_tail_loop]. pose proof (ci_ip _ _ _ Hinv) as Hip.
  destruct (Z.ltb_spec (c_ip s) (Zlen inp)); cbn [negb];
    [|exists s, ts, lits; repeat (split; [done || lia|]); lia].
  destruct (emit_literal_inv s ts lits Hinv) as (s1 & ts1 & l1 & -> & Hinv1 & Hadv1 & Hlen1 & Hop1); [lia|lia|].
  cbn [mbind outcome_bind]. destruct (Z.ltb_spec (c_ip s1) (Zlen inp)); cbn [negb];
    [|exists s1, ts1, l1; split; [done|]; split; [done|]; split; [lia|]; split; [lia|]; lia].
  destruct (emit_literal_inv s1 ts1 l1 Hinv1) as (s2 & ts2 & l2 & -> & Hinv2 & Hadv2 & Hlen2 & Hop2); [lia|lia|].
  cbn [mbind outcome_bind]. destruct (Z.ltb_spec (c_ip s2) (Zlen inp)); cbn [negb]; [lia|].
  exists s2, ts2, l2; split; [done|]; split; [done|]; split; [lia|]; split; [lia|]; lia.
Qed.

(** The outcome of the compressor: no compression, or a stream of the input. *)
Lemma lzf_compress_stream htab out : 2 <= Zlen inp -> (forall j, slot_ok base (htab j)) ->
  lzf_compress htab inp out = Ret None /\ 32 * Zlen out <= 33 * Zlen inp + 5 * 32 \/
  exists ts out', lzf_compress htab inp out = Ret (Some (Zlen (toks_bytes ts), out')) /\
    Zlen out' = Zlen out /\ Forall token_ok ts /\ toks_run ts [] = Some inp /\ holds out' (toks_bytes ts) /\
    32 * Zlen (toks_bytes ts) <= 33 * Zlen inp + 32.
Proof.
  intros Hin Htab. unfold lzf_compress. cbv zeta.
  destruct (Z.eqb_spec (Zlen inp) 0), (Z.eqb_spec (Zlen out) 0); cbn [orb]; try (left; split; [done|lia]); try lia.
  unfold FRST. destruct (rd_ok inp 0 ltac:(lia)) as [b0 ->], (rd_ok inp (0 + 1) ltac:(lia)) as [b1 ->].
  cbn [mbind outcome_bind]. set (s0 := {| c_out := out |}).
  assert (c_inv s0 [] []) as Hinv0.
  { pose proof (Zlen_nonneg out). split; cbn [s0 c_out c_htab c_ip c_op c_lit c_hval]; try done; try lia.
    - by exists [].
    - by exists out. }
  destruct (lzf_compress_loop_inv (length inp) s0 [] [] Hinv0) as [[-> Hfull]|(s1 & ts1 & l1 & -> & Hinv1 & Hge & Hlen1)];
    [cbn [s0 c_ip]; unfold Zlen; lia|left; split; [done|exact Hfull]|]. change (c_out s0) with out in Hlen1.
  cbn [mbind outcome_bind]. destruct (Z.ltb_spec (Zlen out) (c_op s1 + 3)); [left; split; [done|]; destruct Hinv1; pose proof (Zlen_nonneg l1); lia|].
  destruct (lzf_tail_loop_inv s1 ts1 l1 Hinv1) as (s2 & ts2 & l2 & -> & Hinv2 & Hip2 & Hlen2 & Hop2); [lia|lia|].
  cbn [mbind outcome_bind].
  destruct (flush_inv s2 ts2 l2 Hinv2) as (o & ts & [(Hw & Hl & Hok & Hh & Hrun & Hop & Hsz)|Hx]);
    [destruct (c_lit s2 =? 0); simpl; lia| |lia].
  rewrite Hw. cbn [mbind outcome_bind]. right. exists ts, o. rewrite Hop. split; [done|]. split; [lia|].
  split; [done|]. split; [|split; [done|lia]]. rewrite Hrun, Hip2. unfold Zlen. by rewrite Nat2Z.id, firstn_all.
Qed.
End compress.

(** ** Properties *)

(** C31. Memory safety of [lzf_decompress] on untrusted input: whatever the bytes
    of the compressed buffer are, the decoder returns (it does not loop), it
    never reads outside the input or the output, never writes outside the
    output, and the length it reports is at most the output's size. *)
Theorem lzf_decompress_safe inp out : Forall is_byte inp ->
  exists n out', lzf_decompress inp out = Ret (n, out') /\
    0 <= n <= Zlen out /\ Zlen out' = Zlen out.
Proof.
  intros Hb. apply lzf_decompress_loop_safe; [done| | |].
  - pose proof (Zlen_nonneg inp). lia.
  - pose proof (Zlen_nonneg out). lia.
  - unfold Zlen. lia.
Qed.

(** A back reference before the start of the output, and one cut short. *)
Lemma lzf_decompress_safe_witness :
  (exists n out', lzf_decompress [0; 7; 0x3f; 0xff] [1; 2; 3; 4; 5] = Ret (n, out') /\
    0 <= n <= 5 /\ Zlen out' = 5) /\
  lzf_decompress [0; 7; 0x3f; 0xff] [1; 2; 3; 4; 5] = Ret (0, [7; 2; 3; 4; 5]).
Proof.
  split; [|vm_compute; reflexivity].
  apply (lzf_decompress_safe [0; 7; 0x3f; 0xff] [1; 2; 3; 4; 5]).
  repeat (apply Forall_cons_2; [unfold is_byte; lia|]). apply Forall_nil_2.
Defined.

Lemma holds_take out acc : holds out acc -> take (Z.to_nat (Zlen acc)) out = acc.
Proof. intros [rest ->]. unfold Zlen. by rewrite Nat2Z.id, take_app_length. Qed.

(** C23. Round trip: whatever the hash table held before and whatever the size of
    the output, [lzf_compress] stays inside its buffers and either reports that
    the input does not fit (which never happens with an output of
    [in_len * 33/32 + 6] bytes) or returns a length [n], at most
    [in_len * 33/32 + 1], such that decompressing the first [n] bytes into any
    buffer of at least [in_len] bytes returns [in_len] and the original bytes. *)
Theorem lzf_roundtrip base htab inp out buf :
  layout_ok base inp -> (forall j, slot_ok base (htab j)) ->
  2 <= Zlen inp <= Zlen buf ->
  lzf_compress htab inp out = Ret None /\ Zlen out < Zlen inp + Zlen inp / 32 + 6 \/
  exists n out', lzf_compress htab inp out = Ret (Some (n, out')) /\
    Zlen out' = Zlen out /\ 0 < n <= Zlen out /\ n <= Zlen inp + Zlen inp / 32 + 1 /\
    exists buf', lzf_decompress (take (Z.to_nat n) out') buf = Ret (Zlen inp, buf') /\
      Zlen buf' = Zlen buf /\ take (Z.to_nat (Zlen inp)) buf' = inp.
Proof.
  intros Hbase Htab Hin.
  destruct (lzf_compress_stream inp base Hbase htab out ltac:(lia) Htab)
    as [[-> Hfull]|(ts & out' & -> & Hl & Hok & Hrun & Hh & Hsz)]; [left; split; [done|dlia]|right].
  exists (Zlen (toks_bytes ts)), out'. split; [done|]. split; [done|].
  pose proof (holds_len _ _ Hh). pose proof (toks_bytes_length ts Hok).
  assert (0 < Zlen (toks_bytes ts)).
  { destruct ts as [|t ts]; [injection Hrun as <-; rewrite Zlen_nil in Hin; lia|].
    unfold Zlen. simpl length in *. lia. }
  split; [lia|]. split; [dlia|]. rewrite (holds_take _ _ Hh).
  destruct (dec_tokens ts (length (toks_bytes ts)) [] buf [] inp Hok Hrun) as (buf' & Hd & Hlb & Hhb);
    [by exists buf|lia|done|].
  exists buf'. split; [exact Hd|]. split; [done|]. by apply holds_take.
Qed.

Lemma lzf_roundtrip_witness :
  let inp := [97; 98; 99; 97; 98; 99; 97; 98; 99; 97; 98; 99; 97] in
  lzf_compress (fun _ => 0) inp (replicate 12 0) = Ret (Some (10, [3; 97; 98; 99; 97; 160; 2; 1; 99; 97; 0; 0])) /\
  (lzf_compress (fun _ => 0) inp (replicate 12 0) = Ret None /\ 12 < 13 + 13 / 32 + 6 \/
  exists n out', lzf_compress (fun _ => 0) inp (replicate 12 0) = Ret (Some (n, out')) /\
    Zlen out' = 12 /\ 0 < n <= 12 /\ n <= 13 + 13 / 32 + 1 /\
    exists buf', lzf_decompress (take (Z.to_nat n) out') (replicate 13 0) = Ret (13, buf') /\
      Zlen buf' = 13 /\ take (Z.to_nat 13) buf' = inp).
Proof.
  split; [vm_compute; reflexivity|].
  apply (lzf_roundtrip 65536 (fun _ => 0) [97; 98; 99; 97; 98; 99; 97; 98; 99; 97; 98; 99; 97] (replicate 12 0) (replicate 13 0)).
  - split; vm_compute; congruence.
  - intros j. split; vm_compute; congruence.
  - vm_compute. split; congruence.
Defined.

(** The compressor hashes the first two bytes before it looks at the length: a
    one-byte input is read past its end. *)
Lemma lzf_compress_one_byte htab b out : 0 < Zlen out -> lzf_compress htab [b] out = OutOfBounds.
Proof.
  intros Ho. unfold lzf_compress. destruct (Z.eqb_spec (Zlen out) 0); [lia|]. reflexivity.
Qed.

(** The size of the compressed form can exceed 104% of a short input. *)
Example lzf_compress_expands :
  lzf_compress (fun _ => 0) [1; 2] (replicate 8 0) = Ret (Some (3, [1; 1; 2; 0; 0; 0; 0; 0])).
Proof. vm_compute. reflexivity. Qed.
