(* ===== verification/Siphash.v ===== *)
(** * Siphash: the hash function of the dicts (siphash.c, dict.c)

    SipHash with one round per block and two at the end, and its
    case-insensitive twin; the hash functions of dict.c, which apply them with
    the seed of the server.  Both return 64-bit values on every input and read
    only the bytes they are given; the twin is the function on lower-case
    letters. *)

From S2P Require Import Prelude Memory.

Definition siptlw (c : Z) : Z := if (65 <=? c) && (c <=? 90) then c + (97 - 65) else c.

Definition ROTL (x b : Z) : Z := Z.lor (u64 (Z.shiftl x b)) (Z.shiftr x (64 - b)).

(** [p] points into [k]: the unaligned read of a little-endian host. *)
Definition U8TO64_LE (k : list Z) (p : Z) : outcome Z := bs ← rdn k p 8; Ret (le_value bs).

(** The same from eight bytes, lowered one by one and shifted into place. *)
Fixpoint lower_bytes (n : nat) (k : list Z) (p : Z) (i : Z) : outcome Z :=
  match n with
  | O => Ret 0
  | S n => c ← rd k (p + i); r ← lower_bytes n k p (i + 1); Ret (Z.lor (Z.shiftl (siptlw c) (8 * i)) r)
  end.
Definition U8TO64_LE_NOCASE (k : list Z) (p : Z) : outcome Z := lower_bytes 8 k p 0.

Record sipstate := Sip { v0 : Z; v1 : Z; v2 : Z; v3 : Z }.

Definition SIPROUND (s : sipstate) : sipstate :=
  let '(Sip v0 v1 v2 v3) := s in
  let v0 := u64 (v0 + v1) in let v1 := ROTL v1 13 in let v1 := Z.lxor v1 v0 in let v0 := ROTL v0 32 in
  let v2 := u64 (v2 + v3) in let v3 := ROTL v3 16 in let v3 := Z.lxor v3 v2 in
  let v0 := u64 (v0 + v3) in let v3 := ROTL v3 21 in let v3 := Z.lxor v3 v0 in
  let v2 := u64 (v2 + v1) in let v1 := ROTL v1 17 in let v1 := Z.lxor v1 v2 in let v2 := ROTL v2 32 in
  Sip v0 v1 v2 v3.

(** [v3 ^= m; SIPROUND; v0 ^= m]. *)
Definition sip_block (s : sipstate) (m : Z) : sipstate :=
  let s := SIPROUND (Sip (v0 s) (v1 s) (v2 s) (Z.lxor (v3 s) m)) in
  Sip (Z.lxor (v0 s) m) (v1 s) (v2 s) (v3 s).

Definition sip_init (k : list Z) : outcome sipstate :=
  k0 ← U8TO64_LE k 0; k1 ← U8TO64_LE k 8;
  Ret (Sip (Z.lxor 0x736f6d6570736575 k0) (Z.lxor 0x646f72616e646f6d k1)
           (Z.lxor 0x6c7967656e657261 k0) (Z.lxor 0x7465646279746573 k1)).

(** From [v3 ^= b] to the result. *)
Definition sip_finish (s : sipstate) (b : Z) : Z :=
  let s := sip_block s b in
  let s := Sip (v0 s) (v1 s) (Z.lxor (v2 s) 0xff) (v3 s) in
  let s := SIPROUND (SIPROUND s) in
  Z.lxor (Z.lxor (Z.lxor (v0 s) (v1 s)) (v2 s)) (v3 s).

Fixpoint sip_loop (n : nat) (inp : list Z) (p : Z) (s : sipstate) : outcome sipstate :=
  match n with
  | O => Ret s
  | S n => m ← U8TO64_LE inp p; sip_loop n inp (p + 8) (sip_block s m)
  end.

(** The [switch] on the bytes left, from the last to the first. *)
Fixpoint sip_tail (left : nat) (inp : list Z) (p b : Z) : outcome Z :=
  match left with
  | O => Ret b
  | S i => c ← rd inp (p + Z.of_nat i); sip_tail i inp p (Z.lor b (Z.shiftl c (8 * Z.of_nat i)))
  end.

Definition siphash (inp : list Z) (inlen : Z) (k : list Z) : outcome Z :=
  s ← sip_init k;
  let end_ := inlen - inlen mod 8 in
  let left := Z.land inlen 7 in
  let b := u64 (Z.shiftl inlen 56) in
  s ← sip_loop (Z.to_nat (end_ / 8)) inp 0 s;
  b ← sip_tail (Z.to_nat left) inp end_ b;
  Ret (sip_finish s b).

Fixpoint sip_loop_nocase (n : nat) (inp : list Z) (p : Z) (s : sipstate) : outcome sipstate :=
  match n with
  | O => Ret s
  | S n => m ← U8TO64_LE_NOCASE inp p; sip_loop_nocase n inp (p + 8) (sip_block s m)
  end.

Fixpoint sip_tail_nocase (left : nat) (inp : list Z) (p b : Z) : outcome Z :=
  match left with
  | O => Ret b
  | S i => c ← rd inp (p + Z.of_nat i); sip_tail_nocase i inp p (Z.lor b (Z.shiftl (siptlw c) (8 * Z.of_nat i)))
  end.

Definition siphash_nocase (inp : list Z) (inlen : Z) (k : list Z) : outcome Z :=
  s ← sip_init k;
  let end_ := inlen - inlen mod 8 in
  let left := Z.land inlen 7 in
  let b := u64 (Z.shiftl inlen 56) in
  s ← sip_loop_nocase (Z.to_nat (end_ / 8)) inp 0 s;
  b ← sip_tail_nocase (Z.to_nat left) inp end_ b;
  Ret (sip_finish s b).

Section hash.
Variable dict_hash_function_seed : list Z.

Definition dictGenHashFunction (key : list Z) (len : Z) : outcome Z := siphash key len dict_hash_function_seed.
Definition dictGenCaseHashFunction (buf : list Z) (len : Z) : outcome Z := siphash_nocase buf len dict_hash_function_seed.
End hash.

(** ** Values *)

Record sip_ok (s : sipstate) : Prop := { ok0 : is_u64 (v0 s); ok1 : is_u64 (v1 s); ok2 : is_u64 (v2 s); ok3 : is_u64 (v3 s) }.

Lemma ROTL_u64 x b : is_u64 x -> 0 <= b <= 64 -> is_u64 (ROTL x b).
Proof.
  intros Hx Hb. apply lor_u64; [apply wrapu_range; lia|]. unfold is_u64 in *. rewrite Z.shiftr_div_pow2 by lia.
  pose proof (Z.pow_pos_nonneg 2 (64 - b)). split; [apply Z.div_pos; lia|]. apply Z.div_lt_upper_bound; nia.
Qed.

Create HintDb sip.
#[local] Hint Resolve lxor_u64 ROTL_u64 ok0 ok1 ok2 ok3 : sip.
#[local] Hint Extern 1 (is_u64 (wrapu 64 _)) => (apply wrapu_range; lia) : sip.
#[local] Hint Extern 1 (_ <= _ <= _) => lia : sip.

Lemma SIPROUND_ok s : sip_ok s -> sip_ok (SIPROUND s).
Proof. intros [H0 H1 H2 H3]. destruct s as [a b c d]. cbn in H0, H1, H2, H3. split; cbn [SIPROUND v0 v1 v2 v3]; auto 12 with sip. Qed.

Lemma sip_block_ok s m : sip_ok s -> is_u64 m -> sip_ok (sip_block s m).
Proof.
  intros Hs Hm. assert (sip_ok (SIPROUND (Sip (v0 s) (v1 s) (v2 s) (Z.lxor (v3 s) m)))) as H1.
  { apply SIPROUND_ok. split; cbn [v0 v1 v2 v3]; auto with sip. }
  unfold sip_block. cbv zeta. split; cbn [v0 v1 v2 v3]; auto with sip.
Qed.

Lemma sip_finish_u64 s b : sip_ok s -> is_u64 b -> is_u64 (sip_finish s b).
Proof.
  intros Hs Hb. unfold sip_finish. cbv zeta. pose proof (sip_block_ok s b Hs Hb) as H1. set (s1 := sip_block s b) in *.
  assert (sip_ok (SIPROUND (SIPROUND (Sip (v0 s1) (v1 s1) (Z.lxor (v2 s1) 0xff) (v3 s1))))) as H2.
  { do 2 apply SIPROUND_ok. split; cbn [v0 v1 v2 v3]; auto with sip. apply lxor_u64; [auto with sip|done]. }
  auto 10 with sip.
Qed.

(** ** What is read *)

Lemma siptlw_byte c : is_byte c -> is_byte (siptlw c).
Proof. unfold siptlw, is_byte. intros Hc. destruct (Z.leb_spec 65 c), (Z.leb_spec c 90); cbn [andb]; lia. Qed.

Lemma lor_shiftl_le c r n : is_byte c -> 0 <= r -> 0 <= n ->
  Z.lor (Z.shiftl c n) (Z.shiftl r (n + 8)) = Z.shiftl (c + 256 * r) n.
Proof.
  intros Hc Hr Hn. rewrite (Z.add_comm n 8), <- (Z.shiftl_shiftl r 8 n), <- Z.shiftl_lor by lia. f_equal.
  rewrite lor_shiftl_add by (unfold is_byte in Hc; lia). change (2 ^ 8) with 256. lia.
Qed.

Lemma lower_bytes_spec k n : Forall is_byte k -> forall p i, 0 <= i -> 0 <= p -> p + i + Z.of_nat n <= Zlen k ->
  lower_bytes n k p i = Ret (Z.shiftl (le_value (map siptlw (take n (drop (Z.to_nat (p + i)) k)))) (8 * i)).
Proof.
  intros Hk. induction n as [|n IH]; intros p i Hi Hp Hl; cbn [lower_bytes].
  { cbn. by rewrite Z.shiftl_0_l. }
  destruct (rd_ok k (p + i)) as [c Hc]; [lia|]. rewrite Hc, ret_bind. pose proof (rd_is_byte _ _ _ Hk Hc) as Hcb.
  rewrite IH, ret_bind by lia. f_equal. apply rd_Ret_inv in Hc as [_ Hc]. rewrite (drop_S _ _ _ Hc).
  replace (Z.to_nat (p + (i + 1))) with (S (Z.to_nat (p + i))) by lia. cbn [take map le_value].
  replace (8 * (i + 1)) with (8 * i + 8) by lia. apply lor_shiftl_le; [by apply siptlw_byte| |lia].
  apply le_value_nonneg, Forall_map, list.Forall_take, list.Forall_drop. eapply list.Forall_impl; [exact Hk|]. intros. by apply siptlw_byte.
Qed.

Lemma map_rdn (f : Z -> Z) (k : list Z) p n : rdn (map f k) p n = (bs ← rdn k p n; Ret (map f bs)).
Proof.
  unfold rdn. unfold Zlen. rewrite length_map. destruct (_ && _); [|done]. rewrite ret_bind.
  by rewrite <- !fmap_drop, <- fmap_take.
Qed.

Lemma U8TO64_LE_ok k p : Forall is_byte k -> 0 <= p -> p + 8 <= Zlen k -> exists m, U8TO64_LE k p = Ret m /\ is_u64 m.
Proof.
  intros Hk Hp Hl. unfold U8TO64_LE. rewrite rdn_ok, ret_bind by lia. eexists. split; [done|]. apply le_value_u64.
  - by apply list.Forall_take, list.Forall_drop.
  - rewrite length_take, length_drop. unfold Zlen in Hl. lia.
Qed.

Lemma U8TO64_LE_lower k p : Forall is_byte k -> 0 <= p -> p + 8 <= Zlen k -> U8TO64_LE_NOCASE k p = U8TO64_LE (map siptlw k) p.
Proof.
  intros Hk Hp Hl. unfold U8TO64_LE_NOCASE, U8TO64_LE. rewrite lower_bytes_spec by (done || lia). rewrite map_rdn, rdn_ok, !ret_bind by lia.
  rewrite Z.add_0_r, Z.mul_0_r, Z.shiftl_0_r. done.
Qed.

Lemma sip_init_ok k : Forall is_byte k -> Zlen k = 16 -> exists s, sip_init k = Ret s /\ sip_ok s.
Proof.
  intros Hk Hl. unfold sip_init. destruct (U8TO64_LE_ok k 0 Hk) as (k0 & -> & H0); [lia|lia|].
  destruct (U8TO64_LE_ok k 8 Hk) as (k1 & -> & H1); [lia|lia|]. rewrite !ret_bind. eexists. split; [done|].
  split; cbn [v0 v1 v2 v3]; apply lxor_u64; done.
Qed.

Lemma sip_loop_ok inp : Forall is_byte inp -> forall n p s, sip_ok s -> 0 <= p -> p + 8 * Z.of_nat n <= Zlen inp ->
  exists s', sip_loop n inp p s = Ret s' /\ sip_ok s'.
Proof.
  intros Hi. induction n as [|n IH]; intros p s Hs Hp Hl; cbn [sip_loop]; [by exists s|].
  destruct (U8TO64_LE_ok inp p Hi) as (m & -> & Hm); [lia|lia|]. rewrite ret_bind. apply IH; [by apply sip_block_ok|lia|lia].
Qed.

Lemma sip_loop_lower inp : Forall is_byte inp -> forall n p s, 0 <= p -> p + 8 * Z.of_nat n <= Zlen inp ->
  sip_loop_nocase n inp p s = sip_loop n (map siptlw inp) p s.
Proof.
  intros Hi. induction n as [|n IH]; intros p s Hp Hl; cbn [sip_loop sip_loop_nocase]; [done|].
  rewrite U8TO64_LE_lower by (done || lia). destruct (U8TO64_LE (map siptlw inp) p); try done. rewrite !ret_bind. apply IH; lia.
Qed.

Lemma shiftl_byte_u64 c i : is_byte c -> 0 <= i <= 7 -> is_u64 (Z.shiftl c (8 * i)).
Proof.
  unfold is_byte, is_u64. intros Hc Hi. rewrite Z.shiftl_mul_pow2 by lia. pose proof (Z.pow_pos_nonneg 2 (8 * i)).
  assert (2 ^ (8 * i) <= 2 ^ 56) by (apply Z.pow_le_mono_r; lia). nia.
Qed.

Lemma sip_tail_ok inp p : Forall is_byte inp -> 0 <= p -> forall left b, is_u64 b -> (left <= 8)%nat -> p + Z.of_nat left <= Zlen inp ->
  exists b', sip_tail left inp p b = Ret b' /\ is_u64 b'.
Proof.
  intros Hi Hp. induction left as [|i IH]; intros b Hb Hn Hl; cbn [sip_tail]; [by exists b|].
  destruct (rd_ok inp (p + Z.of_nat i)) as [c Hc]; [lia|]. rewrite Hc, ret_bind. apply IH; [|lia|lia].
  apply lor_u64; [done|]. apply shiftl_byte_u64; [by apply (rd_is_byte _ _ _ Hi Hc)|lia].
Qed.

Lemma rd_map (f : Z -> Z) (l : list Z) i : rd (map f l) i = (c ← rd l i; Ret (f c)).
Proof. unfold rd. destruct (i <? 0); [done|]. rewrite list_lookup_fmap. by destruct (l !! Z.to_nat i). Qed.

Lemma sip_tail_lower inp p : forall left b, sip_tail_nocase left inp p b = sip_tail left (map siptlw inp) p b.
Proof.
  induction left as [|i IH]; intros b; cbn [sip_tail sip_tail_nocase]; [done|]. rewrite rd_map.
  destruct (rd inp (p + Z.of_nat i)); try done. rewrite !ret_bind. apply IH.
Qed.

Lemma blocks_bound (inp : list Z) : 0 <= Zlen inp - Zlen inp mod 8 /\ Z.land (Zlen inp) 7 = Zlen inp mod 8 /\
  8 * Z.of_nat (Z.to_nat ((Zlen inp - Zlen inp mod 8) / 8)) <= Zlen inp - Zlen inp mod 8 /\ 0 <= Zlen inp mod 8 < 8.
Proof.
  pose proof (Zlen_nonneg inp). pose proof (Z.mod_pos_bound (Zlen inp) 8 ltac:(lia)) as Hm.
  pose proof (Z.mod_le (Zlen inp) 8 ltac:(lia) ltac:(lia)). split; [lia|]. split; [by apply (Z.land_ones _ 3)|].
  split; [|done]. pose proof (Z.mul_div_le (Zlen inp - Zlen inp mod 8) 8 ltac:(lia)).
  pose proof (Z.div_pos (Zlen inp - Zlen inp mod 8) 8 ltac:(lia) ltac:(lia)). lia.
Qed.

(** On every input and seed of bytes the hash is a 64-bit number; no byte outside
    the input is read. *)
Lemma siphash_ok inp k : Forall is_byte inp -> Forall is_byte k -> Zlen k = 16 -> exists h, siphash inp (Zlen inp) k = Ret h /\ is_u64 h.
Proof.
  intros Hi Hk Hl. unfold siphash. destruct (sip_init_ok k Hk Hl) as (s & -> & Hs). rewrite ret_bind. cbv zeta.
  destruct (blocks_bound inp) as (H0 & -> & Hb & Hm).
  destruct (sip_loop_ok inp Hi (Z.to_nat ((Zlen inp - Zlen inp mod 8) / 8)) 0 s Hs) as (s' & -> & Hs'); [lia|lia|]. rewrite ret_bind.
  destruct (sip_tail_ok inp (Zlen inp - Zlen inp mod 8) Hi H0 (Z.to_nat (Zlen inp mod 8)) (u64 (Z.shiftl (Zlen inp) 56))) as (b & -> & Hb');
    [apply wrapu_range; lia|lia|lia|]. rewrite ret_bind. eexists. split; [done|]. by apply sip_finish_u64.
Qed.

(** The case-insensitive hash is the hash of the input in lower case, whatever
    the seed, and both return a 64-bit number on every input, reading only the
    bytes of the input: so two keys that differ only in the case of ASCII letters
    always fall in the same bucket. *)
Theorem siphash_nocase_correct inp inp' k : Forall is_byte inp -> Forall is_byte inp' -> Forall is_byte k -> Zlen k = 16 ->
  exists h, dictGenCaseHashFunction k inp (Zlen inp) = Ret h /\ 0 <= h < 2 ^ 64 /\
    dictGenHashFunction k (map siptlw inp) (Zlen inp) = Ret h /\
    (map siptlw inp' = map siptlw inp -> dictGenCaseHashFunction k inp' (Zlen inp') = Ret h).
Proof.
  intros Hi Hi' Hk Hl. unfold dictGenCaseHashFunction, dictGenHashFunction.
  assert (forall x, Forall is_byte x -> siphash_nocase x (Zlen x) k = siphash (map siptlw x) (Zlen (map siptlw x)) k) as Hlow.
  { intros x Hx. unfold siphash, siphash_nocase. replace (Zlen (map siptlw x)) with (Zlen x) by (unfold Zlen; by rewrite length_map).
    destruct (sip_init k); try done. rewrite !ret_bind. destruct (blocks_bound x) as (H0 & _ & Hb & Hm). cbv zeta.
    rewrite sip_loop_lower by (done || lia). destruct (sip_loop _ _ _ _); try done. rewrite !ret_bind. by rewrite sip_tail_lower. }
  assert (Forall is_byte (map siptlw inp)) as Hm by (apply Forall_map; eapply list.Forall_impl; [exact Hi|intros; by apply siptlw_byte]).
  destruct (siphash_ok (map siptlw inp) k Hm Hk Hl) as (h & Hh & Hr). exists h.
  rewrite !Hlow by done. split; [done|]. split; [done|]. split; [|by intros ->].
  rewrite <- Hh. unfold Zlen. by rewrite length_map.
Qed.

(** "SET" and "set" with the seed 0, 1, ..., 15. *)
Definition demo_seed : list Z := map Z.of_nat (seq 0 16).

Lemma siphash_nocase_witness : exists h, dictGenCaseHashFunction demo_seed [83; 69; 84] 3 = Ret h /\ 0 <= h < 2 ^ 64 /\
  dictGenHashFunction demo_seed [115; 101; 116] 3 = Ret h /\
  (map siptlw [115; 101; 116] = map siptlw [83; 69; 84] -> dictGenCaseHashFunction demo_seed [115; 101; 116] 3 = Ret h).
Proof.
  apply (siphash_nocase_correct [83; 69; 84] [115; 101; 116] demo_seed); [| | |reflexivity]; unfold demo_seed, is_byte; cbn; repeat constructor; lia.
Defined.

(** SipHash-1-2 of the bytes 0 to 14, from an independent implementation. *)
Example siphash_1_2 : siphash (map Z.of_nat (seq 0 15)) 15 demo_seed = Ret 17045950575181129382.
Proof. vm_compute. reflexivity. Qed.
