(* ===== verification/Gf2.v ===== *)
(** * Gf2: linear functions over GF(2)

    Words as vectors of bits: a function on words is linear when it commutes
    with exclusive or. A linear function is determined by the powers of two, and
    a table of a linear function by its rows. Shared by the two CRCs. *)

From S2P Require Import Prelude Memory.

Ltac xor_bits := apply Z.bits_inj'; intros ? ?; rewrite ?Z.lxor_spec, ?Z.bits_0;
  repeat match goal with |- context [Z.testbit ?a ?b] => destruct (Z.testbit a b) end; done.

(** ** Linear functions on words *)

Definition linear (f : Z -> Z) : Prop := forall x y, f (Z.lxor x y) = Z.lxor (f x) (f y).

Lemma linear_0 f : linear f -> f 0 = 0.
Proof. intros Hf. pose proof (Hf 0 0) as E. rewrite Z.lxor_0_l in E. rewrite E. apply Z.lxor_nilpotent. Qed.

Lemma linear_comp f g : linear f -> linear g -> linear (fun x => f (g x)).
Proof. intros Hf Hg x y. by rewrite Hg, Hf. Qed.

Lemma linear_lxor f g : linear f -> linear g -> linear (fun x => Z.lxor (f x) (g x)).
Proof. intros Hf Hg x y. rewrite Hf, Hg. xor_bits. Qed.

Lemma linear_iter n f : linear f -> linear (Nat.iter n f).
Proof. intros Hf. induction n as [|n IH]; [by intros x y|]. intros x y. rewrite !Nat.iter_succ. by rewrite IH, Hf. Qed.

Lemma linear_shiftr n : linear (fun x => Z.shiftr x n).
Proof. intros x y. apply Z.shiftr_lxor. Qed.
Lemma linear_shiftl n : linear (fun x => Z.shiftl x n).
Proof. intros x y. apply Z.shiftl_lxor. Qed.
Lemma linear_land m : linear (fun x => Z.land x m).
Proof.
  intros x y. apply Z.bits_inj'. intros n Hn. rewrite ?Z.lxor_spec, ?Z.land_spec, ?Z.lxor_spec.
  by destruct (Z.testbit x n), (Z.testbit y n), (Z.testbit m n).
Qed.

Lemma u64_land x : u64 x = Z.land x (Z.ones 64).
Proof. by rewrite Z.land_ones. Qed.
Lemma linear_u64 : linear u64.
Proof. intros x y. rewrite !u64_land. apply linear_land. Qed.

Lemma split_low n x : 0 <= n -> x = Z.lxor (Z.land x (Z.ones n)) (Z.shiftl (Z.shiftr x n) n).
Proof.
  intros Hn. apply Z.bits_inj'. intros k Hk. rewrite Z.lxor_spec, Z.land_spec, Z.testbit_ones_nonneg by lia.
  destruct (Z.ltb_spec k n).
  - rewrite Z.shiftl_spec_low by lia. by rewrite andb_true_r, xorb_false_r.
  - rewrite Z.shiftl_spec_high, Z.shiftr_spec by lia. rewrite andb_false_r, xorb_false_l. f_equal. lia.
Qed.

(** Two linear functions that agree on the powers of two agree on words. *)
Lemma linear_ext_n f g n : linear f -> linear g -> (forall i, (i < n)%nat -> f (2 ^ Z.of_nat i) = g (2 ^ Z.of_nat i)) ->
  forall x, 0 <= x < 2 ^ Z.of_nat n -> f x = g x.
Proof.
  intros Hf Hg. induction n as [|n IH]; intros Hb x Hx.
  - replace x with 0 by (cbn in Hx; lia). by rewrite !linear_0.
  - rewrite Nat2Z.inj_succ, Z.pow_succ_r in Hx by lia. pose proof (Z.pow_pos_nonneg 2 (Z.of_nat n) ltac:(lia) ltac:(lia)).
    rewrite (split_low (Z.of_nat n) x) by lia. rewrite Hf, Hg. f_equal.
    + apply IH; [intros i Hi; apply Hb; lia|]. rewrite Z.land_ones by lia. apply Z.mod_pos_bound. lia.
    + assert (Z.shiftr x (Z.of_nat n) = 0 \/ Z.shiftr x (Z.of_nat n) = 1) as [-> | ->].
      { rewrite Z.shiftr_div_pow2 by lia. assert (0 <= x / 2 ^ Z.of_nat n < 2); [|lia].
        split; [apply Z.div_pos; lia|apply Z.div_lt_upper_bound; lia]. }
      * rewrite Z.shiftl_0_l. by rewrite !linear_0.
      * rewrite Z.shiftl_1_l. apply Hb. lia.
Qed.

Lemma linear_ext f g : linear f -> linear g -> forallb (fun i => f (2 ^ Z.of_nat i) =? g (2 ^ Z.of_nat i)) (seq 0 64) = true ->
  forall x, is_u64 x -> f x = g x.
Proof.
  intros Hf Hg Hb. apply (linear_ext_n f g 64 Hf Hg). intros i Hi. apply Z.eqb_eq.
  rewrite forallb_forall in Hb. apply Hb. apply in_seq. lia.
Qed.
