(* ===== verification/Crc.v ===== *)
(** * Crc: the 64-bit CRC of crc64.c, crcspeed.c and crccombine.c

    [_crc64] is the bit-by-bit reference; [crc64] is what the server calls: a
    table lookup per byte, eight tables per eight bytes, and for long inputs
    two or three segments computed side by side and joined by multiplication
    with powers of a matrix over GF(2).  This is the configuration of a
    little-endian host and of a compiler that does not define the macros that select
    the vector code ([__X86_64__] in capitals) or the byte-swapping builtin. *)

From S2P Require Import Prelude Memory.

(** ** The reference (crc64.c) *)

Definition POLY : Z := 0xad93d23594c935a9.

(** One line of [crc_reflect]: [(data >> n & m) | (data & m) << n]. *)
Definition swap_groups (n m data : Z) : Z := Z.lor (Z.land (Z.shiftr data n) m) (Z.shiftl (Z.land data m) n).

Definition crc_reflect (data data_len : Z) : outcome Z :=
  _ ← c_assert (data_len <=? 64);
  let data := swap_groups 1 0x5555555555555555 data in
  let data := swap_groups 2 0x3333333333333333 data in
  let data := swap_groups 4 0x0F0F0F0F0F0F0F0F data in
  let data := swap_groups 8 0x00FF00FF00FF00FF data in
  let data := swap_groups 16 0xFFFF0000FFFF data in
  let data := swap_groups 32 0xFFFFFFFF data in
  Ret (Z.shiftr data (64 - data_len)).

(** The loop on the bits of [c], [i] being [1 << k]. *)
Fixpoint crc64_bits (n : nat) (c k crc : Z) : Z :=
  match n with
  | O => crc
  | S n =>
    let bit := negb (Z.land crc 0x8000000000000000 =? 0) in
    let bit := if negb (Z.land c (Z.shiftl 1 k) =? 0) then negb bit else bit in
    let crc := u64 (Z.shiftl crc 1) in
    crc64_bits n c (k + 1) (if bit then Z.lxor crc POLY else crc)
  end.

Fixpoint crc64_bytes (data : list Z) (crc : Z) : Z :=
  match data with
  | [] => crc
  | c :: data => crc64_bytes data (Z.land (crc64_bits 8 c 0 crc) 0xffffffffffffffff)
  end.

Definition _crc64 (crc : Z) (in_data : list Z) (len : Z) : outcome Z :=
  data ← rdn in_data 0 len;
  crc ← crc_reflect (Z.land (crc64_bytes data crc) 0xffffffffffffffff) 64;
  Ret (Z.lxor crc 0).

(** ** Matrices (crccombine.c) *)

(** The rows a case of the [switch] adds. *)
Definition switch_rows (nibble : Z) : list Z :=
  nth (Z.to_nat nibble)
    [[]; [0]; [1]; [0; 1]; [2]; [0; 2]; [1; 2]; [0; 1; 2];
     [3]; [0; 3]; [1; 3]; [0; 1; 3]; [2; 3]; [0; 2; 3]; [1; 2; 3]; [0; 1; 2; 3]] [].

Fixpoint xor_rows (mat : list Z) (off : Z) (rows : list Z) (sum : Z) : outcome Z :=
  match rows with [] => Ret sum | r :: rows => m ← rd mat (off + r); xor_rows mat off rows (Z.lxor sum m) end.

(** [off] is how far [mat] has moved. *)
Fixpoint matrix_times_loop (fuel : nat) (mat : list Z) (off vec sum : Z) : outcome Z :=
  if vec =? 0 then Ret sum else
  match fuel with
  | O => OutOfFuel
  | S fuel =>
    sum ← xor_rows mat off (switch_rows (Z.land vec 15)) sum;
    matrix_times_loop fuel mat (off + 4) (Z.shiftr vec 4) sum
  end.

Definition gf2_matrix_times_switch (mat : list Z) (vec : Z) : outcome Z := matrix_times_loop 16 mat 0 vec 0.

(** The rows from [n] on. *)
Fixpoint matrix_square_loop (rows : nat) (mat : list Z) (n : Z) : outcome (list Z) :=
  match rows with
  | O => Ret []
  | S rows =>
    v ← rd mat n; r ← gf2_matrix_times_switch mat v; l ← matrix_square_loop rows mat (n + 1); Ret (r :: l)
  end.
(** [square] is overwritten in its first [dim] places, here all. *)
Definition gf2_matrix_square (mat : list Z) (dim : Z) : outcome (list Z) := matrix_square_loop (Z.to_nat dim) mat 0.

(** [combine_cache], 64 matrices of 64 rows, all zero before the first use. *)
Definition combine_cache_0 : list (list Z) := replicate 64 (replicate 64 0).

(** [combine_cache[1][n] = row; row <<= 1], from [n = 1]. *)
Fixpoint shift_rows (n : nat) (row : Z) : list Z :=
  match n with O => [] | S n => row :: shift_rows n (u64 (Z.shiftl row 1)) end.

(** The [do]/[while], from [cache_num], for [n] rounds. *)
Fixpoint square_cache (n : nat) (cache : list (list Z)) (cache_num prev dim : Z) : outcome (list (list Z)) :=
  match n with
  | O => Ret cache
  | S n =>
    m ← rd cache (cache_num + prev);
    sq ← gf2_matrix_square m dim;
    cache ← wr cache cache_num sq;
    square_cache n cache (cache_num + 1) (-1) dim
  end.

Definition init_combine_cache (cache : list (list Z)) (poly dim : Z) : outcome (list (list Z)) :=
  let m1 := poly :: shift_rows (Z.to_nat (dim - 1)) 1 in
  cache ← wr cache 1 m1;
  m0 ← gf2_matrix_square m1 dim;
  cache ← wr cache 0 m0;
  m1 ← gf2_matrix_square m0 dim;
  cache ← wr cache 1 m1;
  square_cache 64 cache 0 1 dim.

(** The [do]/[while] of [crc64_combine]. *)
Fixpoint combine_loop (fuel : nat) (cache : list (list Z)) (cache_num crc1 len2 : Z) : outcome Z :=
  match fuel with
  | O => OutOfFuel
  | S fuel =>
    crc1 ← (if Z.odd len2 then m ← rd cache cache_num; gf2_matrix_times_switch m crc1 else Ret crc1);
    let len2 := Z.shiftr len2 1 in
    let cache_num := Z.land (cache_num + 1) 63 in
    if negb (len2 =? 0) then combine_loop fuel cache cache_num crc1 len2 else Ret crc1
  end.

(** The result, and the cache, which the first call fills. *)
Definition crc64_combine (cache : list (list Z)) (crc1 crc2 len2 poly dim : Z) : outcome (Z * list (list Z)) :=
  if len2 =? 0 then Ret (crc1, cache) else
  m ← rd cache 0; x ← rd m 0;
  cache ← (if x =? 0 then init_combine_cache cache poly dim else Ret cache);
  crc1 ← combine_loop 64 cache 0 crc1 len2;
  Ret (Z.lxor crc1 crc2, cache).

(** ** Tables (crcspeed.c) *)

Definition CRC64_LEN_MASK : Z := 0x7ffffffffffffff8.
Definition CRC64_REVERSED_POLY : Z := 0x95ac9329ac4bc9b5.

(** [table[0]]: the bytes from [n] on. *)
Fixpoint single_bytes (count : nat) (n : Z) : outcome (list Z) :=
  match count with O => Ret [] | S count => c ← _crc64 0 [n] 1; l ← single_bytes count (n + 1); Ret (c :: l) end.

(** [table[k]] from [table[k-1]]: an entry each. *)
Fixpoint nested_row (table0 row : list Z) : outcome (list Z) :=
  match row with
  | [] => Ret []
  | crc :: row => t ← rd table0 (Z.land crc 0xff); l ← nested_row table0 row; Ret (Z.lxor t (Z.shiftr crc 8) :: l)
  end.
Fixpoint nested_rows (k : nat) (table0 row : list Z) : outcome (list (list Z)) :=
  match k with O => Ret [] | S k => row ← nested_row table0 row; l ← nested_rows k table0 row; Ret (row :: l) end.

Definition crcspeed64little_init : outcome (list (list Z)) :=
  table0 ← single_bytes 256 0; rows ← nested_rows 7 table0 table0; Ret (table0 :: rows).

Definition DO_8_1 (buf : list Z) (crc next : Z) : outcome Z := bs ← rdn buf next 8; Ret (Z.lxor crc (le_value bs)).

Definition table_get (table : list (list Z)) (k i : Z) : outcome Z := row ← rd table k; rd row i.

Definition DO_8_2 (little_table : list (list Z)) (crc : Z) : outcome Z :=
  a ← table_get little_table 7 (u8 crc);
  b ← table_get little_table 6 (u8 (Z.shiftr crc 8));
  c ← table_get little_table 5 (u8 (Z.shiftr crc 16));
  d ← table_get little_table 4 (u8 (Z.shiftr crc 24));
  e ← table_get little_table 3 (u8 (Z.shiftr crc 32));
  f ← table_get little_table 2 (u8 (Z.shiftr crc 40));
  g ← table_get little_table 1 (u8 (Z.shiftr crc 48));
  h ← table_get little_table 0 (Z.shiftr crc 56);
  Ret (Z.lxor (Z.lxor (Z.lxor (Z.lxor (Z.lxor (Z.lxor (Z.lxor a b) c) d) e) f) g) h).

(** [crc1 = little_table[0][(crc1 ^ *next1++) & 0xff] ^ (crc1 >> 8)]. *)
Definition crc_one (little_table : list (list Z)) (buf : list Z) (crc1 next1 : Z) : outcome Z :=
  c ← rd buf next1; t ← table_get little_table 0 (Z.land (Z.lxor crc1 c) 0xff); Ret (Z.lxor t (Z.shiftr crc1 8)).

Section speed.
(** The address of the buffer, and the two tunable lengths. *)
Variables (addr CRC64_DUAL_CUTOFF CRC64_TRI_CUTOFF : Z).
Variables (little_table : list (list Z)) (buf : list Z).

(** [while (len && ((uintptr_t)next1 & 7) != 0)], and the same without the alignment. *)
Fixpoint align_loop (fuel : nat) (crc1 next1 len : Z) : outcome (Z * Z * Z) :=
  if negb (len =? 0) && negb (Z.land (addr + next1) 7 =? 0) then
    match fuel with
    | O => OutOfFuel
    | S fuel => crc1 ← crc_one little_table buf crc1 next1; align_loop fuel crc1 (next1 + 1) (len - 1)
    end
  else Ret (crc1, next1, len).

Fixpoint bytes_loop (fuel : nat) (crc1 next1 len : Z) : outcome Z :=
  if negb (len =? 0) then
    match fuel with
    | O => OutOfFuel
    | S fuel => crc1 ← crc_one little_table buf crc1 next1; bytes_loop fuel crc1 (next1 + 1) (len - 1)
    end
  else Ret crc1.

(** [while (len >= 8)], on one, two and three segments. *)
Fixpoint single_loop (fuel : nat) (crc1 next1 len : Z) : outcome (Z * Z * Z) :=
  if 8 <=? len then
    match fuel with
    | O => OutOfFuel
    | S fuel => crc1 ← DO_8_1 buf crc1 next1; crc1 ← DO_8_2 little_table crc1; single_loop fuel crc1 (next1 + 8) (len - 8)
    end
  else Ret (crc1, next1, len).

Fixpoint dual_loop (fuel : nat) (crc1 crc2 next1 next2 len : Z) : outcome (Z * Z * Z * Z) :=
  if 8 <=? len then
    match fuel with
    | O => OutOfFuel
    | S fuel =>
      crc1 ← DO_8_1 buf crc1 next1; crc2 ← DO_8_1 buf crc2 next2;
      crc1 ← DO_8_2 little_table crc1; crc2 ← DO_8_2 little_table crc2;
      dual_loop fuel crc1 crc2 (next1 + 8) (next2 + 8) (len - 8)
    end
  else Ret (crc1, crc2, next1, next2).

Fixpoint tri_loop (fuel : nat) (crc1 crc2 crc3 next1 next2 next3 len : Z) : outcome (Z * Z * Z * Z * Z * Z) :=
  if 8 <=? len then
    match fuel with
    | O => OutOfFuel
    | S fuel =>
      crc1 ← DO_8_1 buf crc1 next1; crc2 ← DO_8_1 buf crc2 next2; crc3 ← DO_8_1 buf crc3 next3;
      crc1 ← DO_8_2 little_table crc1; crc2 ← DO_8_2 little_table crc2; crc3 ← DO_8_2 little_table crc3;
      tri_loop fuel crc1 crc2 crc3 (next1 + 8) (next2 + 8) (next3 + 8) (len - 8)
    end
  else Ret (crc1, crc2, crc3, next1, next2, next3).

(** The offset [next2 - next1] of [CRC64_SPLIT]. *)
Definition CRC64_SPLIT (div len : Z) : Z := Z.land (len / div) CRC64_LEN_MASK.

Definition MERGE_CRC (cache : list (list Z)) (crc1 crcn dist : Z) : outcome (Z * list (list Z)) :=
  crc64_combine cache crc1 crcn dist CRC64_REVERSED_POLY 64.

(** The two long cases: [crc1], [next1], [len] and the cache when they end. *)
Definition crc64_long (cache : list (list Z)) (crc1 next1 len : Z) : outcome (Z * Z * Z * list (list Z)) :=
  if CRC64_TRI_CUTOFF <? len then
    let olen := len in
    let next2 := next1 + CRC64_SPLIT 3 len in
    let len := next2 - next1 in
    let next3 := next2 + len in
    '(crc1, crc2, crc3, next1, next2, next3) ← tri_loop (Z.to_nat len) crc1 0 0 next1 next2 next3 len;
    '(crc1, cache) ← MERGE_CRC cache crc1 crc2 (next2 - next1);
    '(crc1, cache) ← MERGE_CRC cache crc1 crc3 (next2 - next1);
    Ret (crc1, next3, olen - (next2 - next1) * 3, cache)
  else if CRC64_DUAL_CUTOFF <? len then
    let olen := len in
    let next2 := next1 + CRC64_SPLIT 2 len in
    let len := next2 - next1 in
    '(crc1, crc2, next1, next2) ← dual_loop (Z.to_nat len) crc1 0 next1 next2 len;
    '(crc1, cache) ← MERGE_CRC cache crc1 crc2 (next2 - next1);
    Ret (crc1, next2, olen - (next2 - next1) * 2, cache)
  else Ret (crc1, next1, len, cache).

Definition crcspeed64little (cache : list (list Z)) (crc1 len : Z) : outcome (Z * list (list Z)) :=
  let next1 := 0 in
  if CRC64_DUAL_CUTOFF <? 1 then
    crc1 ← bytes_loop (Z.to_nat len) crc1 next1 len; Ret (crc1, cache)
  else
    '(crc1, next1, len) ← align_loop (Z.to_nat len) crc1 next1 len;
    '(crc1, next1, len, cache) ← crc64_long cache crc1 next1 len;
    '(crc1, next1, len) ← single_loop (Z.to_nat len) crc1 next1 len;
    crc1 ← bytes_loop (Z.to_nat len) crc1 next1 len;
    Ret (crc1, cache).
End speed.

Definition crc64_init : outcome (list (list Z)) := crcspeed64little_init.

(** [crc64_table] as [crc64_init] left it, and the cache as the calls before did. *)
Definition crc64 (addr dual tri : Z) (crc64_table cache : list (list Z)) (crc : Z) (s : list Z) (l : Z)
  : outcome (Z * list (list Z)) :=
  crcspeed64little addr dual tri crc64_table s cache crc l.

(** The value of the test of crc64.c. *)
Example crc64_check : _crc64 0 [49; 50; 51; 52; 53; 54; 55; 56; 57] 9 = Ret 0xe9c6d914c4b8d9ca /\
  (t ← crc64_init; r ← crc64 0 1 2 t combine_cache_0 0 [49; 50; 51; 52; 53; 54; 55; 56; 57] 9; Ret r.1) = Ret 0xe9c6d914c4b8d9ca.
Proof. split; vm_compute; reflexivity. Qed.
