(* ===== verification/CrcSpec.v ===== *)
(** * CrcSpec: the fast CRC is the reference

    The CRC of a sequence of bytes is a linear function over GF(2); tables and
    matrices hold values of it. *)

From S2P Require Import Prelude Memory Gf2 Crc.

(** ** One bit of the CRC, lowest bit first *)

Definition step (x : Z) : Z := if Z.odd x then Z.lxor (Z.shiftr x 1) CRC64_REVERSED_POLY else Z.shiftr x 1.

Lemma odd_lxor x y : Z.odd (Z.lxor x y) = xorb (Z.odd x) (Z.odd y).
Proof. rewrite <- !Z.bit0_odd. apply Z.lxor_spec. Qed.

Lemma linear_step : linear step.
Proof.
  intros x y. unfold step. rewrite odd_lxor, Z.shiftr_lxor. destruct (Z.odd x), (Z.odd y); cbn [xorb]; xor_bits.
Qed.

Lemma shiftr_u64 x n : is_u64 x -> 0 <= n -> is_u64 (Z.shiftr x n).
Proof.
  unfold is_u64. intros Hx Hn. rewrite Z.shiftr_div_pow2 by lia. pose proof (Z.pow_pos_nonneg 2 n).
  split; [apply Z.div_pos; lia|]. apply Z.div_lt_upper_bound; nia.
Qed.

Lemma step_u64 x : is_u64 x -> is_u64 (step x).
Proof. intros Hx. unfold step. destruct (Z.odd x); [apply lxor_u64; [|done]|]; apply shiftr_u64; done. Qed.

Lemma step_double x : step (Z.shiftl x 1) = x.
Proof.
  unfold step. rewrite Z.shiftr_shiftl_l by lia. rewrite Z.shiftl_0_r, <- Z.bit0_odd, Z.shiftl_spec_low by lia. done.
Qed.

(** [zeros n]: the effect of [n] zero bits. *)
Definition zeros (n : Z) : Z -> Z := Nat.iter (Z.to_nat n) step.

Lemma linear_zeros n : linear (zeros n).
Proof. apply linear_iter, linear_step. Qed.

Lemma zeros_0 x : zeros 0 x = x.
Proof. done. Qed.

Lemma zeros_add n m x : 0 <= n -> 0 <= m -> zeros (n + m) x = zeros n (zeros m x).
Proof. intros Hn Hm. unfold zeros. rewrite Z2Nat.inj_add by lia. apply Nat.iter_add. Qed.

Lemma iter_u64 n x : is_u64 x -> is_u64 (Nat.iter n step x).
Proof. intros Hx. induction n as [|n IH]; [done|]. rewrite Nat.iter_succ. by apply step_u64. Qed.
Lemma zeros_u64 n x : is_u64 x -> is_u64 (zeros n x).
Proof. apply iter_u64. Qed.

Lemma iter_shift n : forall x, Nat.iter n step (Z.shiftl x (Z.of_nat n)) = x.
Proof.
  induction n as [|n IH]; intros x; [apply Z.shiftl_0_r|]. rewrite Nat.iter_succ_r.
  replace (Z.of_nat (S n)) with (Z.of_nat n + 1) by lia. rewrite <- Z.shiftl_shiftl by lia. by rewrite step_double.
Qed.
Lemma zeros_shift n x : 0 <= n -> zeros n (Z.shiftl x n) = x.
Proof. intros Hn. unfold zeros. rewrite <- (Z2Nat.id n) at 2 by lia. apply iter_shift. Qed.

(** The low bits go in, the others move down. *)
Lemma zeros_split n x : 0 <= n -> zeros n x = Z.lxor (zeros n (Z.land x (Z.ones n))) (Z.shiftr x n).
Proof. intros Hn. rewrite (split_low n x Hn) at 1. by rewrite linear_zeros, zeros_shift by lia. Qed.

(** ** Bytes *)

Definition crc_byte (c b : Z) : Z := zeros 8 (Z.lxor c b).
(** What the CRC of a sequence of bytes is, from [c] on. *)
Definition crc_fold (c : Z) (bs : list Z) : Z := foldl crc_byte c bs.

Lemma byte_u64 b : is_byte b -> is_u64 b.
Proof. unfold is_byte, is_u64. lia. Qed.

Lemma crc_fold_u64 bs : Forall is_byte bs -> forall c, is_u64 c -> is_u64 (crc_fold c bs).
Proof.
  induction 1 as [|b bs Hb Hbs IH]; intros c Hc; [done|]. cbn [crc_fold foldl]. apply IH, zeros_u64, lxor_u64; [done|by apply byte_u64].
Qed.

Lemma crc_fold_app c a b : crc_fold c (a ++ b) = crc_fold (crc_fold c a) b.
Proof. apply foldl_app. Qed.

(** A prefix of [n] bytes acts as [8n] zero bits on what came before. *)
Lemma crc_fold_split bs : forall c d, crc_fold (Z.lxor c d) bs = Z.lxor (zeros (8 * Zlen bs) c) (crc_fold d bs).
Proof.
  induction bs as [|b bs IH]; intros c d; [done|]. cbn [crc_fold foldl]. unfold crc_byte at 2. rewrite Z.lxor_assoc, linear_zeros.
  fold (crc_byte d b). fold (crc_fold (Z.lxor (zeros 8 c) (crc_byte d b)) bs). rewrite IH. f_equal.
  rewrite <- zeros_add by (pose proof (Zlen_nonneg bs); lia). f_equal. rewrite Zlen_cons. lia.
Qed.

Lemma crc_fold_from bs c : crc_fold c bs = Z.lxor (zeros (8 * Zlen bs) c) (crc_fold 0 bs).
Proof. rewrite <- crc_fold_split. by rewrite Z.lxor_0_r. Qed.

Lemma byte_split b v : is_byte b -> 0 <= v -> b + 256 * v = Z.lxor b (Z.shiftl v 8).
Proof.
  unfold is_byte. intros Hb Hv. rewrite <- Z.add_nocarry_lxor.
  - rewrite Z.shiftl_mul_pow2 by lia. change (2 ^ 8) with 256. lia.
  - apply Z.bits_inj'. intros k Hk. rewrite Z.land_spec, Z.bits_0. destruct (Z.ltb_spec k 8).
    + rewrite Z.shiftl_spec_low by lia. apply andb_false_r.
    + assert (Z.testbit b k = false) as ->; [|done]. apply Z.testbit_false; [lia|].
      rewrite Z.div_small; [done|]. assert (2 ^ 8 <= 2 ^ k) by (apply Z.pow_le_mono_r; lia). lia.
Qed.

(** Bytes may go in together, as a little-endian number. *)
Lemma crc_fold_word bs : Forall is_byte bs -> forall c, crc_fold c bs = zeros (8 * Zlen bs) (Z.lxor c (le_value bs)).
Proof.
  induction 1 as [|b bs Hb Hbs IH]; intros c; [by rewrite Z.lxor_0_r|]. cbn [crc_fold foldl le_value].
  fold (crc_fold (crc_byte c b) bs). rewrite IH. rewrite byte_split by (done || by apply le_value_nonneg).
  rewrite Zlen_cons. replace (8 * (1 + Zlen bs)) with (8 * Zlen bs + 8) by lia. rewrite zeros_add by (pose proof (Zlen_nonneg bs); lia). f_equal.
  rewrite <- Z.lxor_assoc, linear_zeros, zeros_shift by lia. done.
Qed.

(** ** The reference, reflected *)

Definition reflect64 (x : Z) : Z :=
  swap_groups 32 0xFFFFFFFF (swap_groups 16 0xFFFF0000FFFF (swap_groups 8 0x00FF00FF00FF00FF
    (swap_groups 4 0x0F0F0F0F0F0F0F0F (swap_groups 2 0x3333333333333333 (swap_groups 1 0x5555555555555555 x))))).

Lemma crc_reflect_eq x : crc_reflect x 64 = Ret (reflect64 x).
Proof. unfold crc_reflect. cbn [Z.leb Z.compare Pos.compare Pos.compare_cont c_assert]. rewrite ret_bind. cbv zeta. change (64 - 64) with 0. by rewrite Z.shiftr_0_r. Qed.

Lemma lor_lxor x y : Z.land x y = 0 -> Z.lor x y = Z.lxor x y.
Proof. intros H. symmetry. by apply Z.lxor_lor. Qed.

Lemma linear_swap n m : 0 <= n -> Z.land m (Z.shiftl m n) = 0 -> linear (swap_groups n m).
Proof.
  intros Hn Hm. assert (forall x, swap_groups n m x = Z.lxor (Z.land (Z.shiftr x n) m) (Z.shiftl (Z.land x m) n)) as E.
  { intros x. unfold swap_groups. apply lor_lxor. rewrite Z.shiftl_land.
    rewrite <- Z.land_assoc, (Z.land_comm (Z.shiftl x n)), (Z.land_assoc m), Hm, Z.land_0_l. apply Z.land_0_r. }
  intros x y. rewrite !E. apply (linear_lxor (fun x => Z.land (Z.shiftr x n) m) (fun x => Z.shiftl (Z.land x m) n)).
  - exact (linear_comp _ _ (linear_land m) (linear_shiftr n)).
  - exact (linear_comp _ _ (linear_shiftl n) (linear_land m)).
Qed.

Lemma linear_reflect : linear reflect64.
Proof. intros x y. unfold reflect64. by rewrite !linear_swap by done. Qed.

Lemma reflect_double x : is_u64 x -> reflect64 (u64 (Z.shiftl x 1)) = Z.shiftr (reflect64 x) 1.
Proof.
  apply (linear_ext (fun x => reflect64 (u64 (Z.shiftl x 1))) (fun x => Z.shiftr (reflect64 x) 1)).
  - exact (linear_comp _ _ linear_reflect (linear_comp _ _ linear_u64 (linear_shiftl 1))).
  - exact (linear_comp _ _ (linear_shiftr 1) linear_reflect).
  - vm_compute. reflexivity.
Qed.

Lemma reflect_low x : is_u64 x -> Z.land (reflect64 x) 1 = Z.shiftr x 63.
Proof.
  apply (linear_ext (fun x => Z.land (reflect64 x) 1) (fun x => Z.shiftr x 63)).
  - exact (linear_comp _ _ (linear_land 1) linear_reflect).
  - exact (linear_shiftr 63).
  - vm_compute. reflexivity.
Qed.

Lemma reflect_top x : is_u64 x -> negb (Z.land x 0x8000000000000000 =? 0) = Z.odd (reflect64 x).
Proof.
  intros Hx. change 0x8000000000000000 with (2 ^ 63). rewrite land_bit by lia. rewrite <- Z.bit0_odd.
  pose proof (f_equal (fun y => Z.testbit y 0) (reflect_low x Hx)) as E. cbn beta in E.
  rewrite Z.land_spec, Z.shiftr_spec in E by lia. change (Z.testbit 1 0) with true in E. by rewrite andb_true_r in E.
Qed.

(** The loop on bits, reflected: lowest bit first, the bits of [c] coming in. *)
Lemma crc64_bits_reflect n c : forall k crc, is_u64 crc -> 0 <= k ->
  is_u64 (crc64_bits n c k crc) /\
  reflect64 (crc64_bits n c k crc) = zeros (Z.of_nat n) (Z.lxor (reflect64 crc) (Z.land (Z.shiftr c k) (Z.ones (Z.of_nat n)))).
Proof.
  induction n as [|n IH]; intros k crc Hcrc Hk.
  - cbn [crc64_bits]. split; [done|]. change (Z.ones (Z.of_nat 0)) with 0. by rewrite Z.land_0_r, Z.lxor_0_r.
  - cbn [crc64_bits]. cbv zeta. rewrite Z.shiftl_1_l, land_bit by lia. rewrite reflect_top by done.
    set (bit := if Z.testbit c k then negb (Z.odd (reflect64 crc)) else Z.odd (reflect64 crc)).
    set (crc1 := u64 (Z.shiftl crc 1)). assert (is_u64 crc1) as H1 by (apply wrapu_range; lia).
    set (crc2 := if bit then Z.lxor crc1 POLY else crc1). assert (is_u64 crc2) as H2 by (unfold crc2; destruct bit; [by apply lxor_u64|done]).
    destruct (IH (k + 1) crc2 H2) as [H3 ->]; [lia|]. split; [done|].
    rewrite Nat2Z.inj_succ, <- Z.add_1_r, zeros_add by lia. f_equal.
    set (v := Z.land (Z.shiftr c k) (Z.ones (Z.of_nat n + 1))).
    assert (Z.land (Z.shiftr c (k + 1)) (Z.ones (Z.of_nat n)) = Z.shiftr v 1) as ->.
    { unfold v. rewrite Z.shiftr_land, Z.shiftr_shiftr by lia. f_equal. rewrite !Z.ones_equiv. rewrite Z.shiftr_div_pow2 by lia.
      rewrite Z.pow_add_r by lia. pose proof (Z.pow_pos_nonneg 2 (Z.of_nat n) ltac:(lia) ltac:(lia)). apply (Z.div_unique_pos _ _ _ 1); lia. }
    assert (Z.odd v = Z.testbit c k) as Hv.
    { rewrite <- Z.bit0_odd. unfold v. rewrite Z.land_spec, Z.shiftr_spec, Z.testbit_ones_nonneg by lia.
      destruct (Z.ltb_spec 0 (Z.of_nat n + 1)); [|lia]. by rewrite andb_true_r, Z.add_0_l. }
    change (zeros 1 ?x) with (step x). unfold step. rewrite odd_lxor, Hv, Z.shiftr_lxor.
    assert (reflect64 crc2 = if bit then Z.lxor (Z.shiftr (reflect64 crc) 1) CRC64_REVERSED_POLY else Z.shiftr (reflect64 crc) 1) as ->.
    { unfold crc2, crc1. rewrite <- (reflect_double crc Hcrc). destruct bit; [|done]. by rewrite linear_reflect. }
    unfold bit. destruct (Z.testbit c k), (Z.odd (reflect64 crc)); cbn [xorb negb]; xor_bits.
Qed.

Lemma land_ones_id x : is_u64 x -> Z.land x 0xffffffffffffffff = x.
Proof. intros Hx. change 0xffffffffffffffff with (Z.ones 64). rewrite Z.land_ones by lia. by apply Z.mod_small. Qed.

Lemma crc64_bytes_reflect data : Forall is_byte data -> forall crc, is_u64 crc ->
  is_u64 (crc64_bytes data crc) /\ reflect64 (crc64_bytes data crc) = crc_fold (reflect64 crc) data.
Proof.
  induction 1 as [|c data Hc Hd IH]; intros crc Hcrc; [done|]. cbn [crc64_bytes crc_fold foldl].
  destruct (crc64_bits_reflect 8 c 0 crc Hcrc) as [H1 H2]; [lia|]. rewrite land_ones_id by done.
  destruct (IH _ H1) as [H3 H4]. split; [done|]. rewrite H4, H2. unfold crc_fold, crc_byte. do 2 f_equal.
  rewrite Z.shiftr_0_r. change (Z.of_nat 8) with 8. rewrite Z.land_ones by lia. f_equal. apply Z.mod_small. exact Hc.
Qed.

Lemma _crc64_spec s : Forall is_byte s -> _crc64 0 s (Zlen s) = Ret (crc_fold 0 s).
Proof.
  intros Hs. unfold _crc64. rewrite rdn_ok, ret_bind by (pose proof (Zlen_nonneg s); lia).
  rewrite drop_0. replace (take (Z.to_nat (Zlen s)) s) with s by (unfold Zlen; rewrite Nat2Z.id; by rewrite firstn_all).
  destruct (crc64_bytes_reflect s Hs 0) as [H1 H2]; [done|]. rewrite land_ones_id by done.
  rewrite crc_reflect_eq, ret_bind, H2, Z.lxor_0_r. done.
Qed.

(** ** Tables *)

Definition table_ok (tb : list (list Z)) : Prop :=
  forall k b, 0 <= k < 8 -> 0 <= b < 256 -> table_get tb k b = Ret (zeros (8 * (k + 1)) b).

(** [row] lists the values of [f] on the bytes from [n] on. *)
Definition lists_from (f : Z -> Z) (n : Z) (count : nat) (row : list Z) : Prop :=
  length row = count /\ forall i, 0 <= i < Z.of_nat count -> rd row i = Ret (f (n + i)).

Lemma lists_cons f n count x row : x = f n -> lists_from f (n + 1) count row -> lists_from f n (S count) (x :: row).
Proof.
  intros -> [Hl Hr]. split; [cbn; lia|]. intros i Hi. destruct (Z.eq_dec i 0) as [->|]; [by rewrite Z.add_0_r|].
  rewrite rd_cons by lia. rewrite Hr by lia. do 2 f_equal. lia.
Qed.

Lemma single_bytes_spec count : forall n, 0 <= n -> n + Z.of_nat count <= 256 ->
  exists row, single_bytes count n = Ret row /\ lists_from (zeros 8) n count row.
Proof.
  induction count as [|count IH]; intros n Hn Hc; cbn [single_bytes]; [exists []; split; [done|]; split; [done|lia]|].
  assert (Forall is_byte [n]) as Hb by (repeat constructor; unfold is_byte; lia). pose proof (_crc64_spec [n] Hb) as E.
  change (Zlen [n]) with 1 in E. rewrite E, ret_bind. destruct (IH (n + 1)) as (row & -> & Hr); [lia|lia|]. rewrite ret_bind.
  eexists. split; [done|]. apply lists_cons; [|done]. cbn [crc_fold foldl]. unfold crc_byte. by rewrite Z.lxor_0_l.
Qed.

Lemma zeros_byte table0 c : lists_from (zeros 8) 0 256 table0 ->
  (t ← rd table0 (Z.land c 0xff); Ret (Z.lxor t (Z.shiftr c 8))) = Ret (zeros 8 c).
Proof.
  intros [_ Hr]. change 0xff with (Z.ones 8). rewrite Hr, ret_bind by (rewrite Z.land_ones by lia; apply Z.mod_pos_bound; lia).
  rewrite Z.add_0_l. by rewrite <- zeros_split.
Qed.

Lemma nested_row_spec table0 m : 0 <= m -> lists_from (zeros 8) 0 256 table0 -> forall row n count, lists_from (zeros m) n count row ->
  exists row', nested_row table0 row = Ret row' /\ lists_from (zeros (8 + m)) n count row'.
Proof.
  intros Hm Ht. induction row as [|c row IH]; intros n count [Hl Hr]; subst count; cbn [nested_row]; [exists []; split; [done|]; split; [done|cbn; lia]|].
  destruct (IH (n + 1) (length row)) as (row' & E & Hrow').
  { split; [done|]. intros i Hi. pose proof (Hr (i + 1) ltac:(cbn [length]; lia)) as E. rewrite rd_cons in E by lia.
    replace (i + 1 - 1) with i in E by lia. rewrite E. do 2 f_equal. lia. }
  rewrite E. pose proof (zeros_byte table0 c Ht) as Ez. destruct (rd table0 (Z.land c 255)) as [t| | |]; try done.
  rewrite ret_bind in Ez. injection Ez as Ez. rewrite !ret_bind, Ez. eexists. split; [done|]. cbn [length]. apply lists_cons; [|done].
  pose proof (Hr 0 ltac:(cbn [length]; lia)) as E0. cbn in E0. injection E0 as ->. rewrite zeros_add by lia. by rewrite Z.add_0_r.
Qed.

Lemma nested_rows_spec table0 : lists_from (zeros 8) 0 256 table0 -> forall k row m, 0 <= m -> lists_from (zeros m) 0 256 row ->
  exists rows, nested_rows k table0 row = Ret rows /\
    forall i, 0 <= i < Z.of_nat k -> exists r, rd rows i = Ret r /\ lists_from (zeros (8 * (i + 1) + m)) 0 256 r.
Proof.
  intros Ht. induction k as [|k IH]; intros row m Hm Hrow; cbn [nested_rows]; [exists []; split; [done|lia]|].
  destruct (nested_row_spec table0 m Hm Ht row 0 256 Hrow) as (row' & -> & Hrow'). rewrite ret_bind.
  destruct (IH row' (8 + m)) as (rows & -> & Hrows); [lia|done|]. rewrite ret_bind. eexists. split; [done|]. intros i Hi.
  destruct (Z.eq_dec i 0) as [->|].
  - exists row'. split; [done|]. by replace (8 * (0 + 1) + m) with (8 + m) by lia.
  - destruct (Hrows (i - 1)) as (r & Hr & Hl); [lia|]. exists r. rewrite rd_cons by lia. split; [done|].
    by replace (8 * (i - 1 + 1) + (8 + m)) with (8 * (i + 1) + m) in Hl by lia.
Qed.

Lemma crc64_init_spec : exists tb, crc64_init = Ret tb /\ table_ok tb.
Proof.
  unfold crc64_init, crcspeed64little_init. destruct (single_bytes_spec 256 0) as (table0 & -> & Ht); [lia|lia|]. rewrite ret_bind.
  destruct (nested_rows_spec table0 Ht 7 table0 8) as (rows & -> & Hrows); [lia|done|]. rewrite ret_bind. eexists. split; [done|].
  intros k b Hk Hb. unfold table_get. destruct (Z.eq_dec k 0) as [->|].
  - rewrite rd_head, ret_bind. destruct Ht as [_ Ht]. rewrite Ht by lia. by rewrite Z.add_0_l.
  - rewrite rd_cons by lia. destruct (Hrows (k - 1)) as (r & -> & [_ Hr]); [lia|]. rewrite ret_bind, Hr by lia. rewrite Z.add_0_l. do 2 f_equal. lia.
Qed.

Section speed.
Variable tb : list (list Z).
Hypothesis Htb : table_ok tb.

Lemma u8_ones x : u8 x = Z.land x (Z.ones 8).
Proof. by rewrite Z.land_ones. Qed.

(** The low byte of a word, through the table for what is left. *)
Lemma zeros_low n x : 0 <= n -> zeros (8 + n) x = Z.lxor (zeros (8 + n) (u8 x)) (zeros n (Z.shiftr x 8)).
Proof.
  intros Hn. rewrite !(Z.add_comm 8), !zeros_add by lia. rewrite (zeros_split 8 x), linear_zeros by lia. by rewrite u8_ones.
Qed.

Lemma DO_8_2_spec x : is_u64 x -> DO_8_2 tb x = Ret (zeros 64 x).
Proof.
  intros Hx. unfold DO_8_2.
  assert (forall y, 0 <= u8 y < 256) as H8 by (intros y; apply (wrapu_range 8); lia).
  assert (0 <= Z.shiftr x 56 < 256) as H56.
  { rewrite Z.shiftr_div_pow2 by lia. unfold is_u64 in Hx. split; [apply Z.div_pos; lia|apply Z.div_lt_upper_bound; lia]. }
  rewrite !Htb, !ret_bind by (lia || apply H8 || done). f_equal.
  assert (forall n k y, 0 <= n -> 0 <= k -> zeros (8 + n) (Z.shiftr y k) = Z.lxor (zeros (8 + n) (u8 (Z.shiftr y k))) (zeros n (Z.shiftr y (k + 8)))) as Hlow.
  { intros n k y Hn Hk. rewrite <- Z.shiftr_shiftr by lia. by apply zeros_low. }
  change (zeros 64 x) with (zeros (8 + 56) x). rewrite (zeros_low 56 x) by lia.
  rewrite (Hlow 48 8 x ltac:(lia) ltac:(lia) : zeros 56 (Z.shiftr x 8) = _). rewrite (Hlow 40 16 x ltac:(lia) ltac:(lia) : zeros 48 (Z.shiftr x (8 + 8)) = _).
  rewrite (Hlow 32 24 x ltac:(lia) ltac:(lia) : zeros 40 (Z.shiftr x (16 + 8)) = _). rewrite (Hlow 24 32 x ltac:(lia) ltac:(lia) : zeros 32 (Z.shiftr x (24 + 8)) = _).
  rewrite (Hlow 16 40 x ltac:(lia) ltac:(lia) : zeros 24 (Z.shiftr x (32 + 8)) = _). rewrite (Hlow 8 48 x ltac:(lia) ltac:(lia) : zeros 16 (Z.shiftr x (40 + 8)) = _).
  rewrite !Z.lxor_assoc. reflexivity.
Qed.

Lemma crc_one_spec buf c p b : is_byte b -> rd buf p = Ret b -> crc_one tb buf c p = Ret (crc_byte c b).
Proof.
  intros Hbb Hb. unfold crc_one. rewrite Hb, ret_bind. change 0xff with (Z.ones 8).
  rewrite Htb, ret_bind by (lia || (rewrite Z.land_ones by lia; apply Z.mod_pos_bound; lia)). f_equal. change (8 * (0 + 1)) with 8.
  unfold crc_byte. rewrite (zeros_split 8 (Z.lxor c b)) by lia. f_equal. rewrite Z.shiftr_lxor.
  assert (Z.shiftr b 8 = 0) as -> by (rewrite Z.shiftr_div_pow2 by lia; apply Z.div_small; exact Hbb). by rewrite Z.lxor_0_r.
Qed.

Lemma DO_8_spec buf c p bs : Forall is_byte bs -> is_u64 c -> rdn buf p 8 = Ret bs -> 
  (c ← DO_8_1 buf c p; DO_8_2 tb c) = Ret (crc_fold c bs).
Proof.
  intros Hbs Hc Hr. unfold DO_8_1. rewrite Hr, !ret_bind. pose proof (rdn_length _ _ _ _ Hr) as [Hl _].
  assert (is_u64 (le_value bs)) as Hw by (apply le_value_u64; [done|]; unfold Zlen in Hl; lia).
  rewrite DO_8_2_spec by (by apply lxor_u64). rewrite crc_fold_word by done. by rewrite Hl.
Qed.

(** ** Matrices *)

(** The rows of [mat] are the images of the powers of two. *)
Definition mat_of (mat : list Z) (f : Z -> Z) : Prop :=
  length mat = 64%nat /\ forall i, 0 <= i < 64 -> rd mat i = Ret (f (2 ^ i)).

Definition bits_of (rows : list Z) : Z := foldr (fun r v => Z.lxor (2 ^ r) v) 0 rows.

Lemma switch_rows_bits nibble : 0 <= nibble < 16 -> bits_of (switch_rows nibble) = nibble /\ Forall (fun r => 0 <= r < 4) (switch_rows nibble).
Proof.
  intros Hn. assert (forallb (fun n => (bits_of (switch_rows n) =? n) && forallb (fun r => (0 <=? r) && (r <? 4)) (switch_rows n)) (seqZ 0 16) = true) as Hall by (vm_compute; reflexivity).
  rewrite forallb_forall in Hall. specialize (Hall nibble). rewrite andb_true_iff, Z.eqb_eq in Hall.
  destruct Hall as [H1 H2]; [apply list_elem_of_In, elem_of_seqZ; lia|]. split; [done|]. apply Forall_forall. intros r Hr.
  rewrite forallb_forall in H2. specialize (H2 r Hr). lia.
Qed.

Section matrix.
Variables (mat : list Z) (f : Z -> Z).
Hypotheses (Hf : linear f) (Hmat : mat_of mat f).

Lemma xor_rows_spec off rows : Forall (fun r => 0 <= r < 4) rows -> 0 <= off -> off + 4 <= 64 -> forall sum,
  xor_rows mat off rows sum = Ret (Z.lxor sum (f (Z.shiftl (bits_of rows) off))).
Proof.
  intros Hrows Hoff Hoff4. induction Hrows as [|r rows Hr _ IH]; intros sum; cbn [xor_rows bits_of foldr].
  - rewrite Z.shiftl_0_l, (linear_0 f Hf), Z.lxor_0_r. done.
  - destruct Hmat as [_ Hm]. rewrite Hm, ret_bind, IH by lia. f_equal. fold (bits_of rows).
    rewrite Z.shiftl_lxor, (Hf (Z.shiftl (2 ^ r) off)), Z.lxor_assoc. do 2 f_equal. f_equal.
    rewrite Z.shiftl_mul_pow2, <- Z.pow_add_r by lia. f_equal. lia.
Qed.

Lemma matrix_times_loop_spec fuel : forall off vec sum, 0 <= vec < 2 ^ (4 * Z.of_nat fuel) -> off = 64 - 4 * Z.of_nat fuel -> 0 <= off ->
  matrix_times_loop fuel mat off vec sum = Ret (Z.lxor sum (f (Z.shiftl vec off))).
Proof.
  induction fuel as [|fuel IH]; intros off vec sum Hv Hoff H0off; cbn [matrix_times_loop]; (destruct (Z.eqb_spec vec 0) as [->|Hne];
    [rewrite Z.shiftl_0_l, (linear_0 f Hf), Z.lxor_0_r; done|]).
  - cbn in Hv. lia.
  - assert (0 <= Z.land vec 15 < 16) as Hnib by (change 15 with (Z.ones 4); rewrite Z.land_ones by lia; apply Z.mod_pos_bound; lia).
    destruct (switch_rows_bits _ Hnib) as [Hbits Hrows]. rewrite (xor_rows_spec off _ Hrows) by lia. rewrite ret_bind, Hbits.
    rewrite IH.
    + f_equal. rewrite Z.lxor_assoc. f_equal. rewrite (split_low 4 vec) at 3 by lia. rewrite Z.shiftl_lxor, Z.shiftl_shiftl by lia.
      rewrite (Hf (Z.shiftl (Z.land vec 15) off)). do 2 f_equal. f_equal. lia.
    + rewrite Z.shiftr_div_pow2 by lia. replace (4 * Z.of_nat (S fuel)) with (4 + 4 * Z.of_nat fuel) in Hv by lia.
      rewrite Z.pow_add_r in Hv by lia. split; [apply Z.div_pos; lia|apply Z.div_lt_upper_bound; lia].
    + lia.
    + lia.
Qed.

Lemma matrix_times_spec vec : is_u64 vec -> gf2_matrix_times_switch mat vec = Ret (f vec).
Proof. intros Hv. unfold gf2_matrix_times_switch. rewrite matrix_times_loop_spec by done. by rewrite Z.shiftl_0_r, Z.lxor_0_l. Qed.

Hypothesis Hu : forall x, is_u64 x -> is_u64 (f x).

Lemma pow_u64 i : 0 <= i < 64 -> is_u64 (2 ^ i).
Proof. intros Hi. split; [lia|]. apply Z.pow_lt_mono_r; lia. Qed.

Lemma matrix_square_loop_spec rows : forall n, 0 <= n -> n + Z.of_nat rows <= 64 ->
  exists sq, matrix_square_loop rows mat n = Ret sq /\ length sq = rows /\
    forall i, 0 <= i < Z.of_nat rows -> rd sq i = Ret (f (f (2 ^ (n + i)))).
Proof.
  induction rows as [|rows IH]; intros n Hn Hr; cbn [matrix_square_loop]; [exists []; split_and!; done || lia|].
  destruct Hmat as [_ Hm]. rewrite Hm, ret_bind by lia. rewrite matrix_times_spec, ret_bind by (apply Hu, pow_u64; lia).
  destruct (IH (n + 1)) as (sq & -> & Hl & Hsq); [lia|lia|]. rewrite ret_bind. eexists. split; [done|]. split; [cbn; lia|].
  intros i Hi. destruct (Z.eq_dec i 0) as [->|]; [by rewrite Z.add_0_r|]. rewrite rd_cons, Hsq by lia. do 4 f_equal. lia.
Qed.

Lemma matrix_square_spec : exists sq, gf2_matrix_square mat 64 = Ret sq /\ mat_of sq (fun x => f (f x)).
Proof.
  destruct (matrix_square_loop_spec 64 0) as (sq & E & Hl & Hsq); [lia|lia|]. exists sq. split; [done|]. split; [done|].
  intros i Hi. rewrite Hsq by lia. by rewrite Z.add_0_l.
Qed.
End matrix.

Lemma mat_of_ext mat f g : (forall x, f x = g x) -> mat_of mat f -> mat_of mat g.
Proof. intros E [Hl Hm]. split; [done|]. intros i Hi. by rewrite Hm, E. Qed.

Lemma square_zeros mat n m : 0 <= n -> m = 2 * n -> mat_of mat (zeros n) -> exists sq, gf2_matrix_square mat 64 = Ret sq /\ mat_of sq (zeros m).
Proof.
  intros Hn -> Hm. destruct (matrix_square_spec mat (zeros n) (linear_zeros n) Hm (zeros_u64 n)) as (sq & E & Hsq). exists sq. split; [done|].
  eapply mat_of_ext; [|exact Hsq]. intros x. cbn beta. rewrite <- zeros_add by lia. f_equal. lia.
Qed.

(** ** The cache *)

(** [combine_cache[i]]: the effect of [2^i] zero bytes. *)
Definition cache_entry (i : Z) (mat : list Z) : Prop := mat_of mat (zeros (8 * 2 ^ i)).
Definition cache_full (cache : list (list Z)) : Prop :=
  length cache = 64%nat /\ forall i, 0 <= i < 64 -> exists mat, rd cache i = Ret mat /\ cache_entry i mat.
Definition cache_ok (cache : list (list Z)) : Prop := cache = combine_cache_0 \/ cache_full cache.

Lemma square_cache_spec n : forall cache cache_num prev, Z.of_nat n = 64 - cache_num -> 0 <= cache_num -> length cache = 64%nat ->
  (forall i, 0 <= i < cache_num -> exists mat, rd cache i = Ret mat /\ cache_entry i mat) ->
  (n <> 0%nat -> exists mat, rd cache (cache_num + prev) = Ret mat /\ mat_of mat (zeros (4 * 2 ^ cache_num))) ->
  exists cache', square_cache n cache cache_num prev 64 = Ret cache' /\ cache_full cache'.
Proof.
  induction n as [|n IH]; intros cache cn prev Hn Hcn Hl Hdone Hprev; cbn [square_cache].
  { exists cache. split; [done|]. split; [done|]. intros i Hi. apply Hdone. lia. }
  destruct (Hprev ltac:(done)) as (mat & -> & Hmat). rewrite ret_bind.
  destruct (square_zeros mat (4 * 2 ^ cn) (8 * 2 ^ cn)) as (sq & -> & Hsq); [lia|lia|done|]. rewrite ret_bind.
  rewrite wr_ok, ret_bind by (unfold Zlen; lia). assert (forall i, 0 <= i < cn + 1 -> exists mat0, rd (<[Z.to_nat cn := sq]> cache) i = Ret mat0 /\ cache_entry i mat0) as Hd.
  { intros i Hi. destruct (Z.eq_dec i cn) as [->|].
    - exists sq. split; [|done]. apply rd_insert_eq. unfold Zlen. lia.
    - rewrite rd_insert_ne by lia. apply Hdone. lia. }
  apply IH; [lia|lia|by rewrite length_insert|done|]. intros _. destruct (Hd cn) as (m0 & Hr & Hm0); [lia|].
  exists m0. split; [by replace (cn + 1 + -1) with cn by lia|]. unfold cache_entry in Hm0. rewrite Z.pow_add_r by lia. by replace (4 * (2 ^ cn * 2 ^ 1)) with (8 * 2 ^ cn) by lia.
Qed.

Lemma first_matrix : mat_of (CRC64_REVERSED_POLY :: shift_rows 63 1) (zeros 1).
Proof.
  split; [done|]. intros i Hi.
  assert (forallb (fun i => match rd (CRC64_REVERSED_POLY :: shift_rows 63 1) i with Ret x => x =? zeros 1 (2 ^ i) | _ => false end) (seqZ 0 64) = true) as Hall by (vm_compute; reflexivity).
  rewrite forallb_forall in Hall. specialize (Hall i). destruct (rd _ i); try (by discriminate Hall; apply list_elem_of_In, elem_of_seqZ; lia).
  f_equal. apply Z.eqb_eq, Hall, list_elem_of_In, elem_of_seqZ. lia.
Qed.

Lemma init_combine_cache_spec cache : length cache = 64%nat ->
  exists cache', init_combine_cache cache CRC64_REVERSED_POLY 64 = Ret cache' /\ cache_full cache'.
Proof.
  intros Hl. unfold init_combine_cache. change (Z.to_nat (64 - 1)) with 63%nat. pose proof first_matrix as H1. cbv zeta.
  set (m1 := CRC64_REVERSED_POLY :: shift_rows 63 1) in *. clearbody m1. rewrite wr_ok, ret_bind by (unfold Zlen; lia).
  destruct (square_zeros m1 1 2) as (m0 & -> & H2); [lia|lia|done|]. rewrite ret_bind, wr_ok, ret_bind by (unfold Zlen; rewrite ?length_insert; lia).
  destruct (square_zeros m0 2 4) as (m4 & -> & H4); [lia|lia|done|]. rewrite ret_bind, wr_ok, ret_bind by (unfold Zlen; rewrite ?length_insert; lia).
  apply square_cache_spec; [lia|lia|by rewrite !length_insert|lia|]. intros _. exists m4. split; [|done].
  apply rd_insert_eq. unfold Zlen. rewrite !length_insert. lia.
Qed.

Lemma zeros_one_nonzero : zeros 8 1 <> 0.
Proof. vm_compute. discriminate. Qed.

Lemma combine_loop_spec fuel : forall cache cn crc1 len2, cache_full cache -> Z.of_nat fuel = 64 - cn -> 0 <= cn -> is_u64 crc1 ->
  0 < len2 < 2 ^ Z.of_nat fuel -> combine_loop fuel cache cn crc1 len2 = Ret (zeros (8 * 2 ^ cn * len2) crc1).
Proof.
  induction fuel as [|fuel IH]; intros cache cn crc1 len2 Hc Hf Hcn Hu Hl; [cbn in Hl; lia|]. cbn [combine_loop].
  pose proof (Z.pow_pos_nonneg 2 cn ltac:(lia) ltac:(lia)) as Hp. pose proof Hc as [_ He]. destruct (He cn) as (mat & Hr & Hm); [lia|].
  assert ((if Z.odd len2 then m ← rd cache cn; gf2_matrix_times_switch m crc1 else Ret crc1) = Ret (zeros (8 * 2 ^ cn * (len2 mod 2)) crc1)) as ->.
  { rewrite Zmod_odd. destruct (Z.odd len2).
    - rewrite Hr, ret_bind, (matrix_times_spec mat _ (linear_zeros _) Hm) by done. by rewrite Z.mul_1_r.
    - by rewrite Z.mul_0_r. }
  rewrite ret_bind, Z.shiftr_div_pow2 by lia. change (2 ^ 1) with 2. pose proof (Z.div_mod len2 2 ltac:(lia)) as Hdm.
  pose proof (Z.mod_pos_bound len2 2 ltac:(lia)). rewrite Nat2Z.inj_succ, Z.pow_succ_r in Hl by lia.
  destruct (Z.eqb_spec (len2 / 2) 0) as [E|E]; cbn [negb].
  - do 2 f_equal. lia.
  - assert (cn + 1 < 64) as Hlt.
    { destruct (Z_lt_le_dec (cn + 1) 64); [done|]. assert (fuel = 0%nat) as -> by lia. change (2 ^ Z.of_nat 0) with 1 in Hl. lia. }
    assert (Z.land (cn + 1) 63 = cn + 1) as -> by (change 63 with (Z.ones 6); rewrite Z.land_ones by lia; apply Z.mod_small; lia).
    rewrite IH; [|done|lia|lia|by apply zeros_u64|lia]. f_equal. rewrite <- zeros_add by nia. f_equal.
    rewrite Z.pow_add_r by lia. rewrite Hdm at 3. ring.
Qed.

Lemma crc64_combine_spec cache crc1 crc2 len2 : cache_ok cache -> is_u64 crc1 -> 0 <= len2 < 2 ^ 64 -> len2 <> 0 \/ crc2 = 0 ->
  exists cache', crc64_combine cache crc1 crc2 len2 CRC64_REVERSED_POLY 64 = Ret (Z.lxor (zeros (8 * len2) crc1) crc2, cache') /\ cache_ok cache'.
Proof.
  intros Hc Hu Hl Hz. unfold crc64_combine. destruct (Z.eqb_spec len2 0) as [->|Hne].
  { destruct Hz as [?| ->]; [done|]. exists cache. split; [|done]. by rewrite Z.lxor_0_r. }
  assert (exists m x cache', rd cache 0 = Ret m /\ rd m 0 = Ret x /\
    (if x =? 0 then init_combine_cache cache CRC64_REVERSED_POLY 64 else Ret cache) = Ret cache' /\ cache_full cache') as (m & x & cache' & -> & Hx & Hi & Hf).
  { destruct Hc as [->|Hc].
    - destruct (init_combine_cache_spec combine_cache_0 eq_refl) as (cache' & E & Hf). exists (replicate 64 0), 0, cache'.
      split; [reflexivity|]. split; [reflexivity|]. split; [exact E|exact Hf].
    - pose proof Hc as [_ He]. destruct (He 0) as (m & Hr & [_ Hm]); [lia|]. exists m, (zeros 8 1), cache. split; [done|]. split; [by rewrite Hm by lia|].
      destruct (Z.eqb_spec (zeros 8 1) 0) as [E|]; [by destruct (zeros_one_nonzero E)|done]. }
  rewrite ret_bind, Hx, ret_bind, Hi, ret_bind. rewrite combine_loop_spec, ret_bind by (done || lia).
  exists cache'. split; [done|by right].
Qed.

(** ** The whole *)

Section whole.
Variables (addr dual tri : Z) (buf : list Z) (c0 : Z).
Hypotheses (Hbuf : Forall is_byte buf) (Hc0 : is_u64 c0) (Hbig : Zlen buf < 2 ^ 63).

Definition part (p n : Z) : list Z := take (Z.to_nat n) (drop (Z.to_nat p) buf).

Lemma part_len p n : 0 <= p -> 0 <= n -> p + n <= Zlen buf -> Zlen (part p n) = n.
Proof. intros. unfold part. apply Zlen_take. rewrite Zlen_drop by lia. lia. Qed.
Lemma part_read p n : 0 <= p -> 0 <= n -> p + n <= Zlen buf -> rdn buf p n = Ret (part p n).
Proof. intros. by rewrite rdn_ok by lia. Qed.
Lemma part_bytes p n : Forall is_byte (part p n).
Proof. by apply list.Forall_take, list.Forall_drop. Qed.
Lemma part_app p n m : 0 <= p -> 0 <= n -> 0 <= m -> part p (n + m) = part p n ++ part (p + n) m.
Proof.
  intros Hp Hn Hm. unfold part. rewrite (Z2Nat.inj_add n m), (Z2Nat.inj_add p n) by lia. by rewrite <- take_take_drop, drop_drop.
Qed.
Lemma part_0 p : part p 0 = [].
Proof. done. Qed.
Lemma part_all : part 0 (Zlen buf) = buf.
Proof. unfold part. rewrite drop_0. unfold Zlen. rewrite Nat2Z.id. apply firstn_all. Qed.

(** [crc] is what the bytes before [next] give, and [len] bytes are left. *)
Definition at_pos (crc next len : Z) : Prop :=
  0 <= next /\ 0 <= len /\ next + len = Zlen buf /\ crc = crc_fold c0 (part 0 next).

Lemma at_u64 crc next len : at_pos crc next len -> is_u64 crc.
Proof. intros (_ & _ & _ & ->). apply crc_fold_u64; [apply part_bytes|done]. Qed.

Lemma at_move crc next len n : at_pos crc next len -> 0 <= n <= len -> at_pos (crc_fold crc (part next n)) (next + n) (len - n).
Proof.
  intros (Hn & Hl & He & ->) Hm. unfold at_pos. split_and!; [lia|lia|lia|]. rewrite part_app, crc_fold_app by lia. by rewrite Z.add_0_l.
Qed.

Lemma at_byte crc next len : at_pos crc next len -> len <> 0 -> exists crc', crc_one tb buf crc next = Ret crc' /\ at_pos crc' (next + 1) (len - 1).
Proof.
  intros Hat Hl. pose proof Hat as (Hn & Hlen & He & _). destruct (rd_ok buf next) as [b Hb]; [lia|].
  rewrite (crc_one_spec buf crc next b (rd_is_byte _ _ _ Hbuf Hb) Hb). eexists. split; [done|].
  replace (crc_byte crc b) with (crc_fold crc (part next 1)); [apply at_move; [done|lia]|].
  unfold part. apply rd_Ret_inv in Hb as [_ Hb]. by rewrite (drop_S _ _ _ Hb).
Qed.

Lemma align_loop_spec fuel : forall crc next len, at_pos crc next len -> len <= Z.of_nat fuel ->
  exists crc' next' len', align_loop addr tb buf fuel crc next len = Ret (crc', next', len') /\ at_pos crc' next' len'.
Proof.
  induction fuel as [|fuel IH]; intros crc next len Hat Hf; pose proof Hat as (_ & Hl & _); cbn [align_loop];
    (destruct (Z.eqb_spec len 0) as [E|E]; cbn [negb andb]; [by eexists _, _, _|]); [lia|].
  destruct (negb (Z.land (addr + next) 7 =? 0)); [|by eexists _, _, _].
  destruct (at_byte crc next len Hat E) as (crc' & -> & Hat'). rewrite ret_bind. apply IH; [done|lia].
Qed.

Lemma bytes_loop_spec fuel : forall crc next len, at_pos crc next len -> len <= Z.of_nat fuel ->
  bytes_loop tb buf fuel crc next len = Ret (crc_fold c0 buf).
Proof.
  induction fuel as [|fuel IH]; intros crc next len Hat Hf; pose proof Hat as (_ & Hl & _); cbn [bytes_loop];
    (destruct (Z.eqb_spec len 0) as [E|E]; cbn [negb]; [destruct Hat as (_ & _ & He & ->); rewrite E, Z.add_0_r in He; by rewrite He, part_all|]); [lia|].
  destruct (at_byte crc next len Hat E) as (crc' & -> & Hat'). rewrite ret_bind. apply IH; [done|lia].
Qed.

(** Eight bytes, at any place. *)
Lemma word_spec crc p : is_u64 crc -> 0 <= p -> p + 8 <= Zlen buf ->
  exists x, DO_8_1 buf crc p = Ret x /\ DO_8_2 tb x = Ret (crc_fold crc (part p 8)).
Proof.
  intros Hc Hp Hl. pose proof (DO_8_spec buf crc p (part p 8) (part_bytes _ _) Hc (part_read p 8 Hp ltac:(lia) Hl)) as E.
  destruct (DO_8_1 buf crc p) as [x| | |]; try done. rewrite ret_bind in E. by exists x.
Qed.

Lemma single_loop_spec fuel : forall crc next len, at_pos crc next len -> len <= Z.of_nat fuel ->
  exists crc' next' len', single_loop tb buf fuel crc next len = Ret (crc', next', len') /\ at_pos crc' next' len'.
Proof.
  induction fuel as [|fuel IH]; intros crc next len Hat Hf; pose proof Hat as (Hn & Hl & He & _); cbn [single_loop];
    (destruct (Z.leb_spec 8 len) as [E|E]; [|by eexists _, _, _]); [lia|].
  destruct (word_spec crc next (at_u64 _ _ _ Hat)) as (x & -> & Ex); [lia|lia|]. rewrite ret_bind, Ex, ret_bind.
  apply IH; [|lia]. apply at_move; [done|lia].
Qed.

(** Segments of [len] bytes, a multiple of eight. *)
Lemma fold_part_u64 crc p n : is_u64 crc -> is_u64 (crc_fold crc (part p n)).
Proof. intros Hc. apply crc_fold_u64; [apply part_bytes|done]. Qed.

Lemma fold_part_next crc p len : 0 <= p -> 8 <= len -> crc_fold (crc_fold crc (part p 8)) (part (p + 8) (len - 8)) = crc_fold crc (part p len).
Proof. intros Hp Hl. rewrite <- crc_fold_app, <- part_app by lia. do 2 f_equal. lia. Qed.

Lemma dual_loop_spec fuel : forall crc1 crc2 p1 p2 len, is_u64 crc1 -> is_u64 crc2 -> 0 <= p1 -> 0 <= p2 -> 0 <= len <= Z.of_nat fuel ->
  (8 | len) -> p1 + len <= Zlen buf -> p2 + len <= Zlen buf ->
  dual_loop tb buf fuel crc1 crc2 p1 p2 len = Ret (crc_fold crc1 (part p1 len), crc_fold crc2 (part p2 len), p1 + len, p2 + len).
Proof.
  induction fuel as [|fuel IH]; intros crc1 crc2 p1 p2 len H1 H2 Hp1 Hp2 Hl Hd Hb1 Hb2; cbn [dual_loop];
    (destruct (Z.leb_spec 8 len) as [E|E]; [|assert (len = 0) as -> by (destruct Hd; lia); by rewrite !part_0, !Z.add_0_r]); [lia|].
  destruct (word_spec crc1 p1 H1) as (x1 & -> & E1); [lia|lia|]. destruct (word_spec crc2 p2 H2) as (x2 & -> & E2); [lia|lia|].
  rewrite !ret_bind, E1, ret_bind, E2, ret_bind. rewrite IH; try (by apply fold_part_u64); try lia.
  - rewrite !fold_part_next by lia. rewrite <- !(Z.add_assoc _ 8). replace (8 + (len - 8)) with len by lia. done.
  - destruct Hd as [k ->]. exists (k - 1). lia.
Qed.

Lemma tri_loop_spec fuel : forall crc1 crc2 crc3 p1 p2 p3 len, is_u64 crc1 -> is_u64 crc2 -> is_u64 crc3 ->
  0 <= p1 -> 0 <= p2 -> 0 <= p3 -> 0 <= len <= Z.of_nat fuel ->
  (8 | len) -> p1 + len <= Zlen buf -> p2 + len <= Zlen buf -> p3 + len <= Zlen buf ->
  tri_loop tb buf fuel crc1 crc2 crc3 p1 p2 p3 len =
    Ret (crc_fold crc1 (part p1 len), crc_fold crc2 (part p2 len), crc_fold crc3 (part p3 len), p1 + len, p2 + len, p3 + len).
Proof.
  induction fuel as [|fuel IH]; intros crc1 crc2 crc3 p1 p2 p3 len H1 H2 H3 Hp1 Hp2 Hp3 Hl Hd Hb1 Hb2 Hb3; cbn [tri_loop];
    (destruct (Z.leb_spec 8 len) as [E|E]; [|assert (len = 0) as -> by (destruct Hd; lia); by rewrite !part_0, !Z.add_0_r]); [lia|].
  destruct (word_spec crc1 p1 H1) as (x1 & -> & E1); [lia|lia|]. destruct (word_spec crc2 p2 H2) as (x2 & -> & E2); [lia|lia|].
  destruct (word_spec crc3 p3 H3) as (x3 & -> & E3); [lia|lia|].
  rewrite !ret_bind, E1, ret_bind, E2, ret_bind, E3, ret_bind. rewrite IH; try (by apply fold_part_u64); try lia.
  - rewrite !fold_part_next by lia. rewrite <- !(Z.add_assoc _ 8). replace (8 + (len - 8)) with len by lia. done.
  - destruct Hd as [k ->]. exists (k - 1). lia.
Qed.

(** A segment's CRC is merged by moving the first past its zero bytes. *)
Lemma merge_spec cache crc p len : cache_ok cache -> is_u64 crc -> 0 <= p -> 0 <= len < 2 ^ 63 -> p + len <= Zlen buf ->
  exists cache', MERGE_CRC cache crc (crc_fold 0 (part p len)) len = Ret (crc_fold crc (part p len), cache') /\ cache_ok cache'.
Proof.
  intros Hc Hu Hp Hl Hb. unfold MERGE_CRC. destruct (crc64_combine_spec cache crc (crc_fold 0 (part p len)) len Hc Hu) as (cache' & -> & Hc').
  - lia.
  - destruct (Z.eq_dec len 0) as [->|]; [by right|by left].
  - exists cache'. split; [|done]. do 2 f_equal. rewrite (crc_fold_from (part p len) crc), part_len by lia. done.
Qed.

Lemma split_spec div len : 0 < div -> 0 <= len < 2 ^ 63 -> 0 <= CRC64_SPLIT div len /\ div * CRC64_SPLIT div len <= len /\ (8 | CRC64_SPLIT div len).
Proof.
  intros Hdiv Hl. unfold CRC64_SPLIT. set (q := len / div). assert (0 <= q < 2 ^ 63 /\ div * q <= len) as [Hq Hdq].
  { unfold q. pose proof (Z.div_pos len div). pose proof (Z.mul_div_le len div Hdiv). pose proof (Z.div_le_upper_bound len div len Hdiv). nia. }
  assert (Z.land q CRC64_LEN_MASK = q / 8 * 8) as ->.
  { change CRC64_LEN_MASK with (Z.shiftl (Z.ones 60) 3). apply Z.bits_inj'. intros k Hk. rewrite Z.land_spec.
    rewrite (Z.mul_comm (q / 8)). change 8 with (2 ^ 3). rewrite Z.mul_comm, <- Z.shiftl_mul_pow2, <- Z.shiftr_div_pow2 by lia.
    destruct (Z.ltb_spec k 3).
    - rewrite !Z.shiftl_spec_low by lia. apply andb_false_r.
    - rewrite !Z.shiftl_spec_high, Z.shiftr_spec, Z.testbit_ones_nonneg by lia. replace (k - 3 + 3) with k by lia.
      destruct (Z.ltb_spec (k - 3) 60); [apply andb_true_r|]. rewrite andb_false_r. symmetry. apply Z.testbit_false; [lia|].
      rewrite Z.div_small; [done|]. assert (2 ^ 63 <= 2 ^ k) by (apply Z.pow_le_mono_r; lia). lia. }
  pose proof (Z.mul_div_le q 8 ltac:(lia)). pose proof (Z.div_pos q 8 ltac:(lia) ltac:(lia)). split; [lia|]. split; [nia|]. by exists (q / 8).
Qed.

Lemma crc64_long_spec cache crc next len : cache_ok cache -> at_pos crc next len ->
  exists crc' next' len' cache', crc64_long dual tri tb buf cache crc next len = Ret (crc', next', len', cache') /\
    at_pos crc' next' len' /\ cache_ok cache'.
Proof.
  intros Hc Hat. pose proof Hat as (Hn & Hl & He & _). pose proof (at_u64 _ _ _ Hat) as Hu. unfold crc64_long. cbv zeta.
  assert (is_u64 0) as H0 by done. destruct (tri <? len); [|destruct (dual <? len); [|by eexists _, _, _, _]].
  - destruct (split_spec 3 len) as (Hs0 & Hs & Hd); [lia|lia|]. set (n := CRC64_SPLIT 3 len) in *.
    replace (next + n - next) with n by lia. rewrite tri_loop_spec by (done || lia). rewrite ret_bind.
    replace (next + n + n - (next + n)) with n by lia. set (crc1 := crc_fold crc (part next n)). assert (is_u64 crc1) as H1 by (by apply fold_part_u64).
    destruct (merge_spec cache crc1 (next + n) n Hc H1) as (cache2 & -> & Hc2); [lia|lia|lia|]. rewrite ret_bind.
    destruct (merge_spec cache2 (crc_fold crc1 (part (next + n) n)) (next + n + n) n Hc2) as (cache3 & -> & Hc3); [by apply fold_part_u64|lia|lia|lia|].
    rewrite ret_bind. eexists _, _, _, _. split; [done|]. split; [|done]. unfold crc1.
    replace (len - n * 3) with (len - n - n - n) by lia. repeat (apply at_move; [|lia]). done.
  - destruct (split_spec 2 len) as (Hs0 & Hs & Hd); [lia|lia|]. set (n := CRC64_SPLIT 2 len) in *.
    replace (next + n - next) with n by lia. rewrite dual_loop_spec by (done || lia). rewrite ret_bind.
    replace (next + n + n - (next + n)) with n by lia.
    destruct (merge_spec cache (crc_fold crc (part next n)) (next + n) n Hc) as (cache2 & -> & Hc2); [by apply fold_part_u64|lia|lia|lia|].
    rewrite ret_bind. eexists _, _, _, _. split; [done|]. split; [|done].
    replace (len - n * 2) with (len - n - n) by lia. repeat (apply at_move; [|lia]). done.
Qed.

Lemma crc64_spec cache : cache_ok cache ->
  exists cache', crc64 addr dual tri tb cache c0 buf (Zlen buf) = Ret (crc_fold c0 buf, cache') /\ cache_ok cache'.
Proof.
  intros Hc. unfold crc64, crcspeed64little. cbv zeta. assert (at_pos c0 0 (Zlen buf)) as Hat.
  { pose proof (Zlen_nonneg buf). unfold at_pos. split_and!; done || lia. }
  assert (forall l, l <= Z.of_nat (Z.to_nat l)) as Hfuel by lia. destruct (dual <? 1).
  { rewrite (bytes_loop_spec _ _ _ _ Hat), ret_bind by done. by exists cache. }
  destruct (align_loop_spec _ _ _ _ Hat (Hfuel _)) as (crc1 & n1 & l1 & -> & Hat1). rewrite ret_bind.
  destruct (crc64_long_spec cache _ _ _ Hc Hat1) as (crc2 & n2 & l2 & cache2 & -> & Hat2 & Hc2). rewrite ret_bind.
  destruct (single_loop_spec _ _ _ _ Hat2 (Hfuel _)) as (crc3 & n3 & l3 & -> & Hat3). rewrite ret_bind.
  rewrite (bytes_loop_spec _ _ _ _ Hat3), ret_bind by done. by exists cache2.
Qed.
End whole.
End speed.

(** ** Properties *)

Lemma step_zero z : is_u64 z -> step z = 0 -> z = 0.
Proof.
  unfold is_u64, step. intros Hz. rewrite Z.shiftr_div_pow2 by lia. change (2 ^ 1) with 2. destruct (Z.odd z) eqn:Eo; intros E.
  - apply Z.lxor_eq in E. assert (z / 2 < 2 ^ 63) by (apply Z.div_lt_upper_bound; lia). unfold CRC64_REVERSED_POLY in E. lia.
  - pose proof (Zmod_odd z) as Em. rewrite Eo in Em. pose proof (Z.div_mod z 2). lia.
Qed.

Lemma zeros_inj n x y : is_u64 x -> is_u64 y -> zeros n x = zeros n y -> x = y.
Proof.
  intros Hx Hy. unfold zeros. induction (Z.to_nat n) as [|k IH]; [done|]. rewrite !Nat.iter_succ. intros E. apply IH.
  apply Z.lxor_eq. apply step_zero; [by apply lxor_u64; apply iter_u64|]. rewrite linear_step, E. apply Z.lxor_nilpotent.
Qed.

Lemma le_value_word w : Forall is_byte w -> Zlen w <= 8 -> is_u64 (le_value w).
Proof.
  intros Hw Hl. pose proof (le_value_bytes (length w) (le_value w)) as E. rewrite le_bytes_value in E by done.
  unfold Zlen in Hl. assert (2 ^ (8 * Z.of_nat (length w)) <= 2 ^ 64) by (apply Z.pow_le_mono_r; lia).
  pose proof (Z.mod_pos_bound (le_value w) (2 ^ (8 * Z.of_nat (length w))) ltac:(lia)). unfold is_u64. lia.
Qed.

(** C12. The checksum the server computes is the one the bit-by-bit reference
    defines: with the tables of [crc64_init], for every buffer, every alignment of
    its address, every setting of the two cutoffs (so whether the bytes go one by
    one, eight at a time, or in two or three segments merged by matrices) and
    whatever the calls before left in the matrix cache, [crc64] of a buffer from 0 is
    [_crc64] of it; a buffer checksummed in two calls gives what one call gives;
    no access leaves the buffer, the tables or the cache. *)
Theorem crc64_correct : exists tb, crc64_init = Ret tb /\
  forall addr1 addr2 addr3 dual tri cache a b crc, Forall is_byte (a ++ b) -> Zlen (a ++ b) < 2 ^ 63 -> 0 <= crc < 2 ^ 64 -> cache_ok cache ->
  exists r r' cache1 cache2 cache3,
    crc64 addr1 dual tri tb cache crc a (Zlen a) = Ret (r, cache1) /\ cache_ok cache1 /\
    crc64 addr2 dual tri tb cache1 r b (Zlen b) = Ret (r', cache2) /\ cache_ok cache2 /\
    crc64 addr3 dual tri tb cache crc (a ++ b) (Zlen (a ++ b)) = Ret (r', cache3) /\ cache_ok cache3 /\
    0 <= r' < 2 ^ 64 /\ (crc = 0 -> _crc64 0 (a ++ b) (Zlen (a ++ b)) = Ret r').
Proof.
  destruct crc64_init_spec as (tb & E & Htb). exists tb. split; [exact E|]. intros addr1 addr2 addr3 dual tri cache a b crc Hb Hl Hc Hcache.
  pose proof Hb as [Ha Hb']%list.Forall_app. rewrite Zlen_app in Hl. pose proof (Zlen_nonneg a). pose proof (Zlen_nonneg b).
  assert (is_u64 (crc_fold crc a)) as Hr by (by apply crc_fold_u64).
  destruct (crc64_spec tb Htb addr1 dual tri a crc Ha Hc ltac:(lia) cache Hcache) as (cache1 & E1 & H1).
  destruct (crc64_spec tb Htb addr2 dual tri b _ Hb' Hr ltac:(lia) cache1 H1) as (cache2 & E2 & H2).
  destruct (crc64_spec tb Htb addr3 dual tri (a ++ b) crc Hb Hc ltac:(rewrite Zlen_app; lia) cache Hcache) as (cache3 & E3 & H3).
  rewrite crc_fold_app in E3. exists (crc_fold crc a), (crc_fold (crc_fold crc a) b), cache1, cache2, cache3.
  do 3 (split; [assumption|]; split; [assumption|]). split; [by apply crc_fold_u64|]. intros ->. rewrite _crc64_spec, crc_fold_app by assumption. reflexivity.
Qed.

(** The checksum detects every change within eight consecutive bytes: two
    buffers of the same length that differ, but only inside such a window, never
    have the same CRC, from whatever value it starts. *)
Theorem crc64_detects_burst : exists tb, crc64_init = Ret tb /\
  forall addr1 addr2 dual tri cache1 cache2 crc a w1 w2 b, Forall is_byte (a ++ w1 ++ b) -> Forall is_byte w2 ->
  Zlen (a ++ w1 ++ b) < 2 ^ 63 -> 0 <= crc < 2 ^ 64 -> cache_ok cache1 -> cache_ok cache2 -> Zlen w1 = Zlen w2 -> Zlen w1 <= 8 -> w1 <> w2 ->
  exists r1 r2 cache1' cache2', crc64 addr1 dual tri tb cache1 crc (a ++ w1 ++ b) (Zlen (a ++ w1 ++ b)) = Ret (r1, cache1') /\
    crc64 addr2 dual tri tb cache2 crc (a ++ w2 ++ b) (Zlen (a ++ w2 ++ b)) = Ret (r2, cache2') /\ r1 <> r2.
Proof.
  destruct crc64_init_spec as (tb & E & Htb). exists tb. split; [exact E|].
  intros addr1 addr2 dual tri cache1 cache2 crc a w1 w2 b Hb Hw2 Hl Hc H1 H2 Hlen Hl8 Hne.
  pose proof Hb as [Ha [Hw1 Hb']%list.Forall_app]%list.Forall_app.
  destruct (crc64_spec tb Htb addr1 dual tri (a ++ w1 ++ b) crc Hb Hc Hl cache1 H1) as (c1 & E1 & _).
  destruct (crc64_spec tb Htb addr2 dual tri (a ++ w2 ++ b) crc) with (cache := cache2) as (c2 & E2 & _);
    [by repeat apply list.Forall_app_2|assumption|rewrite !Zlen_app in *; lia|assumption|].
  exists (crc_fold crc (a ++ w1 ++ b)), (crc_fold crc (a ++ w2 ++ b)), c1, c2. split; [exact E1|]. split; [exact E2|].
  rewrite !crc_fold_app. set (x := crc_fold crc a). rewrite (crc_fold_from b (crc_fold x w1)), (crc_fold_from b (crc_fold x w2)). assert (is_u64 x) as Hx by (by apply crc_fold_u64).
  intros Eq. apply (f_equal (fun y => Z.lxor y (crc_fold 0 b))) in Eq. rewrite !Z.lxor_assoc, Z.lxor_nilpotent, !Z.lxor_0_r in Eq.
  apply zeros_inj in Eq; [|by apply crc_fold_u64..]. rewrite !crc_fold_word, Hlen in Eq by assumption.
  assert (is_u64 (le_value w1) /\ is_u64 (le_value w2)) as [Hv1 Hv2] by (split; apply le_value_word; assumption || lia).
  apply zeros_inj in Eq; [|by apply lxor_u64..]. apply (f_equal (Z.lxor x)) in Eq. rewrite <- !Z.lxor_assoc, Z.lxor_nilpotent, !Z.lxor_0_l in Eq.
  apply Hne. rewrite <- (le_bytes_value w1 Hw1), <- (le_bytes_value w2 Hw2), Eq. f_equal. unfold Zlen in Hlen. lia.
Qed.

(** ** Witnesses *)

Lemma bytes_check (l : list Z) : forallb (fun b => (0 <=? b) && (b <? 256)) l = true -> Forall is_byte l.
Proof. intros H. apply Forall_forall. intros x Hx. rewrite forallb_forall in H. specialize (H x Hx). unfold is_byte. lia. Qed.

Lemma crc64_correct_witness : exists tb, crc64_init = Ret tb /\
  exists r r' cache1 cache2 cache3,
    crc64 3 16 32 tb combine_cache_0 0 (map Z.of_nat (seq 0 40)) 40 = Ret (r, cache1) /\ cache_ok cache1 /\
    crc64 0 16 32 tb cache1 r [1; 2; 3] 3 = Ret (r', cache2) /\ cache_ok cache2 /\
    crc64 5 16 32 tb combine_cache_0 0 (map Z.of_nat (seq 0 40) ++ [1; 2; 3]) 43 = Ret (r', cache3) /\ cache_ok cache3 /\
    0 <= r' < 2 ^ 64 /\ (0 = 0 -> _crc64 0 (map Z.of_nat (seq 0 40) ++ [1; 2; 3]) 43 = Ret r').
Proof.
  destruct crc64_correct as (tb & E & H). exists tb. split; [exact E|].
  apply (H 3 0 5 16 32 combine_cache_0 (map Z.of_nat (seq 0 40)) [1; 2; 3] 0); [apply bytes_check; reflexivity|reflexivity|lia|by left].
Defined.

Lemma crc64_detects_burst_witness : exists tb, crc64_init = Ret tb /\
  exists r1 r2 cache1' cache2', crc64 0 1 2 tb combine_cache_0 0 [1; 2; 3; 4; 5] 5 = Ret (r1, cache1') /\
    crc64 0 1 2 tb combine_cache_0 0 [1; 0; 0; 4; 5] 5 = Ret (r2, cache2') /\ r1 <> r2.
Proof.
  destruct crc64_detects_burst as (tb & E & H). exists tb. split; [exact E|].
  apply (H 0 0 1 2 combine_cache_0 combine_cache_0 0 [1] [2; 3] [0; 0] [4; 5]); [apply bytes_check; reflexivity..|reflexivity|lia|by left|by left|reflexivity|discriminate|discriminate].
Defined.
