(* ===== verification/Sds.v ===== *)
(** * Sds: the dynamic strings of sds.c and sds.h

    A string is a pointer into an allocation, behind a header of one of five
    types: the flags byte at [s[-1]], which names the type, and before it the
    allocated and the used length, each as wide as the type says.  Type 5 has
    the length in the flags byte and no free space.  C strings are lists of
    bytes, without their terminator. *)

From S2P Require Import Prelude Memory NumStr.

Definition SDS_MAX_PREALLOC : Z := 1024 * 1024.
Definition SDS_TYPE_5 : Z := 0.
Definition SDS_TYPE_8 : Z := 1.
Definition SDS_TYPE_16 : Z := 2.
Definition SDS_TYPE_32 : Z := 3.
Definition SDS_TYPE_64 : Z := 4.
Definition SDS_TYPE_MASK : Z := 7.
Definition SDS_TYPE_BITS : Z := 3.

(** [s] is [&sds_block[sds_pos]]. *)
Record sds := Build_sds { sds_block : list Z; sds_pos : Z }.

Definition s_get (s : sds) (i : Z) : outcome Z := rd (sds_block s) (sds_pos s + i).
Definition s_put (s : sds) (i b : Z) : outcome sds :=
  l ← wr (sds_block s) (sds_pos s + i) (u8 b); Ret (Build_sds l (sds_pos s)).
Definition s_read (s : sds) (i n : Z) : outcome (list Z) := rdn (sds_block s) (sds_pos s + i) n.
Definition s_write (s : sds) (i : Z) (bs : list Z) : outcome sds :=
  l ← wrn (sds_block s) (sds_pos s + i) bs; Ret (Build_sds l (sds_pos s)).

(** ** The header *)

(** [sizeof(uintT_t)] for the type. *)
Definition sds_width (type : Z) : nat :=
  if type =? SDS_TYPE_8 then 1%nat else if type =? SDS_TYPE_16 then 2%nat
  else if type =? SDS_TYPE_32 then 4%nat else 8%nat.

Definition sdsHdrSize (type : Z) : Z :=
  let t := Z.land type SDS_TYPE_MASK in
  if t =? SDS_TYPE_5 then 1 else if t =? SDS_TYPE_8 then 3 else if t =? SDS_TYPE_16 then 5
  else if t =? SDS_TYPE_32 then 9 else if t =? SDS_TYPE_64 then 17 else 0.

(** The types whose header has the fields [len] and [alloc]. *)
Definition has_fields (type : Z) : bool := (SDS_TYPE_8 <=? type) && (type <=? SDS_TYPE_64).

(** [SDS_HDR(T,s)->len] and [SDS_HDR(T,s)->alloc]; an assignment truncates. *)
Definition hdr_len (s : sds) (type : Z) : outcome Z :=
  bs ← s_read s (- sdsHdrSize type) (Z.of_nat (sds_width type)); Ret (le_value bs).
Definition hdr_alloc (s : sds) (type : Z) : outcome Z :=
  bs ← s_read s (- sdsHdrSize type + Z.of_nat (sds_width type)) (Z.of_nat (sds_width type)); Ret (le_value bs).
Definition set_hdr_len (s : sds) (type v : Z) : outcome sds :=
  s_write s (- sdsHdrSize type) (le_bytes (sds_width type) v).
Definition set_hdr_alloc (s : sds) (type v : Z) : outcome sds :=
  s_write s (- sdsHdrSize type + Z.of_nat (sds_width type)) (le_bytes (sds_width type) v).

Definition sdsType (s : sds) : outcome Z := flags ← s_get s (-1); Ret (Z.land flags SDS_TYPE_MASK).
Definition SDS_TYPE_5_LEN (s : sds) : outcome Z := flags ← s_get s (-1); Ret (Z.shiftr flags SDS_TYPE_BITS).

Definition sdsGetAuxBit (s : sds) (bit : Z) : outcome bool :=
  type ← sdsType s;
  if type =? SDS_TYPE_5 then Ret false else
  flags ← s_get s (-1);
  Ret (negb (Z.land flags (Z.shiftl 1 (SDS_TYPE_BITS + bit)) =? 0)).

Definition sdsSetAuxBit (s : sds) (bit : Z) (value : bool) : outcome sds :=
  type ← sdsType s;
  if type =? SDS_TYPE_5 then Ret s else
  flags ← s_get s (-1);
  if value then s_put s (-1) (Z.lor flags (Z.shiftl 1 (SDS_TYPE_BITS + bit)))
  else s_put s (-1) (Z.land flags (Z.lnot (Z.shiftl 1 (SDS_TYPE_BITS + bit)))).

Definition sdslen (s : sds) : outcome Z :=
  type ← sdsType s;
  if type =? SDS_TYPE_5 then SDS_TYPE_5_LEN s
  else if has_fields type then hdr_len s type else Ret 0.

(** [sh->alloc - sh->len] in the type of the fields. *)
Definition hdr_avail (type alloc len : Z) : Z :=
  if type =? SDS_TYPE_32 then u32 (alloc - len) else u64 (alloc - len).

Definition sdsavail (s : sds) : outcome Z :=
  type ← sdsType s;
  if type =? SDS_TYPE_5 then Ret 0
  else if has_fields type then
    alloc ← hdr_alloc s type; len ← hdr_len s type; Ret (hdr_avail type alloc len)
  else Ret 0.

Definition sdssetlen (s : sds) (newlen : Z) : outcome sds :=
  type ← sdsType s;
  if type =? SDS_TYPE_5 then s_put s (-1) (Z.lor SDS_TYPE_5 (Z.shiftl newlen SDS_TYPE_BITS))
  else if has_fields type then set_hdr_len s type newlen else Ret s.

Definition sdsinclen (s : sds) (inc : Z) : outcome sds :=
  type ← sdsType s;
  if type =? SDS_TYPE_5 then
    oldlen ← SDS_TYPE_5_LEN s;
    let newlen := u8 (oldlen + inc) in
    s_put s (-1) (Z.lor SDS_TYPE_5 (Z.shiftl newlen SDS_TYPE_BITS))
  else if has_fields type then len ← hdr_len s type; set_hdr_len s type (len + inc) else Ret s.

Definition sdsAllocSize (s : sds) : outcome Z :=
  type ← sdsType s;
  if type =? SDS_TYPE_5 then len ← SDS_TYPE_5_LEN s; Ret (sdsHdrSize type + len + 1)
  else if has_fields type then alloc ← hdr_alloc s type; Ret (u64 (sdsHdrSize type + alloc + 1)) else Ret 0.

Definition sdsalloc (s : sds) : outcome Z :=
  type ← sdsType s;
  if type =? SDS_TYPE_5 then SDS_TYPE_5_LEN s
  else if has_fields type then hdr_alloc s type else Ret 0.

Definition sdssetalloc (s : sds) (newlen : Z) : outcome sds :=
  type ← sdsType s;
  if type =? SDS_TYPE_5 then Ret s
  else if has_fields type then set_hdr_alloc s type newlen else Ret s.

Definition sdsReqSize (len type : Z) : Z := u64 (len + sdsHdrSize type + 1).

Definition sdsReqType (string_size : Z) : Z :=
  if string_size <? Z.shiftl 1 5 then SDS_TYPE_5
  else if string_size <=? Z.shiftl 1 8 - 3 - 1 then SDS_TYPE_8
  else if string_size <=? Z.shiftl 1 16 - 5 - 1 then SDS_TYPE_16
  else if string_size <=? Z.shiftl 1 32 - 9 - 1 then SDS_TYPE_32
  else SDS_TYPE_64.

Definition sdsTypeMaxSize (type : Z) : Z :=
  if type =? SDS_TYPE_5 then Z.shiftl 1 5 - 1
  else if type =? SDS_TYPE_8 then Z.shiftl 1 8 - 1
  else if type =? SDS_TYPE_16 then Z.shiftl 1 16 - 1
  else if type =? SDS_TYPE_32 then Z.shiftl 1 32 - 1
  else UINT64_MAX.

(** The type and header size, changed or not. *)
Definition adjustTypeIfNeeded (type hdrlen bufsize : Z) : Z * Z * bool :=
  let usable := u64 (bufsize - hdrlen - 1) in
  if negb (type =? SDS_TYPE_5) && (sdsTypeMaxSize type <? usable)
  then let type := sdsReqType usable in (type, sdsHdrSize type, true)
  else (type, hdrlen, false).

(** ** Creation *)

(** The [init] argument: NULL, [SDS_NOINIT], or bytes to copy. *)
Inductive sds_init := InitZero | SDS_NOINIT | InitFrom (t : list Z).

Definition sdsnewplacement (buf : list Z) (bufsize type : Z) (init : sds_init) (initlen : Z) : outcome sds :=
  _ ← c_assert (sdsReqSize initlen type <=? bufsize);
  let hdrlen := sdsHdrSize type in
  let usable := u64 (bufsize - hdrlen - 1) in
  let s := Build_sds buf hdrlen in
  s ← (if type =? SDS_TYPE_5 then s_put s (-1) (Z.lor type (Z.shiftl initlen SDS_TYPE_BITS))
       else if has_fields type then
         s ← set_hdr_len s type initlen; s ← set_hdr_alloc s type usable; s_put s (-1) type
       else Ret s);
  s ← (match init with
       | SDS_NOINIT => Ret s
       | InitZero => s_write s 0 (replicate (Z.to_nat initlen) 0)
       | InitFrom t => if negb (initlen =? 0) then bs ← rdn t 0 initlen; s_write s 0 bs else Ret s
       end);
  s_put s initlen 0.

Section alloc.
Context `{Allocator}.

(** [avail] is whether [s_trymalloc_usable] finds memory; the other allocation
    functions do not return when there is none. *)
Definition _sdsnewlen (init : sds_init) (initlen : Z) (trymalloc avail : bool) : outcome (option sds) :=
  let type := sdsReqType initlen in
  let type := if (type =? SDS_TYPE_5) && (initlen =? 0) then SDS_TYPE_8 else type in
  let hdrlen := sdsHdrSize type in
  let overflow := u64 (initlen + hdrlen + 1) <=? initlen in
  if trymalloc && overflow then Ret None else
  _ ← (if trymalloc then Ret tt else c_assert (negb overflow));
  if trymalloc && negb avail then Ret None else
  let sh := zmalloc (u64 (hdrlen + initlen + 1)) in
  let bufsize := Zlen sh in
  let '(type, hdrlen, _) := adjustTypeIfNeeded type hdrlen bufsize in
  s ← sdsnewplacement sh bufsize type init initlen; Ret (Some s).

Definition sdsnewlen (init : sds_init) (initlen : Z) : outcome sds :=
  s ← _sdsnewlen init initlen false true;
  match s with Some s => Ret s | None => OutOfBounds end.

Definition sdstrynewlen (init : sds_init) (initlen : Z) (avail : bool) : outcome (option sds) :=
  _sdsnewlen init initlen true avail.

Definition sdsempty : outcome sds := sdsnewlen (InitFrom []) 0.

(** [None] for NULL. *)
Definition sdsnew (init : option (list Z)) : outcome sds :=
  match init with
  | None => sdsnewlen InitZero 0
  | Some init => sdsnewlen (InitFrom init) (Zlen init)
  end.

(** The bytes a call copies from another sds. *)
Definition s_bytes (s : sds) : outcome (list Z) := len ← sdslen s; s_read s 0 len.

Definition sdsdup (s : sds) : outcome sds :=
  len ← sdslen s; bs ← s_read s 0 len; sdsnewlen (InitFrom bs) len.

Definition sdsfromlonglong (value : Z) : outcome sds :=
  '(buf, len) ← ll2string (replicate (Z.to_nat LONG_STR_SIZE) 0) LONG_STR_SIZE value;
  sdsnewlen (InitFrom buf) len.

(** ** Room *)

(** The block reallocated to [size] bytes under a header of type [type], and the
    string moved if the block turns out to need a wider header: the new pointer,
    the size of the block, the type and the size of the header. *)
Definition realloc_block (s : sds) (type hdrlen size len : Z) : outcome (sds * Z * Z * Z) :=
  let newsh := zrealloc (sds_block s) size in
  let bufsize := Zlen newsh in
  let '(type, hdrlen', adjusted) := adjustTypeIfNeeded type hdrlen bufsize in
  s ← (if adjusted : bool then
         l ← c_memmove newsh hdrlen' hdrlen (len + 1);
         s ← s_put (Build_sds l hdrlen') (-1) type;
         sdssetlen s len
       else Ret (Build_sds newsh hdrlen));
  Ret (s, bufsize, type, hdrlen').

(** The string copied to a new block. *)
Definition copy_block (s : sds) (type hdrlen size len : Z) : outcome (sds * Z * Z * Z) :=
  let newsh := zmalloc size in
  let bufsize := Zlen newsh in
  let '(type, hdrlen, _) := adjustTypeIfNeeded type hdrlen bufsize in
  bs ← s_read s 0 (len + 1);
  l ← wrn newsh hdrlen bs;
  s ← s_put (Build_sds l hdrlen) (-1) type;
  Ret (s, bufsize, type, hdrlen).

Definition _sdsMakeRoomFor (s : sds) (addlen : Z) (greedy : bool) : outcome sds :=
  avail ← sdsavail s;
  oldtype ← sdsType s;
  if addlen <=? avail then Ret s else
  len ← sdslen s;
  let reqlen := u64 (len + addlen) in
  _ ← c_assert (len <? reqlen);
  let newlen :=
    if greedy then if reqlen <? SDS_MAX_PREALLOC then u64 (reqlen * 2) else u64 (reqlen + SDS_MAX_PREALLOC)
    else reqlen in
  let type := sdsReqType newlen in
  let type := if type =? SDS_TYPE_5 then SDS_TYPE_8 else type in
  let hdrlen := sdsHdrSize type in
  let size := u64 (hdrlen + newlen + 1) in
  _ ← c_assert (reqlen <? size);
  '(s, bufsize, type, hdrlen) ← (
    if oldtype =? type then realloc_block s type hdrlen size len
    else
      '(s, bufsize, type, hdrlen) ← copy_block s type hdrlen size len;
      s ← sdssetlen s len;
      Ret (s, bufsize, type, hdrlen));
  let usable := u64 (bufsize - hdrlen - 1) in
  _ ← c_assert ((type =? SDS_TYPE_5) || (usable <=? sdsTypeMaxSize type));
  sdssetalloc s usable.

Definition sdsMakeRoomFor (s : sds) (addlen : Z) : outcome sds := _sdsMakeRoomFor s addlen true.
Definition sdsMakeRoomForNonGreedy (s : sds) (addlen : Z) : outcome sds := _sdsMakeRoomFor s addlen false.

(** [je_nallocx], in a build with jemalloc. *)
Variable je_nallocx : option (Z -> Z).

Definition sdsResize (s : sds) (size : Z) (would_regrow : bool) : outcome sds :=
  oldtype ← sdsType s;
  let oldhdrlen := sdsHdrSize oldtype in
  len ← sdslen s;
  alloc ← sdsalloc s;
  if alloc =? size then Ret s else
  let len := if size <? len then size else len in
  let type := sdsReqType size in
  let type := if would_regrow && (type =? SDS_TYPE_5) then SDS_TYPE_8 else type in
  let hdrlen := sdsHdrSize type in
  let use_realloc := (oldtype =? type) || ((type <? oldtype) && (SDS_TYPE_8 <? type)) in
  let newlen := if use_realloc then u64 (oldhdrlen + size + 1) else u64 (hdrlen + size + 1) in
  '(s, newsize) ← (
    if use_realloc then
      bufsize ← sdsAllocSize s;
      let alloc_already_optimal := match je_nallocx with Some f => f newlen =? bufsize | None => false end in
      if alloc_already_optimal then Ret (s, u64 (bufsize - oldhdrlen - 1)) else
      '(s, bufsize, _, oldhdrlen) ← realloc_block s oldtype oldhdrlen newlen len;
      Ret (s, u64 (bufsize - oldhdrlen - 1))
    else
      '(s, bufsize, _, hdrlen) ← copy_block s type hdrlen newlen len;
      Ret (s, u64 (bufsize - hdrlen - 1)));
  s ← s_put s len 0;
  s ← sdssetlen s len;
  sdssetalloc s newsize.

Definition sdsRemoveFreeSpace (s : sds) (would_regrow : bool) : outcome sds :=
  len ← sdslen s; sdsResize s len would_regrow.
End alloc.

(** ** Contents *)

(** [strlen] of what [s] points to. *)
Fixpoint c_strlen (fuel : nat) (l : list Z) (i : Z) : outcome Z :=
  match fuel with
  | O => OutOfFuel
  | S fuel => c ← rd l i; if c =? 0 then Ret 0 else n ← c_strlen fuel l (i + 1); Ret (1 + n)
  end.

Definition sdsupdatelen (s : sds) : outcome sds :=
  reallen ← c_strlen (S (length (sds_block s))) (sds_block s) (sds_pos s); sdssetlen s reallen.

Definition sdsclear (s : sds) : outcome sds := s ← sdssetlen s 0; s_put s 0 0.

(** [(unsigned int)(-incr)] and the like, by the type of the header. *)
Definition incr_ok (type alloc len incr : Z) : bool :=
  ((0 <=? incr) &&
     (if type =? SDS_TYPE_32 then u32 incr <=? u32 (alloc - len)
      else if type =? SDS_TYPE_64 then u64 incr <=? u64 (alloc - len) else incr <=? alloc - len)) ||
  ((incr <? 0) && ((if type =? SDS_TYPE_64 then u64 (- incr) else u32 (- incr)) <=? len)).

Definition sdsIncrLen (s : sds) (incr : Z) : outcome sds :=
  type ← sdsType s;
  '(s, len) ← (
    if type =? SDS_TYPE_5 then
      oldlen ← SDS_TYPE_5_LEN s;
      _ ← c_assert (((0 <? incr) && (oldlen + incr <? 32)) || ((incr <? 0) && (u32 (- incr) <=? oldlen)));
      s ← s_put s (-1) (Z.lor SDS_TYPE_5 (Z.shiftl (oldlen + incr) SDS_TYPE_BITS));
      Ret (s, u64 (oldlen + incr))
    else if has_fields type then
      alloc ← hdr_alloc s type; len ← hdr_len s type;
      _ ← c_assert (incr_ok type alloc len incr);
      s ← set_hdr_len s type (len + incr);
      len ← hdr_len s type; Ret (s, len)
    else Ret (s, 0));
  s_put s len 0.

Section alloc_contents.
Context `{Allocator}.

Definition sdsgrowzero (s : sds) (len : Z) : outcome sds :=
  curlen ← sdslen s;
  if len <=? curlen then Ret s else
  s ← sdsMakeRoomFor s (len - curlen);
  s ← s_write s curlen (replicate (Z.to_nat (len - curlen + 1)) 0);
  sdssetlen s len.

Definition sdscatlen (s : sds) (t : list Z) (len : Z) : outcome sds :=
  curlen ← sdslen s;
  s ← sdsMakeRoomFor s len;
  bs ← rdn t 0 len;
  s ← s_write s curlen bs;
  s ← sdssetlen s (u64 (curlen + len));
  s_put s (u64 (curlen + len)) 0.

Definition sdscat (s : sds) (t : list Z) : outcome sds := sdscatlen s t (Zlen t).

Definition sdscatsds (s t : sds) : outcome sds :=
  len ← sdslen t; bs ← s_read t 0 len; sdscatlen s bs len.

Definition sdscpylen (s : sds) (t : list Z) (len : Z) : outcome sds :=
  alloc ← sdsalloc s;
  s ← (if alloc <? len then curlen ← sdslen s; sdsMakeRoomFor s (u64 (len - curlen)) else Ret s);
  bs ← rdn t 0 len;
  s ← s_write s 0 bs;
  s ← s_put s len 0;
  sdssetlen s len.

Definition sdscpy (s : sds) (t : list Z) : outcome sds := sdscpylen s t (Zlen t).

(** ** Formatted text *)

(** [vsnprintf(buf, size, fmt, ap)], where [text] is what the format and its
    arguments stand for: at most [size] bytes are written, the terminator
    included, and the length of [text] is returned, or -1 when it is no int. *)
Definition vsnprintf (buf : list Z) (size : Z) (text : list Z) : outcome (list Z * Z) :=
  if 2 ^ 31 <=? Zlen text then Ret (buf, -1) else
  buf ← (if size =? 0 then Ret buf else wrn buf 0 (take (Z.to_nat (size - 1)) text ++ [0]));
  Ret (buf, Zlen text).

(** The loop of [sdscatvprintf]: the buffer with the whole text and its length,
    [None] when the call returns NULL. *)
Fixpoint printf_loop (fuel : nat) (buf : list Z) (buflen : Z) (text : list Z) : outcome (option (list Z * Z)) :=
  '(buf, bufstrlen) ← vsnprintf buf buflen text;
  if bufstrlen <? 0 then Ret None else
  if buflen <=? bufstrlen then
    match fuel with
    | O => OutOfFuel
    | S fuel => let buflen := bufstrlen + 1 in printf_loop fuel (zmalloc buflen) buflen text
    end
  else Ret (Some (buf, bufstrlen)).

(** The static buffer of 1024 bytes is uninitialised in the code. *)
Definition sdscatvprintf (s : sds) (fmt text : list Z) : outcome (option sds) :=
  let buflen := u64 (Zlen fmt * 2) in
  let '(buf, buflen) := if 1024 <? buflen then (zmalloc buflen, buflen) else (replicate 1024 0, 1024) in
  r ← printf_loop 1 buf buflen text;
  match r with
  | None => Ret None
  | Some (buf, bufstrlen) => t ← sdscatlen s buf bufstrlen; Ret (Some t)
  end.

Definition sdscatprintf (s : sds) (fmt text : list Z) : outcome (option sds) := sdscatvprintf s fmt text.

(** A caller that goes on with what [sdscatprintf] returned, as if it were no NULL. *)
Definition deref (s : option sds) : outcome sds := match s with Some s => Ret s | None => OutOfBounds end.
End alloc_contents.

(** [strchr(cset, c)] finds the terminator too. *)
Definition c_strchr (cset : list Z) (c : Z) : bool := bool_decide (c ∈ cset) || (c =? 0).

(** The two loops of [sdstrim], on offsets from [s]. *)
Fixpoint trim_left (fuel : nat) (s : sds) (cset : list Z) (sp end_ : Z) : outcome Z :=
  if sp <=? end_ then
    match fuel with
    | O => OutOfFuel
    | S fuel => c ← s_get s sp; if c_strchr cset c then trim_left fuel s cset (sp + 1) end_ else Ret sp
    end
  else Ret sp.

Fixpoint trim_right (fuel : nat) (s : sds) (cset : list Z) (sp ep : Z) : outcome Z :=
  if sp <? ep then
    match fuel with
    | O => OutOfFuel
    | S fuel => c ← s_get s ep; if c_strchr cset c then trim_right fuel s cset sp (ep - 1) else Ret ep
    end
  else Ret ep.

Definition s_memmove (s : sds) (dst src n : Z) : outcome sds := bs ← s_read s src n; s_write s dst bs.

Definition sdstrim (s : sds) (cset : list Z) : outcome sds :=
  len ← sdslen s;
  let end_ := len - 1 in
  sp ← trim_left (Z.to_nat len) s cset 0 end_;
  ep ← trim_right (Z.to_nat len) s cset sp end_;
  let len := ep - sp + 1 in
  s ← (if negb (sp =? 0) then s_memmove s 0 sp len else Ret s);
  s ← s_put s len 0;
  sdssetlen s len.

Definition sdssubstr (s : sds) (start len : Z) : outcome sds :=
  oldlen ← sdslen s;
  let '(start, len) := if oldlen <=? start then (0, 0) else (start, len) in
  let len := if oldlen - start <? len then oldlen - start else len in
  s ← (if negb (len =? 0) then s_memmove s 0 start len else Ret s);
  s ← s_put s len 0;
  sdssetlen s len.

Definition sdsrange (s : sds) (start end_ : Z) : outcome sds :=
  len ← sdslen s;
  if len =? 0 then Ret s else
  let start := if start <? 0 then s64 (len + start) else start in
  let end_ := if end_ <? 0 then s64 (len + end_) else end_ in
  let newlen := if end_ <? start then 0 else u64 (s64 (end_ - start + 1)) in
  sdssubstr s (u64 start) newlen.

(** In the C locale, on bytes. *)
Definition c_tolower (c : Z) : Z := if (65 <=? c) && (c <=? 90) then c + 32 else c.
Definition c_toupper (c : Z) : Z := if (97 <=? c) && (c <=? 122) then c - 32 else c.

(** [for (j = 0; j < len; j++) s[j] = f(s[j])]. *)
Fixpoint map_chars (n : nat) (s : sds) (f : Z -> Z) (j : Z) : outcome sds :=
  match n with O => Ret s | S n => c ← s_get s j; s ← s_put s j (f c); map_chars n s f (j + 1) end.

Definition sdstolower (s : sds) : outcome sds := len ← sdslen s; map_chars (Z.to_nat len) s c_tolower 0.
Definition sdstoupper (s : sds) : outcome sds := len ← sdslen s; map_chars (Z.to_nat len) s c_toupper 0.

(** The inner loop of [sdsmapchars] on one character; [from] and [to] have
    [setlen] characters. *)
Fixpoint map_char (from to : list Z) (c : Z) : Z :=
  match from, to with f :: from, t :: to => if c =? f then t else map_char from to c | _, _ => c end.
Definition sdsmapchars (s : sds) (from to : list Z) : outcome sds :=
  len ← sdslen s; map_chars (Z.to_nat len) s (map_char from to) 0.

(** [memcmp] of two blocks of the same length, as a difference of bytes. *)
Fixpoint c_memcmp (s1 s2 : list Z) : Z :=
  match s1, s2 with c1 :: s1, c2 :: s2 => if c1 =? c2 then c_memcmp s1 s2 else c1 - c2 | _, _ => 0 end.

Definition sdscmp (s1 s2 : sds) : outcome Z :=
  l1 ← sdslen s1; l2 ← sdslen s2;
  let minlen := if l1 <? l2 then l1 else l2 in
  b1 ← s_read s1 0 minlen; b2 ← s_read s2 0 minlen;
  let cmp := c_memcmp b1 b2 in
  if cmp =? 0 then Ret (if l2 <? l1 then 1 else if l1 <? l2 then -1 else 0) else Ret cmp.

Definition sdscmplen (s1 s2 : sds) : outcome Z :=
  l1 ← sdslen s1; l2 ← sdslen s2;
  if negb (l1 =? l2) then Ret (if l2 <? l1 then 1 else -1) else
  b1 ← s_read s1 0 l1; b2 ← s_read s2 0 l1; Ret (c_memcmp b1 b2).

(** ** Formatting *)

(** The variadic arguments, by the type [va_arg] reads. *)
Inductive fmt_arg := ArgStr (t : list Z) | ArgSds (t : sds) | ArgInt (n : Z) | ArgLongLong (n : Z)
| ArgUInt (n : Z) | ArgULongLong (n : Z).

(** A number printed into [char buf[LONG_STR_SIZE]], or a string: its bytes.
    An argument of another type is undefined behaviour. *)
Definition fmt_signed (num : Z) : outcome (list Z) :=
  '(buf, l) ← ll2string (replicate (Z.to_nat LONG_STR_SIZE) 0) LONG_STR_SIZE num; rdn buf 0 l.
Definition fmt_unsigned (unum : Z) : outcome (list Z) :=
  '(buf, l) ← ull2string (replicate (Z.to_nat LONG_STR_SIZE) 0) LONG_STR_SIZE unum; rdn buf 0 l.

Definition fmt_text (next : Z) (arg : fmt_arg) : outcome (list Z) :=
  if next =? 115 then match arg with ArgStr t => Ret t | _ => OutOfBounds end
  else if next =? 83 then match arg with ArgSds t => s_bytes t | _ => OutOfBounds end
  else if next =? 105 then match arg with ArgInt n => fmt_signed n | _ => OutOfBounds end
  else if next =? 73 then match arg with ArgLongLong n => fmt_signed n | _ => OutOfBounds end
  else if next =? 117 then match arg with ArgUInt n => fmt_unsigned n | _ => OutOfBounds end
  else match arg with ArgULongLong n => fmt_unsigned n | _ => OutOfBounds end.

Definition is_conversion (next : Z) : bool := bool_decide (next ∈ [115; 83; 105; 73; 117; 85]).

Section fmt.
Context `{Allocator}.

(** Write [bs] at [s+i], making room for it. *)
Definition fmt_write (s : sds) (i : Z) (bs : list Z) : outcome sds :=
  avail ← sdsavail s;
  s ← (if avail <? Zlen bs then sdsMakeRoomFor s (Zlen bs) else Ret s);
  s ← s_write s i bs;
  sdsinclen s (Zlen bs).

Definition fmt_char (s : sds) (i c : Z) : outcome sds := s ← s_put s i c; sdsinclen s 1.

(** The loop over the format: by recursion on it. *)
Fixpoint sdscatfmt_loop (f : list Z) (args : list fmt_arg) (s : sds) (i : Z) : outcome (sds * Z) :=
  match f with
  | [] => Ret (s, i)
  | c :: f =>
    avail ← sdsavail s;
    s ← (if avail =? 0 then sdsMakeRoomFor s 1 else Ret s);
    if c =? 37 then
      match f with
      | [] => Ret (s, i)
      | next :: f =>
        if is_conversion next then
          match args with
          | [] => OutOfBounds
          | arg :: args =>
            bs ← fmt_text next arg; s ← fmt_write s i bs; sdscatfmt_loop f args s (i + Zlen bs)
          end
        else s ← fmt_char s i next; sdscatfmt_loop f args s (i + 1)
      end
    else s ← fmt_char s i c; sdscatfmt_loop f args s (i + 1)
  end.

Definition sdscatfmt (s : sds) (fmt : list Z) (args : list fmt_arg) : outcome sds :=
  initlen ← sdslen s;
  s ← sdsMakeRoomFor s (Zlen fmt * 2);
  '(s, i) ← sdscatfmt_loop fmt args s initlen;
  s_put s i 0.
End fmt.
