(* ===== verification/SdsInv.v ===== *)
(** * SdsInv: the representation of dynamic strings

    A well-formed string ([sds_wf]) is a header, whose bytes are determined by
    the type, the two lengths and the flags, and then the bytes of the string,
    a zero and the free space.  The accessors of the header are equations on
    this form, the operations lemmas that end in it. *)

From S2P Require Import Prelude Memory NumStr Sds.

(** [s] with header [h]; the data starts at [s]. *)
Definition with_hdr (h data : list Z) : sds := Build_sds (h ++ data) (Zlen h).

Definition hdr_raw (type : Z) (len alloc : list Z) (fl : Z) : list Z :=
  if type =? SDS_TYPE_5 then [fl] else len ++ alloc ++ [fl].
Definition hdr_bytes (type len alloc fl : Z) : list Z :=
  hdr_raw type (le_bytes (sds_width type) len) (le_bytes (sds_width type) alloc) fl.

Record hdr_ok (type len alloc fl : Z) : Prop := {
  ok_type : SDS_TYPE_5 <= type <= SDS_TYPE_64;
  ok_flags : is_byte fl;
  ok_tag : Z.land fl SDS_TYPE_MASK = type;
  ok_len : 0 <= len <= alloc;
  ok_alloc : alloc <= sdsTypeMaxSize type;
  ok_five : type = SDS_TYPE_5 -> fl = 8 * len /\ alloc = len;
}.

(** A header with these lengths, and data that start with [pre]; [alloc] is what
    [sdsalloc] says: the bytes the string can grow to. *)
Definition sds_at (s : sds) (type alloc len : Z) (pre : list Z) : Prop :=
  exists fl data, s = with_hdr (hdr_bytes type len alloc fl) data /\ hdr_ok type len alloc fl /\
    pre `prefix_of` data /\ alloc + 1 <= Zlen data /\ sdsHdrSize type + Zlen data < 2 ^ 64.

Definition sds_wf (s : sds) (type alloc : Z) (bs : list Z) : Prop := sds_at s type alloc (Zlen bs) (bs ++ [0]).

Definition sds_rep (s : sds) (bs : list Z) : Prop := exists type alloc, sds_wf s type alloc bs.

Lemma rdn_head {A} (k m : list A) : rdn (k ++ m) 0 (Zlen k) = Ret k.
Proof. apply (rdn_app []). Qed.

Lemma wrn_head {A} (k k' m : list A) : length k = length k' -> wrn (k ++ m) 0 k' = Ret (k' ++ m).
Proof. apply (wrn_app []). Qed.

(** ** The types *)

(** The five types. *)
Ltac case_type type H :=
  let E := fresh in
  assert (type = 0 \/ type = 1 \/ type = 2 \/ type = 3 \/ type = 4) as E by (clear -H; unfold SDS_TYPE_5, SDS_TYPE_64 in H; lia);
  destruct E as [E|[E|[E|[E|E]]]]; subst type.

Lemma hdr_size_pos type : SDS_TYPE_5 <= type <= SDS_TYPE_64 -> 1 <= sdsHdrSize type <= 17.
Proof. intros Ht. case_type type Ht; cbv; split; congruence. Qed.

Lemma has_fields_spec type : SDS_TYPE_5 <= type <= SDS_TYPE_64 -> has_fields type = negb (type =? SDS_TYPE_5).
Proof. intros Ht. case_type type Ht; done. Qed.

Lemma max_size type : SDS_TYPE_5 < type <= SDS_TYPE_64 -> sdsTypeMaxSize type = 2 ^ (8 * Z.of_nat (sds_width type)) - 1.
Proof. intros Ht. assert (SDS_TYPE_5 <= type <= SDS_TYPE_64) as Ht' by lia. case_type type Ht'; first (clear Ht'; by destruct Ht); reflexivity. Qed.

Lemma max_lt type : SDS_TYPE_5 <= type <= SDS_TYPE_64 -> 31 <= sdsTypeMaxSize type < 2 ^ 64.
Proof. intros Ht. case_type type Ht; split; (reflexivity || discriminate). Qed.

(** The fields hold every length up to the maximum of the type. *)
Lemma field_value type v : SDS_TYPE_5 < type <= SDS_TYPE_64 -> 0 <= v <= sdsTypeMaxSize type ->
  le_value (le_bytes (sds_width type) v) = v.
Proof. intros Ht Hv. rewrite max_size in Hv by done. rewrite le_value_bytes. apply Z.mod_small. lia. Qed.

Lemma field_width type : SDS_TYPE_5 < type <= SDS_TYPE_64 -> sdsHdrSize type = 2 * Z.of_nat (sds_width type) + 1.
Proof. intros Ht. assert (SDS_TYPE_5 <= type <= SDS_TYPE_64) as Ht' by lia. case_type type Ht'; first (clear Ht'; by destruct Ht); reflexivity. Qed.

(** ** The header fields *)

Definition sized (type : Z) (l : list Z) : Prop := length l = sds_width type.

Lemma Zlen_hdr_raw type l1 l2 fl : SDS_TYPE_5 <= type <= SDS_TYPE_64 -> sized type l1 -> sized type l2 ->
  Zlen (hdr_raw type l1 l2 fl) = sdsHdrSize type.
Proof.
  unfold sized, hdr_raw. intros Ht H1 H2. destruct (Z.eqb_spec type SDS_TYPE_5) as [->|Hf]; [done|].
  rewrite field_width by lia. unfold Zlen. rewrite !length_app, H1, H2. cbn [length]. lia.
Qed.

Lemma sized_le type v : sized type (le_bytes (sds_width type) v).
Proof. apply length_le_bytes. Qed.

(** Every block of the size of a header is one. *)
Lemma hdr_raw_of type h : SDS_TYPE_5 <= type <= SDS_TYPE_64 -> Zlen h = sdsHdrSize type ->
  exists l1 l2 fl, h = hdr_raw type l1 l2 fl /\ sized type l1 /\ sized type l2.
Proof.
  intros Ht Hh. set (w := sds_width type). destruct (Z.eqb_spec type SDS_TYPE_5) as [->|Hf].
  { destruct h as [|x [|y h]]; [done| |]; [|rewrite !Zlen_cons in Hh; pose proof (Zlen_nonneg h); change (sdsHdrSize SDS_TYPE_5) with 1 in Hh; lia].
    exists (replicate 8 0), (replicate 8 0), x. done. }
  rewrite field_width in Hh by lia. fold w in Hh. unfold Zlen in Hh.
  destruct (drop (w + w) h) as [|x [|y r]] eqn:E; pose proof (f_equal length E) as El; rewrite length_drop in El; cbn [length] in El; [lia| |lia].
  exists (take w h), (take w (drop w h)), x. split_and!.
  - unfold hdr_raw. apply Z.eqb_neq in Hf. rewrite Hf. rewrite app_assoc, take_take_drop, <- E. by rewrite take_drop.
  - unfold sized. rewrite length_take. fold w. lia.
  - unfold sized. rewrite length_take, length_drop. fold w. lia.
Qed.

Section fields.
Context (type : Z) (l1 l2 : list Z) (fl : Z) (data : list Z) (Ht : SDS_TYPE_5 <= type <= SDS_TYPE_64).
Context (Hl1 : sized type l1) (Hl2 : sized type l2).
Abbreviation h := (hdr_raw type l1 l2 fl).

Lemma hdr_split : h = (if type =? SDS_TYPE_5 then [] else l1 ++ l2) ++ [fl].
Proof. unfold hdr_raw. destruct (type =? SDS_TYPE_5); [done|]. by rewrite app_assoc. Qed.

Lemma hdr_before : Zlen (if type =? SDS_TYPE_5 then [] else l1 ++ l2) = sdsHdrSize type - 1.
Proof. pose proof (Zlen_hdr_raw type l1 l2 fl Ht Hl1 Hl2) as H. rewrite hdr_split, Zlen_app in H. change (Zlen [fl]) with 1 in H. lia. Qed.

Lemma s_get_flags : s_get (with_hdr h data) (-1) = Ret fl.
Proof.
  unfold s_get, with_hdr. cbn [sds_block sds_pos]. rewrite Zlen_hdr_raw by done. rewrite hdr_split.
  rewrite <- app_assoc. apply (rd_mid _ [fl] _ _ 0); [done|]. rewrite hdr_before. lia.
Qed.

Lemma s_put_flags b : s_put (with_hdr h data) (-1) b = Ret (with_hdr (hdr_raw type l1 l2 (u8 b)) data).
Proof.
  unfold s_put, with_hdr. cbn [sds_block sds_pos]. rewrite !Zlen_hdr_raw by done.
  assert (0 <= Zlen data) by apply Zlen_nonneg. pose proof (hdr_size_pos type Ht).
  rewrite wr_ok by (rewrite Zlen_app, Zlen_hdr_raw by done; lia).
  rewrite ret_bind. do 2 f_equal. unfold hdr_raw. pose proof hdr_before as Hb.
  destruct (type =? SDS_TYPE_5).
  { change (Zlen []) with 0 in Hb. replace (Z.to_nat (sdsHdrSize type + -1)) with O by lia. done. }
  rewrite !app_assoc, <- !(app_assoc (l1 ++ l2)). unfold Zlen in Hb. rewrite insert_app_r_alt by lia.
  f_equal. replace (Z.to_nat (sdsHdrSize type + -1) - length (l1 ++ l2))%nat with O by lia. done.
Qed.

Lemma sdsType_hdr : Z.land fl SDS_TYPE_MASK = type -> sdsType (with_hdr h data) = Ret type.
Proof. intros Hf. unfold sdsType. rewrite s_get_flags, ret_bind. by rewrite Hf. Qed.

Hypothesis (Hf : type <> SDS_TYPE_5).
Lemma hdr_form l fl' : hdr_raw type l l2 fl' = l ++ l2 ++ [fl'].
Proof. clear -Hf. unfold hdr_raw. apply Z.eqb_neq in Hf. by rewrite Hf. Qed.

Lemma hdr_len_field v : l1 = le_bytes (sds_width type) v -> 0 <= v <= sdsTypeMaxSize type -> hdr_len (with_hdr h data) type = Ret v.
Proof.
  intros E Hl. unfold hdr_len, s_read, with_hdr. cbn [sds_block sds_pos]. rewrite Zlen_hdr_raw, hdr_form by done.
  replace (sdsHdrSize type + - sdsHdrSize type) with 0 by lia.
  rewrite <- Hl1, <- app_assoc. change (Z.of_nat (length l1)) with (Zlen l1). rewrite rdn_head. rewrite ret_bind. rewrite E, field_value; [done| |done]. lia.
Qed.

Lemma hdr_alloc_field v : l2 = le_bytes (sds_width type) v -> 0 <= v <= sdsTypeMaxSize type -> hdr_alloc (with_hdr h data) type = Ret v.
Proof.
  intros E Hl. unfold hdr_alloc, s_read, with_hdr. cbn [sds_block sds_pos]. rewrite Zlen_hdr_raw, hdr_form by done.
  replace (sdsHdrSize type + (- sdsHdrSize type + Z.of_nat (sds_width type))) with (Zlen l1) by (unfold Zlen; rewrite Hl1; lia).
  rewrite <- Hl2, <- !app_assoc. change (Z.of_nat (length l2)) with (Zlen l2). rewrite rdn_app. rewrite ret_bind. rewrite E, field_value; [done| |done]. lia.
Qed.

Lemma set_hdr_len_field v : set_hdr_len (with_hdr h data) type v = Ret (with_hdr (hdr_raw type (le_bytes (sds_width type) v) l2 fl) data).
Proof.
  unfold set_hdr_len, s_write, with_hdr. cbn [sds_block sds_pos]. rewrite !Zlen_hdr_raw, !hdr_form by (done || apply sized_le).
  replace (sdsHdrSize type + - sdsHdrSize type) with 0 by lia.
  rewrite <- !app_assoc, wrn_head by (by rewrite length_le_bytes). done.
Qed.

Lemma set_hdr_alloc_field v : set_hdr_alloc (with_hdr h data) type v = Ret (with_hdr (hdr_raw type l1 (le_bytes (sds_width type) v) fl) data).
Proof.
  unfold set_hdr_alloc, s_write, with_hdr. cbn [sds_block sds_pos]. rewrite !Zlen_hdr_raw, hdr_form by (done || apply sized_le).
  replace (sdsHdrSize type + (- sdsHdrSize type + Z.of_nat (sds_width type))) with (Zlen l1) by (unfold Zlen; rewrite Hl1; lia).
  rewrite <- !app_assoc, wrn_app by (by rewrite length_le_bytes). cbn [mbind outcome_bind].
  unfold hdr_raw. apply Z.eqb_neq in Hf. rewrite Hf. by rewrite <- !app_assoc.
Qed.
End fields.

Section accessors.
Context (type len alloc fl : Z) (data : list Z) (Hok : hdr_ok type len alloc fl).
Abbreviation s := (with_hdr (hdr_bytes type len alloc fl) data).

Lemma max_u64 : alloc < 2 ^ 64.
Proof. pose proof (max_lt type (ok_type _ _ _ _ Hok)). pose proof (ok_alloc _ _ _ _ Hok). lia. Qed.

Lemma sdsType_ok : sdsType s = Ret type.
Proof. apply sdsType_hdr; apply sized_le || apply Hok. Qed.

Lemma five_len : type = SDS_TYPE_5 -> SDS_TYPE_5_LEN s = Ret len.
Proof.
  intros E. unfold SDS_TYPE_5_LEN. unfold hdr_bytes. rewrite s_get_flags, ret_bind by (apply sized_le || apply Hok).
  destruct (ok_five _ _ _ _ Hok E) as [-> _]. rewrite shiftr_div by (unfold SDS_TYPE_BITS; lia).
  f_equal. unfold SDS_TYPE_BITS. change (2 ^ 3) with 8. dlia.
Qed.

Lemma sdslen_ok : sdslen s = Ret len.
Proof.
  unfold sdslen. rewrite sdsType_ok, ret_bind. destruct (Z.eqb_spec type SDS_TYPE_5); [by apply five_len|].
  rewrite has_fields_spec by apply Hok. destruct (Z.eqb_spec type SDS_TYPE_5) as [|Hne]; [done|]. cbn [negb].
  apply hdr_len_field; (apply sized_le || done || apply Hok || idtac). destruct Hok. lia.
Qed.

Lemma sdsalloc_ok : sdsalloc s = Ret alloc.
Proof.
  unfold sdsalloc. rewrite sdsType_ok, ret_bind. destruct (Z.eqb_spec type SDS_TYPE_5) as [E|].
  { rewrite (five_len E). destruct (ok_five _ _ _ _ Hok E) as [_ ->]. done. }
  rewrite has_fields_spec by apply Hok. destruct (Z.eqb_spec type SDS_TYPE_5) as [|Hne]; [done|]. cbn [negb].
  apply hdr_alloc_field; (apply sized_le || done || apply Hok || idtac). destruct Hok. lia.
Qed.

Lemma hdr_avail_ok : hdr_avail type alloc len = alloc - len.
Proof.
  pose proof max_u64. unfold hdr_avail. destruct Hok as [Ht _ _ Hl Ha _]. clear Hok.
  destruct (Z.eqb_spec type SDS_TYPE_32) as [->|]; [change (sdsTypeMaxSize SDS_TYPE_32) with (2 ^ 32 - 1) in Ha|]; apply wrapu_id; lia.
Qed.

Lemma sdsavail_ok : sdsavail s = Ret (alloc - len).
Proof.
  unfold sdsavail. rewrite sdsType_ok, ret_bind. destruct (Z.eqb_spec type SDS_TYPE_5) as [E|].
  { destruct (ok_five _ _ _ _ Hok E) as [_ Ea]. f_equal. lia. }
  rewrite has_fields_spec by apply Hok. destruct (Z.eqb_spec type SDS_TYPE_5) as [|Hne]; [done|]. cbn [negb].
  unfold hdr_bytes. rewrite (hdr_alloc_field _ _ _ _ _ (ok_type _ _ _ _ Hok) (sized_le _ _) (sized_le _ _) Hne alloc), ret_bind by (done || destruct Hok; lia).
  unfold hdr_bytes. rewrite (hdr_len_field _ _ _ _ _ (ok_type _ _ _ _ Hok) (sized_le _ _) (sized_le _ _) Hne len), ret_bind by (done || destruct Hok; lia). by rewrite hdr_avail_ok.
Qed.

Lemma sdsAllocSize_ok : sdsHdrSize type + alloc + 1 < 2 ^ 64 -> sdsAllocSize s = Ret (sdsHdrSize type + alloc + 1).
Proof.
  intros Hb. unfold sdsAllocSize. rewrite sdsType_ok, ret_bind. destruct (Z.eqb_spec type SDS_TYPE_5) as [E|].
  { rewrite (five_len E), ret_bind. destruct (ok_five _ _ _ _ Hok E) as [_ ->]. done. }
  rewrite has_fields_spec by apply Hok. destruct (Z.eqb_spec type SDS_TYPE_5) as [|Hne]; [done|]. cbn [negb].
  unfold hdr_bytes. rewrite (hdr_alloc_field _ _ _ _ _ (ok_type _ _ _ _ Hok) (sized_le _ _) (sized_le _ _) Hne alloc), ret_bind by (done || destruct Hok; lia). f_equal. apply wrapu_id.
  pose proof (hdr_size_pos type (ok_type _ _ _ _ Hok)). destruct Hok. lia.
Qed.

(** The flags byte of type 5 has the length. *)
Lemma sdssetlen_ok n : sdssetlen s n =
  Ret (with_hdr (hdr_bytes type n alloc (if type =? SDS_TYPE_5 then u8 (8 * n) else fl)) data).
Proof.
  unfold sdssetlen. rewrite sdsType_ok, ret_bind. destruct (Z.eqb_spec type SDS_TYPE_5) as [E|].
  { unfold hdr_bytes. rewrite s_put_flags by (apply sized_le || apply Hok). unfold hdr_raw. rewrite E. cbn [Z.eqb]. do 4 f_equal.
    unfold SDS_TYPE_5, SDS_TYPE_BITS. rewrite Z.shiftl_mul_pow2 by lia. change (2 ^ 3) with 8. rewrite Z.lor_0_l. lia. }
  rewrite has_fields_spec by apply Hok. destruct (Z.eqb_spec type SDS_TYPE_5) as [|Hne]; [done|]. cbn [negb].
  apply set_hdr_len_field; apply sized_le || apply Hok || done.
Qed.

Lemma sdsinclen_ok n : type <> SDS_TYPE_5 -> sdsinclen s n = Ret (with_hdr (hdr_bytes type (len + n) alloc fl) data).
Proof.
  intros Hn. unfold sdsinclen. rewrite sdsType_ok, ret_bind. destruct (Z.eqb_spec type SDS_TYPE_5); [done|].
  rewrite has_fields_spec by apply Hok. destruct (Z.eqb_spec type SDS_TYPE_5) as [|Hne]; [done|]. cbn [negb].
  unfold hdr_bytes. rewrite (hdr_len_field _ _ _ _ _ (ok_type _ _ _ _ Hok) (sized_le _ _) (sized_le _ _) Hne len), ret_bind by (done || destruct Hok; lia).
  apply set_hdr_len_field; apply sized_le || apply Hok || done.
Qed.

Lemma sdssetalloc_ok a : sdssetalloc s a =
  Ret (with_hdr (hdr_bytes type len (if type =? SDS_TYPE_5 then alloc else a) fl) data).
Proof.
  unfold sdssetalloc. rewrite sdsType_ok, ret_bind. destruct (Z.eqb_spec type SDS_TYPE_5) as [E|]; [done|].
  rewrite has_fields_spec by apply Hok. destruct (Z.eqb_spec type SDS_TYPE_5) as [|Hne]; [done|]. cbn [negb].
  apply set_hdr_alloc_field; apply sized_le || apply Hok || done.
Qed.
End accessors.

(** ** The data *)

Section data.
Context (h data : list Z).
Implicit Types (i n : Z) (bs pre xs : list Z).

Lemma s_read_data i n : 0 <= i -> s_read (with_hdr h data) i n = rdn data i n.
Proof. intros Hi. unfold s_read, with_hdr. cbn [sds_block sds_pos]. by apply rdn_app_off. Qed.

Lemma s_get_data i : 0 <= i -> s_get (with_hdr h data) i = rd data i.
Proof. intros Hi. unfold s_get, with_hdr. cbn [sds_block sds_pos]. by apply rd_app_off. Qed.

Lemma s_write_data i bs : 0 <= i -> i + Zlen bs <= Zlen data ->
  exists data', s_write (with_hdr h data) i bs = Ret (with_hdr h data') /\ wrn data i bs = Ret data'.
Proof.
  intros Hi Hb. unfold s_write, with_hdr. cbn [sds_block sds_pos]. pose proof (Zlen_nonneg h). pose proof (Zlen_nonneg bs).
  rewrite !wrn_ok by (rewrite ?Zlen_app; lia). rewrite ret_bind. eexists. split; [|done]. do 2 f_equal. unfold Zlen in *.
  rewrite take_app_ge by lia. rewrite drop_app_ge by lia. rewrite <- app_assoc. do 3 f_equal; [f_equal; lia|f_equal; lia].
Qed.

Lemma s_put_data i b : 0 <= i < Zlen data ->
  s_put (with_hdr h data) i b = Ret (with_hdr h (<[Z.to_nat i := u8 b]> data)).
Proof.
  intros Hi. unfold s_put, with_hdr. cbn [sds_block sds_pos]. pose proof (Zlen_nonneg h).
  rewrite wr_ok by (rewrite Zlen_app; lia). rewrite ret_bind. do 2 f_equal. unfold Zlen in *.
  rewrite insert_app_r_alt by lia. do 2 f_equal. lia.
Qed.

Lemma prefix_read bs : bs `prefix_of` data -> rdn data 0 (Zlen bs) = Ret bs.
Proof. intros [r ->]. apply rdn_head. Qed.

Lemma prefix_Zlen bs : bs `prefix_of` data -> Zlen bs <= Zlen data.
Proof. intros [r ->]. rewrite Zlen_app. pose proof (Zlen_nonneg r). lia. Qed.

(** Write behind what is known of the data. *)
Lemma write_prefix pre xs : pre `prefix_of` data -> Zlen pre + Zlen xs <= Zlen data ->
  exists data', s_write (with_hdr h data) (Zlen pre) xs = Ret (with_hdr h data') /\ Zlen data' = Zlen data /\
    (pre ++ xs) `prefix_of` data'.
Proof.
  intros Hpre Hl. destruct (s_write_data (Zlen pre) xs) as (data' & E & Hw); [apply Zlen_nonneg|done|].
  exists data'. split; [done|]. pose proof (wrn_length _ _ _ _ Hw). split; [unfold Zlen; lia|].
  rewrite wrn_ok in Hw by (done || apply Zlen_nonneg). injection Hw as <-. rewrite app_assoc. exists (drop (Z.to_nat (Zlen pre + Zlen xs)) data).
  f_equal. f_equal. destruct Hpre as [r ->]. unfold Zlen. rewrite Nat2Z.id. by rewrite take_app_length.
Qed.

Lemma put_prefix pre b : pre `prefix_of` data -> Zlen pre < Zlen data -> is_byte b ->
  exists data', s_put (with_hdr h data) (Zlen pre) b = Ret (with_hdr h data') /\ Zlen data' = Zlen data /\
    (pre ++ [b]) `prefix_of` data'.
Proof.
  intros Hpre Hl Hb. rewrite s_put_data by (pose proof (Zlen_nonneg pre); lia). destruct Hpre as [r Er]. eexists. split; [done|].
  split; [apply Zlen_insert|]. unfold Zlen in *. rewrite Nat2Z.id. rewrite Er in Hl |- *. rewrite length_app in Hl. destruct r as [|x r]; [cbn in Hl; lia|].
  rewrite insert_app_r_alt, Nat.sub_diag by lia. cbn. rewrite (wrapu_id 8 b) by (unfold is_byte in Hb; lia).
  exists r. by rewrite <- app_assoc.
Qed.
End data.

Lemma prefix_trim (bs xs data : list Z) : (bs ++ xs) `prefix_of` data -> bs `prefix_of` data.
Proof. intros [r ->]. exists (xs ++ r). by rewrite app_assoc. Qed.

(** ** Headers set as a whole *)

Definition five_flags (type n fl : Z) : Z := if type =? SDS_TYPE_5 then u8 (8 * n) else fl.
Definition five_alloc (type n alloc : Z) : Z := if type =? SDS_TYPE_5 then n else alloc.

Lemma hdr_bytes_five type n alloc fl : hdr_bytes type n alloc fl = hdr_bytes type n (five_alloc type n alloc) fl.
Proof. unfold hdr_bytes, hdr_raw, five_alloc. by destruct (type =? SDS_TYPE_5). Qed.

Lemma five_max n : n <= sdsTypeMaxSize SDS_TYPE_5 -> n < 32.
Proof. change (sdsTypeMaxSize SDS_TYPE_5) with 31. lia. Qed.

Lemma hdr_ok_setlen type len alloc fl n : hdr_ok type len alloc fl -> 0 <= n <= alloc ->
  hdr_ok type n (five_alloc type n alloc) (five_flags type n fl).
Proof.
  intros [Ht Hf Htag Hl Ha H5] Hn. unfold five_alloc, five_flags. destruct (Z.eqb_spec type SDS_TYPE_5) as [->|]; [|by split].
  pose proof (five_max _ Ha). assert (u8 (8 * n) = 8 * n) as E by (apply wrapu_id; lia). rewrite E. split; try lia.
  - unfold is_byte. lia.
  - unfold SDS_TYPE_MASK. change 7 with (Z.ones 3). rewrite Z.land_ones by lia. change (2 ^ 3) with 8. unfold SDS_TYPE_5. dlia.
Qed.

(** The end of an operation: a terminator and the length, in either order. *)
Lemma set_contents type len alloc fl data bs : hdr_ok type len alloc fl -> bs `prefix_of` data -> Zlen bs <= alloc ->
  alloc + 1 <= Zlen data -> sdsHdrSize type + Zlen data < 2 ^ 64 ->
  let s := with_hdr (hdr_bytes type len alloc fl) data in
  exists s', (s ← s_put s (Zlen bs) 0; sdssetlen s (Zlen bs)) = Ret s' /\
    (s ← sdssetlen s (Zlen bs); s_put s (Zlen bs) 0) = Ret s' /\
    sds_wf s' type (five_alloc type (Zlen bs) alloc) bs.
Proof.
  intros Hok Hbs Hl Ha Hb s. pose proof (Zlen_nonneg bs).
  destruct (put_prefix (hdr_bytes type len alloc fl) data bs 0) as (data' & E & Hd & Hp); [done|lia|unfold is_byte; lia|].
  destruct (put_prefix (hdr_bytes type (Zlen bs) alloc (five_flags type (Zlen bs) fl)) data bs 0) as (data'' & E' & Hd' & Hp'); [done|lia|unfold is_byte; lia|].
  assert (data'' = data') as ->.
  { rewrite s_put_data in E, E' by lia. unfold with_hdr in E, E'. injection E as E. injection E' as E'. apply app_inv_head in E, E'. by subst. }
  eexists. split; [|split].
  - unfold s. rewrite E, ret_bind. by apply sdssetlen_ok.
  - unfold s. rewrite (sdssetlen_ok _ _ _ _ _ Hok), ret_bind. exact E'.
  - exists (five_flags type (Zlen bs) fl), data'. split_and!; [by rewrite <- hdr_bytes_five|by apply hdr_ok_setlen with len|done| |lia].
    unfold five_alloc. destruct (type =? SDS_TYPE_5); lia.
Qed.

Lemma tag_flags type : SDS_TYPE_5 <= type <= SDS_TYPE_64 -> u8 type = type /\ Z.land type SDS_TYPE_MASK = type /\ is_byte type.
Proof. intros Ht. unfold is_byte. case_type type Ht; repeat split; vm_compute; congruence. Qed.

(** A header written over a block of unknown bytes. *)
Lemma init_header type n a h data : SDS_TYPE_5 <= type <= SDS_TYPE_64 -> Zlen h = sdsHdrSize type ->
  0 <= n <= a -> a <= sdsTypeMaxSize type -> exists fl h1,
  (s ← s_put (with_hdr h data) (-1) type; sdssetlen s n) = Ret (with_hdr h1 data) /\ sdsType (with_hdr h1 data) = Ret type /\
  (forall a', (type <> SDS_TYPE_5 -> a' = a) ->
    sdssetalloc (with_hdr h1 data) a' = Ret (with_hdr (hdr_bytes type n (five_alloc type n a) fl) data)) /\
  hdr_ok type n (five_alloc type n a) fl.
Proof.
  intros Ht Hh Hn Ha. destruct (hdr_raw_of type h Ht Hh) as (l1 & l2 & fl0 & -> & Hl1 & Hl2).
  destruct (tag_flags type Ht) as (Hu & Htag & Hb).
  rewrite s_put_flags, ret_bind, Hu by done. unfold sdssetlen. rewrite (sdsType_hdr _ _ _ _ _ Ht Hl1 Hl2 Htag), ret_bind.
  unfold five_alloc. destruct (Z.eqb_spec type SDS_TYPE_5) as [->|Hne].
  - unfold hdr_raw, sdssetalloc. cbn [Z.eqb SDS_TYPE_5].
    assert (u8 (Z.lor 0 (Z.shiftl n SDS_TYPE_BITS)) = 8 * n) as E.
    { rewrite Z.lor_0_l, Z.shiftl_mul_pow2 by (unfold SDS_TYPE_BITS; lia). change (2 ^ SDS_TYPE_BITS) with 8.
      pose proof (five_max _ Ha). rewrite wrapu_id; lia. }
    assert (hdr_ok SDS_TYPE_5 n n (8 * n)) as Hok.
    { assert (hdr_ok SDS_TYPE_5 0 0 0) as H0 by (split; unfold is_byte; cbn; try lia; done).
      pose proof (five_max _ Ha). split; try lia; [unfold is_byte; lia|].
      unfold SDS_TYPE_MASK. change 7 with (Z.ones 3). rewrite Z.land_ones by lia. change (2 ^ 3) with 8. unfold SDS_TYPE_5. dlia. }
    pose proof (sdsType_ok SDS_TYPE_5 n n (8 * n) data Hok) as Hty.
    exists (8 * n), [8 * n]. split_and!; [|exact Hty| |done].
    + change ([SDS_TYPE_5]) with (hdr_raw SDS_TYPE_5 l1 l2 SDS_TYPE_5).
      rewrite s_put_flags by done. unfold SDS_TYPE_5 in E |- *. rewrite E. done.
    + change (with_hdr [8 * n] data) with (with_hdr (hdr_bytes SDS_TYPE_5 n n (8 * n)) data).
      intros a' _. rewrite Hty, ret_bind. done.
  - rewrite has_fields_spec by done. destruct (Z.eqb_spec type SDS_TYPE_5); [done|]. cbn [negb].
    rewrite set_hdr_len_field by done.
    exists type, (hdr_raw type (le_bytes (sds_width type) n) l2 type).
    assert (sdsType (with_hdr (hdr_raw type (le_bytes (sds_width type) n) l2 type) data) = Ret type) as Hty
      by (apply sdsType_hdr; [done|apply sized_le|done|done]).
    split_and!; [done|done| |].
    + intros a' Ha'. rewrite Ha' by done. unfold sdssetalloc. rewrite Hty, ret_bind. destruct (Z.eqb_spec type SDS_TYPE_5); [done|].
      rewrite has_fields_spec by done. destruct (Z.eqb_spec type SDS_TYPE_5); [done|]. cbn [negb].
      apply set_hdr_alloc_field; [done|apply sized_le|done|done].
    + by split.
Qed.

(** ** Choosing a type *)

Definition req_range (type n : Z) : Prop :=
  type = 0 /\ n < 32 \/ type = 1 /\ 32 <= n <= 252 \/ type = 2 /\ 252 < n <= 65530 \/
  type = 3 /\ 65530 < n <= 2 ^ 32 - 10 \/ type = 4 /\ 2 ^ 32 - 10 < n.

Lemma sdsReqType_spec n : req_range (sdsReqType n) n.
Proof.
  unfold sdsReqType, req_range. change (Z.shiftl 1 5) with 32. change (Z.shiftl 1 8) with 256. change (Z.shiftl 1 16) with 65536.
  change (Z.shiftl 1 32) with (2 ^ 32). unfold SDS_TYPE_5, SDS_TYPE_8, SDS_TYPE_16, SDS_TYPE_32, SDS_TYPE_64.
  destruct (Z.ltb_spec n 32); [lia|]. destruct (Z.leb_spec n (256 - 3 - 1)); [lia|].
  destruct (Z.leb_spec n (65536 - 5 - 1)); [lia|]. destruct (Z.leb_spec n (2 ^ 32 - 9 - 1)); lia.
Qed.

(** What the code relies on when it takes [type] for [len] bytes: room for the
    header in the range of the type. *)
Definition holds (type len : Z) : Prop :=
  SDS_TYPE_5 <= type <= SDS_TYPE_64 /\ 0 <= len < 2 ^ 63 /\
  len + (if type =? SDS_TYPE_5 then 0 else sdsHdrSize type) <= sdsTypeMaxSize type.

Ltac type_values := change (sdsHdrSize 0) with 1 in *; change (sdsHdrSize 1) with 3 in *; change (sdsHdrSize 2) with 5 in *;
  change (sdsHdrSize 3) with 9 in *; change (sdsHdrSize 4) with 17 in *; change (sdsTypeMaxSize 0) with 31 in *;
  change (sdsTypeMaxSize 1) with 255 in *; change (sdsTypeMaxSize 2) with 65535 in *;
  change (sdsTypeMaxSize 3) with (2 ^ 32 - 1) in *; change (sdsTypeMaxSize 4) with (2 ^ 64 - 1) in *;
  unfold SDS_TYPE_5, SDS_TYPE_8, SDS_TYPE_16, SDS_TYPE_32, SDS_TYPE_64 in *; cbn [Z.eqb Pos.eqb negb andb] in *.

Lemma holds_req n len type : 0 <= len <= n -> n < 2 ^ 63 -> sdsReqType n <= type <= SDS_TYPE_64 -> holds type len.
Proof.
  intros Hl Hn Ht. pose proof (sdsReqType_spec n) as H. unfold holds. set (t := sdsReqType n) in *. clearbody t.
  assert (SDS_TYPE_5 <= type <= SDS_TYPE_64) as Hr by (unfold req_range in H; type_values; lia). split; [done|]. split; [lia|].
  unfold req_range in H. case_type type Hr; type_values; lia.
Qed.

Lemma adjust_spec type len bufsize : holds type len -> sdsHdrSize type + len + 1 <= bufsize < 2 ^ 64 ->
  exists type' adjusted, adjustTypeIfNeeded type (sdsHdrSize type) bufsize = (type', sdsHdrSize type', adjusted) /\
    (adjusted = false -> type' = type) /\ SDS_TYPE_5 <= type' <= SDS_TYPE_64 /\ type <= type' /\
    (type = SDS_TYPE_5 -> type' = SDS_TYPE_5) /\
    sdsHdrSize type' + len + 1 <= bufsize /\ (type <> SDS_TYPE_5 -> bufsize - sdsHdrSize type' - 1 <= sdsTypeMaxSize type').
Proof.
  intros (Ht & Hl & Hmax) Hb. unfold adjustTypeIfNeeded. pose proof (hdr_size_pos type Ht).
  assert (u64 (bufsize - sdsHdrSize type - 1) = bufsize - sdsHdrSize type - 1) as -> by (apply wrapu_id; lia).
  set (usable := bufsize - sdsHdrSize type - 1).
  destruct (negb (type =? SDS_TYPE_5) && (sdsTypeMaxSize type <? usable)) eqn:E.
  - apply andb_true_iff in E as [E1 E2]. apply Z.ltb_lt in E2. apply negb_true_iff, Z.eqb_neq in E1.
    exists (sdsReqType usable), true. pose proof (sdsReqType_spec usable) as Hu. set (t := sdsReqType usable) in *. clearbody t.
    apply Z.eqb_neq in E1. rewrite E1 in Hmax. apply Z.eqb_neq in E1. unfold req_range in Hu. unfold usable in *.
    split; [done|]. split; [done|].
    destruct Hu as [[-> ?]|[[-> ?]|[[-> ?]|[[-> ?]|[-> ?]]]]]; case_type type Ht; type_values; lia.
  - exists type, false. apply andb_false_iff in E. repeat split; try lia; try done.
Qed.

(** ** Creation *)

(** Sizes of blocks are [size_t]. *)
Class AllocFits `{Allocator} : Prop := {
  zmalloc_fits : forall n, 0 <= n < 2 ^ 63 -> Zlen (zmalloc n) < 2 ^ 64;
  zrealloc_fits : forall b n, 0 <= n < 2 ^ 63 -> Zlen (zrealloc b n) < 2 ^ 64;
}.

#[global] Instance exact_fits : @AllocFits exact_allocator.
Proof.
  split; [intros n Hn|intros b n Hn]; unfold zmalloc, zrealloc, exact_allocator, Zlen;
    rewrite ?length_app, ?length_take, ?length_replicate; lia.
Qed.

Section alloc.
Context `{AllocFits}.

(** A block is a header of any type it has room for, and the data. *)
Lemma block_split type (b : list Z) : SDS_TYPE_5 <= type <= SDS_TYPE_64 -> sdsHdrSize type <= Zlen b ->
  exists h data, b = h ++ data /\ Zlen h = sdsHdrSize type /\ Zlen data = Zlen b - sdsHdrSize type.
Proof.
  intros Ht Hl. pose proof (hdr_size_pos type Ht). exists (take (Z.to_nat (sdsHdrSize type)) b), (drop (Z.to_nat (sdsHdrSize type)) b).
  split; [by rewrite take_drop|]. split; [by rewrite Zlen_take by lia|by rewrite Zlen_drop by lia].
Qed.

Lemma with_hdr_intro h data p : Zlen h = p -> Build_sds (h ++ data) p = with_hdr h data.
Proof. by intros <-. Qed.

Definition init_bytes (init : sds_init) (initlen : Z) (bs : list Z) : Prop :=
  match init with
  | InitZero => bs = replicate (Z.to_nat initlen) 0
  | SDS_NOINIT => Zlen bs = initlen
  | InitFrom t => initlen <= Zlen t /\ bs = take (Z.to_nat initlen) t
  end.

Lemma Ret_inj {A} (x y : A) : Ret x = Ret y -> x = y.
Proof. congruence. Qed.

Lemma placement_header type initlen h data : SDS_TYPE_5 <= type <= SDS_TYPE_64 -> Zlen h = sdsHdrSize type ->
  forall usable, 0 <= initlen <= usable -> usable <= sdsTypeMaxSize type ->
  exists fl, hdr_ok type initlen (five_alloc type initlen usable) fl /\
    (if type =? SDS_TYPE_5 then s_put (with_hdr h data) (-1) (Z.lor type (Z.shiftl initlen SDS_TYPE_BITS))
     else if has_fields type then
       s ← set_hdr_len (with_hdr h data) type initlen; s ← set_hdr_alloc s type usable; s_put s (-1) type
     else Ret (with_hdr h data)) = Ret (with_hdr (hdr_bytes type initlen (five_alloc type initlen usable) fl) data).
Proof.
  intros Ht Hh usable Hi Hu. destruct (init_header type initlen usable h data Ht Hh Hi Hu) as (fl & h1 & H1 & Hty & H2' & Hok).
  pose proof (H2' usable (fun _ => eq_refl)) as H2. clear H2'. exists fl. split; [done|]. rewrite has_fields_spec by done. destruct (hdr_raw_of type h Ht Hh) as (l1 & l2 & fl0 & -> & Hl1 & Hl2).
  destruct (tag_flags type Ht) as (Hu8 & Htag & _). rewrite s_put_flags, ret_bind in H1 by done.
  unfold sdssetlen in H1. rewrite (sdsType_hdr _ _ _ _ _ Ht Hl1 Hl2) in H1 by (by rewrite Hu8). rewrite ret_bind in H1.
  rewrite has_fields_spec in H1 by done. unfold sdssetalloc in H2. rewrite Hty, ret_bind, has_fields_spec in H2 by done.
  destruct (Z.eqb_spec type SDS_TYPE_5) as [->|Hne]; cbn [negb] in *.
  - rewrite <- H2, <- H1, !s_put_flags by done. done.
  - rewrite set_hdr_len_field in H1 |- * by done. rewrite ret_bind, <- H2. apply Ret_inj in H1. rewrite <- H1.
    rewrite !set_hdr_alloc_field by (done || apply sized_le). rewrite ret_bind, s_put_flags by (done || apply sized_le). by rewrite Hu8.
Qed.

Lemma newplacement_spec buf type init initlen : SDS_TYPE_5 <= type <= SDS_TYPE_64 -> 0 <= initlen < 2 ^ 63 ->
  sdsHdrSize type + initlen + 1 <= Zlen buf < 2 ^ 64 ->
  (if type =? SDS_TYPE_5 then initlen else Zlen buf - sdsHdrSize type - 1) <= sdsTypeMaxSize type ->
  match init with InitFrom t => initlen <= Zlen t | _ => True end ->
  exists s bs, sdsnewplacement buf (Zlen buf) type init initlen = Ret s /\ Zlen bs = initlen /\ init_bytes init initlen bs /\
    sds_wf s type (five_alloc type initlen (Zlen buf - sdsHdrSize type - 1)) bs.
Proof.
  intros Ht Hi Hb Hmax Hinit. pose proof (hdr_size_pos type Ht). unfold sdsnewplacement, sdsReqSize.
  assert (u64 (initlen + sdsHdrSize type + 1) = initlen + sdsHdrSize type + 1) as -> by (apply wrapu_id; lia).
  destruct (Z.leb_spec (initlen + sdsHdrSize type + 1) (Zlen buf)); [|lia]. cbn [c_assert]. rewrite ret_bind.
  assert (u64 (Zlen buf - sdsHdrSize type - 1) = Zlen buf - sdsHdrSize type - 1) as -> by (apply wrapu_id; lia).
  set (usable := Zlen buf - sdsHdrSize type - 1) in *.
  destruct (block_split type buf Ht) as (h & data & Ebuf & Hh & Hd); [lia|].
  rewrite Ebuf, with_hdr_intro by done.
  set (u := if type =? SDS_TYPE_5 then initlen else usable).
  assert (0 <= initlen <= u) as Hu by (unfold u, usable; destruct (type =? SDS_TYPE_5); lia).
  destruct (placement_header type initlen h data Ht Hh u Hu Hmax) as (fl & Hok & E).
  assert (five_alloc type initlen u = five_alloc type initlen usable) as Eu by (unfold five_alloc, u; by destruct (type =? SDS_TYPE_5)).
  rewrite Eu in *.
  assert (forall X, (if type =? SDS_TYPE_5 then X else if has_fields type then
      s ← set_hdr_len (with_hdr h data) type initlen; s ← set_hdr_alloc s type usable; s_put s (-1) type else Ret (with_hdr h data)) =
    (if type =? SDS_TYPE_5 then X else if has_fields type then
      s ← set_hdr_len (with_hdr h data) type initlen; s ← set_hdr_alloc s type u; s_put s (-1) type else Ret (with_hdr h data))) as Ex.
  { intros X. unfold u. by destruct (type =? SDS_TYPE_5). }
  rewrite Ex, E, ret_bind. clear E Ex. set (hb := hdr_bytes type initlen _ fl).
  assert (exists bs data1, (match init with
       | SDS_NOINIT => Ret (with_hdr hb data)
       | InitZero => s_write (with_hdr hb data) 0 (replicate (Z.to_nat initlen) 0)
       | InitFrom t => if negb (initlen =? 0) then bs ← rdn t 0 initlen; s_write (with_hdr hb data) 0 bs else Ret (with_hdr hb data)
       end) = Ret (with_hdr hb data1) /\ Zlen data1 = Zlen data /\ bs `prefix_of` data1 /\ Zlen bs = initlen /\ init_bytes init initlen bs)
    as (bs & data1 & -> & Hd1 & Hp & Hbs & Hib).
  { assert (forall bs, Zlen bs = initlen -> exists data1, s_write (with_hdr hb data) 0 bs = Ret (with_hdr hb data1) /\ Zlen data1 = Zlen data /\ bs `prefix_of` data1) as Hw.
    { intros bs Hbs. destruct (write_prefix hb data [] bs) as (data1 & E1 & E2 & E3); [by exists data|unfold Zlen at 1; cbn [length]; unfold usable in *; lia|].
      exists data1. done. }
    destruct init as [| |t].
    - assert (Zlen (replicate (Z.to_nat initlen) 0) = initlen) as Hr by (unfold Zlen; rewrite length_replicate; lia).
      destruct (Hw _ Hr) as (data1 & ? & ? & ?). eexists _, data1. done.
    - exists (take (Z.to_nat initlen) data), data. split; [done|]. split; [done|].
      split; [exists (drop (Z.to_nat initlen) data); by rewrite take_drop|]. split; apply Zlen_take; unfold usable in *; lia.
    - assert (Zlen (take (Z.to_nat initlen) t) = initlen) as Hr by (apply Zlen_take; lia).
      destruct (Z.eqb_spec initlen 0) as [E0|E0]; cbn [negb].
      + exists [], data. split; [done|]. split; [done|]. split; [by exists data|]. split; [done|]. cbn [init_bytes]. by rewrite E0 in *.
      + destruct (Hw _ Hr) as (data1 & ? & ? & ?). exists (take (Z.to_nat initlen) t), data1.
        rewrite rdn_ok, ret_bind by lia. cbn [Z.to_nat drop]. done. }
  rewrite ret_bind. subst initlen. destruct (put_prefix hb data1 bs 0) as (data2 & -> & Hd2 & Hp2); [done|unfold usable in *; lia|unfold is_byte; lia|].
  eexists _, bs. split; [done|]. split; [done|]. split; [done|].
  exists fl, data2. split_and!; [done|done|done| |lia]. unfold five_alloc, usable. destruct (type =? SDS_TYPE_5); lia.
Qed.

Lemma _sdsnewlen_spec init initlen try avail : 0 <= initlen < 2 ^ 62 ->
  match init with InitFrom t => initlen <= Zlen t | _ => True end ->
  (try = true -> avail = true) ->
  exists s bs, _sdsnewlen init initlen try avail = Ret (Some s) /\ Zlen bs = initlen /\ init_bytes init initlen bs /\ sds_rep s bs.
Proof.
  intros Hi Hinit Htry. unfold _sdsnewlen.
  set (type := if (sdsReqType initlen =? SDS_TYPE_5) && (initlen =? 0) then SDS_TYPE_8 else sdsReqType initlen).
  assert (holds type initlen) as Hh.
  { pose proof (sdsReqType_spec initlen) as Hr. apply (holds_req initlen); [lia|lia|]. unfold type. destruct ((_ =? _) && _) eqn:E.
    - apply andb_true_iff in E as [E _]. apply Z.eqb_eq in E. rewrite E. unfold SDS_TYPE_5, SDS_TYPE_8, SDS_TYPE_64. lia.
    - unfold req_range, SDS_TYPE_64 in *. lia. }
  pose proof Hh as (Ht & Hl & Hm). pose proof (hdr_size_pos type Ht).
  assert (u64 (initlen + sdsHdrSize type + 1) = initlen + sdsHdrSize type + 1) as -> by (apply wrapu_id; lia).
  assert (u64 (sdsHdrSize type + initlen + 1) = sdsHdrSize type + initlen + 1) as -> by (apply wrapu_id; lia).
  destruct (Z.leb_spec (initlen + sdsHdrSize type + 1) initlen); [lia|]. rewrite andb_false_r.
  cbn [negb c_assert]. assert ((if try then Ret tt else Ret tt) = Ret tt) as -> by (by destruct try). rewrite ret_bind.
  assert ((try && negb avail) = false) as -> by (destruct try; [by rewrite Htry by done|done]).
  set (n := sdsHdrSize type + initlen + 1). pose proof (zmalloc_size_ge n). pose proof (zmalloc_fits n).
  destruct (adjust_spec type initlen (Zlen (zmalloc n)) Hh) as (type' & adj & -> & _ & Ht' & Hle & H5 & Hroom & Hmax); [unfold n in *; lia|].
  destruct (newplacement_spec (zmalloc n) type' init initlen) as (s & bs & -> & Hbs & Hib & Hwf); [done|lia|unfold n in *; lia| |done|].
  { destruct (Z.eqb_spec type' SDS_TYPE_5) as [E|E]; [|apply Hmax; intros E'; by apply E, H5].
    assert (type = SDS_TYPE_5) as E' by (unfold SDS_TYPE_5 in *; lia). rewrite E' in Hm. rewrite E. cbn [Z.eqb SDS_TYPE_5] in Hm. lia. }
  exists s, bs. split; [done|]. split; [done|]. split; [done|]. by eexists _, _.
Qed.

Lemma sdsnewlen_spec init initlen : 0 <= initlen < 2 ^ 62 -> match init with InitFrom t => initlen <= Zlen t | _ => True end ->
  exists s bs, sdsnewlen init initlen = Ret s /\ Zlen bs = initlen /\ init_bytes init initlen bs /\ sds_rep s bs.
Proof.
  intros Hi Hinit. destruct (_sdsnewlen_spec init initlen false true Hi Hinit) as (s & bs & E & H'); [done|].
  exists s, bs. unfold sdsnewlen. by rewrite E.
Qed.

Lemma sdsnewlen_from t : Zlen t < 2 ^ 62 -> exists s, sdsnewlen (InitFrom t) (Zlen t) = Ret s /\ sds_rep s t.
Proof.
  intros Ht. destruct (sdsnewlen_spec (InitFrom t) (Zlen t)) as (s & bs & E & _ & [_ Hb] & Hr); [pose proof (Zlen_nonneg t); lia|done|].
  exists s. split; [done|]. unfold Zlen in Hb. rewrite Nat2Z.id, take_ge in Hb by done. by subst.
Qed.
End alloc.

(** ** Room *)

Section room.
Context `{AllocFits}.

Lemma block_data (h data newsh : list Z) n (k : nat) pre : pre `prefix_of` data -> take k newsh = take k (h ++ data) ->
  k = (length h + length pre)%nat -> Zlen h + Zlen pre <= Zlen newsh -> Zlen newsh = n ->
  exists data', newsh = h ++ data' /\ pre `prefix_of` data' /\ Zlen data' = n - Zlen h.
Proof.
  intros [r ->] E -> Hl <-. exists (pre ++ drop (length h + length pre) newsh).
  assert (newsh = h ++ pre ++ drop (length h + length pre) newsh) as E'.
  { rewrite <- (take_drop (length h + length pre) newsh) at 1. rewrite E, app_assoc.
    rewrite take_app_ge by (rewrite length_app; lia). rewrite length_app, Nat.sub_diag, firstn_O, app_nil_r. by rewrite <- app_assoc. }
  split; [done|]. split; [by eexists|]. rewrite E' at 2. rewrite !Zlen_app. lia.
Qed.

(** The string copied behind a header of another size. *)
Lemma copy_behind (l : list Z) type pre bufsize : SDS_TYPE_5 <= type <= SDS_TYPE_64 -> Zlen l = bufsize ->
  sdsHdrSize type + Zlen pre <= bufsize ->
  exists h data, wrn l (sdsHdrSize type) pre = Ret (h ++ data) /\ Zlen h = sdsHdrSize type /\ pre `prefix_of` data /\
    Zlen data = bufsize - sdsHdrSize type.
Proof.
  intros Ht <- Hl. pose proof (hdr_size_pos type Ht). rewrite wrn_ok by lia.
  exists (take (Z.to_nat (sdsHdrSize type)) l), (pre ++ drop (Z.to_nat (sdsHdrSize type + Zlen pre)) l).
  pose proof (Zlen_nonneg pre). rewrite Zlen_app, Zlen_take, Zlen_drop by lia. split_and!; [done|done|by eexists|lia].
Qed.

Lemma at_read s type alloc len pre : sds_at s type alloc len pre -> s_read s 0 (Zlen pre) = Ret pre.
Proof. intros (fl & data & -> & _ & Hp & _). rewrite s_read_data by lia. by apply prefix_read. Qed.

Lemma at_facts s type alloc len pre : sds_at s type alloc len pre ->
  sdsType s = Ret type /\ sdslen s = Ret len /\ sdsalloc s = Ret alloc /\ sdsavail s = Ret (alloc - len) /\
  sdsAllocSize s = Ret (sdsHdrSize type + alloc + 1) /\ sds_pos s = sdsHdrSize type /\ 0 <= len <= alloc /\
  SDS_TYPE_5 <= type <= SDS_TYPE_64 /\ alloc <= sdsTypeMaxSize type.
Proof.
  intros (fl & data & -> & Hok & _ & Hd & Hb). split_and!; try apply Hok.
  - by apply (sdsType_ok _ _ _ _ _ Hok).
  - by apply (sdslen_ok _ _ _ _ _ Hok).
  - by apply (sdsalloc_ok _ _ _ _ _ Hok).
  - by apply (sdsavail_ok _ _ _ _ _ Hok).
  - apply (sdsAllocSize_ok _ _ _ _ _ Hok). lia.
  - apply Zlen_hdr_raw; [apply Hok|apply sized_le|apply sized_le].
Qed.

(** A block reallocated with the header and the string at its start. *)
Lemma realloc_at s type alloc len pre n : sds_at s type alloc len pre -> sdsHdrSize type + Zlen pre <= n < 2 ^ 63 -> Zlen pre <= alloc + 1 ->
  exists data fl, let h := hdr_bytes type len alloc fl in zrealloc (sds_block s) n = h ++ data /\ pre `prefix_of` data /\ Zlen h = sdsHdrSize type /\
    hdr_ok type len alloc fl /\ Zlen data = Zlen (zrealloc (sds_block s) n) - sdsHdrSize type /\ n <= Zlen (zrealloc (sds_block s) n) < 2 ^ 64.
Proof.
  intros (fl & data & -> & Hok & Hp & Hd & Hb) Hn Hpre. cbn [sds_block with_hdr]. set (h := hdr_bytes type len alloc fl).
  assert (Zlen h = sdsHdrSize type) as Hh by (apply Zlen_hdr_raw; [apply Hok|apply sized_le|apply sized_le]).
  pose proof (zrealloc_size_ge (h ++ data) n). pose proof (Zlen_nonneg pre). pose proof (Zlen_nonneg h).
  assert (Zlen (zrealloc (h ++ data) n) < 2 ^ 64) by (apply zrealloc_fits; lia).
  destruct (block_data h data (zrealloc (h ++ data) n) (Zlen (zrealloc (h ++ data) n)) (length h + length pre) pre) as (data' & E1 & E2 & E3);
    [done| |done|lia|done|].
  { apply zrealloc_prefix; unfold Zlen in *; rewrite ?length_app; lia. }
  exists data', fl. cbv zeta. fold h. split_and!; try done; lia.
Qed.

Definition room (s s' : sds) (type alloc len : Z) (pre : list Z) (addlen : Z) : Prop :=
  exists type' alloc', sds_at s' type' alloc' len pre /\ len + addlen <= alloc' /\
    (s' = s /\ type' = type /\ alloc' = alloc \/ SDS_TYPE_5 < type').

(** The string in its new block, all of the header set but [alloc]. *)
Definition rehousing (type len : Z) (pre : list Z) (bufsize : Z) (s1 : sds) : Prop :=
  exists s2, sdssetalloc s1 (bufsize - sdsHdrSize type - 1) = Ret s2 /\
    sds_at s2 type (five_alloc type len (bufsize - sdsHdrSize type - 1)) len pre.

Definition good_buf (type need bufsize : Z) : Prop :=
  SDS_TYPE_5 <= type <= SDS_TYPE_64 /\ sdsHdrSize type + need + 1 <= bufsize < 2 ^ 64 /\
  (if type =? SDS_TYPE_5 then need else bufsize - sdsHdrSize type - 1) <= sdsTypeMaxSize type.

Lemma good_buf_usable type need bufsize : 0 <= need -> good_buf type need bufsize ->
  u64 (bufsize - sdsHdrSize type - 1) = bufsize - sdsHdrSize type - 1.
Proof. intros Hn (Ht & Hb & _). pose proof (hdr_size_pos type Ht). apply wrapu_id. lia. Qed.

Lemma adjust_good type need bufsize : holds type need -> sdsHdrSize type + need + 1 <= bufsize < 2 ^ 64 ->
  exists type' adjusted, adjustTypeIfNeeded type (sdsHdrSize type) bufsize = (type', sdsHdrSize type', adjusted) /\
    (adjusted = false -> type' = type) /\ (type = SDS_TYPE_5 <-> type' = SDS_TYPE_5) /\ good_buf type' need bufsize.
Proof.
  intros Hh Hb. destruct (adjust_spec type need bufsize Hh Hb) as (type' & adj & E & Hadj & Ht' & Hle & H5 & Hroom & Hmax).
  exists type', adj. destruct Hh as (Ht & _ & Hm).
  assert (type = SDS_TYPE_5 <-> type' = SDS_TYPE_5) as Hiff by (split; [done|]; unfold SDS_TYPE_5 in *; lia).
  split; [done|]. split; [done|]. split; [done|]. split; [done|]. split; [lia|]. destruct (Z.eqb_spec type' SDS_TYPE_5) as [E'|E'].
  - assert (type = SDS_TYPE_5) as E5 by (by apply Hiff). rewrite E5 in Hm. rewrite E'. cbn [Z.eqb SDS_TYPE_5] in Hm. lia.
  - apply Hmax. intros E5. by apply E', Hiff.
Qed.

(** The three ways to a new block, from the moment the type is known. *)
Lemma rehouse_realloc s type alloc len pre n : sds_at s type alloc len pre -> Zlen pre = len + 1 ->
  sdsHdrSize type + Zlen pre <= n < 2 ^ 63 -> good_buf type len (Zlen (zrealloc (sds_block s) n)) ->
  rehousing type len pre (Zlen (zrealloc (sds_block s) n)) (Build_sds (zrealloc (sds_block s) n) (sdsHdrSize type)).
Proof.
  intros Hat Hpre Hn (Ht & Hb & Hm). pose proof (at_facts _ _ _ _ _ Hat) as (_ & _ & _ & _ & _ & _ & Hl & _).
  destruct (realloc_at s type alloc len pre n Hat Hn) as (data & fl & E & Hp & Hh & Hok & Hd & _); [lia|]. cbv zeta in E, Hh.
  unfold rehousing. set (bufsize := Zlen (zrealloc (sds_block s) n)) in *. rewrite E, with_hdr_intro by done.
  rewrite (sdssetalloc_ok _ _ _ _ _ Hok). eexists. split; [done|]. destruct Hok as [_ Hf Htag Hl2 Ha H5].
  exists fl, data. unfold five_alloc. pose proof (hdr_size_pos type Ht). split; [|split; [split|split; [done|split]]]; try done.
  - unfold hdr_bytes, hdr_raw. destruct (type =? SDS_TYPE_5); done.
  - destruct (Z.eqb_spec type SDS_TYPE_5); lia.
  - destruct (Z.eqb_spec type SDS_TYPE_5) as [->|]; [|lia]. destruct (H5 eq_refl). lia.
  - destruct (Z.eqb_spec type SDS_TYPE_5); lia.
  - lia.
Qed.

Lemma rehouse_copy l type len pre : Zlen pre = len + 1 -> 0 <= len -> good_buf type len (Zlen l) ->
  exists h data s1, wrn l (sdsHdrSize type) pre = Ret (h ++ data) /\
    (s ← s_put (Build_sds (h ++ data) (sdsHdrSize type)) (-1) type; sdssetlen s len) = Ret s1 /\
    rehousing type len pre (Zlen l) s1.
Proof.
  intros Hpre Hl (Ht & Hb & Hm). destruct (copy_behind l type pre (Zlen l) Ht) as (h & data & E & Hh & Hp & Hd); [done|lia|].
  pose proof (hdr_size_pos type Ht). set (a := if type =? SDS_TYPE_5 then len else Zlen l - sdsHdrSize type - 1) in *.
  assert (len <= a) by (unfold a; destruct (type =? SDS_TYPE_5); lia).
  destruct (init_header type len a h data Ht Hh) as (fl & h1 & Hset1 & _ & Hset2 & Hok); [lia|done|].
  assert (five_alloc type len a = five_alloc type len (Zlen l - sdsHdrSize type - 1)) as Ea by (unfold five_alloc, a; by destruct (type =? SDS_TYPE_5)).
  rewrite Ea in Hset2, Hok. exists h, data. eexists. split; [done|]. rewrite with_hdr_intro by done. split; [exact Hset1|].
  eexists. split.
  { apply Hset2. unfold a. destruct (Z.eqb_spec type SDS_TYPE_5); [|done]. by intros []. }
  exists fl, data. split_and!; [done|done|done| |lia]. unfold five_alloc. destruct (type =? SDS_TYPE_5); lia.
Qed.


Lemma realloc_block_spec s type alloc len pre size need : sds_at s type alloc len pre -> Zlen pre = len + 1 -> holds type need -> len <= need ->
  sdsHdrSize type + need + 1 <= size < 2 ^ 63 ->
  exists s1 bufsize type', realloc_block s type (sdsHdrSize type) size len = Ret (s1, bufsize, type', sdsHdrSize type') /\
    (type = SDS_TYPE_5 <-> type' = SDS_TYPE_5) /\ good_buf type' need bufsize /\ rehousing type' len pre bufsize s1.
Proof.
  intros Hat Hpre Hh Hneed Hn. pose proof (at_facts _ _ _ _ _ Hat) as (_ & _ & _ & _ & _ & _ & Hl & _).
  destruct (realloc_at s type alloc len pre size Hat) as (data & fl & E & Hp & Hh' & Hok & Hd & Hz); [lia|lia|]. cbv zeta in E, Hh'.
  unfold realloc_block. cbv zeta.
  destruct (adjust_good type need (Zlen (zrealloc (sds_block s) size)) Hh) as (t' & adj & -> & Hadj & H5 & Hgood); [lia|].
  pose proof Hgood as (Ht' & Hb & Hm). assert (good_buf t' len (Zlen (zrealloc (sds_block s) size))) as Hgood'.
  { split; [done|]. split; [lia|]. destruct (t' =? SDS_TYPE_5); lia. }
  destruct adj.
  - destruct (rehouse_copy (zrealloc (sds_block s) size) t' len pre Hpre) as (h & d & s1 & Hw & Hset & Hre); [lia|done|].
    exists s1, (Zlen (zrealloc (sds_block s) size)), t'. split; [|done].
    assert (c_memmove (zrealloc (sds_block s) size) (sdsHdrSize t') (sdsHdrSize type) (len + 1) = Ret (h ++ d)) as ->.
    { unfold c_memmove. rewrite <- Hpre, <- Hh', <- (Z.add_0_r (Zlen (hdr_bytes _ _ _ _))), <- Hw, E, rdn_app_off by lia.
      by rewrite (prefix_read _ _ Hp), ret_bind. }
    rewrite ret_bind, Hset. done.
  - rewrite ret_bind. rewrite (Hadj eq_refl) in *. eexists _, _, type. split; [done|]. split; [done|]. split; [done|].
    apply (rehouse_realloc _ _ alloc); try done. lia.
Qed.

Lemma copy_block_spec s oldtype alloc len0 len pre0 pre type size need : sds_at s oldtype alloc len0 pre0 -> pre `prefix_of` pre0 ->
  Zlen pre = len + 1 -> 0 <= len <= need -> holds type need -> sdsHdrSize type + need + 1 <= size < 2 ^ 63 ->
  exists s0 s1 bufsize type', copy_block s type (sdsHdrSize type) size len = Ret (s0, bufsize, type', sdsHdrSize type') /\
    sdssetlen s0 len = Ret s1 /\
    (type = SDS_TYPE_5 <-> type' = SDS_TYPE_5) /\ good_buf type' need bufsize /\ rehousing type' len pre bufsize s1.
Proof.
  intros Hat Hpp Hpre Hneed Hh Hn. unfold copy_block. cbv zeta. pose proof (zmalloc_size_ge size). pose proof (zmalloc_fits size).
  destruct Hh as (Ht & Hh1) eqn:Hhh. clear Hhh. pose proof (hdr_size_pos type Ht).
  destruct (adjust_good type need (Zlen (zmalloc size))) as (t' & adj & -> & _ & H5 & Hgood); [done|lia|].
  pose proof Hgood as (Ht' & Hb & Hm).
  destruct (rehouse_copy (zmalloc size) t' len pre Hpre) as (h & d & s1 & Hw & Hset & Hre); [lia| |].
  { split; [done|]. split; [lia|]. destruct (t' =? SDS_TYPE_5); lia. }
  apply bind_Ret in Hset as (s0 & Hput & Hset). exists s0, s1, (Zlen (zmalloc size)), t'. split; [|done].
  assert (s_read s 0 (len + 1) = Ret pre) as ->.
  { rewrite <- Hpre. destruct Hpp as [r ->]. destruct Hat as (fl & data & -> & _ & Hp & _). rewrite s_read_data by lia.
    apply prefix_read. by apply prefix_trim in Hp. }
  rewrite ret_bind, Hw, ret_bind, Hput. done.
Qed.

(** The room left: the same string, or a type with free space. *)
Definition roomy (s s' : sds) (len : Z) (pre : list Z) (addlen : Z) : Prop :=
  exists type' alloc', sds_at s' type' alloc' len pre /\ len + addlen <= alloc' /\ (s' = s \/ SDS_TYPE_5 < type').

Lemma room_type newlen : 0 <= newlen < 2 ^ 63 ->
  let type := if sdsReqType newlen =? SDS_TYPE_5 then SDS_TYPE_8 else sdsReqType newlen in
  holds type newlen /\ SDS_TYPE_5 < type.
Proof.
  intros Hn type. pose proof (sdsReqType_spec newlen) as Hr. unfold type, req_range in *.
  split; [apply (holds_req newlen); [lia|lia|]|]; destruct (Z.eqb_spec (sdsReqType newlen) SDS_TYPE_5) as [E|]; type_values; lia.
Qed.

(** The sizes [_sdsMakeRoomFor] works with, when nothing overflows. *)
Lemma room_sizes len addlen (greedy : bool) : 0 <= len -> 0 < addlen -> len + addlen < 2 ^ 61 ->
  let reqlen := u64 (len + addlen) in
  let newlen := if greedy then if reqlen <? SDS_MAX_PREALLOC then u64 (reqlen * 2) else u64 (reqlen + SDS_MAX_PREALLOC) else reqlen in
  let type := if sdsReqType newlen =? SDS_TYPE_5 then SDS_TYPE_8 else sdsReqType newlen in
  let size := u64 (sdsHdrSize type + newlen + 1) in
  reqlen = len + addlen /\ reqlen <= newlen < 2 ^ 62 /\ size = sdsHdrSize type + newlen + 1 /\ holds type newlen /\ SDS_TYPE_5 < type /\ reqlen < size < 2 ^ 63.
Proof.
  intros Hl Ha Hbig reqlen newlen type size.
  assert (reqlen = len + addlen) as E by (apply wrapu_id; lia).
  assert (reqlen <= newlen < 2 ^ 62) as Hnew.
  { unfold newlen, SDS_MAX_PREALLOC. rewrite E. clearbody reqlen. destruct greedy; [|lia].
    destruct (Z.ltb_spec (len + addlen) (1024 * 1024)); rewrite wrapu_id by lia; lia. }
  destruct (room_type newlen) as [Hh Hne]; [lia|]. fold type in Hh, Hne. pose proof Hh as (Ht & _). pose proof (hdr_size_pos type Ht).
  assert (size = sdsHdrSize type + newlen + 1) as Es by (apply wrapu_id; lia).
  split_and!; try done; lia.
Qed.

Lemma _sdsMakeRoomFor_spec s type alloc len pre addlen greedy : sds_at s type alloc len pre -> Zlen pre = len + 1 ->
  0 <= addlen -> len + addlen < 2 ^ 61 -> exists s', _sdsMakeRoomFor s addlen greedy = Ret s' /\ roomy s s' len pre addlen.
Proof.
  intros Hat Hpre Hadd Hbig. pose proof (at_facts _ _ _ _ _ Hat) as (Hty & Hlen & _ & Hav & _ & Hpos & Hl & Ht & _).
  unfold _sdsMakeRoomFor. rewrite Hav, Hty, !ret_bind. destruct (Z.leb_spec addlen (alloc - len)).
  { exists s. split; [done|]. exists type, alloc. split; [done|]. split; [lia|by left]. }
  rewrite Hlen, ret_bind. destruct (room_sizes len addlen greedy) as (Hreq & Hnew & Hsize & Hh & Hne & Hsz); [lia|lia|done|]. cbv zeta.
  set (reqlen := u64 (len + addlen)) in *. set (newlen := if greedy then _ else _) in *.
  set (t := if _ =? SDS_TYPE_5 then SDS_TYPE_8 else _) in *. set (size := u64 (_ + _ + 1)) in *.
  clearbody size. clearbody t. clearbody newlen. clearbody reqlen. subst reqlen.
  destruct (Z.ltb_spec len (len + addlen)); [|lia]. destruct (Z.ltb_spec (len + addlen) size); [|lia]. cbn [c_assert]. rewrite !ret_bind.
  assert (exists s1 bufsize t', (if type =? t then realloc_block s t (sdsHdrSize t) size len
    else '(s, bufsize, type, hdrlen) ← copy_block s t (sdsHdrSize t) size len; s ← sdssetlen s len; Ret (s, bufsize, type, hdrlen)) =
      Ret (s1, bufsize, t', sdsHdrSize t') /\
    (t = SDS_TYPE_5 <-> t' = SDS_TYPE_5) /\ good_buf t' newlen bufsize /\ rehousing t' len pre bufsize s1)
    as (s1 & bufsize & t' & -> & H5 & Hgood & (s2 & E2 & Hat2)).
  { destruct (Z.eqb_spec type t) as [->|].
    - apply (realloc_block_spec _ _ alloc); try done; lia.
    - destruct (copy_block_spec s type alloc len len pre pre t size newlen) as (s0 & s1 & bufsize & t' & -> & Hset & Hrest); try done; [lia..|].
      exists s1, bufsize, t'. rewrite ret_bind, Hset. done. }
  rewrite ret_bind, (good_buf_usable t' newlen) by (done || lia). destruct Hgood as (Ht' & Hb & Hm).
  assert (t' <> SDS_TYPE_5) as Hne' by (rewrite <- H5; unfold SDS_TYPE_5 in *; lia).
  apply Z.eqb_neq in Hne'. unfold five_alloc in Hat2. rewrite Hne' in *. destruct (Z.leb_spec (bufsize - sdsHdrSize t' - 1) (sdsTypeMaxSize t')); [|lia].
  cbn [orb c_assert]. rewrite ret_bind. exists s2. split; [done|]. apply Z.eqb_neq in Hne'.
  do 2 eexists. split; [exact Hat2|]. split; [lia|right; unfold SDS_TYPE_5 in *; lia].
Qed.
End room.

(** ** Resizing *)

(** A header whose type is set, and a block that starts with [pre]. *)
Definition tagged (s : sds) (type : Z) (pre : list Z) (bufsize : Z) : Prop :=
  exists l1 l2 fl data, s = with_hdr (hdr_raw type l1 l2 fl) data /\ sized type l1 /\ sized type l2 /\ is_byte fl /\
    Z.land fl SDS_TYPE_MASK = type /\ pre `prefix_of` data /\ Zlen data = bufsize - sdsHdrSize type.

Section resize.
Context `{AllocFits}.

Lemma at_tagged s type alloc len pre : sds_at s type alloc len pre -> exists bufsize, tagged s type pre bufsize /\
  SDS_TYPE_5 <= type <= SDS_TYPE_64 /\ sdsHdrSize type + alloc + 1 <= bufsize < 2 ^ 64.
Proof.
  intros (fl & data & -> & Hok & Hp & Hd & Hb). exists (sdsHdrSize type + Zlen data). pose proof Hok as [Ht Hf Htag _ _ _].
  split; [|split; [done|lia]]. do 3 eexists. exists data. split; [done|]. split; [apply sized_le|]. split; [apply sized_le|].
  split; [done|]. split; [done|]. split; [done|lia].
Qed.

Lemma tagged_put s type pre bs b rest bufsize : tagged s type pre bufsize -> pre = bs ++ b :: rest ->
  exists s', s_put s (Zlen bs) 0 = Ret s' /\ tagged s' type (bs ++ [0]) bufsize.
Proof.
  intros (l1 & l2 & fl & data & -> & H1 & H2 & Hf & Htag & Hp & Hd) ->.
  destruct (put_prefix (hdr_raw type l1 l2 fl) data bs 0) as (data' & E & Hd' & Hp'); [by eapply prefix_trim| |unfold is_byte; lia|].
  { apply prefix_Zlen in Hp. rewrite Zlen_app, Zlen_cons in Hp. pose proof (Zlen_nonneg rest). lia. }
  eexists. split; [exact E|]. exists l1, l2, fl, data'. split_and!; try done. lia.
Qed.

Lemma tagged_setlen s type pre bufsize n : SDS_TYPE_5 <= type <= SDS_TYPE_64 -> tagged s type pre bufsize -> 0 <= n <= sdsTypeMaxSize type ->
  exists s', sdssetlen s n = Ret s' /\ tagged s' type pre bufsize.
Proof.
  intros Ht (l1 & l2 & fl & data & -> & H1 & H2 & Hf & Htag & Hp & Hd) Hn. unfold sdssetlen.
  rewrite sdsType_hdr, ret_bind, has_fields_spec by done. destruct (Z.eqb_spec type SDS_TYPE_5) as [->|]; cbn [negb].
  - rewrite s_put_flags by done. eexists. split; [done|]. eexists l1, l2, _, data. split_and!; try done.
    + unfold is_byte. apply wrapu_range. lia.
    + rewrite Z.lor_0_l, Z.shiftl_mul_pow2 by (unfold SDS_TYPE_BITS; lia). unfold SDS_TYPE_MASK, SDS_TYPE_BITS. change 7 with (Z.ones 3).
      rewrite Z.land_ones by lia. unfold wrapu. change (2 ^ 8) with 256. change (2 ^ 3) with 8. unfold SDS_TYPE_5. dlia.
  - rewrite set_hdr_len_field by done. eexists. split; [done|]. eexists _, l2, fl, data. split_and!; try done. apply sized_le.
Qed.

Lemma tagged_finish s type pre bufsize len a : tagged s type pre bufsize -> SDS_TYPE_5 <= type <= SDS_TYPE_64 -> 0 <= len <= sdsTypeMaxSize type ->
  (type <> SDS_TYPE_5 -> len <= a <= sdsTypeMaxSize type) -> sdsHdrSize type + (if type =? SDS_TYPE_5 then len else a) + 1 <= bufsize < 2 ^ 64 ->
  exists s', (s ← sdssetlen s len; sdssetalloc s a) = Ret s' /\ sds_at s' type (five_alloc type len a) len pre.
Proof.
  intros (l1 & l2 & fl & data & -> & H1 & H2 & Hf & Htag & Hp & Hd) Ht Hl Ha Hb. unfold sdssetlen, sdssetalloc.
  rewrite sdsType_hdr, ret_bind, has_fields_spec by done. unfold five_alloc. destruct (Z.eqb_spec type SDS_TYPE_5) as [->|Hne]; cbn [negb].
  - rewrite s_put_flags, ret_bind by done. unfold SDS_TYPE_BITS. rewrite Z.lor_0_l, Z.shiftl_mul_pow2 by lia. change (2 ^ 3) with 8.
    pose proof (five_max len ltac:(lia)). rewrite (wrapu_id 8 (len * 8)) by lia.
    assert (hdr_ok SDS_TYPE_5 len len (8 * len)) as Hok.
    { split; try lia; [unfold is_byte; lia|]. unfold SDS_TYPE_MASK. change 7 with (Z.ones 3). rewrite Z.land_ones by lia.
      change (2 ^ 3) with 8. unfold SDS_TYPE_5. dlia. }
    rewrite sdsType_hdr, ret_bind by (done || (replace (len * 8) with (8 * len) by lia; apply Hok)).
    eexists. split; [done|]. exists (8 * len), data. split; [|split; [done|]].
    + unfold hdr_bytes, hdr_raw. cbn [Z.eqb SDS_TYPE_5]. do 2 f_equal. lia.
    + split; [done|]. change (sdsHdrSize SDS_TYPE_5) with 1 in *. lia.
  - rewrite set_hdr_len_field, ret_bind by done. rewrite sdsType_hdr, ret_bind by (done || apply sized_le).
    destruct (Z.eqb_spec type SDS_TYPE_5); [done|]. cbn [negb]. rewrite set_hdr_alloc_field by (done || apply sized_le).
    rewrite has_fields_spec by done. destruct (Z.eqb_spec type SDS_TYPE_5); [done|]. cbn [negb]. eexists. split; [done|]. exists fl, data. split; [done|]. specialize (Ha Hne). split; [split; try done; lia|]. split; [done|]. pose proof (hdr_size_pos type Ht). lia.
Qed.

Lemma copy_tagged (l : list Z) type pre : SDS_TYPE_5 <= type <= SDS_TYPE_64 -> sdsHdrSize type + Zlen pre <= Zlen l ->
  exists h data s1, wrn l (sdsHdrSize type) pre = Ret (h ++ data) /\
    s_put (Build_sds (h ++ data) (sdsHdrSize type)) (-1) type = Ret s1 /\ tagged s1 type pre (Zlen l).
Proof.
  intros Ht Hl. destruct (copy_behind l type pre (Zlen l) Ht) as (h & data & E & Hh & Hp & Hd); [done|done|].
  destruct (hdr_raw_of type h Ht Hh) as (l1 & l2 & fl & -> & H1 & H2). destruct (tag_flags type Ht) as (Hu & Htag & Hb).
  eexists _, data. eexists. split; [exact E|]. rewrite with_hdr_intro, s_put_flags, Hu by done. split; [done|].
  exists l1, l2, type, data. done.
Qed.

Lemma realloc_block_tagged s type alloc len0 pre0 len pre size need : sds_at s type alloc len0 pre0 -> Zlen pre = len + 1 ->
  pre `prefix_of` pre0 -> Zlen pre0 = len0 + 1 -> holds type need -> 0 <= len <= need -> sdsHdrSize type + need + 1 <= size < 2 ^ 63 ->
  exists s1 bufsize type', realloc_block s type (sdsHdrSize type) size len = Ret (s1, bufsize, type', sdsHdrSize type') /\
    (type = SDS_TYPE_5 <-> type' = SDS_TYPE_5) /\ good_buf type' need bufsize /\ tagged s1 type' pre bufsize.
Proof.
  intros Hat0 Hpre Hpp Hpre0 Hh Hneed Hn. pose proof (at_facts _ _ _ _ _ Hat0) as (_ & _ & _ & _ & _ & _ & Hl & Ht & _).
  assert (sds_at s type alloc len0 pre) as Hat.
  { destruct Hat0 as (fl & data & ? & ? & Hp & ?). exists fl, data. split; [done|]. split; [done|]. split; [|done].
    destruct Hpp as [r ->]. by apply prefix_trim in Hp. }
  assert (Zlen pre <= Zlen pre0) by (by apply prefix_Zlen).
  destruct (realloc_at s type alloc len0 pre size Hat) as (data & fl & E & Hp & Hh' & Hok & Hd & Hz); [lia|lia|]. cbv zeta in E, Hh'.
  unfold realloc_block. cbv zeta.
  destruct (adjust_good type need (Zlen (zrealloc (sds_block s) size)) Hh) as (t' & adj & -> & Hadj & H5 & Hgood); [lia|].
  pose proof Hgood as (Ht' & Hb & Hm). destruct adj.
  - destruct (copy_tagged (zrealloc (sds_block s) size) t' pre Ht') as (h & d & s1 & Hw & Hput & Htg); [lia|].
    assert (c_memmove (zrealloc (sds_block s) size) (sdsHdrSize t') (sdsHdrSize type) (len + 1) = Ret (h ++ d)) as ->.
    { unfold c_memmove. rewrite <- Hpre, <- Hh', <- (Z.add_0_r (Zlen (hdr_bytes _ _ _ _))), <- Hw, E, rdn_app_off by lia.
      by rewrite (prefix_read _ _ Hp), ret_bind. }
    rewrite ret_bind, Hput, ret_bind.
    destruct (tagged_setlen s1 t' pre (Zlen (zrealloc (sds_block s) size)) len Ht' Htg) as (s2 & -> & Htg2).
    { destruct (t' =? SDS_TYPE_5); lia. }
    eexists _, _, t'. by rewrite ret_bind.
  - rewrite ret_bind. rewrite (Hadj eq_refl) in *. eexists _, _, type. split; [done|]. split; [done|]. split; [done|].
    rewrite E, with_hdr_intro by done. rewrite <- E. destruct Hok as [_ Hf Htag _ _ _].
    do 3 eexists. exists data. split; [done|]. split; [apply sized_le|]. split; [apply sized_le|]. done.
Qed.

Lemma copy_block_tagged s oldtype alloc len0 pre0 pre type size need len : sds_at s oldtype alloc len0 pre0 -> pre `prefix_of` pre0 ->
  Zlen pre = len + 1 -> 0 <= len <= need -> holds type need -> sdsHdrSize type + need + 1 <= size < 2 ^ 63 ->
  exists s1 bufsize type', copy_block s type (sdsHdrSize type) size len = Ret (s1, bufsize, type', sdsHdrSize type') /\
    (type = SDS_TYPE_5 <-> type' = SDS_TYPE_5) /\ good_buf type' need bufsize /\ tagged s1 type' pre bufsize.
Proof.
  intros Hat Hpp Hpre Hneed Hh Hn. unfold copy_block. cbv zeta. pose proof (zmalloc_size_ge size). pose proof (zmalloc_fits size).
  assert (SDS_TYPE_5 <= type <= SDS_TYPE_64) as Ht by apply Hh. pose proof (hdr_size_pos type Ht).
  destruct (adjust_good type need (Zlen (zmalloc size)) Hh) as (t' & adj & -> & _ & H5 & Hgood); [lia|].
  pose proof Hgood as (Ht' & Hb & Hm).
  destruct (copy_tagged (zmalloc size) t' pre Ht') as (h & d & s1 & Hw & Hput & Htg); [lia|].
  assert (s_read s 0 (len + 1) = Ret pre) as ->.
  { rewrite <- Hpre. destruct Hpp as [r ->]. destruct Hat as (fl & data & -> & _ & Hp & _). rewrite s_read_data by lia.
    apply prefix_read. by apply prefix_trim in Hp. }
  rewrite ret_bind, Hw, ret_bind, Hput, ret_bind. eexists _, _, t'. done.
Qed.
End resize.

Section resize_spec.
Context `{AllocFits} (je_nallocx : option (Z -> Z)) (nallocx_ge : forall f, je_nallocx = Some f -> forall n, n <= f n).

Lemma wf_facts s type alloc bs : sds_wf s type alloc bs ->
  sdsType s = Ret type /\ sdslen s = Ret (Zlen bs) /\ sdsalloc s = Ret alloc /\ sdsavail s = Ret (alloc - Zlen bs) /\
  sdsAllocSize s = Ret (sdsHdrSize type + alloc + 1) /\ 0 <= Zlen bs <= alloc /\
  SDS_TYPE_5 <= type <= SDS_TYPE_64 /\ alloc <= sdsTypeMaxSize type.
Proof. intros Hwf. pose proof (at_facts _ _ _ _ _ Hwf) as (? & ? & ? & ? & ? & ? & ?). done. Qed.

Lemma five_alloc_len s type alloc bs : sds_wf s type alloc bs -> type = SDS_TYPE_5 -> alloc = Zlen bs.
Proof. intros (fl & data & _ & Hok & _) E. by destruct (ok_five _ _ _ _ Hok E). Qed.

Lemma Zlen_snoc (bs : list Z) x : Zlen (bs ++ [x]) = Zlen bs + 1.
Proof. by rewrite Zlen_app. Qed.

(** The string cut to [len] bytes, in front of what follows in the block. *)
Lemma cut_prefix (bs : list Z) len : 0 <= len <= Zlen bs -> exists b, (take (Z.to_nat len) bs ++ [b]) `prefix_of` (bs ++ [0]) /\
  Zlen (take (Z.to_nat len) bs ++ [b]) = len + 1.
Proof.
  intros Hl. destruct (lookup_lt_is_Some_2 (bs ++ [0]) (Z.to_nat len)) as [b Hb]; [rewrite length_app; unfold Zlen in Hl; cbn [length]; lia|].
  exists b. rewrite Zlen_snoc, Zlen_take by lia. split; [|done].
  exists (drop (S (Z.to_nat len)) (bs ++ [0])). rewrite <- (take_drop_middle _ _ _ Hb) at 1. rewrite <- app_assoc. cbn [app].
  f_equal. rewrite take_app_le by (unfold Zlen in Hl; lia). done.
Qed.

Lemma sdsResize_spec s type alloc bs size would_regrow : sds_wf s type alloc bs -> 0 <= size < 2 ^ 61 ->
  exists s' type' alloc', sdsResize je_nallocx s size would_regrow = Ret s' /\
    sds_wf s' type' alloc' (take (Z.to_nat size) bs) /\ (type' = SDS_TYPE_5 \/ size <= alloc').
Proof.
  intros Hwf Hs. pose proof (wf_facts _ _ _ _ Hwf) as (Hty & Hlen & Hal & _ & Hasz & Hl & Ht & Hmax).
  unfold sdsResize. rewrite Hty, ret_bind, Hlen, ret_bind, Hal, ret_bind. pose proof (hdr_size_pos type Ht).
  destruct (Z.eqb_spec alloc size) as [<-|Hne].
  { exists s, type, alloc. split; [done|]. rewrite take_ge by (unfold Zlen in Hl; lia). split; [done|right; lia]. }
  set (len := if size <? Zlen bs then size else Zlen bs). set (bs' := take (Z.to_nat size) bs).
  assert (0 <= len <= size /\ len <= Zlen bs /\ bs' = take (Z.to_nat len) bs) as (Hls & Hlb & Ebs).
  { unfold len, bs'. destruct (Z.ltb_spec size (Zlen bs)); [split; [lia|]; split; [lia|done]|]. split; [lia|]. split; [lia|]. unfold Zlen in *.
    by rewrite !take_ge by lia. }
  assert (Zlen bs' = len) as Hbs' by (rewrite Ebs; apply Zlen_take; lia).
  set (nt := if _ && _ then SDS_TYPE_8 else sdsReqType size).
  assert (sdsReqType size <= nt <= SDS_TYPE_64) as Hnt.
  { pose proof (sdsReqType_spec size) as Hr. unfold nt, req_range in *. destruct would_regrow, (Z.eqb_spec (sdsReqType size) SDS_TYPE_5) as [E|E]; type_values; cbn [andb]; lia. }
  destruct (cut_prefix bs len) as (b & Hcut & Hcl); [lia|]. rewrite <- Ebs in Hcut, Hcl. set (pre := bs' ++ [b]) in *.
  enough (exists s1 newsize type', (if (type =? nt) || (nt <? type) && (SDS_TYPE_8 <? nt) then
      bufsize ← sdsAllocSize s;
      if match je_nallocx with Some f => f (if (type =? nt) || (nt <? type) && (SDS_TYPE_8 <? nt) then u64 (sdsHdrSize type + size + 1) else u64 (sdsHdrSize nt + size + 1)) =? bufsize | None => false end
      then Ret (s, u64 (bufsize - sdsHdrSize type - 1)) else
      '(s, bufsize, _, oldhdrlen) ← realloc_block s type (sdsHdrSize type) (if (type =? nt) || (nt <? type) && (SDS_TYPE_8 <? nt) then u64 (sdsHdrSize type + size + 1) else u64 (sdsHdrSize nt + size + 1)) len;
      Ret (s, u64 (bufsize - oldhdrlen - 1))
    else
      '(s, bufsize, _, hdrlen) ← copy_block s nt (sdsHdrSize nt) (if (type =? nt) || (nt <? type) && (SDS_TYPE_8 <? nt) then u64 (sdsHdrSize type + size + 1) else u64 (sdsHdrSize nt + size + 1)) len;
      Ret (s, u64 (bufsize - hdrlen - 1))) = Ret (s1, newsize) /\
    exists bufsize, tagged s1 type' pre bufsize /\ SDS_TYPE_5 <= type' <= SDS_TYPE_64 /\ len <= sdsTypeMaxSize type' /\
      (type' <> SDS_TYPE_5 -> size <= newsize <= sdsTypeMaxSize type') /\
      sdsHdrSize type' + (if type' =? SDS_TYPE_5 then len else newsize) + 1 <= bufsize < 2 ^ 64)
    as (s1 & newsize & type' & E & bufsize & Htag & Ht' & Hlm & Hns & Hb).
  { cbv zeta. fold len nt. rewrite E, ret_bind.
    destruct (tagged_put s1 type' pre bs' b [] bufsize) as (s2 & E2 & Htag2); [done|done|]. rewrite Hbs' in E2. rewrite E2, ret_bind.
    destruct (tagged_finish s2 type' (bs' ++ [0]) bufsize len newsize) as (s3 & E3 & Hat); [done|done|lia| |done|].
    { intros Hne'. specialize (Hns Hne'). lia. }
    rewrite E3. exists s3, type', (five_alloc type' len newsize). split; [done|].
    unfold sds_wf. rewrite Hbs'. split; [done|]. unfold five_alloc. destruct (Z.eqb_spec type' SDS_TYPE_5); [by left|right; lia]. }
  destruct ((type =? nt) || (nt <? type) && (SDS_TYPE_8 <? nt)) eqn:Euse.
  - assert (u64 (sdsHdrSize type + size + 1) = sdsHdrSize type + size + 1) as -> by (apply wrapu_id; lia).
    rewrite Hasz, ret_bind.
    assert (sdsReqType size <= type) as Hrt by (apply orb_true_iff in Euse; destruct Euse as [E|E]; [apply Z.eqb_eq in E; lia|apply andb_true_iff in E as [E _]; apply Z.ltb_lt in E; lia]).
    destruct (match je_nallocx with Some f => _ | None => false end) eqn:Eopt.
    + destruct je_nallocx as [f|] eqn:Ef; [|done]. apply Z.eqb_eq in Eopt. pose proof (nallocx_ge f eq_refl (sdsHdrSize type + size + 1)).
      destruct (at_tagged _ _ _ _ _ Hwf) as (bufsize & Htag & _ & Hb).
      assert (u64 (sdsHdrSize type + alloc + 1 - sdsHdrSize type - 1) = alloc) as -> by (rewrite wrapu_id; lia).
      exists s, alloc, type. split; [done|]. exists bufsize. split; [|split; [done|]; split; [lia|]; split; [lia|]].
      * destruct Htag as (l1 & l2 & fl & data & ? & ? & ? & ? & ? & Hp & ?). exists l1, l2, fl, data. split_and!; try done.
        destruct Hcut as [r Er]. rewrite Er in Hp. by apply prefix_trim in Hp.
      * destruct (Z.eqb_spec type SDS_TYPE_5); lia.
    + destruct (realloc_block_tagged s type alloc (Zlen bs) (bs ++ [0]) len pre (sdsHdrSize type + size + 1) size)
        as (s1 & bufsize & t' & -> & H5 & Hgood & Htag); try done; [by rewrite Zlen_snoc|apply (holds_req size); lia|lia|].
      rewrite ret_bind. rewrite (good_buf_usable t' size) by (done || lia). destruct Hgood as (Ht' & Hb & Hm).
      eexists _, _, t'. split; [done|]. exists bufsize. split; [done|]. split; [done|].
      destruct (Z.eqb_spec t' SDS_TYPE_5) as [E5|E5]; (split; [lia|split; [|lia]]); [by intros []|lia].
  - assert (SDS_TYPE_5 <= nt <= SDS_TYPE_64) as Hnr.
    { pose proof (sdsReqType_spec size) as Hr. unfold req_range in Hr. type_values. lia. }
    pose proof (hdr_size_pos nt Hnr).
    assert (u64 (sdsHdrSize nt + size + 1) = sdsHdrSize nt + size + 1) as -> by (apply wrapu_id; lia).
    destruct (copy_block_tagged s type alloc (Zlen bs) (bs ++ [0]) pre nt (sdsHdrSize nt + size + 1) size len)
      as (s1 & bufsize & t' & -> & H5 & Hgood & Htag); try done; [apply (holds_req size); lia|lia|].
    rewrite ret_bind. rewrite (good_buf_usable t' size) by (done || lia). destruct Hgood as (Ht' & Hb & Hm).
    eexists _, _, t'. split; [done|]. exists bufsize. split; [done|]. split; [done|].
    destruct (Z.eqb_spec t' SDS_TYPE_5) as [E5|E5]; (split; [lia|split; [|lia]]); [by intros []|lia].
Qed.
End resize_spec.
