(* ===== verification/SdsSpec.v ===== *)
(** * SdsSpec: what the operations on dynamic strings do

    Each operation returns, and does to the bytes of the string what its name
    says, whatever the type of the header before and after. *)

From S2P Require Import Prelude Memory NumStr Sds SdsInv.

Section ops.
Context `{AllocFits}.
Implicit Types (s : sds) (bs : list Z).

Lemma rep_at s bs : sds_rep s bs -> exists type alloc, sds_at s type alloc (Zlen bs) (bs ++ [0]).
Proof. done. Qed.

Lemma rep_len s bs : sds_rep s bs -> sdslen s = Ret (Zlen bs).
Proof. intros (type & alloc & Hwf). apply (wf_facts _ _ _ _ Hwf). Qed.

Lemma rep_read s bs : sds_rep s bs -> s_read s 0 (Zlen bs) = Ret bs.
Proof.
  intros (type & alloc & fl & data & -> & _ & Hp & _). rewrite s_read_data by lia. apply prefix_read. by apply prefix_trim in Hp.
Qed.

Lemma rep_bytes s bs : sds_rep s bs -> s_bytes s = Ret bs.
Proof. intros Hr. unfold s_bytes. by rewrite (rep_len _ _ Hr), ret_bind, (rep_read _ _ Hr). Qed.

Lemma wf_rep s type alloc bs : sds_wf s type alloc bs -> sds_rep s bs.
Proof. intros Hwf. by exists type, alloc. Qed.

(** Room for [addlen] bytes, whatever is behind the string. *)
Lemma sdsMakeRoomFor_rep s type alloc bs x addlen greedy : sds_at s type alloc (Zlen bs) (bs ++ [x]) -> 0 <= addlen -> Zlen bs + addlen < 2 ^ 61 ->
  exists s' type' alloc', _sdsMakeRoomFor s addlen greedy = Ret s' /\ sds_at s' type' alloc' (Zlen bs) (bs ++ [x]) /\
    Zlen bs + addlen <= alloc' /\ (s' = s \/ SDS_TYPE_5 < type').
Proof.
  intros Hat Ha Hb. destruct (_sdsMakeRoomFor_spec s type alloc (Zlen bs) (bs ++ [x]) addlen greedy Hat) as (s' & E & type' & alloc' & Hr);
    [by rewrite Zlen_snoc|done|done|]. by exists s', type', alloc'.
Qed.

(** Bytes written behind a prefix of the string, and the end set there. *)
Lemma write_end s type alloc len pre rest (t : list Z) : sds_at s type alloc len (pre ++ rest) -> Zlen pre + Zlen t <= alloc ->
  exists s', s_write s (Zlen pre) t = Ret s' /\ sds_at s' type alloc len (pre ++ t) .
Proof.
  intros (fl & data & -> & Hok & Hp & Hd & Hb) Hl.
  destruct (write_prefix (hdr_bytes type len alloc fl) data pre t) as (data' & E & Hd' & Hp'); [by apply prefix_trim in Hp|lia|].
  eexists. split; [exact E|]. exists fl, data'. rewrite Hd'. done.
Qed.

Lemma sds_at_end s type alloc len bs : sds_at s type alloc len bs -> Zlen bs <= alloc ->
  exists s', (s ← s_put s (Zlen bs) 0; sdssetlen s (Zlen bs)) = Ret s' /\
    (s ← sdssetlen s (Zlen bs); s_put s (Zlen bs) 0) = Ret s' /\ sds_rep s' bs.
Proof.
  intros (fl & data & -> & Hok & Hp & Hd & Hb) Hl.
  destruct (set_contents type len alloc fl data bs Hok Hp Hl Hd Hb) as (s' & E1 & E2 & Hwf). exists s'. split; [done|]. split; [done|].
  by eapply wf_rep.
Qed.

Lemma at_trim s type alloc len pre rest : sds_at s type alloc len (pre ++ rest) -> sds_at s type alloc len pre.
Proof. intros (fl & data & ? & ? & Hp & ?). exists fl, data. split; [done|]. split; [done|]. split; [by apply prefix_trim in Hp|done]. Qed.

Lemma sdscatlen_spec s bs (t : list Z) : sds_rep s bs -> Zlen bs + Zlen t < 2 ^ 61 ->
  exists s', sdscatlen s t (Zlen t) = Ret s' /\ sds_rep s' (bs ++ t).
Proof.
  intros (type & alloc & Hwf) Hb. pose proof (Zlen_nonneg bs). pose proof (Zlen_nonneg t).
  unfold sdscatlen. rewrite (rep_len s bs), ret_bind by by eapply wf_rep.
  destruct (sdsMakeRoomFor_rep s type alloc bs 0 (Zlen t) true Hwf) as (s1 & t1 & a1 & E & Hat & Ha & _); [lia|done|].
  unfold sdsMakeRoomFor. rewrite E, ret_bind. rewrite (prefix_read t t), ret_bind by done.
  destruct (write_end s1 t1 a1 (Zlen bs) bs [0] t Hat) as (s2 & -> & Hat2); [lia|]. rewrite ret_bind.
  assert (u64 (Zlen bs + Zlen t) = Zlen (bs ++ t)) as -> by (rewrite Zlen_app; apply wrapu_id; lia).
  destruct (sds_at_end s2 t1 a1 (Zlen bs) (bs ++ t) Hat2) as (s3 & _ & E3 & Hr); [rewrite Zlen_app; lia|]. by exists s3.
Qed.

(** A buffer with room for the text and its terminator. *)
Lemma vsnprintf_fits buf size text : Zlen text < 2 ^ 31 -> Zlen text < size -> size <= Zlen buf ->
  exists buf', vsnprintf buf size text = Ret (buf', Zlen text) /\ rdn buf' 0 (Zlen text) = Ret text.
Proof.
  intros Ht Hs Hb. pose proof (Zlen_nonneg text). unfold vsnprintf. rewrite (proj2 (Z.leb_gt _ _)) by lia. rewrite (proj2 (Z.eqb_neq size 0)) by lia.
  rewrite take_ge by (unfold Zlen in *; lia). destruct (wrn_spec buf 0 (text ++ [0])) as (buf' & E & _ & Hr & _); [done|rewrite Zlen_snoc; lia|].
  rewrite E, ret_bind. exists buf'. split; [done|]. rewrite Zlen_snoc in Hr. apply (rdn_sub _ _ _ _ 0 (Zlen text)) in Hr; [|lia..]. rewrite Z.add_0_l in Hr. rewrite Hr. apply rdn_head.
Qed.

(** A second round is always enough. *)
Lemma printf_loop_spec buf size text : Zlen text < 2 ^ 31 -> 0 < size <= Zlen buf ->
  exists buf', printf_loop 1 buf size text = Ret (Some (buf', Zlen text)) /\ rdn buf' 0 (Zlen text) = Ret text.
Proof.
  intros Ht Hb. pose proof (Zlen_nonneg text). destruct (Z.lt_ge_cases (Zlen text) size) as [Hs|Hs].
  - destruct (vsnprintf_fits buf size text Ht Hs) as (buf' & E & Hr); [lia|]. exists buf'. cbn [printf_loop]. rewrite E, ret_bind.
    rewrite (proj2 (Z.ltb_ge _ _)), (proj2 (Z.leb_gt _ _)) by lia. done.
  - assert (exists b, vsnprintf buf size text = Ret (b, Zlen text)) as [b E].
    { unfold vsnprintf. rewrite (proj2 (Z.leb_gt _ _)), (proj2 (Z.eqb_neq size 0)) by lia.
      destruct (wrn_spec buf 0 (take (Z.to_nat (size - 1)) text ++ [0])) as (b & -> & _); [done|rewrite Zlen_snoc; unfold Zlen in *; rewrite length_take; lia|].
      rewrite ret_bind. by exists b. }
    destruct (vsnprintf_fits (zmalloc (Zlen text + 1)) (Zlen text + 1) text Ht ltac:(lia) (zmalloc_size_ge _)) as (b' & E' & Hr).
    exists b'. cbn [printf_loop]. rewrite E, ret_bind. rewrite (proj2 (Z.ltb_ge _ _)), (proj2 (Z.leb_le size _)) by lia. rewrite E', ret_bind.
    rewrite (proj2 (Z.ltb_ge _ _)), (proj2 (Z.leb_gt _ _)) by lia. done.
Qed.

Lemma sdscatlen_ext s t u n : rdn t 0 n = rdn u 0 n -> sdscatlen s t n = sdscatlen s u n.
Proof. intros E. unfold sdscatlen. by rewrite E. Qed.

(** Whatever the length of the format, the text is appended: the static buffer,
    the first allocated one or the retry holds it. *)
Lemma sdscatprintf_spec s bs (fmt text : list Z) : sds_rep s bs -> Zlen fmt < 2 ^ 62 -> Zlen text < 2 ^ 31 -> Zlen bs + Zlen text < 2 ^ 61 ->
  exists s', sdscatprintf s fmt text = Ret (Some s') /\ sds_rep s' (bs ++ text).
Proof.
  intros Hr Hf Ht Hb. pose proof (Zlen_nonneg fmt). destruct (sdscatlen_spec s bs text Hr Hb) as (s' & E & Hr').
  exists s'. split; [|done]. unfold sdscatprintf, sdscatvprintf. assert (u64 (Zlen fmt * 2) = Zlen fmt * 2) as -> by (apply wrapu_id; lia).
  assert (forall buf size, 0 < size <= Zlen buf ->
    (r ← printf_loop 1 buf size text; match r with None => Ret None | Some (buf, n) => t ← sdscatlen s buf n; Ret (Some t) end) = Ret (Some s')) as Hrun.
  { intros buf size Hs. destruct (printf_loop_spec buf size text Ht Hs) as (b & -> & Hb'). rewrite ret_bind.
    rewrite (sdscatlen_ext s b text) by (by rewrite Hb', prefix_read). by rewrite E, ret_bind. }
  destruct (Z.ltb_spec 1024 (Zlen fmt * 2)) as [Hl|Hl]; apply Hrun; [pose proof (zmalloc_size_ge (Zlen fmt * 2)); lia|].
  split; [done|]. apply Z.le_refl.
Qed.

Lemma sdscat_spec s bs (t : list Z) : sds_rep s bs -> Zlen bs + Zlen t < 2 ^ 61 -> exists s', sdscat s t = Ret s' /\ sds_rep s' (bs ++ t).
Proof. apply sdscatlen_spec. Qed.

Lemma sdscatsds_spec s bs u (t : list Z) : sds_rep s bs -> sds_rep u t -> Zlen bs + Zlen t < 2 ^ 61 ->
  exists s', sdscatsds s u = Ret s' /\ sds_rep s' (bs ++ t).
Proof.
  intros Hs Hu Hb. unfold sdscatsds. rewrite (rep_len _ _ Hu), ret_bind, (rep_read _ _ Hu), ret_bind. by apply sdscatlen_spec.
Qed.

Lemma sdscpylen_spec s bs (t : list Z) : sds_rep s bs -> Zlen t < 2 ^ 61 -> exists s', sdscpylen s t (Zlen t) = Ret s' /\ sds_rep s' t.
Proof.
  intros (type & alloc & Hwf) Hb. pose proof (Zlen_nonneg bs). pose proof (Zlen_nonneg t).
  pose proof (wf_facts _ _ _ _ Hwf) as (_ & Hlen & Hal & _ & _ & Hl & _ & Hmax).
  unfold sdscpylen. rewrite Hal, ret_bind.
  assert (exists s1 t1 a1, (if alloc <? Zlen t then curlen ← sdslen s; sdsMakeRoomFor s (u64 (Zlen t - curlen)) else Ret s) = Ret s1 /\
    sds_at s1 t1 a1 (Zlen bs) (bs ++ [0]) /\ Zlen t <= a1) as (s1 & t1 & a1 & -> & Hat & Ha).
  { destruct (Z.ltb_spec alloc (Zlen t)).
    - rewrite Hlen, ret_bind. rewrite wrapu_id by lia.
      destruct (sdsMakeRoomFor_rep s type alloc bs 0 (Zlen t - Zlen bs) true Hwf) as (s1 & t1 & a1 & E & Hat & Ha & _); [lia|lia|].
      exists s1, t1, a1. split; [done|]. split; [done|lia].
    - exists s, type, alloc. split; [done|]. split; [done|lia]. }
  rewrite ret_bind, (prefix_read t t), ret_bind by done.
  destruct (write_end s1 t1 a1 (Zlen bs) [] (bs ++ [0]) t Hat) as (s2 & E & Hat2); [rewrite Zlen_nil; lia|].
  rewrite Zlen_nil in E. rewrite E, ret_bind.
  destruct (sds_at_end s2 t1 a1 (Zlen bs) t Hat2) as (s3 & E3 & _ & Hr); [done|]. by exists s3.
Qed.

Lemma sdsgrowzero_spec s bs len : sds_rep s bs -> 0 <= len < 2 ^ 61 ->
  exists s', sdsgrowzero s len = Ret s' /\ sds_rep s' (bs ++ replicate (Z.to_nat (len - Zlen bs)) 0).
Proof.
  intros (type & alloc & Hwf) Hb. pose proof (Zlen_nonneg bs). unfold sdsgrowzero. rewrite (rep_len s bs), ret_bind by by eapply wf_rep.
  destruct (Z.leb_spec len (Zlen bs)).
  { exists s. split; [done|]. replace (Z.to_nat (len - Zlen bs)) with O by lia. rewrite app_nil_r. by eapply wf_rep. }
  destruct (sdsMakeRoomFor_rep s type alloc bs 0 (len - Zlen bs) true Hwf) as (s1 & t1 & a1 & E & Hat & Ha & _); [lia|lia|].
  unfold sdsMakeRoomFor. rewrite E, ret_bind. set (n := Z.to_nat (len - Zlen bs)).
  assert (replicate (Z.to_nat (len - Zlen bs + 1)) 0 = replicate n 0 ++ [0]) as ->.
  { unfold n. replace (Z.to_nat (len - Zlen bs + 1)) with (Z.to_nat (len - Zlen bs) + 1)%nat by lia. by rewrite replicate_add. }
  assert (Zlen (replicate n 0) = len - Zlen bs) as Hn by (unfold Zlen, n; rewrite length_replicate; unfold Zlen in *; lia).
  destruct Hat as (fl & data & -> & Hok & Hp & Hd & Hbd).
  destruct (write_prefix (hdr_bytes t1 (Zlen bs) a1 fl) data bs (replicate n 0 ++ [0])) as (d2 & E2 & Hd2 & Hp2);
    [by apply prefix_trim in Hp|rewrite Zlen_snoc; lia|].
  rewrite E2, ret_bind, (sdssetlen_ok _ _ _ _ _ Hok). eexists. split; [done|].
  apply (wf_rep _ t1 (five_alloc t1 len a1)). assert (Zlen (bs ++ replicate n 0) = len) as El by (rewrite Zlen_app; lia).
  exists (five_flags t1 len fl), d2. rewrite El, <- app_assoc. split; [by rewrite <- hdr_bytes_five|].
  split; [apply (hdr_ok_setlen _ _ _ _ _ Hok); lia|]. split; [done|]. unfold five_alloc. destruct (t1 =? SDS_TYPE_5); lia.
Qed.

(** ** Substrings *)

Lemma rep_read_sub s bs i n : sds_rep s bs -> 0 <= i -> 0 <= n -> i + n <= Zlen bs -> s_read s i n = rdn bs i n.
Proof.
  intros (type & alloc & fl & data & -> & _ & [r ->] & _) Hi Hn Hl. rewrite s_read_data by lia.
  rewrite <- app_assoc. set (r' := [0] ++ r). pose proof (Zlen_nonneg r'). rewrite !rdn_ok by (rewrite ?Zlen_app; lia). f_equal. unfold Zlen in *.
  rewrite drop_app_le by lia. apply take_app_le. rewrite length_drop. lia.
Qed.

Lemma sds_rep_get s bs i : sds_rep s bs -> 0 <= i < Zlen bs -> s_get s i = rd bs i.
Proof.
  intros (type & alloc & fl & data & -> & _ & [r ->] & _) Hi. rewrite s_get_data by lia. rewrite <- app_assoc. by rewrite rd_app_l by lia.
Qed.

(** Part of the string moved to the front. *)
Lemma move_front s bs start n (moved : bool) : sds_rep s bs -> 0 <= start -> 0 <= n -> start + n <= Zlen bs ->
  (moved = false -> start = 0 \/ n = 0) ->
  exists s', (s ← (if moved then s_memmove s 0 start n else Ret s); s ← s_put s n 0; sdssetlen s n) = Ret s' /\
    sds_rep s' (take (Z.to_nat n) (drop (Z.to_nat start) bs)).
Proof.
  intros Hr Hst Hn Hl Hmv. pose proof Hr as (type & alloc & Hwf). pose proof (wf_facts _ _ _ _ Hwf) as (_ & _ & _ & _ & _ & Hla & _).
  set (bs' := take (Z.to_nat n) (drop (Z.to_nat start) bs)).
  assert (Zlen bs' = n) as Hbs' by (unfold bs'; apply Zlen_take; rewrite Zlen_drop by lia; lia).
  assert (exists s1, (if moved then s_memmove s 0 start n else Ret s) = Ret s1 /\ sds_at s1 type alloc (Zlen bs) bs') as (s1 & -> & Hat).
  { destruct moved.
    - unfold s_memmove. rewrite (rep_read_sub s bs), rdn_ok, ret_bind by (done || lia). fold bs'.
      destruct (write_end s type alloc (Zlen bs) [] (bs ++ [0]) bs' Hwf) as (s1 & E & Hat1); [rewrite Zlen_nil; lia|].
      rewrite Zlen_nil in E. by exists s1.
    - exists s. split; [done|]. apply (at_trim _ _ _ _ _ (drop (Z.to_nat n) bs ++ [0])). replace (bs' ++ drop (Z.to_nat n) bs ++ [0]) with (bs ++ [0]); [done|].
      unfold bs'. destruct (Hmv eq_refl) as [->| ->]; [by rewrite drop_0, app_assoc, take_drop|by rewrite drop_0]. }
  rewrite ret_bind. destruct (sds_at_end s1 type alloc (Zlen bs) bs' Hat) as (s2 & E & _ & Hr2); [lia|]. rewrite Hbs' in E. by exists s2.
Qed.

Definition substr_ref (start len : Z) bs : list Z :=
  if Zlen bs <=? start then [] else take (Z.to_nat len) (drop (Z.to_nat start) bs).

Lemma sdssubstr_spec s bs start len : sds_rep s bs -> 0 <= start -> 0 <= len ->
  exists s', sdssubstr s start len = Ret s' /\ sds_rep s' (substr_ref start len bs).
Proof.
  intros Hr Hs Hl. unfold sdssubstr, substr_ref. rewrite (rep_len _ _ Hr), ret_bind. pose proof (Zlen_nonneg bs).
  destruct (Z.leb_spec (Zlen bs) start).
  - replace (if Zlen bs - 0 <? 0 then Zlen bs - 0 else 0) with 0 by (destruct (Z.ltb_spec (Zlen bs - 0) 0); lia). cbn [Z.eqb negb].
    apply (move_front s bs 0 0 false); lia || auto || done.
  - set (n := if Zlen bs - start <? len then Zlen bs - start else len).
    assert (0 <= n /\ start + n <= Zlen bs) by (unfold n; destruct (Z.ltb_spec (Zlen bs - start) len); lia).
    destruct (move_front s bs start n (negb (n =? 0)) Hr) as (s' & E & Hr'); [lia|lia|lia| |].
    { intros E. apply negb_false_iff, Z.eqb_eq in E. lia. }
    exists s'. split; [done|]. enough (take (Z.to_nat len) (drop (Z.to_nat start) bs) = take (Z.to_nat n) (drop (Z.to_nat start) bs)) as -> by done.
    unfold n. destruct (Z.ltb_spec (Zlen bs - start) len); [|done].
    rewrite !take_ge by (rewrite length_drop; unfold Zlen in *; lia). done.
Qed.

(** [sdsrange] on a non-empty string, with the indices from the end resolved. *)
Definition range_ref (start end_ : Z) bs : list Z :=
  let len := Zlen bs in
  let start := if start <? 0 then len + start else start in
  let end_ := if end_ <? 0 then len + end_ else end_ in
  if (start <? 0) || (end_ <? start) then [] else substr_ref start (end_ - start + 1) bs.

Lemma sdsrange_spec s bs start end_ : sds_rep s bs -> Zlen bs < 2 ^ 62 -> INT64_MIN <= start <= INT64_MAX -> INT64_MIN <= end_ <= INT64_MAX ->
  exists s', sdsrange s start end_ = Ret s' /\ sds_rep s' (range_ref start end_ bs).
Proof.
  unfold INT64_MIN, INT64_MAX. intros Hr Hb Hst Hen. unfold sdsrange, range_ref. rewrite (rep_len _ _ Hr), ret_bind. pose proof (Zlen_nonneg bs).
  destruct (Z.eqb_spec (Zlen bs) 0) as [E0|E0].
  { exists s. split; [done|]. match goal with |- sds_rep _ ?x => enough (x = bs) as -> by done end.
    unfold substr_ref. destruct bs; [|unfold Zlen in E0; cbn in E0; lia]. rewrite drop_nil, take_nil.
    by repeat match goal with |- context [if ?b then _ else _] => destruct b end. }
  cbv zeta.
  assert ((if start <? 0 then s64 (Zlen bs + start) else start) = (if start <? 0 then Zlen bs + start else start)) as ->
    by (destruct (Z.ltb_spec start 0); [apply wraps_id; lia|done]).
  assert ((if end_ <? 0 then s64 (Zlen bs + end_) else end_) = (if end_ <? 0 then Zlen bs + end_ else end_)) as ->
    by (destruct (Z.ltb_spec end_ 0); [apply wraps_id; lia|done]).
  set (st := if start <? 0 then _ else start). set (en := if end_ <? 0 then _ else end_).
  assert (- 2 ^ 63 <= st < 2 ^ 63) by (unfold st; destruct (Z.ltb_spec start 0); lia).
  assert (- 2 ^ 63 <= en < 2 ^ 63) by (unfold en; destruct (Z.ltb_spec end_ 0); lia). clearbody st en.
  destruct (Z.ltb_spec st 0) as [Hneg|Hneg]; cbn [orb].
  - assert (Zlen bs <= u64 st) as Hbig.
    { assert (u64 st = st + 2 ^ 64) as -> by (unfold wrapu; symmetry; apply (Z.mod_unique_pos _ _ (-1)); lia). lia. }
    destruct (sdssubstr_spec s bs (u64 st) (if en <? st then 0 else u64 (s64 (en - st + 1))) Hr) as (s' & E & Hr'); [lia| |].
    { destruct (en <? st); [lia|]. apply wrapu_range. lia. }
    exists s'. split; [done|]. unfold substr_ref in Hr'. destruct (Z.leb_spec (Zlen bs) (u64 st)); [done|lia].
  - rewrite (wrapu_id 64 st) by lia. destruct (Z.ltb_spec en st).
    + destruct (sdssubstr_spec s bs st 0 Hr) as (s' & E & Hr'); [lia|lia|]. exists s'. split; [done|]. unfold substr_ref in Hr'.
      by destruct (_ <=? _).
    + destruct (Z.eqb_spec (en - st + 1) (2 ^ 63)) as [Ew|Ew].
      * rewrite Ew. change (u64 (s64 (2 ^ 63))) with (2 ^ 63). apply sdssubstr_spec; done || lia.
      * rewrite wraps_id, wrapu_id by lia. apply sdssubstr_spec; done || lia.
Qed.

(** ** Trimming *)

Fixpoint drop_while (p : Z -> bool) (l : list Z) : list Z :=
  match l with [] => [] | c :: l' => if p c then drop_while p l' else l end.
Definition drop_while_end (p : Z -> bool) (l : list Z) : list Z := reverse (drop_while p (reverse l)).
Definition trim_ref (cset : list Z) bs : list Z := drop_while_end (c_strchr cset) (drop_while (c_strchr cset) bs).

Lemma drop_while_suffix p l : exists k, l = k ++ drop_while p l.
Proof. induction l as [|c l [k IH]]; [by exists []|]. cbn. destruct (p c); [exists (c :: k); by rewrite IH at 1|by exists []]. Qed.

Lemma drop_while_end_prefix p l : exists k, l = drop_while_end p l ++ k.
Proof.
  unfold drop_while_end. destruct (drop_while_suffix p (reverse l)) as [k E]. exists (reverse k).
  rewrite <- reverse_app, <- E. by rewrite reverse_involutive.
Qed.

Lemma drop_while_end_snoc p l c : drop_while_end p (l ++ [c]) = if p c then drop_while_end p l else l ++ [c].
Proof.
  unfold drop_while_end. rewrite reverse_app. cbn [reverse rev_append app]. change (reverse [c]) with [c]. cbn [app drop_while].
  destruct (p c); [done|]. by rewrite reverse_cons, reverse_involutive.
Qed.

Definition reads_at s (sp : Z) (l : list Z) : Prop := forall j, 0 <= j < Zlen l -> s_get s (sp + j) = rd l j.

Lemma trim_left_spec s cset l : forall fuel sp, (length l <= fuel)%nat -> reads_at s sp l ->
  trim_left fuel s cset sp (sp + Zlen l - 1) = Ret (sp + Zlen l - Zlen (drop_while (c_strchr cset) l)).
Proof.
  induction l as [|c l IH]; intros fuel sp Hf Hg.
  - cbn [drop_while]. rewrite !Zlen_nil. destruct fuel; cbn [trim_left]; (destruct (Z.leb_spec sp (sp + 0 - 1)); [lia|]); f_equal; lia.
  - destruct fuel as [|fuel]; [cbn [length] in Hf; lia|]. rewrite Zlen_cons in *. pose proof (Zlen_nonneg l). cbn [trim_left drop_while].
    destruct (Z.leb_spec sp (sp + (1 + Zlen l) - 1)); [|lia].
    pose proof (Hg 0) as Hg0. rewrite Zlen_cons, Z.add_0_r in Hg0. rewrite Hg0, rd_head, ret_bind by lia. destruct (c_strchr cset c).
    + replace (sp + (1 + Zlen l) - 1) with (sp + 1 + Zlen l - 1) by lia. rewrite (IH fuel (sp + 1)); [f_equal; lia|cbn [length] in Hf; lia|].
      intros j Hj. replace (sp + 1 + j) with (sp + (1 + j)) by lia. rewrite Hg by (rewrite Zlen_cons; lia). rewrite rd_cons by lia. f_equal. lia.
    + f_equal. rewrite Zlen_cons. lia.
Qed.

Lemma trim_right_spec s cset sp l : reads_at s sp l -> match l with c :: _ => c_strchr cset c = false | [] => True end ->
  forall fuel, (length l <= fuel)%nat ->
  trim_right fuel s cset sp (sp + Zlen l - 1) = Ret (sp + Zlen (drop_while_end (c_strchr cset) l) - 1).
Proof.
  induction l as [|c l IH] using rev_ind; intros Hg Hc fuel Hf.
  - destruct fuel; cbn [trim_right]; rewrite Zlen_nil; (destruct (Z.ltb_spec sp (sp + 0 - 1)); [lia|]); done.
  - rewrite length_app in Hf. cbn [length] in Hf. destruct fuel as [|fuel]; [lia|].
    rewrite drop_while_end_snoc, Zlen_snoc. pose proof (Zlen_nonneg l). cbn [trim_right].
    destruct l as [|c0 l].
    { rewrite Zlen_nil. destruct (Z.ltb_spec sp (sp + (0 + 1) - 1)); [lia|]. cbn [app] in *. rewrite Hc. done. }
    pose proof (Zlen_nonneg l). rewrite Zlen_cons. destruct (Z.ltb_spec sp (sp + (1 + Zlen l + 1) - 1)); [|lia].
    replace (sp + (1 + Zlen l + 1) - 1) with (sp + Zlen (c0 :: l)) by (rewrite Zlen_cons; lia).
    rewrite Hg by (rewrite Zlen_snoc, Zlen_cons; lia). rewrite rd_app_r, Z.sub_diag, rd_head, ret_bind by lia.
    destruct (c_strchr cset c).
    + replace (sp + Zlen (c0 :: l) - 1) with (sp + Zlen (c0 :: l) - 1) by lia. rewrite IH; [done| |done|cbn [length] in *; lia]. intros j Hj. rewrite Hg by (rewrite Zlen_snoc; lia). by rewrite rd_app_l by lia.
    + f_equal. rewrite Zlen_snoc. lia.
Qed.

Lemma drop_while_head p l : match drop_while p l with c :: _ => p c = false | [] => True end.
Proof. induction l as [|c l IH]; [done|]. cbn. destruct (p c) eqn:E; [done|done]. Qed.

Lemma sdstrim_spec s bs cset : sds_rep s bs -> exists s', sdstrim s cset = Ret s' /\ sds_rep s' (trim_ref cset bs).
Proof.
  intros Hr. unfold sdstrim, trim_ref. rewrite (rep_len _ _ Hr), ret_bind. cbv zeta. set (p := c_strchr cset).
  assert (reads_at s 0 bs) as Hg by (intros j Hj; by apply sds_rep_get).
  pose proof (trim_left_spec s cset bs (Z.to_nat (Zlen bs)) 0 ltac:(unfold Zlen; lia) Hg) as El. rewrite Z.add_0_l in El.
  rewrite El, ret_bind. fold p. destruct (drop_while_suffix p bs) as [k Ek]. set (m := drop_while p bs) in *.
  assert (Zlen bs = Zlen k + Zlen m) as Hlen by (rewrite Ek at 1; by rewrite Zlen_app). pose proof (Zlen_nonneg k). pose proof (Zlen_nonneg m).
  replace (Zlen bs - Zlen m) with (Zlen k) by lia.
  assert (reads_at s (Zlen k) m) as Hgm.
  { intros j Hj. rewrite (sds_rep_get s bs) by (done || lia). rewrite Ek. apply rd_app_off. lia. }
  replace (Zlen bs - 1) with (Zlen k + Zlen m - 1) by lia.
  rewrite (trim_right_spec s cset (Zlen k) m Hgm); [|apply drop_while_head|unfold Zlen in *; lia]. fold p. rewrite ret_bind.
  destruct (drop_while_end_prefix p m) as [k2 Ek2]. set (r := drop_while_end p m) in *.
  assert (Zlen m = Zlen r + Zlen k2) as Hm by (rewrite Ek2 at 1; by rewrite Zlen_app). pose proof (Zlen_nonneg k2). pose proof (Zlen_nonneg r).
  replace (Zlen k + Zlen r - 1 - Zlen k + 1) with (Zlen r) by lia.
  destruct (move_front s bs (Zlen k) (Zlen r) (negb (Zlen k =? 0)) Hr) as (s' & E & Hr'); [lia|lia|lia| |].
  { intros E. apply negb_false_iff, Z.eqb_eq in E. by left. }
  exists s'. split; [done|]. enough (take (Z.to_nat (Zlen r)) (drop (Z.to_nat (Zlen k)) bs) = r) as <- by done.
  rewrite Ek. unfold Zlen. rewrite !Nat2Z.id, drop_app_length. transitivity (take (length r) (r ++ k2)); [by rewrite <- Ek2|apply take_app_length].
Qed.

(** ** Other operations on the bytes *)

Lemma map_chars_spec h f todo : forall done_ data, (done_ ++ todo ++ [0]) `prefix_of` data ->
  exists data', map_chars (length todo) (with_hdr h data) f (Zlen done_) = Ret (with_hdr h data') /\ Zlen data' = Zlen data /\
    (done_ ++ map (fun c => u8 (f c)) todo ++ [0]) `prefix_of` data'.
Proof.
  induction todo as [|c todo IH]; intros done_ data Hp; cbn [length map_chars map].
  { exists data. done. }
  destruct Hp as [r Er]. assert (0 <= Zlen done_) by apply Zlen_nonneg. rewrite s_get_data by done.
  assert (data = done_ ++ c :: (todo ++ [0]) ++ r) as E by (rewrite Er, <- !app_assoc; done).
  rewrite (rd_lookup data (Zlen done_) c), ret_bind;
    [|done|rewrite E; unfold Zlen; rewrite Nat2Z.id; by apply list_lookup_middle].
  assert (Zlen done_ < Zlen data) by (rewrite E, Zlen_app, Zlen_cons; pose proof (Zlen_nonneg ((todo ++ [0]) ++ r)); lia).
  rewrite s_put_data, ret_bind by lia.
  assert (<[Z.to_nat (Zlen done_) := u8 (f c)]> data = (done_ ++ [u8 (f c)]) ++ (todo ++ [0]) ++ r) as ->.
  { rewrite E. unfold Zlen. rewrite Nat2Z.id, insert_app_r_alt, Nat.sub_diag by lia. rewrite <- (app_assoc done_). reflexivity. }
  destruct (IH (done_ ++ [u8 (f c)]) ((done_ ++ [u8 (f c)]) ++ (todo ++ [0]) ++ r)) as (data' & Em & Hd & Hp'); [exists r; by rewrite <- !app_assoc|].
  rewrite Zlen_snoc in Em. exists data'. split; [done|]. rewrite <- app_assoc in Hp'. split; [|done].
  rewrite Hd, E, !Zlen_app, !Zlen_cons, !Zlen_app. unfold Zlen. cbn [length]. lia.
Qed.

Lemma map_spec s bs f : sds_rep s bs -> exists s', (len ← sdslen s; map_chars (Z.to_nat len) s f 0) = Ret s' /\
  sds_rep s' (map (fun c => u8 (f c)) bs).
Proof.
  intros Hr. rewrite (rep_len _ _ Hr), ret_bind. destruct Hr as (type & alloc & fl & data & -> & Hok & Hp & Hd & Hb).
  destruct (map_chars_spec (hdr_bytes type (Zlen bs) alloc fl) f bs [] data Hp) as (data' & E & Hd' & Hp').
  rewrite Zlen_nil in E. replace (Z.to_nat (Zlen bs)) with (length bs) by (unfold Zlen; lia).
  assert (Zlen (map (fun c => u8 (f c)) bs) = Zlen bs) as El by (unfold Zlen; by rewrite length_map).
  eexists. split; [exact E|]. exists type, alloc, fl, data'. rewrite El, Hd'. done.
Qed.

Lemma sdsclear_spec s bs : sds_rep s bs -> exists s', sdsclear s = Ret s' /\ sds_rep s' [].
Proof.
  intros (type & alloc & Hwf). pose proof (wf_facts _ _ _ _ Hwf) as (_ & _ & _ & _ & _ & Hl & _).
  destruct (sds_at_end s type alloc (Zlen bs) [] (at_trim s type alloc _ [] (bs ++ [0]) Hwf)) as (s' & _ & E & Hr); [rewrite Zlen_nil; lia|].
  rewrite Zlen_nil in E. by exists s'.
Qed.

Lemma c_strlen_spec (l rest : list Z) : Forall (fun c => c <> 0) l -> forall pre fuel, (length l < fuel)%nat ->
  c_strlen fuel (pre ++ l ++ 0 :: rest) (Zlen pre) = Ret (Zlen l).
Proof.
  induction 1 as [|c l Hc Hl IH]; intros pre fuel Hf; (destruct fuel as [|fuel]; [cbn in Hf; lia|]); cbn [c_strlen app].
  - rewrite rd_app_r, Z.sub_diag by lia. by rewrite rd_head, ret_bind.
  - rewrite rd_app_r, Z.sub_diag by lia. rewrite rd_head, ret_bind. apply Z.eqb_neq in Hc. rewrite Hc.
    replace (pre ++ c :: l ++ 0 :: rest) with ((pre ++ [c]) ++ l ++ 0 :: rest) by (by rewrite <- app_assoc).
    replace (Zlen pre + 1) with (Zlen (pre ++ [c])) by (by rewrite Zlen_snoc).
    rewrite IH by (cbn [length] in Hf; lia). rewrite ret_bind, Zlen_cons. done.
Qed.

(** The string up to its first zero byte. *)
Lemma sdsupdatelen_spec s bs l rest : sds_rep s bs -> bs ++ [0] = l ++ 0 :: rest -> Forall (fun c => c <> 0) l ->
  exists s', sdsupdatelen s = Ret s' /\ sds_rep s' l.
Proof.
  intros (type & alloc & Hwf) E Hnz. pose proof (wf_facts _ _ _ _ Hwf) as (_ & _ & _ & _ & _ & Hla & _).
  assert (Zlen l <= Zlen bs) as Hll.
  { apply (f_equal Zlen) in E. rewrite Zlen_snoc, Zlen_app, Zlen_cons in E. pose proof (Zlen_nonneg rest). lia. }
  destruct Hwf as (fl & data & -> & Hok & [r Er] & Hd & Hb). unfold sdsupdatelen, with_hdr. cbn [sds_block sds_pos].
  rewrite Er, E, <- app_assoc. cbn [app]. rewrite c_strlen_spec, ret_bind by (done || rewrite !length_app; lia).
  change (Build_sds (?h ++ ?d) (Zlen ?h)) with (with_hdr h d).
  rewrite (sdssetlen_ok _ _ _ _ _ Hok). eexists. split; [done|]. exists type, (five_alloc type (Zlen l) alloc), (five_flags type (Zlen l) fl).
  exists (l ++ 0 :: rest ++ r). rewrite <- hdr_bytes_five. split; [done|]. pose proof (Zlen_nonneg l).
  split; [apply (hdr_ok_setlen _ _ _ _ _ Hok); lia|]. split; [exists (rest ++ r); by rewrite <- app_assoc|].
  assert (Zlen (l ++ 0 :: rest ++ r) = Zlen data) as -> by (rewrite Er, E, <- app_assoc; done).
  unfold five_alloc. destruct (type =? SDS_TYPE_5); lia.
Qed.

(** The client has written up to the new end, or cuts the string. *)
Lemma sdsIncrLen_spec s type alloc len bs incr : sds_at s type alloc len bs -> Zlen bs = len + incr -> Zlen bs <= alloc -> Zlen bs < 2 ^ 31 ->
  - 2 ^ 31 < incr -> incr <> 0 \/ type <> SDS_TYPE_5 -> exists s', sdsIncrLen s incr = Ret s' /\ sds_rep s' bs.
Proof.
  intros Hat Hbs Hle Hsmall Hincr Hz. pose proof (at_facts _ _ _ _ _ Hat) as (Hty & Hlen & Hal & _ & _ & _ & Hl & Ht & Hmax).
  pose proof (Zlen_nonneg bs). unfold sdsIncrLen. rewrite Hty, ret_bind.
  destruct (sds_at_end s type alloc len bs Hat Hle) as (s' & _ & E & Hr). exists s'. split; [|done].
  destruct Hat as (fl & data & -> & Hok & Hp & Hd & Hb). rewrite (sdssetlen_ok _ _ _ _ _ Hok), ret_bind in E.
  destruct (Z.eqb_spec type SDS_TYPE_5) as [->|Hne].
  - rewrite (five_len _ _ _ _ _ Hok), ret_bind by done. destruct (ok_five _ _ _ _ Hok eq_refl) as [Efl ->].
    destruct Hz as [Hz|]; [|done]. pose proof (five_max _ Hmax).
    assert (u32 (- incr) = - incr) as -> by (apply wrapu_id; lia).
    destruct (Z.ltb_spec 0 incr); [lia|]. destruct (Z.ltb_spec incr 0); [|lia]. destruct (Z.leb_spec (- incr) len); [|lia].
    cbn [andb orb c_assert]. rewrite ret_bind. unfold hdr_bytes. rewrite s_put_flags, ret_bind by (done || apply sized_le).
    rewrite (wrapu_id 64) by lia. rewrite <- Hbs. rewrite <- E. unfold hdr_bytes, hdr_raw. cbn [Z.eqb SDS_TYPE_5].
    rewrite Z.lor_0_l, Z.shiftl_mul_pow2 by (unfold SDS_TYPE_BITS; lia). change (2 ^ SDS_TYPE_BITS) with 8. by rewrite (Z.mul_comm 8).
  - rewrite has_fields_spec by done. destruct (Z.eqb_spec type SDS_TYPE_5); [done|]. cbn [negb].
    unfold hdr_bytes. rewrite (hdr_alloc_field _ _ _ _ _ (ok_type _ _ _ _ Hok) (sized_le _ _) (sized_le _ _) Hne alloc), ret_bind by (done || lia).
    rewrite (hdr_len_field _ _ _ _ _ (ok_type _ _ _ _ Hok) (sized_le _ _) (sized_le _ _) Hne len), ret_bind by (done || lia).
    assert (incr_ok type alloc len incr = true) as ->.
    { pose proof (max_u64 _ _ _ _ Hok). unfold incr_ok. apply orb_true_iff. destruct (Z.leb_spec 0 incr); [left|right]; cbn [andb].
      - rewrite !(wrapu_id 64) by lia. destruct (Z.eqb_spec type SDS_TYPE_32) as [->|].
        + change (sdsTypeMaxSize SDS_TYPE_32) with (2 ^ 32 - 1) in Hmax. rewrite !wrapu_id by lia. lia.
        + destruct (type =? SDS_TYPE_64); lia.
      - rewrite (wrapu_id 64), (wrapu_id 32) by lia. destruct (type =? SDS_TYPE_64); lia. }
    cbn [c_assert]. rewrite ret_bind. rewrite set_hdr_len_field, ret_bind by (done || apply sized_le). rewrite <- Hbs.
    rewrite (hdr_len_field _ _ _ _ _ (ok_type _ _ _ _ Hok) (sized_le _ _) (sized_le _ _) Hne (Zlen bs)), ret_bind by (done || lia). done.
Qed.

Fixpoint lexcmp (s t : list Z) : comparison :=
  match s, t with
  | [], [] => Eq | [], _ :: _ => Lt | _ :: _, [] => Gt
  | a :: s, b :: t => match a ?= b with Eq => lexcmp s t | c => c end
  end.

Lemma c_memcmp_eq (a b : list Z) : length a = length b -> c_memcmp a b = 0 <-> a = b.
Proof.
  revert b. induction a as [|x a IH]; intros [|y b]; cbn [c_memcmp length]; try done. intros Hl. destruct (Z.eqb_spec x y) as [->|Hxy].
  - rewrite IH by congruence. split; congruence.
  - split; [intros; lia|congruence].
Qed.

Lemma c_memcmp_lex b1 : forall b2, let n := (length b1 `min` length b2)%nat in
  lexcmp b1 b2 = (let cmp := c_memcmp (take n b1) (take n b2) in
    if cmp =? 0 then (Zlen b1 ?= Zlen b2) else (cmp ?= 0)).
Proof.
  induction b1 as [|x b1 IH]; intros [|y b2]; cbn [length Nat.min take c_memcmp lexcmp]; try done.
  rewrite IH, !Zlen_cons. destruct (Z.eqb_spec x y) as [->|Hxy].
  - rewrite Z.compare_refl. cbv zeta. destruct (_ =? 0); [|done]. symmetry. apply Z.add_compare_mono_l.
  - destruct (Z.eqb_spec (x - y) 0); [lia|]. rewrite (Z.compare_sub x y). destruct (x - y ?= 0) eqn:E; [|done|done]. apply Z.compare_eq in E. lia.
Qed.

Lemma sdscmp_spec s1 s2 b1 b2 : sds_rep s1 b1 -> sds_rep s2 b2 -> exists r, sdscmp s1 s2 = Ret r /\ (r ?= 0) = lexcmp b1 b2.
Proof.
  intros H1 H2. unfold sdscmp. rewrite (rep_len _ _ H1), (rep_len _ _ H2), !ret_bind. cbv zeta.
  pose proof (Zlen_nonneg b1). pose proof (Zlen_nonneg b2).
  set (m := if Zlen b1 <? Zlen b2 then Zlen b1 else Zlen b2).
  assert (m = Z.of_nat (length b1 `min` length b2)) as Em by (unfold m, Zlen; destruct (Z.ltb_spec (Z.of_nat (length b1)) (Z.of_nat (length b2))); lia).
  assert (0 <= m /\ m <= Zlen b1 /\ m <= Zlen b2) by (unfold m; destruct (Z.ltb_spec (Zlen b1) (Zlen b2)); lia).
  rewrite (rep_read_sub s1 b1), (rep_read_sub s2 b2), !rdn_ok, !ret_bind by (done || lia). rewrite Em, Nat2Z.id. change (Z.to_nat 0) with O. rewrite !drop_0.
  rewrite c_memcmp_lex. cbv zeta. destruct (Z.eqb_spec (c_memcmp (take (length b1 `min` length b2) b1) (take (length b1 `min` length b2) b2)) 0).
  - eexists. split; [done|]. destruct (Z.ltb_spec (Zlen b2) (Zlen b1)); [symmetry; by apply Z.compare_gt_iff|].
    destruct (Z.ltb_spec (Zlen b1) (Zlen b2)); symmetry; [by apply Z.compare_lt_iff|apply Z.compare_eq_iff; lia].
  - eexists. split; [done|]. done.
Qed.

(** ** Creation *)

Lemma sdsempty_spec : exists s, sdsempty = Ret s /\ sds_rep s [].
Proof. unfold sdsempty. apply (sdsnewlen_from []). rewrite Zlen_nil. lia. Qed.

Lemma sdsdup_spec s bs : sds_rep s bs -> Zlen bs < 2 ^ 62 -> exists s', sdsdup s = Ret s' /\ sds_rep s' bs.
Proof.
  intros Hr Hb. unfold sdsdup. rewrite (rep_len _ _ Hr), ret_bind, (rep_read _ _ Hr), ret_bind. by apply sdsnewlen_from.
Qed.

Lemma Zlen_snoc_ge (l : list Z) x r : Zlen l <= Zlen (l ++ x :: r).
Proof. rewrite Zlen_app, Zlen_cons. pose proof (Zlen_nonneg r). lia. Qed.

Lemma fmt_signed_spec v : INT64_MIN <= v <= INT64_MAX -> fmt_signed v = Ret (dec v).
Proof.
  intros Hv. unfold fmt_signed. pose proof (dec_length v Hv). rewrite ll2string_ok, ret_bind; [|done|by rewrite <- Z2Nat.id; [unfold Zlen; rewrite length_replicate|]|lia].
  apply rdn_head.
Qed.

Lemma fmt_unsigned_spec v : 0 <= v < 2 ^ 64 -> fmt_unsigned v = Ret (decimal v).
Proof.
  intros Hv. unfold fmt_unsigned. pose proof (decimal_length_le v 19 ltac:(lia)).
  rewrite ull2string_ok, ret_bind; [apply rdn_head|done|by rewrite <- Z2Nat.id; [unfold Zlen; rewrite length_replicate|]|unfold Zlen, LONG_STR_SIZE; lia].
Qed.

Lemma sdsfromlonglong_spec v : INT64_MIN <= v <= INT64_MAX -> exists s, sdsfromlonglong v = Ret s /\ sds_rep s (dec v).
Proof.
  intros Hv. unfold sdsfromlonglong. pose proof (dec_length v Hv) as Hl. rewrite ll2string_ok, ret_bind; [|done|by rewrite <- Z2Nat.id; [unfold Zlen; rewrite length_replicate|]|lia].
  destruct (sdsnewlen_spec (InitFrom (dec v ++ 0 :: drop (S (length (dec v))) (replicate (Z.to_nat LONG_STR_SIZE) 0))) (Zlen (dec v)))
    as (s & bs & E & _ & [_ Hb] & Hr); [unfold LONG_STR_SIZE in Hl; lia|apply Zlen_snoc_ge|].
  exists s. split; [done|]. unfold Zlen in Hb. rewrite Nat2Z.id, take_app_length in Hb. by subst.
Qed.

(** ** Formatting *)

(** The text of an argument of the right type. *)
Definition arg_text (next : Z) (arg : fmt_arg) : option (list Z) :=
  match arg with
  | ArgStr t => if next =? 115 then Some t else None
  | ArgSds u => if next =? 83 then match s_bytes u with Ret t => Some t | _ => None end else None
  | ArgInt n => if (next =? 105) && (INT32_MIN <=? n) && (n <=? INT32_MAX) then Some (dec n) else None
  | ArgLongLong n => if (next =? 73) && (INT64_MIN <=? n) && (n <=? INT64_MAX) then Some (dec n) else None
  | ArgUInt n => if (next =? 117) && (0 <=? n) && (n <=? UINT32_MAX) then Some (decimal n) else None
  | ArgULongLong n => if (next =? 85) && (0 <=? n) && (n <=? UINT64_MAX) then Some (decimal n) else None
  end.

(** What a format prints; a percent sign at its end prints nothing. *)
Fixpoint fmt_ref (f : list Z) (args : list fmt_arg) : option (list Z) :=
  match f with
  | [] => Some []
  | c :: f =>
    if c =? 37 then
      match f with
      | [] => Some []
      | next :: f =>
        if is_conversion next then
          match args with
          | [] => None
          | arg :: args => t ← arg_text next arg; r ← fmt_ref f args; Some (t ++ r)
          end
        else r ← fmt_ref f args; Some (next :: r)
      end
    else r ← fmt_ref f args; Some (c :: r)
  end.

Lemma fmt_text_spec next arg t : arg_text next arg = Some t -> fmt_text next arg = Ret t.
Proof.
  unfold arg_text, fmt_text, INT32_MIN, INT32_MAX, UINT32_MAX, UINT64_MAX. destruct arg as [u|u|n|n|n|n].
  - destruct (Z.eqb_spec next 115); [congruence|done].
  - destruct (Z.eqb_spec next 83) as [->|]; [|done]. cbn [Z.eqb Pos.eqb]. destruct (s_bytes u); congruence.
  - destruct (Z.eqb_spec next 105) as [->|]; [|done]. cbn [Z.eqb Pos.eqb andb]. destruct (_ && _) eqn:E; [|done].
    intros [= <-]. apply fmt_signed_spec. unfold INT64_MIN, INT64_MAX. lia.
  - destruct (Z.eqb_spec next 73) as [->|]; [|done]. cbn [Z.eqb Pos.eqb andb]. destruct (_ && _) eqn:E; [|done].
    intros [= <-]. apply fmt_signed_spec. unfold INT64_MIN, INT64_MAX in *. lia.
  - destruct (Z.eqb_spec next 117) as [->|]; [|done]. cbn [Z.eqb Pos.eqb andb]. destruct (_ && _) eqn:E; [|done].
    intros [= <-]. apply fmt_unsigned_spec. lia.
  - destruct (Z.eqb_spec next 85) as [->|]; [|done]. cbn [Z.eqb Pos.eqb andb]. destruct (_ && _) eqn:E; [|done].
    intros [= <-]. apply fmt_unsigned_spec. lia.
Qed.

(** Between two conversions: the text so far, without a terminator, in a string
    that knows its free space. *)
Definition fmt_state s (cur : list Z) : Prop :=
  exists type alloc, SDS_TYPE_5 < type /\ sds_at s type alloc (Zlen cur) cur.

Lemma at_extend s type alloc len bs : sds_at s type alloc len bs -> Zlen bs <= alloc -> exists x, sds_at s type alloc len (bs ++ [x]).
Proof.
  intros (fl & data & -> & Hok & [[|x r] ->] & Hd & Hb) Hl; [rewrite app_nil_r in Hd; lia|].
  exists x, fl, (bs ++ x :: r). split; [done|]. split; [done|]. split; [exists r; by rewrite <- app_assoc|done].
Qed.

Lemma fmt_room s cur n : fmt_state s cur -> 0 <= n -> Zlen cur + n < 2 ^ 61 ->
  exists s' type alloc, sdsMakeRoomFor s n = Ret s' /\ SDS_TYPE_5 < type /\ sds_at s' type alloc (Zlen cur) cur /\ Zlen cur + n <= alloc.
Proof.
  intros (type & alloc & Hty & Hat) Hn Hb. pose proof (at_facts _ _ _ _ _ Hat) as (Ht & _ & _ & _ & _ & _ & Hl & _).
  destruct (at_extend _ _ _ _ _ Hat) as [x Hx]; [lia|].
  destruct (sdsMakeRoomFor_rep s type alloc cur x n true Hx Hn Hb) as (s' & type' & alloc' & E & Hat' & Ha & Hor).
  exists s', type', alloc'. split; [done|]. split; [|split; [by apply at_trim in Hat'|done]].
  destruct Hor as [->|]; [|done]. pose proof (at_facts _ _ _ _ _ Hat') as (Ht' & _). congruence.
Qed.

Lemma fmt_avail s cur n : fmt_state s cur -> 0 <= n -> Zlen cur + n < 2 ^ 61 -> forall b : bool,
  exists s' type alloc, (avail ← sdsavail s; if (if b then avail <? n else avail =? 0) && (b || (n =? 1)) then sdsMakeRoomFor s n else Ret s) = Ret s' /\
    SDS_TYPE_5 < type /\ sds_at s' type alloc (Zlen cur) cur /\ (b = true \/ n = 1 -> Zlen cur + n <= alloc).
Proof.
  intros Hst Hn Hb b. pose proof Hst as (type & alloc & Hty & Hat). pose proof (at_facts _ _ _ _ _ Hat) as (_ & _ & _ & Hav & _ & _ & Hl & _).
  rewrite Hav, ret_bind. destruct (_ && _) eqn:E.
  - destruct (fmt_room s cur n Hst Hn Hb) as (s' & t' & a' & ? & ? & ? & ?). by exists s', t', a'.
  - exists s, type, alloc. split; [done|]. split; [done|]. split; [done|]. intros Hc. destruct b; lia.
Qed.

(** Bytes written behind the text, within the room. *)
Lemma fmt_append s type alloc cur t : SDS_TYPE_5 < type -> sds_at s type alloc (Zlen cur) cur -> Zlen cur + Zlen t <= alloc ->
  exists s', (s ← s_write s (Zlen cur) t; sdsinclen s (Zlen t)) = Ret s' /\ fmt_state s' (cur ++ t).
Proof.
  intros Hty Hat Hl. pose proof (Zlen_nonneg t). destruct (write_end s type alloc (Zlen cur) cur [] t) as (s1 & -> & Hat1); [by rewrite app_nil_r|done|].
  rewrite ret_bind. destruct Hat1 as (fl & data & -> & Hok & Hp & Hd & Hb).
  rewrite (sdsinclen_ok _ _ _ _ _ Hok) by (unfold SDS_TYPE_5 in *; lia). eexists. split; [done|].
  exists type, alloc. split; [done|]. exists fl, data. rewrite Zlen_app. split; [done|]. destruct Hok as [? ? ? ? ? H5]. split; [|done].
  split; try done; [lia|]. intros ->. unfold SDS_TYPE_5 in *. lia.
Qed.

Lemma fmt_write_spec s cur t : fmt_state s cur -> Zlen cur + Zlen t < 2 ^ 61 ->
  exists s', fmt_write s (Zlen cur) t = Ret s' /\ fmt_state s' (cur ++ t).
Proof.
  intros Hst Hb. unfold fmt_write. destruct (fmt_avail s cur (Zlen t) Hst (Zlen_nonneg t) Hb true) as (s1 & type & alloc & E & Hty & Hat & Ha).
  cbn [orb] in E. destruct (sdsavail s) as [a| | |]; [|done..]. rewrite ret_bind, andb_true_r in E. rewrite ret_bind, E, ret_bind.
  apply (fmt_append _ type alloc); auto.
Qed.

Lemma fmt_char_spec s cur c type alloc : is_byte c -> SDS_TYPE_5 < type -> sds_at s type alloc (Zlen cur) cur -> Zlen cur + 1 <= alloc ->
  exists s', fmt_char s (Zlen cur) c = Ret s' /\ fmt_state s' (cur ++ [c]).
Proof.
  intros Hc Hty Hat Hl. destruct (fmt_append s type alloc cur [c] Hty Hat Hl) as (s' & E & Hst). exists s'. split; [|done].
  unfold fmt_char. rewrite <- E. change (Zlen [c]) with 1. destruct Hat as (fl & data & -> & Hok & Hp & Hd & Hb).
  destruct (put_prefix (hdr_bytes type (Zlen cur) alloc fl) data cur c Hp) as (d1 & E1 & Hd1 & Hp1); [lia|done|].
  destruct (write_prefix (hdr_bytes type (Zlen cur) alloc fl) data cur [c] Hp) as (d2 & E2 & Hd2 & Hp2); [change (Zlen [c]) with 1; lia|].
  rewrite E1, E2, !ret_bind. enough (d1 = d2) as -> by done.
  rewrite s_put_data in E1 by (pose proof (Zlen_nonneg cur); lia).
  destruct (s_write_data (hdr_bytes type (Zlen cur) alloc fl) data (Zlen cur) [c] (Zlen_nonneg cur)) as (d3 & E3 & Hw); [change (Zlen [c]) with 1; lia|].
  rewrite E3 in E2. apply Ret_inj in E1, E2. injection E1 as E1. injection E2 as E2. apply app_inv_head in E1, E2. subst d3 d1.
  rewrite wrn_ok in Hw by (try apply Zlen_nonneg; change (Zlen [c]) with 1; lia). apply Ret_inj in Hw. subst d2.
  unfold is_byte in Hc. rewrite wrapu_id by lia. rewrite insert_take_drop by (unfold Zlen in *; lia). cbn [app]. do 3 f_equal. change (Zlen [c]) with 1. pose proof (Zlen_nonneg cur). lia.
Qed.

Lemma sdscatfmt_loop_spec n : forall f args s cur text, (length f <= n)%nat -> Forall is_byte f -> fmt_ref f args = Some text ->
  fmt_state s cur -> Zlen cur + Zlen text + 1 < 2 ^ 61 ->
  exists s', sdscatfmt_loop f args s (Zlen cur) = Ret (s', Zlen (cur ++ text)) /\ fmt_state s' (cur ++ text).
Proof.
  induction n as [|n IH]; intros f args s cur text Hf Hby Href Hst Hb; (destruct f as [|c f];
    [cbn in Href; injection Href as <-; rewrite app_nil_r; by exists s|]); [cbn [length] in Hf; lia|].
  cbn [length] in Hf. apply list.Forall_cons in Hby as [Hc Hby]. cbn [fmt_ref] in Href. cbn [sdscatfmt_loop]. pose proof (Zlen_nonneg text).
  destruct (fmt_avail s cur 1 Hst ltac:(lia) ltac:(lia) false) as (s1 & type & alloc & E & Hty & Hat & Ha).
  cbn [orb] in E. change (1 =? 1) with true in E. specialize (Ha (or_intror eq_refl)).
  destruct (sdsavail s) as [a| | |]; [|done..]. rewrite ret_bind, andb_true_r in E. rewrite ret_bind, E, ret_bind. clear E.
  assert (forall d f' args' t', (length f' <= n)%nat -> Forall is_byte f' -> is_byte d -> fmt_ref f' args' = Some t' -> text = d :: t' ->
    exists s', (s ← fmt_char s1 (Zlen cur) d; sdscatfmt_loop f' args' s (Zlen cur + 1)) = Ret (s', Zlen (cur ++ text)) /\ fmt_state s' (cur ++ text)) as Hchar.
  { intros d f' args' t' Hf' Hby' Hd Ht' ->. destruct (fmt_char_spec s1 cur d type alloc Hd Hty Hat Ha) as (s2 & -> & Hst2).
    rewrite ret_bind. destruct (IH f' args' s2 (cur ++ [d]) t') as (s3 & E3 & Hst3); try done; [rewrite Zlen_snoc, Zlen_cons in *; lia|].
    rewrite Zlen_snoc, <- app_assoc in E3. rewrite <- app_assoc in Hst3. by exists s3. }
  destruct (Z.eqb_spec c 37) as [->|].
  - destruct f as [|next f]; [injection Href as <-; rewrite app_nil_r; exists s1; split; [done|by exists type, alloc]|].
    cbn [length] in Hf. apply list.Forall_cons in Hby as [Hnx Hby]. destruct (is_conversion next).
    + destruct args as [|arg args]; [done|]. destruct (arg_text next arg) as [t|] eqn:Et; [|done]. cbn in Href.
      destruct (fmt_ref f args) as [r|] eqn:Er; [|done]. cbn in Href. injection Href as <-. rewrite (fmt_text_spec _ _ _ Et), ret_bind.
      rewrite Zlen_app in Hb. pose proof (Zlen_nonneg r). pose proof (Zlen_nonneg t).
      destruct (fmt_write_spec s1 cur t) as (s2 & -> & Hst2); [by exists type, alloc|lia|]. rewrite ret_bind.
      destruct (IH f args s2 (cur ++ t) r) as (s3 & E3 & Hst3); try done; [lia|rewrite Zlen_app; lia|].
      rewrite Zlen_app, <- app_assoc in E3. rewrite <- app_assoc in Hst3. by exists s3.
    + destruct (fmt_ref f args) as [r|] eqn:Er; [|done]. cbn in Href. injection Href as <-. apply (Hchar _ _ _ r); try done. lia.
  - destruct (fmt_ref f args) as [r|] eqn:Er; [|done]. cbn in Href. injection Href as <-. apply (Hchar _ _ _ r); try done. lia.
Qed.

Lemma sdscatfmt_spec s bs f args text : sds_rep s bs -> Forall is_byte f -> fmt_ref f args = Some text ->
  Zlen bs + 2 * Zlen f < 2 ^ 60 -> Zlen text < 2 ^ 60 -> exists s', sdscatfmt s f args = Ret s' /\ sds_rep s' (bs ++ text).
Proof.
  intros Hr Hby Href Hb Ht. unfold sdscatfmt. rewrite (rep_len _ _ Hr), ret_bind. destruct Hr as (type & alloc & Hwf).
  pose proof (Zlen_nonneg f). pose proof (Zlen_nonneg bs). pose proof (Zlen_nonneg text).
  destruct (sdsMakeRoomFor_rep s type alloc bs 0 (Zlen f * 2) true Hwf) as (s1 & t1 & a1 & E & Hat & Ha & Hor); [lia|lia|].
  unfold sdsMakeRoomFor at 1. rewrite E, ret_bind.
  assert (exists s2, sdscatfmt_loop f args s1 (Zlen bs) = Ret (s2, Zlen (bs ++ text)) /\
    exists t2 a2, sds_at s2 t2 a2 (Zlen (bs ++ text)) (bs ++ text)) as (s2 & -> & t2 & a2 & Hat2).
  { destruct f as [|c f].
    - injection Href as <-. rewrite app_nil_r. exists s1. split; [done|]. exists t1, a1. by apply at_trim in Hat.
    - assert (SDS_TYPE_5 < t1) as H5.
      { pose proof (at_facts _ _ _ _ _ Hat) as (Hty1 & _ & _ & _ & _ & _ & _ & Hr1 & _). destruct Hor as [->|]; [|done].
        destruct (Z.eq_dec t1 SDS_TYPE_5) as [->|]; [|unfold SDS_TYPE_5, SDS_TYPE_64 in *; lia].
        pose proof (five_alloc_len _ _ _ _ Hat eq_refl). rewrite Zlen_cons in Ha. pose proof (Zlen_nonneg f). lia. }
      destruct (sdscatfmt_loop_spec (length (c :: f)) (c :: f) args s1 bs text) as (s2 & E2 & t2 & a2 & _ & Hat2); try done.
      + exists t1, a1. split; [done|]. by apply at_trim in Hat.
      + lia.
      + exists s2. split; [done|]. by exists t2, a2. }
  rewrite ret_bind. destruct Hat2 as (fl & data & -> & Hok & Hp & Hd & Hbd). destruct Hok as [? ? ? ? ? ?] eqn:Eok. clear Eok.
  destruct (put_prefix (hdr_bytes t2 (Zlen (bs ++ text)) a2 fl) data (bs ++ text) 0 Hp) as (d2 & E2 & Hd2 & Hp2); [lia|unfold is_byte; lia|].
  eexists. split; [exact E2|]. exists t2, a2, fl, d2. rewrite Hd2. split; [done|]. split; [by split|]. split; done.
Qed.

Lemma sdsSetAuxBit_spec s bs bit value : sds_rep s bs -> 0 <= bit <= 4 ->
  exists s', sdsSetAuxBit s bit value = Ret s' /\ sds_rep s' bs /\ (sdsType s <> Ret SDS_TYPE_5 -> sdsGetAuxBit s' bit = Ret value).
Proof.
  intros (type & alloc & Hwf) Hbit. pose proof (wf_facts _ _ _ _ Hwf) as (Hty & _). unfold sdsSetAuxBit. rewrite Hty, ret_bind.
  destruct (Z.eqb_spec type SDS_TYPE_5) as [->|Hne]; [exists s; split; [done|]; split; [by eapply wf_rep|done]|].
  destruct Hwf as (fl & data & -> & Hok & Hp & Hd & Hb). unfold hdr_bytes. rewrite s_get_flags, ret_bind by (apply sized_le || apply Hok).
  set (m := Z.shiftl 1 (SDS_TYPE_BITS + bit)). pose proof (ok_flags _ _ _ _ Hok) as Hfl. pose proof (ok_tag _ _ _ _ Hok) as Htag.
  set (v := if value then Z.lor fl m else Z.land fl (Z.lnot m)).
  assert (u8 v = v /\ is_byte v /\ Z.land v SDS_TYPE_MASK = Z.land fl SDS_TYPE_MASK /\ negb (Z.land v m =? 0) = value) as (Hu & Hv & Ht & Hget).
  { set (P := fun b => let v := if value then Z.lor b m else Z.land b (Z.lnot m) in
      (u8 v =? v) && (Z.land v SDS_TYPE_MASK =? Z.land b SDS_TYPE_MASK) && Bool.eqb (negb (Z.land v m =? 0)) value).
    enough (P fl = true) as E.
    { unfold P in E. cbv zeta in E. fold v in E. apply andb_true_iff in E as [E E3]. apply andb_true_iff in E as [E1 E2].
      apply Z.eqb_eq in E1, E2. apply eqb_prop in E3. split_and!; try done. rewrite <- E1. unfold is_byte. apply wrapu_range. lia. }
    apply (byte_forallb P); [|done]. assert (bit = 0 \/ bit = 1 \/ bit = 2 \/ bit = 3 \/ bit = 4) as Eb by lia. unfold P, m.
    destruct value, Eb as [->|[->|[->|[->| ->]]]]; vm_compute; done. }
  assert ((if value then s_put (with_hdr (hdr_raw type (le_bytes (sds_width type) (Zlen bs)) (le_bytes (sds_width type) alloc) fl) data) (-1) (Z.lor fl m)
    else s_put (with_hdr (hdr_raw type (le_bytes (sds_width type) (Zlen bs)) (le_bytes (sds_width type) alloc) fl) data) (-1) (Z.land fl (Z.lnot m))) =
    Ret (with_hdr (hdr_bytes type (Zlen bs) alloc v) data)) as ->.
  { unfold hdr_bytes. rewrite <- Hu. unfold v. destruct value; by rewrite s_put_flags by (apply sized_le || apply Hok). }
  assert (hdr_ok type (Zlen bs) alloc v) as Hok2 by (destruct Hok; split; congruence || done).
  eexists. split; [done|]. split; [by exists type, alloc, v, data|]. intros _. unfold sdsGetAuxBit.
  rewrite (sdsType_ok _ _ _ _ _ Hok2), ret_bind. apply Z.eqb_neq in Hne. rewrite Hne. unfold hdr_bytes.
  rewrite s_get_flags, ret_bind by (apply sized_le || apply Hok). fold m. by rewrite Hget.
Qed.
End ops.

(** ** Sequences of operations *)

Inductive sds_op :=
| OpCat (t : list Z) | OpCatFmt (f : list Z) (args : list fmt_arg) | OpCpy (t : list Z) | OpGrowZero (len : Z)
| OpTrim (cset : list Z) | OpSubstr (start len : Z) | OpRange (start end_ : Z) | OpLower | OpUpper | OpClear
| OpMakeRoom (addlen : Z) (greedy : bool) | OpResize (size : Z) (would_regrow : bool) | OpRemoveFree (would_regrow : bool)
| OpSetAux (bit : Z) (value : bool) | OpDup.

Section sequences.
Context `{AllocFits} (je_nallocx : option (Z -> Z)) (nallocx_ge : forall f, je_nallocx = Some f -> forall n, n <= f n).

Definition sds_step (s : sds) (o : sds_op) : outcome sds :=
  match o with
  | OpCat t => sdscatlen s t (Zlen t)
  | OpCatFmt f args => sdscatfmt s f args
  | OpCpy t => sdscpylen s t (Zlen t)
  | OpGrowZero len => sdsgrowzero s len
  | OpTrim cset => sdstrim s cset
  | OpSubstr start len => sdssubstr s start len
  | OpRange start end_ => sdsrange s start end_
  | OpLower => sdstolower s
  | OpUpper => sdstoupper s
  | OpClear => sdsclear s
  | OpMakeRoom addlen greedy => _sdsMakeRoomFor s addlen greedy
  | OpResize size would_regrow => sdsResize je_nallocx s size would_regrow
  | OpRemoveFree would_regrow => sdsRemoveFreeSpace je_nallocx s would_regrow
  | OpSetAux bit value => sdsSetAuxBit s bit value
  | OpDup => sdsdup s
  end.

Fixpoint sds_run (s : sds) (os : list sds_op) : outcome sds :=
  match os with [] => Ret s | o :: os => s ← sds_step s o; sds_run s os end.

(** The same on lists of bytes; [None] for arguments a caller may not pass, and
    sizes the theorems do not cover. *)
Definition bytes_step (bs : list Z) (o : sds_op) : option (list Z) :=
  let small n := (0 <=? n) && (n <? 2 ^ 59) in
  let index n := (INT64_MIN <=? n) && (n <=? INT64_MAX) in
  if negb (small (Zlen bs)) then None else
  match o with
  | OpCat t => if small (Zlen t) then Some (bs ++ t) else None
  | OpCatFmt f args =>
    if small (2 * Zlen f) && forallb (fun c => (0 <=? c) && (c <? 256)) f then
      text ← fmt_ref f args; if small (Zlen text) then Some (bs ++ text) else None
    else None
  | OpCpy t => if small (Zlen t) then Some t else None
  | OpGrowZero len => if small len then Some (bs ++ replicate (Z.to_nat (len - Zlen bs)) 0) else None
  | OpTrim cset => Some (trim_ref cset bs)
  | OpSubstr start len => if (0 <=? start) && (0 <=? len) then Some (substr_ref start len bs) else None
  | OpRange start end_ => if index start && index end_ then Some (range_ref start end_ bs) else None
  | OpLower => Some (map (fun c => u8 (c_tolower c)) bs)
  | OpUpper => Some (map (fun c => u8 (c_toupper c)) bs)
  | OpClear => Some []
  | OpMakeRoom addlen _ => if small addlen then Some bs else None
  | OpResize size _ => if small size then Some (take (Z.to_nat size) bs) else None
  | OpRemoveFree _ => Some bs
  | OpSetAux bit _ => if (0 <=? bit) && (bit <=? 4) then Some bs else None
  | OpDup => Some bs
  end.

Fixpoint bytes_run (bs : list Z) (os : list sds_op) : option (list Z) :=
  match os with [] => Some bs | o :: os => bs ← bytes_step bs o; bytes_run bs os end.

Lemma sdsResize_rep s bs size would_regrow : sds_rep s bs -> 0 <= size < 2 ^ 61 ->
  exists s', sdsResize je_nallocx s size would_regrow = Ret s' /\ sds_rep s' (take (Z.to_nat size) bs).
Proof using nallocx_ge H0.
  intros (type & alloc & Hwf) Hs. destruct (sdsResize_spec je_nallocx nallocx_ge s type alloc bs size would_regrow Hwf Hs)
    as (s' & type' & alloc' & E & Hwf' & _). exists s'. split; [done|]. by eapply wf_rep.
Qed.

Lemma sds_step_spec s bs o bs' : sds_rep s bs -> bytes_step bs o = Some bs' ->
  exists s', sds_step s o = Ret s' /\ sds_rep s' bs'.
Proof using nallocx_ge H0.
  intros Hr. unfold bytes_step. cbv zeta. destruct ((0 <=? Zlen bs) && (Zlen bs <? 2 ^ 59)) eqn:Hsm; [|done]. cbn [negb].
  apply andb_true_iff in Hsm as [_ Hsm]. apply Z.ltb_lt in Hsm. pose proof (Zlen_nonneg bs).
  destruct o as [t|f args|t|len|cset|start len|start end_| | | |addlen greedy|size wr|wr|bit value|]; cbn [sds_step];
    try (destruct (_ && _) eqn:E; [|done]; apply andb_true_iff in E as [E1 E2]; apply Z.leb_le in E1).
  - apply Z.ltb_lt in E2. intros [= <-]. apply sdscatlen_spec; [done|lia].
  - destruct (_ && forallb _ f) eqn:Ef; [|done]. apply andb_true_iff in Ef as [E Ef]. apply andb_true_iff in E as [_ E2]. apply Z.ltb_lt in E2. destruct (fmt_ref f args) as [text|] eqn:Et; [|done]. cbn.
    destruct (_ && _) eqn:E; [|done]. apply andb_true_iff in E as [E3 E4]. apply Z.ltb_lt in E4. intros [= <-].
    apply (sdscatfmt_spec s bs f args text Hr); [|done|lia|lia]. apply Forall_forall. intros c Hc. rewrite forallb_forall in Ef.
    specialize (Ef c Hc). unfold is_byte. lia.
  - apply Z.ltb_lt in E2. intros [= <-]. apply (sdscpylen_spec s bs); [done|lia].
  - apply Z.ltb_lt in E2. intros [= <-]. apply sdsgrowzero_spec; [done|lia].
  - intros [= <-]. by apply sdstrim_spec.
  - apply Z.leb_le in E2. intros [= <-]. by apply sdssubstr_spec.
  - destruct (_ && _) eqn:E; [|done]. intros [= <-]. apply sdsrange_spec; [done|lia|lia|lia].
  - intros [= <-]. by apply map_spec.
  - intros [= <-]. by apply map_spec.
  - intros [= <-]. by apply (sdsclear_spec s bs).
  - apply Z.ltb_lt in E2. intros [= <-]. destruct Hr as (type & alloc & Hwf).
    destruct (sdsMakeRoomFor_rep s type alloc bs 0 addlen greedy Hwf) as (s' & t' & a' & E & Hat & _); [done|lia|]. exists s'. split; [done|]. by exists t', a'.
  - apply Z.ltb_lt in E2. intros [= <-]. apply sdsResize_rep; [done|lia].
  - intros [= <-]. unfold sdsRemoveFreeSpace. rewrite (rep_len _ _ Hr), ret_bind.
    destruct (sdsResize_rep s bs (Zlen bs) wr Hr) as (s' & E & Hr'); [lia|]. exists s'. split; [done|].
    by rewrite take_ge in Hr' by (unfold Zlen; lia).
  - apply Z.leb_le in E2. intros [= <-]. destruct (sdsSetAuxBit_spec s bs bit value Hr) as (s' & ? & ? & _); [done|]. by exists s'.
  - intros [= <-]. apply sdsdup_spec; [done|lia].
Qed.

Lemma run_spec os : forall s bs bs', sds_rep s bs -> bytes_run bs os = Some bs' ->
  exists s', sds_run s os = Ret s' /\ sds_rep s' bs'.
Proof using nallocx_ge H0.
  induction os as [|o os IH]; intros s bs bs' Hr Hb; cbn [sds_run bytes_run] in *; [injection Hb as <-; by exists s|].
  destruct (bytes_step bs o) as [b|] eqn:E; [|done]. destruct (sds_step_spec s bs o b Hr E) as (s1 & -> & Hr1). by apply (IH s1 b).
Qed.
End sequences.

(** ** Properties *)

(** C11. From a new string, any sequence of appending, formatting, copying,
    trimming, cutting, case mapping, reserving, resizing, flagging and
    duplicating returns, for every header type it goes through, and the string
    is what the same sequence makes of the list of its bytes. *)
Theorem sds_refines_list `{AllocFits} (je_nallocx : option (Z -> Z)) (t : list Z) (os : list sds_op) (bs : list Z) :
  (forall f, je_nallocx = Some f -> forall n, n <= f n) -> Zlen t < 2 ^ 59 -> bytes_run t os = Some bs ->
  exists s0 s, sdsnewlen (InitFrom t) (Zlen t) = Ret s0 /\ sds_run je_nallocx s0 os = Ret s /\ s_bytes s = Ret bs.
Proof.
  intros Hje Ht Hb. destruct (sdsnewlen_from t) as (s0 & E & Hr); [lia|].
  destruct (run_spec je_nallocx Hje os s0 t bs Hr Hb) as (s & Er & Hr'). exists s0, s. split; [done|]. split; [done|]. by apply rep_bytes.
Qed.

(** C21. Whatever was done to a string, its flags name one of the five types, the
    pointer is behind a header of that type, used and free bytes add up to the
    capacity, which the fields of the type can hold and which the block contains
    with the header and the terminator, and the string ends in a zero byte. *)
Theorem sds_well_typed `{AllocFits} (je_nallocx : option (Z -> Z)) (t : list Z) (os : list sds_op) (bs : list Z) :
  (forall f, je_nallocx = Some f -> forall n, n <= f n) -> Zlen t < 2 ^ 59 -> bytes_run t os = Some bs ->
  exists s0 s type alloc, sdsnewlen (InitFrom t) (Zlen t) = Ret s0 /\ sds_run je_nallocx s0 os = Ret s /\
    sdsType s = Ret type /\ SDS_TYPE_5 <= type <= SDS_TYPE_64 /\ sds_pos s = sdsHdrSize type /\
    sdslen s = Ret (Zlen bs) /\ sdsavail s = Ret (alloc - Zlen bs) /\ sdsalloc s = Ret alloc /\
    Zlen bs <= alloc <= sdsTypeMaxSize type /\ (type = SDS_TYPE_5 -> alloc = Zlen bs) /\
    sdsAllocSize s = Ret (sdsHdrSize type + alloc + 1) /\ sdsHdrSize type + alloc + 1 <= Zlen (sds_block s) < 2 ^ 64 /\
    s_get s (Zlen bs) = Ret 0.
Proof.
  intros Hje Ht Hb. destruct (sdsnewlen_from t) as (s0 & E & Hr); [lia|].
  destruct (run_spec je_nallocx Hje os s0 t bs Hr Hb) as (s & Er & type & alloc & Hwf). exists s0, s, type, alloc.
  pose proof (at_facts _ _ _ _ _ Hwf) as (? & ? & ? & ? & ? & Hpos & ? & ? & ?). pose proof (five_alloc_len _ _ _ _ Hwf).
  split; [done|]. split; [done|]. destruct Hwf as (fl & data & -> & Hok & [r Ed] & Hd & Hbd). pose proof (Zlen_nonneg bs).
  assert (Zlen (sds_block (with_hdr (hdr_bytes type (Zlen bs) alloc fl) data)) = sdsHdrSize type + Zlen data) as ->
    by (cbn [with_hdr sds_block]; rewrite Zlen_app; f_equal; exact Hpos).
  split_and!; try done; try lia. rewrite s_get_data by lia. rewrite Ed, <- app_assoc. cbn [app]. by rewrite rd_app_r, Z.sub_diag by lia.
Qed.

(** C35. After [sdsMakeRoomFor], greedy or not, the string is the same and at least
    [addlen] bytes are free; a client that writes up to the free bytes behind the
    string and then calls [sdsIncrLen] has appended them. *)
Theorem sdsMakeRoomFor_correct `{AllocFits} (s : sds) (bs : list Z) (addlen : Z) (greedy : bool) :
  sds_rep s bs -> 0 <= addlen -> Zlen bs + addlen < 2 ^ 61 ->
  exists s' avail, _sdsMakeRoomFor s addlen greedy = Ret s' /\ s_bytes s' = Ret bs /\ sdsavail s' = Ret avail /\ addlen <= avail /\
    forall t, 0 < Zlen t <= avail -> Zlen bs + Zlen t < 2 ^ 31 ->
      exists s'', (s ← s_write s' (Zlen bs) t; sdsIncrLen s (Zlen t)) = Ret s'' /\ s_bytes s'' = Ret (bs ++ t).
Proof.
  intros (type & alloc & Hwf) Ha Hb. pose proof (Zlen_nonneg bs).
  destruct (sdsMakeRoomFor_rep s type alloc bs 0 addlen greedy Hwf Ha Hb) as (s' & t1 & a1 & E & Hat & Hl & _).
  exists s', (a1 - Zlen bs). pose proof (at_facts _ _ _ _ _ Hat) as (_ & _ & _ & Hav & _).
  split; [done|]. split; [apply rep_bytes; by exists t1, a1|]. split; [done|]. split; [lia|]. intros t Ht Hs.
  destruct (write_end s' t1 a1 (Zlen bs) bs [0] t Hat) as (s1 & -> & Hat1); [lia|]. rewrite ret_bind.
  destruct (sdsIncrLen_spec s1 t1 a1 (Zlen bs) (bs ++ t) (Zlen t) Hat1) as (s2 & E2 & Hr2); rewrite ?Zlen_app; [lia..|].
  exists s2. split; [done|]. by apply rep_bytes.
Qed.

(** [sdscatfmt] appends the format with its conversions replaced by the
    arguments, strings and decimal numbers, making room as it goes. *)
Theorem sdscatfmt_correct `{AllocFits} (s : sds) (bs f : list Z) (args : list fmt_arg) (text : list Z) :
  sds_rep s bs -> Forall is_byte f -> fmt_ref f args = Some text -> Zlen bs + 2 * Zlen f < 2 ^ 60 -> Zlen text < 2 ^ 60 ->
  exists s', sdscatfmt s f args = Ret s' /\ sds_rep s' (bs ++ text).
Proof. intros Hr. by apply sdscatfmt_spec. Qed.

(** [sdscmp] is the lexicographic order of the bytes. *)
Theorem sdscmp_correct `{AllocFits} (s1 s2 : sds) (b1 b2 : list Z) : sds_rep s1 b1 -> sds_rep s2 b2 ->
  exists r, sdscmp s1 s2 = Ret r /\ (r ?= 0) = lexcmp b1 b2.
Proof. apply sdscmp_spec. Qed.

(** ** Examples *)

Section examples.
#[local] Existing Instance exact_allocator.

(** [strchr] finds the terminator of the set: zero bytes are trimmed too. *)
Example sdstrim_zero_bytes : (s ← sdsnewlen (InitFrom [0; 65; 66; 0]) 4; s ← sdstrim s [65]; s_bytes s) = Ret [66].
Proof. vm_compute. reflexivity. Qed.

(** Only type 5 rejects an increment of 0. *)
Example sdsIncrLen_zero :
  (s ← sdsnewlen (InitFrom [65]) 1; s ← sdsIncrLen s 0; s_bytes s) = AssertFail /\
  (s ← sdsnewlen (InitFrom (replicate 40 65)) 40; s ← sdsIncrLen s 0; s_bytes s) = Ret (replicate 40 65).
Proof. split; vm_compute; reflexivity. Qed.

(** A negative start before the string is not the first byte. *)
Example sdsrange_before_start : (s ← sdsnewlen (InitFrom [65; 66; 67]) 3; s ← sdsrange s (-4) (-1); s_bytes s) = Ret [].
Proof. vm_compute. reflexivity. Qed.

Definition demo_ops : list sds_op :=
  [OpCat [1; 2; 3]; OpCatFmt [37; 115; 45; 37; 105] [ArgStr [7; 8]; ArgInt (-42)]; OpUpper; OpMakeRoom 300 true;
   OpGrowZero 60; OpTrim [65]; OpResize 7 true; OpSetAux 2 true; OpRange 1 (-2); OpRemoveFree false; OpDup].
Definition demo_result : list Z := [66; 1; 2; 3; 7].

Lemma nallocx_demo : forall f, Some (fun n : Z => n) = Some f -> forall n, n <= f n.
Proof. intros f [= <-] n. lia. Qed.

Lemma sds_refines_list_witness : Zlen [65; 98; 66] < 2 ^ 59 /\ bytes_run [65; 98; 66] demo_ops = Some demo_result /\
  exists s0 s, sdsnewlen (InitFrom [65; 98; 66]) (Zlen [65; 98; 66]) = Ret s0 /\
    sds_run (Some (fun n => n)) s0 demo_ops = Ret s /\ s_bytes s = Ret demo_result.
Proof.
  split; [reflexivity|]. split; [vm_compute; reflexivity|].
  apply (sds_refines_list (Some (fun n => n)) [65; 98; 66] demo_ops demo_result nallocx_demo); [reflexivity|vm_compute; reflexivity].
Defined.

Lemma sds_well_typed_witness : exists s0 s type alloc, sdsnewlen (InitFrom [65; 98; 66]) (Zlen [65; 98; 66]) = Ret s0 /\
    sds_run (Some (fun n => n)) s0 demo_ops = Ret s /\
    sdsType s = Ret type /\ SDS_TYPE_5 <= type <= SDS_TYPE_64 /\ sds_pos s = sdsHdrSize type /\
    sdslen s = Ret (Zlen demo_result) /\ sdsavail s = Ret (alloc - Zlen demo_result) /\ sdsalloc s = Ret alloc /\
    Zlen demo_result <= alloc <= sdsTypeMaxSize type /\ (type = SDS_TYPE_5 -> alloc = Zlen demo_result) /\
    sdsAllocSize s = Ret (sdsHdrSize type + alloc + 1) /\ sdsHdrSize type + alloc + 1 <= Zlen (sds_block s) < 2 ^ 64 /\
    s_get s (Zlen demo_result) = Ret 0.
Proof.
  apply (sds_well_typed (Some (fun n => n)) [65; 98; 66] demo_ops demo_result nallocx_demo); [reflexivity|vm_compute; reflexivity].
Defined.

Definition demo_sds : sds := Build_sds [16; 65; 66; 0] 1.

Lemma demo_sds_rep : sds_rep demo_sds [65; 66].
Proof.
  exists 0, 2, 16, [65; 66; 0]. split; [reflexivity|]. split; [split; unfold is_byte; vm_compute; intuition congruence|].
  split; [by exists []|]. split; vm_compute; congruence.
Qed.

Lemma sdsMakeRoomFor_witness : exists s' avail, _sdsMakeRoomFor demo_sds 40 true = Ret s' /\ s_bytes s' = Ret [65; 66] /\
  sdsavail s' = Ret avail /\ 40 <= avail /\
  forall t, 0 < Zlen t <= avail -> Zlen [65; 66] + Zlen t < 2 ^ 31 ->
    exists s'', (s ← s_write s' (Zlen [65; 66]) t; sdsIncrLen s (Zlen t)) = Ret s'' /\ s_bytes s'' = Ret ([65; 66] ++ t).
Proof. apply (sdsMakeRoomFor_correct demo_sds [65; 66] 40 true demo_sds_rep); vm_compute; congruence. Defined.

Lemma sdscatfmt_witness : fmt_ref [37; 83; 61; 37; 85; 37; 37] [ArgSds demo_sds; ArgULongLong 1234] = Some [65; 66; 61; 49; 50; 51; 52; 37] /\
  exists s', sdscatfmt demo_sds [37; 83; 61; 37; 85; 37; 37] [ArgSds demo_sds; ArgULongLong 1234] = Ret s' /\
    sds_rep s' ([65; 66] ++ [65; 66; 61; 49; 50; 51; 52; 37]).
Proof.
  split; [vm_compute; reflexivity|]. apply (sdscatfmt_correct demo_sds [65; 66] _ _ _ demo_sds_rep).
  - repeat constructor; vm_compute; congruence.
  - vm_compute. reflexivity.
  - reflexivity.
  - reflexivity.
Defined.
End examples.
