(* ===== verification/SdsText.v ===== *)
(** * SdsText: splitting, joining and quoting dynamic strings

    The routines of sds.c that turn strings into arrays of strings and back:
    [sdssplitlen] and [sdsjoinsds], and the quoted form of [sdscatrepr] with the
    parser of command lines [sdssplitargs]. *)

From S2P Require Import Prelude Memory NumStr Sds SdsInv SdsSpec.

(** [<ctype.h>] in the C locale. *)
Definition c_isprint (c : Z) : bool := (32 <=? c) && (c <=? 126).
Definition c_isspace (c : Z) : bool := (c =? 32) || ((9 <=? c) && (c <=? 13)).

Section text.
Context `{Allocator}.

(** ** Split and join *)

(** The test of the loop at [s+j]. *)
Definition sep_at (s sep : list Z) (j : Z) : outcome bool :=
  let seplen := Zlen sep in
  one ← (if seplen =? 1 then b ← rd s j; c ← rd sep 0; Ret (b =? c) else Ret false);
  if one : bool then Ret true else b ← rdn s j seplen; Ret (c_memcmp b sep =? 0).

(** The array of tokens and [start], when the loop ends; the array grows as needed. *)
Fixpoint split_loop (fuel : nat) (s sep : list Z) (tokens : list sds) (start j : Z) : outcome (list sds * Z) :=
  if j <? Zlen s - (Zlen sep - 1) then
    match fuel with
    | O => OutOfFuel
    | S fuel =>
      found ← sep_at s sep j;
      if found : bool then
        bs ← rdn s start (j - start);
        tok ← sdsnewlen (InitFrom bs) (j - start);
        let start := j + Zlen sep in
        let j := j + Zlen sep - 1 in
        split_loop fuel s sep (tokens ++ [tok]) start (j + 1)
      else split_loop fuel s sep tokens start (j + 1)
    end
  else Ret (tokens, start).

(** [None] for NULL. *)
Definition sdssplitlen (s sep : list Z) : outcome (option (list sds)) :=
  if (Zlen sep <? 1) || (Zlen s <=? 0) then Ret None else
  '(tokens, start) ← split_loop (length s) s sep [] 0 0;
  bs ← rdn s start (Zlen s - start);
  tok ← sdsnewlen (InitFrom bs) (Zlen s - start);
  Ret (Some (tokens ++ [tok])).

Fixpoint join_loop (argv : list (list Z)) (sep : list Z) (join : sds) : outcome sds :=
  match argv with
  | [] => Ret join
  | a :: argv =>
    join ← sdscat join a;
    join ← (if negb (Zlen argv =? 0) then sdscat join sep else Ret join);
    join_loop argv sep join
  end.
Definition sdsjoin (argv : list (list Z)) (sep : list Z) : outcome sds := join ← sdsempty; join_loop argv sep join.

Fixpoint joinsds_loop (argv : list sds) (sep : list Z) (join : sds) : outcome sds :=
  match argv with
  | [] => Ret join
  | a :: argv =>
    join ← sdscatsds join a;
    join ← (if negb (Zlen argv =? 0) then sdscatlen join sep (Zlen sep) else Ret join);
    joinsds_loop argv sep join
  end.
Definition sdsjoinsds (argv : list sds) (sep : list Z) : outcome sds := join ← sdsempty; joinsds_loop argv sep join.

(** ** Quoting *)

(** A digit of [%02x]. *)
Definition hex_digit (d : Z) : Z := if d <? 10 then 48 + d else 87 + d.

(** One character of the loop of [sdscatrepr]. *)
Definition catrepr_char (s : sds) (c : Z) : outcome sds :=
  if (c =? 92) || (c =? 34) then t ← sdscatprintf s [92; 37; 99] [92; c]; deref t
  else if c =? 10 then sdscatlen s [92; 110] 2
  else if c =? 13 then sdscatlen s [92; 114] 2
  else if c =? 9 then sdscatlen s [92; 116] 2
  else if c =? 7 then sdscatlen s [92; 97] 2
  else if c =? 8 then sdscatlen s [92; 98] 2
  else if c_isprint c then sdscatlen s [c] 1
  else t ← sdscatprintf s [92; 120; 37; 48; 50; 120] [92; 120; hex_digit (c / 16); hex_digit (c mod 16)]; deref t.

Fixpoint catrepr_loop (p : list Z) (s : sds) : outcome sds :=
  match p with [] => Ret s | c :: p => s ← catrepr_char s c; catrepr_loop p s end.

Definition sdscatrepr (s : sds) (p : list Z) : outcome sds :=
  s ← sdsMakeRoomFor s (Zlen p + 2);
  s ← sdscatlen s [34] 1;
  s ← catrepr_loop p s;
  sdscatlen s [34] 1.

Definition needs_escape (c : Z) : bool :=
  (c =? 92) || (c =? 34) || (c =? 10) || (c =? 13) || (c =? 9) || (c =? 7) || (c =? 8) || negb (c_isprint c) || c_isspace c.

Definition sdsneedsrepr (s : sds) : outcome bool :=
  len ← sdslen s; p ← s_read s 0 len; Ret (existsb needs_escape p).

(** ** Command lines *)

Definition is_hex_digit (c : Z) : bool :=
  ((48 <=? c) && (c <=? 57)) || ((97 <=? c) && (c <=? 102)) || ((65 <=? c) && (c <=? 70)).

Definition hex_digit_to_int (c : Z) : Z :=
  if (48 <=? c) && (c <=? 57) then c - 48
  else if (97 <=? c) && (c <=? 102) then c - 87
  else if (65 <=? c) && (c <=? 70) then c - 55 else 0.

(** [p] is what is left of the line; [*(p+k)] may be the terminator. *)
Definition ch (p : list Z) (k : Z) : outcome Z := rd (p ++ [0]) k.

(** A backslash, an x and two hexadecimal digits, read only as far as they match. *)
Definition is_hex_escape (p : list Z) : outcome bool :=
  c0 ← ch p 0; if negb (c0 =? 92) then Ret false else
  c1 ← ch p 1; if negb (c1 =? 120) then Ret false else
  c2 ← ch p 2; if negb (is_hex_digit c2) then Ret false else
  c3 ← ch p 3; Ret (is_hex_digit c3).

Definition unescape (c : Z) : Z :=
  if c =? 110 then 10 else if c =? 114 then 13 else if c =? 116 then 9 else if c =? 98 then 8 else if c =? 97 then 7 else c.

Definition cat_char (current : sds) (c : Z) : outcome sds := sdscatlen current [c] 1.

Inductive quoting := Unquoted | InQuotes | InSingleQuotes.

(** One round of [while(!done)] up to its last statement: [p], [current], the
    kind of quotes and [done], or [None] for [goto err]. *)
Definition token_step (p : list Z) (q : quoting) (current : sds) : outcome (option (list Z * sds * quoting * bool)) :=
  c ← ch p 0;
  match q with
  | InQuotes =>
    hex ← is_hex_escape p;
    if hex : bool then
      c2 ← ch p 2; c3 ← ch p 3;
      let byte := u8 (hex_digit_to_int c2 * 16 + hex_digit_to_int c3) in
      current ← cat_char current byte; Ret (Some (drop 3 p, current, q, false))
    else
    escape ← (if c =? 92 then c1 ← ch p 1; Ret (negb (c1 =? 0)) else Ret false);
    if escape : bool then
      c1 ← ch p 1; current ← cat_char current (unescape c1); Ret (Some (drop 1 p, current, q, false))
    else if c =? 34 then
      c1 ← ch p 1;
      if negb (c1 =? 0) && negb (c_isspace c1) then Ret None else Ret (Some (p, current, q, true))
    else if c =? 0 then Ret None
    else current ← cat_char current c; Ret (Some (p, current, q, false))
  | InSingleQuotes =>
    escape ← (if c =? 92 then c1 ← ch p 1; Ret (c1 =? 39) else Ret false);
    if escape : bool then current ← cat_char current 39; Ret (Some (drop 1 p, current, q, false))
    else if c =? 39 then
      c1 ← ch p 1;
      if negb (c1 =? 0) && negb (c_isspace c1) then Ret None else Ret (Some (p, current, q, true))
    else if c =? 0 then Ret None
    else current ← cat_char current c; Ret (Some (p, current, q, false))
  | Unquoted =>
    if bool_decide (c ∈ [32; 10; 13; 9; 0]) then Ret (Some (p, current, q, true))
    else if c =? 34 then Ret (Some (p, current, InQuotes, false))
    else if c =? 39 then Ret (Some (p, current, InSingleQuotes, false))
    else current ← cat_char current c; Ret (Some (p, current, q, false))
  end.

(** The loop: the token and what is left after it. *)
Fixpoint token_loop (fuel : nat) (p : list Z) (q : quoting) (current : sds) : outcome (option (sds * list Z)) :=
  match fuel with
  | O => OutOfFuel
  | S fuel =>
    r ← token_step p q current;
    match r with
    | None => Ret None
    | Some (p, current, q, done) =>
      c ← ch p 0;
      let p := if negb (c =? 0) then drop 1 p else p in
      if done : bool then Ret (Some (current, p)) else token_loop fuel p q current
    end
  end.

(** The loop that skips blanks. *)
Fixpoint skip_blanks (p : list Z) : list Z :=
  match p with c :: p' => if c_isspace c then skip_blanks p' else p | [] => [] end.

Fixpoint splitargs_loop (fuel : nat) (p : list Z) (vector : list sds) : outcome (option (list sds)) :=
  match fuel with
  | O => OutOfFuel
  | S fuel =>
    let p := skip_blanks p in
    c ← ch p 0;
    if negb (c =? 0) then
      current ← sdsempty;
      r ← token_loop (S (S (length p))) p Unquoted current;
      match r with
      | None => Ret None
      | Some (current, p) => splitargs_loop fuel p (vector ++ [current])
      end
    else Ret (Some vector)
  end.

(** The vector, or [None] for NULL; [argc] is its length, or 0. *)
Definition sdssplitargs (line : list Z) : outcome (option (list sds)) := splitargs_loop (S (length line)) line [].
End text.
