(* ===== verification/SdsTextSpec.v ===== *)
(** * SdsTextSpec: the promises of the text routines of sds.c

    Split and join against their meaning on lists, the quoted form and its
    parser as inverses, and the parser on every line. *)

From S2P Require Import Prelude Memory NumStr Sds SdsInv SdsSpec SdsText.

(** ** What splitting and joining mean *)

(** The leftmost separators, one after the other; [skip] characters of the last
    one are left. *)
Fixpoint split_ref (sep : list Z) (skip : nat) (cur s : list Z) : list (list Z) :=
  match s with
  | [] => [cur]
  | c :: s' =>
    match skip with
    | S k => split_ref sep k cur s'
    | O => if bool_decide (sep `prefix_of` s) then cur :: split_ref sep (length sep - 1) [] s'
           else split_ref sep 0 (cur ++ [c]) s'
    end
  end.

Fixpoint join_ref (sep : list Z) (l : list (list Z)) : list Z :=
  match l with [] => [] | [a] => a | a :: l => a ++ sep ++ join_ref sep l end.

Lemma split_ref_skip sep k : forall cur s, (k <= length s)%nat -> split_ref sep k cur s = split_ref sep 0 cur (drop k s).
Proof. induction k as [|k IH]; intros cur s Hk; [done|]. destruct s as [|c s]; cbn in Hk; [lia|]. cbn [split_ref drop]. apply IH. lia. Qed.

Lemma split_ref_short sep s : forall cur, (length s < length sep)%nat -> split_ref sep 0 cur s = [cur ++ s].
Proof.
  induction s as [|c s IH]; intros cur Hl; cbn [split_ref]; [by rewrite app_nil_r|].
  rewrite bool_decide_eq_false_2; [|intros Hp%prefix_length; lia]. rewrite IH by (cbn in Hl; lia). by rewrite <- app_assoc.
Qed.

Lemma split_ref_sep sep cur s : sep <> [] -> split_ref sep 0 cur (sep ++ s) = cur :: split_ref sep 0 [] s.
Proof.
  destruct sep as [|x sep]; [done|]. intros _. cbn [app split_ref]. rewrite bool_decide_eq_true_2 by (by exists s).
  f_equal. replace (length (x :: sep) - 1)%nat with (length sep) by (cbn; lia).
  rewrite split_ref_skip by (rewrite length_app; lia). by rewrite drop_app_length.
Qed.

Lemma split_ref_ne sep k cur s : split_ref sep k cur s <> [].
Proof. revert k cur. induction s as [|c s IH]; intros k cur; cbn [split_ref]; [done|]. destruct k; [|done]. by case_bool_decide. Qed.

Lemma join_split sep : sep <> [] -> forall n s cur, (length s <= n)%nat -> join_ref sep (split_ref sep 0 cur s) = cur ++ s.
Proof.
  intros Hsep. induction n as [|n IH]; intros s cur Hn; (destruct s as [|c s]; [by rewrite app_nil_r|]); [cbn in Hn; lia|].
  destruct (decide (sep `prefix_of` c :: s)) as [[r E]|Hp].
  - rewrite E, split_ref_sep by done. cbn [join_ref]. destruct (split_ref sep 0 [] r) as [|a l] eqn:Es; [by apply split_ref_ne in Es|].
    rewrite <- Es, IH; [done|]. apply (f_equal length) in E. rewrite length_app in E. destruct sep; [done|]. cbn in E, Hn. lia.
  - cbn [split_ref]. rewrite bool_decide_eq_false_2 by done. rewrite IH by (cbn in Hn; lia). by rewrite <- app_assoc.
Qed.

(** For one character, splitting what was joined. *)
Lemma split_ref_token x a : x ∉ a -> forall cur r, split_ref [x] 0 cur (a ++ x :: r) = (cur ++ a) :: split_ref [x] 0 [] r.
Proof.
  induction a as [|c a IH]; intros Hx cur r.
  - rewrite app_nil_r. by apply (split_ref_sep [x]).
  - apply not_elem_of_cons in Hx as [Hc Hx]. cbn [app split_ref]. rewrite bool_decide_eq_false_2.
    + rewrite IH by done. by rewrite <- app_assoc.
    + intros [k E]. by injection E.
Qed.

Lemma split_ref_last x a : x ∉ a -> forall cur, split_ref [x] 0 cur a = [cur ++ a].
Proof.
  induction a as [|c a IH]; intros Hx cur; cbn [split_ref]; [by rewrite app_nil_r|]. apply not_elem_of_cons in Hx as [Hc Hx].
  rewrite bool_decide_eq_false_2; [rewrite IH by done; by rewrite <- app_assoc|]. intros [k E]. by injection E.
Qed.

Lemma split_join x l : l <> [] -> Forall (fun a => x ∉ a) l -> split_ref [x] 0 [] (join_ref [x] l) = l.
Proof.
  induction l as [|a l IH]; [done|]. intros _ [Ha Hl]%list.Forall_cons. destruct l as [|b l]; cbn [join_ref]; [by apply split_ref_last|].
  cbn [app]. rewrite split_ref_token by done. cbn [app]. f_equal. by apply IH.
Qed.

Section proofs.
Context `{AllocFits}.

Lemma sep_at_spec s sep j : sep <> [] -> 0 <= j -> j + Zlen sep <= Zlen s ->
  sep_at s sep j = Ret (bool_decide (sep `prefix_of` drop (Z.to_nat j) s)).
Proof.
  intros Hsep Hj Hl. pose proof (Zlen_nonneg sep). unfold sep_at. cbv zeta.
  assert (sep `prefix_of` drop (Z.to_nat j) s <-> take (Z.to_nat (Zlen sep)) (drop (Z.to_nat j) s) = sep) as Hiff.
  { unfold Zlen. rewrite Nat2Z.id. split; [intros [r ->]; apply take_app_length|]. intros E. exists (drop (length sep) (drop (Z.to_nat j) s)).
    rewrite <- E at 1. by rewrite take_drop. }
  assert (Zlen (take (Z.to_nat (Zlen sep)) (drop (Z.to_nat j) s)) = Zlen sep) as Hlen by (apply Zlen_take; rewrite Zlen_drop by lia; lia).
  assert ((b ← rdn s j (Zlen sep); Ret (c_memcmp b sep =? 0)) = Ret (bool_decide (sep `prefix_of` drop (Z.to_nat j) s))) as Hm.
  { rewrite rdn_ok, ret_bind by lia. f_equal. apply eq_true_iff_eq. rewrite Z.eqb_eq, bool_decide_eq_true, Hiff. apply c_memcmp_eq.
    apply Nat2Z.inj. exact Hlen. }
  destruct (Z.eqb_spec (Zlen sep) 1) as [E1|E1]; [|by rewrite ret_bind].
  destruct sep as [|x [|y sep]]; [done| |rewrite !Zlen_cons in E1; pose proof (Zlen_nonneg sep); lia].
  destruct (rd_ok s j) as [b Hb]; [lia|]. rewrite Hb, ret_bind, rd_head, ret_bind, ret_bind.
  destruct (Z.eqb_spec b x) as [->|Hne]; [|done]. f_equal. symmetry. apply bool_decide_eq_true.
  apply rd_Ret_inv in Hb as [_ Hb]. apply drop_S in Hb. rewrite Hb. by exists (drop (S (Z.to_nat j)) s).
Qed.

Lemma split_loop_spec s sep : sep <> [] -> Zlen s < 2 ^ 60 -> forall fuel tokens l start j,
  0 <= start <= j -> j <= Zlen s -> Zlen s - j <= Z.of_nat fuel -> Forall2 sds_rep tokens l ->
  exists tokens' l' start', split_loop fuel s sep tokens start j = Ret (tokens', start') /\ 0 <= start' <= Zlen s /\
    Forall2 sds_rep tokens' l' /\
    l ++ split_ref sep 0 (drop (Z.to_nat start) (take (Z.to_nat j) s)) (drop (Z.to_nat j) s) = l' ++ [drop (Z.to_nat start') s].
Proof.
  intros Hsep Hbig. pose proof (Zlen_nonneg sep). assert (0 < Zlen sep) by (destruct sep; [done|rewrite Zlen_cons; pose proof (Zlen_nonneg sep); lia]).
  induction fuel as [|fuel IH]; intros tokens l start j Hst Hj Hf Hrep.
  all: cbn [split_loop]; destruct (Z.ltb_spec j (Zlen s - (Zlen sep - 1))) as [Hlt|Hlt]; [|exists tokens, l, start; split; [done|]; split; [lia|]; split; [done|];
    rewrite split_ref_short by (rewrite length_drop; unfold Zlen in *; lia); do 2 f_equal;
    rewrite <- (take_drop (Z.to_nat j) s) at 3; rewrite drop_app_le; [done|rewrite length_take; unfold Zlen in *; lia]].
  { lia. }
  rewrite sep_at_spec, ret_bind by (done || lia). case_bool_decide as Hp.
  - rewrite rdn_ok, ret_bind by lia. set (a := take (Z.to_nat (j - start)) (drop (Z.to_nat start) s)).
    assert (Zlen a = j - start) as Ha by (unfold a; apply Zlen_take; rewrite Zlen_drop by lia; lia).
    destruct (sdsnewlen_from a) as (tok & E & Hr); [lia|]. rewrite Ha in E. rewrite E, ret_bind.
    destruct (IH (tokens ++ [tok]) (l ++ [a]) (j + Zlen sep) (j + Zlen sep - 1 + 1)) as (ts & l' & st & -> & Hst' & Hrep' & Eq); [lia|lia|lia| |].
    { apply Forall2_app; [done|]. by constructor. }
    exists ts, l', st. split; [done|]. split; [done|]. split; [done|]. rewrite <- Eq. rewrite <- app_assoc. f_equal.
    destruct Hp as [r Er]. rewrite Er. rewrite split_ref_sep by done. cbn [app]. f_equal.
    + unfold a. rewrite take_drop_commute. do 2 f_equal. lia.
    + replace (j + Zlen sep - 1 + 1) with (j + Zlen sep) by lia.
      rewrite drop_ge by (rewrite length_take; lia). f_equal.
      replace (Z.to_nat (j + Zlen sep)) with (Z.to_nat j + length sep)%nat by (unfold Zlen in *; lia).
      rewrite <- drop_drop, Er. by rewrite drop_app_length.
  - destruct (IH tokens l start (j + 1)) as (ts & l' & st & -> & Hst' & Hrep' & Eq); [lia|lia|lia|done|].
    exists ts, l', st. split; [done|]. split; [done|]. split; [done|]. rewrite <- Eq. f_equal.
    destruct (rd_ok s j) as [c Hc]; [lia|]. apply rd_Ret_inv in Hc as [_ Hc]. pose proof (drop_S _ _ _ Hc) as Ed. rewrite Ed in Hp |- *.
    cbn [split_ref]. rewrite bool_decide_eq_false_2 by done. replace (Z.to_nat (j + 1)) with (S (Z.to_nat j)) by lia. f_equal.
    rewrite (take_S_r _ _ _ Hc). rewrite drop_app_le; [done|rewrite length_take; unfold Zlen in *; lia].
Qed.

Lemma sdssplitlen_spec s sep : sep <> [] -> s <> [] -> Zlen s < 2 ^ 60 ->
  exists tokens, sdssplitlen s sep = Ret (Some tokens) /\ Forall2 sds_rep tokens (split_ref sep 0 [] s).
Proof.
  intros Hsep Hs Hb. unfold sdssplitlen. assert (0 < Zlen s) by (destruct s; [done|rewrite Zlen_cons; pose proof (Zlen_nonneg s); lia]).
  assert (0 < Zlen sep) by (destruct sep; [done|rewrite Zlen_cons; pose proof (Zlen_nonneg sep); lia]).
  destruct (Z.ltb_spec (Zlen sep) 1); [lia|]. destruct (Z.leb_spec (Zlen s) 0); [lia|]. cbn [orb].
  destruct (split_loop_spec s sep Hsep Hb (length s) [] [] 0 0) as (ts & l' & st & -> & Hst & Hrep & Eq); [lia|lia|unfold Zlen; lia|done|].
  rewrite ret_bind. rewrite rdn_ok, ret_bind by lia.
  assert (take (Z.to_nat (Zlen s - st)) (drop (Z.to_nat st) s) = drop (Z.to_nat st) s) as -> by (apply take_ge; rewrite length_drop; unfold Zlen in *; lia).
  destruct (sdsnewlen_from (drop (Z.to_nat st) s)) as (tok & E & Hr); [rewrite Zlen_drop by lia; lia|]. rewrite Zlen_drop in E by lia.
  rewrite E, ret_bind. eexists. split; [done|]. change (Z.to_nat 0) with O in Eq. rewrite !drop_0 in Eq. change (take 0 s) with (@nil Z) in Eq. cbn [app] in Eq. rewrite Eq.
  apply Forall2_app; [done|]. by constructor.
Qed.

Lemma joinsds_loop_spec sep toks l : Forall2 sds_rep toks l -> forall join cur, sds_rep join cur ->
  Zlen cur + Zlen (join_ref sep l) < 2 ^ 61 ->
  exists join', joinsds_loop toks sep join = Ret join' /\ sds_rep join' (cur ++ join_ref sep l).
Proof.
  induction 1 as [|tok a toks l Hta Hrest IH]; intros join cur Hr Hb; cbn [joinsds_loop]; [rewrite app_nil_r; by exists join|].
  pose proof (Zlen_nonneg a). pose proof (Zlen_nonneg sep).
  destruct l as [|b l].
  - inversion Hrest; subst. cbn [join_ref] in *. destruct (sdscatsds_spec join cur tok a Hr Hta Hb) as (j1 & -> & Hr1). rewrite ret_bind.
    change (negb (Zlen (@nil sds) =? 0)) with false. cbv iota. rewrite ret_bind. by exists j1.
  - cbn [join_ref] in *. rewrite !Zlen_app in Hb. pose proof (Zlen_nonneg (join_ref sep (b :: l))).
    destruct (sdscatsds_spec join cur tok a Hr Hta) as (j1 & -> & Hr1); [cbn [join_ref] in *; lia|]. rewrite ret_bind.
    assert (negb (Zlen toks =? 0) = true) as ->.
    { inversion Hrest; subst. rewrite Zlen_cons. apply negb_true_iff, Z.eqb_neq. pose proof (Zlen_nonneg l0). lia. }
    destruct (sdscatlen_spec j1 (cur ++ a) sep Hr1) as (j2 & -> & Hr2); [rewrite Zlen_app; cbn [join_ref] in *; lia|]. rewrite ret_bind.
    destruct (IH j2 ((cur ++ a) ++ sep) Hr2) as (j3 & -> & Hr3); [rewrite !Zlen_app; cbn [join_ref] in *; lia|]. exists j3. split; [done|].
    by rewrite <- !app_assoc in Hr3.
Qed.

Lemma sdsjoinsds_spec sep toks l : Forall2 sds_rep toks l -> Zlen (join_ref sep l) < 2 ^ 61 ->
  exists join, sdsjoinsds toks sep = Ret join /\ sds_rep join (join_ref sep l).
Proof.
  intros Hf Hb. unfold sdsjoinsds. destruct sdsempty_spec as (j0 & -> & Hr0). rewrite ret_bind.
  by apply (joinsds_loop_spec sep toks l Hf j0 []).
Qed.

Lemma join_loop_spec sep l : forall join cur, sds_rep join cur -> Zlen cur + Zlen (join_ref sep l) < 2 ^ 61 ->
  exists join', join_loop l sep join = Ret join' /\ sds_rep join' (cur ++ join_ref sep l).
Proof.
  induction l as [|a l IH]; intros join cur Hr Hb; cbn [join_loop]; [rewrite app_nil_r; by exists join|].
  pose proof (Zlen_nonneg a). pose proof (Zlen_nonneg sep). destruct l as [|b l].
  - destruct (sdscat_spec join cur a Hr Hb) as (j1 & -> & Hr1). rewrite ret_bind. cbn [join_loop]. change (negb (Zlen (@nil (list Z)) =? 0)) with false. cbv iota.
    rewrite ret_bind. by exists j1.
  - change (join_ref sep (a :: b :: l)) with (a ++ sep ++ join_ref sep (b :: l)) in *. rewrite !Zlen_app in Hb.
    pose proof (Zlen_nonneg (join_ref sep (b :: l))).
    destruct (sdscat_spec join cur a Hr) as (j1 & -> & Hr1); [lia|]. rewrite ret_bind.
    assert (negb (Zlen (b :: l) =? 0) = true) as -> by (rewrite Zlen_cons; apply negb_true_iff, Z.eqb_neq; pose proof (Zlen_nonneg l); lia).
    destruct (sdscat_spec j1 (cur ++ a) sep Hr1) as (j2 & -> & Hr2); [rewrite Zlen_app; lia|]. rewrite ret_bind.
    destruct (IH j2 ((cur ++ a) ++ sep) Hr2) as (j3 & -> & Hr3); [rewrite !Zlen_app; lia|]. exists j3. split; [done|].
    by rewrite <- !app_assoc in Hr3.
Qed.

Lemma sdsjoin_spec sep l : Zlen (join_ref sep l) < 2 ^ 61 -> exists join, sdsjoin l sep = Ret join /\ sds_rep join (join_ref sep l).
Proof.
  intros Hb. unfold sdsjoin. destruct sdsempty_spec as (j0 & -> & Hr0). rewrite ret_bind. by apply (join_loop_spec sep l j0 []).
Qed.

(** ** The quoted form *)

Definition esc (c : Z) : list Z :=
  if (c =? 92) || (c =? 34) then [92; c]
  else if c =? 10 then [92; 110] else if c =? 13 then [92; 114] else if c =? 9 then [92; 116]
  else if c =? 7 then [92; 97] else if c =? 8 then [92; 98]
  else if c_isprint c then [c] else [92; 120; hex_digit (c / 16); hex_digit (c mod 16)].

Definition body (p : list Z) : list Z := concat (map esc p).
Definition repr (p : list Z) : list Z := 34 :: body p ++ [34].

Lemma qbody_cons c p : body (c :: p) = esc c ++ body p.
Proof. done. Qed.

Lemma esc_length c : 1 <= Zlen (esc c) <= 4.
Proof. unfold esc, Zlen. repeat case_match; cbn; lia. Qed.

Lemma body_length p : Zlen p <= Zlen (body p) <= 4 * Zlen p.
Proof. induction p as [|c p IH]; [by rewrite Zlen_nil|]. rewrite qbody_cons, Zlen_app, Zlen_cons. pose proof (esc_length c). lia. Qed.

Lemma catrepr_char_spec s bs c : sds_rep s bs -> Zlen bs + 4 < 2 ^ 61 ->
  exists s', catrepr_char s c = Ret s' /\ sds_rep s' (bs ++ esc c).
Proof.
  intros Hr Hb. assert (forall t, Zlen t <= 4 -> exists s', sdscatlen s t (Zlen t) = Ret s' /\ sds_rep s' (bs ++ t)) as Hcat
    by (intros t Ht; apply sdscatlen_spec; [done|lia]).
  assert (forall fmt t, Zlen fmt < 2 ^ 62 -> Zlen t <= 4 -> exists s', (t ← sdscatprintf s fmt t; deref t) = Ret s' /\ sds_rep s' (bs ++ t)) as Hprintf.
  { intros fmt t Hf Ht. destruct (sdscatprintf_spec s bs fmt t Hr Hf) as (s' & -> & Hs'); [lia..|]. by exists s'. }
  unfold catrepr_char, esc.
  destruct ((c =? 92) || (c =? 34)); [apply Hprintf; done|]. destruct (c =? 10); [apply (Hcat [92; 110]); done|].
  destruct (c =? 13); [apply (Hcat [92; 114]); done|]. destruct (c =? 9); [apply (Hcat [92; 116]); done|].
  destruct (c =? 7); [apply (Hcat [92; 97]); done|]. destruct (c =? 8); [apply (Hcat [92; 98]); done|].
  destruct (c_isprint c); [apply (Hcat [c]); done|]. apply Hprintf; done.
Qed.

Lemma catrepr_loop_spec p : forall s bs, sds_rep s bs -> Zlen bs + 4 * Zlen p < 2 ^ 61 - 4 ->
  exists s', catrepr_loop p s = Ret s' /\ sds_rep s' (bs ++ body p).
Proof.
  induction p as [|c p IH]; intros s bs Hr Hb; cbn [catrepr_loop]; [rewrite app_nil_r; by exists s|].
  rewrite Zlen_cons in Hb. pose proof (Zlen_nonneg p).
  destruct (catrepr_char_spec s bs c Hr) as (s1 & -> & Hr1); [lia|]. rewrite ret_bind.
  destruct (IH s1 (bs ++ esc c) Hr1) as (s2 & -> & Hr2); [rewrite Zlen_app; pose proof (esc_length c); lia|].
  exists s2. split; [done|]. rewrite qbody_cons. by rewrite <- app_assoc in Hr2.
Qed.

Lemma sdscatrepr_spec s bs p : sds_rep s bs -> Zlen bs + 4 * Zlen p < 2 ^ 60 ->
  exists s', sdscatrepr s p = Ret s' /\ sds_rep s' (bs ++ repr p).
Proof.
  intros (type & alloc & Hwf) Hb. pose proof (Zlen_nonneg p). pose proof (Zlen_nonneg bs). unfold sdscatrepr.
  destruct (sdsMakeRoomFor_rep s type alloc bs 0 (Zlen p + 2) true Hwf) as (s1 & t1 & a1 & E & Hat & _); [lia|lia|].
  unfold sdsMakeRoomFor. rewrite E, ret_bind. clear E.
  destruct (sdscatlen_spec s1 bs [34]) as (s2 & E2 & Hr2); [by exists t1, a1|change (Zlen [34]) with 1; lia|].
  change (Zlen [34]) with 1 in E2. rewrite E2, ret_bind.
  destruct (catrepr_loop_spec p s2 (bs ++ [34]) Hr2) as (s3 & -> & Hr3); [rewrite Zlen_snoc; lia|]. rewrite ret_bind.
  pose proof (body_length p). destruct (sdscatlen_spec s3 ((bs ++ [34]) ++ body p) [34] Hr3) as (s4 & E4 & Hr4);
    [rewrite Zlen_app, Zlen_snoc; change (Zlen [34]) with 1; lia|].
  change (Zlen [34]) with 1 in E4. exists s4. split; [done|]. unfold repr. by rewrite <- !app_assoc in Hr4.
Qed.

(** ** Reading it back *)

Lemma ch_cons c p k : 0 <= k -> ch (c :: p) (k + 1) = ch p k.
Proof. intros Hk. unfold ch. cbn [app]. rewrite rd_cons by lia. f_equal. lia. Qed.
Lemma ch_0 c p : ch (c :: p) 0 = Ret c.
Proof. done. Qed.
Lemma ch_1 c p : ch (c :: p) 1 = ch p 0.
Proof. by apply (ch_cons c p 0). Qed.
Lemma ch_2 c p : ch (c :: p) 2 = ch p 1.
Proof. by apply (ch_cons c p 1). Qed.
Lemma ch_3 c p : ch (c :: p) 3 = ch p 2.
Proof. by apply (ch_cons c p 2). Qed.

(** One round and the [if ( *p) p++] that ends it. *)
Definition token_round (p : list Z) (q : quoting) (current : sds) : outcome (option (list Z * sds * quoting * bool)) :=
  r ← token_step p q current;
  match r with
  | None => Ret None
  | Some (p, current, q, d) => c ← ch p 0; Ret (Some (if negb (c =? 0) then drop 1 p else p, current, q, d))
  end.

Lemma token_loop_round fuel p q current : token_loop (S fuel) p q current =
  (r ← token_round p q current;
   match r with
   | None => Ret None
   | Some (p, current, q, true) => Ret (Some (current, p))
   | Some (p, current, q, false) => token_loop fuel p q current
   end).
Proof.
  cbn [token_loop]. unfold token_round. destruct (token_step p q current) as [[[[[p' c'] q'] d]|]| | |]; try done.
  rewrite !ret_bind. by destruct (ch p' 0).
Qed.

Lemma cat_char_spec s bs c : sds_rep s bs -> Zlen bs < 2 ^ 60 -> exists s', cat_char s c = Ret s' /\ sds_rep s' (bs ++ [c]).
Proof. intros Hr Hb. apply (sdscatlen_spec s bs [c] Hr). change (Zlen [c]) with 1. lia. Qed.

(** Where a closing quote may stand. *)
Definition blank_or_end (rest : list Z) : Prop := match rest with [] => True | c :: _ => c_isspace c = true end.

(** Runs the monad over the characters whose tests are decided. *)
Ltac run_chars := repeat first [rewrite ret_bind | rewrite ch_0 | rewrite ch_1 | rewrite ch_2 | rewrite ch_3 | rewrite skipn_O
  | match goal with E : _ = false |- _ => rewrite E | E : _ = true |- _ => rewrite E end | progress cbn [negb andb Z.eqb Pos.eqb drop]].

Lemma quote_end rest current : blank_or_end rest -> token_round (34 :: rest) InQuotes current = Ret (Some (rest, current, InQuotes, true)).
Proof.
  intros Hr. unfold token_round, token_step, is_hex_escape. run_chars. destruct rest as [|c rest]; [done|]. cbn in Hr. run_chars.
  by rewrite andb_false_r, ret_bind, ch_0, ret_bind.
Qed.

(** An escape sequence other than a hexadecimal one. *)
Lemma quote_escape c d rest current bs : sds_rep current bs -> Zlen bs < 2 ^ 60 -> c <> 0 -> c <> 120 -> unescape c = d ->
  exists s', token_round (92 :: c :: rest) InQuotes current = Ret (Some (rest, s', InQuotes, false)) /\ sds_rep s' (bs ++ [d]).
Proof.
  intros Hr Hb Hc Hx <-. destruct (cat_char_spec current bs (unescape c) Hr Hb) as (s' & E & Hr'). exists s'. split; [|done].
  unfold token_round, token_step, is_hex_escape. apply Z.eqb_neq in Hc, Hx. run_chars. rewrite E. by run_chars.
Qed.

Lemma quote_hex h l c rest current bs : sds_rep current bs -> Zlen bs < 2 ^ 60 -> is_hex_digit h = true -> is_hex_digit l = true ->
  u8 (hex_digit_to_int h * 16 + hex_digit_to_int l) = c ->
  exists s', token_round (92 :: 120 :: h :: l :: rest) InQuotes current = Ret (Some (rest, s', InQuotes, false)) /\ sds_rep s' (bs ++ [c]).
Proof.
  intros Hr Hb Hh Hl <-. destruct (cat_char_spec current bs (u8 (hex_digit_to_int h * 16 + hex_digit_to_int l)) Hr Hb) as (s' & E & Hr'). exists s'. split; [|done].
  assert ((l =? 0) = false) as Hl0 by (destruct (Z.eqb_spec l 0) as [->|]; [by cbn in Hl|done]).
  unfold token_round, token_step, is_hex_escape. run_chars. rewrite E. by run_chars.
Qed.

Lemma quote_plain c rest current bs : sds_rep current bs -> Zlen bs < 2 ^ 60 -> c <> 92 -> c <> 34 -> c <> 0 ->
  exists s', token_round (c :: rest) InQuotes current = Ret (Some (rest, s', InQuotes, false)) /\ sds_rep s' (bs ++ [c]).
Proof.
  intros Hr Hb H92 H34 H00. destruct (cat_char_spec current bs c Hr Hb) as (s' & E & Hr'). exists s'. split; [|done].
  apply Z.eqb_neq in H92, H34, H00. unfold token_round, token_step, is_hex_escape. run_chars. rewrite E. by run_chars.
Qed.

Lemma hex_digits c : is_byte c -> is_hex_digit (hex_digit (c / 16)) = true /\ is_hex_digit (hex_digit (c mod 16)) = true /\
  u8 (hex_digit_to_int (hex_digit (c / 16)) * 16 + hex_digit_to_int (hex_digit (c mod 16))) = c.
Proof.
  intros Hc. set (P := fun c => is_hex_digit (hex_digit (c / 16)) && is_hex_digit (hex_digit (c mod 16)) &&
    (u8 (hex_digit_to_int (hex_digit (c / 16)) * 16 + hex_digit_to_int (hex_digit (c mod 16))) =? c)).
  assert (P c = true) as E by (apply byte_forallb; [vm_compute; done|done]). unfold P in E.
  apply andb_true_iff in E as [E E3]. apply andb_true_iff in E as [E1 E2]. apply Z.eqb_eq in E3. done.
Qed.

Lemma quote_esc c rest current bs : is_byte c -> sds_rep current bs -> Zlen bs < 2 ^ 60 ->
  exists s', token_round (esc c ++ rest) InQuotes current = Ret (Some (rest, s', InQuotes, false)) /\ sds_rep s' (bs ++ [c]).
Proof.
  intros Hc Hr Hb. unfold esc. destruct (Z.eqb_spec c 92) as [->|H92]; cbn [orb]; [by apply quote_escape|].
  destruct (Z.eqb_spec c 34) as [->|H34]; [by apply quote_escape|].
  destruct (Z.eqb_spec c 10) as [->|]; [by apply quote_escape|]. destruct (Z.eqb_spec c 13) as [->|]; [by apply quote_escape|].
  destruct (Z.eqb_spec c 9) as [->|]; [by apply quote_escape|]. destruct (Z.eqb_spec c 7) as [->|]; [by apply quote_escape|].
  destruct (Z.eqb_spec c 8) as [->|]; [by apply quote_escape|].
  destruct (c_isprint c) eqn:E.
  - cbn [app]. apply quote_plain; try done. intros ->. by cbn in E.
  - destruct (hex_digits c Hc) as (? & ? & ?). by apply quote_hex.
Qed.

Lemma quoted_token p : Forall is_byte p -> forall fuel rest current bs, sds_rep current bs -> Zlen bs + Zlen p < 2 ^ 60 -> blank_or_end rest ->
  (length (body p) < fuel)%nat ->
  exists s', token_loop fuel (body p ++ 34 :: rest) InQuotes current = Ret (Some (s', rest)) /\ sds_rep s' (bs ++ p).
Proof.
  induction 1 as [|c p Hc Hp IH]; intros fuel rest current bs Hr Hb Hrest Hf; (destruct fuel as [|fuel]; [lia|]); rewrite token_loop_round.
  - cbn [body map concat app]. rewrite quote_end, ret_bind by done. exists current. by rewrite app_nil_r.
  - rewrite Zlen_cons in Hb. pose proof (Zlen_nonneg p). rewrite qbody_cons, <- app_assoc.
    destruct (quote_esc c (body p ++ 34 :: rest) current bs Hc Hr) as (s1 & -> & Hr1); [lia|]. rewrite ret_bind.
    destruct (IH fuel rest s1 (bs ++ [c]) Hr1) as (s2 & -> & Hr2); [rewrite Zlen_snoc; lia|done| |].
    { rewrite qbody_cons, length_app in Hf. pose proof (esc_length c). unfold Zlen in *. lia. }
    exists s2. split; [done|]. by rewrite <- app_assoc in Hr2.
Qed.

(** A token that needs no quotes: printable, no blank, quote or backslash. *)
Definition plain (p : list Z) : Prop := p <> [] /\ Forall (fun c => needs_escape c = false /\ c <> 39) p.

Lemma plain_char c : needs_escape c = false -> c <> 39 -> c <> 34 /\ c <> 92 /\ c_isspace c = false /\ c <> 0 /\ bool_decide (c ∈ [32; 10; 13; 9; 0]) = false.
Proof.
  unfold needs_escape, c_isprint, c_isspace. intros E H39. rewrite !orb_false_iff in E.
  assert (c ∉ [32; 10; 13; 9; 0]) as Hn by (rewrite !not_elem_of_cons; split_and!; try apply not_elem_of_nil; lia).
  split_and!; try lia. by apply bool_decide_eq_false_2.
Qed.

Lemma plain_token p : Forall (fun c => needs_escape c = false /\ c <> 39) p -> forall fuel rest current bs, sds_rep current bs ->
  Zlen bs + Zlen p < 2 ^ 60 -> match rest with [] => True | c :: _ => c = 32 end -> (length p < fuel)%nat ->
  exists s', token_loop fuel (p ++ rest) Unquoted current = Ret (Some (s', drop 1 rest)) /\ sds_rep s' (bs ++ p).
Proof.
  induction 1 as [|c p [Hc H39] Hp IH]; intros fuel rest current bs Hr Hb Hrest Hf; (destruct fuel as [|fuel]; [lia|]); rewrite token_loop_round.
  - exists current. rewrite app_nil_r. split; [|done]. destruct rest as [|x rest]; [done|]. subst x. done.
  - rewrite Zlen_cons in Hb. pose proof (Zlen_nonneg p). destruct (plain_char c Hc H39) as (H34 & H92 & Hsp & H00 & Hin).
    destruct (cat_char_spec current bs c Hr) as (s1 & E & Hr1); [lia|]. apply Z.eqb_neq in H34, H00, H39.
    unfold token_round, token_step. cbn [app]. run_chars. rewrite E. run_chars.
    destruct (IH fuel rest s1 (bs ++ [c]) Hr1) as (s2 & -> & Hr2); [rewrite Zlen_snoc; lia|done|cbn [length] in Hf; lia|].
    exists s2. split; [done|]. by rewrite <- app_assoc in Hr2.
Qed.

Definition text_of (w : bool * list Z) : list Z := if w.1 then repr w.2 else w.2.

(** One argument as its author writes it: quoted by the program, or as it is. *)
Definition written (w : bool * list Z) : outcome sds :=
  if w.1 then s ← sdsempty; sdscatrepr s w.2 else sdsnewlen (InitFrom w.2) (Zlen w.2).

Fixpoint written_all (ws : list (bool * list Z)) : outcome (list sds) :=
  match ws with [] => Ret [] | w :: ws => s ← written w; l ← written_all ws; Ret (s :: l) end.

(** The line made of these arguments, with a space between them. *)
Definition written_line (ws : list (bool * list Z)) : outcome (list Z) :=
  toks ← written_all ws; line ← sdsjoinsds toks [32]; s_bytes line.

Definition word_ok (w : bool * list Z) : Prop := Forall is_byte w.2 /\ 4 * Zlen w.2 < 2 ^ 59 /\ (w.1 = false -> plain w.2).

Lemma written_spec w : word_ok w -> exists s, written w = Ret s /\ sds_rep s (text_of w).
Proof.
  intros (_ & Hb & _). pose proof (Zlen_nonneg w.2). unfold written, text_of. destruct w.1; [|apply sdsnewlen_from; lia].
  destruct sdsempty_spec as (s0 & -> & Hr). rewrite ret_bind. apply (sdscatrepr_spec s0 [] w.2 Hr). rewrite Zlen_nil. lia.
Qed.

Lemma written_all_spec ws : Forall word_ok ws -> exists toks, written_all ws = Ret toks /\ Forall2 sds_rep toks (map text_of ws).
Proof.
  induction 1 as [|w ws Hw Hws (l & E & Hl)]; [by exists []|]. destruct (written_spec w Hw) as (s & Es & Hs).
  exists (s :: l). cbn [written_all map]. rewrite Es, ret_bind, E, ret_bind. split; [done|]. by constructor.
Qed.

Lemma skip_blanks_id c p : c_isspace c = false -> skip_blanks (c :: p) = c :: p.
Proof. cbn. by intros ->. Qed.

(** What follows a token: nothing, or a blank and the rest. *)
Definition rest_ok (rest : list Z) : Prop := match rest with [] => True | c :: _ => c = 32 end.

Lemma word_token w fuel rest current : word_ok w -> sds_rep current [] -> rest_ok rest ->
  (S (length (text_of w)) < fuel)%nat ->
  exists s' rest', token_loop fuel (text_of w ++ rest) Unquoted current = Ret (Some (s', rest')) /\ sds_rep s' w.2 /\
    (rest' = rest \/ rest' = drop 1 rest).
Proof.
  destruct w as [quoted p]. intros (Hp & Hb & Hpl) Hr Hrest Hf. cbn [fst snd] in *. unfold text_of in *. cbn [fst snd] in *. pose proof (Zlen_nonneg p). destruct quoted.
  - destruct fuel as [|fuel]; [lia|]. rewrite token_loop_round. unfold repr. cbn [app]. unfold token_round, token_step.
    assert (bool_decide (34 ∈ [32; 10; 13; 9; 0]) = false) as Hin by done. run_chars. rewrite <- app_assoc. cbn [app].
    destruct (quoted_token p Hp fuel rest current [] Hr) as (s' & -> & Hr'); [rewrite Zlen_nil; lia|by destruct rest; [|rewrite Hrest]| |].
    { unfold repr in Hf. cbn [length] in Hf. rewrite length_app in Hf. cbn [length] in Hf. lia. }
    exists s', rest. by split_and!; [| |left].
  - destruct (Hpl eq_refl) as [_ Hpl']. destruct (plain_token p Hpl' fuel rest current [] Hr) as (s' & -> & Hr'); [rewrite Zlen_nil; lia|done|lia|].
    exists s', (drop 1 rest). by split_and!; [| |right].
Qed.

Lemma text_head w rest : word_ok w -> exists c r, text_of w ++ rest = c :: r /\ c_isspace c = false /\ c <> 0.
Proof.
  destruct w as [[|] p]; intros (_ & _ & Hpl); cbn in Hpl |- *; [by eexists _, _|]. destruct (Hpl eq_refl) as [Hne Hc].
  destruct p as [|c p]; [done|]. apply list.Forall_cons in Hc as [[Hc H39] _]. destruct (plain_char c Hc H39) as (_ & _ & Hsp & H00 & _).
  by exists c, (p ++ rest).
Qed.

(** The line before a word: the blank that the token before it may have left. *)
Lemma splitargs_words ws : Forall word_ok ws -> forall fuel line vector vs,
  line = join_ref [32] (map text_of ws) \/ line = 32 :: join_ref [32] (map text_of ws) -> Forall2 sds_rep vector vs ->
  (length ws < fuel)%nat ->
  exists vector', splitargs_loop fuel line vector = Ret (Some vector') /\ Forall2 sds_rep vector' (vs ++ map snd ws).
Proof.
  induction 1 as [|w ws Hw Hws IH]; intros fuel line vector vs Hline Hv Hf; (destruct fuel as [|fuel]; [lia|]); cbn [splitargs_loop].
  - assert (skip_blanks line = []) as -> by (destruct Hline as [-> | ->]; done). exists vector. split; [done|]. by rewrite app_nil_r.
  - set (rest := match ws with [] => [] | _ => 32 :: join_ref [32] (map text_of ws) end).
    assert (join_ref [32] (map text_of (w :: ws)) = text_of w ++ rest) as Ej.
    { unfold rest. destruct ws; cbn [map join_ref]; [by rewrite app_nil_r|done]. }
    rewrite Ej in Hline. destruct (text_head w rest Hw) as (c & r & Ec & Hsp & Hc0).
    assert (skip_blanks line = text_of w ++ rest) as ->.
    { rewrite Ec. destruct Hline as [-> | ->]; rewrite Ec; [by apply skip_blanks_id|]. change (skip_blanks (32 :: c :: r)) with (skip_blanks (c :: r)). by apply skip_blanks_id. }
    assert (ch (text_of w ++ rest) 0 = Ret c) as -> by (by rewrite Ec, ch_0). rewrite ret_bind. apply Z.eqb_neq in Hc0. rewrite Hc0. cbn [negb]. cbv iota.
    destruct sdsempty_spec as (s0 & -> & Hr0). rewrite ret_bind.
    assert (rest_ok rest) as Hrest by (unfold rest; by destruct ws).
    destruct (word_token w (S (S (length (text_of w ++ rest)))) rest s0 Hw Hr0 Hrest) as (s' & rest' & -> & Hr' & Hrest'); [rewrite length_app; lia|].
    rewrite ret_bind. destruct (IH fuel rest' (vector ++ [s']) (vs ++ [w.2])) as (v' & -> & Hv').
    + unfold rest in Hrest'. destruct ws as [|w' ws]; [left; by destruct Hrest' as [-> | ->]|]. destruct Hrest' as [-> | ->]; [by right|by left].
    + apply Forall2_app; [done|]. by constructor.
    + cbn [length] in Hf. lia.
    + exists v'. split; [done|]. cbn [map]. by rewrite <- app_assoc in Hv'.
Qed.

Lemma text_length w : word_ok w -> (1 <= length (text_of w))%nat /\ Zlen (text_of w) <= 4 * Zlen w.2 + 2.
Proof.
  intros Hw. destruct (text_head w [] Hw) as (c & r & E & _). rewrite app_nil_r in E. split; [rewrite E; cbn; lia|].
  clear. unfold text_of, repr. pose proof (body_length w.2). destruct w.1; [|lia]. rewrite Zlen_cons, Zlen_snoc. lia.
Qed.

Lemma join_length ws : Forall word_ok ws -> (length ws <= length (join_ref [32%Z] (map text_of ws)))%nat /\
  Zlen (join_ref [32] (map text_of ws)) <= 4 * Zlen (concat (map snd ws)) + 3 * Zlen ws.
Proof.
  induction 1 as [|w ws Hw Hws [IH1 IH2]]; [done|]. pose proof (text_length w Hw) as [Hl1 Hl2].
  pose proof (Zlen_nonneg ws). cbn [map concat]. rewrite Zlen_app, Zlen_cons. destruct ws as [|w' ws].
  - cbn [map join_ref concat length] in *. rewrite Zlen_nil. lia.
  - change (join_ref [32] (text_of w :: map text_of (w' :: ws))) with (text_of w ++ [32] ++ join_ref [32] (map text_of (w' :: ws))).
    rewrite !Zlen_app, !length_app. change (Zlen [32]) with 1. cbn [length] in *. lia.
Qed.

(** C19. What [sdscatrepr] quotes, [sdssplitargs] reads back: take any
    arguments, write each one quoted (or as it is when it has no character
    that needs quotes), put them on a line with [sdsjoinsds] and a space, and
    [sdssplitargs] returns exactly the arguments, byte for byte, zero bytes
    and non-printable bytes included. *)
Theorem sdscatrepr_splitargs_roundtrip ws : Forall word_ok ws -> 4 * Zlen (concat (map snd ws)) + 3 * Zlen ws < 2 ^ 60 ->
  exists line vector, written_line ws = Ret line /\ sdssplitargs line = Ret (Some vector) /\ Forall2 sds_rep vector (map snd ws).
Proof.
  intros Hws Hb. pose proof (join_length ws Hws) as [Hl1 Hl2]. destruct (written_all_spec ws Hws) as (toks & E & Ht).
  destruct (sdsjoinsds_spec [32] toks _ Ht) as (j & Ej & Hj); [lia|].
  destruct (splitargs_words ws Hws (S (length (join_ref [32] (map text_of ws)))) _ [] [] (or_introl eq_refl)) as (v & Ev & Hv); [done|lia|].
  exists (join_ref [32] (map text_of ws)), v. split; [|done]. unfold written_line. rewrite E, ret_bind, Ej, ret_bind. by apply rep_bytes.
Qed.

(** Splitting and joining are inverse: the pieces [sdssplitlen] cuts at a
    separator of any length, joined again by [sdsjoinsds] with that separator,
    give the string back; and with a one-character separator, pieces that do
    not have it are what [sdssplitlen] finds in the string [sdsjoinsds] makes of them. *)
Theorem sdssplit_join_roundtrip sep : sep <> [] ->
  (forall s, s <> [] -> Zlen s < 2 ^ 60 ->
    exists tokens joined, sdssplitlen s sep = Ret (Some tokens) /\ sdsjoinsds tokens sep = Ret joined /\ sds_rep joined s) /\
  (forall x tokens l, sep = [x] -> Forall2 sds_rep tokens l -> join_ref sep l <> [] -> Forall (fun a => x ∉ a) l -> Zlen (join_ref sep l) < 2 ^ 60 ->
    exists joined s tokens', sdsjoinsds tokens sep = Ret joined /\ s_bytes joined = Ret s /\
      sdssplitlen s sep = Ret (Some tokens') /\ Forall2 sds_rep tokens' l).
Proof.
  intros Hsep. split.
  - intros s Hs Hb. destruct (sdssplitlen_spec s sep Hsep Hs Hb) as (toks & E & Ht). pose proof (join_split sep Hsep (length s) s [] ltac:(lia)) as Ejs.
    destruct (sdsjoinsds_spec sep toks _ Ht) as (j & Ej & Hj); [rewrite Ejs; cbn [app]; lia|]. rewrite Ejs in Hj. by exists toks, j.
  - intros x toks l -> Ht Hne Hx Hb. destruct (sdsjoinsds_spec [x] toks l Ht) as (j & Ej & Hj); [lia|].
    destruct (sdssplitlen_spec (join_ref [x] l) [x] Hsep Hne Hb) as (toks' & E & Ht').
    rewrite split_join in Ht' by (done || by intros ->). exists j, (join_ref [x] l), toks'. by rewrite (rep_bytes _ _ Hj).
Qed.

(** ** Every line *)

(** What a C string holds. *)
Definition no_zero (p : list Z) : Prop := Forall (fun c => c <> 0) p.

Lemma ch_head p : no_zero p -> (p = [] /\ ch p 0 = Ret 0) \/ (exists c r, p = c :: r /\ ch p 0 = Ret c /\ c <> 0 /\ no_zero r).
Proof. destruct 1 as [|c r Hc Hr]; [by left|]. right. by exists c, r. Qed.

Lemma hex_escape_total p : no_zero p -> exists b, is_hex_escape p = Ret b /\
  (b = true -> exists h l r, p = 92 :: 120 :: h :: l :: r).
Proof.
  intros Hp. unfold is_hex_escape. destruct Hp as [|c r _ Hr]; [by exists false|]. run_chars.
  destruct (Z.eqb_spec c 92) as [->|]; cbn [negb]; [|by exists false]. run_chars. destruct Hr as [|c1 r1 _ Hr]; [by exists false|]. run_chars.
  destruct (Z.eqb_spec c1 120) as [->|]; cbn [negb]; [|by exists false]. run_chars. destruct Hr as [|c2 r2 _ Hr]; [by exists false|]. run_chars.
  destruct (is_hex_digit c2); cbn [negb]; [|by exists false]. run_chars. destruct Hr as [|c3 r3 _ Hr]; [by exists false|]. run_chars.
  exists (is_hex_digit c3). split; [done|]. intros _. by exists c2, c3, r3.
Qed.

(** What a round leaves of the line [p] and of a token of at most [n] bytes:
    the token grows by at most the bytes read. *)
Definition left_by (more : Z) (p : list Z) (n : Z) (r : option (list Z * sds * quoting * bool)) : Prop :=
  match r with
  | None => True
  | Some (p', current, q, d) => exists bs k, sds_rep current bs /\ p' = drop k p /\ Zlen bs <= n + Z.of_nat k + (if d then 0 else more) /\
      (k <= length p)%nat /\ (d = false -> Z.of_nat k + more > 0 /\ Z.of_nat k + more <= Zlen p)
  end.
Definition runs_to {A} (P : A -> Prop) (o : outcome A) : Prop := exists r, o = Ret r /\ P r.

Section step.
Variables (p : list Z) (q : quoting) (current : sds) (bs : list Z) (n : Z).
Hypotheses (Hp : no_zero p) (Hr : sds_rep current bs) (Hb : Zlen bs <= n) (Hn : n < 2 ^ 60).

Lemma step_emit q' c k : (k < length p)%nat ->
  runs_to (left_by 1 p n) (current ← cat_char current c; Ret (Some (drop k p, current, q', false))).
Proof.
  intros Hk. destruct (cat_char_spec current bs c Hr) as (s' & -> & Hr'); [lia|]. rewrite ret_bind. eexists. split; [done|].
  exists (bs ++ [c]), k. rewrite Zlen_snoc. unfold Zlen in *. split_and!; (done || lia).
Qed.

Lemma step_stop q' : runs_to (left_by 1 p n) (Ret (Some (p, current, q', true))).
Proof. eexists. split; [done|]. exists bs, 0%nat. split_and!; (done || lia). Qed.

Lemma step_open q' : (0 < length p)%nat -> runs_to (left_by 1 p n) (Ret (Some (p, current, q', false))).
Proof. intros Hl. eexists. split; [done|]. exists bs, 0%nat. unfold Zlen in *. split_and!; (done || lia). Qed.

Lemma step_err : runs_to (left_by 1 p n) (Ret None).
Proof. by exists None. Qed.

(** The end of a quoted token: an error unless a blank or the end follows. *)
Lemma step_close r q' : no_zero r -> runs_to (left_by 1 p n)
  (c1 ← ch r 0; if negb (c1 =? 0) && negb (c_isspace c1) then Ret None else Ret (Some (p, current, q', true))).
Proof.
  intros Hz. destruct (ch_head r Hz) as [[-> ->]|(c1 & r1 & -> & -> & Hc1 & _)]; rewrite ret_bind; [apply step_stop|].
  destruct (negb (c1 =? 0) && negb (c_isspace c1)); [apply step_err|apply step_stop].
Qed.

Lemma token_step_total : runs_to (left_by 1 p n) (token_step p q current).
Proof.
  unfold token_step. destruct (ch_head p Hp) as [[Ep E]|(c & r & Ep & E & Hc & Hz)]; rewrite E, ret_bind.
  { destruct q; [apply step_stop| |apply step_err]. assert (is_hex_escape p = Ret false) as -> by (by rewrite Ep). apply step_err. }
  assert (0 < length p)%nat as Hl by (rewrite Ep; cbn; lia). pose proof (fun q' x => step_emit q' x 0%nat Hl) as Hemit. rewrite drop_0 in Hemit.
  apply Z.eqb_neq in Hc. assert (ch p 1 = ch r 0) as -> by (by rewrite Ep, ch_1). destruct q.
  - case_bool_decide; [apply step_stop|]. destruct (c =? 34); [by apply step_open|]. destruct (c =? 39); [by apply step_open|]. apply Hemit.
  - destruct (hex_escape_total p Hp) as (b & -> & Hhex). rewrite ret_bind. destruct b.
    { destruct (Hhex eq_refl) as (h & l & r' & Ep'). assert (ch p 2 = Ret h) as -> by (by rewrite Ep'). assert (ch p 3 = Ret l) as -> by (by rewrite Ep'). rewrite !ret_bind. apply step_emit. rewrite Ep'. cbn. lia. }
    assert (exists b, (if c =? 92 then c1 ← ch r 0; Ret (negb (c1 =? 0)) else Ret false) = Ret b /\ (b = true -> exists c1 r1, r = c1 :: r1)) as (b & -> & He).
    { destruct (c =? 92); [|by exists false]. destruct (ch_head r Hz) as [[-> ->]|(c1 & r1 & -> & -> & _)]; rewrite ret_bind; [by exists false|]. eexists. split; [done|]. by exists c1, r1. }
    rewrite ret_bind. destruct b; [destruct (He eq_refl) as (c1 & r1 & Er); rewrite Er, ch_0, ret_bind; apply step_emit; rewrite Ep, Er; cbn; lia|].
    destruct (c =? 34); [by apply step_close|]. rewrite Hc. apply Hemit.
  - assert (exists b, (if c =? 92 then c1 ← ch r 0; Ret (c1 =? 39) else Ret false) = Ret b /\ (b = true -> exists c1 r1, r = c1 :: r1)) as (b & -> & He).
    { destruct (c =? 92); [|by exists false]. destruct (ch_head r Hz) as [[-> ->]|(c1 & r1 & -> & -> & _)]; rewrite ret_bind; [by exists false|]. eexists. split; [done|]. by exists c1, r1. }
    rewrite ret_bind. destruct b; [destruct (He eq_refl) as (c1 & r1 & Er); apply step_emit; rewrite Ep, Er; cbn; lia|].
    destruct (c =? 39); [by apply step_close|]. rewrite Hc. apply Hemit.
Qed.

Lemma token_round_total : runs_to (left_by 0 p n) (token_round p q current).
Proof.
  unfold token_round. destruct token_step_total as (r & -> & Hleft). rewrite ret_bind.
  destruct r as [[[[p' s'] q'] d]|]; [|by exists None]. destruct Hleft as (bs' & k & Hr' & -> & Hl & Hk & Hd).
  destruct (ch_head (drop k p)) as [[E ->]|(c & r & E & -> & Hc & _)]; [by apply list.Forall_drop| |]; rewrite ret_bind.
  - eexists. split; [done|]. exists bs', k. cbn [Z.eqb negb]. apply (f_equal length) in E. rewrite length_drop in E. cbn in E.
    unfold Zlen in *. split_and!; [done|done|destruct d; [lia|destruct (Hd eq_refl); lia]|done|]. intros ->. destruct (Hd eq_refl). lia.
  - apply Z.eqb_neq in Hc. rewrite Hc. cbn [negb]. eexists. split; [done|]. exists bs', (S k).
    assert (k < length p)%nat by (apply (f_equal length) in E; rewrite length_drop in E; cbn in E; lia).
    unfold Zlen in *. split_and!; [done|rewrite drop_drop; f_equal; lia|destruct d; lia|lia|lia].
Qed.
End step.

Lemma token_loop_total fuel : forall p q current bs n, no_zero p -> sds_rep current bs -> Zlen bs <= n -> n + Zlen p < 2 ^ 60 -> (length p < fuel)%nat ->
  runs_to (fun r => match r with None => True | Some (s', p') => exists bs' k, sds_rep s' bs' /\ p' = drop k p /\ (k <= length p)%nat /\
    Zlen bs' <= n + Z.of_nat k end) (token_loop fuel p q current).
Proof.
  induction fuel as [|fuel IH]; intros p q current bs n Hp Hr Hb Hn Hf; [lia|]. pose proof (Zlen_nonneg p). rewrite token_loop_round.
  destruct (token_round_total p q current bs n Hp Hr Hb) as (r & -> & Hleft); [lia|]. rewrite ret_bind.
  destruct r as [[[[p' s'] q'] d]|]; [|by exists None]. destruct Hleft as (bs' & k & Hr' & -> & Hl & Hk & Hd). destruct d.
  - eexists. split; [done|]. exists bs', k. split_and!; (done || lia).
  - destruct (Hd eq_refl) as [Hd1 Hd2]. destruct (IH (drop k p) q' s' bs' (n + Z.of_nat k)) as (r & -> & Hres);
      [by apply list.Forall_drop|done|lia|unfold Zlen in *; rewrite length_drop; lia|rewrite length_drop; lia|].
    eexists. split; [done|]. destruct r as [[s'' p'']|]; [|done]. destruct Hres as (bs'' & k' & Hr'' & -> & Hk' & Hl').
    rewrite length_drop in Hk'. exists bs'', (k + k')%nat. rewrite drop_drop. split_and!; (done || lia).
Qed.

Lemma skip_blanks_drop p : exists k, skip_blanks p = drop k p.
Proof. induction p as [|c p [k IH]]; [by exists 0%nat|]. cbn [skip_blanks]. destruct (c_isspace c); [by exists (S k)|by exists 0%nat]. Qed.
Lemma skip_blanks_head p : match skip_blanks p with [] => True | c :: _ => c_isspace c = false end.
Proof. induction p as [|c p IH]; [done|]. cbn [skip_blanks]. by destruct (c_isspace c) eqn:E. Qed.

Lemma unquoted_starts c r current p' s' q' d : c_isspace c = false -> c <> 0 ->
  token_round (c :: r) Unquoted current = Ret (Some (p', s', q', d)) -> d = false.
Proof.
  intros Hsp H00. unfold token_round, token_step. rewrite ch_0, ret_bind.
  assert (bool_decide (c ∈ [32; 10; 13; 9; 0]) = false) as ->.
  { apply bool_decide_eq_false_2. intros Hin. rewrite !elem_of_cons in Hin. unfold c_isspace in Hsp. destruct Hin as [?|[?|[?|[?|[?|?%elem_of_nil]]]]]; [lia..|done]. }
  assert (forall (o : outcome (option (list Z * sds * quoting * bool))), (forall a b c e, o = Ret (Some (a, b, c, e)) -> e = false) ->
    (x ← o; match x with None => Ret None | Some (p, cur, q, d) => c ← ch p 0; Ret (Some (if negb (c =? 0) then drop 1 p else p, cur, q, d)) end)
      = Ret (Some (p', s', q', d)) -> d = false) as Hgen.
  { intros o Ho E. destruct o as [[[[[a b] e] f]|]| | |]; try done. rewrite ret_bind in E. destruct (ch a 0); try done. rewrite ret_bind in E. injection E as _ _ _ <-. by apply (Ho a b e). }
  apply Hgen. intros a b e f. destruct (c =? 34); [congruence|]. destruct (c =? 39); [congruence|].
  destruct (cat_char current c); try done. rewrite ret_bind. congruence.
Qed.

(** A token that starts at a character that is not blank takes that character. *)
Lemma token_total c r s0 : no_zero (c :: r) -> c_isspace c = false -> sds_rep s0 [] -> Zlen (c :: r) < 2 ^ 60 ->
  runs_to (fun res => match res with None => True | Some (s', p') => exists bs k, sds_rep s' bs /\ p' = drop k (c :: r) /\ (0 < k <= length (c :: r))%nat /\
    Zlen bs <= Z.of_nat k end) (token_loop (S (S (length (c :: r)))) (c :: r) Unquoted s0).
Proof.
  intros Hp Hsp Hr Hb. set (p := c :: r) in *. pose proof (Zlen_nonneg p). rewrite token_loop_round.
  destruct (token_round_total p Unquoted s0 [] 0 Hp Hr) as (res & E & Hleft); [done|lia|]. rewrite E, ret_bind.
  destruct res as [[[[p' s'] q'] d]|]; [|by exists None].
  assert (d = false) as -> by (apply (unquoted_starts c r s0 p' s' q' d Hsp); [by inversion Hp|done]).
  destruct Hleft as (bs' & k & Hr' & -> & Hl & Hk & Hd). destruct (Hd eq_refl) as [Hd1 Hd2].
  destruct (token_loop_total (S (length p)) (drop k p) q' s' bs' (Z.of_nat k)) as (res & -> & Hres);
    [by apply list.Forall_drop|done|lia|unfold Zlen in *; rewrite length_drop; lia|rewrite length_drop; lia|].
  eexists. split; [done|]. destruct res as [[s'' p'']|]; [|done]. destruct Hres as (bs'' & k' & Hr'' & -> & Hk' & Hl').
  rewrite length_drop in Hk'. exists bs'', (k + k')%nat. rewrite drop_drop. split_and!; (done || lia).
Qed.

Lemma splitargs_loop_total fuel : forall p vector vs, no_zero p -> Zlen p < 2 ^ 60 -> Forall2 sds_rep vector vs -> (length p < fuel)%nat ->
  runs_to (fun res => match res with None => True | Some vector' => exists l, Forall2 sds_rep vector' (vs ++ l) /\ Zlen (concat l) <= Zlen p end)
    (splitargs_loop fuel p vector).
Proof.
  induction fuel as [|fuel IH]; intros p vector vs Hp Hb Hv Hf; [lia|]. cbn [splitargs_loop]. cbv zeta.
  destruct (skip_blanks_drop p) as [j Ej]. pose proof (skip_blanks_head p) as Hh. rewrite Ej in Hh |- *.
  assert (no_zero (drop j p)) as Hpj by (by apply list.Forall_drop). destruct (ch_head _ Hpj) as [[E ->]|(c & r & E & -> & Hc & _)]; rewrite ret_bind.
  { eexists. split; [done|]. exists []. rewrite app_nil_r. split; [done|]. change (Zlen (concat [])) with 0. apply Zlen_nonneg. }
  apply Z.eqb_neq in Hc. rewrite Hc. cbn [negb]. cbv iota. destruct sdsempty_spec as (s0 & -> & Hr0). rewrite ret_bind. rewrite E in Hh, Hpj |- *.
  assert (length (c :: r) <= length p)%nat as Hlen by (rewrite <- E, length_drop; lia).
  destruct (token_total c r s0 Hpj Hh Hr0) as (res & -> & Hres); [unfold Zlen in *; lia|]. rewrite ret_bind.
  destruct res as [[s' p']|]; [|by exists None]. destruct Hres as (bs & k & Hr & -> & Hk & Hl).
  destruct (IH (drop k (c :: r)) (vector ++ [s']) (vs ++ [bs])) as (res & -> & Hres).
  - by apply list.Forall_drop.
  - unfold Zlen in *. rewrite length_drop. lia.
  - apply Forall2_app; [done|]. by constructor.
  - rewrite length_drop. lia.
  - eexists. split; [done|]. destruct res as [v|]; [|done]. destruct Hres as (l & Hv' & Hl'). exists (bs :: l).
    rewrite <- app_assoc in Hv'. split; [done|]. cbn [concat]. rewrite Zlen_app. unfold Zlen in *. rewrite length_drop in Hl'. lia.
Qed.

(** C20. [sdssplitargs] returns on every line: whatever quotes, escapes and
    blanks it has, the parser ends, reads no character past the terminator, and
    either reports unbalanced quotes or builds tokens that are well-formed
    strings with no more bytes in all than the line has. *)
Theorem sdssplitargs_total line : no_zero line -> Zlen line < 2 ^ 60 ->
  exists r, sdssplitargs line = Ret r /\
    match r with None => True | Some vector => exists l, Forall2 sds_rep vector l /\ Zlen (concat l) <= Zlen line end.
Proof. intros Hp Hb. destruct (splitargs_loop_total (S (length line)) line [] [] Hp Hb) as (r & E & Hr); [done|lia|]. by exists r. Qed.
End proofs.

(** ** Witnesses *)

#[local] Existing Instance exact_allocator.
#[local] Existing Instance exact_fits.

Definition demo_words : list (bool * list Z) := [(false, [115; 101; 116]); (true, [34; 0; 200; 10; 32]); (true, [])].

Lemma demo_words_ok : Forall word_ok demo_words.
Proof. unfold demo_words, word_ok, is_byte, plain. repeat constructor; cbn; try lia; try done; intros; repeat constructor; cbn; lia. Qed.

Lemma sdscatrepr_splitargs_witness : exists line vector,
  written_line demo_words = Ret line /\ sdssplitargs line = Ret (Some vector) /\
  Forall2 sds_rep vector [[115; 101; 116]; [34; 0; 200; 10; 32]; []].
Proof. apply (sdscatrepr_splitargs_roundtrip demo_words demo_words_ok). vm_compute. reflexivity. Defined.

Lemma sdssplit_join_witness :
  (exists tokens joined, sdssplitlen [97; 45; 45; 98; 45; 45; 45] [45; 45] = Ret (Some tokens) /\
    sdsjoinsds tokens [45; 45] = Ret joined /\ sds_rep joined [97; 45; 45; 98; 45; 45; 45]).
Proof. refine (proj1 (sdssplit_join_roundtrip [45; 45] _) [97; 45; 45; 98; 45; 45; 45] _ _); [discriminate..|vm_compute; reflexivity]. Defined.

Lemma sdssplitargs_total_witness : exists r, sdssplitargs [34; 92; 120; 52; 92; 34; 32; 39] = Ret r /\
  match r with None => True | Some vector => exists l, Forall2 sds_rep vector l /\ Zlen (concat l) <= Zlen [34; 92; 120; 52; 92; 34; 32; 39] end.
Proof. apply (sdssplitargs_total [34; 92; 120; 52; 92; 34; 32; 39]); [repeat constructor; discriminate|vm_compute; reflexivity]. Defined.

(** [sdsneedsrepr] finds nothing to quote in [it's], which [sdssplitargs] does not read back. *)
Example sdsneedsrepr_single_quote :
  (s ← sdsnewlen (InitFrom [105; 116; 39; 115]) 4; sdsneedsrepr s) = Ret false /\ sdssplitargs [105; 116; 39; 115] = Ret None.
Proof. split; vm_compute; reflexivity. Qed.
