(* ===== verification/Glob.v ===== *)
(** * Glob: matching strings against glob-style patterns

    [stringmatchlen_impl] of util.c with its wrapper [stringmatchlen], and
    [prefixmatch], which the access control lists use.  A buffer is the list of the
    values its characters have as C [char]s (on a platform with signed ones,
    negative from 128 on), a pointer an index into it. *)

From S2P Require Import Prelude Memory Sds.

Section glob.
(** The buffers, [nocase]. *)
Context (pattern string : list Z) (nocase : bool).

Definition same_char (a b : Z) : bool :=
  if negb nocase then a =? b else c_tolower a =? c_tolower b.

(** The condition of a range, after the exchange of its ends. *)
Definition in_range (start end_ c : Z) : bool :=
  let '(start, end_) := if end_ <? start then (end_, start) else (start, end_) in
  let '(start, end_, c) := if nocase then (c_tolower start, c_tolower end_, c_tolower c) else (start, end_, c) in
  (start <=? c) && (c <=? end_).

(** [while(1)] of a bracket: the pointer and the length left when it breaks, and [match]. *)
Fixpoint class_loop (fuel : nat) (p patternLen s : Z) (mtch : bool) : outcome (Z * Z * bool) :=
  match fuel with
  | O => OutOfFuel
  | S fuel =>
    escape ← (if 2 <=? patternLen then c ← rd pattern p; Ret (c =? 92) else Ret false);
    if escape : bool then
      let p := p + 1 in let patternLen := patternLen - 1 in
      c ← rd pattern p; x ← rd string s;
      class_loop fuel (p + 1) (patternLen - 1) s (if c =? x then true else mtch)
    else if patternLen =? 0 then Ret (p - 1, patternLen + 1, mtch)
    else
      c ← rd pattern p;
      if c =? 93 then Ret (p, patternLen, mtch) else
      range ← (if 3 <=? patternLen then d ← rd pattern (p + 1); Ret (d =? 45) else Ret false);
      if range : bool then
        end_ ← rd pattern (p + 2); x ← rd string s;
        let mtch := if in_range c end_ x then true else mtch in
        class_loop fuel (p + 2 + 1) (patternLen - 2 - 1) s mtch
      else
        x ← rd string s;
        class_loop fuel (p + 1) (patternLen - 1) s (if same_char c x then true else mtch)
  end.

(** [case '[']: the pointer and the length left, and the final [match]. *)
Definition match_class (p patternLen s : Z) : outcome (Z * Z * bool) :=
  let p := p + 1 in let patternLen := patternLen - 1 in
  not_ ← (if negb (patternLen =? 0) then c ← rd pattern p; Ret (c =? 94) else Ret false);
  let '(p, patternLen) := if not_ : bool then (p + 1, patternLen - 1) else (p, patternLen) in
  '(p, patternLen, mtch) ← class_loop (S (Z.to_nat patternLen)) p patternLen s false;
  Ret (p, patternLen, if not_ then negb mtch else mtch).

(** [while (patternLen && pattern[1] == '*')]. *)
Fixpoint skip_stars (fuel : nat) (p patternLen : Z) : outcome (Z * Z) :=
  match fuel with
  | O => OutOfFuel
  | S fuel =>
    again ← (if negb (patternLen =? 0) then c ← rd pattern (p + 1); Ret (c =? 42) else Ret false);
    if again : bool then skip_stars fuel (p + 1) (patternLen - 1) else Ret (p, patternLen)
  end.

(** [while(patternLen && *pattern == '*')] at the end of the string. *)
Fixpoint skip_last_stars (fuel : nat) (p patternLen : Z) : outcome Z :=
  match fuel with
  | O => OutOfFuel
  | S fuel =>
    again ← (if negb (patternLen =? 0) then c ← rd pattern p; Ret (c =? 42) else Ret false);
    if again : bool then skip_last_stars fuel (p + 1) (patternLen - 1) else Ret patternLen
  end.

(** [while(stringLen)] of a star: [call] is the recursive call at [string]. *)
Fixpoint star_loop (call : Z -> Z -> bool -> outcome (bool * bool)) (n : nat) (s stringLen : Z) (skipLongerMatches : bool)
  : outcome (bool * bool) :=
  if stringLen =? 0 then Ret (false, true) else
  match n with
  | O => OutOfFuel
  | S n =>
    '(m, skipLongerMatches) ← call s stringLen skipLongerMatches;
    if m : bool then Ret (true, skipLongerMatches)
    else if skipLongerMatches : bool then Ret (false, skipLongerMatches)
    else star_loop call n (s + 1) (stringLen - 1) skipLongerMatches
  end.

(** The result and [*skipLongerMatches]; the fuel counts characters of the pattern. *)
Fixpoint match_loop (fuel : nat) (p patternLen s stringLen : Z) (skipLongerMatches : bool) (nesting : Z) : outcome (bool * bool) :=
  let result patternLen stringLen := Ret ((patternLen =? 0) && (stringLen =? 0), skipLongerMatches) in
  if (patternLen =? 0) || (stringLen =? 0) then result patternLen stringLen else
  match fuel with
  | O => OutOfFuel
  | S fuel =>
    let next p patternLen s stringLen :=
      let p := p + 1 in let patternLen := patternLen - 1 in
      if stringLen =? 0 then
        patternLen ← skip_last_stars (S (Z.to_nat patternLen)) p patternLen; result patternLen stringLen
      else match_loop fuel p patternLen s stringLen skipLongerMatches nesting in
    c ← rd pattern p;
    if c =? 42 then
      '(p, patternLen) ← skip_stars (S (Z.to_nat patternLen)) p patternLen;
      if patternLen =? 1 then Ret (true, skipLongerMatches) else
      let call s stringLen skipLongerMatches :=
        if 1000 <? nesting + 1 then Ret (false, skipLongerMatches)
        else match_loop fuel (p + 1) (patternLen - 1) s stringLen skipLongerMatches (nesting + 1) in
      star_loop call (Z.to_nat stringLen) s stringLen skipLongerMatches
    else if c =? 63 then next p patternLen (s + 1) (stringLen - 1)
    else if c =? 91 then
      '(p, patternLen, mtch) ← match_class p patternLen s;
      if negb mtch then Ret (false, skipLongerMatches) else next p patternLen (s + 1) (stringLen - 1)
    else
      let '(p, patternLen) := if (c =? 92) && (2 <=? patternLen) then (p + 1, patternLen - 1) else (p, patternLen) in
      c ← rd pattern p; x ← rd string s;
      if negb (same_char c x) then Ret (false, skipLongerMatches) else next p patternLen (s + 1) (stringLen - 1)
  end.

Definition stringmatchlen_impl (patternLen stringLen : Z) (skipLongerMatches : bool) (nesting : Z) : outcome (bool * bool) :=
  if 1000 <? nesting then Ret (false, skipLongerMatches)
  else match_loop (Z.to_nat patternLen) 0 patternLen 0 stringLen skipLongerMatches nesting.

Definition stringmatchlen (patternLen stringLen : Z) : outcome bool :=
  '(m, _) ← stringmatchlen_impl patternLen stringLen false 0; Ret m.

(** The loop that counts backslashes from [i] down; [n] bounds its rounds. *)
Fixpoint count_backslashes (n : nat) (i : Z) : outcome Z :=
  match n with
  | O => Ret 0
  | S n => c ← rd pattern i; if c =? 92 then k ← count_backslashes n (i - 1); Ret (k + 1) else Ret 0
  end.

Definition prefixmatch (patternLen prefixStrLen : Z) : outcome bool :=
  '(m, _) ← stringmatchlen_impl patternLen prefixStrLen false 0;
  if negb m then Ret false else
  last_star ← (if patternLen =? 0 then Ret false else c ← rd pattern (patternLen - 1); Ret (c =? 42));
  if negb last_star then Ret false else
  backslashCount ← count_backslashes (Z.to_nat (patternLen - 1)) (patternLen - 2);
  Ret (backslashCount mod 2 =? 0).
End glob.

Example glob_1 : stringmatchlen [97; 42; 98; 0] [97; 120; 121; 98] false 3 4 = Ret true.
Proof. reflexivity. Qed.
Example glob_2 : stringmatchlen [91; 94; 97; 45; 99; 93; 63; 0] [100; 120] false 7 2 = Ret true.
Proof. reflexivity. Qed.
Example glob_empty : stringmatchlen [42; 0] [] false 1 0 = Ret false.
Proof. reflexivity. Qed.
Example glob_case_range : stringmatchlen [91; 90; 45; 97; 93; 0] [90] false 5 1 = Ret true /\ stringmatchlen [91; 90; 45; 97; 93; 0] [90] true 5 1 = Ret false.
Proof. split; reflexivity. Qed.
Example prefix_class : prefixmatch [91; 42; 0] [42] false 2 1 = Ret true /\ stringmatchlen [91; 42; 0] [42; 120] false 2 2 = Ret false.
Proof. split; reflexivity. Qed.
