(* ===== verification/GlobSpec.v ===== *)
(** * GlobSpec: the matcher decides what patterns denote

    A pattern is a sequence of tokens, a token accepts one character or, for a
    star, any number of them.  The early exits of the matcher lose no match. *)

From S2P Require Import Prelude Memory Sds Glob.

(** ** What a pattern denotes *)

(** The items of a bracket: a character, an escaped one (never folded), a range. *)
Inductive item := IChar (c : Z) | IEscaped (c : Z) | IRange (a b : Z).

Inductive token := TStar | TAny | TClass (not_ : bool) (items : list item) | TLit (c : Z).

Definition cons_item (i : item) (r : list item * list Z) : list item * list Z := (i :: r.1, r.2).

(** The items up to the closing bracket, or the end, and what follows. *)
Fixpoint parse_class (ps : list Z) : list item * list Z :=
  match ps with
  | [] => ([], [])
  | [c] => if c =? 93 then ([], []) else ([IChar c], [])
  | c :: (d :: ps2) as ps1 =>
    if c =? 92 then cons_item (IEscaped d) (parse_class ps2)
    else if c =? 93 then ([], ps1)
    else match ps2 with
         | e :: ps3 => if d =? 45 then cons_item (IRange c e) (parse_class ps3) else cons_item (IChar c) (parse_class ps1)
         | [] => cons_item (IChar c) (parse_class ps1)
         end
  end.

Definition parse_bracket (ps : list Z) : token * list Z :=
  let '(not_, ps) := match ps with c :: ps' => if c =? 94 then (true, ps') else (false, ps) | [] => (false, ps) end in
  let '(its, r) := parse_class ps in (TClass not_ its, r).

Fixpoint parse_n (n : nat) (ps : list Z) : list token :=
  match n, ps with
  | S n, c :: ps =>
    if c =? 42 then TStar :: parse_n n ps
    else if c =? 63 then TAny :: parse_n n ps
    else if c =? 91 then let '(t, r) := parse_bracket ps in t :: parse_n n r
    else match ps with
         | d :: ps' => if c =? 92 then TLit d :: parse_n n ps' else TLit c :: parse_n n ps
         | [] => [TLit c]
         end
  | _, _ => []
  end.
Definition parse (ps : list Z) : list token := parse_n (length ps) ps.

Definition item_accepts (nocase : bool) (x : Z) (i : item) : bool :=
  match i with
  | IChar c => same_char nocase c x
  | IEscaped c => c =? x
  | IRange a b => in_range nocase a b x
  end.

Definition accepts (nocase : bool) (t : token) (x : Z) : bool :=
  match t with
  | TStar => false
  | TAny => true
  | TClass not_ items => xorb not_ (existsb (item_accepts nocase x) items)
  | TLit c => same_char nocase c x
  end.

(** The strings a sequence of tokens matches. *)
Inductive glob (nocase : bool) : list token -> list Z -> Prop :=
| glob_nil : glob nocase [] []
| glob_one t ts x xs : accepts nocase t x = true -> glob nocase ts xs -> glob nocase (t :: ts) (x :: xs)
| glob_stop ts xs : glob nocase ts xs -> glob nocase (TStar :: ts) xs
| glob_take ts x xs : glob nocase (TStar :: ts) xs -> glob nocase (TStar :: ts) (x :: xs).

Definition is_star (t : token) : bool := match t with TStar => true | _ => false end.
Fixpoint stars (ts : list token) : Z := match ts with [] => 0 | t :: ts => (if is_star t then 1 else 0) + stars ts end.

(** ** Parsing *)

Lemma parse_class_eq c d ps2 : parse_class (c :: d :: ps2) =
  if c =? 92 then cons_item (IEscaped d) (parse_class ps2)
  else if c =? 93 then ([], d :: ps2)
  else match ps2 with
       | e :: ps3 => if d =? 45 then cons_item (IRange c e) (parse_class ps3) else cons_item (IChar c) (parse_class (d :: ps2))
       | [] => cons_item (IChar c) (parse_class (d :: ps2))
       end.
Proof. reflexivity. Qed.

Lemma parse_class_length n : forall ps, (length ps <= n)%nat -> (length (parse_class ps).2 <= length ps)%nat.
Proof.
  induction n as [|n IH]; intros [|c [|d ps]] Hn; cbn [length] in Hn; try (cbn; lia); [cbn; case_match; cbn; lia|].
  rewrite parse_class_eq. repeat case_match; subst; unfold cons_item; cbn [snd length] in *; try lia;
    match goal with |- context [parse_class ?l] => pose proof (IH l ltac:(cbn [length]; lia)) end; cbn [length] in *; lia.
Qed.

Lemma parse_bracket_length ps : (length (parse_bracket ps).2 <= length ps)%nat.
Proof.
  assert (forall not_ l, (let '(its, r) := parse_class l in (TClass not_ its, r)).2 = (parse_class l).2) as E by (intros; by destruct (parse_class l)).
  unfold parse_bracket. destruct ps as [|c ps]; [cbn; lia|]. destruct (c =? 94); rewrite E; pose proof (parse_class_length _ _ (le_n (length ps)));
    pose proof (parse_class_length _ _ (le_n (length (c :: ps)))); cbn [length] in *; lia.
Qed.

Lemma parse_n_fuel n : forall m ps, (length ps <= n)%nat -> (length ps <= m)%nat -> parse_n n ps = parse_n m ps.
Proof.
  induction n as [|n IH]; intros [|m] [|c ps] Hn Hm; cbn [length] in *; try lia; try reflexivity.
  cbn [parse_n]. pose proof (parse_bracket_length ps) as Hb. destruct (parse_bracket ps) as [t r]. cbn [snd] in Hb.
  repeat case_match; subst; cbn [length] in *; try done; f_equal; apply IH; cbn [length]; lia.
Qed.

Lemma parse_cons c ps : parse (c :: ps) =
  if c =? 42 then TStar :: parse ps
  else if c =? 63 then TAny :: parse ps
  else if c =? 91 then (parse_bracket ps).1 :: parse (parse_bracket ps).2
  else match ps with
       | d :: ps' => if c =? 92 then TLit d :: parse ps' else TLit c :: parse ps
       | [] => [TLit c]
       end.
Proof.
  unfold parse. cbn [length parse_n]. pose proof (parse_bracket_length ps) as Hb. destruct (parse_bracket ps) as [t r]. cbn [fst snd] in *.
  repeat case_match; subst; try done; f_equal; apply parse_n_fuel; cbn [length] in *; lia.
Qed.

Lemma parse_stars k ps : parse (replicate k 42 ++ ps) = replicate k TStar ++ parse ps.
Proof. induction k as [|k IH]; [done|]. cbn [replicate app]. rewrite parse_cons. cbn. by rewrite IH. Qed.

Lemma parse_bracket_class ps : exists not_ its, (parse_bracket ps).1 = TClass not_ its.
Proof.
  unfold parse_bracket. destruct ps as [|c ps]; [by exists false, []|]. destruct (c =? 94);
    match goal with |- context [parse_class ?l] => destruct (parse_class l) as [its r] end; by eexists _, its.
Qed.

Lemma parse_head c ps : c <> 42 -> exists t ts, parse (c :: ps) = t :: ts /\ is_star t = false.
Proof.
  intros Hc. rewrite parse_cons, (proj2 (Z.eqb_neq _ _) Hc). destruct (parse_bracket_class ps) as (n & its & E). rewrite E.
  repeat case_match; by eexists _, _.
Qed.

Lemma stars_nonneg ts : 0 <= stars ts.
Proof. induction ts as [|t ts IH]; cbn [stars]; [lia|destruct (is_star t); lia]. Qed.

Lemma stars_replicate k ts : stars (replicate k TStar ++ ts) = Z.of_nat k + stars ts.
Proof. induction k as [|k IH]; [done|]. cbn [replicate app stars is_star]. lia. Qed.

(** ** The language of a pattern *)

Section language.
Context (nocase : bool).
Implicit Types (ts : list token) (xs : list Z).

Lemma glob_star ts xs : glob nocase (TStar :: ts) xs <-> exists k, glob nocase ts (drop k xs).
Proof.
  split.
  - remember (TStar :: ts) as l eqn:E. intros H. induction H as [|t ts' x xs Ha|ts' xs H|ts' x xs H IH]; simplify_eq/=.
    + by exists O.
    + destruct (IH eq_refl) as [k Hk]. by exists (S k).
  - intros [k Hk]. revert xs Hk. induction k as [|k IH]; intros xs Hk; [by apply glob_stop|].
    destruct xs as [|x xs]; [by apply glob_stop|]. by apply glob_take, IH.
Qed.

Lemma glob_star_star ts xs : glob nocase (TStar :: TStar :: ts) xs <-> glob nocase (TStar :: ts) xs.
Proof.
  rewrite (glob_star (TStar :: ts)). split; [|intros H; by exists O]. intros [k Hk]. rewrite glob_star in Hk. destruct Hk as [j Hj].
  rewrite drop_drop in Hj. apply glob_star. by eexists.
Qed.

Lemma glob_stars k ts xs : glob nocase (replicate (S k) TStar ++ ts) xs <-> exists j, glob nocase ts (drop j xs).
Proof. rewrite <- glob_star. induction k as [|k IH]; [done|]. change (glob nocase (TStar :: TStar :: replicate k TStar ++ ts) xs <-> glob nocase (TStar :: ts) xs). by rewrite glob_star_star. Qed.

Lemma glob_one_inv t ts x xs : is_star t = false -> glob nocase (t :: ts) (x :: xs) <-> accepts nocase t x = true /\ glob nocase ts xs.
Proof. intros Ht. split; [|intros [Ha Hg]; by apply glob_one]. intros H. by inversion H; subst. Qed.

Lemma glob_one_nil t ts : is_star t = false -> ~ glob nocase (t :: ts) [].
Proof. intros Ht H. by inversion H; subst. Qed.

Lemma glob_nil_inv ts : glob nocase ts [] <-> Forall (fun t => is_star t = true) ts.
Proof.
  split; [|induction 1 as [|t ts Ht _ IH]; [constructor|destruct t; try done; by apply glob_stop]].
  remember [] as xs eqn:E. induction 1; simplify_eq; [done|]. constructor; [done|]. by apply IHglob.
Qed.

Lemma glob_nil_nil xs : glob nocase [] xs <-> xs = [].
Proof. split; [by inversion 1|intros ->; constructor]. Qed.

(** No match starts anywhere. *)
Definition no_match ts xs : Prop := forall k, ~ glob nocase ts (drop k xs).

Lemma no_match_one t ts x xs : is_star t = false -> no_match ts xs -> no_match (t :: ts) (x :: xs).
Proof.
  intros Ht H k Hk. destruct (drop k (x :: xs)) as [|y ys] eqn:E; [by apply (glob_one_nil t ts) in Hk|].
  apply glob_one_inv in Hk as [_ Hk]; [|done]. apply (H k). apply (f_equal (drop 1)) in E. rewrite drop_drop, Nat.add_1_r in E. cbn [drop] in E.
  by rewrite E.
Qed.

Lemma no_match_reject t ts x xs : is_star t = false -> accepts nocase t x = false -> ~ glob nocase (t :: ts) (x :: xs).
Proof. intros Ht Ha Hg. apply glob_one_inv in Hg as [Hg _]; [congruence|done]. Qed.

Lemma no_match_star k ts xs : no_match ts xs -> no_match (replicate (S k) TStar ++ ts) xs.
Proof. intros H j Hj. apply glob_stars in Hj as [i Hi]. rewrite drop_drop in Hi. by apply (H (j + i)%nat). Qed.

Lemma no_match_drop j ts xs : no_match ts xs -> no_match ts (drop j xs).
Proof. intros H k. rewrite drop_drop. apply H. Qed.
End language.

(** ** Reading the buffers *)

(** The characters [xs] are at the index [p]. *)
Definition reads (l : list Z) (p : Z) (xs : list Z) : Prop := 0 <= p /\ exists post, drop (Z.to_nat p) l = xs ++ post.

Lemma reads_cons l p x xs : reads l p (x :: xs) -> rd l p = Ret x /\ reads l (p + 1) xs.
Proof.
  intros [Hp [post E]]. split.
  - apply rd_lookup; [done|]. rewrite <- (Nat.add_0_r (Z.to_nat p)), <- lookup_drop, E. done.
  - split; [lia|]. exists post. replace (Z.to_nat (p + 1)) with (Z.to_nat p + 1)%nat by lia. by rewrite <- drop_drop, E.
Qed.

Lemma reads_app l p xs ys : reads l p (xs ++ ys) -> reads l (p + Zlen xs) ys.
Proof.
  intros [Hp [post E]]. pose proof (Zlen_nonneg xs). split; [lia|]. exists post.
  replace (Z.to_nat (p + Zlen xs)) with (Z.to_nat p + length xs)%nat by (unfold Zlen; lia).
  by rewrite <- drop_drop, E, <- app_assoc, drop_app_length.
Qed.

Lemma reads_drop l s xs k : reads l s xs -> (k <= length xs)%nat -> reads l (s + Z.of_nat k) (drop k xs).
Proof.
  intros H Hk. rewrite <- (take_drop k xs) in H. apply reads_app in H. unfold Zlen in H. by rewrite length_take, Nat.min_l in H by lia.
Qed.

(** A pattern of [Zlen ps] characters, then one that is not a star (the terminator). *)
Definition pattern_at (pattern : list Z) (p : Z) (ps : list Z) : Prop := exists t, t <> 42 /\ reads pattern p (ps ++ [t]).

Lemma pattern_cons pattern p c ps : pattern_at pattern p (c :: ps) -> rd pattern p = Ret c /\ pattern_at pattern (p + 1) ps.
Proof. intros (t & Ht & H). apply reads_cons in H as [H1 H2]. split; [done|]. by exists t. Qed.

Lemma pattern_app pattern p xs ps : pattern_at pattern p (xs ++ ps) -> pattern_at pattern (p + Zlen xs) ps.
Proof. intros (t & Ht & H). rewrite <- app_assoc in H. apply reads_app in H. by exists t. Qed.

Lemma split_stars ps : exists k rest, ps = replicate k 42 ++ rest /\ match rest with [] => True | c :: _ => c <> 42 end.
Proof.
  induction ps as [|c ps (k & rest & -> & Hr)]; [by exists O, []|]. destruct (Z.eq_dec c 42) as [->|Hc].
  - by exists (S k), rest.
  - by exists O, (c :: replicate k 42 ++ rest).
Qed.

(** ** The loops *)

Section loops.
Context (pattern string : list Z) (nocase : bool).

Lemma more n : n <> 0 -> negb (n =? 0) = true.
Proof. lia. Qed.

Lemma skip_stars_spec k rest : match rest with [] => True | c :: _ => c <> 42 end -> forall fuel c p, (k < fuel)%nat ->
  pattern_at pattern p (c :: replicate k 42 ++ rest) ->
  skip_stars pattern fuel p (1 + Z.of_nat k + Zlen rest) = Ret (p + Z.of_nat k, 1 + Zlen rest).
Proof.
  intros Hr. pose proof (Zlen_nonneg rest). induction k as [|k IH]; intros [|fuel] c p Hf Hp; try lia; cbn [skip_stars].
  - rewrite (more _) by lia. cbn [replicate app] in Hp. apply pattern_cons in Hp as [_ (t & Ht & Hp)].
    assert (exists d, rd pattern (p + 1) = Ret d /\ d <> 42) as (d & -> & Hd).
    { destruct rest as [|d rest]; cbn [app] in Hp; apply reads_cons in Hp as [E _]; by eexists. }
    rewrite !ret_bind. replace (d =? 42) with false by lia. cbv iota. do 2 f_equal; lia.
  - rewrite (more _) by lia. pose proof Hp as [_ Hp']%pattern_cons. cbn [replicate app] in Hp'.
    pose proof Hp' as [-> _]%pattern_cons. rewrite !ret_bind. cbv iota.
    replace (1 + Z.of_nat (S k) + Zlen rest - 1) with (1 + Z.of_nat k + Zlen rest) by lia. rewrite (IH fuel 42 (p + 1)); [do 2 f_equal; lia|lia|done].
Qed.

Lemma skip_last_stars_spec k rest : match rest with [] => True | c :: _ => c <> 42 end -> forall fuel p, (k < fuel)%nat ->
  pattern_at pattern p (replicate k 42 ++ rest) -> skip_last_stars pattern fuel p (Z.of_nat k + Zlen rest) = Ret (Zlen rest).
Proof.
  intros Hr. pose proof (Zlen_nonneg rest). induction k as [|k IH]; intros [|fuel] p Hf Hp; try lia; cbn [skip_last_stars].
  - cbn [replicate app] in Hp. destruct rest as [|d rest]; [reflexivity|]. rewrite Zlen_cons in *. pose proof (Zlen_nonneg rest).
    rewrite (more _) by lia. apply pattern_cons in Hp as [-> _]. rewrite !ret_bind. replace (d =? 42) with false by lia. cbv iota. f_equal; lia.
  - rewrite (more _) by lia. cbn [replicate app] in Hp. apply pattern_cons in Hp as [-> Hp]. rewrite !ret_bind. cbv iota.
    replace (Z.of_nat (S k) + Zlen rest - 1) with (Z.of_nat k + Zlen rest) by lia. apply IH; [lia|done].
Qed.

Lemma class_loop_spec x s n : rd string s = Ret x -> forall ps fuel p mtch, (length ps <= n)%nat -> (length ps < fuel)%nat -> pattern_at pattern p ps ->
  exists p', class_loop pattern string nocase fuel p (Zlen ps) s mtch
    = Ret (p', Zlen (parse_class ps).2 + 1, mtch || existsb (item_accepts nocase x) (parse_class ps).1) /\
    pattern_at pattern (p' + 1) (parse_class ps).2.
Proof.
  intros Hx. induction n as [|n IH]; intros ps fuel p mtch Hn Hf Hp.
  { destruct ps; cbn [length] in Hn; [|lia]. destruct fuel; [lia|]. exists (p - 1). cbn. rewrite orb_false_r. split; [done|]. by replace (p - 1 + 1) with p by lia. }
  destruct fuel as [|fuel]; [lia|]. destruct ps as [|c [|d ps]].
  - exists (p - 1). cbn. rewrite orb_false_r. split; [done|]. by replace (p - 1 + 1) with p by lia.
  - pose proof Hp as [Ec Hp1]%pattern_cons. cbn [class_loop]. change (Zlen [c]) with 1. cbn [Z.leb Z.compare Z.eqb Pos.compare Pos.compare_cont]. rewrite ret_bind, Ec, ret_bind. cbv iota.
    cbn [parse_class]. destruct (c =? 93); [exists p; cbn; rewrite orb_false_r; done|]. rewrite ret_bind, Hx, ret_bind. cbv iota.
    destruct (IH [] fuel (p + 1) (if same_char nocase c x then true else mtch)) as (p' & E & Hp'); [cbn in *; lia..|done|]. exists p'. change (1 - 1) with (Zlen (@nil Z)).
    rewrite E. cbn [fst snd parse_class existsb item_accepts]. rewrite !orb_false_r. split; [|done]. do 3 f_equal. destruct (same_char nocase c x), mtch; done.
  - pose proof Hp as [Ec Hp1]%pattern_cons. pose proof Hp1 as [Ed Hp2]%pattern_cons. cbn [class_loop]. rewrite parse_class_eq.
    pose proof (Zlen_nonneg ps). rewrite !Zlen_cons. rewrite (proj2 (Z.leb_le 2 _)) by lia. rewrite Ec, !ret_bind. cbn [length] in *.
    destruct (c =? 92) eqn:Ebs; cbv iota.
    + rewrite Ed, Hx, !ret_bind. replace (1 + (1 + Zlen ps) - 1 - 1) with (Zlen ps) by lia.
      destruct (IH ps fuel (p + 1 + 1) (if d =? x then true else mtch)) as (p' & E & Hp'); [lia..|done|]. exists p'. rewrite E. split; [|done].
      cbn [cons_item fst snd existsb item_accepts]. do 2 f_equal. destruct (d =? x), mtch; done.
    + rewrite (proj2 (Z.eqb_neq _ 0)) by lia. cbv iota. destruct (c =? 93) eqn:Ebr; [exists p; cbn [fst snd existsb]; rewrite orb_false_r, !Zlen_cons; split; [do 3 f_equal; lia|done]|].
      assert (forall b, exists p', class_loop pattern string nocase fuel (p + 1) (1 + (1 + Zlen ps) - 1) s (if same_char nocase c x then true else b)
        = Ret (p', Zlen (cons_item (IChar c) (parse_class (d :: ps))).2 + 1, b || existsb (item_accepts nocase x) (cons_item (IChar c) (parse_class (d :: ps))).1) /\
        pattern_at pattern (p' + 1) (cons_item (IChar c) (parse_class (d :: ps))).2) as Hplain.
      { intros b. destruct (IH (d :: ps) fuel (p + 1) (if same_char nocase c x then true else b)) as (p' & E & Hp'); [cbn [length]; lia..|done|].
        rewrite Zlen_cons in E. replace (1 + (1 + Zlen ps) - 1) with (1 + Zlen ps) by lia. exists p'. rewrite E. split; [|done].
        cbn [cons_item fst snd existsb item_accepts]. do 2 f_equal. destruct (same_char nocase c x), b; done. }
      destruct ps as [|e ps].
      * change (3 <=? 1 + (1 + Zlen [])) with false. cbv iota. rewrite ret_bind. cbv iota. rewrite Hx, ret_bind. apply Hplain.
      * pose proof (Zlen_nonneg ps). rewrite Zlen_cons in *. rewrite (proj2 (Z.leb_le 3 _)) by lia. rewrite Ed, !ret_bind. destruct (d =? 45) eqn:Eda; cbv iota.
        -- pose proof Hp2 as [Ee Hp3]%pattern_cons. replace (p + 1 + 1) with (p + 2) in Ee by lia. rewrite Ee, Hx, !ret_bind.
           replace (1 + (1 + (1 + Zlen ps)) - 2 - 1) with (Zlen ps) by lia. replace (p + 1 + 1 + 1) with (p + 2 + 1) in Hp3 by lia. cbn [length] in *.
           destruct (IH ps fuel (p + 2 + 1) (if in_range nocase c e x then true else mtch)) as (p' & E & Hp'); [lia..|done|]. exists p'. rewrite E. split; [|done].
           cbn [cons_item fst snd existsb item_accepts]. do 2 f_equal. destruct (in_range nocase c e x), mtch; done.
        -- rewrite Hx, ret_bind. apply Hplain.
Qed.

Lemma match_class_spec x s c ps p : rd string s = Ret x -> pattern_at pattern p (c :: ps) ->
  exists p' t, match_class pattern string nocase p (1 + Zlen ps) s = Ret (p', Zlen (parse_bracket ps).2 + 1, accepts nocase (parse_bracket ps).1 x) /\
    (parse_bracket ps).1 = t /\ is_star t = false /\ pattern_at pattern (p' + 1) (parse_bracket ps).2.
Proof.
  intros Hx [_ Hp]%pattern_cons. unfold match_class, parse_bracket. replace (1 + Zlen ps - 1) with (Zlen ps) by lia.
  assert (forall (not_ : bool) l q, pattern_at pattern q l -> exists p' t,
    ('(p0, patternLen, mtch) ← class_loop pattern string nocase (S (Z.to_nat (Zlen l))) q (Zlen l) s false; Ret (p0, patternLen, if not_ then negb mtch else mtch))
      = Ret (p', Zlen (let '(its, r) := parse_class l in (TClass not_ its, r)).2 + 1, accepts nocase (let '(its, r) := parse_class l in (TClass not_ its, r)).1 x) /\
    (let '(its, r) := parse_class l in (TClass not_ its, r)).1 = t /\ is_star t = false /\
    pattern_at pattern (p' + 1) (let '(its, r) := parse_class l in (TClass not_ its, r)).2) as H.
  { intros not_ l q Hq. destruct (class_loop_spec x s (length l) Hx l (S (Z.to_nat (Zlen l))) q false) as (p' & E & Hp'); [unfold Zlen; lia..|done|].
    destruct (parse_class l) as [its r]. cbn [fst snd] in *. exists p', (TClass not_ its). rewrite E, ret_bind. cbn [accepts]. rewrite orb_false_l. by destruct not_. }
  destruct ps as [|d ps].
  - change (negb (Zlen (@nil Z) =? 0)) with false. cbv iota. rewrite ret_bind. apply (H false []). done.
  - pose proof Hp as [Ed Hp2]%pattern_cons. pose proof (Zlen_nonneg ps). rewrite Zlen_cons, (more _), Ed, !ret_bind by lia. destruct (d =? 94).
    + replace (1 + Zlen ps - 1) with (Zlen ps) by lia. by apply (H true).
    + rewrite <- (Zlen_cons d ps). by apply (H false).
Qed.

(** What a call started with the flag down answers about the tokens [ts]. *)
Definition answers (ts : list token) (xs : list Z) (r : outcome (bool * bool)) : Prop :=
  exists b skip, r = Ret (b, skip) /\ (b = true <-> glob nocase ts xs) /\ (b = false -> skip = true -> no_match nocase ts xs).

Lemma answers_no ts xs : ~ glob nocase ts xs -> answers ts xs (Ret (false, false)).
Proof. intros H. exists false, false. split; [done|]. split; [by split|done]. Qed.

Lemma answers_step t ts x xs r : is_star t = false -> accepts nocase t x = true -> answers ts xs r -> answers (t :: ts) (x :: xs) r.
Proof.
  intros Ht Ha (b & skip & -> & Hb & Hs). exists b, skip. split; [done|]. split.
  - rewrite Hb, glob_one_inv by done. tauto.
  - intros H1 H2. by apply no_match_one, Hs.
Qed.

Lemma star_loop_spec ts call : ~ glob nocase ts [] ->
  (forall s xs, reads string s xs -> xs <> [] -> answers ts xs (call s (Zlen xs) false)) ->
  forall n s xs, (length xs <= n)%nat -> reads string s xs ->
  exists b skip, star_loop call n s (Zlen xs) false = Ret (b, skip) /\ (b = true <-> exists k, glob nocase ts (drop k xs)).
Proof.
  intros Hnil Hcall. induction n as [|n IH]; intros s [|x xs] Hn Hs; cbn [length] in Hn; try lia;
    try (exists false, true; split; [done|]; split; [done|]; intros [k Hk]; by rewrite drop_nil in Hk).
  pose proof (Zlen_nonneg xs). destruct (Hcall s (x :: xs) Hs ltac:(done)) as (b & skip & E & Hb & Hskip).
  cbn [star_loop]. rewrite Zlen_cons in *. rewrite (proj2 (Z.eqb_neq _ 0)), E, ret_bind by lia. cbv iota. destruct b.
  { exists true, skip. split; [done|]. split; [|done]. intros _. exists O. by apply Hb. }
  destruct skip.
  { exists false, true. split; [done|]. split; [done|]. intros [k Hk]. by destruct (Hskip eq_refl eq_refl k). }
  apply reads_cons in Hs as [_ Hs]. destruct (IH (s + 1) xs) as (b & skip & E' & Hb'); [lia|done|]. exists b, skip.
  replace (1 + Zlen xs - 1) with (Zlen xs) by lia. split; [done|]. rewrite Hb'. split; intros [k Hk].
  - by exists (S k).
  - destruct k as [|k]; [apply Hb in Hk; discriminate|]. by exists k.
Qed.

(** The end of a round that consumed a character. *)
Lemma next_spec (loop : outcome (bool * bool)) ps p xs :
  pattern_at pattern p ps -> (xs <> [] -> answers (parse ps) xs loop) ->
  answers (parse ps) xs (if Zlen xs =? 0 then
    patternLen ← skip_last_stars pattern (S (Z.to_nat (Zlen ps))) p (Zlen ps); Ret ((patternLen =? 0) && (Zlen xs =? 0), false) else loop).
Proof.
  intros Hp Hloop. destruct xs as [|x xs]; [|rewrite Zlen_cons; pose proof (Zlen_nonneg xs); rewrite (proj2 (Z.eqb_neq _ 0)) by lia; by apply Hloop].
  change (Zlen (@nil Z) =? 0) with true. cbv iota. destruct (split_stars ps) as (k & rest & -> & Hr). rewrite parse_stars.
  assert (Zlen (replicate k 42 ++ rest) = Z.of_nat k + Zlen rest) as -> by (rewrite Zlen_app; unfold Zlen; rewrite length_replicate; lia).
  pose proof (Zlen_nonneg rest). rewrite (skip_last_stars_spec k rest Hr) by (done || lia). rewrite ret_bind, andb_true_r. exists (Zlen rest =? 0), false. split; [done|]. split; [|done].
  rewrite glob_nil_inv, list.Forall_app. destruct rest as [|c rest].
  - split; [|done]. intros _. split; [|constructor]. apply list.Forall_replicate. done.
  - pose proof (Zlen_nonneg rest). rewrite Zlen_cons. split; [lia|]. intros [_ Hall]. exfalso.
    destruct (parse_head c rest Hr) as (t & ts & E & Ht). rewrite E in Hall. apply list.Forall_cons in Hall as [Hall _]. congruence.
Qed.

Lemma match_loop_spec fuel : forall ps p s xs nesting, (length ps <= fuel)%nat -> pattern_at pattern p ps -> reads string s xs -> xs <> [] ->
  nesting + stars (parse ps) <= 1000 ->
  answers (parse ps) xs (match_loop pattern string nocase fuel p (Zlen ps) s (Zlen xs) false nesting).
Proof.
  induction fuel as [|fuel IH]; intros ps p s [|x xs] nesting Hf Hp Hs Hne Hn; try done.
  all: destruct ps as [|c ps]; [exists false, false; cbn [match_loop]; pose proof (Zlen_nonneg xs); rewrite Zlen_cons; split; [cbn [Zlen length Z.of_nat Z.eqb orb]; do 2 f_equal; lia|];
    split; [|done]; split; [done|]; intros Hg; by apply glob_nil_nil in Hg|].
  { cbn [length] in Hf. lia. }
  cbn [length] in Hf. cbn [match_loop]. pose proof (Zlen_nonneg ps). pose proof (Zlen_nonneg xs). rewrite !Zlen_cons.
  rewrite !(proj2 (Z.eqb_neq (1 + _) 0)) by lia. cbn [orb]. pose proof Hp as [Ec Hp1]%pattern_cons. pose proof Hs as [Ex Hs1]%reads_cons.
  assert (forall t ps' p' loop, pattern_at pattern (p' + 1) ps' -> (length ps' <= fuel)%nat -> is_star t = false -> accepts nocase t x = true ->
    parse (c :: ps) = t :: parse ps' -> loop = match_loop pattern string nocase fuel (p' + 1) (Zlen ps') (s + 1) (Zlen xs) false nesting ->
    answers (parse (c :: ps)) (x :: xs) (if 1 + Zlen xs - 1 =? 0 then
      patternLen ← skip_last_stars pattern (S (Z.to_nat (Zlen ps'))) (p' + 1) (Zlen ps'); Ret ((patternLen =? 0) && (1 + Zlen xs - 1 =? 0), false) else loop)) as Hnext.
  { intros t ps' p' loop Hp' Hl Ht Ha E ->. rewrite E in *. apply answers_step; [done..|]. replace (1 + Zlen xs - 1) with (Zlen xs) by lia.
    apply next_spec; [done|]. intros Hxs. apply IH; try done. cbn [stars] in Hn. rewrite Ht in Hn. lia. }
  rewrite Ec, ret_bind. pose proof (parse_cons c ps) as Hparse. destruct (c =? 42) eqn:Estar; [|destruct (c =? 63) eqn:Eany; [|destruct (c =? 91) eqn:Ebr]].
  - apply Z.eqb_eq in Estar as ->. destruct (split_stars ps) as (k & rest & -> & Hr).
    assert (1 + Zlen (replicate k 42 ++ rest) = 1 + Z.of_nat k + Zlen rest) as -> by (rewrite Zlen_app; unfold Zlen; rewrite length_replicate; lia).
    pose proof (Zlen_nonneg rest). rewrite (skip_stars_spec k rest Hr _ 42) by (done || lia). rewrite ret_bind.
    change (42 :: replicate k 42 ++ rest) with (replicate (S k) 42 ++ rest) in *. rewrite parse_stars in *. clear Hnext Hparse. rewrite stars_replicate in Hn.
    destruct rest as [|d rest].
    + change (1 + Zlen []) with 1. exists true, false. split; [reflexivity|]. split; [|done]. split; [|done]. intros _. apply glob_stars.
      exists (length (x :: xs)). rewrite drop_ge by lia. constructor.
    + pose proof (Zlen_nonneg rest). rewrite Zlen_cons in *. rewrite (proj2 (Z.eqb_neq (1 + (1 + Zlen rest)) 1)) by lia. cbv iota.
      destruct (parse_head d rest Hr) as (t & ts & Et & Ht).
      edestruct (star_loop_spec (parse (d :: rest))) with (n := Z.to_nat (1 + Zlen xs)) (s := s) (xs := x :: xs) as (b & skip & E & Hb);
        [rewrite Et; by apply glob_one_nil| |unfold Zlen; cbn [length]; lia|done| ].
      2: { rewrite Zlen_cons in E. rewrite E. exists b, skip. split; [done|]. rewrite glob_stars. split; [done|]. intros -> _ j Hj. apply glob_stars in Hj as [i Hi].
           rewrite drop_drop in Hi. assert (false = true) by (apply Hb; by eexists). done. }
      intros s' ys Hs' Hys. cbv beta. rewrite (proj2 (Z.ltb_ge 1000 _)) by (pose proof (stars_nonneg (parse (d :: rest))); lia).
      replace (1 + (1 + Zlen rest) - 1) with (Zlen (d :: rest)) by (rewrite Zlen_cons; lia). apply IH; try done.
      * rewrite length_app, length_replicate in Hf. cbn [length] in *. lia.
      * replace (p + Z.of_nat k + 1) with (p + 1 + Zlen (replicate k 42)) by (unfold Zlen; rewrite length_replicate; lia). by apply pattern_app.
      * lia.
  - replace (1 + Zlen ps - 1) with (Zlen ps) by lia. replace (1 + Zlen xs - 1) with (1 + Zlen xs - 1) by lia. apply (Hnext TAny ps p); try done; [lia|].
    by replace (1 + Zlen xs - 1) with (Zlen xs) by lia.
  - destruct (match_class_spec x s c ps p Ex Hp) as (p' & t & E & Et & Ht & Hp'). rewrite E, ret_bind. pose proof (parse_bracket_length ps).
    destruct (accepts nocase (parse_bracket ps).1 x) eqn:Ea; cbn [negb].
    + replace (Zlen (parse_bracket ps).2 + 1 - 1) with (Zlen (parse_bracket ps).2) by lia.
      apply (Hnext t (parse_bracket ps).2 p'); try done; [lia|congruence|congruence|]. by replace (1 + Zlen xs - 1) with (Zlen xs) by lia.
    + apply answers_no. rewrite Hparse, Et in *. by apply no_match_reject.
  - assert (forall d ps' p', rd pattern p' = Ret d -> pattern_at pattern (p' + 1) ps' -> (length ps' <= fuel)%nat -> parse (c :: ps) = TLit d :: parse ps' ->
      forall plen, plen = 1 + Zlen ps' -> answers (parse (c :: ps)) (x :: xs) (c ← rd pattern p'; x ← rd string s;
        if negb (same_char nocase c x) then Ret (false, false) else
        if 1 + Zlen xs - 1 =? 0 then patternLen ← skip_last_stars pattern (S (Z.to_nat (plen - 1))) (p' + 1) (plen - 1);
          Ret ((patternLen =? 0) && (1 + Zlen xs - 1 =? 0), false)
        else match_loop pattern string nocase fuel (p' + 1) (plen - 1) (s + 1) (1 + Zlen xs - 1) false nesting)) as Hlit.
    { intros d ps' p' Ed Hp' Hl E plen ->. rewrite Ed, Ex, !ret_bind. destruct (same_char nocase d x) eqn:Es; cbn [negb].
      - replace (1 + Zlen ps' - 1) with (Zlen ps') by lia. apply (Hnext (TLit d) ps' p'); try done. by replace (1 + Zlen xs - 1) with (Zlen xs) by lia.
      - apply answers_no. rewrite E. by apply no_match_reject. }
    destruct ps as [|d ps].
    + rewrite andb_false_r. apply (Hlit c [] p Ec Hp1); [cbn; lia|exact Hparse|reflexivity].
    + rewrite Zlen_cons in *. pose proof (Zlen_nonneg ps). rewrite (proj2 (Z.leb_le 2 _)), andb_true_r by lia. pose proof Hp1 as [Ed Hp2]%pattern_cons. cbn [length] in *.
      destruct (c =? 92); [apply (Hlit d ps (p + 1)); try done; lia|]. apply (Hlit c (d :: ps) p); try done; cbn [length]; [lia|rewrite Zlen_cons; lia].
Qed.
End loops.

Lemma buffer_pattern ps t post : t <> 42 -> pattern_at (ps ++ t :: post) 0 ps.
Proof. intros Ht. exists t. split; [done|]. split; [done|]. exists post. cbn [Z.to_nat drop]. by rewrite <- app_assoc. Qed.

Lemma buffer_reads xs post : reads (xs ++ post) 0 xs.
Proof. split; [done|]. by exists post. Qed.

Lemma impl_spec nocase ps t post xs spost : t <> 42 -> stars (parse ps) <= 1000 -> xs <> [] ->
  answers nocase (parse ps) xs (stringmatchlen_impl (ps ++ t :: post) (xs ++ spost) nocase (Zlen ps) (Zlen xs) false 0).
Proof.
  intros Ht Hn Hxs. unfold stringmatchlen_impl. change (1000 <? 0) with false. cbv iota.
  apply match_loop_spec; [unfold Zlen; lia|by apply buffer_pattern|apply buffer_reads|done|lia].
Qed.

Lemma impl_empty nocase ps t post spost : stringmatchlen_impl (ps ++ t :: post) spost nocase (Zlen ps) 0 false 0 = Ret (Zlen ps =? 0, false).
Proof.
  unfold stringmatchlen_impl. change (1000 <? 0) with false. cbv iota. destruct (Z.to_nat (Zlen ps)); cbn [match_loop]; rewrite orb_true_r, andb_true_r; reflexivity.
Qed.

(** The pattern matches the string as the code sees it: the empty string has only
    the empty pattern. *)
Definition matches (nocase : bool) (ps xs : list Z) : Prop :=
  (xs = [] /\ ps = []) \/ (xs <> [] /\ glob nocase (parse ps) xs).

Lemma stringmatchlen_spec nocase ps t post xs spost : t <> 42 -> stars (parse ps) <= 1000 ->
  exists b, stringmatchlen (ps ++ t :: post) (xs ++ spost) nocase (Zlen ps) (Zlen xs) = Ret b /\ (b = true <-> matches nocase ps xs).
Proof.
  intros Ht Hn. unfold stringmatchlen, matches. destruct xs as [|x xs].
  - change (Zlen []) with 0. rewrite impl_empty, ret_bind. exists (Zlen ps =? 0). split; [done|]. destruct ps as [|c ps].
    + split; [by left|done].
    + pose proof (Zlen_nonneg ps). rewrite Zlen_cons. split; [lia|]. by intros [[_ ?]|[? _]].
  - destruct (impl_spec nocase ps t post (x :: xs) spost Ht Hn ltac:(done)) as (b & skip & E & Hb & _). rewrite E, ret_bind. exists b. split; [done|]. rewrite Hb.
    split; [by right|]. by intros [[? _]|[_ ?]].
Qed.

(** ** Patterns without brackets that end with a star *)

(** The backslashes at the end of [l]. *)
Fixpoint bs_prefix (l : list Z) : Z := match l with c :: l => if c =? 92 then bs_prefix l + 1 else 0 | [] => 0 end.
Definition trailing_bs (l : list Z) : Z := bs_prefix (rev l).

Lemma bs_prefix_app l k : bs_prefix (l ++ k) = if forallb (Z.eqb 92) l then Zlen l + bs_prefix k else bs_prefix l.
Proof.
  induction l as [|c l IH]; [done|]. cbn [app bs_prefix forallb]. rewrite IH, Zlen_cons, (Z.eqb_sym 92 c). destruct (c =? 92); [|done]. cbn [andb].
  destruct (forallb _ l); lia.
Qed.

Lemma forallb_rev {A} (f : A -> bool) l : forallb f (rev l) = forallb f l.
Proof. induction l as [|x l IH]; [done|]. cbn [rev forallb]. rewrite forallb_app, IH. cbn. rewrite andb_true_r. apply andb_comm. Qed.

Lemma trailing_cons c l : trailing_bs (c :: l) = if forallb (Z.eqb 92) l then Zlen l + (if c =? 92 then 1 else 0) else trailing_bs l.
Proof.
  unfold trailing_bs. cbn [rev]. rewrite bs_prefix_app, forallb_rev. cbn [bs_prefix]. unfold Zlen. rewrite length_rev. destruct (forallb _ l); [|done]. destruct (c =? 92); lia.
Qed.

Lemma trailing_all l : forallb (Z.eqb 92) l = true -> trailing_bs l = Zlen l.
Proof.
  intros H. unfold trailing_bs. rewrite <- (app_nil_r (rev l)), bs_prefix_app, forallb_rev, H. unfold Zlen. rewrite length_rev. cbn. lia.
Qed.

(** A star after an even number of backslashes is a star of the pattern. *)
Lemma last_star n : forall ps, (length ps <= n)%nat -> Forall (fun c => c <> 91) ps -> trailing_bs ps mod 2 = 0 ->
  exists ts, parse (ps ++ [42]) = ts ++ [TStar].
Proof.
  induction n as [|n IH]; intros [|c ps] Hn Hbr Ht; cbn [length] in Hn; try lia; [by exists []..|].
  apply list.Forall_cons in Hbr as [Hc Hbr]. cbn [app]. rewrite parse_cons, (proj2 (Z.eqb_neq c 91) Hc).
  assert (c <> 92 -> exists ts, parse (ps ++ [42]) = ts ++ [TStar]) as Hplain.
  { intros H92. apply IH; [lia|done|]. rewrite trailing_cons, (proj2 (Z.eqb_neq c 92) H92), Z.add_0_r in Ht.
    destruct (forallb _ ps) eqn:Ea; [by rewrite trailing_all|done]. }
  destruct (Z.eqb_spec c 42) as [->|H42]; [destruct (Hplain ltac:(lia)) as (ts & ->); by exists (TStar :: ts)|].
  destruct (Z.eqb_spec c 63) as [->|H63]; [destruct (Hplain ltac:(lia)) as (ts & ->); by exists (TAny :: ts)|].
  destruct (Z.eqb_spec c 92) as [->|H92].
  - destruct ps as [|d ps]; [cbn in Ht; discriminate|]. cbn [app]. apply list.Forall_cons in Hbr as [_ Hbr]. cbn [length] in Hn.
    destruct (IH ps) as (ts & ->); [lia|done| |by exists (TLit d :: ts)].
    rewrite !trailing_cons in Ht. cbn [forallb] in Ht. destruct (forallb _ ps) eqn:Ea; [|by destruct (92 =? d)].
    rewrite trailing_all by done. rewrite Zlen_cons, (Z.eqb_sym 92 d), Z.eqb_refl in Ht. destruct (d =? 92); cbn [andb] in Ht; dlia.
  - destruct (Hplain H92) as (ts & E). destruct (ps ++ [42]) as [|d ps'] eqn:Ep; [by destruct ps|]. exists (TLit c :: ts). by rewrite E.
Qed.

Lemma glob_last_star nocase ts xs ys : glob nocase (ts ++ [TStar]) xs -> glob nocase (ts ++ [TStar]) (xs ++ ys).
Proof.
  remember (ts ++ [TStar]) as l eqn:E. intros H. revert ts E. induction H as [|t ts' x xs Ha Hg IH|ts' xs Hg IH|ts' x xs Hg IH]; intros ts E.
  - by destruct ts.
  - destruct ts as [|t' ts]; [by simplify_eq/=|]. simplify_eq/=. apply glob_one; [done|]. by apply (IH ts).
  - destruct ts as [|t' ts]; simplify_eq/=; [|apply glob_stop; by apply (IH ts)]. apply (glob_star nocase []). exists (length (xs ++ ys)). rewrite drop_ge by lia. constructor.
  - apply glob_take. by apply (IH ts).
Qed.

Lemma count_backslashes_spec l : forall n, n = length l -> forall post, count_backslashes (l ++ post) n (Zlen l - 1) = Ret (trailing_bs l).
Proof.
  induction l as [|c l IH] using rev_ind; intros n -> post; [done|]. rewrite length_app. cbn [length]. rewrite Nat.add_1_r. cbn [count_backslashes].
  rewrite Zlen_app, <- app_assoc. change (Zlen [c]) with 1. replace (Zlen l + 1 - 1) with (Zlen l + 0) by lia. rewrite rd_app_off by done. cbn [app]. rewrite rd_head, ret_bind.
  unfold trailing_bs. rewrite rev_app_distr. cbn [rev app bs_prefix]. destruct (c =? 92); [|done].
  rewrite Z.add_0_r, (IH _ eq_refl), ret_bind. done.
Qed.

(** ** Properties *)

(** C13. The matcher decides what the pattern denotes: a star any string, a question
    mark one character, a bracket one character of its items (or none of them),
    any other character itself, folded when asked. On every pattern with at most
    1000 stars, every string and every buffer around them it returns, reads only
    the pattern with the character after it and the string, and answers whether
    the whole string matches; the flag that cuts the search short loses no match.
    The empty string matches only the empty pattern. *)
Theorem stringmatchlen_correct nocase ps t post xs spost : t <> 42 -> stars (parse ps) <= 1000 ->
  exists b, stringmatchlen (ps ++ t :: post) (xs ++ spost) nocase (Zlen ps) (Zlen xs) = Ret b /\
    (b = true <-> (xs = [] /\ ps = []) \/ (xs <> [] /\ glob nocase (parse ps) xs)).
Proof. apply stringmatchlen_spec. Qed.

(** C34. A pattern without brackets that the access control lists accept for a prefix
    matches every key with that prefix. With a bracket this fails: an unclosed
    bracket whose last item is a star is taken for a pattern that ends with one. *)
Theorem prefixmatch_sound :
  (forall nocase ps t post xs spost, t <> 42 -> stars (parse ps) <= 1000 -> Forall (fun c => c <> 91) ps ->
    exists b, prefixmatch (ps ++ t :: post) (xs ++ spost) nocase (Zlen ps) (Zlen xs) = Ret b /\
    (b = true -> forall ys ypost, stringmatchlen (ps ++ t :: post) ((xs ++ ys) ++ ypost) nocase (Zlen ps) (Zlen (xs ++ ys)) = Ret true)) /\
  (prefixmatch [91; 42; 0] [42] false 2 1 = Ret true /\ stringmatchlen [91; 42; 0] [42; 120] false 2 2 = Ret false).
Proof.
  split; [|by split]. intros nocase ps t post xs spost Ht Hn Hbr. unfold prefixmatch. destruct xs as [|x xs].
  { change (Zlen []) with 0. rewrite impl_empty, ret_bind. destruct ps as [|c ps]; [by exists false|]. pose proof (Zlen_nonneg ps).
    rewrite Zlen_cons, (proj2 (Z.eqb_neq _ 0)) by lia. by exists false. }
  destruct (impl_spec nocase ps t post (x :: xs) spost Ht Hn ltac:(done)) as (b & skip & E & Hb & _). rewrite E, ret_bind. destruct b; [|by exists false].
  cbn [negb]. destruct ps as [|c ps _] using rev_ind; [by exists false|]. pose proof (Zlen_nonneg ps).
  rewrite Zlen_app. change (Zlen [c]) with 1. rewrite (proj2 (Z.eqb_neq _ 0)) by lia.
  rewrite <- app_assoc. replace (Zlen ps + 1 - 1) with (Zlen ps + 0) by lia. rewrite rd_app_off by done. cbn [app]. rewrite rd_head, !ret_bind.
  destruct (Z.eqb_spec c 42) as [->|]; cbn [negb]; [|by exists false]. replace (Zlen ps + 1 - 2) with (Zlen ps - 1) by lia.
  rewrite (count_backslashes_spec ps) by (unfold Zlen; lia). rewrite ret_bind. exists (trailing_bs ps mod 2 =? 0). split; [done|]. intros Hbs ys ypost.
  apply list.Forall_app in Hbr as [Hbr _]. destruct (last_star _ ps (le_n _) Hbr) as (ts & Ets); [lia|].
  destruct (stringmatchlen_spec nocase (ps ++ [42]) t post ((x :: xs) ++ ys) ypost Ht Hn) as (b & Eb & Hm).
  rewrite <- app_assoc, Zlen_app in Eb. change (Zlen [42]) with 1 in Eb. cbn [app] in Eb |- *. rewrite Eb. f_equal. apply Hm. right. split; [done|].
  rewrite Ets. apply (glob_last_star nocase ts (x :: xs)). rewrite <- Ets. by apply Hb.
Qed.

(** ** Witnesses *)

Lemma stringmatchlen_correct_witness : 0 <> 42 /\ stars (parse [97; 42; 91; 98; 93]) <= 1000 /\
  exists b, stringmatchlen ([97; 42; 91; 98; 93] ++ 0 :: []) ([97; 120; 98] ++ [0]) false (Zlen [97; 42; 91; 98; 93]) (Zlen [97; 120; 98]) = Ret b /\
    (b = true <-> ([97; 120; 98] = @nil Z /\ [97; 42; 91; 98; 93] = @nil Z) \/ ([97; 120; 98] <> @nil Z /\ glob false (parse [97; 42; 91; 98; 93]) [97; 120; 98])).
Proof.
  assert (0 <> 42 /\ stars (parse [97; 42; 91; 98; 93]) <= 1000) as [H1 H2] by (split; vm_compute; congruence).
  split; [exact H1|]. split; [exact H2|]. exact (stringmatchlen_correct false [97; 42; 91; 98; 93] 0 [] [97; 120; 98] [0] H1 H2).
Defined.

Lemma prefixmatch_sound_witness : Forall (fun c => c <> 91) [97; 58; 42] /\ stars (parse [97; 58; 42]) <= 1000 /\
  exists b, prefixmatch ([97; 58; 42] ++ 0 :: []) ([97; 58; 98] ++ []) false (Zlen [97; 58; 42]) (Zlen [97; 58; 98]) = Ret b /\
    (b = true -> forall ys ypost, stringmatchlen ([97; 58; 42] ++ 0 :: []) (([97; 58; 98] ++ ys) ++ ypost) false (Zlen [97; 58; 42]) (Zlen ([97; 58; 98] ++ ys)) = Ret true).
Proof.
  assert (Forall (fun c => c <> 91) [97; 58; 42] /\ stars (parse [97; 58; 42]) <= 1000) as [H1 H2] by (split; [repeat constructor; lia|vm_compute; congruence]).
  split; [exact H1|]. split; [exact H2|]. exact (proj1 prefixmatch_sound false [97; 58; 42] 0 [] [97; 58; 98] [] ltac:(lia) H2 H1).
Defined.
