(* ===== verification/Slot.v ===== *)
(** * Slot: the hash slot of a key

    [crc16] of crc16.c, [keyHashSlot] of cluster.h and [patternHashSlot] of
    cluster.c.  As in Glob.v a buffer is the list of the values of its [char]s,
    negative ones included. *)

From S2P Require Import Prelude Memory Gf2 Sds Glob GlobSpec.

(** ** crc16.c *)

Definition crc16tab : list Z :=
  [0; 4129; 8258; 12387; 16516; 20645; 24774; 28903; 33032; 37161; 41290; 45419; 49548; 53677; 57806; 61935;
   4657; 528; 12915; 8786; 21173; 17044; 29431; 25302; 37689; 33560; 45947; 41818; 54205; 50076; 62463; 58334;
   9314; 13379; 1056; 5121; 25830; 29895; 17572; 21637; 42346; 46411; 34088; 38153; 58862; 62927; 50604; 54669;
   13907; 9842; 5649; 1584; 30423; 26358; 22165; 18100; 46939; 42874; 38681; 34616; 63455; 59390; 55197; 51132;
   18628; 22757; 26758; 30887; 2112; 6241; 10242; 14371; 51660; 55789; 59790; 63919; 35144; 39273; 43274; 47403;
   23285; 19156; 31415; 27286; 6769; 2640; 14899; 10770; 56317; 52188; 64447; 60318; 39801; 35672; 47931; 43802;
   27814; 31879; 19684; 23749; 11298; 15363; 3168; 7233; 60846; 64911; 52716; 56781; 44330; 48395; 36200; 40265;
   32407; 28342; 24277; 20212; 15891; 11826; 7761; 3696; 65439; 61374; 57309; 53244; 48923; 44858; 40793; 36728;
   37256; 33193; 45514; 41451; 53516; 49453; 61774; 57711; 4224; 161; 12482; 8419; 20484; 16421; 28742; 24679;
   33721; 37784; 41979; 46042; 49981; 54044; 58239; 62302; 689; 4752; 8947; 13010; 16949; 21012; 25207; 29270;
   46570; 42443; 38312; 34185; 62830; 58703; 54572; 50445; 13538; 9411; 5280; 1153; 29798; 25671; 21540; 17413;
   42971; 47098; 34713; 38840; 59231; 63358; 50973; 55100; 9939; 14066; 1681; 5808; 26199; 30326; 17941; 22068;
   55628; 51565; 63758; 59695; 39368; 35305; 47498; 43435; 22596; 18533; 30726; 26663; 6336; 2273; 14466; 10403;
   52093; 56156; 60223; 64286; 35833; 39896; 43963; 48026; 19061; 23124; 27191; 31254; 2801; 6864; 10931; 14994;
   64814; 60687; 56684; 52557; 48554; 44427; 40424; 36297; 31782; 27655; 23652; 19525; 15522; 11395; 7392; 3265;
   61215; 65342; 53085; 57212; 44955; 49082; 36825; 40952; 28183; 32310; 20053; 24180; 11923; 16050; 3793; 7920].

(** [for (counter = 0; counter < len; counter++)] at [buf], [n] rounds left. *)
Fixpoint crc16_loop (n : nat) (mem : list Z) (buf crc : Z) : outcome Z :=
  match n with
  | O => Ret crc
  | S n =>
    c ← rd mem buf;
    t ← rd crc16tab (Z.land (Z.lxor (Z.shiftr crc 8) c) 255);
    crc16_loop n mem (buf + 1) (u16 (Z.lxor (Z.shiftl crc 8) t))
  end.
Definition crc16 (mem : list Z) (buf len : Z) : outcome Z := crc16_loop (Z.to_nat len) mem buf 0.

(** ** cluster.h and cluster.c *)

(** [for (; s < keylen; s++) if (key[s] == c) break]. *)
Fixpoint find_char (fuel : nat) (key : list Z) (c s keylen : Z) : outcome Z :=
  if s <? keylen then
    match fuel with
    | O => OutOfFuel
    | S fuel => x ← rd key s; if x =? c then Ret s else find_char fuel key c (s + 1) keylen
    end
  else Ret s.

Definition keyHashSlot (key : list Z) (keylen : Z) : outcome Z :=
  let whole := crc ← crc16 key 0 keylen; Ret (Z.land crc 16383) in
  s ← find_char (Z.to_nat keylen) key 123 0 keylen;
  if s =? keylen then whole else
  e ← find_char (Z.to_nat keylen) key 125 (s + 1) keylen;
  if (e =? keylen) || (e =? s + 1) then whole else
  crc ← crc16 key (s + 1) (e - s - 1);
  Ret (Z.land crc 16383).

(** The loop over [i], [n] rounds left. *)
Fixpoint pattern_loop (n : nat) (pattern : list Z) (length i s : Z) : outcome Z :=
  match n with
  | O => crc ← crc16 pattern 0 length; Ret (Z.land crc 16383)
  | S n =>
    c ← rd pattern i;
    if (c =? 42) || (c =? 63) || (c =? 91) then Ret (-1)
    else if c =? 92 then Ret (-1)
    else if (s =? -1) && (c =? 123) then pattern_loop n pattern length (i + 1) i
    else if (0 <=? s) && (c =? 125) && (i =? s + 1) then pattern_loop n pattern length (i + 1) (-2)
    else if (0 <=? s) && (c =? 125) then crc ← crc16 pattern (s + 1) (i - s - 1); Ret (Z.land crc 16383)
    else pattern_loop n pattern length (i + 1) s
  end.
Definition patternHashSlot (pattern : list Z) (length : Z) : outcome Z := pattern_loop (Z.to_nat length) pattern length 0 (-1).

(** The check value of crc16.c. *)
Example crc16_check : crc16 [49; 50; 51; 52; 53; 54; 55; 56; 57] 0 9 = Ret 12739.
Proof. reflexivity. Qed.
