(* ===== verification/SlotSpec.v ===== *)
(** * SlotSpec: keys with the same tag share a slot

    [crc16] is the bit-by-bit CRC, [keyHashSlot] takes it of the part of the key
    that counts, and [patternHashSlot] answers only when every key the pattern
    matches has that slot. *)

From stdpp Require Import sets.
From S2P Require Import Prelude Memory Gf2 Sds Glob GlobSpec Slot.

(** ** The CRC, bit by bit *)

(** The polynomial x^16 + x^12 + x^5 + 1, most significant bit first. *)
Definition crc16_bit (crc : Z) : Z :=
  let x := u16 (Z.shiftl crc 1) in if Z.testbit crc 15 then Z.lxor x 4129 else x.
Definition crc16_byte (crc b : Z) : Z := Nat.iter 8 crc16_bit (Z.lxor crc (Z.shiftl b 8)).
Definition crc16_ref (bs : list Z) : Z := fold_left crc16_byte bs 0.

Definition is_u16 (x : Z) : Prop := 0 <= x < 2 ^ 16.

Lemma u16_land x : u16 x = Z.land x (Z.ones 16).
Proof. by rewrite Z.land_ones. Qed.

Lemma linear_u16 : linear u16.
Proof. intros x y. rewrite !u16_land. apply linear_land. Qed.

Lemma linear_crc16_bit : linear crc16_bit.
Proof.
  intros x y. unfold crc16_bit. rewrite Z.shiftl_lxor, linear_u16, Z.lxor_spec. destruct (Z.testbit x 15), (Z.testbit y 15); cbn [xorb]; xor_bits.
Qed.

Definition crc16_row (i : Z) : Z := Nat.iter 8 crc16_bit (Z.shiftl i 8).

Lemma table_rows : forall i, is_byte i -> rd crc16tab i = Ret (crc16_row i).
Proof.
  intros i Hi. assert (match rd crc16tab i with Ret x => x =? crc16_row i | _ => false end = true) as H.
  { revert i Hi. apply byte_forallb. vm_compute. reflexivity. }
  destruct (rd crc16tab i); try done. f_equal. lia.
Qed.

Lemma low_shift : forall b, is_byte b -> Nat.iter 8 crc16_bit b = Z.shiftl b 8.
Proof. intros b Hb. apply Z.eqb_eq. revert b Hb. apply byte_forallb. vm_compute. reflexivity. Qed.

Lemma iter_u16 n x : is_u16 x -> is_u16 (Nat.iter n crc16_bit x).
Proof.
  intros Hx. induction n as [|n IH]; [done|]. rewrite Nat.iter_succ. revert IH. generalize (Nat.iter n crc16_bit x) as y. intros y _. unfold crc16_bit, is_u16.
  assert (forall z, is_u16 z -> is_u16 (Z.lxor z 4129)) as Hl.
  { intros z Hz. replace (Z.lxor z 4129) with (u16 (Z.lxor z 4129)); [apply wrapu_range; lia|]. rewrite linear_u16. unfold is_u16 in Hz. by rewrite wrapu_id. }
  destruct (Z.testbit y 15); [apply Hl|]; apply (wrapu_range 16); lia.
Qed.

(** One step of the table-driven loop. *)
Lemma crc16_step crc c : is_u16 crc -> u16 (Z.lxor (Z.shiftl crc 8) (crc16_row (Z.land (Z.lxor (Z.shiftr crc 8) c) 255))) = crc16_byte crc (u8 c).
Proof.
  intros Hc. unfold crc16_byte. assert (is_byte (u8 c)) as Hb by (apply (wrapu_range 8); lia).
  set (lo := Z.land crc 255). set (hi := Z.shiftr crc 8).
  assert (crc = Z.lxor lo (Z.shiftl hi 8)) as Es by (apply (split_low 8); lia).
  assert (is_byte lo) as Hlo by (unfold lo; rewrite land_255; apply Z.mod_pos_bound; lia).
  assert (is_byte hi) as Hhi by (unfold hi; rewrite shiftr_div by lia; unfold is_u16, is_byte in *; split; [apply Z.div_pos; lia|apply Z.div_lt_upper_bound; lia]).
  assert (Z.land (Z.lxor hi c) 255 = Z.lxor hi (u8 c)) as ->.
  { rewrite (linear_land 255 hi c), !land_255. unfold wrapu. change (2 ^ 8) with 256. f_equal. apply Z.mod_small. done. }
  rewrite Es at 2. rewrite Z.lxor_assoc, <- Z.shiftl_lxor. rewrite (linear_iter 8 _ linear_crc16_bit), low_shift by done. unfold crc16_row.
  rewrite linear_u16. f_equal.
  - rewrite Es, Z.shiftl_lxor, linear_u16. rewrite Z.shiftl_shiftl by lia. change (8 + 8) with 16.
    assert (u16 (Z.shiftl hi 16) = 0) as -> by (unfold wrapu; rewrite Z.shiftl_mul_pow2 by lia; apply Z.mod_mul; lia).
    rewrite Z.lxor_0_r. apply wrapu_id. rewrite Z.shiftl_mul_pow2 by lia. unfold is_byte in Hlo. lia.
  - apply wrapu_id. apply iter_u16. assert (is_byte (Z.lxor hi (u8 c))) as Hx.
    { replace (Z.lxor hi (u8 c)) with (Z.land (Z.lxor hi (u8 c)) 255); [rewrite land_255; apply Z.mod_pos_bound; lia|].
      rewrite (linear_land 255 hi (u8 c)), !land_255, !Z.mod_small by done. done. }
    unfold is_byte, is_u16 in *. rewrite Z.shiftl_mul_pow2 by lia. lia.
Qed.

Lemma crc16_byte_u16 crc b : is_u16 crc -> is_byte b -> is_u16 (crc16_byte crc b).
Proof.
  intros Hc Hb. unfold crc16_byte. apply iter_u16. unfold is_u16, is_byte in *.
  replace (Z.lxor crc (Z.shiftl b 8)) with (u16 (Z.lxor crc (Z.shiftl b 8))); [apply wrapu_range; lia|].
  rewrite linear_u16, Z.shiftl_mul_pow2, !wrapu_id by lia. done.
Qed.

Lemma crc16_loop_spec cs : forall mem buf crc, is_u16 crc -> reads mem buf cs ->
  crc16_loop (length cs) mem buf crc = Ret (fold_left crc16_byte (map u8 cs) crc).
Proof.
  induction cs as [|c cs IH]; intros mem buf crc Hc Hr; [done|]. apply reads_cons in Hr as [Er Hr]. cbn [length crc16_loop map fold_left].
  assert (is_byte (Z.land (Z.lxor (Z.shiftr crc 8) c) 255)) as Hi by (rewrite land_255; apply Z.mod_pos_bound; lia).
  rewrite Er, ret_bind, (table_rows _ Hi), ret_bind, crc16_step by done. apply IH; [|done]. apply crc16_byte_u16; [done|]. apply (wrapu_range 8). lia.
Qed.

(** The slot of a sequence of characters. *)
Definition slot_of (cs : list Z) : Z := crc16_ref (map u8 cs) mod 16384.

Lemma crc16_spec mem buf cs : reads mem buf cs -> crc16 mem buf (Zlen cs) = Ret (crc16_ref (map u8 cs)).
Proof. intros Hr. unfold crc16, Zlen. rewrite Nat2Z.id. apply crc16_loop_spec; [by unfold is_u16|done]. Qed.

Lemma land_slot x : Z.land x 16383 = x mod 16384.
Proof. exact (Z.land_ones x 14 ltac:(lia)). Qed.

Lemma crc16_slot mem buf cs n : reads mem buf cs -> n = Zlen cs -> (crc ← crc16 mem buf n; Ret (Z.land crc 16383)) = Ret (slot_of cs).
Proof. intros Hr ->. by rewrite crc16_spec, ret_bind, land_slot by done. Qed.

(** ** The part of a key that counts *)

(** [l] around the first [c]. *)
Fixpoint cut (c : Z) (l : list Z) : option (list Z * list Z) :=
  match l with
  | [] => None
  | x :: l => if x =? c then Some ([], l) else '(a, r) ← cut c l; Some (x :: a, r)
  end.

(** What is between the first opening brace and the first closing one after it,
    or the whole key when there is no such part or it is empty. *)
Definition hash_part (key : list Z) : list Z :=
  match cut 123 key with
  | Some (_, r) => match cut 125 r with Some (x :: tag, _) => x :: tag | _ => key end
  | None => key
  end.

Lemma cut_app c a r : c ∉ a -> cut c (a ++ c :: r) = Some (a, r).
Proof.
  induction a as [|x a IH]; cbn [app cut]; [by rewrite Z.eqb_refl|]. intros [Hx Ha]%not_elem_of_cons. rewrite (proj2 (Z.eqb_neq x c)) by done. by rewrite IH.
Qed.

Lemma cut_None c l : cut c l = None <-> c ∉ l.
Proof.
  induction l as [|x l IH]; cbn [cut]; [split; [intros _; apply not_elem_of_nil|done]|]. rewrite not_elem_of_cons, <- IH.
  destruct (Z.eqb_spec x c) as [->|Hx]; [split; [done|tauto]|]. destruct (cut c l) as [[a r]|]; cbn; [split; [done|by intros [_ ?]]|]. split; [|done]. intros _. split; [by intros ->|done].
Qed.

Lemma cut_Some c l : forall a r, cut c l = Some (a, r) -> l = a ++ c :: r /\ c ∉ a.
Proof.
  induction l as [|x l IH]; intros a r; cbn [cut]; [done|]. destruct (Z.eqb_spec x c) as [->|Hx].
  - intros [= <- <-]. split; [done|apply not_elem_of_nil].
  - destruct (cut c l) as [[a' r']|] eqn:E; [|done]. intros [= <- <-]. destruct (IH a' r' eq_refl) as [-> Ha]. split; [done|]. by apply not_elem_of_cons.
Qed.

Lemma reads_prefix l p xs ys : reads l p (xs ++ ys) -> reads l p xs.
Proof. intros [Hp [post E]]. split; [done|]. exists (ys ++ post). by rewrite E, <- app_assoc. Qed.

Lemma find_char_spec c l : forall fuel mem s, (length l <= fuel)%nat -> reads mem s l ->
  find_char fuel mem c s (s + Zlen l) = Ret (match cut c l with Some (a, _) => s + Zlen a | None => s + Zlen l end).
Proof.
  induction l as [|x l IH]; intros fuel mem s Hf Hr; cbn [length] in Hf.
  - destruct fuel; cbn [find_char cut]; change (Zlen []) with 0; rewrite (proj2 (Z.ltb_ge _ _)) by lia; f_equal; lia.
  - destruct fuel as [|fuel]; [lia|]. apply reads_cons in Hr as [Ex Hr]. pose proof (Zlen_nonneg l). cbn [find_char cut]. rewrite Zlen_cons.
    rewrite (proj2 (Z.ltb_lt _ _)), Ex, ret_bind by lia. destruct (x =? c); [f_equal; rewrite Zlen_nil; lia|].
    replace (s + (1 + Zlen l)) with (s + 1 + Zlen l) by lia. rewrite IH by (done || lia). destruct (cut c l) as [[a r]|]; cbn; f_equal. rewrite Zlen_cons. lia.
Qed.

Lemma keyHashSlot_spec key post : keyHashSlot (key ++ post) (Zlen key) = Ret (slot_of (hash_part key)).
Proof.
  pose proof (buffer_reads key post) as Hr. unfold keyHashSlot, hash_part.
  pose proof (find_char_spec 123 key (Z.to_nat (Zlen key)) _ 0 ltac:(unfold Zlen; lia) Hr) as E. rewrite Z.add_0_l in E. rewrite E, ret_bind. clear E.
  destruct (cut 123 key) as [[a r]|] eqn:Ea; [|rewrite Z.eqb_refl; by apply (crc16_slot _ _ key)].
  apply cut_Some in Ea as [-> Ha]. pose proof (Zlen_nonneg a). pose proof (Zlen_nonneg r). rewrite Zlen_app, Zlen_cons, Z.add_0_l.
  rewrite (proj2 (Z.eqb_neq _ _)) by lia.
  assert (reads ((a ++ 123 :: r) ++ post) (Zlen a + 1) r) as Hr'.
  { replace (Zlen a + 1) with (0 + Zlen (a ++ [123])) by (rewrite Zlen_app; change (Zlen [123]) with 1; lia). apply reads_app. rewrite <- (app_assoc a [123] r). exact Hr. }
  assert (forall n, n = Zlen a + (1 + Zlen r) -> (crc ← crc16 ((a ++ 123 :: r) ++ post) 0 n; Ret (Z.land crc 16383)) = Ret (slot_of (a ++ 123 :: r))) as Hwhole.
  { intros n ->. apply crc16_slot; [done|]. by rewrite Zlen_app, Zlen_cons. }
  pose proof (find_char_spec 125 r (Z.to_nat (Zlen a + (1 + Zlen r))) _ _ ltac:(unfold Zlen; lia) Hr') as E.
  replace (Zlen a + 1 + Zlen r) with (Zlen a + (1 + Zlen r)) in E at 1 by lia. rewrite E, ret_bind. clear E.
  destruct (cut 125 r) as [[t q]|] eqn:Et.
  - apply cut_Some in Et as [-> Ht]. pose proof (Zlen_nonneg t). pose proof (Zlen_nonneg q). rewrite Zlen_app, Zlen_cons in *.
    rewrite (proj2 (Z.eqb_neq _ (Zlen a + _))) by lia. destruct t as [|x t].
    + rewrite Zlen_nil, Z.add_0_r, Z.eqb_refl. by apply Hwhole.
    + pose proof (Zlen_nonneg t). rewrite Zlen_cons in *. rewrite (proj2 (Z.eqb_neq _ (Zlen a + 1))) by lia. cbn [orb].
      apply crc16_slot; [|rewrite Zlen_cons; lia]. by apply reads_prefix in Hr'.
  - rewrite Z.add_assoc, Z.eqb_refl. cbn [orb]. apply Hwhole. lia.
Qed.

Lemma slot_range cs : 0 <= slot_of cs < 16384.
Proof. apply Z.mod_pos_bound. lia. Qed.

Lemma hash_part_tag pre tag rest : 123 ∉ pre -> 125 ∉ tag -> tag <> [] -> hash_part (pre ++ 123 :: tag ++ 125 :: rest) = tag.
Proof. intros Hp Ht Hne. unfold hash_part. rewrite cut_app, cut_app by done. by destruct tag. Qed.

(** ** Patterns *)

Definition plain (c : Z) : Prop := c <> 42 /\ c <> 63 /\ c <> 91 /\ c <> 92.

Lemma glob_literal lit rest : Forall plain lit -> forall xs, glob false (parse (lit ++ rest)) xs -> exists ys, xs = lit ++ ys /\ glob false (parse rest) ys.
Proof.
  induction 1 as [|c lit Hc _ IH]; intros xs Hg; [by exists xs|]. cbn [app] in Hg. rewrite parse_cons in Hg. unfold plain in Hc.
  rewrite (proj2 (Z.eqb_neq c 42)), (proj2 (Z.eqb_neq c 63)), (proj2 (Z.eqb_neq c 91)), (proj2 (Z.eqb_neq c 92)) in Hg by tauto.
  assert (glob false (TLit c :: parse (lit ++ rest)) xs) as Hg' by (by destruct (lit ++ rest)). clear Hg.
  destruct xs as [|x xs]; [by apply glob_one_nil in Hg'|]. apply glob_one_inv in Hg' as [Ha Hg]; [|done]. destruct (IH xs Hg) as (ys & -> & Hy).
  exists ys. split; [|done]. cbn [accepts] in Ha. unfold same_char in Ha. cbn [negb] in Ha. cbn [app]. f_equal. lia.
Qed.

(** What [s] says of the characters before [i]. *)
Definition brace_state (pre : list Z) (s : Z) : Prop :=
  (s = -1 /\ (123 ∉ pre)) \/
  (exists a tag, pre = a ++ 123 :: tag /\ (123 ∉ a) /\ (125 ∉ tag) /\ s = Zlen a) \/
  (exists a q, pre = a ++ 123 :: 125 :: q /\ (123 ∉ a) /\ s = -2).

(** The slot [r] is the one of every key the pattern matches. *)
Definition pins (ps : list Z) (r : Z) : Prop :=
  exists lit rest, ps = lit ++ rest /\ Forall plain lit /\
    ((rest = [] /\ r = slot_of lit /\ hash_part lit = lit) \/ (forall ys, r = slot_of (hash_part (lit ++ ys)))).

Lemma brace_state_whole pre s : brace_state pre s -> hash_part pre = pre.
Proof.
  intros [[_ H]|[(a & tag & -> & Ha & Ht & _)|(a & q & -> & Ha & _)]]; unfold hash_part.
  - by rewrite (proj2 (cut_None _ _) H).
  - by rewrite cut_app, (proj2 (cut_None _ _) Ht).
  - by rewrite cut_app.
Qed.

Lemma pattern_loop_spec todo : forall pre post s, Forall plain pre -> brace_state pre s ->
  exists r, pattern_loop (length todo) ((pre ++ todo) ++ post) (Zlen (pre ++ todo)) (Zlen pre) s = Ret r /\ -1 <= r < 16384 /\ (0 <= r -> pins (pre ++ todo) r).
Proof.
  induction todo as [|c todo IH]; intros pre post s Hp Hs.
  - rewrite app_nil_r. cbn [length pattern_loop]. rewrite (crc16_slot _ 0 pre) by (done || apply buffer_reads).
    exists (slot_of pre). split; [done|]. pose proof (slot_range pre). split; [lia|]. intros _. exists pre, []. rewrite app_nil_r. split; [done|]. split; [done|].
    left. by rewrite (brace_state_whole pre s).
  - cbn [length pattern_loop]. assert (rd ((pre ++ c :: todo) ++ post) (Zlen pre) = Ret c) as -> by (rewrite <- (Z.add_0_r (Zlen pre)), <- app_assoc; by rewrite rd_app_off).
    rewrite <- (app_assoc pre _ post), ret_bind. cbn [app].
    assert (forall r, -1 <= r < 16384 -> r < 0 -> exists r', Ret r = Ret r' /\ -1 <= r' < 16384 /\ (0 <= r' -> pins (pre ++ c :: todo) r')) as Hno.
    { intros r H1 H2. exists r. split; [done|]. split; [done|lia]. }
    destruct ((c =? 42) || (c =? 63) || (c =? 91)) eqn:Esp; [by apply Hno|]. destruct (c =? 92) eqn:Ebs; [by apply Hno|].
    assert (plain c) as Hc by (unfold plain; lia).
    assert (forall s', brace_state (pre ++ [c]) s' -> exists r,
      pattern_loop (length todo) (pre ++ c :: todo ++ post) (Zlen (pre ++ c :: todo)) (Zlen pre + 1) s' = Ret r /\ -1 <= r < 16384 /\ (0 <= r -> pins (pre ++ c :: todo) r)) as Hnext.
    { intros s' Hs'. destruct (IH (pre ++ [c]) post s') as (r & E & Hr); [by apply list.Forall_app_2; [|apply list.Forall_singleton]|done|].
      replace (pre ++ c :: todo ++ post) with (((pre ++ [c]) ++ todo) ++ post) by (by rewrite <- !app_assoc).
      replace (pre ++ c :: todo) with ((pre ++ [c]) ++ todo) by (by rewrite <- app_assoc).
      replace (Zlen pre + 1) with (Zlen (pre ++ [c])) by (rewrite Zlen_app; done). by exists r. }
    pose proof (Zlen_nonneg pre). destruct Hs as [[-> Hno1]|[(a & tag & -> & Ha & Ht & ->)|(a & q & -> & Ha & ->)]].
    + change (-1 =? -1) with true. change (0 <=? -1) with false. cbn [andb]. destruct (Z.eqb_spec c 123) as [->|Hne]; apply Hnext.
      * right. left. exists pre, []. set_solver.
      * left. set_solver.
    + pose proof (Zlen_nonneg a). rewrite (proj2 (Z.eqb_neq (Zlen a) (-1))), (proj2 (Z.leb_le 0 (Zlen a))) by lia. cbn [andb]. pose proof (Zlen_nonneg tag).
      destruct (Z.eqb_spec c 125) as [->|Hne]; cbn [andb].
      * destruct (Z.eqb_spec (Zlen (a ++ 123 :: tag)) (Zlen a + 1)) as [El|El]; rewrite Zlen_app, Zlen_cons in El.
        -- destruct tag as [|x tag]; [|pose proof (Zlen_nonneg tag); rewrite Zlen_cons in El; lia].
           apply Hnext. right. right. exists a, []. by rewrite <- app_assoc.
        -- destruct tag as [|x tag]; [rewrite Zlen_nil in El; lia|].
           exists (slot_of (x :: tag)). split; [|pose proof (slot_range (x :: tag)); split; [lia|]].
           { apply crc16_slot; [|rewrite Zlen_app, !Zlen_cons; lia]. replace (Zlen a + 1) with (0 + Zlen (a ++ [123])) by (rewrite Zlen_app; change (Zlen [123]) with 1; lia).
             apply reads_app. split; [done|]. eexists. cbn [Z.to_nat drop]. rewrite <- !app_assoc. reflexivity. }
           intros _. exists ((a ++ 123 :: x :: tag) ++ [125]), todo. split; [by rewrite <- !app_assoc|]. split; [apply list.Forall_app_2; [exact Hp|by apply list.Forall_singleton]|].
           right. intros ys. f_equal. symmetry. rewrite <- !app_assoc. by apply (hash_part_tag a (x :: tag) ys).
      * apply Hnext. right. left. exists a, (tag ++ [c]). rewrite <- app_assoc. set_solver.
    + change (-2 =? -1) with false. change (0 <=? -2) with false. cbn [andb]. apply Hnext. right. right. exists a, (q ++ [c]). by rewrite <- app_assoc.
Qed.

Lemma pins_sound ps r xs : pins ps r -> matches false ps xs -> r = slot_of (hash_part xs).
Proof.
  intros (lit & rest & -> & Hl & H) Hm. destruct Hm as [[-> E]|[Hx Hg]].
  - apply app_eq_nil in E as [-> ->]. destruct H as [(_ & -> & _)|H]; [done|by apply (H [])].
  - apply glob_literal in Hg as (ys & -> & Hg); [|done]. destruct H as [(-> & -> & E)|H]; [|by apply H]. apply glob_nil_nil in Hg as ->. by rewrite app_nil_r, E.
Qed.

(** ** Properties *)

(** C33. The slot of a key is below 16384 and depends on its tag alone: [keyHashSlot]
    returns on every key, reads only the key, and gives the bit-by-bit CRC16, modulo
    16384, of what is between the first opening brace and the next closing one, or of
    the whole key when there is no such part or it is empty. So keys with the same
    tag share a slot, whatever is around it. *)
Theorem keyHashSlot_correct key post :
  keyHashSlot (key ++ post) (Zlen key) = Ret (crc16_ref (map u8 (hash_part key)) mod 16384) /\
  (forall pre tag rest, 123 ∉ pre -> 125 ∉ tag -> tag <> [] -> key = pre ++ 123 :: tag ++ 125 :: rest ->
    keyHashSlot (key ++ post) (Zlen key) = Ret (crc16_ref (map u8 tag) mod 16384)) /\
  (123 ∉ key -> keyHashSlot (key ++ post) (Zlen key) = Ret (crc16_ref (map u8 key) mod 16384)).
Proof.
  rewrite !keyHashSlot_spec. unfold slot_of. split; [done|]. split.
  - intros pre tag rest Hp Ht Hne ->. by rewrite hash_part_tag.
  - intros Hk. unfold hash_part. by rewrite (proj2 (cut_None _ _) Hk).
Qed.

(** C18. A pattern for which [patternHashSlot] gives a slot matches only keys of that
    slot: whatever the pattern, the answer is a slot or -1, no read leaves the
    pattern, and every key that [stringmatchlen] accepts has the slot that was
    answered, as [keyHashSlot] computes it. *)
Theorem patternHashSlot_sound ps t post : t <> 42 -> stars (parse ps) <= 1000 ->
  exists r, patternHashSlot (ps ++ t :: post) (Zlen ps) = Ret r /\ -1 <= r < 16384 /\
    (0 <= r -> forall key kpost, stringmatchlen (ps ++ t :: post) (key ++ kpost) false (Zlen ps) (Zlen key) = Ret true ->
      keyHashSlot (key ++ kpost) (Zlen key) = Ret r).
Proof.
  intros Ht Hn. destruct (pattern_loop_spec ps [] (t :: post) (-1)) as (r & E & Hr & Hpin); [constructor|left; split; [done|apply not_elem_of_nil]|].
  exists r. unfold patternHashSlot. unfold Zlen at 1. rewrite Nat2Z.id. split; [exact E|]. split; [done|]. intros H0 key kpost Hm.
  destruct (stringmatchlen_spec false ps t post key kpost Ht Hn) as (b & Eb & Hb). rewrite Hm in Eb. injection Eb as <-.
  rewrite keyHashSlot_spec. f_equal. symmetry. apply (pins_sound ps); [by apply Hpin|by apply Hb].
Qed.

(** ** Witnesses *)

Lemma keyHashSlot_witness : keyHashSlot ([97; 123; 98; 125; 99] ++ [0]) 5 = Ret (crc16_ref (map u8 [98]) mod 16384).
Proof.
  apply (proj1 (proj2 (keyHashSlot_correct [97; 123; 98; 125; 99] [0])) [97] [98] [99]); try done; rewrite not_elem_of_cons; (split; [done|apply not_elem_of_nil]).
Defined.

Lemma patternHashSlot_witness : stars (parse [123; 98; 125; 42]) <= 1000 /\
  exists r, patternHashSlot ([123; 98; 125; 42] ++ 0 :: []) (Zlen [123; 98; 125; 42]) = Ret r /\ -1 <= r < 16384 /\
    (0 <= r -> forall key kpost, stringmatchlen ([123; 98; 125; 42] ++ 0 :: []) (key ++ kpost) false (Zlen [123; 98; 125; 42]) (Zlen key) = Ret true ->
      keyHashSlot (key ++ kpost) (Zlen key) = Ret r).
Proof.
  assert (stars (parse [123; 98; 125; 42]) <= 1000) as H by (vm_compute; congruence).
  split; [exact H|]. exact (patternHashSlot_sound [123; 98; 125; 42] 0 [] ltac:(lia) H).
Defined.
