(* ===== verification/SlotRange.v ===== *)
(** * SlotRange: arrays of ranges of hash slots

    The slot range arrays of cluster.c: normalisation and validation, their text
    form, comparison, growth and iteration. *)

From stdpp Require Import sorting.
From S2P Require Import Prelude Memory NumStr Sds SdsText.

Definition CLUSTER_SLOTS : Z := 16384.

(** Both fields are [unsigned short]. *)
Record slotRange := { start : Z; end_ : Z }.

(** [ranges] are the cells of the block, [num_ranges] of them in use, and [block]
    is what [zmalloc_size] says of it. *)
Record slotRangeArray := { num_ranges : Z; ranges : list slotRange; block : Z }.

(** The condition of [compareSlotRange]. *)
Definition compareSlotRange (sa sb : slotRange) : Z :=
  if start sa <? start sb then -1 else if start sb <? start sa then 1 else 0.

Definition set_end (r : slotRange) (e : Z) : slotRange := {| start := start r; end_ := e |}.
Definition set_num (a : slotRangeArray) (n : Z) : slotRangeArray := {| num_ranges := n; ranges := ranges a; block := block a |}.
Definition set_ranges (a : slotRangeArray) (rs : list slotRange) : slotRangeArray := {| num_ranges := num_ranges a; ranges := rs; block := block a |}.

(** [sizeof(slotRangeArray)] and [sizeof(slotRange)] are both four bytes. *)
Definition array_size (n : Z) : Z := 4 + 4 * n.
Definition cells (size : Z) : Z := (size - 4) / 4.

(** The messages of the errors. *)
Inductive slot_error :=
| BadCount (n : Z)
| OutOfRange (s e : Z)
| Inverted (s e : Z)
| Repeated (j : Z).

(** What the allocator makes of a request, what cells it never wrote hold, and the
    library's sort. *)
Class SlotEnv : Type := {
  usable : Z -> Z;
  usable_ge : forall n, n <= usable n;
  junk : slotRange;
  qsort : list slotRange -> (slotRange -> slotRange -> Z) -> list slotRange;
  qsort_perm : forall l cmp, qsort l cmp ≡ₚ l;
  qsort_sorted : forall l cmp, (forall x y, cmp x y <= 0 \/ cmp y x <= 0) -> (forall x y z, cmp x y <= 0 -> cmp y z <= 0 -> cmp x z <= 0) ->
    Sorted (fun x y => cmp x y <= 0) (qsort l cmp);
}.

Section ops.
Context `{SlotEnv}.

Definition slotRangeArrayCreate (n : Z) : slotRangeArray :=
  let size := array_size n in
  {| num_ranges := n;
     ranges := resize (Z.to_nat (cells (usable size))) junk (replicate (Z.to_nat n) {| start := 0; end_ := 0 |});
     block := usable size |}.

Definition slotRangeArrayDup (slots : slotRangeArray) : outcome slotRangeArray :=
  let dup := slotRangeArrayCreate (num_ranges slots) in
  rs ← rdn (ranges slots) 0 (num_ranges slots);
  rs ← wrn (ranges dup) 0 rs;
  Ret (set_ranges dup rs).

Definition slotRangeArraySet (slots : slotRangeArray) (idx start end_ : Z) : outcome slotRangeArray :=
  rs ← wr (ranges slots) idx {| start := u16 (s32 start); end_ := u16 (s32 end_) |};
  Ret (set_ranges slots rs).

(** The loop of [slotRangeArraySortAndMerge] from [i], [n] rounds left: the ranges and [idx]. *)
Fixpoint merge_loop (n : nat) (rs : list slotRange) (i idx : Z) : outcome (list slotRange * Z) :=
  match n with
  | O => Ret (rs, idx)
  | S n =>
    a ← rd rs idx; b ← rd rs i;
    if end_ a + 1 =? start b then rs ← wr rs idx (set_end a (end_ b)); merge_loop n rs (i + 1) idx
    else rs ← wr rs (idx + 1) b; merge_loop n rs (i + 1) (idx + 1)
  end.

Definition slotRangeArraySortAndMerge (slots : slotRangeArray) : outcome slotRangeArray :=
  if num_ranges slots <=? 1 then Ret slots else
  part ← rdn (ranges slots) 0 (num_ranges slots);
  rs ← wrn (ranges slots) 0 (qsort part compareSlotRange);
  '(rs, idx) ← merge_loop (Z.to_nat (num_ranges slots - 1)) rs 1 0;
  Ret (set_num (set_ranges slots rs) (idx + 1)).

(** [for (int j = start; j <= end; j++)] over [used_slots], [n] rounds left. *)
Fixpoint mark_loop (n : nat) (used : list Z) (j : Z) : outcome (list Z + slot_error) :=
  match n with
  | O => Ret (inl used)
  | S n =>
    u ← rd used j;
    if negb (u =? 0) then Ret (inr (Repeated j))
    else used ← wr used j (u8 (u + 1)); mark_loop n used (j + 1)
  end.

(** [for (int i = 0; i < num_ranges; i++)]: [None] for [C_OK]. *)
Fixpoint validate_loop (n : nat) (rs : list slotRange) (used : list Z) (i : Z) : outcome (option slot_error) :=
  match n with
  | O => Ret None
  | S n =>
    r ← rd rs i;
    if (CLUSTER_SLOTS <=? start r) || (CLUSTER_SLOTS <=? end_ r) then Ret (Some (OutOfRange (start r) (end_ r)))
    else if end_ r <? start r then Ret (Some (Inverted (start r) (end_ r)))
    else
      m ← mark_loop (Z.to_nat (end_ r - start r + 1)) used (start r);
      match m with inl used => validate_loop n rs used (i + 1) | inr e => Ret (Some e) end
  end.

(** The array as it is left, and the error when there is one. *)
Definition slotRangeArrayNormalizeAndValidate (slots : slotRangeArray) : outcome (slotRangeArray * option slot_error) :=
  let used_slots := replicate (Z.to_nat CLUSTER_SLOTS) 0 in
  if (num_ranges slots <=? 0) || (CLUSTER_SLOTS <=? num_ranges slots) then Ret (slots, Some (BadCount (num_ranges slots))) else
  slots ← slotRangeArraySortAndMerge slots;
  err ← validate_loop (Z.to_nat (num_ranges slots)) (ranges slots) used_slots 0;
  Ret (slots, err).

(** The loop of [slotRangeArrayIsEqual], [n] rounds left. *)
Fixpoint equal_loop (n : nat) (rs1 rs2 : list slotRange) (i : Z) : outcome bool :=
  match n with
  | O => Ret true
  | S n =>
    a ← rd rs1 i; b ← rd rs2 i;
    if negb (start a =? start b) || negb (end_ a =? end_ b) then Ret false else equal_loop n rs1 rs2 (i + 1)
  end.

(** The answer and the two arrays, sorted and merged. *)
Definition slotRangeArrayIsEqual (slots1 slots2 : slotRangeArray) : outcome (bool * slotRangeArray * slotRangeArray) :=
  slots1 ← slotRangeArraySortAndMerge slots1;
  slots2 ← slotRangeArraySortAndMerge slots2;
  if negb (num_ranges slots1 =? num_ranges slots2) then Ret (false, slots1, slots2) else
  b ← equal_loop (Z.to_nat (num_ranges slots1)) (ranges slots1) (ranges slots2) 0;
  Ret (b, slots1, slots2).

(** [None] is a NULL array. *)
Definition slotRangeArrayAppend (slots : option slotRangeArray) (slot : Z) : outcome slotRangeArray :=
  let single := {| start := u16 slot; end_ := u16 slot |} in
  match slots with
  | None =>
    let slots := slotRangeArrayCreate 4 in
    rs ← wr (ranges slots) 0 single;
    Ret (set_num (set_ranges slots rs) 1)
  | Some slots =>
    _ ← c_assert ((0 <=? num_ranges slots) && (num_ranges slots <=? CLUSTER_SLOTS));
    last ← rd (ranges slots) (num_ranges slots - 1);
    _ ← c_assert (end_ last <? slot);
    if slot =? end_ last + 1 then
      rs ← wr (ranges slots) (num_ranges slots - 1) (set_end last (u16 slot));
      Ret (set_ranges slots rs)
    else
      let cap := cells (block slots) in
      let slots := if cap <=? num_ranges slots then
          let size := array_size (cap * 2) in
          {| num_ranges := num_ranges slots;
             ranges := resize (Z.to_nat (cells (usable size))) junk (ranges slots);
             block := usable size |}
        else slots in
      rs ← wr (ranges slots) (num_ranges slots) single;
      Ret (set_num (set_ranges slots rs) (num_ranges slots + 1))
  end.

(** The loop of [slotRangeArrayContains] from [i], [n] rounds left. *)
Fixpoint contains_loop (n : nat) (rs : list slotRange) (slot i : Z) : outcome bool :=
  match n with
  | O => Ret false
  | S n => r ← rd rs i; if (start r <=? slot) && (slot <=? end_ r) then Ret true else contains_loop n rs slot (i + 1)
  end.
Definition slotRangeArrayContains (slots : slotRangeArray) (slot : Z) : outcome bool :=
  contains_loop (Z.to_nat (num_ranges slots)) (ranges slots) slot 0.

(** ** Iteration *)

(** [it->slots] is an argument of the operations. *)
Record slotRangeArrayIter := { range_index : Z; cur_slot : Z }.

Definition slotRangeArrayGetIterator (slots : slotRangeArray) : outcome slotRangeArrayIter :=
  cur ← (if 0 <? num_ranges slots then r ← rd (ranges slots) 0; Ret (start r) else Ret (-1));
  Ret {| range_index := 0; cur_slot := cur |}.

Definition slotRangeArrayNext (slots : slotRangeArray) (it : slotRangeArrayIter) : outcome (slotRangeArrayIter * Z) :=
  if num_ranges slots <=? range_index it then Ret (it, -1) else
  r ← rd (ranges slots) (range_index it);
  it ← (if cur_slot it <? end_ r then Ret {| range_index := range_index it; cur_slot := cur_slot it + 1 |}
        else
          let i := range_index it + 1 in
          cur ← (if i <? num_ranges slots then r ← rd (ranges slots) i; Ret (start r) else Ret (-1));
          Ret {| range_index := i; cur_slot := cur |});
  Ret (it, cur_slot it).

Definition slotRangeArrayGetCurrentSlot (it : slotRangeArrayIter) : Z := cur_slot it.

(** ** Ranges of a node *)

(** A node as far as the slot ranges read it: the bitmap of its slots and the
    master it replicates, as far as this node knows it. *)
Inductive clusterNode := ClusterNode (slots : list Z) (slaveof : option clusterNode).
Definition node_slots (n : clusterNode) : list Z := match n with ClusterNode slots _ => slots end.

Fixpoint clusterNodeGetMaster (node : clusterNode) : clusterNode :=
  match node with
  | ClusterNode _ (Some master) => clusterNodeGetMaster master
  | ClusterNode _ None => node
  end.

Definition bitmapTestBit (bitmap : list Z) (pos : Z) : outcome bool :=
  let byte := pos ÷ 8 in
  let bit := Z.land pos 7 in
  b ← rd bitmap byte; Ret (negb (Z.land b (Z.shiftl 1 bit) =? 0)).

Definition clusterNodeCoversSlot (n : clusterNode) (slot : Z) : outcome bool := bitmapTestBit (node_slots n) slot.

(** The loop of [clusterGetNodeSlotRanges] from [i], [n] rounds left. *)
Fixpoint node_loop (n : nat) (master : clusterNode) (slots : option slotRangeArray) (i : Z) : outcome (option slotRangeArray) :=
  match n with
  | O => Ret slots
  | S n =>
    covers ← clusterNodeCoversSlot master i;
    slots ← (if covers : bool then a ← slotRangeArrayAppend slots i; Ret (Some a) else Ret slots);
    node_loop n master slots (i + 1)
  end.

(** [None] for a NULL node. *)
Definition clusterGetNodeSlotRanges (cluster_enabled : bool) (node : option clusterNode) : outcome slotRangeArray :=
  match node with
  | Some node =>
    _ ← c_assert cluster_enabled;
    slots ← node_loop (Z.to_nat CLUSTER_SLOTS) (clusterNodeGetMaster node) None 0;
    match slots with Some a => Ret a | None => Ret (slotRangeArrayCreate 0) end
  | None => AssertFail
  end.

(** ** Text *)

Section text.
Context `{Allocator}.

(** The loop over the ranges, [n] rounds left. *)
Fixpoint print_loop (n : nat) (rs : list slotRange) (s : sds) (i : Z) : outcome sds :=
  match n with
  | O => Ret s
  | S n => r ← rd rs i; t ← sdscatprintf s [37; 100; 45; 37; 100; 32] (dec (start r) ++ 45 :: dec (end_ r) ++ [32]); s ← deref t; print_loop n rs s (i + 1)
  end.

Definition slotRangeArrayToString (slots : option slotRangeArray) : outcome sds :=
  s ← sdsempty;
  match slots with
  | None => Ret s
  | Some slots =>
    if num_ranges slots =? 0 then Ret s else
    s ← print_loop (Z.to_nat (num_ranges slots)) (ranges slots) s 0;
    len ← sdslen s; s ← sdssetlen s (len - 1);
    len ← sdslen s; s_put s len 0
  end.

(** [strchr(p, '-')]: the offset of the first dash before the terminator. *)
Fixpoint find_dash (p : list Z) : option nat :=
  match p with
  | [] => None
  | c :: p => if c =? 45 then Some O else if c =? 0 then None else S <$> find_dash p
  end.

(** One token: the two numbers, or [None] for [goto err]. *)
Definition parse_range (part : list Z) : option (Z * Z) :=
  dash ← find_dash part;
  start ← string2ll (take dash part);
  end_ ← string2ll (drop (S dash) part);
  Some (start, end_).

(** The loop over the tokens from [i]: [None] for [goto err]. *)
Fixpoint parse_loop (parts : list sds) (slots : slotRangeArray) (i : Z) : outcome (option slotRangeArray) :=
  match parts with
  | [] => Ret (Some slots)
  | part :: parts =>
    p ← s_bytes part;
    match parse_range p with
    | None => Ret None
    | Some (start, end_) => slots ← slotRangeArraySet slots i start end_; parse_loop parts slots (i + 1)
    end
  end.

(** [None] for NULL. *)
Definition slotRangeArrayFromString (data : option sds) : outcome (option slotRangeArray) :=
  match data with
  | None => Ret None
  | Some data =>
    len ← sdslen data;
    if len =? 0 then Ret None else
    bs ← s_bytes data;
    parts ← sdssplitlen bs [32];
    match parts with
    | None => Ret None
    | Some parts =>
      slots ← parse_loop parts (slotRangeArrayCreate (Zlen parts)) 0;
      match slots with
      | None => Ret None
      | Some slots =>
        '(slots, err) ← slotRangeArrayNormalizeAndValidate slots;
        match err with None => Ret (Some slots) | Some _ => Ret None end
      end
    end
  end.
End text.

(** ** Arguments of commands *)

(** [getSlotOrReply] on an argument, a string; [None] for the reply and -1. *)
Definition getSlotOrReply (o : list Z) : option Z :=
  slot ← string2ll o;
  if (slot <? 0) || (CLUSTER_SLOTS <=? slot) then None else Some (s32 slot).

Inductive range_reply := ReplyArity | ReplySlot | ReplyError (e : slot_error).

(** The loop over [argv] from [j], two arguments a round. *)
Fixpoint args_loop (n : nat) (argv : list (list Z)) (argc j : Z) (slots : slotRangeArray) : outcome (slotRangeArray + range_reply) :=
  if j <? argc then
    match n with
    | O => OutOfFuel
    | S n =>
      a ← rd argv j;
      match getSlotOrReply a with
      | None => Ret (inr ReplySlot)
      | Some start =>
        b ← rd argv (j + 1);
        match getSlotOrReply b with
        | None => Ret (inr ReplySlot)
        | Some end_ =>
          slots ← slotRangeArraySet slots (num_ranges slots) start end_;
          args_loop n argv argc (j + 2) (set_num slots (num_ranges slots + 1))
        end
      end
    end
  else Ret (inl slots).

Definition parseSlotRangesOrReply (argv : list (list Z)) (argc pos : Z) : outcome (slotRangeArray + range_reply) :=
  if (argc <? 0) || (pos <? 0) || (argc <=? pos) || (argc - pos <? 2) || negb ((argc - pos) mod 2 =? 0) then Ret (inr ReplyArity) else
  let count := (argc - pos) / 2 in
  let slots := set_num (slotRangeArrayCreate count) 0 in
  r ← args_loop (Z.to_nat count) argv argc pos slots;
  match r with
  | inr e => Ret (inr e)
  | inl slots =>
    '(slots, err) ← slotRangeArrayNormalizeAndValidate slots;
    match err with None => Ret (inl slots) | Some e => Ret (inr (ReplyError e)) end
  end.
End ops.
