(* ===== verification/SlotRangeSpec.v ===== *)
(** * SlotRangeSpec: a slot range array is a set of slots

    Validated arrays are in a canonical form (sorted, disjoint, no two ranges
    adjacent), which a set of slots has only one of; the operations are those of
    the set. *)

From stdpp Require Import sorting sets.
From S2P Require Import Prelude Memory NumStr Sds SdsInv SdsSpec SdsText SdsTextSpec SlotRange.

(** ** Arrays as lists of ranges *)

(** The slots of a range and of a list of ranges, in order. *)
Definition slots_in (r : slotRange) : list Z := seqZ (start r) (end_ r - start r + 1).
Definition slots_of (rs : list slotRange) : list Z := concat (map slots_in rs).

Definition proper (r : slotRange) : Prop := 0 <= start r <= end_ r.
Definition valid_range (r : slotRange) : Prop := proper r /\ end_ r < CLUSTER_SLOTS.

(** Sorted, disjoint, not adjacent, from [lo] on. *)
Fixpoint canon (lo : Z) (rs : list slotRange) : Prop :=
  match rs with [] => True | r :: rs => lo <= start r <= end_ r /\ canon (end_ r + 2) rs end.

(** What the merge leaves of sorted ranges, [cur] being the one under construction. *)
Fixpoint merged (cur : slotRange) (rs : list slotRange) : list slotRange :=
  match rs with
  | [] => [cur]
  | r :: rs => if end_ cur + 1 =? start r then merged (set_end cur (end_ r)) rs else cur :: merged r rs
  end.
Definition normal (rs : list slotRange) : list slotRange := match rs with [] => [] | r :: rs => merged r rs end.

Lemma elem_slots_in n r : n ∈ slots_in r <-> start r <= n <= end_ r.
Proof. unfold slots_in. rewrite elem_of_seqZ. lia. Qed.

Lemma slots_cons r rs : slots_of (r :: rs) = slots_in r ++ slots_of rs.
Proof. done. Qed.

Lemma elem_slots n rs : n ∈ slots_of rs <-> exists r, r ∈ rs /\ start r <= n <= end_ r.
Proof.
  induction rs as [|r rs IH]; [split; [by intros ?%elem_of_nil|by intros (? & ?%elem_of_nil & _)]|].
  rewrite slots_cons, elem_of_app, elem_slots_in, IH. split.
  - intros [Hn|(q & Hq & Hn)]; [exists r|exists q]; (split; [|done]); [apply list_elem_of_here|by apply list_elem_of_further].
  - intros (q & [->|Hq]%elem_of_cons & Hn); [by left|right; by exists q].
Qed.

Lemma slots_perm rs rs' : rs ≡ₚ rs' -> slots_of rs ≡ₚ slots_of rs'.
Proof. intros E. unfold slots_of. by rewrite E. Qed.

Lemma slots_join s m e : s <= m + 1 -> m + 1 <= e + 1 ->
  slots_in {| start := s; end_ := m |} ++ slots_in {| start := m + 1; end_ := e |} = slots_in {| start := s; end_ := e |}.
Proof.
  intros H1 H2. unfold slots_in. cbn [start end_]. replace (e - s + 1) with ((m - s + 1) + (e - (m + 1) + 1)) by lia. rewrite (seqZ_app s (m - s + 1) (e - (m + 1) + 1)) by lia. by replace (s + (m - s + 1)) with (m + 1) by lia.
Qed.

Lemma merged_slots rs : forall cur, proper cur -> Forall proper rs -> slots_of (merged cur rs) = slots_in cur ++ slots_of rs.
Proof.
  induction rs as [|r rs IH]; intros cur Hc Hrs; [done|]. apply list.Forall_cons in Hrs as [Hr Hrs]. unfold proper in *. cbn [merged].
  destruct (Z.eqb_spec (end_ cur + 1) (start r)) as [E|E].
  - rewrite IH by (unfold proper in *; cbn [set_end start end_]; done || lia). rewrite slots_cons, app_assoc. f_equal.
    destruct cur as [s m], r as [s' e]. cbn [set_end start end_] in *. subst s'. rewrite slots_join by lia. done.
  - rewrite slots_cons, IH by done. done.
Qed.

Lemma merged_proper rs : forall cur, proper cur -> Forall proper rs -> Forall proper (merged cur rs).
Proof.
  induction rs as [|r rs IH]; intros cur Hc Hrs; [by constructor|]. apply list.Forall_cons in Hrs as [Hr Hrs]. cbn [merged].
  destruct (Z.eqb_spec (end_ cur + 1) (start r)); [apply IH; unfold proper in *; cbn [set_end start end_]; done || lia|]. constructor; [done|]. by apply IH.
Qed.

Definition by_start (x y : slotRange) : Prop := start x <= start y.
#[global] Instance by_start_trans : Transitive by_start.
Proof. unfold by_start. intros x y z. lia. Qed.

Lemma merged_head rs : forall cur, exists r l, merged cur rs = r :: l /\ start r = start cur.
Proof.
  induction rs as [|q rs IH]; intros cur; cbn [merged]; [by exists cur, []|]. destruct (_ =? _); [|by eexists _, _].
  destruct (IH (set_end cur (end_ q))) as (r & l & E & Hr). by exists r, l.
Qed.

(** No range of the result starts right behind the one before it. *)
Fixpoint apart (rs : list slotRange) : Prop :=
  match rs with r :: ((q :: _) as rs) => end_ r + 1 <> start q /\ apart rs | _ => True end.

Lemma merged_apart rs : forall cur, apart (merged cur rs).
Proof.
  induction rs as [|r rs IH]; intros cur; cbn [merged]; [done|]. destruct (Z.eqb_spec (end_ cur + 1) (start r)) as [E|E]; [apply IH|].
  specialize (IH r). destruct (merged_head rs r) as (q & l & Em & Hq). rewrite Em in *. cbn [apart] in *. split; [lia|done].
Qed.

Lemma merged_sorted rs : forall cur, StronglySorted by_start (cur :: rs) -> StronglySorted by_start (merged cur rs).
Proof.
  enough (forall cur, StronglySorted by_start (cur :: rs) -> StronglySorted by_start (merged cur rs) /\ forall x, Forall (by_start x) (cur :: rs) -> Forall (by_start x) (merged cur rs)) as H
    by (intros cur Hc; by apply H).
  induction rs as [|r rs IH]; intros cur Hs; [by split|]. inversion Hs as [|? ? Hs' Hh]; subst. inversion Hs' as [|? ? Hs'' Hh']; subst. cbn [merged].
  apply list.Forall_cons in Hh as Hh2. destruct Hh2 as [Hcr Hcrs]. destruct (_ =? _).
  - destruct (IH (set_end cur (end_ r))) as [H1 H2]; [by constructor|]. split; [done|]. intros x [Hx [_ Hxs]%list.Forall_cons]%list.Forall_cons. apply H2. by constructor.
  - destruct (IH r Hs') as [H1 H2]. split; [constructor; [done|by apply H2]|]. intros x [Hx Hxs]%list.Forall_cons. constructor; [done|]. by apply H2.
Qed.

(** Sorted, apart and disjoint ranges are canonical. *)
Lemma canon_of rs : forall lo, StronglySorted by_start rs -> apart rs -> Forall proper rs -> NoDup (slots_of rs) ->
  match rs with r :: _ => lo <= start r | [] => True end -> canon lo rs.
Proof.
  induction rs as [|r rs IH]; intros lo Hs Ha Hp Hd Hlo; [done|]. inversion Hs as [|? ? Hs' Hh]; subst. apply list.Forall_cons in Hp as [Hr Hp]. unfold proper in Hr.
  rewrite slots_cons in Hd. apply list.NoDup_app in Hd as (_ & Hdis & Hd). cbn [canon]. split; [lia|]. apply IH; [done| |done|done|]; [by destruct rs; [|apply Ha]|].
  destruct rs as [|q rs]; [done|]. cbn [apart] in Ha. destruct Ha as [Ha _]. apply list.Forall_cons in Hh as [Hrq _]. unfold by_start in Hrq.
  apply list.Forall_cons in Hp as [Hq _]. unfold proper in Hq. destruct (Z.le_gt_cases (start q) (end_ r)); [|lia]. exfalso.
  apply (Hdis (start q)); [apply elem_slots_in; lia|]. rewrite slots_cons. apply elem_of_app. left. apply elem_slots_in. lia.
Qed.

Lemma canon_weaken lo lo' rs : lo' <= lo -> canon lo rs -> canon lo' rs.
Proof. destruct rs as [|r rs]; [done|]. cbn [canon]. intros H [H1 H2]. split; [lia|done]. Qed.

Lemma canon_bound rs : forall lo, canon lo rs -> forall n, n ∈ slots_of rs -> lo <= n.
Proof.
  induction rs as [|r rs IH]; intros lo; [by intros _ n ?%elem_of_nil|]. cbn [canon]. intros [Hr Hc] n. rewrite slots_cons, elem_of_app, elem_slots_in.
  intros [Hn|Hn]; [lia|]. pose proof (IH _ Hc n Hn). lia.
Qed.

(** A set of slots has one canonical form. *)
Lemma canon_unique rs : forall rs' lo, canon lo rs -> canon lo rs' -> (forall n, n ∈ slots_of rs <-> n ∈ slots_of rs') -> rs = rs'.
Proof.
  assert (forall r rs lo, canon lo (r :: rs) -> start r ∈ slots_of (r :: rs)) as Hin.
  { intros r l lo [Hr _]. rewrite slots_cons, elem_of_app, elem_slots_in. lia. }
  assert (forall r rs r' rs' lo, canon lo (r :: rs) -> canon lo (r' :: rs') -> (forall n, n ∈ slots_of (r :: rs) -> n ∈ slots_of (r' :: rs')) -> start r' <= start r) as Hstart.
  { intros r l r' l' lo Hc Hc' Hsub. pose proof (Hsub _ (Hin _ _ _ Hc)) as H. rewrite slots_cons, elem_of_app, elem_slots_in in H. destruct H as [H|H]; [lia|].
    cbn [canon] in Hc'. destruct Hc' as [Hr' Hc']. pose proof (canon_bound _ _ Hc' _ H). lia. }
  assert (forall r rs r' rs' lo, canon lo (r :: rs) -> canon lo (r' :: rs') -> start r = start r' -> (forall n, n ∈ slots_of (r :: rs) -> n ∈ slots_of (r' :: rs')) -> end_ r <= end_ r') as Hend.
  { intros r l r' l' lo Hc Hc' E Hsub. cbn [canon] in Hc, Hc'. destruct (Z.le_gt_cases (end_ r) (end_ r')) as [|Hlt]; [done|]. exfalso.
    assert (end_ r' + 1 ∈ slots_of (r' :: l')) as H by (apply Hsub; rewrite slots_cons, elem_of_app, elem_slots_in; lia).
    rewrite slots_cons, elem_of_app, elem_slots_in in H. destruct H as [H|H]; [lia|]. pose proof (canon_bound _ _ (proj2 Hc') _ H). lia. }
  induction rs as [|r rs IH]; intros [|r' rs'] lo Hc Hc' Heq; [done|by pose proof (proj2 (Heq _) (Hin _ _ _ Hc')) as ?%elem_of_nil|by pose proof (proj1 (Heq _) (Hin _ _ _ Hc)) as ?%elem_of_nil|].
  assert (start r = start r') as Es by (apply Z.le_antisymm; [apply (Hstart r' rs' r rs lo)|apply (Hstart r rs r' rs' lo)]; try done; intros n Hn; by apply Heq).
  assert (end_ r = end_ r') as Ee by (apply Z.le_antisymm; [apply (Hend r rs r' rs' lo)|apply (Hend r' rs' r rs lo)]; try done; intros n Hn; by apply Heq).
  assert (r = r') as <- by (destruct r, r'; cbn in *; congruence). f_equal. cbn [canon] in Hc, Hc'. apply (IH _ (end_ r + 2)); [tauto..|].
  intros n. specialize (Heq n). rewrite !slots_cons, !elem_of_app, !elem_slots_in in Heq.
  split; intros Hn.
  - pose proof (canon_bound _ _ (proj2 Hc) _ Hn). destruct (proj1 Heq (or_intror Hn)); [lia|done].
  - pose proof (canon_bound _ _ (proj2 Hc') _ Hn). destruct (proj2 Heq (or_intror Hn)); [lia|done].
Qed.

(** ** The operations on arrays *)

Section ops.
Context `{SlotEnv}.

(** The array [a] holds the ranges [rs]. *)
Definition holds_ranges (a : slotRangeArray) (rs : list slotRange) : Prop :=
  num_ranges a = Zlen rs /\ rs `prefix_of` ranges a /\ Zlen (ranges a) = cells (block a).

(** The ranges after the sort. *)
Definition sorted (rs : list slotRange) : list slotRange := qsort rs compareSlotRange.

Lemma sorted_perm rs : sorted rs ≡ₚ rs.
Proof. apply qsort_perm. Qed.

Lemma compare_le x y : compareSlotRange x y <= 0 <-> by_start x y.
Proof. unfold compareSlotRange, by_start. destruct (Z.ltb_spec (start x) (start y)), (Z.ltb_spec (start y) (start x)); lia. Qed.

Lemma sorted_sorted rs : StronglySorted by_start (sorted rs).
Proof.
  apply Sorted_StronglySorted; [apply _|]. unfold sorted.
  assert (Sorted (fun x y => compareSlotRange x y <= 0) (qsort rs compareSlotRange)) as Hs.
  { apply qsort_sorted; intros x y; [|intros z]; rewrite !compare_le; unfold by_start; lia. }
  induction Hs as [|x l Hs IH Hh]; constructor; [done|]. destruct Hh; constructor. by apply compare_le.
Qed.

Lemma Zlen_perm {A} (l l' : list A) : l ≡ₚ l' -> Zlen l = Zlen l'.
Proof. intros E. unfold Zlen. by rewrite (Permutation_length E). Qed.

Lemma rd_at {A} (l : list A) x r i : i = Zlen l -> rd (l ++ x :: r) i = Ret x.
Proof. intros ->. rewrite <- (Z.add_0_r (Zlen l)). by rewrite rd_app_off. Qed.

Lemma wr_at {A} (l : list A) x y r i : i = Zlen l -> wr (l ++ x :: r) i y = Ret (l ++ y :: r).
Proof.
  intros ->. pose proof (Zlen_nonneg l). pose proof (Zlen_nonneg r). rewrite wr_ok by (rewrite Zlen_app, Zlen_cons; lia). f_equal.
  rewrite insert_app_r_alt by (unfold Zlen; lia). by replace (Z.to_nat (Zlen l) - length l)%nat with O by (unfold Zlen; lia).
Qed.

Lemma merge_loop_spec todo : forall pre cur gap tail i idx, idx = Zlen pre -> i = Zlen pre + 1 + Zlen gap ->
  exists gap', merge_loop (length todo) (pre ++ cur :: gap ++ todo ++ tail) i idx
    = Ret (pre ++ merged cur todo ++ gap' ++ tail, Zlen pre + Zlen (merged cur todo) - 1).
Proof.
  induction todo as [|r todo IH]; intros pre cur gap tail i idx -> ->.
  - exists gap. cbn [length merge_loop merged app]. do 2 f_equal. change (Zlen [cur]) with 1. lia.
  - cbn [length merge_loop merged app]. rewrite (rd_at pre cur _ (Zlen pre)), ret_bind by done.
    assert (rd (pre ++ cur :: gap ++ r :: todo ++ tail) (Zlen pre + 1 + Zlen gap) = Ret r) as ->.
    { replace (pre ++ cur :: gap ++ r :: todo ++ tail) with ((pre ++ cur :: gap) ++ r :: todo ++ tail) by (by rewrite <- app_assoc).
      apply rd_at. rewrite Zlen_app, Zlen_cons. lia. }
    rewrite ret_bind. destruct (end_ cur + 1 =? start r).
    + rewrite wr_at, ret_bind by done. destruct (IH pre (set_end cur (end_ r)) (gap ++ [r]) tail (Zlen pre + 1 + Zlen gap + 1) (Zlen pre)) as (gap' & E); [done|rewrite Zlen_app; change (Zlen [r]) with 1; lia|].
      exists gap'. rewrite <- E. by rewrite <- app_assoc.
    + destruct gap as [|g gap].
      * cbn [app]. replace (pre ++ cur :: r :: todo ++ tail) with ((pre ++ [cur]) ++ r :: todo ++ tail) by (by rewrite <- app_assoc).
        rewrite wr_at, ret_bind by (rewrite Zlen_app; done).
        destruct (IH (pre ++ [cur]) r [] tail (Zlen pre + 1 + 0 + 1) (Zlen pre + 1)) as (gap' & E); [by rewrite Zlen_app|rewrite Zlen_app; unfold Zlen; cbn [length]; lia|].
        exists gap'. cbn [app] in E. change (Zlen (@nil slotRange)) with 0. rewrite E. rewrite <- !app_assoc. cbn [app]. do 2 f_equal. unfold Zlen. rewrite length_app. cbn [length]. lia.
      * cbn [app]. replace (pre ++ cur :: g :: gap ++ r :: todo ++ tail) with ((pre ++ [cur]) ++ g :: gap ++ r :: todo ++ tail) by (by rewrite <- app_assoc).
        rewrite wr_at, ret_bind by (rewrite Zlen_app; done).
        destruct (IH (pre ++ [cur]) r (gap ++ [r]) tail (Zlen pre + 1 + Zlen (g :: gap) + 1) (Zlen pre + 1)) as (gap' & E);
          [by rewrite Zlen_app|rewrite !Zlen_app, Zlen_cons; change (Zlen [cur]) with 1; change (Zlen [r]) with 1; lia|].
        exists gap'. rewrite <- (app_assoc gap [r]) in E. cbn [app] in E. rewrite E. rewrite <- !app_assoc. cbn [app]. do 2 f_equal. unfold Zlen. rewrite length_app. cbn [length]. lia.
Qed.

Lemma merged_length rs : forall cur, Zlen (merged cur rs) <= 1 + Zlen rs.
Proof. induction rs as [|r rs IH]; intros cur; cbn [merged]; [reflexivity|]. rewrite Zlen_cons. destruct (_ =? _); rewrite ?Zlen_cons; [specialize (IH (set_end cur (end_ r)))|specialize (IH r)]; lia. Qed.

Lemma merge_loop_length n : forall rs i idx rs' idx', merge_loop n rs i idx = Ret (rs', idx') -> Zlen rs' = Zlen rs.
Proof.
  induction n as [|n IH]; intros rs i idx rs' idx'; cbn [merge_loop]; [by intros [= <- <-]|]. intros E. inv_ret;
    match goal with Hm : merge_loop _ _ _ _ = _, Hw : wr _ _ _ = _ |- _ => apply IH in Hm; apply wr_Ret_inv in Hw as [_ ->]; by rewrite Hm, Zlen_insert end.
Qed.

Lemma sort_merge_spec a rs : holds_ranges a rs -> exists a', slotRangeArraySortAndMerge a = Ret a' /\ holds_ranges a' (normal (sorted rs)) /\ block a' = block a.
Proof.
  intros (Hn & [tail Er] & Hb). unfold slotRangeArraySortAndMerge. rewrite Hn. destruct (Z.leb_spec (Zlen rs) 1) as [H1|H1].
  { exists a. split; [done|]. split; [|done]. assert (normal (sorted rs) = rs) as ->.
    { destruct rs as [|r [|q rs]]; [| |rewrite !Zlen_cons in H1; pose proof (Zlen_nonneg rs); lia].
      - pose proof (sorted_perm []) as E. apply Permutation_nil_r in E. by rewrite E.
      - pose proof (sorted_perm [r]) as E. apply Permutation_singleton_r in E. by rewrite E. }
    split; [done|]. split; [by exists tail|done]. }
  rewrite Er. pose proof (rdn_head rs tail) as ->. rewrite ret_bind.
  rewrite (wrn_head rs (qsort rs compareSlotRange) tail), ret_bind by (symmetry; apply Permutation_length, qsort_perm). fold (sorted rs).
  pose proof (Zlen_perm _ _ (sorted_perm rs)) as El. destruct (sorted rs) as [|cur todo] eqn:Es; [rewrite Zlen_nil in El; lia|].
  destruct (merge_loop_spec todo [] cur [] tail 1 0) as (gap' & E); [done..|]. cbn [app] in E. rewrite Zlen_cons in El.
  replace (Z.to_nat (Zlen rs - 1)) with (length todo) by (unfold Zlen in *; lia). cbn [app]. rewrite E, ret_bind. eexists. split; [reflexivity|].
  split; [|done]. cbn [normal]. split; [cbn [num_ranges set_num]; rewrite Zlen_nil; lia|]. split; [by exists (gap' ++ tail)|].
  cbn [ranges block set_num set_ranges]. rewrite (merge_loop_length _ _ _ _ _ _ E), <- Hb, Er. unfold Zlen in *. cbn [length]. rewrite !length_app. lia.
Qed.

Lemma normal_canon rs lo : Forall proper (normal (sorted rs)) -> NoDup (slots_of (normal (sorted rs))) ->
  match normal (sorted rs) with r :: _ => lo <= start r | [] => True end -> canon lo (normal (sorted rs)).
Proof.
  intros Hp Hd Hlo. apply canon_of; try done; pose proof (sorted_sorted rs) as Hs; destruct (sorted rs); try done; [by apply merged_sorted|apply merged_apart].
Qed.

Lemma normal_slots rs : Forall proper rs -> slots_of (normal (sorted rs)) ≡ₚ slots_of rs /\ Forall proper (normal (sorted rs)).
Proof.
  intros Hp. assert (Forall proper (sorted rs)) as Hp' by (by rewrite sorted_perm). rewrite <- (slots_perm _ _ (sorted_perm rs)). destruct (sorted rs) as [|r l]; [done|].
  apply list.Forall_cons in Hp' as [Hr Hl]. cbn [normal]. split; [by rewrite merged_slots|by apply merged_proper].
Qed.

(** ** Validation *)

(** Both fields are in the range of their type. *)
Definition typed (r : slotRange) : Prop := 0 <= start r < 2 ^ 16 /\ 0 <= end_ r < 2 ^ 16.

(** [used_slots] marks the slots [U]. *)
Definition marks (used U : list Z) : Prop :=
  Zlen used = CLUSTER_SLOTS /\ forall j u, 0 <= j -> rd used j = Ret u -> (u = 0 /\ j ∉ U) \/ (u = 1 /\ j ∈ U).

Lemma marks_empty : marks (replicate (Z.to_nat CLUSTER_SLOTS) 0) [].
Proof.
  split; [done|]. intros j u Hj E. left. split; [|apply not_elem_of_nil]. apply rd_Ret_inv in E as [_ E]. by apply lookup_replicate in E as [-> _].
Qed.

Lemma mark_loop_spec n : forall used U j, marks used U -> 0 <= j -> j + Z.of_nat n <= CLUSTER_SLOTS ->
  exists r, mark_loop n used j = Ret r /\
    match r with
    | inl used' => (forall x, x ∈ seqZ j (Z.of_nat n) -> x ∉ U) /\ marks used' (U ++ seqZ j (Z.of_nat n))
    | inr _ => exists x, x ∈ seqZ j (Z.of_nat n) /\ x ∈ U
    end.
Proof.
  induction n as [|n IH]; intros used U j [Hl Hm] Hj Hb.
  - exists (inl used). split; [done|]. cbn [seqZ Z.of_nat]. rewrite app_nil_r. split; [by intros x ?%elem_of_nil|done].
  - cbn [mark_loop]. destruct (rd_ok used j) as [u Eu]; [lia|]. rewrite Eu, ret_bind. destruct (Hm _ _ Hj Eu) as [[-> Hu]|[-> Hu]].
    + change (negb (0 =? 0)) with false. cbv iota. change (u8 (0 + 1)) with 1. rewrite wr_ok, ret_bind by lia.
      assert (marks (<[Z.to_nat j := 1]> used) (U ++ [j])) as Hm'.
      { split; [by rewrite Zlen_insert|]. intros k v Hk Ek. rewrite elem_of_app, list_elem_of_singleton. destruct (Z.eq_dec k j) as [->|Hne].
        - right. rewrite rd_insert_eq in Ek by lia. injection Ek as <-. split; [done|by right].
        - rewrite rd_insert_ne in Ek by lia. destruct (Hm _ _ Hk Ek) as [[-> ?]|[-> ?]]; [left|right]; (split; [done|]); tauto. }
      destruct (IH _ _ (j + 1) Hm') as (r & E & Hr); [lia..|]. exists r. split; [done|].
      assert (seqZ j (Z.of_nat (S n)) = j :: seqZ (j + 1) (Z.of_nat n)) as Es by (rewrite seqZ_cons by lia; do 2 f_equal; lia). rewrite Es. destruct r as [used'|e].
      * destruct Hr as [Hr1 Hr2]. split; [|by rewrite <- app_assoc in Hr2]. intros x [->|Hx]%elem_of_cons; [done|]. specialize (Hr1 x Hx). rewrite elem_of_app in Hr1. tauto.
      * destruct Hr as (x & Hx & Hxu). rewrite elem_of_app, list_elem_of_singleton in Hxu. apply elem_of_seqZ in Hx as Hx'. destruct Hxu as [Hxu| ->]; [|lia].
        exists x. split; [by apply elem_of_cons; right|done].
    + change (negb (1 =? 0)) with true. cbv iota. exists (inr (Repeated j)). split; [done|]. exists j. split; [|done]. apply elem_of_seqZ. lia.
Qed.

Lemma slots_loop_spec rs : forall pre tail used U, Forall typed rs -> marks used U -> forall i, i = Zlen pre ->
  exists e, validate_loop (length rs) (pre ++ rs ++ tail) used i = Ret e /\
    (e = None <-> Forall valid_range rs /\ NoDup (slots_of rs) /\ (forall x, x ∈ U -> x ∉ slots_of rs)).
Proof.
  induction rs as [|r rs IH]; intros pre tail used U Ht Hm i ->.
  - exists None. split; [done|]. split; [|done]. intros _. split; [constructor|]. split; [constructor|]. intros x _. apply not_elem_of_nil.
  - apply list.Forall_cons in Ht as [Hr Ht]. unfold typed in Hr. cbn [length validate_loop app]. rewrite rd_at, ret_bind by done.
    change (slots_of (r :: rs)) with (slots_in r ++ slots_of rs). setoid_rewrite list.Forall_cons. setoid_rewrite list.NoDup_app. unfold valid_range at 1. unfold proper.
    destruct (Z.leb_spec CLUSTER_SLOTS (start r)); [eexists; split; [reflexivity|]; split; [done|]; intros ((?&?)&_); unfold CLUSTER_SLOTS in *; lia|].
    destruct (Z.leb_spec CLUSTER_SLOTS (end_ r)); [eexists; split; [reflexivity|]; split; [done|]; intros ((?&?)&_); unfold CLUSTER_SLOTS in *; lia|]. cbn [orb].
    destruct (Z.ltb_spec (end_ r) (start r)); [eexists; split; [reflexivity|]; split; [done|]; intros ((?&?)&_); lia|].
    destruct (mark_loop_spec (Z.to_nat (end_ r - start r + 1)) used U (start r) Hm) as (m & Em & Hmr); [lia..|]. rewrite Em, ret_bind.
    replace (Z.of_nat (Z.to_nat (end_ r - start r + 1))) with (end_ r - start r + 1) in Hmr by lia. fold (slots_in r) in Hmr. destruct m as [used'|e].
    + destruct Hmr as [Hd Hm']. destruct (IH (pre ++ [r]) tail used' _ Ht Hm' (Zlen pre + 1)) as (e & E & He); [rewrite Zlen_app; done|].
      rewrite <- app_assoc in E. exists e. split; [exact E|]. rewrite He. split.
      * intros (Hv & Hn & Hu). split; [split; [lia|done]|]. split; [split; [apply NoDup_seqZ|split; [|done]]|].
        -- intros x Hx. apply Hu, elem_of_app. by right.
        -- intros x Hx [Hx'|Hx']%elem_of_app; [by apply (Hd x)|]. apply (Hu x); [apply elem_of_app; by left|done].
      * intros ((_ & Hv) & (_ & Hdis & Hn) & Hu). split; [done|]. split; [done|]. intros x [Hx|Hx]%elem_of_app Hx'; [apply (Hu x Hx), elem_of_app; by right|by apply (Hdis x)].
    + destruct Hmr as (x & Hx & Hxu). exists (Some e). split; [done|]. split; [done|]. intros (_ & _ & Hu). exfalso. apply (Hu x Hxu). apply elem_of_app. by left.
Qed.

Lemma merged_typed rs : forall cur, typed cur -> Forall typed rs -> Forall typed (merged cur rs).
Proof.
  induction rs as [|r rs IH]; intros cur Hc Hrs; [by constructor|]. apply list.Forall_cons in Hrs as [Hr Hrs]. cbn [merged].
  destruct (_ =? _); [apply IH; [unfold typed in *; cbn [set_end start end_]; lia|done]|]. constructor; [done|]. by apply IH.
Qed.

Lemma normal_typed rs : Forall typed rs -> Forall typed (normal (sorted rs)).
Proof.
  intros Hp. assert (Forall typed (sorted rs)) as Hp' by (by rewrite sorted_perm). destruct (sorted rs); [done|]. apply list.Forall_cons in Hp' as [? ?]. by apply merged_typed.
Qed.

Lemma validate_spec a rs : holds_ranges a rs -> Forall typed rs -> 0 < Zlen rs < CLUSTER_SLOTS ->
  exists a' e, slotRangeArrayNormalizeAndValidate a = Ret (a', e) /\ holds_ranges a' (normal (sorted rs)) /\ block a' = block a /\
    (e = None <-> Forall valid_range (normal (sorted rs)) /\ NoDup (slots_of (normal (sorted rs)))).
Proof.
  intros Ha Ht Hl. pose proof Ha as (Hn & _). unfold slotRangeArrayNormalizeAndValidate. rewrite Hn.
  rewrite (proj2 (Z.leb_gt _ 0)), (proj2 (Z.leb_gt CLUSTER_SLOTS _)) by lia. cbn [orb]. destruct (sort_merge_spec a rs Ha) as (a' & E & Ha' & Hb). rewrite E, ret_bind.
  pose proof Ha' as (Hn' & [tail Et] & _). rewrite Hn', Et.
  destruct (slots_loop_spec (normal (sorted rs)) [] tail _ [] (normal_typed rs Ht) marks_empty 0) as (e & Ev & He); [done|]. cbn [app] in Ev.
  unfold Zlen. rewrite Nat2Z.id, Ev, ret_bind. exists a', e. split; [done|]. split; [done|]. split; [done|]. rewrite He. split; [by intros (? & ? & _)|].
  intros (? & ?). split; [done|]. split; [done|]. intros x ?%elem_of_nil. done.
Qed.

(** Ranges in order and disjoint: what is asked of an array's contents. *)
Definition well_formed (rs : list slotRange) : Prop := Forall valid_range rs /\ NoDup (slots_of rs).

Lemma normal_well_formed rs : Forall proper rs -> Forall typed rs -> (Forall valid_range (normal (sorted rs)) /\ NoDup (slots_of (normal (sorted rs)))) <-> well_formed rs.
Proof.
  intros Hp Ht. destruct (normal_slots rs Hp) as [Es Hp']. unfold well_formed. rewrite Es.
  assert (forall l, Forall proper l -> Forall valid_range l <-> Forall (fun n => n < CLUSTER_SLOTS) (slots_of l)) as Hv.
  { intros l Hl. rewrite !list.Forall_forall. setoid_rewrite elem_slots. split.
    - intros H1 n (r & Hr & Hn). destruct (H1 r Hr). lia.
    - intros H1 r Hr. rewrite list.Forall_forall in Hl. pose proof (Hl r Hr) as Hpr. split; [done|]. apply H1. exists r. unfold proper in Hpr. split; [done|lia]. }
  rewrite !Hv by done. by rewrite Es.
Qed.

Lemma canon_forms rs lo : canon lo rs -> 0 <= lo -> Forall proper rs /\ StronglySorted by_start rs /\ NoDup (slots_of rs) /\ apart rs /\
  Forall (fun r => lo <= start r) rs.
Proof.
  revert lo. induction rs as [|r rs IH]; intros lo Hc Hlo; [repeat split; constructor|]. pose proof (canon_bound _ _ Hc) as Hb. cbn [canon] in Hc. destruct Hc as [Hr Hc].
  pose proof (canon_bound _ _ Hc) as Hb'. destruct (IH _ Hc) as (Hp & Hs & Hn & Ha & Hf); [lia|]. split; [constructor; [unfold proper; lia|done]|].
  split; [constructor; [done|]; eapply list.Forall_impl; [exact Hf|]; unfold by_start; cbn; lia|]. split.
  - rewrite slots_cons. apply list.NoDup_app. split; [apply NoDup_seqZ|]. split; [|done]. intros x Hx Hx'. apply elem_slots_in in Hx. specialize (Hb' x Hx'). lia.
  - split; [|constructor; [lia|]; eapply list.Forall_impl; [exact Hf|]; cbn; lia]. destruct rs as [|q rs]; [done|]. cbn [apart]. split; [|done]. apply list.Forall_cons in Hf as [Hq _]. lia.
Qed.

(** Ranges in order, with no two starts the same, are what the sort gives back. *)
Lemma sorted_id rs : StronglySorted by_start rs -> (forall x y, x ∈ rs -> y ∈ rs -> start x = start y -> x = y) -> sorted rs = rs.
Proof.
  intros Hs Hd. apply (StronglySorted_unique_strong by_start); [|apply sorted_sorted|done|apply sorted_perm].
  intros x y Hx Hy H1 H2. rewrite sorted_perm in Hx. apply Hd; [done..|]. unfold by_start in *. lia.
Qed.

Lemma starts_differ rs : Forall proper rs -> NoDup (slots_of rs) -> forall x y, x ∈ rs -> y ∈ rs -> start x = start y -> x = y.
Proof.
  intros Hp Hn x y Hx Hy E. apply list_elem_of_split in Hx as (l1 & l2 & ->). unfold slots_of in Hn. rewrite map_app, concat_app in Hn. fold (slots_of l1) (slots_of (x :: l2)) in Hn.
  rewrite slots_cons in Hn. apply list.NoDup_app in Hn as (_ & Hd1 & Hn). apply list.NoDup_app in Hn as (_ & Hd2 & _).
  rewrite list.Forall_forall in Hp. pose proof (Hp _ Hy) as Hyp. unfold proper in Hyp. pose proof (Hp x ltac:(apply elem_of_app; right; apply list_elem_of_here)) as Hxp. unfold proper in Hxp.
  apply elem_of_app in Hy as [Hy|[Hy|Hy]%elem_of_cons]; [exfalso|done|exfalso].
  - apply (Hd1 (start y)); [apply elem_slots; exists y; split; [done|lia]|]. apply elem_of_app. left. apply elem_slots_in. lia.
  - apply (Hd2 (start x)); [apply elem_slots_in; lia|]. apply elem_slots. exists y. split; [done|lia].
Qed.

(** A canonical array is its own normal form. *)
Lemma normal_id rs lo : canon lo rs -> 0 <= lo -> normal (sorted rs) = rs.
Proof.
  intros Hc Hlo. destruct (canon_forms rs lo Hc Hlo) as (Hp & Hs & Hn & Ha & _). rewrite sorted_id by (done || by apply starts_differ).
  destruct rs as [|r rs]; [done|]. cbn [normal]. clear - Ha. revert r Ha. induction rs as [|q rs IH]; intros r Ha; [done|]. cbn [apart] in Ha. destruct Ha as [Hne Ha]. cbn [merged].
  rewrite (proj2 (Z.eqb_neq _ _) Hne). by rewrite IH.
Qed.

(** ** Growth, search and iteration *)

Lemma valid_typed r : valid_range r -> typed r.
Proof. unfold valid_range, proper, typed, CLUSTER_SLOTS. lia. Qed.

Lemma slots_app l k : slots_of (l ++ k) = slots_of l ++ slots_of k.
Proof. unfold slots_of. by rewrite map_app, concat_app. Qed.

Lemma cells_ge n : n <= cells (usable (array_size n)).
Proof. unfold cells, array_size. pose proof (usable_ge (4 + 4 * n)). apply Z.div_le_lower_bound; lia. Qed.

Lemma create_holds n : 0 <= n -> holds_ranges (slotRangeArrayCreate n) (replicate (Z.to_nat n) {| start := 0; end_ := 0 |}).
Proof.
  intros Hn. pose proof (cells_ge n). unfold slotRangeArrayCreate. set (z := {| start := 0; end_ := 0 |}). split; [cbn [num_ranges]; unfold Zlen; rewrite length_replicate; lia|].
  cbn [ranges block]. split; [|unfold Zlen; rewrite length_resize; lia]. rewrite resize_ge by (rewrite length_replicate; lia). by eexists.
Qed.

(** A canonical array is at most half as long as the slots it may hold. *)
Lemma canon_length rs : forall lo hi, canon lo rs -> (forall n, n ∈ slots_of rs -> n < hi) -> lo <= hi + 1 -> 2 * Zlen rs <= hi - lo + 1.
Proof.
  induction rs as [|r rs IH]; intros lo hi Hc Hb Hlo; [cbn [Zlen length Z.of_nat]; unfold Zlen; cbn; lia|]. cbn [canon] in Hc. destruct Hc as [Hr Hc].
  assert (end_ r < hi) by (apply Hb; rewrite slots_cons, elem_of_app, elem_slots_in; lia). rewrite Zlen_cons.
  assert (2 * Zlen rs <= hi - (end_ r + 2) + 1); [|lia]. apply IH; [done| |lia]. intros n Hn. apply Hb. rewrite slots_cons. apply elem_of_app. by right.
Qed.

Lemma canon_snoc rs r : forall lo, canon lo (rs ++ [r]) <-> canon lo rs /\ start r <= end_ r /\ lo <= start r /\ (forall q, q ∈ rs -> end_ q + 2 <= start r).
Proof.
  induction rs as [|q rs IH]; intros lo; cbn [app canon].
  - split; [intros [H1 _]; split; [done|]; split; [lia|]; split; [lia|]; by intros q ?%elem_of_nil|]. intros (_ & H1 & H2 & _). split; [lia|done].
  - rewrite IH. split.
    + intros (H1 & H2 & H3 & H4 & H5). split; [done|]. split; [done|]. split; [lia|]. intros p [->|Hp]%elem_of_cons; [lia|by apply H5].
    + intros ((H1 & H2) & H3 & H4 & H5). split; [done|]. split; [done|]. split; [done|]. split; [apply H5, list_elem_of_here|]. intros p Hp. apply H5. by apply list_elem_of_further.
Qed.

Lemma rd_prefix {A} (l m : list A) i : l `prefix_of` m -> 0 <= i < Zlen l -> rd m i = rd l i.
Proof. intros [k ->] Hi. apply rd_app_l. lia. Qed.

(** Appending a slot above the others. *)
Lemma append_spec a rs slot : holds_ranges a rs -> canon 0 rs -> rs <> [] -> (forall n, n ∈ slots_of rs -> n < slot) -> slot < CLUSTER_SLOTS ->
  exists a' rs', slotRangeArrayAppend (Some a) slot = Ret a' /\ holds_ranges a' rs' /\ canon 0 rs' /\ rs' <> [] /\ slots_of rs' = slots_of rs ++ [slot].
Proof.
  intros (Hn & [tail Er] & Hb) Hc Hne Hs Hmax. destruct rs as [|last pre _] using rev_ind; [done|]. apply canon_snoc in Hc as (Hc & Hl1 & Hl2 & Hl3).
  assert (end_ last < slot) as Hlt by (apply Hs; rewrite slots_app, elem_of_app; right; rewrite slots_cons, elem_of_app, elem_slots_in; lia).
  pose proof (Zlen_nonneg pre). pose proof (Zlen_nonneg tail).
  assert (Zlen (pre ++ [last]) <= CLUSTER_SLOTS) as Hcount.
  { assert (2 * Zlen (pre ++ [last]) <= CLUSTER_SLOTS - 0 + 1); [|unfold CLUSTER_SLOTS in *; lia].
    apply canon_length; [by apply canon_snoc|intros n Hn'; specialize (Hs n Hn'); lia|unfold CLUSTER_SLOTS; lia]. }
  assert (Zlen (pre ++ [last]) = Zlen pre + 1) as Hlen by (rewrite Zlen_app; done). unfold slotRangeArrayAppend. rewrite Hlen in Hn, Hcount. rewrite Hn.
  rewrite (proj2 (Z.leb_le 0 _)), (proj2 (Z.leb_le _ CLUSTER_SLOTS)) by lia. cbn [andb c_assert]. rewrite ret_bind.
  assert (rd (ranges a) (Zlen pre + 1 - 1) = Ret last) as -> by (rewrite Er, <- app_assoc; apply rd_at; lia). rewrite ret_bind. rewrite (proj2 (Z.ltb_lt _ _)) by lia. cbn [c_assert]. rewrite ret_bind.
  assert (u16 slot = slot) as Hu by (apply wrapu_id; unfold CLUSTER_SLOTS in *; lia). rewrite Hu. destruct (Z.eqb_spec slot (end_ last + 1)) as [E|E].
  - rewrite Er, <- app_assoc. cbn [app]. rewrite (wr_at pre last (set_end last slot) tail) by lia. rewrite ret_bind. eexists _, (pre ++ [set_end last slot]). split; [reflexivity|]. split; [|split; [|split; [by destruct pre|]]].
    + split; [cbn [num_ranges set_ranges]; rewrite Zlen_app, Hn; done|]. cbn [ranges block set_ranges]. split; [exists tail; by rewrite <- app_assoc|].
      rewrite <- Hb, Er. unfold Zlen. rewrite !length_app. cbn [length]. lia.
    + apply canon_snoc. cbn [set_end start end_]. split; [done|]. split; [lia|]. by split; [lia|].
    + rewrite !slots_app, <- app_assoc. f_equal. unfold slots_of. cbn [map concat]. rewrite !app_nil_r. destruct last as [s e]. cbn [set_end start end_] in *. subst slot.
      unfold set_end. cbn [start end_]. rewrite <- (slots_join s e (e + 1)) by lia. f_equal. unfold slots_in. cbn [start end_]. by replace (e + 1 - (e + 1) + 1) with 1 by lia.
  - assert (exists tail' b, (if cells (block a) <=? Zlen pre + 1 then
        {| num_ranges := Zlen pre + 1; ranges := resize (Z.to_nat (cells (usable (array_size (cells (block a) * 2))))) junk (ranges a); block := usable (array_size (cells (block a) * 2)) |}
        else a) = {| num_ranges := Zlen pre + 1; ranges := (pre ++ [last]) ++ tail'; block := b |} /\ tail' <> [] /\ Zlen ((pre ++ [last]) ++ tail') = cells b) as (tail' & b & Ea & Ht' & Hb').
    { rewrite <- Hb, Er. destruct (Z.leb_spec (Zlen ((pre ++ [last]) ++ tail)) (Zlen pre + 1)) as [Hfull|Hroom].
      - rewrite Zlen_app in Hfull. assert (tail = []) as -> by (destruct tail as [|t tail]; [done|rewrite Zlen_cons in *; pose proof (Zlen_nonneg tail); lia]).
        rewrite app_nil_r, Hlen in *. pose proof (cells_ge ((Zlen pre + 1) * 2)) as Hcells. rewrite resize_ge by (rewrite length_app; cbn [length]; unfold Zlen in *; lia).
        eexists _, _. split; [reflexivity|]. split; [|unfold Zlen in *; rewrite !length_app, length_replicate; cbn [length]; lia].
        intros E0. apply (f_equal length) in E0. rewrite length_replicate, length_app in E0. cbn [length] in E0. unfold Zlen in *. lia.
      - exists tail, (block a). destruct a as [n r b]. cbn [num_ranges ranges block] in *. subst. split; [done|]. split; [|done]. intros ->. rewrite app_nil_r in Hroom. lia. }
    cbv zeta. rewrite Ea. cbn [num_ranges ranges]. destruct tail' as [|t tail']; [done|]. rewrite (wr_at (pre ++ [last]) t) by lia. rewrite ret_bind.
    eexists _, ((pre ++ [last]) ++ [_]). split; [reflexivity|]. split; [|split; [|split; [by destruct pre|]]].
    + split; [cbn [num_ranges set_num set_ranges]; rewrite Zlen_app, Hlen; done|]. cbn [ranges block set_num set_ranges]. split; [exists tail'; by rewrite <- (app_assoc _ [_] tail')|].
      rewrite <- Hb'. unfold Zlen. rewrite !length_app. cbn [length]. lia.
    + apply canon_snoc. cbn [start end_]. split; [by apply canon_snoc|]. split; [lia|]. split; [lia|]. intros q [Hq|Hq]%elem_of_app; [specialize (Hl3 q Hq); lia|].
      apply list_elem_of_singleton in Hq as ->. lia.
    + rewrite !slots_app. do 2 f_equal. unfold slots_in, slots_of. cbn [map concat]. rewrite app_nil_r. unfold slots_in. cbn [start end_]. by replace (slot - slot + 1) with 1 by lia.
Qed.

Lemma append_first slot : 0 <= slot < CLUSTER_SLOTS ->
  exists a rs, slotRangeArrayAppend None slot = Ret a /\ holds_ranges a rs /\ canon 0 rs /\ rs <> [] /\ slots_of rs = [slot].
Proof.
  intros Hs. unfold slotRangeArrayAppend. rewrite (wrapu_id 16) by (unfold CLUSTER_SLOTS in *; lia). destruct (create_holds 4 ltac:(lia)) as (_ & [tail Er] & Hb).
  change (Z.to_nat 4) with 4%nat in Er. cbn [replicate app] in Er. pose proof Hb as Hb'. rewrite Er in Hb' |- *. match goal with |- context [wr (?x :: ?l) 0 ?y] => assert (wr (x :: l) 0 y = Ret (y :: l)) as -> by by apply (wr_at []) end. rewrite ret_bind.
  eexists _, [_]. split; [reflexivity|]. split; [|split; [|split; [done|]]].
  - split; [done|]. cbn [ranges block set_num set_ranges app]. split; [by eexists|]. rewrite <- Hb'. done.
  - cbn. lia.
  - unfold slots_of, slots_in. cbn. by rewrite Z.sub_diag.
Qed.

Lemma filter_snoc (f : Z -> bool) l x : List.filter f (l ++ [x]) = if f x then List.filter f l ++ [x] else List.filter f l.
Proof. rewrite List.filter_app. cbn. destruct (f x); [done|]. by rewrite app_nil_r. Qed.

Lemma elem_filter (f : Z -> bool) l x : x ∈ List.filter f l -> x ∈ l.
Proof. rewrite !list_elem_of_In, filter_In. tauto. Qed.

(** What the bitmap says of a slot. *)
Definition slot_bit (bitmap : list Z) (slot : Z) : bool := Z.testbit (nth (Z.to_nat (slot / 8)) bitmap 0) (slot mod 8).

Lemma bitmapTestBit_spec bitmap pos : 0 <= pos < 8 * Zlen bitmap -> bitmapTestBit bitmap pos = Ret (slot_bit bitmap pos).
Proof.
  intros Hp. unfold bitmapTestBit, slot_bit. rewrite Z.quot_div_nonneg by lia. change 7 with (Z.ones 3). rewrite Z.land_ones by done. change (2 ^ 3) with 8.
  assert (0 <= pos / 8 < Zlen bitmap) as Hd by (pose proof (Z.div_mod pos 8); pose proof (Z.mod_pos_bound pos 8); lia).
  destruct (rd_ok bitmap (pos / 8) Hd) as [b Eb]. rewrite Eb, ret_bind. apply rd_Ret_inv in Eb as [_ El]. rewrite (nth_lookup_Some _ _ 0 _ El). f_equal.
  rewrite Z.shiftl_1_l. pose proof (Z.mod_pos_bound pos 8 ltac:(lia)) as Hm. destruct (Z.testbit b (pos mod 8)) eqn:E.
  - apply negb_true_iff, Z.eqb_neq. intros E0. assert (Z.testbit (Z.land b (2 ^ (pos mod 8))) (pos mod 8) = true) as Ht; [|by rewrite E0, Z.bits_0 in Ht].
    rewrite Z.land_spec, E, Z.pow2_bits_true by lia. done.
  - apply negb_false_iff, Z.eqb_eq. apply Z.bits_inj'. intros k Hk. rewrite Z.land_spec, Z.bits_0, Z.pow2_bits_eqb by lia.
    destruct (Z.eqb_spec (pos mod 8) k) as [<-|]; [by rewrite E|apply andb_false_r].
Qed.

Lemma node_loop_spec node n (covers := slot_bit (node_slots node)) : 8 * Zlen (node_slots node) = CLUSTER_SLOTS -> forall slots i, 0 <= i -> i + Z.of_nat n <= CLUSTER_SLOTS ->
  match slots with
  | None => List.filter covers (seqZ 0 i) = []
  | Some a => exists rs, holds_ranges a rs /\ canon 0 rs /\ rs <> [] /\ slots_of rs = List.filter covers (seqZ 0 i)
  end ->
  exists slots', node_loop n node slots i = Ret slots' /\
    match slots' with
    | None => List.filter covers (seqZ 0 (i + Z.of_nat n)) = []
    | Some a => exists rs, holds_ranges a rs /\ canon 0 rs /\ rs <> [] /\ slots_of rs = List.filter covers (seqZ 0 (i + Z.of_nat n))
    end.
Proof.
  intros Hsize. induction n as [|n IH]; intros slots i Hi Hb Hs; [exists slots; by rewrite Z.add_0_r|]. cbn [node_loop].
  unfold clusterNodeCoversSlot. rewrite bitmapTestBit_spec, ret_bind by lia. fold (covers i).
  assert (seqZ 0 (i + 1) = seqZ 0 i ++ [i]) as Esq by (rewrite seqZ_app by lia; done). pose proof (filter_snoc covers (seqZ 0 i) i) as Ef. rewrite <- Esq in Ef.
  replace (i + Z.of_nat (S n)) with (i + 1 + Z.of_nat n) by lia. destruct (covers i); [|rewrite ret_bind; apply IH; [lia..|]; by rewrite Ef].
  destruct slots as [a|].
  - destruct Hs as (rs & Ha & Hc & Hne & Es). destruct (append_spec a rs i Ha Hc Hne) as (a' & rs' & E & Ha' & Hc' & Hne' & Es'); [|lia|].
    + intros x Hx. rewrite Es in Hx. apply elem_filter, elem_of_seqZ in Hx. lia.
    + rewrite E, !ret_bind. apply IH; [lia..|]. exists rs'. split; [done|]. split; [done|]. split; [done|]. by rewrite Es', Es, Ef.
  - destruct (append_first i) as (a' & rs' & E & Ha' & Hc' & Hne' & Es'); [lia|]. rewrite E, !ret_bind. apply IH; [lia..|]. exists rs'.
    split; [done|]. split; [done|]. split; [done|]. by rewrite Es', Ef, Hs.
Qed.

Lemma contains_loop_spec rs slot : forall pre tail i, i = Zlen pre -> exists b, contains_loop (length rs) (pre ++ rs ++ tail) slot i = Ret b /\ (b = true <-> slot ∈ slots_of rs).
Proof.
  induction rs as [|r rs IH]; intros pre tail i ->; [exists false; split; [done|]; split; [done|by intros ?%elem_of_nil]|]. cbn [length contains_loop app].
  rewrite rd_at, ret_bind, slots_cons by done. destruct ((start r <=? slot) && (slot <=? end_ r)) eqn:E.
  - exists true. split; [done|]. split; [|done]. intros _. apply elem_of_app. left. apply elem_slots_in. lia.
  - destruct (IH (pre ++ [r]) tail (Zlen pre + 1)) as (b & Eb & Hb); [rewrite Zlen_app; done|]. rewrite <- app_assoc in Eb. exists b. split; [exact Eb|].
    rewrite Hb. split; [intros Hx; apply elem_of_app; by right|]. intros [Hx|Hx]%elem_of_app; [apply elem_slots_in in Hx; lia|done].
Qed.

(** The loop of a trim job: [slot] is the current slot, the slots it worked on. *)
Fixpoint drain (fuel : nat) (slots : slotRangeArray) (it : slotRangeArrayIter) (slot : Z) : outcome (list Z) :=
  if slot =? -1 then Ret [] else
  match fuel with
  | O => OutOfFuel
  | S fuel => '(it, slot') ← slotRangeArrayNext slots it; rest ← drain fuel slots it slot'; Ret (slot :: rest)
  end.

Lemma next_within a pre r tail c : ranges a = pre ++ r :: tail -> Zlen pre < num_ranges a -> c < end_ r ->
  slotRangeArrayNext a {| range_index := Zlen pre; cur_slot := c |} = Ret ({| range_index := Zlen pre; cur_slot := c + 1 |}, c + 1).
Proof.
  intros Er Hn Hc. unfold slotRangeArrayNext. cbn [range_index cur_slot]. rewrite (proj2 (Z.leb_gt _ _)), Er, (rd_at pre r _ (Zlen pre)), ret_bind by done.
  by rewrite (proj2 (Z.ltb_lt _ _)), ret_bind by lia.
Qed.

Lemma next_range a pre r q tail c : ranges a = pre ++ r :: q :: tail -> Zlen pre + 1 < num_ranges a -> end_ r <= c ->
  slotRangeArrayNext a {| range_index := Zlen pre; cur_slot := c |} = Ret ({| range_index := Zlen pre + 1; cur_slot := start q |}, start q).
Proof.
  intros Er Hn Hc. unfold slotRangeArrayNext. cbn [range_index cur_slot]. rewrite (proj2 (Z.leb_gt _ _)), Er, (rd_at pre r _ (Zlen pre)), ret_bind by (done || lia).
  rewrite (proj2 (Z.ltb_ge _ _)) by lia. rewrite (proj2 (Z.ltb_lt _ _)) by lia.
  assert (rd (pre ++ r :: q :: tail) (Zlen pre + 1) = Ret q) as ->; [|done].
  replace (pre ++ r :: q :: tail) with ((pre ++ [r]) ++ q :: tail) by (by rewrite <- app_assoc). apply rd_at. by rewrite Zlen_app.
Qed.

Lemma iter_end a pre r tail c : ranges a = pre ++ r :: tail -> Zlen pre + 1 = num_ranges a -> end_ r <= c ->
  slotRangeArrayNext a {| range_index := Zlen pre; cur_slot := c |} = Ret ({| range_index := Zlen pre + 1; cur_slot := -1 |}, -1).
Proof.
  intros Er Hn Hc. unfold slotRangeArrayNext. cbn [range_index cur_slot]. rewrite (proj2 (Z.leb_gt _ _)), Er, (rd_at pre r _ (Zlen pre)), ret_bind by (done || lia).
  rewrite (proj2 (Z.ltb_ge _ _)) by lia. by rewrite (proj2 (Z.ltb_ge (Zlen pre + 1) _)) by lia.
Qed.

Lemma drain_round a it slot it' slot' rest fuel : slot <> -1 -> slotRangeArrayNext a it = Ret (it', slot') -> drain fuel a it' slot' = Ret rest ->
  drain (S fuel) a it slot = Ret (slot :: rest).
Proof. intros Hs E Ed. cbn [drain]. by rewrite (proj2 (Z.eqb_neq _ _) Hs), E, ret_bind, Ed, ret_bind. Qed.

(** From the slot [c] of the range [r], [k] slots before its end. *)
Lemma drain_spec a rest : forall pre r tail, ranges a = pre ++ r :: rest ++ tail -> num_ranges a = Zlen pre + 1 + Zlen rest -> proper r -> Forall proper rest ->
  forall k c fuel, start r <= c -> c = end_ r - Z.of_nat k -> (k + length (slots_of rest) < fuel)%nat ->
  drain fuel a {| range_index := Zlen pre; cur_slot := c |} c = Ret (seqZ c (Z.of_nat k + 1) ++ slots_of rest).
Proof.
  induction rest as [|q rest IHr]; intros pre r tail Er Hn Hr Hrest; unfold proper in Hr;
    induction k as [|k IHk]; intros c fuel Hc Hk Hf; (destruct fuel as [|fuel]; [lia|]); pose proof (Zlen_nonneg pre).
  - apply (drain_round _ _ _ {| range_index := Zlen pre + 1; cur_slot := -1 |} (-1) []); [lia| |by destruct fuel].
    apply (iter_end _ _ _ _ _ Er); [rewrite Hn; change (Zlen []) with 0; lia|lia].
  - rewrite seqZ_cons by lia. cbn [app]. eapply drain_round; [lia|apply (next_within _ _ _ _ _ Er); [rewrite Hn; change (Zlen []) with 0; lia|lia]|].
    rewrite IHk by lia. by replace (Z.succ c) with (c + 1) by lia; replace (Z.pred (Z.of_nat (S k) + 1)) with (Z.of_nat k + 1) by lia.
  - apply list.Forall_cons in Hrest as [Hq Hrest]. pose proof (Zlen_nonneg rest). rewrite Zlen_cons in Hn.
    eapply drain_round; [lia|apply (next_range _ _ _ _ _ _ Er); lia|]. pose proof Hq as Hq'. unfold proper in Hq'.
    rewrite slots_cons, length_app in Hf. unfold slots_in in Hf. rewrite length_seqZ in Hf.
    replace (Zlen pre + 1) with (Zlen (pre ++ [r])) by (rewrite Zlen_app; done).
    rewrite (IHr (pre ++ [r]) q tail) with (k := Z.to_nat (end_ q - start q)); [|by rewrite Er, <- app_assoc|rewrite Zlen_app; change (Zlen [r]) with 1; lia|done|done|lia..].
    rewrite slots_cons. unfold slots_in. do 3 f_equal. lia.
  - rewrite seqZ_cons by lia. cbn [app]. eapply drain_round; [lia|apply (next_within _ _ _ _ _ Er); [rewrite Hn, Zlen_cons; pose proof (Zlen_nonneg rest); lia|lia]|].
    rewrite IHk by lia. by replace (Z.succ c) with (c + 1) by lia; replace (Z.pred (Z.of_nat (S k) + 1)) with (Z.of_nat k + 1) by lia.
Qed.

(** ** Text *)

Section text.
Context `{AllocFits}.

Definition text_of_range (r : slotRange) : list Z := dec (start r) ++ 45 :: dec (end_ r).
Definition text_of_ranges (rs : list slotRange) : list Z := join_ref [32] (map text_of_range rs).

Lemma text_all rs : rs <> [] -> concat (map (fun r => text_of_range r ++ [32]) rs) = text_of_ranges rs ++ [32].
Proof.
  unfold text_of_ranges. induction rs as [|r [|q rs] IH]; intros Hne; [done|by cbn; rewrite app_nil_r|].
  change (join_ref [32] (map text_of_range (r :: q :: rs))) with (text_of_range r ++ [32] ++ join_ref [32] (map text_of_range (q :: rs))).
  cbn [map concat] in *. rewrite IH by done. by rewrite <- !app_assoc.
Qed.

Lemma print_loop_spec rs : forall pre tail s bs i, i = Zlen pre -> sds_rep s bs -> Zlen bs + Zlen (concat (map (fun r => text_of_range r ++ [32]) rs)) < 2 ^ 31 ->
  exists s', print_loop (length rs) (pre ++ rs ++ tail) s i = Ret s' /\ sds_rep s' (bs ++ concat (map (fun r => text_of_range r ++ [32]) rs)).
Proof.
  induction rs as [|r rs IH]; intros pre tail s bs i -> Hs Hb; [exists s; cbn; by rewrite app_nil_r|]. cbn [map concat] in Hb. rewrite Zlen_app in Hb.
  pose proof (Zlen_nonneg (concat (map (fun r => text_of_range r ++ [32]) rs))). cbn [length print_loop app]. rewrite (rd_at pre r _ (Zlen pre)), ret_bind by done.
  assert (dec (start r) ++ 45 :: dec (end_ r) ++ [32] = text_of_range r ++ [32]) as -> by (unfold text_of_range; by rewrite <- app_assoc).
  pose proof (Zlen_nonneg bs). destruct (sdscatprintf_spec s bs [37; 100; 45; 37; 100; 32] (text_of_range r ++ [32]) Hs) as (s1 & E1 & Hs1); [done|lia..|]. rewrite E1, ret_bind. unfold deref. rewrite ret_bind.
  destruct (IH (pre ++ [r]) tail s1 _ (Zlen pre + 1) ltac:(by rewrite Zlen_app) Hs1) as (s' & E & Hs'); [rewrite Zlen_app; lia|].
  rewrite <- app_assoc in E. exists s'. split; [exact E|]. by rewrite <- app_assoc in Hs'.
Qed.

Lemma drop_last_spec s bs c : sds_rep s (bs ++ [c]) ->
  exists s1 s', sdssetlen s (Zlen (bs ++ [c]) - 1) = Ret s1 /\ sdslen s1 = Ret (Zlen bs) /\ s_put s1 (Zlen bs) 0 = Ret s' /\ sds_rep s' bs.
Proof.
  intros (type & alloc & fl & data & -> & Hok & Hp & Ha & Hb). rewrite Zlen_snoc in *. replace (Zlen bs + 1 - 1) with (Zlen bs) by lia.
  pose proof (Zlen_nonneg bs). pose proof (ok_len _ _ _ _ Hok).
  destruct (set_contents type (Zlen bs + 1) alloc fl data bs Hok) as (s' & _ & E & Hwf); [|lia|done|done|].
  { rewrite <- app_assoc in Hp. by apply prefix_trim in Hp. }
  rewrite (sdssetlen_ok _ _ _ _ _ Hok), ret_bind in E. eexists _, s'. split; [apply (sdssetlen_ok _ _ _ _ _ Hok)|]. split; [|split; [exact E|by eexists _, _]].
  fold (five_flags type (Zlen bs) fl). rewrite hdr_bytes_five. apply sdslen_ok. apply (hdr_ok_setlen _ _ _ _ _ Hok). lia.
Qed.

Lemma toString_spec a rs : holds_ranges a rs -> rs <> [] -> Zlen (text_of_ranges rs) < 2 ^ 30 ->
  exists s, slotRangeArrayToString (Some a) = Ret s /\ sds_rep s (text_of_ranges rs).
Proof.
  intros (Hn & [tail Er] & _) Hne Hb. unfold slotRangeArrayToString. destruct sdsempty_spec as (s0 & E0 & Hs0). rewrite E0, ret_bind, Hn.
  assert (0 < Zlen rs) by (destruct rs as [|r rs]; [done|rewrite Zlen_cons; pose proof (Zlen_nonneg rs); lia]). rewrite (proj2 (Z.eqb_neq _ 0)) by lia.
  destruct (print_loop_spec rs [] tail s0 [] 0) as (s1 & E1 & Hs1); [done|done|rewrite text_all, Zlen_app by done; change (Zlen [32]) with 1; rewrite Zlen_nil; lia|].
  cbn [app] in E1, Hs1. replace (Z.to_nat (Zlen rs)) with (length rs) by (unfold Zlen; lia). rewrite Er, E1, ret_bind. rewrite text_all in Hs1 by done.
  rewrite (rep_len _ _ Hs1), ret_bind. destruct (drop_last_spec _ _ _ Hs1) as (s2 & s' & E2 & El & E3 & Hs'). rewrite E2, ret_bind, El, ret_bind. by exists s'.
Qed.

Lemma dec_plain v : 0 <= v -> Forall (fun c => 48 <= c <= 57) (dec v).
Proof.
  intros Hv. unfold dec. rewrite (proj2 (Z.ltb_ge v 0)) by done. by apply decimal_digits.
Qed.

Lemma find_dash_app l r : Forall (fun c => 48 <= c <= 57) l -> find_dash (l ++ 45 :: r) = Some (length l).
Proof.
  induction 1 as [|c l Hc _ IH]; [done|]. cbn [app find_dash length]. rewrite (proj2 (Z.eqb_neq c 45)), (proj2 (Z.eqb_neq c 0)), IH by lia. done.
Qed.

Lemma parse_text r : typed r -> parse_range (text_of_range r) = Some (start r, end_ r).
Proof.
  intros [Hs He]. unfold parse_range, text_of_range. rewrite find_dash_app by (apply dec_plain; lia). cbn [mbind option_bind].
  rewrite take_app_length. rewrite string2ll_dec by (unfold INT64_MIN, INT64_MAX; lia). cbn [mbind option_bind].
  replace (drop (S (length (dec (start r)))) (dec (start r) ++ 45 :: dec (end_ r))) with (dec (end_ r)).
  - rewrite string2ll_dec by (unfold INT64_MIN, INT64_MAX; lia). done.
  - change (dec (start r) ++ 45 :: dec (end_ r)) with (dec (start r) ++ [45] ++ dec (end_ r)). rewrite app_assoc.
    rewrite drop_app_length'; [done|]. rewrite length_app. cbn. lia.
Qed.

Lemma set_typed s e : typed {| start := u16 (s32 s); end_ := u16 (s32 e) |}.
Proof. split; cbn [start end_]; apply wrapu_range; lia. Qed.

(** The loop over any tokens fills the cells or gives up. *)
Lemma parse_loop_spec parts : forall texts a pre gap i, Forall2 sds_rep parts texts -> ranges a = pre ++ gap -> i = Zlen pre -> (length parts <= length gap)%nat -> Forall typed pre ->
  exists r, parse_loop parts a i = Ret r /\
    match r with
    | None => exists t, t ∈ texts /\ parse_range t = None
    | Some a' => exists rs, ranges a' = pre ++ rs ++ drop (length parts) gap /\ num_ranges a' = num_ranges a /\ block a' = block a /\ length rs = length parts /\ Forall typed rs /\
        Forall2 (fun t r => match parse_range t with Some (s, e) => r = {| start := u16 (s32 s); end_ := u16 (s32 e) |} | None => False end) texts rs
    end.
Proof.
  induction parts as [|part parts IH]; intros texts a pre gap i Hp Er -> Hg Ht; inversion Hp as [|? t ? texts' Hpt Hp']; subst; clear Hp.
  - exists (Some a). split; [done|]. exists []. by rewrite drop_0.
  - destruct gap as [|g gap]; cbn [length] in Hg; [lia|]. cbn [parse_loop]. rewrite (rep_bytes _ _ Hpt), ret_bind. destruct (parse_range t) as [[s e]|] eqn:Ep.
    2: { exists None. split; [done|]. exists t. split; [apply list_elem_of_here|done]. }
    unfold slotRangeArraySet at 1. rewrite Er, (wr_at pre g _ gap) by done. rewrite !ret_bind. set (q := {| start := u16 (s32 s); end_ := u16 (s32 e) |}).
    destruct (IH texts' (set_ranges a (pre ++ q :: gap)) (pre ++ [q]) gap (Zlen pre + 1)) as (r & E & Hr); [done|cbn [ranges set_ranges]; by rewrite <- app_assoc|by rewrite Zlen_app|lia| |].
    { apply list.Forall_app_2; [done|]. apply list.Forall_singleton, set_typed. }
    exists r. split; [exact E|]. destruct r as [a'|].
    + destruct Hr as (rs & Er' & Hn & Hb & Hl & Hty & Hf). exists (q :: rs). rewrite <- app_assoc in Er'. cbn [length drop]. split; [exact Er'|]. split; [exact Hn|]. split; [exact Hb|].
      split; [lia|]. split; [constructor; [apply set_typed|done]|]. constructor; [by rewrite Ep|done].
    + destruct Hr as (t' & Ht' & Hp). exists t'. split; [by apply list_elem_of_further|done].
Qed.

Lemma validate_any a rs : holds_ranges a rs -> Forall typed rs ->
  exists a' e, slotRangeArrayNormalizeAndValidate a = Ret (a', e) /\
    (e = None -> exists rs', holds_ranges a' rs' /\ canon 0 rs' /\ rs' <> [] /\ Forall valid_range rs').
Proof.
  intros Ha Ht. destruct (decide (0 < Zlen rs < CLUSTER_SLOTS)) as [Hl|Hl].
  - destruct (validate_spec a rs Ha Ht Hl) as (a' & e & E & Ha' & _ & He). exists a', e. split; [done|]. intros He0. apply He in He0 as [Hv Hn].
    assert (Forall proper (normal (sorted rs))) as Hp by (eapply list.Forall_impl; [exact Hv|]; by intros r [? _]).
    exists (normal (sorted rs)). split; [done|]. split; [|split; [|done]].
    + apply normal_canon; [done|done|]. destruct (normal (sorted rs)) as [|r l]; [done|]. apply list.Forall_cons in Hp as [Hr _]. unfold proper in Hr. lia.
    + pose proof (Zlen_perm _ _ (sorted_perm rs)) as El. destruct (sorted rs) as [|r l]; [rewrite Zlen_nil in El; lia|]. cbn [normal].
      destruct (merged_head l r) as (q & l' & -> & _). done.
  - pose proof Ha as (Hn & _). unfold slotRangeArrayNormalizeAndValidate. rewrite Hn.
    assert ((Zlen rs <=? 0) || (CLUSTER_SLOTS <=? Zlen rs) = true) as -> by lia. by eexists _, _.
Qed.

(** What the parser makes of the tokens of a text. *)
Lemma fromString_parse s bs : sds_rep s bs -> bs <> [] -> Zlen bs < 2 ^ 60 ->
  exists a, 0 < Zlen (split_ref [32] 0 [] bs) /\
  (exists rs, holds_ranges a rs /\ Forall typed rs /\
    Forall2 (fun t r => match parse_range t with Some (s, e) => r = {| start := u16 (s32 s); end_ := u16 (s32 e) |} | None => False end) (split_ref [32] 0 [] bs) rs /\
    slotRangeArrayFromString (Some s) = ('(slots, err) ← slotRangeArrayNormalizeAndValidate a; match err with None => Ret (Some slots) | Some _ => Ret None end)) \/
  (slotRangeArrayFromString (Some s) = Ret None /\ exists t, t ∈ split_ref [32] 0 [] bs /\ parse_range t = None).
Proof.
  intros Hs Hne Hb. unfold slotRangeArrayFromString. rewrite (rep_len _ _ Hs), ret_bind.
  assert (0 < Zlen bs) by (destruct bs as [|c bs]; [done|rewrite Zlen_cons; pose proof (Zlen_nonneg bs); lia]). rewrite (proj2 (Z.eqb_neq _ 0)), (rep_bytes _ _ Hs), ret_bind by lia.
  destruct (sdssplitlen_spec bs [32] ltac:(done) Hne Hb) as (parts & E & Hparts). rewrite E, ret_bind. pose proof (Forall2_length Hparts) as El.
  pose proof (create_holds (Zlen parts) (Zlen_nonneg _)) as (Hn & [tail Er] & Hblk). set (z := replicate _ _) in *.
  destruct (parse_loop_spec parts (split_ref [32] 0 [] bs) (slotRangeArrayCreate (Zlen parts)) [] (z ++ tail) 0 Hparts Er eq_refl) as (r & Ep & Hr); [unfold z; rewrite length_app, length_replicate; unfold Zlen; lia|constructor|].
  rewrite Ep, ret_bind. assert (0 < Zlen (split_ref [32] 0 [] bs)) as Hpos.
  { destruct (split_ref [32] 0 [] bs) as [|t l] eqn:Es; [by apply split_ref_ne in Es|]. rewrite Zlen_cons. pose proof (Zlen_nonneg l). lia. }
  destruct r as [a|]; [|exists (slotRangeArrayCreate 0); right; split; [done|exact Hr]]. destruct Hr as (rs & Er' & Hn' & Hb' & Hl & Hty & Hf). exists a. left.
  split; [done|]. exists rs. split; [|split; [done|split; [done|done]]]. cbn [app] in Er'. split; [rewrite Hn'; cbn; unfold Zlen; lia|]. split; [by eexists|].
  rewrite Hb', <- Hblk, Er', Er. unfold z, Zlen. rewrite !length_app, length_drop, length_app, length_replicate. unfold Zlen. lia.
Qed.
End text.
End ops.

(** ** Properties *)

(** C27. Validation accepts a list of ranges exactly when they are in range and
    disjoint, and leaves the set of their slots in its canonical form: for any
    ranges whose starts are not above their ends, the call returns without leaving
    the array or the map of used slots; there is no error if and only if every
    range ends below 16384 and no slot is in two of them; then the array is sorted,
    with a gap between any two ranges, and has the same slots. A range whose start
    is above its end is not always refused: the ranges 1-5 and 6-2 are merged first,
    and accepted as 1-2. *)
Theorem slotRangeArrayNormalizeAndValidate_correct `{SlotEnv} :
  (forall a rs, holds_ranges a rs -> Forall typed rs -> Forall proper rs -> 0 < Zlen rs < CLUSTER_SLOTS ->
    exists a' e, slotRangeArrayNormalizeAndValidate a = Ret (a', e) /\
      (e = None <-> Forall (fun r => end_ r < CLUSTER_SLOTS) rs /\ NoDup (slots_of rs)) /\
      (e = None -> exists rs', holds_ranges a' rs' /\ canon 0 rs' /\ slots_of rs' ≡ₚ slots_of rs)) /\
  (exists a, holds_ranges a [ {| start := 1; end_ := 5 |}; {| start := 6; end_ := 2 |} ] /\
    exists a', slotRangeArrayNormalizeAndValidate a = Ret (a', None) /\ holds_ranges a' [ {| start := 1; end_ := 2 |} ]).
Proof.
  split.
  - intros a rs Ha Ht Hp Hl. destruct (validate_spec a rs Ha Ht Hl) as (a' & e & E & Ha' & _ & He). exists a', e. split; [done|].
    rewrite (normal_well_formed rs Hp Ht) in He. destruct (normal_slots rs Hp) as [Es Hp'].
    assert (Forall valid_range rs <-> Forall (fun r => end_ r < CLUSTER_SLOTS) rs) as Hv.
    { rewrite !list.Forall_forall. rewrite list.Forall_forall in Hp. split; intros H1 r Hr; [apply (H1 r Hr)|split; [by apply Hp|by apply H1]]. }
    unfold well_formed in He. rewrite Hv in He. split; [exact He|]. intros [_ Hn]%He. exists (normal (sorted rs)). split; [done|]. split; [|done].
    apply normal_canon; [done|by rewrite Es|]. destruct (normal (sorted rs)) as [|r l]; [done|]. apply list.Forall_cons in Hp' as [Hr _]. unfold proper in Hr. lia.
  - set (rs := [ {| start := 1; end_ := 5 |}; {| start := 6; end_ := 2 |} ]). exists {| num_ranges := 2; ranges := rs; block := 12 |}.
    assert (holds_ranges {| num_ranges := 2; ranges := rs; block := 12 |} rs) as Ha by (split; [done|split; [by exists []|done]]). split; [done|].
    assert (Forall typed rs) as Ht by (repeat constructor; cbn; lia).
    destruct (validate_spec _ rs Ha Ht ltac:(done)) as (a' & e & E & Ha' & _ & He).
    assert (normal (sorted rs) = [ {| start := 1; end_ := 2 |} ]) as En.
    { rewrite sorted_id; [done|unfold rs; repeat constructor; unfold by_start; cbn; lia|]. unfold rs. intros x y. rewrite !elem_of_cons, !elem_of_nil. intros [->|[->|[]]] [->|[->|[]]]; done. }
    rewrite En in *. exists a'. rewrite E. assert (e = None) as -> by (apply He; split; [repeat constructor; cbn; lia|apply (bool_decide_unpack _); vm_compute; exact I]). done.
Qed.

(** Two valid arrays compare equal exactly when they are the same set of slots,
    in whatever order and pieces their ranges are. *)
Theorem slotRangeArrayIsEqual_correct `{SlotEnv} a1 a2 rs1 rs2 : holds_ranges a1 rs1 -> holds_ranges a2 rs2 -> well_formed rs1 -> well_formed rs2 ->
  exists b a1' a2', slotRangeArrayIsEqual a1 a2 = Ret (b, a1', a2') /\ (b = true <-> forall n, n ∈ slots_of rs1 <-> n ∈ slots_of rs2).
Proof.
  intros Ha1 Ha2 [Hv1 Hn1] [Hv2 Hn2]. unfold slotRangeArrayIsEqual. destruct (sort_merge_spec a1 rs1 Ha1) as (a1' & E1 & Ha1' & _). rewrite E1, ret_bind.
  destruct (sort_merge_spec a2 rs2 Ha2) as (a2' & E2 & Ha2' & _). rewrite E2, ret_bind.
  assert (forall rs, Forall valid_range rs -> NoDup (slots_of rs) -> canon 0 (normal (sorted rs)) /\ forall n, n ∈ slots_of rs <-> n ∈ slots_of (normal (sorted rs))) as Hc.
  { intros rs Hv Hn. assert (Forall proper rs) as Hp by (eapply list.Forall_impl; [exact Hv|]; by intros r [? _]). destruct (normal_slots rs Hp) as [Es Hp']. split; [|by intros n; rewrite Es].
    apply normal_canon; [done|by rewrite Es|]. destruct (normal (sorted rs)) as [|r l]; [done|]. apply list.Forall_cons in Hp' as [Hr _]. unfold proper in Hr. lia. }
  destruct (Hc rs1 Hv1 Hn1) as [Hc1 Hs1]. destruct (Hc rs2 Hv2 Hn2) as [Hc2 Hs2]. clear Hc. setoid_rewrite Hs1. setoid_rewrite Hs2.
  destruct Ha1' as (-> & [t1 ->] & _). destruct Ha2' as (-> & [t2 ->] & _). set (m1 := normal (sorted rs1)) in *. set (m2 := normal (sorted rs2)) in *.
  assert (m1 = m2 <-> forall n, n ∈ slots_of m1 <-> n ∈ slots_of m2) as Hiff by (split; [by intros ->|by apply (canon_unique m1 m2 0)]). setoid_rewrite <- Hiff. clear - Hiff.
  destruct (Z.eqb_spec (Zlen m1) (Zlen m2)) as [El|El]; cbn [negb]; [|exists false, a1', a2'; split; [done|]; split; [done|]; by intros ->].
  assert (exists b, equal_loop (length m1) (m1 ++ t1) (m2 ++ t2) 0 = Ret b /\ (b = true <-> m1 = m2)) as (b & E & Hb).
  { clear Hiff. assert (forall l1 l2 p1 p2 i, length l1 = length l2 -> i = Zlen p1 -> i = Zlen p2 ->
      exists b, equal_loop (length l1) (p1 ++ l1 ++ t1) (p2 ++ l2 ++ t2) i = Ret b /\ (b = true <-> l1 = l2)) as Hgen; [|by apply (Hgen m1 m2 [] []); [unfold Zlen in El; lia|..]].
    induction l1 as [|x l1 IH]; intros [|y l2] p1 p2 i Hl Hi1 Hi2; cbn [length] in Hl; try lia; [by exists true|]. cbn [length equal_loop app].
    rewrite (rd_at p1 x), ret_bind, (rd_at p2 y), ret_bind by done. destruct (Z.eqb_spec (start x) (start y)) as [Es|Es]; cbn [negb orb];
      [|exists false; split; [done|]; split; [done|]; intros [= -> ->]; done].
    destruct (Z.eqb_spec (end_ x) (end_ y)) as [Ee|Ee]; cbn [negb]; [|exists false; split; [done|]; split; [done|]; intros [= -> ->]; done].
    destruct (IH l2 (p1 ++ [x]) (p2 ++ [y]) (i + 1)) as (b & E & Hb); [lia|rewrite Zlen_app; change (Zlen [x]) with 1; lia|rewrite Zlen_app; change (Zlen [y]) with 1; lia|].
    rewrite <- !app_assoc in E. exists b. split; [exact E|]. rewrite Hb. assert (x = y) as -> by (destruct x, y; cbn in *; congruence). split; [by intros ->|by intros [= ->]]. }
  exists b, a1', a2'. replace (Z.to_nat (Zlen m1)) with (length m1) by (unfold Zlen; lia). by rewrite E, ret_bind.
Qed.

(** C26. The slot ranges of a node are its slots, a replica's those of the master at
    the end of its chain: whatever the bitmap of that master says, building the
    array slot by slot returns, for any allocator, an array in canonical form whose
    slots are those of the bitmap; a search finds exactly them, and the iterator of
    a trim job visits each of them once, in order, before it answers -1. Without
    cluster mode, or for no node, the assertion fails. *)
Theorem clusterGetNodeSlotRanges_correct `{SlotEnv} node (master := clusterNodeGetMaster node) (covers := slot_bit (node_slots master)) :
  8 * Zlen (node_slots master) = CLUSTER_SLOTS ->
  (exists a rs, clusterGetNodeSlotRanges true (Some node) = Ret a /\ holds_ranges a rs /\ canon 0 rs /\
    slots_of rs = List.filter covers (seqZ 0 CLUSTER_SLOTS) /\
    (forall slot, exists b, slotRangeArrayContains a slot = Ret b /\ (b = true <-> 0 <= slot < CLUSTER_SLOTS /\ covers slot = true)) /\
    (exists it, slotRangeArrayGetIterator a = Ret it /\
      drain (S (length (slots_of rs))) a it (slotRangeArrayGetCurrentSlot it) = Ret (slots_of rs))) /\
  (forall enabled, clusterGetNodeSlotRanges enabled None = AssertFail) /\ clusterGetNodeSlotRanges false (Some node) = AssertFail.
Proof.
  intros Hsize. split; [|done].
  assert (exists a rs, clusterGetNodeSlotRanges true (Some node) = Ret a /\ holds_ranges a rs /\ canon 0 rs /\ slots_of rs = List.filter covers (seqZ 0 CLUSTER_SLOTS)) as (a & rs & E & Ha & Hc & Es).
  { unfold clusterGetNodeSlotRanges. unfold c_assert at 1. rewrite ret_bind. destruct (node_loop_spec master (Z.to_nat CLUSTER_SLOTS) Hsize None 0) as (slots & E & Hs); [done|done|done|]. fold master. rewrite E, ret_bind.
    change (0 + Z.of_nat (Z.to_nat CLUSTER_SLOTS)) with CLUSTER_SLOTS in Hs. destruct slots as [a|].
    - destruct Hs as (rs & Ha & Hc & _ & Es). by exists a, rs.
    - exists (slotRangeArrayCreate 0), []. split; [done|]. split; [apply (create_holds 0); lia|]. split; [done|exact (eq_sym Hs)]. }
  exists a, rs. split; [done|]. split; [done|]. split; [done|]. split; [done|]. destruct Ha as (Hn & [tail Er] & _). split.
  - intros slot. unfold slotRangeArrayContains. rewrite Hn, Er. destruct (contains_loop_spec rs slot [] tail 0) as (b & Eb & Hb); [done|]. cbn [app] in Eb.
    exists b. replace (Z.to_nat (Zlen rs)) with (length rs) by (unfold Zlen; lia). split; [done|]. rewrite Hb, Es, list_elem_of_In, filter_In, <- list_elem_of_In, elem_of_seqZ. unfold CLUSTER_SLOTS. tauto.
  - unfold slotRangeArrayGetIterator. rewrite Hn, Er. destruct rs as [|r rs]; [by eexists|]. pose proof (Zlen_nonneg rs). rewrite Zlen_cons, (proj2 (Z.ltb_lt 0 _)) by lia. cbn [app].
    rewrite rd_head, !ret_bind. eexists. split; [reflexivity|]. unfold slotRangeArrayGetCurrentSlot. cbn [cur_slot].
    destruct (canon_forms _ 0 Hc ltac:(lia)) as (Hp & _). apply list.Forall_cons in Hp as [Hr Hp]. pose proof Hr as Hr'. unfold proper in Hr'. rewrite Zlen_cons in Hn.
    pose proof (drain_spec a rs [] r tail Er ltac:(rewrite Hn; reflexivity) Hr Hp (Z.to_nat (end_ r - start r)) (start r) (S (length (slots_of (r :: rs))))) as Hd.
    rewrite Zlen_nil in Hd. rewrite Hd; [|lia|lia|rewrite slots_cons, length_app; unfold slots_in; rewrite length_seqZ; lia]. rewrite slots_cons. unfold slots_in. do 3 f_equal. lia.
Qed.

(** C28. The text form of an array can be read back: every canonical array of slots is
    written and read back as the same ranges; reading returns on every text, leaves
    no buffer, and gives NULL or a non-empty array in canonical form, below 16384.
    But a number too large for its field is cut to 16 bits, not refused: the text
    65536-65537 is read as the slots 0 and 1. *)
Theorem slotRangeArray_text_roundtrip `{SlotEnv} `{AllocFits} :
  (forall a rs, holds_ranges a rs -> canon 0 rs -> Forall valid_range rs -> rs <> [] ->
    exists s, slotRangeArrayToString (Some a) = Ret s /\ s_bytes s = Ret (text_of_ranges rs) /\
    exists a', slotRangeArrayFromString (Some s) = Ret (Some a') /\ holds_ranges a' rs) /\
  (forall s bs, sds_rep s bs -> Zlen bs < 2 ^ 60 ->
    exists r, slotRangeArrayFromString (Some s) = Ret r /\
    forall a, r = Some a -> exists rs, holds_ranges a rs /\ canon 0 rs /\ rs <> [] /\ Forall valid_range rs) /\
  (forall s, sds_rep s [54; 53; 53; 51; 54; 45; 54; 53; 53; 51; 55] ->
    exists a, slotRangeArrayFromString (Some s) = Ret (Some a) /\ holds_ranges a [ {| start := 0; end_ := 1 |} ]).
Proof.
  assert (forall s bs, sds_rep s bs -> bs <> [] -> Zlen bs < 2 ^ 60 -> forall rs, Forall typed rs -> canon 0 rs -> 0 < Zlen rs < CLUSTER_SLOTS -> Forall valid_range rs ->
    Forall2 (fun t r => match parse_range t with Some (x, y) => r = {| start := u16 (s32 x); end_ := u16 (s32 y) |} | None => False end) (split_ref [32] 0 [] bs) rs ->
    exists a', slotRangeArrayFromString (Some s) = Ret (Some a') /\ holds_ranges a' rs) as Hread.
  { intros s bs Hs Hne Hb rs Ht Hc Hl Hv Hf. destruct (fromString_parse s bs Hs Hne Hb) as (a & [(_ & rs' & Ha & Hty & Hf' & E)|(_ & t & Hin & Hnone)]).
    - assert (rs' = rs) as ->.
      { clear - Hf Hf'. revert rs' Hf'. induction Hf as [|t r l rs Hr Hf IH]; intros rs' Hf'; inversion Hf' as [|? r' ? l' Hr' Hf'']; subst; [done|]. f_equal; [|by apply IH].
        destruct (parse_range t) as [[x y]|]; [by subst|done]. }
      destruct (validate_spec a rs Ha Hty Hl) as (a' & e & Ev & Ha' & _ & He). rewrite E, Ev, ret_bind. rewrite (normal_id rs 0) in Ha', He by done.
      assert (e = None) as -> by (apply He; split; [done|]; by apply (canon_forms rs 0)). by exists a'.
    - exfalso. apply list_elem_of_lookup in Hin as [i Hi]. destruct (Forall2_lookup_l _ _ _ _ _ Hf Hi) as (r & _ & Hr). by rewrite Hnone in Hr. }
  split; [|split].
  - intros a rs Ha Hc Hv Hne. assert (Forall typed rs) as Ht by (eapply list.Forall_impl; [exact Hv|]; apply valid_typed).
    assert (2 * Zlen rs <= CLUSTER_SLOTS + 1) as Hlen.
    { replace (CLUSTER_SLOTS + 1) with (CLUSTER_SLOTS - 0 + 1) by lia. apply canon_length; [done| |unfold CLUSTER_SLOTS; lia]. intros n (r & Hr & Hn)%elem_slots. rewrite list.Forall_forall in Hv. destruct (Hv r Hr). lia. }
    assert (0 < Zlen rs) as Hpos by (destruct rs as [|r l]; [done|rewrite Zlen_cons; pose proof (Zlen_nonneg l); lia]).
    assert (Forall (fun r => Zlen (text_of_range r) <= 2 * LONG_STR_SIZE + 1 /\ text_of_range r <> [] /\ 32 ∉ text_of_range r) rs) as Htext.
    { eapply list.Forall_impl; [exact Ht|]. intros r [Hs He]. unfold text_of_range. rewrite Zlen_app, Zlen_cons.
      pose proof (dec_length (start r) ltac:(unfold INT64_MIN, INT64_MAX; lia)). pose proof (dec_length (end_ r) ltac:(unfold INT64_MIN, INT64_MAX; lia)).
      split; [lia|]. split; [by destruct (dec (start r))|]. pose proof (dec_plain (start r) ltac:(lia)) as Hd1. pose proof (dec_plain (end_ r) ltac:(lia)) as Hd2.
      rewrite list.Forall_forall in Hd1, Hd2. rewrite elem_of_app, elem_of_cons. intros [Hx|[Hx|Hx]]; [specialize (Hd1 32 Hx); lia|lia|specialize (Hd2 32 Hx); lia]. }
    assert (Zlen (text_of_ranges rs) <= (2 * LONG_STR_SIZE + 2) * Zlen rs) as Hb.
    { clear - Htext. unfold text_of_ranges. induction Htext as [|r l (Hr & _) _ IH]; [done|]. destruct l as [|q l]; [cbn [map join_ref]; rewrite Zlen_cons; unfold Zlen, LONG_STR_SIZE in *; cbn [length]; lia|].
      change (join_ref [32] (map text_of_range (r :: q :: l))) with (text_of_range r ++ [32] ++ join_ref [32] (map text_of_range (q :: l))).
      unfold LONG_STR_SIZE, Zlen in *. rewrite !length_app. cbn [length] in *. lia. }
    assert (Zlen (text_of_ranges rs) < 2 ^ 30) as Hb' by (unfold LONG_STR_SIZE, CLUSTER_SLOTS in *; lia).
    destruct (toString_spec a rs Ha Hne Hb') as (s & E & Hs). exists s. split; [done|]. split; [by apply rep_bytes|].
    assert (split_ref [32] 0 [] (text_of_ranges rs) = map text_of_range rs) as Esplit.
    { apply split_join; [by destruct rs|]. apply List.Forall_map. eapply list.Forall_impl; [exact Htext|]. by intros r (_ & _ & ?). }
    apply (Hread s (text_of_ranges rs)); try done; [|lia| |].
    + intros E0. rewrite E0 in Esplit. destruct rs as [|r [|q l]]; [done| |done]. cbn in Esplit. injection Esplit as Esplit. apply list.Forall_cons in Htext as [(_ & Hne' & _) _]. by symmetry in Esplit.
    + unfold CLUSTER_SLOTS in *. lia.
    + rewrite Esplit. clear - Ht. induction Ht as [|r l Hr _ IH]; constructor; [|done]. rewrite parse_text by done. destruct Hr. rewrite !(wraps_id 32), !(wrapu_id 16) by lia. by destruct r.
  - intros s bs Hs Hb. destruct bs as [|c bs].
    { exists None. split; [|done]. unfold slotRangeArrayFromString. by rewrite (rep_len _ _ Hs), ret_bind. }
    destruct (fromString_parse s (c :: bs) Hs ltac:(done) Hb) as (a & [(_ & rs & Ha & Hty & _ & E)|(E & _)]); [|by exists None].
    destruct (validate_any a rs Ha Hty) as (a' & e & Ev & He). rewrite E, Ev, ret_bind. destruct e as [e|]; [by exists None|]. exists (Some a'). split; [done|]. intros b [= <-]. by apply He.
  - intros s Hs. apply (Hread s _ Hs); [done|done|repeat constructor; cbn; lia|cbn; lia|done|repeat constructor; cbn; lia|].
    assert (split_ref [32] 0 [] [54; 53; 53; 51; 54; 45; 54; 53; 53; 51; 55] = [ [54; 53; 53; 51; 54; 45; 54; 53; 53; 51; 55] ]) as -> by reflexivity.
    constructor; [|constructor]. reflexivity.
Qed.

(** ** Witnesses *)

#[refine] Definition demo_slots : SlotEnv := {|
  usable n := n;
  junk := {| start := 0; end_ := 0 |};
  qsort l cmp := merge_sort (fun x y => cmp x y <= 0) l;
|}.
Proof.
  - intros n. lia.
  - intros x y. exact (Z_le_dec (cmp x y) 0).
  - intros l cmp. apply merge_sort_Permutation.
  - intros l cmp Htot _. apply Sorted_merge_sort. exact Htot.
Defined.

Definition demo_array (rs : list slotRange) : slotRangeArray := {| num_ranges := Zlen rs; ranges := rs; block := 4 + 4 * Zlen rs |}.

Lemma demo_holds rs : holds_ranges (demo_array rs) rs.
Proof. split; [done|]. split; [by exists []; rewrite app_nil_r|]. cbn [ranges block demo_array]. unfold cells. rewrite Z.add_comm, Z.add_simpl_r, Z.mul_comm, Z.div_mul by lia. done. Qed.

Definition demo_pieces : list slotRange := [ {| start := 3; end_ := 4 |}; {| start := 0; end_ := 2 |} ].
Definition demo_whole : list slotRange := [ {| start := 0; end_ := 4 |} ].

Lemma demo_well_formed : well_formed demo_pieces /\ well_formed demo_whole.
Proof. split; (split; [repeat constructor; cbn; unfold CLUSTER_SLOTS; lia|apply (bool_decide_unpack _); vm_compute; exact I]). Qed.

Lemma slotRangeArrayNormalizeAndValidate_witness : exists a' e, @slotRangeArrayNormalizeAndValidate demo_slots (demo_array demo_pieces) = Ret (a', e) /\
  (e = None <-> Forall (fun r => end_ r < CLUSTER_SLOTS) demo_pieces /\ NoDup (slots_of demo_pieces)) /\
  (e = None -> exists rs', holds_ranges a' rs' /\ canon 0 rs' /\ slots_of rs' ≡ₚ slots_of demo_pieces).
Proof.
  apply (proj1 (@slotRangeArrayNormalizeAndValidate_correct demo_slots)); [apply demo_holds|repeat constructor; cbn; lia|repeat constructor; cbn; lia|].
  unfold CLUSTER_SLOTS, Zlen. cbn. lia.
Defined.

Lemma slotRangeArrayIsEqual_witness : exists b a1' a2', @slotRangeArrayIsEqual demo_slots (demo_array demo_pieces) (demo_array demo_whole) = Ret (b, a1', a2') /\
  (b = true <-> forall n, n ∈ slots_of demo_pieces <-> n ∈ slots_of demo_whole).
Proof. apply (@slotRangeArrayIsEqual_correct demo_slots); [apply demo_holds..|apply demo_well_formed|apply demo_well_formed]. Defined.

(** A replica of a master with the slots below 7 and the last one. *)
Definition demo_bitmap : list Z := 127 :: replicate 2046 0 ++ [128].
Definition demo_node : clusterNode := ClusterNode [] (Some (ClusterNode demo_bitmap None)).

Lemma clusterGetNodeSlotRanges_witness : exists a rs, @clusterGetNodeSlotRanges demo_slots true (Some demo_node) = Ret a /\ holds_ranges a rs /\ canon 0 rs /\
  slots_of rs = List.filter (slot_bit demo_bitmap) (seqZ 0 CLUSTER_SLOTS).
Proof.
  destruct (@clusterGetNodeSlotRanges_correct demo_slots demo_node ltac:(by vm_compute)) as [(a & rs & H1 & H2 & H3 & H4 & _) _].
  exists a, rs. exact (conj H1 (conj H2 (conj H3 H4))).
Defined.

Lemma slotRangeArray_text_witness : exists s, @slotRangeArrayToString exact_allocator (Some (demo_array demo_whole)) = Ret s /\ s_bytes s = Ret (text_of_ranges demo_whole) /\
  exists a', @slotRangeArrayFromString demo_slots exact_allocator (Some s) = Ret (Some a') /\ holds_ranges a' demo_whole.
Proof.
  apply (proj1 (@slotRangeArray_text_roundtrip demo_slots exact_allocator exact_fits)); [apply demo_holds|cbn; lia|apply demo_well_formed|discriminate].
Defined.
