(* ===== verification/Dict.v ===== *)
(** * dict.c: the hash table with incremental rehashing

    Two tables of chains.  A bucket is the tagged pointer of the code: NULL, a
    key stored in place of an entry (only in [no_value] dicts, and never
    followed by anything), or an allocated entry with its [next].  A pointer to
    a pointer to an entry ([dictEntryLink]) is a table, an index and a depth in
    the chain.  The callbacks of [dictType] that observe the dict
    (destructors, [rehashingStarted], [rehashingCompleted], [bucketChanged])
    append to a log; the others are fields of a record. *)

From stdpp Require Import countable sets fin_maps gmap.
From S2P Require Import Prelude Memory.

Definition DICT_HT_INITIAL_EXP : Z := 2.
Definition DICT_HT_INITIAL_SIZE : Z := Z.shiftl 1 DICT_HT_INITIAL_EXP.
Definition HASHTABLE_MIN_FILL : Z := 8.
Definition dict_force_resize_ratio : Z := 4.

Definition LONG_MAX : Z := 2 ^ 63 - 1.

(** [8*sizeof(long) - __builtin_clzl(n)] is the bit length of [n > 0]. *)
Definition clzl (n : Z) : Z := 63 - Z.log2 n.

Definition DICTHT_SIZE (exp : Z) : Z := if exp =? -1 then 0 else u64 (Z.shiftl 1 exp).
Definition DICTHT_SIZE_MASK (exp : Z) : Z := if exp =? -1 then 0 else DICTHT_SIZE exp - 1.

Inductive dictResizeEnable := DICT_RESIZE_ENABLE | DICT_RESIZE_AVOID | DICT_RESIZE_FORBID.
#[global] Instance dictResizeEnable_eq_dec : EqDecision dictResizeEnable.
Proof. solve_decision. Defined.

(** [K] is what keys are looked up by, [SK] what the dict stores, [V] the values. *)
Record dictType (K SK V : Type) := {
  hashFunction : K -> Z;
  keyDup : option (SK -> SK);
  valDup : option (V -> V);
  keyCompare : K -> K -> bool;
  keyFromStoredKey : SK -> K;
  (** The double [used/size] is given as its two operands. *)
  resizeAllowed : option (Z -> Z -> Z -> bool);
  no_value : bool;
  force_full_rehash : bool;
}.
Arguments hashFunction {K SK V}. Arguments keyDup {K SK V}. Arguments valDup {K SK V}.
Arguments keyCompare {K SK V}. Arguments keyFromStoredKey {K SK V}.
Arguments resizeAllowed {K SK V}. Arguments no_value {K SK V}. Arguments force_full_rehash {K SK V}.

(** A [dictEntry *]: the chain it starts.  [DEntry] is an allocated entry
    (its value absent in a [no_value] dict, or before it is set), [DKey] a
    tagged key. *)
Inductive dictEntry (SK V : Type) :=
| DNull
| DKey (key : SK)
| DEntry (key : SK) (v : option V) (next : dictEntry SK V).
Arguments DNull {SK V}. Arguments DKey {SK V} key. Arguments DEntry {SK V} key v next.

(** The size of the table being left, which the first two carry, is what
    [dictRehashingInfo] gives their callbacks. *)
Inductive dictEvent (SK V : Type) :=
| EvRehashingStarted (from : Z)
| EvRehashingCompleted (from : Z)
| EvBucketChanged (delta : Z)
| EvFreeKey (key : SK)
| EvFreeVal (v : V).
Arguments EvRehashingStarted {SK V}. Arguments EvRehashingCompleted {SK V}.
Arguments EvBucketChanged {SK V}. Arguments EvFreeKey {SK V}. Arguments EvFreeVal {SK V}.

(** One of the two tables: [ht_table[i]] ([None] is NULL), [ht_used[i]], [ht_size_exp[i]]. *)
Record ht (SK V : Type) := {
  ht_table : option (list (dictEntry SK V)); ht_used : Z; ht_size_exp : Z }.
Arguments ht_table {SK V}. Arguments ht_used {SK V}. Arguments ht_size_exp {SK V}.
Arguments Build_ht {SK V}.

Record dict (SK V : Type) := {
  ht0 : ht SK V; ht1 : ht SK V; rehashidx : Z; pauserehash : Z; pauseAutoResize : Z;
  d_log : list (dictEvent SK V) }.
Arguments ht0 {SK V}. Arguments ht1 {SK V}. Arguments rehashidx {SK V}.
Arguments pauserehash {SK V}. Arguments pauseAutoResize {SK V}. Arguments d_log {SK V}.
Arguments Build_dict {SK V}.

Section dict.
Context {K SK V : Type} (type : dictType K SK V) (can_resize : dictResizeEnable).
Abbreviation dict := (dict SK V).
Abbreviation dictEntry := (dictEntry SK V).
Abbreviation ht := (ht SK V).

(** ** State updates *)

Definition get_ht (d : dict) (table : Z) : ht := if table =? 0 then ht0 d else ht1 d.

Definition set_ht (d : dict) (table : Z) (h : ht) : dict :=
  if table =? 0
  then Build_dict h (ht1 d) (rehashidx d) (pauserehash d) (pauseAutoResize d) (d_log d)
  else Build_dict (ht0 d) h (rehashidx d) (pauserehash d) (pauseAutoResize d) (d_log d).

Definition set_rehashidx (d : dict) (i : Z) : dict :=
  Build_dict (ht0 d) (ht1 d) i (pauserehash d) (pauseAutoResize d) (d_log d).

Definition set_pause (d : dict) (p : Z) : dict :=
  Build_dict (ht0 d) (ht1 d) (rehashidx d) p (pauseAutoResize d) (d_log d).

Definition emit (d : dict) (e : dictEvent SK V) : dict :=
  Build_dict (ht0 d) (ht1 d) (rehashidx d) (pauserehash d) (pauseAutoResize d) (d_log d ++ [e]).

Definition dictIsRehashing (d : dict) : bool := negb (rehashidx d =? -1).
Definition dictSize (d : dict) : Z := u64 (ht_used (ht0 d) + ht_used (ht1 d)).
Definition dictBuckets (d : dict) : Z :=
  u64 (DICTHT_SIZE (ht_size_exp (ht0 d)) + DICTHT_SIZE (ht_size_exp (ht1 d))).
Definition dictPauseRehashing (d : dict) : dict := set_pause d (u32 (pauserehash d + 1)).
Definition dictResumeRehashing (d : dict) : dict := set_pause d (u32 (pauserehash d - 1)).

(** [d->ht_table[table][idx]], read and written. *)
Definition bucket_get (d : dict) (table idx : Z) : outcome dictEntry :=
  match ht_table (get_ht d table) with Some t => rd t idx | None => OutOfBounds end.

Definition bucket_set (d : dict) (table idx : Z) (de : dictEntry) : outcome dict :=
  let h := get_ht d table in
  match ht_table h with
  | Some t => t ← wr t idx de; Ret (set_ht d table (Build_ht (Some t) (ht_used h) (ht_size_exp h)))
  | None => OutOfBounds
  end.

(** [d->ht_used[table] += n]. *)
Definition used_add (d : dict) (table n : Z) : dict :=
  let h := get_ht d table in
  set_ht d table (Build_ht (ht_table h) (u64 (ht_used h + n)) (ht_size_exp h)).

(** ** Entries *)

Definition is_null (de : dictEntry) : bool := match de with DNull => true | _ => false end.
Definition entryIsKey (de : dictEntry) : bool := match de with DKey _ => true | _ => false end.

(** Dereferencing NULL is out of bounds. *)
Definition dictGetKey (de : dictEntry) : outcome SK :=
  match de with DNull => OutOfBounds | DKey k => Ret k | DEntry k _ _ => Ret k end.

Definition dictGetNext (de : dictEntry) : outcome dictEntry :=
  match de with DNull => OutOfBounds | DKey _ => Ret DNull | DEntry _ _ next => Ret next end.

Definition dictSetNext (de next : dictEntry) : outcome dictEntry :=
  match de with DNull => OutOfBounds | DKey _ => AssertFail | DEntry k v _ => Ret (DEntry k v next) end.

Definition dictGetVal (de : dictEntry) : outcome V :=
  match de with
  | DNull => OutOfBounds
  | DKey _ => AssertFail
  | DEntry _ (Some v) _ => Ret v
  | DEntry _ None _ => OutOfBounds
  end.

Definition dictSetVal (de : dictEntry) (v : V) : outcome dictEntry :=
  match de with
  | DNull => OutOfBounds
  | DKey _ => AssertFail
  | DEntry k _ next => Ret (DEntry k (Some (match valDup type with Some f => f v | None => v end)) next)
  end.

Definition createEntryNoValue (key : SK) (next : dictEntry) : dictEntry := DEntry key None next.
Definition encodeEntryKey (key : SK) : dictEntry := DKey key.

Definition dictGetHash (key : K) : Z := hashFunction type key.
Definition dictStoredKey2Key (key : SK) : K := keyFromStoredKey type key.

(** ** Creation *)

Definition _dictReset : ht := Build_ht None 0 (-1).
Definition dictCreate : dict := Build_dict _dictReset _dictReset (-1) 0 0 [].

(** ** Incremental rehashing *)

(** The body of the loop for the entry [de] of bucket [idx]. *)
Definition rehash_entry (d : dict) (idx : Z) (de : dictEntry) : outcome dict :=
  storedKey ← dictGetKey de;
  let h := if ht_size_exp (ht0 d) <? ht_size_exp (ht1 d)
           then Z.land (dictGetHash (dictStoredKey2Key storedKey)) (DICTHT_SIZE_MASK (ht_size_exp (ht1 d)))
           else Z.land idx (DICTHT_SIZE_MASK (ht_size_exp (ht1 d))) in
  b ← bucket_get d 1 h;
  de ← (if no_value type then
          if is_null b then Ret (encodeEntryKey storedKey)
          else if entryIsKey de then Ret (createEntryNoValue storedKey b)
          else dictSetNext de b
        else dictSetNext de b);
  d ← bucket_set d 1 h de;
  let d := used_add d 0 (-1) in
  Ret (used_add d 1 1).

(** [while (de)]: by recursion on the chain. *)
Fixpoint rehash_chain (d : dict) (idx : Z) (de : dictEntry) : outcome dict :=
  match de with
  | DNull => Ret d
  | DKey _ => rehash_entry d idx de
  | DEntry _ _ next => d ← rehash_entry d idx de; rehash_chain d idx next
  end.

Definition rehashEntriesInBucketAtIndex (d : dict) (idx : Z) : outcome dict :=
  de ← bucket_get d 0 idx;
  d ← rehash_chain d idx de;
  bucket_set d 0 idx DNull.

Definition dictCheckRehashingCompleted (d : dict) : dict * bool :=
  if negb (ht_used (ht0 d) =? 0) then (d, false) else
  let d := emit d (EvRehashingCompleted (DICTHT_SIZE (ht_size_exp (ht0 d)))) in
  let d := emit d (EvBucketChanged (- DICTHT_SIZE (ht_size_exp (ht0 d)))) in
  (Build_dict (ht1 d) _dictReset (-1) (pauserehash d) (pauseAutoResize d) (d_log d), true).

(** [while (d->ht_table[0][d->rehashidx] == NULL)]; tells whether the visits ran out. *)
Fixpoint skip_empty (fuel : nat) (d : dict) (empty_visits : Z) : outcome (dict * Z * bool) :=
  b ← bucket_get d 0 (rehashidx d);
  if is_null b then
    match fuel with
    | O => OutOfFuel
    | S fuel =>
      let d := set_rehashidx d (rehashidx d + 1) in
      let empty_visits := empty_visits - 1 in
      if empty_visits =? 0 then Ret (d, empty_visits, true) else skip_empty fuel d empty_visits
    end
  else Ret (d, empty_visits, false).

(** [while (n-- && d->ht_used[0] != 0)]; the boolean is an early [return 1]. *)
Fixpoint rehash_loop (n : nat) (d : dict) (empty_visits : Z) : outcome (dict * bool) :=
  match n with
  | O => Ret (d, false)
  | S n =>
    if ht_used (ht0 d) =? 0 then Ret (d, false) else
    _ ← c_assert (rehashidx d <? DICTHT_SIZE (ht_size_exp (ht0 d)));
    '(d, empty_visits, out) ← skip_empty (Z.to_nat (DICTHT_SIZE (ht_size_exp (ht0 d)))) d empty_visits;
    if (out : bool) then Ret (d, true) else
    d ← rehashEntriesInBucketAtIndex d (rehashidx d);
    rehash_loop n (set_rehashidx d (rehashidx d + 1)) empty_visits
  end.

(** The resize policy forbids a rehash step. *)
Definition rehash_avoided (d : dict) : bool :=
  let s0 := DICTHT_SIZE (ht_size_exp (ht0 d)) in
  let s1 := DICTHT_SIZE (ht_size_exp (ht1 d)) in
  bool_decide (can_resize = DICT_RESIZE_AVOID) &&
  (((s0 <? s1) && (s1 <? u64 (dict_force_resize_ratio * s0))) ||
   ((s1 <? s0) && (s0 <? u64 (HASHTABLE_MIN_FILL * dict_force_resize_ratio * s1)))).

Definition dictRehash (d : dict) (n : nat) : outcome (dict * bool) :=
  let empty_visits := Z.of_nat n * 10 in
  if bool_decide (can_resize = DICT_RESIZE_FORBID) || negb (dictIsRehashing d) then Ret (d, false) else
  if rehash_avoided d then Ret (d, false) else
  '(d, early) ← rehash_loop n d empty_visits;
  if (early : bool) then Ret (d, true) else
  let '(d, completed) := dictCheckRehashingCompleted d in Ret (d, negb completed).

Definition _dictRehashStep (d : dict) : outcome dict :=
  if pauserehash d =? 0 then '(d, _) ← dictRehash d 1; Ret d else Ret d.

Definition _dictBucketRehash (d : dict) (idx : Z) : outcome dict :=
  if negb (pauserehash d =? 0) then Ret d else
  if bool_decide (can_resize = DICT_RESIZE_FORBID) || negb (dictIsRehashing d) then Ret d else
  if rehash_avoided d then Ret d else
  d ← rehashEntriesInBucketAtIndex d idx;
  Ret (dictCheckRehashingCompleted d).1.

Definition _dictRehashStepIfNeeded (d : dict) (visitedIdx : Z) : outcome dict :=
  if negb (dictIsRehashing d) || negb (pauserehash d =? 0) then Ret d else
  valid ← (if rehashidx d <=? visitedIdx then b ← bucket_get d 0 visitedIdx; Ret (negb (is_null b))
           else Ret false);
  if (valid : bool) then _dictBucketRehash d visitedIdx
  else '(d, _) ← dictRehash d 1; Ret d.

(** ** Resizing *)

Definition _dictNextExp (size : Z) : Z :=
  if size <=? DICT_HT_INITIAL_SIZE then DICT_HT_INITIAL_EXP
  else if LONG_MAX <=? size then 63
  else 64 - clzl (size - 1).

(** [while (dictRehash(d, 1000));] *)
Fixpoint full_rehash (fuel : nat) (d : dict) : outcome dict :=
  match fuel with
  | O => OutOfFuel
  | S fuel => '(d, more) ← dictRehash d 1000; if (more : bool) then full_rehash fuel d else Ret d
  end.

(** The dict, whether the resize was performed ([DICT_OK]) and [*malloc_failed].
    [try] tells whether the allocation may fail, and [avail] whether it succeeds. *)
Definition _dictResize (d : dict) (size : Z) (try avail : bool) : outcome (dict * bool * bool) :=
  _ ← c_assert (negb (dictIsRehashing d));
  let new_ht_size_exp := _dictNextExp size in
  let newsize := DICTHT_SIZE new_ht_size_exp in
  if (newsize <? size) || (u64 (newsize * 8) <? newsize) then Ret (d, false, false) else
  if new_ht_size_exp =? ht_size_exp (ht0 d) then Ret (d, false, false) else
  if try && negb avail then Ret (d, false, true) else
  let new_ht := Build_ht (Some (replicate (Z.to_nat newsize) DNull)) 0 new_ht_size_exp in
  let d := set_rehashidx (set_ht d 1 new_ht) 0 in
  let d := emit d (EvRehashingStarted (DICTHT_SIZE (ht_size_exp (ht0 d)))) in
  let d := emit d (EvBucketChanged (DICTHT_SIZE (ht_size_exp (ht1 d)))) in
  if match ht_table (ht0 d) with None => true | Some _ => false end || (ht_used (ht0 d) =? 0) then
    let d := emit d (EvRehashingCompleted (DICTHT_SIZE (ht_size_exp (ht0 d)))) in
    let d := emit d (EvBucketChanged (- DICTHT_SIZE (ht_size_exp (ht0 d)))) in
    let d := set_ht d 0 new_ht in
    let d := set_ht d 1 _dictReset in
    Ret (set_rehashidx d (-1), true, false)
  else
    if force_full_rehash type then
      d ← full_rehash (Z.to_nat (DICTHT_SIZE (ht_size_exp (ht0 d))) + 1) d; Ret (d, true, false)
    else Ret (d, true, false).

Definition _dictExpand (d : dict) (size : Z) (try avail : bool) : outcome (dict * bool * bool) :=
  if dictIsRehashing d || (size <? ht_used (ht0 d)) || (size <=? DICTHT_SIZE (ht_size_exp (ht0 d)))
  then Ret (d, false, false)
  else _dictResize d size try avail.

Definition dictExpand (d : dict) (size : Z) : outcome (dict * bool) :=
  '(d, ok, _) ← _dictExpand d size false true; Ret (d, ok).

Definition dictTryExpand (d : dict) (size : Z) (avail : bool) : outcome (dict * bool) :=
  '(d, _, malloc_failed) ← _dictExpand d size true avail; Ret (d, negb malloc_failed).

Definition dictShrink (d : dict) (size : Z) : outcome (dict * bool) :=
  if dictIsRehashing d || (size <? ht_used (ht0 d)) || (DICTHT_SIZE (ht_size_exp (ht0 d)) <=? size)
  then Ret (d, false)
  else '(d, ok, _) ← _dictResize d size false true; Ret (d, ok).

Definition dictTypeResizeAllowed (d : dict) (size : Z) : bool :=
  match resizeAllowed type with
  | None => true
  | Some f => f (u64 (DICTHT_SIZE (_dictNextExp size) * 8)) (ht_used (ht0 d)) (DICTHT_SIZE (ht_size_exp (ht0 d)))
  end.

Definition dictExpandIfNeeded (d : dict) : outcome (dict * bool) :=
  if dictIsRehashing d then Ret (d, true) else
  let size0 := DICTHT_SIZE (ht_size_exp (ht0 d)) in
  if size0 =? 0 then '(d, _) ← dictExpand d DICT_HT_INITIAL_SIZE; Ret (d, true) else
  if (bool_decide (can_resize = DICT_RESIZE_ENABLE) && (size0 <=? ht_used (ht0 d))) ||
     (negb (bool_decide (can_resize = DICT_RESIZE_FORBID)) &&
      (u64 (dict_force_resize_ratio * size0) <=? ht_used (ht0 d)))
  then
    if dictTypeResizeAllowed d (u64 (ht_used (ht0 d) + 1))
    then '(d, _) ← dictExpand d (u64 (ht_used (ht0 d) + 1)); Ret (d, true)
    else Ret (d, true)
  else Ret (d, false).

Definition _dictExpandIfNeeded (d : dict) : outcome dict :=
  if 0 <? pauseAutoResize d then Ret d else '(d, _) ← dictExpandIfNeeded d; Ret d.

Definition dictShrinkIfNeeded (d : dict) : outcome (dict * bool) :=
  if dictIsRehashing d then Ret (d, true) else
  let size0 := DICTHT_SIZE (ht_size_exp (ht0 d)) in
  if size0 <=? DICT_HT_INITIAL_SIZE then Ret (d, true) else
  if (bool_decide (can_resize = DICT_RESIZE_ENABLE) &&
      (u64 (ht_used (ht0 d) * HASHTABLE_MIN_FILL) <=? size0)) ||
     (negb (bool_decide (can_resize = DICT_RESIZE_FORBID)) &&
      (u64 (ht_used (ht0 d) * HASHTABLE_MIN_FILL * dict_force_resize_ratio) <=? size0))
  then
    if dictTypeResizeAllowed d (ht_used (ht0 d))
    then '(d, _) ← dictShrink d (ht_used (ht0 d)); Ret (d, true)
    else Ret (d, true)
  else Ret (d, false).

Definition _dictShrinkIfNeeded (d : dict) : outcome dict :=
  if 0 <? pauseAutoResize d then Ret d else '(d, _) ← dictShrinkIfNeeded d; Ret d.

(** ** Lookup *)

(** A [dictEntryLink]: table, bucket index and depth in the chain. *)
Definition dictEntryLink : Type := Z * Z * nat.

(** The entry a link points to, [*link]. *)
Fixpoint chain_at (de : dictEntry) (depth : nat) {struct depth} : outcome dictEntry :=
  match depth with
  | O => Ret de
  | S depth => match de with DEntry _ _ next => chain_at next depth | _ => OutOfBounds end
  end.

Definition link_get (d : dict) (link : dictEntryLink) : outcome dictEntry :=
  let '(table, idx, depth) := link in b ← bucket_get d table idx; chain_at b depth.

(** [*link = de]. *)
Fixpoint chain_set (c : dictEntry) (depth : nat) (de : dictEntry) {struct depth} : outcome dictEntry :=
  match depth with
  | O => Ret de
  | S depth =>
    match c with
    | DEntry k v next => next ← chain_set next depth de; Ret (DEntry k v next)
    | _ => OutOfBounds
    end
  end.

Definition link_set (d : dict) (link : dictEntryLink) (de : dictEntry) : outcome dict :=
  let '(table, idx, depth) := link in
  b ← bucket_get d table idx; b ← chain_set b depth de; bucket_set d table idx b.

(** The loop over a chain: the depth of the first entry with the key. *)
Fixpoint find_chain (key : K) (c : dictEntry) (depth : nat) : option nat :=
  match c with
  | DNull => None
  | DKey k => if keyCompare type key (dictStoredKey2Key k) then Some depth else None
  | DEntry k _ next =>
    if keyCompare type key (dictStoredKey2Key k) then Some depth else find_chain key next (S depth)
  end.

(** The loop over the two tables, [idx] being the index in table 0: the link
    found and the last index looked at. *)
Definition find_tables (d : dict) (key : K) (hash idx : Z) : outcome (option dictEntryLink * Z) :=
  r ← (if idx <? rehashidx d then Ret (None, idx) else
         let idx := Z.land hash (DICTHT_SIZE_MASK (ht_size_exp (ht0 d))) in
         c ← bucket_get d 0 idx;
         Ret ((fun depth => (0, idx, depth)) <$> find_chain key c 0, idx));
  match r with
  | (Some link, idx) => Ret (Some link, idx)
  | (None, idx0) =>
    if dictIsRehashing d then
      let idx := Z.land hash (DICTHT_SIZE_MASK (ht_size_exp (ht1 d))) in
      c ← bucket_get d 1 idx;
      Ret ((fun depth => (1, idx, depth)) <$> find_chain key c 0, idx)
    else Ret (None, idx0)
  end.

(** The link found, and [*bucket], a link to the bucket last looked at, written
    when [want_bucket].  (On a dict without table and with [want_bucket] the code
    leaves both NULL; the callers here never do that.) *)
Definition dictFindLinkInternal (d : dict) (key : K) (want_bucket : bool)
  : outcome (dict * option dictEntryLink * option dictEntryLink) :=
  if negb want_bucket && (dictSize d =? 0) then Ret (d, None, None) else
  let hash := dictGetHash key in
  let idx := Z.land hash (DICTHT_SIZE_MASK (ht_size_exp (ht0 d))) in
  d ← _dictRehashStepIfNeeded d idx;
  '(r, last) ← find_tables d key hash idx;
  let table := match r with Some (table, _, _) => table | None => c_bool (dictIsRehashing d) end in
  Ret (d, r, if want_bucket then Some (table, last, 0%nat) else None).

Definition dictFindLink (d : dict) (key : K) (want_bucket : bool)
  : outcome (dict * option dictEntryLink * option dictEntryLink) :=
  if dictSize d =? 0 then Ret (d, None, None) else dictFindLinkInternal d key want_bucket.

(** The entry found, NULL when there is none. *)
Definition dictFind (d : dict) (key : K) : outcome (dict * dictEntry) :=
  '(d, link, _) ← dictFindLink d key false;
  match link with
  | Some link => de ← link_get d link; Ret (d, de)
  | None => Ret (d, DNull)
  end.

Definition dictFetchValue (d : dict) (key : K) : outcome (dict * option V) :=
  '(d, he) ← dictFind d key;
  if is_null he then Ret (d, None) else v ← dictGetVal he; Ret (d, Some v).

(** ** Insertion *)

(** The bucket to insert in, or the existing entry. *)
Definition dictFindLinkForInsert (d : dict) (key : K)
  : outcome (dict * (dictEntryLink + dictEntryLink)) :=
  let hash := dictGetHash key in
  let idx := Z.land hash (DICTHT_SIZE_MASK (ht_size_exp (ht0 d))) in
  d ← _dictRehashStepIfNeeded d idx;
  d ← _dictExpandIfNeeded d;
  '(r, last) ← find_tables d key hash idx;
  match r with
  | Some existing => Ret (d, inr existing)
  | None => Ret (d, inl (c_bool (dictIsRehashing d), last, 0%nat))
  end.

(** The new entry is at the head of the bucket. *)
Definition dictInsertKeyAtLink (d : dict) (key : SK) (link : dictEntryLink) : outcome dict :=
  let '(table, idx, depth) := link in
  let htidx := c_bool (dictIsRehashing d) in
  _ ← c_assert ((table =? htidx) && Nat.eqb depth 0 && (0 <=? idx) &&
                (idx <=? DICTHT_SIZE_MASK (ht_size_exp (get_ht d htidx))));
  b ← bucket_get d table idx;
  let entry := if no_value type then
                 if is_null b then encodeEntryKey key else createEntryNoValue key b
               else DEntry key None b in
  d ← bucket_set d table idx entry;
  Ret (used_add d htidx 1).

(** The link of the new entry, or of the existing one. *)
Definition dictAddRaw (d : dict) (key : SK) : outcome (dict * (dictEntryLink + dictEntryLink)) :=
  '(d, position) ← dictFindLinkForInsert d (dictStoredKey2Key key);
  match position with
  | inr existing => Ret (d, inr existing)
  | inl position =>
    let key := match keyDup type with Some f => f key | None => key end in
    d ← dictInsertKeyAtLink d key position;
    Ret (d, inl position)
  end.

Definition set_val_at (d : dict) (link : dictEntryLink) (v : V) : outcome dict :=
  de ← link_get d link; de ← dictSetVal de v; link_set d link de.

(** [DICT_OK] is [true]. *)
Definition dictAdd (d : dict) (key : SK) (val : V) : outcome (dict * bool) :=
  '(d, entry) ← dictAddRaw d key;
  match entry with
  | inr _ => Ret (d, false)
  | inl entry => d ← (if no_value type then Ret d else set_val_at d entry val); Ret (d, true)
  end.

Definition dictReplace (d : dict) (key : SK) (val : V) : outcome (dict * bool) :=
  '(d, entry) ← dictAddRaw d key;
  match entry with
  | inl entry => d ← set_val_at d entry val; Ret (d, true)
  | inr existing =>
    de ← link_get d existing;
    oldval ← dictGetVal de;
    d ← set_val_at d existing val;
    Ret (emit d (EvFreeVal oldval), false)
  end.

Definition dictAddOrFind (d : dict) (key : SK) : outcome (dict * dictEntryLink) :=
  '(d, entry) ← dictAddRaw d key;
  Ret (d, match entry with inl entry => entry | inr existing => existing end).

(** ** Deletion *)

Definition dictFreeVal (d : dict) (he : dictEntry) : dict :=
  match he with DEntry _ (Some v) _ => emit d (EvFreeVal v) | _ => d end.

Definition dictFreeUnlinkedEntry (d : dict) (he : dictEntry) : outcome dict :=
  if is_null he then Ret d else
  k ← dictGetKey he; Ret (dictFreeVal (emit d (EvFreeKey k)) he).

(** The entry unlinked, NULL when the key is not there. *)
Definition dictGenericDelete (d : dict) (key : K) (nofree : bool) : outcome (dict * dictEntry) :=
  if dictSize d =? 0 then Ret (d, DNull) else
  let h := dictGetHash key in
  let idx := Z.land h (DICTHT_SIZE_MASK (ht_size_exp (ht0 d))) in
  d ← _dictRehashStepIfNeeded d idx;
  '(r, _) ← find_tables d key h idx;
  match r with
  | None => Ret (d, DNull)
  | Some (table, idx, depth) =>
    he ← link_get d (table, idx, depth);
    next ← dictGetNext he;
    d ← link_set d (table, idx, depth) next;
    d ← (if nofree then Ret d else dictFreeUnlinkedEntry d he);
    d ← _dictShrinkIfNeeded (used_add d table (-1));
    Ret (d, he)
  end.

Definition dictDelete (d : dict) (key : K) : outcome (dict * bool) :=
  '(d, he) ← dictGenericDelete d key false; Ret (d, negb (is_null he)).

Definition dictUnlink (d : dict) (key : K) : outcome (dict * dictEntry) := dictGenericDelete d key true.

Definition dictTwoPhaseUnlinkFind (d : dict) (key : K) : outcome (dict * option dictEntryLink) :=
  if dictSize d =? 0 then Ret (d, None) else
  d ← (if dictIsRehashing d then _dictRehashStep d else Ret d);
  let h := dictGetHash key in
  let idx := Z.land h (DICTHT_SIZE_MASK (ht_size_exp (ht0 d))) in
  '(r, _) ← find_tables d key h idx;
  match r with
  | None => Ret (d, None)
  | Some link => Ret (dictPauseRehashing d, Some link)
  end.

Definition dictTwoPhaseUnlinkFree (d : dict) (plink : option dictEntryLink) : outcome dict :=
  match plink with
  | None => Ret d
  | Some (table_index, idx, depth) =>
    de ← link_get d (table_index, idx, depth);
    if is_null de then Ret d else
    let d := used_add d table_index (-1) in
    next ← dictGetNext de;
    d ← link_set d (table_index, idx, depth) next;
    d ← dictFreeUnlinkedEntry d de;
    d ← _dictShrinkIfNeeded d;
    Ret (dictResumeRehashing d)
  end.

(** ** Clearing *)

Fixpoint clear_chain (d : dict) (htidx : Z) (he : dictEntry) : dict :=
  match he with
  | DNull => d
  | DKey k => used_add (emit d (EvFreeKey k)) htidx (-1)
  | DEntry k v next =>
    clear_chain (used_add (dictFreeVal (emit d (EvFreeKey k)) he) htidx (-1)) htidx next
  end.

Fixpoint clear_buckets (d : dict) (htidx : Z) (buckets : list dictEntry) : dict :=
  match buckets with
  | [] => d
  | he :: buckets =>
    if 0 <? ht_used (get_ht d htidx) then clear_buckets (clear_chain d htidx he) htidx buckets else d
  end.

Definition _dictClear (d : dict) (htidx : Z) : dict :=
  let d := match ht_table (get_ht d htidx) with Some t => clear_buckets d htidx t | None => d end in
  set_ht d htidx _dictReset.

Definition dictEmpty (d : dict) : dict :=
  let d := if dictIsRehashing d then emit d (EvRehashingCompleted (DICTHT_SIZE (ht_size_exp (ht0 d)))) else d in
  let d := emit d (EvBucketChanged (- dictBuckets d)) in
  let d := _dictClear d 0 in
  let d := _dictClear d 1 in
  Build_dict (ht0 d) (ht1 d) (-1) 0 0 (d_log d).

(** The dict as it was just before its memory is freed. *)
Definition dictRelease (d : dict) : dict :=
  let d := if dictIsRehashing d then emit d (EvRehashingCompleted (DICTHT_SIZE (ht_size_exp (ht0 d)))) else d in
  let d := emit d (EvBucketChanged (- dictBuckets d)) in
  let d := _dictClear d 0 in
  _dictClear d 1.
End dict.
