(* ===== verification/DictInv.v ===== *)
(** * DictInv: the invariant of the hash table and what each operation does to it

    [dict_wf] is the invariant of dict.c; [dict_map] the finite map a dict
    represents.  One lemma per operation gives its result, on every branch, in
    terms of the map: rehashing and resizing steps ([same_contents]) leave it
    alone, insertions and deletions change one key. *)

From stdpp Require Import countable sets fin_maps gmap.
From S2P Require Import Prelude Memory Dict.

(** ** What the code relies on of the callbacks

    [canon] gives each key a canonical form (a lower-cased string for the
    case-insensitive dicts, the bytes themselves for most): [keyCompare] tells
    whether two keys have the same one, and equal keys have equal hashes. *)
Class DictKeys {K SK V} (type : dictType K SK V) {C : Type} (canon : K -> C) `{!EqDecision C} := {
  keys_compare : forall k1 k2, keyCompare type k1 k2 = bool_decide (canon k1 = canon k2);
  keys_hash : forall k1 k2, canon k1 = canon k2 -> hashFunction type k1 = hashFunction type k2;
  keys_hash_range : forall k, 0 <= hashFunction type k < 2 ^ 64;
  keys_dup : forall f k, keyDup type = Some f ->
    canon (keyFromStoredKey type (f k)) = canon (keyFromStoredKey type k);
}.

(** ** Contents *)

Fixpoint chain_list {SK V} (c : dictEntry SK V) : list (SK * option V) :=
  match c with
  | DNull => []
  | DKey k => [(k, None)]
  | DEntry k v next => (k, v) :: chain_list next
  end.

Definition tbl_entries {SK V} (t : list (dictEntry SK V)) : list (SK * option V) := concat (map chain_list t).

Definition ht_entries {SK V} (h : ht SK V) : list (SK * option V) :=
  match ht_table h with Some t => tbl_entries t | None => [] end.

Definition entries {SK V} (d : dict SK V) : list (SK * option V) := ht_entries (ht0 d) ++ ht_entries (ht1 d).

Section contents.
Context {SK V : Type}.
Implicit Types (t : list (dictEntry SK V)) (c : dictEntry SK V).

Lemma tbl_entries_split t i b : t !! i = Some b ->
  exists rest, tbl_entries t ≡ₚ chain_list b ++ rest /\
    forall c, tbl_entries (<[i := c]> t) ≡ₚ chain_list c ++ rest.
Proof.
  unfold tbl_entries. revert i. induction t as [|b' t IH]; intros [|i]; simpl; try done.
  - intros [= ->]. by exists (concat (map chain_list t)).
  - intros H. destruct (IH _ H) as (rest & H1 & H2). exists (chain_list b' ++ rest). split.
    + rewrite H1. apply Permutation_app_swap_app.
    + intros c. rewrite H2. apply Permutation_app_swap_app.
Qed.

Lemma elem_of_tbl_entries t e : e ∈ tbl_entries t <-> exists i c, t !! i = Some c /\ e ∈ chain_list c.
Proof.
  unfold tbl_entries. rewrite list_elem_of_In, in_concat. split.
  - intros (l & Hl & He). apply in_map_iff in Hl as (c & <- & Hc).
    apply list_elem_of_In, list_elem_of_lookup in Hc as [i Hi]. exists i, c. by rewrite list_elem_of_In.
  - intros (i & c & Hi & He). exists (chain_list c). split; [|by apply list_elem_of_In].
    apply in_map, list_elem_of_In. by apply list_elem_of_lookup_2 in Hi.
Qed.

Lemma tbl_entries_replicate n : tbl_entries (replicate n (@DNull SK V)) = [].
Proof. induction n; [done|]. done. Qed.
End contents.

Lemma DICTHT_SIZE_pow e : 0 <= e <= 63 -> DICTHT_SIZE e = 2 ^ e.
Proof.
  intros He. unfold DICTHT_SIZE. destruct (Z.eqb_spec e (-1)); [lia|].
  rewrite Z.shiftl_1_l, wrapu_id; [done|]. split; [apply Z.pow_nonneg; lia|apply Z.pow_lt_mono_r; lia].
Qed.

Lemma DICTHT_SIZE_nonneg e : 0 <= DICTHT_SIZE e.
Proof. unfold DICTHT_SIZE. destruct (e =? -1); [done|]. by apply wrapu_range. Qed.

Lemma land_mask h e : 0 <= e <= 63 -> Z.land h (DICTHT_SIZE_MASK e) = h mod 2 ^ e.
Proof.
  intros He. unfold DICTHT_SIZE_MASK. destruct (Z.eqb_spec e (-1)); [lia|].
  rewrite DICTHT_SIZE_pow by lia. rewrite <- Z.land_ones by lia. f_equal. rewrite Z.ones_equiv. lia.
Qed.

Lemma mod_pow_le h e0 e1 : 0 <= e1 <= e0 -> (h mod 2 ^ e0) mod 2 ^ e1 = h mod 2 ^ e1.
Proof.
  intros He. replace (2 ^ e0) with (2 ^ e1 * 2 ^ (e0 - e1)) by (rewrite <- Z.pow_add_r by lia; f_equal; lia).
  pose proof (Z.pow_pos_nonneg 2 e1). pose proof (Z.pow_pos_nonneg 2 (e0 - e1)).
  rewrite Z.rem_mul_r by lia. rewrite Z.mul_comm, Z_mod_plus_full. apply Z.mod_mod. lia.
Qed.

Section invariant.
Context {K SK V : Type} (type : dictType K SK V).
Context {C : Type} (canon : K -> C) `{!EqDecision C, !Countable C, !DictKeys type canon}.
Context (can_resize : dictResizeEnable).
Abbreviation dict := (dict SK V).
Abbreviation dictEntry := (dictEntry SK V).
Implicit Types (d : dict) (t : list dictEntry) (c : dictEntry).

(** The key and the hash of an entry. *)
Definition entry_hash (e : SK * option V) : Z := hashFunction type (keyFromStoredKey type e.1).
Definition entry_canon (e : SK * option V) : C := canon (keyFromStoredKey type e.1).

(** Tagged keys occur in [no_value] dicts only, and values in the others only. *)
Definition chain_ok c : Prop :=
  match c with
  | DNull => True
  | DKey _ => no_value type = true
  | DEntry _ v _ => no_value type = true -> v = None
  end.

Fixpoint chain_all_ok c : Prop :=
  chain_ok c /\ match c with DEntry _ _ next => chain_all_ok next | _ => True end.

(** A table of [2^e] buckets, every entry in the bucket of its hash. *)
Record tbl_ok (e : Z) t : Prop := {
  tbl_exp : 2 <= e <= 60;
  tbl_len : Zlen t = 2 ^ e;
  tbl_placed : forall i c x, t !! i = Some c -> x ∈ chain_list c -> entry_hash x mod 2 ^ e = Z.of_nat i;
  tbl_chains : forall i c, t !! i = Some c -> chain_all_ok c;
}.

Definition mk_ht (e : Z) t : ht SK V := Build_ht (Some t) (Zlen (tbl_entries t)) e.

(** The three shapes of a dict: without table, with one, or rehashing from
    one table (its buckets below [ri] already empty) to another. *)
Inductive shape : dict -> Prop :=
| shape_empty p pa log : shape (Build_dict _dictReset _dictReset (-1) p pa log)
| shape_stable e t p pa log : tbl_ok e t -> shape (Build_dict (mk_ht e t) _dictReset (-1) p pa log)
| shape_rehashing e0 t0 e1 t1 ri p pa log : tbl_ok e0 t0 -> tbl_ok e1 t1 -> e0 <> e1 ->
    0 <= ri <= 2 ^ e0 -> (forall i, (i < Z.to_nat ri)%nat -> t0 !! i = Some DNull) ->
    shape (Build_dict (mk_ht e0 t0) (mk_ht e1 t1) ri p pa log).

(** What the observers saw: the sum of the bucket counts announced, and the
    size of the table being left by the rehashing started and not completed, or
    -1 when there is none; -2 is for starts and completions that do not
    alternate, or a completion for another size. *)
Fixpoint log_buckets (log : list (dictEvent SK V)) : Z :=
  match log with
  | [] => 0
  | EvBucketChanged delta :: log => delta + log_buckets log
  | _ :: log => log_buckets log
  end.

Definition ev_step (s : Z) (e : dictEvent SK V) : Z :=
  match e with
  | EvRehashingStarted from => if (s =? -1) && (0 <=? from) then from else -2
  | EvRehashingCompleted from => if (0 <=? s) && (s =? from) then -1 else -2
  | _ => s
  end.

Definition log_rehashing (log : list (dictEvent SK V)) : Z := foldl ev_step (-1) log.

(** What they should have seen. *)
Definition rehash_state d : Z := if dictIsRehashing d then DICTHT_SIZE (ht_size_exp (ht0 d)) else -1.

(** No rehashing starts or completes. *)
Definition quiet (evs : list (dictEvent SK V)) : Prop := forall s, foldl ev_step s evs = s.

Record dict_wf d : Prop := {
  wf_shape : shape d;
  wf_uniq : NoDup (entry_canon <$> entries d);
  wf_size : Zlen (entries d) < 2 ^ 62;
  wf_log_buckets : log_buckets (d_log d) = DICTHT_SIZE (ht_size_exp (ht0 d)) + DICTHT_SIZE (ht_size_exp (ht1 d));
  wf_log_rehashing : log_rehashing (d_log d) = rehash_state d;
}.

Lemma log_buckets_app l1 l2 : log_buckets (l1 ++ l2) = log_buckets l1 + log_buckets l2.
Proof. induction l1 as [|[] l1 IH]; simpl; lia. Qed.

Lemma log_rehashing_app l1 l2 : log_rehashing (l1 ++ l2) = foldl ev_step (log_rehashing l1) l2.
Proof. apply foldl_app. Qed.

(** A completion after the start it belongs to. *)
Lemma ev_completed e : ev_step (DICTHT_SIZE e) (EvRehashingCompleted (DICTHT_SIZE e)) = -1.
Proof. cbn. pose proof (DICTHT_SIZE_nonneg e). destruct (Z.leb_spec 0 (DICTHT_SIZE e)); [|lia]. by rewrite Z.eqb_refl. Qed.

Lemma ev_started e : ev_step (-1) (EvRehashingStarted (DICTHT_SIZE e)) = DICTHT_SIZE e.
Proof. cbn. pose proof (DICTHT_SIZE_nonneg e). by destruct (Z.leb_spec 0 (DICTHT_SIZE e)); [|lia]. Qed.

Lemma quiet_app l1 l2 : quiet l1 -> quiet l2 -> quiet (l1 ++ l2).
Proof. intros H1 H2 s. by rewrite foldl_app, H1, H2. Qed.

(** *** Tables *)

Lemma tbl_ok_replicate e : 2 <= e <= 60 -> tbl_ok e (replicate (Z.to_nat (2 ^ e)) DNull).
Proof.
  intros He. split; [done| | |].
  - unfold Zlen. rewrite length_replicate. rewrite Z2Nat.id; [done|]. apply Z.pow_nonneg. lia.
  - intros i c x Hi. apply lookup_replicate in Hi as [-> _]. intros Hx. by apply elem_of_nil in Hx.
  - intros i c Hi. apply lookup_replicate in Hi as [-> _]. done.
Qed.

Lemma tbl_ok_insert e t i c : tbl_ok e t -> chain_all_ok c ->
  (forall x, x ∈ chain_list c -> entry_hash x mod 2 ^ e = Z.of_nat i) -> tbl_ok e (<[i := c]> t).
Proof.
  intros [He Hl Hp Hc] Hc' Hx. split; [done|by rewrite Zlen_insert| |].
  - intros j c0 x Hj. apply list_lookup_insert_Some in Hj as [(-> & -> & _)|[_ Hj]]; [apply Hx|by apply Hp].
  - intros j c0 Hj. apply list_lookup_insert_Some in Hj as [(-> & -> & _)|[_ Hj]]; [done|by apply Hc in Hj].
Qed.

Lemma tbl_bucket e t h : tbl_ok e t -> exists c, rd t (h mod 2 ^ e) = Ret c /\
  t !! Z.to_nat (h mod 2 ^ e) = Some c /\ 0 <= h mod 2 ^ e < 2 ^ e.
Proof.
  intros [He Hl _ _]. pose proof (Z.mod_pos_bound h (2 ^ e)) as Hm.
  pose proof (Z.pow_pos_nonneg 2 e ltac:(lia) ltac:(lia)).
  destruct (rd_ok t (h mod 2 ^ e)) as [c Hc]; [lia|]. exists c. split; [done|].
  apply rd_Ret_inv in Hc as [_ Hc]. split; [done|lia].
Qed.

Lemma tbl_used t i b : t !! i = Some b -> Zlen (chain_list b) <= Zlen (tbl_entries t).
Proof.
  intros Hb. destruct (tbl_entries_split t i b Hb) as (rest & Hp & _).
  apply Permutation_length in Hp. rewrite length_app in Hp. unfold Zlen. lia.
Qed.

(** *** Moving the entries of a bucket *)

Section move.
Context (T0 : option (list dictEntry)) (e0 e1 ri p pa : Z) (log : list (dictEvent SK V)).
Context (Hexp : e0 <> e1) (He0 : 2 <= e0 <= 60).
Abbreviation D u0 t1 := (Build_dict (Build_ht T0 u0 e0) (mk_ht e1 t1) ri p pa log).

Lemma rehash_index idx k v : entry_hash (k, v) mod 2 ^ e0 = idx -> 2 <= e1 <= 60 ->
  (if e0 <? e1 then Z.land (dictGetHash type (dictStoredKey2Key type k)) (DICTHT_SIZE_MASK e1)
   else Z.land idx (DICTHT_SIZE_MASK e1)) = entry_hash (k, v) mod 2 ^ e1.
Proof.
  intros Hidx He1. rewrite !land_mask by lia. destruct (Z.ltb_spec e0 e1); [done|].
  subst idx. apply mod_pow_le. lia.
Qed.

Lemma rehash_entry_spec c k v idx t1 u0 : tbl_ok e1 t1 -> chain_ok c ->
  match c with DNull => False | DKey k' => k' = k /\ v = None | DEntry k' v' _ => k' = k /\ v' = v end ->
  entry_hash (k, v) mod 2 ^ e0 = idx -> 1 <= u0 < 2 ^ 62 -> Zlen (tbl_entries t1) < 2 ^ 62 ->
  exists t1', rehash_entry type (D u0 t1) idx c = Ret (D (u0 - 1) t1') /\ tbl_ok e1 t1' /\
    tbl_entries t1' ≡ₚ (k, v) :: tbl_entries t1.
Proof.
  intros Ht1 Hok Hc Hidx Hu0 Hu1. pose proof (tbl_exp _ _ Ht1) as He1.
  assert (dictGetKey c = Ret k) as Hk by (destruct c; [done|by destruct Hc as [-> _]..]).
  unfold rehash_entry. rewrite Hk. cbn [mbind outcome_bind].
  change (ht_size_exp (ht0 (D u0 t1))) with e0. change (ht_size_exp (ht1 (D u0 t1))) with e1.
  rewrite (rehash_index idx k v Hidx He1).
  destruct (tbl_bucket _ _ (entry_hash (k, v)) Ht1) as (b & Hrd & Hb & Hr).
  unfold bucket_get at 1. cbn [get_ht Z.eqb]. change (ht_table (ht1 (D u0 t1))) with (Some t1). cbv iota.
  rewrite Hrd. cbn [mbind outcome_bind].
  assert (exists de, (if no_value type then
      if is_null b then Ret (encodeEntryKey k)
      else if entryIsKey c then Ret (createEntryNoValue k b) else dictSetNext c b
    else dictSetNext c b) = Ret de /\ chain_list de = (k, v) :: chain_list b /\ chain_all_ok de) as (de & -> & Hde & Hdeok).
  { pose proof (tbl_chains _ _ Ht1 _ _ Hb) as Hbok. destruct (no_value type) eqn:Env.
    - assert (v = None) as -> by (destruct c; [done|by destruct Hc|destruct Hc as [-> ->]; by apply Hok]).
      destruct b; cbn [is_null]; [by exists (DKey k)|..];
        (destruct c; cbn [entryIsKey]; [done|..]; destruct Hc as [-> ?]; subst; by eexists).
    - destruct c; [done|simpl in Hok; congruence|].
      destruct Hc as [-> ->]. eexists. split; [done|]. split; [done|]. simpl. split; [congruence|done]. }
  cbn [mbind outcome_bind]. unfold bucket_set. cbn [get_ht Z.eqb].
  change (ht_table (ht1 (D u0 t1))) with (Some t1). cbv iota. pose proof (tbl_len _ _ Ht1).
  rewrite wr_ok by lia. cbn [mbind outcome_bind].
  set (t1' := <[Z.to_nat (entry_hash (k, v) mod 2 ^ e1) := de]> t1).
  destruct (tbl_entries_split _ _ _ Hb) as (rest & Hp1 & Hp2). specialize (Hp2 de).
  assert (tbl_entries t1' ≡ₚ (k, v) :: tbl_entries t1) as Hperm by (rewrite Hp1; unfold t1'; by rewrite Hp2, Hde).
  exists t1'. split; [|split; [|done]].
  - unfold used_add, set_ht, get_ht, mk_ht. cbn. do 2 f_equal.
    + f_equal. rewrite wrapu_id by lia. lia.
    + f_equal. apply Permutation_length in Hperm. cbn [length] in Hperm.
      assert (Zlen (tbl_entries t1') = Zlen (tbl_entries t1) + 1) by (unfold Zlen; lia).
      rewrite wrapu_id; [lia|]. pose proof (Zlen_nonneg (tbl_entries t1)). lia.
  - unfold t1'. apply tbl_ok_insert; [done|done|]. rewrite Hde. intros x Hx.
    rewrite Z2Nat.id by lia. apply elem_of_cons in Hx as [-> |Hx]; [done|].
    rewrite (tbl_placed _ _ Ht1 _ _ _ Hb Hx). apply Z2Nat.id. lia.
Qed.
Lemma rehash_chain_spec c idx : forall t1 u0, tbl_ok e1 t1 -> chain_all_ok c ->
  (forall x, x ∈ chain_list c -> entry_hash x mod 2 ^ e0 = idx) ->
  Zlen (chain_list c) <= u0 < 2 ^ 62 -> Zlen (chain_list c) + Zlen (tbl_entries t1) < 2 ^ 62 ->
  exists t1', rehash_chain type (D u0 t1) idx c = Ret (D (u0 - Zlen (chain_list c)) t1') /\ tbl_ok e1 t1' /\
    tbl_entries t1' ≡ₚ chain_list c ++ tbl_entries t1.
Proof.
  induction c as [|k|k v next IH]; intros t1 u0 Ht1 Hok Hx Hu0 Hu1; cbn [rehash_chain chain_list] in *;
    rewrite ?Zlen_cons, ?Zlen_nil in Hu0, Hu1 |- *.
  - exists t1. rewrite Z.sub_0_r. split; [done|]. split; [done|done].
  - destruct Hok as [Hok _].
    destruct (rehash_entry_spec (DKey k) k None idx t1 u0) as (t1' & Hr & Ht1' & Hp);
      [done|done|done|apply Hx, elem_of_cons; auto|lia|lia|].
    exists t1'. rewrite Hr. split; [do 3 f_equal; lia|]. done.
  - destruct Hok as [Hok Hnext]. pose proof (Zlen_nonneg (chain_list next)).
    destruct (rehash_entry_spec (DEntry k v next) k v idx t1 u0) as (t1' & -> & Ht1' & Hp);
      [done|done|done|apply Hx, elem_of_cons; auto|lia|lia|].
    cbn [mbind outcome_bind].
    assert (Zlen (tbl_entries t1') = Zlen (tbl_entries t1) + 1) as Hl.
    { apply Permutation_length in Hp. cbn [length] in Hp. unfold Zlen. lia. }
    destruct (IH t1' (u0 - 1)) as (t1'' & -> & Ht1'' & Hp'); [done|done|intros; apply Hx, elem_of_cons; auto|lia|lia|].
    exists t1''. split; [do 3 f_equal; lia|]. split; [done|]. rewrite Hp', Hp. symmetry. apply Permutation_middle.
Qed.
End move.

(** The effect of moving one bucket. *)
Lemma rehashEntriesInBucketAtIndex_spec e0 t0 e1 t1 ri p pa log idx :
  tbl_ok e0 t0 -> tbl_ok e1 t1 -> e0 <> e1 -> 0 <= idx < 2 ^ e0 ->
  Zlen (tbl_entries t0) + Zlen (tbl_entries t1) < 2 ^ 62 ->
  exists t1', rehashEntriesInBucketAtIndex type (Build_dict (mk_ht e0 t0) (mk_ht e1 t1) ri p pa log) idx =
      Ret (Build_dict (mk_ht e0 (<[Z.to_nat idx := DNull]> t0)) (mk_ht e1 t1') ri p pa log) /\
    tbl_ok e0 (<[Z.to_nat idx := DNull]> t0) /\ tbl_ok e1 t1' /\
    tbl_entries (<[Z.to_nat idx := DNull]> t0) ++ tbl_entries t1' ≡ₚ tbl_entries t0 ++ tbl_entries t1.
Proof.
  intros Ht0 Ht1 Hne Hidx Hsz. pose proof (tbl_len _ _ Ht0) as Hl0. pose proof (tbl_exp _ _ Ht0) as He0.
  unfold rehashEntriesInBucketAtIndex. unfold bucket_get. cbn [get_ht Z.eqb ht0 ht_table mk_ht].
  destruct (rd_ok t0 idx ltac:(lia)) as [c Hc]. rewrite Hc. cbn [mbind outcome_bind].
  apply rd_Ret_inv in Hc as [_ Hc].
  pose proof (tbl_used _ _ _ Hc) as Hcu. pose proof (Zlen_nonneg (tbl_entries t0)). pose proof (Zlen_nonneg (tbl_entries t1)).
  destruct (rehash_chain_spec (Some t0) e0 e1 ri p pa log Hne He0 c idx t1 (Zlen (tbl_entries t0)))
    as (t1' & Hr & Ht1' & Hp); [done|by apply (tbl_chains _ _ Ht0 _ _ Hc)| |lia|lia|].
  { intros x Hx. rewrite (tbl_placed _ _ Ht0 _ _ _ Hc Hx). lia. }
  unfold mk_ht at 1. rewrite Hr. cbn [mbind outcome_bind]. unfold bucket_set. cbn [get_ht Z.eqb ht0 ht_table].
  rewrite wr_ok by lia. cbn [mbind outcome_bind]. unfold set_ht. cbn [Z.eqb ht1 rehashidx pauserehash pauseAutoResize d_log ht_used ht_size_exp].
  destruct (tbl_entries_split _ _ _ Hc) as (rest & Hp1 & Hp2). specialize (Hp2 DNull). cbn [chain_list app] in Hp2.
  exists t1'. split; [|split; [|split; [done|]]].
  - unfold mk_ht at 2. do 3 f_equal.
    apply Permutation_length in Hp1, Hp2. rewrite length_app in Hp1. unfold Zlen. lia.
  - apply tbl_ok_insert; [done|by split|]. intros x Hx. by apply elem_of_nil in Hx.
  - rewrite Hp2, Hp, Hp1. rewrite !app_assoc. apply Permutation_app_tail, Permutation_app_comm.
Qed.

(** *** The invariant under steps that keep the contents *)

(** [d'] has the contents of [d], perhaps in other tables. *)
Record same_contents d d' : Prop := {
  sc_wf : dict_wf d';
  sc_perm : entries d' ≡ₚ entries d;
  sc_pause : pauserehash d' = pauserehash d;
  sc_auto : pauseAutoResize d' = pauseAutoResize d;
  sc_table : ht_table (ht0 d) <> None -> ht_table (ht0 d') <> None;
}.

Lemma same_contents_refl d : dict_wf d -> same_contents d d.
Proof. intros. by split. Qed.

Lemma same_contents_trans d1 d2 d3 : same_contents d1 d2 -> same_contents d2 d3 -> same_contents d1 d3.
Proof.
  intros [H1 H2 H3 H4 H5] [H1' H2' H3' H4' H5']. split; [done|by rewrite H2'|congruence|congruence|].
  intros ?. by apply H5', H5.
Qed.

(** Rebuilding the invariant from the shape. *)
Lemma same_contents_intro d d' : dict_wf d -> shape d' -> entries d' ≡ₚ entries d ->
  pauserehash d' = pauserehash d -> pauseAutoResize d' = pauseAutoResize d ->
  (ht_table (ht0 d) <> None -> ht_table (ht0 d') <> None) ->
  log_buckets (d_log d') = DICTHT_SIZE (ht_size_exp (ht0 d')) + DICTHT_SIZE (ht_size_exp (ht1 d')) ->
  log_rehashing (d_log d') = rehash_state d' -> same_contents d d'.
Proof.
  intros [Hs Hu Hsz Hb Hr] Hs' Hp Hpr Hpa Ht Hb' Hr'. split; [split|..]; try done.
  - by rewrite Hp.
  - assert (length (entries d') = length (entries d)) by (by apply Permutation_length). unfold Zlen in *. lia.
Qed.

Lemma entries_rehashing e0 t0 e1 t1 ri p pa log :
  entries (Build_dict (mk_ht e0 t0) (mk_ht e1 t1) ri p pa log) = tbl_entries t0 ++ tbl_entries t1.
Proof. done. Qed.

Lemma rehashing_bound e0 t0 e1 t1 ri p pa log :
  dict_wf (Build_dict (mk_ht e0 t0) (mk_ht e1 t1) ri p pa log) ->
  Zlen (tbl_entries t0) + Zlen (tbl_entries t1) < 2 ^ 62.
Proof. intros [_ _ Hs _ _]. by rewrite entries_rehashing, Zlen_app in Hs. Qed.

(** Moving a bucket not moved yet. *)
Lemma move_bucket e0 t0 e1 t1 ri p pa log idx :
  let d := Build_dict (mk_ht e0 t0) (mk_ht e1 t1) ri p pa log in
  dict_wf d -> tbl_ok e0 t0 -> tbl_ok e1 t1 -> e0 <> e1 -> 0 <= ri <= 2 ^ e0 ->
  (forall i, (i < Z.to_nat ri)%nat -> t0 !! i = Some DNull) -> 0 <= idx < 2 ^ e0 ->
  exists t1', rehashEntriesInBucketAtIndex type d idx =
      Ret (Build_dict (mk_ht e0 (<[Z.to_nat idx := DNull]> t0)) (mk_ht e1 t1') ri p pa log) /\
    tbl_ok e0 (<[Z.to_nat idx := DNull]> t0) /\ tbl_ok e1 t1' /\
    same_contents d (Build_dict (mk_ht e0 (<[Z.to_nat idx := DNull]> t0)) (mk_ht e1 t1') ri p pa log) /\
    (forall i, (i < Z.to_nat ri)%nat -> <[Z.to_nat idx := DNull]> t0 !! i = Some DNull).
Proof.
  intros d Hwf Ht0 Ht1 Hne Hri Hnull Hidx.
  destruct (rehashEntriesInBucketAtIndex_spec e0 t0 e1 t1 ri p pa log idx) as (t1' & Hr & Ht0' & Ht1' & Hp);
    try done; [by apply rehashing_bound in Hwf|].
  assert (forall i, (i < Z.to_nat ri)%nat -> <[Z.to_nat idx := DNull]> t0 !! i = Some DNull) as Hnull'.
  { intros i Hi. destruct (decide (i = Z.to_nat idx)) as [->|Hni].
    - apply list_lookup_insert_eq. specialize (Hnull _ Hi). by apply lookup_lt_Some in Hnull.
    - rewrite list_lookup_insert_ne by done. by apply Hnull. }
  exists t1'. split; [done|]. split; [done|]. split; [done|]. split; [|done].
  apply same_contents_intro; try done; [by apply shape_rehashing|apply Hwf|apply Hwf].
Qed.

(** The end of a rehashing. *)
Lemma dictCheckRehashingCompleted_spec e0 t0 e1 t1 ri p pa log :
  let d := Build_dict (mk_ht e0 t0) (mk_ht e1 t1) ri p pa log in
  dict_wf d -> 0 <= ri ->
  exists d' b, dictCheckRehashingCompleted d = (d', b) /\ same_contents d d' /\
    b = (Zlen (tbl_entries t0) =? 0) /\ if b then dictIsRehashing d' = false /\ ht_size_exp (ht0 d') = e1 else d' = d.
Proof.
  intros d Hwf Hri. unfold dictCheckRehashingCompleted. change (ht_used (ht0 d)) with (Zlen (tbl_entries t0)).
  destruct (Z.eqb_spec (Zlen (tbl_entries t0)) 0) as [E|E]; cbn [negb];
    [|exists d, false; split; [done|]; split; [by apply same_contents_refl|done]].
  eexists _, true. split; [done|]. split; [|done].
  assert (tbl_entries t0 = []) as E0 by (destruct (tbl_entries t0); [done|]; unfold Zlen in E; simpl in E; lia).
  pose proof (wf_log_buckets _ Hwf) as Hlb. pose proof (wf_log_rehashing _ Hwf) as Hlr.
  unfold rehash_state, dictIsRehashing in Hlr. simpl rehashidx in Hlr. destruct (Z.eqb_spec ri (-1)); [lia|].
  simpl in Hlb, Hlr.
  apply same_contents_intro; try done.
  - destruct (wf_shape _ Hwf); [..|]; simpl; by constructor.
  - change (tbl_entries t1 ++ [] ≡ₚ tbl_entries t0 ++ tbl_entries t1). by rewrite E0, app_nil_r.
  - unfold emit. cbn. rewrite !log_buckets_app. cbn. change (DICTHT_SIZE (-1)) with 0. lia.
  - unfold emit. cbn [d_log rehashidx]. rewrite !log_rehashing_app. change (d_log d) with log. rewrite Hlr. apply ev_completed.
Qed.

(** *** [dictRehash] *)

Lemma is_null_spec c : if is_null c then c = DNull else chain_list c <> [].
Proof. by destruct c. Qed.

Definition nulls_below t (ri : Z) : Prop := forall i, (i < Z.to_nat ri)%nat -> t !! i = Some DNull.

Lemma nulls_below_succ t ri : 0 <= ri -> nulls_below t ri -> t !! Z.to_nat ri = Some DNull -> nulls_below t (ri + 1).
Proof.
  intros Hri Hn Ht i Hi. destruct (decide (i = Z.to_nat ri)) as [->|]; [done|]. apply Hn. lia.
Qed.

Lemma used_nonnull t ri : nulls_below t ri -> Zlen (tbl_entries t) <> 0 ->
  exists j c, ri <= Z.of_nat j /\ t !! j = Some c /\ is_null c = false.
Proof.
  intros Hn Hu. destruct (tbl_entries t) as [|x l] eqn:E; [by rewrite Zlen_nil in Hu|].
  assert (x ∈ tbl_entries t) as Hx by (rewrite E; by left).
  apply elem_of_tbl_entries in Hx as (j & c & Hj & Hx). exists j, c.
  assert (is_null c = false) as Hc by (by destruct c; [apply elem_of_nil in Hx|..]).
  split; [|done]. destruct (Z.le_gt_cases ri (Z.of_nat j)) as [|Hlt]; [done|].
  rewrite (Hn j) in Hj by lia. injection Hj as <-. done.
Qed.

Lemma skip_empty_spec e0 t0 h1 p pa log : tbl_ok e0 t0 -> forall fuel ri ev,
  let D ri := Build_dict (mk_ht e0 t0) h1 ri p pa log in
  0 <= ri -> nulls_below t0 ri -> Zlen (tbl_entries t0) <> 0 -> 1 <= ev -> 2 ^ e0 - ri <= Z.of_nat fuel ->
  exists ri' ev' out, skip_empty fuel (D ri) ev = Ret (D ri', ev', out) /\
    ri <= ri' <= 2 ^ e0 /\ nulls_below t0 ri' /\
    if (out : bool) then ri < ri' else ri' < 2 ^ e0 /\ 1 <= ev'.
Proof.
  intros Ht0 fuel. pose proof (tbl_len _ _ Ht0) as Hl. unfold Zlen in Hl.
  induction fuel as [|fuel IH]; intros ri ev D Hri Hn Hu Hev Hf;
    destruct (used_nonnull _ _ Hn Hu) as (j & cj & Hj & Htj & Hcj);
    pose proof (lookup_lt_Some _ _ _ Htj) as Hjl; [lia|].
  cbn [skip_empty]. unfold bucket_get. cbn [get_ht Z.eqb ht0 ht_table mk_ht rehashidx].
  destruct (rd_ok t0 ri) as [c Hc]; [unfold Zlen; lia|]. cbv delta [D]. cbn [ht0 ht_table mk_ht rehashidx].
  rewrite Hc. cbn [mbind outcome_bind]. apply rd_Ret_inv in Hc as [_ Hc].
  pose proof (is_null_spec c) as Hcn. destruct (is_null c) eqn:Ec.
  - subst c. pose proof (nulls_below_succ _ _ Hri Hn Hc) as Hn'. unfold set_rehashidx.
    cbn [ht0 ht1 pauserehash pauseAutoResize d_log].
    destruct (Z.eqb_spec (ev - 1) 0).
    + exists (ri + 1), (ev - 1), true. split; [done|]. split; [|split; [done|lia]].
      assert (Z.of_nat j <> ri) by (intros <-; rewrite Nat2Z.id in Hc; rewrite Hc in Htj; injection Htj as <-; done). lia.
    + destruct (IH (ri + 1) (ev - 1)) as (ri' & ev' & out & Hs & Hr & Hn'' & Ho); [lia|done|done|lia|lia|].
      exists ri', ev', out. split; [done|]. split; [lia|]. split; [done|]. destruct out; lia.
  - exists ri, ev, false. split; [done|]. split; [|split; [done|]]; lia.
Qed.

Lemma rehash_loop_spec e0 e1 p pa log n : forall t0 t1 ri ev,
  let D t0 t1 ri := Build_dict (mk_ht e0 t0) (mk_ht e1 t1) ri p pa log in
  dict_wf (D t0 t1 ri) -> tbl_ok e0 t0 -> tbl_ok e1 t1 -> e0 <> e1 -> 0 <= ri <= 2 ^ e0 ->
  nulls_below t0 ri -> 1 <= ev ->
  exists t0' t1' ri' early, rehash_loop type n (D t0 t1 ri) ev = Ret (D t0' t1' ri', early) /\
    tbl_ok e0 t0' /\ tbl_ok e1 t1' /\ nulls_below t0' ri' /\ same_contents (D t0 t1 ri) (D t0' t1' ri') /\
    ri <= ri' <= 2 ^ e0 /\ ((1 <= n)%nat -> early = true \/ Zlen (tbl_entries t0') <> 0 -> ri < ri').
Proof.
  induction n as [|n IH]; intros t0 t1 ri ev D Hwf Ht0 Ht1 Hne Hri Hn Hev; cbn [rehash_loop].
  - exists t0, t1, ri, false. do 4 (split; [done|]). split; [by apply same_contents_refl|]. split; [lia|lia].
  - change (ht_used (ht0 (D t0 t1 ri))) with (Zlen (tbl_entries t0)).
    destruct (Z.eqb_spec (Zlen (tbl_entries t0)) 0) as [E|E].
    + exists t0, t1, ri, false. do 4 (split; [done|]). split; [by apply same_contents_refl|].
      split; [lia|]. intros _ [?|?]; done.
    + pose proof (tbl_exp _ _ Ht0) as He0. pose proof (tbl_len _ _ Ht0) as Hl0. unfold Zlen in Hl0.
      change (ht_size_exp (ht0 (D t0 t1 ri))) with e0. change (rehashidx (D t0 t1 ri)) with ri.
      rewrite DICTHT_SIZE_pow by lia. destruct (used_nonnull _ _ Hn E) as (j & cj & Hj & Htj & _).
      apply lookup_lt_Some in Htj. destruct (Z.ltb_spec ri (2 ^ e0)) as [Hlt|]; [|lia].
      cbn [c_assert mbind outcome_bind].
      destruct (skip_empty_spec e0 t0 (mk_ht e1 t1) p pa log Ht0 (Z.to_nat (2 ^ e0)) ri ev)
        as (ri1 & ev1 & out & Hs & Hri1 & Hn1 & Hout); [lia|done|done|done|lia|].
      assert (skip_empty (Z.to_nat (2 ^ e0)) (D t0 t1 ri) ev = Ret (D t0 t1 ri1, ev1, out)) as -> by exact Hs.
      cbn [mbind outcome_bind].
      assert (same_contents (D t0 t1 ri) (D t0 t1 ri1)) as Hsc1.
      { apply same_contents_intro; try done; [apply shape_rehashing; try done; lia|apply Hwf|].
        etransitivity; [exact (wf_log_rehashing _ Hwf)|]. unfold rehash_state, dictIsRehashing, D. cbn [rehashidx].
        destruct (Z.eqb_spec ri (-1)), (Z.eqb_spec ri1 (-1)); (lia || done). }
      destruct out.
      { exists t0, t1, ri1, true. do 5 (split; [done|]). split; [lia|]. intros; lia. }
      destruct Hout as [Hri1' Hev1].
      change (rehashidx (D t0 t1 ri1)) with ri1.
      destruct (move_bucket e0 t0 e1 t1 ri1 p pa log ri1) as (t1' & Hmv & Ht0' & Ht1' & Hsc & Hn');
        [apply Hsc1|done|done|done|lia|done|lia|].
      assert (rehashEntriesInBucketAtIndex type (D t0 t1 ri1) ri1 =
        Ret (D (<[Z.to_nat ri1 := DNull]> t0) t1' ri1)) as -> by exact Hmv.
      cbn [mbind outcome_bind]. change (set_rehashidx (D (<[Z.to_nat ri1 := DNull]> t0) t1' ri1) (rehashidx (D (<[Z.to_nat ri1 := DNull]> t0) t1' ri1) + 1))
        with (D (<[Z.to_nat ri1 := DNull]> t0) t1' (ri1 + 1)).
      assert (nulls_below (<[Z.to_nat ri1 := DNull]> t0) (ri1 + 1)) as Hn''.
      { apply nulls_below_succ; [lia|done|]. apply list_lookup_insert_eq. lia. }
      assert (same_contents (D t0 t1 ri) (D (<[Z.to_nat ri1 := DNull]> t0) t1' (ri1 + 1))) as Hsc2.
      { apply (same_contents_trans _ (D t0 t1 ri1)); [done|]. destruct Hsc as [Hw Hp _ _ _].
        apply same_contents_intro; try done; [apply Hsc1|apply shape_rehashing; try done; lia|apply Hw|].
        etransitivity; [exact (wf_log_rehashing _ Hw)|]. unfold rehash_state, dictIsRehashing, D. cbn [rehashidx].
        destruct (Z.eqb_spec ri1 (-1)), (Z.eqb_spec (ri1 + 1) (-1)); (lia || done). }
      destruct (IH (<[Z.to_nat ri1 := DNull]> t0) t1' (ri1 + 1) ev1)
        as (t0' & t1'' & ri' & early & Hr & H0 & H1 & Hnb & Hsc3 & Hri' & Hprog);
        [apply Hsc2|done|done|done|lia|done|done|].
      exists t0', t1'', ri', early. do 4 (split; [done|]).
      split; [by apply (same_contents_trans _ _ _ Hsc2)|]. split; [lia|]. intros; lia.
Qed.

(** The resize policy forbids to move entries. *)
Definition rehash_blocked d : bool := bool_decide (can_resize = DICT_RESIZE_FORBID) || rehash_avoided can_resize d.

(** What [dictRehash] did: it moved buckets, completed the rehashing, or nothing. *)
Record rehashed (n : nat) d d' (more : bool) : Prop := {
  re_same : same_contents d d';
  re_rehashing : dictIsRehashing d' = true -> dictIsRehashing d = true /\
    ht_size_exp (ht0 d') = ht_size_exp (ht0 d) /\ ht_size_exp (ht1 d') = ht_size_exp (ht1 d) /\
    rehashidx d <= rehashidx d' <= DICTHT_SIZE (ht_size_exp (ht0 d));
  re_more : more = true -> dictIsRehashing d' = true /\ ((1 <= n)%nat -> rehashidx d < rehashidx d');
  re_done : dictIsRehashing d = true -> dictIsRehashing d' = false -> ht_size_exp (ht0 d') = ht_size_exp (ht1 d);
  re_stop : more = false -> dictIsRehashing d' = true -> d' = d /\ rehash_blocked d = true;
}.

Lemma rehashed_none n d : dict_wf d -> rehash_blocked d = true \/ dictIsRehashing d = false -> rehashed n d d false.
Proof.
  intros Hwf Hb. split; [by apply same_contents_refl| |done|congruence|intros _ Hr; split; [done|]].
  - intros Hr. split; [done|]. split; [done|]. split; [done|].
    destruct (wf_shape _ Hwf) as [| |e0 t0 e1 t1 ri p pa log Ht0]; [done..|].
    cbn. pose proof (tbl_exp _ _ Ht0). rewrite DICTHT_SIZE_pow by lia. lia.
  - destruct Hb; [done|congruence].
Qed.

(** The end of [dictRehash]. *)
Lemma rehash_end n d e0 t0 e1 t1 ri p pa log early :
  let d' := Build_dict (mk_ht e0 t0) (mk_ht e1 t1) ri p pa log in
  same_contents d d' -> dictIsRehashing d = true -> 2 <= e0 <= 60 ->
  ht_size_exp (ht0 d) = e0 -> ht_size_exp (ht1 d) = e1 -> 0 <= ri -> rehashidx d <= ri <= 2 ^ e0 ->
  ((1 <= n)%nat -> early = true \/ Zlen (tbl_entries t0) <> 0 -> rehashidx d < ri) ->
  exists d'' more, (if (early : bool) then Ret (d', true) else
      let '(d, completed) := dictCheckRehashingCompleted d' in Ret (d, negb completed)) = Ret (d'', more) /\
    rehashed n d d'' more.
Proof.
  intros d' Hsc Hre He0 E0 E1 Hri0 Hri Hprog.
  assert (dictIsRehashing d' = true) as Hd'.
  { unfold dictIsRehashing, d'. cbn. destruct (Z.eqb_spec ri (-1)); [lia|done]. }
  assert (DICTHT_SIZE (ht_size_exp (ht0 d)) = 2 ^ e0) as Hs by (rewrite E0; apply DICTHT_SIZE_pow; lia).
  destruct early.
  - exists d', true. split; [done|]. split; [exact Hsc| | |intros _ Hf; by destruct (eq_true_false_abs _ Hd' Hf)|discriminate].
    + intros _. rewrite Hs. split; [done|]. split; [by rewrite E0|]. split; [by rewrite E1|]. exact Hri.
    + intros _. split; [done|]. intros Hn1. apply Hprog; [done|by left].
  - destruct (dictCheckRehashingCompleted_spec e0 t0 e1 t1 ri p pa log) as (d'' & b & Hc & Hsc' & -> & Hb);
      [apply Hsc|lia|]. fold d' in Hc. rewrite Hc. eexists _, _. split; [done|].
    destruct (Z.eqb_spec (Zlen (tbl_entries t0)) 0) as [E|E].
    + destruct Hb as [Hb1 Hb2]. split; [by apply (same_contents_trans _ _ _ Hsc)|congruence|done|congruence|congruence].
    + subst d''. split; [exact Hsc| | |intros _ Hf; by destruct (eq_true_false_abs _ Hd' Hf)|discriminate].
      * intros _. rewrite Hs. split; [done|]. split; [by rewrite E0|]. split; [by rewrite E1|]. exact Hri.
      * intros _. split; [done|]. intros Hn1. apply Hprog; [done|by right].
Qed.

Lemma dictRehash_spec d n : dict_wf d ->
  exists d' more, dictRehash type can_resize d n = Ret (d', more) /\ rehashed n d d' more.
Proof.
  intros Hwf. unfold dictRehash. cbv zeta.
  case_bool_decide as Hf; cbn [orb].
  { exists d, false. split; [done|]. apply rehashed_none; [done|]. left. unfold rehash_blocked. by rewrite bool_decide_true. }
  destruct (dictIsRehashing d) eqn:Er; cbn [negb];
    [|exists d, false; split; [done|]; apply rehashed_none; [done|by right]].
  destruct (rehash_avoided can_resize d) eqn:Ea.
  { exists d, false. split; [done|]. apply rehashed_none; [done|]. left. unfold rehash_blocked. by rewrite Ea, orb_true_r. }
  destruct (wf_shape _ Hwf) as [| |e0 t0 e1 t1 ri p pa log Ht0 Ht1 Hne Hri Hn]; [done..|].
  pose proof (tbl_exp _ _ Ht0) as He0.
  destruct n as [|n].
  - apply (rehash_end 0 _ e0 t0 e1 t1 ri p pa log false); try done; try (by apply same_contents_refl); cbn [rehashidx]; lia.
  - destruct (rehash_loop_spec e0 e1 p pa log (S n) t0 t1 ri (Z.of_nat (S n) * 10))
      as (t0' & t1' & ri' & early & -> & Ht0' & Ht1' & Hn' & Hsc & Hri' & Hprog); try done; [lia|].
    cbn [mbind outcome_bind]. apply (rehash_end (S n)); try done; cbn [rehashidx]; lia.
Qed.

Lemma _dictRehashStep_spec d : dict_wf d ->
  exists d', _dictRehashStep type can_resize d = Ret d' /\ same_contents d d' /\
    (dictIsRehashing d' = true -> dictIsRehashing d = true /\ ht_size_exp (ht0 d') = ht_size_exp (ht0 d)).
Proof.
  intros Hwf. unfold _dictRehashStep. destruct (pauserehash d =? 0).
  - destruct (dictRehash_spec d 1 Hwf) as (d' & more & -> & [Hsc Hr _ _ _]).
    exists d'. split; [done|]. split; [done|]. intros H. by destruct (Hr H) as (? & ? & _).
  - exists d. split; [done|]. split; [by apply same_contents_refl|done].
Qed.

Lemma _dictRehashStepIfNeeded_spec d h : dict_wf d ->
  exists d', _dictRehashStepIfNeeded type can_resize d (Z.land h (DICTHT_SIZE_MASK (ht_size_exp (ht0 d)))) = Ret d' /\
    same_contents d d' /\
    (dictIsRehashing d' = true -> dictIsRehashing d = true /\ ht_size_exp (ht0 d') = ht_size_exp (ht0 d)).
Proof.
  intros Hwf. unfold _dictRehashStepIfNeeded.
  destruct (negb (dictIsRehashing d) || negb (pauserehash d =? 0)) eqn:Eg;
    [exists d; split; [done|]; split; [by apply same_contents_refl|done]|].
  apply orb_false_iff in Eg as [Er Ep]. apply negb_false_iff in Er, Ep.
  assert (exists d', ('(d, _) ← dictRehash type can_resize d 1; Ret d) = Ret d' /\ same_contents d d' /\
    (dictIsRehashing d' = true -> dictIsRehashing d = true /\ ht_size_exp (ht0 d') = ht_size_exp (ht0 d))) as Hstep.
  { destruct (dictRehash_spec d 1 Hwf) as (d' & more & -> & [Hsc Hr _ _ _]).
    exists d'. split; [done|]. split; [done|]. intros H. by destruct (Hr H) as (? & ? & _). }
  destruct (wf_shape _ Hwf) as [| |e0 t0 e1 t1 ri p pa log Ht0 Ht1 Hne Hri Hn]; [done..|].
  pose proof (tbl_exp _ _ Ht0) as He0. cbn [ht_size_exp ht0 mk_ht]. rewrite land_mask by lia.
  destruct (tbl_bucket _ _ h Ht0) as (c & Hc & _ & Hidx).
  cbn [rehashidx]. destruct (Z.leb_spec ri (h mod 2 ^ e0)); [|exact Hstep].
  unfold bucket_get. cbn [get_ht Z.eqb ht0 ht_table mk_ht]. rewrite Hc. cbn [mbind outcome_bind].
  destruct (is_null c); [exact Hstep|]. cbn [negb]. unfold _dictBucketRehash. rewrite Er, Ep. cbn [negb orb].
  set (d := Build_dict _ _ _ _ _ _) in *.
  case_bool_decide; cbn [orb]; [exists d; split; [done|]; split; [by apply same_contents_refl|done]|].
  destruct (rehash_avoided can_resize d); [exists d; split; [done|]; split; [by apply same_contents_refl|done]|].
  destruct (move_bucket e0 t0 e1 t1 ri p pa log (h mod 2 ^ e0)) as (t1' & Hmv & Ht0' & Ht1' & Hsc & Hn'); try done.
  fold d in Hmv, Hsc. rewrite Hmv. cbn [mbind outcome_bind].
  destruct (dictCheckRehashingCompleted_spec e0 (<[Z.to_nat (h mod 2 ^ e0) := DNull]> t0) e1 t1' ri p pa log)
    as (d'' & b & -> & Hsc' & _ & Hb); [apply Hsc|lia|].
  exists d''. split; [done|]. split; [by apply (same_contents_trans _ _ _ Hsc)|].
  destruct b; [destruct Hb; congruence|]. by subst d''.
Qed.

(** *** Resizing *)

Lemma _dictNextExp_spec size : 0 <= size < 2 ^ 64 -> 2 <= _dictNextExp size <= 63 /\
  (size <= 2 ^ 63 -> size <= 2 ^ _dictNextExp size) /\
  (4 < size -> 2 ^ (_dictNextExp size - 1) < size).
Proof.
  intros Hs. unfold _dictNextExp. change DICT_HT_INITIAL_SIZE with 4. change DICT_HT_INITIAL_EXP with 2.
  unfold LONG_MAX. destruct (Z.leb_spec size 4); [split; [lia|]; split; [|lia]; change (2 ^ 2) with 4; lia|].
  destruct (Z.leb_spec (2 ^ 63 - 1) size).
  - split; [lia|]. split; [lia|]. intros _. change (2 ^ (63 - 1)) with (2 ^ 62). lia.
  - unfold clzl. pose proof (Z.log2_spec (size - 1) ltac:(lia)) as [Hl1 Hl2].
    assert (Z.log2 (size - 1) < 63) by (apply Z.log2_lt_pow2; lia).
    assert (2 <= Z.log2 (size - 1) + 1) by (change 2 with (Z.log2 4 + 0) at 1; pose proof (Z.log2_le_mono 4 (size - 1)); change (Z.log2 4) with 2 in *; lia).
    replace (64 - (63 - Z.log2 (size - 1))) with (Z.log2 (size - 1) + 1) by lia.
    split; [lia|]. split; intros _; [unfold Z.succ in *; lia|].
    replace (Z.log2 (size - 1) + 1 - 1) with (Z.log2 (size - 1)) by lia. lia.
Qed.

(** The overflow tests of [_dictResize]. *)
Lemma size_check e size : 2 <= e <= 63 ->
  (DICTHT_SIZE e <? size) || (u64 (DICTHT_SIZE e * 8) <? DICTHT_SIZE e) = false -> 2 <= e <= 60.
Proof.
  intros He. rewrite orb_false_iff. intros [_ Ho]. apply Z.ltb_ge in Ho. rewrite DICTHT_SIZE_pow in Ho by lia.
  split; [lia|]. destruct (Z.le_gt_cases e 60) as [|Hgt]; [done|]. exfalso.
  assert (e = 61 \/ e = 62 \/ e = 63) as [-> |[-> | ->]] by lia; vm_compute in Ho; congruence.
Qed.

Lemma full_rehash_spec fuel d : dict_wf d -> dictIsRehashing d = true ->
  DICTHT_SIZE (ht_size_exp (ht0 d)) - rehashidx d < Z.of_nat fuel ->
  exists d', full_rehash type can_resize fuel d = Ret d' /\ same_contents d d' /\
    if dictIsRehashing d' then d' = d else ht_size_exp (ht0 d') = ht_size_exp (ht1 d).
Proof.
  intros Hwf Hr Hf.
  assert (forall d, dict_wf d -> dictIsRehashing d = true -> rehash_blocked d = false ->
    DICTHT_SIZE (ht_size_exp (ht0 d)) - rehashidx d < Z.of_nat fuel ->
    exists d', full_rehash type can_resize fuel d = Ret d' /\ same_contents d d' /\ dictIsRehashing d' = false /\
      ht_size_exp (ht0 d') = ht_size_exp (ht1 d)) as Hgo.
  { clear d Hwf Hr Hf. induction fuel as [|fuel IH]; intros d Hwf Hr Hb Hf.
    - destruct (wf_shape _ Hwf) as [| |e0 t0 e1 t1 ri p pa log Ht0 Ht1 Hne Hri Hn]; [done..|].
      cbn in Hf. pose proof (tbl_exp _ _ Ht0). rewrite DICTHT_SIZE_pow in Hf by lia. lia.
    - cbn [full_rehash]. destruct (dictRehash_spec d 1000 Hwf) as (d1 & more & -> & [Hsc Hre Hm Hdn Hs]).
      cbn [mbind outcome_bind]. destruct more.
      + destruct (Hm eq_refl) as [Hr1 Hlt]. specialize (Hlt ltac:(lia)). destruct (Hre Hr1) as (_ & E0 & E1 & _).
        destruct (IH d1) as (d' & -> & Hsc' & Hd' & He'); [apply Hsc|done| |rewrite E0; lia|].
        * unfold rehash_blocked, rehash_avoided in *. by rewrite E0, E1.
        * exists d'. split; [done|]. split; [by apply (same_contents_trans _ _ _ Hsc)|]. split; [done|congruence].
      + exists d1. split; [done|]. split; [done|]. destruct (dictIsRehashing d1) eqn:E; [|by split; [|apply Hdn]].
        destruct (Hs eq_refl eq_refl) as [_ ?]. congruence. }
  destruct (rehash_blocked d) eqn:Hb.
  - destruct fuel as [|fuel].
    { destruct (wf_shape _ Hwf) as [| |e0 t0 e1 t1 ri p pa log Ht0 Ht1 Hne Hri Hn]; [done..|].
      cbn in Hf. pose proof (tbl_exp _ _ Ht0). rewrite DICTHT_SIZE_pow in Hf by lia. lia. }
    assert (dictRehash type can_resize d 1000 = Ret (d, false)) as E.
    { unfold dictRehash, rehash_blocked in *. apply orb_true_iff in Hb as [-> | ->]; cbn [orb]; [done|].
      by destruct (bool_decide _ || _). }
    exists d. cbn [full_rehash]. rewrite E. split; [done|]. split; [by apply same_contents_refl|by rewrite Hr].
  - destruct (Hgo d Hwf Hr Hb Hf) as (d' & -> & Hsc & Hd' & He'). exists d'. split; [done|]. split; [done|by rewrite Hd'].
Qed.

(** What a resize did: nothing, or the table in which keys are now inserted
    has the size asked for, and nothing was moved yet. *)
Record resized d d' (size : Z) (ok : bool) : Prop := {
  rs_same : same_contents d d';
  rs_idx : dictIsRehashing d' = true -> rehashidx d' = 0;
  rs_ok : ok = true -> ht_table (ht0 d') <> None /\
    ht_size_exp (if dictIsRehashing d' then ht1 d' else ht0 d') = _dictNextExp size;
  rs_not : ok = false -> d' = d;
}.

Lemma new_table e : 2 <= e <= 60 ->
  Build_ht (Some (replicate (Z.to_nat (DICTHT_SIZE e)) DNull)) 0 e = mk_ht e (replicate (Z.to_nat (2 ^ e)) (@DNull SK V)).
Proof. intros He. unfold mk_ht. rewrite tbl_entries_replicate, DICTHT_SIZE_pow by lia. done. Qed.

Lemma log_emit d e : d_log (emit d e) = d_log d ++ [e].
Proof. done. Qed.

(** A first table, or one in place of an empty one. *)
Lemma resize_empty d e t : dict_wf d -> dictIsRehashing d = false -> entries d = [] -> tbl_ok e t -> tbl_entries t = [] ->
  same_contents d (Build_dict (mk_ht e t) _dictReset (-1) (pauserehash d) (pauseAutoResize d)
    ((((d_log d ++ [EvRehashingStarted (DICTHT_SIZE (ht_size_exp (ht0 d)))]) ++ [EvBucketChanged (DICTHT_SIZE e)])
      ++ [EvRehashingCompleted (DICTHT_SIZE (ht_size_exp (ht0 d)))])
      ++ [EvBucketChanged (- DICTHT_SIZE (ht_size_exp (ht0 d)))])).
Proof.
  intros Hwf Hr He Ht Hte. apply same_contents_intro; try done.
  - by apply shape_stable.
  - change (tbl_entries t ++ [] ≡ₚ entries d). by rewrite Hte, He.
  - pose proof (wf_log_buckets _ Hwf) as Hb. cbn [d_log ht_size_exp ht0 ht1 mk_ht _dictReset].
    rewrite !log_buckets_app, Hb. cbn [log_buckets]. change (DICTHT_SIZE (-1)) with 0.
    assert (DICTHT_SIZE (ht_size_exp (ht1 d)) = 0) as ->; [|lia].
    destruct (wf_shape _ Hwf) as [| |e0 t0 e1 t1 ri]; [done..|]. unfold dictIsRehashing in Hr. cbn in Hr.
    destruct (Z.eqb_spec ri (-1)); [lia|done].
  - pose proof (wf_log_rehashing _ Hwf) as Hl. unfold rehash_state in Hl. rewrite Hr in Hl. cbn [d_log].
    rewrite !log_rehashing_app, Hl. cbn [foldl]. rewrite ev_started. exact (ev_completed (ht_size_exp (ht0 d))).
Qed.

(** A rehashing begins. *)
Lemma resize_start e t e1 p pa log : let d := Build_dict (mk_ht e t) _dictReset (-1) p pa log in
  dict_wf d -> tbl_ok e t -> 2 <= e1 <= 60 -> e <> e1 ->
  same_contents d (Build_dict (mk_ht e t) (mk_ht e1 (replicate (Z.to_nat (2 ^ e1)) DNull)) 0 p pa
    ((log ++ [EvRehashingStarted (DICTHT_SIZE e)]) ++ [EvBucketChanged (DICTHT_SIZE e1)])).
Proof.
  intros d Hwf Ht He1 Hne. apply same_contents_intro; try done.
  - apply shape_rehashing; [done|by apply tbl_ok_replicate|done| |intros; lia].
    split; [lia|]. apply Z.pow_nonneg. lia.
  - change (tbl_entries t ++ tbl_entries (replicate (Z.to_nat (2 ^ e1)) DNull) ≡ₚ tbl_entries t ++ []).
    by rewrite tbl_entries_replicate.
  - pose proof (wf_log_buckets _ Hwf) as Hb. cbn in Hb. cbn [d_log ht_size_exp ht0 ht1 mk_ht].
    rewrite !log_buckets_app, Hb. cbn. change (DICTHT_SIZE (-1)) with 0. lia.
  - pose proof (wf_log_rehashing _ Hwf) as Hl. change (log_rehashing log = -1) in Hl. cbn [d_log]. rewrite !log_rehashing_app, Hl. exact (ev_started e).
Qed.

Lemma _dictResize_spec d size try avail : dict_wf d -> dictIsRehashing d = false -> 0 <= size < 2 ^ 64 ->
  exists d' ok mf, _dictResize type can_resize d size try avail = Ret (d', ok, mf) /\ resized d d' size ok /\
    (mf = true -> avail = false) /\
    (size <= 2 ^ 60 -> _dictNextExp size <> ht_size_exp (ht0 d) -> try && negb avail = false -> ok = true).
Proof.
  intros Hwf Hr Hs. unfold _dictResize. rewrite Hr. cbn [negb c_assert mbind outcome_bind].
  destruct (_dictNextExp_spec size Hs) as (He & Hle & Hgt). set (e := _dictNextExp size) in *.
  assert (resized d d size false) as Hnone.
  { split; [by apply same_contents_refl|congruence|done|done]. }
  destruct ((DICTHT_SIZE e <? size) || (u64 (DICTHT_SIZE e * 8) <? DICTHT_SIZE e)) eqn:Ec.
  { exists d, false, false. split; [done|]. split; [done|]. split; [done|]. intros Hs60 _ _. exfalso.
    assert (e <= 60) as He60.
    { destruct (Z.le_gt_cases e 60); [done|]. destruct (Z.le_gt_cases size 4) as [H4|H4].
      - unfold e, _dictNextExp in *. change DICT_HT_INITIAL_SIZE with 4 in *.
        destruct (Z.leb_spec size 4); [|lia]. change DICT_HT_INITIAL_EXP with 2 in *. lia.
      - specialize (Hgt H4). pose proof (Z.pow_le_mono_r 2 60 (e - 1)). lia. }
    rewrite DICTHT_SIZE_pow in Ec by lia. specialize (Hle ltac:(lia)).
    pose proof (Z.pow_le_mono_r 2 e 60 ltac:(lia) He60). rewrite wrapu_id in Ec by lia.
    destruct (Z.ltb_spec (2 ^ e) size), (Z.ltb_spec (2 ^ e * 8) (2 ^ e)); try lia; done. }
  apply size_check in Ec; [|done].
  destruct (Z.eqb_spec e (ht_size_exp (ht0 d))) as [E|E].
  { exists d, false, false. split; [done|]. split; [done|]. split; [done|]. intros _ ? _. done. }
  destruct (try && negb avail) eqn:Ea.
  { exists d, false, true. split; [done|]. split; [done|]. split; [|done]. intros _.
    apply andb_true_iff in Ea as [_ ?]. by destruct avail. }
  rewrite (new_table e Ec).
  assert (tbl_ok e (replicate (Z.to_nat (2 ^ e)) DNull)) as Hnew by (by apply tbl_ok_replicate).
  destruct (wf_shape _ Hwf) as [p pa log|e0 t p pa log Ht|e0 t0 e1 t1 ri p pa log Ht0 Ht1 Hne Hri Hn].
  - eexists _, true, false. split; [reflexivity|]. split; [|done]. split; [|done|done|done].
    pose proof (resize_empty _ e _ Hwf Hr eq_refl Hnew (tbl_entries_replicate _)) as Hsc.
    exact Hsc.
  - cbn [set_rehashidx set_ht emit ht0 ht1 ht_table ht_used mk_ht Z.eqb rehashidx pauserehash pauseAutoResize d_log ht_size_exp orb].
    destruct (Z.eqb_spec (Zlen (tbl_entries t)) 0) as [Ez|Ez].
    + eexists _, true, false. split; [reflexivity|]. split; [|done]. split; [|done|done|done].
      assert (tbl_entries t = []) as Et by (destruct (tbl_entries t); [done|]; rewrite Zlen_cons in Ez; pose proof (Zlen_nonneg l); lia).
      assert (entries (Build_dict (mk_ht e0 t) _dictReset (-1) p pa log) = []) as Een by (change (tbl_entries t ++ [] = []); by rewrite Et).
      pose proof (resize_empty _ e _ Hwf Hr Een Hnew (tbl_entries_replicate _)) as Hsc.
      cbn [set_rehashidx set_ht emit ht0 ht1 Z.eqb rehashidx pauserehash pauseAutoResize d_log ht_size_exp].
      exact Hsc.
    + pose proof (resize_start e0 t e p pa log Hwf Ht Ec (not_eq_sym E)) as Hsc.
      destruct (force_full_rehash type).
      * destruct (full_rehash_spec (Z.to_nat (DICTHT_SIZE e0) + 1) _ (sc_wf _ _ Hsc)) as (d' & Hfr & Hsc' & Hd'); [done| |].
        { cbn. pose proof (tbl_exp _ _ Ht). rewrite DICTHT_SIZE_pow by lia. pose proof (Z.pow_nonneg 2 e0). lia. }
        match goal with |- context [full_rehash type can_resize ?f ?x] =>
          replace (full_rehash type can_resize f x) with (Ret d') by (symmetry; exact Hfr) end.
        cbn [mbind outcome_bind]. exists d', true, false. split; [done|]. split; [|done].
        split; [by apply (same_contents_trans _ _ _ Hsc)| | |done].
        -- intros H. by rewrite H in Hd'; subst d'.
        -- intros _. split; [by apply Hsc'|]. destruct (dictIsRehashing d'); [by subst d'|done].
      * eexists _, true, false. split; [reflexivity|]. split; [|done]. by split.
  - unfold dictIsRehashing in Hr. cbn in Hr. destruct (Z.eqb_spec ri (-1)); [lia|done].
Qed.

Lemma used_size d : dict_wf d -> 0 <= ht_used (ht0 d) /\ 0 <= ht_used (ht1 d) /\
  ht_used (ht0 d) + ht_used (ht1 d) = Zlen (entries d) /\ Zlen (entries d) < 2 ^ 62.
Proof.
  intros Hwf. pose proof (wf_size _ Hwf) as Hs.
  assert (forall t, 0 <= Zlen (tbl_entries (SK:=SK) (V:=V) t)) as Ht by (intros; apply Zlen_nonneg).
  destruct (wf_shape _ Hwf); unfold entries, ht_entries in *; cbn [ht_used ht0 ht1 mk_ht _dictReset ht_table] in *;
    zlen; [lia|pose proof (Ht t); lia|pose proof (Ht t0); pose proof (Ht t1); lia].
Qed.

Lemma dictSize_spec d : dict_wf d -> dictSize d = Zlen (entries d).
Proof.
  intros Hwf. destruct (used_size d Hwf) as (H0 & H1 & H2 & H3). unfold dictSize. rewrite wrapu_id by lia. done.
Qed.

Lemma size_pos e t : tbl_ok e t -> 4 <= DICTHT_SIZE e.
Proof.
  intros Ht. pose proof (tbl_exp _ _ Ht). rewrite DICTHT_SIZE_pow by lia.
  change 4 with (2 ^ 2). apply Z.pow_le_mono_r; lia.
Qed.

Lemma size0_used d : dict_wf d -> DICTHT_SIZE (ht_size_exp (ht0 d)) = 0 -> ht_used (ht0 d) = 0.
Proof.
  intros Hwf. destruct (wf_shape _ Hwf) as [|e t p pa log Ht|e0 t0 e1 t1 ri p pa log Ht]; [done|..];
    cbn [ht_size_exp ht0 mk_ht]; pose proof (size_pos _ _ Ht); lia.
Qed.

Lemma dictExpand_spec d size : dict_wf d -> 0 <= size < 2 ^ 64 ->
  exists d' ok, dictExpand type can_resize d size = Ret (d', ok) /\
    if dictIsRehashing d then d' = d /\ ok = false else resized d d' size ok /\
      (DICTHT_SIZE (ht_size_exp (ht0 d)) = 0 -> 4 <= size <= 2 ^ 60 -> ok = true).
Proof.
  intros Hwf Hs. unfold dictExpand, _dictExpand. destruct (dictIsRehashing d) eqn:Er.
  - exists d, false. done.
  - cbn [orb]. assert (resized d d size false) as Hnone.
    { split; [by apply same_contents_refl|congruence|done|done]. }
    destruct (Z.ltb_spec size (ht_used (ht0 d))) as [Hlt|Hge]; cbn [orb].
    { exists d, false. split; [done|]. split; [done|]. intros Hz ?. exfalso.
      rewrite (size0_used d Hwf Hz) in Hlt. lia. }
    destruct (Z.leb_spec size (DICTHT_SIZE (ht_size_exp (ht0 d)))).
    { exists d, false. split; [done|]. split; [done|]. lia. }
    destruct (_dictResize_spec d size false true Hwf Er Hs) as (d' & ok & mf & -> & Hr & _ & Hok).
    exists d', ok. split; [done|]. split; [done|]. intros Hz ?. apply Hok; [lia| |done].
    destruct (_dictNextExp_spec size Hs) as ([He _] & _). intros E.
    rewrite <- E, DICTHT_SIZE_pow in Hz by (destruct (_dictNextExp_spec size Hs); lia).
    pose proof (Z.pow_pos_nonneg 2 (_dictNextExp size)). lia.
Qed.

Lemma dictShrink_spec d size : dict_wf d -> 0 <= size < 2 ^ 64 ->
  exists d' ok, dictShrink type can_resize d size = Ret (d', ok) /\
    if dictIsRehashing d then d' = d /\ ok = false else resized d d' size ok.
Proof.
  intros Hwf Hs. unfold dictShrink. destruct (dictIsRehashing d) eqn:Er; [by exists d, false|].
  cbn [orb]. assert (resized d d size false) as Hnone.
  { split; [by apply same_contents_refl|congruence|done|done]. }
  destruct (_ || _); [by exists d, false|].
  destruct (_dictResize_spec d size false true Hwf Er Hs) as (d' & ok & mf & -> & Hr & _ & _).
  by exists d', ok.
Qed.

(** [d'] is [d], or the same contents at the start of a rehashing or without one. *)
Definition regrown d d' : Prop :=
  same_contents d d' /\ if dictIsRehashing d then d' = d else dictIsRehashing d' = true -> rehashidx d' = 0.

Lemma regrown_refl d : dict_wf d -> regrown d d.
Proof. intros Hwf. split; [by apply same_contents_refl|]. by destruct (dictIsRehashing d). Qed.

Lemma resized_regrown d d' size ok : dictIsRehashing d = false -> resized d d' size ok -> regrown d d'.
Proof. intros Hr [Hsc Hi _ _]. split; [done|]. by rewrite Hr. Qed.

Lemma dictExpandIfNeeded_spec d : dict_wf d ->
  exists d' b, dictExpandIfNeeded type can_resize d = Ret (d', b) /\ regrown d d' /\ ht_table (ht0 d') <> None.
Proof.
  intros Hwf. unfold dictExpandIfNeeded. destruct (dictIsRehashing d) eqn:Er.
  { exists d, true. split; [done|]. split; [by apply regrown_refl|].
    destruct (wf_shape _ Hwf); [done..|]; done. }
  destruct (Z.eqb_spec (DICTHT_SIZE (ht_size_exp (ht0 d))) 0) as [Ez|Ez].
  { destruct (dictExpand_spec d DICT_HT_INITIAL_SIZE Hwf ltac:(done)) as (d' & ok & -> & Hd').
    rewrite Er in Hd'. destruct Hd' as [Hr Hok]. cbn [mbind outcome_bind].
    exists d', true. split; [done|]. split; [by eapply resized_regrown|].
    specialize (Hok Ez ltac:(done)). by destruct (rs_ok _ _ _ _ Hr Hok). }
  assert (ht_table (ht0 d) <> None) as Htab.
  { destruct (wf_shape _ Hwf); [|done|done]. by cbn in Ez. }
  destruct (_ || _); [|exists d, false; split; [done|]; split; [by apply regrown_refl|done]].
  destruct (used_size d Hwf) as (H0 & H1 & H2 & H3). rewrite wrapu_id by lia.
  destruct (dictTypeResizeAllowed _ _ _); [|exists d, true; split; [done|]; split; [by apply regrown_refl|done]].
  destruct (dictExpand_spec d (ht_used (ht0 d) + 1) Hwf ltac:(lia)) as (d' & ok & -> & Hd').
  rewrite Er in Hd'. destruct Hd' as [Hr _]. cbn [mbind outcome_bind].
  exists d', true. split; [done|]. split; [by eapply resized_regrown|]. by apply (sc_table _ _ (rs_same _ _ _ _ Hr)).
Qed.

Lemma _dictExpandIfNeeded_spec d : dict_wf d -> ht_table (ht0 d) <> None \/ pauseAutoResize d <= 0 ->
  exists d', _dictExpandIfNeeded type can_resize d = Ret d' /\ regrown d d' /\ ht_table (ht0 d') <> None.
Proof.
  intros Hwf Hp. unfold _dictExpandIfNeeded. destruct (Z.ltb_spec 0 (pauseAutoResize d)).
  - exists d. split; [done|]. split; [by apply regrown_refl|]. destruct Hp; [done|lia].
  - destruct (dictExpandIfNeeded_spec d Hwf) as (d' & b & -> & Hg). by exists d'.
Qed.

Lemma dictShrinkIfNeeded_spec d : dict_wf d ->
  exists d' b, dictShrinkIfNeeded type can_resize d = Ret (d', b) /\ regrown d d'.
Proof.
  intros Hwf. unfold dictShrinkIfNeeded. destruct (dictIsRehashing d) eqn:Er.
  { exists d, true. split; [done|]. by apply regrown_refl. }
  destruct (_ <=? _); [exists d, true; split; [done|]; by apply regrown_refl|].
  destruct (_ || _); [|exists d, false; split; [done|]; by apply regrown_refl].
  destruct (dictTypeResizeAllowed _ _ _); [|exists d, true; split; [done|]; by apply regrown_refl].
  destruct (used_size d Hwf) as (H0 & H1 & H2 & H3).
  destruct (dictShrink_spec d (ht_used (ht0 d)) Hwf ltac:(lia)) as (d' & ok & -> & Hd').
  rewrite Er in Hd'. cbn [mbind outcome_bind]. exists d', true. split; [done|]. by eapply resized_regrown.
Qed.

Lemma _dictShrinkIfNeeded_spec d : dict_wf d ->
  exists d', _dictShrinkIfNeeded type can_resize d = Ret d' /\ regrown d d'.
Proof.
  intros Hwf. unfold _dictShrinkIfNeeded. destruct (0 <? pauseAutoResize d).
  - exists d. split; [done|]. by apply regrown_refl.
  - destruct (dictShrinkIfNeeded_spec d Hwf) as (d' & b & -> & Hg). by exists d'.
Qed.

(** ** The map a dict represents *)

Definition dict_map d : gmap C (SK * option V) :=
  list_to_map ((fun x => (entry_canon x, x)) <$> entries d).

Lemma fst_entries (l : list (SK * option V)) : ((fun x => (entry_canon x, x)) <$> l).*1 = entry_canon <$> l.
Proof. rewrite <- list_fmap_compose. done. Qed.

Lemma dict_map_lookup d x : dict_wf d -> x ∈ entries d -> dict_map d !! entry_canon x = Some x.
Proof.
  intros Hwf Hx. apply elem_of_list_to_map; [rewrite fst_entries; apply Hwf|].
  apply list_elem_of_fmap. by exists x.
Qed.

Lemma dict_map_none d k : (forall x, x ∈ entries d -> entry_canon x <> k) -> dict_map d !! k = None.
Proof.
  intros Hx. apply not_elem_of_list_to_map. rewrite fst_entries, list_elem_of_fmap.
  intros (x & -> & Hin). by apply (Hx x).
Qed.

Lemma dict_map_perm d' l : dict_wf d' -> entries d' ≡ₚ l ->
  dict_map d' = list_to_map ((fun x => (entry_canon x, x)) <$> l).
Proof.
  intros Hwf Hp. apply list_to_map_proper; [rewrite fst_entries; apply Hwf|]. by rewrite Hp.
Qed.

Lemma dict_map_same d d' : same_contents d d' -> dict_map d' = dict_map d.
Proof. intros [Hwf Hp _ _ _]. by apply (dict_map_perm d' (entries d)). Qed.

Lemma dict_map_size d : dict_wf d -> size (dict_map d) = length (entries d).
Proof.
  intros Hwf. unfold dict_map. rewrite <- (length_fmap (fun x => (entry_canon x, x)) (entries d)).
  rewrite <- (length_map_to_list (list_to_map _)). apply Permutation_length, map_to_list_to_map.
  rewrite fst_entries. apply Hwf.
Qed.

(** ** Lookup *)

(** [link] points to the entry [x]. *)
Definition points d (link : dictEntryLink) (x : SK * option V) : Prop :=
  (link.1.1 = 0 \/ link.1.1 = 1) /\ exists de rest, link_get d link = Ret de /\ chain_list de = x :: rest.

Lemma chain_at_drop c j x : chain_list c !! j = Some x ->
  exists de, chain_at c j = Ret de /\ chain_list de = x :: drop (S j) (chain_list c).
Proof.
  revert c. induction j as [|j IH]; intros c Hx; cbn [chain_at].
  - exists c. split; [done|]. destruct (chain_list c); [done|]. by simplify_eq/=.
  - destruct c as [|k|k v next]; cbn [chain_list] in *; [done|done|]. cbn in Hx.
    destruct (IH next Hx) as (de & -> & Hl). exists de. split; [done|]. by rewrite Hl.
Qed.

Lemma compare_canon key k v : keyCompare type key (dictStoredKey2Key type k) = bool_decide (canon key = entry_canon (k, v)).
Proof. unfold entry_canon, dictStoredKey2Key. cbn [fst]. apply keys_compare. Qed.

Lemma find_chain_spec key c : forall n,
  match find_chain type key c n with
  | Some m => exists j x, m = (n + j)%nat /\ chain_list c !! j = Some x /\ entry_canon x = canon key
  | None => forall x, x ∈ chain_list c -> entry_canon x <> canon key
  end.
Proof.
  induction c as [|k|k v next IH]; intros n; cbn [find_chain chain_list].
  - intros x Hx. by apply elem_of_nil in Hx.
  - rewrite (compare_canon key k None). case_bool_decide as E.
    + exists 0%nat, (k, None). split; [lia|]. by split.
    + intros x Hx. apply elem_of_cons in Hx as [-> |Hx]; [congruence|by apply elem_of_nil in Hx].
  - rewrite (compare_canon key k v). case_bool_decide as E.
    + exists 0%nat, (k, v). split; [lia|]. by split.
    + specialize (IH (S n)). destruct (find_chain type key next (S n)) as [m|].
      * destruct IH as (j & x & -> & Hj & Hx). exists (S j), x. split; [lia|]. by split.
      * intros x Hx. apply elem_of_cons in Hx as [-> |Hx]; [congruence|by apply IH].
Qed.

Lemma entry_hash_canon x key : entry_canon x = canon key -> entry_hash x = dictGetHash type key.
Proof. unfold entry_canon, entry_hash, dictGetHash. apply keys_hash. Qed.

(** In the bucket of its hash, a key is found or is nowhere in the table. *)
Lemma table_find e t key : tbl_ok e t -> exists c,
  rd t (dictGetHash type key mod 2 ^ e) = Ret c /\
  match find_chain type key c 0 with
  | Some m => exists x de, x ∈ tbl_entries t /\ entry_canon x = canon key /\
      chain_list c !! m = Some x /\ chain_at c m = Ret de /\ chain_list de = x :: drop (S m) (chain_list c)
  | None => forall x, x ∈ tbl_entries t -> entry_canon x <> canon key
  end.
Proof.
  intros Ht. destruct (tbl_bucket e t (dictGetHash type key) Ht) as (c & Hc & Hlk & Hr).
  exists c. split; [done|]. pose proof (find_chain_spec key c 0) as Hf. destruct (find_chain type key c 0) as [m|].
  - destruct Hf as (j & x & -> & Hj & Hx). destruct (chain_at_drop _ _ _ Hj) as (de & Hde & Hl).
    exists x, de. split; [|done]. apply elem_of_tbl_entries. exists (Z.to_nat (dictGetHash type key mod 2 ^ e)), c.
    split; [done|]. by apply list_elem_of_lookup_2 in Hj.
  - intros x Hx Hxc. apply elem_of_tbl_entries in Hx as (i & c' & Hi & Hx).
    pose proof (tbl_placed _ _ Ht _ _ _ Hi Hx) as Hp. rewrite (entry_hash_canon _ _ Hxc) in Hp.
    rewrite Hp, Nat2Z.id in Hlk. rewrite Hi in Hlk. injection Hlk as ->. by apply (Hf x).
Qed.

(** Where the key must go when it is absent: its bucket in the table that receives insertions. *)
Definition insert_index d (key : K) : Z :=
  dictGetHash type key mod 2 ^ ht_size_exp (if dictIsRehashing d then ht1 d else ht0 d).

Definition found d (key : K) (r : option dictEntryLink) (last : Z) : Prop :=
  match r with
  | Some link => exists x, points d link x /\ x ∈ entries d /\ entry_canon x = canon key /\ last = link.1.2
  | None => (forall x, x ∈ entries d -> entry_canon x <> canon key) /\ last = insert_index d key
  end.

Lemma find_tables_spec d key idx : dict_wf d -> ht_table (ht0 d) <> None ->
  (dictIsRehashing d = true -> rehashidx d = 0 \/
     idx = Z.land (dictGetHash type key) (DICTHT_SIZE_MASK (ht_size_exp (ht0 d)))) -> 0 <= idx ->
  exists r last, find_tables type d key (dictGetHash type key) idx = Ret (r, last) /\ found d key r last.
Proof.
  intros Hwf Htab Hidx Hi0. unfold find_tables.
  destruct (wf_shape _ Hwf) as [|e t p pa log Ht|e0 t0 e1 t1 ri p pa log Ht0 Ht1 Hne Hri Hn]; [done|..].
  - cbn [rehashidx]. destruct (Z.ltb_spec idx (-1)); [lia|].
    pose proof (tbl_exp _ _ Ht). unfold bucket_get. cbn [get_ht Z.eqb ht0 ht_table ht_size_exp mk_ht].
    rewrite (land_mask _ e) by lia. destruct (table_find _ _ key Ht) as (c & Hc & Hf). rewrite Hc.
    cbn [mbind outcome_bind]. destruct (find_chain type key c 0) as [m|]; cbn [fmap option_fmap option_map].
    + destruct Hf as (x & de & Hin & Hx & _ & Hat & Hl). eexists _, _. split; [done|]. exists x.
      split; [|split; [by apply elem_of_app; left|done]]. split; [by left|]. exists de, (drop (S m) (chain_list c)). split; [|done].
      unfold link_get, bucket_get. cbn [get_ht Z.eqb ht0 ht_table mk_ht]. by rewrite Hc.
    + eexists _, _. split; [done|]. split; [|done]. intros x Hx. apply elem_of_app in Hx as [Hx|Hx]; [by apply Hf|].
      by apply elem_of_nil in Hx.
  - set (d := Build_dict _ _ _ _ _ _) in *.
    assert (dictIsRehashing d = true) as Hre by (unfold dictIsRehashing, d; cbn; destruct (Z.eqb_spec ri (-1)); [lia|done]).
    specialize (Hidx Hre). pose proof (tbl_exp _ _ Ht0). pose proof (tbl_exp _ _ Ht1).
    change (rehashidx d) with ri in *. change (ht_size_exp (ht0 d)) with e0 in *. change (ht_size_exp (ht1 d)) with e1.
    destruct (table_find _ _ key Ht1) as (c1 & Hc1 & Hf1). rewrite Hre. rewrite (land_mask _ e1), (land_mask _ e0) by lia. rewrite (land_mask _ e0) in Hidx by lia.
    assert (bucket_get d 1 (dictGetHash type key mod 2 ^ e1) = Ret c1) as Hb1 by exact Hc1.
    assert (forall (r0 : Z), (forall x, x ∈ tbl_entries t0 -> entry_canon x <> canon key) ->
      exists r last, (c ← bucket_get d 1 (dictGetHash type key mod 2 ^ e1);
        Ret ((fun depth => (1, dictGetHash type key mod 2 ^ e1, depth)) <$> find_chain type key c 0,
             dictGetHash type key mod 2 ^ e1)) = Ret (r, last) /\ found d key r last) as Hsecond.
    { intros _ Hno. rewrite Hb1. cbn [mbind outcome_bind].
      destruct (find_chain type key c1 0) as [m|]; cbn [fmap option_fmap option_map].
      - destruct Hf1 as (x & de & Hin & Hx & _ & Hat & Hl). eexists _, _. split; [done|]. exists x.
        split; [|split; [by apply elem_of_app; right|done]]. split; [by right|]. exists de, (drop (S m) (chain_list c1)). split; [|done].
        unfold link_get. by rewrite Hb1.
      - eexists _, _. split; [done|]. split; [|unfold insert_index; by rewrite Hre].
        intros x Hx. apply elem_of_app in Hx as [Hx|Hx]; [by apply Hno|by apply Hf1]. }
    destruct (Z.ltb_spec idx ri) as [Hlt|Hge].
    + cbn [mbind outcome_bind]. apply (Hsecond 0). intros x Hx Hxc. destruct Hidx as [?|Hidx]; [lia|].
      apply elem_of_tbl_entries in Hx as (i & c & Hci & Hx).
      pose proof (tbl_placed _ _ Ht0 _ _ _ Hci Hx) as Hp. rewrite (entry_hash_canon _ _ Hxc) in Hp.
      rewrite (Hn i) in Hci by lia. injection Hci as <-. by apply elem_of_nil in Hx.
    + destruct (table_find _ _ key Ht0) as (c0 & Hc0 & Hf0).
      assert (bucket_get d 0 (dictGetHash type key mod 2 ^ e0) = Ret c0) as Hb0 by exact Hc0.
      rewrite Hb0. cbn [mbind outcome_bind]. destruct (find_chain type key c0 0) as [m|]; cbn [fmap option_fmap option_map].
      * destruct Hf0 as (x & de & Hin & Hx & _ & Hat & Hl). eexists _, _. split; [done|]. exists x.
        split; [|split; [by apply elem_of_app; left|done]]. split; [by left|]. exists de, (drop (S m) (chain_list c0)). split; [|done].
        unfold link_get. by rewrite Hb0.
      * by apply (Hsecond 0).
Qed.

(** ** Changing one bucket *)

(** What an operation on the entries of a bucket leaves alone. *)
Record frame d d' : Prop := {
  fr_pause : pauserehash d' = pauserehash d;
  fr_auto : pauseAutoResize d' = pauseAutoResize d;
  fr_idx : rehashidx d' = rehashidx d;
  fr_exp0 : ht_size_exp (ht0 d') = ht_size_exp (ht0 d);
  fr_exp1 : ht_size_exp (ht1 d') = ht_size_exp (ht1 d);
  fr_table : ht_table (ht0 d) <> None -> ht_table (ht0 d') <> None;
}.

Lemma wf_frame d d' : dict_wf d -> shape d' -> frame d d' ->
  log_buckets (d_log d') = log_buckets (d_log d) -> log_rehashing (d_log d') = log_rehashing (d_log d) ->
  NoDup (entry_canon <$> entries d') -> Zlen (entries d') < 2 ^ 62 -> dict_wf d'.
Proof.
  intros [_ _ _ Hb Hr] Hs [_ _ Hi H0 H1 _] Hlb Hlr Hu Hsz. split; try done.
  - by rewrite Hlb, Hb, H0, H1.
  - rewrite Hlr, Hr. unfold rehash_state, dictIsRehashing. by rewrite Hi, H0.
Qed.

Lemma used_add_0 d table : dict_wf d -> used_add d table 0 = d.
Proof.
  intros Hwf. destruct (used_size d Hwf) as (H0 & H1 & H2 & H3).
  destruct d as [[t0 u0 e0] [t1 u1 e1] ri p pa log]. unfold used_add, get_ht, set_ht. cbn in *.
  destruct (table =? 0); cbn; rewrite Z.add_0_r, wrapu_id by lia; done.
Qed.

(** Replacing the chain of a bucket of a table. *)
Lemma tbl_update e t idx c c' : tbl_ok e t -> rd t idx = Ret c -> chain_all_ok c' ->
  (forall x, x ∈ chain_list c' -> entry_hash x mod 2 ^ e = idx) ->
  exists t', wr t idx c' = Ret t' /\ tbl_ok e t' /\
    (forall i, i <> Z.to_nat idx -> t' !! i = t !! i) /\
    Zlen (tbl_entries t') = Zlen (tbl_entries t) + (Zlen (chain_list c') - Zlen (chain_list c)) /\
    exists rest, tbl_entries t ≡ₚ chain_list c ++ rest /\ tbl_entries t' ≡ₚ chain_list c' ++ rest.
Proof.
  intros Ht Hc Hok Hx. apply rd_Ret_inv in Hc as [Hi Hc]. rewrite wr_ok by done.
  destruct (tbl_entries_split _ _ _ Hc) as (rest & Hp & Hp'). specialize (Hp' c').
  eexists. split; [done|]. split; [|split; [|split; [|by exists rest]]].
  - apply tbl_ok_insert; [done|done|]. intros x Hin. rewrite (Hx x Hin). lia.
  - intros i Hne. by rewrite list_lookup_insert_ne.
  - apply Permutation_length in Hp, Hp'. rewrite length_app in Hp, Hp'. unfold Zlen. lia.
Qed.

Lemma bucket_update d table idx c c' : dict_wf d -> table = 0 \/ table = 1 ->
  bucket_get d table idx = Ret c -> chain_all_ok c' ->
  (forall x, x ∈ chain_list c' -> entry_hash x mod 2 ^ ht_size_exp (get_ht d table) = idx) ->
  c <> DNull \/ table = c_bool (dictIsRehashing d) ->
  Zlen (entries d) + (Zlen (chain_list c') - Zlen (chain_list c)) < 2 ^ 62 ->
  exists d1, bucket_set d table idx c' = Ret d1 /\ d_log d1 = d_log d /\
    let d2 := used_add d1 table (Zlen (chain_list c') - Zlen (chain_list c)) in
    shape d2 /\ frame d d2 /\
    exists rest, entries d ≡ₚ chain_list c ++ rest /\ entries d2 ≡ₚ chain_list c' ++ rest.
Proof.
  intros Hwf Htable Hget Hok Hx Hnn Hsz. unfold bucket_get in Hget. unfold bucket_set.
  pose proof (used_size d Hwf) as Hus.
  destruct (wf_shape _ Hwf) as [p pa log|e t p pa log Ht|e0 t0 e1 t1 ri p pa log Ht0 Ht1 Hne Hri Hn];
    destruct Htable as [-> | ->]; cbn [get_ht Z.eqb ht0 ht1 ht_table _dictReset mk_ht ht_size_exp ht_used] in *; try done.
  - destruct (tbl_update _ _ _ _ _ Ht Hget Hok Hx) as (t' & -> & Ht' & _ & Hl & rest & Hp & Hp').
    cbn [mbind outcome_bind]. eexists. split; [reflexivity|]. split; [done|].
    unfold used_add, set_ht, get_ht. cbn [Z.eqb ht0 ht1 ht_table ht_used ht_size_exp rehashidx pauserehash pauseAutoResize d_log].
    unfold entries in *; unfold ht_entries in *; cbn [ht0 ht1 ht_table mk_ht _dictReset] in *.
    rewrite !app_nil_r in *. pose proof (Zlen_nonneg (tbl_entries t')).
    rewrite wrapu_id, <- Hl by lia.
    split; [by apply shape_stable|]. split; [by split|]. by exists rest.
  - destruct (tbl_update _ _ _ _ _ Ht0 Hget Hok Hx) as (t' & -> & Ht' & Hsame & Hl & rest & Hp & Hp').
    cbn [mbind outcome_bind]. eexists. split; [reflexivity|]. split; [done|].
    unfold used_add, set_ht, get_ht. cbn [Z.eqb ht0 ht1 ht_table ht_used ht_size_exp rehashidx pauserehash pauseAutoResize d_log].
    unfold entries in *; unfold ht_entries in *; cbn [ht0 ht1 ht_table mk_ht] in *.
    rewrite !Zlen_app in *. pose proof (Zlen_nonneg (tbl_entries t')). pose proof (Zlen_nonneg (tbl_entries t1)).
    rewrite wrapu_id, <- Hl by lia.
    split; [|split; [by split|exists (rest ++ tbl_entries t1); by rewrite Hp, Hp', !app_assoc]].
    apply shape_rehashing; try done. intros i Hi. rewrite Hsame; [by apply Hn|]. intros ->.
    apply rd_Ret_inv in Hget as [_ Hget]. rewrite (Hn _ Hi) in Hget. injection Hget as <-.
    destruct Hnn as [?|Hnn]; [done|]. unfold dictIsRehashing in Hnn. cbn in Hnn.
    destruct (Z.eqb_spec ri (-1)); [lia|done].
  - destruct (tbl_update _ _ _ _ _ Ht1 Hget Hok Hx) as (t' & -> & Ht' & Hsame & Hl & rest & Hp & Hp').
    cbn [mbind outcome_bind]. eexists. split; [reflexivity|]. split; [done|].
    unfold used_add, set_ht, get_ht. cbn [Z.eqb ht0 ht1 ht_table ht_used ht_size_exp rehashidx pauserehash pauseAutoResize d_log].
    unfold entries in *; unfold ht_entries in *; cbn [ht0 ht1 ht_table mk_ht] in *.
    rewrite !Zlen_app in *. pose proof (Zlen_nonneg (tbl_entries t')). pose proof (Zlen_nonneg (tbl_entries t0)).
    rewrite wrapu_id, <- Hl by lia.
    split; [by apply shape_rehashing|]. split; [by split|]. exists (tbl_entries t0 ++ rest).
    rewrite Hp, Hp'. split; apply Permutation_app_swap_app.
Qed.

(** *** Chains at a link *)

Lemma chain_set_spec c j de de' : chain_at c j = Ret de -> exists c', chain_set c j de' = Ret c' /\
  chain_list c' = take j (chain_list c) ++ chain_list de' /\
  (chain_all_ok c -> chain_all_ok de' -> chain_all_ok c').
Proof.
  revert c. induction j as [|j IH]; intros c Hat; cbn [chain_at chain_set] in *.
  - exists de'. done.
  - destruct c as [|k|k v next]; [done|done|]. destruct (IH next Hat) as (c' & -> & Hl & Hok).
    cbn [mbind outcome_bind]. eexists. split; [done|]. split; [cbn; by rewrite Hl|].
    cbn. intros [? ?] ?. split; [done|by apply Hok].
Qed.

Lemma chain_at_list c j de : chain_at c j = Ret de -> chain_list de = drop j (chain_list c) /\ (chain_all_ok c -> chain_all_ok de).
Proof.
  revert c. induction j as [|j IH]; intros c Hat; cbn [chain_at] in *.
  - injection Hat as ->. done.
  - destruct c as [|k|k v next]; [done|done|]. destruct (IH next Hat) as [Hl Hok]. split; [done|].
    cbn. intros [_ ?]. by apply Hok.
Qed.

(** The bucket of a link: in a table of the dict, well placed. *)
Lemma bucket_facts d table idx c : dict_wf d -> table = 0 \/ table = 1 -> bucket_get d table idx = Ret c ->
  chain_all_ok c /\ (forall x, x ∈ chain_list c -> entry_hash x mod 2 ^ ht_size_exp (get_ht d table) = idx).
Proof.
  intros Hwf Htable Hget. unfold bucket_get in Hget.
  assert (forall e t, tbl_ok e t -> rd t idx = Ret c ->
    chain_all_ok c /\ (forall x, x ∈ chain_list c -> entry_hash x mod 2 ^ e = idx)) as Hgo.
  { intros e t Ht Hc. apply rd_Ret_inv in Hc as [Hi Hc]. split; [by apply (tbl_chains _ _ Ht _ _ Hc)|].
    intros x Hx. rewrite (tbl_placed _ _ Ht _ _ _ Hc Hx). lia. }
  destruct (wf_shape _ Hwf); destruct Htable as [-> | ->]; cbn in *; try done; eauto.
Qed.

Lemma link_update d table idx depth de de' : dict_wf d -> table = 0 \/ table = 1 ->
  link_get d (table, idx, depth) = Ret de -> de <> DNull -> chain_all_ok de' ->
  (forall x, x ∈ chain_list de' -> entry_hash x mod 2 ^ ht_size_exp (get_ht d table) = idx) ->
  (length (chain_list de') <= length (chain_list de))%nat ->
  exists d1, link_set d (table, idx, depth) de' = Ret d1 /\ d_log d1 = d_log d /\
    let d2 := used_add d1 table (Zlen (chain_list de') - Zlen (chain_list de)) in
    shape d2 /\ frame d d2 /\
    exists rest, entries d ≡ₚ chain_list de ++ rest /\ entries d2 ≡ₚ chain_list de' ++ rest.
Proof.
  intros Hwf Htable Hget Hnn Hok Hx Hlen. unfold link_get, link_set in *.
  destruct (bucket_get d table idx) as [c| | |] eqn:Hc; cbn [mbind outcome_bind] in *; try done.
  destruct (bucket_facts _ _ _ _ Hwf Htable Hc) as [Hcok Hcx].
  destruct (chain_at_list _ _ _ Hget) as [Hl _]. destruct (chain_set_spec c depth de de' Hget) as (c' & -> & Hl' & Hok').
  cbn [mbind outcome_bind].
  assert (chain_list c = take depth (chain_list c) ++ chain_list de) as Hsplit by (by rewrite Hl, take_drop).
  assert (Zlen (chain_list c') - Zlen (chain_list c) = Zlen (chain_list de') - Zlen (chain_list de)) as Hdiff.
  { rewrite Hsplit at 1. rewrite Hl', !Zlen_app. lia. }
  pose proof (wf_size _ Hwf).
  destruct (bucket_update d table idx c c') as (d1 & -> & Hlog & Hs & Hf & rest & Hp & Hp');
    [done|done|done|by apply Hok'| | |unfold Zlen in *; lia|].
  { intros x Hin. rewrite Hl' in Hin. apply elem_of_app in Hin as [Hin|Hin]; [|by apply Hx].
    apply Hcx. rewrite Hsplit. apply elem_of_app. by left. }
  { left. intros ->. cbn in Hl. destruct de; [done|..]; by rewrite drop_nil in Hl. }
  exists d1. split; [done|]. split; [done|]. rewrite <- Hdiff. split; [done|]. split; [done|].
  exists (take depth (chain_list c) ++ rest). rewrite Hp, Hp', Hl'. rewrite Hsplit at 1.
  rewrite <- !app_assoc. split; apply Permutation_app_swap_app.
Qed.

Lemma emit_wf d e : dict_wf d -> log_buckets [e] = 0 -> quiet [e] -> dict_wf (emit d e).
Proof.
  intros Hwf Hb Hr. apply (wf_frame d); try done.
  - destruct (wf_shape _ Hwf); by constructor.
  - cbn. by rewrite log_buckets_app, Hb, Z.add_0_r.
  - cbn. by rewrite log_rehashing_app, Hr.
  - apply Hwf.
  - apply Hwf.
Qed.

Lemma dictFreeUnlinkedEntry_spec d he : he <> DNull ->
  exists evs, dictFreeUnlinkedEntry d he = Ret (Build_dict (ht0 d) (ht1 d) (rehashidx d) (pauserehash d) (pauseAutoResize d) (d_log d ++ evs)) /\
    log_buckets evs = 0 /\ quiet evs.
Proof.
  intros Hn. unfold dictFreeUnlinkedEntry. destruct he as [|k|k [v|] next]; [done|..]; cbn.
  - by exists [EvFreeKey k].
  - exists [EvFreeKey k; EvFreeVal v]. unfold emit. cbn. by rewrite <- app_assoc.
  - by exists [EvFreeKey k].
Qed.

(** The map after an entry was taken out or replaced. *)
Lemma dict_map_delete d d' x rest : dict_wf d -> dict_wf d' -> entries d ≡ₚ x :: rest -> entries d' ≡ₚ rest ->
  dict_map d' = delete (entry_canon x) (dict_map d).
Proof.
  intros Hwf Hwf' Hp Hp'. rewrite (dict_map_perm d' rest Hwf' Hp'), (dict_map_perm d _ Hwf Hp). cbn.
  rewrite delete_insert_id; [done|]. apply not_elem_of_list_to_map. rewrite fst_entries.
  pose proof (wf_uniq _ Hwf) as Hu. rewrite Hp in Hu. cbn in Hu. by inversion Hu.
Qed.

Lemma dict_map_replace d d' x x' rest : dict_wf d -> dict_wf d' -> entry_canon x' = entry_canon x ->
  entries d ≡ₚ x :: rest -> entries d' ≡ₚ x' :: rest -> dict_map d' = <[entry_canon x := x']> (dict_map d).
Proof.
  intros Hwf Hwf' Hc Hp Hp'. rewrite (dict_map_perm d' _ Hwf' Hp'), (dict_map_perm d _ Hwf Hp). cbn.
  by rewrite Hc, insert_insert_eq.
Qed.

Lemma dict_map_insert d d' x : dict_wf d -> dict_wf d' -> entries d' ≡ₚ x :: entries d ->
  dict_map d' = <[entry_canon x := x]> (dict_map d).
Proof. intros Hwf Hwf' Hp. by rewrite (dict_map_perm d' _ Hwf' Hp). Qed.

Lemma found_map d key r last : dict_wf d -> found d key r last ->
  match r with
  | Some link => exists x, points d link x /\ dict_map d !! canon key = Some x /\ entry_canon x = canon key
  | None => dict_map d !! canon key = None
  end.
Proof.
  intros Hwf. destruct r as [link|]; cbn.
  - intros (x & Hp & Hin & Hc & _). exists x. split; [done|]. split; [|done]. rewrite <- Hc. by apply dict_map_lookup.
  - intros [Hno _]. by apply dict_map_none.
Qed.

Lemma dict_empty_map d key : dict_wf d -> dictSize d = 0 -> dict_map d !! canon key = None.
Proof.
  intros Hwf Hs. rewrite dictSize_spec in Hs by done. apply dict_map_none. intros x Hx.
  destruct (entries d); [by apply elem_of_nil in Hx|]. zlen. pose proof (Zlen_nonneg l). lia.
Qed.

Lemma dict_nonempty_table d : dict_wf d -> dictSize d <> 0 -> ht_table (ht0 d) <> None.
Proof. intros Hwf Hs. destruct (wf_shape _ Hwf); done. Qed.

(** The lookup that starts most operations, after a rehashing step. *)
Lemma step_find d key : dict_wf d -> ht_table (ht0 d) <> None ->
  exists d' r last, _dictRehashStepIfNeeded type can_resize d
      (Z.land (dictGetHash type key) (DICTHT_SIZE_MASK (ht_size_exp (ht0 d)))) = Ret d' /\
    same_contents d d' /\
    find_tables type d' key (dictGetHash type key)
      (Z.land (dictGetHash type key) (DICTHT_SIZE_MASK (ht_size_exp (ht0 d)))) = Ret (r, last) /\
    found d' key r last.
Proof.
  intros Hwf Htab. destruct (_dictRehashStepIfNeeded_spec d (dictGetHash type key) Hwf) as (d' & Hd' & Hsc & Hr).
  destruct (find_tables_spec d' key (Z.land (dictGetHash type key) (DICTHT_SIZE_MASK (ht_size_exp (ht0 d)))))
    as (r & last & Hf & Hfd).
  - apply Hsc.
  - by apply Hsc.
  - intros H. right. by destruct (Hr H) as [_ ->].
  - apply Z.land_nonneg. left. pose proof (keys_hash_range key). unfold dictGetHash. lia.
  - exists d', r, last. done.
Qed.

Lemma dictFindLink_spec d key want_bucket : dict_wf d -> exists d' r b,
  dictFindLink type can_resize d key want_bucket = Ret (d', r, b) /\ same_contents d d' /\
  match r with
  | Some link => exists x, points d' link x /\ dict_map d !! canon key = Some x
  | None => dict_map d !! canon key = None
  end.
Proof.
  intros Hwf. unfold dictFindLink. destruct (Z.eqb_spec (dictSize d) 0) as [E|E].
  - exists d, None, None. split; [done|]. split; [by apply same_contents_refl|by apply dict_empty_map].
  - destruct (step_find d key Hwf (dict_nonempty_table d Hwf E)) as (d' & r & last & Hd' & Hsc & Hft & Hf).
    unfold dictFindLinkInternal. rewrite (proj2 (Z.eqb_neq _ _) E), andb_false_r. cbv zeta. rewrite Hd'.
    cbn [mbind outcome_bind]. rewrite Hft. cbn [mbind outcome_bind]. eexists _, _, _. split; [done|]. split; [done|].
    rewrite <- (dict_map_same _ _ Hsc). apply found_map in Hf; [|apply Hsc].
    destruct r; [|done]. destruct Hf as (x & Hp & Hm & _). by exists x.
Qed.

Lemma dictFind_spec d key : dict_wf d -> exists d' de,
  dictFind type can_resize d key = Ret (d', de) /\ same_contents d d' /\
  match dict_map d !! canon key with
  | Some x => exists rest, chain_list de = x :: rest
  | None => de = DNull
  end.
Proof.
  intros Hwf. unfold dictFind. destruct (dictFindLink_spec d key false Hwf) as (d' & r & b & -> & Hsc & Hr).
  cbn [mbind outcome_bind]. destruct r as [link|].
  - destruct Hr as (x & (_ & de & rest & -> & Hl) & ->). cbn [mbind outcome_bind]. exists d', de.
    split; [done|]. split; [done|]. by exists rest.
  - exists d', DNull. split; [done|]. split; [done|]. by rewrite Hr.
Qed.

(** ** Deletion *)

Definition add_log d (evs : list (dictEvent SK V)) : dict :=
  Build_dict (ht0 d) (ht1 d) (rehashidx d) (pauserehash d) (pauseAutoResize d) (d_log d ++ evs).

Lemma used_add_log d evs table n : used_add (add_log d evs) table n = add_log (used_add d table n) evs.
Proof. unfold used_add, set_ht, get_ht, add_log. by destruct (table =? 0). Qed.

Lemma add_log_nil d : add_log d [] = d.
Proof. unfold add_log. rewrite app_nil_r. by destruct d. Qed.

Lemma shape_add_log d evs : shape d -> shape (add_log d evs).
Proof. intros Hs. destruct Hs; by constructor. Qed.

Lemma unlink_spec d table idx depth he x rest : dict_wf d -> table = 0 \/ table = 1 ->
  link_get d (table, idx, depth) = Ret he -> chain_list he = x :: rest ->
  exists next dA, dictGetNext he = Ret next /\ link_set d (table, idx, depth) next = Ret dA /\
    forall evs, log_buckets evs = 0 -> quiet evs ->
      let d2 := add_log (used_add dA table (-1)) evs in
      dict_wf d2 /\ frame d d2 /\ dict_map d2 = delete (entry_canon x) (dict_map d) /\ entries d ≡ₚ x :: entries d2.
Proof.
  intros Hwf Htable Hget Hl.
  assert (exists next, dictGetNext he = Ret next /\ chain_list next = rest /\ (chain_all_ok he -> chain_all_ok next)) as (next & Hnext & Hln & Hokn).
  { destruct he as [|k|k v next]; [done|..]; cbn in Hl; injection Hl as <- <-; cbn.
    - exists DNull. done.
    - exists next. split; [done|]. split; [done|]. by intros [_ ?]. }
  assert (chain_all_ok he /\ (forall y, y ∈ chain_list he -> entry_hash y mod 2 ^ ht_size_exp (get_ht d table) = idx)) as [Hok Hx].
  { unfold link_get in Hget. destruct (bucket_get d table idx) as [c| | |] eqn:Hc; try done. cbn in Hget.
    destruct (bucket_facts _ _ _ _ Hwf Htable Hc) as [Hcok Hcx]. destruct (chain_at_list _ _ _ Hget) as [Hd Hdok].
    split; [by apply Hdok|]. intros y Hy. apply Hcx. rewrite Hd in Hy. by eapply elem_of_submseteq; [done|apply sublist_submseteq, sublist_drop]. }
  destruct (link_update d table idx depth he next) as (dA & Hset & Hlog & Hs & Hf & rest' & Hp & Hp');
    [done|done|done|by intros ->|by apply Hokn| |rewrite Hln, Hl; cbn; lia|].
  { intros y Hy. apply Hx. rewrite Hl. rewrite Hln in Hy. by right. }
  exists next, dA. split; [done|]. split; [done|]. intros evs Hb Hr.
  rewrite Hl, Hln in *. zlen. replace (Zlen rest - (1 + Zlen rest)) with (-1) in * by lia.
  set (d2 := used_add dA table (-1)) in *.
  assert (d_log d2 = d_log d) as Hlog2 by (unfold d2, used_add, set_ht; by destruct (table =? 0)).
  assert (entries d ≡ₚ x :: entries (add_log d2 evs)) as Hperm by (change (entries (add_log d2 evs)) with (entries d2); by rewrite Hp, Hp').
  assert (dict_wf (add_log d2 evs)) as Hwf2.
  { apply (wf_frame d); [done|by apply shape_add_log|by destruct Hf| | | |].
    - cbn [add_log d_log]. by rewrite log_buckets_app, Hb, Hlog2, Z.add_0_r.
    - cbn [add_log d_log]. by rewrite log_rehashing_app, Hr, Hlog2.
    - pose proof (wf_uniq _ Hwf) as Hu. rewrite Hperm in Hu. cbn in Hu. by inversion Hu.
    - pose proof (wf_size _ Hwf). apply Permutation_length in Hperm. cbn [length] in Hperm. unfold Zlen in *. lia. }
  split; [done|]. split; [by destruct Hf|]. split; [|done].
  by apply (dict_map_delete _ _ _ _ Hwf Hwf2 Hperm).
Qed.

Lemma dictGenericDelete_spec d key nofree : dict_wf d -> exists d' he,
  dictGenericDelete type can_resize d key nofree = Ret (d', he) /\ dict_wf d' /\
  dict_map d' = delete (canon key) (dict_map d) /\
  pauserehash d' = pauserehash d /\ pauseAutoResize d' = pauseAutoResize d /\
  match dict_map d !! canon key with
  | Some x => exists rest, chain_list he = x :: rest
  | None => he = DNull
  end.
Proof.
  intros Hwf. unfold dictGenericDelete. destruct (Z.eqb_spec (dictSize d) 0) as [E|E].
  { pose proof (dict_empty_map d key Hwf E) as Hm. exists d, DNull. rewrite Hm.
    split; [done|]. split; [done|]. split; [by rewrite delete_id|done]. }
  destruct (step_find d key Hwf (dict_nonempty_table d Hwf E)) as (d1 & r & last & -> & Hsc & Hft & Hf).
  cbn [mbind outcome_bind]. rewrite Hft. cbn [mbind outcome_bind].
  pose proof (found_map _ _ _ _ (sc_wf _ _ Hsc) Hf) as Hfm. rewrite <- (dict_map_same _ _ Hsc).
  destruct r as [[[table idx] depth]|].
  2:{ exists d1, DNull. rewrite Hfm. split; [done|]. split; [apply Hsc|]. split; [by rewrite delete_id|].
      split; [apply Hsc|]. split; [apply Hsc|done]. }
  destruct Hfm as (x & (Htable & he & rest & Hget & Hl) & Hm & Hxc). cbn [fst] in Htable.
  destruct (unlink_spec d1 table idx depth he x rest (sc_wf _ _ Hsc) Htable Hget Hl) as (next & dA & Hnext & Hset & Hun).
  rewrite Hget. cbn [mbind outcome_bind]. rewrite Hnext. cbn [mbind outcome_bind]. rewrite Hset. cbn [mbind outcome_bind].
  assert (exists evs, (if nofree then Ret dA else dictFreeUnlinkedEntry dA he) = Ret (add_log dA evs) /\
    log_buckets evs = 0 /\ quiet evs) as (evs & -> & Hb & Hr).
  { destruct nofree; [exists []; by rewrite add_log_nil|]. apply dictFreeUnlinkedEntry_spec. by intros ->. }
  cbn [mbind outcome_bind]. rewrite used_add_log. destruct (Hun evs Hb Hr) as (Hwf2 & Hfr & Hmap & _).
  destruct (_dictShrinkIfNeeded_spec _ Hwf2) as (d' & -> & [Hsc' _]). cbn [mbind outcome_bind].
  exists d', he. rewrite Hm, (dict_map_same _ _ Hsc'), Hmap, Hxc.
  split; [done|]. split; [apply Hsc'|]. split; [done|].
  rewrite (sc_pause _ _ Hsc'), (sc_auto _ _ Hsc'), (fr_pause _ _ Hfr), (fr_auto _ _ Hfr), (sc_pause _ _ Hsc), (sc_auto _ _ Hsc).
  split; [done|]. split; [done|]. by exists rest.
Qed.

(** ** Insertion *)

Lemma regrown_insert d d' : regrown d d' -> dict_map d' = dict_map d.
Proof. intros [Hsc _]. by apply dict_map_same. Qed.

Lemma dictFindLinkForInsert_spec d key : dict_wf d -> ht_table (ht0 d) <> None \/ pauseAutoResize d <= 0 ->
  exists d' r, dictFindLinkForInsert type can_resize d key = Ret (d', r) /\ same_contents d d' /\
  ht_table (ht0 d') <> None /\
  match r with
  | inr link => exists x, points d' link x /\ dict_map d !! canon key = Some x /\ entry_canon x = canon key
  | inl link => dict_map d !! canon key = None /\ (forall x, x ∈ entries d' -> entry_canon x <> canon key) /\
      link = (c_bool (dictIsRehashing d'), insert_index d' key, 0%nat)
  end.
Proof.
  intros Hwf Hpa. unfold dictFindLinkForInsert.
  destruct (_dictRehashStepIfNeeded_spec d (dictGetHash type key) Hwf) as (d1 & Hd1 & Hsc1 & Hr1).
  cbv zeta. rewrite Hd1. cbn [mbind outcome_bind].
  assert (ht_table (ht0 d1) <> None \/ pauseAutoResize d1 <= 0) as Hpa1.
  { destruct Hpa; [left; by apply Hsc1|right; by rewrite (sc_auto _ _ Hsc1)]. }
  destruct (_dictExpandIfNeeded_spec d1 (sc_wf _ _ Hsc1) Hpa1) as (d2 & -> & [Hsc2 Hg] & Htab). cbn [mbind outcome_bind].
  destruct (find_tables_spec d2 key (Z.land (dictGetHash type key) (DICTHT_SIZE_MASK (ht_size_exp (ht0 d)))))
    as (r & last & Hf & Hfd); [apply Hsc2|done| | |].
  { intros H2. destruct (dictIsRehashing d1) eqn:E1; [|left; by apply Hg]. subst d2. right.
    by destruct (Hr1 eq_refl) as [_ ->]. }
  { apply Z.land_nonneg. left. pose proof (keys_hash_range key). unfold dictGetHash. lia. }
  rewrite Hf. cbn [mbind outcome_bind].
  assert (same_contents d d2) as Hsc by (by apply (same_contents_trans _ _ _ Hsc1)).
  pose proof (found_map _ _ _ _ (sc_wf _ _ Hsc) Hfd) as Hfm. rewrite <- (dict_map_same _ _ Hsc).
  destruct r as [link|]; eexists _, _; (split; [done|]); (split; [done|]); (split; [done|]).
  - done.
  - destruct Hfd as [Hno ->]. done.
Qed.

Lemma insert_spec d key sk : dict_wf d -> ht_table (ht0 d) <> None -> Zlen (entries d) + 1 < 2 ^ 62 ->
  (forall x, x ∈ entries d -> entry_canon x <> canon key) -> canon (keyFromStoredKey type sk) = canon key ->
  exists d', dictInsertKeyAtLink type d sk (c_bool (dictIsRehashing d), insert_index d key, 0%nat) = Ret d' /\
    dict_wf d' /\ frame d d' /\ entries d' ≡ₚ (sk, None) :: entries d /\
    points d' (c_bool (dictIsRehashing d), insert_index d key, 0%nat) (sk, None).
Proof.
  intros Hwf Htab Hsz Hno Hsk. unfold dictInsertKeyAtLink.
  set (table := c_bool (dictIsRehashing d)). set (idx := insert_index d key).
  assert (table = 0 \/ table = 1) as Htable by (unfold table, c_bool; destruct (dictIsRehashing d); auto).
  assert (exists e t c, get_ht d table = mk_ht e t /\ tbl_ok e t /\ rd t idx = Ret c /\
    idx = dictGetHash type key mod 2 ^ e /\ 0 <= idx < 2 ^ e) as (e & t & c & Hht & Ht & Hc & Hidx & Hr).
  { assert (forall e t, tbl_ok e t -> exists c, rd t (dictGetHash type key mod 2 ^ e) = Ret c /\
      0 <= dictGetHash type key mod 2 ^ e < 2 ^ e) as Hgo.
    { intros e t Ht. destruct (tbl_bucket _ _ (dictGetHash type key) Ht) as (c & Hc & _ & Hr). by exists c. }
    unfold table, idx, insert_index. destruct (wf_shape _ Hwf) as [|e t p pa log Ht|e0 t0 e1 t1 ri p pa log Ht0 Ht1 Hne Hri Hn]; [done|..].
    - destruct (Hgo _ _ Ht) as (c & Hc & Hr). by exists e, t, c.
    - destruct (Hgo _ _ Ht1) as (c & Hc & Hr). unfold dictIsRehashing. cbn [rehashidx].
      destruct (Z.eqb_spec ri (-1)); [lia|]. by exists e1, t1, c. }
  rewrite Hht. cbn [ht_size_exp mk_ht]. pose proof (tbl_exp _ _ Ht).
  assert (DICTHT_SIZE_MASK e = 2 ^ e - 1) as ->.
  { unfold DICTHT_SIZE_MASK. destruct (Z.eqb_spec e (-1)); [lia|]. by rewrite DICTHT_SIZE_pow by lia. }
  destruct (Z.eqb_spec table table); [|done]. destruct (Z.leb_spec 0 idx); [|lia]. destruct (Z.leb_spec idx (2 ^ e - 1)); [|lia].
  cbn [Nat.eqb andb c_assert mbind outcome_bind].
  assert (bucket_get d table idx = Ret c) as Hget by (unfold bucket_get; by rewrite Hht).
  rewrite Hget. cbn [mbind outcome_bind].
  destruct (bucket_facts _ _ _ _ Hwf Htable Hget) as [Hcok Hcx].
  set (entry := if no_value type then _ else _).
  assert (chain_list entry = (sk, None) :: chain_list c /\ chain_all_ok entry) as [Hl Hok].
  { unfold entry. destruct (no_value type) eqn:Env; [|done]. destruct c; cbn [is_null]; [done|..]; done. }
  destruct (bucket_update d table idx c entry) as (d1 & Hset & Hlog & Hs & Hf & rest & Hp & Hp');
    [done|done|done|done| |by right|rewrite Hl; zlen; lia|].
  { intros x Hx. rewrite Hl in Hx. apply elem_of_cons in Hx as [-> |Hx]; [|by apply Hcx].
    rewrite Hht. cbn [ht_size_exp mk_ht]. rewrite Hidx. f_equal. apply entry_hash_canon. done. }
  rewrite Hset. cbn [mbind outcome_bind]. rewrite Hl in Hs, Hf, Hp'. zlen.
  replace (1 + Zlen (chain_list c) - Zlen (chain_list c)) with 1 in * by lia.
  assert (entries (used_add d1 table 1) ≡ₚ (sk, None) :: entries d) as Hperm by (by rewrite Hp', Hp).
  exists (used_add d1 table 1). split; [done|]. split; [|split; [done|split; [done|]]].
  - apply (wf_frame d); [done|done|done| | | |].
    + unfold used_add, set_ht. destruct (table =? 0); cbn; by rewrite Hlog.
    + unfold used_add, set_ht. destruct (table =? 0); cbn; by rewrite Hlog.
    + rewrite Hperm. cbn. constructor; [|apply Hwf]. rewrite list_elem_of_fmap. intros (x & Hxc & Hx).
      apply (Hno x Hx). rewrite <- Hxc. done.
    + apply Permutation_length in Hperm. cbn [length] in Hperm. unfold Zlen in *. lia.
  - split; [done|]. exists entry, (chain_list c). split; [|done]. unfold link_get.
    assert (bucket_get (used_add d1 table 1) table idx = Ret entry) as ->; [|done].
    unfold bucket_set in Hset. rewrite Hht in Hset. cbn [ht_table mk_ht] in Hset.
    destruct (wr t idx entry) as [t'| | |] eqn:Hw; try done. cbn in Hset. injection Hset as <-.
    assert (rd t' idx = Ret entry).
    { rewrite wr_ok in Hw by (pose proof (tbl_len _ _ Ht); lia). injection Hw as <-. apply rd_insert_eq.
      pose proof (tbl_len _ _ Ht). lia. }
    unfold bucket_get, used_add, get_ht, set_ht. destruct Htable as [-> | ->]; cbn; done.
Qed.

(** ** Values *)

Lemma used_add_0_range d table : 0 <= ht_used (get_ht d table) < 2 ^ 64 -> used_add d table 0 = d.
Proof.
  destruct d as [[t0 u0 e0] [t1 u1 e1] ri p pa log]. unfold used_add, get_ht, set_ht. cbn.
  destruct (table =? 0); cbn; intros; rewrite Z.add_0_r, wrapu_id by lia; done.
Qed.

Lemma link_set_used d link de d1 i : link_set d link de = Ret d1 -> ht_used (get_ht d1 i) = ht_used (get_ht d i).
Proof.
  destruct link as [[table idx] depth]. unfold link_set, bucket_get, bucket_set.
  destruct (ht_table (get_ht d table)) as [t|] eqn:Ht; [|done].
  destruct (rd t idx); try done. cbn. destruct (chain_set _ _ _); try done. cbn.
  destruct (wr t idx _); try done. cbn. intros [= <-].
  unfold set_ht, get_ht in *. by destruct (table =? 0), (i =? 0).
Qed.

Definition stored_val (v : V) : V := match valDup type with Some f => f v | None => v end.

Lemma set_val_at_spec d link x v : dict_wf d -> no_value type = false -> points d link x ->
  exists d', set_val_at type d link v = Ret d' /\ dict_wf d' /\ frame d d' /\
    dict_map d' = <[entry_canon x := (x.1, Some (stored_val v))]> (dict_map d).
Proof.
  intros Hwf Hnv (Htable & de & rest & Hget & Hl). destruct link as [[table idx] depth]. cbn [fst] in Htable.
  unfold set_val_at. rewrite Hget. cbn [mbind outcome_bind].
  assert (chain_all_ok de /\ (forall y, y ∈ chain_list de -> entry_hash y mod 2 ^ ht_size_exp (get_ht d table) = idx)) as [Hok Hx].
  { unfold link_get in Hget. destruct (bucket_get d table idx) as [c| | |] eqn:Hc; try done. cbn in Hget.
    destruct (bucket_facts _ _ _ _ Hwf Htable Hc) as [Hcok Hcx]. destruct (chain_at_list _ _ _ Hget) as [Hd Hdok].
    split; [by apply Hdok|]. intros y Hy. apply Hcx. rewrite Hd in Hy.
    by eapply elem_of_submseteq; [done|apply sublist_submseteq, sublist_drop]. }
  destruct de as [|k|k v0 next]; [done|by destruct Hok as [Hok _]; cbn in Hok; congruence|].
  cbn in Hl. injection Hl as <- <-. cbn [dictSetVal mbind outcome_bind]. fold (stored_val v).
  set (de' := DEntry k (Some (stored_val v)) next).
  destruct (link_update d table idx depth (DEntry k v0 next) de') as (d1 & Hset & Hlog & Hs & Hf & rest & Hp & Hp');
    [done|done|done|done| | |cbn; lia|].
  { cbn in Hok |- *. destruct Hok as [_ Hok]. split; [congruence|done]. }
  { intros y Hy. cbn in Hy. apply elem_of_cons in Hy as [-> |Hy].
    - change (entry_hash (k, Some (stored_val v))) with (entry_hash (k, v0)). apply Hx. by left.
    - apply Hx. by right. }
  rewrite Hset. exists d1. cbn [chain_list de'] in Hs, Hf, Hp, Hp'. rewrite !Zlen_cons, Z.sub_diag in *.
  rewrite used_add_0_range in *
    by (rewrite (link_set_used _ _ _ _ table Hset); destruct (used_size d Hwf) as (? & ? & ? & ?); unfold get_ht; destruct (table =? 0); lia).
  rewrite <- app_comm_cons in Hp, Hp'.
  assert (dict_wf d1) as Hwf1.
  { apply (wf_frame d); [done|done|done|by rewrite Hlog|by rewrite Hlog| |].
    - pose proof (wf_uniq _ Hwf) as Hu. rewrite Hp in Hu. rewrite Hp'. exact Hu.
    - pose proof (wf_size _ Hwf). apply Permutation_length in Hp, Hp'. cbn [length] in *. unfold Zlen in *. lia. }
  split; [done|]. split; [done|]. split; [done|]. by apply (dict_map_replace _ _ (k, v0) (k, Some (stored_val v)) _ Hwf Hwf1 eq_refl Hp Hp').
Qed.

(** *** Adding *)

Definition stored_key (k : SK) : SK := match keyDup type with Some f => f k | None => k end.

Lemma stored_key_canon k v v' : entry_canon (stored_key k, v) = entry_canon (k, v').
Proof.
  unfold stored_key, entry_canon. cbn [fst]. destruct (keyDup type) as [f|] eqn:E; [|done]. by apply keys_dup.
Qed.

Lemma dictAddRaw_spec d sk : dict_wf d -> ht_table (ht0 d) <> None \/ pauseAutoResize d <= 0 ->
  Zlen (entries d) + 1 < 2 ^ 62 ->
  exists d' r, dictAddRaw type can_resize d sk = Ret (d', r) /\ dict_wf d' /\
  pauserehash d' = pauserehash d /\ pauseAutoResize d' = pauseAutoResize d /\
  match r with
  | inl link => dict_map d !! entry_canon (sk, None) = None /\ points d' link (stored_key sk, None) /\
      dict_map d' = <[entry_canon (sk, None) := (stored_key sk, None)]> (dict_map d)
  | inr link => dict_map d' = dict_map d /\
      exists x, points d' link x /\ dict_map d !! entry_canon (sk, None) = Some x /\ entry_canon x = entry_canon (sk, None)
  end.
Proof.
  intros Hwf Hpa Hsz. unfold dictAddRaw.
  destruct (dictFindLinkForInsert_spec d (dictStoredKey2Key type sk) Hwf Hpa) as (d1 & r & -> & Hsc & Htab & Hr).
  cbn [mbind outcome_bind]. destruct r as [link|link].
  - destruct Hr as (Hm & Hno & ->). fold (stored_key sk).
    assert (Zlen (entries d1) = Zlen (entries d)) as El.
    { pose proof (sc_perm _ _ Hsc) as Hp. apply Permutation_length in Hp. unfold Zlen. lia. }
    destruct (insert_spec d1 (dictStoredKey2Key type sk) (stored_key sk) (sc_wf _ _ Hsc) Htab)
      as (d' & -> & Hwf' & Hf & Hp & Hpt); [lia|done|apply (stored_key_canon sk None None)|].
    cbn [mbind outcome_bind]. eexists _, _. split; [done|]. split; [done|].
    rewrite (fr_pause _ _ Hf), (fr_auto _ _ Hf). split; [apply Hsc|]. split; [apply Hsc|].
    split; [done|]. split; [done|].
    rewrite (dict_map_insert _ _ _ (sc_wf _ _ Hsc) Hwf' Hp), (dict_map_same _ _ Hsc). f_equal.
    apply (stored_key_canon sk None None).
  - destruct Hr as (x & Hpt & Hm & Hx). eexists _, _. split; [done|]. split; [apply Hsc|]. split; [apply Hsc|]. split; [apply Hsc|].
    split; [by apply dict_map_same|]. by exists x.
Qed.

Lemma dictAdd_spec d sk v : dict_wf d -> ht_table (ht0 d) <> None \/ pauseAutoResize d <= 0 ->
  Zlen (entries d) + 1 < 2 ^ 62 ->
  let k := entry_canon (sk, None) in
  exists d', dictAdd type can_resize d sk v = Ret (d', bool_decide (dict_map d !! k = None)) /\ dict_wf d' /\
  pauserehash d' = pauserehash d /\ pauseAutoResize d' = pauseAutoResize d /\
  dict_map d' = match dict_map d !! k with
    | None => <[k := (stored_key sk, if no_value type then None else Some (stored_val v))]> (dict_map d)
    | Some _ => dict_map d
    end.
Proof.
  intros Hwf Hpa Hsz k. unfold dictAdd.
  destruct (dictAddRaw_spec d sk Hwf Hpa Hsz) as (d1 & r & -> & Hwf1 & Hp1 & Hp2 & Hr). cbn [mbind outcome_bind].
  destruct r as [link|link].
  - destruct Hr as (Hm & Hpt & Hmap). fold k in Hm, Hmap. rewrite Hm, bool_decide_true by done.
    destruct (no_value type) eqn:Env.
    + exists d1. done.
    + destruct (set_val_at_spec d1 link _ v Hwf1 Env Hpt) as (d2 & -> & Hwf2 & Hf & Hmap2). cbn [mbind outcome_bind].
      exists d2. split; [done|]. split; [done|]. rewrite (fr_pause _ _ Hf), (fr_auto _ _ Hf). split; [done|]. split; [done|].
      rewrite Hmap2, Hmap. rewrite (stored_key_canon sk None None). fold k. by rewrite insert_insert_eq.
  - destruct Hr as (Hmap & x & Hpt & Hm & Hx). fold k in Hm. rewrite Hm. rewrite bool_decide_false by done.
    exists d1. done.
Qed.

Lemma points_val d link x v : points d link (x, Some v) -> exists de, link_get d link = Ret de /\ dictGetVal de = Ret v.
Proof.
  intros (_ & de & rest & Hget & Hl). exists de. split; [done|].
  destruct de as [|k|k v0 next]; cbn in Hl; [done|congruence|]. by injection Hl as -> -> <-.
Qed.

Lemma dictReplace_spec d sk v : dict_wf d -> ht_table (ht0 d) <> None \/ pauseAutoResize d <= 0 ->
  Zlen (entries d) + 1 < 2 ^ 62 -> no_value type = false ->
  (forall k x, dict_map d !! k = Some x -> x.2 <> None) ->
  let k := entry_canon (sk, None) in
  exists d', dictReplace type can_resize d sk v = Ret (d', bool_decide (dict_map d !! k = None)) /\ dict_wf d' /\
  pauserehash d' = pauserehash d /\ pauseAutoResize d' = pauseAutoResize d /\
  dict_map d' = <[k := (match dict_map d !! k with None => stored_key sk | Some x => x.1 end, Some (stored_val v))]> (dict_map d).
Proof.
  intros Hwf Hpa Hsz Env Hvals k. unfold dictReplace.
  destruct (dictAddRaw_spec d sk Hwf Hpa Hsz) as (d1 & r & -> & Hwf1 & Hp1 & Hp2 & Hr). cbn [mbind outcome_bind].
  destruct r as [link|link].
  - destruct Hr as (Hm & Hpt & Hmap). fold k in Hm, Hmap. rewrite Hm, bool_decide_true by done.
    destruct (set_val_at_spec d1 link _ v Hwf1 Env Hpt) as (d2 & -> & Hwf2 & Hf & Hmap2). cbn [mbind outcome_bind].
    exists d2. split; [done|]. split; [done|]. rewrite (fr_pause _ _ Hf), (fr_auto _ _ Hf). split; [done|]. split; [done|].
    rewrite Hmap2, Hmap. rewrite (stored_key_canon sk None None). fold k. by rewrite insert_insert_eq.
  - destruct Hr as (Hmap & x & Hpt & Hm & Hx). fold k in Hm, Hx. rewrite Hm, bool_decide_false by done.
    destruct x as [xk [xv|]]; [|by destruct (Hvals _ _ Hm)].
    destruct (points_val _ _ _ _ Hpt) as (de & -> & Hv). cbn [mbind outcome_bind]. rewrite Hv. cbn [mbind outcome_bind].
    destruct (set_val_at_spec d1 link _ v Hwf1 Env Hpt) as (d2 & -> & Hwf2 & Hf & Hmap2). cbn [mbind outcome_bind].
    eexists. split; [done|]. split; [by apply emit_wf|]. cbn [emit pauserehash pauseAutoResize].
    rewrite (fr_pause _ _ Hf), (fr_auto _ _ Hf). split; [done|]. split; [done|].
    change (dict_map (emit d2 (EvFreeVal xv))) with (dict_map d2). by rewrite Hmap2, Hmap, Hx.
Qed.

(** ** Two-phase deletion *)

Lemma pause_wf d p : dict_wf d -> dict_wf (set_pause d p).
Proof.
  intros Hwf. destruct Hwf as [Hs Hu Hsz Hb Hr]. split; try done. destruct Hs; by constructor.
Qed.

Lemma link_set_used_add d table n link de d1 : link_set d link de = Ret d1 ->
  link_set (used_add d table n) link de = Ret (used_add d1 table n).
Proof.
  destruct link as [[t idx] depth]. destruct d as [[t0 u0 e0] [t1 u1 e1] ri p pa log].
  unfold link_set, bucket_get, bucket_set, used_add, get_ht, set_ht.
  destruct (table =? 0) eqn:E1, (t =? 0) eqn:E2; cbn;
    (destruct t0 as [t0|]; destruct t1 as [t1|]; cbn; try done;
     match goal with |- context [rd ?l idx] => destruct (rd l idx); cbn; try done end;
     destruct (chain_set _ _ _); cbn; try done;
     match goal with |- context [wr ?l idx _] => destruct (wr l idx _); cbn; try done end;
     by intros [= <-]).
Qed.

Lemma dictTwoPhase_spec d key : dict_wf d -> 0 <= pauserehash d < 2 ^ 32 ->
  exists d1 r, dictTwoPhaseUnlinkFind type can_resize d key = Ret (d1, r) /\
  match r with
  | None => same_contents d d1 /\ dict_map d !! canon key = None
  | Some link => dict_map d1 = dict_map d /\ pauserehash d1 = u32 (pauserehash d + 1) /\ dict_wf d1 /\
      (exists x, points d1 link x /\ dict_map d !! canon key = Some x) /\
      exists d2, dictTwoPhaseUnlinkFree type can_resize d1 (Some link) = Ret d2 /\ dict_wf d2 /\
        dict_map d2 = delete (canon key) (dict_map d) /\ pauserehash d2 = pauserehash d
  end.
Proof.
  intros Hwf Hp. unfold dictTwoPhaseUnlinkFind. destruct (Z.eqb_spec (dictSize d) 0) as [E|E].
  { exists d, None. split; [done|]. split; [by apply same_contents_refl|by apply dict_empty_map]. }
  assert (exists d1, (if dictIsRehashing d then _dictRehashStep type can_resize d else Ret d) = Ret d1 /\ same_contents d d1) as (d1 & -> & Hsc).
  { destruct (dictIsRehashing d); [|exists d; split; [done|by apply same_contents_refl]].
    destruct (_dictRehashStep_spec d Hwf) as (d1 & -> & Hsc & _). by exists d1. }
  cbn [mbind outcome_bind]. pose proof (dict_nonempty_table d Hwf E) as Htab.
  destruct (find_tables_spec d1 key (Z.land (dictGetHash type key) (DICTHT_SIZE_MASK (ht_size_exp (ht0 d1)))))
    as (r & last & Hf & Hfd); [apply Hsc|by apply Hsc|intros; by right| |].
  { apply Z.land_nonneg. left. pose proof (keys_hash_range key). unfold dictGetHash. lia. }
  rewrite Hf. cbn [mbind outcome_bind].
  pose proof (found_map _ _ _ _ (sc_wf _ _ Hsc) Hfd) as Hfm. rewrite <- (dict_map_same _ _ Hsc).
  destruct r as [[[table idx] depth]|]; [|by exists d1, None].
  destruct Hfm as (x & (Htable & he & rest & Hget & Hl) & Hm & Hxc). cbn [fst] in Htable.
  assert (dict_wf (dictPauseRehashing d1)) as Hwfp by (apply pause_wf, Hsc).
  eexists _, _. split; [done|]. split; [done|]. split; [cbn; by rewrite (sc_pause _ _ Hsc)|]. split; [done|].
  assert (link_get (dictPauseRehashing d1) (table, idx, depth) = Ret he) as Hget' by exact Hget.
  split; [exists x; split; [|done]; split; [done|by exists he, rest]|].
  destruct (unlink_spec (dictPauseRehashing d1) table idx depth he x rest Hwfp Htable Hget' Hl) as (next & dA & Hnext & Hset & Hun).
  unfold dictTwoPhaseUnlinkFree. rewrite Hget'. cbn [mbind outcome_bind].
  destruct (is_null he) eqn:En; [by destruct he|]. rewrite Hnext. cbn [mbind outcome_bind].
  rewrite (link_set_used_add _ table (-1) _ _ _ Hset). cbn [mbind outcome_bind].
  destruct (dictFreeUnlinkedEntry_spec (used_add dA table (-1)) he ltac:(by intros ->)) as (evs & -> & Hb & Hr).
  cbn [mbind outcome_bind]. fold (add_log (used_add dA table (-1)) evs).
  destruct (Hun evs Hb Hr) as (Hwf2 & Hfr & Hmap & _).
  destruct (_dictShrinkIfNeeded_spec _ Hwf2) as (d3 & -> & [Hsc3 _]). cbn [mbind outcome_bind].
  eexists. split; [done|]. split; [apply pause_wf, Hsc3|]. split.
  - change (dict_map (dictResumeRehashing d3)) with (dict_map d3). rewrite (dict_map_same _ _ Hsc3), Hmap, Hxc.
    by change (dict_map (dictPauseRehashing d1)) with (dict_map d1).
  - cbn. rewrite (sc_pause _ _ Hsc3), (fr_pause _ _ Hfr). cbn. rewrite (sc_pause _ _ Hsc).
    unfold wrapu. rewrite Zminus_mod_idemp_l. replace (pauserehash d + 1 - 1) with (pauserehash d) by lia.
    by apply Z.mod_small.
Qed.

(** ** Clearing *)

Fixpoint log_freed (log : list (dictEvent SK V)) : list SK :=
  match log with
  | [] => []
  | EvFreeKey k :: log => k :: log_freed log
  | _ :: log => log_freed log
  end.

Lemma log_freed_app l1 l2 : log_freed (l1 ++ l2) = log_freed l1 ++ log_freed l2.
Proof. induction l1 as [|[] l1 IH]; simpl; by rewrite ?IH. Qed.

(** The state during a clear: [n] entries fewer in the table, their keys freed. *)
Definition cleared d htidx (n : Z) (ks : list SK) d' : Prop :=
  exists evs, d' = add_log (used_add d htidx (- n)) evs /\ log_buckets evs = 0 /\ quiet evs /\ log_freed evs = ks.

Lemma used_add_add d table n m : used_add (used_add d table n) table m = used_add d table (n + m).
Proof.
  destruct d as [[t0 u0 e0] [t1 u1 e1] ri p pa log]. unfold used_add, get_ht, set_ht. cbn.
  destruct (table =? 0) eqn:E; cbn; rewrite ?E; cbn; unfold wrapu; rewrite Zplus_mod_idemp_l;
    do 3 f_equal; lia.
Qed.

Lemma cleared_trans d htidx n m ks ks' d1 d2 : cleared d htidx n ks d1 -> cleared d1 htidx m ks' d2 ->
  cleared d htidx (n + m) (ks ++ ks') d2.
Proof.
  intros (evs & -> & H1 & H2 & H3) (evs' & -> & H1' & H2' & H3'). exists (evs ++ evs').
  rewrite used_add_log, used_add_add, log_buckets_app, log_freed_app.
  split; [|split; [lia|split; [by apply quiet_app|by rewrite H3, H3']]].
  replace (- n + - m) with (- (n + m)) by lia. unfold add_log. cbn. by rewrite app_assoc.
Qed.

Lemma clear_chain_spec htidx he : forall d, cleared d htidx (Zlen (chain_list he)) (fst <$> chain_list he) (clear_chain d htidx he) \/ he = DNull.
Proof.
  induction he as [|k|k v next IH]; intros d; [by right|left..]; cbn [clear_chain chain_list].
  - exists [EvFreeKey k]. split; [|done]. cbn. change (emit d (EvFreeKey k)) with (add_log d [EvFreeKey k]).
    by rewrite used_add_log.
  - assert (cleared d htidx 1 [k] (used_add (dictFreeVal (emit d (EvFreeKey k)) (DEntry k v next)) htidx (-1))) as H1.
    { destruct v as [v|]; cbn [dictFreeVal].
      - exists [EvFreeKey k; EvFreeVal v]. split; [|done]. rewrite <- used_add_log. f_equal.
        unfold emit, add_log. cbn. by rewrite <- app_assoc.
      - exists [EvFreeKey k]. split; [|done]. by rewrite <- used_add_log. }
    rewrite Zlen_cons. destruct (IH (used_add (dictFreeVal (emit d (EvFreeKey k)) (DEntry k v next)) htidx (-1))) as [H2| ->].
    + by apply (cleared_trans _ _ _ _ [k] _ _ _ H1).
    + cbn [chain_list clear_chain]. exact H1.
Qed.

Lemma get_used_add d i n : ht_used (get_ht (used_add d i n) i) = u64 (ht_used (get_ht d i) + n).
Proof. unfold used_add, get_ht, set_ht. by destruct (i =? 0). Qed.

Lemma clear_buckets_spec htidx t : forall d, ht_used (get_ht d htidx) = Zlen (tbl_entries t) ->
  Zlen (tbl_entries t) < 2 ^ 62 ->
  cleared d htidx (Zlen (tbl_entries t)) (fst <$> tbl_entries t) (clear_buckets d htidx t).
Proof.
  assert (forall d, 0 <= ht_used (get_ht d htidx) < 2 ^ 64 -> cleared d htidx 0 [] d) as Hnone.
  { intros d Hu. exists []. rewrite add_log_nil. cbn. by rewrite used_add_0_range. }
  induction t as [|c t IH]; intros d Hu Hb; cbn [clear_buckets].
  - apply Hnone. cbn in Hu. rewrite Hu. done.
  - change (tbl_entries (c :: t)) with (chain_list c ++ tbl_entries t) in *. rewrite Zlen_app in *.
    pose proof (Zlen_nonneg (chain_list c)). pose proof (Zlen_nonneg (tbl_entries t)).
    destruct (Z.ltb_spec 0 (ht_used (get_ht d htidx))).
    + rewrite fmap_app. destruct (clear_chain_spec htidx c d) as [Hc| ->].
      * apply (cleared_trans _ _ _ _ _ _ _ _ Hc). apply IH; [|lia].
        destruct Hc as (evs & -> & _). change (get_ht (add_log ?x evs)) with (get_ht x).
        rewrite get_used_add, Hu, wrapu_id by lia. lia.
      * cbn [chain_list app fmap list_fmap clear_chain] in *. rewrite !Zlen_nil in *. apply IH; lia.
    + rewrite fmap_app. assert (chain_list c = []) as -> by (destruct (chain_list c); [done|]; zlen; pose proof (Zlen_nonneg l); lia).
      assert (tbl_entries t = []) as -> by (destruct (tbl_entries t); [done|]; zlen; pose proof (Zlen_nonneg l); lia).
      cbn. apply Hnone. lia.
Qed.

(** The counter of a table is the number of its entries. *)
Definition counted (h : ht SK V) : Prop :=
  match ht_table h with Some t => ht_used h = Zlen (tbl_entries t) /\ Zlen (tbl_entries t) < 2 ^ 62 | None => True end.

Lemma wf_counted d : dict_wf d -> counted (ht0 d) /\ counted (ht1 d).
Proof.
  intros Hwf. pose proof (wf_size _ Hwf) as Hs. unfold entries in Hs. rewrite Zlen_app in Hs.
  pose proof (Zlen_nonneg (ht_entries (ht0 d))). pose proof (Zlen_nonneg (ht_entries (ht1 d))).
  destruct (wf_shape _ Hwf); unfold counted, ht_entries in *; cbn [ht0 ht1 mk_ht ht_table ht_used _dictReset] in *;
    repeat split; lia.
Qed.

Lemma _dictClear_spec d i : counted (get_ht d i) ->
  exists evs, _dictClear d i = set_ht (add_log d evs) i _dictReset /\
    log_buckets evs = 0 /\ quiet evs /\ log_freed evs = fst <$> ht_entries (get_ht d i).
Proof.
  intros Hc. unfold _dictClear, counted in *. cbv zeta.
  destruct (ht_table (get_ht d i)) as [t|] eqn:Ht; [|exists []; rewrite add_log_nil; unfold ht_entries; by rewrite Ht].
  destruct Hc as [Hu Hb]. destruct (clear_buckets_spec i t d Hu Hb) as (evs & -> & H1 & H2 & H3). exists evs.
  split; [|split; [done|split; [done|]]].
  - unfold set_ht, used_add, add_log, set_ht, get_ht. by destruct (i =? 0).
  - rewrite H3. unfold ht_entries. by rewrite Ht.
Qed.

Lemma dictBuckets_spec d : dict_wf d ->
  dictBuckets d = DICTHT_SIZE (ht_size_exp (ht0 d)) + DICTHT_SIZE (ht_size_exp (ht1 d)).
Proof.
  intros Hwf. unfold dictBuckets. apply wrapu_id.
  assert (forall e t, tbl_ok e t -> 4 <= DICTHT_SIZE e <= 2 ^ 60) as Hsz.
  { intros e t Ht. pose proof (size_pos _ _ Ht). pose proof (tbl_exp _ _ Ht). rewrite DICTHT_SIZE_pow in * by lia.
    split; [done|]. apply Z.pow_le_mono_r; lia. }
  destruct (wf_shape _ Hwf) as [|e t p pa log Ht|e0 t0 e1 t1 ri p pa log Ht0 Ht1]; cbn [ht0 ht1 ht_size_exp mk_ht _dictReset];
    change (DICTHT_SIZE (-1)) with 0; [lia|specialize (Hsz _ _ Ht); lia|].
  pose proof (Hsz _ _ Ht0). pose proof (Hsz _ _ Ht1). lia.
Qed.

(** Clearing frees every key once; the observers see the buckets go and a
    rehashing in progress completed. *)
Lemma dictEmpty_spec d : dict_wf d ->
  exists log, dictEmpty d = Build_dict _dictReset _dictReset (-1) 0 0 log /\ dict_wf (dictEmpty d) /\
    log_freed log = log_freed (d_log d) ++ (fst <$> entries d).
Proof.
  intros Hwf. destruct (wf_counted d Hwf) as [Hc0 Hc1]. unfold dictEmpty. cbv zeta.
  assert (exists evs, emit (if dictIsRehashing d then emit d (EvRehashingCompleted (DICTHT_SIZE (ht_size_exp (ht0 d)))) else d)
      (EvBucketChanged (- dictBuckets (if dictIsRehashing d then emit d (EvRehashingCompleted (DICTHT_SIZE (ht_size_exp (ht0 d)))) else d))) = add_log d evs /\
    log_buckets evs = - dictBuckets d /\ foldl ev_step (rehash_state d) evs = -1 /\ log_freed evs = [])
    as (evs & -> & Hb & Hr & Hf).
  { destruct (dictIsRehashing d) eqn:Er; unfold rehash_state; rewrite Er.
    - exists [EvRehashingCompleted (DICTHT_SIZE (ht_size_exp (ht0 d))); EvBucketChanged (- dictBuckets d)]. split; [unfold emit, add_log; cbn; by rewrite <- app_assoc|].
      split; [cbn; lia|]. split; [apply ev_completed|done].
    - exists [EvBucketChanged (- dictBuckets d)]. split; [done|]. cbn. split; [lia|done]. }
  destruct (_dictClear_spec (add_log d evs) 0 Hc0) as (ev0 & -> & Hb0 & Hr0 & Hf0).
  destruct (_dictClear_spec (set_ht (add_log (add_log d evs) ev0) 0 _dictReset) 1 Hc1) as (ev1 & -> & Hb1 & Hr1 & Hf1).
  cbn. eexists. split; [reflexivity|]. split.
  - split; cbn; [constructor|constructor|done| |].
    + rewrite !log_buckets_app, (wf_log_buckets _ Hwf), Hb0, Hb1, Hb, dictBuckets_spec by done. change (DICTHT_SIZE (-1)) with 0. lia.
    + by rewrite !log_rehashing_app, (wf_log_rehashing _ Hwf), Hr, Hr0, Hr1.
  - rewrite !log_freed_app, Hf, Hf0, Hf1. unfold entries. rewrite fmap_app, app_nil_r. by rewrite <- app_assoc.
Qed.

Lemma dictCreate_wf : dict_wf (dictCreate (SK:=SK) (V:=V)).
Proof. split; [constructor|constructor|done|done|done]. Qed.

Lemma dict_map_nil d : entries d = [] -> dict_map d = ∅.
Proof. unfold dict_map. by intros ->. Qed.

(** ** Rehashing comes to an end *)

Fixpoint rehash_times (k : nat) (n : nat) d : outcome dict :=
  match k with
  | O => Ret d
  | S k => '(d, more) ← dictRehash type can_resize d n; if (more : bool) then rehash_times k n d else Ret d
  end.

Lemma rehash_times_spec n k : (1 <= n)%nat -> forall d, dict_wf d -> rehash_blocked d = false ->
  (dictIsRehashing d = true -> DICTHT_SIZE (ht_size_exp (ht0 d)) - rehashidx d < Z.of_nat k) ->
  exists d', rehash_times k n d = Ret d' /\ same_contents d d' /\ dictIsRehashing d' = false.
Proof.
  intros Hn. induction k as [|k IH]; intros d Hwf Hb Hk; cbn [rehash_times].
  - exists d. split; [done|]. split; [by apply same_contents_refl|].
    destruct (dictIsRehashing d) eqn:Er; [|done]. specialize (Hk eq_refl).
    destruct (wf_shape _ Hwf) as [| |e0 t0 e1 t1 ri p pa log Ht0 Ht1 Hne Hri Hnl]; [done..|].
    cbn in Hk. pose proof (tbl_exp _ _ Ht0). rewrite DICTHT_SIZE_pow in Hk by lia. lia.
  - destruct (dictRehash_spec d n Hwf) as (d1 & more & -> & [Hsc Hre Hm Hdn Hs]). cbn [mbind outcome_bind].
    destruct more.
    + destruct (Hm eq_refl) as [Hr1 Hlt]. specialize (Hlt Hn). destruct (Hre Hr1) as (Hr & E0 & E1 & _).
      specialize (Hk Hr).
      destruct (IH d1) as (d' & -> & Hsc' & Hd'); [apply Hsc| |rewrite E0; lia|].
      * unfold rehash_blocked, rehash_avoided in *. by rewrite E0, E1.
      * exists d'. split; [done|]. split; [by apply (same_contents_trans _ _ _ Hsc)|done].
    + exists d1. split; [done|]. split; [done|]. destruct (dictIsRehashing d1); [|done].
      destruct (Hs eq_refl eq_refl) as [_ ?]. congruence.
Qed.
End invariant.
