(* ===== verification/DictSpec.v ===== *)
(** * DictSpec: the hash table refines a finite map

    Sequences of operations on a new dict, the resize policy changing at will,
    answer like the same operations on a finite map from (canonical) keys to
    the stored key and value; a rehashing ends; a two-phase deletion and a
    clear do what they promise. *)

From stdpp Require Import countable sets fin_maps gmap.
From S2P Require Import Prelude Memory Dict DictInv.

(** ** Sequences of operations *)

Inductive dict_op (K SK V : Type) :=
| OpAdd (key : SK) (v : V)
| OpReplace (key : SK) (v : V)
| OpFetchValue (key : K)
| OpDelete (key : K)
| OpRehash (n : nat)
| OpExpand (size : Z)
| OpTryExpand (size : Z) (avail : bool)
| OpShrinkIfNeeded
| OpPauseRehashing
| OpResumeRehashing
| OpSetResizeEnabled (enable : dictResizeEnable)
| OpEmpty.
Arguments OpAdd {K SK V}. Arguments OpReplace {K SK V}. Arguments OpFetchValue {K SK V}.
Arguments OpDelete {K SK V}. Arguments OpRehash {K SK V}. Arguments OpExpand {K SK V}.
Arguments OpTryExpand {K SK V}. Arguments OpShrinkIfNeeded {K SK V}.
Arguments OpPauseRehashing {K SK V}. Arguments OpResumeRehashing {K SK V}.
Arguments OpSetResizeEnabled {K SK V}. Arguments OpEmpty {K SK V}.

(** What the caller sees. *)
Inductive dict_res (V : Type) :=
| RUnit
| RBool (b : bool)
| RVal (v : option V).
Arguments RUnit {V}. Arguments RBool {V}. Arguments RVal {V}.

Section spec.
Context {K SK V : Type} (type : dictType K SK V).
Context {C : Type} (canon : K -> C) `{!EqDecision C, !Countable C, !DictKeys type canon}.
Abbreviation dict := (dict SK V).
Abbreviation op := (dict_op K SK V).
Abbreviation dmap := (gmap C (SK * option V)).

Definition dict_step (can_resize : dictResizeEnable) (d : dict) (o : op)
  : outcome (dictResizeEnable * dict * dict_res V) :=
  match o with
  | OpAdd key v => '(d, ok) ← dictAdd type can_resize d key v; Ret (can_resize, d, RBool ok)
  | OpReplace key v => '(d, added) ← dictReplace type can_resize d key v; Ret (can_resize, d, RBool added)
  | OpFetchValue key => '(d, v) ← dictFetchValue type can_resize d key; Ret (can_resize, d, RVal v)
  | OpDelete key => '(d, ok) ← dictDelete type can_resize d key; Ret (can_resize, d, RBool ok)
  | OpRehash n => '(d, _) ← dictRehash type can_resize d n; Ret (can_resize, d, RUnit)
  | OpExpand size => '(d, _) ← dictExpand type can_resize d size; Ret (can_resize, d, RUnit)
  | OpTryExpand size avail => '(d, _) ← dictTryExpand type can_resize d size avail; Ret (can_resize, d, RUnit)
  | OpShrinkIfNeeded => '(d, _) ← dictShrinkIfNeeded type can_resize d; Ret (can_resize, d, RUnit)
  | OpPauseRehashing => Ret (can_resize, dictPauseRehashing d, RUnit)
  | OpResumeRehashing => Ret (can_resize, dictResumeRehashing d, RUnit)
  | OpSetResizeEnabled enable => Ret (enable, d, RUnit)
  | OpEmpty => Ret (can_resize, dictEmpty d, RUnit)
  end.

Fixpoint dict_run (can_resize : dictResizeEnable) (d : dict) (os : list op) : outcome (dict * list (dict_res V)) :=
  match os with
  | [] => Ret (d, [])
  | o :: os =>
    '(can_resize, d, r) ← dict_step can_resize d o;
    '(d, rs) ← dict_run can_resize d os;
    Ret (d, r :: rs)
  end.

(** The same on a finite map. *)
Definition key_of (key : SK) : C := canon (keyFromStoredKey type key).

Definition map_step (m : dmap) (o : op) : dmap * dict_res V :=
  match o with
  | OpAdd key v =>
    match m !! key_of key with
    | Some _ => (m, RBool false)
    | None => (<[key_of key := (stored_key type key, Some (stored_val type v))]> m, RBool true)
    end
  | OpReplace key v =>
    match m !! key_of key with
    | Some x => (<[key_of key := (x.1, Some (stored_val type v))]> m, RBool false)
    | None => (<[key_of key := (stored_key type key, Some (stored_val type v))]> m, RBool true)
    end
  | OpFetchValue key => (m, RVal (m !! canon key ≫= snd))
  | OpDelete key => (delete (canon key) m, RBool (bool_decide (is_Some (m !! canon key))))
  | OpEmpty => (∅, RUnit)
  | _ => (m, RUnit)
  end.

Fixpoint map_run (m : dmap) (os : list op) : dmap * list (dict_res V) :=
  match os with
  | [] => (m, [])
  | o :: os => let '(m, r) := map_step m o in let '(m, rs) := map_run m os in (m, r :: rs)
  end.

Definition op_ok (o : op) : Prop :=
  match o with OpExpand size | OpTryExpand size _ => 0 <= size < 2 ^ 64 | _ => True end.

(** [d] represents [m], whose entries all have their value. *)
Record represents (d : dict) (m : dmap) (n : Z) : Prop := {
  rp_wf : dict_wf type canon d;
  rp_map : dict_map type canon d = m;
  rp_auto : pauseAutoResize d = 0;
  rp_vals : forall k x, m !! k = Some x -> x.2 <> None;
  rp_size : Zlen (entries d) <= n;
}.

Lemma represents_le d m n n' : represents d m n -> n <= n' -> represents d m n'.
Proof. intros [H1 H2 H3 H4 H5] ?. split; try done. lia. Qed.

Lemma represents_same d d' m n : represents d m n -> same_contents type canon d d' -> represents d' m n.
Proof.
  intros [H1 H2 H3 H4 H5] Hsc. pose proof (sc_perm _ _ _ _ Hsc) as Hp. apply Permutation_length in Hp.
  split; [apply Hsc|by rewrite (dict_map_same _ _ _ _ Hsc)|by rewrite (sc_auto _ _ _ _ Hsc)|done|unfold Zlen in *; lia].
Qed.

Lemma entries_size d : dict_wf type canon d -> Zlen (entries d) = Z.of_nat (size (dict_map type canon d)).
Proof. intros Hwf. unfold Zlen. by rewrite dict_map_size. Qed.

Lemma represents_insert d d' m n k sk v : represents d m n -> dict_wf type canon d' ->
  pauseAutoResize d' = pauseAutoResize d -> dict_map type canon d' = <[k := (sk, Some v)]> m ->
  represents d' (<[k := (sk, Some v)]> m) (n + 1).
Proof.
  intros [H1 H2 H3 H4 H5] Hwf Ha Hm. split; [done|done|congruence| |].
  - intros k' x. rewrite lookup_insert_Some. intros [[_ <-]|[_ Hx]]; [done|by apply H4 in Hx].
  - rewrite entries_size, Hm by done. rewrite entries_size, H2 in H5 by done.
    pose proof (map_size_insert k (sk, Some v) m) as ->. destruct (m !! k); simpl; lia.
Qed.

Lemma represents_delete d d' m n k : represents d m n -> dict_wf type canon d' ->
  pauseAutoResize d' = pauseAutoResize d -> dict_map type canon d' = delete k m -> represents d' (delete k m) n.
Proof.
  intros [H1 H2 H3 H4 H5] Hwf Ha Hm. split; [done|done|congruence| |].
  - intros k' x. rewrite lookup_delete_Some. intros [_ Hx]. by apply H4 in Hx.
  - rewrite entries_size, Hm by done. rewrite entries_size, H2 in H5 by done.
    pose proof (map_size_delete k m) as ->. destruct (m !! k); simpl; lia.
Qed.

Lemma dictFetchValue_spec can_resize d key m n : represents d m n -> exists d',
  dictFetchValue type can_resize d key = Ret (d', m !! canon key ≫= snd) /\ represents d' m n.
Proof.
  intros Hrep. unfold dictFetchValue.
  destruct (dictFind_spec type canon can_resize d key (rp_wf _ _ _ Hrep)) as (d' & de & -> & Hsc & Hde).
  cbn [mbind outcome_bind]. pose proof (represents_same _ _ _ _ Hrep Hsc) as Hrep'. exists d'. split; [|done].
  rewrite (rp_map _ _ _ Hrep) in Hde. destruct (m !! canon key) as [[sk v]|] eqn:Em; [|by subst de].
  pose proof (rp_vals _ _ _ Hrep _ _ Em) as Hv. destruct Hde as [rest Hl].
  destruct de as [|k|k v0 next]; cbn in Hl; [done|injection Hl as -> <- _; by cbn in Hv|].
  injection Hl as -> -> _. destruct v as [v|]; [done|by cbn in Hv].
Qed.

Lemma dict_step_refines can_resize d m n o : no_value type = false -> represents d m n -> n + 1 < 2 ^ 62 -> op_ok o ->
  exists can_resize' d', dict_step can_resize d o = Ret (can_resize', d', (map_step m o).2) /\
    represents d' (map_step m o).1 (n + 1).
Proof.
  intros Hnv Hrep Hn Hok. pose proof (rp_wf _ _ _ Hrep) as Hwf. pose proof (rp_map _ _ _ Hrep) as Hm.
  pose proof (rp_size _ _ _ Hrep) as Hsz. pose proof (represents_le _ _ _ (n + 1) Hrep ltac:(lia)) as Hrep1.
  assert (ht_table (ht0 d) <> None \/ pauseAutoResize d <= 0) as Hpa by (right; rewrite (rp_auto _ _ _ Hrep); lia).
  destruct o as [key v|key v|key|key|k|size|size avail| | | |r|]; cbn [dict_step map_step].
  - destruct (dictAdd_spec type canon can_resize d key v Hwf Hpa) as (d' & -> & Hwf' & _ & Ha & Hm'); [lia|].
    cbn [mbind outcome_bind]. rewrite Hm in *. change (entry_canon type canon (key, None)) with (key_of key) in *.
    destruct (m !! key_of key) eqn:Em; cbn [fst snd].
    + rewrite bool_decide_false by done. eexists _, _. split; [done|]. split; [done|done|rewrite Ha; apply Hrep|apply Hrep|].
      rewrite entries_size, Hm' by done. rewrite entries_size, Hm in Hsz by done. lia.
    + rewrite bool_decide_true by done. eexists _, _. split; [done|]. rewrite Hnv in Hm'.
      by apply (represents_insert d).
  - destruct (dictReplace_spec type canon can_resize d key v Hwf Hpa) as (d' & -> & Hwf' & _ & Ha & Hm'); [lia|done| |].
    { rewrite Hm. apply Hrep. }
    cbn [mbind outcome_bind]. rewrite Hm in *. change (entry_canon type canon (key, None)) with (key_of key) in *.
    destruct (m !! key_of key) eqn:Em; cbn [fst snd]; rewrite ?bool_decide_false, ?bool_decide_true by done;
      eexists _, _; (split; [done|]); by apply (represents_insert d).
  - destruct (dictFetchValue_spec can_resize d key m n Hrep) as (d' & -> & Hrep'). cbn [mbind outcome_bind fst snd].
    eexists _, _. split; [done|]. by apply (represents_le _ _ n); [|lia].
  - unfold dictDelete. destruct (dictGenericDelete_spec type canon can_resize d key false Hwf)
      as (d' & he & -> & Hwf' & Hm' & _ & Ha & Hhe). cbn [mbind outcome_bind fst snd]. rewrite Hm in *.
    eexists _, _. split; [|apply (represents_le _ _ n); [by apply (represents_delete d)|lia]].
    destruct (m !! canon key); [|by subst he]. destruct Hhe as [rest Hl]. rewrite bool_decide_true by done.
    by destruct he.
  - destruct (dictRehash_spec type canon can_resize d k Hwf) as (d' & more & -> & [Hsc _ _ _ _]).
    eexists _, _. split; [done|]. by apply (represents_same d).
  - destruct (dictExpand_spec type canon can_resize d size Hwf Hok) as (d' & ok & -> & Hd').
    eexists _, _. split; [done|]. destruct (dictIsRehashing d); [by destruct Hd' as [-> _]|].
    destruct Hd' as [[Hsc _ _ _] _]. by apply (represents_same d).
  - unfold dictTryExpand, _dictExpand. destruct (dictIsRehashing d) eqn:Er; [by eexists _, _|].
    destruct (_ || _); [by eexists _, _|].
    destruct (_dictResize_spec type canon can_resize d size true avail Hwf Er Hok) as (d' & ok & mf & -> & [Hsc _ _ _] & _).
    eexists _, _. split; [done|]. by apply (represents_same d).
  - destruct (dictShrinkIfNeeded_spec type canon can_resize d Hwf) as (d' & b & -> & [Hsc _]).
    eexists _, _. split; [done|]. by apply (represents_same d).
  - eexists _, _. split; [done|]. destruct Hrep1. split; try done. by apply pause_wf.
  - eexists _, _. split; [done|]. destruct Hrep1. split; try done. by apply pause_wf.
  - by eexists _, _.
  - destruct (dictEmpty_spec type canon d Hwf) as (log & Hd & Hwf' & _). eexists _, _. split; [done|].
    rewrite Hd in *. split; [done|done|done| |].
    + intros k x. cbn [fst]. by rewrite lookup_empty.
    + cbn. pose proof (Zlen_nonneg (entries d)). change (Zlen (@nil (SK * option V))) with 0. lia.
Qed.

Lemma dict_run_refines can_resize d m n os : no_value type = false -> represents d m n ->
  n + Zlen os < 2 ^ 62 -> Forall op_ok os ->
  exists d', dict_run can_resize d os = Ret (d', (map_run m os).2) /\ represents d' (map_run m os).1 (n + Zlen os).
Proof.
  intros Hnv. revert can_resize d m n. induction os as [|o os IH]; intros can_resize d m n Hrep Hn Hok; cbn [dict_run map_run].
  - exists d. split; [done|]. by apply (represents_le _ _ n); [|change (Zlen (@nil op)) with 0; lia].
  - rewrite Zlen_cons in *. pose proof (Zlen_nonneg os). apply Forall_cons_1 in Hok as [Ho Hok].
    destruct (dict_step_refines can_resize d m n o Hnv Hrep ltac:(lia) Ho) as (r & d1 & -> & Hrep1).
    cbn [mbind outcome_bind]. destruct (map_step m o) as [m1 res]. cbn [fst snd] in *.
    destruct (IH r d1 m1 (n + 1) Hrep1 ltac:(lia) Hok) as (d' & -> & Hrep'). cbn [mbind outcome_bind].
    destruct (map_run m1 os) as [m' rs]. cbn [fst snd] in *. exists d'. split; [done|].
    by replace (n + (1 + Zlen os)) with (n + 1 + Zlen os) by lia.
Qed.
End spec.

(** ** Properties *)

Section properties.
Context {K SK V : Type} (type : dictType K SK V).
Context {C : Type} (canon : K -> C) `{!EqDecision C, !Countable C, !DictKeys type canon}.

(** C1. The hash table refines a finite map: any sequence of additions,
    replacements, lookups, deletions, rehashing steps, explicit and automatic
    resizes (with allocation failures), pauses of the rehashing, changes of the
    global resize policy and clears, from a new dict, never fails an assertion,
    never reads outside a table, gives the answers the map gives, and leaves a
    dict with the invariant that represents the final map.  The observers were
    told of exactly the buckets the dict has. *)
Theorem dict_refines_map can_resize os :
  no_value type = false -> Zlen os < 2 ^ 62 -> Forall op_ok os ->
  exists d, dict_run type can_resize dictCreate os = Ret (d, (map_run type canon ∅ os).2) /\
    dict_wf type canon d /\ dict_map type canon d = (map_run type canon ∅ os).1 /\
    dictSize d = Z.of_nat (size (map_run type canon ∅ os).1) /\
    log_buckets (d_log d) = dictBuckets d.
Proof.
  intros Hnv Hl Hok.
  destruct (dict_run_refines type canon can_resize dictCreate ∅ 0 os Hnv) as (d & Hr & [Hwf Hm _ _ _]); try done.
  { split; [apply dictCreate_wf|by apply dict_map_nil|done| |done]. intros k x. by rewrite lookup_empty. }
  exists d. split; [done|]. split; [done|]. split; [done|]. split.
  - rewrite (dictSize_spec type canon), (entries_size type canon), Hm by done. done.
  - by rewrite (wf_log_buckets _ _ _ Hwf), (dictBuckets_spec type canon).
Qed.

(** C37. A rehashing in progress ends: unless the resize policy forbids it, calling
    [dictRehash] with any positive count at most once per bucket left (plus one) completes it, the
    contents of the dict being the same at every call. *)
Theorem dictRehash_completes can_resize d n :
  dict_wf type canon d -> dictIsRehashing d = true -> rehash_blocked can_resize d = false -> (1 <= n)%nat ->
  exists d', rehash_times type can_resize
      (Z.to_nat (DICTHT_SIZE (ht_size_exp (ht0 d)) - rehashidx d) + 1) n d = Ret d' /\
    dictIsRehashing d' = false /\ dict_wf type canon d' /\ dict_map type canon d' = dict_map type canon d.
Proof.
  intros Hwf Hr Hb Hn.
  destruct (rehash_times_spec type canon can_resize n
    (Z.to_nat (DICTHT_SIZE (ht_size_exp (ht0 d)) - rehashidx d) + 1) Hn d Hwf Hb) as (d' & -> & Hsc & Hd'); [lia|].
  exists d'. split; [done|]. split; [done|]. split; [apply Hsc|by apply (dict_map_same type canon)].
Qed.

(** [dictEmpty] frees the key of every entry exactly once, leaves the empty
    dict, and tells the observers that all buckets went and that a rehashing in
    progress completed. *)
Theorem dictEmpty_correct d : dict_wf type canon d ->
  dict_wf type canon (dictEmpty d) /\ dict_map type canon (dictEmpty d) = ∅ /\ dictIsRehashing (dictEmpty d) = false /\
  log_freed (d_log (dictEmpty d)) = log_freed (d_log d) ++ (fst <$> entries d) /\
  log_buckets (d_log (dictEmpty d)) = 0 /\ log_rehashing (d_log (dictEmpty d)) = -1.
Proof.
  intros Hwf. destruct (dictEmpty_spec type canon d Hwf) as (log & Hd & Hwf' & Hf).
  split; [done|]. pose proof (wf_log_buckets _ _ _ Hwf') as Hb. pose proof (wf_log_rehashing _ _ _ Hwf') as Hr.
  rewrite Hd in *. cbn in *. done.
Qed.

(** Deletion in two phases: [dictTwoPhaseUnlinkFind] finds a link to the entry of the key
    exactly when the map has one, and pauses the rehashing; releasing the link
    with [dictTwoPhaseUnlinkFree] deletes that key only and restores the pause counter. *)
Theorem dictTwoPhaseUnlink_correct can_resize d key :
  dict_wf type canon d -> 0 <= pauserehash d < 2 ^ 32 ->
  exists d1 r, dictTwoPhaseUnlinkFind type can_resize d key = Ret (d1, r) /\
  dict_wf type canon d1 /\ dict_map type canon d1 = dict_map type canon d /\
  match r with
  | None => dict_map type canon d !! canon key = None /\ pauserehash d1 = pauserehash d
  | Some link => (exists x, points d1 link x /\ dict_map type canon d !! canon key = Some x) /\
      pauserehash d1 = u32 (pauserehash d + 1) /\
      exists d2, dictTwoPhaseUnlinkFree type can_resize d1 (Some link) = Ret d2 /\ dict_wf type canon d2 /\
        dict_map type canon d2 = delete (canon key) (dict_map type canon d) /\ pauserehash d2 = pauserehash d
  end.
Proof.
  intros Hwf Hp. destruct (dictTwoPhase_spec type canon can_resize d key Hwf Hp) as (d1 & r & -> & Hr).
  exists d1, r. split; [done|]. destruct r as [link|].
  - destruct Hr as (Hm & Hpa & Hwf1 & Hx & Hfree). done.
  - destruct Hr as [Hsc Hm]. split; [apply Hsc|]. split; [by apply (dict_map_same type canon)|]. split; [done|apply Hsc].
Qed.

(** Expanding to [size] on a dict that is not rehashing, when it is performed,
    makes keys go to a table of the smallest power of two, at least 4, that is
    not less than [size] (it is refused above 2^60 buckets, where the
    allocation size would overflow); otherwise the dict is left as it was. *)
Theorem dictExpand_capacity can_resize d size :
  dict_wf type canon d -> dictIsRehashing d = false -> 0 <= size < 2 ^ 64 ->
  exists d' ok, dictExpand type can_resize d size = Ret (d', ok) /\ dict_wf type canon d' /\
    dict_map type canon d' = dict_map type canon d /\
    if (ok : bool) then
      let e := ht_size_exp (if dictIsRehashing d' then ht1 d' else ht0 d') in
      2 <= e <= 60 /\ size <= 2 ^ e /\ (e = 2 \/ 2 ^ (e - 1) < size)
    else d' = d.
Proof.
  intros Hwf Hr Hs. destruct (dictExpand_spec type canon can_resize d size Hwf Hs) as (d' & ok & -> & Hd').
  rewrite Hr in Hd'. destruct Hd' as [[Hsc _ Hok Hno] _]. exists d', ok. split; [done|]. split; [apply Hsc|].
  split; [by apply (dict_map_same type canon)|]. destruct ok; [|by apply Hno].
  destruct (Hok eq_refl) as [Htab He]. cbv zeta.
  assert (2 <= ht_size_exp (if dictIsRehashing d' then ht1 d' else ht0 d') <= 60) as He60.
  { pose proof (sc_wf _ _ _ _ Hsc) as Hwf'.
    destruct (wf_shape _ _ _ Hwf') as [|e t p pa log Ht|e0 t0 e1 t1 ri p pa log Ht0 Ht1 Hne Hri Hn]; [done|..].
    - apply (tbl_exp _ _ _ Ht).
    - unfold dictIsRehashing. cbn [rehashidx]. destruct (Z.eqb_spec ri (-1)); [lia|]. apply (tbl_exp _ _ _ Ht1). }
  rewrite He in *. destruct (_dictNextExp_spec size Hs) as (Hb & Hle & Hgt). split; [done|]. split.
  - apply Hle. destruct (Z.le_gt_cases size 4); [lia|]. specialize (Hgt ltac:(lia)).
    pose proof (Z.pow_le_mono_r 2 (_dictNextExp size - 1) 60). destruct (Z.le_gt_cases size (2 ^ 63)); [done|].
    pose proof (Z.pow_lt_mono_r 2 (_dictNextExp size) 63). unfold _dictNextExp in *.
    change DICT_HT_INITIAL_SIZE with 4 in *. destruct (Z.leb_spec size 4); [lia|].
    unfold LONG_MAX in *. destruct (Z.leb_spec (2 ^ 63 - 1) size); lia.
  - destruct (Z.le_gt_cases size 4) as [H4|H4]; [left|right; by apply Hgt].
    unfold _dictNextExp. change DICT_HT_INITIAL_SIZE with 4. by destruct (Z.leb_spec size 4); [|lia].
Qed.
End properties.

(** ** Witnesses: integer keys that collide, and the bucket chains they make *)

Definition int_type : dictType Z Z Z :=
  {| hashFunction := fun k => k mod 6; keyDup := None; valDup := None; keyCompare := Z.eqb;
     keyFromStoredKey := fun k => k; resizeAllowed := None; no_value := false; force_full_rehash := false |}.

#[global] Instance int_keys : DictKeys int_type id.
Proof.
  split; cbn.
  - intros k1 k2. by destruct (Z.eqb_spec k1 k2); [rewrite bool_decide_true|rewrite bool_decide_false].
  - by intros k1 k2 ->.
  - intros k. pose proof (Z.mod_pos_bound k 6). lia.
  - done.
Defined.

Definition int_ops : list (dict_op Z Z Z) :=
  [OpAdd 1 10; OpAdd 7 70; OpAdd 13 130; OpAdd 2 20; OpAdd 3 30; OpAdd 1 11; OpFetchValue 13; OpReplace 7 77;
   OpDelete 2; OpFetchValue 2; OpFetchValue 7; OpPauseRehashing; OpAdd 9 90; OpResumeRehashing; OpExpand 100;
   OpRehash 1; OpFetchValue 9; OpSetResizeEnabled DICT_RESIZE_AVOID; OpDelete 9; OpFetchValue 9].

Lemma dict_refines_map_witness :
  exists d, dict_run int_type DICT_RESIZE_ENABLE dictCreate int_ops =
      Ret (d, [RBool true; RBool true; RBool true; RBool true; RBool true; RBool false; RVal (Some 130); RBool false;
               RBool true; RVal None; RVal (Some 77); RUnit; RBool true; RUnit; RUnit;
               RUnit; RVal (Some 90); RUnit; RBool true; RVal None]) /\
    dict_wf int_type id d /\ dict_map int_type id d = (map_run int_type id ∅ int_ops).1 /\
    dictSize d = Z.of_nat (size (map_run int_type id ∅ int_ops).1) /\
    log_buckets (d_log d) = dictBuckets d.
Proof.
  lazymatch goal with |- context [Ret (_, ?rs)] =>
    assert ((map_run int_type id ∅ int_ops).2 = rs) as <- by (vm_compute; reflexivity) end.
  apply (dict_refines_map int_type id DICT_RESIZE_ENABLE int_ops).
  - reflexivity.
  - vm_compute. reflexivity.
  - repeat (apply Forall_cons_2; [try exact I; cbn; lia|]). apply Forall_nil_2.
Defined.

(** A dict in the middle of a rehashing from 4 to 8 buckets. *)
Definition int_dict : dict Z Z :=
  match dict_run int_type DICT_RESIZE_ENABLE dictCreate [OpAdd 1 10; OpAdd 7 70; OpAdd 13 130; OpAdd 2 20; OpAdd 3 30] with
  | Ret (d, _) => d
  | _ => dictCreate
  end.

Lemma int_dict_wf : dict_wf int_type id int_dict.
Proof.
  destruct (dict_run_refines int_type id DICT_RESIZE_ENABLE dictCreate ∅ 0
    [OpAdd 1 10; OpAdd 7 70; OpAdd 13 130; OpAdd 2 20; OpAdd 3 30]) as (d & Hr & Hrep).
  - reflexivity.
  - split; [apply dictCreate_wf|reflexivity|reflexivity| |reflexivity || done]. intros k x. by rewrite lookup_empty.
  - vm_compute. reflexivity.
  - repeat (apply Forall_cons_2; [exact I|]). apply Forall_nil_2.
  - unfold int_dict. rewrite Hr. apply Hrep.
Qed.

Lemma dictRehash_completes_witness :
  dictIsRehashing int_dict = true /\
  exists d', rehash_times int_type DICT_RESIZE_ENABLE
      (Z.to_nat (DICTHT_SIZE (ht_size_exp (ht0 int_dict)) - rehashidx int_dict) + 1) 1 int_dict = Ret d' /\
    dictIsRehashing d' = false /\ dict_wf int_type id d' /\ dict_map int_type id d' = dict_map int_type id int_dict.
Proof.
  split; [vm_compute; reflexivity|].
  apply (dictRehash_completes int_type id DICT_RESIZE_ENABLE int_dict 1 int_dict_wf);
    [vm_compute; reflexivity|vm_compute; reflexivity|lia].
Defined.

Lemma dictEmpty_witness :
  dict_wf int_type id (dictEmpty int_dict) /\ dict_map int_type id (dictEmpty int_dict) = ∅ /\
  dictIsRehashing (dictEmpty int_dict) = false /\
  log_freed (d_log (dictEmpty int_dict)) = log_freed (d_log int_dict) ++ (fst <$> entries int_dict) /\
  log_buckets (d_log (dictEmpty int_dict)) = 0 /\ log_rehashing (d_log (dictEmpty int_dict)) = -1.
Proof. apply (dictEmpty_correct int_type id int_dict int_dict_wf). Defined.

Lemma dictTwoPhaseUnlink_witness :
  dict_map int_type id int_dict !! 7 = Some (7, Some 70) /\
  exists d1 r, dictTwoPhaseUnlinkFind int_type DICT_RESIZE_ENABLE int_dict 7 = Ret (d1, r) /\
  dict_wf int_type id d1 /\ dict_map int_type id d1 = dict_map int_type id int_dict /\
  match r with
  | None => dict_map int_type id int_dict !! 7 = None /\ pauserehash d1 = pauserehash int_dict
  | Some link => (exists x, points d1 link x /\ dict_map int_type id int_dict !! 7 = Some x) /\
      pauserehash d1 = u32 (pauserehash int_dict + 1) /\
      exists d2, dictTwoPhaseUnlinkFree int_type DICT_RESIZE_ENABLE d1 (Some link) = Ret d2 /\ dict_wf int_type id d2 /\
        dict_map int_type id d2 = delete 7 (dict_map int_type id int_dict) /\ pauserehash d2 = pauserehash int_dict
  end.
Proof.
  split; [vm_compute; reflexivity|].
  apply (dictTwoPhaseUnlink_correct int_type id DICT_RESIZE_ENABLE int_dict 7 int_dict_wf). vm_compute. split; congruence.
Defined.

Lemma dictExpand_witness :
  exists d' ok, dictExpand int_type DICT_RESIZE_ENABLE (dictCreate (SK:=Z) (V:=Z)) 100 = Ret (d', ok) /\ dict_wf int_type id d' /\
    dict_map int_type id d' = dict_map int_type id dictCreate /\
    if (ok : bool) then
      let e := ht_size_exp (if dictIsRehashing d' then ht1 d' else ht0 d') in
      2 <= e <= 60 /\ 100 <= 2 ^ e /\ (e = 2 \/ 2 ^ (e - 1) < 100)
    else d' = dictCreate.
Proof.
  apply (dictExpand_capacity int_type id DICT_RESIZE_ENABLE dictCreate 100).
  - apply dictCreate_wf.
  - reflexivity.
  - lia.
Defined.
