(* ===== verification/DictScan.v ===== *)
(** * DictScan: the cursor iteration of dict.c

    [dictScan] visits the buckets in the order of the bit-reversed index, so
    that a cursor stays meaningful when the table is resized between two calls.
    The callback collects the entries; it does not change the dict. *)

From stdpp Require Import countable sets fin_maps gmap.
From S2P Require Import Prelude Memory Dict DictInv DictSpec.

Definition ULONG_ONES : Z := 2 ^ 64 - 1.

(** [while ((s >>= 1) > 0)] *)
Fixpoint rev_loop (fuel : nat) (s mask v : Z) : outcome Z :=
  let s := Z.shiftr s 1 in
  if 0 <? s then
    match fuel with
    | O => OutOfFuel
    | S fuel =>
      let mask := Z.lxor mask (u64 (Z.shiftl mask s)) in
      let v := Z.lor (Z.land (Z.shiftr v s) mask) (Z.land (u64 (Z.shiftl v s)) (u64 (Z.lnot mask))) in
      rev_loop fuel s mask v
    end
  else Ret v.

Definition rev (v : Z) : outcome Z := rev_loop 6 64 ULONG_ONES v.

Section scan.
Context {SK V : Type}.
Abbreviation dict := (dict SK V).
Abbreviation dictEntry := (dictEntry SK V).

(** The entries given to the callback, in order. *)
Fixpoint dictScanBucket (de : dictEntry) : list (SK * option V) :=
  match de with
  | DNull => []
  | DKey k => [(k, None)]
  | DEntry k v next => (k, v) :: dictScanBucket next
  end.

(** [v |= ~m; v = rev(v); v++; v = rev(v);] *)
Definition next_cursor (m v : Z) : outcome Z :=
  let v := Z.lor v (u64 (Z.lnot m)) in
  v ← rev v; rev (u64 (v + 1)).

(** [do ... while (v & (m0 ^ m1))] on the larger table. *)
Fixpoint scan_expansions (fuel : nat) (d : dict) (htidx1 m0 m1 v : Z) : outcome (list (SK * option V) * Z) :=
  match fuel with
  | O => OutOfFuel
  | S fuel =>
    b ← bucket_get d htidx1 (Z.land v m1);
    v ← next_cursor m1 v;
    if negb (Z.land v (Z.lxor m0 m1) =? 0) then
      '(out, v) ← scan_expansions fuel d htidx1 m0 m1 v; Ret (dictScanBucket b ++ out, v)
    else Ret (dictScanBucket b, v)
  end.

Definition dictScan (d : dict) (v : Z) : outcome (dict * Z * list (SK * option V)) :=
  if dictSize d =? 0 then Ret (d, 0, []) else
  let d := dictPauseRehashing d in
  if negb (dictIsRehashing d) then
    let m0 := DICTHT_SIZE_MASK (ht_size_exp (ht0 d)) in
    b ← bucket_get d 0 (Z.land v m0);
    v ← next_cursor m0 v;
    Ret (dictResumeRehashing d, v, dictScanBucket b)
  else
    let swap := DICTHT_SIZE (ht_size_exp (ht1 d)) <? DICTHT_SIZE (ht_size_exp (ht0 d)) in
    let htidx0 := if swap then 1 else 0 in
    let htidx1 := if swap then 0 else 1 in
    let m0 := DICTHT_SIZE_MASK (ht_size_exp (get_ht d htidx0)) in
    let m1 := DICTHT_SIZE_MASK (ht_size_exp (get_ht d htidx1)) in
    b ← bucket_get d htidx0 (Z.land v m0);
    '(out, v) ← scan_expansions (Z.to_nat (DICTHT_SIZE (ht_size_exp (get_ht d htidx1)))) d htidx1 m0 m1 v;
    Ret (dictResumeRehashing d, v, dictScanBucket b ++ out).
End scan.

(** ** Bit reversal *)

Definition rev_step (s mask v : Z) : Z :=
  Z.lor (Z.land (Z.shiftr v s) mask) (Z.land (u64 (Z.shiftl v s)) (u64 (Z.lnot mask))).

Lemma testbit_u64 v i : 0 <= i < 64 -> Z.testbit (u64 v) i = Z.testbit v i.
Proof. intros Hi. unfold wrapu. rewrite <- Z.land_ones by lia. rewrite Z.land_spec, Z.ones_spec_low by lia. apply andb_true_r. Qed.

Lemma rev_step_spec s mask v i : 0 <= s -> 0 <= i < 64 ->
  Z.testbit (rev_step s mask v) i = Z.testbit v (if Z.testbit mask i then i + s else i - s).
Proof.
  intros Hs Hi. unfold rev_step. rewrite Z.lor_spec, !Z.land_spec, Z.shiftr_spec, !testbit_u64 by lia.
  rewrite Z.lnot_spec, Z.shiftl_spec by lia.
  destruct (Z.testbit mask i); cbn [negb]; rewrite ?andb_true_r, ?andb_false_r, ?orb_false_r; done.
Qed.

(** The reversal as six swaps with constant masks, the last one first. *)
Definition rev_steps : list (Z * Z) :=
  [(1, 0x5555555555555555); (2, 0x3333333333333333); (4, 0xf0f0f0f0f0f0f0f); (8, 0xff00ff00ff00ff);
   (16, 0xffff0000ffff); (32, 0xffffffff)].

Fixpoint apply_steps (l : list (Z * Z)) (v : Z) : Z :=
  match l with [] => v | (s, mask) :: l => rev_step s mask (apply_steps l v) end.

Definition rev64 (v : Z) : Z := apply_steps rev_steps v.

Lemma rev_eq v : rev v = Ret (rev64 v).
Proof. reflexivity. Qed.

(** The bit of [v] that ends up at [i], if it comes from one of the 64 bits at each step. *)
Fixpoint step_index (l : list (Z * Z)) (i : Z) : option Z :=
  match l with
  | [] => Some i
  | (s, mask) :: l =>
    if (0 <=? i) && (i <? 64) && (0 <=? s) then step_index l (if Z.testbit mask i then i + s else i - s) else None
  end.

Lemma step_index_spec l v : forall i j, step_index l i = Some j -> Z.testbit (apply_steps l v) i = Z.testbit v j.
Proof.
  induction l as [|[s mask] l IH]; intros i j; cbn [step_index apply_steps]; [by intros [= ->]|].
  destruct (Z.leb_spec 0 i), (Z.ltb_spec i 64), (Z.leb_spec 0 s); cbn [andb]; try done.
  intros Hj. rewrite rev_step_spec by lia. by apply IH.
Qed.

Lemma rev_index_all : forallb (fun i => bool_decide (step_index rev_steps i = Some (63 - i))) (seqZ 0 64) = true.
Proof. vm_compute. reflexivity. Qed.

Lemma rev64_spec v i : 0 <= i < 64 -> Z.testbit (rev64 v) i = Z.testbit v (63 - i).
Proof.
  intros Hi. pose proof rev_index_all as H. rewrite forallb_forall in H. specialize (H i).
  rewrite <- list_elem_of_In, elem_of_seqZ in H. specialize (H ltac:(lia)).
  apply bool_decide_eq_true_1 in H. by apply step_index_spec.
Qed.

Lemma land_range a m : 0 <= m < 2 ^ 64 -> 0 <= Z.land a m < 2 ^ 64.
Proof.
  intros Hm. assert (Z.land a m = Z.land (Z.land a m) (Z.ones 64)) as ->.
  { rewrite <- Z.land_assoc. f_equal. rewrite Z.land_ones by lia. symmetry. by apply Z.mod_small. }
  rewrite Z.land_ones by lia. apply Z.mod_pos_bound. lia.
Qed.

Lemma lor_range a b : 0 <= a < 2 ^ 64 -> 0 <= b < 2 ^ 64 -> 0 <= Z.lor a b < 2 ^ 64.
Proof.
  intros Ha Hb. assert (Z.lor a b = Z.land (Z.lor a b) (Z.ones 64)) as ->.
  { rewrite Z.land_lor_distr_l, !Z.land_ones by lia. by rewrite !Z.mod_small by lia. }
  apply land_range. vm_compute. split; congruence.
Qed.

Lemma rev64_range v : 0 <= rev64 v < 2 ^ 64.
Proof. apply lor_range; apply land_range; vm_compute; split; congruence. Qed.

Lemma testbit_high a i : 0 <= a < 2 ^ 64 -> 64 <= i -> Z.testbit a i = false.
Proof.
  intros Ha Hi. rewrite <- (Z.mod_small a (2 ^ 64)) by done. by rewrite Z.mod_pow2_bits_high by lia.
Qed.

Lemma rev64_involutive v : 0 <= v < 2 ^ 64 -> rev64 (rev64 v) = v.
Proof.
  intros Hv. apply Z.bits_inj'. intros i Hi. destruct (Z.lt_ge_cases i 64).
  - rewrite !rev64_spec by lia. f_equal. lia.
  - rewrite !testbit_high; [done|done|done|apply rev64_range|done].
Qed.

(** The reversed cursor: the order in which buckets are visited. *)
Lemma rev64_fill k v : 0 <= k <= 64 -> 0 <= v < 2 ^ 64 ->
  rev64 (Z.lor v (u64 (Z.lnot (2 ^ k - 1)))) = rev64 v / 2 ^ (64 - k) * 2 ^ (64 - k) + (2 ^ (64 - k) - 1).
Proof.
  intros Hk Hv. transitivity (Z.lor (rev64 v) (Z.ones (64 - k))).
  - apply Z.bits_inj'. intros i Hi. pose proof (rev64_range v).
    assert (0 <= u64 (Z.lnot (2 ^ k - 1)) < 2 ^ 64) by (apply wrapu_range; lia).
    assert (0 <= Z.ones (64 - k) < 2 ^ 64).
    { rewrite Z.ones_equiv. pose proof (Z.pow_pos_nonneg 2 (64 - k)). pose proof (Z.pow_le_mono_r 2 (64 - k) 64). lia. }
    destruct (Z.lt_ge_cases i 64); [|rewrite !testbit_high; try done; [by apply lor_range|apply rev64_range]].
    rewrite rev64_spec, !Z.lor_spec, rev64_spec by lia. f_equal.
    rewrite testbit_u64, Z.lnot_spec by lia. change (2 ^ k - 1) with (Z.pred (2 ^ k)). rewrite <- Z.ones_equiv.
    destruct (Z.lt_ge_cases i (64 - k)).
    + rewrite (Z.ones_spec_low (64 - k)) by lia. by rewrite Z.ones_spec_high by lia.
    + rewrite (Z.ones_spec_high (64 - k)) by lia. by rewrite Z.ones_spec_low by lia.
  - pose proof (Z.pow_pos_nonneg 2 (64 - k)).
    rewrite (Z.div_mod (rev64 v) (2 ^ (64 - k))) at 1 by lia. rewrite (Z.mul_comm (2 ^ (64 - k))).
    rewrite <- Z.land_ones by lia. rewrite <- Z.shiftl_mul_pow2 by lia.
    assert (Z.shiftl (rev64 v / 2 ^ (64 - k)) (64 - k) + Z.land (rev64 v) (Z.ones (64 - k)) =
      Z.lor (Z.shiftl (rev64 v / 2 ^ (64 - k)) (64 - k)) (Z.land (rev64 v) (Z.ones (64 - k)))) as ->.
    { rewrite Z.lor_comm, lor_shiftl_add, Z.shiftl_mul_pow2; [lia|lia|lia|]. rewrite Z.land_ones by lia. apply Z.mod_pos_bound. lia. }
    rewrite <- Z.lor_assoc. assert (Z.lor (Z.land (rev64 v) (Z.ones (64 - k))) (Z.ones (64 - k)) = Z.ones (64 - k)) as ->.
    { apply Z.bits_inj'. intros i _. rewrite Z.lor_spec, Z.land_spec. by destruct (Z.testbit (rev64 v) i), (Z.testbit (Z.ones (64 - k)) i). }
    rewrite Z.lor_comm, lor_shiftl_add, Z.shiftl_mul_pow2; rewrite ?Z.ones_equiv; lia.
Qed.

(** The end of the block of [r], of [2^(64-k)] ranks. *)
Definition block_end (k r : Z) : Z := (r / 2 ^ (64 - k) + 1) * 2 ^ (64 - k).

Lemma next_cursor_spec k v : 0 <= k <= 64 -> 0 <= v < 2 ^ 64 ->
  exists v', next_cursor (2 ^ k - 1) v = Ret v' /\ 0 <= v' < 2 ^ 64 /\
    rev64 v' = block_end k (rev64 v) mod 2 ^ 64.
Proof.
  intros Hk Hv. unfold next_cursor. rewrite rev_eq. cbn [mbind outcome_bind]. rewrite rev_eq.
  eexists. split; [done|]. split; [apply rev64_range|]. rewrite rev64_involutive by (apply wrapu_range; lia).
  rewrite rev64_fill by done. unfold wrapu, block_end. f_equal. lia.
Qed.

(** Same low bits of the cursor, same high bits of its reverse. *)
Lemma rev64_low k h v : 0 <= k <= 64 -> 0 <= h < 2 ^ 64 -> 0 <= v < 2 ^ 64 ->
  rev64 h / 2 ^ (64 - k) = rev64 v / 2 ^ (64 - k) -> h mod 2 ^ k = v mod 2 ^ k.
Proof.
  intros Hk Hh Hv E. apply Z.bits_inj'. intros i Hi. destruct (Z.lt_ge_cases i k).
  - rewrite !Z.mod_pow2_bits_low by lia.
    rewrite <- (rev64_involutive h), <- (rev64_involutive v), (rev64_spec (rev64 h)), (rev64_spec (rev64 v)) by lia.
    replace (63 - i) with (63 - i - (64 - k) + (64 - k)) by lia. rewrite <- (Z.div_pow2_bits (rev64 h) (64 - k)), <- (Z.div_pow2_bits (rev64 v) (64 - k)) by lia. by rewrite E.
  - by rewrite !Z.mod_pow2_bits_high by lia.
Qed.

Lemma rev64_0 : rev64 0 = 0.
Proof. reflexivity. Qed.

#[global] Opaque rev64 next_cursor rev.

Section coverage.
Context {K SK V : Type} (type : dictType K SK V).
Context {C : Type} (canon : K -> C) `{!EqDecision C, !Countable C, !DictKeys type canon}.
Abbreviation dict := (dict SK V).

(** The place of an entry in the scan: the reverse of its hash. *)
Definition rank (x : SK * option V) : Z := rev64 (entry_hash type x).

Lemma dictScanBucket_list (c : dictEntry SK V) : dictScanBucket c = chain_list c.
Proof. induction c as [| |k v next IH]; cbn; by rewrite ?IH. Qed.

Lemma entry_hash_range (x : SK * option V) : 0 <= entry_hash type x < 2 ^ 64.
Proof. apply (keys_hash_range (canon := canon)). Qed.

(** One bucket holds every entry whose rank is in the block of the cursor. *)
Lemma bucket_covers e (t : list (dictEntry SK V)) v : tbl_ok type e t -> 0 <= v < 2 ^ 64 -> exists c,
  rd t (Z.land v (DICTHT_SIZE_MASK e)) = Ret c /\
  (forall x, x ∈ chain_list c -> x ∈ tbl_entries t) /\
  forall x, x ∈ tbl_entries t -> rank x / 2 ^ (64 - e) = rev64 v / 2 ^ (64 - e) -> x ∈ chain_list c.
Proof.
  intros Ht Hv. pose proof (tbl_exp _ _ _ Ht) as He. rewrite land_mask by lia.
  destruct (tbl_bucket type e t v Ht) as (c & Hc & Hl & Hr). exists c. split; [done|]. split.
  - intros x Hx. apply elem_of_tbl_entries. by eexists _, _.
  - intros x Hx Hrank. apply elem_of_tbl_entries in Hx as (i & c' & Hi & Hx).
    pose proof (tbl_placed _ _ _ Ht _ _ _ Hi Hx) as Hp.
    rewrite (rev64_low e (entry_hash type x) v) in Hp; [|lia|apply entry_hash_range|done|done].
    rewrite Hp, Nat2Z.id in Hl. rewrite Hi in Hl. by injection Hl as ->.
Qed.

Lemma block_end_bounds k r : 0 <= k <= 64 -> 0 <= r < 2 ^ 64 -> r < block_end k r <= 2 ^ 64 /\
  (forall x, r / 2 ^ (64 - k) * 2 ^ (64 - k) <= x < block_end k r -> x / 2 ^ (64 - k) = r / 2 ^ (64 - k)).
Proof.
  intros Hk Hr. unfold block_end. set (B := 2 ^ (64 - k)).
  assert (0 < B) as HB by (apply Z.pow_pos_nonneg; lia).
  assert (2 ^ 64 = 2 ^ k * B) as E by (unfold B; rewrite <- Z.pow_add_r by lia; f_equal; lia).
  pose proof (Z.div_mod r B ltac:(lia)). pose proof (Z.mod_pos_bound r B HB).
  assert (r / B < 2 ^ k) by (apply Z.div_lt_upper_bound; lia).
  split; [split; [lia|rewrite E; nia]|]. intros x Hx. symmetry. apply (Z.div_unique _ _ _ (x - r / B * B)); [left; lia|lia].
Qed.

(** Cursors that mean the end of a block: 0 when it is the last. *)
Lemma cursor_end v' e : 0 <= v' < 2 ^ 64 -> 0 < e <= 2 ^ 64 -> rev64 v' = e mod 2 ^ 64 ->
  (e = 2 ^ 64 /\ v' = 0) \/ (rev64 v' = e /\ v' <> 0).
Proof.
  intros Hv He Hr. destruct (Z.eq_dec e (2 ^ 64)) as [-> |Hne]; [left|right].
  - split; [done|]. rewrite Z_mod_same_full in Hr. rewrite <- (rev64_involutive v'), Hr by done. apply rev64_0.
  - rewrite Z.mod_small in Hr by lia. split; [done|]. intros ->. rewrite rev64_0 in Hr. lia.
Qed.

Lemma mod0_bits a n i : 0 <= n -> a mod 2 ^ n = 0 -> i < n -> Z.testbit a i = false.
Proof. intros Hn H Hi. rewrite <- (Z.mod_pow2_bits_low a n i), H by lia. apply Z.bits_0. Qed.

Lemma mask_bits k0 k1 j : 0 <= k0 <= k1 -> 0 <= j ->
  Z.testbit (Z.lxor (2 ^ k0 - 1) (2 ^ k1 - 1)) j = (k0 <=? j) && (j <? k1).
Proof.
  intros Hk Hj. rewrite Z.lxor_spec. change (2 ^ k0 - 1) with (Z.pred (2 ^ k0)). change (2 ^ k1 - 1) with (Z.pred (2 ^ k1)).
  rewrite <- !Z.ones_equiv. destruct (Z.leb_spec k0 j), (Z.ltb_spec j k1); try lia;
    [rewrite (Z.ones_spec_high k0), (Z.ones_spec_low k1)|rewrite (Z.ones_spec_high k0), (Z.ones_spec_high k1)|
     rewrite (Z.ones_spec_low k0), (Z.ones_spec_low k1)]; (lia || done).
Qed.

(** The loop over the expansions stops at the end of the smaller table's block. *)
Lemma stop_test k0 k1 v : 0 <= k0 <= k1 -> k1 <= 64 -> 0 <= v < 2 ^ 64 -> rev64 v mod 2 ^ (64 - k1) = 0 ->
  Z.land v (Z.lxor (2 ^ k0 - 1) (2 ^ k1 - 1)) = 0 <-> rev64 v mod 2 ^ (64 - k0) = 0.
Proof.
  intros Hk Hk1 Hv H1. split; intros H.
  - apply Z.bits_inj'. intros i Hi. rewrite Z.bits_0. destruct (Z.lt_ge_cases i (64 - k0)).
    + rewrite Z.mod_pow2_bits_low by lia. destruct (Z.lt_ge_cases i (64 - k1)).
      * by apply (mod0_bits _ (64 - k1)); [lia|done|].
      * rewrite rev64_spec by lia. pose proof (f_equal (fun z => Z.testbit z (63 - i)) H) as Hb. cbn beta in Hb.
        rewrite Z.land_spec, Z.bits_0, mask_bits in Hb by lia.
        destruct (Z.leb_spec k0 (63 - i)), (Z.ltb_spec (63 - i) k1); try lia. by rewrite andb_true_r in Hb.
    + by rewrite Z.mod_pow2_bits_high by lia.
  - apply Z.bits_inj'. intros j Hj. rewrite Z.land_spec, Z.bits_0, mask_bits by lia.
    destruct (Z.leb_spec k0 j), (Z.ltb_spec j k1); cbn [andb]; rewrite ?andb_false_r, ?andb_true_r; try done.
    rewrite <- (rev64_involutive v), rev64_spec by lia. apply (mod0_bits _ (64 - k0)); [lia|done|lia].
Qed.

Lemma block_end_nested k0 k1 r : 0 <= k0 <= k1 -> k1 <= 64 -> 0 <= r < 2 ^ 64 ->
  block_end k1 r <= block_end k0 r /\ (block_end k1 r mod 2 ^ (64 - k0) = 0 -> block_end k1 r = block_end k0 r) /\
  block_end k0 r mod 2 ^ (64 - k1) = 0 /\
  (block_end k1 r < block_end k0 r -> block_end k0 (block_end k1 r) = block_end k0 r).
Proof.
  intros Hk Hk1 Hr. pose proof (block_end_bounds k1 r ltac:(lia) Hr) as [H1 _].
  pose proof (block_end_bounds k0 r ltac:(lia) Hr) as [H0 Hb0]. unfold block_end in *.
  set (B0 := 2 ^ (64 - k0)) in *. set (B1 := 2 ^ (64 - k1)) in *.
  assert (0 < B1) by (apply Z.pow_pos_nonneg; lia). assert (0 < B0) by (apply Z.pow_pos_nonneg; lia).
  assert (B0 = 2 ^ (k1 - k0) * B1) as E by (unfold B0, B1; rewrite <- Z.pow_add_r by lia; f_equal; lia).
  assert (0 < 2 ^ (k1 - k0)) by (apply Z.pow_pos_nonneg; lia). set (q := 2 ^ (k1 - k0)) in *.
  pose proof (Z.div_mod r B0 ltac:(lia)). pose proof (Z.mod_pos_bound r B0 ltac:(lia)).
  pose proof (Z.div_mod r B1 ltac:(lia)). pose proof (Z.mod_pos_bound r B1 ltac:(lia)).
  set (F := (r / B0 + 1) * B0) in *.
  assert (F = ((r / B0 + 1) * q) * B1) as EF by (unfold F; rewrite E at 2; ring).
  assert (r / B1 < (r / B0 + 1) * q) by (apply Z.div_lt_upper_bound; lia).
  assert ((r / B1 + 1) * B1 <= F) as Hle by (rewrite EF; apply Z.mul_le_mono_nonneg_r; lia).
  split; [done|]. split; [|split].
  - intros Hm. apply Z.mod_divide in Hm as [z Hz]; [|lia].
    assert (r / B0 < z) by (apply (Z.mul_lt_mono_pos_r B0); lia).
    assert (F <= z * B0) by (apply Z.mul_le_mono_nonneg_r; lia). lia.
  - rewrite EF. apply Z.mod_mul. lia.
  - intros Hlt. rewrite (Hb0 ((r / B1 + 1) * B1)); [done|]. lia.
Qed.

Lemma mask_pow k : 0 <= k <= 63 -> DICTHT_SIZE_MASK k = 2 ^ k - 1.
Proof. intros Hk. unfold DICTHT_SIZE_MASK. destruct (Z.eqb_spec k (-1)); [lia|]. by rewrite DICTHT_SIZE_pow by lia. Qed.

Lemma block_end_mod k r : k <= 64 -> block_end k r mod 2 ^ (64 - k) = 0.
Proof. intros Hk. apply Z.mod_mul. pose proof (Z.pow_pos_nonneg 2 (64 - k)). lia. Qed.

Lemma block_end_end k r : k <= 64 -> block_end k (block_end k r) = block_end k r + 2 ^ (64 - k).
Proof.
  intros Hk. pose proof (Z.pow_pos_nonneg 2 (64 - k)). unfold block_end. rewrite Z.div_mul by lia. lia.
Qed.

(** The bucket of the cursor has all the entries up to the end of its block. *)
Lemma bucket_covers_end e (t : list (dictEntry SK V)) v : tbl_ok type e t -> 0 <= v < 2 ^ 64 -> exists c,
  rd t (Z.land v (DICTHT_SIZE_MASK e)) = Ret c /\
  (forall x, x ∈ chain_list c -> x ∈ tbl_entries t) /\
  forall x, x ∈ tbl_entries t -> rev64 v <= rank x < block_end e (rev64 v) -> x ∈ chain_list c.
Proof.
  intros Ht Hv. pose proof (tbl_exp _ _ _ Ht) as He. destruct (bucket_covers e t v Ht Hv) as (c & Hc & Hin & Hcov).
  exists c. split; [done|]. split; [done|]. intros x Hx Hxr. apply Hcov; [done|].
  pose proof (rev64_range v) as Hr. apply (block_end_bounds e (rev64 v)); [lia|done|].
  pose proof (Z.mul_div_le (rev64 v) (2 ^ (64 - e))). pose proof (Z.pow_pos_nonneg 2 (64 - e)). lia.
Qed.

Lemma block_next k0 k1 v v1 : 2 <= k0 < k1 -> k1 <= 64 -> 0 <= v < 2 ^ 64 -> 0 <= v1 < 2 ^ 64 ->
  rev64 v1 = block_end k1 (rev64 v) mod 2 ^ 64 ->
  (Z.land v1 (Z.lxor (2 ^ k0 - 1) (2 ^ k1 - 1)) = 0 /\ block_end k1 (rev64 v) = block_end k0 (rev64 v)) \/
  (Z.land v1 (Z.lxor (2 ^ k0 - 1) (2 ^ k1 - 1)) <> 0 /\ rev64 v1 = block_end k1 (rev64 v) /\
   block_end k1 (rev64 v) < block_end k0 (rev64 v) /\ block_end k0 (rev64 v1) = block_end k0 (rev64 v)).
Proof.
  intros Hk Hk1 Hv Hv1 Hr1. pose proof (rev64_range v) as Hr. remember (rev64 v) as r eqn:Er.
  destruct (block_end_bounds k1 r ltac:(lia) Hr) as [He1 _].
  destruct (block_end_nested k0 k1 r ltac:(lia) ltac:(lia) Hr) as (Hle & Hstop & Hm01 & Hnext).
  destruct (block_end_bounds k0 r ltac:(lia) Hr) as [He0 _].
  assert (Z.land v1 (Z.lxor (2 ^ k0 - 1) (2 ^ k1 - 1)) = 0 <-> block_end k1 r = block_end k0 r) as Htest.
  { destruct (cursor_end v1 (block_end k1 r) Hv1 ltac:(lia) Hr1) as [[E ->]|[E Hne]].
    - rewrite Z.land_0_l. split; [|reflexivity]. intros _. lia.
    - rewrite stop_test; [|lia|lia|done|rewrite E; apply block_end_mod; lia]. rewrite E. split; [done|]. intros ->.
      apply block_end_mod; lia. }
  destruct (Z.eq_dec (block_end k1 r) (block_end k0 r)) as [E|E]; [left; tauto|right].
  assert (block_end k1 r < block_end k0 r) as Hlt by lia. rewrite Z.mod_small in Hr1 by lia.
  rewrite Hr1. repeat split; [tauto|done|exact (Hnext Hlt)].
Qed.

Lemma scan_expansions_S fuel (d : dict) htidx1 m0 m1 v c v1 : bucket_get d htidx1 (Z.land v m1) = Ret c -> next_cursor m1 v = Ret v1 ->
  scan_expansions (S fuel) d htidx1 m0 m1 v =
    if Z.land v1 (Z.lxor m0 m1) =? 0 then Ret (chain_list c, v1)
    else ('(out, v2) ← scan_expansions fuel d htidx1 m0 m1 v1; Ret (chain_list c ++ out, v2)).
Proof.
  intros Hc Hn. cbn [scan_expansions]. rewrite Hc, ret_bind, Hn, ret_bind, dictScanBucket_list.
  by destruct (Z.land v1 (Z.lxor m0 m1) =? 0).
Qed.

Lemma scan_expansions_spec k0 k1 (t1 : list (dictEntry SK V)) (d : dict) htidx1 : tbl_ok type k1 t1 -> 2 <= k0 < k1 ->
  (forall i, bucket_get d htidx1 i = rd t1 i) -> forall fuel v, 0 <= v < 2 ^ 64 ->
  block_end k0 (rev64 v) <= block_end k1 (rev64 v) + (Z.of_nat fuel - 1) * 2 ^ (64 - k1) ->
  exists out v', scan_expansions fuel d htidx1 (2 ^ k0 - 1) (2 ^ k1 - 1) v = Ret (out, v') /\ 0 <= v' < 2 ^ 64 /\
    rev64 v' = block_end k0 (rev64 v) mod 2 ^ 64 /\
    (forall x, x ∈ out -> x ∈ tbl_entries t1) /\
    forall x, x ∈ tbl_entries t1 -> rev64 v <= rank x < block_end k0 (rev64 v) -> x ∈ out.
Proof.
  intros Ht1 Hk Hget. pose proof (tbl_exp _ _ _ Ht1) as Hk1.
  assert (DICTHT_SIZE_MASK k1 = 2 ^ k1 - 1) as Hmask by (apply mask_pow; lia).
  induction fuel as [|fuel IH]; intros v Hv Hf.
  { destruct (block_end_nested k0 k1 (rev64 v)) as [? _]; [lia|lia|apply rev64_range|].
    assert (0 < 2 ^ (64 - k1)) by (apply Z.pow_pos_nonneg; lia). lia. }
  pose proof (rev64_range v) as Hr.
  destruct (bucket_covers_end k1 t1 v Ht1 Hv) as (c & Hc & Hcin & Hcov). rewrite Hmask, <- Hget in Hc.
  destruct (next_cursor_spec k1 v ltac:(lia) Hv) as (v1 & Hn & Hv1 & Hr1).
  rewrite (scan_expansions_S fuel d htidx1 (2 ^ k0 - 1) _ v c v1 Hc Hn). clear Hn Hc.
  destruct (block_next k0 k1 v v1) as [[E Heq]|(E & Hr1' & Hlt & Hnext)]; [lia|lia|done..| |].
  - rewrite (proj2 (Z.eqb_eq _ _) E). exists (chain_list c), v1. rewrite Heq in *. repeat split; try assumption; [lia|lia].
  - apply Z.eqb_neq in E. rewrite E.
    destruct (IH v1 Hv1) as (out & v' & -> & Hv' & Hr' & Hout & Hall).
    { rewrite Hnext, Hr1', block_end_end by lia. lia. }
    rewrite ret_bind. rewrite Hnext in Hr', Hall. rewrite Hr1' in Hall. exists (chain_list c ++ out), v'.
    split; [reflexivity|]. split; [exact Hv'|]. split; [exact Hr'|]. split.
    + intros x Hx. apply elem_of_app in Hx as [Hx|Hx]; [by apply Hcin|by apply Hout].
    + intros x Hx Hxr. apply elem_of_app. destruct (Z.lt_ge_cases (rank x) (block_end k1 (rev64 v))); [left|right].
      * apply Hcov; [done|lia].
      * apply Hall; [done|lia].
Qed.

(** The exponent of the smaller table, and the ranks one call covers. *)
Definition scan_exp (d : dict) : Z :=
  if dictIsRehashing d then Z.min (ht_size_exp (ht0 d)) (ht_size_exp (ht1 d)) else ht_size_exp (ht0 d).

Definition scan_end (d : dict) (r : Z) : Z := if dictSize d =? 0 then 2 ^ 64 else block_end (scan_exp d) r.

(** What one call does: [out] has the entries whose rank is in the block of the cursor. *)
Record scanned (d : dict) (v v' : Z) (out : list (SK * option V)) : Prop := {
  sn_range : 0 <= v' < 2 ^ 64;
  sn_in : forall x, x ∈ out -> x ∈ entries d;
  sn_end : rev64 v < scan_end d (rev64 v) <= 2 ^ 64;
  sn_next : (scan_end d (rev64 v) = 2 ^ 64 /\ v' = 0) \/ (rev64 v' = scan_end d (rev64 v) /\ v' <> 0);
  sn_cover : forall x, x ∈ entries d -> rev64 v <= rank x < scan_end d (rev64 v) -> x ∈ out;
}.

Lemma scanned_intro d v v' out k : dict_wf type canon d -> dictSize d <> 0 -> scan_exp d = k -> 0 <= k <= 64 -> 0 <= v' < 2 ^ 64 ->
  rev64 v' = block_end k (rev64 v) mod 2 ^ 64 -> (forall x, x ∈ out -> x ∈ entries d) ->
  (forall x, x ∈ entries d -> rev64 v <= rank x < block_end k (rev64 v) -> x ∈ out) -> scanned d v v' out.
Proof.
  intros Hwf Hsz Hk Hkr Hv' Hr Hin Hcov. assert (scan_end d (rev64 v) = block_end k (rev64 v)) as E.
  { unfold scan_end. rewrite Hk. by destruct (Z.eqb_spec (dictSize d) 0). }
  pose proof (rev64_range v) as Hrv. destruct (block_end_bounds k (rev64 v) Hkr Hrv) as [Hb _].
  split; rewrite ?E; [done|done|done| |done]. apply cursor_end; [done|lia|done].
Qed.

Lemma pause_resume (d : dict) : 0 <= pauserehash d < 2 ^ 32 -> dictResumeRehashing (dictPauseRehashing d) = d.
Proof.
  intros Hp. destruct d as [h0 h1 ri p pa log]. unfold dictResumeRehashing, dictPauseRehashing, set_pause. cbn in *.
  f_equal. unfold wrapu. rewrite Zminus_mod_idemp_l, Z.add_simpl_r. by apply Z.mod_small.
Qed.

Lemma in_stable e (t : list (dictEntry SK V)) p pa log x :
  x ∈ entries (Build_dict (mk_ht e t) _dictReset (-1) p pa log) <-> x ∈ tbl_entries t.
Proof. unfold entries, ht_entries. cbn. by rewrite app_nil_r. Qed.

(** The scan of two tables: the smaller one, then its expansions in the larger one. *)
Lemma scan_two k0 k1 (t0 t1 : list (dictEntry SK V)) (d : dict) htidx0 htidx1 v : tbl_ok type k0 t0 -> tbl_ok type k1 t1 -> k0 < k1 ->
  (forall i, bucket_get d htidx0 i = rd t0 i) -> (forall i, bucket_get d htidx1 i = rd t1 i) -> 0 <= v < 2 ^ 64 ->
  exists c out v', bucket_get d htidx0 (Z.land v (2 ^ k0 - 1)) = Ret c /\
    scan_expansions (Z.to_nat (2 ^ k1)) d htidx1 (2 ^ k0 - 1) (2 ^ k1 - 1) v = Ret (out, v') /\ 0 <= v' < 2 ^ 64 /\
    rev64 v' = block_end k0 (rev64 v) mod 2 ^ 64 /\
    (forall x, x ∈ chain_list c ++ out -> x ∈ tbl_entries t0 \/ x ∈ tbl_entries t1) /\
    forall x, x ∈ tbl_entries t0 \/ x ∈ tbl_entries t1 -> rev64 v <= rank x < block_end k0 (rev64 v) -> x ∈ chain_list c ++ out.
Proof.
  intros Ht0 Ht1 Hk Hg0 Hg1 Hv. pose proof (tbl_exp _ _ _ Ht0) as Hk0. pose proof (tbl_exp _ _ _ Ht1) as Hk1.
  destruct (bucket_covers_end k0 t0 v Ht0 Hv) as (c & Hc & Hcin & Hcov). rewrite mask_pow, <- Hg0 in Hc by lia.
  destruct (scan_expansions_spec k0 k1 t1 d htidx1 Ht1 ltac:(lia) Hg1 (Z.to_nat (2 ^ k1)) v Hv) as (out & v' & Ho & Hv' & Hr & Hin & Hall).
  { pose proof (rev64_range v) as Hr. destruct (block_end_bounds k0 (rev64 v) ltac:(lia) Hr) as [H0 _].
    pose proof (Z.pow_pos_nonneg 2 k1). rewrite Z2Nat.id by lia. rewrite Z.mul_sub_distr_r, <- Z.pow_add_r by lia.
    replace (k1 + (64 - k1)) with 64 by lia. unfold block_end at 2.
    pose proof (Z.pow_pos_nonneg 2 (64 - k1)). pose proof (Z.div_pos (rev64 v) (2 ^ (64 - k1))). nia. }
  exists c, out, v'. split; [done|]. split; [done|]. split; [done|]. split; [done|]. split.
  - intros x Hx. apply elem_of_app in Hx as [Hx|Hx]; [left; by apply Hcin|right; by apply Hin].
  - intros x [Hx|Hx] Hxr; apply elem_of_app; [left; by apply Hcov|right; by apply Hall].
Qed.

Lemma dictScan_spec d v : dict_wf type canon d -> 0 <= pauserehash d < 2 ^ 32 -> 0 <= v < 2 ^ 64 ->
  exists v' out, dictScan d v = Ret (d, v', out) /\ scanned d v v' out.
Proof.
  intros Hwf Hp Hv. unfold dictScan. destruct (Z.eqb_spec (dictSize d) 0) as [E|E].
  { exists 0, []. split; [done|]. pose proof (rev64_range v) as Hr.
    assert (scan_end d (rev64 v) = 2 ^ 64) as Hend by (unfold scan_end; by rewrite E).
    assert (entries d = []) as Hnil.
    { rewrite (dictSize_spec type canon) in E by done. apply nil_length_inv. unfold Zlen in E. lia. }
    split; rewrite ?Hend, ?Hnil; [lia|done|lia|by left|]. intros x Hx. by apply not_elem_of_nil in Hx. }
  cbv zeta. pose proof (pause_resume d Hp) as Hpr.
  assert (forall k, ht_size_exp (get_ht (dictPauseRehashing d) k) = ht_size_exp (get_ht d k)) as Hexp by (by intros k; unfold get_ht; destruct (k =? 0)).
  assert (forall k i, bucket_get (dictPauseRehashing d) k i = bucket_get d k i) as Hbg.
  { intros k i. unfold bucket_get. unfold get_ht. by destruct (k =? 0). }
  change (dictIsRehashing (dictPauseRehashing d)) with (dictIsRehashing d). rewrite !Hexp.
  change (ht0 (dictPauseRehashing d)) with (ht0 d). change (ht1 (dictPauseRehashing d)) with (ht1 d).
  destruct (wf_shape _ _ _ Hwf) as [p pa log|e t p pa log Ht|e0 t0 e1 t1 ri p pa log Ht0 Ht1 Hne Hri Hn] eqn:Es; [done|..].
  - pose proof (tbl_exp _ _ _ Ht) as He. cbn [dictIsRehashing rehashidx ht0 ht_size_exp mk_ht negb Z.eqb].
    change (dictIsRehashing _) with false. cbn [negb].
    destruct (bucket_covers_end e t v Ht Hv) as (c & Hc & Hin & Hcov).
    rewrite Hbg. change (bucket_get _ 0 _) with (rd t (Z.land v (DICTHT_SIZE_MASK e))). rewrite Hc, ret_bind.
    rewrite mask_pow by lia. destruct (next_cursor_spec e v ltac:(lia) Hv) as (v' & -> & Hv' & Hr). rewrite ret_bind, Hpr.
    exists v', (chain_list c). rewrite dictScanBucket_list. split; [done|].
    apply (scanned_intro _ _ _ _ e); [done|done|done|lia|done|done| |]; setoid_rewrite in_stable; done.
  - pose proof (tbl_exp _ _ _ Ht0) as He0. pose proof (tbl_exp _ _ _ Ht1) as He1.
    set (d := Build_dict (mk_ht e0 t0) (mk_ht e1 t1) ri p pa log) in *.
    assert (dictIsRehashing d = true) as Hreh by (unfold dictIsRehashing, d; cbn [rehashidx]; destruct (Z.eqb_spec ri (-1)); [lia|done]).
    rewrite Hreh. cbn [negb]. change (ht_size_exp (ht0 d)) with e0. change (ht_size_exp (ht1 d)) with e1.
    assert (forall i, bucket_get (dictPauseRehashing d) 0 i = rd t0 i) as Hg0 by (intros i; by rewrite Hbg).
    assert (forall i, bucket_get (dictPauseRehashing d) 1 i = rd t1 i) as Hg1 by (intros i; by rewrite Hbg).
    assert (forall x, x ∈ entries d <-> x ∈ tbl_entries t0 \/ x ∈ tbl_entries t1) as Hent by (intros x; apply elem_of_app).
    assert (scan_exp d = Z.min e0 e1) as Hse by (unfold scan_exp; by rewrite Hreh).
    rewrite (DICTHT_SIZE_pow e0), (DICTHT_SIZE_pow e1) by lia. destruct (Z.ltb_spec (2 ^ e1) (2 ^ e0)) as [Hlt|Hlt].
    + apply Z.pow_lt_mono_r_iff in Hlt; [|lia|lia]. change (ht_size_exp (get_ht d 1)) with e1. change (ht_size_exp (get_ht d 0)) with e0.
      destruct (scan_two e1 e0 t1 t0 _ 1 0 v Ht1 Ht0 Hlt Hg1 Hg0 Hv) as (c & out & v' & Hc & Ho & Hv' & Hr & Hin & Hcov).
      rewrite !mask_pow, DICTHT_SIZE_pow, Hc, ret_bind, Ho, ret_bind, Hpr, dictScanBucket_list by lia.
      exists v', (chain_list c ++ out). split; [done|].
      apply (scanned_intro _ _ _ _ e1); [done|done|rewrite Hse; lia|lia|done|done| |]; intros x Hx;
        [apply Hent; specialize (Hin x Hx)|apply Hcov; apply Hent in Hx]; tauto.
    + assert (e0 < e1) as Hlt' by (apply Z.pow_le_mono_r_iff in Hlt; lia). change (ht_size_exp (get_ht d 1)) with e1. change (ht_size_exp (get_ht d 0)) with e0.
      destruct (scan_two e0 e1 t0 t1 _ 0 1 v Ht0 Ht1 Hlt' Hg0 Hg1 Hv) as (c & out & v' & Hc & Ho & Hv' & Hr & Hin & Hcov).
      rewrite !mask_pow, DICTHT_SIZE_pow, Hc, ret_bind, Ho, ret_bind, Hpr, dictScanBucket_list by lia.
      exists v', (chain_list c ++ out). split; [done|].
      apply (scanned_intro _ _ _ _ e0); [done|done|rewrite Hse; lia|lia|done|done| |]; intros x Hx;
        [apply Hent; specialize (Hin x Hx)|apply Hcov; apply Hent in Hx]; tauto.
Qed.
End coverage.

(** ** Full scans *)

Section scans.
Context {K SK V : Type} (type : dictType K SK V).
Context {C : Type} (canon : K -> C) `{!EqDecision C, !Countable C, !DictKeys type canon}.
Abbreviation dict := (dict SK V).

(** A client's iteration: one call per dict of the list (the dict as it is at
    that call, whatever happened since the last one) until the cursor is 0.
    [None] when the list ends before. *)
Fixpoint scan_all (ds : list dict) (v : Z) : outcome (option (list (SK * option V))) :=
  match ds with
  | [] => Ret None
  | d :: ds =>
    '(_, v, out) ← dictScan d v;
    if v =? 0 then Ret (Some out)
    else r ← scan_all ds v; Ret (option_map (app out) r)
  end.

Definition scannable (d : dict) : Prop := dict_wf type canon d /\ 0 <= pauserehash d < 2 ^ 32.

Lemma scan_all_cover ds : Forall scannable ds -> forall v, 0 <= v < 2 ^ 64 ->
  exists r, scan_all ds v = Ret r /\ forall out, r = Some out ->
    (forall x, x ∈ out -> exists d, d ∈ ds /\ x ∈ entries d) /\ forall k, (forall d, d ∈ ds -> exists x, x ∈ entries d /\ entry_canon type canon x = k /\ rev64 v <= rank type x) ->
    exists x, x ∈ out /\ entry_canon type canon x = k.
Proof.
  induction 1 as [|d ds [Hwf Hp] Hds IH]; intros v Hv; cbn [scan_all]; [by eexists|].
  destruct (dictScan_spec type canon d v Hwf Hp Hv) as (v' & out & -> & Hs). rewrite ret_bind.
  pose proof (sn_end _ _ _ _ _ Hs) as He. assert (forall x, rank type x < 2 ^ 64) as Hrk by (intros; apply rev64_range).
  destruct (Z.eqb_spec v' 0) as [E|E].
  - exists (Some out). split; [done|]. intros out' [= <-]. split.
    { intros x Hx. exists d. split; [left|by apply (sn_in _ _ _ _ _ Hs)]. }
    intros k Hk. destruct (Hk d ltac:(left)) as (x & Hx & Hc & Hr). exists x. split; [|done].
    apply (sn_cover _ _ _ _ _ Hs); [done|]. split; [done|].
    destruct (sn_next _ _ _ _ _ Hs) as [[-> _]|[_ ?]]; [apply Hrk|done].
  - destruct (sn_next _ _ _ _ _ Hs) as [[_ ?]|[Hr' _]]; [done|].
    destruct (IH v' (sn_range _ _ _ _ _ Hs)) as (r & -> & IHr). rewrite ret_bind. exists (option_map (app out) r). split; [done|].
    destruct r as [out'|]; [|done]. intros out2 [= <-]. destruct (IHr out' eq_refl) as [IHin IHc]. split.
    { intros x Hx. apply elem_of_app in Hx as [Hx|Hx]; [exists d; split; [left|by apply (sn_in _ _ _ _ _ Hs)]|].
      destruct (IHin x Hx) as (d' & Hd' & Hx'). exists d'. split; [by right|done]. }
    intros k Hk. destruct (Hk d ltac:(left)) as (x & Hx & Hc & Hr). destruct (Z.lt_ge_cases (rank type x) (rev64 v')) as [Hlt|Hge].
    { exists x. split; [|done]. apply elem_of_app. left. apply (sn_cover _ _ _ _ _ Hs); [done|lia]. }
    destruct (IHc k) as (y & Hy & Hyc); [|exists y; split; [apply elem_of_app; by right|done]].
    intros d' Hd'. destruct (Hk d' ltac:(by right)) as (y & Hy & Hyc & _). exists y. split; [done|]. split; [done|].
    assert (rank type y = rank type x) as ->; [|lia]. unfold rank, entry_hash. f_equal.
    apply keys_hash. change (entry_canon type canon y = entry_canon type canon x). congruence.
Qed.

(** A call moves the cursor forward by at least the smallest block. *)
Lemma scan_all_ends e ds : 0 <= e <= 64 -> Forall (fun d => scannable d /\ scan_exp d <= e) ds -> forall v, 0 <= v < 2 ^ 64 ->
  2 ^ 64 - rev64 v <= Zlen ds * 2 ^ (64 - e) -> rev64 v mod 2 ^ (64 - e) = 0 -> exists out, scan_all ds v = Ret (Some out).
Proof.
  intros He. induction 1 as [|d ds [[Hwf Hp] Hexp] Hds IH]; intros v Hv Hl Hm; cbn [scan_all].
  { pose proof (rev64_range v). change (Zlen []) with 0 in Hl. lia. }
  destruct (dictScan_spec type canon d v Hwf Hp Hv) as (v' & out & -> & Hs). rewrite ret_bind.
  destruct (Z.eqb_spec v' 0) as [E|E]; [by eexists|]. destruct (sn_next _ _ _ _ _ Hs) as [[_ ?]|[Hr' _]]; [done|].
  pose proof (sn_end _ _ _ _ _ Hs) as Hse. pose proof (rev64_range v') as Hr'r. unfold scan_end in *.
  destruct (Z.eqb_spec (dictSize d) 0) as [?|Hsz]; [lia|].
  assert (2 <= scan_exp d) as Hexp2.
  { unfold scan_exp. destruct (wf_shape _ _ _ Hwf) as [| |e0 t0 e1 t1 ri ? ? ? H0 H1]; [done| |].
    - destruct (tbl_exp _ _ _ H). cbn. lia.
    - pose proof (tbl_exp _ _ _ H0). pose proof (tbl_exp _ _ _ H1). cbn. destruct (dictIsRehashing _); lia. }
  destruct (block_end_nested (scan_exp d) e (rev64 v)) as (Hle & _ & Hmod & _); [lia|lia|apply rev64_range|].
  rewrite <- Hr' in Hle, Hmod. assert (block_end e (rev64 v) = rev64 v + 2 ^ (64 - e)) as Hbe.
  { unfold block_end. pose proof (Z.pow_pos_nonneg 2 (64 - e)). pose proof (Z.div_mod (rev64 v) (2 ^ (64 - e))). lia. }
  rewrite Zlen_cons in Hl. destruct (IH v' (sn_range _ _ _ _ _ Hs) ltac:(lia) Hmod) as [out' ->].
  rewrite ret_bind. by eexists.
Qed.

(** C2. A full scan misses nothing: iterating with [dictScan] from cursor 0 until it
    returns cursor 0, where between two calls the dict changes in any way, rehashing
    and resizes in both directions included, returns every key that was in the dict
    at each of the calls, and only entries of these dicts.  No call reads outside a table. *)
Theorem dictScan_complete ds : Forall scannable ds ->
  exists r, scan_all ds 0 = Ret r /\ forall out, r = Some out ->
    (forall x, x ∈ out -> exists d, d ∈ ds /\ x ∈ entries d) /\ forall k, (forall d, d ∈ ds -> is_Some (dict_map type canon d !! k)) ->
    exists x, x ∈ out /\ entry_canon type canon x = k.
Proof.
  intros Hds. destruct (scan_all_cover ds Hds 0 ltac:(lia)) as (r & -> & Hr). exists r. split; [done|].
  intros out ->. destruct (Hr out eq_refl) as [Hin Hc]. split; [done|]. intros k Hk. apply Hc. intros d Hd. destruct (Hk d Hd) as [x Hx].
  apply elem_of_list_to_map_2 in Hx. apply list_elem_of_fmap in Hx as (y & [= -> ->] & Hy).
  exists y. split; [done|]. split; [done|]. rewrite rev64_0. apply rev64_range.
Qed.

(** C36. A scan ends: if the smaller table never has more than [2^e] buckets, at
    most [2^e] calls return the cursor to 0. *)
Theorem dictScan_terminates e ds : 0 <= e <= 64 -> Forall (fun d => scannable d /\ scan_exp d <= e) ds ->
  2 ^ e <= Zlen ds -> exists out, scan_all ds 0 = Ret (Some out).
Proof.
  intros He Hds Hl. apply (scan_all_ends e); [done|done|lia| |].
  - rewrite rev64_0. replace (2 ^ 64) with (2 ^ e * 2 ^ (64 - e)) by (rewrite <- Z.pow_add_r by lia; f_equal; lia).
    pose proof (Z.pow_pos_nonneg 2 (64 - e)). rewrite Z.sub_0_r. apply Z.mul_le_mono_nonneg_r; lia.
  - rewrite rev64_0. apply Zmod_0_l.
Qed.
End scans.

(** ** Witnesses: the rehashing ends after the first call of the scan *)

Definition int_dict_rehashed : dict Z Z :=
  match dictRehash int_type DICT_RESIZE_ENABLE int_dict 10 with
  | Ret (d, _) => d
  | _ => dictCreate
  end.

Lemma int_dict_rehashed_wf : dict_wf int_type id int_dict_rehashed.
Proof.
  destruct (dictRehash_spec int_type id DICT_RESIZE_ENABLE int_dict 10 int_dict_wf) as (d' & more & E & [Hsc _ _ _ _]).
  unfold int_dict_rehashed. rewrite E. apply Hsc.
Qed.

Definition int_scan : list (dict Z Z) := int_dict :: replicate 7 int_dict_rehashed.

Lemma int_scan_ok : Forall (fun d => scannable int_type id d /\ scan_exp d <= 3) int_scan.
Proof.
  apply Forall_cons_2; [|apply Forall_replicate].
  - split; [split; [apply int_dict_wf|vm_compute; split; congruence]|vm_compute; congruence].
  - split; [split; [apply int_dict_rehashed_wf|vm_compute; split; congruence]|vm_compute; congruence].
Qed.

Lemma dictScan_complete_witness :
  exists r, scan_all int_scan 0 = Ret r /\ forall out, r = Some out ->
    (forall x, x ∈ out -> exists d, d ∈ int_scan /\ x ∈ entries d) /\
    forall k, (forall d, d ∈ int_scan -> is_Some (dict_map int_type id d !! k)) ->
    exists x, x ∈ out /\ entry_canon int_type id x = k.
Proof.
  apply (dictScan_complete int_type id int_scan). eapply Forall_impl; [|exact int_scan_ok]. by intros d [? _].
Defined.

Lemma dictScan_terminates_witness : exists out, scan_all int_scan 0 = Ret (Some out).
Proof. apply (dictScan_terminates int_type id 3 int_scan); [lia|apply int_scan_ok|vm_compute; congruence]. Defined.
