(* ===== verification/DictLink.v ===== *)
(** * DictLink: adding and setting keys at a link

    [dictFindLink] followed by [dictSetKeyAtLink]: one lookup to test for a key
    and then add it, or replace the stored key of its entry. *)

From stdpp Require Import countable sets fin_maps gmap.
From S2P Require Import Prelude Memory Dict DictInv DictSpec.

Section link.
Context {K SK V : Type} (type : dictType K SK V) (can_resize : dictResizeEnable).
(** A stored key's pointer used as a lookup key (a cast to [void *] in the code). *)
Context (as_key : SK -> K).
Abbreviation dict := (dict SK V).
Abbreviation dictEntry := (dictEntry SK V).

Definition dictCompareKeys (key1 key2 : K) : bool := keyCompare type key1 key2.

(** Replacing the key of an entry, tagged or allocated. *)
Definition entry_set_key (de : dictEntry) (addedKey : SK) : outcome dictEntry :=
  match de with
  | DNull => OutOfBounds
  | DKey _ => Ret (encodeEntryKey addedKey)
  | DEntry _ v next => Ret (DEntry addedKey v next)
  end.

(** The dict and the link on return; [None] is a link that is NULL. *)
Definition dictSetKeyAtLink (d : dict) (key : SK) (link : option dictEntryLink) (newItem : bool)
  : outcome (dict * dictEntryLink) :=
  let addedKey := match keyDup type with Some f => f key | None => key end in
  if newItem then
    let snap0 := ht_size_exp (ht0 d) in
    let snap1 := ht_size_exp (ht1 d) in
    '(d, _) ← dictExpandIfNeeded type can_resize d;
    match link with
    | Some link =>
      if negb (snap0 =? ht_size_exp (ht0 d)) || negb (snap1 =? ht_size_exp (ht1 d)) then
        '(d, link, bucket) ← dictFindLinkInternal type can_resize d (dictStoredKey2Key type key) true;
        match bucket, link with
        | Some bucket, None => d ← dictInsertKeyAtLink type d addedKey bucket; Ret (d, bucket)
        | _, _ => AssertFail
        end
      else d ← dictInsertKeyAtLink type d addedKey link; Ret (d, link)
    | None =>
      '(d, link, bucket) ← dictFindLinkInternal type can_resize d (dictStoredKey2Key type key) true;
      match bucket, link with
      | Some bucket, None => d ← dictInsertKeyAtLink type d addedKey bucket; Ret (d, bucket)
      | _, _ => AssertFail
      end
    end
  else
    '(d, link) ← match link with
                 | Some link => Ret (d, link)
                 | None =>
                   '(d, link, _) ← dictFindLink type can_resize d (as_key key) false;
                   match link with Some link => Ret (d, link) | None => AssertFail end
                 end;
    de ← link_get d link;
    de ← entry_set_key de addedKey;
    d ← link_set d link de;
    Ret (d, link).
End link.

Section properties.
Context {K SK V : Type} (type : dictType K SK V).
Context {C : Type} (canon : K -> C) `{!EqDecision C, !Countable C, !DictKeys type canon}.
Context (can_resize : dictResizeEnable) (as_key : SK -> K).
Abbreviation dict := (dict SK V).
Implicit Types (d : dict).

(** The link of a bucket in which an absent key may be inserted. *)
Definition insert_link d (key : K) : dictEntryLink := (c_bool (dictIsRehashing d), insert_index type d key, 0%nat).

Lemma insert_index_canon d key key' : canon key = canon key' -> insert_index type d key = insert_index type d key'.
Proof. intros E. unfold insert_index, dictGetHash. by rewrite (keys_hash key key' E). Qed.

Lemma dictFindLinkInternal_spec d key : dict_wf type canon d -> ht_table (ht0 d) <> None ->
  exists d' r last, dictFindLinkInternal type can_resize d key true =
      Ret (d', r, Some (match r with Some (table, _, _) => table | None => c_bool (dictIsRehashing d') end, last, 0%nat)) /\
    same_contents type canon d d' /\ found type canon d' key r last.
Proof.
  intros Hwf Htab. destruct (step_find type canon can_resize d key Hwf Htab) as (d' & r & last & Hd' & Hsc & Hft & Hf).
  unfold dictFindLinkInternal. cbn [negb andb]. cbv zeta. rewrite Hd'. cbn [mbind outcome_bind].
  rewrite Hft. cbn [mbind outcome_bind]. by eexists _, r, last.
Qed.

Lemma absent d k : dict_wf type canon d -> dict_map type canon d !! k = None -> forall x, x ∈ entries d -> entry_canon type canon x <> k.
Proof. intros Hwf Hm x Hx <-. rewrite (dict_map_lookup type canon d x Hwf Hx) in Hm. done. Qed.

(** What [dictFindLink] leaves for [dictSetKeyAtLink]. *)
Lemma dictFindLink_link d key d1 r b : dict_wf type canon d ->
  dictFindLink type can_resize d key true = Ret (d1, r, b) -> same_contents type canon d d1 /\
  match r with
  | Some link => exists x, points d1 link x /\ dict_map type canon d !! canon key = Some x
  | None => dict_map type canon d !! canon key = None /\
      (b = None \/ ht_table (ht0 d1) <> None /\ b = Some (insert_link d1 key))
  end.
Proof.
  intros Hwf. unfold dictFindLink. destruct (Z.eqb_spec (dictSize d) 0) as [E|E].
  - intros [= <- <- <-]. split; [by apply same_contents_refl|]. split; [by apply dict_empty_map|by left].
  - pose proof (dict_nonempty_table type canon d Hwf E) as Htab.
    destruct (dictFindLinkInternal_spec d key Hwf Htab) as (d' & r' & last & -> & Hsc & Hf).
    intros [= <- <- <-]. split; [done|]. rewrite <- (dict_map_same type canon _ _ Hsc).
    pose proof (found_map type canon _ _ _ _ (sc_wf _ _ _ _ Hsc) Hf) as Hm. destruct r' as [link|].
    + destruct Hm as (x & Hp & Hm & _). by exists x.
    + split; [done|]. right. split; [by apply (sc_table _ _ _ _ Hsc)|]. destruct Hf as [_ ->]. done.
Qed.

(** A table that is expanded changes its size, or the other one appears. *)
Lemma resized_exps d d' size ok : dict_wf type canon d -> dictIsRehashing d = false -> resized type canon d d' size ok ->
  0 <= size < 2 ^ 63 -> DICTHT_SIZE (ht_size_exp (ht0 d)) < size ->
  ht_size_exp (ht0 d') = ht_size_exp (ht0 d) -> ht_size_exp (ht1 d') = ht_size_exp (ht1 d) -> d' = d.
Proof.
  intros Hwf Hr Hres Hs Hsz E0 E1. destruct ok; [|by apply (rs_not _ _ _ _ _ _ Hres)]. exfalso.
  destruct (rs_ok _ _ _ _ _ _ Hres eq_refl) as [_ He]. destruct (_dictNextExp_spec size ltac:(lia)) as (Hb & Hle & _).
  specialize (Hle ltac:(lia)). destruct (dictIsRehashing d').
  - assert (ht_size_exp (ht1 d) = -1) as E; [|lia].
    destruct (wf_shape _ _ _ Hwf) as [| |e0 t0 e1 t1 ri p pa log Ht0 Ht1 Hne Hri Hn]; [done|done|].
    unfold dictIsRehashing in Hr. cbn in Hr. destruct (Z.eqb_spec ri (-1)); [lia|done].
  - rewrite <- E0, He, DICTHT_SIZE_pow in Hsz by lia. lia.
Qed.

Lemma dictExpand_exps d d' size ok : dict_wf type canon d -> dictExpand type can_resize d size = Ret (d', ok) -> 0 <= size < 2 ^ 63 ->
  ht_size_exp (ht0 d') = ht_size_exp (ht0 d) -> ht_size_exp (ht1 d') = ht_size_exp (ht1 d) -> d' = d.
Proof.
  intros Hwf He Hs. destruct (dictExpand_spec type canon can_resize d size Hwf ltac:(lia)) as (d2 & ok2 & He2 & Hd2).
  rewrite He2 in He. injection He as -> ->. revert He2. unfold dictExpand, _dictExpand.
  destruct (dictIsRehashing d) eqn:Er; [by intros [= <- _]|]. cbn [orb].
  destruct (_ <? _); [by intros [= <- _]|]. cbn [orb]. destruct (Z.leb_spec size (DICTHT_SIZE (ht_size_exp (ht0 d)))); [by intros [= <- _]|].
  intros _. apply (resized_exps d d' size ok Hwf Er); [apply Hd2|lia|lia].
Qed.

Lemma dictExpandIfNeeded_exps d d' b : dict_wf type canon d -> dictExpandIfNeeded type can_resize d = Ret (d', b) ->
  ht_size_exp (ht0 d') = ht_size_exp (ht0 d) -> ht_size_exp (ht1 d') = ht_size_exp (ht1 d) -> d' = d.
Proof.
  intros Hwf. destruct (used_size type canon d Hwf) as (H0 & H1 & H2 & H3).
  assert (forall size, 0 <= size < 2 ^ 63 -> ('(d', _) ← dictExpand type can_resize d size; Ret (d', true)) = Ret (d', b) ->
    ht_size_exp (ht0 d') = ht_size_exp (ht0 d) -> ht_size_exp (ht1 d') = ht_size_exp (ht1 d) -> d' = d) as Hgo.
  { intros size Hsz. destruct (dictExpand type can_resize d size) as [[d2 ok]| | |] eqn:E; cbn [mbind outcome_bind]; try done.
    intros [= <- <-]. by apply (dictExpand_exps d d2 size ok). }
  unfold dictExpandIfNeeded. destruct (dictIsRehashing d) eqn:Er; [by intros [= <- _]|].
  destruct (_ =? 0); [by apply Hgo|]. destruct (_ || _); [|by intros [= <- _]].
  destruct (dictTypeResizeAllowed _ _ _); [|by intros [= <- _]].
  rewrite wrapu_id by lia. apply Hgo. lia.
Qed.

(** The insertion at the end of both paths of [dictSetKeyAtLink]. *)
Definition inserted d d' (link : dictEntryLink) (key : K) (sk : SK) : Prop :=
  dict_wf type canon d' /\ points d' link (stored_key type sk, None) /\ dict_map type canon d' = <[canon key := (stored_key type sk, None)]> (dict_map type canon d).

Lemma insert_at d d1 key sk : same_contents type canon d d1 -> ht_table (ht0 d1) <> None -> Zlen (entries d) + 1 < 2 ^ 62 ->
  canon (keyFromStoredKey type sk) = canon key -> dict_map type canon d !! canon key = None ->
  exists d', dictInsertKeyAtLink type d1 (stored_key type sk) (insert_link d1 key) = Ret d' /\
    inserted d d' (insert_link d1 key) key sk.
Proof.
  intros Hsc Htab Hsz Hsk Hm. pose proof (sc_wf _ _ _ _ Hsc) as Hwf1.
  assert (Zlen (entries d1) = Zlen (entries d)) as El.
  { pose proof (sc_perm _ _ _ _ Hsc) as Hp. apply Permutation_length in Hp. unfold Zlen. lia. }
  assert (canon (keyFromStoredKey type (stored_key type sk)) = canon key) as Hc.
  { rewrite <- Hsk. apply (stored_key_canon type canon sk None None). }
  destruct (insert_spec type canon d1 key (stored_key type sk) Hwf1 Htab) as (d' & Hi & Hwf' & _ & Hp & Hpt);
    [lia|apply absent; [done|by rewrite (dict_map_same type canon _ _ Hsc)]|done|].
  exists d'. split; [done|]. split; [done|]. split; [done|].
  rewrite (dict_map_insert type canon _ _ _ Hwf1 Hwf' Hp), (dict_map_same type canon _ _ Hsc). f_equal. exact Hc.
Qed.

Lemma insert_after_find d d1 key sk : same_contents type canon d d1 -> ht_table (ht0 d1) <> None -> Zlen (entries d) + 1 < 2 ^ 62 ->
  canon (keyFromStoredKey type sk) = canon key -> dict_map type canon d !! canon key = None ->
  exists d' link, ('(d, link, bucket) ← dictFindLinkInternal type can_resize d1 (dictStoredKey2Key type sk) true;
      match bucket, link with
      | Some bucket, None => d ← dictInsertKeyAtLink type d (stored_key type sk) bucket; Ret (d, bucket)
      | _, _ => AssertFail
      end) = Ret (d', link) /\ inserted d d' link key sk.
Proof.
  intros Hsc Htab Hsz Hsk Hm.
  destruct (dictFindLinkInternal_spec d1 (dictStoredKey2Key type sk) (sc_wf _ _ _ _ Hsc) Htab) as (d2 & r & last & -> & Hsc2 & Hf).
  cbn [mbind outcome_bind]. pose proof (same_contents_trans type canon _ _ _ Hsc Hsc2) as Hsc'.
  pose proof (found_map type canon _ _ _ _ (sc_wf _ _ _ _ Hsc') Hf) as Hfm. rewrite (dict_map_same type canon _ _ Hsc') in Hfm.
  change (dictStoredKey2Key type sk) with (keyFromStoredKey type sk) in *. rewrite Hsk in Hfm.
  destruct r as [link|]; [destruct Hfm as (x & _ & Hx & _); congruence|].
  destruct Hf as [_ ->]. rewrite (insert_index_canon d2 _ key Hsk). fold (insert_link d2 key).
  destruct (insert_at d d2 key sk Hsc') as (d' & -> & Hd'); try done.
  { by apply (sc_table _ _ _ _ Hsc2). }
  cbn [mbind outcome_bind]. by eexists _, _.
Qed.

Lemma set_new_spec d d1 key sk b : same_contents type canon d d1 -> Zlen (entries d) + 1 < 2 ^ 62 ->
  canon (keyFromStoredKey type sk) = canon key -> dict_map type canon d !! canon key = None ->
  b = None \/ ht_table (ht0 d1) <> None /\ b = Some (insert_link d1 key) ->
  exists d' link, dictSetKeyAtLink type can_resize as_key d1 sk b true = Ret (d', link) /\ inserted d d' link key sk.
Proof.
  intros Hsc Hsz Hsk Hm Hb. unfold dictSetKeyAtLink. fold (stored_key type sk). cbv zeta.
  pose proof (sc_wf _ _ _ _ Hsc) as Hwf1.
  destruct (dictExpandIfNeeded_spec type canon can_resize d1 Hwf1) as (d2 & ok & He & [Hsc2 _] & Htab).
  rewrite He. cbn [mbind outcome_bind]. pose proof (same_contents_trans type canon _ _ _ Hsc Hsc2) as Hsc'.
  destruct b as [link|]; [|by apply insert_after_find].
  destruct (_ || _) eqn:E; [by apply insert_after_find|].
  apply orb_false_iff in E as [E0 E1]. apply negb_false_iff, Z.eqb_eq in E0, E1.
  rewrite (dictExpandIfNeeded_exps d1 d2 ok Hwf1 He (eq_sym E0) (eq_sym E1)) in *.
  destruct Hb as [?|[_ [= ->]]]; [done|]. destruct (insert_at d d1 key sk Hsc) as (d' & -> & Hd'); try done.
  cbn [mbind outcome_bind]. by eexists _, _.
Qed.

Lemma chain_at_set (c : dictEntry SK V) j de c' : chain_set c j de = Ret c' -> chain_at c' j = Ret de.
Proof.
  revert c c'. induction j as [|j IH]; intros c c'; cbn [chain_set chain_at]; [by intros [= ->]|].
  destruct c as [|k|k v next]; [done|done|]. destruct (chain_set next j de) as [n| | |] eqn:E; cbn [mbind outcome_bind]; try done.
  intros [= <-]. by apply (IH next).
Qed.

Lemma link_set_get d link de d' : link_set d link de = Ret d' -> link_get d' link = Ret de.
Proof.
  destruct link as [[table idx] depth]. unfold link_set, link_get, bucket_get, bucket_set.
  destruct (ht_table (get_ht d table)) as [t|] eqn:Ht; [|done]. destruct (rd t idx) as [c| | |] eqn:Hc; cbn [mbind outcome_bind]; try done.
  destruct (chain_set c depth de) as [c'| | |] eqn:Hs; cbn [mbind outcome_bind]; try done.
  apply rd_Ret_inv in Hc as [Hi Hc]. rewrite wr_ok by done. cbn [mbind outcome_bind]. intros [= <-].
  assert (get_ht (set_ht d table (Build_ht (Some (<[Z.to_nat idx:=c']> t)) (ht_used (get_ht d table)) (ht_size_exp (get_ht d table)))) table
    = Build_ht (Some (<[Z.to_nat idx:=c']> t)) (ht_used (get_ht d table)) (ht_size_exp (get_ht d table))) as ->
    by (unfold get_ht, set_ht; by destruct (table =? 0)).
  cbn [ht_table]. rewrite rd_insert_eq by done. cbn [mbind outcome_bind]. by apply (chain_at_set c).
Qed.

(** The chain from a link on is well formed and well placed. *)
Lemma link_facts d table idx depth de : dict_wf type canon d -> table = 0 \/ table = 1 -> link_get d (table, idx, depth) = Ret de ->
  chain_all_ok type de /\ forall z, z ∈ chain_list de -> entry_hash type z mod 2 ^ ht_size_exp (get_ht d table) = idx.
Proof.
  intros Hwf Htable Hget. unfold link_get in Hget. destruct (bucket_get d table idx) as [c| | |] eqn:Hc; try done. cbn in Hget.
  destruct (bucket_facts type canon _ _ _ _ Hwf Htable Hc) as [Hcok Hcx]. destruct (chain_at_list type _ _ _ Hget) as [Hd Hdok].
  split; [by apply Hdok|]. intros z Hz. apply Hcx. rewrite Hd in Hz.
  by eapply elem_of_submseteq; [done|apply sublist_submseteq, sublist_drop].
Qed.

(** The key of an existing entry is replaced by an equal one, its value kept. *)
Lemma set_existing_spec d x link sk : dict_wf type canon d -> points d link x ->
  canon (keyFromStoredKey type sk) = entry_canon type canon x -> exists d', dictSetKeyAtLink type can_resize as_key d sk (Some link) false = Ret (d', link) /\
    dict_wf type canon d' /\ points d' link (stored_key type sk, x.2) /\
    dict_map type canon d' = <[entry_canon type canon x := (stored_key type sk, x.2)]> (dict_map type canon d).
Proof.
  intros Hwf (Htable & de & rest0 & Hget & Hl) Hsk. destruct link as [[table idx] depth]. cbn [fst] in Htable.
  unfold dictSetKeyAtLink. fold (stored_key type sk). cbv zeta. cbn [mbind outcome_bind]. rewrite Hget. cbn [mbind outcome_bind].
  set (y := (stored_key type sk, x.2)).
  assert (entry_canon type canon y = entry_canon type canon x) as Hy.
  { rewrite <- Hsk. apply (stored_key_canon type canon sk x.2 None). }
  assert (chain_all_ok type de /\ forall z, z ∈ chain_list de -> entry_hash type z mod 2 ^ ht_size_exp (get_ht d table) = idx) as [Hok Hx].
  { by apply (link_facts d table idx depth). }
  assert (exists de', entry_set_key de (stored_key type sk) = Ret de' /\ chain_all_ok type de' /\ chain_list de' = y :: rest0) as (de' & -> & Hok' & Hl').
  { destruct de as [|k|k v next]; cbn in Hl; [done|injection Hl as <- <-|injection Hl as <- <-]; eexists; (split; [done|]); done. }
  cbn [mbind outcome_bind].
  assert (entry_hash type y = entry_hash type x) as Hh by (by apply keys_hash).
  destruct (link_update type canon d table idx depth de de') as (d1 & Hset & Hlog & Hs & Hf & rest & Hp & Hp');
    [done|done|done|by destruct de|done| |by rewrite Hl, Hl'|].
  { intros z Hz. rewrite Hl' in Hz. apply elem_of_cons in Hz as [-> |Hz]; [rewrite Hh|]; apply Hx; rewrite Hl; [left|by right]. }
  rewrite Hset. cbn [mbind outcome_bind]. rewrite Hl, Hl', !Zlen_cons, Z.sub_diag in *.
  rewrite used_add_0_range in * by (rewrite (link_set_used _ _ _ _ table Hset); destruct (used_size type canon d Hwf) as (? & ? & ? & ?); unfold get_ht; destruct (table =? 0); lia).
  rewrite <- app_comm_cons in Hp, Hp'. exists d1. split; [done|].
  assert (dict_wf type canon d1) as Hwf1.
  { apply (wf_frame type canon d); [done|done|done|by rewrite Hlog|by rewrite Hlog| |].
    - pose proof (wf_uniq _ _ _ Hwf) as Hu. rewrite Hp, fmap_cons in Hu. rewrite Hp', fmap_cons, Hy. exact Hu.
    - pose proof (wf_size _ _ _ Hwf). apply Permutation_length in Hp, Hp'. cbn [length] in *. unfold Zlen in *. lia. }
  split; [done|]. split; [|by apply (dict_map_replace type canon _ _ x y _ Hwf Hwf1 Hy Hp Hp')].
  split; [done|]. exists de', rest0. split; [|done]. by apply (link_set_get d _ de').
Qed.

(** One lookup serves to add or to replace: after [dictFindLink] of a key,
    calling [dictSetKeyAtLink] with the link found, or with the bucket returned and
    [newItem] when there is none, makes the dict map the key to the stored key, with the value it had
    (none for a new key), and returns a link to its entry.  This holds although the
    call may expand the table and so move the bucket; no assertion fails. *)
Theorem dictSetKeyAtLink_correct d key sk :
  dict_wf type canon d -> Zlen (entries d) + 1 < 2 ^ 62 -> canon (keyFromStoredKey type sk) = canon key ->
  exists d1 r b, dictFindLink type can_resize d key true = Ret (d1, r, b) /\
    (r = None <-> dict_map type canon d !! canon key = None) /\
    let x := (stored_key type sk, dict_map type canon d !! canon key ≫= snd) in
    exists d' link, dictSetKeyAtLink type can_resize as_key d1 sk
        (match r with Some link => Some link | None => b end) (bool_decide (r = None)) = Ret (d', link) /\
      dict_wf type canon d' /\ points d' link x /\ dict_map type canon d' = <[canon key := x]> (dict_map type canon d).
Proof.
  intros Hwf Hsz Hsk. destruct (dictFindLink_spec type canon can_resize d key true Hwf) as (d1 & r & b & Hf & Hsc & _).
  exists d1, r, b. split; [done|]. apply dictFindLink_link in Hf as [_ Hr]; [|done]. cbv zeta. destruct r as [link|].
  - destruct Hr as (x & Hp & Hm). split; [rewrite Hm; done|]. rewrite bool_decide_false by done.
    assert (entry_canon type canon x = canon key) as Hx.
    { apply elem_of_list_to_map_2 in Hm. apply list_elem_of_fmap in Hm as (x' & [= -> ->] & _). done. }
    destruct (set_existing_spec d1 x link sk (sc_wf _ _ _ _ Hsc) Hp) as (d' & -> & Hwf' & Hp' & Hm'); [by rewrite Hx|].
    exists d', link. rewrite Hm. cbn [mbind option_bind]. split; [done|]. split; [done|]. split; [done|].
    by rewrite Hm', Hx, (dict_map_same type canon _ _ Hsc).
  - destruct Hr as [Hm Hb]. split; [done|]. rewrite bool_decide_true by done.
    destruct (set_new_spec d d1 key sk b Hsc Hsz Hsk Hm Hb) as (d' & link & -> & Hwf' & Hp & Hm'). rewrite Hm. by exists d', link.
Qed.
End properties.

(** ** Witnesses *)

Lemma dictSetKeyAtLink_witness :
  exists d1 r b, dictFindLink int_type DICT_RESIZE_ENABLE int_dict 8 true = Ret (d1, r, b) /\
    (r = None <-> dict_map int_type id int_dict !! 8 = None) /\
    let x := (8, dict_map int_type id int_dict !! 8 ≫= snd) in
    exists d' link, dictSetKeyAtLink int_type DICT_RESIZE_ENABLE id d1 8
        (match r with Some link => Some link | None => b end) (bool_decide (r = None)) = Ret (d', link) /\
      dict_wf int_type id d' /\ points d' link x /\ dict_map int_type id d' = <[8 := x]> (dict_map int_type id int_dict).
Proof.
  apply (dictSetKeyAtLink_correct int_type id DICT_RESIZE_ENABLE id int_dict 8 8 int_dict_wf); [vm_compute; reflexivity|reflexivity].
Defined.

(** *** A NULL link when setting an existing key

    With [newItem] the missing link is looked up by the key of the stored key;
    without, by the pointer to the stored key itself.  In a dict whose stored keys
    are not its keys the lookup then fails and so does the assertion. *)

Definition pair_type : dictType Z (Z * Z) Z :=
  {| hashFunction := fun k => k mod 8; keyDup := None; valDup := None; keyCompare := Z.eqb;
     keyFromStoredKey := fst; resizeAllowed := None; no_value := true; force_full_rehash := false |}.

(** Where the stored key of key [k] is in memory. *)
Definition pair_address (sk : Z * Z) : Z := 4096 + 16 * sk.1.

Example set_null_link_aborts :
  exists d link, dictSetKeyAtLink pair_type DICT_RESIZE_ENABLE pair_address dictCreate (1, 10) None true = Ret (d, link) /\
    (exists d', dictSetKeyAtLink pair_type DICT_RESIZE_ENABLE pair_address d (1, 11) (Some link) false = Ret (d', link)) /\
    dictSetKeyAtLink pair_type DICT_RESIZE_ENABLE pair_address d (1, 11) None false = AssertFail.
Proof. eexists _, _. split; [reflexivity|]. split; [eexists; reflexivity|reflexivity]. Qed.
