(* ===== verification/DictIter.v ===== *)
(** * DictIter: the iterators of dict.c

    A safe iterator pauses the rehashing, so that entries keep their place, and
    saves the entry after the one it returns, so that this one may be deleted; an
    unsafe one checks at the end, by a fingerprint, that nothing moved.  What an
    iterator has still to visit is [pending]: it is what the operations that run
    between two calls leave alone. *)

From stdpp Require Import countable sets fin_maps gmap relations.
From S2P Require Import Prelude Memory Dict DictInv DictSpec.

(** The dict [iter->d] is an argument and a result.  [entry] and [nextEntry] are
    pointers into the chains; as values they are the chains they start, which
    the theorems show to be the ones in the table whenever they are followed. *)
Record dictIterator (SK V : Type) := {
  it_index : Z; it_table : Z; it_safe : bool;
  it_entry : dictEntry SK V; it_nextEntry : dictEntry SK V; it_fingerprint : Z }.
Arguments it_index {SK V}. Arguments it_table {SK V}. Arguments it_safe {SK V}.
Arguments it_entry {SK V}. Arguments it_nextEntry {SK V}. Arguments it_fingerprint {SK V}.
Arguments Build_dictIterator {SK V}.

(** One round of the loop of [dictFingerprint]. *)
Definition fingerprint_round (hash n : Z) : Z :=
  let hash := u64 (hash + n) in
  let hash := u64 (Z.lnot hash + Z.shiftl hash 21) in
  let hash := Z.lxor hash (Z.shiftr hash 24) in
  let hash := u64 (hash + Z.shiftl hash 3 + Z.shiftl hash 8) in
  let hash := Z.lxor hash (Z.shiftr hash 14) in
  let hash := u64 (hash + Z.shiftl hash 2 + Z.shiftl hash 4) in
  let hash := Z.lxor hash (Z.shiftr hash 28) in
  u64 (hash + Z.shiftl hash 31).

Section iterators.
Context {SK V : Type}.
Abbreviation dict := (dict SK V).
Abbreviation dictEntry := (dictEntry SK V).
Abbreviation dictIterator := (dictIterator SK V).
Implicit Types (d : dict) (iter : dictIterator).

(** The addresses the allocator gave to the tables. *)
Variable table_addr : dict -> Z -> Z.

Definition dictFingerprint d : Z :=
  foldl fingerprint_round 0
    [u64 (table_addr d 0); u64 (ht_size_exp (ht0 d)); ht_used (ht0 d);
     u64 (table_addr d 1); u64 (ht_size_exp (ht1 d)); ht_used (ht1 d)].

Definition dictInitIterator : dictIterator := Build_dictIterator (-1) 0 false DNull DNull 0.
Definition dictInitSafeIterator : dictIterator := Build_dictIterator (-1) 0 true DNull DNull 0.

Definition not_started iter : bool := (it_index iter =? -1) && (it_table iter =? 0).

Definition dictResetIterator d iter : outcome dict :=
  if negb (not_started iter) then
    if it_safe iter then Ret (dictResumeRehashing d)
    else _ ← c_assert (it_fingerprint iter =? dictFingerprint d); Ret d
  else Ret d.

Definition set_pos iter (table index : Z) (entry : dictEntry) : dictIterator :=
  Build_dictIterator index table (it_safe iter) entry (it_nextEntry iter) (it_fingerprint iter).
Definition set_next iter (next : dictEntry) : dictIterator :=
  Build_dictIterator (it_index iter) (it_table iter) (it_safe iter) (it_entry iter) next (it_fingerprint iter).

(** The first call: pause the rehashing or take the fingerprint, and skip the
    rehashed buckets of table 0. *)
Definition start_iterator d iter : dict * dictIterator :=
  if not_started iter then
    let index := if dictIsRehashing d then rehashidx d - 1 else it_index iter in
    if it_safe iter
    then (dictPauseRehashing d, set_pos iter (it_table iter) index (it_entry iter))
    else (d, Build_dictIterator index (it_table iter) false (it_entry iter) (it_nextEntry iter) (dictFingerprint d))
  else (d, iter).

(** [while (1)]; NULL is returned when the tables end. *)
Fixpoint next_loop (fuel : nat) d iter : outcome (dict * dictIterator * dictEntry) :=
  match fuel with
  | O => OutOfFuel
  | S fuel =>
    let visit d iter :=
      if is_null (it_entry iter) then next_loop fuel d iter
      else next ← dictGetNext (it_entry iter); Ret (d, set_next iter next, it_entry iter) in
    if is_null (it_entry iter) then
      let '(d, iter) := start_iterator d iter in
      let index := s64 (it_index iter + 1) in
      if s64 (DICTHT_SIZE (ht_size_exp (get_ht d (it_table iter)))) <=? index then
        if dictIsRehashing d && (it_table iter =? 0) then
          entry ← bucket_get d (it_table iter + 1) 0; visit d (set_pos iter (it_table iter + 1) 0 entry)
        else Ret (d, set_pos iter (it_table iter) index DNull, DNull)
      else entry ← bucket_get d (it_table iter) index; visit d (set_pos iter (it_table iter) index entry)
    else visit d (set_pos iter (it_table iter) (it_index iter) (it_nextEntry iter))
  end.

(** Each round but three looks at another bucket. *)
Definition dictNext d iter : outcome (dict * dictIterator * dictEntry) :=
  next_loop (Z.to_nat (DICTHT_SIZE (ht_size_exp (ht0 d)) + DICTHT_SIZE (ht_size_exp (ht1 d))) + 3) d iter.
End iterators.

(** ** What is left to visit *)

Section spec.
Context {K SK V : Type} (type : dictType K SK V).
Context {C : Type} (canon : K -> C) `{!EqDecision C, !Countable C, !DictKeys type canon}.
Context (can_resize : dictResizeEnable) (table_addr : dict SK V -> Z -> Z).
Abbreviation dict := (dict SK V).
Abbreviation dictEntry := (dictEntry SK V).
Abbreviation dictIterator := (dictIterator SK V).
Abbreviation shape := (shape type).
Abbreviation dict_wf := (dict_wf type canon).
Abbreviation dict_map := (dict_map type canon).
Abbreviation entry_canon := (entry_canon type canon).
Implicit Types (d : dict) (iter : dictIterator) (c : dictEntry).

Definition buckets d (i : Z) : list dictEntry := default [] (ht_table (get_ht d i)).

(** The entries of the buckets after [index] of [table], then of table 1. *)
Definition ahead d (table index : Z) : list (SK * option V) :=
  tbl_entries (drop (Z.to_nat (index + 1)) (buckets d table)) ++ (if table =? 0 then tbl_entries (buckets d 1) else []).

Definition pending d iter : list (SK * option V) :=
  chain_list (it_nextEntry iter) ++ ahead d (it_table iter) (it_index iter).

(** The chain an entry of [c] starts. *)
Inductive suffix (c' : dictEntry) : dictEntry -> Prop :=
| suffix_refl : suffix c' c'
| suffix_null c : c' = DNull -> suffix c' c
| suffix_next k v next : suffix c' next -> suffix c' (DEntry k v next).

(** The iterator is between two calls: [nextEntry] is the chain in the table. *)
Record iter_ok d iter : Prop := {
  io_table : it_table iter = 0 \/ it_table iter = 1 /\ dictIsRehashing d = true;
  io_index : 0 <= it_index iter < 2 ^ 60;
  io_next : it_nextEntry iter = DNull \/
    exists c, bucket_get d (it_table iter) (it_index iter) = Ret c /\ suffix (it_nextEntry iter) c;
}.

Lemma shape_rehashing_range d : shape d -> dictIsRehashing d = true -> 0 <= rehashidx d <= 2 ^ 60 /\
  tbl_entries (drop (Z.to_nat (rehashidx d)) (buckets d 0)) = tbl_entries (buckets d 0).
Proof.
  intros Hs Hr. destruct Hs as [| |e0 t0 e1 t1 ri p pa log Ht0 Ht1 Hne Hri Hn]; [done..|].
  cbn [rehashidx]. pose proof (tbl_exp _ _ _ Ht0). split.
  { split; [lia|]. etrans; [apply Hri|]. apply Z.pow_le_mono_r; lia. }
  change (buckets _ 0) with t0. rewrite <- (take_drop (Z.to_nat ri) t0) at 2. unfold tbl_entries.
  rewrite map_app, concat_app. enough (concat (map chain_list (take (Z.to_nat ri) t0)) = []) as ->; [done|].
  assert (forall l : list dictEntry, Forall (fun c => c = DNull) l -> concat (map chain_list l) = []) as Hl.
  { induction 1 as [|c l -> _ IH]; [done|]. exact IH. }
  apply Hl, Forall_lookup. intros i c Hi. apply lookup_take_Some in Hi as [Hi Hlt]. rewrite (Hn i Hlt) in Hi. congruence.
Qed.

Lemma shape_buckets d i : shape d -> i = 0 \/ i = 1 ->
  DICTHT_SIZE (ht_size_exp (get_ht d i)) = Zlen (buckets d i) /\ Zlen (buckets d i) <= 2 ^ 60 /\
  forall idx, 0 <= idx < Zlen (buckets d i) -> bucket_get d i idx = rd (buckets d i) idx.
Proof.
  intros Hs Hi.
  assert (forall e t, tbl_ok type e t -> DICTHT_SIZE e = Zlen t /\ Zlen t <= 2 ^ 60) as Ht.
  { intros e t Ht. pose proof (tbl_exp _ _ _ Ht). rewrite DICTHT_SIZE_pow, (tbl_len _ _ _ Ht) by lia.
    split; [done|]. apply Z.pow_le_mono_r; lia. }
  assert (Zlen (@nil dictEntry) = 0) as E0 by done.
  destruct Hs; destruct Hi as [-> | ->]; unfold buckets, bucket_get; cbn [get_ht Z.eqb ht0 ht1 mk_ht _dictReset ht_size_exp ht_table default];
    try (rewrite E0; split; [done|]; split; [done|]; lia).
  all: match goal with H : tbl_ok _ ?e ?t |- DICTHT_SIZE ?e = _ /\ _ => destruct (Ht _ _ H) as [-> ?] end; by split.
Qed.

Lemma shape_single d : shape d -> dictIsRehashing d = false -> buckets d 1 = [].
Proof.
  intros Hs Hr. destruct Hs as [| |e0 t0 e1 t1 ri]; [done..|]. unfold dictIsRehashing in Hr. cbn in Hr.
  destruct (Z.eqb_spec ri (-1)); [lia|done].
Qed.

Lemma entries_ahead d : shape d -> entries d = ahead d 0 (-1).
Proof. intros Hs. unfold ahead, entries, buckets, ht_entries. cbn [get_ht Z.eqb]. destruct (ht_table (ht0 d)), (ht_table (ht1 d)); done. Qed.

Lemma ahead_next d table index c : rd (buckets d table) (index + 1) = Ret c ->
  -1 <= index -> ahead d table index = chain_list c ++ ahead d table (index + 1).
Proof.
  intros Hc Hi. apply rd_Ret_inv in Hc as [_ Hc]. unfold ahead.
  rewrite (drop_S _ _ _ Hc). replace (S (Z.to_nat (index + 1))) with (Z.to_nat (index + 1 + 1)) by lia.
  unfold tbl_entries. cbn [map concat]. by rewrite <- app_assoc.
Qed.

Lemma ahead_end d table index : Zlen (buckets d table) <= index + 1 ->
  ahead d table index = if table =? 0 then tbl_entries (buckets d 1) else [].
Proof. intros H. unfold ahead. rewrite drop_ge by (unfold Zlen in H; lia). done. Qed.

(** The rounds the loop may need. *)
Definition todo d (table index : Z) : Z :=
  Z.max 0 (Zlen (buckets d table) - index) + (if table =? 0 then Zlen (buckets d 1) + 1 else 0).

(** What a call returns: the next pending entry and the chain after it, or NULL. *)
Definition next_result d iter (l : list (SK * option V)) (r : outcome (dict * dictIterator * dictEntry)) : Prop :=
  exists iter' de, r = Ret (d, iter', de) /\ it_safe iter' = it_safe iter /\ it_fingerprint iter' = it_fingerprint iter /\
  not_started iter' = false /\
  match l with
  | [] => de = DNull
  | x :: l => chain_list de = x :: chain_list (it_nextEntry iter') /\ iter_ok d iter' /\ it_entry iter' = de /\ pending d iter' = l
  end.

Lemma next_loop_spec fuel : forall d iter d1 iter1, shape d1 -> it_entry iter = DNull ->
  start_iterator table_addr d iter = (d1, iter1) ->
  it_table iter1 = 0 \/ it_table iter1 = 1 /\ dictIsRehashing d1 = true -> -1 <= it_index iter1 < 2 ^ 61 ->
  (Z.to_nat (todo d1 (it_table iter1) (it_index iter1)) < fuel)%nat ->
  next_result d1 iter1 (ahead d1 (it_table iter1) (it_index iter1)) (next_loop table_addr fuel d iter).
Proof.
  induction fuel as [|fuel IH]; intros d iter d1 iter1 Hs Hnull Hst Htab Hidx Hfuel; [lia|].
  set (table := it_table iter1) in *. set (index := it_index iter1) in *.
  assert (table = 0 \/ table = 1) as Htab' by (destruct Htab as [|[]]; auto).
  destruct (shape_buckets d1 table Hs Htab') as (Hsz & Hle & Hget).
  (* Visiting the bucket [c] at a position further on. *)
  assert (forall table' index' c, (table' = 0 \/ table' = 1 /\ dictIsRehashing d1 = true) -> 0 <= index' < 2 ^ 60 ->
    bucket_get d1 table' index' = Ret c ->
    ahead d1 table index = chain_list c ++ ahead d1 table' index' -> todo d1 table' index' < todo d1 table index ->
    0 <= todo d1 table' index' ->
    next_result d1 iter1 (ahead d1 table index)
      (let iter := set_pos iter1 table' index' c in
       if is_null (it_entry iter) then next_loop table_addr fuel d1 iter
       else next ← dictGetNext (it_entry iter); Ret (d1, set_next iter next, it_entry iter))) as Hvisit.
  { intros table' index' c Htb Hix Hc Hah Htodo Hpos. cbv zeta. cbn [it_entry set_pos].
    assert (start_iterator table_addr d1 (set_pos iter1 table' index' c) = (d1, set_pos iter1 table' index' c)) as Hst'.
    { unfold start_iterator, not_started. cbn [set_pos it_index it_table]. destruct (Z.eqb_spec index' (-1)); [lia|done]. }
    destruct c as [|k|k v next].
    - cbn [is_null]. rewrite Hah. cbn [chain_list app].
      assert (-1 <= index' < 2 ^ 61) as Hix' by lia.
      assert (Z.to_nat (todo d1 table' index') < fuel)%nat as Hf' by lia.
      destruct (IH _ (set_pos iter1 table' index' DNull) _ _ Hs eq_refl Hst' Htb Hix' Hf') as (iter' & de & Hr).
      exists iter', de. exact Hr.
    - cbn [is_null dictGetNext mbind outcome_bind]. eexists _, _. split; [reflexivity|]. do 2 (split; [done|]).
      split; [unfold not_started; cbn; destruct (Z.eqb_spec index' (-1)); [lia|done]|].
      rewrite Hah. cbn [chain_list app]. split; [done|]. split; [|done].
      split; [done|done|]. by left.
    - cbn [is_null dictGetNext mbind outcome_bind]. eexists _, _. split; [reflexivity|]. do 2 (split; [done|]).
      split; [unfold not_started; cbn; destruct (Z.eqb_spec index' (-1)); [lia|done]|].
      rewrite Hah. cbn [chain_list app]. split; [done|]. split; [|done].
      split; [done|done|]. right. eexists. split; [exact Hc|]. apply suffix_next, suffix_refl. }
  cbn [next_loop]. rewrite Hnull, Hst. cbn [is_null]. cbv zeta. fold table index.
  rewrite (wraps_id 64 (index + 1)) by lia. rewrite Hsz, (wraps_id 64) by (pose proof (Zlen_nonneg (buckets d1 table)); lia).
  pose proof (Zlen_nonneg (buckets d1 table)). pose proof (Zlen_nonneg (buckets d1 1)).
  destruct (Z.leb_spec (Zlen (buckets d1 table)) (index + 1)) as [Hend|Hin].
  - destruct (dictIsRehashing d1 && (table =? 0)) eqn:Eb.
    + apply andb_true_iff in Eb as [Er Et%Z.eqb_eq].
      assert (0 < Zlen (buckets d1 1)) as Hpos.
      { destruct Hs as [| |e0 t0 e1 t1 ri p pa log Ht0 Ht1]; [done..|]. change (buckets _ 1) with t1.
        rewrite (tbl_len _ _ _ Ht1). pose proof (tbl_exp _ _ _ Ht1). apply Z.pow_pos_nonneg; lia. }
      destruct (shape_buckets d1 1 Hs (or_intror eq_refl)) as (_ & Hle1 & Hget1).
      destruct (rd_ok (buckets d1 1) 0 ltac:(lia)) as [c Hc]. replace (table + 1) with 1 by lia.
      rewrite (Hget1 0 ltac:(lia)), Hc. cbn [mbind outcome_bind]. apply (Hvisit 1 0 c); [by right|lia| | | |].
      * by rewrite Hget1 by lia.
      * rewrite ahead_end by lia. rewrite Et. cbn [Z.eqb].
        pose proof (ahead_next d1 1 (-1) c Hc ltac:(lia)) as Hn. unfold ahead in Hn at 1. cbn in Hn. by rewrite app_nil_r in Hn.
      * unfold todo. rewrite Et. cbn [Z.eqb]. lia.
      * unfold todo. cbn [Z.eqb]. lia.
    + eexists _, _. split; [reflexivity|]. do 2 (split; [done|]).
      split; [unfold not_started; cbn; destruct (Z.eqb_spec (index + 1) (-1)); [lia|done]|].
      rewrite ahead_end by lia. destruct (Z.eqb_spec table 0) as [E|E]; [|done].
      rewrite (shape_single d1 Hs); [done|]. by destruct (dictIsRehashing d1).
  - destruct (rd_ok (buckets d1 table) (index + 1) ltac:(lia)) as [c Hc].
    rewrite (Hget (index + 1) ltac:(lia)), Hc. cbn [mbind outcome_bind]. apply (Hvisit table (index + 1) c); [done|lia| | | |].
    + by rewrite Hget by lia.
    + apply ahead_next; [done|lia].
    + unfold todo. lia.
    + unfold todo. destruct (table =? 0); lia.
Qed.

Lemma todo_bound d table index : shape d -> table = 0 \/ table = 1 -> -1 <= index ->
  (Z.to_nat (todo d table index) + Z.to_nat (index + 1) <
     Z.to_nat (DICTHT_SIZE (ht_size_exp (ht0 d)) + DICTHT_SIZE (ht_size_exp (ht1 d))) + 3 + Z.to_nat index)%nat.
Proof.
  intros Hs Ht Hi. destruct (shape_buckets d 0 Hs (or_introl eq_refl)) as [H0 _].
  destruct (shape_buckets d 1 Hs (or_intror eq_refl)) as [H1 _]. cbn [get_ht Z.eqb] in H0, H1. rewrite H0, H1.
  pose proof (Zlen_nonneg (buckets d 0)). pose proof (Zlen_nonneg (buckets d 1)).
  unfold todo. destruct Ht as [-> | ->]; cbn [Z.eqb]; lia.
Qed.

(** The first call. *)
Lemma dictNext_first d (safe : bool) : shape d ->
  let d1 := if safe then dictPauseRehashing d else d in
  let fp := if safe then 0 else dictFingerprint table_addr d in
  next_result d1 (Build_dictIterator (-1) 0 safe DNull DNull fp) (entries d)
    (dictNext table_addr d (if safe then dictInitSafeIterator else dictInitIterator)).
Proof.
  intros Hs d1 fp. assert (shape d1) as Hs1 by (unfold d1; destruct safe; [destruct Hs; by constructor|done]).
  set (ri := if dictIsRehashing d then rehashidx d - 1 else -1).
  assert (entries d = ahead d1 0 ri) as He.
  { rewrite (entries_ahead d Hs). unfold ri, d1. destruct (dictIsRehashing d) eqn:Er; [|by destruct safe].
    destruct (shape_rehashing_range d Hs Er) as [_ Hn]. unfold ahead. cbn [Z.eqb].
    replace (rehashidx d - 1 + 1) with (rehashidx d) by lia.
    by destruct safe; cbn [drop Z.to_nat Z.add]; f_equal. }
  assert (-1 <= ri < 2 ^ 61) as Hri.
  { unfold ri. destruct (dictIsRehashing d) eqn:Er; [|lia]. destruct (shape_rehashing_range d Hs Er). lia. }
  destruct (next_loop_spec (Z.to_nat (DICTHT_SIZE (ht_size_exp (ht0 d)) + DICTHT_SIZE (ht_size_exp (ht1 d))) + 3)
    d (if safe then dictInitSafeIterator else dictInitIterator) d1 (Build_dictIterator ri 0 safe DNull DNull fp))
    as (iter' & de & Hr); [done|by destruct safe| |by left|done| |].
  - unfold ri, d1, fp. by destruct safe.
  - cbn [it_table it_index]. replace (ht0 d) with (ht0 d1) by (by destruct safe). replace (ht1 d) with (ht1 d1) by (by destruct safe).
    pose proof (todo_bound d1 0 ri Hs1 (or_introl eq_refl) (proj1 Hri)). lia.
  - exists iter', de. rewrite He. exact Hr.
Qed.

Lemma suffix_next_of c c' : suffix c' c -> match dictGetNext c' with Ret next => suffix next c | _ => True end.
Proof.
  intros H. destruct c' as [|k|k v next]; cbn [dictGetNext]; [done|by apply suffix_null|].
  induction H as [|c E|]; [apply suffix_next, suffix_refl|done|by apply suffix_next].
Qed.

(** The others. *)
Lemma dictNext_spec d iter : shape d -> iter_ok d iter -> it_entry iter <> DNull ->
  next_result d iter (pending d iter) (dictNext table_addr d iter).
Proof.
  intros Hs [Htab Hix Hsf] Hnn. set (table := it_table iter) in *. set (index := it_index iter) in *.
  assert (not_started iter = false) as Hst by (unfold not_started; fold index; destruct (Z.eqb_spec index (-1)); [lia|done]).
  assert (is_null (it_entry iter) = false) as Hnull by (by destruct (it_entry iter)).
  assert (table = 0 \/ table = 1) as Htab' by (destruct Htab as [|[]]; auto).
  assert (-1 <= index) as Hi by lia. pose proof (todo_bound d table index Hs Htab' Hi) as Hf.
  unfold dictNext. set (fuel := (_ + 3)%nat) in *. destruct fuel as [|fuel]; [lia|].
  cbn [next_loop]. rewrite Hnull. cbv zeta. fold table index. cbn [set_pos it_entry]. unfold pending. fold table index.
  destruct (it_nextEntry iter) as [|k|k v next] eqn:En; cbn [is_null].
  - cbn [chain_list app].
    assert (start_iterator table_addr d (set_pos iter table index DNull) = (d, set_pos iter table index DNull)) as Hst'.
    { unfold start_iterator. change (not_started (set_pos iter table index DNull)) with (not_started iter). by rewrite Hst. }
    destruct fuel as [|fuel]; [lia|].
    assert ((Z.to_nat (todo d table index) < S fuel)%nat) as Hf'.
    { replace (Z.to_nat (index + 1)) with (S (Z.to_nat index)) in Hf by lia. lia. }
    destruct (next_loop_spec (S fuel) d (set_pos iter table index DNull) d _ Hs eq_refl Hst' Htab ltac:(cbn [set_pos it_index]; lia) Hf')
      as (iter' & de & Hr). exists iter', de. exact Hr.
  - cbn [dictGetNext mbind outcome_bind chain_list app]. eexists _, _. split; [reflexivity|]. do 2 (split; [done|]). split; [exact Hst|].
    split; [done|]. split; [|done]. split; [done|done|by left].
  - cbn [dictGetNext mbind outcome_bind chain_list app]. eexists _, _. split; [reflexivity|]. do 2 (split; [done|]). split; [exact Hst|].
    split; [done|]. split; [|done]. split; [done|done|]. right. destruct Hsf as [?|(c & Hc & Hsf)]; [done|].
    exists c. split; [done|]. by apply (suffix_next_of c _) in Hsf.
Qed.

(** ** Operations while the rehashing is paused *)

Lemma suffix_split c' c : suffix c' c -> exists l, chain_list c = l ++ chain_list c'.
Proof.
  induction 1 as [|c ->|k v next _ [l IH]]; [by exists []|exists (chain_list c); by rewrite app_nil_r|].
  exists ((k, v) :: l). cbn. by rewrite IH.
Qed.

Lemma tbl_entries_app (t1 t2 : list dictEntry) : tbl_entries (t1 ++ t2) = tbl_entries t1 ++ tbl_entries t2.
Proof. unfold tbl_entries. by rewrite map_app, concat_app. Qed.

(** Nothing is pending twice, or is pending and not there. *)
Lemma pending_entries d iter : shape d -> iter_ok d iter -> exists l, entries d ≡ₚ l ++ pending d iter.
Proof.
  intros Hs [Htab Hix Hsf]. set (table := it_table iter) in *. set (index := it_index iter) in *.
  assert (exists l, tbl_entries (buckets d table) = l ++ chain_list (it_nextEntry iter) ++
    tbl_entries (drop (Z.to_nat (index + 1)) (buckets d table))) as [l Hl].
  { set (n := Z.to_nat (index + 1)).
    assert (tbl_entries (buckets d table) = tbl_entries (take n (buckets d table)) ++ tbl_entries (drop n (buckets d table))) as Hsplit.
    { by rewrite <- tbl_entries_app, take_drop. }
    destruct Hsf as [-> |(c & Hc & Hsf)]; [eexists; exact Hsplit|].
    assert (buckets d table !! Z.to_nat index = Some c) as Hlk.
    { unfold bucket_get in Hc. unfold buckets. destruct (ht_table (get_ht d table)) as [t|]; [|done]. by apply rd_Ret_inv in Hc as [_ Hc]. }
    assert (take n (buckets d table) = take (Z.to_nat index) (buckets d table) ++ [c]) as Htake.
    { rewrite <- (take_S_r _ _ _ Hlk). f_equal. lia. }
    destruct (suffix_split _ _ Hsf) as [l Hl]. rewrite Hsplit, Htake, tbl_entries_app.
    exists (tbl_entries (take (Z.to_nat index) (buckets d table)) ++ l).
    change (tbl_entries [c]) with (chain_list c ++ []). by rewrite app_nil_r, Hl, <- !app_assoc. }
  assert (entries d = tbl_entries (buckets d 0) ++ tbl_entries (buckets d 1)) as He.
  { rewrite (entries_ahead d Hs). done. }
  rewrite He. unfold pending, ahead. fold table index.
  destruct Htab as [Ht|[Ht _]]; rewrite Ht in Hl |- *; cbn [Z.eqb]; rewrite Hl.
  - exists l. by rewrite <- !app_assoc.
  - exists (tbl_entries (buckets d 0) ++ l). by rewrite app_nil_r, <- !app_assoc.
Qed.

(** The iterator is as good, and what is pending has not changed. *)
Definition keeps iter d d' : Prop := iter_ok d iter -> iter_ok d' iter /\ pending d' iter = pending d iter.

Lemma keeps_refl iter d : keeps iter d d.
Proof. done. Qed.

Lemma keeps_trans iter d1 d2 d3 : keeps iter d1 d2 -> keeps iter d2 d3 -> keeps iter d1 d3.
Proof. intros H1 H2 Hok. destruct (H1 Hok) as [Hok2 <-]. by apply H2. Qed.

(** The tables and the state of the rehashing are the same. *)
Lemma keeps_same iter d d' : (forall i, ht_table (get_ht d' i) = ht_table (get_ht d i)) ->
  (dictIsRehashing d = true -> dictIsRehashing d' = true) -> keeps iter d d'.
Proof.
  intros Ht Hr [Htab Hix Hsf]. split.
  - split; [destruct Htab as [|[]]; auto|done|]. unfold bucket_get in *. by rewrite Ht.
  - unfold pending, ahead, buckets. by rewrite !Ht.
Qed.

Lemma used_add_keeps iter d table n : keeps iter d (used_add d table n).
Proof. apply keeps_same; [|unfold used_add, set_ht; by destruct (table =? 0)]. intros i. unfold used_add, set_ht, get_ht. destruct (table =? 0) eqn:E, (i =? 0) eqn:E'; cbn; by rewrite ?E, ?E'. Qed.

Lemma free_keeps iter d he d' : dictFreeUnlinkedEntry d he = Ret d' -> keeps iter d d'.
Proof. unfold dictFreeUnlinkedEntry, dictFreeVal. intros H. inv_ret; [done|]. apply keeps_same; by destruct he as [| |? [] ?]. Qed.

(** No entries: nothing is pending. *)
Lemma keeps_empty iter d d' : shape d -> entries d = [] -> dictIsRehashing d = false ->
  (forall i, tbl_entries (buckets d' i) = []) -> keeps iter d d'.
Proof.
  intros Hs He Hr Ht Hok. destruct (pending_entries d iter Hs Hok) as [l Hl]. rewrite He in Hl.
  apply Permutation_nil_l, eq_sym, app_eq_nil in Hl as [_ Hl].
  assert (it_nextEntry iter = DNull) as En.
  { unfold pending in Hl. apply app_eq_nil in Hl as [Hl _]. by destruct (it_nextEntry iter). }
  split.
  - destruct Hok as [Htab Hix _]. split; [|done|by left]. destruct Htab as [|[_ H]]; [by left|by rewrite Hr in H].
  - rewrite Hl. unfold pending, ahead. rewrite En. cbn [chain_list app].
    assert (forall n t, tbl_entries t = [] -> @tbl_entries SK V (drop n t) = []) as Hdrop.
    { intros n t Hnil. rewrite <- (take_drop n t), tbl_entries_app in Hnil. by apply app_eq_nil in Hnil as [_ ?]. }
    rewrite Hdrop by done. destruct (_ =? 0); [apply Ht|done].
Qed.

Section resize.
Context (Hffr : force_full_rehash type = false).

Lemma _dictResize_keeps iter d size try avail r : dict_wf d ->
  _dictResize type can_resize d size try avail = Ret r -> keeps iter d r.1.1.
Proof.
  intros Hwf H. pose proof (wf_shape _ _ _ Hwf) as Hs. unfold _dictResize in H. rewrite Hffr in H.
  destruct (dictIsRehashing d) eqn:Hr'; [discriminate H|]. cbn [negb c_assert] in H. rewrite ret_bind in H.
  inv_ret; cbn [fst]; try apply keeps_refl.
  - apply keeps_empty; try done.
    + match goal with H : _ || (_ =? 0) = true |- _ => rename H into Hu end.
      destruct Hs; [done| |unfold dictIsRehashing in Hr'; cbn in Hr'; destruct (Z.eqb_spec ri (-1)); [lia|done]].
      cbn in Hu. apply Z.eqb_eq in Hu. unfold entries, ht_entries. cbn. rewrite app_nil_r.
      destruct (tbl_entries t); [done|]. rewrite Zlen_cons in Hu. pose proof (Zlen_nonneg l). lia.
    + intros i. unfold buckets. cbn. unfold get_ht. cbn. destruct (i =? 0); cbn; [apply tbl_entries_replicate|done].
  - intros Hok.
    destruct Hok as [[Htab|[_ Htab]] Hix Hsf]; [|by rewrite Hr' in Htab].
    split; [split; [by left|done|rewrite Htab in *; exact Hsf]|].
    unfold pending, ahead. rewrite Htab. cbn [Z.eqb]. rewrite (shape_single d Hs Hr').
    change (tbl_entries (@nil dictEntry)) with (@nil (SK * option V)).
    match goal with |- context [tbl_entries (buckets ?d' 1)] => assert (tbl_entries (buckets d' 1) = []) as -> by apply tbl_entries_replicate end.
    done.
Qed.

Lemma dictExpand_keeps iter d size r : dict_wf d -> dictExpand type can_resize d size = Ret r -> keeps iter d r.1.
Proof.
  intros Hwf. unfold dictExpand, _dictExpand. intros H. inv_ret; [apply keeps_refl|].
  match goal with H : _ = Ret _ |- _ => by apply (_dictResize_keeps iter) in H end.
Qed.

Lemma _dictExpandIfNeeded_keeps iter d d' : dict_wf d -> _dictExpandIfNeeded type can_resize d = Ret d' -> keeps iter d d'.
Proof.
  intros Hwf. unfold _dictExpandIfNeeded, dictExpandIfNeeded. intros H. inv_ret; try apply keeps_refl.
  all: match goal with H : dictExpand _ _ _ _ = Ret _ |- _ => by apply (dictExpand_keeps iter) in H end.
Qed.

Lemma _dictShrinkIfNeeded_keeps iter d d' : dict_wf d -> _dictShrinkIfNeeded type can_resize d = Ret d' -> keeps iter d d'.
Proof.
  intros Hwf. unfold _dictShrinkIfNeeded, dictShrinkIfNeeded, dictShrink. intros H. inv_ret; try apply keeps_refl.
  match goal with H : _dictResize _ _ _ _ _ _ = Ret _ |- _ => by apply (_dictResize_keeps iter) in H end.
Qed.
End resize.

(** *** Changing a bucket *)

Lemma bucket_set_buckets d table idx c d' : bucket_set d table idx c = Ret d' ->
  (forall i, (i =? 0) = (table =? 0) -> buckets d' i = <[Z.to_nat idx := c]> (buckets d i)) /\
  (forall i, (i =? 0) <> (table =? 0) -> get_ht d' i = get_ht d i) /\ rehashidx d' = rehashidx d.
Proof.
  unfold bucket_set, buckets. intros H. destruct (ht_table (get_ht d table)) as [t|] eqn:Et; [|done].
  apply bind_Ret in H as (t' & Hw & H). injection H as <-. apply wr_Ret_inv in Hw as [_ ->].
  split; [|split; [|unfold set_ht; by destruct (table =? 0)]].
  - intros i Hi. unfold get_ht, set_ht in *. rewrite Hi. destruct (table =? 0) eqn:E; cbn; by rewrite Et.
  - intros i Hi. unfold get_ht, set_ht in *. by destruct (table =? 0), (i =? 0).
Qed.

Lemma bucket_get_lookup d table idx c : bucket_get d table idx = Ret c <-> 0 <= idx /\ buckets d table !! Z.to_nat idx = Some c.
Proof.
  unfold bucket_get, buckets. destruct (ht_table (get_ht d table)); cbn.
  - split; [intros H; apply rd_Ret_inv in H as [? ?]; split; [lia|done]|intros [? ?]; by apply rd_lookup].
  - split; [done|by intros []].
Qed.

(** What is pending, in the bucket [idx] of [table]: all of it, a suffix, or nothing. *)
Lemma bucket_set_pending d iter table idx c c' d' : shape d -> iter_ok d iter -> table = 0 \/ table = 1 ->
  bucket_get d table idx = Ret c -> bucket_set d table idx c' = Ret d' ->
  (suffix (it_nextEntry iter) c -> suffix (it_nextEntry iter) c' \/ (table = it_table iter -> idx <> it_index iter)) ->
  iter_ok d' iter /\
  (pending d' iter = pending d iter \/
   exists rest, pending d iter ≡ₚ chain_list c ++ rest /\ pending d' iter ≡ₚ chain_list c' ++ rest).
Proof.
  intros Hs [Htab Hix Hsf] Htable Hget Hset Hc'. destruct (bucket_set_buckets _ _ _ _ _ Hset) as (Hin & Hout & Hri).
  apply bucket_get_lookup in Hget as [Hi Hget]. set (tb := it_table iter) in *. set (index := it_index iter) in *.
  assert (tb = 0 \/ tb = 1) as Htb by (destruct Htab as [|[]]; auto).
  assert (buckets d' tb = if table =? tb then <[Z.to_nat idx := c']> (buckets d tb) else buckets d tb) as Hb.
  { destruct (Z.eqb_spec table tb) as [E|E]; [apply Hin; by rewrite E|]. unfold buckets. rewrite Hout; [done|].
    destruct Htb as [-> | ->], Htable as [-> | ->]; done. }
  split.
  - split; [by unfold dictIsRehashing in *; rewrite Hri|done|]. destruct Hsf as [|(b & Hb' & Hsf)]; [by left|].
    fold tb index in Hb' |- *. apply bucket_get_lookup in Hb' as [_ Hb'].
    destruct (Z.eqb_spec table tb) as [E|E]; [|right; exists b; split; [|done]; apply bucket_get_lookup; rewrite Hb; split; [lia|done]].
    destruct (decide (idx = index)) as [Ei|Ei].
    + assert (b = c) as -> by (rewrite E, Ei in Hget; congruence). right. exists c'. split.
      * apply bucket_get_lookup. rewrite Hb. split; [lia|]. rewrite Ei. apply list_lookup_insert_eq. by eapply lookup_lt_Some.
      * destruct (Hc' Hsf) as [?|Hne]; [done|]. by destruct (Hne E).
    + right. exists b. split; [|done]. apply bucket_get_lookup. rewrite Hb. split; [lia|]. by rewrite list_lookup_insert_ne by lia.
  - unfold pending, ahead. fold tb index.
    assert (forall n (t : list dictEntry), t !! Z.to_nat idx = Some c -> (n <= Z.to_nat idx)%nat ->
      exists rest, tbl_entries (drop n t) ≡ₚ chain_list c ++ rest /\ tbl_entries (drop n (<[Z.to_nat idx := c']> t)) ≡ₚ chain_list c' ++ rest) as Hdrop.
    { intros n t Ht Hn. rewrite drop_insert_ge by done.
      destruct (tbl_entries_split (drop n t) (Z.to_nat idx - n) c) as (rest & H1 & H2).
      { rewrite lookup_drop. rewrite <- Ht. f_equal. lia. }
      exists rest. split; [done|]. apply H2. }
    destruct (Z.eqb_spec table tb) as [E|E].
    + rewrite Hb. destruct (Z.le_gt_cases idx index) as [Hle|Hgt].
      * left. rewrite drop_insert_lt by lia. destruct (Z.eqb_spec tb 0) as [E0|E0]; [|done].
        unfold buckets. rewrite Hout; [done|]. rewrite E, E0. done.
      * right. rewrite E in Hget. destruct (Hdrop (Z.to_nat (index + 1)) _ Hget ltac:(lia)) as (rest & H1 & H2).
        set (l1 := if tb =? 0 then tbl_entries (buckets d 1) else []).
        assert ((if tb =? 0 then tbl_entries (buckets d' 1) else []) = l1) as ->.
        { unfold l1. destruct (Z.eqb_spec tb 0) as [E0|E0]; [|done]. unfold buckets. rewrite Hout; [done|]. rewrite E, E0. done. }
        exists (chain_list (it_nextEntry iter) ++ rest ++ l1). rewrite H1, H2. rewrite <- !app_assoc. split; apply Permutation_app_swap_app.
    + rewrite Hb. destruct (Z.eqb_spec tb 0) as [E0|E0]; [|by left]. assert (table = 1) as E1 by lia. right.
      rewrite (Hin 1) by (by rewrite E1). rewrite E1 in Hget.
      destruct (Hdrop 0%nat _ Hget ltac:(lia)) as (rest & H1 & H2). rewrite !drop_0 in H1, H2.
      exists (chain_list (it_nextEntry iter) ++ tbl_entries (drop (Z.to_nat (index + 1)) (buckets d tb)) ++ rest).
      rewrite H1, H2. rewrite !app_assoc. split.
      * rewrite (Permutation_app_comm _ (chain_list c)), <- !app_assoc. done.
      * rewrite (Permutation_app_comm _ (chain_list c')), <- !app_assoc. done.
Qed.

Lemma paused_step d idx : pauserehash d <> 0 -> _dictRehashStepIfNeeded type can_resize d idx = Ret d.
Proof. intros Hp. unfold _dictRehashStepIfNeeded. destruct (Z.eqb_spec (pauserehash d) 0); [done|]. by rewrite orb_true_r. Qed.

(** *** Deleting what is not pending *)

Lemma unlink_suffix n x rest next c depth : forall he c', chain_at c depth = Ret he -> chain_list he = x :: rest ->
  dictGetNext he = Ret next -> chain_set c depth next = Ret c' -> suffix n c -> x ∉ chain_list n -> suffix n c'.
Proof.
  revert depth. induction c as [|k|k v c2 IH]; intros [|depth] he c' Hat Hx Hnext Hset Hn Hnot; cbn [chain_at chain_set] in *; try done.
  1-3: injection Hat as <-; injection Hset as <-.
  - done.
  - injection Hnext as <-. inversion Hn as [|? E|]; subst; [|by apply suffix_null].
    destruct Hnot. rewrite Hx. by left.
  - injection Hnext as <-. inversion Hn as [E|? E|]; subst; [|by apply suffix_null|done].
    destruct Hnot. rewrite Hx. by left.
  - apply bind_Ret in Hset as (c2' & Hset & Hc'). injection Hc' as <-. inversion Hn as [E|? E|]; subst.
    + destruct Hnot. cbn. right. apply (chain_at_list type) in Hat as [Hl _]. rewrite Hx in Hl.
      eapply elem_of_submseteq; [|apply sublist_submseteq, (sublist_drop _ depth)]. rewrite <- Hl. by left.
    + by apply suffix_null.
    + apply suffix_next. by eapply IH.
Qed.

Lemma delete_pending iter d key nofree d' he : force_full_rehash type = false -> dict_wf d -> pauserehash d <> 0 ->
  canon key ∉ entry_canon <$> pending d iter -> dictGenericDelete type can_resize d key nofree = Ret (d', he) ->
  keeps iter d d'.
Proof.
  intros Hffr Hwf Hp Hno H Hok. unfold dictGenericDelete in H.
  destruct (Z.eqb_spec (dictSize d) 0) as [E|E]; [by injection H as <- _|]. cbv zeta in H.
  set (idx0 := Z.land _ _) in H. rewrite (paused_step d idx0 Hp), ret_bind in H.
  destruct (find_tables_spec type canon d key idx0 Hwf (dict_nonempty_table type canon d Hwf E)) as (r & last & Hr & Hf).
  { by right. }
  { apply Z.land_nonneg. left. apply keys_hash_range. }
  rewrite Hr, ret_bind in H. destruct r as [[[table idx] depth]|]; [|by injection H as <- _].
  destruct Hf as (x & (Htable & he' & rest & Hget & Hl) & Hx & Hxc & _). cbn [fst] in Htable.
  destruct (unlink_spec type canon d table idx depth he' x rest Hwf Htable Hget Hl) as (next & dA & Hnext & Hset & Hun).
  rewrite Hget, ret_bind, Hnext, ret_bind, Hset, ret_bind in H.
  apply bind_Ret in H as (dB & HB & H). apply bind_Ret in H as (dC & HC & H). injection H as <- <-.
  assert (exists evs, dB = add_log dA evs /\ log_buckets evs = 0 /\ quiet evs) as (evs & -> & Hb & Hq).
  { destruct nofree; [injection HB as <-; exists []; by rewrite add_log_nil|].
    destruct (dictFreeUnlinkedEntry_spec dA he') as (evs & Hfr & Hb & Hq); [by intros ->|]. exists evs.
    rewrite Hfr in HB. by injection HB as <-. }
  rewrite used_add_log in HC. destruct (Hun evs Hb Hq) as (HwfB & _ & _ & _).
  assert (x ∉ pending d iter) as Hnx.
  { intros Hin. apply Hno. apply list_elem_of_fmap. exists x. split; [by rewrite Hxc|done]. }
  unfold link_set in Hset. apply bind_Ret in Hset as (c & Hc & Hset). apply bind_Ret in Hset as (c' & Hc' & Hset).
  unfold link_get in Hget. rewrite Hc, ret_bind in Hget.
  destruct (bucket_set_pending d iter table idx c c' dA (wf_shape _ _ _ Hwf) Hok Htable Hc Hset) as [Hok' Hpend].
  { intros Hs. left. eapply unlink_suffix; try done. intros Hin. apply Hnx. unfold pending. apply elem_of_app. by left. }
  assert (pending dA iter = pending d iter) as Hpend'.
  { destruct Hpend as [?|(rest' & Hpe & _)]; [done|]. destruct Hnx. rewrite Hpe. apply elem_of_app. left.
    apply (chain_at_list type) in Hget as [Hdrop _]. rewrite Hl in Hdrop.
    eapply elem_of_submseteq; [|apply sublist_submseteq, (sublist_drop _ depth)]. rewrite <- Hdrop. by left. }
  assert (keeps iter dA dC) as Hk.
  { eapply keeps_trans; [|apply (_dictShrinkIfNeeded_keeps Hffr iter _ _ HwfB HC)].
    eapply keeps_trans; [apply (used_add_keeps iter dA table (-1))|]. by apply keeps_same. }
  destruct (Hk Hok') as [? ->]. done.
Qed.

(** *** Deleting what is pending *)

(** [nextEntry] is a pointer to an entry: the chain it starts is the one in the
    table now. *)
Fixpoint chain_from (k : C) (c : dictEntry) : dictEntry :=
  match c with
  | DNull => DNull
  | DKey x => if decide (canon (keyFromStoredKey type x) = k) then c else DNull
  | DEntry x _ next => if decide (canon (keyFromStoredKey type x) = k) then c else chain_from k next
  end.

Definition next_canon iter : option C := entry_canon <$> head (chain_list (it_nextEntry iter)).

Definition reread d iter : dictIterator :=
  match next_canon iter with
  | None => iter
  | Some k => set_next iter (match bucket_get d (it_table iter) (it_index iter) with Ret c => chain_from k c | _ => DNull end)
  end.

(** The entries of another key. *)
Abbreviation others k := (filter (fun e => entry_canon e <> k)).

Lemma chain_from_suffix c n x l : NoDup (entry_canon <$> chain_list c) -> suffix n c -> chain_list n = x :: l -> chain_from (entry_canon x) c = n.
Proof.
  intros Hnd Hs Hn. induction Hs as [|c E|k v next Hs IH]; [|by rewrite E in Hn|].
  - destruct n; [done|..]; injection Hn as <- _; cbn [chain_from]; by rewrite decide_True by done.
  - cbn [chain_list fmap list_fmap chain_from] in *. apply list.NoDup_cons in Hnd as [Hnot Hnd]. destruct (decide _) as [E|]; [|by apply IH].
    destruct Hnot. change (entry_canon (k, v)) with (canon (keyFromStoredKey type k)). rewrite E. destruct (suffix_split _ _ Hs) as [l' ->]. rewrite fmap_app. apply elem_of_app. right. rewrite Hn. by left.
Qed.

(** The chains from an entry on, without another key. *)
Lemma chain_from_others k key c c' : k <> key -> chain_list c' = others key (chain_list c) ->
  chain_list (chain_from k c') = others key (chain_list (chain_from k c)) /\ suffix (chain_from k c') c'.
Proof.
  intros Hk Hc. split.
  - assert (forall c, chain_list (chain_from k c) = (fix go l := match l with [] => [] | x :: l' => if decide (entry_canon x = k) then l else go l' end) (chain_list c)) as Hgo.
    { intros e. induction e as [|x|x v next IH]; [done|..]; cbn [chain_from chain_list]; change (entry_canon (x, _)) with (canon (keyFromStoredKey type x)); by destruct (decide _). }
    rewrite !Hgo, Hc. clear Hgo Hc. induction (chain_list c) as [|x l IH]; [done|]. destruct (decide (entry_canon x = key)) as [E|E].
    + rewrite filter_cons_False by auto. rewrite IH. rewrite (decide_False (P := entry_canon x = k)) by congruence. done.
    + rewrite filter_cons_True by done. destruct (decide (entry_canon x = k)); [by rewrite filter_cons_True|done].
  - clear Hc. induction c' as [|x|x v next IH]; cbn [chain_from]; [apply suffix_refl|..]; destruct (decide _); try apply suffix_refl; [by apply suffix_null|by apply suffix_next].
Qed.

(** An entry of a bucket is an entry of the dict. *)
Lemma bucket_entries d table idx c : shape d -> table = 0 \/ table = 1 -> bucket_get d table idx = Ret c -> exists rest, entries d ≡ₚ chain_list c ++ rest.
Proof.
  intros Hs Ht Hc. apply bucket_get_lookup in Hc as [_ Hc]. rewrite (entries_ahead d Hs). unfold ahead. change (Z.to_nat (-1 + 1)) with 0%nat. change (0 =? 0) with true. cbv iota. rewrite drop_0.
  destruct (tbl_entries_split _ _ _ Hc) as (rest & H1 & _). destruct Ht as [-> | ->].
  - exists (rest ++ tbl_entries (buckets d 1)). by rewrite H1, <- app_assoc.
  - exists (tbl_entries (buckets d 0) ++ rest). rewrite H1, !app_assoc. by rewrite (Permutation_app_comm (tbl_entries (buckets d 0))).
Qed.

Lemma bucket_uniq d table idx c : dict_wf d -> table = 0 \/ table = 1 -> bucket_get d table idx = Ret c -> NoDup (entry_canon <$> chain_list c).
Proof.
  intros Hwf Ht Hc. destruct (bucket_entries d table idx c (wf_shape _ _ _ Hwf) Ht Hc) as [rest Hr]. pose proof (wf_uniq _ _ _ Hwf) as Hu. rewrite Hr, fmap_app in Hu.
  by apply list.NoDup_app in Hu as [? _].
Qed.

Lemma iter_ok_table d iter : iter_ok d iter -> it_table iter = 0 \/ it_table iter = 1.
Proof. intros [[|[]] _ _]; auto. Qed.

Lemma next_canon_chain iter k : next_canon iter = Some k -> exists x l, chain_list (it_nextEntry iter) = x :: l /\ entry_canon x = k.
Proof. unfold next_canon. destruct (chain_list _) as [|x l]; [done|]. intros [= <-]. by exists x, l. Qed.

Lemma reread_same d iter : dict_wf d -> iter_ok d iter -> reread d iter = iter.
Proof.
  intros Hwf Hok. unfold reread. destruct (next_canon iter) as [k|] eqn:Ek; [|done]. destruct (next_canon_chain _ _ Ek) as (x & l & Hl & <-).
  pose proof (iter_ok_table _ _ Hok) as Ht. destruct Hok as [_ _ [E|(c & Hc & Hs)]]; [by rewrite E in Hl|]. rewrite Hc.
  rewrite (chain_from_suffix c (it_nextEntry iter) x l) by (done || by apply (bucket_uniq d (it_table iter) (it_index iter))). by destruct iter.
Qed.

(** Every bucket loses the entries of a key. *)
Definition without key d d' : Prop :=
  (dictIsRehashing d = true -> dictIsRehashing d' = true) /\
  forall i, i = 0 \/ i = 1 -> Forall2 (fun c c' => chain_list c' = others key (chain_list c)) (buckets d i) (buckets d' i).

Lemma without_tbl key (t t' : list dictEntry) : Forall2 (fun c c' => chain_list c' = others key (chain_list c)) t t' -> tbl_entries t' = others key (tbl_entries t).
Proof.
  unfold tbl_entries. induction 1 as [|c c' t t' Hc _ IH]; [done|]. cbn [map concat]. by rewrite list.filter_app, Hc, IH.
Qed.

Lemma without_pending key d d' iter : dict_wf d -> without key d d' -> iter_ok d iter -> next_canon iter <> Some key ->
  iter_ok d' (reread d' iter) /\ pending d' (reread d' iter) = others key (pending d iter) /\ next_canon (reread d' iter) = next_canon iter.
Proof.
  intros Hwf [Hreh Hw] Hok Hne. pose proof (iter_ok_table _ _ Hok) as Ht. pose proof Hok as [Htab Hix Hsf].
  assert (ahead d' (it_table iter) (it_index iter) = others key (ahead d (it_table iter) (it_index iter))) as Hah.
  { unfold ahead. rewrite list.filter_app. f_equal; [apply without_tbl, Forall2_drop, (Hw _ Ht)|]. destruct (_ =? 0); [apply without_tbl, Hw; by right|done]. }
  unfold reread, pending. destruct (next_canon iter) as [k|] eqn:Ek.
  - destruct (next_canon_chain _ _ Ek) as (x & l & Hl & Hx). destruct Hsf as [E|(c & Hc & Hs)]; [by rewrite E in Hl|].
    pose proof Hc as [Hi Hlk]%bucket_get_lookup. destruct (Forall2_lookup_l _ _ _ _ _ (Hw _ Ht) Hlk) as (c' & Hlk' & Hcc).
    assert (bucket_get d' (it_table iter) (it_index iter) = Ret c') as Hc' by by apply bucket_get_lookup. rewrite Hc'.
    pose proof (chain_from_suffix c (it_nextEntry iter) x l (bucket_uniq _ _ _ _ Hwf Ht Hc) Hs Hl) as Hfrom. rewrite Hx in Hfrom.
    destruct (chain_from_others k key c c') as [Hch Hsuf]; [congruence|done|]. rewrite Hfrom in Hch.
    cbn [set_next it_nextEntry it_table it_index]. split; [|split].
    + split; cbn [set_next it_nextEntry it_table it_index]; [by destruct Htab as [|[]]; auto|done|]. right. by exists c'.
    + by rewrite list.filter_app, Hch, Hah.
    + unfold next_canon in *. cbn [set_next it_nextEntry]. rewrite Hch, Hl in *. rewrite filter_cons_True by congruence. done.
  - assert (it_nextEntry iter = DNull) as En by (unfold next_canon in Ek; by destruct (it_nextEntry iter)). split; [|split; [|done]].
    + split; [by destruct Htab as [|[]]; auto|done|by left].
    + by rewrite En, Hah.
Qed.

(** Two buckets share no key. *)
Lemma two_buckets d table i c table' i' c' : dict_wf d -> table = 0 \/ table = 1 -> table' = 0 \/ table' = 1 ->
  buckets d table !! i = Some c -> buckets d table' !! i' = Some c' -> (table' =? 0) <> (table =? 0) \/ i' <> i ->
  forall x y, x ∈ chain_list c -> y ∈ chain_list c' -> entry_canon x <> entry_canon y.
Proof.
  intros Hwf Ht Ht' Hc Hc' Hne x y Hx Hy. pose proof (wf_uniq _ _ _ Hwf) as Hu.
  assert (entries d = tbl_entries (buckets d 0) ++ tbl_entries (buckets d 1)) as He by (rewrite (entries_ahead d (wf_shape _ _ _ Hwf)); done). rewrite He, fmap_app in Hu.
  assert (forall t j b z, buckets d t !! j = Some b -> z ∈ chain_list b -> entry_canon z ∈ entry_canon <$> tbl_entries (buckets d t)) as Hmem.
  { intros t j b z Hb Hz. destruct (tbl_entries_split _ _ _ Hb) as (rest & -> & _). rewrite fmap_app. apply elem_of_app. left. by apply list_elem_of_fmap_2. }
  apply list.NoDup_app in Hu as (Hu0 & Hdisj & Hu1). intros E.
  assert (table = table' \/ (table =? 0) <> (table' =? 0)) as [->|Hdiff] by (destruct Ht as [-> | ->], Ht' as [-> | ->]; auto).
  - destruct Hne as [?|Hne]; [done|]. assert (NoDup (entry_canon <$> tbl_entries (buckets d table'))) as Hu by (destruct Ht' as [-> | ->]; done).
    destruct (tbl_entries_split _ _ _ Hc) as (rest & H1 & H2). rewrite H1, fmap_app in Hu. apply list.NoDup_app in Hu as (_ & Hd & _).
    apply (Hd (entry_canon x)); [by apply list_elem_of_fmap_2|]. rewrite E. apply list_elem_of_fmap_2. pose proof (H2 DNull) as H3.
    assert (y ∈ tbl_entries (<[i := DNull]> (buckets d table'))) as Hyin.
    { destruct (tbl_entries_split (<[i := DNull]> (buckets d table')) i' c') as (r & -> & _); [by rewrite list_lookup_insert_ne by auto|]. apply elem_of_app. by left. }
    by rewrite H3 in Hyin.
  - destruct Ht as [-> | ->], Ht' as [-> | ->]; try done.
    + apply (Hdisj (entry_canon x)); [by eapply Hmem|]. rewrite E. by eapply Hmem.
    + apply (Hdisj (entry_canon y)); [by eapply Hmem|]. rewrite <- E. by eapply Hmem.
Qed.

Lemma others_absent key (l : list (SK * option V)) : key ∉ entry_canon <$> l -> others key l = l.
Proof.
  induction l as [|x l IH]; [done|]. cbn [fmap list_fmap]. rewrite not_elem_of_cons. intros [Hx Hl]. rewrite filter_cons_True by congruence. by rewrite IH.
Qed.

Lemma without_absent key d : shape d -> key ∉ entry_canon <$> entries d -> without key d d.
Proof.
  intros Hs Hno. split; [done|]. intros i Hi. apply Forall2_same_length_lookup. split; [done|]. intros n c c' Hc Hc'. assert (c' = c) as -> by congruence. symmetry.
  apply others_absent. intros Hin. apply Hno. destruct (bucket_entries d i (Z.of_nat n) c Hs Hi) as [rest ->]; [apply bucket_get_lookup; rewrite Nat2Z.id; split; [lia|done]|].
  rewrite fmap_app. apply elem_of_app. by left.
Qed.

(** Unlinking an entry. *)
Lemma unlink_without d table idx depth he x rest next dA : dict_wf d -> table = 0 \/ table = 1 ->
  link_get d (table, idx, depth) = Ret he -> chain_list he = x :: rest -> dictGetNext he = Ret next -> link_set d (table, idx, depth) next = Ret dA ->
  without (entry_canon x) d dA.
Proof.
  intros Hwf Ht Hget Hl Hnext Hset. unfold link_set in Hset. apply bind_Ret in Hset as (c & Hc & Hset). apply bind_Ret in Hset as (c' & Hc' & Hset).
  unfold link_get in Hget. rewrite Hc, ret_bind in Hget. destruct (bucket_set_buckets _ _ _ _ _ Hset) as (Hin & Hout & Hri).
  pose proof (chain_set_spec type c depth he next Hget) as (c2 & Hc2 & Hl2 & _). rewrite Hc' in Hc2. injection Hc2 as <-.
  pose proof (chain_at_list type c depth he Hget) as [Hat _]. rewrite Hl in Hat.
  assert (chain_list next = rest) as Hrest by (destruct he; [done|..]; injection Hnext as <-; by injection Hl).
  assert (chain_list c = take depth (chain_list c) ++ x :: rest) as Hcl by (by rewrite Hat, take_drop).
  pose proof (bucket_uniq d table idx c Hwf Ht Hc) as Hu. rewrite Hcl, fmap_app in Hu. apply list.NoDup_app in Hu as (_ & Hd & Hu). cbn [fmap list_fmap] in Hu. apply list.NoDup_cons in Hu as [Hxr _].
  assert (chain_list c' = others (entry_canon x) (chain_list c)) as Hnew.
  { rewrite Hl2, Hrest, Hcl, list.filter_app, filter_cons_False by auto. rewrite take_app_length' by (rewrite length_take; apply (f_equal length) in Hat; rewrite length_drop in Hat; cbn [length] in Hat; lia).
    rewrite !others_absent; [done|done|]. intros Hx. apply (Hd _ Hx). by left. }
  assert (forall i j b, i = 0 \/ i = 1 -> buckets d i !! j = Some b -> ((i =? 0) <> (table =? 0) \/ j <> Z.to_nat idx) -> others (entry_canon x) (chain_list b) = chain_list b) as Hothers.
  { intros i j b Hi Hb Hne. apply others_absent. intros Hx. apply list_elem_of_fmap in Hx as (y & Hy & Hyb).
    pose proof (bucket_get_lookup d table idx c) as [Hlk _]. destruct (Hlk Hc) as [Hi0 Hlc].
    pose proof (two_buckets d table (Z.to_nat idx) c i j b Hwf Ht Hi Hlc Hb Hne x y) as Htwo. apply Htwo; [rewrite Hcl; apply elem_of_app; right; by left|done|done]. }
  split; [by unfold dictIsRehashing; rewrite Hri|]. intros i Hi. destruct (decide ((i =? 0) = (table =? 0))) as [E|E].
  - rewrite (Hin i E). apply Forall2_same_length_lookup. split; [by rewrite length_insert|]. intros j b b' Hb Hb'.
    apply bucket_get_lookup in Hc as [Hi0 Hlc]. assert (i = table) as -> by (destruct Hi as [-> | ->], Ht as [-> | ->]; done).
    destruct (decide (j = Z.to_nat idx)) as [->|Hj].
    + rewrite list_lookup_insert_eq in Hb' by (by eapply lookup_lt_Some). injection Hb' as <-. congruence.
    + rewrite list_lookup_insert_ne in Hb' by done. assert (b' = b) as -> by congruence. symmetry. apply (Hothers table j); auto.
  - assert (buckets dA i = buckets d i) as -> by (unfold buckets; by rewrite Hout). apply Forall2_same_length_lookup. split; [done|]. intros j b b' Hb Hb'.
    assert (b' = b) as -> by congruence. symmetry. apply (Hothers i j); auto.
Qed.

(** Deleting any key but that of the saved entry: the pointer reads the chain
    that is left, and nothing else that is pending changes. *)
Lemma delete_any iter d key nofree d' he : force_full_rehash type = false -> dict_wf d -> pauserehash d <> 0 -> iter_ok d iter ->
  next_canon iter <> Some (canon key) -> dictGenericDelete type can_resize d key nofree = Ret (d', he) ->
  iter_ok d' (reread d' iter) /\ pending d' (reread d' iter) = others (canon key) (pending d iter).
Proof.
  intros Hffr Hwf Hp Hok Hne H. destruct (dictGenericDelete_spec type canon can_resize d key nofree Hwf) as (d1 & he1 & H' & Hwf' & _).
  assert (d1 = d') as -> by congruence. clear H' he1.
  assert (exists dA, without (canon key) d dA /\ forall i, keeps i dA d') as (dA & Hwo & Hk).
  { unfold dictGenericDelete in H. destruct (Z.eqb_spec (dictSize d) 0) as [E|E].
    { injection H as <- _. exists d. split; [|done]. apply without_absent; [apply Hwf|]. rewrite (dictSize_spec _ _ _ Hwf) in E. destruct (entries d); [by intros ?%elem_of_nil|rewrite Zlen_cons in E; pose proof (Zlen_nonneg l); lia]. }
    cbv zeta in H. set (idx0 := Z.land _ _) in H. rewrite (paused_step d idx0 Hp), ret_bind in H.
    destruct (find_tables_spec type canon d key idx0 Hwf (dict_nonempty_table type canon d Hwf E)) as (r & last & Hr & Hf); [by right|apply Z.land_nonneg; left; apply keys_hash_range|].
    rewrite Hr, ret_bind in H. destruct r as [[[table idx] depth]|].
    2:{ injection H as <- _. destruct Hf as [Hf _]. exists d. split; [|done]. apply without_absent; [apply Hwf|]. intros (x & Hx & Hin)%list_elem_of_fmap. by apply (Hf x Hin). }
    destruct Hf as (x & (Htable & he' & rest & Hget & Hl) & _ & Hxc & _). cbn [fst] in Htable.
    destruct (unlink_spec type canon d table idx depth he' x rest Hwf Htable Hget Hl) as (next & dA & Hnext & Hset & Hun).
    rewrite Hget, ret_bind, Hnext, ret_bind, Hset, ret_bind in H. apply bind_Ret in H as (dB & HB & H). apply bind_Ret in H as (dC & HC & H). injection H as <- <-.
    assert (exists evs, dB = add_log dA evs /\ log_buckets evs = 0 /\ quiet evs) as (evs & -> & Hb & Hq).
    { destruct nofree; [injection HB as <-; exists []; by rewrite add_log_nil|]. destruct (dictFreeUnlinkedEntry_spec dA he') as (evs & Hfr & Hb & Hq); [by intros ->|]. exists evs.
      rewrite Hfr in HB. by injection HB as <-. }
    rewrite used_add_log in HC. destruct (Hun evs Hb Hq) as (HwfB & _). exists dA. split.
    - rewrite <- Hxc. by apply (unlink_without d table idx depth he' x rest next dA).
    - intros i. eapply keeps_trans; [|apply (_dictShrinkIfNeeded_keeps Hffr i _ _ HwfB HC)]. eapply keeps_trans; [apply (used_add_keeps i dA table (-1))|]. by apply keeps_same. }
  destruct (without_pending (canon key) d dA iter Hwf Hwo Hok Hne) as (Hok1 & Hp1 & Hn1). destruct (Hk _ Hok1) as [Hok2 Hp2].
  assert (reread d' iter = reread dA iter) as ->; [|by rewrite Hp2].
  rewrite <- (reread_same d' (reread dA iter) Hwf' Hok2). unfold reread at 1 2. rewrite Hn1. unfold reread. destruct (next_canon iter); done.
Qed.

(** *** Adding *)

Lemma insert_pending iter d key sk d' : dict_wf d -> iter_ok d iter ->
  dictInsertKeyAtLink type d sk (c_bool (dictIsRehashing d), insert_index type d key, 0%nat) = Ret d' ->
  iter_ok d' iter /\ (pending d' iter = pending d iter \/ pending d' iter ≡ₚ (sk, None) :: pending d iter).
Proof.
  intros Hwf Hok H. unfold dictInsertKeyAtLink in H. apply bind_Ret in H as (_ & _ & H).
  apply bind_Ret in H as (b & Hb & H). cbv zeta in H. set (entry := if no_value type then _ else _) in H.
  apply bind_Ret in H as (d1 & Hset & H). injection H as <-.
  assert (chain_list entry = (sk, None) :: chain_list b /\ forall n, suffix n b -> suffix n entry) as [Hl Hs].
  { unfold entry. destruct (no_value type).
    - destruct b; cbn [is_null]; (split; [done|]); intros n Hn; [inversion Hn; by apply suffix_null|by apply suffix_next..].
    - split; [done|]. intros n Hn. by apply suffix_next. }
  set (htidx := c_bool (dictIsRehashing d)) in *.
  destruct (bucket_set_pending d iter htidx (insert_index type d key) b entry d1 (wf_shape _ _ _ Hwf) Hok) as [Hok' Hp]; [|done|done|by left; apply Hs|].
  { unfold htidx, c_bool. destruct (dictIsRehashing d); auto. }
  destruct (used_add_keeps iter d1 htidx 1 Hok') as [Hok2 ->]. split; [done|].
  destruct Hp as [Hp|(rest & H1 & H2)]; [by left|]. right. by rewrite H2, Hl, H1.
Qed.

Lemma add_pending iter d sk d' r : force_full_rehash type = false -> dict_wf d -> pauserehash d <> 0 ->
  pauseAutoResize d <= 0 -> iter_ok d iter ->
  dictAddRaw type can_resize d sk = Ret (d', r) ->
  iter_ok d' iter /\ (pending d' iter = pending d iter \/ pending d' iter ≡ₚ (stored_key type sk, None) :: pending d iter).
Proof.
  intros Hffr Hwf Hp Hpa Hok H. unfold dictAddRaw in H. apply bind_Ret in H as ([d1 position] & Hf & H).
  set (key := dictStoredKey2Key type sk) in *.
  destruct (dictFindLinkForInsert_spec type canon can_resize d key Hwf (or_intror Hpa)) as (d1' & position' & Hf' & Hsc & Htab' & Hpos).
  rewrite Hf' in Hf. injection Hf as -> ->.
  assert (keeps iter d d1) as Hk.
  { unfold dictFindLinkForInsert in Hf'. cbv zeta in Hf'. set (idx0 := Z.land _ _) in Hf'.
    rewrite (paused_step d idx0 Hp), ret_bind in Hf'. apply bind_Ret in Hf' as (d2 & He & Hf').
    apply bind_Ret in Hf' as ([r2 last] & _ & Hf'). destruct r2; injection Hf' as -> _; by apply (_dictExpandIfNeeded_keeps Hffr iter) in He. }
  destruct (Hk Hok) as [Hok1 <-]. destruct position as [link|link]; [|injection H as <- _; split; [done|by left]].
  destruct Hpos as (_ & _ & ->). apply bind_Ret in H as (d3 & Hi & H). injection H as <- _.
  exact (insert_pending iter d1 key (stored_key type sk) _ (sc_wf _ _ _ _ Hsc) Hok1 Hi).
Qed.

(** *** Looking up *)

Lemma dictFind_paused d key d' de : pauserehash d <> 0 -> dictFind type can_resize d key = Ret (d', de) -> d' = d.
Proof.
  intros Hp. unfold dictFind, dictFindLink, dictFindLinkInternal. intros H.
  inv_ret; try done; rewrite (paused_step d) in * by done; congruence.
Qed.

(** ** Iterating over everything *)

(** [while ((de = dictNext(iter)))], collecting the entries. *)
Fixpoint iterate (n : nat) d iter : outcome (dict * dictIterator * list dictEntry) :=
  match n with
  | O => OutOfFuel
  | S n =>
    '(d, iter, de) ← dictNext table_addr d iter;
    if is_null de then Ret (d, iter, []) else
    '(d, iter, des) ← iterate n d iter; Ret (d, iter, de :: des)
  end.

(** From initialization to reset. *)
Definition iterate_all (safe : bool) d : outcome (dict * list dictEntry) :=
  '(d, iter, des) ← iterate (S (Z.to_nat (dictSize d))) d (if safe then dictInitSafeIterator else dictInitIterator);
  d ← dictResetIterator table_addr d iter; Ret (d, des).

Definition first_entry (de : dictEntry) : option (SK * option V) := head (chain_list de).

Lemma iterate_spec n : forall d iter l d0 iter0, shape d ->
  next_result d iter l (dictNext table_addr d0 iter0) -> (length l < n)%nat ->
  exists iter' des, iterate n d0 iter0 = Ret (d, iter', des) /\ first_entry <$> des = Some <$> l /\
    it_safe iter' = it_safe iter /\ it_fingerprint iter' = it_fingerprint iter /\ not_started iter' = false.
Proof.
  induction n as [|n IH]; intros d iter l d0 iter0 Hs (iter' & de & Hr & Hsafe & Hfp & Hst & Hl) Hn; [lia|].
  cbn [iterate]. rewrite Hr, ret_bind. destruct l as [|x l].
  - rewrite Hl. cbn [is_null]. by exists iter', [].
  - destruct Hl as (Hde & Hok & He & Hp). assert (is_null de = false) as -> by (by destruct de).
    destruct (IH d iter' l d iter' Hs) as (iter2 & des & -> & Hdes & Hsafe' & Hfp' & Hst'); [|cbn in Hn; lia|].
    { rewrite <- Hp. apply dictNext_spec; [done|done|]. rewrite He. by destruct de. }
    rewrite ret_bind. exists iter2, (de :: des). cbn [fmap list_fmap]. rewrite Hdes, Hsafe', Hfp'.
    split; [done|]. split; [|done]. f_equal. unfold first_entry. by rewrite Hde.
Qed.

Lemma iterate_all_spec safe d : dict_wf d -> 0 <= pauserehash d < 2 ^ 32 ->
  exists des, iterate_all safe d = Ret (d, des) /\ first_entry <$> des = Some <$> entries d.
Proof.
  intros Hwf Hp. unfold iterate_all. pose proof (wf_shape _ _ _ Hwf) as Hs.
  assert (length (entries d) < S (Z.to_nat (dictSize d)))%nat as Hn.
  { rewrite (dictSize_spec _ _ _ Hwf). unfold Zlen. lia. }
  assert (shape (if safe then dictPauseRehashing d else d)) as Hs1 by (destruct safe; [by destruct Hs; constructor|done]).
  destruct (iterate_spec _ _ _ _ _ _ Hs1 (dictNext_first d safe Hs) Hn)
    as (iter' & des & -> & Hdes & Hsafe & Hfp & Hst).
  rewrite ret_bind. unfold dictResetIterator. rewrite Hst, Hsafe, Hfp. cbn [negb it_safe it_fingerprint].
  exists des. split; [|done]. destruct safe.
  - rewrite ret_bind. unfold dictResumeRehashing, dictPauseRehashing, set_pause. cbn.
    do 2 f_equal. destruct d as [h0 h1 ri p pa log]. cbn in *. f_equal. unfold wrapu.
    rewrite Zminus_mod_idemp_l, Z.add_simpl_r. by rewrite Z.mod_small.
  - by rewrite Z.eqb_refl.
Qed.

(** ** Operations between the calls of a safe iterator *)

(** The keys visited, added, and deleted before their turn. *)
Record iter_state := { is_dict : dict; is_iter : dictIterator; is_visited : list C; is_added : list C; is_skipped : list C }.

(** The client may add and look up any key, and delete any: the last one
    visited, any other visited before, or one still to come, except that of
    [nextEntry], which would be freed under the iterator. *)
Inductive iter_step : iter_state -> iter_state -> Prop :=
| step_next d iter vis add del d' iter' de k : dictNext table_addr d iter = Ret (d', iter', de) -> dictGetKey de = Ret k ->
    iter_step (Build_iter_state d iter vis add del)
      (Build_iter_state d' iter' (vis ++ [canon (keyFromStoredKey type k)]) add del)
| step_delete d iter vis add del key nofree d' he : dictGenericDelete type can_resize d key nofree = Ret (d', he) ->
    next_canon iter <> Some (canon key) ->
    iter_step (Build_iter_state d iter vis add del) (Build_iter_state d' (reread d' iter) vis add
      (if decide (canon key ∈ entry_canon <$> pending d iter) then canon key :: del else del))
| step_add d iter vis add del sk d' r : dictAddRaw type can_resize d sk = Ret (d', r) -> Zlen (entries d) + 1 < 2 ^ 62 ->
    iter_step (Build_iter_state d iter vis add del) (Build_iter_state d' iter vis (canon (keyFromStoredKey type sk) :: add) del)
| step_find d iter vis add del key d' de : dictFind type can_resize d key = Ret (d', de) ->
    iter_step (Build_iter_state d iter vis add del) (Build_iter_state d' iter vis add del).

(** The keys still to come. *)
Definition to_come (s : iter_state) : list C := entry_canon <$> pending (is_dict s) (is_iter s).

Record iter_inv (d0 : dict) (s : iter_state) : Prop := {
  ii_wf : dict_wf (is_dict s);
  ii_pause : pauserehash (is_dict s) = pauserehash d0 + 1;
  ii_auto : pauseAutoResize (is_dict s) = pauseAutoResize d0;
  ii_ok : iter_ok (is_dict s) (is_iter s);
  ii_entry : it_entry (is_iter s) <> DNull;
  ii_safe : it_safe (is_iter s) = true;
  ii_all : forall k, k ∈ dom (dict_map d0) -> k ∈ is_visited s ++ to_come s \/ k ∈ is_skipped s;
  ii_skipped : forall k, k ∈ is_skipped s -> k ∉ is_added s -> k ∉ is_visited s ++ to_come s;
  ii_only : forall k, k ∈ is_visited s ++ to_come s -> k ∈ dom (dict_map d0) \/ k ∈ is_added s;
  ii_once : NoDup (filter (fun k => k ∉ is_added s) (is_visited s ++ to_come s));
  ii_count : (length (is_visited s ++ to_come s) <= length (entries d0) + length (is_added s))%nat;
}.

Section steps.
Context (d0 : dict) (Hffr : force_full_rehash type = false) (Hp0 : 0 <= pauserehash d0) (Hpa0 : pauseAutoResize d0 <= 0).

Lemma iter_inv_paused s : iter_inv d0 s -> pauserehash (is_dict s) <> 0.
Proof. intros H. rewrite (ii_pause _ _ H). lia. Qed.

Lemma inv_next d iter vis add del d' iter' de k : iter_inv d0 (Build_iter_state d iter vis add del) ->
  dictNext table_addr d iter = Ret (d', iter', de) -> dictGetKey de = Ret k ->
  iter_inv d0 (Build_iter_state d' iter' (vis ++ [canon (keyFromStoredKey type k)]) add del).
Proof.
  intros [Hwf Hpu Hau Hok He Hsf Hall Hskip Honly Honce Hct] Hn Hk. cbn in *.
  destruct (dictNext_spec d iter (wf_shape _ _ _ Hwf) Hok He) as (iter2 & de2 & Hr & Hsafe & _ & _ & Hl).
  rewrite Hn in Hr. injection Hr as -> -> ->. unfold to_come in *. cbn [is_dict is_iter] in *.
  destruct (pending d iter) as [|x l] eqn:Ep; [by rewrite Hl in Hk|]. destruct Hl as (Hde & Hok' & He' & Hp').
  assert (canon (keyFromStoredKey type k) = entry_canon x) as Hkx.
  { destruct de2; cbn in Hk, Hde; [done|..]; injection Hk as ->; injection Hde as <-; done. }
  assert ((vis ++ [canon (keyFromStoredKey type k)]) ++ (entry_canon <$> pending d iter2) = vis ++ (entry_canon <$> x :: l)) as Heq.
  { rewrite Hp', Hkx, <- app_assoc. done. }
  split; cbn [is_dict is_iter is_visited is_added is_skipped]; unfold to_come; cbn [is_dict is_iter]; try rewrite Heq; try done.
  - rewrite He'. by destruct de2.
  - by rewrite Hsafe.
Qed.

Lemma fmap_others k (l : list (SK * option V)) : entry_canon <$> others k l = filter (fun x => x <> k) (entry_canon <$> l).
Proof.
  induction l as [|x l IH]; [done|]. cbn [fmap list_fmap]. destruct (decide (entry_canon x = k)).
  - rewrite !filter_cons_False by auto. exact IH.
  - rewrite !filter_cons_True by done. cbn [fmap list_fmap]. by rewrite IH.
Qed.

Lemma reread_fields d iter : it_safe (reread d iter) = it_safe iter /\ it_entry (reread d iter) = it_entry iter.
Proof. unfold reread. by destruct (next_canon iter). Qed.

Lemma inv_delete d iter vis add del key nofree d' he : iter_inv d0 (Build_iter_state d iter vis add del) ->
  dictGenericDelete type can_resize d key nofree = Ret (d', he) -> next_canon iter <> Some (canon key) ->
  iter_inv d0 (Build_iter_state d' (reread d' iter) vis add (if decide (canon key ∈ entry_canon <$> pending d iter) then canon key :: del else del)).
Proof.
  intros Hinv Hd Hne. pose proof (iter_inv_paused _ Hinv) as Hp. destruct Hinv as [Hwf Hpu Hau Hok He Hsf Hall Hskip Honly Honce Hct]. cbn in *.
  destruct (dictGenericDelete_spec type canon can_resize d key nofree Hwf) as (d1 & he1 & Hd' & Hwf' & _ & Hp1 & Hp2 & _).
  rewrite Hd in Hd'. injection Hd' as <- <-. destruct (delete_any iter d key nofree d' he Hffr Hwf Hp Hok Hne Hd) as [Hok' Hpend].
  destruct (reread_fields d' iter) as [Es Ee]. unfold to_come in *. cbn [is_dict is_iter] in *.
  assert (entry_canon <$> pending d' (reread d' iter) = filter (fun x => x <> canon key) (entry_canon <$> pending d iter)) as Htc by (by rewrite Hpend, fmap_others).
  set (tc := entry_canon <$> pending d iter) in *.
  split; cbn [is_dict is_iter is_visited is_added is_skipped]; unfold to_come; cbn [is_dict is_iter]; try rewrite Htc; try done; try lia; try congruence.
  - intros k Hk. destruct (Hall k Hk) as [Hin|Hin]; [|right; destruct (decide _); [by right|done]]. apply elem_of_app in Hin as [Hin|Hin]; [left; apply elem_of_app; by left|].
    destruct (decide (k = canon key)) as [->|Hkk]; [right; rewrite decide_True by done; by left|]. left. apply elem_of_app. right. by apply list_elem_of_filter.
  - assert (forall k, k ∉ vis ++ tc -> k ∉ vis ++ filter (fun x => x <> canon key) tc) as Hless.
    { intros k Hk Hin. apply Hk. rewrite elem_of_app in *. destruct Hin as [|[_ ?]%list_elem_of_filter]; auto. }
    intros k Hk Hadd. destruct (decide (canon key ∈ tc)) as [Hin|Hin]; [|by apply Hless, Hskip]. apply elem_of_cons in Hk as [->|Hk]; [|by apply Hless, Hskip].
    rewrite elem_of_app. intros [Hv|[? _]%list_elem_of_filter]; [|done]. rewrite list.filter_app in Honce. apply list.NoDup_app in Honce as (_ & Hdis & _).
    apply (Hdis (canon key)); by apply list_elem_of_filter.
  - intros k Hk. apply Honly. rewrite elem_of_app in *. destruct Hk as [|[_ ?]%list_elem_of_filter]; auto.
  - rewrite list.filter_app in *. apply list.NoDup_app in Honce as (H1 & Hdis & H2). apply list.NoDup_app. split; [done|]. split.
    + intros k Hk Hin. apply (Hdis k Hk). apply list_elem_of_filter in Hin as [? [_ ?]%list_elem_of_filter]. by apply list_elem_of_filter.
    + assert (forall l : list C, NoDup (filter (fun k => k ∉ add) l) -> NoDup (filter (fun k => k ∉ add) (filter (fun x => x <> canon key) l))) as Hnd; [|by apply Hnd].
      intros l. rewrite (list_filter_filter (fun k => k ∉ add)). intros Hl. rewrite <- (list_filter_filter_l (fun k => (k ∉ add) /\ k <> canon key) (fun k => k ∉ add)) by tauto. by apply list.NoDup_filter.
  - rewrite length_app in *. pose proof (length_filter (fun x => x <> canon key) tc). lia.
Qed.

Lemma inv_add d iter vis add del sk d' r : iter_inv d0 (Build_iter_state d iter vis add del) -> Zlen (entries d) + 1 < 2 ^ 62 ->
  dictAddRaw type can_resize d sk = Ret (d', r) ->
  iter_inv d0 (Build_iter_state d' iter vis (canon (keyFromStoredKey type sk) :: add) del).
Proof.
  intros Hinv Hsz Ha. pose proof (iter_inv_paused _ Hinv) as Hp. destruct Hinv as [Hwf Hpu Hau Hok He Hsf Hall Hskip Honly Honce Hct]. cbn in *.
  destruct (dictAddRaw_spec type canon can_resize d sk Hwf) as (d1 & r1 & Ha' & Hwf' & Hp1 & Hp2 & _); [right; lia|done|].
  rewrite Ha in Ha'. injection Ha' as <- <-.
  destruct (add_pending iter d sk d' r Hffr Hwf Hp) as [Hok' Hpend]; [lia|done|done|].
  set (k := canon (keyFromStoredKey type sk)). unfold to_come in *. cbn [is_dict is_iter] in *.
  assert (entry_canon (stored_key type sk, None) = k) as Hk by apply (stored_key_canon type canon sk None None).
  assert (exists new, (new = [] \/ new = [k]) /\ vis ++ (entry_canon <$> pending d' iter) ≡ₚ new ++ vis ++ (entry_canon <$> pending d iter)) as (new & Hnew & Hperm).
  { destruct Hpend as [-> |Hpend]; [by exists []; split; [left|]|]. exists [k]. split; [by right|].
    rewrite Hpend. cbn. rewrite Hk. symmetry. apply Permutation_middle. }
  split; cbn [is_dict is_iter is_visited is_added is_skipped]; unfold to_come; cbn [is_dict is_iter]; try done; try lia.
  - intros j Hj. destruct (Hall j Hj) as [Hin|Hin]; [left|by right]. rewrite Hperm. apply elem_of_app. by right.
  - intros j Hj Hadd. rewrite not_elem_of_cons in Hadd. destruct Hadd as [Hjk Hadd]. rewrite Hperm, elem_of_app. intros [Hin|Hin]; [|by apply (Hskip j Hj Hadd)].
    destruct Hnew as [-> | ->]; [by apply elem_of_nil in Hin|]. by apply list_elem_of_singleton in Hin.
  - intros j Hj. rewrite Hperm in Hj. apply elem_of_app in Hj as [Hj|Hj].
    + right. destruct Hnew as [-> | ->]; [by apply elem_of_nil in Hj|]. apply list_elem_of_singleton in Hj as ->. by left.
    + destruct (Honly j Hj) as [?|?]; [by left|right; by right].
  - rewrite Hperm, list.filter_app.
    assert (filter (fun j => j ∉ k :: add) new = []) as ->.
    { destruct Hnew as [-> | ->]; [done|]. rewrite filter_cons_False; [done|]. intros Hn. apply Hn. by left. }
    cbn [app]. rewrite <- (list_filter_filter_l (fun j => j ∉ k :: add) (fun j => j ∉ add)) by (intros j Hj Hin; apply Hj; by right).
    by apply list.NoDup_filter.
  - rewrite (Permutation_length Hperm). rewrite length_app. destruct Hnew as [-> | ->]; cbn; lia.
Qed.

Lemma inv_step s s' : iter_step s s' -> iter_inv d0 s -> iter_inv d0 s'.
Proof.
  intros Hstep Hinv. pose proof (iter_inv_paused _ Hinv) as Hp.
  destruct Hstep as [d iter vis add del d' iter' de k Hn Hk|d iter vis add del key nofree d' he Hd Hno|d iter vis add del sk d' r Ha Hsz|d iter vis add del key d' de Hf].
  - by eapply inv_next.
  - by apply (inv_delete d iter vis add del key nofree d' he).
  - by apply (inv_add d iter vis add del sk d' r).
  - apply dictFind_paused in Hf as ->; done.
Qed.

Lemma inv_first d iter de k : dict_wf d0 -> pauserehash d0 < 2 ^ 32 - 1 ->
  dictNext table_addr d0 dictInitSafeIterator = Ret (d, iter, de) -> dictGetKey de = Ret k ->
  iter_inv d0 (Build_iter_state d iter [canon (keyFromStoredKey type k)] [] []).
Proof.
  intros Hwf Hp1 Hn Hk. destruct (dictNext_first d0 true (wf_shape _ _ _ Hwf)) as (iter2 & de2 & Hr & Hsafe & _ & _ & Hl).
  rewrite Hn in Hr. injection Hr as -> -> ->. destruct (entries d0) as [|x l] eqn:Ee; [by rewrite Hl in Hk|].
  destruct Hl as (Hde & Hok & He & Hp').
  assert (canon (keyFromStoredKey type k) = entry_canon x) as Hkx.
  { destruct de2; cbn in Hk, Hde; [done|..]; injection Hk as ->; injection Hde as <-; done. }
  assert ([canon (keyFromStoredKey type k)] ++ (entry_canon <$> pending (dictPauseRehashing d0) iter2) = entry_canon <$> entries d0) as Heq.
  { by rewrite Hp', Hkx, Ee. }
  assert (forall j, j ∈ dom (dict_map d0) <-> j ∈ entry_canon <$> entries d0) as Hdom.
  { intros j. unfold DictInv.dict_map. rewrite dom_list_to_map_L, fst_entries. by rewrite elem_of_list_to_set. }
  split; cbn [is_dict is_iter is_visited is_added is_skipped]; unfold to_come; cbn [is_dict is_iter]; try rewrite Heq.
  - by apply pause_wf.
  - unfold dictPauseRehashing, set_pause. cbn. by rewrite wrapu_id by lia.
  - done.
  - done.
  - rewrite He. by destruct de2.
  - done.
  - intros j Hj. left. by apply Hdom.
  - by intros j ?%elem_of_nil.
  - intros j Hj. left. by apply Hdom.
  - apply list.NoDup_filter. apply Hwf.
  - rewrite length_fmap. cbn. lia.
Qed.
End steps.
End spec.

Section theorems.
Context {K SK V : Type} (type : dictType K SK V).
Context {C : Type} (canon : K -> C) `{!EqDecision C, !Countable C, !DictKeys type canon}.
Context (can_resize : dictResizeEnable) (table_addr : dict SK V -> Z -> Z).
Abbreviation dict := (dict SK V).

(** Iterating over a dict that is not modified, with a safe iterator or an
    unsafe one, visits every entry once, in the order of the buckets, rehashing
    or not; resetting the iterator then finds the fingerprint unchanged and
    leaves the dict as it was, the count of pauses included. *)
Theorem dictNext_visits_all (safe : bool) (d : dict) : dict_wf type canon d -> 0 <= pauserehash d < 2 ^ 32 ->
  exists des, iterate_all table_addr safe d = Ret (d, des) /\ first_entry <$> des = Some <$> entries d /\
    NoDup (entry_canon type canon <$> entries d).
Proof.
  intros Hwf Hp. destruct (iterate_all_spec type canon table_addr safe d Hwf Hp) as (des & Hr & Hd).
  exists des. split; [done|]. split; [done|]. apply Hwf.
Qed.

(** C6. Between the calls of [dictNext] on a safe iterator the client may look
    keys up, add any, and delete any: the last one visited, the others visited,
    and those still to come, except the one whose entry the iterator has saved as
    [nextEntry] (dict.c would read freed memory); all this even when it starts a
    resize.  The next call always returns; no key is visited twice unless it was
    added meanwhile, none that was neither there nor added, and none that was
    deleted before its turn and not added; when NULL is returned every key of
    the beginning that was not deleted before its turn was visited, and
    resetting the iterator gives the pause back. *)
Theorem dict_safe_iterator (d0 d : dict) (iter : dictIterator SK V) (de : dictEntry SK V) (k : SK) (s : iter_state) :
  dict_wf type canon d0 -> force_full_rehash type = false ->
  0 <= pauserehash d0 < 2 ^ 32 - 1 -> pauseAutoResize d0 <= 0 ->
  dictNext table_addr d0 dictInitSafeIterator = Ret (d, iter, de) -> dictGetKey de = Ret k ->
  rtc (iter_step type canon can_resize table_addr) (Build_iter_state d iter [canon (keyFromStoredKey type k)] [] []) s ->
  exists iter' de', dictNext table_addr (is_dict s) (is_iter s) = Ret (is_dict s, iter', de') /\
    NoDup (filter (fun k => k ∉ is_added s) (is_visited s)) /\
    (forall k, k ∈ is_visited s -> k ∈ dom (dict_map type canon d0) \/ k ∈ is_added s) /\
    (forall k, k ∈ is_skipped s -> k ∈ is_visited s -> k ∈ is_added s) /\
    (length (is_visited s) <= length (entries d0) + length (is_added s))%nat /\
    (de' = DNull -> (forall k, k ∈ dom (dict_map type canon d0) -> k ∈ is_visited s \/ k ∈ is_skipped s) /\
      exists d', dictResetIterator table_addr (is_dict s) iter' = Ret d' /\ dict_wf type canon d' /\
        pauserehash d' = pauserehash d0 /\ dict_map type canon d' = dict_map type canon (is_dict s)).
Proof.
  intros Hwf Hffr Hp Hpa Hn Hk Hsteps. pose proof (inv_first type canon table_addr d0 (proj1 Hp) d iter de k Hwf (proj2 Hp) Hn Hk) as Hinv.
  assert (iter_inv type canon d0 s) as [Hwf' Hpu _ Hok He Hsf Hall Hskip Honly Honce Hct].
  { clear -Hsteps Hinv Hffr Hp Hpa DictKeys0. induction Hsteps as [s|s1 s2 s3 Hs _ IH]; [done|]. apply IH.
    by apply (inv_step type canon can_resize table_addr d0 Hffr (proj1 Hp) Hpa s1). }
  destruct (dictNext_spec type table_addr _ _ (wf_shape _ _ _ Hwf') Hok He) as (iter' & de' & Hr & Hsafe & _ & Hst & Hl).
  exists iter', de'. split; [done|]. rewrite list.filter_app in Honce. apply list.NoDup_app in Honce as (Honce & _ & _).
  split; [done|]. split; [intros j Hj; apply Honly, elem_of_app; by left|].
  split; [intros j Hj Hv; destruct (decide (j ∈ is_added s)) as [|Hna]; [done|]; destruct (Hskip j Hj Hna); apply elem_of_app; by left|]. split; [rewrite length_app in Hct; lia|].
  intros ->. destruct (pending (is_dict s) (is_iter s)) as [|x l] eqn:Ep; [|by destruct Hl].
  split.
  - intros j Hj. apply Hall in Hj. unfold to_come in Hj. rewrite Ep in Hj. cbn in Hj. by rewrite app_nil_r in Hj.
  - unfold dictResetIterator. rewrite Hst, Hsafe, Hsf. cbn [negb]. eexists. split; [reflexivity|].
    split; [by apply pause_wf|]. split; [|done]. unfold dictResumeRehashing, set_pause. cbn. rewrite Hpu. rewrite wrapu_id; lia.
Qed.
End theorems.

(** ** Examples *)

Definition int_addr (d : dict Z Z) (i : Z) : Z := 4096 * (i + 1).

(** A first call, the deletion of the key visited and of one behind the saved
    entry in its chain, an addition and a second call. *)
Definition int_first : dict Z Z * dictIterator Z Z * dictEntry Z Z :=
  match dictNext int_addr int_dict dictInitSafeIterator with Ret r => r | _ => (int_dict, dictInitSafeIterator, DNull) end.

Definition int_delete (d : dict Z Z) (key : Z) : dict Z Z * dictEntry Z Z :=
  match dictGenericDelete int_type DICT_RESIZE_ENABLE d key false with Ret r => r | _ => (d, DNull) end.

Definition int_reread (d : dict Z Z) (iter : dictIterator Z Z) : dictIterator Z Z := reread int_type id d iter.
Definition int_deleted : dict Z Z := (int_delete int_first.1.1 13).1.
Definition int_iter : dictIterator Z Z := int_reread int_deleted int_first.1.2.
Definition int_deleted2 : dict Z Z := (int_delete int_deleted 1).1.
Definition int_iter2 : dictIterator Z Z := int_reread int_deleted2 int_iter.

Definition int_added : dict Z Z :=
  match dictAddRaw int_type DICT_RESIZE_ENABLE int_deleted2 100 with Ret (d, _) => d | _ => int_dict end.

Definition int_second : dict Z Z * dictIterator Z Z * dictEntry Z Z :=
  match dictNext int_addr int_added int_iter2 with Ret r => r | _ => int_first end.

Definition int_end : iter_state := Build_iter_state int_second.1.1 int_second.1.2 [13; 7] [100] [1].

Example int_chains : (it_nextEntry int_first.1.2, it_nextEntry int_iter2) = (DEntry 7 (Some 70) (DEntry 1 (Some 10) DNull), DEntry 7 (Some 70) DNull).
Proof. vm_compute. reflexivity. Qed.

Lemma int_step_delete d iter vis add del key d' iter' del' he : dictGenericDelete int_type DICT_RESIZE_ENABLE d key false = Ret (d', he) ->
  next_canon int_type id iter <> Some key -> iter' = int_reread d' iter ->
  del' = (if decide (key ∈ entry_canon int_type id <$> pending d iter) then key :: del else del) ->
  iter_step int_type id DICT_RESIZE_ENABLE int_addr (Build_iter_state d iter vis add del) (Build_iter_state d' iter' vis add del').
Proof. intros Hd Hne -> ->. by apply (step_delete int_type id DICT_RESIZE_ENABLE int_addr d iter vis add del key false d' he). Qed.

Lemma int_steps : rtc (iter_step int_type id DICT_RESIZE_ENABLE int_addr)
  (Build_iter_state int_first.1.1 int_first.1.2 [13] [] []) int_end.
Proof.
  apply (rtc_l _ _ (Build_iter_state int_deleted int_iter [13] [] [])).
  { apply (int_step_delete _ _ _ _ _ 13 _ _ _ (int_delete int_first.1.1 13).2); vm_compute; congruence || reflexivity. }
  apply (rtc_l _ _ (Build_iter_state int_deleted2 int_iter2 [13] [] [1])).
  { apply (int_step_delete _ _ _ _ _ 1 _ _ _ (int_delete int_deleted 1).2); vm_compute; congruence || reflexivity. }
  apply (rtc_l _ _ (Build_iter_state int_added int_iter2 [13] [100] [1])).
  { apply (step_add int_type id DICT_RESIZE_ENABLE int_addr int_deleted2 int_iter2 [13] [] [1] 100 int_added (inl (1, 4, 0%nat))); [vm_compute; reflexivity|]. vm_compute. reflexivity. }
  apply (rtc_l _ _ int_end); [|apply rtc_refl].
  apply (step_next int_type id DICT_RESIZE_ENABLE int_addr int_added int_iter2 [13] [100] [1] int_second.1.1 int_second.1.2 int_second.2 7);
    vm_compute; reflexivity.
Qed.

Lemma dict_safe_iterator_witness :
  exists iter' de', dictNext int_addr (is_dict int_end) (is_iter int_end) = Ret (is_dict int_end, iter', de') /\
    NoDup (filter (fun k => k ∉ is_added int_end) (is_visited int_end)) /\
    (forall k, k ∈ is_visited int_end -> k ∈ dom (dict_map int_type id int_dict) \/ k ∈ is_added int_end) /\
    (forall k, k ∈ is_skipped int_end -> k ∈ is_visited int_end -> k ∈ is_added int_end) /\
    (length (is_visited int_end) <= length (entries int_dict) + length (is_added int_end))%nat /\
    (de' = DNull -> (forall k, k ∈ dom (dict_map int_type id int_dict) -> k ∈ is_visited int_end \/ k ∈ is_skipped int_end) /\
      exists d', dictResetIterator int_addr (is_dict int_end) iter' = Ret d' /\ dict_wf int_type id d' /\
        pauserehash d' = pauserehash int_dict /\ dict_map int_type id d' = dict_map int_type id (is_dict int_end)).
Proof.
  apply (dict_safe_iterator int_type id DICT_RESIZE_ENABLE int_addr int_dict int_first.1.1 int_first.1.2 int_first.2 13 int_end);
    [exact int_dict_wf|reflexivity|vm_compute; split; congruence|vm_compute; congruence|vm_compute; reflexivity|vm_compute; reflexivity|exact int_steps].
Defined.

Lemma dictNext_visits_all_witness :
  exists des, iterate_all int_addr true int_dict = Ret (int_dict, des) /\ first_entry <$> des = Some <$> entries int_dict /\
    NoDup (entry_canon int_type id <$> entries int_dict).
Proof. apply (dictNext_visits_all int_type id int_addr true int_dict int_dict_wf). vm_compute. split; congruence. Defined.

(** A type with [force_full_rehash], as the table of commands has. *)
Definition full_type : dictType Z Z Z :=
  {| hashFunction := fun k => k; keyDup := None; valDup := None; keyCompare := Z.eqb;
     keyFromStoredKey := fun k => k; resizeAllowed := None; no_value := false; force_full_rehash := true |}.

(** Nine keys in 64 buckets; a safe iterator visits the first, which is deleted;
    the dict shrinks and, paused or not, moves all its entries at once to the 8
    buckets of the new table, behind the iterator.  The eight keys left are never
    visited. *)
Example full_rehash_misses :
  (d ← foldl (fun d k => d ← d; '(d, _) ← dictAdd full_type DICT_RESIZE_ENABLE d k 0; Ret d)
         ('(d, _) ← dictExpand full_type DICT_RESIZE_ENABLE dictCreate 64; Ret d) (Z.of_nat <$> seq 40 9);
   '(d, iter, de) ← dictNext int_addr d dictInitSafeIterator;
   k ← dictGetKey de;
   '(d, _) ← dictDelete full_type DICT_RESIZE_ENABLE d k;
   '(d, _, de) ← dictNext int_addr d iter;
   Ret (k, is_null de, dictSize d)) = Ret (40, true, 8).
Proof. vm_compute. reflexivity. Qed.
