(* ===== verification/DictFrame.v ===== *)
(** * DictFrame: what the operations of a dict leave alone

    The log of a dict only grows; its pause counters change only where the code
    pauses the rehashing.  Both are instances of one fact: an operation is a
    sequence of updates of a few fields, so any preorder that contains those
    updates relates a dict to the dict the operation returns. *)

From stdpp Require Import countable sets fin_maps gmap.
From S2P Require Import Prelude Memory Dict DictLink.

(** The updates every operation is made of. *)
Class DictFrame {SK V} (R : dict SK V -> dict SK V -> Prop) := {
  frame_preorder : PreOrder R;
  frame_ht : forall d i h, R d (set_ht d i h);
  frame_emit : forall d e, R d (emit d e);
  frame_idx : forall d i, R d (set_rehashidx d i);
  frame_swap : forall d, R d (Build_dict (ht1 d) _dictReset (-1) (pauserehash d) (pauseAutoResize d) (d_log d));
}.

(** With the pauses of two-phase deletion. *)
Class DictFramePause {SK V} (R : dict SK V -> dict SK V -> Prop) `{!DictFrame R} :=
  frame_pause : forall d p, R d (set_pause d p).

Section frame.
Context {K SK V : Type} (type : dictType K SK V) (can_resize : dictResizeEnable) (as_key : SK -> K).
Abbreviation dict := (dict SK V).
Abbreviation dictEntry := (dictEntry SK V).
Implicit Types (d : dict).
Context (R : dict -> dict -> Prop) `{!DictFrame R}.

#[local] Existing Instance frame_preorder.

Lemma frame_trans d1 d2 d3 : R d1 d2 -> R d2 d3 -> R d1 d3.
Proof. apply transitivity. Qed.

(** The calls made, known by [L] to stay in the frame. *)
Ltac call L := repeat match goal with H : _ = Ret _ |- _ => apply L in H end; cbn [fst] in *.

(** Backwards, through the calls and the updates of a field. *)
Ltac grow := cbn [fst] in *; repeat match goal with
  | |- R ?d ?d => reflexivity
  | H : R ?y ?z |- R _ ?z => transitivity y; [|exact H]; clear H
  | |- R ?d (used_add ?y _ _) => transitivity y; [|apply frame_ht]
  | |- R ?d (set_ht ?y _ _) => transitivity y; [|apply frame_ht]
  | |- R ?d (emit ?y _) => transitivity y; [|apply frame_emit]
  | |- R ?d (set_rehashidx ?y _) => transitivity y; [|apply frame_idx]
  end; try done.

Lemma bucket_set_frame d i j c d' : bucket_set d i j c = Ret d' -> R d d'.
Proof. unfold bucket_set. intros H. inv_ret. grow. Qed.

Lemma rehash_entry_frame d idx de d' : rehash_entry type d idx de = Ret d' -> R d d'.
Proof. unfold rehash_entry. intros H. inv_ret; call bucket_set_frame; grow. Qed.

Lemma rehash_chain_frame idx de : forall d d', rehash_chain type d idx de = Ret d' -> R d d'.
Proof.
  induction de as [|k|k v next IH]; intros d d'; cbn [rehash_chain]; intros H.
  - by injection H as <-.
  - by apply rehash_entry_frame in H.
  - apply bind_Ret in H as (d1 & H1%rehash_entry_frame & H2%IH). grow.
Qed.

Lemma rehash_index_frame d idx d' : rehashEntriesInBucketAtIndex type d idx = Ret d' -> R d d'.
Proof. unfold rehashEntriesInBucketAtIndex. intros H. inv_ret. call rehash_chain_frame; call bucket_set_frame. grow. Qed.

Lemma completed_frame d : R d (dictCheckRehashingCompleted d).1.
Proof.
  unfold dictCheckRehashingCompleted. destruct (negb _); [done|]. cbv zeta. cbn [fst].
  match goal with |- context [d_log ?y] => transitivity y; [grow|apply frame_swap] end.
Qed.

Lemma skip_empty_frame fuel : forall d ev r, skip_empty fuel d ev = Ret r -> R d r.1.1.
Proof. induction fuel as [|fuel IH]; intros d ev r; cbn [skip_empty]; intros H; inv_ret; call IH; grow. Qed.

Lemma rehash_loop_frame n : forall d ev r, rehash_loop type n d ev = Ret r -> R d r.1.
Proof.
  induction n as [|n IH]; intros d ev r; cbn [rehash_loop]; intros H; inv_ret;
    call IH; call skip_empty_frame; call rehash_index_frame; grow.
Qed.

Lemma dictRehash_frame d n r : dictRehash type can_resize d n = Ret r -> R d r.1.
Proof.
  unfold dictRehash. intros H. inv_ret; call rehash_loop_frame; try by grow.
  match goal with H : dictCheckRehashingCompleted ?d = (?x, _) |- R _ _ => pose proof (completed_frame d) as Hc; rewrite H in Hc end. grow.
Qed.

Lemma _dictRehashStep_frame d d' : _dictRehashStep type can_resize d = Ret d' -> R d d'.
Proof. unfold _dictRehashStep. intros H. inv_ret; call dictRehash_frame; grow. Qed.

Lemma _dictBucketRehash_frame d idx d' : _dictBucketRehash type can_resize d idx = Ret d' -> R d d'.
Proof.
  unfold _dictBucketRehash. intros H. inv_ret; try done. call rehash_index_frame. eapply frame_trans; [eassumption|apply completed_frame].
Qed.

Lemma _dictRehashStepIfNeeded_frame d idx d' : _dictRehashStepIfNeeded type can_resize d idx = Ret d' -> R d d'.
Proof. unfold _dictRehashStepIfNeeded. intros H. inv_ret; call _dictBucketRehash_frame; call dictRehash_frame; grow. Qed.

Lemma full_rehash_frame fuel : forall d d', full_rehash type can_resize fuel d = Ret d' -> R d d'.
Proof. induction fuel as [|fuel IH]; intros d d'; cbn [full_rehash]; intros H; inv_ret; call IH; call dictRehash_frame; grow. Qed.

Lemma _dictResize_frame d size try avail r : _dictResize type can_resize d size try avail = Ret r -> R d r.1.1.
Proof. unfold _dictResize. intros H. inv_ret; call full_rehash_frame; grow. Qed.

Lemma _dictExpand_frame d size try avail r : _dictExpand type can_resize d size try avail = Ret r -> R d r.1.1.
Proof. unfold _dictExpand. intros H. inv_ret; call _dictResize_frame; grow. Qed.

Lemma dictExpand_frame d size r : dictExpand type can_resize d size = Ret r -> R d r.1.
Proof. unfold dictExpand. intros H. inv_ret. call _dictExpand_frame. grow. Qed.

Lemma dictTryExpand_frame d size avail r : dictTryExpand type can_resize d size avail = Ret r -> R d r.1.
Proof. unfold dictTryExpand. intros H. inv_ret. call _dictExpand_frame. grow. Qed.

Lemma dictShrink_frame d size r : dictShrink type can_resize d size = Ret r -> R d r.1.
Proof. unfold dictShrink. intros H. inv_ret; call _dictResize_frame; grow. Qed.

Lemma dictExpandIfNeeded_frame d r : dictExpandIfNeeded type can_resize d = Ret r -> R d r.1.
Proof. unfold dictExpandIfNeeded. intros H. inv_ret; call dictExpand_frame; grow. Qed.

Lemma dictShrinkIfNeeded_frame d r : dictShrinkIfNeeded type can_resize d = Ret r -> R d r.1.
Proof. unfold dictShrinkIfNeeded. intros H. inv_ret; call dictShrink_frame; grow. Qed.

Lemma _dictExpandIfNeeded_frame d d' : _dictExpandIfNeeded type can_resize d = Ret d' -> R d d'.
Proof. unfold _dictExpandIfNeeded. intros H. inv_ret; call dictExpandIfNeeded_frame; grow. Qed.

Lemma _dictShrinkIfNeeded_frame d d' : _dictShrinkIfNeeded type can_resize d = Ret d' -> R d d'.
Proof. unfold _dictShrinkIfNeeded. intros H. inv_ret; call dictShrinkIfNeeded_frame; grow. Qed.

(** *** The operations on keys *)

Lemma link_set_frame d link de d' : link_set d link de = Ret d' -> R d d'.
Proof. unfold link_set. intros H. inv_ret. call bucket_set_frame. grow. Qed.

Lemma dictFindLinkInternal_frame d key want_bucket r : dictFindLinkInternal type can_resize d key want_bucket = Ret r -> R d r.1.1.
Proof. unfold dictFindLinkInternal. intros H. inv_ret; call _dictRehashStepIfNeeded_frame; grow. Qed.

Lemma dictFindLink_frame d key want_bucket r : dictFindLink type can_resize d key want_bucket = Ret r -> R d r.1.1.
Proof. unfold dictFindLink. intros H. inv_ret; call dictFindLinkInternal_frame; grow. Qed.

Lemma dictFind_frame d key r : dictFind type can_resize d key = Ret r -> R d r.1.
Proof. unfold dictFind. intros H. inv_ret; call dictFindLink_frame; grow. Qed.

Lemma dictFetchValue_frame d key r : dictFetchValue type can_resize d key = Ret r -> R d r.1.
Proof. unfold dictFetchValue. intros H. inv_ret; call dictFind_frame; grow. Qed.

Lemma dictFindLinkForInsert_frame d key r : dictFindLinkForInsert type can_resize d key = Ret r -> R d r.1.
Proof. unfold dictFindLinkForInsert. intros H. inv_ret; call _dictRehashStepIfNeeded_frame; call _dictExpandIfNeeded_frame; grow. Qed.

Lemma dictInsertKeyAtLink_frame d key link d' : dictInsertKeyAtLink type d key link = Ret d' -> R d d'.
Proof. unfold dictInsertKeyAtLink. intros H. inv_ret; call bucket_set_frame; grow. Qed.

Lemma dictAddRaw_frame d key r : dictAddRaw type can_resize d key = Ret r -> R d r.1.
Proof. unfold dictAddRaw. intros H. inv_ret; call dictFindLinkForInsert_frame; call dictInsertKeyAtLink_frame; grow. Qed.

Lemma set_val_at_frame d link v d' : set_val_at type d link v = Ret d' -> R d d'.
Proof. unfold set_val_at. intros H. inv_ret; call link_set_frame; grow. Qed.

Lemma dictFreeUnlinkedEntry_frame d he d' : dictFreeUnlinkedEntry d he = Ret d' -> R d d'.
Proof. unfold dictFreeUnlinkedEntry, dictFreeVal. intros H. inv_ret; [done|]. destruct he as [| |? [] ?]; grow. Qed.

Lemma dictGenericDelete_frame d key nofree r : dictGenericDelete type can_resize d key nofree = Ret r -> R d r.1.
Proof.
  unfold dictGenericDelete. intros H. inv_ret; call _dictRehashStepIfNeeded_frame; call link_set_frame;
    call dictFreeUnlinkedEntry_frame; call _dictShrinkIfNeeded_frame; grow.
Qed.

Lemma dictDelete_frame d key r : dictDelete type can_resize d key = Ret r -> R d r.1.
Proof. unfold dictDelete. intros H. inv_ret; call dictGenericDelete_frame; grow. Qed.

Lemma dictSetKeyAtLink_frame d key link newItem r : dictSetKeyAtLink type can_resize as_key d key link newItem = Ret r -> R d r.1.
Proof.
  unfold dictSetKeyAtLink. intros H. inv_ret; call dictExpandIfNeeded_frame; call dictFindLinkInternal_frame;
    call dictFindLink_frame; call dictInsertKeyAtLink_frame; call link_set_frame; grow.
Qed.

Lemma clear_chain_frame htidx he : forall d, R d (clear_chain d htidx he).
Proof.
  induction he as [|k|k v next IH]; intros d; cbn [clear_chain]; [done|grow|].
  eapply frame_trans; [|apply IH]. unfold dictFreeVal. destruct v; grow.
Qed.

Lemma clear_buckets_frame htidx t : forall d, R d (clear_buckets d htidx t).
Proof.
  induction t as [|he t IH]; intros d; cbn [clear_buckets]; [done|]. destruct (0 <? _); [|done].
  eapply frame_trans; [apply clear_chain_frame|apply IH].
Qed.

Lemma _dictClear_frame d htidx : R d (_dictClear d htidx).
Proof. unfold _dictClear. cbv zeta. grow. destruct (ht_table _); [apply clear_buckets_frame|done]. Qed.

(** *** Two-phase deletion *)

Section pause.
Context `{!DictFramePause R}.

Lemma dictTwoPhaseUnlinkFind_frame d key r : dictTwoPhaseUnlinkFind type can_resize d key = Ret r -> R d r.1.
Proof.
  unfold dictTwoPhaseUnlinkFind. intros H. inv_ret; call _dictRehashStep_frame; cbn [fst]; try by grow.
  all: eapply frame_trans; [|apply frame_pause]; grow.
Qed.

Lemma dictTwoPhaseUnlinkFree_frame d plink d' : dictTwoPhaseUnlinkFree type can_resize d plink = Ret d' -> R d d'.
Proof.
  unfold dictTwoPhaseUnlinkFree. intros H. inv_ret; call link_set_frame; call dictFreeUnlinkedEntry_frame;
    call _dictShrinkIfNeeded_frame; try by grow.
  eapply frame_trans; [|apply frame_pause]. grow.
Qed.

End pause.
End frame.

(** ** The log only grows *)

Section log.
Context {SK V : Type}.
Abbreviation dict := (dict SK V).
Implicit Types (d : dict).

Definition grows d d' : Prop := exists evs, d_log d' = d_log d ++ evs.

Lemma same_log d d' : d_log d' = d_log d -> grows d d'.
Proof. intros E. exists []. by rewrite app_nil_r. Qed.

#[export] Instance grows_frame : DictFrame grows.
Proof.
  split.
  - split; [by intros d; apply same_log|]. intros d1 d2 d3 [e1 H1] [e2 H2]. exists (e1 ++ e2). by rewrite H2, H1, app_assoc.
  - intros d i h. apply same_log. unfold set_ht. by destruct (i =? 0).
  - intros d e. by exists [e].
  - intros d i. by apply same_log.
  - intros d. by apply same_log.
Qed.

#[export] Instance grows_pause : DictFramePause grows.
Proof. intros d p. by apply same_log. Qed.

Lemma dictRelease_grows d : grows d (dictRelease d).
Proof.
  unfold dictRelease. cbv zeta. do 2 (eapply (frame_trans grows); [|apply (_dictClear_frame grows)]).
  eapply (frame_trans grows); [|apply frame_emit]. destruct (dictIsRehashing d); [apply frame_emit|by apply same_log].
Qed.

Lemma dictEmpty_grows d : grows d (dictEmpty d).
Proof. destruct (dictRelease_grows d) as [evs H]. by exists evs. Qed.

(** ** The pause counters *)

Definition same_pauses d d' : Prop := pauserehash d' = pauserehash d /\ pauseAutoResize d' = pauseAutoResize d.
Definition same_auto d d' : Prop := pauseAutoResize d' = pauseAutoResize d.

#[export] Instance same_pauses_frame : DictFrame same_pauses.
Proof.
  split; try done.
  - split; [done|]. intros d1 d2 d3 [H1 H2] [H3 H4]. split; congruence.
  - intros d i h. unfold set_ht. by destruct (i =? 0).
Qed.

#[export] Instance same_auto_frame : DictFrame same_auto.
Proof.
  split; try done.
  - split; [done|]. intros d1 d2 d3 H1 H2. unfold same_auto in *. congruence.
  - intros d i h. unfold set_ht. by destruct (i =? 0).
Qed.

#[export] Instance same_auto_pause : DictFramePause same_auto.
Proof. done. Qed.
End log.
