(* ===== verification/Kvstore.v ===== *)
(** * kvstore.c: an array of dicts

    The keys of a database are split over [2^num_dicts_bits] dicts (one per hash
    slot in a cluster); a Fenwick tree counts them.  The dicts report their
    rehashings and bucket counts to the kvstore through callbacks: the events a
    dict operation appends to the log of the dict are replayed here, in order,
    by [dict_done].  (The callbacks touch only the kvstore's own counters and
    list, which the dict does not read, so replaying them when the operation
    returns is the same as running them inside it.)

    A dict is known by its index, which is what the nodes of the list
    [rehashing] hold.  The boolean next to a dict tells whether the
    [rehashing_node] of its metadata is set.  Every dict has the same [type]:
    [kvs->dtype]. *)

From stdpp Require Import countable sets fin_maps gmap.
From S2P Require Import Prelude Memory Fwtree Dict DictScan DictLink.

Definition KVSTORE_ALLOCATE_DICTS_ON_DEMAND : Z := 1.
Definition KVSTORE_FREE_EMPTY_DICTS : Z := 2.

Definition has_flag (flags f : Z) : bool := negb (Z.land flags f =? 0).

Record kvstore (SK V : Type) := {
  flags : Z;
  dicts : list (option (dict SK V * bool));
  num_dicts : Z;
  num_dicts_bits : Z;
  rehashing : list Z;
  resize_cursor : Z;
  allocated_dicts : Z;
  non_empty_dicts : Z;
  key_count : Z;
  bucket_count : Z;
  dict_sizes : option fenwickTree;
  overhead_hashtable_rehashing : Z }.
Arguments flags {SK V}. Arguments dicts {SK V}. Arguments num_dicts {SK V}. Arguments num_dicts_bits {SK V}.
Arguments rehashing {SK V}. Arguments resize_cursor {SK V}. Arguments allocated_dicts {SK V}.
Arguments non_empty_dicts {SK V}. Arguments key_count {SK V}. Arguments bucket_count {SK V}.
Arguments dict_sizes {SK V}. Arguments overhead_hashtable_rehashing {SK V}. Arguments Build_kvstore {SK V}.

(** [listDelNode] of the node a dict's metadata points to: the last one added for it. *)
Fixpoint list_del_last (didx : Z) (l : list Z) : list Z :=
  match l with
  | [] => []
  | x :: l => if (x =? didx) && negb (existsb (Z.eqb didx) l) then l else x :: list_del_last didx l
  end.

Section kvstore.
Context {K SK V : Type} (type : dictType K SK V) (can_resize : dictResizeEnable) (as_key : SK -> K).
Abbreviation dict := (dict SK V).
Abbreviation dictEntry := (dictEntry SK V).
Abbreviation kvstore := (kvstore SK V).
Implicit Types (kvs : kvstore) (d : dict).

(** The callback [kvs->type->canFreeDict]. *)
Variable canFreeDict : option (kvstore -> Z -> bool).

(** ** Updates of a field *)

Definition set_dicts kvs l : kvstore :=
  Build_kvstore (flags kvs) l (num_dicts kvs) (num_dicts_bits kvs) (rehashing kvs) (resize_cursor kvs) (allocated_dicts kvs)
    (non_empty_dicts kvs) (key_count kvs) (bucket_count kvs) (dict_sizes kvs) (overhead_hashtable_rehashing kvs).

(** The list of the dicts being rehashed and the size of the tables they leave. *)
Definition set_rehashing kvs l overhead : kvstore :=
  Build_kvstore (flags kvs) (dicts kvs) (num_dicts kvs) (num_dicts_bits kvs) l (resize_cursor kvs) (allocated_dicts kvs)
    (non_empty_dicts kvs) (key_count kvs) (bucket_count kvs) (dict_sizes kvs) overhead.

Definition set_bucket_count kvs n : kvstore :=
  Build_kvstore (flags kvs) (dicts kvs) (num_dicts kvs) (num_dicts_bits kvs) (rehashing kvs) (resize_cursor kvs)
    (allocated_dicts kvs) (non_empty_dicts kvs) (key_count kvs) n (dict_sizes kvs) (overhead_hashtable_rehashing kvs).

(** [kvs->allocated_dicts += n]. *)
Definition add_allocated kvs n : kvstore :=
  Build_kvstore (flags kvs) (dicts kvs) (num_dicts kvs) (num_dicts_bits kvs) (rehashing kvs) (resize_cursor kvs)
    (s32 (allocated_dicts kvs + n)) (non_empty_dicts kvs) (key_count kvs) (bucket_count kvs) (dict_sizes kvs)
    (overhead_hashtable_rehashing kvs).

Definition set_resize_cursor kvs n : kvstore :=
  Build_kvstore (flags kvs) (dicts kvs) (num_dicts kvs) (num_dicts_bits kvs) (rehashing kvs) n
    (allocated_dicts kvs) (non_empty_dicts kvs) (key_count kvs) (bucket_count kvs) (dict_sizes kvs)
    (overhead_hashtable_rehashing kvs).

(** The counters of keys. *)
Definition set_keys kvs non_empty count sizes : kvstore :=
  Build_kvstore (flags kvs) (dicts kvs) (num_dicts kvs) (num_dicts_bits kvs) (rehashing kvs) (resize_cursor kvs)
    (allocated_dicts kvs) non_empty count (bucket_count kvs) sizes (overhead_hashtable_rehashing kvs).

Definition set_slot kvs (didx : Z) (s : option (dict * bool)) : kvstore := set_dicts kvs (<[Z.to_nat didx := s]> (dicts kvs)).

(** ** Dict callbacks *)

(** The [rehashing_node] of the dict at [didx]. *)
Definition set_node kvs (didx : Z) (node : bool) : kvstore :=
  match dicts kvs !! Z.to_nat didx with Some (Some (d, _)) => set_slot kvs didx (Some (d, node)) | _ => kvs end.

Definition get_node kvs (didx : Z) : bool :=
  match dicts kvs !! Z.to_nat didx with Some (Some (_, node)) => node | _ => false end.

Definition kvstoreDictRehashingStarted kvs (didx from : Z) : kvstore :=
  set_node (set_rehashing kvs (rehashing kvs ++ [didx]) (u64 (overhead_hashtable_rehashing kvs + from))) didx true.

Definition kvstoreDictRehashingCompleted kvs (didx from : Z) : kvstore :=
  let overhead := u64 (overhead_hashtable_rehashing kvs - from) in
  if get_node kvs didx
  then set_node (set_rehashing kvs (list_del_last didx (rehashing kvs)) overhead) didx false
  else set_rehashing kvs (rehashing kvs) overhead.

Definition kvstoreDictBucketChanged kvs (delta : Z) : kvstore := set_bucket_count kvs (u64 (bucket_count kvs + delta)).

Definition dict_event (didx : Z) kvs (e : dictEvent SK V) : kvstore :=
  match e with
  | EvRehashingStarted from => kvstoreDictRehashingStarted kvs didx from
  | EvRehashingCompleted from => kvstoreDictRehashingCompleted kvs didx from
  | EvBucketChanged delta => kvstoreDictBucketChanged kvs delta
  | EvFreeKey _ | EvFreeVal _ => kvs
  end.

(** An operation turned the dict at [didx] into [d'], calling the callbacks. *)
Definition dict_done kvs (didx : Z) (d' : dict) : outcome kvstore :=
  slot ← rd (dicts kvs) didx;
  match slot with
  | Some (d, node) =>
    Ret (foldl (dict_event didx) (set_slot kvs didx (Some (d', node))) (drop (length (d_log d)) (d_log d')))
  | None => OutOfBounds
  end.

(** ** Helpers *)

Definition slot_dict (slot : option (dict * bool)) : option dict := match slot with Some (d, _) => Some d | None => None end.

Definition kvstoreGetDict kvs (didx : Z) : outcome (option dict) := slot ← rd (dicts kvs) didx; Ret (slot_dict slot).

Definition dictIsRehashingPaused d : bool := 0 <? pauserehash d.

Definition kvstoreDictIsRehashingPaused kvs (didx : Z) : outcome bool :=
  d ← kvstoreGetDict kvs didx; Ret (match d with Some d => dictIsRehashingPaused d | None => false end).

Definition addDictIndexToCursor kvs (didx cursor : Z) : Z :=
  if num_dicts kvs =? 1 then cursor
  else if didx <? 0 then cursor
  else Z.lor (u64 (Z.shiftl cursor (num_dicts_bits kvs))) didx.

(** The index and what is left of the cursor. *)
Definition getAndClearDictIndexFromCursor kvs (cursor : Z) : Z * Z :=
  if num_dicts kvs =? 1 then (0, cursor)
  else (s32 (Z.land cursor (num_dicts kvs - 1)), Z.shiftr cursor (num_dicts_bits kvs)).

Definition cumulativeKeyCountAdd kvs (didx delta : Z) : outcome kvstore :=
  let count := u64 (key_count kvs + delta) in
  d ← kvstoreGetDict kvs didx;
  match d with
  | None => OutOfBounds
  | Some d =>
    let dsize := dictSize d in
    let non_empty_dicts_delta := if (dsize =? 1) && (0 <? delta) then 1 else if dsize =? 0 then -1 else 0 in
    let kvs := set_keys kvs (s32 (non_empty_dicts kvs + non_empty_dicts_delta)) count (dict_sizes kvs) in
    if num_dicts kvs =? 1 then Ret kvs else
    sizes ← fwTreeUpdate (dict_sizes kvs) didx delta;
    Ret (set_keys kvs (non_empty_dicts kvs) (key_count kvs) sizes)
  end.

Definition createDictIfNeeded kvs (didx : Z) : outcome (kvstore * dict) :=
  d ← kvstoreGetDict kvs didx;
  match d with
  | Some d => Ret (kvs, d)
  | None => Ret (add_allocated (set_slot kvs didx (Some (dictCreate, false))) 1, dictCreate)
  end.

Definition kvstoreDictSize kvs (didx : Z) : outcome Z :=
  d ← kvstoreGetDict kvs didx; Ret (match d with Some d => dictSize d | None => 0 end).

Definition freeDictIfNeeded kvs (didx : Z) : outcome kvstore :=
  if negb (has_flag (flags kvs) KVSTORE_FREE_EMPTY_DICTS) then Ret kvs else
  d ← kvstoreGetDict kvs didx;
  match d with
  | None => Ret kvs
  | Some d =>
    size ← kvstoreDictSize kvs didx;
    if negb (size =? 0) then Ret kvs else
    paused ← kvstoreDictIsRehashingPaused kvs didx;
    if (paused : bool) then Ret kvs else
    if match canFreeDict with Some f => negb (f kvs didx) | None => false end then Ret kvs else
    kvs ← dict_done kvs didx (dictRelease d);
    Ret (add_allocated (set_slot kvs didx None) (-1))
  end.

Definition kvstoreFreeDictIfNeeded kvs (didx : Z) : outcome kvstore := freeDictIfNeeded kvs didx.

(** ** The whole store *)

(** [n] iterations of the loop of [kvstoreCreate], from index [i]. *)
Fixpoint create_dicts (n : nat) (i : Z) kvs : outcome kvstore :=
  match n with
  | O => Ret kvs
  | S n => '(kvs, _) ← createDictIfNeeded kvs i; create_dicts n (i + 1) kvs
  end.

Definition kvstoreCreate (num_dicts_bits flags : Z) : outcome kvstore :=
  _ ← c_assert (num_dicts_bits <=? 16);
  let num_dicts := s32 (Z.shiftl 1 num_dicts_bits) in
  let kvs := Build_kvstore flags (replicate (Z.to_nat num_dicts) None) num_dicts num_dicts_bits [] 0 0 0 0 0 None 0 in
  kvs ← (if has_flag flags KVSTORE_ALLOCATE_DICTS_ON_DEMAND then Ret kvs else create_dicts (Z.to_nat num_dicts) 0 kvs);
  let kvs := set_resize_cursor (set_rehashing kvs [] 0) 0 in
  Ret (set_bucket_count (set_keys kvs 0 0 (if 1 <? num_dicts then Some (fwTreeCreate num_dicts_bits) else None)) 0).

(** The body of the loop of [kvstoreEmpty]. *)
Definition empty_dict kvs (didx : Z) : outcome kvstore :=
  d ← kvstoreGetDict kvs didx;
  match d with
  | None => Ret kvs
  | Some d => kvs ← dict_done (set_node kvs didx false) didx (dictEmpty d); freeDictIfNeeded kvs didx
  end.

Fixpoint empty_dicts (n : nat) (didx : Z) kvs : outcome kvstore :=
  match n with
  | O => Ret kvs
  | S n => kvs ← empty_dict kvs didx; empty_dicts n (didx + 1) kvs
  end.

Definition kvstoreEmpty kvs : outcome kvstore :=
  kvs ← empty_dicts (Z.to_nat (num_dicts kvs)) 0 kvs;
  let kvs := set_resize_cursor (set_rehashing kvs [] 0) 0 in
  Ret (set_bucket_count (set_keys kvs 0 0 (fwTreeClear <$> dict_sizes kvs)) 0).

Definition kvstoreSize kvs : Z := key_count kvs.

Definition kvstoreBuckets kvs : outcome Z :=
  if negb (num_dicts kvs =? 1) then Ret (bucket_count kvs)
  else d ← kvstoreGetDict kvs 0; Ret (match d with Some d => dictBuckets d | None => 0 end).

Definition kvstoreNumNonEmptyDicts kvs : Z := non_empty_dicts kvs.
Definition kvstoreNumAllocatedDicts kvs : Z := allocated_dicts kvs.
Definition kvstoreNumDicts kvs : Z := num_dicts kvs.
Definition kvstoreDictRehashingCount kvs : Z := Zlen (rehashing kvs).
Definition kvstoreOverheadHashtableLut kvs : Z := u64 (bucket_count kvs * 8).
Definition kvstoreOverheadHashtableRehashing kvs : Z := u64 (overhead_hashtable_rehashing kvs * 8).

(** ** Finding dicts by the number of their keys *)

Definition kvstoreFindDictIndexByKeyIndex kvs (target : Z) : outcome Z :=
  if (num_dicts kvs =? 1) || (kvstoreSize kvs =? 0) then Ret 0 else
  _ ← c_assert (target <=? kvstoreSize kvs);
  match dict_sizes kvs with Some ft => fwTreeFindIndex ft target | None => OutOfBounds end.

Definition kvstoreGetFirstNonEmptyDictIndex kvs : outcome Z :=
  if kvstoreSize kvs =? 0 then Ret (-1) else
  if num_dicts kvs =? 1 then Ret 0 else
  match dict_sizes kvs with Some ft => fwTreeFindFirstNonEmpty ft | None => OutOfBounds end.

Definition kvstoreGetNextNonEmptyDictIndex kvs (didx : Z) : outcome Z :=
  if num_dicts kvs =? 1 then _ ← c_assert (didx =? 0); Ret (-1)
  else fwTreeFindNextNonEmpty (dict_sizes kvs) didx.

(** The fair attempts, one for each value of [randomULong] in [randoms]. *)
Fixpoint fair_attempts kvs (skip_cb : option (Z -> bool)) (randoms : list Z) : outcome (option Z) :=
  match randoms with
  | [] => Ret None
  | random :: randoms =>
    didx ← kvstoreFindDictIndexByKeyIndex kvs (random mod kvstoreSize kvs + 1);
    if match skip_cb with Some f => f didx | None => false end then fair_attempts kvs skip_cb randoms
    else Ret (Some didx)
  end.

Fixpoint systematic_check kvs (skip_cb : option (Z -> bool)) (n : nat) (start i : Z) : outcome Z :=
  match n with
  | O => Ret (-1)
  | S n =>
    let didx := (start + i) mod num_dicts kvs in
    d ← kvstoreGetDict kvs didx;
    if bool_decide (d <> None) && negb (match skip_cb with Some f => f didx | None => false end) then Ret didx
    else systematic_check kvs skip_cb n start (i + 1)
  end.

(** [fair] has one random value per attempt; [start] is the last one drawn. *)
Definition kvstoreGetFairRandomDictIndex kvs (skip_cb : option (Z -> bool)) (fair : list Z) (start : Z)
  (slow_fallback : bool) : outcome Z :=
  if (num_dicts kvs =? 1) || (kvstoreSize kvs =? 0) then Ret 0 else
  r ← fair_attempts kvs skip_cb fair;
  match r with
  | Some didx => Ret didx
  | None =>
    if slow_fallback then
      systematic_check kvs skip_cb (Z.to_nat (num_dicts kvs)) (s32 (start mod num_dicts kvs)) 0
    else Ret (-1)
  end.

(** ** Scanning *)

(** [None] is a NULL [skip_cb]. *)
Definition kvstoreScan kvs (cursor onlydidx : Z) (skip_cb : option (dict -> Z -> bool))
  : outcome (kvstore * Z * list (SK * option V)) :=
  let '(didx, cursor) := getAndClearDictIndexFromCursor kvs cursor in
  if (0 <=? onlydidx) && (onlydidx <? didx) then Ret (kvs, 0, []) else
  '(didx, cursor) ← (if (0 <=? onlydidx) && (didx <? onlydidx)
                     then _ ← c_assert (onlydidx <? num_dicts kvs); Ret (onlydidx, 0)
                     else Ret (didx, cursor));
  d ← kvstoreGetDict kvs didx;
  let skip := match d with
              | None => true
              | Some d => match skip_cb with Some f => f d didx | None => false end
              end in
  '(kvs, _cursor, out) ←
    match d with
    | Some d =>
      if skip then Ret (kvs, 0, []) else
      '(d, _cursor, out) ← dictScan d cursor;
      kvs ← dict_done kvs didx d;
      kvs ← freeDictIfNeeded kvs didx;
      Ret (kvs, _cursor, out)
    | None => Ret (kvs, 0, [])
    end;
  if (_cursor =? 0) || skip then
    if 0 <=? onlydidx then Ret (kvs, 0, out) else
    didx ← kvstoreGetNextNonEmptyDictIndex kvs didx;
    if didx =? -1 then Ret (kvs, 0, out) else Ret (kvs, addDictIndexToCursor kvs didx _cursor, out)
  else Ret (kvs, addDictIndexToCursor kvs didx _cursor, out).

(** ** Resizing and rehashing *)

(** [avail i] tells whether the allocation for dict [i] succeeds (when it may fail). *)
Fixpoint expand_dicts (n : nat) (i : Z) kvs (newsize : Z) (try_expand : bool) (avail : Z -> bool)
  (skip_cb : option (Z -> bool)) : outcome (kvstore * bool) :=
  match n with
  | O => Ret (kvs, true)
  | S n =>
    if match skip_cb with Some f => f i | None => false end
    then expand_dicts n (i + 1) kvs newsize try_expand avail skip_cb else
    '(kvs, d) ← createDictIfNeeded kvs i;
    '(d, result) ← (if try_expand then dictTryExpand type can_resize d newsize (avail i)
                    else dictExpand type can_resize d newsize);
    kvs ← dict_done kvs i d;
    if try_expand && negb result then Ret (kvs, false)
    else expand_dicts n (i + 1) kvs newsize try_expand avail skip_cb
  end.

Definition kvstoreExpand kvs (newsize : Z) (try_expand : bool) (avail : Z -> bool) (skip_cb : option (Z -> bool))
  : outcome (kvstore * bool) :=
  expand_dicts (Z.to_nat (num_dicts kvs)) 0 kvs newsize try_expand avail skip_cb.

Definition kvstoreDictExpand kvs (didx size : Z) : outcome (kvstore * bool) :=
  '(kvs, d) ← createDictIfNeeded kvs didx;
  '(d, result) ← dictExpand type can_resize d size;
  kvs ← dict_done kvs didx d;
  Ret (kvs, result).

Fixpoint try_resize (n : nat) kvs : outcome kvstore :=
  match n with
  | O => Ret kvs
  | S n =>
    let didx := resize_cursor kvs in
    d ← kvstoreGetDict kvs didx;
    kvs ← match d with
          | None => Ret kvs
          | Some d =>
            '(d, ok) ← dictShrinkIfNeeded type can_resize d;
            '(d, _) ← (if (ok : bool) then Ret (d, true) else dictExpandIfNeeded type can_resize d);
            dict_done kvs didx d
          end;
    try_resize n (set_resize_cursor kvs (Z.rem (s32 (didx + 1)) (num_dicts kvs)))
  end.

Definition kvstoreTryResizeDicts kvs (limit : Z) : outcome kvstore :=
  let limit := if num_dicts kvs <? limit then num_dicts kvs else limit in
  try_resize (Z.to_nat limit) kvs.

(** The loop of [dictRehashMicroseconds]: the time is over after [calls] calls. *)
Fixpoint rehash_until (calls : nat) d : outcome dict :=
  match calls with
  | O => Ret d
  | S calls => '(d, more) ← dictRehash type can_resize d 100; if (more : bool) then rehash_until calls d else Ret d
  end.

Definition dictRehashMicroseconds d (calls : nat) : outcome dict :=
  if 0 <? pauserehash d then Ret d else rehash_until (S calls) d.

(** One count of calls for each dict there is time for. *)
Fixpoint kvstoreIncrementallyRehash kvs (times : list nat) : outcome kvstore :=
  match times with
  | [] => Ret kvs
  | calls :: times =>
    match rehashing kvs with
    | [] => Ret kvs
    | didx :: _ =>
      d ← kvstoreGetDict kvs didx;
      match d with
      | None => OutOfBounds
      | Some d =>
        d ← dictRehashMicroseconds d calls;
        kvs ← dict_done kvs didx d;
        kvstoreIncrementallyRehash kvs times
      end
    end
  end.

(** ** Keys *)

Definition kvstoreDictFetchValue kvs (didx : Z) (key : K) : outcome (kvstore * option V) :=
  d ← kvstoreGetDict kvs didx;
  match d with
  | None => Ret (kvs, None)
  | Some d =>
    _ ← c_assert (negb (no_value type));
    '(d, v) ← dictFetchValue type can_resize d key;
    kvs ← dict_done kvs didx d;
    Ret (kvs, v)
  end.

Definition kvstoreDictFind kvs (didx : Z) (key : K) : outcome (kvstore * dictEntry) :=
  d ← kvstoreGetDict kvs didx;
  match d with
  | None => Ret (kvs, DNull)
  | Some d => '(d, de) ← dictFind type can_resize d key; kvs ← dict_done kvs didx d; Ret (kvs, de)
  end.

Definition kvstoreDictFindLink kvs (didx : Z) (key : K) (want_bucket : bool)
  : outcome (kvstore * option dictEntryLink * option dictEntryLink) :=
  d ← kvstoreGetDict kvs didx;
  match d with
  | None => Ret (kvs, None, None)
  | Some d =>
    '(d, link, bucket) ← dictFindLink type can_resize d key want_bucket;
    kvs ← dict_done kvs didx d;
    Ret (kvs, link, bucket)
  end.

(** The store and [*link] on return. *)
Definition kvstoreDictSetAtLink kvs (didx : Z) (kv : SK) (link : option dictEntryLink) (newItem : bool)
  : outcome (kvstore * dictEntryLink) :=
  if newItem then
    '(kvs, d) ← createDictIfNeeded kvs didx;
    '(d, link) ← dictSetKeyAtLink type can_resize as_key d kv link newItem;
    kvs ← dict_done kvs didx d;
    kvs ← cumulativeKeyCountAdd kvs didx 1;
    Ret (kvs, link)
  else
    d ← kvstoreGetDict kvs didx;
    match d with
    | None => OutOfBounds
    | Some d =>
      '(d, link) ← dictSetKeyAtLink type can_resize as_key d kv link newItem;
      kvs ← dict_done kvs didx d;
      Ret (kvs, link)
    end.

(** The link of the new entry, or of the existing one. *)
Definition kvstoreDictAddRaw kvs (didx : Z) (key : SK) : outcome (kvstore * (dictEntryLink + dictEntryLink)) :=
  '(kvs, d) ← createDictIfNeeded kvs didx;
  '(d, ret) ← dictAddRaw type can_resize d key;
  kvs ← dict_done kvs didx d;
  match ret with
  | inl entry => kvs ← cumulativeKeyCountAdd kvs didx 1; Ret (kvs, inl entry)
  | inr existing => Ret (kvs, inr existing)
  end.

Definition kvstoreDictSetVal kvs (didx : Z) (de : dictEntryLink) (val : V) : outcome kvstore :=
  d ← kvstoreGetDict kvs didx;
  match d with
  | None => OutOfBounds
  | Some d => _ ← c_assert (negb (no_value type)); d ← set_val_at type d de val; dict_done kvs didx d
  end.

Definition kvstoreDictTwoPhaseUnlinkFind kvs (didx : Z) (key : K) : outcome (kvstore * option dictEntryLink) :=
  d ← kvstoreGetDict kvs didx;
  match d with
  | None => Ret (kvs, None)
  | Some d =>
    '(d, link) ← dictTwoPhaseUnlinkFind type can_resize d key;
    kvs ← dict_done kvs didx d;
    Ret (kvs, link)
  end.

Definition kvstoreDictTwoPhaseUnlinkFree kvs (didx : Z) (link : option dictEntryLink) : outcome kvstore :=
  d ← kvstoreGetDict kvs didx;
  match d with
  | None => OutOfBounds
  | Some d =>
    d ← dictTwoPhaseUnlinkFree type can_resize d link;
    kvs ← dict_done kvs didx d;
    kvs ← cumulativeKeyCountAdd kvs didx (-1);
    freeDictIfNeeded kvs didx
  end.

Definition kvstoreDictDelete kvs (didx : Z) (key : K) : outcome (kvstore * bool) :=
  d ← kvstoreGetDict kvs didx;
  match d with
  | None => Ret (kvs, false)
  | Some d =>
    '(d, ok) ← dictDelete type can_resize d key;
    kvs ← dict_done kvs didx d;
    if (ok : bool) then
      kvs ← cumulativeKeyCountAdd kvs didx (-1);
      kvs ← freeDictIfNeeded kvs didx;
      Ret (kvs, true)
    else Ret (kvs, false)
  end.

(** ** Moving a dict to another store *)

Definition kvstoreMoveDict kvs (dst : kvstore) (didx : Z) : outcome (kvstore * kvstore) :=
  _ ← c_assert (didx <? num_dicts kvs);
  _ ← c_assert (num_dicts kvs =? num_dicts dst);
  there ← kvstoreGetDict dst didx;
  _ ← c_assert (bool_decide (there = None));
  d ← kvstoreGetDict kvs didx;
  match d with
  | None => Ret (kvs, dst)
  | Some d =>
    let kvs := add_allocated kvs (-1) in
    kvs ← cumulativeKeyCountAdd kvs didx (- s64 (dictSize d));
    let kvs := kvstoreDictBucketChanged kvs (- s64 (dictBuckets d)) in
    let from := DICTHT_SIZE (ht_size_exp (ht0 d)) in
    let kvs := if dictIsRehashing d then kvstoreDictRehashingCompleted kvs didx from else kvs in
    let node := get_node kvs didx in
    let kvs := set_slot kvs didx None in
    kvs ← (if negb (has_flag (flags kvs) (Z.lor KVSTORE_ALLOCATE_DICTS_ON_DEMAND KVSTORE_FREE_EMPTY_DICTS))
           then '(kvs, _) ← createDictIfNeeded kvs didx; Ret kvs else Ret kvs);
    let dst := add_allocated (set_slot dst didx (Some (d, node))) 1 in
    dst ← cumulativeKeyCountAdd dst didx (s64 (dictSize d));
    let dst := kvstoreDictBucketChanged dst (s64 (dictBuckets d)) in
    let dst := if dictIsRehashing d then kvstoreDictRehashingStarted dst didx from else dst in
    Ret (kvs, dst)
  end.
End kvstore.
