(* ===== verification/KvstoreInv.v ===== *)
(** * KvstoreInv: the invariant of the kvstore

    [kv_base] ties the counters of dicts, buckets and rehashings, and the list of
    dicts being rehashed, to the slots: replaying the events of any dict
    operation keeps it ([dict_done_spec]).  [kv_rep] says that the slots hold a
    list of maps and that the counters of keys and the Fenwick tree are those of
    the maps. *)

From stdpp Require Import countable sets fin_maps gmap.
From S2P Require Import Prelude Memory Fwtree Dict DictInv DictSpec DictScan DictLink DictFrame Kvstore.

(** ** Measures of a slot *)

Section measures.
Context {SK V : Type}.
Abbreviation dict := (dict SK V).
Abbreviation slot := (option (dict * bool)).
Implicit Types (s : slot) (l : list slot).

Definition slot_size s : Z := match s with Some (d, _) => dictSize d | None => 0 end.
Definition slot_buckets s : Z :=
  match s with Some (d, _) => DICTHT_SIZE (ht_size_exp (ht0 d)) + DICTHT_SIZE (ht_size_exp (ht1 d)) | None => 0 end.
(** The size of the table its dict is leaving, -1 when there is none. *)
Definition slot_state s : Z := match s with Some (d, _) => rehash_state d | None => -1 end.
Definition slot_overhead s : Z := Z.max 0 (slot_state s).
Definition slot_alloc s : Z := match s with Some _ => 1 | None => 0 end.

(** Sums over the slots. *)
Definition ksum (f : slot -> Z) l : Z := zsum (f <$> l).

Lemma ksum_insert f l i s s' : l !! i = Some s -> ksum f (<[i := s']> l) = ksum f l - f s + f s'.
Proof. intros H. unfold ksum. rewrite list_fmap_insert. apply zsum_insert. by rewrite list_lookup_fmap, H. Qed.

Lemma ksum_count f l : (forall s, 0 <= f s <= 1) -> 0 <= ksum f l <= Zlen l.
Proof.
  intros Hf. unfold ksum. induction l as [|s l IH]; [done|]. rewrite Zlen_cons. cbn. specialize (Hf s). lia.
Qed.

Lemma ksum_replicate f s n : ksum f (replicate n s) = Z.of_nat n * f s.
Proof. unfold ksum. induction n as [|n IH]; [done|]. cbn in *. lia. Qed.
End measures.

(** ** Lists of the dicts being rehashed *)

Lemma existsb_elem x (l : list Z) : existsb (Z.eqb x) l = true <-> x ∈ l.
Proof.
  rewrite existsb_exists. split.
  - intros (y & Hy & E). apply Z.eqb_eq in E as ->. by apply list_elem_of_In.
  - intros H. exists x. split; [by apply list_elem_of_In|apply Z.eqb_refl].
Qed.

Lemma list_del_last_spec x l : NoDup l -> NoDup (list_del_last x l) /\ forall y, y ∈ list_del_last x l <-> y <> x /\ y ∈ l.
Proof.
  induction l as [|z l IH]; intros Hn; cbn [list_del_last].
  - split; [done|]. intros y. rewrite elem_of_nil. tauto.
  - apply list.NoDup_cons in Hn as [Hz Hn]. specialize (IH Hn) as [IH1 IH2]. destruct (Z.eqb_spec z x) as [->|Hne]; cbn [andb].
    + destruct (existsb (Z.eqb x) l) eqn:E; [by apply existsb_elem in E|]. cbn [negb]. split; [done|].
      intros y. rewrite elem_of_cons. split; [intros Hy; split; [by intros ->|by right]|]. intros [? [->|?]]; done.
    + split.
      * apply list.NoDup_cons. split; [|done]. rewrite IH2. tauto.
      * intros y. rewrite !elem_of_cons, IH2. split; [intros [->|?]|]; tauto.
Qed.

Lemma wrapu_add_l w a b : wrapu w (wrapu w a + b) = wrapu w (a + b).
Proof. unfold wrapu. apply Zplus_mod_idemp_l. Qed.

Lemma wrapu_wrapu w a : wrapu w (wrapu w a) = wrapu w a.
Proof. unfold wrapu. apply Zmod_mod. Qed.

(** ** Replaying the events of a dict *)

Section replay.
Context {SK V : Type}.
Abbreviation dict := (dict SK V).
Abbreviation kvstore := (kvstore SK V).
Implicit Types (kvs : kvstore) (d : dict).

(** The fields the callbacks and the slot updates change. *)
Definition kv_upd kvs didx s R overhead buckets : kvstore :=
  Build_kvstore (flags kvs) (<[Z.to_nat didx := s]> (dicts kvs)) (num_dicts kvs) (num_dicts_bits kvs) R (resize_cursor kvs)
    (allocated_dicts kvs) (non_empty_dicts kvs) (key_count kvs) buckets (dict_sizes kvs) overhead.

Lemma kv_upd_id kvs didx s : dicts kvs !! Z.to_nat didx = Some s ->
  kv_upd kvs didx s (rehashing kvs) (overhead_hashtable_rehashing kvs) (bucket_count kvs) = kvs.
Proof.
  intros H. unfold kv_upd. rewrite list_insert_id by done. by destruct kvs.
Qed.

Lemma kv_upd_upd kvs didx s s' R R' o o' b b' : kv_upd (kv_upd kvs didx s R o b) didx s' R' o' b' = kv_upd kvs didx s' R' o' b'.
Proof. unfold kv_upd at 1. cbn. by rewrite list_insert_insert_eq. Qed.

Lemma kv_upd_slot kvs didx s R o b : (Z.to_nat didx < length (dicts kvs))%nat -> dicts (kv_upd kvs didx s R o b) !! Z.to_nat didx = Some s.
Proof. intros H. cbn. by apply list_lookup_insert_eq. Qed.

(** One event; the node is set when a rehashing is in progress. *)
Lemma dict_event_spec kvs didx d st e : let node s := bool_decide (0 <= s) in
  dicts kvs !! Z.to_nat didx = Some (Some (d, node st)) -> -1 <= st -> -1 <= ev_step st e ->
  0 <= overhead_hashtable_rehashing kvs < 2 ^ 64 -> 0 <= bucket_count kvs < 2 ^ 64 ->
  NoDup (rehashing kvs) -> (didx ∈ rehashing kvs <-> 0 <= st) ->
  exists R, dict_event didx kvs e = kv_upd kvs didx (Some (d, node (ev_step st e))) R
      (u64 (overhead_hashtable_rehashing kvs + Z.max 0 (ev_step st e) - Z.max 0 st)) (u64 (bucket_count kvs + log_buckets [e])) /\
    NoDup R /\ (didx ∈ R <-> 0 <= ev_step st e) /\ forall i, i <> didx -> (i ∈ R <-> i ∈ rehashing kvs).
Proof.
  intros node Hs Hst Hst' Ho Hb Hn Hin.
  assert (forall y, ev_step st y = st -> log_buckets [y] = 0 -> dict_event didx kvs y = kvs -> exists R, dict_event didx kvs y =
    kv_upd kvs didx (Some (d, node (ev_step st y))) R (u64 (overhead_hashtable_rehashing kvs + Z.max 0 (ev_step st y) - Z.max 0 st))
      (u64 (bucket_count kvs + log_buckets [y])) /\
    NoDup R /\ (didx ∈ R <-> 0 <= ev_step st y) /\ forall i, i <> didx -> (i ∈ R <-> i ∈ rehashing kvs)) as Hskip.
  { intros y -> -> ->. exists (rehashing kvs). split; [|done].
    rewrite Z.add_simpl_r, Z.add_0_r, !wrapu_id by done. by rewrite kv_upd_id. }
  destruct e as [from|from|delta|k|v]; [| | |by apply Hskip..]; clear Hskip.
  - cbn [ev_step log_buckets dict_event] in *. unfold kvstoreDictRehashingStarted.
    destruct (Z.eqb_spec st (-1)) as [->|]; [|cbn in Hst'; lia]. destruct (Z.leb_spec 0 from); [|cbn in Hst'; lia]. cbn [andb] in *.
    exists (rehashing kvs ++ [didx]). split_and!.
    + unfold set_node. cbn [dicts set_rehashing]. rewrite Hs. unfold node. rewrite bool_decide_true by done.
      rewrite Z.max_r, Z.max_l, Z.sub_0_r, Z.add_0_r, (wrapu_id _ (bucket_count kvs)) by lia. done.
    + apply list.NoDup_app. split; [done|]. split; [|by apply NoDup_singleton]. intros i Hi. rewrite list_elem_of_singleton. intros ->.
      apply Hin in Hi. lia.
    + rewrite elem_of_app, list_elem_of_singleton. tauto.
    + intros i Hi. rewrite elem_of_app, list_elem_of_singleton. tauto.
  - cbn [ev_step log_buckets dict_event] in *. unfold kvstoreDictRehashingCompleted.
    destruct (Z.leb_spec 0 st); [|cbn in Hst'; lia]. destruct (Z.eqb_spec st from) as [<-|]; [|cbn in Hst'; lia]. cbn [andb] in *.
    destruct (list_del_last_spec didx (rehashing kvs) Hn) as [HnR HR].
    unfold get_node. rewrite Hs. unfold node. rewrite bool_decide_true by done.
    exists (list_del_last didx (rehashing kvs)). split_and!.
    + unfold set_node. cbn [dicts set_rehashing]. rewrite Hs. rewrite bool_decide_false by lia.
      rewrite Z.max_l, Z.max_r, !Z.add_0_r, (wrapu_id _ (bucket_count kvs)) by lia. done.
    + done.
    + rewrite HR. split; [tauto|lia].
    + intros i Hi. rewrite HR. tauto.
  - cbn [ev_step log_buckets dict_event] in *. exists (rehashing kvs). split; [|done].
    rewrite Z.add_simpl_r, Z.add_0_r, (wrapu_id _ (overhead_hashtable_rehashing kvs)) by done.
    unfold kv_upd. by rewrite list_insert_id.
Qed.

Lemma replay_spec didx d evs : forall kvs st, let node s := bool_decide (0 <= s) in let st' := foldl ev_step st evs in
  dicts kvs !! Z.to_nat didx = Some (Some (d, node st)) -> -1 <= st -> -1 <= st' ->
  0 <= overhead_hashtable_rehashing kvs < 2 ^ 64 -> 0 <= bucket_count kvs < 2 ^ 64 ->
  NoDup (rehashing kvs) -> (didx ∈ rehashing kvs <-> 0 <= st) ->
  exists R, foldl (dict_event didx) kvs evs = kv_upd kvs didx (Some (d, node st')) R
      (u64 (overhead_hashtable_rehashing kvs + Z.max 0 st' - Z.max 0 st)) (u64 (bucket_count kvs + log_buckets evs)) /\
    NoDup R /\ (didx ∈ R <-> 0 <= st') /\ forall i, i <> didx -> (i ∈ R <-> i ∈ rehashing kvs).
Proof.
  induction evs as [|e evs IH]; intros kvs st node st' Hs Hst Hst' Ho Hb Hn Hin; cbn [foldl] in *.
  - exists (rehashing kvs). split; [|done]. subst st'. cbn [log_buckets].
    rewrite Z.add_simpl_r, Z.add_0_r, !wrapu_id by done. by rewrite kv_upd_id.
  - assert (-1 <= ev_step st e) as Hst1.
    { destruct (Z.le_gt_cases (-1) (ev_step st e)) as [|Hp]; [done|]. exfalso.
      assert (ev_step st e = -2) as E.
      { destruct e; cbn [ev_step] in *; repeat case_match; try lia. }
      subst st'. rewrite E in Hst'. clear -Hst'. induction evs as [|[] evs IH]; cbn in *; try lia; auto. }
    destruct (dict_event_spec kvs didx d st e Hs Hst Hst1 Ho Hb Hn Hin) as (R1 & E1 & Hn1 & Hin1 & Hr1).
    assert (Z.to_nat didx < length (dicts kvs))%nat as Hlt by (by eapply lookup_lt_Some).
    destruct (IH (dict_event didx kvs e) (ev_step st e)) as (R & E & HnR & HinR & HR); try done.
    { rewrite E1. by apply kv_upd_slot. }
    { rewrite E1. by apply wrapu_range. }
    { rewrite E1. by apply wrapu_range. }
    { by rewrite E1. }
    { by rewrite E1. }
    exists R. split; [|split; [done|split; [done|]]].
    + rewrite E, E1, kv_upd_upd. cbn [overhead_hashtable_rehashing bucket_count kv_upd]. f_equal.
      * rewrite <- Z.add_sub_assoc, wrapu_add_l. f_equal. subst st'. lia.
      * rewrite wrapu_add_l. f_equal. change (e :: evs) with ([e] ++ evs). rewrite log_buckets_app. lia.
    + intros i Hi. rewrite (HR i Hi), E1. by apply Hr1.
Qed.
End replay.
(** ** The invariant *)

Section invariant.
Context {K SK V : Type} (type : dictType K SK V).
Context {C : Type} (canon : K -> C) `{!EqDecision C, !Countable C, !DictKeys type canon}.
Context (canFreeDict : option (kvstore SK V -> Z -> bool)).
Abbreviation dict := (dict SK V).
Abbreviation kvstore := (kvstore SK V).
Abbreviation slot := (option (dict * bool)).
Implicit Types (kvs : kvstore) (d : dict) (s : slot).

Definition dict_ok d : Prop := dict_wf type canon d /\ 0 <= pauserehash d < 2 ^ 32 /\ pauseAutoResize d = 0.

Definition slot_ok s : Prop := match s with Some (d, node) => dict_ok d /\ node = dictIsRehashing d | None => True end.

(** The counters of dicts, buckets and rehashings are those of the slots. *)
Record kv_base kvs : Prop := {
  kb_bits : 0 <= num_dicts_bits kvs <= 16;
  kb_num : num_dicts kvs = 2 ^ num_dicts_bits kvs;
  kb_len : Zlen (dicts kvs) = num_dicts kvs;
  kb_slots : forall i s, dicts kvs !! i = Some s -> slot_ok s;
  kb_alloc : allocated_dicts kvs = ksum slot_alloc (dicts kvs);
  kb_buckets : bucket_count kvs = u64 (ksum slot_buckets (dicts kvs));
  kb_overhead : overhead_hashtable_rehashing kvs = u64 (ksum slot_overhead (dicts kvs));
  kb_nodup : NoDup (rehashing kvs);
  kb_rehashing : forall i, i ∈ rehashing kvs <-> 0 <= i /\ exists s, dicts kvs !! Z.to_nat i = Some s /\ 0 <= slot_state s;
  kb_cursor : 0 <= resize_cursor kvs < num_dicts kvs;
}.

(** What an operation of a dict does not change. *)
Record kept kvs kvs' : Prop := {
  kp_flags : flags kvs' = flags kvs;
  kp_num : num_dicts kvs' = num_dicts kvs;
  kp_bits : num_dicts_bits kvs' = num_dicts_bits kvs;
  kp_cursor : resize_cursor kvs' = resize_cursor kvs;
  kp_non_empty : non_empty_dicts kvs' = non_empty_dicts kvs;
  kp_keys : key_count kvs' = key_count kvs;
  kp_sizes : dict_sizes kvs' = dict_sizes kvs;
}.

#[export] Instance kept_preorder : PreOrder kept.
Proof. split; [done|]. intros k1 k2 k3 [] []. split; congruence. Qed.

Lemma num_dicts_range kvs : kv_base kvs -> 1 <= num_dicts kvs <= 2 ^ 16.
Proof. intros [Hb -> _ _ _ _ _ _ _ _]. split; [lia|]. apply Z.pow_le_mono_r; lia. Qed.

Lemma node_state d : dictIsRehashing d = bool_decide (0 <= rehash_state d).
Proof.
  unfold rehash_state. destruct (dictIsRehashing d); [|done]. pose proof (DICTHT_SIZE_nonneg (ht_size_exp (ht0 d))).
  by rewrite bool_decide_true.
Qed.

Lemma state_range d : -1 <= rehash_state d.
Proof. unfold rehash_state. pose proof (DICTHT_SIZE_nonneg (ht_size_exp (ht0 d))). destruct (dictIsRehashing d); lia. Qed.

Lemma slot_get kvs didx : kv_base kvs -> 0 <= didx < num_dicts kvs -> exists s, dicts kvs !! Z.to_nat didx = Some s /\ slot_ok s.
Proof.
  intros Hb Hi. pose proof (kb_len _ Hb) as Hl. unfold Zlen in Hl.
  destruct (lookup_lt_is_Some_2 (dicts kvs) (Z.to_nat didx)) as [s Hs]; [lia|]. exists s. split; [done|]. by eapply kb_slots.
Qed.

Lemma GetDict_slot kvs didx s : 0 <= didx -> dicts kvs !! Z.to_nat didx = Some s -> kvstoreGetDict kvs didx = Ret (slot_dict s).
Proof. intros Hi Hs. unfold kvstoreGetDict. by rewrite (rd_lookup _ _ s). Qed.

(** One slot changes. *)
Lemma kv_base_set kvs kvs' didx s s' : kv_base kvs -> 0 <= didx -> dicts kvs !! Z.to_nat didx = Some s -> slot_ok s' ->
  kept kvs kvs' -> dicts kvs' = <[Z.to_nat didx := s']> (dicts kvs) ->
  allocated_dicts kvs' = allocated_dicts kvs - slot_alloc s + slot_alloc s' ->
  bucket_count kvs' = u64 (bucket_count kvs - slot_buckets s + slot_buckets s') ->
  overhead_hashtable_rehashing kvs' = u64 (overhead_hashtable_rehashing kvs - slot_overhead s + slot_overhead s') ->
  NoDup (rehashing kvs') -> (didx ∈ rehashing kvs' <-> 0 <= slot_state s') ->
  (forall i, i <> didx -> (i ∈ rehashing kvs' <-> i ∈ rehashing kvs)) -> kv_base kvs'.
Proof.
  intros [Hb Hnum Hlen Hok Ha Hbk Ho Hnd Hre Hcu] Hi Hs Hok' [_ Kn Kb Kc _ _ _] Hd Ha' Hbk' Ho' Hnd' Hin Hother.
  split; rewrite ?Kn, ?Kb, ?Kc, ?Hd; try done.
  - by rewrite Zlen_insert.
  - intros i si. rewrite list_lookup_insert_Some. intros [(_ & <- & _)|[_ ?]]; [done|by eapply Hok].
  - rewrite (ksum_insert _ _ _ _ _ Hs). lia.
  - rewrite (ksum_insert _ _ _ _ _ Hs), Hbk', Hbk. rewrite <- Z.add_sub_swap, <- Z.add_sub_assoc, wrapu_add_l. f_equal. lia.
  - rewrite (ksum_insert _ _ _ _ _ Hs), Ho', Ho. rewrite <- Z.add_sub_swap, <- Z.add_sub_assoc, wrapu_add_l. f_equal. lia.
  - intros i. destruct (decide (i = didx)) as [->|Hne].
    + rewrite Hin, list_lookup_insert_eq by (by eapply lookup_lt_Some). split; [eauto|]. by intros (_ & ? & [= <-] & ?).
    + rewrite (Hother i Hne), Hre. split; intros (H0 & si & Hsi & Hst); (split; [done|]; exists si);
        [rewrite list_lookup_insert_ne by lia|rewrite list_lookup_insert_ne in Hsi by lia]; done.
Qed.

(** The state after the events of an operation on one dict and a slot update. *)
Lemma replay_kept kvs didx d node d2 evs s' : kv_base kvs -> 0 <= didx -> dicts kvs !! Z.to_nat didx = Some (Some (d, node)) ->
  foldl ev_step (rehash_state d) evs = slot_state s' -> slot_buckets s' = slot_buckets (Some (d, node)) + log_buckets evs -> slot_ok s' ->
  exists R, let kvs1 := foldl (dict_event didx) (set_slot kvs didx (Some (d2, node))) evs in
    kvs1 = kv_upd kvs didx (Some (d2, bool_decide (0 <= slot_state s'))) R
      (u64 (overhead_hashtable_rehashing kvs - slot_overhead (Some (d, node)) + slot_overhead s'))
      (u64 (bucket_count kvs - slot_buckets (Some (d, node)) + slot_buckets s')) /\
    NoDup R /\ (didx ∈ R <-> 0 <= slot_state s') /\ forall i, i <> didx -> (i ∈ R <-> i ∈ rehashing kvs).
Proof.
  intros Hb Hi Hs Hev Hbk Hok'. pose proof (kb_slots _ Hb _ _ Hs) as [_ ->]. rewrite node_state in *.
  assert (-1 <= slot_state s') as Hst' by (destruct s' as [[d' n']|]; [apply state_range|done]).
  destruct (replay_spec didx d2 evs (set_slot kvs didx (Some (d2, bool_decide (0 <= rehash_state d)))) (rehash_state d))
    as (R & E & HnR & HinR & HR).
  - cbn. apply list_lookup_insert_eq. by eapply lookup_lt_Some.
  - apply state_range.
  - by rewrite Hev.
  - cbn. rewrite (kb_overhead _ Hb). by apply wrapu_range.
  - cbn. rewrite (kb_buckets _ Hb). by apply wrapu_range.
  - cbn. apply Hb.
  - cbn. rewrite (kb_rehashing _ Hb). split; [|intros; split; [done|by eexists]]. intros (_ & s & Hs2 & Hst).
    rewrite Hs in Hs2. by injection Hs2 as <-.
  - exists R. cbv zeta. rewrite E. rewrite Hev in *. split; [|done]. unfold kv_upd. cbn. rewrite list_insert_insert_eq.
    rewrite Hbk. cbn. f_equal; f_equal; unfold slot_overhead, slot_state; lia.
Qed.

Lemma new_events d d' : dict_wf type canon d -> dict_wf type canon d' -> grows d d' ->
  exists evs, drop (length (d_log d)) (d_log d') = evs /\ foldl ev_step (rehash_state d) evs = rehash_state d' /\
    slot_buckets (Some (d', true)) = slot_buckets (Some (d, true)) + log_buckets evs.
Proof.
  intros Hw Hw' [evs Hl]. exists evs. split; [by rewrite Hl, drop_app_length|].
  rewrite <- (wf_log_rehashing _ _ _ Hw), <- (wf_log_rehashing _ _ _ Hw'), Hl, log_rehashing_app. split; [done|].
  cbn. rewrite <- (wf_log_buckets _ _ _ Hw), <- (wf_log_buckets _ _ _ Hw'), Hl. apply log_buckets_app.
Qed.

(** [kvs'] is [kvs] with the slot [s'] at [didx]. *)
Definition kv_step kvs didx s' kvs' : Prop :=
  kv_base kvs' /\ kept kvs kvs' /\ dicts kvs' = <[Z.to_nat didx := s']> (dicts kvs).

Lemma dict_done_spec kvs didx d node d' : kv_base kvs -> 0 <= didx -> dicts kvs !! Z.to_nat didx = Some (Some (d, node)) ->
  grows d d' -> dict_ok d' ->
  exists kvs', dict_done kvs didx d' = Ret kvs' /\ kv_step kvs didx (Some (d', dictIsRehashing d')) kvs'.
Proof.
  intros Hb Hi Hs Hg Hok'. pose proof (kb_slots _ Hb _ _ Hs) as [[Hw _] Hnode].
  destruct (new_events d d' Hw (proj1 Hok') Hg) as (evs & Hdrop & Hev & Hbk).
  assert (slot_ok (Some (d', dictIsRehashing d'))) as Hslot by done.
  destruct (replay_kept kvs didx d node d' evs (Some (d', dictIsRehashing d')) Hb Hi Hs Hev Hbk Hslot) as (R & E & HnR & HinR & HR).
  unfold dict_done. rewrite (rd_lookup _ _ _ Hi Hs), ret_bind, Hdrop, E. eexists. split; [done|].
  assert (bool_decide (0 <= slot_state (Some (d', dictIsRehashing d'))) = dictIsRehashing d') as -> by (by rewrite (node_state d')).
  split; [|done]. apply (kv_base_set kvs _ didx (Some (d, node)) (Some (d', dictIsRehashing d'))); try done. cbn. lia.
Qed.

(** A dict on demand. *)
Lemma dictCreate_ok : dict_ok dictCreate.
Proof. split; [apply dictCreate_wf|done]. Qed.

Definition slot_or_new s : dict := match s with Some (d, _) => d | None => dictCreate end.

Lemma slot_or_new_ok s : slot_ok s -> dict_ok (slot_or_new s).
Proof. destruct s as [[d node]|]; [by intros [? _]|intros _; apply dictCreate_ok]. Qed.

Lemma createDictIfNeeded_spec kvs didx s : kv_base kvs -> 0 <= didx -> dicts kvs !! Z.to_nat didx = Some s ->
  exists kvs', createDictIfNeeded kvs didx = Ret (kvs', slot_or_new s) /\
    kv_step kvs didx (Some (slot_or_new s, dictIsRehashing (slot_or_new s))) kvs'.
Proof.
  intros Hb Hi Hs. unfold createDictIfNeeded. rewrite (GetDict_slot _ _ _ Hi Hs), ret_bind.
  destruct s as [[d node]|]; cbn [slot_dict slot_or_new].
  - exists kvs. split; [done|]. split; [done|]. split; [done|]. pose proof (kb_slots _ Hb _ _ Hs) as [_ <-]. by rewrite list_insert_id.
  - eexists. split; [done|]. split; [|done]. apply (kv_base_set kvs _ didx None (Some (dictCreate, false))); try done.
    + split; [apply dictCreate_ok|done].
    + cbn [allocated_dicts add_allocated set_slot set_dicts slot_alloc]. rewrite wraps_id; [lia..|].
      pose proof (kb_alloc _ Hb). pose proof (kb_len _ Hb). pose proof (num_dicts_range _ Hb).
      pose proof (ksum_count slot_alloc (dicts kvs) ltac:(by intros [?|])). lia.
    + cbn. rewrite Z.sub_0_r. change (_ + _) with (bucket_count kvs + 0). rewrite Z.add_0_r, (kb_buckets _ Hb). by rewrite wrapu_wrapu.
    + cbn. rewrite Z.sub_0_r. change (_ + _) with (overhead_hashtable_rehashing kvs + 0). rewrite Z.add_0_r, (kb_overhead _ Hb). by rewrite wrapu_wrapu.
    + apply Hb.
    + cbn. rewrite (kb_rehashing _ Hb). split; [|done]. intros (_ & s & Hs2 & Hst). rewrite Hs in Hs2. by injection Hs2 as <-.
Qed.

(** The dict at [didx] is released. *)
Lemma dictRelease_events d : dict_wf type canon d -> exists evs, drop (length (d_log d)) (d_log (dictRelease d)) = evs /\
  foldl ev_step (rehash_state d) evs = -1 /\ 0 = slot_buckets (Some (d, true)) + log_buckets evs.
Proof.
  intros Hw. destruct (dictEmpty_spec type canon d Hw) as (log & He & Hw' & _).
  assert (grows d (dictEmpty d)) as Hg by apply dictEmpty_grows.
  destruct (new_events d (dictEmpty d) Hw Hw' Hg) as (evs & Hd & Hev & Hbk). exists evs. split; [done|].
  rewrite He in Hev, Hbk. by split.
Qed.

Lemma release_spec kvs didx d node : kv_base kvs -> 0 <= didx -> dicts kvs !! Z.to_nat didx = Some (Some (d, node)) ->
  exists kvs', dict_done kvs didx (dictRelease d) = Ret kvs' /\ kv_step kvs didx None (add_allocated (set_slot kvs' didx None) (-1)).
Proof.
  intros Hb Hi Hs. pose proof (kb_slots _ Hb _ _ Hs) as [[Hw _] Hnode].
  destruct (dictRelease_events d Hw) as (evs & Hdrop & Hev & Hbk).
  destruct (replay_kept kvs didx d node (dictRelease d) evs None Hb Hi Hs Hev Hbk I) as (R & E & HnR & HinR & HR).
  unfold dict_done. rewrite (rd_lookup _ _ _ Hi Hs), ret_bind, Hdrop, E. eexists. split; [done|].
  assert (dicts (add_allocated (set_slot (kv_upd kvs didx (Some (dictRelease d, bool_decide (0 <= slot_state (@None (dict * bool))))) R
      (u64 (overhead_hashtable_rehashing kvs - slot_overhead (Some (d, node)) + slot_overhead (@None (dict * bool))))
      (u64 (bucket_count kvs - slot_buckets (Some (d, node)) + slot_buckets (@None (dict * bool))))) didx None) (-1))
    = <[Z.to_nat didx := None]> (dicts kvs)) as Hd by (cbn; apply list_insert_insert_eq).
  split; [|done]. apply (kv_base_set kvs _ didx (Some (d, node)) None); try done.
  cbn [allocated_dicts add_allocated set_slot set_dicts slot_alloc kv_upd]. rewrite wraps_id; [lia..|].
  pose proof (kb_alloc _ Hb). pose proof (kb_len _ Hb). pose proof (num_dicts_range _ Hb).
  pose proof (ksum_count slot_alloc (dicts kvs) ltac:(by intros [?|])). lia.
Qed.
(** ** The counters of keys *)

Abbreviation dmap := (gmap C (SK * option V)).
Implicit Types (ms : list dmap) (m : dmap).

Definition slot_map s : dmap := match s with Some (d, _) => dict_map type canon d | None => ∅ end.
Definition msize m : Z := Z.of_nat (base.size m).
Definition nz (x : Z) : Z := c_bool (0 <? x).

(** The counters are those of dicts with [a] keys; the counter of non-empty
    dicts is [k] too high. *)
Record kv_counts kvs (a : list Z) (k : Z) : Prop := {
  kc_len : Zlen a = num_dicts kvs;
  kc_nonneg : Forall (fun x => 0 <= x) a;
  kc_total : zsum a < 2 ^ 62;
  kc_keys : key_count kvs = zsum a;
  kc_non_empty : non_empty_dicts kvs = s32 (zsum (nz <$> a) + k);
  kc_sizes : if num_dicts kvs =? 1 then dict_sizes kvs = None else exists ft, dict_sizes kvs = Some ft /\ Rep ft a;
}.

Lemma slot_size_map s : slot_ok s -> slot_size s = msize (slot_map s).
Proof.
  destruct s as [[d node]|]; [|done]. intros [[Hw _] _]. unfold msize. cbn.
  by rewrite (dictSize_spec type canon), (entries_size type canon).
Qed.

Lemma kv_base_keys kvs ne c sz : kv_base kvs -> kv_base (set_keys kvs ne c sz).
Proof. intros []. by split. Qed.

Lemma wraps_add_l a b : s32 (s32 a + b) = s32 (a + b).
Proof.
  unfold wraps. f_equal. replace (((a + 2 ^ (32 - 1)) mod 2 ^ 32 - 2 ^ (32 - 1) + b + 2 ^ (32 - 1)) mod 2 ^ 32)
    with (((a + 2 ^ (32 - 1)) mod 2 ^ 32 + b) mod 2 ^ 32) by (f_equal; lia).
  rewrite Zplus_mod_idemp_l. f_equal. lia.
Qed.

(** [kvs'] differs from [kvs] in the counters of keys only. *)
Definition same_slots kvs kvs' : Prop :=
  kv_base kvs' /\ dicts kvs' = dicts kvs /\ flags kvs' = flags kvs /\ num_dicts kvs' = num_dicts kvs /\
  num_dicts_bits kvs' = num_dicts_bits kvs /\ rehashing kvs' = rehashing kvs.

(** [cumulativeKeyCountAdd] after the dict at [didx], which had [x] keys, changed. *)
Lemma cumulative_counts kvs a k didx d node x delta : kv_counts kvs a k -> 0 <= didx ->
  dicts kvs !! Z.to_nat didx = Some (Some (d, node)) -> a !! Z.to_nat didx = Some x ->
  0 <= x + delta -> zsum a + delta < 2 ^ 62 -> - 2 ^ 63 <= delta ->
  exists n c sizes, cumulativeKeyCountAdd kvs didx delta = Ret (set_keys kvs n c sizes) /\
    kv_counts (set_keys kvs n c sizes) (<[Z.to_nat didx := x + delta]> a)
      (k + (if (dictSize d =? 1) && (0 <? delta) then 1 else if dictSize d =? 0 then -1 else 0) - (nz (x + delta) - nz x)).
Proof.
  intros [Hl Hnn Ht Hk Hne Hsz] Hi Hs Hx Hp Hfit Hd. unfold cumulativeKeyCountAdd. rewrite (GetDict_slot _ _ _ Hi Hs), ret_bind.
  cbn [slot_dict]. set (ne := if _ && _ then 1 else _). cbn zeta.
  assert (zsum (nz <$> <[Z.to_nat didx:=x + delta]> a) = zsum (nz <$> a) - nz x + nz (x + delta)) as Hnz.
  { rewrite list_fmap_insert. apply zsum_insert. by rewrite list_lookup_fmap, Hx. }
  assert (zsum (<[Z.to_nat didx:=x + delta]> a) = zsum a + delta) as Hsum by (rewrite (zsum_insert _ _ _ _ Hx); lia).
  assert (Forall (fun y => 0 <= y) (<[Z.to_nat didx:=x + delta]> a)) as Hnn' by (by apply Forall_insert).
  assert (u64 (key_count kvs + delta) = zsum (<[Z.to_nat didx:=x + delta]> a)) as Hkey.
  { rewrite Hk, <- Hsum, wrapu_id; [done|]. pose proof (zsum_nonneg _ Hnn'). lia. }
  assert (s32 (non_empty_dicts kvs + ne) = s32 (zsum (nz <$> <[Z.to_nat didx:=x + delta]> a) + (k + ne - (nz (x + delta) - nz x)))) as Hne'.
  { rewrite Hne, wraps_add_l, Hnz. f_equal. lia. }
  change (num_dicts (set_keys kvs (s32 (non_empty_dicts kvs + ne)) (u64 (key_count kvs + delta)) (dict_sizes kvs))) with (num_dicts kvs).
  assert (forall sizes, (if num_dicts kvs =? 1 then sizes = None else exists ft, sizes = Some ft /\ Rep ft (<[Z.to_nat didx:=x + delta]> a)) ->
    kv_counts (set_keys kvs (s32 (non_empty_dicts kvs + ne)) (u64 (key_count kvs + delta)) sizes) (<[Z.to_nat didx := x + delta]> a)
      (k + ne - (nz (x + delta) - nz x))) as Hgo.
  { intros sizes Hsizes. split; try done; [by rewrite Zlen_insert|by rewrite Hsum]. }
  destruct (num_dicts kvs =? 1) eqn:E1; [do 3 eexists; split; [done|by apply Hgo]|].
  destruct Hsz as (ft & Hft & HR). cbn [dict_sizes set_keys]. rewrite Hft.
  assert (size ft = num_dicts kvs) as Hfs by (rewrite <- (rep_len _ _ HR); done).
  destruct (fwTreeUpdate_rep ft a didx delta x HR) as (ft' & -> & HR'); try done; try lia.
  { rewrite Hfs, <- Hl. apply lookup_lt_Some in Hx. unfold Zlen. lia. }
  unfold bump in HR'. rewrite Hx in HR'. rewrite ret_bind. do 3 eexists. split; [reflexivity|]. apply Hgo. by exists ft'.
Qed.

(** ** The abstract state: a list of maps *)

(** The slots hold [ms], the counters those of [a]. *)
Record kv_holds kvs ms (a : list Z) (k : Z) : Prop := {
  kh_base : kv_base kvs;
  kh_map : slot_map <$> dicts kvs = ms;
  kh_counts : kv_counts kvs a k;
}.

Definition kv_rep kvs ms (k : Z) : Prop := kv_holds kvs ms (msize <$> ms) k.

Lemma kept_counts kvs kvs' a k : kept kvs kvs' -> kv_counts kvs a k -> kv_counts kvs' a k.
Proof. intros [Hf Hn Hb Hc Hne Hk Hs] []. split; rewrite ?Hn, ?Hne, ?Hk, ?Hs; done. Qed.

Lemma holds_step kvs ms a k didx s' kvs' : kv_holds kvs ms a k -> kv_step kvs didx s' kvs' ->
  kv_holds kvs' (<[Z.to_nat didx := slot_map s']> ms) a k.
Proof.
  intros [Hb Hm Hc] (Hb' & Hk & Hd). split; [done| |by apply (kept_counts kvs)]. by rewrite Hd, list_fmap_insert, Hm.
Qed.

Lemma kv_step_trans kvs didx s1 kvs1 s2 kvs2 : kv_step kvs didx s1 kvs1 -> kv_step kvs1 didx s2 kvs2 -> kv_step kvs didx s2 kvs2.
Proof.
  intros (Hb1 & Hk1 & Hd1) (Hb2 & Hk2 & Hd2). split; [done|]. split; [by transitivity kvs1|]. by rewrite Hd2, Hd1, list_insert_insert_eq.
Qed.

Lemma step_slot kvs didx s' kvs' : kv_base kvs -> 0 <= didx < num_dicts kvs -> kv_step kvs didx s' kvs' -> dicts kvs' !! Z.to_nat didx = Some s'.
Proof.
  intros Hb Hi (_ & _ & ->). apply list_lookup_insert_eq. pose proof (kb_len _ Hb). unfold Zlen in *. lia.
Qed.

Lemma step_num kvs didx s' kvs' : kv_step kvs didx s' kvs' -> num_dicts kvs' = num_dicts kvs.
Proof. by intros (_ & [] & _). Qed.

(** The map of a slot. *)
Lemma kv_rep_slot kvs ms a k didx : kv_holds kvs ms a k -> 0 <= didx < num_dicts kvs -> exists s, dicts kvs !! Z.to_nat didx = Some s /\
  slot_ok s /\ ms !! Z.to_nat didx = Some (slot_map s).
Proof.
  intros [Hb <- Hc] Hi. destruct (slot_get kvs didx Hb Hi) as (s & Hs & Hok). exists s. by rewrite list_lookup_fmap, Hs.
Qed.

Lemma kv_rep_size kvs ms k didx s : kv_rep kvs ms k -> dicts kvs !! Z.to_nat didx = Some s -> (msize <$> ms) !! Z.to_nat didx = Some (slot_size s).
Proof.
  intros [Hb <- Hc] Hs. rewrite !list_lookup_fmap, Hs. cbn. by rewrite slot_size_map by (by eapply kb_slots).
Qed.

Lemma zsum_elem (a : list Z) i x : Forall (fun x => 0 <= x) a -> a !! i = Some x -> 0 <= x <= zsum a.
Proof.
  intros Hnn Hx. pose proof (Forall_lookup_1 _ _ _ _ Hnn Hx) as H0. cbn in H0.
  assert (Forall (fun x => 0 <= x) (<[i := 0]> a)) as H by (by apply Forall_insert).
  apply zsum_nonneg in H. rewrite (zsum_insert _ _ _ _ Hx) in H. lia.
Qed.

(** Nothing but the dict at [didx] changes, which keeps its map. *)
Lemma kv_rep_same kvs ms k didx s s' kvs' : kv_rep kvs ms k -> 0 <= didx -> dicts kvs !! Z.to_nat didx = Some s -> kv_step kvs didx s' kvs' ->
  slot_map s' = slot_map s -> kv_rep kvs' ms k.
Proof.
  intros Hrep Hi Hs Hst Hm. pose proof (holds_step _ _ _ _ _ _ _ Hrep Hst) as Hh. rewrite Hm in Hh.
  rewrite list_insert_id in Hh; [done|]. rewrite <- (kh_map _ _ _ _ Hrep). by rewrite list_lookup_fmap, Hs.
Qed.

(** The dict at [didx] keeps the number of its keys. *)
Lemma kv_rep_update kvs ms k didx s s' kvs' : kv_rep kvs ms k -> 0 <= didx -> dicts kvs !! Z.to_nat didx = Some s -> kv_step kvs didx s' kvs' ->
  msize (slot_map s') = msize (slot_map s) -> kv_rep kvs' (<[Z.to_nat didx := slot_map s']> ms) k.
Proof.
  intros Hrep Hi Hs Hst Hm. pose proof (holds_step _ _ _ _ _ _ _ Hrep Hst) as Hh. unfold kv_rep.
  rewrite list_fmap_insert, Hm, (list_insert_id (msize <$> ms)); [done|]. rewrite <- (kh_map _ _ _ _ Hrep). by rewrite !list_lookup_fmap, Hs.
Qed.

(** The dict at [didx] gained or lost one key, and the counters are brought up to date. *)
Lemma kv_rep_count kvs ms k didx s d node kvs1 delta : kv_rep kvs ms k -> 0 <= didx -> dicts kvs !! Z.to_nat didx = Some s ->
  kv_step kvs didx (Some (d, node)) kvs1 -> delta = 1 \/ delta = -1 -> dict_ok d ->
  msize (dict_map type canon d) = msize (slot_map s) + delta -> zsum (msize <$> ms) + delta < 2 ^ 62 ->
  exists kvs2, cumulativeKeyCountAdd kvs1 didx delta = Ret kvs2 /\ kv_rep kvs2 (<[Z.to_nat didx := dict_map type canon d]> ms) k /\
    same_slots kvs1 kvs2.
Proof.
  intros Hrep Hi Hs Hst Hdelta Hok Hm Hfit. pose proof (holds_step _ _ _ _ _ _ _ Hrep Hst) as [Hb1 Hm1 Hc1].
  pose proof (kv_rep_size _ _ _ _ _ Hrep Hs) as Hx. pose proof (kb_slots _ (kh_base _ _ _ _ Hrep) _ _ Hs) as Hsok.
  rewrite slot_size_map in Hx by done.
  assert (dicts kvs1 !! Z.to_nat didx = Some (Some (d, node))) as Hs1.
  { destruct Hst as (_ & _ & ->). apply list_lookup_insert_eq. by eapply lookup_lt_Some. }
  pose proof (zsum_elem _ _ _ (kc_nonneg _ _ _ Hc1) Hx) as Hx0.
  assert (0 <= msize (dict_map type canon d)) as Hnn by (unfold msize; lia).
  destruct (cumulative_counts kvs1 _ k didx d node _ delta Hc1 Hi Hs1 Hx) as (n & c & sizes & E & Hc2); [lia|done|lia|].
  eexists. split; [exact E|]. split; [|split; [by apply kv_base_keys|done]].
  split; [by apply kv_base_keys|done|]. rewrite list_fmap_insert, Hm.
  assert (dictSize d = msize (slot_map s) + delta) as Hds.
  { rewrite <- Hm. apply (slot_size_map (Some (d, dictIsRehashing d))). by split. }
  rewrite Hds in Hc2. match type of Hc2 with kv_counts _ _ ?x => replace x with k in Hc2; [done|] end.
  unfold nz, c_bool. destruct Hdelta as [-> | ->].
  - change (0 <? 1) with true. rewrite andb_true_r.
    destruct (Z.eqb_spec (msize (slot_map s) + 1) 1), (Z.eqb_spec (msize (slot_map s) + 1) 0),
      (Z.ltb_spec 0 (msize (slot_map s) + 1)), (Z.ltb_spec 0 (msize (slot_map s))); lia.
  - change (0 <? -1) with false. rewrite andb_false_r.
    destruct (Z.eqb_spec (msize (slot_map s) + -1) 0), (Z.ltb_spec 0 (msize (slot_map s) + -1)), (Z.ltb_spec 0 (msize (slot_map s))); lia.
Qed.

(** An empty dict may go, when its rehashing is not paused. *)
Lemma freeDictIfNeeded_cases kvs didx d node : kv_base kvs -> 0 <= didx -> dicts kvs !! Z.to_nat didx = Some (Some (d, node)) ->
  freeDictIfNeeded canFreeDict kvs didx = Ret kvs \/
  exists kvs', freeDictIfNeeded canFreeDict kvs didx = Ret kvs' /\ kv_step kvs didx None kvs' /\ dict_map type canon d = ∅ /\ pauserehash d <= 0.
Proof.
  intros Hb Hi Hs. pose proof (kb_slots _ Hb _ _ Hs) as Hok.
  unfold freeDictIfNeeded, kvstoreDictSize, kvstoreDictIsRehashingPaused. rewrite (GetDict_slot _ _ _ Hi Hs), !ret_bind.
  destruct (negb (has_flag _ _)); [by left|]. cbn [slot_dict]. rewrite !ret_bind.
  destruct (Z.eqb_spec (dictSize d) 0) as [Ez|]; [cbn [negb]|by left]. unfold dictIsRehashingPaused.
  destruct (Z.ltb_spec 0 (pauserehash d)); [by left|]. destruct (match canFreeDict with Some _ => _ | None => _ end); [by left|].
  right. destruct (release_spec kvs didx d node Hb Hi Hs) as (kvs1 & -> & Hst). rewrite ret_bind. eexists. split; [reflexivity|].
  split; [done|]. split; [|done]. pose proof (slot_size_map _ Hok) as Hsz. cbn in Hsz. rewrite Ez in Hsz.
  apply map_size_empty_iff. unfold msize in Hsz. lia.
Qed.

(** Nothing else changes. *)
Lemma freeDictIfNeeded_spec kvs ms k didx : kv_rep kvs ms k -> 0 <= didx < num_dicts kvs ->
  exists kvs', freeDictIfNeeded canFreeDict kvs didx = Ret kvs' /\ kv_rep kvs' ms k /\ kept kvs kvs'.
Proof.
  intros Hrep Hi. pose proof (kh_base _ _ _ _ Hrep) as Hb. destruct (slot_get kvs didx Hb Hi) as (s & Hs & Hok).
  destruct s as [[d node]|].
  - destruct (freeDictIfNeeded_cases kvs didx d node Hb (proj1 Hi) Hs) as [-> |(kvs' & -> & Hst & Hm & _)]; [by exists kvs|].
    exists kvs'. split; [done|]. split; [|apply Hst]. apply (kv_rep_same kvs ms k didx (Some (d, node)) None _ Hrep (proj1 Hi) Hs Hst). cbn. by rewrite Hm.
  - exists kvs. split; [|done]. unfold freeDictIfNeeded. rewrite (GetDict_slot _ _ _ (proj1 Hi) Hs), ret_bind. by destruct (negb _).
Qed.
End invariant.
