(* ===== verification/KvstoreOps.v ===== *)
(** * KvstoreOps: the operations of the kvstore on lists of maps

    One lemma per operation: from a store that represents a list of maps
    ([kv_rep]), what it returns and the list of maps of the store it leaves. *)

From stdpp Require Import countable sets fin_maps gmap.
From S2P Require Import Prelude Memory Fwtree Dict DictInv DictSpec DictScan DictLink DictFrame Kvstore KvstoreInv.

Section operations.
Context {K SK V : Type} (type : dictType K SK V).
Context {C : Type} (canon : K -> C) `{!EqDecision C, !Countable C, !DictKeys type canon}.
Context (can_resize : dictResizeEnable) (as_key : SK -> K) (canFreeDict : option (kvstore SK V -> Z -> bool)).
Abbreviation dict := (dict SK V).
Abbreviation kvstore := (kvstore SK V).
Abbreviation dmap := (gmap C (SK * option V)).
Abbreviation slot := (option (dict * bool)).
Abbreviation dict_ok := (dict_ok type canon).
Abbreviation kv_rep := (kv_rep type canon).
Abbreviation slot_map := (slot_map type canon).
Implicit Types (kvs : kvstore) (d : dict) (s : slot) (ms : list dmap).

(** ** Operations on a dict that is there *)

Lemma same_ok d d' : dict_ok d -> same_contents type canon d d' -> dict_ok d'.
Proof. intros (Hw & Hp & Ha) Hsc. split; [apply Hsc|]. by rewrite (sc_pause _ _ _ _ Hsc), (sc_auto _ _ _ _ Hsc). Qed.

Lemma ok_pauses d d' : dict_ok d -> dict_wf type canon d' -> same_pauses d d' -> dict_ok d'.
Proof. intros (Hw & Hp & Ha) Hw' [E1 E2]. split; [done|]. by rewrite E1, E2. Qed.

(** The operation kept the contents. *)
Lemma done_same kvs ms k didx d node d' : kv_rep kvs ms k -> 0 <= didx -> dicts kvs !! Z.to_nat didx = Some (Some (d, node)) ->
  grows d d' -> same_contents type canon d d' ->
  exists kvs', dict_done kvs didx d' = Ret kvs' /\ kv_rep kvs' ms k /\ kv_step type canon kvs didx (Some (d', dictIsRehashing d')) kvs'.
Proof.
  intros Hrep Hi Hs Hg Hsc. pose proof (kh_base _ _ _ _ _ _ Hrep) as Hb. pose proof (kb_slots _ _ _ Hb _ _ Hs) as [Hok _].
  destruct (dict_done_spec type canon kvs didx d node d' Hb Hi Hs Hg (same_ok _ _ Hok Hsc)) as (kvs' & E & Hst).
  exists kvs'. split; [done|]. split; [|done]. apply (kv_rep_same type canon kvs ms k didx _ _ _ Hrep Hi Hs Hst). cbn.
  by apply dict_map_same.
Qed.

(** The dict of a store that represents [ms]. *)
Lemma kv_rep_get kvs ms k didx : kv_rep kvs ms k -> 0 <= didx < num_dicts kvs -> exists s, dicts kvs !! Z.to_nat didx = Some s /\
  slot_ok type canon s /\ ms !! Z.to_nat didx = Some (slot_map s) /\ kvstoreGetDict kvs didx = Ret (slot_dict s).
Proof.
  intros Hrep Hi. destruct (kv_rep_slot type canon kvs ms _ k didx Hrep Hi) as (s & Hs & Hok & Hm). exists s.
  split; [done|]. split; [done|]. split; [done|]. apply GetDict_slot; [lia|done].
Qed.

Lemma kv_rep_room kvs ms k didx s : kv_rep kvs ms k -> dicts kvs !! Z.to_nat didx = Some s -> zsum (msize <$> ms) + 1 < 2 ^ 62 ->
  Zlen (entries (slot_or_new s)) + 1 < 2 ^ 62.
Proof.
  intros Hrep Hs Hfit. pose proof (kv_rep_size type canon _ _ _ _ _ Hrep Hs) as Hx.
  pose proof (zsum_elem _ _ _ (kc_nonneg _ _ _ (kh_counts _ _ _ _ _ _ Hrep)) Hx) as Hx0.
  destruct s as [[d node]|]; [|done]. cbn in *. pose proof (kb_slots _ _ _ (kh_base _ _ _ _ _ _ Hrep) _ _ Hs) as [[Hw _] _].
  rewrite <- (dictSize_spec type canon) by done. lia.
Qed.

Lemma kvstoreDictFind_spec kvs ms k didx m key : kv_rep kvs ms k -> 0 <= didx < num_dicts kvs -> ms !! Z.to_nat didx = Some m ->
  exists kvs' de, kvstoreDictFind type can_resize kvs didx key = Ret (kvs', de) /\ kv_rep kvs' ms k /\ kept kvs kvs' /\
    match m !! canon key with Some x => exists rest, chain_list de = x :: rest | None => de = DNull end.
Proof.
  intros Hrep Hi Hm. destruct (kv_rep_get _ _ _ _ Hrep Hi) as (s & Hs & Hok & Hm' & Hg). rewrite Hm in Hm'. injection Hm' as ->.
  unfold kvstoreDictFind. rewrite Hg, ret_bind. destruct s as [[d node]|]; cbn [slot_dict slot_map]; [|by eexists _, _].
  destruct Hok as [[Hw _] _]. destruct (dictFind_spec type canon can_resize d key Hw) as (d' & de & E & Hsc & Hde).
  rewrite E, ret_bind. pose proof (dictFind_frame type can_resize grows d key _ E) as Hgr. cbn [fst] in Hgr.
  destruct (done_same kvs ms k didx d node d' Hrep (proj1 Hi) Hs Hgr Hsc) as (kvs' & -> & Hrep' & _ & Hk & _).
  rewrite ret_bind. by exists kvs', de.
Qed.

(** ** Insertion *)

Lemma kvstoreDictAddRaw_spec kvs ms k didx m key : kv_rep kvs ms k -> 0 <= didx < num_dicts kvs -> ms !! Z.to_nat didx = Some m ->
  zsum (msize <$> ms) + 1 < 2 ^ 62 ->
  let c := canon (keyFromStoredKey type key) in
  exists kvs' r, kvstoreDictAddRaw type can_resize kvs didx key = Ret (kvs', r) /\ num_dicts kvs' = num_dicts kvs /\
    (exists d node, dicts kvs' !! Z.to_nat didx = Some (Some (d, node)) /\ match r with inl link | inr link =>
      exists x, points d link x /\ entry_canon type canon x = c /\ dict_map type canon d !! c = Some x end) /\
    match r with
    | inl _ => m !! c = None /\ kv_rep kvs' (<[Z.to_nat didx := <[c := (stored_key type key, None)]> m]> ms) k
    | inr _ => is_Some (m !! c) /\ kv_rep kvs' ms k
    end.
Proof.
  intros Hrep Hi Hm Hfit c. destruct (kv_rep_get _ _ _ _ Hrep Hi) as (s & Hs & Hok & Hm' & Hg). rewrite Hm in Hm'. injection Hm' as ->.
  pose proof (kh_base _ _ _ _ _ _ Hrep) as Hb. pose proof (proj1 Hi) as Hi0.
  unfold kvstoreDictAddRaw. destruct (createDictIfNeeded_spec type canon kvs didx s Hb Hi0 Hs) as (kvs1 & -> & Hst1).
  rewrite ret_bind. pose proof (step_slot type canon _ _ _ _ Hb Hi Hst1) as Hs1. pose proof (slot_or_new_ok _ _ _ Hok) as Hok1.
  destruct (dictAddRaw_spec type canon can_resize (slot_or_new s) key) as (d' & r & E & Hw' & Hp' & Ha' & Hr);
    [apply Hok1|right; rewrite (proj2 (proj2 Hok1)); lia|by eapply kv_rep_room|].
  rewrite E, ret_bind. pose proof (dictAddRaw_frame type can_resize grows _ key _ E) as Hgr. cbn [fst] in Hgr.
  assert (dict_ok d') as Hok' by (by apply (ok_pauses (slot_or_new s))).
  destruct (dict_done_spec type canon kvs1 didx _ _ d' (proj1 Hst1) Hi0 Hs1 Hgr Hok') as (kvs2 & -> & Hst2). rewrite ret_bind.
  pose proof (kv_step_trans type canon _ _ _ _ _ _ Hst1 Hst2) as Hst. pose proof (step_slot type canon _ _ _ _ Hb Hi Hst) as Hs2.
  assert (dict_map type canon (slot_or_new s) = slot_map s) as Hmap by (by destruct s as [[? ?]|]).
  rewrite Hmap in Hr. change (entry_canon type canon (key, None)) with c in Hr. destruct r as [link|link].
  - destruct Hr as (Hnone & Hpt & Hins).
    destruct (kv_rep_count type canon kvs ms k didx s d' _ kvs2 1 Hrep Hi0 Hs Hst) as (kvs3 & -> & Hrep3 & Hb3 & Hd3 & _ & Hn3 & _);
      [by left|done| |done|].
    { rewrite Hins. unfold msize. rewrite map_size_insert_None by done. lia. }
    rewrite ret_bind. eexists _, _. split; [reflexivity|]. split; [by rewrite Hn3, (step_num _ _ _ _ _ _ Hst)|].
    split; [|split; [done|by rewrite <- Hins]]. exists d', (dictIsRehashing d'). split; [by rewrite Hd3|].
    eexists. split; [exact Hpt|]. rewrite (stored_key_canon type canon key None None). split; [done|]. rewrite Hins. apply lookup_insert_eq.
  - destruct Hr as (Hsame & x & Hpt & Hx & Hcx). eexists _, _. split; [reflexivity|]. split; [by apply (step_num type canon) in Hst|].
    split; [|split; [done|]].
    + exists d', (dictIsRehashing d'). split; [done|]. exists x. split; [done|]. split; [done|]. by rewrite Hsame.
    + apply (kv_rep_same type canon kvs ms k didx s _ kvs2 Hrep Hi0 Hs Hst). done.
Qed.

Lemma kvstoreDictSetVal_spec kvs ms k didx d node link x v : kv_rep kvs ms k -> 0 <= didx < num_dicts kvs -> no_value type = false ->
  dicts kvs !! Z.to_nat didx = Some (Some (d, node)) -> points d link x -> is_Some (dict_map type canon d !! entry_canon type canon x) ->
  exists kvs', kvstoreDictSetVal type kvs didx link v = Ret kvs' /\ num_dicts kvs' = num_dicts kvs /\
    kv_rep kvs' (<[Z.to_nat didx := <[entry_canon type canon x := (x.1, Some (stored_val type v))]> (dict_map type canon d)]> ms) k.
Proof.
  intros Hrep Hi Hnv Hs Hpt Hsome. pose proof (kh_base _ _ _ _ _ _ Hrep) as Hb. pose proof (kb_slots _ _ _ Hb _ _ Hs) as [Hok _].
  unfold kvstoreDictSetVal. rewrite (GetDict_slot _ _ _ (proj1 Hi) Hs), ret_bind. cbn [slot_dict]. rewrite Hnv. cbn [negb c_assert].
  rewrite ret_bind. destruct (set_val_at_spec type canon d link x v (proj1 Hok) Hnv Hpt) as (d' & E & Hw' & Hfr & Hm'). rewrite E, ret_bind.
  pose proof (set_val_at_frame type grows d link v _ E) as Hgr. destruct Hfr.
  destruct (dict_done_spec type canon kvs didx d node d' Hb (proj1 Hi) Hs Hgr) as (kvs' & -> & Hst); [by apply (ok_pauses d)|].
  exists kvs'. split; [done|]. split; [by apply (step_num type canon) in Hst|].
  rewrite <- Hm'. apply (kv_rep_update type canon kvs ms k didx _ _ _ Hrep (proj1 Hi) Hs Hst). cbn.
  rewrite Hm'. unfold msize. by rewrite map_size_insert_Some.
Qed.

(** A key with its value, added or replaced: [kvstoreDictAddRaw] then [kvstoreDictSetVal]. *)
Definition kv_put kvs (didx : Z) (key : SK) (v : V) : outcome (kvstore * bool) :=
  '(kvs, r) ← kvstoreDictAddRaw type can_resize kvs didx key;
  kvs ← kvstoreDictSetVal type kvs didx (match r with inl link => link | inr link => link end) v;
  Ret (kvs, match r with inl _ => true | inr _ => false end).
Lemma map_elem ms i m : ms !! i = Some m -> (msize <$> ms) !! i = Some (msize m).
Proof. intros H. by rewrite list_lookup_fmap, H. Qed.

Lemma zsum_insert_map ms i m m' : ms !! i = Some m -> zsum (msize <$> <[i := m']> ms) = zsum (msize <$> ms) - msize m + msize m'.
Proof. intros H. rewrite list_fmap_insert. apply zsum_insert. by apply map_elem. Qed.

Lemma kv_put_spec kvs ms k didx m key v : kv_rep kvs ms k -> 0 <= didx < num_dicts kvs -> ms !! Z.to_nat didx = Some m ->
  zsum (msize <$> ms) + 1 < 2 ^ 62 -> no_value type = false ->
  let c := canon (keyFromStoredKey type key) in
  exists kvs', kv_put kvs didx key v = Ret (kvs', bool_decide (m !! c = None)) /\ num_dicts kvs' = num_dicts kvs /\
    kv_rep kvs' (<[Z.to_nat didx := <[c := (from_option fst (stored_key type key) (m !! c), Some (stored_val type v))]> m]> ms) k.
Proof.
  intros Hrep Hi Hm Hfit Hnv c. unfold kv_put.
  destruct (kvstoreDictAddRaw_spec kvs ms k didx m key Hrep Hi Hm Hfit) as (kvs1 & r & -> & Hn1 & (d & node & Hs & Hx) & Hr).
  rewrite ret_bind. fold c in Hr, Hx. destruct r as [link|link]; destruct Hx as (x & Hpt & Hcx & Hdx); destruct Hr as [Hc Hrep1].
  - destruct (kvstoreDictSetVal_spec kvs1 _ k didx d node link x v Hrep1) as (kvs' & -> & Hn & Hrep'); [lia|done|done|done|by rewrite Hcx|].
    rewrite ret_bind, Hc, bool_decide_true by done. exists kvs'. split; [done|]. split; [lia|]. cbn [from_option].
    assert (dict_map type canon d = <[c:=(stored_key type key, None)]> m) as Hd.
    { pose proof (kh_map _ _ _ _ _ _ Hrep1) as Hms. apply (f_equal (fun l => l !! Z.to_nat didx)) in Hms.
      rewrite list_lookup_fmap, Hs, list_lookup_insert_eq in Hms by (by eapply lookup_lt_Some). by injection Hms. }
    rewrite Hd, lookup_insert_eq in Hdx. injection Hdx as <-. by rewrite Hcx, Hd, insert_insert_eq, list_insert_insert_eq in Hrep'.
  - destruct (kvstoreDictSetVal_spec kvs1 _ k didx d node link x v Hrep1) as (kvs' & -> & Hn & Hrep'); [lia|done|done|done|by rewrite Hcx|].
    rewrite ret_bind, bool_decide_false by (intros E; rewrite E in Hc; by destruct Hc). exists kvs'. split; [done|]. split; [lia|].
    assert (dict_map type canon d = m) as Hd.
    { pose proof (kh_map _ _ _ _ _ _ Hrep1) as Hms. apply (f_equal (fun l => l !! Z.to_nat didx)) in Hms.
      rewrite list_lookup_fmap, Hs, Hm in Hms. by injection Hms. }
    rewrite Hd in Hdx, Hrep'. rewrite Hdx. cbn [from_option]. by rewrite Hcx in Hrep'.
Qed.

(** ** Deletion *)

(** After an operation that took one key out: the counters, then the dict if it is empty. *)
Lemma removed kvs ms k didx d node d' m c : kv_rep kvs ms k -> 0 <= didx < num_dicts kvs ->
  dicts kvs !! Z.to_nat didx = Some (Some (d, node)) -> grows d d' -> dict_ok d' -> dict_map type canon d = m -> is_Some (m !! c) ->
  dict_map type canon d' = delete c m ->
  exists kvs1 kvs2 kvs3, dict_done kvs didx d' = Ret kvs1 /\ cumulativeKeyCountAdd kvs1 didx (-1) = Ret kvs2 /\
    freeDictIfNeeded canFreeDict kvs2 didx = Ret kvs3 /\ kv_rep kvs3 (<[Z.to_nat didx := delete c m]> ms) k /\ num_dicts kvs3 = num_dicts kvs.
Proof.
  intros Hrep Hi Hs Hg Hok' Hm [x Hx] Hdel. pose proof (kh_base _ _ _ _ _ _ Hrep) as Hb. pose proof (proj1 Hi) as Hi0.
  destruct (dict_done_spec type canon kvs didx d node d' Hb Hi0 Hs Hg Hok') as (kvs1 & E1 & Hst).
  assert (0 < msize m) as Hpos.
  { unfold msize. pose proof (map_size_delete_Some c m ltac:(by eexists)) as Hd. pose proof (map_size_non_empty_iff m) as Hn.
    assert (m <> ∅) as Hne by (intros ->; by rewrite lookup_empty in Hx). apply Hn in Hne. lia. }
  destruct (kv_rep_count type canon kvs ms k didx (Some (d, node)) d' _ kvs1 (-1) Hrep Hi0 Hs Hst) as (kvs2 & E2 & Hrep2 & Hb2 & Hd2 & _ & Hn2 & _);
    [by right|done| | |].
  { cbn. rewrite Hdel, Hm. unfold msize in *. rewrite (map_size_delete_Some c m) by (by eexists). lia. }
  { pose proof (kc_total _ _ _ (kh_counts _ _ _ _ _ _ Hrep)). lia. }
  pose proof (step_num type canon _ _ _ _ Hst) as Hn1.
  destruct (freeDictIfNeeded_spec type canon canFreeDict kvs2 _ k didx Hrep2) as (kvs3 & E3 & Hrep3 & Hk3); [lia|].
  exists kvs1, kvs2, kvs3. split; [done|]. split; [done|]. split; [done|]. rewrite Hdel in Hrep3. split; [done|].
  rewrite (kp_num _ _ Hk3). lia.
Qed.

Lemma kvstoreDictDelete_spec kvs ms k didx m key : kv_rep kvs ms k -> 0 <= didx < num_dicts kvs -> ms !! Z.to_nat didx = Some m ->
  exists kvs', kvstoreDictDelete type can_resize canFreeDict kvs didx key = Ret (kvs', bool_decide (is_Some (m !! canon key))) /\
    num_dicts kvs' = num_dicts kvs /\ kv_rep kvs' (<[Z.to_nat didx := delete (canon key) m]> ms) k.
Proof.
  intros Hrep Hi Hm. destruct (kv_rep_get _ _ _ _ Hrep Hi) as (s & Hs & Hok & Hm' & Hg). rewrite Hm in Hm'. injection Hm' as Hms.
  unfold kvstoreDictDelete. rewrite Hg, ret_bind. destruct s as [[d node]|]; cbn [slot_dict KvstoreInv.slot_map] in *.
  - destruct Hok as [Hok _]. unfold dictDelete.
    destruct (dictGenericDelete_spec type canon can_resize d key false (proj1 Hok)) as (d' & he & E & Hw' & Hdel & Hp' & Ha' & Hhe).
    rewrite E, !ret_bind. pose proof (dictGenericDelete_frame type can_resize grows d key false _ E) as Hgr. cbn [fst] in Hgr.
    assert (dict_ok d') as Hok' by (by apply (ok_pauses d)). rewrite <- Hms in Hdel, Hhe. destruct (m !! canon key) as [x|] eqn:Ex.
    + destruct Hhe as [rest Hl]. assert (is_null he = false) as -> by (by destruct he). cbn [negb]. rewrite bool_decide_true by done.
      destruct (removed kvs ms k didx d node d' m (canon key)) as (kvs1 & kvs2 & kvs3 & -> & E2 & E3 & Hrep3 & Hn3); try done.
      rewrite ret_bind, E2, ret_bind, E3, ret_bind. by exists kvs3.
    + subst he. cbn [is_null negb]. rewrite bool_decide_false by (by intros [? ?]).
      destruct (dict_done_spec type canon kvs didx d node d' (kh_base _ _ _ _ _ _ Hrep) (proj1 Hi) Hs Hgr Hok') as (kvs' & -> & Hst).
      rewrite ret_bind. exists kvs'. split; [done|]. split; [by apply (step_num type canon) in Hst|].
      rewrite delete_id, list_insert_id by done. apply (kv_rep_same type canon kvs ms k didx _ _ _ Hrep (proj1 Hi) Hs Hst). cbn.
      rewrite Hdel, <- Hms. by apply delete_id.
  - subst m. exists kvs. rewrite lookup_empty, delete_empty, bool_decide_false by (by intros [? ?]). split; [done|]. split; [done|]. by rewrite list_insert_id.
Qed.

(** Deletion in two phases: find, then free what was found. *)
Definition kv_unlink kvs (didx : Z) (key : K) : outcome (kvstore * bool) :=
  '(kvs, link) ← kvstoreDictTwoPhaseUnlinkFind type can_resize kvs didx key;
  match link with
  | Some link => kvs ← kvstoreDictTwoPhaseUnlinkFree type can_resize canFreeDict kvs didx (Some link); Ret (kvs, true)
  | None => Ret (kvs, false)
  end.

Lemma kv_unlink_spec kvs ms k didx m key : kv_rep kvs ms k -> 0 <= didx < num_dicts kvs -> ms !! Z.to_nat didx = Some m ->
  exists kvs', kv_unlink kvs didx key = Ret (kvs', bool_decide (is_Some (m !! canon key))) /\
    num_dicts kvs' = num_dicts kvs /\ kv_rep kvs' (<[Z.to_nat didx := delete (canon key) m]> ms) k.
Proof.
  intros Hrep Hi Hm. destruct (kv_rep_get _ _ _ _ Hrep Hi) as (s & Hs & Hok & Hm' & Hg). rewrite Hm in Hm'. injection Hm' as Hms.
  unfold kv_unlink, kvstoreDictTwoPhaseUnlinkFind. rewrite Hg, ret_bind. destruct s as [[d node]|]; cbn [slot_dict KvstoreInv.slot_map] in *.
  - destruct Hok as [Hok _]. pose proof Hok as (Hw & Hp & Ha).
    destruct (dictTwoPhase_spec type canon can_resize d key Hw Hp) as (d1 & r & E & Hr). rewrite E, ret_bind.
    pose proof (dictTwoPhaseUnlinkFind_frame type can_resize grows d key _ E) as Hgr.
    pose proof (dictTwoPhaseUnlinkFind_frame type can_resize same_auto d key _ E) as Hau. cbn [fst] in Hgr, Hau.
    rewrite <- Hms in Hr. destruct r as [link|].
    + destruct Hr as (Hd1 & Hp1 & Hw1 & (x & Hpt & Hx) & d2 & E2 & Hw2 & Hd2 & Hp2).
      assert (dict_ok d1) as Hok1 by (split; [done|]; rewrite Hp1, Hau; split; [by apply wrapu_range|done]).
      destruct (dict_done_spec type canon kvs didx d node d1 (kh_base _ _ _ _ _ _ Hrep) (proj1 Hi) Hs Hgr Hok1) as (kvs1 & -> & Hst).
      rewrite !ret_bind. pose proof (step_slot type canon _ _ _ _ (kh_base _ _ _ _ _ _ Hrep) Hi Hst) as Hs1.
      assert (kv_rep kvs1 ms k) as Hrep1 by (apply (kv_rep_same type canon kvs ms k didx _ _ _ Hrep (proj1 Hi) Hs Hst); cbn; congruence).
      pose proof (step_num type canon _ _ _ _ Hst) as Hn1.
      unfold kvstoreDictTwoPhaseUnlinkFree. rewrite (GetDict_slot _ _ _ (proj1 Hi) Hs1), ret_bind. cbn [slot_dict]. rewrite E2, ret_bind.
      pose proof (dictTwoPhaseUnlinkFree_frame type can_resize grows d1 (Some link) _ E2) as Hgr2.
      pose proof (dictTwoPhaseUnlinkFree_frame type can_resize same_auto d1 (Some link) _ E2) as Hau2.
      rewrite bool_decide_true by (by rewrite Hx).
      destruct (removed kvs1 ms k didx d1 (dictIsRehashing d1) d2 m (canon key) Hrep1) as (kvs2 & kvs3 & kvs4 & -> & E3 & E4 & Hrep4 & Hn4); try done; [lia| |].
      { split; [done|]. by rewrite Hp2, Hau2, Hau. }
      rewrite ret_bind, E3, ret_bind, E4, ret_bind. exists kvs4. split; [done|]. split; [lia|done].
    + destruct Hr as [Hsc Hx]. destruct (done_same kvs ms k didx d node d1 Hrep (proj1 Hi) Hs Hgr Hsc) as (kvs' & -> & Hrep' & Hst).
      rewrite !ret_bind, Hx, bool_decide_false by (by intros [? ?]). exists kvs'. split; [done|].
      split; [by apply (step_num type canon) in Hst|]. by rewrite delete_id, list_insert_id.
  - subst m. rewrite ret_bind. exists kvs. rewrite lookup_empty, delete_empty, bool_decide_false by (by intros [? ?]). split; [done|]. split; [done|]. by rewrite list_insert_id.
Qed.

(** ** Setting a key at a link *)

(** The documented use: one lookup, then the update at the link found, or the
    insertion at the bucket. *)
Definition kv_set kvs (didx : Z) (key : K) (kv : SK) : outcome (kvstore * bool) :=
  '(kvs, link, bucket) ← kvstoreDictFindLink type can_resize kvs didx key true;
  match link with
  | Some link => '(kvs, _) ← kvstoreDictSetAtLink type can_resize as_key kvs didx kv (Some link) false; Ret (kvs, false)
  | None => '(kvs, _) ← kvstoreDictSetAtLink type can_resize as_key kvs didx kv bucket true; Ret (kvs, true)
  end.

(** The insertion of a key that is not there, in the dict found or in a new one. *)
Lemma set_new kvs ms k didx s d d1 kvs1 key kv b : kv_rep kvs ms k -> 0 <= didx < num_dicts kvs -> dicts kvs !! Z.to_nat didx = Some s ->
  zsum (msize <$> ms) + 1 < 2 ^ 62 -> d = slot_or_new s -> grows d d1 -> same_contents type canon d d1 ->
  kv_step type canon kvs didx (Some (d1, dictIsRehashing d1)) kvs1 ->
  canon (keyFromStoredKey type kv) = canon key -> dict_map type canon d !! canon key = None ->
  b = None \/ ht_table (ht0 d1) <> None /\ b = Some (insert_link type d1 key) ->
  exists kvs' link, ('(d, link) ← dictSetKeyAtLink type can_resize as_key d1 kv b true;
      kvs ← dict_done kvs1 didx d; kvs ← cumulativeKeyCountAdd kvs didx 1; Ret (kvs, link)) = Ret (kvs', link) /\
    num_dicts kvs' = num_dicts kvs /\
    kv_rep kvs' (<[Z.to_nat didx := <[canon key := (stored_key type kv, None)]> (dict_map type canon d)]> ms) k.
Proof.
  intros Hrep Hi Hs Hfit -> Hg Hsc Hst1 Hkv Hnone Hbk. pose proof (kh_base _ _ _ _ _ _ Hrep) as Hb. pose proof (proj1 Hi) as Hi0.
  pose proof (kb_slots _ _ _ Hb _ _ Hs) as Hsok. pose proof (slot_or_new_ok _ _ _ Hsok) as Hok.
  destruct (set_new_spec type canon can_resize as_key _ d1 key kv b Hsc (kv_rep_room _ _ _ _ _ Hrep Hs Hfit) Hkv Hnone Hbk)
    as (d' & link & E & Hw' & _ & Hm'). rewrite E, ret_bind.
  pose proof (dictSetKeyAtLink_frame type can_resize as_key grows _ _ _ _ _ E) as Hgr.
  pose proof (dictSetKeyAtLink_frame type can_resize as_key same_pauses _ _ _ _ _ E) as Hpa. cbn [fst] in Hgr, Hpa.
  pose proof (step_slot type canon _ _ _ _ Hb Hi Hst1) as Hs1.
  assert (dict_ok d') as Hok' by (apply (ok_pauses d1); [by apply (same_ok _ _ Hok)|done|done]).
  destruct (dict_done_spec type canon kvs1 didx d1 _ d' (proj1 Hst1) Hi0 Hs1 Hgr Hok') as (kvs2 & -> & Hst2). rewrite ret_bind.
  pose proof (kv_step_trans type canon _ _ _ _ _ _ Hst1 Hst2) as Hst.
  assert (dict_map type canon (slot_or_new s) = slot_map s) as Hmap by (by destruct s as [[? ?]|]).
  destruct (kv_rep_count type canon kvs ms k didx s d' _ kvs2 1 Hrep Hi0 Hs Hst) as (kvs3 & -> & Hrep3 & _ & _ & _ & Hn3 & _);
    [by left|done| |done|].
  { rewrite Hm', Hmap in *. unfold msize. rewrite map_size_insert_None by done. lia. }
  rewrite ret_bind. exists kvs3, link. split; [done|]. split; [by rewrite Hn3, (step_num _ _ _ _ _ _ Hst)|]. by rewrite <- Hm'.
Qed.

Lemma kv_set_spec kvs ms k didx m key kv : kv_rep kvs ms k -> 0 <= didx < num_dicts kvs -> ms !! Z.to_nat didx = Some m ->
  zsum (msize <$> ms) + 1 < 2 ^ 62 -> canon (keyFromStoredKey type kv) = canon key ->
  exists kvs', kv_set kvs didx key kv = Ret (kvs', bool_decide (m !! canon key = None)) /\ num_dicts kvs' = num_dicts kvs /\
    kv_rep kvs' (<[Z.to_nat didx := <[canon key := (stored_key type kv, m !! canon key ≫= snd)]> m]> ms) k.
Proof.
  intros Hrep Hi Hm Hfit Hkv. destruct (kv_rep_get _ _ _ _ Hrep Hi) as (s & Hs & Hok & Hm' & Hg). rewrite Hm in Hm'. injection Hm' as Hms.
  pose proof (kh_base _ _ _ _ _ _ Hrep) as Hb. pose proof (proj1 Hi) as Hi0.
  unfold kv_set, kvstoreDictFindLink. rewrite Hg, ret_bind. destruct s as [[d node]|]; cbn [slot_dict KvstoreInv.slot_map] in *.
  - destruct Hok as [Hok _].
    destruct (dictFindLink_spec type canon can_resize d key true (proj1 Hok)) as (d1 & r & b & E & Hsc & _). rewrite E, ret_bind.
    pose proof (dictFindLink_link type canon can_resize _ _ _ _ _ (proj1 Hok) E) as [_ Hr].
    pose proof (dictFindLink_frame type can_resize grows _ _ _ _ E) as Hgr. cbn [fst] in Hgr.
    destruct (done_same kvs ms k didx d node d1 Hrep Hi0 Hs Hgr Hsc) as (kvs1 & -> & Hrep1 & Hst1). rewrite !ret_bind.
    pose proof (step_slot type canon _ _ _ _ Hb Hi Hst1) as Hs1. pose proof (step_num type canon _ _ _ _ Hst1) as Hn1.
    unfold kvstoreDictSetAtLink. rewrite <- Hms in Hr. destruct r as [link|].
    + destruct Hr as (x & Hpt & Hx). rewrite (GetDict_slot _ _ _ Hi0 Hs1), ret_bind. cbn [slot_dict].
      assert (entry_canon type canon x = canon key) as Hcx.
      { rewrite Hms in Hx. apply elem_of_list_to_map_2 in Hx. by apply list_elem_of_fmap in Hx as (x' & [= -> ->] & _). }
      destruct (set_existing_spec type canon can_resize as_key d1 x link kv (sc_wf _ _ _ _ Hsc) Hpt) as (d' & E' & Hw' & _ & Hm1); [by rewrite Hcx|].
      rewrite E', ret_bind. pose proof (dictSetKeyAtLink_frame type can_resize as_key grows _ _ _ _ _ E') as Hgr'.
      pose proof (dictSetKeyAtLink_frame type can_resize as_key same_pauses _ _ _ _ _ E') as Hpa. cbn [fst] in Hgr', Hpa.
      assert (dict_ok d') as Hok' by (apply (ok_pauses d1); [by apply (same_ok d)|done|done]).
      destruct (dict_done_spec type canon kvs1 didx d1 _ d' (proj1 Hst1) Hi0 Hs1 Hgr' Hok') as (kvs2 & -> & Hst2). rewrite !ret_bind.
      rewrite Hx, bool_decide_false by done. exists kvs2. split; [done|].
      pose proof (step_num type canon _ _ _ _ Hst2) as Hn2. split; [lia|].
      rewrite (dict_map_same type canon _ _ Hsc), Hcx, <- Hms in Hm1. cbn [mbind option_bind]. rewrite <- Hm1.
      apply (kv_rep_update type canon kvs1 ms k didx _ _ _ Hrep1 Hi0 Hs1 Hst2). cbn.
      rewrite Hm1, (dict_map_same type canon _ _ Hsc), <- Hms. unfold msize. by rewrite map_size_insert_Some by (by rewrite Hx).
    + destruct Hr as [Hx Hbk]. unfold createDictIfNeeded. rewrite (GetDict_slot _ _ _ Hi0 Hs1), !ret_bind. cbn [slot_dict]. rewrite ret_bind.
      destruct (set_new kvs ms k didx _ d d1 kvs1 key kv b Hrep Hi Hs Hfit eq_refl Hgr Hsc Hst1 Hkv) as (kvs' & link & -> & Hn & Hrep'); [by rewrite <- Hms|done|].
      rewrite ret_bind, Hx, bool_decide_true by done. exists kvs'. split; [done|]. split; [done|]. by rewrite <- Hms in Hrep'.
  - subst m. rewrite ret_bind. unfold kvstoreDictSetAtLink.
    destruct (createDictIfNeeded_spec type canon kvs didx None Hb Hi0 Hs) as (kvs1 & -> & Hst1). rewrite ret_bind.
    destruct (set_new kvs ms k didx None dictCreate dictCreate kvs1 key kv None Hrep Hi Hs Hfit eq_refl) as (kvs' & link & E & Hn & Hrep');
      [by apply same_log|apply same_contents_refl, dictCreate_wf|done|done|done|by left|].
    change (slot_or_new None) with (@dictCreate SK V). rewrite E, ret_bind, lookup_empty, bool_decide_true by done. by exists kvs'.
Qed.
(** ** Resizing and rehashing *)

Definition avail_size (size : Z) : Prop := 0 <= size < 2 ^ 64.

Lemma expand_same d d' size ok : dict_ok d -> avail_size size -> dictExpand type can_resize d size = Ret (d', ok) ->
  same_contents type canon d d'.
Proof.
  intros [Hw _] Hsz E. destruct (dictExpand_spec type canon can_resize d size Hw Hsz) as (d2 & ok2 & E2 & Hr).
  rewrite E in E2. injection E2 as -> ->. destruct (dictIsRehashing d); [destruct Hr as [-> _]; by apply same_contents_refl|apply Hr].
Qed.

Lemma dictTryExpand_same d size avail : dict_ok d -> avail_size size -> exists d' ok, dictTryExpand type can_resize d size avail = Ret (d', ok) /\
  same_contents type canon d d'.
Proof.
  intros [Hw _] Hsz. pose proof (same_contents_refl type canon d Hw) as Hrefl. unfold dictTryExpand, _dictExpand.
  destruct (dictIsRehashing d) eqn:Er; [by eexists _, _|]. destruct (_ || _); [by eexists _, _|].
  destruct (_dictResize_spec type canon can_resize d size true avail Hw Er Hsz) as (d' & ok & mf & -> & Hrs & _).
  rewrite ret_bind. eexists _, _. split; [done|apply Hrs].
Qed.

(** A dict made on demand, then an operation that keeps its contents. *)
Lemma created_same kvs ms k didx s kvs1 d' : kv_rep kvs ms k -> 0 <= didx < num_dicts kvs -> dicts kvs !! Z.to_nat didx = Some s ->
  kv_step type canon kvs didx (Some (slot_or_new s, dictIsRehashing (slot_or_new s))) kvs1 -> grows (slot_or_new s) d' ->
  same_contents type canon (slot_or_new s) d' ->
  exists kvs', dict_done kvs1 didx d' = Ret kvs' /\ kv_rep kvs' ms k /\ num_dicts kvs' = num_dicts kvs.
Proof.
  intros Hrep Hi Hs Hst Hg Hsc. pose proof (step_slot type canon _ _ _ _ (kh_base _ _ _ _ _ _ Hrep) Hi Hst) as Hs1.
  assert (kv_rep kvs1 ms k) as Hrep1.
  { apply (kv_rep_same type canon kvs ms k didx _ _ _ Hrep (proj1 Hi) Hs Hst). by destruct s as [[? ?]|]. }
  destruct (done_same kvs1 ms k didx _ _ d' Hrep1 (proj1 Hi) Hs1 Hg Hsc) as (kvs' & E & Hrep' & Hst').
  exists kvs'. split; [done|]. split; [done|]. rewrite (step_num _ _ _ _ _ _ Hst'). by apply (step_num type canon) in Hst.
Qed.

Lemma kvstoreDictExpand_spec kvs ms k didx size : kv_rep kvs ms k -> 0 <= didx < num_dicts kvs -> avail_size size ->
  exists kvs' ok, kvstoreDictExpand type can_resize kvs didx size = Ret (kvs', ok) /\ kv_rep kvs' ms k /\ num_dicts kvs' = num_dicts kvs.
Proof.
  intros Hrep Hi Hsz. destruct (kv_rep_get _ _ _ _ Hrep Hi) as (s & Hs & Hok & _ & Hg). unfold kvstoreDictExpand.
  destruct (createDictIfNeeded_spec type canon kvs didx s (kh_base _ _ _ _ _ _ Hrep) (proj1 Hi) Hs) as (kvs1 & -> & Hst). rewrite ret_bind.
  pose proof (slot_or_new_ok _ _ _ Hok) as Hok1.
  destruct (dictExpand_spec type canon can_resize (slot_or_new s) size (proj1 Hok1) Hsz) as (d' & ok & E & _). rewrite E, ret_bind.
  pose proof (dictExpand_frame type can_resize grows _ _ _ E) as Hgr.
  destruct (created_same kvs ms k didx s kvs1 d' Hrep Hi Hs Hst Hgr (expand_same _ _ _ _ Hok1 Hsz E)) as (kvs' & -> & Hrep' & Hn).
  rewrite ret_bind. by exists kvs', ok.
Qed.

Lemma expand_dicts_spec newsize try_expand avail skip_cb ms k n : avail_size newsize -> forall i kvs, kv_rep kvs ms k -> 0 <= i ->
  i + Z.of_nat n <= num_dicts kvs ->
  exists kvs' ok, expand_dicts type can_resize n i kvs newsize try_expand avail skip_cb = Ret (kvs', ok) /\ kv_rep kvs' ms k /\
    num_dicts kvs' = num_dicts kvs.
Proof.
  intros Hsz. induction n as [|n IH]; intros i kvs Hrep Hi Hn; cbn [expand_dicts]; [by exists kvs, true|].
  assert (0 <= i < num_dicts kvs) as Hi' by lia.
  destruct (match skip_cb with Some _ => _ | None => _ end); [apply IH; [done|lia|lia]|].
  destruct (kv_rep_get _ _ _ _ Hrep Hi') as (s & Hs & Hok & _ & _).
  destruct (createDictIfNeeded_spec type canon kvs i s (kh_base _ _ _ _ _ _ Hrep) Hi Hs) as (kvs1 & -> & Hst). rewrite ret_bind.
  pose proof (slot_or_new_ok _ _ _ Hok) as Hok1.
  assert (exists d' ok, (if try_expand then dictTryExpand type can_resize (slot_or_new s) newsize (avail i)
      else dictExpand type can_resize (slot_or_new s) newsize) = Ret (d', ok) /\
    grows (slot_or_new s) d' /\ same_contents type canon (slot_or_new s) d') as (d' & ok & -> & Hgr & Hsc).
  { destruct try_expand.
    - destruct (dictTryExpand_same (slot_or_new s) newsize (avail i) Hok1 Hsz) as (d' & ok & E & Hsc). exists d', ok.
      split; [done|]. split; [|done]. exact (dictTryExpand_frame type can_resize grows _ _ _ _ E).
    - destruct (dictExpand_spec type canon can_resize (slot_or_new s) newsize (proj1 Hok1) Hsz) as (d' & ok & E & _). exists d', ok.
      split; [done|]. split; [exact (dictExpand_frame type can_resize grows _ _ _ E)|by apply (expand_same _ _ _ _ Hok1 Hsz E)]. }
  rewrite ret_bind. destruct (created_same kvs ms k i s kvs1 d' Hrep Hi' Hs Hst Hgr Hsc) as (kvs' & -> & Hrep' & Hn'). rewrite ret_bind.
  destruct (try_expand && negb ok); [by exists kvs', false|]. rewrite <- Hn'. apply IH; [done|lia|lia].
Qed.

Lemma kvstoreExpand_spec kvs ms k newsize try_expand avail skip_cb : kv_rep kvs ms k -> avail_size newsize ->
  exists kvs' ok, kvstoreExpand type can_resize kvs newsize try_expand avail skip_cb = Ret (kvs', ok) /\ kv_rep kvs' ms k /\
    num_dicts kvs' = num_dicts kvs.
Proof.
  intros Hrep Hsz. pose proof (num_dicts_range _ _ _ (kh_base _ _ _ _ _ _ Hrep)). apply expand_dicts_spec; [done|done|lia|lia].
Qed.

(** One dict is resized, if it is there. *)
Lemma resize_slot kvs ms k didx s : kv_rep kvs ms k -> 0 <= didx < num_dicts kvs -> dicts kvs !! Z.to_nat didx = Some s ->
  exists kvs', match slot_dict s with
    | None => Ret kvs
    | Some d =>
      '(d, ok) ← dictShrinkIfNeeded type can_resize d;
      '(d, _) ← (if (ok : bool) then Ret (d, true) else dictExpandIfNeeded type can_resize d);
      dict_done kvs didx d
    end = Ret kvs' /\ kv_rep kvs' ms k /\ num_dicts kvs' = num_dicts kvs /\ resize_cursor kvs' = resize_cursor kvs.
Proof.
  intros Hrep Hi Hs. destruct s as [[d node]|]; cbn [slot_dict]; [|by exists kvs].
  pose proof (kb_slots _ _ _ (kh_base _ _ _ _ _ _ Hrep) _ _ Hs) as [[Hw _] _].
  destruct (dictShrinkIfNeeded_spec type canon can_resize d Hw) as (d1 & ok & E & [Hsc _]). rewrite E, ret_bind.
  pose proof (dictShrinkIfNeeded_frame type can_resize grows _ _ E) as Hgr. cbn [fst] in Hgr.
  assert (exists d2 b, (if (ok : bool) then Ret (d1, true) else dictExpandIfNeeded type can_resize d1) = Ret (d2, b) /\
    grows d d2 /\ same_contents type canon d d2) as (d2 & b & -> & Hg2 & Hsc2).
  { destruct ok; [by exists d1, true|].
    destruct (dictExpandIfNeeded_spec type canon can_resize d1 (sc_wf _ _ _ _ Hsc)) as (d2 & b & E2 & [Hsc2 _] & _). exists d2, b.
    split; [done|]. split; [|by apply (same_contents_trans type canon _ d1)].
    apply (frame_trans grows _ d1); [done|]. exact (dictExpandIfNeeded_frame type can_resize grows _ _ E2). }
  rewrite ret_bind. destruct (done_same kvs ms k didx d node d2 Hrep (proj1 Hi) Hs Hg2 Hsc2) as (kvs' & -> & Hrep' & Hst).
  exists kvs'. split; [done|]. split; [done|]. split; [by apply (step_num type canon) in Hst|]. by destruct Hst as (_ & [] & _).
Qed.

Lemma kv_rep_cursor kvs ms k c : kv_rep kvs ms k -> 0 <= c < num_dicts kvs -> kv_rep (set_resize_cursor kvs c) ms k.
Proof. intros [[] Hm []] Hc. split; [by split|done|by split]. Qed.

Lemma try_resize_spec ms k n : forall kvs, kv_rep kvs ms k ->
  exists kvs', try_resize type can_resize n kvs = Ret kvs' /\ kv_rep kvs' ms k /\ num_dicts kvs' = num_dicts kvs.
Proof.
  induction n as [|n IH]; intros kvs Hrep; cbn [try_resize]; [by exists kvs|].
  pose proof (kh_base _ _ _ _ _ _ Hrep) as Hb. pose proof (kb_cursor _ _ _ Hb) as Hi. pose proof (num_dicts_range _ _ _ Hb) as Hnr.
  destruct (kv_rep_get _ _ _ _ Hrep Hi) as (s & Hs & _ & _ & ->). rewrite ret_bind.
  destruct (resize_slot kvs ms k (resize_cursor kvs) s Hrep Hi Hs) as (kvs1 & -> & Hrep1 & Hn1 & Hc1). rewrite ret_bind.
  rewrite wraps_id by lia. rewrite Z.rem_mod_nonneg by lia.
  destruct (IH (set_resize_cursor kvs1 ((resize_cursor kvs + 1) mod num_dicts kvs1))) as (kvs' & -> & Hrep' & Hn').
  { apply kv_rep_cursor; [done|]. apply Z.mod_pos_bound. lia. }
  exists kvs'. split; [done|]. split; [done|]. rewrite Hn'. exact Hn1.
Qed.

Lemma kvstoreTryResizeDicts_spec kvs ms k limit : kv_rep kvs ms k ->
  exists kvs', kvstoreTryResizeDicts type can_resize kvs limit = Ret kvs' /\ kv_rep kvs' ms k /\ num_dicts kvs' = num_dicts kvs.
Proof. apply try_resize_spec. Qed.

Lemma rehash_until_spec calls : forall d, dict_ok d -> exists d', rehash_until type can_resize calls d = Ret d' /\ grows d d' /\
  same_contents type canon d d'.
Proof.
  induction calls as [|calls IH]; intros d [Hw Hp]; cbn [rehash_until].
  - exists d. split; [done|]. split; [by apply same_log|by apply same_contents_refl].
  - destruct (dictRehash_spec type canon can_resize d 100 Hw) as (d1 & more & E & Hr). rewrite E, ret_bind.
    pose proof (dictRehash_frame type can_resize grows _ _ _ E) as Hg. pose proof (re_same _ _ _ _ _ _ _ Hr) as Hsc. destruct more; [|by exists d1].
    destruct (IH d1 (same_ok _ _ (conj Hw Hp) Hsc)) as (d' & -> & Hg' & Hsc'). exists d'. split; [done|].
    split; [by apply (frame_trans grows _ d1)|by apply (same_contents_trans type canon _ d1)].
Qed.

Lemma kvstoreIncrementallyRehash_spec ms k times : forall kvs, kv_rep kvs ms k ->
  exists kvs', kvstoreIncrementallyRehash type can_resize kvs times = Ret kvs' /\ kv_rep kvs' ms k /\ num_dicts kvs' = num_dicts kvs.
Proof.
  induction times as [|calls times IH]; intros kvs Hrep; cbn [kvstoreIncrementallyRehash]; [by exists kvs|].
  destruct (rehashing kvs) as [|didx l] eqn:El; [by exists kvs|].
  pose proof (kh_base _ _ _ _ _ _ Hrep) as Hb.
  assert (didx ∈ rehashing kvs) as Hin by (rewrite El; left).
  apply (kb_rehashing _ _ _ Hb) in Hin as (Hi & s & Hs & Hst). rewrite (GetDict_slot _ _ _ Hi Hs), ret_bind.
  destruct s as [[d node]|]; [|cbn in Hst; lia]. cbn [slot_dict]. pose proof (kb_slots _ _ _ Hb _ _ Hs) as [Hok _].
  unfold dictRehashMicroseconds.
  assert (exists d', (if 0 <? pauserehash d then Ret d else rehash_until type can_resize (S calls) d) = Ret d' /\ grows d d' /\
    same_contents type canon d d') as (d' & -> & Hg & Hsc).
  { destruct (0 <? pauserehash d); [|by apply rehash_until_spec]. exists d. split; [done|].
    split; [by apply same_log|by apply same_contents_refl, Hok]. }
  rewrite ret_bind. destruct (done_same kvs ms k didx d node d' Hrep Hi Hs Hg Hsc) as (kvs1 & -> & Hrep1 & Hst1). rewrite ret_bind.
  destruct (IH kvs1 Hrep1) as (kvs' & -> & Hrep' & Hn). exists kvs'. split; [done|]. split; [done|].
  rewrite Hn. by apply (step_num type canon) in Hst1.
Qed.
(** ** Creation and clearing *)

(** A slot without keys, buckets or rehashing. *)
Definition blank s : Prop :=
  match s with
  | Some (d, node) => dict_ok d /\ dict_map type canon d = ∅ /\ ht_size_exp (ht0 d) = -1 /\ ht_size_exp (ht1 d) = -1 /\
      dictIsRehashing d = false /\ node = false
  | None => True
  end.

(** What creation and clearing end with. *)
Definition reset_counters kvs sizes : kvstore :=
  set_bucket_count (set_keys (set_resize_cursor (set_rehashing kvs [] 0) 0) 0 0 sizes) 0.

Lemma ksum_0 (f : slot -> Z) (l : list slot) : (forall i s, l !! i = Some s -> f s = 0) -> ksum f l = 0.
Proof.
  induction l as [|s l IH]; intros H; [done|]. unfold ksum in *. cbn. rewrite (H 0%nat s) by done.
  rewrite IH; [done|]. intros i s' Hs. by apply (H (S i)).
Qed.

Lemma fwTreeCreate_rep bits : 0 <= bits <= 29 -> Rep (fwTreeCreate bits) (replicate (Z.to_nat (2 ^ bits)) 0).
Proof.
  intros Hb. pose proof (Z.pow_le_mono_r 2 bits 29). unfold fwTreeCreate.
  rewrite Z.shiftl_mul_pow2, Z.mul_1_l, wraps_id by lia. by apply zeros_rep.
Qed.

Lemma reset_rep kvs sizes : 0 <= num_dicts_bits kvs <= 16 -> num_dicts kvs = 2 ^ num_dicts_bits kvs -> Zlen (dicts kvs) = num_dicts kvs ->
  allocated_dicts kvs = ksum slot_alloc (dicts kvs) -> (forall i s, dicts kvs !! i = Some s -> blank s) ->
  (if num_dicts kvs =? 1 then sizes = None else exists ft, sizes = Some ft /\ Rep ft (replicate (length (dicts kvs)) 0)) ->
  kv_rep (reset_counters kvs sizes) (replicate (length (dicts kvs)) ∅) 0.
Proof.
  intros Hb Hn Hl Ha Hbl Hsz. assert (1 <= num_dicts kvs) as Hn1 by lia.
  assert (msize <$> replicate (length (dicts kvs)) (∅ : dmap) = replicate (length (dicts kvs)) 0) as Hms by apply fmap_replicate.
  assert (forall i s, dicts kvs !! i = Some s -> slot_ok type canon s /\ slot_map s = ∅ /\ slot_buckets s = 0 /\ slot_state s = -1) as Hs.
  { intros i [[d node]|] Hi; [|done]. destruct (Hbl _ _ Hi) as (Hok & Hm & H0 & H1 & Hr & ->). cbn. unfold rehash_state.
    rewrite H0, H1, Hr. done. }
  split.
  - split; try done; cbn [dicts bucket_count overhead_hashtable_rehashing rehashing resize_cursor num_dicts
        reset_counters set_bucket_count set_keys set_resize_cursor set_rehashing].
    + intros i s Hi. by apply (Hs i).
    + rewrite ksum_0; [done|]. intros i s Hi. by apply (Hs i).
    + rewrite ksum_0; [done|]. intros i s Hi. unfold slot_overhead. by destruct (Hs i s Hi) as (_ & _ & _ & ->).
    + constructor.
    + intros i. split; [intros H; by apply not_elem_of_nil in H|]. intros (_ & s & Hi & Hst). destruct (Hs _ s Hi) as (_ & _ & _ & E). lia.
    + lia.
  - cbn. apply list_eq. intros i. rewrite list_lookup_fmap. destruct (dicts kvs !! i) as [s|] eqn:Hi; cbn.
    + destruct (Hs i s Hi) as (_ & -> & _). symmetry. apply lookup_replicate_2. by eapply lookup_lt_Some.
    + symmetry. apply lookup_replicate_None. by apply lookup_ge_None.
  - rewrite Hms. split; cbn.
    + unfold Zlen in *. by rewrite length_replicate.
    + by apply Forall_replicate.
    + by rewrite zsum_replicate_0.
    + by rewrite zsum_replicate_0.
    + rewrite fmap_replicate. by rewrite zsum_replicate_0.
    + done.
Qed.

Lemma create_dicts_spec n : forall i kvs, 0 <= i -> i + Z.of_nat n <= num_dicts kvs -> kv_base type canon kvs ->
  (forall i s, dicts kvs !! i = Some s -> blank s) ->
  exists kvs', create_dicts n i kvs = Ret kvs' /\ kv_base type canon kvs' /\ kept kvs kvs' /\ (forall i s, dicts kvs' !! i = Some s -> blank s).
Proof.
  induction n as [|n IH]; intros i kvs Hi Hn Hb Hbl; cbn [create_dicts]; [by exists kvs|].
  destruct (slot_get type canon kvs i Hb ltac:(lia)) as (s & Hs & Hok).
  destruct (createDictIfNeeded_spec type canon kvs i s Hb Hi Hs) as (kvs1 & -> & Hb1 & Hk1 & Hd1). rewrite ret_bind.
  destruct (IH (i + 1) kvs1) as (kvs' & -> & Hb' & Hk' & Hbl'); [lia|rewrite (kp_num _ _ Hk1); lia|done| |].
  - intros j s'. rewrite Hd1, list_lookup_insert_Some. intros [(_ & <- & _)|[_ Hj]]; [|by eapply Hbl].
    pose proof (Hbl _ _ Hs) as Hbs. destruct s as [[d node]|].
    + destruct Hbs as (? & ? & ? & ? & Hr & ->). cbn. by rewrite Hr.
    + split; [apply dictCreate_ok|]. split; [by apply dict_map_nil|done].
  - exists kvs'. split; [done|]. split; [done|]. split; [by transitivity kvs1|done].
Qed.

Lemma kvstoreCreate_spec bits fl : 0 <= bits <= 16 ->
  exists kvs, kvstoreCreate (SK:=SK) (V:=V) bits fl = Ret kvs /\ num_dicts kvs = 2 ^ bits /\ kv_rep kvs (replicate (Z.to_nat (2 ^ bits)) ∅) 0.
Proof.
  intros Hb. unfold kvstoreCreate. destruct (Z.leb_spec bits 16); [|lia]. cbn [c_assert]. rewrite ret_bind.
  pose proof (Z.pow_le_mono_r 2 bits 16 ltac:(lia) ltac:(lia)) as Hle. pose proof (Z.pow_pos_nonneg 2 bits ltac:(lia) ltac:(lia)) as Hpos.
  rewrite Z.shiftl_mul_pow2, Z.mul_1_l, wraps_id by lia.
  set (kvs0 := Build_kvstore fl (replicate (Z.to_nat (2 ^ bits)) None) (2 ^ bits) bits [] 0 0 0 0 0 None 0).
  assert (kv_base type canon kvs0) as Hb0.
  { split; try done; unfold kvs0; cbn [dicts bucket_count overhead_hashtable_rehashing rehashing resize_cursor num_dicts allocated_dicts];
      rewrite ?ksum_replicate; cbn [slot_alloc slot_buckets slot_overhead slot_state]; rewrite ?Z.mul_0_r; try done; try lia.
    - unfold Zlen. rewrite length_replicate. lia.
    - intros i s Hi. by apply lookup_replicate_1 in Hi as [-> _].
    - constructor.
    - intros i. split; [intros Hi; by apply not_elem_of_nil in Hi|]. intros (_ & s & Hi & Hst). apply lookup_replicate_1 in Hi as [-> _]. cbn in Hst. lia. }
  assert (forall i s, dicts kvs0 !! i = Some s -> blank s) as Hbl0 by (intros i s Hi; by apply lookup_replicate_1 in Hi as [-> _]).
  assert (exists kvs1, (if has_flag fl KVSTORE_ALLOCATE_DICTS_ON_DEMAND then Ret kvs0 else create_dicts (Z.to_nat (2 ^ bits)) 0 kvs0) = Ret kvs1 /\
    kv_base type canon kvs1 /\ kept kvs0 kvs1 /\ (forall i s, dicts kvs1 !! i = Some s -> blank s)) as (kvs1 & -> & Hb1 & Hk1 & Hbl1).
  { destruct (has_flag _ _); [by exists kvs0|]. apply create_dicts_spec; try done. cbn. lia. }
  rewrite ret_bind. eexists. split; [reflexivity|]. destruct Hk1 as [_ Kn Kb _ _ _ _]. cbn in Kn, Kb. split; [done|].
  destruct Hb1 as [_ _ Hlen _ Ha _ _ _ _ _]. assert (length (dicts kvs1) = Z.to_nat (2 ^ bits)) as Hl by (unfold Zlen in Hlen; lia).
  rewrite <- Hl. apply reset_rep; rewrite ?Kb, ?Kn, ?Hl; try done; [by rewrite Hlen|].
  destruct (Z.ltb_spec 1 (2 ^ bits)), (Z.eqb_spec (2 ^ bits) 1); try lia; [|done].
  eexists. split; [done|]. apply fwTreeCreate_rep. lia.
Qed.

(** Clearing a dict whose node was cleared before: its events only touch what
    is reset afterwards. *)
Lemma replay_forget didx d evs : forall kvs st node,
  dicts kvs !! Z.to_nat didx = Some (Some (d, node)) -> -1 <= st -> (st = -1 -> node = false) -> foldl ev_step st evs = -1 ->
  exists R o b, foldl (dict_event didx) kvs evs = kv_upd kvs didx (Some (d, false)) R o b.
Proof.
  induction evs as [|e evs IH]; intros kvs st node Hs Hst Hnode Hev; cbn [foldl] in *.
  - exists (rehashing kvs), (overhead_hashtable_rehashing kvs), (bucket_count kvs). rewrite (Hnode Hev) in Hs. by rewrite kv_upd_id.
  - assert (-1 <= ev_step st e) as Hst1.
    { destruct (Z.le_gt_cases (-1) (ev_step st e)) as [|Hp]; [done|]. exfalso.
      assert (ev_step st e = -2) as E by (destruct e; cbn [ev_step] in *; repeat case_match; lia).
      rewrite E in Hev. clear -Hev. induction evs as [|[] evs IH]; cbn in *; try lia; auto. }
    assert (exists node' R1 o1 b1, dict_event didx kvs e = kv_upd kvs didx (Some (d, node')) R1 o1 b1 /\ (ev_step st e = -1 -> node' = false))
      as (node' & R1 & o1 & b1 & E1 & Hn1).
    { destruct e as [from|from|delta|k|v]; cbn [dict_event ev_step] in *.
      - unfold kvstoreDictRehashingStarted, set_node. cbn [dicts set_rehashing]. rewrite Hs. exists true, (rehashing kvs ++ [didx]).
        do 2 eexists. split; [done|]. destruct (_ && _) eqn:Ea; [|lia]. apply andb_true_iff in Ea as [_ Ea%Z.leb_le]. lia.
      - unfold kvstoreDictRehashingCompleted, set_node, get_node. rewrite Hs. exists false. destruct node.
        + cbn [dicts set_rehashing]. rewrite Hs. do 3 eexists. split; [reflexivity|done].
        + do 3 eexists. split; [|done]. unfold set_rehashing, kv_upd. by rewrite list_insert_id.
      - exists node. do 3 eexists. split; [|done]. unfold kvstoreDictBucketChanged, kv_upd. by rewrite list_insert_id.
      - exists node. do 3 eexists. split; [|done]. symmetry. by apply kv_upd_id.
      - exists node. do 3 eexists. split; [|done]. symmetry. by apply kv_upd_id. }
    assert (Z.to_nat didx < length (dicts kvs))%nat as Hlt by (by eapply lookup_lt_Some).
    destruct (IH (dict_event didx kvs e) (ev_step st e) node') as (R & o & b & E); try done.
    { rewrite E1. by apply kv_upd_slot. }
    exists R, o, b. by rewrite E, E1, kv_upd_upd.
Qed.

(** Between two iterations of [kvstoreEmpty]: the first [i] slots are blank. *)
Record emptying (i : Z) kvs kvs' : Prop := {
  em_bits : num_dicts_bits kvs' = num_dicts_bits kvs;
  em_num : num_dicts kvs' = num_dicts kvs;
  em_sizes : dict_sizes kvs' = dict_sizes kvs;
  em_len : length (dicts kvs') = length (dicts kvs);
  em_alloc : allocated_dicts kvs' = ksum slot_alloc (dicts kvs');
  em_blank : forall j s, dicts kvs' !! j = Some s -> Z.of_nat j < i -> blank s;
  em_ok : forall j s, dicts kvs' !! j = Some s -> slot_ok type canon s;
}.

Lemma emptying_set i kvs kvs1 kvs2 s s' : emptying i kvs kvs1 -> 0 <= i -> dicts kvs1 !! Z.to_nat i = Some s -> blank s' ->
  num_dicts_bits kvs2 = num_dicts_bits kvs1 -> num_dicts kvs2 = num_dicts kvs1 -> dict_sizes kvs2 = dict_sizes kvs1 ->
  dicts kvs2 = <[Z.to_nat i := s']> (dicts kvs1) -> allocated_dicts kvs2 = allocated_dicts kvs1 - slot_alloc s + slot_alloc s' ->
  emptying (i + 1) kvs kvs2.
Proof.
  intros [] Hi Hs Hbl Hb Hn Hsz Hd Ha. split; rewrite ?Hb, ?Hn, ?Hsz, ?Hd, ?Ha; try done.
  - by rewrite length_insert.
  - rewrite (ksum_insert _ _ _ _ _ Hs). lia.
  - intros j sj. rewrite list_lookup_insert_Some. intros [(_ & <- & _)|[Hne Hj]] Hlt; [done|]. eapply em_blank0; [done|lia].
  - intros j sj. rewrite list_lookup_insert_Some. intros [(_ & <- & _)|[Hne Hj]]; [|by eapply em_ok0].
    destruct s' as [[d node]|]; [|done]. destruct Hbl as (? & _ & _ & _ & Hr & ->). by split.
Qed.

Lemma empty_dict_spec i kvs kvs1 : emptying i kvs kvs1 -> Zlen (dicts kvs) = num_dicts kvs -> num_dicts kvs <= 2 ^ 16 -> 0 <= i < num_dicts kvs ->
  exists kvs2, empty_dict canFreeDict kvs1 i = Ret kvs2 /\ emptying (i + 1) kvs kvs2.
Proof.
  intros Hem Hlen Hnum Hi. pose proof (proj1 Hi) as Hi0.
  destruct (lookup_lt_is_Some_2 (dicts kvs1) (Z.to_nat i)) as [s Hs]; [rewrite (em_len _ _ _ Hem); unfold Zlen in Hlen; lia|].
  unfold empty_dict. rewrite (GetDict_slot _ _ _ Hi0 Hs), ret_bind. destruct s as [[d node]|]; cbn [slot_dict].
  - pose proof (em_ok _ _ _ Hem _ _ Hs) as [[Hw _] _]. destruct (dictEmpty_spec type canon d Hw) as (log & He & Hw' & _).
    destruct (new_events type canon d (dictEmpty d) Hw Hw' (dictEmpty_grows d)) as (evs & Hdrop & Hev & _).
    set (d' := dictEmpty d) in *. assert (blank (Some (d', false))) as Hbl.
    { rewrite He in *. split; [by split|]. split; [by apply dict_map_nil|done]. }
    assert (rehash_state d' = -1) as Hst' by (by rewrite He). rewrite Hst' in Hev.
    assert (Z.to_nat i < length (dicts kvs1))%nat as Hlt by (by eapply lookup_lt_Some).
    unfold set_node. rewrite Hs. unfold dict_done at 1. cbn [dicts set_slot set_dicts].
    rewrite (rd_lookup _ _ (Some (d, false))) by (done || by apply list_lookup_insert_eq). rewrite ret_bind, Hdrop.
    match goal with |- context [foldl _ ?x evs] => set (kvs2 := x) end.
    destruct (replay_forget i d' evs kvs2 (rehash_state d) false) as (R & o & b & ->); [|apply state_range|done|done|].
    { cbn. apply list_lookup_insert_eq. by rewrite length_insert. }
    rewrite ret_bind. set (kvs3 := kv_upd kvs2 i (Some (d', false)) R o b).
    assert (dicts kvs3 = <[Z.to_nat i := Some (d', false)]> (dicts kvs1)) as Hd3.
    { cbn. by rewrite !list_insert_insert_eq. }
    assert (dicts kvs3 !! Z.to_nat i = Some (Some (d', false))) as Hs3 by (rewrite Hd3; by apply list_lookup_insert_eq).
    assert (allocated_dicts kvs3 = allocated_dicts kvs1) as Ha3 by done.
    assert (emptying (i + 1) kvs kvs3) as Hem3 by (apply (emptying_set i kvs kvs1 kvs3 (Some (d, node)) (Some (d', false))); try done; cbn; lia).
    unfold freeDictIfNeeded, kvstoreDictSize, kvstoreDictIsRehashingPaused. rewrite (GetDict_slot _ _ _ Hi0 Hs3), !ret_bind.
    destruct (negb (has_flag _ _)); [by exists kvs3|]. cbn [slot_dict]. rewrite !ret_bind.
    destruct (negb (_ =? 0)); [by exists kvs3|]. destruct (dictIsRehashingPaused d'); [by exists kvs3|].
    destruct (match canFreeDict with Some _ => _ | None => _ end); [by exists kvs3|].
    destruct (dictRelease_events type canon d' Hw') as (evs' & Hdrop' & Hev' & _).
    unfold dict_done. rewrite (rd_lookup _ _ _ Hi0 Hs3), !ret_bind, Hdrop'. rewrite Hst' in Hev'.
    destruct (replay_forget i (dictRelease d') evs' (set_slot kvs3 i (Some (dictRelease d', false))) (-1) false) as (R' & o' & b' & ->);
      [|done|done|done|].
    { cbn [dicts set_slot set_dicts]. apply list_lookup_insert_eq. by rewrite Hd3, length_insert. }
    eexists. split; [reflexivity|].
    pose proof (ksum_count slot_alloc (dicts kvs1) ltac:(by intros [?|])) as Hcnt. rewrite <- (em_alloc _ _ _ Hem) in Hcnt.
    assert (1 <= allocated_dicts kvs1) as Hpos.
    { rewrite (em_alloc _ _ _ Hem). pose proof (ksum_insert slot_alloc (dicts kvs1) _ _ None Hs) as Hins. cbn in Hins.
      pose proof (ksum_count slot_alloc (<[Z.to_nat i := None]> (dicts kvs1)) ltac:(by intros [?|])). lia. }
    apply (emptying_set i kvs kvs1 _ (Some (d, node)) None); try done.
    + cbn [dicts add_allocated set_slot set_dicts kv_upd]. by rewrite Hd3, !list_insert_insert_eq.
    + cbn [allocated_dicts add_allocated set_slot set_dicts kv_upd slot_alloc]. rewrite Ha3, wraps_id; [lia|lia|].
      unfold Zlen in *. rewrite (em_len _ _ _ Hem) in Hcnt. lia.
  - exists kvs1. split; [done|]. apply (emptying_set i kvs kvs1 kvs1 None None); try done; [by rewrite list_insert_id|lia].
Qed.

Lemma empty_dicts_spec n : forall i kvs kvs1, emptying i kvs kvs1 -> Zlen (dicts kvs) = num_dicts kvs -> num_dicts kvs <= 2 ^ 16 ->
  0 <= i -> i + Z.of_nat n = num_dicts kvs ->
  exists kvs2, empty_dicts canFreeDict n i kvs1 = Ret kvs2 /\ emptying (num_dicts kvs) kvs kvs2.
Proof.
  induction n as [|n IH]; intros i kvs kvs1 Hem Hlen Hnum Hi Hn; cbn [empty_dicts].
  - exists kvs1. split; [done|]. by replace (num_dicts kvs) with i by lia.
  - destruct (empty_dict_spec i kvs kvs1 Hem Hlen Hnum) as (kvs2 & -> & Hem2); [lia|]. rewrite ret_bind. apply (IH (i + 1)); (done || lia).
Qed.

Lemma kvstoreEmpty_spec kvs ms k : kv_rep kvs ms k ->
  exists kvs', kvstoreEmpty canFreeDict kvs = Ret kvs' /\ num_dicts kvs' = num_dicts kvs /\ kv_rep kvs' (replicate (length ms) ∅) 0.
Proof.
  intros [Hb Hm Hc]. pose proof (num_dicts_range _ _ _ Hb) as Hnr. pose proof Hb as [Hbits Hnum Hlen Hok Ha _ _ _ _ _].
  unfold kvstoreEmpty. destruct (empty_dicts_spec (Z.to_nat (num_dicts kvs)) 0 kvs kvs) as (kvs1 & -> & [H1 H2 H3 H4 H5 H6 H7]); try done; try lia.
  { split; try done. intros j s _ Hj. lia. }
  rewrite ret_bind. eexists. split; [reflexivity|]. split; [done|]. unfold Zlen in Hlen.
  assert (length ms = length (dicts kvs1)) as -> by (rewrite <- Hm, length_fmap; lia).
  apply reset_rep; rewrite ?H1, ?H2; try done; [unfold Zlen; lia| |].
  - intros i s Hi. apply (H6 i s Hi). apply lookup_lt_Some in Hi. lia.
  - cbn [dict_sizes set_resize_cursor set_rehashing]. rewrite H3. pose proof (kc_sizes _ _ _ Hc) as Hsz.
    destruct (num_dicts kvs =? 1); [by rewrite Hsz|]. destruct Hsz as (ft & -> & HR). exists (fwTreeClear ft). split; [done|].
    pose proof (fwTreeCreate_Clear_rep 0 ft _ ltac:(lia) HR) as [_ HR']. rewrite length_fmap in HR'.
    assert (length (dicts kvs1) = length ms) as ->; [|done]. rewrite <- Hm, length_fmap. lia.
Qed.
End operations.
