(* ===== verification/KvstoreFind.v ===== *)
(** * KvstoreFind: finding and scanning the dicts of a kvstore

    The dict of the n-th key, the next dict with keys, and the scan by cursors
    over all the dicts, on a store that represents a list of maps. *)

From stdpp Require Import countable sets fin_maps gmap.
From S2P Require Import Prelude Memory Fwtree Dict DictInv DictSpec DictScan DictLink DictFrame Kvstore KvstoreInv KvstoreOps.

(** ** Finding dicts *)

Section find.
Context {K SK V : Type} (type : dictType K SK V).
Context {C : Type} (canon : K -> C) `{!EqDecision C, !Countable C, !DictKeys type canon}.
Abbreviation kvstore := (kvstore SK V).
Abbreviation dmap := (gmap C (SK * option V)).
Abbreviation kv_rep := (kv_rep type canon).
Implicit Types (kvs : kvstore) (ms : list dmap).

Lemma kv_rep_length kvs ms k : kv_rep kvs ms k -> Zlen ms = num_dicts kvs.
Proof. intros [Hb <- _]. rewrite <- (kb_len _ _ _ Hb). unfold Zlen. by rewrite length_fmap. Qed.

Lemma kv_rep_keys kvs ms k : kv_rep kvs ms k -> kvstoreSize kvs = zsum (msize <$> ms).
Proof. intros [_ _ Hc]. apply Hc. Qed.

Lemma msizes_len ms : Zlen (msize <$> ms) = Zlen ms.
Proof. unfold Zlen. by rewrite length_fmap. Qed.

Lemma find_key_index kvs ms k target : kv_rep kvs ms k -> 1 <= target <= kvstoreSize kvs ->
  exists didx, kvstoreFindDictIndexByKeyIndex kvs target = Ret didx /\ 0 <= didx < num_dicts kvs /\
    psum (msize <$> ms) didx < target <= psum (msize <$> ms) (didx + 1).
Proof.
  intros Hrep Ht. pose proof (kv_rep_length _ _ _ Hrep) as Hl. rewrite (kv_rep_keys _ _ _ Hrep) in Ht.
  unfold kvstoreFindDictIndexByKeyIndex. rewrite (kv_rep_keys _ _ _ Hrep).
  destruct (Z.eqb_spec (zsum (msize <$> ms)) 0) as [E|E]; [lia|]. rewrite orb_false_r.
  pose proof (kc_sizes _ _ _ (kh_counts _ _ _ _ _ _ Hrep)) as Hsz. destruct (Z.eqb_spec (num_dicts kvs) 1) as [E1|E1].
  - exists 0. split; [done|]. split; [lia|]. rewrite psum_0, psum_all; [lia| |lia]. pose proof (msizes_len ms). unfold Zlen in *. lia.
  - destruct Hsz as (ft & -> & HR). destruct (Z.leb_spec target (zsum (msize <$> ms))); [|lia]. cbn [c_assert]. rewrite ret_bind.
    destruct (fwTreeFindIndex_rep ft _ target HR Ht) as (didx & -> & Hd & Hp). exists didx. split; [done|].
    rewrite <- (rep_len _ _ HR), msizes_len, Hl in Hd. done.
Qed.

(** An index is determined by the keys before it. *)
Lemma psum_index (a : list Z) t i j : Forall (fun x => 0 <= x) a -> psum a i < t <= psum a (i + 1) -> psum a j < t <= psum a (j + 1) -> i = j.
Proof.
  intros Hnn Hi Hj. destruct (Z.lt_trichotomy i j) as [Hlt|[|Hlt]]; [|done|].
  - pose proof (psum_mono a (i + 1) j Hnn ltac:(lia)). lia.
  - pose proof (psum_mono a (j + 1) i Hnn ltac:(lia)). lia.
Qed.

Definition map_empty_at ms (didx : Z) : Prop := ms !! Z.to_nat didx = Some ∅.

Lemma msize_0 (m : dmap) : msize m = 0 <-> m = ∅.
Proof. unfold msize. rewrite <- (map_size_empty_iff m). lia. Qed.

Lemma msizes_0 ms i : (msize <$> ms) !! i = Some 0 <-> ms !! i = Some ∅.
Proof.
  rewrite list_lookup_fmap. destruct (ms !! i) as [m|]; cbn; [|done]. split; intros [= E].
  - f_equal. by apply msize_0.
  - by subst m.
Qed.

Lemma next_non_empty kvs ms k didx : kv_rep kvs ms k -> 0 <= didx < num_dicts kvs ->
  exists i, kvstoreGetNextNonEmptyDictIndex kvs didx = Ret i /\
    (i = -1 /\ (forall j, didx < j < num_dicts kvs -> map_empty_at ms j) \/
     didx < i < num_dicts kvs /\ ~ map_empty_at ms i /\ forall j, didx < j < i -> map_empty_at ms j).
Proof.
  intros Hrep Hi. pose proof (kv_rep_length _ _ _ Hrep) as Hl. unfold kvstoreGetNextNonEmptyDictIndex.
  pose proof (kh_counts _ _ _ _ _ _ Hrep) as Hc. pose proof (kc_sizes _ _ _ Hc) as Hsz.
  destruct (Z.eqb_spec (num_dicts kvs) 1) as [E1|E1].
  - assert (didx = 0) as -> by lia. exists (-1). split; [done|]. left. split; [done|]. intros; lia.
  - destruct Hsz as (ft & -> & HR). pose proof (msizes_len ms) as Hml. pose proof (kc_total _ _ _ Hc) as Htot.
    destruct (fwTreeFindNextNonEmpty_correct ft _ didx HR) as (i & -> & Hcase); [lia|unfold UINT64_MAX; lia|].
    exists i. split; [done|]. rewrite Hml, Hl in Hcase. destruct Hcase as [[-> Hz]|(Hr & Hne & Hz)]; [left|right].
    + split; [done|]. intros j Hj. apply msizes_0. by apply Hz.
    + split; [done|]. split; [by intros Hm; apply Hne, msizes_0|]. intros j Hj. apply msizes_0. by apply Hz.
Qed.

Lemma first_non_empty kvs ms k : kv_rep kvs ms k ->
  exists i, kvstoreGetFirstNonEmptyDictIndex kvs = Ret i /\
    (i = -1 /\ (forall j, 0 <= j < num_dicts kvs -> map_empty_at ms j) \/
     0 <= i < num_dicts kvs /\ ~ map_empty_at ms i /\ forall j, 0 <= j < i -> map_empty_at ms j).
Proof.
  intros Hrep. pose proof (kv_rep_length _ _ _ Hrep) as Hl. unfold kvstoreGetFirstNonEmptyDictIndex.
  pose proof (kh_counts _ _ _ _ _ _ Hrep) as Hc. pose proof (kc_sizes _ _ _ Hc) as Hsz. pose proof (kc_nonneg _ _ _ Hc) as Hnn.
  pose proof (num_dicts_range _ _ _ (kh_base _ _ _ _ _ _ Hrep)) as Hnr. pose proof (msizes_len ms) as Hml.
  assert (forall j, 0 <= j < num_dicts kvs -> exists x, (msize <$> ms) !! Z.to_nat j = Some x) as Hsome.
  { intros j Hj. apply lookup_lt_is_Some_2. unfold Zlen in *. lia. }
  rewrite (kv_rep_keys _ _ _ Hrep). destruct (Z.eqb_spec (zsum (msize <$> ms)) 0) as [E|E].
  - exists (-1). split; [done|]. left. split; [done|]. intros j Hj. apply msizes_0. destruct (Hsome j Hj) as [x Hx]. rewrite Hx.
    pose proof (zsum_elem _ _ _ Hnn Hx). f_equal. lia.
  - pose proof (zsum_nonneg _ Hnn) as Hpos.
    destruct (find_key_index kvs ms k 1 Hrep) as (i & Hf & Hi & Hp); [rewrite (kv_rep_keys _ _ _ Hrep); lia|].
    assert (match num_dicts kvs =? 1 with true => Ret 0 | false =>
      match dict_sizes kvs with Some ft => fwTreeFindFirstNonEmpty ft | None => OutOfBounds end end = Ret i) as ->.
    { unfold kvstoreFindDictIndexByKeyIndex in Hf. rewrite (kv_rep_keys _ _ _ Hrep) in Hf.
      destruct (Z.eqb_spec (zsum (msize <$> ms)) 0); [lia|]. rewrite orb_false_r in Hf. destruct (num_dicts kvs =? 1); [done|].
      destruct (Z.leb_spec 1 (zsum (msize <$> ms))); [|lia]. done. }
    exists i. split; [done|]. right. split; [done|]. split.
    + intros Hm. apply msizes_0 in Hm. pose proof (psum_succ _ i 0 ltac:(lia) Hm). lia.
    + intros j Hj. apply msizes_0. destruct (Hsome j ltac:(lia)) as [x Hx]. rewrite Hx. f_equal.
      pose proof (psum_succ _ j x ltac:(lia) Hx). pose proof (psum_mono (msize <$> ms) (j + 1) i Hnn ltac:(lia)).
      pose proof (psum_mono (msize <$> ms) 0 j Hnn ltac:(lia)). pose proof (psum_0 (msize <$> ms) 0 ltac:(lia)). pose proof (zsum_elem _ _ _ Hnn Hx). lia.
Qed.

(** The walk over the dicts with keys, as [kvstoreIteratorNextDict] makes it. *)
Fixpoint non_empty_walk (fuel : nat) kvs (didx : Z) : outcome (list Z) :=
  if didx =? -1 then Ret [] else
  match fuel with
  | O => OutOfFuel
  | S fuel => next ← kvstoreGetNextNonEmptyDictIndex kvs didx; rest ← non_empty_walk fuel kvs next; Ret (didx :: rest)
  end.

Lemma non_empty_walk_spec kvs ms k fuel : kv_rep kvs ms k -> forall i, (i = -1 \/ 0 <= i < num_dicts kvs /\ ~ map_empty_at ms i) ->
  (i <> -1 -> num_dicts kvs - i <= Z.of_nat fuel) ->
  exists l, non_empty_walk fuel kvs i = Ret l /\
    forall j, j ∈ l <-> i <> -1 /\ i <= j < num_dicts kvs /\ ~ map_empty_at ms j.
Proof.
  intros Hrep. induction fuel as [|fuel IH]; intros i Hi Hf; cbn [non_empty_walk].
  - destruct (Z.eqb_spec i (-1)); [|lia]. exists []. split; [done|]. intros j. rewrite elem_of_nil. tauto.
  - destruct (Z.eqb_spec i (-1)) as [|Hne]; [exists []; split; [done|]; intros j; rewrite elem_of_nil; tauto|].
    destruct Hi as [|[Hi Hm]]; [done|]. destruct (next_non_empty kvs ms k i Hrep Hi) as (i' & -> & Hcase). rewrite ret_bind.
    destruct (IH i') as (l & -> & Hl); [destruct Hcase as [[-> _]|(? & ? & _)]; [by left|right; split; [lia|done]]|lia|].
    rewrite ret_bind. exists (i :: l). split; [done|]. intros j. rewrite elem_of_cons, Hl. destruct Hcase as [[-> Hz]|(Hr & _ & Hz)].
    + split; [intros [->|[? _]]; [split; [done|]; split; [lia|done]|done]|]. intros (_ & Hj & Hmj). left.
      destruct (Z.eq_dec j i); [done|]. destruct Hmj. apply Hz. lia.
    + split.
      * intros [->|(_ & ? & ?)]; (split; [done|]; split; [lia|done]).
      * intros (_ & Hj & Hmj). destruct (Z.eq_dec j i); [by left|]. right. split; [lia|]. split; [|done].
        destruct (Z.lt_ge_cases j i'); [|lia]. destruct Hmj. apply Hz. lia.
Qed.

(** The dict with a random key: the number of values [random mod size] that choose
    an index is the number of the keys of its dict. *)
Lemma fair_choice kvs ms k random fair start slow : kv_rep kvs ms k -> kvstoreSize kvs <> 0 -> 0 <= random ->
  exists didx, kvstoreGetFairRandomDictIndex kvs None (random :: fair) start slow = Ret didx /\ 0 <= didx < num_dicts kvs /\
    psum (msize <$> ms) didx <= random mod kvstoreSize kvs < psum (msize <$> ms) (didx + 1).
Proof.
  intros Hrep Hne Hr. unfold kvstoreGetFairRandomDictIndex. pose proof (zsum_nonneg _ (kc_nonneg _ _ _ (kh_counts _ _ _ _ _ _ Hrep))) as Hpos.
  pose proof (kv_rep_keys _ _ _ Hrep) as Hk. assert (0 <= random mod kvstoreSize kvs < kvstoreSize kvs) as Hm by (apply Z.mod_pos_bound; lia).
  destruct (find_key_index kvs ms k (random mod kvstoreSize kvs + 1) Hrep) as (didx & Hf & Hd & Hp); [lia|]. cbn [fair_attempts].
  assert (exists r, (if (num_dicts kvs =? 1) || (kvstoreSize kvs =? 0) then Ret 0
    else kvstoreFindDictIndexByKeyIndex kvs (random mod kvstoreSize kvs + 1)) = Ret r /\ r = didx) as (r & Hif & ->).
  { unfold kvstoreFindDictIndexByKeyIndex in *. destruct (_ || _); [injection Hf as <-|]; by eexists. }
  exists didx. split; [|split; [done|lia]]. destruct (_ || _); [done|]. by rewrite Hif.
Qed.
End find.

(** ** Scanning all the dicts *)

Section scan.
Context {K SK V : Type} (type : dictType K SK V).
Context {C : Type} (canon : K -> C) `{!EqDecision C, !Countable C, !DictKeys type canon}.
Context (canFreeDict : option (kvstore SK V -> Z -> bool)).
Abbreviation kvstore := (kvstore SK V).
Abbreviation dict := (dict SK V).
Abbreviation dmap := (gmap C (SK * option V)).
Abbreviation kv_rep := (kv_rep type canon).
Implicit Types (kvs : kvstore) (ms : list dmap) (d : dict).

(** A client's iteration over a store that changes between the calls. *)
Fixpoint kv_scan_all (kss : list kvstore) (cursor : Z) : outcome (option (list (SK * option V))) :=
  match kss with
  | [] => Ret None
  | kvs :: kss =>
    '(_, cursor, out) ← kvstoreScan canFreeDict kvs cursor (-1) None;
    if cursor =? 0 then Ret (Some out)
    else r ← kv_scan_all kss cursor; Ret (option_map (app out) r)
  end.

(** The cursor of position [v] in the dict at [didx]. *)
Definition kv_cursor (bits didx v : Z) : Z := v * 2 ^ bits + didx.

(** A cursor fits under the index. *)
Definition cursors_fit kvs : Prop :=
  forall i d node, dicts kvs !! i = Some (Some (d, node)) -> scan_exp d <= 64 - num_dicts_bits kvs.

Lemma lor_disjoint a b n : 0 <= n -> 0 <= b < 2 ^ n -> Z.lor (a * 2 ^ n) b = a * 2 ^ n + b.
Proof.
  intros Hn Hb. rewrite <- Z.lxor_lor; [rewrite <- Z.add_nocarry_lxor; [done|]|]; rewrite <- Z.shiftl_mul_pow2 by done;
    apply Z.bits_inj'; intros i Hi; rewrite Z.land_spec, Z.bits_0, Z.shiftl_spec by done;
    (destruct (Z.lt_ge_cases i n); [by rewrite Z.testbit_neg_r by lia|]); rewrite <- (Z.mod_small b (2 ^ n)) by done;
    by rewrite Z.mod_pow2_bits_high, andb_false_r by lia.
Qed.

Lemma add_cursor kvs didx v : kv_base type canon kvs -> 0 <= didx < num_dicts kvs -> 0 <= v < 2 ^ (64 - num_dicts_bits kvs) ->
  addDictIndexToCursor kvs didx v = kv_cursor (num_dicts_bits kvs) didx v.
Proof.
  intros Hb Hi Hv. pose proof (kb_bits _ _ _ Hb) as Hbits. pose proof (kb_num _ _ _ Hb) as Hn. unfold addDictIndexToCursor, kv_cursor.
  destruct (Z.eqb_spec (num_dicts kvs) 1) as [E|E].
  - assert (num_dicts_bits kvs = 0) as ->; [|lia]. destruct (Z.eq_dec (num_dicts_bits kvs) 0); [done|].
    pose proof (Z.pow_gt_1 2 (num_dicts_bits kvs)). lia.
  - destruct (Z.ltb_spec didx 0); [lia|]. rewrite Z.shiftl_mul_pow2 by lia. rewrite wrapu_id; [apply lor_disjoint; lia|].
    replace (2 ^ 64) with (2 ^ (64 - num_dicts_bits kvs) * 2 ^ num_dicts_bits kvs) by (rewrite <- Z.pow_add_r by lia; f_equal; lia). nia.
Qed.

Lemma get_cursor kvs didx v : kv_base type canon kvs -> 0 <= didx < num_dicts kvs -> 0 <= v ->
  getAndClearDictIndexFromCursor kvs (kv_cursor (num_dicts_bits kvs) didx v) = (didx, v).
Proof.
  intros Hb Hi Hv. pose proof (kb_bits _ _ _ Hb) as Hbits. pose proof (kb_num _ _ _ Hb) as Hn. pose proof (num_dicts_range _ _ _ Hb) as Hnr.
  unfold getAndClearDictIndexFromCursor, kv_cursor.
  destruct (Z.eqb_spec (num_dicts kvs) 1) as [E|E].
  - assert (num_dicts_bits kvs = 0) as ->; [|f_equal; lia]. destruct (Z.eq_dec (num_dicts_bits kvs) 0); [done|].
    pose proof (Z.pow_gt_1 2 (num_dicts_bits kvs)). lia.
  - assert (num_dicts kvs - 1 = Z.ones (num_dicts_bits kvs)) as -> by (rewrite Z.ones_equiv; lia).
    rewrite Z.land_ones, Z.shiftr_div_pow2 by lia. rewrite <- Hn.
    rewrite Z.add_comm, Z_mod_plus_full, Z.mod_small, wraps_id by lia. f_equal. rewrite Z.div_add, Z.div_small; lia.
Qed.

(** The next cursor of a dict is below its number of buckets. *)
Lemma cursor_small v k : 0 <= k <= 64 -> 0 <= v < 2 ^ 64 -> rev64 v mod 2 ^ (64 - k) = 0 -> v < 2 ^ k.
Proof.
  intros Hk Hv Hm. destruct (Z.eq_dec v 0) as [->|Hne]; [apply Z.pow_pos_nonneg; lia|].
  apply Z.log2_lt_pow2; [lia|]. destruct (Z.lt_ge_cases (Z.log2 v) k) as [|Hge]; [done|]. exfalso.
  pose proof (Z.bit_log2 v ltac:(lia)) as Hbit. pose proof (Z.log2_nonneg v).
  assert (Z.log2 v < 64) as Hl by (apply Z.log2_lt_pow2; lia).
  assert (Z.testbit v (Z.log2 v) = Z.testbit (rev64 v) (63 - Z.log2 v)) as E by (rewrite rev64_spec by lia; f_equal; lia).
  rewrite E, (mod0_bits _ (64 - k)) in Hbit by lia. done.
Qed.

(** What one call does at position [(didx, v)]: it reports entries of that dict and
    moves to a later position, past no entry it did not report. *)
Definition at_or_after (didx v : Z) (i r : Z) : Prop := didx < i \/ didx = i /\ rev64 v <= r.

Record kv_scanned kvs (didx v c : Z) (out : list (SK * option V)) : Prop := {
  ks_in : forall x, x ∈ out -> exists d node, dicts kvs !! Z.to_nat didx = Some (Some (d, node)) /\ x ∈ entries d;
  ks_next : c = 0 \/ c <> 0 /\ exists didx' v', c = kv_cursor (num_dicts_bits kvs) didx' v' /\ 0 <= didx' < num_dicts kvs /\
    0 <= v' < 2 ^ (64 - num_dicts_bits kvs) /\ at_or_after didx v didx' (rev64 v');
  ks_cover : forall i d node x, 0 <= i -> dicts kvs !! Z.to_nat i = Some (Some (d, node)) -> x ∈ entries d ->
    at_or_after didx v i (rank type x) ->
    (c <> 0 -> forall didx' v', c = kv_cursor (num_dicts_bits kvs) didx' v' -> 0 <= didx' < num_dicts kvs -> 0 <= v' ->
      ~ at_or_after didx' v' i (rank type x)) -> x ∈ out;
}.

(** An empty map at an index: no entries in its dict. *)
Lemma empty_entries kvs ms k i d node : kv_rep kvs ms k -> 0 <= i -> map_empty_at ms i -> dicts kvs !! Z.to_nat i = Some (Some (d, node)) ->
  entries d = [].
Proof.
  intros Hrep Hi Hm Hs. unfold map_empty_at in Hm. rewrite <- (kh_map _ _ _ _ _ _ Hrep), list_lookup_fmap, Hs in Hm.
  injection Hm as Hm. pose proof (kb_slots _ _ _ (kh_base _ _ _ _ _ _ Hrep) _ _ Hs) as [[Hw _] _].
  pose proof (dict_map_size type canon d Hw) as Hsz. apply map_size_empty_iff in Hm. rewrite Hm in Hsz. by destruct (entries d).
Qed.

Lemma cursor_inj kvs i v j w : kv_base type canon kvs -> 0 <= i < num_dicts kvs -> 0 <= j < num_dicts kvs -> 0 <= v -> 0 <= w ->
  kv_cursor (num_dicts_bits kvs) i v = kv_cursor (num_dicts_bits kvs) j w -> i = j /\ v = w.
Proof.
  intros Hb Hi Hj Hv Hw E. pose proof (get_cursor kvs i v Hb Hi Hv) as H1. rewrite E, get_cursor in H1 by done. by injection H1.
Qed.

(** The step to the next dict with keys, from a store whose slots hold the same maps. *)
Lemma scan_next_dict kvs kvs1 ms k didx v out : kv_rep kvs ms k -> kv_rep kvs1 ms k -> num_dicts kvs1 = num_dicts kvs ->
  num_dicts_bits kvs1 = num_dicts_bits kvs -> 0 <= didx < num_dicts kvs ->
  (forall x, x ∈ out -> exists d node, dicts kvs !! Z.to_nat didx = Some (Some (d, node)) /\ x ∈ entries d) ->
  (forall d node x, dicts kvs !! Z.to_nat didx = Some (Some (d, node)) -> x ∈ entries d -> rev64 v <= rank type x -> x ∈ out) ->
  exists c, (didx ← kvstoreGetNextNonEmptyDictIndex kvs1 didx;
      if didx =? -1 then Ret (kvs1, 0, out) else Ret (kvs1, addDictIndexToCursor kvs1 didx 0, out)) = Ret (kvs1, c, out) /\
    kv_scanned kvs didx v c out.
Proof.
  intros Hrep Hrep1 Hn Hbits Hi Hin Hcov. destruct (next_non_empty type canon kvs1 ms k didx Hrep1) as (i' & -> & Hcase); [by rewrite Hn|].
  rewrite ret_bind. rewrite Hn in Hcase. pose proof (kh_base _ _ _ _ _ _ Hrep) as Hb. pose proof (kh_base _ _ _ _ _ _ Hrep1) as Hb1.
  assert (forall i d node x, 0 <= i -> dicts kvs !! Z.to_nat i = Some (Some (d, node)) -> x ∈ entries d -> i < num_dicts kvs /\ ~ map_empty_at ms i) as Hne.
  { intros i d node x Hi0 Hs Hx. split.
    - apply lookup_lt_Some in Hs. pose proof (kb_len _ _ _ Hb). unfold Zlen in *. lia.
    - intros Hm. rewrite (empty_entries kvs ms k i d node Hrep Hi0 Hm Hs) in Hx. by apply not_elem_of_nil in Hx. }
  destruct Hcase as [[-> Hz]|(Hr & Hm & Hz)].
  - exists 0. split; [done|]. split; [done|by left|]. intros i d node x Hi0 Hs Hx Hat _. destruct (Hne i d node x Hi0 Hs Hx) as [Hlt Hnm].
    destruct Hat as [Hgt|[<- Hrk]]; [destruct Hnm; apply Hz; lia|by eapply Hcov].
  - destruct (Z.eqb_spec i' (-1)); [lia|]. pose proof (kb_bits _ _ _ Hb).
    assert (addDictIndexToCursor kvs1 i' 0 = kv_cursor (num_dicts_bits kvs) i' 0) as ->.
    { rewrite <- Hbits. apply add_cursor; [done|lia|]. rewrite Hbits. split; [done|]. apply Z.pow_pos_nonneg; lia. }
    exists (kv_cursor (num_dicts_bits kvs) i' 0). split; [done|]. assert (kv_cursor (num_dicts_bits kvs) i' 0 <> 0) as Hc by (unfold kv_cursor; lia).
    split; [done| |].
    + right. split; [done|]. exists i', 0. split; [done|]. split; [lia|]. split; [split; [lia|apply Z.pow_pos_nonneg; lia]|left; lia].
    + intros i d node x Hi0 Hs Hx Hat Hnot. destruct (Hne i d node x Hi0 Hs Hx) as [Hlt Hnm].
      specialize (Hnot Hc i' 0 eq_refl ltac:(lia) ltac:(lia)). unfold at_or_after in Hnot. rewrite rev64_0 in Hnot.
      pose proof (rev64_range (entry_hash type x)) as Hrk. unfold rank in *.
      destruct Hat as [Hgt|[<- Hr0]]; [|by eapply Hcov]. destruct Hnm. apply Hz. lia.
Qed.

Lemma kvstoreScan_spec kvs ms k didx v : kv_rep kvs ms k -> cursors_fit kvs -> 0 <= didx < num_dicts kvs ->
  0 <= v < 2 ^ (64 - num_dicts_bits kvs) ->
  exists kvs' c out, kvstoreScan canFreeDict kvs (kv_cursor (num_dicts_bits kvs) didx v) (-1) None = Ret (kvs', c, out) /\
    kv_rep kvs' ms k /\ kv_scanned kvs didx v c out.
Proof.
  intros Hrep Hfit Hi Hv. pose proof (kh_base _ _ _ _ _ _ Hrep) as Hb. pose proof (kb_bits _ _ _ Hb) as Hbits.
  unfold kvstoreScan. rewrite get_cursor by (done || lia). change (0 <=? -1) with false. cbn [andb]. rewrite ret_bind.
  destruct (kv_rep_get type canon kvs ms k didx Hrep Hi) as (s & Hs & Hok & Hm & ->). rewrite ret_bind.
  assert (v < 2 ^ 64) as Hv64 by (pose proof (Z.pow_le_mono_r 2 (64 - num_dicts_bits kvs) 64); lia).
  destruct s as [[d node]|]; cbn [slot_dict].
  - destruct Hok as [(Hw & Hp & Ha) Hnode].
    destruct (dictScan_spec type canon d v Hw Hp ltac:(lia)) as (v' & out & -> & Hsn). rewrite !ret_bind.
    destruct (done_same type canon kvs ms k didx d node d Hrep (proj1 Hi) Hs) as (kvs1 & -> & Hrep1 & Hst);
      [by apply same_log|by apply same_contents_refl|]. rewrite ret_bind.
    pose proof (step_num _ _ _ _ _ _ Hst) as Hn1. assert (num_dicts_bits kvs1 = num_dicts_bits kvs) as Hb1 by (by destruct Hst as (_ & [] & _)).
    destruct (freeDictIfNeeded_spec type canon canFreeDict kvs1 ms k didx Hrep1) as (kvs2 & -> & Hrep2 & Hk2); [by rewrite Hn1|].
    rewrite !ret_bind, orb_false_r. destruct Hk2 as [_ Hn2 Hb2 _ _ _ _]. rewrite Hn1 in Hn2. rewrite Hb1 in Hb2.
    assert (forall x, x ∈ out -> exists d node, dicts kvs !! Z.to_nat didx = Some (Some (d, node)) /\ x ∈ entries d) as Hin.
    { intros x Hx. exists d, node. split; [done|]. by apply (sn_in _ _ _ _ _ Hsn). }
    destruct (Z.eqb_spec v' 0) as [->|Hne].
    + destruct (scan_next_dict kvs kvs2 ms k didx v out Hrep Hrep2 Hn2 Hb2 Hi Hin) as (c & E & Hsc).
      { intros d2 node2 x Hs2 Hx Hr. rewrite Hs in Hs2. injection Hs2 as <- <-. apply (sn_cover _ _ _ _ _ Hsn); [done|].
        split; [done|]. destruct (sn_next _ _ _ _ _ Hsn) as [[-> _]|[_ ?]]; [apply rev64_range|done]. }
      exists kvs2, c, out. by rewrite E.
    + destruct (sn_next _ _ _ _ _ Hsn) as [[_ ?]|[Hr' _]]; [done|]. pose proof (sn_end _ _ _ _ _ Hsn) as Hend.
      pose proof (rev64_range v') as Hrv'. unfold scan_end in *. destruct (Z.eqb_spec (dictSize d) 0); [lia|].
      assert (0 <= scan_exp d) as Hexp0.
      { unfold scan_exp. destruct (wf_shape _ _ _ Hw) as [| |e0 t0 e1 t1 ri ? ? ? H0 H1 ? ?]; [done| |].
        - destruct (tbl_exp _ _ _ H). cbn. lia.
        - pose proof (tbl_exp _ _ _ H0). pose proof (tbl_exp _ _ _ H1). destruct (dictIsRehashing _); cbn; lia. }
      pose proof (Hfit _ _ _ Hs) as Hfd.
      assert (v' < 2 ^ scan_exp d) as Hv'.
      { apply cursor_small; [lia|apply Hsn|]. rewrite Hr'. apply block_end_mod. lia. }
      assert (v' < 2 ^ (64 - num_dicts_bits kvs)) as Hv'b by (pose proof (Z.pow_le_mono_r 2 (scan_exp d) (64 - num_dicts_bits kvs)); lia).
      pose proof (sn_range _ _ _ _ _ Hsn) as Hv'0. pose proof (kh_base _ _ _ _ _ _ Hrep2) as Hbase2.
      assert (addDictIndexToCursor kvs2 didx v' = kv_cursor (num_dicts_bits kvs) didx v') as ->.
      { rewrite <- Hb2. apply add_cursor; [done|lia|]. rewrite Hb2. lia. }
      eexists kvs2, _, out. split; [done|]. split; [done|].
      assert (kv_cursor (num_dicts_bits kvs) didx v' <> 0) as Hc by (unfold kv_cursor; pose proof (Z.pow_pos_nonneg 2 (num_dicts_bits kvs)); nia).
      split; [done| |].
      * right. split; [done|]. exists didx, v'. split; [done|]. split; [done|]. split; [lia|]. right. split; [done|]. lia.
      * intros i d2 node2 x Hi0 Hs2 Hx Hat Hnot. specialize (Hnot Hc didx v' eq_refl Hi ltac:(lia)). unfold at_or_after in *.
        destruct Hat as [Hgt|[<- Hr0]]; [destruct Hnot; by left|]. rewrite Hs in Hs2. injection Hs2 as <- <-.
        apply (sn_cover _ _ _ _ _ Hsn); [done|]. unfold scan_end. destruct (Z.eqb_spec (dictSize d) 0); [done|]. lia.
  - rewrite ret_bind, orb_true_r. destruct (scan_next_dict kvs kvs ms k didx v [] Hrep Hrep eq_refl eq_refl Hi) as (c & E & Hsc).
    + intros x Hx. by apply not_elem_of_nil in Hx.
    + intros d2 node2 x Hs2. by rewrite Hs in Hs2.
    + exists kvs, c, []. by rewrite E.
Qed.

(** The stores of a scan: the same number of dicts throughout. *)
Definition kv_scannable (bits : Z) kvs : Prop := exists ms k, kv_rep kvs ms k /\ cursors_fit kvs /\ num_dicts_bits kvs = bits.

Lemma kv_scan_cover bits kss : Forall (kv_scannable bits) kss -> forall didx v, 0 <= didx < 2 ^ bits -> 0 <= v < 2 ^ (64 - bits) ->
  exists r, kv_scan_all kss (kv_cursor bits didx v) = Ret r /\ forall out, r = Some out ->
    (forall x, x ∈ out -> exists kvs i d node, kvs ∈ kss /\ dicts kvs !! i = Some (Some (d, node)) /\ x ∈ entries d) /\
    forall i c, 0 <= i -> (forall kvs, kvs ∈ kss -> exists d node x, dicts kvs !! Z.to_nat i = Some (Some (d, node)) /\ x ∈ entries d /\
      entry_canon type canon x = c /\ at_or_after didx v i (rank type x)) ->
    exists x, x ∈ out /\ entry_canon type canon x = c.
Proof.
  induction 1 as [|kvs kss (ms & k & Hrep & Hfit & Hbits) Hks IH]; intros didx v Hi Hv; cbn [kv_scan_all]; [by eexists|].
  pose proof (kh_base _ _ _ _ _ _ Hrep) as Hb. pose proof (kb_num _ _ _ Hb) as Hn. rewrite Hbits in Hn.
  destruct (kvstoreScan_spec kvs ms k didx v Hrep Hfit) as (kvs' & c & out & E & _ & Hsc); [by rewrite Hn|by rewrite Hbits|].
  rewrite Hbits in E. rewrite E, ret_bind. clear E.
  assert (forall x, x ∈ out -> exists kvs0 i d node, kvs0 ∈ kvs :: kss /\ dicts kvs0 !! i = Some (Some (d, node)) /\ x ∈ entries d) as Hin.
  { intros x Hx. destruct (ks_in _ _ _ _ _ Hsc x Hx) as (d & node & Hs & Hx'). exists kvs, (Z.to_nat didx), d, node. split; [left|done]. }
  destruct (Z.eqb_spec c 0) as [->|Hc].
  - exists (Some out). split; [done|]. intros out' [= <-]. split; [done|]. intros i c Hi0 Hk.
    destruct (Hk kvs ltac:(left)) as (d & node & x & Hs & Hx & Hcx & Hat). exists x. split; [|done].
    by apply (ks_cover _ _ _ _ _ Hsc i d node).
  - destruct (ks_next _ _ _ _ _ Hsc) as [|(_ & didx' & v' & -> & Hi' & Hv' & Hadv)]; [done|]. rewrite Hbits, Hn in *.
    destruct (IH didx' v' Hi' Hv') as (r & -> & Hr). rewrite ret_bind. exists (option_map (app out) r). split; [done|].
    destruct r as [out'|]; [|done]. intros out2 [= <-]. destruct (Hr out' eq_refl) as [Hr1 Hr2]. split.
    + intros x Hx. apply elem_of_app in Hx as [Hx|Hx]; [by apply Hin|].
      destruct (Hr1 x Hx) as (kvs0 & i & d & node & Hk0 & ?). exists kvs0, i, d, node. split; [by right|done].
    + intros i c Hi0 Hk. destruct (Hk kvs ltac:(left)) as (d & node & x & Hs & Hx & Hcx & Hat).
      destruct (decide (didx' < i \/ didx' = i /\ rev64 v' <= rank type x)) as [Hlater|Hnow].
      * destruct (Hr2 i c Hi0) as (y & Hy & Hcy); [|exists y; split; [apply elem_of_app; by right|done]].
        intros kvs0 Hk0. destruct (Hk kvs0 ltac:(by right)) as (d0 & node0 & y & Hs0 & Hy & Hcy & _).
        exists d0, node0, y. split; [done|]. split; [done|]. split; [done|].
        assert (rank type y = rank type x) as ->; [|done]. unfold rank, entry_hash. f_equal. apply keys_hash.
        change (entry_canon type canon y = entry_canon type canon x). congruence.
      * exists x. split; [|done]. apply elem_of_app. left. apply (ks_cover _ _ _ _ _ Hsc i d node); try done.
        intros _ didx2 v2 E2 Hi2 Hv2. rewrite <- Hbits in E2. apply (cursor_inj kvs) in E2 as [<- <-]; [exact Hnow|done|lia|lia|lia|lia].
Qed.
End scan.
