(* ===== verification/KvstoreMove.v ===== *)
(** * KvstoreMove: moving a dict from a kvstore to another

    [move_dict] is exact for everything but the counters of non-empty dicts, for
    which it gives how far off they are afterwards. *)

From stdpp Require Import countable sets fin_maps gmap.
From S2P Require Import Prelude Memory Fwtree Dict DictInv DictSpec DictScan DictLink DictFrame Kvstore KvstoreInv KvstoreOps.

(** ** Moving a dict *)

Section move.
Context {K SK V : Type} (type : dictType K SK V).
Context {C : Type} (canon : K -> C) `{!EqDecision C, !Countable C, !DictKeys type canon}.
Abbreviation kvstore := (kvstore SK V).
Abbreviation dict := (dict SK V).
Abbreviation dmap := (gmap C (SK * option V)).
Abbreviation slot := (option (dict * bool)).
Abbreviation kv_rep := (kv_rep type canon).
Implicit Types (kvs dst : kvstore) (ms : list dmap) (d : dict) (s : slot).

Lemma wrapu_sub_s64 a b : u64 (a + - s64 b) = u64 (a - b).
Proof.
  unfold wrapu, wraps. change (2 ^ (64 - 1)) with (2 ^ 63). rewrite (Z.mod_eq (b + 2 ^ 63)) by done.
  replace (a + - (b + 2 ^ 63 - 2 ^ 64 * ((b + 2 ^ 63) / 2 ^ 64) - 2 ^ 63)) with (a - b + (b + 2 ^ 63) / 2 ^ 64 * 2 ^ 64) by lia.
  apply Z_mod_plus_full.
Qed.

Lemma wrapu_add_s64 a b : u64 (a + s64 b) = u64 (a + b).
Proof.
  unfold wrapu, wraps. change (2 ^ (64 - 1)) with (2 ^ 63). rewrite (Z.mod_eq (b + 2 ^ 63)) by done.
  replace (a + (b + 2 ^ 63 - 2 ^ 64 * ((b + 2 ^ 63) / 2 ^ 64) - 2 ^ 63)) with (a + b + - ((b + 2 ^ 63) / 2 ^ 64) * 2 ^ 64) by lia.
  apply Z_mod_plus_full.
Qed.

Lemma ok_buckets d node : dict_ok type canon d -> dictBuckets d = slot_buckets (Some (d, node)).
Proof. intros [Hw _]. by apply (dictBuckets_spec type canon). Qed.

(** The source store without the dict. *)
Lemma move_out kvs ms k didx d node n c sizes : kv_rep kvs ms k -> 0 <= didx -> dicts kvs !! Z.to_nat didx = Some (Some (d, node)) ->
  let kvs1 := kvstoreDictBucketChanged (set_keys (add_allocated kvs (-1)) n c sizes) (- s64 (dictBuckets d)) in
  let kvs2 := if dictIsRehashing d then kvstoreDictRehashingCompleted kvs1 didx (DICTHT_SIZE (ht_size_exp (ht0 d))) else kvs1 in
  get_node kvs2 didx = false /\ kv_step type canon (set_keys kvs n c sizes) didx None (set_slot kvs2 didx None).
Proof.
  intros Hrep Hi Hs kvs1 kvs2. pose proof (kh_base _ _ _ _ _ _ Hrep) as Hb. pose proof (kb_slots _ _ _ Hb _ _ Hs) as [Hok Hnode].
  assert (dicts kvs1 !! Z.to_nat didx = Some (Some (d, node))) as Hs1 by done.
  assert (rehash_state d = if dictIsRehashing d then DICTHT_SIZE (ht_size_exp (ht0 d)) else -1) as Hst by done.
  pose proof (DICTHT_SIZE_nonneg (ht_size_exp (ht0 d))) as Hnn.
  assert (forall nd, slot_overhead (Some (d, nd)) = if dictIsRehashing d then DICTHT_SIZE (ht_size_exp (ht0 d)) else 0) as Hov.
  { intros nd. unfold slot_overhead, slot_state. rewrite Hst. destruct (dictIsRehashing d); lia. }
  assert (s32 (allocated_dicts kvs + -1) = allocated_dicts kvs - 1) as Ha.
  { pose proof (num_dicts_range _ _ _ Hb). pose proof (kb_len _ _ _ Hb). apply wraps_id; [lia|]. rewrite (kb_alloc _ _ _ Hb).
    pose proof (ksum_count slot_alloc (dicts kvs) ltac:(by intros [?|])). lia. }
  assert (u64 (bucket_count kvs + - s64 (dictBuckets d)) = u64 (bucket_count kvs - slot_buckets (Some (d, node)) + 0)) as Hbk.
  { by rewrite wrapu_sub_s64, (ok_buckets d node Hok), Z.add_0_r. }
  assert (NoDup (rehashing kvs)) as Hnd by apply Hb.
  assert (didx ∈ rehashing kvs <-> 0 <= rehash_state d) as Hin.
  { rewrite (kb_rehashing _ _ _ Hb). split; [|intros; split; [done|by exists (Some (d, node))]]. intros (_ & s & Hs2 & H). rewrite Hs in Hs2. by injection Hs2 as <-. }
  assert (kv_base type canon (set_keys kvs n c sizes)) as Hbk0 by (by apply kv_base_keys).
  subst kvs2. destruct (dictIsRehashing d) eqn:Er.
  - subst node. assert (get_node kvs1 didx = true) as Hgn by (unfold get_node; by rewrite Hs1).
    unfold kvstoreDictRehashingCompleted. rewrite Hgn. unfold set_node. cbn [dicts set_rehashing]. rewrite Hs1. split.
    { unfold get_node. cbn [dicts set_slot set_dicts set_rehashing]. rewrite list_lookup_insert_eq; [done|]. by eapply lookup_lt_Some. }
    destruct (list_del_last_spec didx (rehashing kvs) Hnd) as [Hnd' Hdel].
    assert (forall x, dicts (set_slot (set_slot x didx (Some (d, false))) didx None) = <[Z.to_nat didx := None]> (dicts x)) as Hdd
      by (intros x; cbn; apply list_insert_insert_eq).
    split; [|split; [done|by rewrite Hdd]]. apply (kv_base_set type canon (set_keys kvs n c sizes) _ didx (Some (d, true)) None); try done.
    + by rewrite Hdd.
    + change (s32 (allocated_dicts kvs + -1) = allocated_dicts kvs - 1 + 0). lia.
    + rewrite Hov. change (slot_overhead None) with 0. by rewrite Z.add_0_r.
    + cbn. rewrite Hdel. split; [tauto|lia].
    + intros i Hne. cbn. rewrite Hdel. tauto.
  - subst node. split; [unfold get_node; by rewrite Hs1|]. split; [|done].
    apply (kv_base_set type canon (set_keys kvs n c sizes) _ didx (Some (d, false)) None); try done.
    + change (s32 (allocated_dicts kvs + -1) = allocated_dicts kvs - 1 + 0). lia.
    + rewrite Hov. change (slot_overhead None) with 0. rewrite Z.sub_0_r, Z.add_0_r. cbn [overhead_hashtable_rehashing set_keys].
      rewrite (kb_overhead _ _ _ Hb), wrapu_wrapu. exact (kb_overhead _ _ _ Hb).
    + change (didx ∈ rehashing kvs <-> 0 <= -1). rewrite Hin, Hst. lia.
Qed.

(** The destination with it. *)
Lemma move_in dst msd kd didx d n c sizes : kv_rep dst msd kd -> 0 <= didx -> dicts dst !! Z.to_nat didx = Some None -> dict_ok type canon d ->
  let dst1 := kvstoreDictBucketChanged (set_keys (add_allocated (set_slot dst didx (Some (d, false))) 1) n c sizes) (s64 (dictBuckets d)) in
  let dst2 := if dictIsRehashing d then kvstoreDictRehashingStarted dst1 didx (DICTHT_SIZE (ht_size_exp (ht0 d))) else dst1 in
  kv_step type canon (set_keys dst n c sizes) didx (Some (d, dictIsRehashing d)) dst2.
Proof.
  intros Hrep Hi Hs Hok dst1 dst2. pose proof (kh_base _ _ _ _ _ _ Hrep) as Hb.
  assert (rehash_state d = if dictIsRehashing d then DICTHT_SIZE (ht_size_exp (ht0 d)) else -1) as Hst by done.
  pose proof (DICTHT_SIZE_nonneg (ht_size_exp (ht0 d))) as Hnn.
  assert (forall nd, slot_overhead (Some (d, nd)) = if dictIsRehashing d then DICTHT_SIZE (ht_size_exp (ht0 d)) else 0) as Hov.
  { intros nd. unfold slot_overhead, slot_state. rewrite Hst. destruct (dictIsRehashing d); lia. }
  assert (Z.to_nat didx < length (dicts dst))%nat as Hlt by (by eapply lookup_lt_Some).
  assert (s32 (allocated_dicts dst + 1) = allocated_dicts dst + 1) as Ha.
  { pose proof (num_dicts_range _ _ _ Hb). pose proof (kb_len _ _ _ Hb). apply wraps_id; [lia|]. rewrite (kb_alloc _ _ _ Hb).
    pose proof (ksum_count slot_alloc (dicts dst) ltac:(by intros [?|])). lia. }
  assert (u64 (bucket_count dst + s64 (dictBuckets d)) = u64 (bucket_count dst - 0 + slot_buckets (Some (d, dictIsRehashing d)))) as Hbk.
  { by rewrite wrapu_add_s64, (ok_buckets d (dictIsRehashing d) Hok), Z.sub_0_r. }
  assert (NoDup (rehashing dst)) as Hnd by apply Hb.
  assert (didx ∉ rehashing dst) as Hnin.
  { rewrite (kb_rehashing _ _ _ Hb). intros (_ & s & Hs2 & H). rewrite Hs in Hs2. by injection Hs2 as <-. }
  assert (kv_base type canon (set_keys dst n c sizes)) as Hbk0 by (by apply kv_base_keys).
  assert (slot_ok type canon (Some (d, dictIsRehashing d))) as Hsok by done.
  subst dst2. destruct (dictIsRehashing d) eqn:Er.
  - unfold kvstoreDictRehashingStarted, set_node. cbn [dicts set_rehashing]. change (dicts dst1) with (<[Z.to_nat didx := Some (d, false)]> (dicts dst)).
    rewrite list_lookup_insert_eq by done.
    assert (forall x, dicts x = <[Z.to_nat didx := Some (d, false)]> (dicts dst) ->
      dicts (set_slot x didx (Some (d, true))) = <[Z.to_nat didx := Some (d, true)]> (dicts dst)) as Hdd.
    { intros x E. cbn. rewrite E. apply list_insert_insert_eq. }
    split; [|split; [done|by rewrite Hdd]].
    apply (kv_base_set type canon (set_keys dst n c sizes) _ didx None (Some (d, true))); try done.
    + by rewrite Hdd.
    + cbn [allocated_dicts add_allocated set_slot set_dicts set_rehashing kvstoreDictBucketChanged set_bucket_count set_keys dst1 slot_alloc]. lia.
    + rewrite Hov. change (slot_overhead None) with 0. by rewrite Z.sub_0_r.
    + cbn. apply list.NoDup_app. split; [done|]. split; [|by apply NoDup_singleton]. intros i Hi'. rewrite list_elem_of_singleton. by intros ->.
    + cbn. rewrite elem_of_app, list_elem_of_singleton. split; [|tauto]. intros _. change (0 <= rehash_state d). by rewrite Hst.
    + intros i Hne. cbn. rewrite elem_of_app, list_elem_of_singleton. tauto.
  - split; [|done]. apply (kv_base_set type canon (set_keys dst n c sizes) _ didx None (Some (d, false))); try done.
    + cbn [allocated_dicts add_allocated set_slot set_dicts kvstoreDictBucketChanged set_bucket_count set_keys dst1 slot_alloc]. lia.
    + rewrite Hov. change (slot_overhead None) with 0. rewrite Z.sub_0_r, Z.add_0_r. cbn [overhead_hashtable_rehashing set_keys].
      rewrite (kb_overhead _ _ _ Hb), wrapu_wrapu. exact (kb_overhead _ _ _ Hb).
    + change (didx ∈ rehashing dst <-> 0 <= rehash_state d). rewrite Hst. split; [done|lia].
Qed.

(** How far the counter of non-empty dicts is off after a dict of [n] keys moved:
    in the source and in the destination. *)
Definition drift_out (n : Z) : Z := if n =? 0 then -1 else 1.
Definition drift_in (n : Z) : Z := if n =? 1 then 0 else -1.

Lemma holds_counts kvs ms a k n c sizes a' k' : kv_holds type canon kvs ms a k -> kv_counts (set_keys kvs n c sizes) a' k' ->
  kv_holds type canon (set_keys kvs n c sizes) ms a' k'.
Proof. intros [Hb Hm _] Hc. split; [by apply kv_base_keys|done|done]. Qed.

Lemma move_dict kvs dst ms k msd kd didx m : kv_rep kvs ms k -> kv_rep dst msd kd -> num_dicts dst = num_dicts kvs ->
  0 <= didx < num_dicts kvs -> ms !! Z.to_nat didx = Some m -> dicts dst !! Z.to_nat didx = Some None ->
  dicts kvs !! Z.to_nat didx <> Some None -> zsum (msize <$> msd) + msize m < 2 ^ 62 ->
  exists kvs' dst', kvstoreMoveDict kvs dst didx = Ret (kvs', dst') /\
    kv_rep kvs' (<[Z.to_nat didx := ∅]> ms) (k + drift_out (msize m)) /\
    kv_rep dst' (<[Z.to_nat didx := m]> msd) (kd + drift_in (msize m)).
Proof.
  intros Hrep Hrepd Hnum Hi Hm Hsd Hsome Hfit. pose proof (proj1 Hi) as Hi0.
  destruct (kv_rep_get type canon kvs ms k didx Hrep Hi) as (s & Hs & Hok & Hm' & Hg). rewrite Hm in Hm'. injection Hm' as Hms.
  destruct s as [[d node]|]; [|by rewrite Hs in Hsome]. cbn [slot_dict] in Hg. destruct Hok as [Hok Hnode].
  assert (dictSize d = msize m) as Hsz by (rewrite Hms; by apply (slot_size_map type canon (Some (d, node)))).
  pose proof (kh_counts _ _ _ _ _ _ Hrep) as Hc. pose proof (kh_counts _ _ _ _ _ _ Hrepd) as Hcd.
  pose proof (kv_rep_size type canon _ _ _ _ _ Hrep Hs) as Hx. cbn [slot_size] in Hx. rewrite Hsz in Hx.
  pose proof (kv_rep_size type canon _ _ _ _ _ Hrepd Hsd) as Hxd. cbn [slot_size] in Hxd.
  pose proof (zsum_elem _ _ _ (kc_nonneg _ _ _ Hc) Hx) as Hm0. pose proof (kc_total _ _ _ Hc) as Htot.
  assert (s64 (msize m) = msize m) as Hs64 by (apply wraps_id; lia).
  unfold kvstoreMoveDict. destruct (Z.ltb_spec didx (num_dicts kvs)); [|lia]. cbn [c_assert]. rewrite ret_bind, Hnum, Z.eqb_refl. cbn [c_assert].
  rewrite ret_bind, (GetDict_slot _ _ _ Hi0 Hsd), ret_bind. cbn [slot_dict]. rewrite bool_decide_true by done. cbn [c_assert].
  rewrite ret_bind, Hg, ret_bind, Hsz, Hs64.
  destruct (cumulative_counts (add_allocated kvs (-1)) (msize <$> ms) k didx d node (msize m) (- msize m)) as (n & c & sizes & -> & Hc1);
    [by destruct Hc|done|done|done|lia|lia|lia|].
  rewrite ret_bind. cbv zeta. rewrite Hsz in Hc1.
  destruct (move_out kvs ms k didx d node n c sizes Hrep Hi0 Hs) as [Hgn Hout]. cbv zeta in Hgn, Hout. rewrite Hgn.
  set (kvs2 := set_slot _ didx None) in *.
  assert (kv_rep kvs2 (<[Z.to_nat didx := ∅]> ms) (k + drift_out (msize m))) as Hrep2.
  { assert (kv_counts (set_keys kvs n c sizes) (<[Z.to_nat didx := 0]> (msize <$> ms)) (k + drift_out (msize m))) as Hc2.
    { replace (msize m + - msize m) with 0 in Hc1 by lia.
      match type of Hc1 with kv_counts _ _ ?x => replace x with (k + drift_out (msize m)) in Hc1 end; [by destruct Hc1|].
      unfold drift_out, nz, c_bool. rewrite andb_comm. destruct (Z.ltb_spec 0 (- msize m)); [lia|]. cbn [andb].
      change (0 <? 0) with false. destruct (Z.eqb_spec (msize m) 0), (Z.ltb_spec 0 (msize m)); lia. }
    pose proof (holds_step type canon _ _ _ _ _ _ _ (holds_counts _ _ _ _ _ _ _ _ _ Hrep Hc2) Hout) as Hh.
    unfold KvstoreInv.kv_rep. rewrite list_fmap_insert. exact Hh. }
  assert (exists kvs3, (if negb (has_flag (flags kvs2) (Z.lor KVSTORE_ALLOCATE_DICTS_ON_DEMAND KVSTORE_FREE_EMPTY_DICTS))
     then '(kvs, _) ← createDictIfNeeded kvs2 didx; Ret kvs else Ret kvs2) = Ret kvs3 /\
     kv_rep kvs3 (<[Z.to_nat didx := ∅]> ms) (k + drift_out (msize m))) as (kvs3 & -> & Hrep3).
  { destruct (negb _); [|by exists kvs2]. pose proof (step_slot type canon _ _ _ _ (kv_base_keys _ _ kvs n c sizes (kh_base _ _ _ _ _ _ Hrep)) Hi Hout) as Hs2.
    destruct (createDictIfNeeded_spec type canon kvs2 didx None (kh_base _ _ _ _ _ _ Hrep2) Hi0 Hs2) as (kvs3 & -> & Hst). rewrite ret_bind.
    exists kvs3. split; [done|]. by apply (kv_rep_same type canon kvs2 _ _ didx None _ kvs3 Hrep2 Hi0 Hs2 Hst). }
  rewrite ret_bind.
  assert (dicts (add_allocated (set_slot dst didx (Some (d, false))) 1) !! Z.to_nat didx = Some (Some (d, false))) as Hsd'.
  { cbn. apply list_lookup_insert_eq. by eapply lookup_lt_Some. }
  destruct (cumulative_counts (add_allocated (set_slot dst didx (Some (d, false))) 1) (msize <$> msd) kd didx d false 0 (msize m))
    as (n' & c' & sizes' & -> & Hcd1); [by destruct Hcd|done|exact Hsd'|done|lia|lia|lia|].
  rewrite ret_bind. pose proof (move_in dst msd kd didx d n' c' sizes' Hrepd Hi0 Hsd Hok) as Hinn. cbv zeta in Hinn.
  eexists kvs3, _. split; [reflexivity|]. split; [done|].
  assert (kv_counts (set_keys dst n' c' sizes') (<[Z.to_nat didx := msize m]> (msize <$> msd)) (kd + drift_in (msize m))) as Hcd2.
  { rewrite Z.add_0_l, Hsz in Hcd1.
    match type of Hcd1 with kv_counts _ _ ?x => replace x with (kd + drift_in (msize m)) in Hcd1 end; [by destruct Hcd1|].
    unfold drift_in, nz, c_bool. change (0 <? 0) with false.
    destruct (Z.eqb_spec (msize m) 1), (Z.ltb_spec 0 (msize m)), (Z.eqb_spec (msize m) 0); cbn [andb]; lia. }
  pose proof (holds_step type canon _ _ _ _ _ _ _ (holds_counts _ _ _ _ _ _ _ _ _ Hrepd Hcd2) Hinn) as Hh.
  unfold KvstoreInv.kv_rep. rewrite list_fmap_insert. cbn [KvstoreInv.slot_map] in Hh. cbn in Hms. rewrite <- Hms in Hh. exact Hh.
Qed.
End move.
