(* ===== verification/KvstoreSpec.v ===== *)
(** * KvstoreSpec: what the kvstore promises

    Sequences of operations on a kvstore answer like the same operations on a
    list of finite maps, and leave counters that are those of the maps; the
    Fenwick tree finds the dict of the n-th key and the next dict with keys; a
    scan by cursors over all dicts misses no key; moving a dict between stores. *)

From stdpp Require Import countable sets fin_maps gmap.
From S2P Require Import Prelude Memory Fwtree Dict DictInv DictSpec DictScan DictLink DictFrame Kvstore KvstoreInv KvstoreOps KvstoreFind KvstoreMove.

(** ** Sequences of operations *)

Inductive kv_op (K SK V : Type) :=
| KFind (didx : Z) (key : K)
| KPut (didx : Z) (key : SK) (v : V)
| KSet (didx : Z) (key : K) (kv : SK)
| KDelete (didx : Z) (key : K)
| KUnlink (didx : Z) (key : K)
| KDictExpand (didx size : Z)
| KExpand (newsize : Z) (try_expand : bool) (avail : Z -> bool) (skip_cb : option (Z -> bool))
| KTryResizeDicts (limit : Z)
| KIncrementallyRehash (times : list nat)
| KSetResizeEnabled (enable : dictResizeEnable)
| KEmpty.
Arguments KFind {K SK V}. Arguments KPut {K SK V}. Arguments KSet {K SK V}. Arguments KDelete {K SK V}.
Arguments KUnlink {K SK V}. Arguments KDictExpand {K SK V}. Arguments KExpand {K SK V}.
Arguments KTryResizeDicts {K SK V}. Arguments KIncrementallyRehash {K SK V}. Arguments KSetResizeEnabled {K SK V}.
Arguments KEmpty {K SK V}.

Inductive kv_res (SK V : Type) :=
| KUnit
| KBool (b : bool)
| KEntry (x : option (SK * option V)).
Arguments KUnit {SK V}. Arguments KBool {SK V}. Arguments KEntry {SK V}.

Section spec.
Context {K SK V : Type} (type : dictType K SK V).
Context {C : Type} (canon : K -> C) `{!EqDecision C, !Countable C, !DictKeys type canon}.
Context (as_key : SK -> K) (canFreeDict : option (kvstore SK V -> Z -> bool)).
Abbreviation dict := (dict SK V).
Abbreviation kvstore := (kvstore SK V).
Abbreviation dmap := (gmap C (SK * option V)).
Abbreviation op := (kv_op K SK V).
Abbreviation res := (kv_res SK V).
Abbreviation kv_rep := (kv_rep type canon).
Implicit Types (kvs : kvstore) (d : dict) (ms : list dmap) (m : dmap).

Definition kv_step_op (can_resize : dictResizeEnable) kvs (o : op) : outcome (dictResizeEnable * kvstore * res) :=
  match o with
  | KFind didx key =>
    '(kvs, de) ← kvstoreDictFind type can_resize kvs didx key; Ret (can_resize, kvs, KEntry (head (chain_list de)))
  | KPut didx key v => '(kvs, added) ← kv_put type can_resize kvs didx key v; Ret (can_resize, kvs, KBool added)
  | KSet didx key kv => '(kvs, added) ← kv_set type can_resize as_key kvs didx key kv; Ret (can_resize, kvs, KBool added)
  | KDelete didx key => '(kvs, ok) ← kvstoreDictDelete type can_resize canFreeDict kvs didx key; Ret (can_resize, kvs, KBool ok)
  | KUnlink didx key => '(kvs, ok) ← kv_unlink type can_resize canFreeDict kvs didx key; Ret (can_resize, kvs, KBool ok)
  | KDictExpand didx size => '(kvs, _) ← kvstoreDictExpand type can_resize kvs didx size; Ret (can_resize, kvs, KUnit)
  | KExpand newsize try_expand avail skip_cb =>
    '(kvs, _) ← kvstoreExpand type can_resize kvs newsize try_expand avail skip_cb; Ret (can_resize, kvs, KUnit)
  | KTryResizeDicts limit => kvs ← kvstoreTryResizeDicts type can_resize kvs limit; Ret (can_resize, kvs, KUnit)
  | KIncrementallyRehash times => kvs ← kvstoreIncrementallyRehash type can_resize kvs times; Ret (can_resize, kvs, KUnit)
  | KSetResizeEnabled enable => Ret (enable, kvs, KUnit)
  | KEmpty => kvs ← kvstoreEmpty canFreeDict kvs; Ret (can_resize, kvs, KUnit)
  end.

Fixpoint kv_run (can_resize : dictResizeEnable) kvs (os : list op) : outcome (kvstore * list res) :=
  match os with
  | [] => Ret (kvs, [])
  | o :: os =>
    '(can_resize, kvs, r) ← kv_step_op can_resize kvs o;
    '(kvs, rs) ← kv_run can_resize kvs os;
    Ret (kvs, r :: rs)
  end.

(** The same on a list of maps. *)
Definition with_map ms (didx : Z) (f : dmap -> dmap * res) : list dmap * res :=
  match ms !! Z.to_nat didx with
  | Some m => let '(m, r) := f m in (<[Z.to_nat didx := m]> ms, r)
  | None => (ms, KUnit)
  end.

Definition maps_step ms (o : op) : list dmap * res :=
  match o with
  | KFind didx key => with_map ms didx (fun m => (m, KEntry (m !! canon key)))
  | KPut didx key v => with_map ms didx (fun m =>
      let c := canon (keyFromStoredKey type key) in
      (<[c := (from_option fst (stored_key type key) (m !! c), Some (stored_val type v))]> m, KBool (bool_decide (m !! c = None))))
  | KSet didx key kv => with_map ms didx (fun m =>
      (<[canon key := (stored_key type kv, m !! canon key ≫= snd)]> m, KBool (bool_decide (m !! canon key = None))))
  | KDelete didx key | KUnlink didx key => with_map ms didx (fun m =>
      (delete (canon key) m, KBool (bool_decide (is_Some (m !! canon key)))))
  | KEmpty => (replicate (length ms) ∅, KUnit)
  | _ => (ms, KUnit)
  end.

Fixpoint maps_run ms (os : list op) : list dmap * list res :=
  match os with
  | [] => (ms, [])
  | o :: os => let '(ms, r) := maps_step ms o in let '(ms, rs) := maps_run ms os in (ms, r :: rs)
  end.

(** What the callers guarantee: an index in range, the key the stored key has,
    values only in dicts that have them. *)
Definition kv_op_ok (n : Z) (o : op) : Prop :=
  match o with
  | KFind didx _ | KDelete didx _ | KUnlink didx _ => 0 <= didx < n
  | KPut didx _ _ => 0 <= didx < n /\ no_value type = false
  | KSet didx key kv => 0 <= didx < n /\ canon (keyFromStoredKey type kv) = canon key
  | KDictExpand didx size => 0 <= didx < n /\ 0 <= size < 2 ^ 64
  | KExpand newsize _ _ _ => 0 <= newsize < 2 ^ 64
  | _ => True
  end.

Lemma kv_rep_map kvs ms k didx : kv_rep kvs ms k -> 0 <= didx < num_dicts kvs -> exists m, ms !! Z.to_nat didx = Some m.
Proof. intros Hrep Hi. destruct (kv_rep_get type canon kvs ms k didx Hrep Hi) as (s & _ & _ & Hm & _). by eexists. Qed.

Lemma msize_insert_le m c x : msize (<[c := x]> m) <= msize m + 1.
Proof. unfold msize. rewrite map_size_insert. destruct (m !! c); cbn; lia. Qed.

Lemma msize_delete_le m c : msize (delete c m) <= msize m.
Proof. unfold msize. rewrite map_size_delete. destruct (m !! c); cbn; lia. Qed.

Lemma total_insert ms i m m' n : ms !! i = Some m -> msize m' <= msize m + n -> zsum (msize <$> <[i := m']> ms) <= zsum (msize <$> ms) + n.
Proof. intros Hm Hle. rewrite (zsum_insert_map ms i m m' Hm). lia. Qed.

Lemma kv_step_refines can_resize kvs ms o n : kv_rep kvs ms 0 -> zsum (msize <$> ms) <= n -> n + 1 < 2 ^ 62 -> kv_op_ok (num_dicts kvs) o ->
  exists can_resize' kvs', kv_step_op can_resize kvs o = Ret (can_resize', kvs', (maps_step ms o).2) /\
    kv_rep kvs' (maps_step ms o).1 0 /\ num_dicts kvs' = num_dicts kvs /\ zsum (msize <$> (maps_step ms o).1) <= n + 1.
Proof.
  intros Hrep Htot Hn Hok. destruct o as [didx key|didx key v|didx key kv|didx key|didx key|didx size|sz try avail skip|limit|times|r|];
    cbn [kv_step_op maps_step] in *; unfold with_map.
  - destruct (kv_rep_map _ _ _ _ Hrep Hok) as [m Hm]. rewrite Hm.
    destruct (kvstoreDictFind_spec type canon can_resize kvs ms 0 didx m key Hrep Hok Hm) as (kvs' & de & -> & Hrep' & Hk & Hde).
    rewrite ret_bind. eexists _, kvs'. cbn [fst snd]. rewrite list_insert_id by done. split; [|split; [done|split; [apply Hk|lia]]].
    do 3 f_equal. destruct (m !! canon key); [by destruct Hde as [rest ->]|by subst de].
  - destruct Hok as [Hi Hnv]. destruct (kv_rep_map _ _ _ _ Hrep Hi) as [m Hm]. rewrite Hm.
    destruct (kv_put_spec type canon can_resize kvs ms 0 didx m key v Hrep Hi Hm ltac:(lia) Hnv) as (kvs' & -> & Hn' & Hrep').
    rewrite ret_bind. eexists _, kvs'. split; [done|]. split; [done|]. split; [done|].
    etransitivity; [apply (total_insert _ _ m _ 1 Hm), msize_insert_le|lia].
  - destruct Hok as [Hi Hkv]. destruct (kv_rep_map _ _ _ _ Hrep Hi) as [m Hm]. rewrite Hm.
    destruct (kv_set_spec type canon can_resize as_key kvs ms 0 didx m key kv Hrep Hi Hm ltac:(lia) Hkv) as (kvs' & -> & Hn' & Hrep').
    rewrite ret_bind. eexists _, kvs'. split; [done|]. split; [done|]. split; [done|].
    etransitivity; [apply (total_insert _ _ m _ 1 Hm), msize_insert_le|lia].
  - destruct (kv_rep_map _ _ _ _ Hrep Hok) as [m Hm]. rewrite Hm.
    destruct (kvstoreDictDelete_spec type canon can_resize canFreeDict kvs ms 0 didx m key Hrep Hok Hm) as (kvs' & -> & Hn' & Hrep').
    rewrite ret_bind. eexists _, kvs'. split; [done|]. split; [done|]. split; [done|].
    etransitivity; [apply (total_insert _ _ m _ 0 Hm); rewrite Z.add_0_r; apply msize_delete_le|lia].
  - destruct (kv_rep_map _ _ _ _ Hrep Hok) as [m Hm]. rewrite Hm.
    destruct (kv_unlink_spec type canon can_resize canFreeDict kvs ms 0 didx m key Hrep Hok Hm) as (kvs' & -> & Hn' & Hrep').
    rewrite ret_bind. eexists _, kvs'. split; [done|]. split; [done|]. split; [done|].
    etransitivity; [apply (total_insert _ _ m _ 0 Hm); rewrite Z.add_0_r; apply msize_delete_le|lia].
  - destruct Hok as [Hi Hsz]. destruct (kvstoreDictExpand_spec type canon can_resize kvs ms 0 didx size Hrep Hi Hsz) as (kvs' & ok & -> & Hrep' & Hn').
    rewrite ret_bind. eexists _, kvs'. split; [done|]. split; [done|]. split; [done|]. cbn [fst]. lia.
  - destruct (kvstoreExpand_spec type canon can_resize kvs ms 0 sz try avail skip Hrep Hok) as (kvs' & ok & -> & Hrep' & Hn').
    rewrite ret_bind. eexists _, kvs'. split; [done|]. split; [done|]. split; [done|]. cbn [fst]. lia.
  - destruct (kvstoreTryResizeDicts_spec type canon can_resize kvs ms 0 limit Hrep) as (kvs' & -> & Hrep' & Hn').
    rewrite ret_bind. eexists _, kvs'. split; [done|]. split; [done|]. split; [done|]. cbn [fst]. lia.
  - destruct (kvstoreIncrementallyRehash_spec type canon can_resize ms 0 times kvs Hrep) as (kvs' & -> & Hrep' & Hn').
    rewrite ret_bind. eexists _, kvs'. split; [done|]. split; [done|]. split; [done|]. cbn [fst]. lia.
  - eexists _, kvs. split; [done|]. split; [done|]. split; [done|]. cbn [fst]. lia.
  - destruct (kvstoreEmpty_spec type canon canFreeDict kvs ms 0 Hrep) as (kvs' & -> & Hn' & Hrep').
    rewrite ret_bind. eexists _, kvs'. split; [done|]. split; [done|]. split; [done|]. cbn [fst].
    rewrite fmap_replicate. change (msize ∅) with 0. rewrite zsum_replicate_0.
    pose proof (zsum_nonneg _ (kc_nonneg _ _ _ (kh_counts _ _ _ _ _ _ Hrep))). lia.
Qed.

Lemma kv_run_refines os : forall can_resize kvs ms n, kv_rep kvs ms 0 -> zsum (msize <$> ms) <= n -> n + Zlen os < 2 ^ 62 ->
  Forall (kv_op_ok (num_dicts kvs)) os ->
  exists kvs', kv_run can_resize kvs os = Ret (kvs', (maps_run ms os).2) /\ kv_rep kvs' (maps_run ms os).1 0 /\ num_dicts kvs' = num_dicts kvs.
Proof.
  induction os as [|o os IH]; intros can_resize kvs ms n Hrep Htot Hn Hok; cbn [kv_run maps_run]; [by exists kvs|].
  rewrite Zlen_cons in Hn. pose proof (Zlen_nonneg os). apply Forall_cons_1 in Hok as [Ho Hok].
  destruct (kv_step_refines can_resize kvs ms o n Hrep Htot ltac:(lia) Ho) as (r & kvs1 & -> & Hrep1 & Hn1 & Htot1).
  rewrite ret_bind. destruct (maps_step ms o) as [ms1 x]. cbn [fst snd] in *.
  destruct (IH r kvs1 ms1 (n + 1) Hrep1 Htot1) as (kvs' & -> & Hrep' & Hn'); [lia|by rewrite Hn1|].
  rewrite ret_bind. destruct (maps_run ms1 os) as [ms' xs]. exists kvs'. split; [done|]. split; [done|lia].
Qed.

(** The counters read back. *)
Lemma kv_rep_non_empty kvs ms : kv_rep kvs ms 0 -> kvstoreNumNonEmptyDicts kvs = zsum (nz <$> (msize <$> ms)).
Proof.
  intros [Hb Hm [Hl _ _ _ Hne _]]. unfold kvstoreNumNonEmptyDicts. rewrite Hne, Z.add_0_r. apply wraps_id; [lia|].
  pose proof (num_dicts_range _ _ _ Hb). rewrite <- Hl in *.
  assert (forall a : list Z, 0 <= zsum (nz <$> a) <= Zlen a) as Hz.
  { induction a as [|x a IHa]; [done|]. rewrite Zlen_cons. cbn. unfold nz, c_bool in *. destruct (0 <? x); lia. }
  specialize (Hz (msize <$> ms)). lia.
Qed.

Lemma kv_rep_dict_size kvs ms k didx m : kv_rep kvs ms k -> 0 <= didx < num_dicts kvs -> ms !! Z.to_nat didx = Some m ->
  kvstoreDictSize kvs didx = Ret (msize m).
Proof.
  intros Hrep Hi Hm. destruct (kv_rep_get type canon kvs ms k didx Hrep Hi) as (s & Hs & Hok & Hm' & Hg). rewrite Hm in Hm'. injection Hm' as ->.
  unfold kvstoreDictSize. rewrite Hg, ret_bind. rewrite <- (slot_size_map type canon s Hok). by destruct s as [[d node]|].
Qed.
End spec.

(** ** Properties *)

Section properties.
Context {K SK V : Type} (type : dictType K SK V).
Context {C : Type} (canon : K -> C) `{!EqDecision C, !Countable C, !DictKeys type canon}.
Context (as_key : SK -> K) (canFreeDict : option (kvstore SK V -> Z -> bool)).
Abbreviation kvstore := (kvstore SK V).
Abbreviation dmap := (gmap C (SK * option V)).
Abbreviation kv_rep := (kv_rep type canon).
Implicit Types (kvs dst : kvstore) (ms : list dmap).

(** C3. The kvstore refines a list of finite maps, one per dict: any sequence of
    lookups, insertions, documented find-then-set updates, deletions in one and in
    two phases, explicit, bulk and background resizes, rehashings of whatever
    duration, changes of the resize policy and clears, with dicts created on demand
    and freed when empty if the flags say so, never fails an assertion or an access,
    answers like the maps, and leaves a store whose counters of keys and of non-empty
    dicts, whose Fenwick tree, whose counters of dicts and buckets and whose list of
    rehashing dicts ([kv_rep]) are exactly those of its dicts. *)
Theorem kvstore_refines_maps can_resize bits fl os :
  0 <= bits <= 16 -> Zlen os < 2 ^ 62 -> Forall (kv_op_ok type canon (2 ^ bits)) os ->
  let ms := replicate (Z.to_nat (2 ^ bits)) ∅ in
  exists kvs0 kvs, kvstoreCreate bits fl = Ret kvs0 /\
    kv_run type as_key canFreeDict can_resize kvs0 os = Ret (kvs, (maps_run type canon ms os).2) /\
    kv_rep kvs (maps_run type canon ms os).1 0 /\
    kvstoreSize kvs = zsum (msize <$> (maps_run type canon ms os).1) /\
    kvstoreNumNonEmptyDicts kvs = zsum (nz <$> (msize <$> (maps_run type canon ms os).1)).
Proof.
  intros Hb Hl Hok ms. destruct (kvstoreCreate_spec type canon bits fl Hb) as (kvs0 & E0 & Hn0 & Hrep0).
  destruct (kv_run_refines type canon as_key canFreeDict os can_resize kvs0 ms 0 Hrep0) as (kvs & Hr & Hrep & _).
  - unfold ms. rewrite fmap_replicate. change (msize ∅) with 0. by rewrite zsum_replicate_0.
  - done.
  - by rewrite Hn0.
  - exists kvs0, kvs. split; [done|]. split; [done|]. split; [done|]. split; [by apply (kv_rep_keys type canon _ _ 0)|by apply (kv_rep_non_empty type canon)].
Qed.

(** C39. The random choice of a dict is fair: on a store with keys and without a
    callback that skips dicts, the first random number [random] alone decides, the
    answer is an index in range, and index [didx] is the answer exactly when
    [random mod size] falls in the interval of as many numbers as dict [didx] has
    keys that starts at the number of keys before it. *)
Theorem kvstoreGetFairRandomDictIndex_fair kvs ms random fair start slow didx m :
  kv_rep kvs ms 0 -> kvstoreSize kvs <> 0 -> 0 <= random -> 0 <= didx -> ms !! Z.to_nat didx = Some m ->
  (kvstoreGetFairRandomDictIndex kvs None (random :: fair) start slow = Ret didx <->
   psum (msize <$> ms) didx <= random mod kvstoreSize kvs < psum (msize <$> ms) didx + msize m).
Proof.
  intros Hrep Hne Hr Hd Hm. pose proof (kc_nonneg _ _ _ (kh_counts _ _ _ _ _ _ Hrep)) as Hnn.
  destruct (fair_choice type canon kvs ms 0 random fair start slow Hrep Hne Hr) as (i & -> & Hi & Hp).
  rewrite <- (psum_succ _ didx (msize m) Hd) by (by apply map_elem). split; [by intros [= ->]|].
  intros Hp'. f_equal. apply (psum_index (msize <$> ms) (random mod kvstoreSize kvs + 1)); [done|lia|lia].
Qed.

(** Starting from the first non-empty dict and moving to the next one until -1 visits,
    in as many steps as there are dicts at most, exactly the indexes whose dict has keys. *)
Theorem kvstore_non_empty_walk kvs ms k : kv_rep kvs ms k ->
  exists first l, kvstoreGetFirstNonEmptyDictIndex kvs = Ret first /\
    non_empty_walk (Z.to_nat (num_dicts kvs)) kvs first = Ret l /\
    forall j, j ∈ l <-> 0 <= j < num_dicts kvs /\ ~ map_empty_at ms j.
Proof.
  intros Hrep. destruct (first_non_empty type canon kvs ms k Hrep) as (i & -> & Hcase).
  pose proof (num_dicts_range _ _ _ (kh_base _ _ _ _ _ _ Hrep)) as Hn.
  destruct (non_empty_walk_spec type canon kvs ms k (Z.to_nat (num_dicts kvs)) Hrep i) as (l & E & Hl);
    [destruct Hcase as [[-> _]|(? & ? & _)]; [by left|by right]|lia|].
  exists i, l. split; [done|]. split; [exact E|]. intros j. rewrite Hl. destruct Hcase as [[-> Hz]|(Hi & Hne & Hz)].
  - split; [by intros [? _]|]. intros [Hj Hmj]. destruct Hmj. by apply Hz.
  - split; [intros (_ & ? & ?); split; [lia|done]|]. intros [Hj Hmj]. split; [lia|]. split; [|done].
    destruct (Z.lt_ge_cases j i); [|lia]. destruct Hmj. apply Hz. lia.
Qed.

(** C5. A scan over a whole kvstore misses nothing: iterating with [kvstoreScan] from
    cursor 0 until it returns cursor 0, where the store changes in any way between two
    calls (rehashings, resizes, dicts created and freed), returns every key that was in
    the same dict at each of the calls, and only entries of those dicts, provided each
    table fits the bits of the cursor the index leaves (48 for 2^16 dicts). *)
Theorem kvstoreScan_complete bits kss : Forall (kv_scannable type canon bits) kss -> 0 <= bits <= 16 ->
  exists r, kv_scan_all canFreeDict kss 0 = Ret r /\ forall out, r = Some out ->
    (forall x, x ∈ out -> exists kvs i d node, kvs ∈ kss /\ dicts kvs !! i = Some (Some (d, node)) /\ x ∈ entries d) /\
    forall i c, 0 <= i -> (forall kvs, kvs ∈ kss -> exists d node, dicts kvs !! Z.to_nat i = Some (Some (d, node)) /\
        is_Some (dict_map type canon d !! c)) ->
      exists x, x ∈ out /\ entry_canon type canon x = c.
Proof.
  intros Hks Hb. pose proof (Z.pow_pos_nonneg 2 bits). pose proof (Z.pow_pos_nonneg 2 (64 - bits)).
  destruct (kv_scan_cover type canon canFreeDict bits kss Hks 0 0 ltac:(lia) ltac:(lia)) as (r & E & Hr).
  exists r. split; [done|]. intros out ->. destruct (Hr out eq_refl) as [Hin Hcov]. split; [done|].
  intros i c Hi Hk. apply (Hcov i c Hi). intros kvs Hkvs. destruct (Hk kvs Hkvs) as (d & node & Hs & x & Hx).
  apply elem_of_list_to_map_2 in Hx. apply list_elem_of_fmap in Hx as (y & [= -> ->] & Hy).
  exists d, node, y. split; [done|]. split; [done|]. split; [done|]. unfold at_or_after. rewrite rev64_0.
  destruct (Z.eq_dec i 0) as [->|]; [right; split; [done|apply rev64_range]|left; lia].
Qed.

(** C38. Moving a dict to another kvstore takes its keys from one list of maps to the
    other and keeps every counter, list and Fenwick tree of both stores exact, a
    rehashing in progress included, but for the number of non-empty dicts: in the
    source it is 1 too high (1 too low if the dict was empty), in the destination 1
    too low, unless the dict had exactly one key. *)
Theorem kvstoreMoveDict_correct kvs dst ms k msd kd didx m :
  kv_rep kvs ms k -> kv_rep dst msd kd -> num_dicts dst = num_dicts kvs -> 0 <= didx < num_dicts kvs ->
  ms !! Z.to_nat didx = Some m -> dicts kvs !! Z.to_nat didx <> Some None -> dicts dst !! Z.to_nat didx = Some None ->
  zsum (msize <$> msd) + msize m < 2 ^ 62 ->
  exists kvs' dst', kvstoreMoveDict kvs dst didx = Ret (kvs', dst') /\
    kv_rep kvs' (<[Z.to_nat didx := ∅]> ms) (k + if msize m =? 0 then -1 else 1) /\
    kv_rep dst' (<[Z.to_nat didx := m]> msd) (kd + if msize m =? 1 then 0 else -1).
Proof. intros. by apply move_dict. Qed.
End properties.

(** ** Witnesses *)

(** Four dicts, created on demand and freed when empty. *)
Definition demo_ops : list (kv_op Z Z Z) :=
  [KPut 0 1 10; KPut 0 7 70; KPut 2 5 50; KSet 2 6 6; KPut 3 9 90; KDelete 3 9; KFind 0 7; KUnlink 2 6].

Lemma demo_ops_ok : Forall (kv_op_ok int_type id 4) demo_ops.
Proof. repeat (apply Forall_cons_2; [cbn; lia || (split; [lia|done])|]). by apply Forall_nil_2. Qed.

Definition demo_kvs0 : kvstore Z Z :=
  match kvstoreCreate 2 3 with Ret kvs => kvs | _ => Build_kvstore 0 [] 0 0 [] 0 0 0 0 0 None 0 end.

Definition demo_kvs : kvstore Z Z :=
  match kv_run int_type id None DICT_RESIZE_ENABLE demo_kvs0 demo_ops with Ret (kvs, _) => kvs | _ => demo_kvs0 end.

Definition demo_m : gmap Z (Z * option Z) := {[1 := (1, Some 10); 7 := (7, Some 70)]}.

Definition demo_ms : list (gmap Z (Z * option Z)) := [demo_m; ∅; {[5 := (5, Some 50)]}; ∅].

Lemma demo_kvs0_rep : kv_rep int_type id demo_kvs0 (replicate 4 ∅) 0 /\ num_dicts demo_kvs0 = 4.
Proof. destruct (kvstoreCreate_spec int_type id 2 3) as (kvs & E & Hn & Hrep); [lia|]. unfold demo_kvs0. by rewrite E. Qed.

Lemma demo_kvs_rep : kv_rep int_type id demo_kvs demo_ms 0 /\ num_dicts demo_kvs = 4.
Proof.
  destruct demo_kvs0_rep as [Hrep0 Hn0].
  destruct (kv_run_refines int_type id id None demo_ops DICT_RESIZE_ENABLE demo_kvs0 (replicate 4 ∅) 0 Hrep0) as (kvs & E & Hrep & Hn);
    [reflexivity|reflexivity|rewrite Hn0; apply demo_ops_ok|].
  unfold demo_kvs. rewrite E. split; [|lia]. replace demo_ms with (maps_run int_type id (replicate 4 ∅) demo_ops).1; [done|].
  vm_compute. reflexivity.
Qed.

Lemma kvstore_refines_maps_witness : let ms := replicate (Z.to_nat (2 ^ 2)) ∅ in
  exists kvs0 kvs, kvstoreCreate 2 3 = Ret kvs0 /\
    kv_run int_type id None DICT_RESIZE_ENABLE kvs0 demo_ops = Ret (kvs, (maps_run int_type id ms demo_ops).2) /\
    kv_rep int_type id kvs (maps_run int_type id ms demo_ops).1 0 /\
    kvstoreSize kvs = zsum (msize <$> (maps_run int_type id ms demo_ops).1) /\
    kvstoreNumNonEmptyDicts kvs = zsum (nz <$> (msize <$> (maps_run int_type id ms demo_ops).1)).
Proof.
  apply (kvstore_refines_maps int_type id id None DICT_RESIZE_ENABLE 2 3 demo_ops); [lia|reflexivity|exact demo_ops_ok].
Defined.

Lemma kvstoreGetFairRandomDictIndex_witness :
  kvstoreGetFairRandomDictIndex demo_kvs None [5] 0 true = Ret 2 <->
    psum (msize <$> demo_ms) 2 <= 5 mod kvstoreSize demo_kvs < psum (msize <$> demo_ms) 2 + msize ({[5 := (5, Some 50)]} : gmap Z (Z * option Z)).
Proof.
  apply (kvstoreGetFairRandomDictIndex_fair int_type id demo_kvs demo_ms 5 [] 0 true 2 {[5 := (5, Some 50)]});
    [apply demo_kvs_rep|vm_compute; congruence|lia|lia|reflexivity].
Defined.

Lemma kvstore_non_empty_walk_witness : exists first l, kvstoreGetFirstNonEmptyDictIndex demo_kvs = Ret first /\
    non_empty_walk (Z.to_nat (num_dicts demo_kvs)) demo_kvs first = Ret l /\
    forall j, j ∈ l <-> 0 <= j < num_dicts demo_kvs /\ ~ map_empty_at demo_ms j.
Proof. exact (kvstore_non_empty_walk int_type id demo_kvs demo_ms 0 (proj1 demo_kvs_rep)). Defined.

(** A rehashing and an insertion between the calls. *)
Definition demo_ops2 : list (kv_op Z Z Z) := [KPut 1 4 40; KDictExpand 0 16; KIncrementallyRehash [1%nat]].

Definition demo_kvs2 : kvstore Z Z :=
  match kv_run int_type id None DICT_RESIZE_ENABLE demo_kvs demo_ops2 with
  | Ret (kvs, _) => kvs | _ => demo_kvs0 end.

Lemma demo_ops2_ok : Forall (kv_op_ok int_type id 4) demo_ops2.
Proof. repeat (apply Forall_cons_2; [cbn; lia || (split; [lia|done]) || done|]). by apply Forall_nil_2. Qed.

Lemma demo_total : zsum (msize <$> demo_ms) <= 3.
Proof. vm_compute. congruence. Qed.

Lemma demo_kvs2_rep : exists ms, kv_rep int_type id demo_kvs2 ms 0.
Proof.
  destruct demo_kvs_rep as [Hrep Hn]. pose proof demo_ops2_ok as Hok. rewrite <- Hn in Hok.
  destruct (kv_run_refines int_type id id None demo_ops2 DICT_RESIZE_ENABLE demo_kvs demo_ms 3 Hrep demo_total) as (kvs & E & Hrep' & _);
    [reflexivity|exact Hok|].
  unfold demo_kvs2. rewrite E. by eexists.
Qed.

Definition fits_b (bits : Z) (kvs : kvstore Z Z) : bool :=
  forallb (fun s => match s with Some (d, _) => scan_exp d <=? 64 - bits | None => true end) (dicts kvs).

Lemma fits_check bits kvs : num_dicts_bits kvs = bits -> fits_b bits kvs = true -> cursors_fit kvs.
Proof.
  intros <- H i d node Hs. unfold fits_b in H. rewrite forallb_forall in H.
  specialize (H (Some (d, node))). rewrite <- list_elem_of_In in H. specialize (H ltac:(by eapply list_elem_of_lookup_2)). by apply Z.leb_le in H.
Qed.

Definition demo_scan : list (kvstore Z Z) := demo_kvs :: replicate 24 demo_kvs2.

Lemma demo_scan_ok : Forall (kv_scannable int_type id 2) demo_scan.
Proof.
  apply Forall_cons_2; [|apply Forall_replicate].
  - exists demo_ms, 0. split; [apply demo_kvs_rep|]. split; [by apply (fits_check 2); vm_compute|reflexivity].
  - destruct demo_kvs2_rep as [ms Hrep]. exists ms, 0. split; [done|]. split; [by apply (fits_check 2); vm_compute|reflexivity].
Qed.

(** The scan reports the keys 1, 7 and 5, which stay in their dicts. *)
Example demo_scan_keys : match kv_scan_all None demo_scan 0 with Ret (Some out) => map fst out | _ => [] end = [1; 7; 4; 5].
Proof. vm_compute. reflexivity. Qed.

Lemma kvstoreScan_complete_witness :
  exists r, kv_scan_all None demo_scan 0 = Ret r /\ forall out, r = Some out ->
    (forall x, x ∈ out -> exists kvs i d node, kvs ∈ demo_scan /\ dicts kvs !! i = Some (Some (d, node)) /\ x ∈ entries d) /\
    forall i c, 0 <= i -> (forall kvs, kvs ∈ demo_scan -> exists d node, dicts kvs !! Z.to_nat i = Some (Some (d, node)) /\
        is_Some (dict_map int_type id d !! c)) ->
      exists x, x ∈ out /\ entry_canon int_type id x = c.
Proof. apply (kvstoreScan_complete int_type id None 2 demo_scan demo_scan_ok). lia. Defined.

Lemma kvstoreMoveDict_witness : exists kvs' dst', kvstoreMoveDict demo_kvs demo_kvs0 0 = Ret (kvs', dst') /\
    kv_rep int_type id kvs' (<[Z.to_nat 0 := ∅]> demo_ms) (0 + if msize demo_m =? 0 then -1 else 1) /\
    kv_rep int_type id dst' (<[Z.to_nat 0 := demo_m]> (replicate 4 ∅)) (0 + if msize demo_m =? 1 then 0 else -1).
Proof.
  apply (kvstoreMoveDict_correct int_type id demo_kvs demo_kvs0 demo_ms 0 (replicate 4 ∅) 0 0 demo_m).
  - apply demo_kvs_rep.
  - apply demo_kvs0_rep.
  - reflexivity.
  - rewrite (proj2 demo_kvs_rep). lia.
  - reflexivity.
  - vm_compute. congruence.
  - reflexivity.
  - reflexivity.
Defined.

(** *** After a move: both counters of non-empty dicts are wrong *)

Example kvstoreMoveDict_counters :
  ('(src, dst) ← kvstoreMoveDict demo_kvs demo_kvs0 0;
   n ← kvstoreDictSize dst 0;
   Ret (kvstoreSize src, kvstoreNumNonEmptyDicts src, n, kvstoreSize dst, kvstoreNumNonEmptyDicts dst)) = Ret (1, 2, 2, 2, 0).
Proof. vm_compute. reflexivity. Qed.

(** *** The fallback of the random choice may choose an empty dict

    Its comment promises a dict with keys.  The fallback only asks for a dict that is
    allocated: here dict 0 has the only key and is skipped, and dict 1 is chosen. *)

Definition demo_allocated : outcome (kvstore Z Z) :=
  kvs ← kvstoreCreate 2 0; '(kvs, _) ← kv_put int_type DICT_RESIZE_ENABLE kvs 0 1 10; Ret kvs.

Example fair_random_empty_dict :
  (kvs ← demo_allocated;
   i ← kvstoreGetFairRandomDictIndex kvs (Some (fun didx => didx =? 0)) [0] 0 true; n ← kvstoreDictSize kvs i; Ret (i, n)) = Ret (1, 0).
Proof. vm_compute. reflexivity. Qed.
