(* ===== verification/KvstoreIter.v ===== *)
(** * KvstoreIter: the iterators of kvstore.c

    An iterator over a whole store goes through the dicts with keys, with a safe
    iterator in each; an iterator over one dict wraps the one of dict.c.  The
    dict [di.d] points to is the one at [didx], [kvi_d] tells whether it is set.

    [ready] is the state between two calls: what is pending in the current dict
    and what the later ones hold.  [sweep] is a client that deletes some of the
    keys it visits. *)

From stdpp Require Import countable sets fin_maps gmap.
From S2P Require Import Prelude Memory Fwtree Dict DictInv DictSpec DictFrame DictIter Kvstore KvstoreInv KvstoreOps KvstoreFind KvstoreSpec.

Record kvstoreIterator (SK V : Type) := { kvi_didx : Z; kvi_next_didx : Z; kvi_di : dictIterator SK V; kvi_d : bool }.
Arguments kvi_didx {SK V}. Arguments kvi_next_didx {SK V}. Arguments kvi_di {SK V}. Arguments kvi_d {SK V}.
Arguments Build_kvstoreIterator {SK V}.

Record kvstoreDictIterator (SK V : Type) := { kvdi_didx : Z; kvdi_di : dictIterator SK V }.
Arguments kvdi_didx {SK V}. Arguments kvdi_di {SK V}. Arguments Build_kvstoreDictIterator {SK V}.

Section iterators.
Context {K SK V : Type} (type : dictType K SK V) (can_resize : dictResizeEnable) (as_key : SK -> K).
Context (canFreeDict : option (kvstore SK V -> Z -> bool)) (table_addr : dict SK V -> Z -> Z).
Abbreviation kvstore := (kvstore SK V).
Abbreviation dictEntry := (dictEntry SK V).
Abbreviation dictIterator := (dictIterator SK V).
Abbreviation kvstoreIterator := (kvstoreIterator SK V).
Abbreviation kvstoreDictIterator := (kvstoreDictIterator SK V).
Implicit Types (kvs : kvstore) (kvs_it : kvstoreIterator) (kvs_di : kvstoreDictIterator).

(** [dictNext] and [dictResetIterator] on an iterator of the dict at [didx]. *)
Definition next_in kvs (didx : Z) (di : dictIterator) : outcome (kvstore * dictIterator * dictEntry) :=
  d ← kvstoreGetDict kvs didx;
  match d with
  | None => OutOfBounds
  | Some d => '(d, di, de) ← dictNext table_addr d di; kvs ← dict_done kvs didx d; Ret (kvs, di, de)
  end.

Definition reset_in kvs (didx : Z) (di : dictIterator) : outcome kvstore :=
  if not_started di then Ret kvs else
  d ← kvstoreGetDict kvs didx;
  match d with
  | None => OutOfBounds
  | Some d => d ← dictResetIterator table_addr d di; dict_done kvs didx d
  end.

(** ** Over all the dicts *)

Definition kvstoreIteratorInit kvs : outcome kvstoreIterator :=
  first ← kvstoreGetFirstNonEmptyDictIndex kvs;
  Ret (Build_kvstoreIterator (-1) first dictInitSafeIterator false).

Definition kvstoreIteratorReset kvs kvs_it : outcome kvstore :=
  kvs ← reset_in kvs (kvi_didx kvs_it) (kvi_di kvs_it);
  if negb (kvi_didx kvs_it =? -1) then freeDictIfNeeded canFreeDict kvs (kvi_didx kvs_it) else Ret kvs.

(** The dict returned, [None] for NULL, is the one at the new [didx]. *)
Definition kvstoreIteratorNextDict kvs kvs_it : outcome (kvstore * kvstoreIterator * option (dict SK V)) :=
  if kvi_next_didx kvs_it =? -1 then Ret (kvs, kvs_it, None) else
  kvs ← (if negb (kvi_didx kvs_it =? -1) then
           d ← kvstoreGetDict kvs (kvi_didx kvs_it);
           match d with
           | None => Ret kvs
           | Some _ =>
             kvs ← reset_in kvs (kvi_didx kvs_it) (kvi_di kvs_it);
             freeDictIfNeeded canFreeDict kvs (kvi_didx kvs_it)
           end
         else Ret kvs);
  let didx := kvi_next_didx kvs_it in
  next_didx ← kvstoreGetNextNonEmptyDictIndex kvs didx;
  d ← kvstoreGetDict kvs didx;
  Ret (kvs, Build_kvstoreIterator didx next_didx (kvi_di kvs_it) (kvi_d kvs_it), d).

Definition kvstoreIteratorGetCurrentDictIndex kvs kvs_it : outcome Z :=
  _ ← c_assert ((0 <=? kvi_didx kvs_it) && (kvi_didx kvs_it <? num_dicts kvs)); Ret (kvi_didx kvs_it).

Definition kvstoreIteratorNext kvs kvs_it : outcome (kvstore * kvstoreIterator * dictEntry) :=
  '(kvs, di, de) ← (if kvi_d kvs_it then next_in kvs (kvi_didx kvs_it) (kvi_di kvs_it) else Ret (kvs, kvi_di kvs_it, DNull));
  let kvs_it := Build_kvstoreIterator (kvi_didx kvs_it) (kvi_next_didx kvs_it) di (kvi_d kvs_it) in
  if negb (is_null de) then Ret (kvs, kvs_it, de) else
  '(kvs, kvs_it, d) ← kvstoreIteratorNextDict kvs kvs_it;
  match d with
  | None => Ret (kvs, kvs_it, DNull)
  | Some _ =>
    '(kvs, di, de) ← next_in kvs (kvi_didx kvs_it) dictInitSafeIterator;
    Ret (kvs, Build_kvstoreIterator (kvi_didx kvs_it) (kvi_next_didx kvs_it) di true, de)
  end.

(** ** Over one dict *)

Definition kvstoreInitDictIterator (didx : Z) : kvstoreDictIterator := Build_kvstoreDictIterator didx dictInitIterator.
Definition kvstoreInitDictSafeIterator (didx : Z) : kvstoreDictIterator := Build_kvstoreDictIterator didx dictInitSafeIterator.

Definition kvstoreResetDictIterator kvs kvs_di : outcome kvstore :=
  d ← kvstoreGetDict kvs (kvdi_didx kvs_di);
  match d with
  | None => Ret kvs
  | Some _ =>
    kvs ← reset_in kvs (kvdi_didx kvs_di) (kvdi_di kvs_di);
    freeDictIfNeeded canFreeDict kvs (kvdi_didx kvs_di)
  end.

Definition kvstoreDictIteratorNext kvs kvs_di : outcome (kvstore * kvstoreDictIterator * dictEntry) :=
  d ← kvstoreGetDict kvs (kvdi_didx kvs_di);
  match d with
  | None => Ret (kvs, kvs_di, DNull)
  | Some _ =>
    '(kvs, di, de) ← next_in kvs (kvdi_didx kvs_di) (kvdi_di kvs_di);
    Ret (kvs, Build_kvstoreDictIterator (kvdi_didx kvs_di) di, de)
  end.

(** ** A client: delete some of the keys while iterating

    [while ((de = kvstoreIteratorNext(&kvs_it)))], then the reset; the result has
    the index of the dict and the key visited. *)
Fixpoint sweep_loop (fuel : nat) (sel : Z -> SK -> bool) kvs kvs_it : outcome (kvstore * list (Z * SK)) :=
  match fuel with
  | O => OutOfFuel
  | S fuel =>
    '(kvs, kvs_it, de) ← kvstoreIteratorNext kvs kvs_it;
    if is_null de then kvs ← kvstoreIteratorReset kvs kvs_it; Ret (kvs, []) else
    k ← dictGetKey de;
    didx ← kvstoreIteratorGetCurrentDictIndex kvs kvs_it;
    kvs ← (if sel didx k
           then '(kvs, _) ← kvstoreDictDelete type can_resize canFreeDict kvs didx (keyFromStoredKey type k); Ret kvs
           else Ret kvs);
    '(kvs, l) ← sweep_loop fuel sel kvs kvs_it;
    Ret (kvs, (didx, k) :: l)
  end.

Definition sweep (sel : Z -> SK -> bool) kvs : outcome (kvstore * list (Z * SK)) :=
  kvs_it ← kvstoreIteratorInit kvs; sweep_loop (S (Z.to_nat (kvstoreSize kvs))) sel kvs kvs_it.
End iterators.

Section spec.
Context {K SK V : Type} (type : dictType K SK V).
Context {C : Type} (canon : K -> C) `{!EqDecision C, !Countable C, !DictKeys type canon}.
Context (can_resize : dictResizeEnable) (canFreeDict : option (kvstore SK V -> Z -> bool)) (table_addr : dict SK V -> Z -> Z).
Abbreviation dict := (dict SK V).
Abbreviation dictEntry := (dictEntry SK V).
Abbreviation kvstore := (kvstore SK V).
Abbreviation dictIterator := (dictIterator SK V).
Abbreviation dmap := (gmap C (SK * option V)).
Abbreviation kv_rep := (kv_rep type canon).
Abbreviation kv_step := (kv_step type canon).
Implicit Types (kvs : kvstore) (ms : list dmap) (d : dict) (di : dictIterator).

(** No dict but the one at [didx] has its rehashing paused. *)
Definition others_unpaused kvs (didx : Z) : Prop :=
  forall i d node, 0 <= i -> i <> didx -> dicts kvs !! Z.to_nat i = Some (Some (d, node)) -> pauserehash d = 0.

(** A safe iterator is in the dict at [didx], [l] being pending there. *)
Definition live kvs (didx : Z) di (l : list (SK * option V)) : Prop :=
  exists d node, dicts kvs !! Z.to_nat didx = Some (Some (d, node)) /\ pauserehash d = 1 /\
    iter_ok d di /\ it_entry di <> DNull /\ it_safe di = true /\ pending d di = l.

(** It has come to the end. *)
Definition finished kvs (didx : Z) di : Prop :=
  exists d node, dicts kvs !! Z.to_nat didx = Some (Some (d, node)) /\ pauserehash d = 1 /\
    it_safe di = true /\ not_started di = false.

Lemma step_others kvs didx s kvs' : others_unpaused kvs didx -> 0 <= didx -> kv_step kvs didx s kvs' -> others_unpaused kvs' didx.
Proof. intros Ho Hd (_ & _ & E) i d node Hi Hne Hs. rewrite E, list_lookup_insert_ne in Hs by lia. by eapply Ho. Qed.

Lemma same_others kvs didx kvs' : others_unpaused kvs didx -> dicts kvs' = dicts kvs -> others_unpaused kvs' didx.
Proof. intros Ho Hd i d node Hi Hne Hs. rewrite Hd in Hs. by eapply Ho. Qed.

(** Changing the pause of a dict. *)
Lemma pause_step kvs ms k didx d node p : kv_rep kvs ms k -> 0 <= didx < num_dicts kvs ->
  dicts kvs !! Z.to_nat didx = Some (Some (d, node)) -> 0 <= p < 2 ^ 32 ->
  exists kvs', dict_done kvs didx (set_pause d p) = Ret kvs' /\ kv_rep kvs' ms k /\ num_dicts kvs' = num_dicts kvs /\
    kv_step kvs didx (Some (set_pause d p, dictIsRehashing d)) kvs'.
Proof.
  intros Hrep Hi Hs Hp. pose proof (kh_base _ _ _ _ _ _ Hrep) as Hb. pose proof (kb_slots _ _ _ Hb _ _ Hs) as [(Hw & _ & Ha) _].
  destruct (dict_done_spec type canon kvs didx d node (set_pause d p) Hb (proj1 Hi) Hs) as (kvs' & E & Hst).
  { by apply same_log. }
  { split; [by apply pause_wf|done]. }
  exists kvs'. split; [done|]. split; [|split; [by apply (step_num type canon _ _ _ _ Hst)|done]].
  by apply (kv_rep_same type canon kvs ms k didx _ _ _ Hrep (proj1 Hi) Hs Hst).
Qed.

(** A dict the operation did not change. *)
Lemma done_id kvs ms k didx d node : kv_rep kvs ms k -> 0 <= didx -> dicts kvs !! Z.to_nat didx = Some (Some (d, node)) ->
  exists kvs', dict_done kvs didx d = Ret kvs' /\ kv_rep kvs' ms k /\ kv_step kvs didx (Some (d, dictIsRehashing d)) kvs'.
Proof.
  intros Hrep Hi Hs. pose proof (kh_base _ _ _ _ _ _ Hrep) as Hb. pose proof (kb_slots _ _ _ Hb _ _ Hs) as [(Hw & _) _].
  apply (done_same type canon kvs ms k didx d node d Hrep Hi Hs); [by apply same_log|by apply same_contents_refl].
Qed.

(** Calls inside a dict. *)
Lemma next_live kvs ms k didx di x l : kv_rep kvs ms k -> 0 <= didx < num_dicts kvs -> others_unpaused kvs didx ->
  live kvs didx di (x :: l) ->
  exists kvs' di' de, next_in table_addr kvs didx di = Ret (kvs', di', de) /\ kv_rep kvs' ms k /\ num_dicts kvs' = num_dicts kvs /\
    others_unpaused kvs' didx /\ live kvs' didx di' l /\ head (chain_list de) = Some x.
Proof.
  intros Hrep Hi Ho (d & node & Hs & Hp & Hok & He & Hsf & Hl). pose proof (kh_base _ _ _ _ _ _ Hrep) as Hb.
  pose proof (kb_slots _ _ _ Hb _ _ Hs) as [(Hw & _) _].
  destruct (dictNext_spec type table_addr d di (wf_shape _ _ _ Hw) Hok He) as (di' & de & Hr & Hsf' & _ & _ & Hx). rewrite Hl in Hx.
  destruct Hx as (Hde & Hok' & He' & Hl'). destruct (done_id kvs ms k didx d node Hrep (proj1 Hi) Hs) as (kvs' & E & Hrep' & Hst).
  unfold next_in. rewrite (GetDict_slot _ _ _ (proj1 Hi) Hs), ret_bind. cbn [slot_dict]. rewrite Hr, ret_bind, E, ret_bind.
  exists kvs', di', de. split; [done|]. split; [done|]. split; [by apply (step_num type canon _ _ _ _ Hst)|].
  split; [by apply (step_others kvs didx _ kvs' Ho (proj1 Hi) Hst)|]. split; [|by rewrite Hde].
  exists d, (dictIsRehashing d). split; [by apply (step_slot type canon _ _ _ _ Hb Hi Hst)|].
  split; [done|]. split; [done|]. rewrite He'. split; [by destruct de|]. split; [by rewrite Hsf'|done].
Qed.

Lemma next_end kvs ms k didx di : kv_rep kvs ms k -> 0 <= didx < num_dicts kvs -> others_unpaused kvs didx -> live kvs didx di [] ->
  exists kvs' di', next_in table_addr kvs didx di = Ret (kvs', di', DNull) /\ kv_rep kvs' ms k /\ num_dicts kvs' = num_dicts kvs /\
    others_unpaused kvs' didx /\ finished kvs' didx di'.
Proof.
  intros Hrep Hi Ho (d & node & Hs & Hp & Hok & He & Hsf & Hl). pose proof (kh_base _ _ _ _ _ _ Hrep) as Hb.
  pose proof (kb_slots _ _ _ Hb _ _ Hs) as [(Hw & _) _].
  destruct (dictNext_spec type table_addr d di (wf_shape _ _ _ Hw) Hok He) as (di' & de & Hr & Hsf' & _ & Hst & Hx). rewrite Hl in Hx.
  subst de. destruct (done_id kvs ms k didx d node Hrep (proj1 Hi) Hs) as (kvs' & E & Hrep' & Hstep).
  unfold next_in. rewrite (GetDict_slot _ _ _ (proj1 Hi) Hs), ret_bind. cbn [slot_dict]. rewrite Hr, ret_bind, E, ret_bind.
  exists kvs', di'. split; [done|]. split; [done|]. split; [by apply (step_num type canon _ _ _ _ Hstep)|].
  split; [by apply (step_others kvs didx _ kvs' Ho (proj1 Hi) Hstep)|].
  exists d, (dictIsRehashing d). split; [by apply (step_slot type canon _ _ _ _ Hb Hi Hstep)|]. split; [done|]. by rewrite Hsf'.
Qed.

Definition map_entries (m : dmap) : list (SK * option V) := (map_to_list m).*2.

Lemma entries_map d : dict_wf type canon d -> entries d ≡ₚ map_entries (dict_map type canon d).
Proof.
  intros Hw. unfold map_entries, dict_map. rewrite map_to_list_to_map.
  - assert (forall l, ((fun x => (entry_canon type canon x, x)) <$> l).*2 = l) as ->; [|done].
    intros l. induction l as [|x l IH]; [done|]. cbn. by rewrite IH.
  - rewrite fst_entries. apply Hw.
Qed.

(** Going into a dict with keys. *)
Lemma enter_dict kvs ms k didx m : kv_rep kvs ms k -> 0 <= didx < num_dicts kvs -> others_unpaused kvs (-1) ->
  ms !! Z.to_nat didx = Some m -> m <> ∅ ->
  exists d, kvstoreGetDict kvs didx = Ret (Some d) /\
  exists kvs' di de x l, next_in table_addr kvs didx dictInitSafeIterator = Ret (kvs', di, de) /\ kv_rep kvs' ms k /\
    num_dicts kvs' = num_dicts kvs /\ others_unpaused kvs' didx /\ live kvs' didx di l /\ head (chain_list de) = Some x /\
    x :: l ≡ₚ map_entries m.
Proof.
  intros Hrep Hi Ho Hm Hne. pose proof (kh_base _ _ _ _ _ _ Hrep) as Hb.
  destruct (kv_rep_get type canon kvs ms k didx Hrep Hi) as (s & Hs & Hok & Hm' & Hg). rewrite Hm in Hm'. injection Hm' as ->.
  destruct s as [[d node]|]; [|done]. exists d. split; [done|]. destruct Hok as [(Hw & Hp & Ha) _]. cbn [slot_map] in *.
  assert (pauserehash d = 0) as Hp0 by (apply (Ho didx d node); [lia|lia|done]).
  destruct (dictNext_first type table_addr d true (wf_shape _ _ _ Hw)) as (di & de & Hr & Hsf & _ & Hst & Hx). cbn [it_safe] in *.
  assert (dictPauseRehashing d = set_pause d 1) as Hpause by (unfold dictPauseRehashing; by rewrite Hp0).
  rewrite Hpause in Hr, Hx. pose proof (entries_map d Hw) as Hperm.
  destruct (entries d) as [|x l] eqn:Ee.
  { destruct Hne. apply Permutation_nil_l in Hperm. unfold map_entries in Hperm. symmetry in Hperm. apply fmap_nil_inv in Hperm.
    by apply map_to_list_empty_iff. }
  destruct Hx as (Hde & Hok' & He' & Hl').
  destruct (pause_step kvs ms k didx d node 1 Hrep Hi Hs ltac:(lia)) as (kvs' & E & Hrep' & Hn & Hstep).
  unfold next_in. rewrite Hg, ret_bind. cbn [slot_dict]. rewrite Hr, ret_bind, E, ret_bind.
  exists kvs', di, de, x, l. split; [done|]. split; [done|]. split; [done|].
  split; [|split; [|split; [by rewrite Hde|done]]].
  - refine (step_others kvs didx _ kvs' _ (proj1 Hi) Hstep). intros i d' node' Hi' _ Hs'. apply (Ho i d' node'); [done|lia|done].
  - exists (set_pause d 1), (dictIsRehashing d). split; [by apply (step_slot type canon _ _ _ _ Hb Hi Hstep)|].
    split; [done|]. split; [done|]. rewrite He'. split; [by destruct de|]. split; [by rewrite Hsf|done].
Qed.

(** Leaving it. *)
Lemma leave_dict kvs ms k didx di : kv_rep kvs ms k -> 0 <= didx < num_dicts kvs -> others_unpaused kvs didx -> finished kvs didx di ->
  exists kvs1 kvs', reset_in table_addr kvs didx di = Ret kvs1 /\ freeDictIfNeeded canFreeDict kvs1 didx = Ret kvs' /\
    kv_rep kvs' ms k /\ num_dicts kvs' = num_dicts kvs /\ others_unpaused kvs' (-1).
Proof.
  intros Hrep Hi Ho (d & node & Hs & Hp & Hsf & Hst).
  destruct (pause_step kvs ms k didx d node 0 Hrep Hi Hs ltac:(lia)) as (kvs1 & E & Hrep1 & Hn1 & Hstep).
  unfold reset_in. rewrite Hst, (GetDict_slot _ _ _ (proj1 Hi) Hs), ret_bind. cbn [slot_dict].
  unfold dictResetIterator. rewrite Hst, Hsf. cbn [negb]. rewrite ret_bind. unfold dictResumeRehashing. rewrite Hp.
  change (u32 (1 - 1)) with 0. rewrite E. exists kvs1.
  pose proof (kh_base _ _ _ _ _ _ Hrep) as Hb. pose proof (step_slot type canon _ _ _ _ Hb Hi Hstep) as Hs1.
  assert (others_unpaused kvs1 (-1)) as Ho1.
  { intros i d' node' Hi' _ Hs'. destruct (decide (i = didx)) as [->|Hne].
    - rewrite Hs1 in Hs'. injection Hs' as <- <-. done.
    - by apply (step_others kvs didx _ kvs1 Ho (proj1 Hi) Hstep i d' node'). }
  destruct (freeDictIfNeeded_cases type canon canFreeDict kvs1 didx _ _ (kh_base _ _ _ _ _ _ Hrep1) (proj1 Hi) Hs1)
    as [Ef|(kvs' & Ef & Hst' & Hm & _)].
  - exists kvs1. done.
  - exists kvs'. split; [done|]. split; [done|].
    split; [apply (kv_rep_same type canon kvs1 ms k didx _ None _ Hrep1 (proj1 Hi) Hs1 Hst'); cbn; by rewrite Hm|].
    split; [by rewrite (step_num type canon _ _ _ _ Hst')|]. destruct Hst' as (_ & _ & Hd).
    intros i d' node' Hi' _ Hs'. rewrite Hd in Hs'. destruct (decide (i = didx)) as [->|Hne].
    + rewrite list_lookup_insert_eq in Hs'; [done|]. by eapply lookup_lt_Some.
    + rewrite list_lookup_insert_ne in Hs' by lia. apply (Ho1 i d' node'); [done|lia|done].
Qed.

(** Deleting a key that is not pending. *)
Lemma delete_live kvs ms k didx m di l key : force_full_rehash type = false -> kv_rep kvs ms k -> 0 <= didx < num_dicts kvs ->
  ms !! Z.to_nat didx = Some m -> others_unpaused kvs didx -> live kvs didx di l -> canon key ∉ entry_canon type canon <$> l ->
  exists kvs' b, kvstoreDictDelete type can_resize canFreeDict kvs didx key = Ret (kvs', b) /\ num_dicts kvs' = num_dicts kvs /\
    kv_rep kvs' (<[Z.to_nat didx := delete (canon key) m]> ms) k /\ others_unpaused kvs' didx /\ live kvs' didx di l.
Proof.
  intros Hffr Hrep Hi Hm Ho (d & node & Hs & Hp & Hok & He & Hsf & Hl) Hno.
  destruct (kvstoreDictDelete_spec type canon can_resize canFreeDict kvs ms k didx m key Hrep Hi Hm) as (kvs' & E & Hn & Hrep').
  eexists kvs', _. split; [exact E|]. split; [done|]. split; [done|].
  pose proof (kh_base _ _ _ _ _ _ Hrep) as Hb. pose proof (kb_slots _ _ _ Hb _ _ Hs) as [Hdok _]. pose proof Hdok as (Hw & _ & Ha).
  unfold kvstoreDictDelete in E. rewrite (GetDict_slot _ _ _ (proj1 Hi) Hs), ret_bind in E. cbn [slot_dict] in E.
  unfold dictDelete in E. destruct (dictGenericDelete_spec type canon can_resize d key false Hw) as (d' & he & Ed & Hw' & _ & Hp' & Ha' & _).
  rewrite Ed, !ret_bind in E.
  destruct (dict_done_spec type canon kvs didx d node d' Hb (proj1 Hi) Hs) as (kvs1 & E1 & Hst).
  { apply (dictGenericDelete_frame type can_resize grows d key false _ Ed). }
  { split; [done|]. rewrite Hp', Ha', Hp. split; [lia|done]. }
  rewrite E1, ret_bind in E. pose proof (step_slot type canon _ _ _ _ Hb Hi Hst) as Hs1.
  assert (dicts kvs' = dicts kvs1) as Hd.
  { destruct (negb (is_null he)); [|by injection E as <- _].
    apply bind_Ret in E as (kvs2 & Ec & E). apply bind_Ret in E as (kvs3 & Ef & E). injection E as -> _.
    assert (dicts kvs2 = dicts kvs1) as Hd2.
    { unfold cumulativeKeyCountAdd in Ec. rewrite (GetDict_slot _ _ _ (proj1 Hi) Hs1), ret_bind in Ec. cbn [slot_dict] in Ec. inv_ret; done. }
    rewrite <- Hd2 in Hs1 |- *. unfold freeDictIfNeeded, kvstoreDictSize, kvstoreDictIsRehashingPaused in Ef.
    rewrite (GetDict_slot _ _ _ (proj1 Hi) Hs1), !ret_bind in Ef. cbn [slot_dict] in Ef.
    unfold dictIsRehashingPaused in Ef. rewrite Hp', Hp in Ef. inv_ret; done. }
  split; [apply (same_others kvs1 didx); [by apply (step_others kvs didx _ kvs1 Ho (proj1 Hi) Hst)|done]|].
  exists d', (dictIsRehashing d'). split; [by rewrite Hd|]. split; [by rewrite Hp', Hp|].
  assert (pauserehash d <> 0) as Hpp by lia. rewrite <- Hl in Hno.
  destruct (delete_pending type canon can_resize di d key false d' he Hffr Hw Hpp Hno Ed Hok) as [Hok' Hpd].
  split; [done|]. split; [done|]. split; [done|]. by rewrite Hpd.
Qed.

(** ** All the dicts *)

(** The entries of the maps, the first having index [i]. *)
Fixpoint entries_from (i : Z) ms : list (Z * (SK * option V)) :=
  match ms with [] => [] | m :: ms => (pair i <$> map_entries m) ++ entries_from (i + 1) ms end.

Definition all_from ms (i : Z) : list (Z * (SK * option V)) := entries_from i (drop (Z.to_nat i) ms).

Lemma all_from_at ms i m : 0 <= i -> ms !! Z.to_nat i = Some m -> all_from ms i = (pair i <$> map_entries m) ++ all_from ms (i + 1).
Proof. intros Hi Hm. unfold all_from. rewrite (drop_S _ _ _ Hm). by replace (Z.to_nat (i + 1)) with (S (Z.to_nat i)) by lia. Qed.

Lemma all_from_end ms i : Zlen ms <= i -> all_from ms i = [].
Proof. intros Hi. unfold all_from. by rewrite drop_ge by (unfold Zlen in Hi; lia). Qed.

Lemma all_from_skip ms i i' : 0 <= i <= i' -> (forall j, i <= j < i' -> map_empty_at ms j) -> all_from ms i = all_from ms i'.
Proof.
  intros Hi He. remember (Z.to_nat (i' - i)) as n eqn:En. revert i Hi He En. induction n as [|n IH]; intros i Hi He En.
  - by replace i' with i by lia.
  - rewrite (all_from_at ms i ∅) by (lia || apply He; lia). unfold map_entries. rewrite map_to_list_empty. cbn [fmap list_fmap app].
    apply IH; [lia| |lia]. intros j Hj. apply He. lia.
Qed.

Lemma all_from_insert ms i j m : j < i -> 0 <= j -> all_from (<[Z.to_nat j := m]> ms) i = all_from ms i.
Proof. intros Hj Hi. unfold all_from. by rewrite drop_insert_lt by lia. Qed.

Lemma elem_of_all_from ms i j x : 0 <= i -> (j, x) ∈ all_from ms i <-> i <= j /\ exists m, ms !! Z.to_nat j = Some m /\ x ∈ map_entries m.
Proof.
  intros Hi. unfold all_from. assert (forall l i, 0 <= i -> (j, x) ∈ entries_from i l <->
    i <= j /\ exists m, l !! Z.to_nat (j - i) = Some m /\ x ∈ map_entries m) as Hgo.
  { intros l. induction l as [|m l IH]; intros i0 Hi0; cbn [entries_from].
    - split; [by intros H%elem_of_nil|by intros (_ & m & ? & _)].
    - rewrite elem_of_app, IH by lia. rewrite list_elem_of_fmap. split.
      + intros [(y & [= <- <-] & Hy)|(Hj & m' & Hm' & Hx)].
        * split; [lia|]. exists m. by rewrite Z.sub_diag.
        * split; [lia|]. exists m'. split; [|done]. by replace (Z.to_nat (j - i0)) with (S (Z.to_nat (j - (i0 + 1)))) by lia.
      + intros (Hj & m' & Hm' & Hx). destruct (decide (i0 = j)) as [->|Hne].
        * rewrite Z.sub_diag in Hm'. injection Hm' as ->. left. by exists x.
        * right. split; [lia|]. exists m'. split; [|done].
          by replace (Z.to_nat (j - i0)) with (S (Z.to_nat (j - (i0 + 1)))) in Hm' by lia. }
  rewrite Hgo by done. split; intros (Hj & m & Hm & Hx); (split; [done|]); exists m; (split; [|done]).
  - rewrite lookup_drop in Hm. rewrite <- Hm. f_equal. lia.
  - rewrite lookup_drop. rewrite <- Hm. f_equal. lia.
Qed.

(** [i] is the next dict with keys after [didx], or -1. *)
Definition next_is ms (didx i : Z) : Prop :=
  i = -1 /\ (forall j, didx < j < Zlen ms -> map_empty_at ms j) \/
  didx < i < Zlen ms /\ ~ map_empty_at ms i /\ forall j, didx < j < i -> map_empty_at ms j.

Definition next_entries ms (i : Z) : list (Z * (SK * option V)) := if i =? -1 then [] else all_from ms i.

Lemma next_is_entries ms didx i : -1 <= didx -> next_is ms didx i -> all_from ms (didx + 1) = next_entries ms i.
Proof.
  intros Hd [[-> He]|(Hi & _ & He)]; unfold next_entries.
  - cbn [Z.eqb]. destruct (Z.le_gt_cases (didx + 1) (Zlen ms)).
    + rewrite (all_from_skip ms _ (Zlen ms)); [by apply all_from_end|lia|]. intros j Hj. apply He. lia.
    + apply all_from_end. lia.
  - destruct (Z.eqb_spec i (-1)); [lia|]. apply all_from_skip; [lia|]. intros j Hj. apply He. lia.
Qed.

(** Between two calls: before the first dict, or inside a dict. *)
Inductive ready kvs ms : kvstoreIterator SK V -> list (Z * (SK * option V)) -> Prop :=
| ready_start next : others_unpaused kvs (-1) -> next_is ms (-1) next ->
    ready kvs ms (Build_kvstoreIterator (-1) next dictInitSafeIterator false) (next_entries ms next)
| ready_in didx next di l : 0 <= didx < num_dicts kvs -> others_unpaused kvs didx -> live kvs didx di l -> next_is ms didx next ->
    ready kvs ms (Build_kvstoreIterator didx next di true) ((pair didx <$> l) ++ next_entries ms next).

(** After the last one. *)
Definition ended kvs (kvs_it : kvstoreIterator SK V) : Prop :=
  kvi_didx kvs_it = -1 /\ others_unpaused kvs (-1) /\ not_started (kvi_di kvs_it) = true \/
  0 <= kvi_didx kvs_it < num_dicts kvs /\ others_unpaused kvs (kvi_didx kvs_it) /\ finished kvs (kvi_didx kvs_it) (kvi_di kvs_it).

Lemma next_is_next kvs ms k didx : kv_rep kvs ms k -> 0 <= didx < num_dicts kvs ->
  exists i, kvstoreGetNextNonEmptyDictIndex kvs didx = Ret i /\ next_is ms didx i.
Proof.
  intros Hrep Hi. destruct (next_non_empty type canon kvs ms k didx Hrep Hi) as (i & E & H).
  exists i. split; [done|]. unfold next_is. by rewrite (kv_rep_length type canon _ _ _ Hrep).
Qed.

(** To the next dict. *)
Lemma to_next kvs ms k didx : kv_rep kvs ms k -> others_unpaused kvs (-1) -> 0 <= didx < Zlen ms -> ~ map_empty_at ms didx ->
  exists next d kvs' di de x rest, kvstoreGetNextNonEmptyDictIndex kvs didx = Ret next /\ kvstoreGetDict kvs didx = Ret (Some d) /\
    next_in table_addr kvs didx dictInitSafeIterator = Ret (kvs', di, de) /\
    kv_rep kvs' ms k /\ num_dicts kvs' = num_dicts kvs /\ next_entries ms didx ≡ₚ (didx, x) :: rest /\
    head (chain_list de) = Some x /\ ready kvs' ms (Build_kvstoreIterator didx next di true) rest.
Proof.
  intros Hrep Ho Hi Hne. pose proof (kv_rep_length type canon _ _ _ Hrep) as Hl. rewrite Hl in Hi.
  destruct (kv_rep_get type canon kvs ms k didx Hrep Hi) as (s & _ & _ & Hm & _).
  destruct (next_is_next kvs ms k didx Hrep Hi) as (next & En & Hnext).
  destruct (enter_dict kvs ms k didx _ Hrep Hi Ho Hm) as (d & Ed & kvs' & di & de & x & l & E & Hrep' & Hn & Ho' & Hlive & Hx & Hperm).
  { intros H0. apply Hne. unfold map_empty_at. by rewrite Hm, H0. }
  exists next, d, kvs', di, de, x, ((pair didx <$> l) ++ next_entries ms next). do 5 (split; [done|]).
  split; [|split; [done|]].
  - unfold next_entries at 1. destruct (Z.eqb_spec didx (-1)); [lia|]. rewrite (all_from_at ms didx _ (proj1 Hi) Hm).
    rewrite (next_is_entries ms didx next ltac:(lia) Hnext). rewrite <- Hperm. cbn [fmap list_fmap app]. reflexivity.
  - apply ready_in; [by rewrite Hn|done|done|done].
Qed.

Lemma IteratorNext_spec kvs ms k kvs_it rest : kv_rep kvs ms k -> ready kvs ms kvs_it rest ->
  exists kvs' kvs_it' de, kvstoreIteratorNext canFreeDict table_addr kvs kvs_it = Ret (kvs', kvs_it', de) /\
    kv_rep kvs' ms k /\ num_dicts kvs' = num_dicts kvs /\
    (rest = [] /\ de = DNull /\ ended kvs' kvs_it' \/
     exists x rest', rest ≡ₚ (kvi_didx kvs_it', x) :: rest' /\ head (chain_list de) = Some x /\ ready kvs' ms kvs_it' rest').
Proof.
  intros Hrep Hready. unfold kvstoreIteratorNext, kvstoreIteratorNextDict.
  destruct Hready as [next Ho Hnext|didx next di l Hi Ho Hlive Hnext]; cbn [kvi_d kvi_didx kvi_next_didx kvi_di].
  - rewrite ret_bind. cbn [is_null negb kvi_next_didx kvi_didx]. unfold next_entries. destruct Hnext as [[-> He]|(Hn & Hne & He)].
    + rewrite !Z.eqb_refl, ret_bind. eexists _, _, _. split; [reflexivity|]. split; [done|]. split; [done|]. left. split; [done|]. split; [done|].
      left. done.
    + destruct (Z.eqb_spec next (-1)) as [|Hnn]; [lia|]. change (-1 =? -1) with true. cbn [negb]. rewrite ret_bind.
      destruct (to_next kvs ms k next Hrep Ho ltac:(lia) Hne) as (next' & d & kvs' & di & de & x & rest & E1 & E2 & E3 & Hrep' & Hnum & Hp & Hx & Hr).
      rewrite E1, ret_bind, E2, ret_bind. rewrite ret_bind. cbn [kvi_didx kvi_next_didx kvi_di kvi_d]. rewrite E3, ret_bind.
      eexists _, _, _. split; [reflexivity|]. split; [done|]. split; [done|]. right. exists x, rest. split; [|done].
      unfold next_entries in Hp. by destruct (Z.eqb_spec next (-1)).
  - destruct l as [|x l].
    + destruct (next_end kvs ms k didx di Hrep Hi Ho Hlive) as (kvs1 & di1 & E & Hrep1 & Hn1 & Ho1 & Hfin).
      rewrite E, ret_bind. cbn [is_null negb kvi_next_didx kvi_didx kvi_di kvi_d fmap list_fmap app]. unfold next_entries. destruct Hnext as [[-> He]|(Hn & Hne & He)].
      * rewrite !Z.eqb_refl, ret_bind. eexists _, _, _. split; [reflexivity|]. split; [done|]. split; [done|]. left. split; [done|]. split; [done|].
        right. cbn. by rewrite Hn1.
      * destruct (Z.eqb_spec next (-1)) as [|Hnn]; [lia|]. destruct (Z.eqb_spec didx (-1)); [lia|]. cbn [negb].
        rewrite <- Hn1 in Hi. pose proof Hfin as (d1 & node1 & Hs1 & _). rewrite (GetDict_slot _ _ _ (proj1 Hi) Hs1), ret_bind. cbn [slot_dict].
        destruct (leave_dict kvs1 ms k didx di1 Hrep1 Hi Ho1 Hfin) as (kvs2 & kvs3 & E2 & E3 & Hrep3 & Hn3 & Ho3).
        rewrite E2, ret_bind, E3, ret_bind.
        destruct (to_next kvs3 ms k next Hrep3 Ho3 ltac:(lia) Hne) as (next' & d & kvs' & di' & de & x & rest & E4 & E5 & E6 & Hrep' & Hnum & Hp & Hx & Hr).
        rewrite E4, ret_bind, E5, ret_bind. rewrite ret_bind. cbn [kvi_didx kvi_next_didx kvi_di kvi_d]. rewrite E6, ret_bind.
        eexists _, _, _. split; [reflexivity|]. split; [done|]. split; [lia|]. right. exists x, rest. split; [|done].
        unfold next_entries in Hp. by destruct (Z.eqb_spec next (-1)).
    + destruct (next_live kvs ms k didx di x l Hrep Hi Ho Hlive) as (kvs' & di' & de & E & Hrep' & Hn & Ho' & Hlive' & Hx).
      rewrite E, ret_bind. assert (is_null de = false) as -> by (by destruct de). cbn [negb].
      eexists _, _, _. split; [reflexivity|]. split; [done|]. split; [done|]. right.
      exists x, ((pair didx <$> l) ++ next_entries ms next). split; [done|]. split; [done|]. apply ready_in; [by rewrite Hn|done|done|done].
Qed.

Lemma IteratorReset_spec kvs ms k kvs_it : kv_rep kvs ms k -> ended kvs kvs_it ->
  exists kvs', kvstoreIteratorReset canFreeDict table_addr kvs kvs_it = Ret kvs' /\ kv_rep kvs' ms k /\
    num_dicts kvs' = num_dicts kvs /\ others_unpaused kvs' (-1).
Proof.
  intros Hrep He. unfold kvstoreIteratorReset. destruct He as [(Ed & Ho & Hst)|(Hi & Ho & Hfin)].
  - unfold reset_in. rewrite Hst, ret_bind, Ed. change (-1 =? -1) with true. by exists kvs.
  - destruct (leave_dict kvs ms k _ _ Hrep Hi Ho Hfin) as (kvs1 & kvs' & -> & E & H). rewrite ret_bind.
    destruct (Z.eqb_spec (kvi_didx kvs_it) (-1)); [lia|]. cbn [negb]. by exists kvs'.
Qed.

(** ** The sweep *)

Abbreviation entry_canon := (entry_canon type canon).

(** What is to come is in the maps, at its key, once. *)
Definition in_maps ms (rest : list (Z * (SK * option V))) : Prop :=
  NoDup ((fun p => (p.1, entry_canon p.2)) <$> rest) /\
  forall j x, (j, x) ∈ rest -> 0 <= j /\ exists m, ms !! Z.to_nat j = Some m /\ m !! entry_canon x = Some x.

(** The maps without the selected keys among [rest]. *)
Definition swept (sel : Z -> SK -> bool) ms ms' (rest : list (Z * (SK * option V))) : Prop :=
  length ms' = length ms /\ forall j m, ms !! j = Some m -> exists m', ms' !! j = Some m' /\
    forall c x, m' !! c = Some x <-> m !! c = Some x /\ ~ ((Z.of_nat j, x) ∈ rest /\ sel (Z.of_nat j) x.1 = true).

Lemma map_key kvs ms k j m c x : kv_rep kvs ms k -> ms !! j = Some m -> m !! c = Some x -> entry_canon x = c.
Proof.
  intros [Hb <- _] Hm Hx. rewrite list_lookup_fmap in Hm. destruct (dicts kvs !! j) as [[[d node]|]|] eqn:Es; [| |done]; cbn in Hm; injection Hm as <-.
  - unfold dict_map in Hx. apply elem_of_list_to_map_2 in Hx. by apply list_elem_of_fmap in Hx as (y & [= -> ->] & _).
  - done.
Qed.

Lemma in_maps_step sel ms didx m x rest : in_maps ms ((didx, x) :: rest) -> ms !! Z.to_nat didx = Some m ->
  in_maps ms rest /\ in_maps (<[Z.to_nat didx := delete (entry_canon x) m]> ms) rest /\
  (forall j m0 m1, ms !! j = Some m0 -> <[Z.to_nat didx := delete (entry_canon x) m]> ms !! j = Some m1 ->
    (forall c y, m0 !! c = Some y -> entry_canon y = c) ->
    forall c y, m1 !! c = Some y <-> m0 !! c = Some y /\ (Z.of_nat j, y) <> (didx, x)) /\
  ~ (didx, x) ∈ rest /\ swept sel ms ms [].
Proof.
  intros [Hnd Hin] Hm. cbn [fmap list_fmap fst snd] in Hnd. apply list.NoDup_cons in Hnd as [Hno Hnd].
  destruct (Hin didx x ltac:(left)) as (Hd0 & m' & Hm' & Hx). rewrite Hm in Hm'. injection Hm' as <-.
  assert (forall j y, (j, y) ∈ rest -> 0 <= j /\ exists m, ms !! Z.to_nat j = Some m /\ m !! entry_canon y = Some y) as Hin'.
  { intros j y Hy. apply Hin. by right. }
  split; [done|]. split; [|split; [|split]].
  - split; [done|]. intros j y Hy. destruct (Hin' j y Hy) as (Hj & m0 & Hm0 & Hy0). split; [done|].
    destruct (decide (j = didx)) as [->|Hne].
    + exists (delete (entry_canon x) m). split; [apply list_lookup_insert_eq; by eapply lookup_lt_Some|].
      rewrite Hm in Hm0. injection Hm0 as <-. rewrite lookup_delete_ne; [done|]. intros Hc. apply Hno. apply list_elem_of_fmap.
      exists (didx, y). split; [|done]. cbn. by rewrite Hc.
    + exists m0. split; [|done]. rewrite list_lookup_insert_ne by lia. done.
  - intros j m0 m1 Hm0 Hm1 Hkey c y. destruct (decide (Z.to_nat didx = j)) as [Hj|Hne].
    + subst j. rewrite list_lookup_insert_eq in Hm1 by (by eapply lookup_lt_Some). injection Hm1 as <-.
      rewrite Hm in Hm0. injection Hm0 as <-. rewrite Z2Nat.id by done. rewrite lookup_delete_Some. split.
      * intros [Hc Hy]. split; [done|]. intros [= ->]. apply Hc. by apply Hkey.
      * intros [Hy Hne]. split; [|done]. intros <-. apply Hne. f_equal. congruence.
    + rewrite list_lookup_insert_ne in Hm1 by done. rewrite Hm0 in Hm1. injection Hm1 as <-. split; [|by intros []].
      intros Hy. split; [done|]. intros [= E _]. lia.
  - intros Hx'. apply Hno. apply list_elem_of_fmap. by exists (didx, x).
  - split; [done|]. intros j m0 Hm0. exists m0. split; [done|]. intros c y. split; [|by intros []]. intros Hy. split; [done|].
    by intros [H%elem_of_nil _].
Qed.

Lemma ready_delete kvs kvs1 ms k didx m next di l key : kv_rep kvs ms k -> live kvs1 didx di l -> others_unpaused kvs1 didx ->
  0 <= didx < num_dicts kvs1 -> next_is ms didx next -> ms !! Z.to_nat didx = Some m ->
  ready kvs1 (<[Z.to_nat didx := delete key m]> ms) (Build_kvstoreIterator didx next di true) ((pair didx <$> l) ++ next_entries ms next).
Proof.
  intros Hrep Hlive Ho Hi Hnext Hm.
  assert (forall j, didx < j -> map_empty_at (<[Z.to_nat didx := delete key m]> ms) j <-> map_empty_at ms j) as He.
  { intros j Hj. unfold map_empty_at. by rewrite list_lookup_insert_ne by lia. }
  assert (next_entries ms next = next_entries (<[Z.to_nat didx := delete key m]> ms) next) as ->.
  { unfold next_entries. destruct (Z.eqb_spec next (-1)); [done|]. rewrite all_from_insert; [done| |lia].
    destruct Hnext as [[? _]|[? _]]; lia. }
  apply ready_in; [done|done|done|]. unfold next_is in *. rewrite Zlen_insert. destruct Hnext as [[-> Hall]|(Hn & Hne & Hall)]; [left|right].
  - split; [done|]. intros j Hj. apply He; [lia|]. by apply Hall.
  - split; [done|]. split; [by rewrite He by lia|]. intros j Hj. apply He; [lia|]. by apply Hall.
Qed.

Section sweep.
Context (sel : Z -> SK -> bool) (Hffr : force_full_rehash type = false).

(** One element more. *)
Lemma swept_cons ms ms1 ms' didx x rest : length ms1 = length ms -> ~ (didx, x) ∈ rest -> 0 <= didx ->
  (forall j m0 m1, ms !! j = Some m0 -> ms1 !! j = Some m1 ->
    forall c y, m1 !! c = Some y <-> m0 !! c = Some y /\ ~ ((Z.of_nat j, y) = (didx, x) /\ sel didx x.1 = true)) ->
  swept sel ms1 ms' rest -> swept sel ms ms' ((didx, x) :: rest).
Proof.
  intros Hl Hno Hd H1 [Hl' Hs]. split; [by rewrite Hl'|]. intros j m Hm.
  destruct (lookup_lt_is_Some_2 ms1 j) as [m1 Hm1]; [rewrite Hl; by eapply lookup_lt_Some|].
  destruct (Hs j m1 Hm1) as (m' & Hm' & Hiff). exists m'. split; [done|]. intros c y. rewrite Hiff, (H1 j m m1 Hm Hm1).
  rewrite list.elem_of_cons. split.
  - intros [[Hy Hn1] Hn2]. split; [done|]. intros [[Heq|Hin] Hsel]; [|by apply Hn2].
    apply Hn1. split; [done|]. by injection Heq as <- <-.
  - intros [Hy Hn]. split; [split; [done|]|].
    + intros [Heq Hsel]. apply Hn. split; [by left|]. by injection Heq as -> ->.
    + intros [Hin Hsel]. apply Hn. split; [by right|done].
Qed.

Lemma sweep_loop_spec k fuel : forall kvs ms kvs_it rest, kv_rep kvs ms k -> ready kvs ms kvs_it rest -> in_maps ms rest ->
  (length rest < fuel)%nat ->
  exists kvs' l ms', sweep_loop type can_resize canFreeDict table_addr fuel sel kvs kvs_it = Ret (kvs', l) /\
    kv_rep kvs' ms' k /\ num_dicts kvs' = num_dicts kvs /\ others_unpaused kvs' (-1) /\
    l ≡ₚ (fun p => (p.1, p.2.1)) <$> rest /\ swept sel ms ms' rest.
Proof.
  induction fuel as [|fuel IH]; intros kvs ms kvs_it rest Hrep Hready Hin Hf; [lia|]. cbn [sweep_loop].
  destruct (IteratorNext_spec kvs ms k kvs_it rest Hrep Hready) as (kvs1 & it1 & de & E & Hrep1 & Hn1 & Hcase). rewrite E, ret_bind.
  destruct Hcase as [(-> & -> & Hend)|(x & rest' & Hperm & Hx & Hready1)].
  - cbn [is_null]. destruct (IteratorReset_spec kvs1 ms k it1 Hrep1 Hend) as (kvs' & -> & Hrep' & Hn' & Ho). rewrite ret_bind.
    exists kvs', [], ms. split; [done|]. split; [done|]. split; [lia|]. split; [done|]. split; [done|]. split; [done|].
    intros j m Hm. exists m. split; [done|]. intros c y. split; [|by intros []]. intros Hy. split; [done|]. by intros [H%elem_of_nil _].
  - assert (is_null de = false /\ dictGetKey de = Ret x.1) as [-> Hk] by (destruct de; [done|..]; injection Hx as <-; done).
    rewrite Hk, ret_bind. remember (kvi_didx it1) as didx eqn:Edidx.
    assert (in_maps ms ((didx, x) :: rest')) as Hin1.
    { destruct Hin as [Hnd Hin]. split; [by rewrite <- Hperm|]. intros j y Hy. apply Hin. by rewrite Hperm. }
    destruct (proj2 Hin1 didx x ltac:(left)) as (Hd0 & m & Hm & Hxm).
    destruct (in_maps_step sel ms didx m x rest' Hin1 Hm) as (Hin2 & Hin3 & Hdel & Hno & _).
    destruct Hready1 as [next Ho Hnext|didx' next di l Hi Ho Hlive Hnext]; cbn [kvi_didx] in Edidx; [lia|subst didx'].
    unfold kvstoreIteratorGetCurrentDictIndex. cbn [kvi_didx].
    destruct (Z.leb_spec 0 didx); [|lia]. destruct (Z.ltb_spec didx (num_dicts kvs1)); [|lia]. cbn [andb c_assert]. rewrite !ret_bind.
    assert (length ((pair didx <$> l) ++ next_entries ms next) < fuel)%nat as Hf'.
    { apply Permutation_length in Hperm. cbn [length] in Hperm. lia. }
    destruct (sel didx x.1) eqn:Es.
    + destruct (delete_live kvs1 ms k didx m di l (keyFromStoredKey type x.1) Hffr Hrep1 Hi Hm Ho Hlive) as (kvs2 & b & E2 & Hn2 & Hrep2 & Ho2 & Hlive2).
      { destruct Hin1 as [Hnd _]. cbn [fmap list_fmap fst snd] in Hnd. apply list.NoDup_cons in Hnd as [Hnd _].
        intros Hc. apply Hnd. apply list_elem_of_fmap in Hc as (y & Hy & Hyl). apply list_elem_of_fmap. exists (didx, y).
        split; [cbn; f_equal; exact Hy|]. apply elem_of_app. left. apply list_elem_of_fmap. by exists y. }
      change (canon (keyFromStoredKey type x.1)) with (entry_canon x) in Hrep2. rewrite E2, !ret_bind.
      assert (0 <= didx < num_dicts kvs2) as Hi2 by (by rewrite Hn2).
      destruct (IH kvs2 _ _ _ Hrep2 (ready_delete kvs1 kvs2 ms k didx m next di l (entry_canon x) Hrep1 Hlive2 Ho2 Hi2 Hnext Hm) Hin3 Hf')
        as (kvs' & l' & ms' & -> & Hrep' & Hn' & Ho' & Hl' & Hsw). rewrite ret_bind.
      exists kvs', ((didx, x.1) :: l'), ms'. split; [done|]. split; [done|]. split; [lia|]. split; [done|]. split; [by rewrite Hl', Hperm|].
      assert (swept sel ms ms' ((didx, x) :: (pair didx <$> l) ++ next_entries ms next)) as Hgo.
      { apply (swept_cons ms (<[Z.to_nat didx := delete (entry_canon x) m]> ms)); [by rewrite length_insert|done|done| |exact Hsw]. intros j m0 m1 Hm0 Hm1 c y.
        rewrite (Hdel j m0 m1 Hm0 Hm1 (fun c y => map_key kvs1 ms k j m0 c y Hrep1 Hm0)). rewrite Es.
        split; (intros [Hy Hn]; split; [done|]); [by intros [? _]|by intros ?; apply Hn]. }
      destruct Hgo as [Hgl Hgo]. split; [done|]. intros j m0 Hm0. destruct (Hgo j m0 Hm0) as (m' & Hm' & Hiff). exists m'. split; [done|].
      intros c y. rewrite Hiff. by rewrite Hperm.
    + rewrite ret_bind. assert (ready kvs1 ms (Build_kvstoreIterator didx next di true) ((pair didx <$> l) ++ next_entries ms next)) as Hr by (by apply ready_in).
      destruct (IH kvs1 _ _ _ Hrep1 Hr Hin2 Hf') as (kvs' & l' & ms' & -> & Hrep' & Hn' & Ho' & Hl' & Hsw). rewrite ret_bind.
      exists kvs', ((didx, x.1) :: l'), ms'. split; [done|]. split; [done|]. split; [lia|]. split; [done|]. split; [by rewrite Hl', Hperm|].
      assert (swept sel ms ms' ((didx, x) :: (pair didx <$> l) ++ next_entries ms next)) as Hgo.
      { apply (swept_cons ms ms); [done|done|done| |exact Hsw]. intros j m0 m1 Hm0 Hm1 c y. rewrite Hm0 in Hm1. injection Hm1 as <-. rewrite Es.
        split; [|by intros []]. intros Hy. split; [done|by intros []]. }
      destruct Hgo as [Hgl Hgo]. split; [done|]. intros j m0 Hm0. destruct (Hgo j m0 Hm0) as (m' & Hm' & Hiff). exists m'. split; [done|].
      intros c y. rewrite Hiff. by rewrite Hperm.
Qed.

Lemma map_entries_keys kvs ms k j m : kv_rep kvs ms k -> ms !! j = Some m -> entry_canon <$> map_entries m = (map_to_list m).*1.
Proof.
  intros Hrep Hm. unfold map_entries. rewrite <- list_fmap_compose. apply list_fmap_ext. intros i [c x] Hi.
  apply list_elem_of_lookup_2, elem_of_map_to_list in Hi. by apply (map_key kvs ms k j m c x).
Qed.

Lemma all_in_maps kvs ms k : kv_rep kvs ms k -> in_maps ms (all_from ms 0).
Proof.
  intros Hrep. split.
  - assert (forall l i n, 0 <= i -> (forall j m, l !! j = Some m -> ms !! (n + j)%nat = Some m) ->
      NoDup ((fun p => (p.1, entry_canon p.2)) <$> entries_from i l) /\ forall p, p ∈ entries_from i l -> i <= p.1) as Hgo.
    { intros l. induction l as [|m l IH]; intros i n Hi Hl; cbn [entries_from]; [split; [apply NoDup_nil_2|by intros p H%elem_of_nil]|].
      destruct (IH (i + 1) (S n) ltac:(lia)) as [Hnd Hge].
      { intros j m' Hj. rewrite Nat.add_succ_l, <- Nat.add_succ_r. by apply Hl. }
      pose proof (Hl 0%nat m eq_refl) as Hm. split.
      - rewrite fmap_app. apply list.NoDup_app. split; [|split; [|done]].
        + rewrite <- list_fmap_compose. change ((fun p => (p.1, entry_canon p.2)) ∘ pair i) with (pair i ∘ entry_canon).
          rewrite list_fmap_compose, (map_entries_keys kvs ms k _ m Hrep Hm). apply NoDup_fmap_2; [by intros ? ? [= ->]|apply NoDup_fst_map_to_list].
        + intros p Hp Hp'. apply list_elem_of_fmap in Hp as (q & -> & Hq). apply list_elem_of_fmap in Hq as (y & -> & _).
          apply list_elem_of_fmap in Hp' as (q' & Hq' & Hin). apply Hge in Hin. injection Hq' as Hq'. cbn in Hq'. lia.
      - intros p Hp. apply elem_of_app in Hp as [Hp|Hp]; [apply list_elem_of_fmap in Hp as (y & -> & _); cbn; lia|]. apply Hge in Hp. lia. }
    apply (Hgo ms 0 0%nat); [lia|done].
  - intros j x Hx. apply elem_of_all_from in Hx as (Hj & m & Hm & Hx); [|done]. split; [done|]. exists m. split; [done|].
    apply list_elem_of_fmap in Hx as ([c y] & -> & Hy). apply elem_of_map_to_list in Hy. cbn.
    by rewrite (map_key kvs ms k _ m c y Hrep Hm Hy).
Qed.

Lemma all_from_length ms : Zlen (all_from ms 0) = zsum (msize <$> ms).
Proof.
  unfold all_from. change (Z.to_nat 0) with 0%nat. rewrite drop_0. generalize 0. induction ms as [|m ms IH]; intros i; [done|]. cbn [entries_from fmap list_fmap zsum].
  rewrite Zlen_app, IH. f_equal. unfold map_entries, msize, Zlen. by rewrite !length_fmap, length_map_to_list.
Qed.

(** The maps of the keys that are not selected. *)
Definition unselected ms : list dmap := imap (fun j m => filter (fun p => sel (Z.of_nat j) p.2.1 = false) m) ms.

Lemma swept_unselected kvs ms k ms' : kv_rep kvs ms k -> swept sel ms ms' (all_from ms 0) -> ms' = unselected ms.
Proof.
  intros Hrep [Hl Hs]. apply list_eq. intros j. unfold unselected. rewrite list_lookup_imap.
  destruct (ms !! j) as [m|] eqn:Hm; cbn.
  - destruct (Hs j m Hm) as (m' & -> & Hiff). f_equal. apply map_eq. intros c. apply option_eq. intros x.
    rewrite Hiff, map_lookup_filter_Some. cbn [snd]. split; intros [Hx Hn]; (split; [done|]).
    + apply not_true_is_false. intros Hsel. apply Hn. split; [|done]. apply elem_of_all_from; [done|]. split; [lia|].
      exists m. rewrite Nat2Z.id. split; [done|]. apply list_elem_of_fmap. exists (c, x). split; [done|]. by apply elem_of_map_to_list.
    + intros [_ Hsel]. congruence.
  - apply lookup_ge_None in Hm. apply lookup_ge_None. lia.
Qed.

Lemma sweep_spec kvs ms k : kv_rep kvs ms k -> others_unpaused kvs (-1) ->
  exists kvs' l, sweep type can_resize canFreeDict table_addr sel kvs = Ret (kvs', l) /\ kv_rep kvs' (unselected ms) k /\
    others_unpaused kvs' (-1) /\ l ≡ₚ (fun p => (p.1, p.2.1)) <$> all_from ms 0.
Proof.
  intros Hrep Ho. unfold sweep, kvstoreIteratorInit.
  destruct (first_non_empty type canon kvs ms k Hrep) as (first & -> & Hfirst). rewrite !ret_bind.
  assert (next_is ms (-1) first) as Hnext.
  { unfold next_is. rewrite (kv_rep_length type canon _ _ _ Hrep). destruct Hfirst as [[-> He]|(Hi & Hne & He)]; [left|right].
    - split; [done|]. intros j Hj. apply He. lia.
    - split; [lia|]. split; [done|]. intros j Hj. apply He. lia. }
  pose proof (next_is_entries ms (-1) first ltac:(lia) Hnext) as Hall. change (-1 + 1) with 0 in Hall.
  pose proof (ready_start kvs ms first Ho Hnext) as Hready. rewrite <- Hall in Hready.
  assert (length (all_from ms 0) < S (Z.to_nat (kvstoreSize kvs)))%nat as Hf.
  { pose proof (all_from_length ms) as Hlen. rewrite (kv_rep_keys type canon _ _ _ Hrep). unfold Zlen in Hlen. lia. }
  destruct (sweep_loop_spec k _ kvs ms _ _ Hrep Hready (all_in_maps kvs ms k Hrep) Hf) as (kvs' & l & ms' & E & Hrep' & _ & Ho' & Hl & Hsw).
  exists kvs', l. split; [exact E|]. by rewrite <- (swept_unselected kvs ms k ms' Hrep Hsw).
Qed.
End sweep.
End spec.

Section theorems.
Context {K SK V : Type} (type : dictType K SK V).
Context {C : Type} (canon : K -> C) `{!EqDecision C, !Countable C, !DictKeys type canon}.
Context (can_resize : dictResizeEnable) (canFreeDict : option (kvstore SK V -> Z -> bool)) (table_addr : dict SK V -> Z -> Z).

(** C7. Iterating over a whole kvstore while deleting any of the keys just
    visited returns, visits every key of every dict exactly once, dict after
    dict, deletes exactly the selected keys with all the counters kept exact
    (also when a dict becomes empty and is freed behind the iterator, or
    shrinks under it), and leaves no dict paused. *)
Theorem kvstore_sweep_correct (sel : Z -> SK -> bool) (kvs : kvstore SK V) (ms : list (gmap C (SK * option V))) (k : Z) :
  force_full_rehash type = false -> kv_rep type canon kvs ms k -> others_unpaused kvs (-1) ->
  exists kvs' l, sweep type can_resize canFreeDict table_addr sel kvs = Ret (kvs', l) /\
    kv_rep type canon kvs' (unselected sel ms) k /\ others_unpaused kvs' (-1) /\
    l ≡ₚ (fun p => (p.1, p.2.1)) <$> all_from ms 0.
Proof. intros Hffr Hrep Ho. by apply (sweep_spec type canon can_resize canFreeDict table_addr sel Hffr kvs ms k). Qed.
End theorems.

(** ** Examples *)

Definition slot_unpaused (s : option (dict Z Z * bool)) : bool := match s with Some (d, _) => pauserehash d =? 0 | None => true end.

Lemma unpaused_check (kvs : kvstore Z Z) : forallb slot_unpaused (dicts kvs) = true -> others_unpaused kvs (-1).
Proof.
  intros H i d node _ _ Hs. apply list_elem_of_lookup_2, list_elem_of_In in Hs. rewrite forallb_forall in H. specialize (H _ Hs).
  by apply Z.eqb_eq in H.
Qed.

Lemma kvstore_sweep_witness :
  exists kvs' l, sweep int_type DICT_RESIZE_ENABLE None int_addr (fun _ k => k =? 7) demo_kvs = Ret (kvs', l) /\
    kv_rep int_type id kvs' (unselected (fun _ k => k =? 7) demo_ms) 0 /\ others_unpaused kvs' (-1) /\
    l ≡ₚ (fun p => (p.1, p.2.1)) <$> all_from demo_ms 0.
Proof.
  apply (kvstore_sweep_correct int_type id DICT_RESIZE_ENABLE None int_addr (fun _ k => k =? 7) demo_kvs demo_ms 0);
    [reflexivity|apply demo_kvs_rep|apply unpaused_check; vm_compute; reflexivity].
Defined.

Example demo_sweep : match sweep int_type DICT_RESIZE_ENABLE None int_addr (fun _ k => k =? 7) demo_kvs with
  | Ret (kvs', l) => l = [(0, 7); (0, 1); (2, 5)] /\ kvstoreSize kvs' = 2 | _ => False end.
Proof. vm_compute. done. Qed.

(** The next dict is chosen when the iterator enters the one before: a client
    that meanwhile deletes the only key of that next dict ends the iteration
    there, and the key 9 of dict 3 is never visited. *)
Example iterator_stops_early : forall fl, fl = 1 \/ fl = 3 ->
  (kvs ← kvstoreCreate 2 fl;
   '(kvs, _) ← kv_put int_type DICT_RESIZE_ENABLE kvs 0 1 10;
   '(kvs, _) ← kv_put int_type DICT_RESIZE_ENABLE kvs 2 5 50;
   '(kvs, _) ← kv_put int_type DICT_RESIZE_ENABLE kvs 3 9 90;
   it ← kvstoreIteratorInit kvs;
   '(kvs, it, de1) ← kvstoreIteratorNext None int_addr kvs it;
   '(kvs, _) ← kvstoreDictDelete int_type DICT_RESIZE_ENABLE None kvs 2 5;
   '(kvs, it, de2) ← kvstoreIteratorNext None int_addr kvs it;
   Ret (de1, de2, kvstoreSize kvs)) = Ret (DEntry 1 (Some 10) DNull, DNull, 2).
Proof. intros fl [-> | ->]; vm_compute; reflexivity. Qed.
