(* ===== verification/Skiplist.v ===== *)
(** * Skiplist: the sorted set's skiplist of t_zset.c

    Nodes live in a store indexed by their address; a pointer is an optional
    address.  A node has its score, its embedded string, the backward pointer,
    its number of levels ([zskiplistNodeInfo], kept by the code in
    [level[0].span], which is therefore no span) and the array [level] of
    forward pointers and spans.  Dereferencing NULL or a freed node, or a level
    the node does not have, is [OutOfBounds].  [alloc_size], which only counts
    what the allocator reports, is left out.  Scores are C doubles seen through
    their comparisons. *)

From stdpp Require Import countable sets fin_maps gmap.
From S2P Require Import Prelude Memory.

Definition ZSKIPLIST_MAXLEVEL : Z := 32.
Definition ZSKIPLIST_MAX_SEARCH : Z := 10.

(** The comparisons [a < b], [a <= b], [a == b] and [isnan(a)]. *)
Class Score (Sc : Type) := {
  score_lt : Sc -> Sc -> bool;
  score_le : Sc -> Sc -> bool;
  score_eq : Sc -> Sc -> bool;
  score_nan : Sc -> bool;
  (** The score 0 the header is initialised with. *)
  score_zero : Sc;
}.

(** ** Strings *)

(** The difference of the first bytes that differ among the first [n]. *)
Fixpoint memcmp (n : nat) (s1 s2 : list Z) : Z :=
  match n, s1, s2 with
  | S n, c1 :: s1, c2 :: s2 => if c1 =? c2 then memcmp n s1 s2 else c1 - c2
  | _, _, _ => 0
  end.

Definition sdscmp (s1 s2 : list Z) : Z :=
  let l1 := Zlen s1 in
  let l2 := Zlen s2 in
  let minlen := if l1 <? l2 then l1 else l2 in
  let cmp := memcmp (Z.to_nat minlen) s1 s2 in
  if cmp =? 0 then (if l2 <? l1 then 1 else if l1 <? l2 then -1 else 0) else cmp.

Abbreviation ptr := positive.

Record zskiplistNode (Sc : Type) := Build_node {
  zn_score : Sc;
  (** [None] for the header ([ZSL_OFFSET_NO_ELE]). *)
  zn_ele : option (list Z);
  zn_backward : option ptr;
  zn_levels : Z;
  zn_level : list (option ptr * Z);
}.
Arguments Build_node {Sc}. Arguments zn_score {Sc}. Arguments zn_ele {Sc}. Arguments zn_backward {Sc}.
Arguments zn_levels {Sc}. Arguments zn_level {Sc}.

Record zskiplist (Sc : Type) := Build_zsl {
  zsl_nodes : gmap ptr (zskiplistNode Sc);
  zsl_header : ptr;
  zsl_tail : option ptr;
  zsl_length : Z;
  zsl_level : Z;
}.
Arguments Build_zsl {Sc}. Arguments zsl_nodes {Sc}. Arguments zsl_header {Sc}. Arguments zsl_tail {Sc}.
Arguments zsl_length {Sc}. Arguments zsl_level {Sc}.

(** [zrangespec]. *)
Record zrangespec (Sc : Type) := { rs_min : Sc; rs_max : Sc; rs_minex : bool; rs_maxex : bool }.
Arguments rs_min {Sc}. Arguments rs_max {Sc}. Arguments rs_minex {Sc}. Arguments rs_maxex {Sc}.

(** An end of a [zlexrangespec]: [shared.minstring], [shared.maxstring] or a string. *)
Inductive lexend := LexMin | LexMax | LexVal (s : list Z).
Record zlexrangespec := { ls_min : lexend; ls_max : lexend; ls_minex : bool; ls_maxex : bool }.

(** [for (i = ...; ...; i++)], [n] times. *)
Fixpoint for_up {A} (n : nat) (i : Z) (f : Z -> A -> outcome A) (a : A) : outcome A :=
  match n with
  | O => Ret a
  | S n => a ← f i a; for_up n (i + 1) f a
  end.

Section skiplist.
Context {Sc : Type} `{!Score Sc}.
(** The uninitialised contents of a new node's levels. *)
Context (junk : Z -> option ptr * Z).
Abbreviation zskiplist := (zskiplist Sc).
Abbreviation zskiplistNode := (zskiplistNode Sc).

(** ** Memory *)

Definition get_node (z : zskiplist) (x : ptr) : outcome zskiplistNode :=
  match zsl_nodes z !! x with Some n => Ret n | None => OutOfBounds end.

Definition set_nodes (z : zskiplist) (m : gmap ptr zskiplistNode) : zskiplist :=
  Build_zsl m (zsl_header z) (zsl_tail z) (zsl_length z) (zsl_level z).

Definition put_node (z : zskiplist) (x : ptr) (n : zskiplistNode) : zskiplist :=
  set_nodes z (<[x := n]> (zsl_nodes z)).

Definition set_tail (z : zskiplist) (t : option ptr) : zskiplist :=
  Build_zsl (zsl_nodes z) (zsl_header z) t (zsl_length z) (zsl_level z).
Definition set_length (z : zskiplist) (l : Z) : zskiplist :=
  Build_zsl (zsl_nodes z) (zsl_header z) (zsl_tail z) l (zsl_level z).
Definition set_zlevel (z : zskiplist) (l : Z) : zskiplist :=
  Build_zsl (zsl_nodes z) (zsl_header z) (zsl_tail z) (zsl_length z) l.

(** [x->level[i]]. *)
Definition get_slot (z : zskiplist) (x : ptr) (i : Z) : outcome (option ptr * Z) :=
  n ← get_node z x; rd (zn_level n) i.

Definition put_slot (z : zskiplist) (x : ptr) (i : Z) (s : option ptr * Z) : outcome zskiplist :=
  n ← get_node z x;
  l ← wr (zn_level n) i s;
  Ret (put_node z x (Build_node (zn_score n) (zn_ele n) (zn_backward n) (zn_levels n) l)).

Definition get_forward (z : zskiplist) (x : ptr) (i : Z) : outcome (option ptr) :=
  s ← get_slot z x i; Ret s.1.

Definition set_forward (z : zskiplist) (x : ptr) (i : Z) (f : option ptr) : outcome zskiplist :=
  s ← get_slot z x i; put_slot z x i (f, s.2).

Definition set_backward (z : zskiplist) (x : ptr) (b : option ptr) : outcome zskiplist :=
  n ← get_node z x; Ret (put_node z x (Build_node (zn_score n) (zn_ele n) b (zn_levels n) (zn_level n))).

Definition set_score (z : zskiplist) (x : ptr) (s : Sc) : outcome zskiplist :=
  n ← get_node z x; Ret (put_node z x (Build_node s (zn_ele n) (zn_backward n) (zn_levels n) (zn_level n))).

Definition set_levels (z : zskiplist) (x : ptr) (l : Z) : outcome zskiplist :=
  n ← get_node z x; Ret (put_node z x (Build_node (zn_score n) (zn_ele n) (zn_backward n) l (zn_level n))).

(** ** Spans *)

Definition zslGetNodeSpanAtLevel (z : zskiplist) (x : ptr) (level : Z) : outcome Z :=
  if 0 <? level then s ← get_slot z x level; Ret s.2
  else f ← get_forward z x 0; Ret (match f with Some _ => 1 | None => 0 end).

Definition zslSetNodeSpanAtLevel (z : zskiplist) (x : ptr) (level span : Z) : outcome zskiplist :=
  if 0 <? level then s ← get_slot z x level; put_slot z x level (s.1, span) else Ret z.

Definition zslIncrNodeSpanAtLevel (z : zskiplist) (x : ptr) (level incr : Z) : outcome zskiplist :=
  if 0 <? level then s ← get_slot z x level; put_slot z x level (s.1, u64 (s.2 + incr)) else Ret z.

Definition zslDecrNodeSpanAtLevel (z : zskiplist) (x : ptr) (level decr : Z) : outcome zskiplist :=
  if 0 <? level then s ← get_slot z x level; put_slot z x level (s.1, u64 (s.2 - decr)) else Ret z.

(** ** Nodes *)

Definition zslGetNodeElement (n : zskiplistNode) : outcome (list Z) :=
  match zn_ele n with Some e => Ret e | None => OutOfBounds end.

Definition zslCompareWithNode (z : zskiplist) (score : Sc) (ele : list Z) (n : option ptr) : outcome Z :=
  match n with
  | None => Ret (-1)
  | Some n =>
    n ← get_node z n;
    if score_lt score (zn_score n) then Ret (-1)
    else if score_lt (zn_score n) score then Ret 1
    else e ← zslGetNodeElement n; Ret (sdscmp ele e)
  end.

Definition zslCreateHeaderNode : zskiplistNode :=
  Build_node score_zero None None ZSKIPLIST_MAXLEVEL (replicate (Z.to_nat ZSKIPLIST_MAXLEVEL) (None, 0)).

Definition zslCreateNode (z : zskiplist) (level : Z) (score : Sc) (ele : list Z) : zskiplist * ptr :=
  let p := fresh (dom (zsl_nodes z)) in
  (put_node z p (Build_node score (Some ele) None level (junk <$> seqZ 0 level)), p).

Definition zslCreate : zskiplist :=
  let p := fresh (∅ : gset ptr) in
  Build_zsl {[ p := zslCreateHeaderNode ]} p None 0 1.

Definition zslFreeNode (z : zskiplist) (node : ptr) : zskiplist :=
  set_nodes z (delete node (zsl_nodes z)).

(** [draws] are the results of [random()]; the threshold is [0.25 * RAND_MAX]. *)
Fixpoint random_level_loop (draws : list Z) (level : Z) : outcome Z :=
  match draws with
  | [] => OutOfFuel
  | r :: draws => if r <? 536870911 then random_level_loop draws (level + 1) else Ret level
  end.

Definition zslRandomLevel (draws : list Z) : outcome Z :=
  level ← random_level_loop draws 1;
  Ret (if level <? ZSKIPLIST_MAXLEVEL then level else ZSKIPLIST_MAXLEVEL).

(** ** Walking *)

(** No walk passes more nodes than the list has. *)
Definition zsl_fuel (z : zskiplist) : nat := S (Z.to_nat (zsl_length z)).

(** [while (go x) x = x->level[i].forward], with the ranks crossed when [count]. *)
Fixpoint walk (fuel : nat) (z : zskiplist) (go : ptr -> Z -> Z -> outcome bool) (count : bool) (i : Z) (x : ptr) (rank : Z)
  : outcome (ptr * Z) :=
  b ← go x i rank;
  if (b : bool) then
    match fuel with
    | O => OutOfFuel
    | S fuel =>
      rank ← (if count then span ← zslGetNodeSpanAtLevel z x i; Ret (u64 (rank + span)) else Ret rank);
      f ← get_forward z x i;
      match f with Some y => walk fuel z go count i y rank | None => OutOfBounds end
    end
  else Ret (x, rank).

(** [for (i = n-1; i >= 0; i--)] over the walks, each starting where the one
    above ended: [update[i]] and [rank[i]] for [i < n]. *)
Fixpoint descend (n : nat) (z : zskiplist) (go : ptr -> Z -> Z -> outcome bool) (count : bool) (x : ptr) (rank : Z)
  : outcome (list (ptr * Z)) :=
  match n with
  | O => Ret []
  | S n =>
    '(x, rank) ← walk (zsl_fuel z) z go count (Z.of_nat n) x rank;
    l ← descend n z go count x rank;
    Ret (l ++ [(x, rank)])
  end.

(** [zslCompareWithNode(score, ele, x->level[i].forward) > 0]. *)
Definition go_before (z : zskiplist) (score : Sc) (ele : list Z) (x : ptr) (i _ : Z) : outcome bool :=
  f ← get_forward z x i; c ← zslCompareWithNode z score ele f; Ret (0 <? c).

(** [x->level[i].forward && p(x->level[i].forward)]. *)
Definition go_while (z : zskiplist) (p : zskiplistNode -> outcome bool) (x : ptr) (i _ : Z) : outcome bool :=
  f ← get_forward z x i;
  match f with None => Ret false | Some y => n ← get_node z y; p n end.

(** ** Insertion *)

(** Levels above the list's: [update[i]] is the header, its span the length. *)
Definition raise_level (i : Z) (z : zskiplist) : outcome zskiplist :=
  zslSetNodeSpanAtLevel z (zsl_header z) i (zsl_length z).

(** Linking [node] at level [i] after [update[i]]. *)
Definition link_level (node : ptr) (rank0 : Z) (update : list (ptr * Z)) (i : Z) (z : zskiplist) : outcome zskiplist :=
  '(u, rank) ← rd update i;
  f ← get_forward z u i;
  z ← set_forward z node i f;
  z ← set_forward z u i (Some node);
  span ← zslGetNodeSpanAtLevel z u i;
  z ← zslSetNodeSpanAtLevel z node i (u64 (span - (rank0 - rank)));
  zslSetNodeSpanAtLevel z u i (u64 (rank0 - rank + 1)).

Definition untouched_level (update : list (ptr * Z)) (i : Z) (z : zskiplist) : outcome zskiplist :=
  '(u, _) ← rd update i; zslIncrNodeSpanAtLevel z u i 1.

Definition zslInsertNode (z : zskiplist) (node : ptr) : outcome zskiplist :=
  n ← get_node z node;
  let score := zn_score n in
  ele ← zslGetNodeElement n;
  let level := zn_levels n in
  _ ← c_assert (negb (score_nan score));
  update ← descend (Z.to_nat (zsl_level z)) z (go_before z score ele) true (zsl_header z) 0;
  '(z, update) ← (if zsl_level z <? level then
      let header := zsl_header z in
      let above := level - zsl_level z in
      z ← for_up (Z.to_nat above) (zsl_level z) raise_level z;
      z ← set_levels (set_zlevel z level) header level;
      Ret (z, update ++ replicate (Z.to_nat above) (header, 0))
    else Ret (z, update));
  '(u0, rank0) ← rd update 0;
  z ← for_up (Z.to_nat level) 0 (link_level node rank0 update) z;
  z ← for_up (Z.to_nat (zsl_level z - level)) level (untouched_level update) z;
  z ← set_backward z node (if Pos.eqb u0 (zsl_header z) then None else Some u0);
  f ← get_forward z node 0;
  z ← match f with Some y => set_backward z y (Some node) | None => Ret (set_tail z (Some node)) end;
  Ret (set_length z (u64 (zsl_length z + 1))).

Definition zslInsert (z : zskiplist) (draws : list Z) (score : Sc) (ele : list Z) : outcome (zskiplist * ptr) :=
  _ ← c_assert (negb (score_nan score));
  level ← zslRandomLevel draws;
  let '(z, node) := zslCreateNode z level score ele in
  z ← zslInsertNode z node;
  Ret (z, node).

(** ** Deletion *)

Definition unlink_level (x : ptr) (update : list (ptr * Z)) (i : Z) (z : zskiplist) : outcome zskiplist :=
  '(u, _) ← rd update i;
  f ← get_forward z u i;
  if bool_decide (f = Some x) then
    span ← zslGetNodeSpanAtLevel z x i;
    z ← zslIncrNodeSpanAtLevel z u i (span - 1);
    xf ← get_forward z x i;
    set_forward z u i xf
  else zslDecrNodeSpanAtLevel z u i 1.

(** [while (zsl->level > 1 && zsl->header->level[zsl->level-1].forward == NULL)];
    the fuel is the level. *)
Fixpoint lower_levels (fuel : nat) (z : zskiplist) : outcome zskiplist :=
  match fuel with
  | O => OutOfFuel
  | S fuel =>
    if 1 <? zsl_level z then
      f ← get_forward z (zsl_header z) (zsl_level z - 1);
      match f with
      | None =>
        z ← put_slot z (zsl_header z) (zsl_level z - 1) (None, 0);
        lower_levels fuel (set_zlevel z (zsl_level z - 1))
      | Some _ => Ret z
      end
    else Ret z
  end.

Definition zslUnlinkNode (z : zskiplist) (x : ptr) (update : list (ptr * Z)) : outcome zskiplist :=
  z ← for_up (Z.to_nat (zsl_level z)) 0 (unlink_level x update) z;
  f ← get_forward z x 0;
  n ← get_node z x;
  z ← match f with
      | Some y => set_backward z y (zn_backward n)
      | None => Ret (set_tail z (zn_backward n))
      end;
  z ← lower_levels (Z.to_nat (zsl_level z)) z;
  Ret (set_length z (u64 (zsl_length z - 1))).

(** The search shared by deletion and the update of a score. *)
Definition find_update (z : zskiplist) (node : ptr) : outcome (list (ptr * Z)) :=
  n ← get_node z node;
  ele ← zslGetNodeElement n;
  update ← descend (Z.to_nat (zsl_level z)) z (go_before z (zn_score n) ele) false (zsl_header z) 0;
  '(u0, _) ← rd update 0;
  f ← get_forward z u0 0;
  _ ← c_assert (bool_decide (f = Some node));
  Ret update.

Definition zslDelete (z : zskiplist) (node : ptr) : outcome zskiplist :=
  update ← find_update z node;
  z ← zslUnlinkNode z node update;
  Ret (zslFreeNode z node).

Definition zslUpdateScore (z : zskiplist) (node : ptr) (newscore : Sc) : outcome zskiplist :=
  n ← get_node z node;
  f ← get_forward z node 0;
  above ← match zn_backward n with None => Ret true | Some b => nb ← get_node z b; Ret (score_lt (zn_score nb) newscore) end;
  below ← (if (above : bool) then
             match f with None => Ret true | Some y => ny ← get_node z y; Ret (score_lt newscore (zn_score ny)) end
           else Ret false);
  if (below : bool) then set_score z node newscore
  else
    update ← find_update z node;
    z ← zslUnlinkNode z node update;
    z ← set_score z node newscore;
    zslInsertNode z node.

(** ** Ranges *)

Definition zslValueGteMin (value : Sc) (spec : zrangespec Sc) : bool :=
  if rs_minex spec then score_lt (rs_min spec) value else score_le (rs_min spec) value.

Definition zslValueLteMax (value : Sc) (spec : zrangespec Sc) : bool :=
  if rs_maxex spec then score_lt value (rs_max spec) else score_le value (rs_max spec).

(** Two ends, or an end and a string, are the same pointer only when they are
    the same special string. *)
Definition sdscmplex (a b : lexend) : Z :=
  match a, b with
  | LexMin, LexMin | LexMax, LexMax => 0
  | LexMin, _ | _, LexMax => -1
  | LexMax, _ | _, LexMin => 1
  | LexVal a, LexVal b => sdscmp a b
  end.

Definition zslLexValueGteMin (value : list Z) (spec : zlexrangespec) : bool :=
  if ls_minex spec then 0 <? sdscmplex (LexVal value) (ls_min spec) else 0 <=? sdscmplex (LexVal value) (ls_min spec).

Definition zslLexValueLteMax (value : list Z) (spec : zlexrangespec) : bool :=
  if ls_maxex spec then sdscmplex (LexVal value) (ls_max spec) <? 0 else sdscmplex (LexVal value) (ls_max spec) <=? 0.

(** The common shape of [zslIsInRange] and [zslIsInLexRange]: the range is not
    empty, the last node is not below it and the first one is not above. *)
Definition is_in_range (z : zskiplist) (nonempty : bool) (gte lte : zskiplistNode -> outcome bool) : outcome bool :=
  if negb nonempty then Ret false else
  match zsl_tail z with
  | None => Ret false
  | Some t =>
    n ← get_node z t; b ← gte n;
    if negb b then Ret false else
    f ← get_forward z (zsl_header z) 0;
    match f with None => Ret false | Some x => n ← get_node z x; lte n end
  end.

Definition node_gte (range : zrangespec Sc) (n : zskiplistNode) : outcome bool := Ret (zslValueGteMin (zn_score n) range).
Definition node_lte (range : zrangespec Sc) (n : zskiplistNode) : outcome bool := Ret (zslValueLteMax (zn_score n) range).
Definition node_lex_gte (range : zlexrangespec) (n : zskiplistNode) : outcome bool :=
  e ← zslGetNodeElement n; Ret (zslLexValueGteMin e range).
Definition node_lex_lte (range : zlexrangespec) (n : zskiplistNode) : outcome bool :=
  e ← zslGetNodeElement n; Ret (zslLexValueLteMax e range).

Definition zslIsInRange (z : zskiplist) (range : zrangespec Sc) : outcome bool :=
  is_in_range z (negb (score_lt (rs_max range) (rs_min range) ||
                       (score_eq (rs_min range) (rs_max range) && (rs_minex range || rs_maxex range))))
    (node_gte range) (node_lte range).

Definition zslIsInLexRange (z : zskiplist) (range : zlexrangespec) : outcome bool :=
  let cmp := sdscmplex (ls_min range) (ls_max range) in
  is_in_range z (negb ((0 <? cmp) || ((cmp =? 0) && (ls_minex range || ls_maxex range))))
    (node_lex_gte range) (node_lex_lte range).

(** ** Ranks *)

(** [x->level[i].forward && traversed + span <= rank] ([<] for deletions). *)
Definition go_rank (z : zskiplist) (strict : bool) (rank : Z) (x : ptr) (i traversed : Z) : outcome bool :=
  f ← get_forward z x i;
  match f with
  | None => Ret false
  | Some _ =>
    span ← zslGetNodeSpanAtLevel z x i;
    let t := u64 (traversed + span) in Ret (if strict then t <? rank else t <=? rank)
  end.

Fixpoint rank_loop (n : nat) (z : zskiplist) (score : Sc) (ele : list Z) (x : ptr) (rank : Z) : outcome Z :=
  match n with
  | O => Ret 0
  | S n =>
    let go x i (_ : Z) := f ← get_forward z x i; c ← zslCompareWithNode z score ele f; Ret (0 <=? c) in
    '(x, rank) ← walk (zsl_fuel z) z go true (Z.of_nat n) x rank;
    if negb (Pos.eqb x (zsl_header z)) then
      c ← zslCompareWithNode z score ele (Some x);
      if c =? 0 then Ret rank else rank_loop n z score ele x rank
    else rank_loop n z score ele x rank
  end.

Definition zslGetRank (z : zskiplist) (score : Sc) (ele : list Z) : outcome Z :=
  rank_loop (Z.to_nat (zsl_level z)) z score ele (zsl_header z) 0.

Fixpoint distance_loop (fuel : nat) (z : zskiplist) (x : option ptr) (distance : Z) : outcome Z :=
  match x with
  | None => Ret distance
  | Some x =>
    match fuel with
    | O => OutOfFuel
    | S fuel =>
      n ← get_node z x;
      let level := zn_levels n - 1 in
      span ← zslGetNodeSpanAtLevel z x level;
      f ← get_forward z x level;
      distance_loop fuel z f (u64 (distance + span))
    end
  end.

Definition zslGetRankByNode (z : zskiplist) (x : ptr) : outcome Z :=
  d ← distance_loop (zsl_fuel z) z (Some x) 0; Ret (u64 (zsl_length z - d)).

Fixpoint by_rank_loop (n : nat) (z : zskiplist) (rank : Z) (x : ptr) (traversed : Z) : outcome (option ptr) :=
  match n with
  | O => Ret None
  | S n =>
    '(x, traversed) ← walk (zsl_fuel z) z (go_rank z false rank) true (Z.of_nat n) x traversed;
    if traversed =? rank then Ret (Some x) else by_rank_loop n z rank x traversed
  end.

(** [start_level] is at least -1. *)
Definition zslGetElementByRankFromNode (z : zskiplist) (start_node : ptr) (start_level rank : Z) : outcome (option ptr) :=
  by_rank_loop (Z.to_nat (start_level + 1)) z rank start_node 0.

Definition zslGetElementByRank (z : zskiplist) (rank : Z) : outcome (option ptr) :=
  zslGetElementByRankFromNode z (zsl_header z) (zsl_level z - 1) rank.

(** ** The Nth element of a range *)

(** The loops from level [n-1] down to 0, keeping the last node and rank. *)
Fixpoint descend_last (n : nat) (z : zskiplist) (go : ptr -> Z -> Z -> outcome bool) (x : ptr) (rank : Z) : outcome (ptr * Z) :=
  match n with
  | O => Ret (x, rank)
  | S n => '(x, rank) ← walk (zsl_fuel z) z go true (Z.of_nat n) x rank; descend_last n z go x rank
  end.

(** [n] steps forward, and backward. *)
Fixpoint jump_forward (n : nat) (z : zskiplist) (x : option ptr) : outcome (option ptr) :=
  match n with
  | O => Ret x
  | S n => match x with None => OutOfBounds | Some x => f ← get_forward z x 0; jump_forward n z f end
  end.

Fixpoint jump_backward (n : nat) (z : zskiplist) (x : option ptr) : outcome (option ptr) :=
  match n with
  | O => Ret x
  | S n => match x with None => OutOfBounds | Some x => nd ← get_node z x; jump_backward n z (zn_backward nd) end
  end.

(** The node and its rank ([*out_rank]). *)
Definition checked (z : zskiplist) (test : zskiplistNode -> outcome bool) (x : option ptr) (rank : Z)
  : outcome (option (ptr * Z)) :=
  match x with
  | None => Ret None
  | Some x => nd ← get_node z x; b ← test nd; Ret (if (b : bool) then Some (x, rank) else None)
  end.

(** The common body of [zslNthInRange] and [zslNthInLexRange], after the
    test that the range is not out of the list. *)
Definition nth_in_range (z : zskiplist) (gte lte : zskiplistNode -> outcome bool) (n : Z) : outcome (option (ptr * Z)) :=
  let out := go_while z (fun nd => b ← gte nd; Ret (negb b)) in
  '(last, last_rank) ← walk (zsl_fuel z) z out true (zsl_level z - 1) (zsl_header z) 0;
  if 0 <=? n then
    '(x, edge_rank) ← descend_last (Z.to_nat (zsl_level z - 1)) z out last last_rank;
    if zsl_length z <=? u64 (edge_rank + n) then Ret None else
    x ← (if n <? ZSKIPLIST_MAX_SEARCH then jump_forward (Z.to_nat (n + 1)) z (Some x)
         else zslGetElementByRankFromNode z last (zsl_level z - 1) (u64 (edge_rank + 1 + n - last_rank)));
    checked z lte x (edge_rank + n + 1)
  else
    '(x, edge_rank) ← descend_last (Z.to_nat (zsl_level z)) z (go_while z lte) last last_rank;
    if edge_rank <? - n then Ret None else
    x ← (if - ZSKIPLIST_MAX_SEARCH <? n + 1 then jump_backward (Z.to_nat (- n - 1)) z (Some x)
         else zslGetElementByRankFromNode z last (zsl_level z - 1) (u64 (edge_rank + 1 + n - last_rank)));
    checked z gte x (edge_rank + n + 1).

Definition zslNthInRange (z : zskiplist) (range : zrangespec Sc) (n : Z) : outcome (option (ptr * Z)) :=
  b ← zslIsInRange z range;
  if negb b then Ret None else nth_in_range z (node_gte range) (node_lte range) n.

Definition zslNthInLexRange (z : zskiplist) (range : zlexrangespec) (n : Z) : outcome (option (ptr * Z)) :=
  b ← zslIsInLexRange z range;
  if negb b then Ret None else nth_in_range z (node_lex_gte range) (node_lex_lte range) n.

(** ** Deleting ranges *)

Section ranges.
(** The hash table of the sorted set and [dictDelete] on it. *)
Context {D : Type} (dictDelete : D -> list Z -> outcome D).

(** [while (x && test)]: each node unlinked, deleted from the dict and freed.
    [test] takes the node and its rank. *)
Fixpoint delete_loop (fuel : nat) (z : zskiplist) (dict : D) (update : list (ptr * Z)) (test : zskiplistNode -> Z -> outcome bool)
  (x : option ptr) (traversed removed : Z) : outcome (zskiplist * D * Z) :=
  match x with
  | None => Ret (z, dict, removed)
  | Some x =>
    n ← get_node z x;
    b ← test n traversed;
    if (b : bool) then
      match fuel with
      | O => OutOfFuel
      | S fuel =>
        next ← get_forward z x 0;
        z ← zslUnlinkNode z x update;
        n ← get_node z x;
        ele ← zslGetNodeElement n;
        dict ← dictDelete dict ele;
        delete_loop fuel (zslFreeNode z x) dict update test next (u64 (traversed + 1)) (u64 (removed + 1))
      end
    else Ret (z, dict, removed)
  end.

Definition zslDeleteRangeByScore (z : zskiplist) (range : zrangespec Sc) (dict : D) : outcome (zskiplist * D * Z) :=
  update ← descend (Z.to_nat (zsl_level z)) z (go_while z (fun n => Ret (negb (zslValueGteMin (zn_score n) range)))) false (zsl_header z) 0;
  '(u0, _) ← rd update 0;
  x ← get_forward z u0 0;
  delete_loop (zsl_fuel z) z dict update (fun n _ => Ret (zslValueLteMax (zn_score n) range)) x 0 0.

Definition zslDeleteRangeByLex (z : zskiplist) (range : zlexrangespec) (dict : D) : outcome (zskiplist * D * Z) :=
  update ← descend (Z.to_nat (zsl_level z)) z
    (go_while z (fun n => e ← zslGetNodeElement n; Ret (negb (zslLexValueGteMin e range)))) false (zsl_header z) 0;
  '(u0, _) ← rd update 0;
  x ← get_forward z u0 0;
  delete_loop (zsl_fuel z) z dict update (fun n _ => e ← zslGetNodeElement n; Ret (zslLexValueLteMax e range)) x 0 0.

(** [start] and [end] are 1-based. *)
Definition zslDeleteRangeByRank (z : zskiplist) (start end_ : Z) (dict : D) : outcome (zskiplist * D * Z) :=
  update ← descend (Z.to_nat (zsl_level z)) z (go_rank z true start) true (zsl_header z) 0;
  '(u0, traversed) ← rd update 0;
  x ← get_forward z u0 0;
  delete_loop (zsl_fuel z) z dict update (fun _ traversed => Ret (traversed <=? end_)) x (u64 (traversed + 1)) 0.
End ranges.
End skiplist.

(** ** A run on integer scores *)

#[global] Instance Z_score : Score Z :=
  {| score_lt := Z.ltb; score_le := Z.leb; score_eq := Z.eqb; score_nan := fun _ => false; score_zero := 0 |}.

Definition no_junk (i : Z) : option ptr * Z := (Some 77%positive, 99).

(** Inserting [(score, ele, draws)] in turn. *)
Fixpoint insert_all (z : zskiplist Z) (l : list (Z * list Z * list Z)) : outcome (zskiplist Z) :=
  match l with
  | [] => Ret z
  | (s, e, draws) :: l => '(z, _) ← zslInsert no_junk z draws s e; insert_all z l
  end.

Example skiplist_run :
  exists z, insert_all zslCreate [(5, [97], [0; 0; 536870911]); (1, [98], [536870911]); (5, [96], [0; 536870911]); (3, [], [0; 0; 0; 2147483647])]
    = Ret z /\
  zslGetRank z 5 [97] = Ret 4 /\ zslGetElementByRank z 2 = Ret (Some 5%positive) /\
  zslNthInRange z {| rs_min := 3; rs_max := 5; rs_minex := true; rs_maxex := false |} (-1) = Ret (Some (2%positive, 4)).
Proof. eexists. split; [vm_compute; reflexivity|]. vm_compute. done. Qed.
