(* ===== verification/SkiplistInv.v ===== *)
(** * SkiplistInv: the skiplist's representation and what each step does to it

    A skiplist represents a list of items: the nodes in order, with their
    heights.  Everything else is determined: the forward pointer and the span of
    a node at a level depend only on the items after it. *)

From stdpp Require Import countable sets fin_maps gmap sorting.
From S2P Require Import Prelude Memory Skiplist.

(** ** What the code relies on of the scores *)

Class ScoreLaws (Sc : Type) `{!Score Sc} := {
  score_lt_irrefl : forall a, score_lt a a = false;
  score_lt_trans : forall a b c, score_lt a b = true -> score_lt b c = true -> score_lt a c = true;
  score_lt_cotrans : forall a b c, score_nan b = false -> score_lt a c = true -> score_lt a b = true \/ score_lt b c = true;
  score_le_lt : forall a b, score_nan a = false -> score_nan b = false -> score_le a b = negb (score_lt b a);
  score_eq_lt : forall a b, score_nan a = false -> score_nan b = false -> score_eq a b = negb (score_lt a b) && negb (score_lt b a);
}.

#[global] Instance Z_score_laws : ScoreLaws Z.
Proof. split; cbn; intros; lia. Qed.

(** ** Loops *)

Lemma for_up_inv {A} (P : Z -> A -> Prop) (f : Z -> A -> outcome A) n : forall i a, P i a ->
  (forall j a, i <= j < i + Z.of_nat n -> P j a -> exists a', f j a = Ret a' /\ P (j + 1) a') ->
  exists a', for_up n i f a = Ret a' /\ P (i + Z.of_nat n) a'.
Proof.
  induction n as [|n IH]; intros i a Hi Hf; cbn [for_up].
  - exists a. by replace (i + Z.of_nat 0) with i by lia.
  - destruct (Hf i a ltac:(lia) Hi) as (a1 & -> & H1). cbn [mbind outcome_bind].
    destruct (IH (i + 1) a1 H1) as (a' & -> & H'); [intros; apply Hf; [lia|done]|].
    exists a'. split; [done|]. by replace (i + Z.of_nat (S n)) with (i + 1 + Z.of_nat n) by lia.
Qed.

Section memory.
Context {Sc : Type}.
Abbreviation zskiplist := (zskiplist Sc).
Implicit Types (z : zskiplist) (x y : ptr) (i j : Z) (s : option ptr * Z).

(** ** The fields that relinking does not touch *)

Definition node_sig (n : zskiplistNode Sc) : Sc * option (list Z) * option ptr * Z * Z :=
  (zn_score n, zn_ele n, zn_backward n, zn_levels n, Zlen (zn_level n)).

Record same_sig z z' : Prop := {
  ss_nodes : forall x, node_sig <$> (zsl_nodes z' !! x) = node_sig <$> (zsl_nodes z !! x);
  ss_header : zsl_header z' = zsl_header z;
  ss_tail : zsl_tail z' = zsl_tail z;
  ss_length : zsl_length z' = zsl_length z;
  ss_level : zsl_level z' = zsl_level z;
}.

Lemma same_sig_refl z : same_sig z z.
Proof. by split. Qed.

Lemma same_sig_trans z1 z2 z3 : same_sig z1 z2 -> same_sig z2 z3 -> same_sig z1 z3.
Proof. intros [A1 A2 A3 A4 A5] [B1 B2 B3 B4 B5]. split; intros; congruence. Qed.

(** [z'] is [z] but for the slots of level [i]. *)
Definition only_level i z z' : Prop :=
  same_sig z z' /\ forall y j, j <> i -> get_slot z' y j = get_slot z y j.

Lemma only_level_refl i z : only_level i z z.
Proof. split; [apply same_sig_refl|done]. Qed.

Lemma only_level_trans i z1 z2 z3 : only_level i z1 z2 -> only_level i z2 z3 -> only_level i z1 z3.
Proof.
  intros [A1 A2] [B1 B2]. split; [by eapply same_sig_trans|]. intros y j Hj. by rewrite B2, A2.
Qed.

(** Node [x] has a level [i]. *)
Definition has_slot z x i : Prop := exists s, get_slot z x i = Ret s.

Lemma put_slot_spec z x i s : has_slot z x i -> exists z', put_slot z x i s = Ret z' /\ only_level i z z' /\
  get_slot z' x i = Ret s /\ forall y, y <> x -> get_slot z' y i = get_slot z y i.
Proof.
  intros [s0 Hs]. unfold put_slot, get_slot, get_node in *.
  destruct (zsl_nodes z !! x) as [n|] eqn:Hn; [|done]. cbn [mbind outcome_bind] in *.
  apply rd_Ret_inv in Hs as [Hi _]. rewrite wr_ok by done. cbn [mbind outcome_bind].
  eexists. split; [done|]. unfold put_node, set_nodes. cbn [zsl_nodes]. split; [|split].
  - split.
    + split; cbn; try done. intros y. destruct (decide (y = x)) as [-> |Hy]; [|by rewrite lookup_insert_ne].
      rewrite lookup_insert_eq, Hn. cbn. unfold node_sig. cbn. by rewrite Zlen_insert.
    + intros y j Hj. unfold get_slot, get_node. cbn [zsl_nodes]. destruct (decide (y = x)) as [-> |Hy]; [|by rewrite lookup_insert_ne].
      rewrite lookup_insert_eq, Hn. cbn. apply rd_insert_ne; [lia|done].
  - rewrite lookup_insert_eq. cbn. by apply rd_insert_eq.
  - intros y Hy. by rewrite lookup_insert_ne.
Qed.

(** [z'] is [z] with the slot of [x] at level [i] set to [s]. *)
Definition slot_set z x i s z' : Prop :=
  only_level i z z' /\ get_slot z' x i = Ret s /\ forall y, y <> x -> get_slot z' y i = get_slot z y i.

Lemma slot_set_has z x i s z' y j : slot_set z x i s z' -> has_slot z y j -> has_slot z' y j.
Proof.
  intros [[_ Ho] [Hs Hy]] [s0 H0]. destruct (decide (j = i)) as [-> |Hj]; [|exists s0; by rewrite Ho].
  destruct (decide (y = x)) as [-> |Hyx]; [by exists s|exists s0; by rewrite Hy].
Qed.

Lemma set_forward_spec z x i f f0 sp : get_slot z x i = Ret (f0, sp) ->
  exists z', set_forward z x i f = Ret z' /\ slot_set z x i (f, sp) z'.
Proof.
  intros Hs. unfold set_forward. rewrite Hs. cbn [mbind outcome_bind snd]. apply put_slot_spec. by exists (f0, sp).
Qed.

Lemma get_forward_slot z x i f sp : get_slot z x i = Ret (f, sp) -> get_forward z x i = Ret f.
Proof. unfold get_forward. by intros ->. Qed.

(** The span operations only matter above level 0. *)
Lemma span_op_spec z x i f sp g : 0 <= i -> get_slot z x i = Ret (f, sp) ->
  exists z', (if 0 <? i then s ← get_slot z x i; put_slot z x i (s.1, g s.2) else Ret z) = Ret z' /\
    slot_set z x i (f, if 0 <? i then g sp else sp) z'.
Proof.
  intros Hi Hs. destruct (Z.ltb_spec 0 i).
  - rewrite Hs. cbn [mbind outcome_bind fst snd]. apply put_slot_spec. by eexists.
  - exists z. split; [done|]. split; [apply only_level_refl|]. by rewrite Hs.
Qed.

Lemma GetSpan_slot z x i f sp : 0 < i -> get_slot z x i = Ret (f, sp) -> zslGetNodeSpanAtLevel z x i = Ret sp.
Proof. intros Hi Hs. unfold zslGetNodeSpanAtLevel. destruct (Z.ltb_spec 0 i); [|lia]. by rewrite Hs. Qed.

Lemma slot_set_sig z x i s z' : slot_set z x i s z' -> same_sig z z'.
Proof. by intros [[? _] _]. Qed.

Lemma slot_set_overwrite z x i s1 s2 z1 z2 : slot_set z x i s1 z1 -> slot_set z1 x i s2 z2 -> slot_set z x i s2 z2.
Proof.
  intros [A1 [A2 A3]] [B1 [B2 B3]]. split; [by eapply only_level_trans|]. split; [done|]. intros y Hy. by rewrite B3, A3.
Qed.
End memory.

Section rep.
Context {Sc : Type} `{!Score Sc}.
Abbreviation zskiplist := (zskiplist Sc).

Record item := { it_id : ptr; it_score : Sc; it_ele : list Z; it_h : Z }.
Implicit Types (z : zskiplist) (x y : ptr) (i : Z) (u w : item) (L A B sfx : list item).

(** The forward pointer and the span at level [i] of a node before [sfx]. *)
Fixpoint link i sfx : option ptr * Z :=
  match sfx with
  | [] => (None, 0)
  | u :: sfx => if i <? it_h u then (Some (it_id u), 1) else let '(f, s) := link i sfx in (f, s + 1)
  end.

(** Some item reaches level [i]. *)
Definition has i A : bool := existsb (fun u => i <? it_h u) A.

Lemma link_cons i u sfx : link i (u :: sfx) = if i <? it_h u then (Some (it_id u), 1) else ((link i sfx).1, (link i sfx).2 + 1).
Proof. cbn [link]. by destruct (link i sfx). Qed.

Lemma link_app_has i A sfx : has i A = true -> link i (A ++ sfx) = link i A.
Proof.
  induction A as [|u A IH]; cbn [has existsb]; [done|]. rewrite <- app_comm_cons, !link_cons.
  destruct (i <? it_h u); cbn [orb]; [done|]. intros H. by rewrite IH.
Qed.

Lemma link_app_not i A sfx : has i A = false -> link i (A ++ sfx) = ((link i sfx).1, Zlen A + (link i sfx).2).
Proof.
  induction A as [|u A IH]; cbn [has existsb].
  - intros _. cbn. by destruct (link i sfx).
  - rewrite <- app_comm_cons, link_cons. destruct (i <? it_h u); cbn [orb]; [done|]. intros H.
    rewrite IH by done. cbn [fst snd]. rewrite Zlen_cons. f_equal. lia.
Qed.

Lemma link_has i A : has i A = true -> exists A1 u A2, A = A1 ++ u :: A2 /\ has i A1 = false /\ i < it_h u /\
  link i A = (Some (it_id u), Zlen A1 + 1).
Proof.
  induction A as [|u A IH]; cbn [has existsb]; [done|]. rewrite link_cons.
  destruct (Z.ltb_spec i (it_h u)); cbn [orb].
  - intros _. exists [], u, A. done.
  - intros H1. destruct (IH H1) as (A1 & v & A2 & -> & HA1 & Hv & ->). exists (u :: A1), v, A2. split; [done|].
    split; [|split; [done|cbn [fst snd]; rewrite Zlen_cons; f_equal; lia]].
    cbn [has existsb]. destruct (Z.ltb_spec i (it_h u)); [lia|done].
Qed.

Lemma link_none i A : has i A = false -> link i A = (None, Zlen A).
Proof. intros H. rewrite <- (app_nil_r A) at 1. rewrite link_app_not by done. cbn. f_equal. lia. Qed.

Lemma has_app i A B : has i (A ++ B) = has i A || has i B.
Proof. unfold has. apply existsb_app. Qed.

Lemma link_span_bounds i A : 0 <= (link i A).2 <= Zlen A.
Proof.
  destruct (has i A) eqn:H.
  - destruct (link_has i A H) as (A1 & u & A2 & -> & _ & _ & ->). cbn [snd]. rewrite Zlen_app, Zlen_cons.
    pose proof (Zlen_nonneg A1). pose proof (Zlen_nonneg A2). lia.
  - rewrite link_none by done. pose proof (Zlen_nonneg A). cbn. lia.
Qed.

(** Node [x], of height [h], is the header or an item of [L], and [sfx] is what follows it. *)
Inductive at_node (hdr : ptr) L : ptr -> Z -> list item -> Prop :=
| at_header : at_node hdr L hdr ZSKIPLIST_MAXLEVEL L
| at_item A u sfx : L = A ++ u :: sfx -> at_node hdr L (it_id u) (it_h u) sfx.

(** The slot of [x] at level [i] is the one of a node before [sfx]. *)
Definition slot_ok z x i sfx : Prop :=
  exists s, get_slot z x i = Ret s /\ s.1 = (link i sfx).1 /\ (0 < i -> s.2 = (link i sfx).2).

Definition lvl z i L : Prop :=
  forall x h sfx, at_node (zsl_header z) L x h sfx -> i < h -> slot_ok z x i sfx.

(** The nodes, in any linking. *)
Definition node_of (n : zskiplistNode Sc) u : Prop :=
  zn_score n = it_score u /\ zn_ele n = Some (it_ele u) /\ zn_levels n = it_h u /\ Zlen (zn_level n) = it_h u.

Record stored z L : Prop := {
  st_nodes : forall u, u ∈ L -> exists n, zsl_nodes z !! it_id u = Some n /\ node_of n u;
  st_heights : forall u, u ∈ L -> 1 <= it_h u <= ZSKIPLIST_MAXLEVEL;
  st_header : exists n, zsl_nodes z !! zsl_header z = Some n /\ Zlen (zn_level n) = ZSKIPLIST_MAXLEVEL;
  st_uniq : NoDup (zsl_header z :: (it_id <$> L));
}.

Lemma stored_sig z z' L : same_sig z z' -> stored z L -> stored z' L.
Proof.
  intros [H1 H2 _ _ _] [S1 S2 S3 S4].
  assert (forall x n, zsl_nodes z !! x = Some n -> exists n', zsl_nodes z' !! x = Some n' /\ node_sig n' = node_sig n) as Hn.
  { intros x n Hx. specialize (H1 x). rewrite Hx in H1. cbn in H1. destruct (zsl_nodes z' !! x) as [n'|]; [|done].
    exists n'. split; [done|]. by apply (inj Some) in H1. }
  split.
  - intros u Hu. destruct (S1 u Hu) as (n & Hx & Hn1 & Hn2 & Hn3 & Hn4). destruct (Hn _ _ Hx) as (n' & Hx' & Hs).
    exists n'. split; [done|]. injection Hs as E1 E2 E3 E4 E5. unfold node_of. by rewrite E1, E2, E4, E5.
  - done.
  - destruct S3 as (n & Hx & Hl). rewrite H2. destruct (Hn _ _ Hx) as (n' & Hx' & Hs). exists n'. split; [done|].
    injection Hs as E1 E2 E3 E4 E5. by rewrite E5.
  - by rewrite H2.
Qed.

Lemma at_in hdr L x h sfx : at_node hdr L x h sfx -> exists A, L = A ++ sfx.
Proof.
  intros [|A u sfx' ->]; [by exists []|]. exists (A ++ [u]). by rewrite <- app_assoc.
Qed.

Lemma stored_slot z L x h sfx i : stored z L -> at_node (zsl_header z) L x h sfx -> 0 <= i < h -> has_slot z x i.
Proof.
  intros Hst Hat Hi. assert (exists n, zsl_nodes z !! x = Some n /\ Zlen (zn_level n) = h) as (n & Hn & Hl).
  { destruct Hat as [|A u sfx ->]; [apply Hst|].
    destruct (st_nodes _ _ Hst u) as (n & Hn & _ & _ & _ & Hl); [by apply elem_of_app; right; left|]. by exists n. }
  unfold has_slot, get_slot, get_node. rewrite Hn. cbn [mbind outcome_bind]. apply rd_ok. lia.
Qed.

Lemma at_inv hdr L x h sfx : at_node hdr L x h sfx ->
  (x = hdr /\ h = ZSKIPLIST_MAXLEVEL /\ sfx = L) \/ exists A u, L = A ++ u :: sfx /\ x = it_id u /\ h = it_h u.
Proof. intros [|A u sfx' ->]; [by left|]. right. by exists A, u. Qed.

(** A node has one place. *)
Lemma at_unique hdr L x h1 sfx1 h2 sfx2 : NoDup (hdr :: (it_id <$> L)) ->
  at_node hdr L x h1 sfx1 -> at_node hdr L x h2 sfx2 -> h1 = h2 /\ sfx1 = sfx2.
Proof.
  intros Hnd. assert (forall A u sfx, L = A ++ u :: sfx -> it_id u <> hdr) as Hhdr.
  { intros A u sfx -> E. inversion Hnd as [|? ? Hin _]; subst. apply Hin.
    rewrite fmap_app, fmap_cons, elem_of_app. right. left. }
  intros [|A u sfx E1] Hat2; inversion Hat2 as [|A' u' sfx' E2 Hid]; subst.
  - done.
  - by exfalso; eapply Hhdr.
  - by exfalso; eapply Hhdr.
  - inversion Hnd as [|? ? _ Hnd']; subst. clear Hhdr Hnd Hat2.
    revert A' E2 Hnd'. induction A as [|v A IH]; intros [|v' A'] E2 Hnd'; cbn in *; injection E2; intros; subst.
    + done.
    + inversion Hnd' as [|? ? Hin _]; subst. exfalso. apply Hin. rewrite fmap_app, fmap_cons, elem_of_app. right. rewrite Hid. left.
    + inversion Hnd' as [|? ? Hin _]; subst. exfalso. apply Hin. rewrite fmap_app, fmap_cons, elem_of_app. right. rewrite Hid. left.
    + inversion Hnd'; subst. by apply (IH A').
Qed.

(** Of two nodes that reach level [i], one links to the other or past it. *)
Lemma at_last hdr L B i x1 h1 A1 x2 h2 A2 : at_node hdr L x1 h1 (A1 ++ B) -> at_node hdr L x2 h2 (A2 ++ B) ->
  i < h1 -> i < h2 -> has i A1 = false -> has i A2 = false -> x1 = x2 /\ A1 = A2.
Proof.
  assert (forall x1 h1 A1 x2 h2 A2, at_node hdr L x1 h1 (A1 ++ B) -> at_node hdr L x2 h2 (A2 ++ B) ->
    i < h2 -> has i A1 = false -> Zlen A2 < Zlen A1 -> False) as Hlt.
  { clear. intros x1 h1 A1 x2 h2 A2 H1 H2 Hi Hno Hl. destruct (at_in _ _ _ _ _ H1) as [C1 E1].
    destruct (at_inv _ _ _ _ _ H2) as [(_ & _ & E)|(C2 & u & E & _ & ->)].
    - rewrite E1 in E. apply (f_equal length) in E. rewrite !length_app in E. unfold Zlen in Hl. lia.
    - rewrite E, app_comm_cons, !app_assoc in E1. apply app_inv_tail in E1.
      assert (exists D, A1 = D ++ u :: A2) as [D ->].
      { clear - E1 Hl. revert C2 E1. induction C1 as [|c C1 IH]; intros C2 E1; cbn in E1.
        - by exists C2.
        - destruct C2 as [|c2 C2]; cbn in E1; injection E1; intros E' ->; [|by apply (IH C2)].
          exfalso. apply (f_equal length) in E'. rewrite length_app in E'. unfold Zlen in Hl. lia. }
      rewrite has_app in Hno. apply orb_false_iff in Hno as [_ Hno]. cbn [has existsb] in Hno.
      apply orb_false_iff in Hno as [Hno _]. apply Z.ltb_ge in Hno. lia. }
  intros H1 H2 Hi1 Hi2 Hno1 Hno2. destruct (Z.lt_trichotomy (Zlen A1) (Zlen A2)) as [H|[H|H]].
  - exfalso. by apply (Hlt _ _ _ _ _ _ H2 H1 Hi1 Hno2 H).
  - assert (A1 = A2) as EA.
    { destruct (at_in _ _ _ _ _ H1) as [C1 E1], (at_in _ _ _ _ _ H2) as [C2 E2]. rewrite E1, !app_assoc in E2.
      apply app_inv_tail in E2. apply app_inj_2 in E2 as [_ ?]; [by symmetry|]. unfold Zlen in H. lia. }
    split; [|done]. subst A2.
    destruct (at_inv _ _ _ _ _ H1) as [(-> & _ & E1)|(C1 & u1 & E1 & -> & _)], (at_inv _ _ _ _ _ H2) as [(-> & _ & E2)|(C2 & u2 & E2 & -> & _)].
    + done.
    + rewrite <- E1 in E2. apply (f_equal length) in E2. rewrite !length_app in E2. cbn in E2. rewrite ?length_app in E2. lia.
    + rewrite <- E2 in E1. apply (f_equal length) in E1. rewrite !length_app in E1. cbn in E1. rewrite ?length_app in E1. lia.
    + rewrite E1 in E2. apply app_inj_2 in E2 as [_ E2]; [|done]. by injection E2 as ->.
  - exfalso. by apply (Hlt _ _ _ _ _ _ H1 H2 Hi2 Hno1 H).
Qed.

(** ** Searches *)

(** The rank of a node before [sfx], counted from the node of rank [off], when it is computed. *)
Definition rank_ok (off : Z) (count : bool) L (rank : Z) sfx : Prop := count = true -> 0 <= rank /\ rank = Zlen L - Zlen sfx - off.

(** The test of a search that goes on through [A] and stops before [B]. *)
Definition go_ok z L B (off : Z) (count : bool) (go : ptr -> Z -> Z -> outcome bool) : Prop :=
  forall x h A i rank, at_node (zsl_header z) L x h (A ++ B) -> 0 <= i < h -> i < zsl_level z ->
    rank_ok off count L rank (A ++ B) -> go x i rank = Ret (has i A).

(** The last node before [B] that reaches level [i], and its rank. *)
Definition found_at z L B (off : Z) (count : bool) i x (rank : Z) : Prop :=
  exists h A, at_node (zsl_header z) L x h (A ++ B) /\ i < h /\ has i A = false /\ rank_ok off count L rank (A ++ B).

Lemma link_go i A B : has i A = true -> exists A1 u A2, A = A1 ++ u :: A2 /\ i < it_h u /\
  (link i (A ++ B)).1 = Some (it_id u) /\ (link i (A ++ B)).2 = Zlen A1 + 1.
Proof.
  intros H. rewrite link_app_has by done. destruct (link_has i A H) as (A1 & u & A2 & -> & _ & Hu & ->).
  by exists A1, u, A2.
Qed.

Lemma at_step hdr L x h A1 u A2 : at_node hdr L x h (A1 ++ u :: A2) -> at_node hdr L (it_id u) (it_h u) A2.
Proof. intros Hat. destruct (at_in _ _ _ _ _ Hat) as [C ->]. apply (at_item _ _ (C ++ A1)). by rewrite <- app_assoc. Qed.

Lemma span_read z x i sfx : 0 <= i -> slot_ok z x i sfx -> is_Some (link i sfx).1 -> (forall u, u ∈ sfx -> 1 <= it_h u) ->
  zslGetNodeSpanAtLevel z x i = Ret (link i sfx).2.
Proof.
  intros Hi ([f s] & Hs & Hf & Hsp) Hl Hh. cbn [fst snd] in *. unfold zslGetNodeSpanAtLevel. destruct (Z.ltb_spec 0 i).
  - rewrite Hs. cbn [mbind outcome_bind snd]. by rewrite Hsp.
  - assert (i = 0) as -> by lia. rewrite (get_forward_slot _ _ _ _ _ Hs). cbn [mbind outcome_bind]. rewrite Hf.
    destruct sfx as [|u sfx]; [by destruct Hl|]. rewrite link_cons in *. specialize (Hh u ltac:(left)).
    destruct (Z.ltb_spec 0 (it_h u)); [done|lia].
Qed.

Lemma stored_h z L A B : stored z L -> L = A ++ B -> forall u, u ∈ B -> 1 <= it_h u.
Proof. intros Hst -> u Hu. apply (st_heights _ _ Hst). apply elem_of_app. by right. Qed.

Lemma walk_spec z L B off count go i : 0 <= off -> stored z L -> lvl z i L -> 0 <= i < zsl_level z -> Zlen L < 2 ^ 63 -> go_ok z L B off count go ->
  forall fuel x h A rank, at_node (zsl_header z) L x h (A ++ B) -> i < h -> rank_ok off count L rank (A ++ B) -> (length A <= fuel)%nat ->
  exists x' rank', walk fuel z go count i x rank = Ret (x', rank') /\ found_at z L B off count i x' rank'.
Proof.
  intros Hoff Hst Hl Hi Hn Hgo. induction fuel as [|fuel IH]; intros x h A rank Hat Hh Hr Hf; cbn [walk];
    rewrite (Hgo x h A i rank Hat ltac:(lia) ltac:(lia) Hr); cbn [mbind outcome_bind]; (destruct (has i A) eqn:E; [|exists x, rank; split; [done|]; by exists h, A]).
  { destruct A; [done|]. cbn in Hf. lia. }
  destruct (link_go i A B E) as (A1 & u & A2 & -> & Hu & Hlf & Hls).
  assert (slot_ok z x i ((A1 ++ u :: A2) ++ B)) as Hslot by (by apply (Hl x h)).
  assert (exists rank', (if count then span ← zslGetNodeSpanAtLevel z x i; Ret (u64 (rank + span)) else Ret rank) = Ret rank' /\
    rank_ok off count L rank' (A2 ++ B)) as (rank' & -> & Hr').
  { destruct count; [|by exists rank]. rewrite (span_read z x i _ ltac:(lia) Hslot); [|by rewrite Hlf|].
    2:{ destruct (at_in _ _ _ _ _ Hat) as [C EC]. apply (stored_h z L C); [done|exact EC]. }
    cbn [mbind outcome_bind]. eexists. split; [done|]. intros _. rewrite Hls. destruct (Hr eq_refl) as [Hr0 ->].
    destruct (at_in _ _ _ _ _ Hat) as [C EC]. pose proof (Zlen_nonneg C). rewrite EC, !Zlen_app, Zlen_cons in *.
    pose proof (Zlen_nonneg A1). pose proof (Zlen_nonneg A2). pose proof (Zlen_nonneg B). rewrite wrapu_id; lia. }
  cbn [mbind outcome_bind]. destruct Hslot as ([f s] & Hs & Hf1 & _). rewrite (get_forward_slot _ _ _ _ _ Hs).
  cbn [mbind outcome_bind]. cbn [fst] in Hf1. rewrite Hf1, Hlf.
  apply (IH (it_id u) (it_h u) A2); [|done|done|].
  - rewrite <- app_assoc, <- app_comm_cons in Hat. by apply (at_step _ _ x h A1 u).
  - rewrite length_app in Hf. cbn in Hf. lia.
Qed.

Lemma descend_spec z L B off count go : 0 <= off -> stored z L -> (forall i, 0 <= i < zsl_level z -> lvl z i L) -> zsl_length z = Zlen L ->
  Zlen L < 2 ^ 63 -> go_ok z L B off count go ->
  forall n x h A rank, at_node (zsl_header z) L x h (A ++ B) -> Z.of_nat n <= h -> Z.of_nat n <= zsl_level z -> rank_ok off count L rank (A ++ B) ->
  exists l, descend n z go count x rank = Ret l /\ length l = n /\
    forall i, 0 <= i < Z.of_nat n -> exists x r, rd l i = Ret (x, r) /\ found_at z L B off count i x r.
Proof.
  intros Hoff Hst Hl Hlen Hn Hgo. induction n as [|n IH]; intros x h A rank Hat Hh Hlev Hr; cbn [descend].
  { exists []. split; [done|]. split; [done|]. intros; lia. }
  destruct (walk_spec z L B off count go (Z.of_nat n) Hoff Hst (Hl (Z.of_nat n) ltac:(lia)) ltac:(lia) Hn Hgo (zsl_fuel z) x h A rank Hat ltac:(lia) Hr)
    as (x1 & r1 & -> & Hfd).
  { destruct (at_in _ _ _ _ _ Hat) as [C EC]. unfold zsl_fuel. rewrite Hlen, EC. unfold Zlen. rewrite !length_app. lia. }
  cbn [mbind outcome_bind]. destruct Hfd as (h1 & A1 & Hat1 & Hh1 & Hno & Hr1).
  destruct (IH x1 h1 A1 r1 Hat1 ltac:(lia) ltac:(lia) Hr1) as (l & -> & Hll & Hli). cbn [mbind outcome_bind].
  eexists. split; [done|]. split; [rewrite length_app; cbn; lia|]. intros i Hi.
  assert (Zlen l = Z.of_nat n) as Hz by (unfold Zlen; lia).
  destruct (Z.eq_dec i (Z.of_nat n)) as [-> |Hne].
  - exists x1, r1. split; [|by exists h1, A1]. rewrite rd_app_r, Hz, Z.sub_diag by lia. done.
  - rewrite rd_app_l by lia. apply Hli. lia.
Qed.

(** ** Linking and unlinking at one level *)

Lemma at_split hdr A B x h sfx : at_node hdr (A ++ B) x h sfx <->
  (exists A2, sfx = A2 ++ B /\ at_node hdr A x h A2) \/ (exists B1 u, B = B1 ++ u :: sfx /\ x = it_id u /\ h = it_h u).
Proof.
  split.
  - intros Hat. destruct (at_inv _ _ _ _ _ Hat) as [(-> & -> & ->)|(C & u & E & -> & ->)].
    + left. exists A. split; [done|constructor].
    + apply app_eq_inv in E as [(D & -> & E)|(D & -> & ->)].
      * destruct D as [|d D]; cbn in E.
        { right. exists [], u. by rewrite E. }
        injection E as <- ->. left. exists D. split; [done|]. by apply (at_item _ _ C).
      * right. by exists D, u.
  - intros [(A2 & -> & Hat)|(B1 & u & -> & -> & ->)].
    + destruct (at_inv _ _ _ _ _ Hat) as [(-> & -> & ->)|(C & u & -> & -> & ->)]; [constructor|].
      apply (at_item _ _ C). by rewrite <- app_assoc.
    + apply (at_item _ _ (A ++ B1)). by rewrite app_assoc.
Qed.

(** Between two parts of the list. *)
Definition last_at hdr A i x : Prop := exists h A2, at_node hdr A x h A2 /\ i < h /\ has i A2 = false.

Lemma found_at_split z L A B off count i x rank : L = A ++ B -> found_at z L B off count i x rank ->
  exists h A2, at_node (zsl_header z) A x h A2 /\ i < h /\ has i A2 = false /\ (count = true -> rank = Zlen A - Zlen A2 - off).
Proof.
  intros -> (h & A2 & Hat & Hh & Hno & Hr). apply at_split in Hat as [(A3 & E & Hat)|(B1 & u & E & _)].
  - apply app_inv_tail in E as <-. exists h, A2. split; [done|]. split; [done|]. split; [done|].
    intros Hc. destruct (Hr Hc) as [_ ->]. rewrite !Zlen_app. lia.
  - apply (f_equal length) in E. rewrite length_app in E. cbn in E. rewrite length_app in E. lia.
Qed.

Lemma stored_ids hdr A w B x h A2 : NoDup (hdr :: (it_id <$> A ++ w :: B)) -> at_node hdr A x h A2 -> x <> it_id w.
Proof.
  intros Hnd Hat E. assert (at_node hdr (A ++ w :: B) x h (A2 ++ w :: B)) as H1 by (apply at_split; left; by exists A2).
  assert (at_node hdr (A ++ w :: B) x (it_h w) B) as H2 by (rewrite E; by apply (at_item _ _ A)).
  destruct (at_unique _ _ _ _ _ _ _ Hnd H1 H2) as [_ Hs]. apply (f_equal length) in Hs. rewrite length_app in Hs. cbn in Hs. lia.
Qed.

Lemma at_ids hdr A w B1 u sfx : NoDup (hdr :: (it_id <$> A ++ w :: B1 ++ u :: sfx)) -> it_id u <> it_id w /\
  forall x h A2, at_node hdr A x h A2 -> it_id u <> x.
Proof.
  intros Hnd. split.
  - intros E. assert (at_node hdr (A ++ w :: B1 ++ u :: sfx) (it_id u) (it_h u) sfx) as H1.
    { apply (at_item _ _ (A ++ w :: B1)). by rewrite <- app_assoc. }
    assert (at_node hdr (A ++ w :: B1 ++ u :: sfx) (it_id w) (it_h w) (B1 ++ u :: sfx)) as H2 by (by apply (at_item _ _ A)).
    rewrite E in H1. destruct (at_unique _ _ _ _ _ _ _ Hnd H1 H2) as [_ Hs]. apply (f_equal length) in Hs. rewrite length_app in Hs. cbn in Hs. lia.
  - intros x h A2 Hat E. replace (A ++ w :: B1 ++ u :: sfx) with ((A ++ w :: B1) ++ u :: sfx) in Hnd by (by rewrite <- app_assoc).
    destruct (at_inv _ _ _ _ _ Hat) as [(-> & _ & _)|(C & v & -> & -> & _)].
    + assert (at_node hdr A hdr ZSKIPLIST_MAXLEVEL A) as H0 by constructor.
      refine (stored_ids hdr (A ++ w :: B1) u sfx hdr ZSKIPLIST_MAXLEVEL (A ++ w :: B1) Hnd _ (eq_sym E)). constructor.
    + refine (stored_ids hdr ((C ++ v :: A2) ++ w :: B1) u sfx (it_id v) (it_h v) (A2 ++ w :: B1) Hnd _ (eq_sym E)).
      apply (at_item _ _ C). by rewrite <- app_assoc.
Qed.

(** After relinking level [i] around the node [u] and the inserted [w]. *)
Lemma lvl_insert z z' A w B i (u : ptr) hu A2 : NoDup (zsl_header z :: (it_id <$> A ++ w :: B)) -> lvl z i (A ++ B) ->
  at_node (zsl_header z) A u hu A2 -> i < hu -> has i A2 = false -> only_level i z z' ->
  (forall y, y <> u -> y <> it_id w -> get_slot z' y i = get_slot z y i) ->
  slot_ok z' u i (A2 ++ w :: B) -> (i < it_h w -> slot_ok z' (it_id w) i B) -> lvl z' i (A ++ w :: B).
Proof.
  intros Hnd Hl Hat Hiu Hno Hol Hoth Hu Hw y h sfx Haty Hih. rewrite (ss_header _ _ (proj1 Hol)) in Haty.
  apply at_split in Haty as [(A3 & -> & Haty)|(B1 & v & E & -> & ->)].
  - destruct (has i A3) eqn:Hhas.
    + assert (y <> u) as Hyu.
      { intros ->. assert (at_node (zsl_header z) (A ++ w :: B) u h (A3 ++ w :: B)) as H1 by (apply at_split; left; by exists A3).
        assert (at_node (zsl_header z) (A ++ w :: B) u hu (A2 ++ w :: B)) as H2 by (apply at_split; left; by exists A2).
        destruct (at_unique _ _ _ _ _ _ _ Hnd H1 H2) as [_ E]. apply app_inv_tail in E as ->. congruence. }
      assert (y <> it_id w) as Hyw by (by eapply stored_ids).
      assert (slot_ok z y i (A3 ++ B)) as (s1 & Hs1 & Hf1 & Hsp1) by (apply (Hl y h); [apply at_split; left; by exists A3|done]).
      exists s1. rewrite Hoth by done. rewrite link_app_has in Hf1, Hsp1 |- * by done. done.
    + assert (at_node (zsl_header z) A y h (A3 ++ []) /\ at_node (zsl_header z) A u hu (A2 ++ [])) as [H1 H2] by (by rewrite !app_nil_r).
      by destruct (at_last _ _ _ _ _ _ _ _ _ _ H1 H2 Hih Hiu Hhas Hno) as [-> ->].
  - destruct B1 as [|b B1]; cbn in E; injection E as E1 E2.
    + subst v sfx. by apply Hw.
    + subst b B. destruct (at_ids (zsl_header z) A w B1 v sfx Hnd) as [Hvw Hvx].
      assert (slot_ok z (it_id v) i sfx) as (s1 & Hs1 & H1) by (apply (Hl (it_id v) (it_h v)); [apply at_split; right; by exists B1, v|done]).
      exists s1. split; [|done]. rewrite Hoth; [done|by eapply Hvx|done].
Qed.

(** After relinking level [i] around [u] and the removed [w]. *)
Lemma lvl_delete z z' A w B i (u : ptr) hu A2 : NoDup (zsl_header z :: (it_id <$> A ++ w :: B)) -> lvl z i (A ++ w :: B) ->
  at_node (zsl_header z) A u hu A2 -> i < hu -> has i A2 = false -> only_level i z z' ->
  (forall y, y <> u -> get_slot z' y i = get_slot z y i) -> slot_ok z' u i (A2 ++ B) -> lvl z' i (A ++ B).
Proof.
  intros Hnd Hl Hat Hiu Hno Hol Hoth Hu y h sfx Haty Hih. rewrite (ss_header _ _ (proj1 Hol)) in Haty.
  apply at_split in Haty as [(A3 & -> & Haty)|(B1 & v & -> & -> & ->)].
  - destruct (has i A3) eqn:Hhas.
    + assert (y <> u) as Hyu.
      { intros ->. destruct (at_unique _ (A ++ w :: B) u h (A3 ++ w :: B) hu (A2 ++ w :: B) Hnd) as [_ E];
          [apply at_split; left; by exists A3|apply at_split; left; by exists A2|]. apply app_inv_tail in E as ->. congruence. }
      assert (slot_ok z y i (A3 ++ w :: B)) as (s1 & Hs1 & Hf1 & Hsp1) by (apply (Hl y h); [apply at_split; left; by exists A3|done]).
      exists s1. rewrite Hoth by done. rewrite link_app_has in Hf1, Hsp1 |- * by done. done.
    + assert (at_node (zsl_header z) A y h (A3 ++ []) /\ at_node (zsl_header z) A u hu (A2 ++ [])) as [H1 H2] by (by rewrite !app_nil_r).
      by destruct (at_last _ _ _ _ _ _ _ _ _ _ H1 H2 Hih Hiu Hhas Hno) as [-> ->].
  - destruct (at_ids (zsl_header z) A w B1 v sfx Hnd) as [Hvw Hvx].
    assert (slot_ok z (it_id v) i sfx) as (s1 & Hs1 & H1) by (apply (Hl (it_id v) (it_h v)); [apply at_split; right; by exists (w :: B1), v|done]).
    exists s1. split; [|done]. rewrite Hoth; [done|by eapply Hvx].
Qed.

Lemma link_level_spec z A w B i (u : ptr) hu A2 rank0 update rank : stored z (A ++ w :: B) -> lvl z i (A ++ B) -> 0 <= i < it_h w ->
  rd update i = Ret (u, rank) -> at_node (zsl_header z) A u hu A2 -> i < hu -> has i A2 = false ->
  rank = Zlen A - Zlen A2 -> rank0 = Zlen A -> Zlen (A ++ B) + 1 < 2 ^ 63 ->
  exists z', link_level (it_id w) rank0 update i z = Ret z' /\ only_level i z z' /\ lvl z' i (A ++ w :: B).
Proof.
  intros Hst Hl Hi Hrd Hat Hiu Hno Hr Hr0 Hn. pose proof (st_uniq _ _ Hst) as Hnd.
  assert (u <> it_id w) as Hne by (by eapply stored_ids).
  assert (at_node (zsl_header z) (A ++ B) u hu (A2 ++ B)) as HatL by (apply at_split; left; by exists A2).
  destruct (Hl u hu _ HatL Hiu) as ([f s] & Hs & Hf & Hsp). cbn [fst snd] in Hf, Hsp.
  rewrite link_app_not in Hf, Hsp by done. cbn [fst snd] in Hf, Hsp.
  destruct (stored_slot z _ (it_id w) (it_h w) B i Hst) as [[f0 s0] Hw]; [by apply (at_item _ _ A)|lia|].
  unfold link_level. rewrite Hrd. cbn [mbind outcome_bind]. rewrite (get_forward_slot _ _ _ _ _ Hs). cbn [mbind outcome_bind].
  destruct (set_forward_spec z (it_id w) i f f0 s0 Hw) as (z1 & -> & S1). cbn [mbind outcome_bind].
  assert (get_slot z1 u i = Ret (f, s)) as Hs1 by (destruct S1 as (_ & _ & E); by rewrite E).
  destruct (set_forward_spec z1 u i (Some (it_id w)) f s Hs1) as (z2 & -> & S2). cbn [mbind outcome_bind].
  assert (get_slot z2 u i = Ret (Some (it_id w), s)) as Hs2 by (by destruct S2 as (_ & E & _)).
  assert (get_slot z2 (it_id w) i = Ret (f, s0)) as Hw2.
  { destruct S2 as (_ & _ & E). rewrite E by done. by destruct S1 as (_ & E1 & _). }
  assert (zslGetNodeSpanAtLevel z2 u i = Ret (if 0 <? i then s else 1)) as ->.
  { unfold zslGetNodeSpanAtLevel. destruct (Z.ltb_spec 0 i); [by rewrite Hs2|]. assert (i = 0) as -> by lia.
    by rewrite (get_forward_slot _ _ _ _ _ Hs2). }
  cbn [mbind outcome_bind].
  destruct (span_op_spec z2 (it_id w) i f s0 (fun _ => u64 ((if 0 <? i then s else 1) - (rank0 - rank))) ltac:(lia) Hw2) as (z3 & E3 & S3).
  unfold zslSetNodeSpanAtLevel. rewrite E3. cbn [mbind outcome_bind].
  assert (get_slot z3 u i = Ret (Some (it_id w), s)) as Hs3 by (destruct S3 as (_ & _ & E); by rewrite E).
  destruct (span_op_spec z3 u i _ s (fun _ => u64 (rank0 - rank + 1)) ltac:(lia) Hs3) as (z4 & E4 & S4).
  rewrite E4. exists z4. split; [done|].
  assert (only_level i z z4) as Hol.
  { destruct S1 as [O1 _], S2 as [O2 _], S3 as [O3 _], S4 as [O4 _]. by repeat (eapply only_level_trans; [eassumption|]); apply only_level_refl. }
  split; [done|].
  assert (forall y, y <> u -> y <> it_id w -> get_slot z4 y i = get_slot z y i) as Hoth.
  { intros y Hyu Hyw. destruct S1 as (_ & _ & F1), S2 as (_ & _ & F2), S3 as (_ & _ & F3), S4 as (_ & _ & F4). by rewrite F4, F3, F2, F1. }
  assert (get_slot z4 u i = Ret (Some (it_id w), if 0 <? i then u64 (rank0 - rank + 1) else s)) as Hu4 by (by destruct S4 as (_ & E & _)).
  assert (get_slot z4 (it_id w) i = Ret (f, if 0 <? i then u64 ((if 0 <? i then s else 1) - (rank0 - rank)) else s0)) as Hw4.
  { destruct S4 as (_ & _ & E). rewrite E by done. by destruct S3 as (_ & E' & _). }
  pose proof (Zlen_nonneg A2) as HzA. pose proof (Zlen_nonneg B) as HzB. pose proof (link_span_bounds i B) as HzL.
  assert (Zlen A2 <= Zlen A) as HA2 by (destruct (at_in _ _ _ _ _ Hat) as [C ->]; rewrite Zlen_app; pose proof (Zlen_nonneg C); lia).
  rewrite Zlen_app in Hn.
  apply (lvl_insert z z4 A w B i u hu A2); try done.
  - eexists. split; [exact Hu4|]. rewrite link_app_not, link_cons by done. destruct (Z.ltb_spec i (it_h w)); [|lia].
    cbn [fst snd]. split; [done|]. intros H0. destruct (Z.ltb_spec 0 i); [|lia]. rewrite wrapu_id by lia. lia.
  - intros _. eexists. split; [exact Hw4|]. cbn [fst snd]. split; [done|]. intros H0. destruct (Z.ltb_spec 0 i); [|lia].
    rewrite wrapu_id by (rewrite Hsp by lia; lia). rewrite Hsp by lia. lia.
Qed.

(** A level the new node does not reach. *)
Lemma untouched_level_spec z A w B i (u : ptr) hu A2 update rank : stored z (A ++ w :: B) -> lvl z i (A ++ B) -> 1 <= it_h w <= i ->
  rd update i = Ret (u, rank) -> at_node (zsl_header z) A u hu A2 -> i < hu -> has i A2 = false -> Zlen (A ++ B) + 1 < 2 ^ 63 ->
  exists z', untouched_level update i z = Ret z' /\ only_level i z z' /\ lvl z' i (A ++ w :: B).
Proof.
  intros Hst Hl Hi Hrd Hat Hiu Hno Hn. pose proof (st_uniq _ _ Hst) as Hnd.
  destruct (Hl u hu (A2 ++ B)) as ([f s] & Hs & Hf & Hsp); [apply at_split; left; by exists A2|done|]. cbn [fst snd] in Hf, Hsp.
  rewrite link_app_not in Hf, Hsp by done. cbn [fst snd] in Hf, Hsp. specialize (Hsp ltac:(lia)).
  unfold untouched_level. rewrite Hrd. cbn [mbind outcome_bind]. unfold zslIncrNodeSpanAtLevel.
  destruct (span_op_spec z u i f s (fun s => u64 (s + 1)) ltac:(lia) Hs) as (z' & -> & [Hol [Hu Hoth]]).
  exists z'. split; [done|]. split; [done|]. apply (lvl_insert z z' A w B i u hu A2); try done.
  - intros y Hy _. by apply Hoth.
  - eexists. split; [exact Hu|]. rewrite link_app_not, link_cons by done. destruct (Z.ltb_spec i (it_h w)); [lia|].
    cbn [fst snd]. split; [done|]. intros _. destruct (Z.ltb_spec 0 i); [|lia].
    pose proof (link_span_bounds i B) as HzL. pose proof (Zlen_nonneg A2). rewrite Zlen_app in Hn.
    assert (Zlen A2 <= Zlen A) by (destruct (at_in _ _ _ _ _ Hat) as [C ->]; rewrite Zlen_app; pose proof (Zlen_nonneg C); lia).
    rewrite wrapu_id by lia. lia.
  - lia.
Qed.

Lemma link_id i B x : (link i B).1 = Some x -> exists B1 v B2, B = B1 ++ v :: B2 /\ x = it_id v.
Proof.
  destruct (has i B) eqn:H; [|by rewrite link_none]. destruct (link_has i B H) as (B1 & v & B2 & -> & _ & _ & ->).
  intros [= <-]. by exists B1, v, B2.
Qed.

Lemma unlink_level_spec z A w B i (u : ptr) hu A2 update rank : stored z (A ++ w :: B) -> lvl z i (A ++ w :: B) -> 0 <= i ->
  rd update i = Ret (u, rank) -> at_node (zsl_header z) A u hu A2 -> i < hu -> has i A2 = false -> Zlen (A ++ w :: B) < 2 ^ 63 ->
  exists z', unlink_level (it_id w) update i z = Ret z' /\ only_level i z z' /\ lvl z' i (A ++ B) /\
    forall y, y <> u -> get_slot z' y i = get_slot z y i.
Proof.
  intros Hst Hl Hi Hrd Hat Hiu Hno Hn. pose proof (st_uniq _ _ Hst) as Hnd.
  assert (u <> it_id w) as Hne by (by eapply stored_ids).
  destruct (Hl u hu (A2 ++ w :: B)) as ([f s] & Hs & Hf & Hsp); [apply at_split; left; by exists A2|done|]. cbn [fst snd] in Hf, Hsp.
  rewrite link_app_not, link_cons in Hf, Hsp by done. cbn [fst snd] in Hf, Hsp.
  pose proof (link_span_bounds i B) as HzL. pose proof (Zlen_nonneg A2) as HzA. rewrite Zlen_app, Zlen_cons in Hn.
  assert (Zlen A2 <= Zlen A) as HzC by (destruct (at_in _ _ _ _ _ Hat) as [C ->]; rewrite Zlen_app; pose proof (Zlen_nonneg C); lia).
  unfold unlink_level. rewrite Hrd. cbn [mbind outcome_bind]. rewrite (get_forward_slot _ _ _ _ _ Hs). cbn [mbind outcome_bind].
  destruct (Z.ltb_spec i (it_h w)) as [Hih|Hih]; cbn [fst snd] in Hf, Hsp.
  - rewrite bool_decide_true by done.
    destruct (Hl (it_id w) (it_h w) B) as ([fw sw] & Hw & Hfw & Hspw); [by apply (at_item _ _ A)|done|]. cbn [fst snd] in Hfw, Hspw.
    assert (exists sp, zslGetNodeSpanAtLevel z (it_id w) i = Ret sp /\ (0 < i -> sp = sw)) as (sp & -> & Hsp0).
    { unfold zslGetNodeSpanAtLevel. destruct (Z.ltb_spec 0 i); [rewrite Hw; by exists sw|]. assert (i = 0) as -> by lia.
      rewrite (get_forward_slot _ _ _ _ _ Hw). cbn [mbind outcome_bind]. eexists. split; [done|lia]. }
    cbn [mbind outcome_bind]. unfold zslIncrNodeSpanAtLevel.
    destruct (span_op_spec z u i f s (fun s => u64 (s + (sp - 1))) ltac:(lia) Hs) as (z1 & -> & S1). cbn [mbind outcome_bind].
    assert (get_slot z1 (it_id w) i = Ret (fw, sw)) as Hw1 by (destruct S1 as (_ & _ & E); by rewrite E by done).
    rewrite (get_forward_slot _ _ _ _ _ Hw1). cbn [mbind outcome_bind]. assert (get_slot z1 u i = _) as Hs1 by (destruct S1 as (_ & E & _); exact E).
    destruct (set_forward_spec z1 u i fw _ _ Hs1) as (z2 & -> & S2).
    destruct (slot_set_overwrite _ _ _ _ _ _ _ S1 S2) as [Hol [Hu Hoth]].
    exists z2. split; [done|]. split; [done|]. split; [|done]. apply (lvl_delete z z2 A w B i u hu A2); try done.
    eexists. split; [exact Hu|]. rewrite link_app_not by done. cbn [fst snd]. split; [done|]. intros H0.
    destruct (Z.ltb_spec 0 i); [|lia]. rewrite Hsp, Hsp0, Hspw by lia. rewrite wrapu_id by lia. lia.
  - assert (1 <= it_h w) as Hh1 by (apply (st_heights _ _ Hst), elem_of_app; right; left).
    rewrite bool_decide_false.
    2:{ rewrite Hf. intros E. destruct (link_id _ _ _ E) as (B1 & v & B2 & -> & E2).
        destruct (at_ids (zsl_header z) A w B1 v B2 Hnd) as [Hvw _]. congruence. }
    unfold zslDecrNodeSpanAtLevel.
    destruct (span_op_spec z u i f s (fun s => u64 (s - 1)) ltac:(lia) Hs) as (z1 & -> & [Hol [Hu Hoth]]).
    exists z1. split; [done|]. split; [done|]. split; [|done]. apply (lvl_delete z z1 A w B i u hu A2); try done.
    eexists. split; [exact Hu|]. rewrite link_app_not by done. cbn [fst snd]. split; [done|]. intros H0.
    destruct (Z.ltb_spec 0 i); [|lia]. rewrite Hsp by lia. rewrite wrapu_id by lia. lia.
Qed.

(** ** Backward pointers *)

Definition back_of z x : option (option ptr) := zn_backward <$> (zsl_nodes z !! x).

(** The backward pointers of [L] when [p] comes before it, and the last node. *)
Fixpoint seg z (p : option ptr) L : Prop :=
  match L with [] => True | u :: L => back_of z (it_id u) = Some p /\ seg z (Some (it_id u)) L end.

Fixpoint endp (p : option ptr) L : option ptr := match L with [] => p | u :: L => endp (Some (it_id u)) L end.

Lemma endp_app p A B : endp p (A ++ B) = endp (endp p A) B.
Proof. revert p. induction A as [|u A IH]; intros p; cbn [endp app]; [done|]. apply IH. Qed.

Lemma seg_app z p A B : seg z p (A ++ B) <-> seg z p A /\ seg z (endp p A) B.
Proof.
  revert p. induction A as [|u A IH]; intros p; cbn [seg app]; [tauto|].
  rewrite IH. cbn [endp]. tauto.
Qed.

Lemma seg_frame z z' p L : (forall u, u ∈ L -> back_of z' (it_id u) = back_of z (it_id u)) -> seg z p L -> seg z' p L.
Proof.
  revert p. induction L as [|u L IH]; intros p Hf; cbn [seg]; [done|]. intros [H1 H2]. split; [rewrite Hf; [done|left]|].
  apply IH; [|done]. intros v Hv. apply Hf. by right.
Qed.

Lemma back_of_sig z z' x : same_sig z z' -> back_of z' x = back_of z x.
Proof.
  intros Hs. pose proof (ss_nodes _ _ Hs x) as H. unfold back_of.
  destruct (zsl_nodes z' !! x) as [n'|], (zsl_nodes z !! x) as [n|]; try done. cbn in *. unfold node_sig in H. congruence.
Qed.

(** Updates that leave all slots alone. *)
Record same_slots z z' : Prop := {
  sl_slots : forall y j, get_slot z' y j = get_slot z y j;
  sl_header : zsl_header z' = zsl_header z;
  sl_stored : forall L, stored z L -> stored z' L;
  sl_level : zsl_level z' = zsl_level z;
  sl_length : zsl_length z' = zsl_length z;
}.

Lemma same_slots_trans z1 z2 z3 : same_slots z1 z2 -> same_slots z2 z3 -> same_slots z1 z3.
Proof. intros [A1 A2 A3 A4 A5] [B1 B2 B3 B4 B5]. split; intros; try congruence. by apply B3, A3. Qed.

Lemma lvl_slots z z' i L : same_slots z z' -> lvl z i L -> lvl z' i L.
Proof.
  intros Hs Hl x h sfx Hat Hi. rewrite (sl_header _ _ Hs) in Hat. destruct (Hl x h sfx Hat Hi) as (s & E & H).
  exists s. by rewrite (sl_slots _ _ Hs).
Qed.

Lemma stored_not_header z L u : stored z L -> u ∈ L -> it_id u <> zsl_header z.
Proof.
  intros Hst Hu E. pose proof (st_uniq _ _ Hst) as Hnd. inversion Hnd as [|? ? Hin _]; subst. apply Hin. rewrite <- E.
  apply list_elem_of_fmap. by exists u.
Qed.

Lemma put_node_slots z x n n' : zsl_nodes z !! x = Some n -> zn_level n' = zn_level n ->
  (x = zsl_header z \/ forall u, node_of n u -> node_of n' u) -> same_slots z (put_node z x n').
Proof.
  intros Hx Hl Hn. split; try done.
  - intros y j. unfold get_slot, get_node. cbn. destruct (decide (y = x)) as [-> |Hne]; [|by rewrite lookup_insert_ne].
    rewrite lookup_insert_eq, Hx. cbn. by rewrite Hl.
  - intros L Hst. split; [|apply Hst| |apply Hst].
    + intros u Hu. destruct (st_nodes _ _ Hst u Hu) as (m & Hm & Ho). cbn. destruct (decide (it_id u = x)) as [E|Hne].
      * destruct Hn as [-> |Hn]; [by apply (stored_not_header z L u) in Hst|]. exists n'. rewrite E, lookup_insert_eq. split; [done|].
        apply Hn. rewrite E, Hx in Hm. by injection Hm as ->.
      * exists m. by rewrite lookup_insert_ne.
    + destruct (st_header _ _ Hst) as (m & Hm & Ho). cbn. destruct (decide (zsl_header z = x)) as [E|Hne].
      * exists n'. rewrite E, lookup_insert_eq. split; [done|]. rewrite Hl. rewrite E, Hx in Hm. by injection Hm as ->.
      * exists m. by rewrite lookup_insert_ne.
Qed.

Lemma set_backward_spec z x b : is_Some (zsl_nodes z !! x) -> exists z', set_backward z x b = Ret z' /\ same_slots z z' /\
  zsl_tail z' = zsl_tail z /\ back_of z' x = Some b /\ (forall y, y <> x -> back_of z' y = back_of z y).
Proof.
  intros [n Hn]. unfold set_backward, get_node. rewrite Hn. cbn [mbind outcome_bind]. eexists. split; [done|].
  split; [by apply (put_node_slots z x n); [done|done|right]|]. split; [done|]. unfold back_of. cbn. rewrite lookup_insert_eq. split; [done|].
  intros y Hy. by rewrite lookup_insert_ne.
Qed.

(** ** The representation *)

Record zsl_ok z L : Prop := {
  zk_stored : stored z L;
  zk_lvls : forall i, 0 <= i < zsl_level z -> lvl z i L;
  zk_above : forall i, zsl_level z <= i < ZSKIPLIST_MAXLEVEL -> get_slot z (zsl_header z) i = Ret (None, 0);
  zk_level : 1 <= zsl_level z <= ZSKIPLIST_MAXLEVEL;
  zk_heights : forall u, u ∈ L -> it_h u <= zsl_level z;
  zk_top : zsl_level z = 1 \/ exists u, u ∈ L /\ it_h u = zsl_level z;
  zk_length : zsl_length z = Zlen L;
  zk_small : Zlen L < 2 ^ 63;
  zk_back : seg z None L;
  zk_tail : zsl_tail z = endp None L;
}.

(** *** Order *)

Definition cmp_item (s : Sc) (e : list Z) u : Z :=
  if score_lt s (it_score u) then -1 else if score_lt (it_score u) s then 1 else sdscmp e (it_ele u).

Lemma compare_item z L u s e : stored z L -> u ∈ L -> zslCompareWithNode z s e (Some (it_id u)) = Ret (cmp_item s e u).
Proof.
  intros Hst Hu. destruct (st_nodes _ _ Hst u Hu) as (n & Hn & Hs & He & _). unfold zslCompareWithNode, get_node. rewrite Hn.
  cbn [mbind outcome_bind]. unfold cmp_item, zslGetNodeElement. rewrite Hs, He.
  by destruct (score_lt s (it_score u)), (score_lt (it_score u) s).
Qed.

(** Where the forward pointer of a node before [A ++ B] leads. *)
Lemma forward_cases z L A B x h i : lvl z i L -> at_node (zsl_header z) L x h (A ++ B) -> i < h ->
  if has i A then exists u, u ∈ A /\ get_forward z x i = Ret (Some (it_id u))
  else get_forward z x i = Ret None \/ exists u, u ∈ B /\ get_forward z x i = Ret (Some (it_id u)).
Proof.
  intros Hl Hat Hi. destruct (Hl x h _ Hat Hi) as ([f s] & Hs & Hf & _). cbn [fst] in Hf.
  rewrite (get_forward_slot _ _ _ _ _ Hs), Hf. destruct (has i A) eqn:E.
  - destruct (link_go i A B E) as (A1 & u & A2 & -> & _ & -> & _). exists u. split; [|done]. apply elem_of_app. right. left.
  - rewrite link_app_not by done. cbn [fst]. destruct (link i B).1 as [y|] eqn:Ey; [right|by left].
    destruct (link_id _ _ _ Ey) as (B1 & v & B2 & -> & ->). exists v. split; [|done]. apply elem_of_app. right. left.
Qed.

Lemma at_sub hdr L x h A B : at_node hdr L x h (A ++ B) -> (forall u, u ∈ A -> u ∈ L) /\ forall u, u ∈ B -> u ∈ L.
Proof.
  intros Hat. destruct (at_in _ _ _ _ _ Hat) as [C ->]. split; intros u Hu; rewrite !elem_of_app; auto.
Qed.

(** The suffix of a search stays within the first part. *)
Lemma at_front_sub hdr A0 B x h A : at_node hdr (A0 ++ B) x h (A ++ B) -> forall u, u ∈ A -> u ∈ A0.
Proof.
  intros Hat u Hu. destruct (at_in _ _ _ _ _ Hat) as [C E]. rewrite app_assoc in E. apply app_inv_tail in E as ->.
  apply elem_of_app. by right.
Qed.

(** A test of the comparison with the next node. *)
Lemma go_cmp_ok z A0 B off count s e (t : Z -> bool) : stored z (A0 ++ B) -> (forall i, 0 <= i < zsl_level z -> lvl z i (A0 ++ B)) ->
  t (-1) = false -> (forall u, u ∈ A0 -> t (cmp_item s e u) = true) -> (forall u, u ∈ B -> t (cmp_item s e u) = false) ->
  go_ok z (A0 ++ B) B off count (fun x i _ => f ← get_forward z x i; c ← zslCompareWithNode z s e f; Ret (t c)).
Proof.
  intros Hst Hl Ht HA HB x h A i rank Hat Hi Hlev _.
  pose proof (forward_cases z _ A B x h i (Hl i ltac:(lia)) Hat ltac:(lia)) as Hf. pose proof (at_front_sub _ _ _ _ _ _ Hat) as Hsub.
  destruct (has i A).
  - destruct Hf as (u & Hu & ->). rewrite ret_bind, (compare_item z _ u s e Hst) by (apply elem_of_app; left; auto).
    rewrite ret_bind. f_equal. auto.
  - destruct Hf as [-> |(u & Hu & ->)]; rewrite ret_bind; [cbn; by rewrite Ht|].
    rewrite (compare_item z _ u s e Hst) by (apply elem_of_app; by right). rewrite ret_bind. f_equal. auto.
Qed.

Lemma go_before_ok z A0 B count s e : stored z (A0 ++ B) -> (forall i, 0 <= i < zsl_level z -> lvl z i (A0 ++ B)) ->
  (forall u, u ∈ A0 -> 0 < cmp_item s e u) -> (forall u, u ∈ B -> cmp_item s e u <= 0) ->
  go_ok z (A0 ++ B) B 0 count (go_before z s e).
Proof.
  intros Hst Hl HA HB. apply (go_cmp_ok z A0 B 0 count s e (fun c => 0 <? c)); [done|done|done| |].
  - intros u Hu. apply Z.ltb_lt. auto.
  - intros u Hu. apply Z.ltb_ge. auto.
Qed.

(** ** Inserting a node *)

(** [update[i]] and [rank[i]] for the levels below [lev], the new node going after [A]. *)
Definition upd_ok (count : bool) hdr A (update : list (ptr * Z)) (lev : Z) : Prop :=
  Zlen update = lev /\ forall i, 0 <= i < lev -> exists (u : ptr) hu A2 r, rd update i = Ret (u, r) /\ at_node hdr A u hu A2 /\
    i < hu /\ has i A2 = false /\ (count = true -> r = Zlen A - Zlen A2).

Lemma search_upd z A B count go : zsl_ok z (A ++ B) -> go_ok z (A ++ B) B 0 count go ->
  exists update, descend (Z.to_nat (zsl_level z)) z go count (zsl_header z) 0 = Ret update /\
    upd_ok count (zsl_header z) A update (zsl_level z).
Proof.
  intros Hok Hgo. pose proof (zk_level _ _ Hok) as Hlev.
  destruct (descend_spec z (A ++ B) B 0 count go ltac:(lia) (zk_stored _ _ Hok) (zk_lvls _ _ Hok) (zk_length _ _ Hok) (zk_small _ _ Hok) Hgo
    (Z.to_nat (zsl_level z)) (zsl_header z) ZSKIPLIST_MAXLEVEL A 0) as (l & -> & Hll & Hl); [constructor|lia|lia|intros _; lia|].
  exists l. split; [done|]. split; [unfold Zlen; lia|]. intros i Hi. destruct (Hl i ltac:(lia)) as (x & r & Hrd & Hf).
  destruct (found_at_split z _ A B 0 count i x r eq_refl Hf) as (h & A2 & Hat & Hh & Hno & Hr). exists x, h, A2, r.
  do 4 (split; [done|]). intros Hc. rewrite (Hr Hc). lia.
Qed.

Lemma has_heights i L : (forall u, u ∈ L -> it_h u <= i) -> has i L = false.
Proof.
  induction L as [|u L IH]; intros H; cbn [has existsb]; [done|]. specialize (H u ltac:(left)) as Hu.
  destruct (Z.ltb_spec i (it_h u)); [lia|]. apply IH. intros v Hv. apply H. by right.
Qed.

Lemma last_level0 hdr A x h A2 : (forall u, u ∈ A -> 1 <= it_h u) -> at_node hdr A x h A2 -> has 0 A2 = false -> A2 = [].
Proof.
  intros HA Hat. destruct (at_in _ _ _ _ _ Hat) as [C ->]. destruct A2 as [|u A2]; [done|]. cbn [has existsb].
  specialize (HA u). destruct (Z.ltb_spec 0 (it_h u)); [done|]. exfalso.
  assert (1 <= it_h u) by (apply HA, elem_of_app; right; left). lia.
Qed.

(** The slots of the header above the levels are set to the length. *)
Lemma raise_slots z L n : zsl_ok z L -> zsl_level z + Z.of_nat n <= ZSKIPLIST_MAXLEVEL ->
  exists z', for_up n (zsl_level z) raise_level z = Ret z' /\ same_sig z z' /\
    (forall y k, y <> zsl_header z \/ k < zsl_level z \/ zsl_level z + Z.of_nat n <= k -> get_slot z' y k = get_slot z y k) /\
    forall k, zsl_level z <= k < zsl_level z + Z.of_nat n -> get_slot z' (zsl_header z) k = Ret (None, zsl_length z).
Proof.
  intros Hok Hn. pose proof (zk_level _ _ Hok) as Hlev.
  apply (for_up_inv (fun j z' => same_sig z z' /\
    (forall y k, y <> zsl_header z \/ k < zsl_level z \/ j <= k -> get_slot z' y k = get_slot z y k) /\
    forall k, zsl_level z <= k < j -> get_slot z' (zsl_header z) k = Ret (None, zsl_length z)) raise_level).
  - split; [apply same_sig_refl|]. split; [done|]. intros; lia.
  - intros j z1 Hj (Hs & Hsame & Hset). unfold raise_level, zslSetNodeSpanAtLevel. rewrite (ss_header _ _ Hs), (ss_length _ _ Hs).
    assert (get_slot z1 (zsl_header z) j = Ret (None, 0)) as H0.
    { rewrite Hsame by (right; right; lia). apply (zk_above _ _ Hok). lia. }
    destruct (span_op_spec z1 (zsl_header z) j None 0 (fun _ => zsl_length z) ltac:(lia) H0) as (z2 & -> & [[Hs2 Ho] [Hh Hoth]]).
    destruct (Z.ltb_spec 0 j); [|lia]. exists z2. split; [done|]. split; [by eapply same_sig_trans|]. split.
    + intros y k Hk. destruct (Z.eq_dec k j) as [-> |Hkj].
      * destruct Hk as [Hk|Hk]; [|lia]. rewrite Hoth by done. apply Hsame. by left.
      * rewrite Ho by done. apply Hsame. destruct Hk as [?|[?|?]]; [by left|right; left; lia|right; right; lia].
    + intros k Hk. destruct (Z.eq_dec k j) as [-> |Hkj]; [done|]. rewrite Ho by done. apply Hset. lia.
Qed.

Lemma raise_spec z A w B update : stored z (A ++ w :: B) -> zsl_ok z (A ++ B) -> upd_ok true (zsl_header z) A update (zsl_level z) ->
  exists z1 update1, (if zsl_level z <? it_h w then
      z2 ← for_up (Z.to_nat (it_h w - zsl_level z)) (zsl_level z) raise_level z;
      z2 ← set_levels (set_zlevel z2 (it_h w)) (zsl_header z) (it_h w);
      Ret (z2, update ++ replicate (Z.to_nat (it_h w - zsl_level z)) (zsl_header z, 0))
    else Ret (z, update)) = Ret (z1, update1) /\
  zsl_header z1 = zsl_header z /\ zsl_level z1 = Z.max (zsl_level z) (it_h w) /\ zsl_length z1 = zsl_length z /\
  zsl_tail z1 = zsl_tail z /\ (forall x, back_of z1 x = back_of z x) /\ stored z1 (A ++ w :: B) /\
  (forall i, 0 <= i < zsl_level z1 -> lvl z1 i (A ++ B)) /\
  (forall i, zsl_level z1 <= i < ZSKIPLIST_MAXLEVEL -> get_slot z1 (zsl_header z) i = Ret (None, 0)) /\
  upd_ok true (zsl_header z) A update1 (zsl_level z1).
Proof.
  intros Hst Hok [Hul Hu]. pose proof (zk_level _ _ Hok) as Hlev.
  destruct (Z.ltb_spec (zsl_level z) (it_h w)) as [Hlt|Hge].
  2:{ exists z, update. rewrite Z.max_l by lia. split; [done|]. do 5 (split; [done|]). split; [done|].
      split; [apply Hok|]. split; [apply Hok|]. done. }
  assert (it_h w <= ZSKIPLIST_MAXLEVEL) as Hmax by (apply (st_heights _ _ Hst), elem_of_app; right; left).
  destruct (raise_slots z _ (Z.to_nat (it_h w - zsl_level z)) Hok ltac:(lia)) as (z1 & -> & Hs & Hsame & Hset).
  cbn [mbind outcome_bind]. assert (stored z1 (A ++ w :: B)) as Hst1 by (by eapply stored_sig).
  destruct (st_header _ _ Hst1) as (n & Hn & Hnl). unfold set_levels, get_node. cbn [zsl_nodes set_zlevel].
  rewrite <- (ss_header _ _ Hs), Hn. cbn [mbind outcome_bind]. set (z2 := put_node _ _ _).
  assert (stored (set_zlevel z1 (it_h w)) (A ++ w :: B)) as Hst1' by (by destruct Hst1; split).
  assert (same_slots (set_zlevel z1 (it_h w)) z2) as Hss.
  { apply (put_node_slots _ _ n); [done|done|]. by left. }
  assert (forall y k, get_slot z2 y k = get_slot z1 y k) as Hz2 by (intros y k; apply (sl_slots _ _ Hss)).
  pose proof (zk_length _ _ Hok) as Hlen.
  exists z2. eexists. split; [done|]. rewrite Z.max_r by lia. rewrite (ss_header _ _ Hs) in *.
  split; [apply Hs|]. split; [done|]. split; [apply Hs|]. split; [apply Hs|]. split.
  { intros x. rewrite <- (back_of_sig z z1 x Hs). unfold back_of. cbn. rewrite (ss_header _ _ Hs). destruct (decide (x = zsl_header z)) as [-> |Hne]; [|by rewrite lookup_insert_ne].
    rewrite lookup_insert_eq. by rewrite Hn. }
  split; [by apply (sl_stored _ _ Hss)|]. change (zsl_level z2) with (it_h w). split; [|split].
  - intros i Hi x h sfx Hat Hih. change (zsl_header z2) with (zsl_header z1) in Hat. rewrite (ss_header _ _ Hs) in Hat.
    destruct (Z.lt_ge_cases i (zsl_level z)) as [Hil|Hil].
    + destruct (zk_lvls _ _ Hok i ltac:(lia) x h sfx Hat Hih) as (s & Hs0 & H). exists s. rewrite Hz2, Hsame by lia. done.
    + destruct (at_inv _ _ _ _ _ Hat) as [(-> & -> & ->)|(C & v & E & -> & ->)].
      * exists (None, zsl_length z). rewrite Hz2, Hset by lia. split; [done|].
        rewrite link_none; [cbn [fst snd]; split; [done|intros _; exact Hlen]|]. apply has_heights. intros u Hu1. pose proof (zk_heights _ _ Hok u Hu1). lia.
      * exfalso. assert (it_h v <= zsl_level z); [|lia]. apply (zk_heights _ _ Hok). rewrite E. apply elem_of_app. right. left.
  - intros i Hi. rewrite Hz2, Hsame by lia. apply (zk_above _ _ Hok). lia.
  - assert (Zlen (replicate (Z.to_nat (it_h w - zsl_level z)) (zsl_header z, 0)) = it_h w - zsl_level z) as Hrl
      by (unfold Zlen; rewrite length_replicate; lia).
    split; [rewrite Zlen_app, Hrl; lia|]. intros i Hi. destruct (Z.lt_ge_cases i (zsl_level z)) as [Hil|Hil].
    + destruct (Hu i ltac:(lia)) as (u & hu & A2 & r & Hrd & H). exists u, hu, A2, r. rewrite rd_app_l by lia. done.
    + exists (zsl_header z), ZSKIPLIST_MAXLEVEL, A, 0. split; [|split; [constructor|split; [lia|split; [|lia]]]].
      * rewrite rd_app_r, Hul by lia. apply rd_lookup; [lia|]. apply lookup_replicate_2. lia.
      * apply has_heights. intros u Hu'. assert (it_h u <= zsl_level z); [|lia]. apply (zk_heights _ _ Hok), elem_of_app. by left.
Qed.

(** A run of [for_up] that turns the levels of one list into those of another,
    and leaves the slots of some nodes alone. *)
Lemma levels_loop (P : ptr -> Prop) z L L' n lo hi f : 0 <= lo -> lo + Z.of_nat n = hi ->
  (forall i, 0 <= i < lo -> lvl z i L') -> (forall i, lo <= i < hi -> lvl z i L) ->
  (forall i z', lo <= i < hi -> same_sig z z' -> lvl z' i L -> exists z2, f i z' = Ret z2 /\ only_level i z' z2 /\ lvl z2 i L' /\
    forall y, P y -> get_slot z2 y i = get_slot z' y i) ->
  exists z', for_up n lo f z = Ret z' /\ same_sig z z' /\ (forall i, 0 <= i < hi -> lvl z' i L') /\
    (forall y k, (k < lo \/ hi <= k \/ P y) -> get_slot z' y k = get_slot z y k).
Proof.
  intros Hlo Hhi Hdone Htodo Hf.
  assert (forall i z1 z2 M, same_sig z1 z2 -> (forall y, get_slot z2 y i = get_slot z1 y i) -> lvl z1 i M -> lvl z2 i M) as Hkeep.
  { intros i z1 z2 M Hs Hy Hl x h sfx Hat Hi. rewrite (ss_header _ _ Hs) in Hat. destruct (Hl x h sfx Hat Hi) as (s & E & H).
    exists s. by rewrite Hy. }
  destruct (for_up_inv (fun j z' => same_sig z z' /\ (forall i, 0 <= i < j -> lvl z' i L') /\
    (forall y k, (k < lo \/ j <= k \/ P y) -> get_slot z' y k = get_slot z y k)) f n lo z) as (z' & Hr & Hs & Hl & Hk).
  - split; [apply same_sig_refl|]. done.
  - intros j z1 Hj (Hs & Hl & Hk).
    destruct (Hf j z1 ltac:(lia) Hs) as (z2 & -> & [Hs2 Ho] & Hl2 & HP).
    { apply (Hkeep j z z1); [done| |apply Htodo; lia]. intros y. apply Hk. right. left. lia. }
    exists z2. split; [done|]. split; [by eapply same_sig_trans|]. split.
    + intros i Hi. destruct (Z.eq_dec i j) as [-> |Hij]; [done|]. apply (Hkeep i z1 z2); [done| |apply Hl; lia].
      intros y. by apply Ho.
    + intros y k Hk'. destruct (Z.eq_dec k j) as [-> |Hkj].
      * destruct Hk' as [?|[?|Hy]]; [lia|lia|]. rewrite HP by done. apply Hk. right. by right.
      * rewrite Ho by done. apply Hk. destruct Hk' as [?|[?|?]]; [by left|right; left; lia|right; by right].
  - exists z'. rewrite Hhi in Hl, Hk. done.
Qed.

Lemma stored_app z A w B : stored z (A ++ w :: B) -> stored z (A ++ B).
Proof.
  intros Hst. assert (forall u, u ∈ A ++ B -> u ∈ A ++ w :: B) as Hsub.
  { intros u. rewrite !elem_of_app, elem_of_cons. tauto. }
  split; [intros u Hu; by apply (st_nodes _ _ Hst), Hsub|intros u Hu; by apply (st_heights _ _ Hst), Hsub|apply Hst|].
  pose proof (st_uniq _ _ Hst) as Hnd.
  assert (zsl_header z :: (it_id <$> A ++ w :: B) ≡ₚ it_id w :: zsl_header z :: (it_id <$> A ++ B)) as Hp.
  { rewrite !fmap_app, fmap_cons, <- Permutation_middle. apply Permutation_swap. }
  rewrite Hp in Hnd. by inversion Hnd.
Qed.

Lemma mid_not_in hdr A w B u : NoDup (hdr :: (it_id <$> A ++ w :: B)) -> u ∈ A ++ B -> it_id u <> it_id w.
Proof.
  intros Hnd Hu E. assert (hdr :: (it_id <$> A ++ w :: B) ≡ₚ it_id w :: hdr :: (it_id <$> A ++ B)) as Hp.
  { rewrite !fmap_app, fmap_cons, <- Permutation_middle. apply Permutation_swap. }
  rewrite Hp in Hnd. inversion Hnd as [|? ? Hin _]; subst. apply Hin. right. apply list_elem_of_fmap. by exists u.
Qed.

Lemma list_end A : A = [] \/ exists C u, A = C ++ [u].
Proof. induction A as [|u C _] using rev_ind; [by left|right; by exists C, u]. Qed.

Lemma at_end hdr A x h : at_node hdr A x h [] -> (A = [] /\ x = hdr) \/ endp None A = Some x.
Proof.
  intros Hat. destruct (at_inv _ _ _ _ _ Hat) as [(-> & _ & <-)|(C & u & -> & -> & _)]; [by left|right].
  by rewrite endp_app.
Qed.

Lemma zslInsertNode_spec z A w B : stored z (A ++ w :: B) -> zsl_ok z (A ++ B) -> score_nan (it_score w) = false ->
  (forall u, u ∈ A -> 0 < cmp_item (it_score w) (it_ele w) u) -> (forall u, u ∈ B -> cmp_item (it_score w) (it_ele w) u <= 0) ->
  Zlen (A ++ B) + 1 < 2 ^ 63 ->
  exists z', zslInsertNode z (it_id w) = Ret z' /\ zsl_ok z' (A ++ w :: B) /\ zsl_header z' = zsl_header z.
Proof.
  intros Hst Hok Hnan HA HB Hn. unfold zslInsertNode. cbv zeta.
  destruct (st_nodes _ _ Hst w) as (n & Hnw & Hsc & He & Hlv & _); [apply elem_of_app; right; left|].
  assert (1 <= it_h w <= ZSKIPLIST_MAXLEVEL) as Hh by (apply (st_heights _ _ Hst), elem_of_app; right; left).
  pose proof (zk_level _ _ Hok) as Hlev.
  unfold get_node at 1. rewrite Hnw. rewrite ret_bind. unfold zslGetNodeElement. rewrite He, ret_bind, Hsc, Hlv, Hnan. change (c_assert (negb false)) with (Ret tt). rewrite ret_bind.
  destruct (search_upd z A B true (go_before z (it_score w) (it_ele w)) Hok) as (update & -> & Hu).
  { apply go_before_ok; [apply Hok|apply Hok|done|done]. }
  rewrite ret_bind.
  destruct (raise_spec z A w B update Hst Hok Hu) as (z1 & update1 & -> & Hhd & Hl1 & Hlen1 & Ht1 & Hb1 & Hst1 & Hlv1 & Hab1 & [Hul1 Hu1]).
  rewrite ret_bind. pose proof (st_uniq _ _ Hst1) as Hnd.
  destruct (Hu1 0 ltac:(lia)) as (u0 & hu0 & A0 & r0 & Hrd0 & Hat0 & _ & Hno0 & Hr0). rewrite Hrd0. rewrite ret_bind.
  assert (forall u, u ∈ A -> 1 <= it_h u) as HhA by (intros u Hu'; apply (st_heights _ _ Hst), elem_of_app; by left).
  pose proof (last_level0 _ _ _ _ _ HhA Hat0 Hno0) as ->. specialize (Hr0 eq_refl). change (Zlen []) with 0 in Hr0.
  (* the levels of the new node *)
  destruct (levels_loop (fun _ => False) z1 (A ++ B) (A ++ w :: B) (Z.to_nat (it_h w)) 0 (it_h w) (link_level (it_id w) r0 update1)) as (z2 & -> & Hs2 & Hl2 & Hk2);
    [lia|lia|intros; lia|intros i Hi; apply Hlv1; lia| |].
  { intros i z' Hi Hs Hl. destruct (Hu1 i ltac:(lia)) as (u & hu & A2 & r & Hrd & Hat & Hiu & Hno & Hr).
    destruct (link_level_spec z' A w B i u hu A2 r0 update1 r) as (z2 & ? & ? & ?); [..|by exists z2]; try done; [by eapply stored_sig|by rewrite (ss_header _ _ Hs), Hhd|by apply Hr|lia]. }
  rewrite ret_bind. rewrite (ss_level _ _ Hs2).
  assert (stored z2 (A ++ w :: B)) as Hst2 by (by eapply stored_sig).
  (* the levels above *)
  destruct (levels_loop (fun _ => False) z2 (A ++ B) (A ++ w :: B) (Z.to_nat (zsl_level z1 - it_h w)) (it_h w) (zsl_level z1) (untouched_level update1)) as (z3 & -> & Hs3 & Hl3 & Hk3);
    [lia|lia|done| | |].
  { intros i Hi x h sfx Hat Hih. rewrite (ss_header _ _ Hs2) in Hat. destruct (Hlv1 i ltac:(lia) x h sfx Hat Hih) as (s & E & H).
    exists s. rewrite Hk2 by lia. done. }
  { intros i z' Hi Hs Hl. destruct (Hu1 i ltac:(lia)) as (u & hu & A2 & r & Hrd & Hat & Hiu & Hno & Hr).
    destruct (untouched_level_spec z' A w B i u hu A2 update1 r) as (z3 & ? & ? & ?); [..|by exists z3]; try done; [by eapply stored_sig|lia|].
    by rewrite (ss_header _ _ Hs), (ss_header _ _ Hs2), Hhd. }
  rewrite ret_bind. pose proof (same_sig_trans _ _ _ Hs2 Hs3) as Hs13. assert (stored z3 (A ++ w :: B)) as Hst3 by (by eapply stored_sig).
  (* the backward pointers *)
  assert ((if Pos.eqb u0 (zsl_header z3) then None else Some u0) = endp None A) as ->.
  { rewrite (ss_header _ _ Hs13), Hhd. destruct (at_end _ _ _ _ Hat0) as [[-> ->]|E]; [by rewrite Pos.eqb_refl|].
    rewrite E. destruct (Pos.eqb_spec u0 (zsl_header z)) as [-> |]; [|done]. exfalso.
    destruct (list_end A) as [-> |(C & u & ->)]; [done|]. rewrite endp_app in E. cbn in E. injection E as E.
    apply (stored_not_header z _ u) in Hst; [done|]. apply elem_of_app. left. apply elem_of_app. right. left. }
  destruct (st_nodes _ _ Hst3 w) as (n3 & Hn3 & _); [apply elem_of_app; right; left|].
  destruct (set_backward_spec z3 (it_id w) (endp None A)) as (z4 & -> & Hss4 & Ht4 & Hbw4 & Hb4); [by eexists|]. rewrite ret_bind.
  assert (lvl z4 0 (A ++ w :: B)) as Hl40 by (apply (lvl_slots z3); [done|apply Hl3; lia]).
  destruct (Hl40 (it_id w) (it_h w) B) as ([f s] & Hs40 & Hf & _); [by apply (at_item _ _ A)|lia|]. cbn [fst] in Hf.
  rewrite (get_forward_slot _ _ _ _ _ Hs40). rewrite ret_bind.
  assert (f = match B with [] => None | v :: _ => Some (it_id v) end) as ->.
  { rewrite Hf. destruct B as [|v B]; [done|]. rewrite link_cons. destruct (Z.ltb_spec 0 (it_h v)) as [|Hv]; [done|].
    assert (1 <= it_h v); [|lia]. apply (st_heights _ _ Hst), elem_of_app. right. right. left. }
  assert (forall u, u ∈ A ++ w :: B -> is_Some (zsl_nodes z4 !! it_id u)) as Hsome.
  { intros u Hu'. apply (sl_stored _ _ Hss4) in Hst3. destruct (st_nodes _ _ Hst3 u Hu') as (m & Hm & _). by exists m. }
  assert (exists z5, match match B with [] => None | v :: _ => Some (it_id v) end with
    | Some y => set_backward z4 y (Some (it_id w)) | None => Ret (set_tail z4 (Some (it_id w))) end = Ret z5 /\ same_slots z4 z5 /\
    zsl_tail z5 = match B with [] => Some (it_id w) | _ => zsl_tail z4 end /\
    forall x, back_of z5 x = match B with v :: _ => if decide (x = it_id v) then Some (Some (it_id w)) else back_of z4 x | [] => back_of z4 x end)
    as (z5 & -> & Hss5 & Ht5 & Hb5).
  { destruct B as [|v B].
    - eexists. split; [done|]. split; [|done]. split; try done. intros L [S1 S2 S3 S4]. by split.
    - destruct (set_backward_spec z4 (it_id v) (Some (it_id w))) as (z5 & -> & H1 & H2 & H3 & H4); [apply Hsome, elem_of_app; right; right; left|].
      exists z5. split; [done|]. split; [done|]. split; [done|]. intros x. case_decide as E; [by rewrite E|by apply H4]. }
  rewrite ret_bind.
  pose proof (same_slots_trans _ _ _ Hss4 Hss5) as Hss.
  eexists. split; [done|]. assert (zsl_header z5 = zsl_header z) as Hh5 by (rewrite (sl_header _ _ Hss), (ss_header _ _ Hs13); done).
  assert (zsl_level z5 = zsl_level z1) as Hlv5 by (by rewrite (sl_level _ _ Hss), (ss_level _ _ Hs13)).
  split; [|done]. rewrite Zlen_app in Hn. split.
  - apply (sl_stored _ _ Hss) in Hst3. by destruct Hst3; split.
  - intros i Hi. cbn [zsl_level set_length] in Hi. rewrite Hlv5 in Hi.
    exact (lvl_slots z3 z5 i _ Hss (Hl3 i Hi)).
  - cbn [zsl_level zsl_header set_length]. rewrite Hlv5, Hh5. intros i Hi. change (get_slot (set_length z5 _) (zsl_header z) i) with (get_slot z5 (zsl_header z) i).
    rewrite (sl_slots _ _ Hss), Hk3, Hk2 by lia. apply Hab1. lia.
  - cbn. lia.
  - cbn. rewrite Hlv5, Hl1. intros u Hu'. rewrite elem_of_app, elem_of_cons in Hu'. destruct Hu' as [Hu'|[-> |Hu']]; [|lia|];
      (assert (it_h u <= zsl_level z); [apply (zk_heights _ _ Hok), elem_of_app; tauto|lia]).
  - cbn. rewrite Hlv5, Hl1. destruct (Z.max_spec (zsl_level z) (it_h w)) as [[Hm ->]|[Hm ->]].
    + right. exists w. split; [apply elem_of_app; right; left|done].
    + destruct (zk_top _ _ Hok) as [?|(u & Hu' & ?)]; [by left|right]. exists u. split; [|done].
      rewrite elem_of_app, elem_of_cons. apply elem_of_app in Hu'. tauto.
  - cbn. rewrite (sl_length _ _ Hss), (ss_length _ _ Hs13), Hlen1, (zk_length _ _ Hok), !Zlen_app, Zlen_cons.
    pose proof (Zlen_nonneg A). pose proof (Zlen_nonneg B). rewrite wrapu_id by lia. lia.
  - rewrite Zlen_app, Zlen_cons. lia.
  - apply (seg_frame z5); [done|]. pose proof (zk_back _ _ Hok) as Hbk. rewrite seg_app in Hbk. destruct Hbk as [HbA HbB].
    assert (forall x, x <> it_id w -> back_of z4 x = back_of z x) as Hb.
    { intros x Hx. by rewrite Hb4, (back_of_sig z1 z3 x Hs13), Hb1. }
    rewrite seg_app. split; [|cbn [seg]; split].
    + apply (seg_frame z); [|done]. intros u Hu'. rewrite <- Hb by (apply (mid_not_in _ A w B u Hnd), elem_of_app; by left).
      rewrite Hb5. destruct B as [|v B]; [done|]. rewrite decide_False; [done|].
      apply (mid_not_in (zsl_header z1) (A ++ [w]) v B u); [by rewrite <- app_assoc|apply elem_of_app; left; apply elem_of_app; by left].
    + rewrite Hb5. destruct B as [|v B]; [done|]. rewrite decide_False; [done|]. intros E.
      apply (mid_not_in (zsl_header z1) A w (v :: B) v Hnd); [apply elem_of_app; right; left|done].
    + destruct B as [|v B]; [done|]. cbn [seg] in HbB |- *. destruct HbB as [_ HbB]. split; [by rewrite Hb5, decide_True|].
      apply (seg_frame z); [|done]. intros u Hu'. rewrite Hb5, decide_False.
      * apply Hb. apply (mid_not_in _ A w (v :: B) u Hnd), elem_of_app. right. by right.
      * apply (mid_not_in (zsl_header z1) (A ++ [w]) v B u); [by rewrite <- app_assoc|apply elem_of_app; by right].
  - change (zsl_tail z5 = endp None (A ++ w :: B)). rewrite endp_app, Ht5. cbn [endp]. destruct B as [|v B]; [done|].
    rewrite Ht4, (ss_tail _ _ Hs13), Ht1, (zk_tail _ _ Hok), endp_app. done.
Qed.

(** ** Unlinking a node *)

Lemma same_level_slots z l : (forall y j, get_slot (set_zlevel z l) y j = get_slot z y j) /\
  (forall L, stored z L -> stored (set_zlevel z l) L) /\ forall x, back_of (set_zlevel z l) x = back_of z x.
Proof. split; [done|]. split; [|done]. intros L HL. by destruct HL; split. Qed.

Lemma lower_spec L fuel : forall z, stored z L -> (forall i, 0 <= i < zsl_level z -> lvl z i L) ->
  (forall i, zsl_level z <= i < ZSKIPLIST_MAXLEVEL -> get_slot z (zsl_header z) i = Ret (None, 0)) ->
  1 <= zsl_level z <= ZSKIPLIST_MAXLEVEL -> (forall u, u ∈ L -> it_h u <= zsl_level z) -> zsl_level z <= Z.of_nat fuel ->
  exists z', lower_levels fuel z = Ret z' /\ zsl_header z' = zsl_header z /\ zsl_tail z' = zsl_tail z /\ zsl_length z' = zsl_length z /\
    (forall M, stored z M -> stored z' M) /\ (forall x, back_of z' x = back_of z x) /\
    1 <= zsl_level z' <= zsl_level z /\ (forall i, 0 <= i < zsl_level z' -> lvl z' i L) /\
    (forall i, zsl_level z' <= i < ZSKIPLIST_MAXLEVEL -> get_slot z' (zsl_header z) i = Ret (None, 0)) /\
    (forall u, u ∈ L -> it_h u <= zsl_level z') /\ (zsl_level z' = 1 \/ exists u, u ∈ L /\ it_h u = zsl_level z').
Proof.
  induction fuel as [|fuel IH]; intros z Hst Hl Hab Hlev Hh Hf; [lia|]. cbn [lower_levels].
  assert ((zsl_level z = 1 \/ exists u, u ∈ L /\ it_h u = zsl_level z) -> exists z', Ret z = Ret z' /\ zsl_header z' = zsl_header z /\
    zsl_tail z' = zsl_tail z /\ zsl_length z' = zsl_length z /\
    (forall M, stored z M -> stored z' M) /\ (forall x, back_of z' x = back_of z x) /\
    1 <= zsl_level z' <= zsl_level z /\ (forall i, 0 <= i < zsl_level z' -> lvl z' i L) /\
    (forall i, zsl_level z' <= i < ZSKIPLIST_MAXLEVEL -> get_slot z' (zsl_header z) i = Ret (None, 0)) /\
    (forall u, u ∈ L -> it_h u <= zsl_level z') /\ (zsl_level z' = 1 \/ exists u, u ∈ L /\ it_h u = zsl_level z')) as Hdone.
  { intros Ht. exists z. split; [done|]. do 5 (split; [done|]). split; [lia|]. done. }
  destruct (Z.ltb_spec 1 (zsl_level z)) as [H1|H1]; [|apply Hdone; left; lia].
  destruct (Hl (zsl_level z - 1) ltac:(lia) (zsl_header z) ZSKIPLIST_MAXLEVEL L) as ([f s] & Hs & Hfw & _); [constructor|lia|].
  rewrite (get_forward_slot _ _ _ _ _ Hs), ret_bind. cbn [fst] in Hfw. destruct f as [y|].
  { apply Hdone. right. destruct (has (zsl_level z - 1) L) eqn:E; [|by rewrite link_none in Hfw].
    destruct (link_has _ _ E) as (A1 & u & A2 & -> & _ & Hu & _). assert (u ∈ A1 ++ u :: A2) as Hin by (apply elem_of_app; right; left).
    exists u. split; [done|]. specialize (Hh u Hin). lia. }
  assert (has (zsl_level z - 1) L = false) as Hno.
  { destruct (has (zsl_level z - 1) L) eqn:E; [|done]. destruct (link_has _ _ E) as (A1 & u & A2 & _ & _ & _ & E2). by rewrite E2 in Hfw. }
  destruct (put_slot_spec z (zsl_header z) (zsl_level z - 1) (None, 0)) as (z1 & -> & [Hs1 Ho1] & Hh1 & Hoth1); [by eexists|].
  rewrite ret_bind. rewrite (ss_level _ _ Hs1). set (z2 := set_zlevel z1 (zsl_level z - 1)).
  destruct (IH z2) as (z' & -> & E1 & E2 & E3 & E4 & E5 & E6 & E7 & E8 & E9 & E10).
  - apply same_level_slots. by eapply stored_sig.
  - intros i Hi x h sfx Hat Hih. cbn in Hi, Hat. rewrite (ss_header _ _ Hs1) in Hat.
    destruct (Hl i ltac:(lia) x h sfx Hat Hih) as (s' & Hs' & H). exists s'. split; [|done].
    change (get_slot z1 x i = Ret s'). rewrite Ho1 by lia. done.
  - cbn. rewrite (ss_header _ _ Hs1). intros i Hi. change (get_slot z1 (zsl_header z) i = Ret (None, 0)).
    destruct (Z.eq_dec i (zsl_level z - 1)) as [-> |]; [done|]. rewrite Ho1 by done. apply Hab. lia.
  - cbn. lia.
  - cbn. intros u Hu. specialize (Hh u Hu). destruct (Z.eq_dec (it_h u) (zsl_level z)) as [E|]; [|lia]. exfalso.
    apply list_elem_of_split in Hu as (l1 & l2 & ->). rewrite has_app in Hno. apply orb_false_iff in Hno as [_ Hno].
    cbn [has existsb] in Hno. apply orb_false_iff in Hno as [Hno _]. apply Z.ltb_ge in Hno. lia.
  - cbn. lia.
  - cbn in E1, E2, E3, E6, E8. rewrite (ss_header _ _ Hs1) in E1, E8. rewrite (ss_tail _ _ Hs1) in E2. rewrite (ss_length _ _ Hs1) in E3.
    exists z'. split; [done|]. do 3 (split; [done|]). split.
    { intros M HM. apply E4, same_level_slots. by eapply stored_sig. }
    split; [intros x; rewrite E5; exact (back_of_sig z z1 x Hs1)|]. split; [lia|]. done.
Qed.

Lemma back_mid z p A w B : seg z p (A ++ w :: B) -> back_of z (it_id w) = Some (endp p A).
Proof. rewrite seg_app. cbn [seg]. tauto. Qed.

Lemma zslUnlinkNode_spec z A w B count update lev : zsl_ok z (A ++ w :: B) -> upd_ok count (zsl_header z) A update lev ->
  zsl_level z <= lev -> exists z', zslUnlinkNode z (it_id w) update = Ret z' /\ zsl_ok z' (A ++ B) /\
    stored z' (A ++ w :: B) /\ zsl_header z' = zsl_header z /\ zsl_level z' <= zsl_level z.
Proof.
  intros Hok [Hul Hu] Hlev0. pose proof (zk_level _ _ Hok) as Hlev. pose proof (zk_stored _ _ Hok) as Hst. unfold zslUnlinkNode.
  pose proof (zk_small _ _ Hok) as Hsm. pose proof (st_uniq _ _ Hst) as Hnd.
  destruct (levels_loop (fun y => y = it_id w) z (A ++ w :: B) (A ++ B) (Z.to_nat (zsl_level z)) 0 (zsl_level z)
    (unlink_level (it_id w) update)) as (z1 & -> & Hs1 & Hl1 & Hk1); [lia|lia|intros; lia|apply Hok| |].
  { intros i z' Hi Hs Hl. destruct (Hu i ltac:(lia)) as (u & hu & A2 & r & Hrd & Hat & Hiu & Hno & _). rewrite <- (ss_header _ _ Hs) in Hat.
    destruct (unlink_level_spec z' A w B i u hu A2 update r) as (z2 & ? & ? & ? & Hy); try done; [by eapply stored_sig|lia|].
    exists z2. do 3 (split; [done|]). intros y ->. apply Hy. intros E. symmetry in E. revert E.
    apply (stored_ids _ A w B _ _ _ (eq_rect _ (fun h => NoDup (h :: _)) Hnd _ (eq_sym (ss_header _ _ Hs))) Hat). }
  rewrite ret_bind. assert (stored z1 (A ++ w :: B)) as Hst1 by (by eapply stored_sig).
  assert (1 <= it_h w) as Hh by (apply (st_heights _ _ Hst), elem_of_app; right; left).
  destruct (zk_lvls _ _ Hok 0 ltac:(lia) (it_id w) (it_h w) B) as ([f s] & Hs0 & Hf & _); [by apply (at_item _ _ A)|lia|]. cbn [fst] in Hf.
  rewrite (get_forward_slot z1 _ _ f s) by (rewrite Hk1 by (right; by right); done). rewrite ret_bind.
  assert (f = match B with [] => None | v :: _ => Some (it_id v) end) as ->.
  { rewrite Hf. destruct B as [|v B]; [done|]. rewrite link_cons. destruct (Z.ltb_spec 0 (it_h v)) as [|Hv]; [done|].
    assert (1 <= it_h v); [|lia]. apply (st_heights _ _ Hst), elem_of_app. right. right. left. }
  destruct (st_nodes _ _ Hst1 w) as (n & Hn & _); [apply elem_of_app; right; left|].
  unfold get_node at 1. rewrite Hn, ret_bind.
  pose proof (zk_back _ _ Hok) as Hbk. assert (zn_backward n = endp None A) as ->.
  { pose proof (back_mid _ _ _ _ _ Hbk) as E. rewrite <- (back_of_sig z z1 _ Hs1) in E. unfold back_of in E. rewrite Hn in E. by injection E. }
  assert (exists z2, match match B with [] => None | v :: _ => Some (it_id v) end with
    | Some y => set_backward z1 y (endp None A) | None => Ret (set_tail z1 (endp None A)) end = Ret z2 /\ same_slots z1 z2 /\
    zsl_tail z2 = match B with [] => endp None A | _ => zsl_tail z1 end /\
    forall x, back_of z2 x = match B with v :: _ => if decide (x = it_id v) then Some (endp None A) else back_of z1 x | [] => back_of z1 x end)
    as (z2 & -> & Hss & Ht2 & Hb2).
  { destruct B as [|v B].
    - eexists. split; [done|]. split; [|done]. split; try done. intros L [S1 S2 S3 S4]. by split.
    - destruct (set_backward_spec z1 (it_id v) (endp None A)) as (z2 & -> & H1 & H2 & H3 & H4).
      { destruct (st_nodes _ _ Hst1 v) as (m & Hm & _); [apply elem_of_app; right; right; left|by exists m]. }
      exists z2. split; [done|]. split; [done|]. split; [done|]. intros x. case_decide as E; [by rewrite E|by apply H4]. }
  rewrite ret_bind. pose proof (sl_stored _ _ Hss _ Hst1) as Hst2.
  assert (zsl_level z2 = zsl_level z) as Hlv2 by (by rewrite (sl_level _ _ Hss), (ss_level _ _ Hs1)).
  assert (zsl_header z2 = zsl_header z) as Hh2 by (by rewrite (sl_header _ _ Hss), (ss_header _ _ Hs1)).
  assert (forall u, u ∈ A ++ B -> u ∈ A ++ w :: B) as Hsub by (intros u; rewrite !elem_of_app, elem_of_cons; tauto).
  destruct (lower_spec (A ++ B) (Z.to_nat (zsl_level z2)) z2) as (z3 & -> & E1 & E2 & E3 & E4 & E5 & E6 & E7 & E8 & E9 & E10).
  - by apply stored_app in Hst2.
  - rewrite Hlv2. intros i Hi. apply (lvl_slots z1); [done|]. by apply Hl1.
  - rewrite Hlv2, Hh2. intros i Hi. rewrite (sl_slots _ _ Hss), Hk1 by lia. apply (zk_above _ _ Hok). lia.
  - lia.
  - rewrite Hlv2. intros u Hu'. by apply (zk_heights _ _ Hok), Hsub.
  - lia.
  - rewrite ret_bind. eexists. split; [done|]. assert (stored z3 (A ++ w :: B)) as Hst3 by (by apply E4).
    split; [|split; [by destruct Hst3; split|split; [cbn; congruence|cbn; lia]]].
    assert (forall u, u ∈ A -> it_id u <> it_id w) as HneA by (intros u Hu'; apply (mid_not_in _ A w B u Hnd), elem_of_app; by left).
    rewrite Zlen_app, Zlen_cons in Hsm. pose proof (Zlen_nonneg A). pose proof (Zlen_nonneg B). split.
    + apply stored_app in Hst3. by destruct Hst3; split.
    + intros i Hi. exact (E7 i Hi).
    + cbn [zsl_level zsl_header set_length]. rewrite E1. exact E8.
    + cbn. lia.
    + done.
    + done.
    + cbn. rewrite E3, (sl_length _ _ Hss), (ss_length _ _ Hs1), (zk_length _ _ Hok), !Zlen_app, Zlen_cons, wrapu_id by lia. lia.
    + rewrite Zlen_app. lia.
    + apply (seg_frame z3); [done|]. rewrite seg_app in Hbk. cbn [seg] in Hbk. destruct Hbk as (HbA & _ & HbB).
      assert (forall x, back_of z1 x = back_of z x) as Hb1 by (intros x; by apply back_of_sig).
      apply seg_app. split.
      * apply (seg_frame z); [|done]. intros u Hu'. rewrite E5, Hb2. destruct B as [|v B]; [done|]. rewrite decide_False; [done|].
        apply (mid_not_in (zsl_header z) (A ++ [w]) v B u); [by rewrite <- app_assoc|apply elem_of_app; left; apply elem_of_app; by left].
      * destruct B as [|v B]; [done|]. cbn [seg] in HbB |- *. destruct HbB as [_ HbB]. split; [by rewrite E5, Hb2, decide_True|].
        apply (seg_frame z); [|done]. intros u Hu'. rewrite E5, Hb2, decide_False; [done|].
        apply (mid_not_in (zsl_header z) (A ++ [w]) v B u); [by rewrite <- app_assoc|apply elem_of_app; by right].
    + change (zsl_tail z3 = endp None (A ++ B)). rewrite E2, Ht2, endp_app. destruct B as [|v B]; [done|].
      rewrite (ss_tail _ _ Hs1), (zk_tail _ _ Hok), endp_app. done.
Qed.
End rep.
