(* ===== verification/SkiplistOps.v ===== *)
(** * SkiplistOps: the order of the keys and the operations that change the skiplist

    A skiplist represents a strictly sorted list of items, by score then
    element; deletion, insertion and the update of a score carry a sorted list
    to a sorted list. *)

From stdpp Require Import countable sets fin_maps gmap sorting.
From S2P Require Import Prelude Memory Skiplist SkiplistInv.

(** ** The order of keys *)

Lemma Forall_elem {T} (P : T -> Prop) l : Forall P l <-> forall x, x ∈ l -> P x.
Proof. rewrite Forall_forall. by setoid_rewrite list_elem_of_In. Qed.

Lemma sdscmp_nil_cons a s : sdscmp [] (a :: s) = -1.
Proof. unfold sdscmp. rewrite Zlen_cons. change (Zlen []) with 0. pose proof (Zlen_nonneg s). destruct (Z.ltb_spec 0 (1 + Zlen s)); [|lia]. cbn. by destruct (Z.ltb_spec (1 + Zlen s) 0); [lia|]. Qed.

Lemma sdscmp_cons_nil a s : sdscmp (a :: s) [] = 1.
Proof. unfold sdscmp. rewrite Zlen_cons. change (Zlen []) with 0. pose proof (Zlen_nonneg s). destruct (Z.ltb_spec (1 + Zlen s) 0); [lia|]. cbn. by destruct (Z.ltb_spec 0 (1 + Zlen s)); [|lia]. Qed.

Lemma sdscmp_cons a s b t : sdscmp (a :: s) (b :: t) = if a =? b then sdscmp s t else a - b.
Proof.
  unfold sdscmp. rewrite !Zlen_cons. pose proof (Zlen_nonneg s). pose proof (Zlen_nonneg t).
  assert ((1 + Zlen s <? 1 + Zlen t) = (Zlen s <? Zlen t)) as -> by (destruct (Z.ltb_spec (1 + Zlen s) (1 + Zlen t)), (Z.ltb_spec (Zlen s) (Zlen t)); lia).
  assert ((1 + Zlen t <? 1 + Zlen s) = (Zlen t <? Zlen s)) as -> by (destruct (Z.ltb_spec (1 + Zlen t) (1 + Zlen s)), (Z.ltb_spec (Zlen t) (Zlen s)); lia).
  assert (Z.to_nat (if Zlen s <? Zlen t then 1 + Zlen s else 1 + Zlen t) = S (Z.to_nat (if Zlen s <? Zlen t then Zlen s else Zlen t))) as ->
    by (destruct (Zlen s <? Zlen t); lia).
  cbn [memcmp]. destruct (Z.eqb_spec a b); [done|]. destruct (Z.eqb_spec (a - b) 0); [lia|done].
Qed.

Lemma sdscmp_eq s t : sdscmp s t = 0 <-> s = t.
Proof.
  revert t. induction s as [|a s IH]; intros [|b t]; rewrite ?sdscmp_nil_cons, ?sdscmp_cons_nil, ?sdscmp_cons; try done.
  destruct (Z.eqb_spec a b) as [-> |]; [rewrite IH; split; [by intros ->|by intros [= ->]]|]. split; [lia|congruence].
Qed.

Lemma sdscmp_swap s t : 0 < sdscmp s t <-> sdscmp t s < 0.
Proof.
  revert t. induction s as [|a s IH]; intros [|b t]; rewrite ?sdscmp_nil_cons, ?sdscmp_cons_nil, ?sdscmp_cons; try done.
  rewrite (Z.eqb_sym b a). destruct (Z.eqb_spec a b) as [-> |]; [apply IH|lia].
Qed.

Lemma sdscmp_trans s t r : sdscmp s t < 0 -> sdscmp t r < 0 -> sdscmp s r < 0.
Proof.
  revert t r. induction s as [|a s IH]; intros [|b t] [|c r]; rewrite ?sdscmp_nil_cons, ?sdscmp_cons_nil, ?sdscmp_cons; try done.
  destruct (Z.eqb_spec a b), (Z.eqb_spec b c), (Z.eqb_spec a c); subst; try lia. apply IH.
Qed.

Section order.
Context {Sc : Type} `{!Score Sc, !ScoreLaws Sc}.
Abbreviation zskiplist := (zskiplist Sc).
Abbreviation item := (item (Sc := Sc)).
Implicit Types (z : zskiplist) (u v w : item) (L A B : list item) (s : Sc) (e : list Z).

(** [u] comes before [v]. *)
Definition item_lt u v : Prop := cmp_item (it_score u) (it_ele u) v < 0.
Definition item_nan u : bool := score_nan (it_score u).

Lemma score_lt_asym s s' : score_lt s s' = true -> score_lt s' s = false.
Proof. intros H. destruct (score_lt s' s) eqn:E; [|done]. by rewrite <- (score_lt_trans s s' s H E), score_lt_irrefl. Qed.

Lemma cmp_swap u v : 0 < cmp_item (it_score u) (it_ele u) v <-> item_lt v u.
Proof.
  unfold item_lt, cmp_item. destruct (score_lt (it_score u) (it_score v)) eqn:E1.
  - rewrite (score_lt_asym _ _ E1). lia.
  - destruct (score_lt (it_score v) (it_score u)); [lia|]. apply sdscmp_swap.
Qed.

Lemma cmp_refl s e u : it_score u = s -> it_ele u = e -> cmp_item s e u = 0.
Proof. intros <- <-. unfold cmp_item. rewrite score_lt_irrefl. by apply sdscmp_eq. Qed.

Lemma cmp_eq_ele s e u : cmp_item s e u = 0 -> e = it_ele u.
Proof. unfold cmp_item. destruct (score_lt _ _); [lia|]. destruct (score_lt _ _); [lia|]. apply sdscmp_eq. Qed.

Lemma item_lt_trans u v w : item_nan u = false -> item_nan v = false -> item_nan w = false ->
  item_lt u v -> item_lt v w -> item_lt u w.
Proof.
  unfold item_nan, item_lt, cmp_item. intros Hu Hv Hw.
  destruct (score_lt (it_score u) (it_score v)) eqn:E1.
  - intros _ H. destruct (score_lt_cotrans (it_score u) (it_score w) (it_score v) Hw E1) as [-> |E]; [lia|].
    rewrite (score_lt_asym _ _ E), E in H. lia.
  - destruct (score_lt (it_score v) (it_score u)) eqn:E2; [lia|]. intros H1.
    destruct (score_lt (it_score v) (it_score w)) eqn:E3.
    + intros _. destruct (score_lt_cotrans (it_score v) (it_score u) (it_score w) Hu E3) as [E| ->]; [congruence|lia].
    + destruct (score_lt (it_score w) (it_score v)) eqn:E4; [lia|]. intros H2.
      destruct (score_lt (it_score u) (it_score w)) eqn:E5; [lia|]. destruct (score_lt (it_score w) (it_score u)) eqn:E6.
      * destruct (score_lt_cotrans (it_score w) (it_score v) (it_score u) Hv E6); congruence.
      * by apply (sdscmp_trans _ (it_ele v)).
Qed.

(** ** Sorted lists *)

Record zsl_rep z L : Prop := {
  zr_ok : zsl_ok z L;
  zr_sorted : StronglySorted item_lt L;
  zr_nan : forall u, u ∈ L -> item_nan u = false;
}.

Lemma sorted_app L A B : L = A ++ B -> StronglySorted item_lt L <->
  StronglySorted item_lt A /\ StronglySorted item_lt B /\ forall u v, u ∈ A -> v ∈ B -> item_lt u v.
Proof.
  intros ->. induction A as [|a A IH]; cbn.
  - split; [intros H; split; [constructor|split; [done|]]|tauto]. intros u v Hu. by apply not_elem_of_nil in Hu.
  - split.
    + intros H. apply StronglySorted_inv in H as [H Ha]. apply IH in H as (H1 & H2 & H3). rewrite Forall_app in Ha. destruct Ha as [Ha Hb].
      split; [by constructor|]. split; [done|]. intros u v Hu Hv. apply elem_of_cons in Hu as [-> |Hu]; [|by apply H3].
      by apply (proj1 (Forall_elem _ _) Hb).
    + intros (H1 & H2 & H3). apply StronglySorted_inv in H1 as [H1 Ha]. constructor.
      * apply IH. split; [done|]. split; [done|]. intros u v Hu. apply H3. by right.
      * apply Forall_app. split; [done|]. apply Forall_elem. intros v Hv. apply H3; [left|done].
Qed.

Lemma sorted_insert A w B : StronglySorted item_lt (A ++ B) -> (forall u, u ∈ A -> item_lt u w) -> (forall u, u ∈ B -> item_lt w u) ->
  StronglySorted item_lt (A ++ w :: B).
Proof.
  intros H HA HB. apply (sorted_app _ A B eq_refl) in H as (H1 & H2 & H3). apply (sorted_app _ A (w :: B) eq_refl).
  split; [done|]. split; [constructor; [done|by apply Forall_elem]|]. intros u v Hu Hv.
  apply elem_of_cons in Hv as [-> |Hv]; [by apply HA|by apply H3].
Qed.

Lemma sorted_delete A w B : StronglySorted item_lt (A ++ w :: B) -> StronglySorted item_lt (A ++ B) /\
  (forall u, u ∈ A -> item_lt u w) /\ (forall u, u ∈ B -> item_lt w u).
Proof.
  intros H. apply (sorted_app _ A (w :: B) eq_refl) in H as (H1 & H2 & H3). apply StronglySorted_inv in H2 as [H2 Hw].
  split; [|split; [intros u Hu; apply H3; [done|left]|by apply Forall_elem]].
  apply (sorted_app _ A B eq_refl). split; [done|]. split; [done|]. intros u v Hu Hv. apply H3; [done|by right].
Qed.

(** A key that is not in the list has a place. *)
Lemma sorted_split L w : StronglySorted item_lt L -> (forall u, u ∈ L -> item_nan u = false) -> item_nan w = false ->
  (forall u, u ∈ L -> it_ele u <> it_ele w) -> exists A B, L = A ++ B /\ (forall u, u ∈ A -> item_lt u w) /\ (forall u, u ∈ B -> item_lt w u).
Proof.
  intros Hs Hn Hw Hne. induction Hs as [|u L Hs IH Hu].
  - exists [], []. split; [done|]. split; intros u Hu; by apply not_elem_of_nil in Hu.
  - destruct IH as (A & B & -> & HA & HB); [intros v Hv; apply Hn; by right|intros v Hv; apply Hne; by right|].
    destruct (Z.lt_trichotomy (cmp_item (it_score u) (it_ele u) w) 0) as [H|[H|H]].
    + exists (u :: A), B. split; [done|]. split; [|done]. intros v Hv. apply elem_of_cons in Hv as [-> |Hv]; [done|by apply HA].
    + apply cmp_eq_ele in H. exfalso. by apply (Hne u ltac:(left)).
    + apply cmp_swap in H. exists [], (u :: A ++ B). split; [done|]. split; [intros v Hv; by apply not_elem_of_nil in Hv|].
      intros v Hv. apply elem_of_cons in Hv as [-> |Hv]; [done|].
      apply (item_lt_trans w u v); [done|apply Hn; left|apply Hn; by right|done|]. by apply (proj1 (Forall_elem _ _) Hu).
Qed.

(** The searches with the key of [w]. *)
Lemma before_pos A w : (forall u, u ∈ A -> item_lt u w) -> forall u, u ∈ A -> 0 < cmp_item (it_score w) (it_ele w) u.
Proof. intros H u Hu. apply cmp_swap. by apply H. Qed.

Lemma after_nonpos B w : (forall u, u ∈ B -> item_lt w u) -> forall u, u ∈ B -> cmp_item (it_score w) (it_ele w) u <= 0.
Proof. intros H u Hu. specialize (H u Hu). unfold item_lt in H. lia. Qed.
End order.

(** ** Operations *)

Section operations.
Context {Sc : Type} `{!Score Sc, !ScoreLaws Sc}.
Abbreviation zskiplist := (zskiplist Sc).
Abbreviation item := (item (Sc := Sc)).
Implicit Types (z : zskiplist) (u v w : item) (L A B : list item) (s : Sc) (e : list Z).

Lemma rep_delete_ok z z' A w B : zsl_rep z (A ++ w :: B) -> zsl_ok z' (A ++ B) -> zsl_rep z' (A ++ B).
Proof.
  intros [Hok Hs Hn] Hok'. split; [done|exact (proj1 (sorted_delete _ _ _ Hs))|].
  intros u Hu. apply Hn. rewrite elem_of_app, elem_of_cons. apply elem_of_app in Hu. tauto.
Qed.

Lemma find_update_spec z A w B : zsl_rep z (A ++ w :: B) ->
  exists update, find_update z (it_id w) = Ret update /\ upd_ok false (zsl_header z) A update (zsl_level z).
Proof.
  intros [Hok Hs Hn]. destruct (sorted_delete _ _ _ Hs) as (_ & HA & HB). pose proof (zk_stored _ _ Hok) as Hst.
  destruct (st_nodes _ _ Hst w) as (n & Hnw & Hsc & He & Hlv & _); [apply elem_of_app; right; left|].
  unfold find_update, get_node. rewrite Hnw, ret_bind. unfold zslGetNodeElement. rewrite He, ret_bind, Hsc.
  destruct (search_upd z A (w :: B) false (go_before z (it_score w) (it_ele w)) Hok) as (update & -> & Hu).
  { apply go_before_ok; [done|apply Hok|by apply before_pos|]. intros u Hu. apply elem_of_cons in Hu as [-> |Hu].
    - by rewrite cmp_refl.
    - by apply (after_nonpos B w HB). }
  rewrite ret_bind. exists update. split; [|done]. destruct Hu as [Hul Hu]. pose proof (zk_level _ _ Hok) as Hlev.
  destruct (Hu 0 ltac:(lia)) as (u0 & hu & A2 & r & -> & Hat & Hh & Hno & _). rewrite ret_bind.
  assert (A2 = []) as ->.
  { apply (last_level0 (zsl_header z) A u0 hu); [|done|done]. intros u Hu'. apply (st_heights _ _ Hst), elem_of_app. by left. }
  destruct (zk_lvls _ _ Hok 0 ltac:(lia) u0 hu (w :: B)) as ([f sp] & Hs0 & Hf & _); [apply at_split; left; by exists []|done|].
  rewrite (get_forward_slot _ _ _ _ _ Hs0), ret_bind. cbn [fst] in Hf. rewrite link_cons in Hf.
  assert (1 <= it_h w) by (apply (st_heights _ _ Hst), elem_of_app; right; left).
  destruct (Z.ltb_spec 0 (it_h w)); [|lia]. cbn [fst] in Hf. subst f. by rewrite bool_decide_true.
Qed.

(** Changing, adding or freeing a node that is not in the list. *)
Lemma ok_other z z' L x : (forall y, y <> x -> zsl_nodes z' !! y = zsl_nodes z !! y) -> zsl_header z' = zsl_header z ->
  zsl_tail z' = zsl_tail z -> zsl_length z' = zsl_length z -> zsl_level z' = zsl_level z -> x <> zsl_header z ->
  (forall u, u ∈ L -> it_id u <> x) -> zsl_ok z L -> zsl_ok z' L.
Proof.
  intros Hy E1 E2 E3 E4 Hx Hne [H1 H2 H3 H4 H5 H6 H7 H8 H9 H10].
  assert (forall y i, y <> x -> get_slot z' y i = get_slot z y i) as Hsl.
  { intros y i Hyx. unfold get_slot, get_node. by rewrite Hy. }
  split; rewrite ?E1, ?E2, ?E3, ?E4; try done.
  - destruct H1 as [S1 S2 S3 S4]. split; [|done|by rewrite E1, Hy|by rewrite E1]. intros u Hu. rewrite Hy by auto. by apply S1.
  - intros i Hi y h sfx Hat Hih. rewrite E1 in Hat. destruct (H2 i Hi y h sfx Hat Hih) as (sl & E & H).
    exists sl. split; [|done]. rewrite Hsl; [done|].
    destruct (at_inv _ _ _ _ _ Hat) as [(-> & _)|(C & u & -> & -> & _)]; [done|]. apply Hne, elem_of_app. right. left.
  - intros i Hi. rewrite Hsl by done. by apply H3.
  - apply (seg_frame z); [|done]. intros u Hu. unfold back_of. rewrite Hy by auto. done.
Qed.

Lemma zslDelete_spec z A w B : zsl_rep z (A ++ w :: B) ->
  exists z', zslDelete z (it_id w) = Ret z' /\ zsl_rep z' (A ++ B) /\ zsl_header z' = zsl_header z /\ zsl_nodes z' !! it_id w = None.
Proof.
  intros Hrep. pose proof (zr_ok _ _ Hrep) as Hok. unfold zslDelete.
  destruct (find_update_spec _ _ _ _ Hrep) as (update & -> & Hu). rewrite ret_bind.
  destruct (zslUnlinkNode_spec z A w B false update (zsl_level z) Hok Hu ltac:(lia)) as (z1 & -> & Hok1 & Hst1 & Hh1 & _).
  rewrite ret_bind. eexists. split; [done|]. split; [|split; [done|by apply lookup_delete_eq]].
  apply (rep_delete_ok z _ A w B Hrep). pose proof (st_uniq _ _ Hst1) as Hnd. apply (ok_other z1 _ _ (it_id w)); try done; [intros y Hy; cbn; by rewrite lookup_delete_ne| |].
  - apply (stored_not_header z1 (A ++ w :: B)); [done|]. apply elem_of_app. right. left.
  - intros u Hu'. by apply (mid_not_in (zsl_header z1) A w B).
Qed.

(** *** Insertion of a node at its place *)

Lemma insert_at_place z L w : stored z (w :: L) -> zsl_rep z L -> item_nan w = false -> (forall u, u ∈ L -> it_ele u <> it_ele w) ->
  Zlen L + 1 < 2 ^ 63 ->
  exists z' A B, zslInsertNode z (it_id w) = Ret z' /\ L = A ++ B /\ zsl_rep z' (A ++ w :: B) /\ zsl_header z' = zsl_header z.
Proof.
  intros Hst [Hok Hs Hn] Hw Hne Hlen. destruct (sorted_split L w Hs Hn Hw Hne) as (A & B & -> & HA & HB).
  assert (stored z (A ++ w :: B)) as Hst'.
  { assert (forall u, u ∈ A ++ w :: B <-> u ∈ w :: A ++ B) as Hin by (intros u; rewrite !elem_of_cons, !elem_of_app, elem_of_cons; tauto).
    destruct Hst as [S1 S2 S3 S4]. split; [intros u Hu; by apply S1, Hin|intros u Hu; by apply S2, Hin|done|].
    assert (it_id <$> A ++ w :: B ≡ₚ it_id <$> w :: A ++ B) as Hp by (by rewrite <- Permutation_middle).
    by rewrite Hp. }
  destruct (zslInsertNode_spec z A w B Hst' Hok Hw (before_pos A w HA) (after_nonpos B w HB) Hlen) as (z' & -> & Hok' & Hh).
  exists z', A, B. split; [done|]. split; [done|]. split; [|done]. split; [done|by apply sorted_insert|].
  intros u Hu. rewrite elem_of_app, elem_of_cons in Hu. destruct Hu as [Hu|[-> |Hu]]; [|done|]; apply Hn, elem_of_app; tauto.
Qed.

(** *** New nodes *)

Lemma random_level_loop_spec draws level : existsb (fun r => 536870911 <=? r) draws = true ->
  exists l, random_level_loop draws level = Ret l /\ level <= l.
Proof.
  revert level. induction draws as [|r draws IH]; intros level; cbn [existsb random_level_loop]; [done|].
  destruct (Z.leb_spec 536870911 r), (Z.ltb_spec r 536870911); try lia; cbn [orb].
  - intros _. exists level. split; [done|lia].
  - intros Hd. destruct (IH (level + 1) Hd) as (l & -> & ?). exists l. split; [done|lia].
Qed.

Lemma zslRandomLevel_spec draws : existsb (fun r => 536870911 <=? r) draws = true ->
  exists h, zslRandomLevel draws = Ret h /\ 1 <= h <= ZSKIPLIST_MAXLEVEL.
Proof.
  intros Hd. unfold zslRandomLevel. destruct (random_level_loop_spec draws 1 Hd) as (l & -> & Hl). rewrite ret_bind.
  eexists. split; [done|]. destruct (Z.ltb_spec l ZSKIPLIST_MAXLEVEL); unfold ZSKIPLIST_MAXLEVEL in *; lia.
Qed.

Lemma zslCreateNode_spec junk z L h s e z' p : zsl_rep z L -> 1 <= h <= ZSKIPLIST_MAXLEVEL -> zslCreateNode junk z h s e = (z', p) ->
  zsl_rep z' L /\ stored z' ({| it_id := p; it_score := s; it_ele := e; it_h := h |} :: L) /\ zsl_header z' = zsl_header z.
Proof.
  intros [Hok Hs Hn] Hh. unfold zslCreateNode. intros [= <- Hp]. rewrite Hp.
  assert (zsl_nodes z !! p = None) as Hnone by (rewrite <- Hp; apply not_elem_of_dom, is_fresh).
  pose proof (zk_stored _ _ Hok) as [S1 S2 S3 S4]. destruct S3 as (nh & Hnh & Hnhl).
  assert (forall y, is_Some (zsl_nodes z !! y) -> y <> p) as Hne by (intros y [m Hm] ->; congruence).
  assert (forall u, u ∈ L -> it_id u <> p) as HneL by (intros u Hu; apply Hne; destruct (S1 u Hu) as (m & ? & _); by exists m).
  set (nn := Build_node _ _ _ _ _). assert (zsl_header z <> p) as Hneh by (apply Hne; by exists nh).
  assert (forall y, y <> p -> zsl_nodes (put_node z p nn) !! y = zsl_nodes z !! y) as Hy by (intros y Hy; cbn; by rewrite lookup_insert_ne).
  assert (stored (put_node z p nn) L) as HstL.
  { split; [intros u Hu; rewrite Hy by auto; by apply S1|done|exists nh; by rewrite Hy|done]. }
  split; [|split; [|done]].
  - split; [|done|done]. by apply (ok_other z _ _ p).
  - destruct HstL as [T1 T2 T3 T4]. split; [|intros u Hu; apply elem_of_cons in Hu as [-> |Hu]; [done|by apply T2]|done|].
    + intros u Hu. apply elem_of_cons in Hu as [-> |Hu]; [|by apply T1]. exists nn. cbn [it_id zsl_nodes put_node set_nodes].
      rewrite lookup_insert_eq. split; [done|]. split; [done|]. split; [done|]. split; [done|]. cbn [zn_level nn it_h].
      unfold Zlen. rewrite length_fmap, length_seqZ. lia.
    + rewrite fmap_cons. cbn [it_id]. assert (forall l : list ptr, zsl_header (put_node z p nn) :: p :: l ≡ₚ p :: zsl_header z :: l) as -> by (intros l; apply Permutation_swap).
      constructor; [|done]. intros Hin. apply elem_of_cons in Hin as [E|Hin]; [by apply Hneh|].
      apply list_elem_of_fmap in Hin as (u & E & Hu). by apply (HneL u Hu).
Qed.

(** *** Changing a score in place *)

Lemma link_same i A w w' B : it_id w' = it_id w -> it_h w' = it_h w -> link i (A ++ w' :: B) = link i (A ++ w :: B).
Proof. intros E1 E2. induction A as [|u A IH]; cbn [app]; rewrite !link_cons; [by rewrite E1, E2|by rewrite IH]. Qed.

Lemma seg_same z p A w w' B : it_id w' = it_id w -> seg z p (A ++ w' :: B) <-> seg z p (A ++ w :: B).
Proof. intros E. rewrite !seg_app. cbn [seg]. by rewrite E. Qed.

Lemma set_score_spec z A w B s : zsl_ok z (A ++ w :: B) ->
  let w' := {| it_id := it_id w; it_score := s; it_ele := it_ele w; it_h := it_h w |} in
  exists z', set_score z (it_id w) s = Ret z' /\ zsl_ok z' (A ++ w' :: B) /\ zsl_header z' = zsl_header z.
Proof.
  intros Hok w'. pose proof Hok as [[S1 S2 S3 S4] K2 K3 K4 K5 K6 K7 K8 K9 K10].
  destruct (S1 w) as (n & Hn & Hsc & He & Hlv & Hll); [apply elem_of_app; right; left|].
  unfold set_score, get_node. rewrite Hn, ret_bind. set (n' := Build_node _ _ _ _ _). eexists. split; [done|]. split; [|done].
  assert (forall y i, get_slot (put_node z (it_id w) n') y i = get_slot z y i) as Hsl.
  { intros y i. unfold get_slot, get_node. cbn. destruct (decide (y = it_id w)) as [-> |Hne]; [|by rewrite lookup_insert_ne].
    by rewrite lookup_insert_eq, Hn. }
  assert (forall u, u ∈ A ++ w' :: B -> u = w' \/ u ∈ A ++ B) as Hin by (intros u; rewrite !elem_of_app, elem_of_cons; tauto).
  assert (forall u, u ∈ A ++ B -> u ∈ A ++ w :: B) as Hsub by (intros u; rewrite !elem_of_app, elem_of_cons; tauto).
  assert (zsl_header z <> it_id w) as Hneh.
  { intros E. symmetry in E. revert E. apply (stored_not_header z (A ++ w :: B)); [apply Hok|]. apply elem_of_app. right. left. }
  split; cbn [zsl_level zsl_header zsl_tail zsl_length put_node set_nodes]; try done.
  - split; [| |destruct S3 as (nh & ? & ?); exists nh; cbn; by rewrite lookup_insert_ne|by rewrite fmap_app in *].
    + intros u Hu. cbn. destruct (Hin u Hu) as [-> |Hu'].
      * exists n'. cbn [it_id]. rewrite lookup_insert_eq. split; [done|]. by split.
      * rewrite lookup_insert_ne by (apply not_eq_sym, (mid_not_in (zsl_header z) A w B); done). by apply S1, Hsub.
    + intros u Hu. destruct (Hin u Hu) as [-> |Hu']; [|by apply S2, Hsub]. apply (S2 w), elem_of_app. right. left.
  - intros i Hi x h sfx Hat Hih. unfold slot_ok. setoid_rewrite Hsl. apply at_split in Hat as [(A2 & -> & Hat)|(B1 & u & E & -> & ->)].
    + rewrite (link_same i A2 w w' B) by done. apply (K2 i Hi x h); [|done]. apply at_split. left. by exists A2.
    + destruct B1 as [|b B1]; injection E as <- E.
      * subst sfx. apply (K2 i Hi (it_id w) (it_h w)); [by apply (at_item _ _ A)|done].
      * apply (K2 i Hi (it_id u) (it_h u)); [|done]. apply at_split. right. exists (w :: B1), u. by rewrite E.
  - intros i Hi. rewrite Hsl. by apply K3.
  - intros u Hu. destruct (Hin u Hu) as [-> |Hu']; [|by apply K5, Hsub]. apply (K5 w), elem_of_app. right. left.
  - destruct K6 as [?|(u & Hu & ?)]; [by left|right]. rewrite elem_of_app, elem_of_cons in Hu. destruct Hu as [Hu|[-> |Hu]].
    + exists u. split; [apply elem_of_app; by left|done].
    + exists w'. split; [apply elem_of_app; right; left|done].
    + exists u. split; [apply elem_of_app; right; by right|done].
  - rewrite K7, !Zlen_app, !Zlen_cons. done.
  - rewrite Zlen_app, Zlen_cons in *. done.
  - apply (seg_same _ _ A w w' B eq_refl). apply (seg_frame z); [|done]. intros u Hu. unfold back_of. cbn.
    destruct (decide (it_id u = it_id w)) as [-> |Hne]; [|by rewrite lookup_insert_ne]. by rewrite lookup_insert_eq, Hn.
  - rewrite K10, !endp_app. done.
Qed.

(** The neighbours the fast path looks at. *)
Lemma read_neighbours z A w B : zsl_ok z (A ++ w :: B) -> exists n, zsl_nodes z !! it_id w = Some n /\
  zn_backward n = endp None A /\ get_forward z (it_id w) 0 = Ret (match B with [] => None | v :: _ => Some (it_id v) end).
Proof.
  intros Hok. pose proof (zk_stored _ _ Hok) as Hst. pose proof (zk_level _ _ Hok).
  assert (1 <= it_h w) by (apply (st_heights _ _ Hst), elem_of_app; right; left).
  destruct (st_nodes _ _ Hst w) as (n & Hn & _); [apply elem_of_app; right; left|]. exists n. split; [done|]. split.
  - pose proof (back_mid _ _ _ _ _ (zk_back _ _ Hok)) as E. unfold back_of in E. rewrite Hn in E. by injection E.
  - destruct (zk_lvls _ _ Hok 0 ltac:(lia) (it_id w) (it_h w) B) as ([f sp] & Hs0 & Hf & _); [by apply (at_item _ _ A)|lia|]. cbn [fst] in Hf.
    rewrite (get_forward_slot _ _ _ _ _ Hs0), Hf. destruct B as [|v B]; [done|]. rewrite link_cons.
    destruct (Z.ltb_spec 0 (it_h v)) as [|Hv]; [done|]. assert (1 <= it_h v); [|lia].
    apply (st_heights _ _ Hst), elem_of_app. right. right. left.
Qed.

Lemma item_score z L u : zsl_ok z L -> u ∈ L -> exists n, get_node z (it_id u) = Ret n /\ zn_score n = it_score u.
Proof.
  intros Hok Hu. destruct (st_nodes _ _ (zk_stored _ _ Hok) u Hu) as (n & Hn & Hs & _). exists n. unfold get_node. by rewrite Hn.
Qed.

Lemma lt_score u v : score_lt (it_score u) (it_score v) = true -> item_lt u v.
Proof. intros H. unfold item_lt, cmp_item. rewrite H. lia. Qed.

Lemma zslUpdateScore_spec z A w B s : zsl_rep z (A ++ w :: B) -> score_nan s = false -> (forall u, u ∈ A ++ B -> it_ele u <> it_ele w) ->
  let w' := {| it_id := it_id w; it_score := s; it_ele := it_ele w; it_h := it_h w |} in
  exists z' A' B', zslUpdateScore z (it_id w) s = Ret z' /\ A ++ B = A' ++ B' /\ zsl_rep z' (A' ++ w' :: B') /\ zsl_header z' = zsl_header z.
Proof.
  intros Hrep Hnan Hne w'. pose proof (zr_ok _ _ Hrep) as Hok. pose proof (zk_stored _ _ Hok) as Hst.
  pose proof (zr_nan _ _ Hrep) as Hn. destruct (sorted_delete _ _ _ (zr_sorted _ _ Hrep)) as (Hs & HA & HB).
  destruct (read_neighbours z A w B Hok) as (n & Hnw & Hbk & Hfw).
  assert (get_node z (it_id w) = Ret n) as Hg by (unfold get_node; by rewrite Hnw).
  unfold zslUpdateScore. rewrite Hg, ret_bind, Hfw, ret_bind, Hbk.
  assert (forall u, u ∈ A ++ B -> item_nan u = false) as HnAB by (intros u Hu; apply Hn; rewrite elem_of_app, elem_of_cons; apply elem_of_app in Hu; tauto).
  assert (exists above, match endp None A with None => Ret true | Some b => nb ← get_node z b; Ret (score_lt (zn_score nb) s) end = Ret above /\
    (above = true -> forall u, u ∈ A -> item_lt u w')) as (above & -> & Habove).
  { destruct (list_end A) as [-> |(C & v & ->)]; [exists true; split; [done|]; intros _ u Hu; by apply not_elem_of_nil in Hu|].
    rewrite endp_app. cbn [endp]. destruct (item_score z _ v Hok) as (nv & -> & Hv); [apply elem_of_app; left; apply elem_of_app; right; left|].
    rewrite ret_bind. eexists. split; [done|]. rewrite Hv. intros Hlt u Hu.
    assert (item_lt v w') as Hvw by (by apply lt_score).
    apply elem_of_app in Hu as [Hu|Hu]; [|by apply list_elem_of_singleton in Hu as ->].
    apply (item_lt_trans u v w'); try done.
    - apply HnAB, elem_of_app. left. apply elem_of_app. by left.
    - apply HnAB, elem_of_app. left. apply elem_of_app. right. left.
    - rewrite <- app_assoc in Hs. apply (sorted_app _ C ([v] ++ B) eq_refl) in Hs as (_ & _ & H3). apply H3; [done|left]. }
  rewrite ret_bind.
  assert (exists below, (if above then match match B with [] => None | v :: _ => Some (it_id v) end with
    | None => Ret true | Some y => ny ← get_node z y; Ret (score_lt s (zn_score ny)) end else Ret false) = Ret below /\
    (below = true -> above = true /\ forall u, u ∈ B -> item_lt w' u)) as (below & -> & Hbelow).
  { destruct above; [|by exists false]. destruct B as [|v B]; [exists true; split; [done|]; intros _; split; [done|]; intros u Hu; by apply not_elem_of_nil in Hu|].
    destruct (item_score z _ v Hok) as (nv & -> & Hv); [apply elem_of_app; right; right; left|].
    rewrite ret_bind. eexists. split; [done|]. rewrite Hv. intros Hlt. split; [done|]. intros u Hu.
    assert (item_lt w' v) as Hvw by (by apply lt_score). apply elem_of_cons in Hu as [-> |Hu]; [done|].
    apply (item_lt_trans w' v u); try done.
    - apply HnAB, elem_of_app. right. left.
    - apply HnAB, elem_of_app. right. by right.
    - apply (sorted_app _ (A ++ [v]) B) in Hs as (_ & _ & H3); [|by rewrite <- app_assoc]. apply H3; [apply elem_of_app; right; left|done]. }
  rewrite ret_bind. destruct below.
  - destruct (Hbelow eq_refl) as [-> HBw]. destruct (set_score_spec z A w B s Hok) as (z' & -> & Hok' & Hh).
    exists z', A, B. split; [done|]. split; [done|]. split; [|done]. split; [done|apply sorted_insert; auto|].
    intros u Hu. rewrite elem_of_app, elem_of_cons in Hu. destruct Hu as [Hu|[-> |Hu]]; [|done|]; apply HnAB, elem_of_app; tauto.
  - clear Habove Hbelow. destruct (find_update_spec _ _ _ _ Hrep) as (update & -> & Hu). rewrite ret_bind.
    destruct (zslUnlinkNode_spec z A w B false update (zsl_level z) Hok Hu ltac:(lia)) as (z1 & -> & Hok1 & Hst1 & Hh1 & _).
    rewrite ret_bind. destruct (st_nodes _ _ Hst1 w) as (n1 & Hn1 & Hno); [apply elem_of_app; right; left|].
    unfold set_score, get_node. rewrite Hn1, ret_bind. set (n' := Build_node _ _ _ _ _). set (z2 := put_node z1 (it_id w) n').
    pose proof (st_uniq _ _ Hst1) as Hnd1.
    assert (it_id w <> zsl_header z1) as Hneh by (apply (stored_not_header z1 (A ++ w :: B)); [done|]; apply elem_of_app; right; left).
    assert (forall u, u ∈ A ++ B -> it_id u <> it_id w) as Hids by (intros u; by apply (mid_not_in (zsl_header z1))).
    assert (zsl_ok z2 (A ++ B)) as Hok2 by (apply (ok_other z1 z2 _ (it_id w)); try done; intros y Hy; cbn; by rewrite lookup_insert_ne).
    destruct (insert_at_place z2 (A ++ B) w') as (z' & A' & B' & Hi & HAB & Hrep' & Hh'); try done.
    + pose proof (zk_stored _ _ Hok2) as [T1 T2 T3 T4]. split; [|intros u Hu'; apply elem_of_cons in Hu' as [-> |Hu']; [|by apply T2]|done|].
      * intros u Hu'. apply elem_of_cons in Hu' as [-> |Hu']; [|by apply T1]. exists n'. cbn. rewrite lookup_insert_eq. split; [done|].
        destruct Hno as (H1 & H2 & H3 & H4). done.
      * apply (st_heights _ _ Hst w), elem_of_app. right. left.
      * assert (zsl_header z2 :: (it_id <$> w' :: A ++ B) ≡ₚ zsl_header z1 :: (it_id <$> A ++ w :: B)) as ->; [|done].
        constructor. rewrite fmap_app, !fmap_cons. rewrite fmap_app. by rewrite <- Permutation_middle.
    + pose proof (zk_small _ _ Hok) as Hsm. rewrite Zlen_app, Zlen_cons in Hsm. rewrite Zlen_app. lia.
    + exists z', A', B'. split; [exact Hi|]. split; [done|]. split; [done|]. rewrite Hh'. exact Hh1.
Qed.

Lemma zslInsert_spec junk z L draws s e : zsl_rep z L -> score_nan s = false -> (forall u, u ∈ L -> it_ele u <> e) ->
  Zlen L + 1 < 2 ^ 63 -> existsb (fun r => 536870911 <=? r) draws = true ->
  exists z' p h A B, zslInsert junk z draws s e = Ret (z', p) /\ L = A ++ B /\ 1 <= h <= ZSKIPLIST_MAXLEVEL /\
    zsl_rep z' (A ++ {| it_id := p; it_score := s; it_ele := e; it_h := h |} :: B) /\ zsl_header z' = zsl_header z.
Proof.
  intros Hrep Hnan Hne Hlen Hd. unfold zslInsert. rewrite Hnan. cbn [negb c_assert]. rewrite ret_bind.
  destruct (zslRandomLevel_spec draws Hd) as (h & -> & Hh). rewrite ret_bind.
  destruct (zslCreateNode junk z h s e) as [z1 p] eqn:Ec.
  destruct (zslCreateNode_spec junk z L h s e z1 p Hrep Hh Ec) as (Hrep1 & Hst1 & Hh1).
  destruct (insert_at_place z1 L _ Hst1 Hrep1) as (z' & A & B & Hi & HL & Hrep' & Hh'); [done|done|done|].
  cbn [it_id] in Hi. rewrite Hi, ret_bind. exists z', p, h, A, B. split; [done|]. split; [done|]. split; [done|]. split; [done|congruence].
Qed.
End operations.
