(* ===== verification/SkiplistSpec.v ===== *)
(** * SkiplistSpec: ranks and ranges of the skiplist, and its theorems

    The spans give every node's position; a range cuts the sorted list in three;
    the theorems state each operation of t_zset.c's skiplist on the list of
    items it represents. *)

From stdpp Require Import countable sets fin_maps gmap sorting.
From S2P Require Import Prelude Memory Skiplist SkiplistInv SkiplistOps.

Section operations.
Context {Sc : Type} `{!Score Sc, !ScoreLaws Sc}.
Abbreviation zskiplist := (zskiplist Sc).
Abbreviation item := (item (Sc := Sc)).
Implicit Types (z : zskiplist) (u v w : item) (L A B : list item) (s : Sc) (e : list Z).

(** *** Ranks *)

Lemma span_slot z x i sfx : 0 <= i -> slot_ok z x i sfx -> (forall u, u ∈ sfx -> 1 <= it_h u) -> zslGetNodeSpanAtLevel z x i = Ret (link i sfx).2.
Proof.
  intros Hi Hs Hh. destruct (link i sfx).1 as [y|] eqn:E; [apply span_read; [done|done|by rewrite E|done]|].
  destruct Hs as ([f sp] & Hs & Hf & Hsp). cbn [fst snd] in *. unfold zslGetNodeSpanAtLevel. destruct (Z.ltb_spec 0 i).
  - rewrite Hs, ret_bind. by rewrite Hsp.
  - assert (i = 0) as -> by lia. rewrite (get_forward_slot _ _ _ _ _ Hs), ret_bind, Hf, E.
    destruct sfx as [|u sfx]; [done|]. rewrite link_cons in E. specialize (Hh u ltac:(left)). destruct (Z.ltb_spec 0 (it_h u)); [done|lia].
Qed.

(** The search of [zslGetRank] and [zslGetElementByRank] at one level. *)
Lemma walk_from z A B off go i x h A' rank : zsl_ok z (A ++ B) -> 0 <= off -> go_ok z (A ++ B) B off true go -> 0 <= i < zsl_level z -> i < h ->
  at_node (zsl_header z) (A ++ B) x h (A' ++ B) -> rank_ok off true (A ++ B) rank (A' ++ B) ->
  exists x' h' A2 r, walk (zsl_fuel z) z go true i x rank = Ret (x', r) /\ at_node (zsl_header z) A x' h' A2 /\ i < h' /\
    r = Zlen A - Zlen A2 - off /\ 0 <= r /\ (i = 0 -> A2 = []) /\ has i A2 = false /\
    at_node (zsl_header z) (A ++ B) x' h' (A2 ++ B) /\ rank_ok off true (A ++ B) r (A2 ++ B).
Proof.
  intros Hok Hoff Hgo Hi Hih Hat Hr. pose proof (zk_stored _ _ Hok) as Hst.
  destruct (walk_spec z (A ++ B) B off true go i Hoff Hst (zk_lvls _ _ Hok i Hi) Hi (zk_small _ _ Hok) Hgo (zsl_fuel z) x h A' rank Hat Hih Hr)
    as (x' & r & -> & Hfd).
  { destruct (at_in _ _ _ _ _ Hat) as [C EC]. unfold zsl_fuel. rewrite (zk_length _ _ Hok), EC. unfold Zlen. rewrite !length_app. lia. }
  destruct (found_at_split z _ A B off true i x' r eq_refl Hfd) as (h' & A2 & Hat' & Hh' & Hno & Hr').
  assert (at_node (zsl_header z) (A ++ B) x' h' (A2 ++ B)) as HatL by (apply at_split; left; by exists A2).
  assert (0 <= r /\ rank_ok off true (A ++ B) r (A2 ++ B)) as [Hr0 Hr2].
  { destruct Hfd as (h2 & A3 & Hat3 & _ & _ & Hr3). destruct (at_unique _ _ _ _ _ _ _ (st_uniq _ _ Hst) Hat3 HatL) as [_ E].
    rewrite E in Hr3. split; [by apply Hr3|done]. }
  exists x', h', A2, r. split; [done|]. split; [done|]. split; [done|]. split; [by apply Hr'|]. split; [done|]. split; [|done].
  intros ->. apply (last_level0 (zsl_header z) A x' h'); [|done|done].
  intros u Hu. apply (st_heights _ _ Hst), elem_of_app. by left.
Qed.

Section rank_search.
Context z (A B : list item) s e (Hok : zsl_ok z (A ++ B)).
Context (HA : forall u, u ∈ A -> 0 <= cmp_item s e u) (HB : forall u, u ∈ B -> cmp_item s e u < 0).

Lemma rank_go_ok : go_ok z (A ++ B) B 0 true (fun x i _ => f ← get_forward z x i; c ← zslCompareWithNode z s e f; Ret (0 <=? c)).
Proof.
  apply (go_cmp_ok z A B 0 true s e (fun c => 0 <=? c)); [apply Hok|apply Hok|done| |].
  - intros u Hu. apply Z.leb_le. auto.
  - intros u Hu. apply Z.leb_gt. auto.
Qed.

(** One level: a node that is not the key is passed. *)
Lemma rank_step n x h A' rank : at_node (zsl_header z) (A ++ B) x h (A' ++ B) -> Z.of_nat n < h -> Z.of_nat n < zsl_level z ->
  rank_ok 0 true (A ++ B) rank (A' ++ B) ->
  exists x' h' A2 r, at_node (zsl_header z) A x' h' A2 /\ Z.of_nat n < h' /\ r = Zlen A - Zlen A2 /\ (n = 0%nat -> A2 = []) /\
    at_node (zsl_header z) (A ++ B) x' h' (A2 ++ B) /\ rank_ok 0 true (A ++ B) r (A2 ++ B) /\
    ((exists u, u ∈ A /\ x' = it_id u /\ cmp_item s e u = 0 /\ rank_loop (S n) z s e x rank = Ret r) \/
     (x' = zsl_header z \/ exists u, u ∈ A /\ x' = it_id u /\ cmp_item s e u <> 0) /\ rank_loop (S n) z s e x rank = rank_loop n z s e x' r).
Proof using All.
  intros Hat Hh Hlev Hr.
  destruct (walk_from z A B 0 _ (Z.of_nat n) x h A' rank Hok ltac:(lia) rank_go_ok ltac:(lia) Hh Hat Hr)
    as (x' & h' & A2 & r & E & Hat' & Hh' & Er & _ & H0 & _ & HatL & Hr').
  exists x', h', A2, r. split; [done|]. split; [done|]. split; [lia|]. split; [intros ->; by apply H0|]. split; [done|]. split; [done|].
  cbn [rank_loop]. rewrite E, ret_bind. destruct (Pos.eqb_spec x' (zsl_header z)) as [|Hx]; cbn [negb]; [right; split; [by left|done]|].
  destruct (at_inv _ _ _ _ _ Hat') as [(? & _)|(C & u & EA & Ex & _)]; [done|].
  assert (u ∈ A) as Hu by (rewrite EA; apply elem_of_app; right; left). subst x'.
  rewrite (compare_item z _ u s e (zk_stored _ _ Hok)) by (apply elem_of_app; by left). rewrite ret_bind.
  destruct (Z.eqb_spec (cmp_item s e u) 0); [left; by exists u|right; split; [right; by exists u|done]].
Qed.

(** No key of the list is equal. *)
Lemma rank_loop_none n : (forall u, u ∈ A -> cmp_item s e u <> 0) -> forall x h A' rank, at_node (zsl_header z) (A ++ B) x h (A' ++ B) ->
  Z.of_nat n <= h -> Z.of_nat n <= zsl_level z -> rank_ok 0 true (A ++ B) rank (A' ++ B) -> rank_loop n z s e x rank = Ret 0.
Proof using All.
  intros Hne. induction n as [|n IH]; intros x h A' rank Hat Hh Hlev Hr; [done|].
  destruct (rank_step n x h A' rank Hat ltac:(lia) ltac:(lia) Hr) as (x' & h' & A2 & r & _ & Hh' & _ & _ & HatL & Hr' & [(u & Hu & _ & E & _)|[_ ->]]).
  - by apply Hne in Hu.
  - by apply (IH x' h' A2); [|lia|lia|].
Qed.

(** The last of [A] is the key. *)
Lemma rank_loop_some A1 w n : A = A1 ++ [w] -> cmp_item s e w = 0 -> (forall u, u ∈ A1 -> cmp_item s e u <> 0) ->
  forall x h A' rank, at_node (zsl_header z) (A ++ B) x h (A' ++ B) -> Z.of_nat n < h -> Z.of_nat n < zsl_level z ->
  rank_ok 0 true (A ++ B) rank (A' ++ B) -> rank_loop (S n) z s e x rank = Ret (Zlen A).
Proof using All.
  intros EA Hw Hne. pose proof (st_uniq _ _ (zk_stored _ _ Hok)) as Hnd.
  assert (forall x h A2, at_node (zsl_header z) A x h A2 -> x = it_id w -> A2 = []) as Hlast.
  { intros x h A2 Hat ->. assert (at_node (zsl_header z) (A ++ B) (it_id w) h (A2 ++ B)) as H1 by (apply at_split; left; by exists A2).
    assert (at_node (zsl_header z) (A ++ B) (it_id w) (it_h w) B) as H2 by (apply (at_item _ _ A1); by rewrite EA, <- app_assoc).
    destruct (at_unique _ _ _ _ _ _ _ Hnd H1 H2) as [_ E]. by apply (app_inv_tail B A2 []) in E. }
  induction n as [|n IH]; intros x h A' rank Hat Hh Hlev Hr;
    (destruct (rank_step _ x h A' rank Hat Hh Hlev Hr) as (x' & h' & A2 & r & Hat' & Hh' & Er & H0 & HatL & Hr' & [(u & Hu & Ex & E & ->)|[Hx ->]])).
  1,3: (rewrite EA in Hu; apply elem_of_app in Hu as [Hu|Hu%list_elem_of_singleton]; [by apply Hne in Hu|]; subst u;
    rewrite (Hlast _ _ _ Hat' Ex) in Er; change (Zlen []) with 0 in Er; f_equal; lia).
  - exfalso. specialize (H0 eq_refl) as ->. destruct (at_inv _ _ _ _ _ Hat') as [(_ & _ & E)|(C & u & E & Ex & _)].
    + rewrite EA in E. by destruct A1.
    + rewrite EA in E. apply app_inj_2 in E as [_ [= <-]]; [|done]. destruct Hx as [-> |(u & Hu & E & Hne')].
      * apply (stored_not_header z (A ++ B) w (zk_stored _ _ Hok)); [apply elem_of_app; left; rewrite EA; apply elem_of_app; right; left|done].
      * rewrite EA in Hu. apply elem_of_app in Hu as [Hu|Hu%list_elem_of_singleton]; [|by subst u].
        apply list_elem_of_split in Hu as (l1 & l2 & ->).
        assert (at_node (zsl_header z) A (it_id u) (it_h u) (l2 ++ [w])) as H1 by (apply (at_item _ _ l1); by rewrite EA, <- app_assoc).
        apply Hlast in H1; [by destruct l2|congruence].
  - by apply (IH x' h' A2); [|lia|lia|].
Qed.
End rank_search.


Lemma zslGetRank_found z A w B : zsl_rep z (A ++ w :: B) -> zslGetRank z (it_score w) (it_ele w) = Ret (Zlen A + 1).
Proof.
  intros [Hok Hs Hn]. destruct (sorted_delete _ _ _ Hs) as (_ & HA & HB). pose proof (zk_level _ _ Hok) as Hlev.
  assert (A ++ w :: B = (A ++ [w]) ++ B) as E by (by rewrite <- app_assoc). rewrite E in Hok.
  unfold zslGetRank. destruct (Z.to_nat (zsl_level z)) as [|n] eqn:En; [lia|].
  rewrite (rank_loop_some z (A ++ [w]) B (it_score w) (it_ele w) Hok) with (A1 := A) (w := w) (h := ZSKIPLIST_MAXLEVEL) (A' := A ++ [w]).
  - f_equal. rewrite Zlen_app. done.
  - intros u Hu. apply elem_of_app in Hu as [Hu|Hu%list_elem_of_singleton]; [pose proof (before_pos A w HA u Hu); lia|]. subst u. by rewrite cmp_refl.
  - apply HB.
  - done.
  - by apply cmp_refl.
  - intros u Hu. pose proof (before_pos A w HA u Hu). lia.
  - constructor.
  - lia.
  - lia.
  - intros _. lia.
Qed.

Lemma zslGetRank_none z L s e : zsl_rep z L -> score_nan s = false -> (forall u, u ∈ L -> it_ele u <> e) -> zslGetRank z s e = Ret 0.
Proof.
  intros [Hok Hs Hn] Hnan Hne. pose proof (zk_level _ _ Hok) as Hlev.
  destruct (sorted_split L {| it_id := 1%positive; it_score := s; it_ele := e; it_h := 0 |} Hs Hn Hnan Hne) as (A & B & -> & HA & HB).
  apply (rank_loop_none z A B s e Hok) with (h := ZSKIPLIST_MAXLEVEL) (A' := A); [| | |constructor|lia|lia|intros _; lia].
  - intros u Hu. pose proof (before_pos A _ HA u Hu) as H. cbn [it_score it_ele] in H. lia.
  - intros u Hu. specialize (HB u Hu). exact HB.
  - intros u Hu. pose proof (before_pos A _ HA u Hu) as H. cbn [it_score it_ele] in H. lia.
Qed.

(** The sum of the spans of the highest levels from a node is what follows it. *)
Lemma distance_loop_spec z L fuel : zsl_ok z L -> forall u sfx d, (exists A, L = A ++ u :: sfx) -> 0 <= d -> d + Zlen sfx <= Zlen L ->
  (length sfx < fuel)%nat -> distance_loop fuel z (Some (it_id u)) d = Ret (d + Zlen sfx).
Proof.
  intros Hok. pose proof (zk_stored _ _ Hok) as Hst. pose proof (zk_small _ _ Hok) as Hsm.
  induction fuel as [|fuel IH]; intros u sfx d [A EL] Hd Hdl Hf; [lia|]. cbn [distance_loop].
  assert (u ∈ L) as Hu by (rewrite EL; apply elem_of_app; right; left).
  destruct (st_nodes _ _ Hst u Hu) as (n & Hn & _ & _ & Hlv & _). pose proof (st_heights _ _ Hst u Hu) as Hh. pose proof (zk_heights _ _ Hok u Hu) as Hh2.
  assert (get_node z (it_id u) = Ret n) as -> by (unfold get_node; by rewrite Hn). rewrite ret_bind, Hlv.
  assert (at_node (zsl_header z) L (it_id u) (it_h u) sfx) as Hat by (by apply (at_item _ _ A)).
  pose proof (zk_lvls _ _ Hok (it_h u - 1) ltac:(lia) _ _ _ Hat ltac:(lia)) as Hslot.
  rewrite (span_slot z (it_id u) (it_h u - 1) sfx ltac:(lia) Hslot).
  2:{ apply (stored_h z L (A ++ [u])); [done|]. by rewrite EL, <- app_assoc. }
  rewrite ret_bind. destruct Hslot as ([f sp] & Hsl & Hfw & _). rewrite (get_forward_slot _ _ _ _ _ Hsl), ret_bind. cbn [fst] in Hfw. subst f.
  pose proof (Zlen_nonneg sfx) as H0. destruct (has (it_h u - 1) sfx) eqn:E.
  - destruct (link_has _ _ E) as (A1 & v & A2 & Es & _ & _ & ->). cbn [fst snd]. rewrite Es, Zlen_app, Zlen_cons in *.
    pose proof (Zlen_nonneg A1). pose proof (Zlen_nonneg A2). rewrite wrapu_id by lia.
    rewrite (IH v A2); [f_equal; lia| |lia|lia|].
    + exists (A ++ u :: A1). by rewrite <- app_assoc.
    + rewrite length_app in Hf. cbn in Hf. lia.
  - rewrite link_none by done. cbn [fst snd]. rewrite wrapu_id by lia. destruct fuel; reflexivity.
Qed.

Lemma zslGetRankByNode_spec z A w B : zsl_ok z (A ++ w :: B) -> zslGetRankByNode z (it_id w) = Ret (Zlen A + 1).
Proof.
  intros Hok. pose proof (zk_small _ _ Hok) as Hsm. unfold zslGetRankByNode.
  rewrite (distance_loop_spec z (A ++ w :: B) _ Hok w B 0); [|by exists A|lia| |].
  - rewrite ret_bind, (zk_length _ _ Hok). rewrite Zlen_app, Zlen_cons in *. pose proof (Zlen_nonneg A). pose proof (Zlen_nonneg B).
    rewrite wrapu_id by lia. f_equal. lia.
  - rewrite Zlen_app, Zlen_cons. pose proof (Zlen_nonneg A). lia.
  - unfold zsl_fuel. rewrite (zk_length _ _ Hok). unfold Zlen. rewrite length_app. cbn. lia.
Qed.

(** *** The element at a rank *)

Section by_rank.
Context z (A B : list item) (off rank : Z) (Hok : zsl_ok z (A ++ B)) (Hoff : 0 <= off).

(** The search of a rank stops after [A]. *)
Lemma go_rank_ok (strict : bool) : (forall n, 0 <= n <= Zlen (A ++ B) - off -> (if strict then n <? rank else n <=? rank) = (n <=? Zlen A - off)) ->
  go_ok z (A ++ B) B off true (go_rank z strict rank).
Proof using All.
  intros Ht x h A' i trav Hat Hi Hlev Hr. destruct (Hr eq_refl) as [H0 Er]. unfold go_rank. pose proof (zk_small _ _ Hok) as Hsm. rewrite Zlen_app in Ht.
  pose proof (zk_lvls _ _ Hok i ltac:(lia) x h _ Hat ltac:(lia)) as Hslot.
  destruct (at_in _ _ _ _ _ Hat) as [C EC]. pose proof (stored_h _ _ _ _ (zk_stored _ _ Hok) EC) as Hhs.
  rewrite (span_slot z x i _ ltac:(lia) Hslot Hhs). destruct Hslot as ([f sp] & Hsl & Hfw & _). rewrite (get_forward_slot _ _ _ _ _ Hsl), ret_bind.
  cbn [fst] in Hfw. subst f. rewrite app_assoc in EC. apply app_inv_tail in EC. rewrite !Zlen_app in Er.
  assert (Zlen A = Zlen C + Zlen A') as EA by (by rewrite EC, Zlen_app). rewrite Zlen_app in Hsm.
  pose proof (Zlen_nonneg A'). pose proof (Zlen_nonneg B). pose proof (Zlen_nonneg C). destruct (has i A') eqn:E.
  - rewrite link_app_has by done. destruct (link_has i A' E) as (A1 & u & A2 & EA' & _ & _ & ->). cbn [fst snd]. rewrite ret_bind. f_equal.
    rewrite EA', Zlen_app, Zlen_cons in *. pose proof (Zlen_nonneg A1). pose proof (Zlen_nonneg A2).
    rewrite wrapu_id, Ht by lia. apply Z.leb_le. lia.
  - rewrite link_app_not by done. cbn [fst snd]. destruct (has i B) eqn:EB; [|by rewrite link_none].
    destruct (link_has i B EB) as (B1 & u & B2 & EB' & _ & _ & ->). cbn [fst snd]. rewrite ret_bind. f_equal.
    rewrite EB', Zlen_app, Zlen_cons in *. pose proof (Zlen_nonneg B1). pose proof (Zlen_nonneg B2).
    rewrite wrapu_id, Ht by lia. apply Z.leb_gt. lia.
Qed.

Lemma by_rank_some A1 w n : A = A1 ++ [w] -> rank = Zlen A - off -> forall x h A' trav, at_node (zsl_header z) (A ++ B) x h (A' ++ B) ->
  Z.of_nat n < h -> Z.of_nat n < zsl_level z -> rank_ok off true (A ++ B) trav (A' ++ B) -> by_rank_loop (S n) z rank x trav = Ret (Some (it_id w)).
Proof using All.
  intros EA Er. assert (go_ok z (A ++ B) B off true (go_rank z false rank)) as Hgo by (apply go_rank_ok; intros m _; by rewrite Er).
  induction n as [|n IH]; intros x h A' trav Hat Hh Hlev Hr.
  all: edestruct (walk_from z A B off) as (x' & h' & A2 & r & E & Hat' & Hh' & Er' & _ & H0 & _ & HatL & Hr');
    [exact Hok|exact Hoff|exact Hgo|split; [apply Zle_0_nat|exact Hlev]|exact Hh|exact Hat|exact Hr|].
  all: assert (A2 = [] -> x' = it_id w) as Hlast by
    (intros ->; destruct (at_inv _ _ _ _ _ Hat') as [(_ & _ & E')|(C & u & E' & -> & _)]; rewrite EA in E'; [by destruct A1|];
     apply app_inj_2 in E' as [_ [= <-]]; done).
  all: remember (S n) as m eqn:Em || idtac; cbn [by_rank_loop]; rewrite E, ret_bind; cbv beta iota.
  - rewrite (H0 eq_refl) in *. change (Zlen []) with 0 in Er'. destruct (Z.eqb_spec r rank); [by rewrite Hlast|lia].
  - destruct (Z.eqb_spec r rank) as [Ek|].
    + rewrite Hlast; [done|]. destruct A2 as [|v A2]; [done|]. rewrite Zlen_cons in Er'. pose proof (Zlen_nonneg A2). lia.
    + subst m. by apply (IH x' h' A2); [|lia|lia|].
Qed.
End by_rank.

(** Beyond the end. *)
Lemma by_rank_none z L off rank n : zsl_ok z L -> 0 <= off -> Zlen L - off < rank -> forall x h A' trav, at_node (zsl_header z) L x h A' ->
  Z.of_nat n <= h -> Z.of_nat n <= zsl_level z -> rank_ok off true L trav A' -> by_rank_loop n z rank x trav = Ret None.
Proof.
  intros Hok Hoff Hrk. rewrite <- (app_nil_r L) in Hok.
  assert (go_ok z (L ++ []) [] off true (go_rank z false rank)) as Hgo.
  { apply go_rank_ok; [done|done|]. intros m. rewrite app_nil_r. intros Hm. destruct (Z.leb_spec m rank), (Z.leb_spec m (Zlen L - off)); lia. }
  induction n as [|n IH]; intros x h A' trav Hat Hh Hlev Hr; [done|]. cbn [by_rank_loop].
  destruct (walk_from z L [] off _ (Z.of_nat n) x h A' trav Hok Hoff Hgo ltac:(lia) ltac:(lia)) as (x' & h' & A2 & r & -> & _ & Hh' & Er & _ & _ & _ & HatL & Hr').
  - by rewrite !app_nil_r.
  - by rewrite !app_nil_r.
  - rewrite !app_nil_r in *. rewrite ret_bind. pose proof (Zlen_nonneg A2). destruct (Z.eqb_spec r rank); [lia|]. by apply (IH x' h' A2); [|lia|lia|].
Qed.

Lemma zslGetElementByRank_some z A w B : zsl_ok z (A ++ w :: B) -> zslGetElementByRank z (Zlen A + 1) = Ret (Some (it_id w)).
Proof.
  intros Hok. pose proof (zk_level _ _ Hok) as Hlev. assert (A ++ w :: B = (A ++ [w]) ++ B) as E by (by rewrite <- app_assoc). rewrite E in Hok.
  unfold zslGetElementByRank, zslGetElementByRankFromNode. destruct (Z.to_nat (zsl_level z - 1 + 1)) as [|n] eqn:En; [lia|].
  apply (by_rank_some z (A ++ [w]) B 0) with (A1 := A) (h := ZSKIPLIST_MAXLEVEL) (A' := A ++ [w]); try done; try lia.
  - rewrite Zlen_app. change (Zlen [w]) with 1. lia.
  - constructor.
  - intros _. lia.
Qed.

Lemma zslGetElementByRank_none z L rank : zsl_ok z L -> Zlen L < rank -> zslGetElementByRank z rank = Ret None.
Proof.
  intros Hok Hr. pose proof (zk_level _ _ Hok) as Hlev.
  apply (by_rank_none z L 0 rank _ Hok) with (h := ZSKIPLIST_MAXLEVEL) (A' := L); [lia|lia|constructor|lia|lia|intros _; lia].
Qed.


(** *** Ranges *)

(** A test on nodes read on items. *)
Definition tests (p : zskiplistNode Sc -> outcome bool) (P : item -> bool) : Prop := forall n u, node_of n u -> p n = Ret (P u).

Lemma go_while_ok z A B off count p P : zsl_ok z (A ++ B) -> tests p P -> (forall u, u ∈ A -> P u = true) -> (forall u, u ∈ B -> P u = false) ->
  go_ok z (A ++ B) B off count (go_while z p).
Proof.
  intros Hok Hp HA HB x h A' i rank Hat Hi Hlev _. unfold go_while. pose proof (zk_stored _ _ Hok) as Hst.
  pose proof (forward_cases z _ A' B x h i (zk_lvls _ _ Hok i ltac:(lia)) Hat ltac:(lia)) as Hf. pose proof (at_front_sub _ _ _ _ _ _ Hat) as Hsub.
  assert (forall u, u ∈ A ++ B -> (n ← get_node z (it_id u); p n) = Ret (P u)) as Hrd.
  { intros u Hu. destruct (st_nodes _ _ Hst u Hu) as (n & Hn & Ho). unfold get_node. by rewrite Hn, ret_bind, (Hp n u). }
  destruct (has i A').
  - destruct Hf as (u & Hu & ->). rewrite ret_bind, Hrd by (apply elem_of_app; left; auto). f_equal. auto.
  - destruct Hf as [-> |(u & Hu & ->)]; rewrite ret_bind; [done|]. rewrite Hrd by (apply elem_of_app; by right). f_equal. auto.
Qed.

Definition head_id L : option ptr := match L with [] => None | v :: _ => Some (it_id v) end.

(** The pointer after the first part of the list, at level 0. *)
Lemma forward0 z A B x h A2 : zsl_ok z (A ++ B) -> at_node (zsl_header z) A x h A2 -> A2 = [] -> 0 < h -> get_forward z x 0 = Ret (head_id B).
Proof.
  intros Hok Hat -> Hh. pose proof (zk_level _ _ Hok).
  destruct (zk_lvls _ _ Hok 0 ltac:(lia) x h B) as ([f sp] & Hs & Hf & _); [apply at_split; left; by exists []|done|].
  rewrite (get_forward_slot _ _ _ _ _ Hs). cbn [fst] in Hf. subst f. destruct B as [|v B]; [done|]. rewrite link_cons.
  assert (1 <= it_h v) by (apply (st_heights _ _ (zk_stored _ _ Hok)), elem_of_app; right; left). by destruct (Z.ltb_spec 0 (it_h v)); [|lia].
Qed.

Lemma upd0 z A B count update lev : zsl_ok z (A ++ B) -> upd_ok count (zsl_header z) A update lev -> 1 <= lev ->
  exists (u0 : ptr) r, rd update 0 = Ret (u0, r) /\ get_forward z u0 0 = Ret (head_id B) /\ (count = true -> r = Zlen A).
Proof.
  intros Hok [_ Hu] Hlev. destruct (Hu 0 ltac:(lia)) as (u0 & hu & A2 & r & Hrd & Hat & Hh & Hno & Hr). exists u0, r. split; [done|].
  assert (A2 = []) as ->.
  { apply (last_level0 (zsl_header z) A u0 hu); [|done|done]. intros u Hu'. apply (st_heights _ _ (zk_stored _ _ Hok)), elem_of_app. by left. }
  split; [by apply (forward0 z A B u0 hu [])|]. intros Hc. rewrite (Hr Hc). change (Zlen []) with 0. lia.
Qed.

Section deletes.
Context {D : Type} (dictDelete : D -> list Z -> outcome D).

(** The dictionary after the deletion of keys in turn. *)
Fixpoint delete_keys (d : D) (es : list (list Z)) : outcome D :=
  match es with [] => Ret d | e :: es => d ← dictDelete d e; delete_keys d es end.

Lemma delete_loop_spec A B count update lev test M : forall z trav removed fuel, zsl_ok z (A ++ M ++ B) ->
  upd_ok count (zsl_header z) A update lev -> zsl_level z <= lev -> (length M <= fuel)%nat ->
  0 <= trav -> trav + Zlen M < 2 ^ 64 -> 0 <= removed -> removed + Zlen M < 2 ^ 64 ->
  (forall k u n, M !! k = Some u -> node_of n u -> test n (trav + Z.of_nat k) = Ret true) ->
  (forall u n, head B = Some u -> node_of n u -> test n (trav + Zlen M) = Ret false) ->
  exists z', (forall dict, delete_loop dictDelete fuel z dict update test (head_id (M ++ B)) trav removed =
    (d ← delete_keys dict (it_ele <$> M); Ret (z', d, removed + Zlen M))) /\ zsl_ok z' (A ++ B) /\ zsl_header z' = zsl_header z.
Proof.
  induction M as [|w M IH]; intros z trav removed fuel Hok Hu Hlev Hf Ht Ht2 Hr Hr2 HM HB.
  - exists z. cbn [app fmap list_fmap delete_keys]. change (Zlen []) with 0 in *. rewrite Z.add_0_r in *.
    split; [|by split]. intros dict. rewrite ret_bind. destruct B as [|u B]; cbn [head_id]; [by destruct fuel|].
    destruct (st_nodes _ _ (zk_stored _ _ Hok) u) as (n & Hn & Ho); [apply elem_of_app; right; left|].
    assert (get_node z (it_id u) = Ret n) as Hg by (unfold get_node; by rewrite Hn).
    destruct fuel; cbn [delete_loop]; by rewrite Hg, ret_bind, (HB u n eq_refl Ho), ret_bind.
  - destruct fuel as [|fuel]; [cbn in Hf; lia|]. rewrite <- app_comm_cons in *. cbn [head_id delete_loop].
    destruct (st_nodes _ _ (zk_stored _ _ Hok) w) as (n & Hn & Ho); [apply elem_of_app; right; left|].
    assert (get_node z (it_id w) = Ret n) as Eg by (unfold get_node; by rewrite Hn).
    pose proof (HM 0%nat w n eq_refl Ho) as Hw. rewrite Z.add_0_r in Hw.
    destruct (read_neighbours z A w (M ++ B) Hok) as (_ & _ & _ & Ef).
    destruct (zslUnlinkNode_spec z A w (M ++ B) count update lev Hok Hu Hlev) as (z1 & Ez1 & Hok1 & Hst1 & Hh1 & Hl1).
    destruct (st_nodes _ _ Hst1 w) as (n1 & Hn1 & _ & He1 & _); [apply elem_of_app; right; left|].
    assert (get_node z1 (it_id w) = Ret n1) as Eg1 by (unfold get_node; by rewrite Hn1).
    assert (zslGetNodeElement n1 = Ret (it_ele w)) as Ee by (unfold zslGetNodeElement; by rewrite He1).
    set (z2 := zslFreeNode z1 (it_id w)). pose proof (st_uniq _ _ Hst1) as Hnd.
    assert (zsl_ok z2 (A ++ M ++ B)) as Hok2.
    { apply (ok_other z1 z2 _ (it_id w)); try done; [intros y Hy; cbn; by rewrite lookup_delete_ne| |].
      - apply (stored_not_header z1 (A ++ w :: M ++ B)); [done|]. apply elem_of_app. right. left.
      - intros u Hu'. by apply (mid_not_in (zsl_header z1) A w (M ++ B)). }
    rewrite fmap_cons. cbn [delete_keys]. rewrite Zlen_cons in *. pose proof (Zlen_nonneg M).
    assert (zsl_header z2 = zsl_header z) as Hh2 by exact Hh1.
    destruct (IH z2 (trav + 1) (removed + 1) fuel) as (z' & Hd & Hok' & Hh'); try done; try lia.
    + by rewrite Hh2.
    + cbn. lia.
    + cbn in Hf. lia.
    + intros k u m Hk Hm. replace (trav + 1 + Z.of_nat k) with (trav + Z.of_nat (S k)) by lia. by apply (HM (S k) u).
    + intros u m Hk Hm. replace (trav + 1 + Zlen M) with (trav + (1 + Zlen M)) by lia. by apply (HB u).
    + exists z'. split; [|split; [done|by rewrite Hh']]. intros dict.
      rewrite Eg, ret_bind, Hw, ret_bind, Ef, ret_bind, Ez1, ret_bind, Eg1, ret_bind, Ee, ret_bind, !wrapu_id by lia.
      change (match M ++ B with [] => None | v :: _ => Some (it_id v) end) with (head_id (M ++ B)).
      destruct (dictDelete dict (it_ele w)) as [d| | |]; cbn [mbind outcome_bind]; [|done..]. rewrite Hd.
      destruct (delete_keys d (it_ele <$> M)); cbn [mbind outcome_bind]; [|done..]. do 2 f_equal. lia.
Qed.
End deletes.


(** A sorted list is cut by a test that holds on an initial part. *)
Lemma prefix_split L (P : item -> bool) : StronglySorted item_lt L ->
  (forall u v, u ∈ L -> v ∈ L -> item_lt u v -> P v = true -> P u = true) ->
  exists A B, L = A ++ B /\ (forall u, u ∈ A -> P u = true) /\ (forall u, u ∈ B -> P u = false).
Proof.
  intros Hs HP. induction Hs as [|u L Hs IH Hu]; [exists [], []; split; [done|]; split; intros u Hu; by apply not_elem_of_nil in Hu|].
  destruct (P u) eqn:E.
  - destruct IH as (A & B & -> & HA & HB); [intros v w Hv Hw; apply HP; by right|]. exists (u :: A), B. split; [done|]. split; [|done].
    intros v Hv. apply elem_of_cons in Hv as [-> |Hv]; auto.
  - exists [], (u :: L). split; [done|]. split; [intros v Hv; by apply not_elem_of_nil in Hv|]. intros v Hv.
    apply elem_of_cons in Hv as [-> |Hv]; [done|]. destruct (P v) eqn:Ev; [|done]. rewrite <- E. symmetry.
    apply (HP u v); [left|by right|by apply (proj1 (Forall_elem _ _) Hu)|done].
Qed.

(** The tests of the ends of a range. *)
Record range_tests L (gte lte : item -> bool) : Prop := {
  rt_up : forall u v, u ∈ L -> v ∈ L -> item_lt u v -> gte u = true -> gte v = true;
  rt_down : forall u v, u ∈ L -> v ∈ L -> item_lt u v -> lte v = true -> lte u = true;
}.

Definition in_range (gte lte : item -> bool) u : bool := gte u && lte u.

Lemma range_split L gte lte : StronglySorted item_lt L -> range_tests L gte lte -> exists A M B, L = A ++ M ++ B /\
  (forall u, u ∈ A -> gte u = false) /\ (forall u, u ∈ M -> gte u = true /\ lte u = true) /\ (forall u, u ∈ B -> gte u = true /\ lte u = false).
Proof.
  intros Hs [Hup Hdown]. destruct (prefix_split L (fun u => negb (gte u)) Hs) as (A & R & EL & HA & HR).
  { intros u v Hu Hv Hlt Hg. destruct (gte u) eqn:E; [|done]. by rewrite (Hup u v Hu Hv Hlt E) in Hg. }
  pose proof Hs as Hs'. apply (sorted_app L A R EL) in Hs' as (_ & HsR & _).
  destruct (prefix_split R lte HsR) as (M & B & -> & HM & HB).
  { intros u v Hu Hv. apply Hdown; rewrite EL; apply elem_of_app; by right. }
  exists A, M, B. split; [done|]. split; [intros u Hu; apply negb_true_iff; auto|].
  assert (forall u, u ∈ M ++ B -> gte u = true) as Hg by (intros u Hu; apply negb_false_iff; auto).
  split; intros u Hu; (split; [apply Hg, elem_of_app; tauto|auto]).
Qed.

Lemma filter_id {T} (P : T -> bool) l : (forall x, x ∈ l -> P x = true) -> List.filter P l = l.
Proof. induction l as [|x l IH]; intros H; cbn; [done|]. rewrite (H x) by left. f_equal. apply IH. intros y Hy. apply H. by right. Qed.

Lemma filter_none {T} (P : T -> bool) l : (forall x, x ∈ l -> P x = false) -> List.filter P l = [].
Proof. induction l as [|x l IH]; intros H; cbn; [done|]. rewrite (H x) by left. apply IH. intros y Hy. apply H. by right. Qed.

Lemma range_filters L gte lte A M B : L = A ++ M ++ B -> (forall u, u ∈ A -> gte u = false) ->
  (forall u, u ∈ M -> gte u = true /\ lte u = true) -> (forall u, u ∈ B -> gte u = true /\ lte u = false) ->
  List.filter (in_range gte lte) L = M /\ List.filter (fun u => negb (in_range gte lte u)) L = A ++ B.
Proof.
  intros -> HA HM HB. unfold in_range. rewrite !List.filter_app.
  rewrite (filter_none _ A), (filter_id _ M), (filter_none _ B), (filter_id _ A), (filter_none _ M), (filter_id _ B); try done.
  - by rewrite app_nil_r.
  - intros u Hu. by destruct (HB u Hu) as [-> ->].
  - intros u Hu. by destruct (HM u Hu) as [-> ->].
  - intros u Hu. by rewrite (HA u Hu).
  - intros u Hu. by destruct (HB u Hu) as [-> ->].
  - intros u Hu. by destruct (HM u Hu) as [-> ->].
  - intros u Hu. by rewrite (HA u Hu).
Qed.

Lemma filter_rep z z' L A M B : zsl_rep z L -> L = A ++ M ++ B -> zsl_ok z' (A ++ B) -> zsl_rep z' (A ++ B).
Proof.
  intros [Hok Hs Hn] -> Hok'. split; [done| |].
  - apply (sorted_app _ A (M ++ B) eq_refl) in Hs as (H1 & H2 & H3). apply (sorted_app _ M B eq_refl) in H2 as (_ & H2 & _).
    apply (sorted_app _ A B eq_refl). split; [done|]. split; [done|]. intros u v Hu Hv. apply H3; [done|apply elem_of_app; by right].
  - intros u Hu. apply Hn. rewrite !elem_of_app in *. tauto.
Qed.

(** *** Score ranges *)

Definition score_gte (range : zrangespec Sc) u : bool := zslValueGteMin (it_score u) range.
Definition score_lte (range : zrangespec Sc) u : bool := zslValueLteMax (it_score u) range.

(** [zslParseRange] rejects NaN. *)
Definition range_num (range : zrangespec Sc) : Prop := score_nan (rs_min range) = false /\ score_nan (rs_max range) = false.

Lemma item_lt_score u v : item_lt u v -> score_lt (it_score v) (it_score u) = false.
Proof.
  unfold item_lt, cmp_item. destruct (score_lt (it_score u) (it_score v)) eqn:E; [intros _; by apply score_lt_asym|].
  destruct (score_lt (it_score v) (it_score u)); [lia|done].
Qed.

Lemma score_range_tests L range : (forall u, u ∈ L -> item_nan u = false) -> range_num range ->
  range_tests L (score_gte range) (score_lte range).
Proof.
  intros Hn [Hmin Hmax]. unfold score_gte, score_lte, zslValueGteMin, zslValueLteMax.
  split; intros u v Hu Hv Hlt; apply item_lt_score in Hlt; pose proof (Hn u Hu) as Hnu; pose proof (Hn v Hv) as Hnv; unfold item_nan in *.
  - destruct (rs_minex range).
    + intros H. destruct (score_lt_cotrans _ (it_score v) _ Hnv H) as [?|?]; [done|congruence].
    + rewrite !score_le_lt by done. intros H%negb_true_iff. apply negb_true_iff. destruct (score_lt (it_score v) (rs_min range)) eqn:E; [|done].
      destruct (score_lt_cotrans _ (it_score u) _ Hnu E); congruence.
  - destruct (rs_maxex range).
    + intros H. destruct (score_lt_cotrans _ (it_score u) _ Hnu H) as [?|?]; [congruence|done].
    + rewrite !score_le_lt by done. intros H%negb_true_iff. apply negb_true_iff. destruct (score_lt (rs_max range) (it_score u)) eqn:E; [|done].
      destruct (score_lt_cotrans _ (it_score v) _ Hnv E); congruence.
Qed.

Lemma tests_gte range : tests (node_gte range) (score_gte range).
Proof. intros n u (H & _). unfold node_gte, score_gte. by rewrite H. Qed.
Lemma tests_lte range : tests (node_lte range) (score_lte range).
Proof. intros n u (H & _). unfold node_lte, score_lte. by rewrite H. Qed.

(** *** Lexicographic ranges, of lists of equal scores *)

Definition lex_gte (range : zlexrangespec) u : bool := zslLexValueGteMin (it_ele u) range.
Definition lex_lte (range : zlexrangespec) u : bool := zslLexValueLteMax (it_ele u) range.
Definition same_scores L : Prop := forall u v, u ∈ L -> v ∈ L -> score_lt (it_score u) (it_score v) = false.

Lemma tests_lex_gte range : tests (node_lex_gte range) (lex_gte range).
Proof. intros n u (_ & H & _). unfold node_lex_gte, lex_gte, zslGetNodeElement. by rewrite H. Qed.
Lemma tests_lex_lte range : tests (node_lex_lte range) (lex_lte range).
Proof. intros n u (_ & H & _). unfold node_lex_lte, lex_lte, zslGetNodeElement. by rewrite H. Qed.

Lemma sdscmp_le_lt (s t r : list Z) : sdscmp s t < 0 -> sdscmp t r <= 0 -> sdscmp s r < 0.
Proof.
  intros H1 H2. destruct (Z.eq_dec (sdscmp t r) 0) as [E|]; [apply sdscmp_eq in E as <-; done|]. apply (sdscmp_trans _ t); [done|lia].
Qed.

Lemma sdscmp_lt_ge (s t r : list Z) : sdscmp s t < 0 -> 0 <= sdscmp s r -> 0 < sdscmp t r.
Proof.
  intros H1 H2. apply sdscmp_swap. destruct (Z.eq_dec (sdscmp s r) 0) as [E|]; [apply sdscmp_eq in E as <-; done|].
  apply (sdscmp_trans _ s); [|done]. apply sdscmp_swap. lia.
Qed.

Lemma lex_range_tests L range : same_scores L -> range_tests L (lex_gte range) (lex_lte range).
Proof.
  intros Hsc. unfold lex_gte, lex_lte, zslLexValueGteMin, zslLexValueLteMax.
  split; intros u v Hu Hv Hlt; unfold item_lt, cmp_item in Hlt; rewrite !Hsc in Hlt by done.
  - destruct (ls_minex range); destruct (ls_min range) as [| |s]; cbn [sdscmplex]; try done; rewrite ?Z.ltb_lt, ?Z.leb_le; intros H;
      pose proof (sdscmp_lt_ge _ _ s Hlt); lia.
  - destruct (ls_maxex range); destruct (ls_max range) as [| |s]; cbn [sdscmplex]; try done; rewrite ?Z.ltb_lt, ?Z.leb_le; intros H;
      pose proof (sdscmp_le_lt _ _ s Hlt); lia.
Qed.


(** *** Deleting a range *)

Lemma delete_range_spec {D} (dictDelete : D -> list Z -> outcome D) z L gte lte p q : zsl_rep z L -> range_tests L gte lte ->
  tests p (fun u => negb (gte u)) -> (forall t, tests (fun n => q n t) lte) ->
  exists z', (forall dict, (update ← descend (Z.to_nat (zsl_level z)) z (go_while z p) false (zsl_header z) 0;
    '(u0, _) ← rd update 0; x ← get_forward z u0 0; delete_loop dictDelete (zsl_fuel z) z dict update q x 0 0) =
    (d ← delete_keys dictDelete dict (it_ele <$> List.filter (in_range gte lte) L);
     Ret (z', d, Zlen (List.filter (in_range gte lte) L)))) /\
  zsl_rep z' (List.filter (fun u => negb (in_range gte lte u)) L) /\ zsl_header z' = zsl_header z.
Proof.
  intros Hrep Hrt Hp Hq. pose proof (zr_ok _ _ Hrep) as Hok. pose proof (zk_level _ _ Hok) as Hlev.
  destruct (range_split L gte lte (zr_sorted _ _ Hrep) Hrt) as (A & M & B & EL & HA & HM & HB).
  destruct (range_filters L gte lte A M B EL HA HM HB) as [-> ->]. rewrite EL in Hok.
  destruct (search_upd z A (M ++ B) false (go_while z p) Hok) as (update & Ed & Hu).
  { apply (go_while_ok z A (M ++ B) 0 false p (fun u => negb (gte u))); [done|done|intros u Hu; by rewrite HA|].
    intros u Hu. apply elem_of_app in Hu as [Hu|Hu]; [destruct (HM u Hu) as [-> _]|destruct (HB u Hu) as [-> _]]; done. }
  destruct (upd0 z A (M ++ B) false update (zsl_level z) Hok Hu ltac:(lia)) as (u0 & r & Eu & Ef & _).
  pose proof (zk_small _ _ Hok) as Hsm. rewrite !Zlen_app in Hsm. pose proof (Zlen_nonneg A). pose proof (Zlen_nonneg B).
  destruct (delete_loop_spec dictDelete A B false update (zsl_level z) q M z 0 0 (zsl_fuel z) Hok Hu) as (z' & Hd & Hok' & Hh); try lia.
  - unfold zsl_fuel. rewrite (zk_length _ _ Hok). unfold Zlen. rewrite !length_app. lia.
  - intros k u n Hk Hn. rewrite (Hq _ n u Hn). f_equal. apply HM. by eapply list_elem_of_lookup_2.
  - intros u n Hh Hn. rewrite (Hq _ n u Hn). f_equal. apply HB. destruct B; [done|]. injection Hh as ->. left.
  - exists z'. split; [|split; [by apply (filter_rep z z' L A M B)|done]]. intros dict. rewrite Ed, ret_bind, Eu, ret_bind, Ef, ret_bind. apply Hd.
Qed.

Lemma rank_strict (m start la ll : Z) : 1 <= start -> la = Z.min (start - 1) ll -> m <= ll -> (m <? start) = (m <=? la).
Proof. intros H -> Hm. destruct (Z.ltb_spec m start), (Z.leb_spec m (Z.min (start - 1) ll)); lia. Qed.

Lemma zslDeleteRangeByRank_spec {D} (dictDelete : D -> list Z -> outcome D) z A M B start end_ : zsl_rep z (A ++ M ++ B) ->
  1 <= start -> Zlen A = Z.min (start - 1) (Zlen (A ++ M ++ B)) -> (M = [] \/ Zlen A + Zlen M <= end_) -> (B = [] \/ end_ < Zlen A + Zlen M + 1) ->
  exists z', (forall dict, zslDeleteRangeByRank dictDelete z start end_ dict =
    (d ← delete_keys dictDelete dict (it_ele <$> M); Ret (z', d, Zlen M))) /\ zsl_rep z' (A ++ B) /\ zsl_header z' = zsl_header z.
Proof.
  intros Hrep Hs HA HM HB. pose proof (zr_ok _ _ Hrep) as Hok. pose proof (zk_level _ _ Hok) as Hlev.
  destruct (search_upd z A (M ++ B) true (go_rank z true start) Hok) as (update & Ed & Hu).
  { apply (go_rank_ok z A (M ++ B) 0 start Hok ltac:(lia) true). intros m Hm. apply (rank_strict m start _ (Zlen (A ++ M ++ B)) Hs); lia. }
  destruct (upd0 z A (M ++ B) true update (zsl_level z) Hok Hu ltac:(lia)) as (u0 & r & Eu & Ef & Er). rewrite (Er eq_refl) in Eu.
  pose proof (zk_small _ _ Hok) as Hsm. rewrite !Zlen_app in Hsm. pose proof (Zlen_nonneg A). pose proof (Zlen_nonneg B). pose proof (Zlen_nonneg M).
  destruct (delete_loop_spec dictDelete A B true update (zsl_level z) (fun _ t => Ret (t <=? end_)) M z (Zlen A + 1) 0 (zsl_fuel z) Hok Hu)
    as (z' & Hd & Hok' & Hh); try lia.
  - unfold zsl_fuel. rewrite (zk_length _ _ Hok). unfold Zlen. rewrite !length_app. lia.
  - intros k u n Hk _. f_equal. apply Z.leb_le. destruct HM as [-> |HM]; [done|]. apply lookup_lt_Some in Hk. unfold Zlen in *. lia.
  - intros u n Hh _. f_equal. apply Z.leb_gt. destruct HB as [-> |HB]; [done|lia].
  - exists z'. split; [|split; [by apply (filter_rep z z' _ A M B Hrep eq_refl)|done]]. intros dict.
    unfold zslDeleteRangeByRank. rewrite Ed, ret_bind, Eu, ret_bind, Ef, ret_bind, wrapu_id by lia. apply Hd.
Qed.

(** *** The Nth element of a range *)

Lemma descend_last_spec z A B go n : zsl_ok z (A ++ B) -> go_ok z (A ++ B) B 0 true go ->
  forall x h A' rank, at_node (zsl_header z) A x h A' -> Z.of_nat n <= h -> 0 < h -> Z.of_nat n <= zsl_level z ->
  rank = Zlen A - Zlen A' -> (n = 0%nat -> A' = []) ->
  exists x' h', descend_last n z go x rank = Ret (x', Zlen A) /\ at_node (zsl_header z) A x' h' [] /\ 0 < h'.
Proof.
  intros Hok Hgo. induction n as [|n IH]; intros x h A' rank Hat Hh Hh0 Hlev -> H0; cbn [descend_last].
  - exists x, h. rewrite (H0 eq_refl) in *. split; [do 2 f_equal; change (Zlen []) with 0; lia|done].
  - assert (at_node (zsl_header z) (A ++ B) x h (A' ++ B)) as HatL by (apply at_split; left; by exists A').
    destruct (at_in _ _ _ _ _ Hat) as [C EC]. pose proof (Zlen_nonneg C).
    destruct (walk_from z A B 0 go (Z.of_nat n) x h A' (Zlen A - Zlen A') Hok ltac:(lia) Hgo ltac:(lia) ltac:(lia) HatL)
      as (x' & h' & A2 & r & -> & Hat' & Hh' & Er & _ & H00 & _ & _ & _).
    { intros _. rewrite EC, !Zlen_app. lia. }
    rewrite ret_bind. apply (IH x' h' A2); [done|lia|lia|lia|lia|]. intros ->. by apply H00.
Qed.

Lemma forward_next z L x h sfx : zsl_ok z L -> at_node (zsl_header z) L x h sfx -> 0 < h -> get_forward z x 0 = Ret (head_id sfx).
Proof.
  intros Hok Hat Hh. destruct (at_in _ _ _ _ _ Hat) as [C EC]. subst L.
  apply at_split in Hat as [(A2 & E & Hat)|(B1 & u & E & _)].
  - by apply (forward0 z C sfx x h A2 Hok Hat); [apply (app_inv_tail sfx A2 [])|].
  - apply (f_equal length) in E. rewrite length_app in E. cbn in E. lia.
Qed.

Lemma jump_forward_spec z L C : zsl_ok z L -> forall x h w D, at_node (zsl_header z) L x h (C ++ w :: D) -> 0 < h ->
  jump_forward (S (length C)) z (Some x) = Ret (Some (it_id w)).
Proof.
  intros Hok. pose proof (zk_stored _ _ Hok) as Hst. induction C as [|c C IH]; intros x h w D Hat Hh.
  - cbn [jump_forward length]. by rewrite (forward_next z L x h _ Hok Hat Hh).
  - cbn [length]. remember (S (length C)) as m. cbn [jump_forward]. rewrite (forward_next z L x h _ Hok Hat Hh), ret_bind. subst m.
    rewrite <- app_comm_cons in *. cbn [head_id].
    assert (at_node (zsl_header z) L (it_id c) (it_h c) (C ++ w :: D)) as Hat' by (by apply (at_step _ _ x h [] c)).
    apply (IH _ (it_h c) w D Hat'). destruct (at_in _ _ _ _ _ Hat) as [E EL].
    assert (1 <= it_h c); [|lia]. apply (st_heights _ _ Hst). rewrite EL. apply elem_of_app. right. left.
Qed.

Lemma jump_backward_spec z k : forall A w B u, zsl_ok z (A ++ w :: B) -> (A ++ [w]) !! (length A - k)%nat = Some u -> (k <= length A)%nat ->
  jump_backward k z (Some (it_id w)) = Ret (Some (it_id u)).
Proof.
  induction k as [|k IH]; intros A w B u Hok Hu Hk; cbn [jump_backward].
  - rewrite Nat.sub_0_r in Hu. rewrite list_lookup_middle in Hu by done. by injection Hu as ->.
  - destruct (read_neighbours z A w B Hok) as (n & Hn & Hb & _). unfold get_node. rewrite Hn, ret_bind, Hb.
    destruct (list_end A) as [-> |(C & v & ->)]; [cbn in Hk; lia|]. rewrite endp_app. cbn [endp].
    rewrite length_app in Hk, Hu. cbn [length] in Hk, Hu. rewrite <- app_assoc in Hok, Hu. apply (IH C v (w :: B)); [done| |lia].
    replace (length C + 1 - S k)%nat with (length C - k)%nat in Hu by lia.
    rewrite app_assoc in Hu. rewrite lookup_app_l in Hu; [done|]. rewrite length_app. cbn. lia.
Qed.


Lemma suffix_of {T} (E sfx F D : list T) : E ++ sfx = F ++ D -> (length E <= length F)%nat -> exists K, F = E ++ K /\ sfx = K ++ D.
Proof.
  intros H Hl. apply app_eq_inv in H as [(k & -> & ->)|(k & -> & ->)]; [|by exists k].
  rewrite length_app in Hl. destruct k; [|cbn in Hl; lia]. exists []. by rewrite !app_nil_r.
Qed.

Lemma from_node_some z C w D last h sfx : zsl_ok z (C ++ w :: D) -> at_node (zsl_header z) (C ++ w :: D) last h sfx -> zsl_level z <= h ->
  let off := Zlen (C ++ w :: D) - Zlen sfx in off <= Zlen C + 1 ->
  zslGetElementByRankFromNode z last (zsl_level z - 1) (Zlen C + 1 - off) = Ret (Some (it_id w)).
Proof.
  intros Hok Hat Hh off Hoff. pose proof (zk_level _ _ Hok) as Hlev. unfold zslGetElementByRankFromNode.
  destruct (Z.to_nat (zsl_level z - 1 + 1)) as [|n] eqn:En; [lia|]. destruct (at_in _ _ _ _ _ Hat) as [E EL].
  assert (off = Zlen E) as Eo by (unfold off; rewrite EL, Zlen_app; lia).
  assert (C ++ w :: D = (C ++ [w]) ++ D) as EC by (by rewrite <- app_assoc). rewrite EC in Hok, Hat. rewrite EC in EL.
  destruct (suffix_of E sfx (C ++ [w]) D (eq_sym EL)) as (A' & EA & Es); [rewrite length_app; unfold Zlen in *; cbn; lia|].
  apply (by_rank_some z (C ++ [w]) D off _ Hok) with (A1 := C) (h := h) (A' := A'); try done; try lia.
  - rewrite Eo. unfold Zlen. lia.
  - rewrite Zlen_app. change (Zlen [w]) with 1. lia.
  - by rewrite <- Es.
  - intros _. rewrite <- Es. unfold off. rewrite EC. lia.
Qed.

(** The position [n] counted from the start, or from the end when negative. *)
Definition nth_pos (M : list item) (n : Z) : Z := if 0 <=? n then n else Zlen M + n.

Definition nth_of (M : list item) (n : Z) : option item := if nth_pos M n <? 0 then None else M !! Z.to_nat (nth_pos M n).

Section nth.
Context z (A M B : list item) (gte lte : item -> bool) (g l : zskiplistNode Sc -> outcome bool).
Context (Hok : zsl_ok z (A ++ M ++ B)) (Hg : tests g gte) (Hl : tests l lte).
Context (HA : forall u, u ∈ A -> gte u = false /\ lte u = true) (HM : forall u, u ∈ M -> gte u = true /\ lte u = true).
Context (HB : forall u, u ∈ B -> gte u = true /\ lte u = false).

Lemma out_go_ok off : go_ok z (A ++ M ++ B) (M ++ B) off true (go_while z (fun nd => b ← g nd; Ret (negb b))).
Proof using All.
  apply (go_while_ok z A (M ++ B) off true _ (fun u => negb (gte u)) Hok).
  - intros n u Hn. rewrite (Hg n u Hn). by rewrite ret_bind.
  - intros u Hu. by destruct (HA u Hu) as [-> _].
  - intros u Hu. apply elem_of_app in Hu as [Hu|Hu]; [by destruct (HM u Hu) as [-> _]|by destruct (HB u Hu) as [-> _]].
Qed.

Lemma in_go_ok off : go_ok z ((A ++ M) ++ B) B off true (go_while z l).
Proof using All.
  rewrite app_assoc in Hok. apply (go_while_ok z (A ++ M) B off true _ lte Hok Hl).
  - intros u Hu. apply elem_of_app in Hu as [Hu|Hu]; [by destruct (HA u Hu)|by destruct (HM u Hu)].
  - intros u Hu. by destruct (HB u Hu).
Qed.

Lemma checked_spec test (T : item -> bool) u r : tests test T -> u ∈ A ++ M ++ B ->
  checked z test (Some (it_id u)) r = Ret (if T u then Some (it_id u, r) else None).
Proof using Hok.
  intros Ht Hu. destruct (st_nodes _ _ (zk_stored _ _ Hok) u Hu) as (n & Hn & Ho). unfold checked, get_node. by rewrite Hn, ret_bind, (Ht n u Ho), ret_bind.
Qed.

Lemma elem_at (C : list item) (n : Z) : 0 <= n < Zlen C -> exists C1 w C2, C = C1 ++ w :: C2 /\ Zlen C1 = n /\ C !! Z.to_nat n = Some w.
Proof.
  intros Hn. unfold Zlen in Hn. destruct (lookup_lt_is_Some_2 C (Z.to_nat n)) as [w Hw]; [lia|].
  exists (take (Z.to_nat n) C), w, (drop (S (Z.to_nat n)) C). split; [by rewrite take_drop_middle|]. split; [|done].
  unfold Zlen. rewrite length_take. lia.
Qed.

Lemma nth_in_range_pos n : 0 <= n < 2 ^ 63 ->
  nth_in_range z g l n = Ret (match M !! Z.to_nat n with Some w => Some (it_id w, Zlen A + n + 1) | None => None end).
Proof using All.
  intros Hn. pose proof (zk_level _ _ Hok) as Hlev. pose proof (zk_small _ _ Hok) as Hsm. rewrite !Zlen_app in Hsm.
  pose proof (Zlen_nonneg A). pose proof (Zlen_nonneg M). pose proof (Zlen_nonneg B). unfold nth_in_range.
  destruct (walk_from z A (M ++ B) 0 _ (zsl_level z - 1) (zsl_header z) ZSKIPLIST_MAXLEVEL A 0 Hok ltac:(lia) (out_go_ok 0))
    as (last & hl & A2 & lr & -> & Hat & Hhl & Elr & Hlr & Hlv0 & _ & HatL & _); [lia|lia|constructor|intros _; lia|].
  rewrite ret_bind. destruct (Z.leb_spec 0 n); [|lia].
  destruct (descend_last_spec z A (M ++ B) _ (Z.to_nat (zsl_level z - 1)) Hok (out_go_ok 0) last hl A2 lr) as (x & hx & -> & Hatx & Hhx);
    [done|lia|lia|lia|lia|intros ?; apply Hlv0; lia|].
  rewrite ret_bind. cbv beta iota. rewrite (zk_length _ _ Hok), !Zlen_app, wrapu_id by lia.
  destruct (Z.leb_spec (Zlen A + (Zlen M + Zlen B)) (Zlen A + n)) as [Hbig|Hsmall].
  { rewrite lookup_ge_None_2; [done|]. unfold Zlen in *. lia. }
  destruct (elem_at (M ++ B) n) as (C1 & w & C2 & EC & HC & Hw); [rewrite Zlen_app; lia|].
  assert ((if n <? ZSKIPLIST_MAX_SEARCH then jump_forward (Z.to_nat (n + 1)) z (Some x)
           else zslGetElementByRankFromNode z last (zsl_level z - 1) (u64 (Zlen A + 1 + n - lr))) = Ret (Some (it_id w))) as ->.
  { destruct (Z.ltb_spec n ZSKIPLIST_MAX_SEARCH).
    - replace (Z.to_nat (n + 1)) with (S (length C1)) by (unfold Zlen in HC; lia).
      apply (jump_forward_spec z _ C1 Hok x hx w C2); [|done]. rewrite EC. apply at_split. left. by exists [].
    - destruct (at_in _ _ _ _ _ Hat) as [E EA]. assert (Zlen A2 <= Zlen A) by (rewrite EA, Zlen_app; pose proof (Zlen_nonneg E); lia).
      rewrite wrapu_id by (pose proof (Zlen_nonneg A2); lia). rewrite EC in Hok, HatL. rewrite app_assoc in Hok, HatL.
      pose proof (from_node_some z (A ++ C1) w C2 last hl (A2 ++ C1 ++ w :: C2) Hok HatL ltac:(lia)) as Hf. cbv zeta in Hf.
      rewrite !Zlen_app in Hf. rewrite <- Hf; [f_equal; lia|]. pose proof (Zlen_nonneg A2). lia. }
  rewrite ret_bind, (checked_spec l lte w _ Hl); [|apply elem_of_app; right; rewrite EC; apply elem_of_app; right; left].
  destruct (decide (n < Zlen M)) as [Hin|Hout].
  - rewrite lookup_app_l in Hw by (unfold Zlen in Hin; lia). rewrite Hw. destruct (HM w) as [_ ->]; [by eapply list_elem_of_lookup_2|done].
  - rewrite lookup_app_r in Hw by (unfold Zlen in Hout; lia). rewrite (lookup_ge_None_2 M) by (unfold Zlen in Hout; lia).
    destruct (HB w) as [_ ->]; [by eapply list_elem_of_lookup_2|done].
Qed.

Lemma nth_in_range_neg n : - 2 ^ 63 < n < 0 -> nth_in_range z g l n =
  Ret (if Zlen M + n <? 0 then None else match M !! Z.to_nat (Zlen M + n) with Some w => Some (it_id w, Zlen A + (Zlen M + n) + 1) | None => None end).
Proof using All.
  intros Hn. pose proof (zk_level _ _ Hok) as Hlev. pose proof (zk_small _ _ Hok) as Hsm. rewrite !Zlen_app in Hsm.
  pose proof (Zlen_nonneg A). pose proof (Zlen_nonneg M). pose proof (Zlen_nonneg B). unfold nth_in_range.
  destruct (walk_from z A (M ++ B) 0 _ (zsl_level z - 1) (zsl_header z) ZSKIPLIST_MAXLEVEL A 0 Hok ltac:(lia) (out_go_ok 0))
    as (last & hl & A2 & lr & -> & Hat & Hhl & Elr & Hlr & Hlv0 & _ & HatL & _); [lia|lia|constructor|intros _; lia|].
  rewrite ret_bind. destruct (Z.leb_spec 0 n); [lia|].
  assert (zsl_ok z ((A ++ M) ++ B)) as Hok2 by (by rewrite <- app_assoc).
  destruct (at_in _ _ _ _ _ Hat) as [E EA]. pose proof (Zlen_nonneg A2). pose proof (Zlen_nonneg E).
  assert (Zlen A = Zlen E + Zlen A2) as EA' by (by rewrite EA, Zlen_app).
  destruct (descend_last_spec z (A ++ M) B _ (Z.to_nat (zsl_level z)) Hok2 (in_go_ok 0) last hl (A2 ++ M) lr) as (x & hx & -> & Hatx & Hhx);
    [apply at_split; left; by exists A2|lia|lia|lia|rewrite !Zlen_app; lia|lia|].
  rewrite ret_bind. cbv beta iota. rewrite !Zlen_app.
  destruct (Z.ltb_spec (Zlen A + Zlen M) (- n)) as [Hbig|Hsmall]; [by destruct (Z.ltb_spec (Zlen M + n) 0); [|lia]|].
  destruct (elem_at (A ++ M) (Zlen A + Zlen M + n)) as (C1 & w & C2 & EC & HC & Hw); [rewrite Zlen_app; lia|].
  assert (checked z g (Some (it_id w)) (Zlen A + Zlen M + n + 1) = Ret (if Zlen M + n <? 0 then None else
    match M !! Z.to_nat (Zlen M + n) with Some w => Some (it_id w, Zlen A + (Zlen M + n) + 1) | None => None end)) as Hw'.
  { rewrite (checked_spec g gte w _ Hg); [|rewrite app_assoc; apply elem_of_app; left; rewrite EC; apply elem_of_app; right; left].
    destruct (Z.ltb_spec (Zlen M + n) 0).
    - rewrite lookup_app_l in Hw by (unfold Zlen in *; lia). destruct (HA w) as [-> _]; [by eapply list_elem_of_lookup_2|done].
    - rewrite lookup_app_r in Hw by (unfold Zlen in *; lia).
      replace (Z.to_nat (Zlen A + Zlen M + n) - length A)%nat with (Z.to_nat (Zlen M + n)) in Hw by (unfold Zlen in *; lia).
      rewrite Hw. destruct (HM w) as [-> _]; [by eapply list_elem_of_lookup_2|]. do 3 f_equal. lia. }
  assert (A ++ M ++ B = C1 ++ w :: C2 ++ B) as EL by (by rewrite app_assoc, EC, <- app_assoc).
  destruct (Z.ltb_spec (- ZSKIPLIST_MAX_SEARCH) (n + 1)) as [Hj|Hj].
  - assert (jump_backward (Z.to_nat (- n - 1)) z (Some x) = Ret (Some (it_id w))) as ->; [|by rewrite ret_bind].
    destruct (list_end (A ++ M)) as [E0|(F & y & EF)]; [apply (f_equal Zlen) in E0; rewrite Zlen_app in E0; change (Zlen []) with 0 in E0; lia|].
    destruct (at_inv _ _ _ _ _ Hatx) as [(_ & _ & E0)|(F' & y' & EF' & -> & _)]; [rewrite EF in E0; by destruct F|].
    rewrite EF in EF'. apply app_inj_2 in EF' as [<- [= <-]]; [|done].
    rewrite EF, <- app_assoc in Hok2. apply (jump_backward_spec z _ F y B w Hok2).
    + rewrite <- EF. replace (length F - Z.to_nat (- n - 1))%nat with (Z.to_nat (Zlen A + Zlen M + n)); [done|].
      apply (f_equal Zlen) in EF. rewrite !Zlen_app in EF. change (Zlen [y]) with 1 in EF. unfold Zlen in *. lia.
    + apply (f_equal Zlen) in EF. rewrite !Zlen_app in EF. change (Zlen [y]) with 1 in EF. unfold Zlen in *. lia.
  - rewrite EL in Hok, HatL. destruct (Z.leb_spec lr (Zlen C1 + 1)) as [Hge|Hlt].
    + pose proof (from_node_some z C1 w (C2 ++ B) last hl _ Hok HatL ltac:(lia)) as Hf. cbv zeta in Hf. rewrite <- EL in Hf.
      rewrite !Zlen_app in Hf. rewrite wrapu_id by lia.
      replace (Zlen A + Zlen M + 1 + n - lr) with (Zlen C1 + 1 - (Zlen A + (Zlen M + Zlen B) - (Zlen A2 + (Zlen M + Zlen B)))) by lia.
      rewrite Hf by lia. by rewrite ret_bind.
    + assert (u64 (Zlen A + Zlen M + 1 + n - lr) = Zlen A + Zlen M + 1 + n - lr + 2 ^ 64) as ->.
      { unfold wrapu. symmetry. apply (Z.mod_unique_pos _ _ (-1)); lia. }
      unfold zslGetElementByRankFromNode.
      rewrite (by_rank_none z _ lr _ _ Hok) with (h := hl) (A' := A2 ++ M ++ B); [|lia| |done|lia|lia|].
      * rewrite ret_bind. destruct (Z.ltb_spec (Zlen M + n) 0); [done|lia].
      * rewrite <- EL, !Zlen_app. lia.
      * intros _. rewrite <- EL, !Zlen_app. lia.
Qed.

Lemma nth_in_range_spec n : - 2 ^ 63 < n < 2 ^ 63 ->
  nth_in_range z g l n = Ret (match nth_of M n with Some w => Some (it_id w, Zlen A + nth_pos M n + 1) | None => None end).
Proof using All.
  intros Hn. unfold nth_of, nth_pos. destruct (Z.leb_spec 0 n).
  - rewrite nth_in_range_pos by lia. destruct (Z.ltb_spec n 0); [lia|done].
  - rewrite nth_in_range_neg by lia. by destruct (Zlen M + n <? 0).
Qed.
End nth.

(** *** The test that a range is out of the list *)

Fixpoint last_item L : option item := match L with [] => None | [u] => Some u | _ :: L => last_item L end.

Lemma last_item_app A u : last_item (A ++ [u]) = Some u.
Proof. induction A as [|a A IH]; [done|]. cbn [app last_item]. rewrite IH. by destruct A. Qed.

Lemma is_in_range_spec z L gte lte g l ne : zsl_ok z L -> tests g gte -> tests l lte ->
  is_in_range z ne g l = Ret (ne && match last_item L, head L with Some u, Some v => gte u && lte v | _, _ => false end).
Proof.
  intros Hok Hg Hl. pose proof (zk_level _ _ Hok) as Hlev. unfold is_in_range. rewrite (zk_tail _ _ Hok). destruct ne; cbn [negb andb]; [|done].
  destruct (list_end L) as [-> |(C & u & ->)]; [done|]. rewrite endp_app, last_item_app. cbn [endp].
  destruct (st_nodes _ _ (zk_stored _ _ Hok) u) as (n & Hn & Ho); [apply elem_of_app; right; left|].
  assert (get_node z (it_id u) = Ret n) as -> by (unfold get_node; by rewrite Hn). rewrite ret_bind, (Hg n u Ho), ret_bind.
  rewrite (forward_next z _ _ ZSKIPLIST_MAXLEVEL _ Hok (at_header _ _)) by lia. rewrite ret_bind.
  destruct (C ++ [u]) as [|v D] eqn:E; [by destruct C|]. cbn [head_id head]. destruct (gte u); cbn [negb andb]; [|done].
  destruct (st_nodes _ _ (zk_stored _ _ Hok) v) as (m & Hm & Ho'); [left|].
  unfold get_node. by rewrite Hm, ret_bind, (Hl m v Ho').
Qed.

(** When the test fails no item is in the range. *)
Lemma out_of_range L gte lte (ne : bool) : StronglySorted item_lt L -> range_tests L gte lte ->
  (ne = false -> forall u, u ∈ L -> in_range gte lte u = false) ->
  ne && match last_item L, head L with Some u, Some v => gte u && lte v | _, _ => false end = false ->
  List.filter (in_range gte lte) L = [].
Proof.
  intros Hs [Hup Hdown] Hne H. apply filter_none. intros u Hu. destruct ne; [|by apply Hne]. cbn [andb] in H.
  unfold in_range. destruct (gte u) eqn:Eg; [|done]. destruct (lte u) eqn:El; [|done]. rewrite <- H. clear H Hne. symmetry.
  destruct (list_end L) as [-> |(C & w & EL)]; [by apply not_elem_of_nil in Hu|]. rewrite EL at 1. rewrite last_item_app.
  assert (w ∈ L) as Hw by (rewrite EL; apply elem_of_app; right; left).
  assert (gte w = true) as ->.
  { pose proof Hu as Hu'. rewrite EL in Hu'. apply elem_of_app in Hu' as [Hu'|Hu'%list_elem_of_singleton]; [|by subst].
    apply (Hup u w Hu Hw); [|done]. apply (sorted_app _ C [w] EL) in Hs as (_ & _ & H3). apply H3; [done|left]. }
  destruct L as [|v L]; [by apply not_elem_of_nil in Hu|]. cbn [head andb]. assert (v ∈ v :: L) as Hv by left.
  apply elem_of_cons in Hu as [-> |Hu]; [done|]. apply (Hdown v u); [done|by right| |done].
  apply StronglySorted_inv in Hs as [_ Hf]. by apply (proj1 (Forall_elem _ _) Hf).
Qed.


Definition score_range_ok (range : zrangespec Sc) : bool :=
  negb (score_lt (rs_max range) (rs_min range) || (score_eq (rs_min range) (rs_max range) && (rs_minex range || rs_maxex range))).

Lemma score_range_empty range u : range_num range -> item_nan u = false -> score_range_ok range = false ->
  in_range (score_gte range) (score_lte range) u = false.
Proof.
  intros [Hmin Hmax] Hu H. unfold score_range_ok in H. apply negb_false_iff in H.
  unfold in_range, score_gte, score_lte, zslValueGteMin, zslValueLteMax, item_nan in *. rewrite !score_le_lt, score_eq_lt in * by done.
  destruct (score_lt (rs_max range) (rs_min range)) eqn:E; cbn [orb] in H.
  - destruct (score_lt_cotrans _ (it_score u) _ Hu E) as [E1|E1]; rewrite (score_lt_asym _ _ E1), E1; cbn [negb];
      destruct (rs_minex range), (rs_maxex range); rewrite ?andb_false_r; done.
  - rewrite andb_true_r in H. destruct (score_lt (rs_min range) (rs_max range)) eqn:E2; [done|]. cbn [negb andb] in H.
    destruct (score_lt (rs_min range) (it_score u)) eqn:E3.
    + destruct (score_lt_cotrans _ (rs_max range) _ Hmax E3) as [?|E4]; [congruence|]. rewrite (score_lt_asym _ _ E4), E4.
      destruct (rs_minex range), (rs_maxex range); rewrite ?andb_false_r; done.
    + destruct (rs_minex range); [done|]. cbn [orb] in H. rewrite H.
      destruct (score_lt (it_score u) (rs_max range)) eqn:E5; [|by rewrite andb_false_r].
      destruct (score_lt_cotrans _ (rs_min range) _ Hmin E5) as [E6|?]; [by rewrite E6|congruence].
Qed.

Lemma score_range_total range u : range_num range -> item_nan u = false -> score_range_ok range = true ->
  score_gte range u = false -> score_lte range u = true.
Proof.
  intros [Hmin Hmax] Hu H. unfold score_range_ok in H. apply negb_true_iff, orb_false_iff in H as [Hm He].
  unfold score_gte, score_lte, zslValueGteMin, zslValueLteMax, item_nan in *. rewrite !score_le_lt, score_eq_lt in * by done.
  destruct (rs_minex range).
  - rewrite andb_true_r, Hm, andb_true_r in He. apply negb_false_iff in He. intros Hg.
    destruct (score_lt_cotrans _ (it_score u) _ Hu He) as [?|E]; [congruence|]. rewrite E, (score_lt_asym _ _ E). by destruct (rs_maxex range).
  - intros Hg%negb_false_iff. destruct (score_lt_cotrans _ (rs_max range) _ Hmax Hg) as [E|?]; [|congruence].
    rewrite E, (score_lt_asym _ _ E). by destruct (rs_maxex range).
Qed.

Lemma nth_of_nil n : nth_of [] n = None.
Proof. unfold nth_of. by destruct (_ <? 0). Qed.

(** The Nth element, whatever the kind of range. *)
Lemma nth_any z L gte lte g l ne n : zsl_rep z L -> tests g gte -> tests l lte -> range_tests L gte lte ->
  (ne = false -> forall u, u ∈ L -> in_range gte lte u = false) -> (ne = true -> forall u, u ∈ L -> gte u = false -> lte u = true) ->
  - 2 ^ 63 < n < 2 ^ 63 -> let M := List.filter (in_range gte lte) L in
  (b ← is_in_range z ne g l; if negb b then Ret None else nth_in_range z g l n) =
  Ret (match nth_of M n with
       | Some w => Some (it_id w, Zlen (List.filter (fun u => negb (gte u)) L) + nth_pos M n + 1)
       | None => None
       end).
Proof.
  intros [Hok Hs Hn] Hg Hl Hrt Hf Ht Hbn M. rewrite (is_in_range_spec z L gte lte g l ne Hok Hg Hl), ret_bind.
  destruct (ne && _) eqn:E; cbn [negb].
  - destruct (range_split L gte lte Hs Hrt) as (A & M' & B & EL & HA & HM & HB).
    destruct (range_filters L gte lte A M' B EL HA HM HB) as [EM _]. subst M. rewrite EM.
    assert (ne = true) as Hne by (by destruct ne).
    assert (List.filter (fun u => negb (gte u)) L = A) as ->.
    { rewrite EL, List.filter_app, (filter_id _ A), (filter_none _ (M' ++ B)); [by rewrite app_nil_r| |intros u Hu; by rewrite HA].
      intros u Hu. apply elem_of_app in Hu as [Hu|Hu]; [destruct (HM u Hu) as [-> _]|destruct (HB u Hu) as [-> _]]; done. }
    rewrite EL in Hok. apply (nth_in_range_spec z A M' B gte lte g l Hok Hg Hl); [|done|done|done].
    intros u Hu. split; [by apply HA|]. apply (Ht Hne); [rewrite EL; apply elem_of_app; by left|by apply HA].
  - subst M. rewrite (out_of_range L gte lte ne Hs Hrt Hf E). by rewrite nth_of_nil.
Qed.

(** *** Lexicographic ranges *)

Definition lex_range_ok (range : zlexrangespec) : bool :=
  let cmp := sdscmplex (ls_min range) (ls_max range) in negb ((0 <? cmp) || ((cmp =? 0) && (ls_minex range || ls_maxex range))).

Lemma lex_cases range u : let e := LexVal (it_ele u) in let c1 := sdscmplex e (ls_min range) in let c2 := sdscmplex e (ls_max range) in
  let cmp := sdscmplex (ls_min range) (ls_max range) in
  (c1 < 0 -> cmp <= 0 -> c2 < 0) /\ (0 <= c1 -> 0 < cmp -> 0 < c2) /\ (0 < c1 -> 0 <= cmp -> 0 < c2) /\ (c1 = 0 -> cmp < 0 -> c2 < 0) /\ (c1 = 0 -> cmp = 0 -> c2 = 0).
Proof.
  cbv zeta. destruct (ls_min range) as [| |a], (ls_max range) as [| |b]; cbn [sdscmplex]; repeat split; try lia.
  - apply sdscmp_le_lt.
  - intros H1 H2. apply sdscmp_swap in H2. destruct (Z.eq_dec (sdscmp (it_ele u) a) 0) as [E|].
    + apply sdscmp_eq in E as ->. by apply sdscmp_swap.
    + assert (0 < sdscmp (it_ele u) a) as H3 by lia. apply sdscmp_swap in H3. apply sdscmp_swap. by apply (sdscmp_trans _ a).
  - intros H1 H2. apply sdscmp_swap in H1. by apply (sdscmp_lt_ge a).
  - intros ->%sdscmp_eq. done.
  - intros ->%sdscmp_eq. done.
Qed.

Lemma lex_range_empty range u : lex_range_ok range = false -> in_range (lex_gte range) (lex_lte range) u = false.
Proof.
  unfold lex_range_ok, in_range, lex_gte, lex_lte, zslLexValueGteMin, zslLexValueLteMax. intros H. apply negb_false_iff in H.
  pose proof (lex_cases range u) as Hc. cbv zeta in Hc. destruct (ls_minex range), (ls_maxex range); cbn [orb] in H; lia.
Qed.

Lemma lex_range_total range u : lex_range_ok range = true -> lex_gte range u = false -> lex_lte range u = true.
Proof.
  unfold lex_range_ok, lex_gte, lex_lte, zslLexValueGteMin, zslLexValueLteMax. intros H. apply negb_true_iff in H.
  pose proof (lex_cases range u) as Hc. cbv zeta in Hc. destruct (ls_minex range), (ls_maxex range); cbn [orb] in H; lia.
Qed.

(** *** The empty list *)

Lemma zslCreate_spec : zsl_rep (zslCreate (Sc := Sc)) [].
Proof.
  split; [|constructor|intros u Hu; by apply not_elem_of_nil in Hu].
  assert (forall i, 0 <= i < ZSKIPLIST_MAXLEVEL -> get_slot (zslCreate (Sc := Sc)) (zsl_header (zslCreate (Sc := Sc))) i = Ret (None, 0)) as Hs.
  { intros i Hi. unfold get_slot, get_node, zslCreate. cbn [zsl_nodes zsl_header]. rewrite lookup_singleton_eq, ret_bind. cbn [zn_level zslCreateHeaderNode].
    assert (rd (replicate (Z.to_nat ZSKIPLIST_MAXLEVEL) (@None ptr, 0)) i = Ret (None, 0)) as ->; [|done].
    apply rd_lookup; [lia|]. apply lookup_replicate. split; [done|]. lia. }
  split.
  - split; [intros u Hu; by apply not_elem_of_nil in Hu|intros u Hu; by apply not_elem_of_nil in Hu| |].
    + eexists. unfold zslCreate. cbn [zsl_nodes zsl_header]. rewrite lookup_singleton_eq. split; [done|]. by vm_compute.
    + apply NoDup_singleton.
  - intros i Hi x h sfx Hat Hih. cbn [zsl_level zslCreate] in Hi. apply at_inv in Hat as [(-> & -> & ->)|(A & u & E & _)]; [|by destruct A].
    exists (None, 0). split; [apply Hs; lia|done].
  - intros i Hi. apply Hs. cbn [zsl_level zslCreate] in Hi. lia.
  - cbn. unfold ZSKIPLIST_MAXLEVEL. lia.
  - intros u Hu. by apply not_elem_of_nil in Hu.
  - by left.
  - done.
  - done.
  - done.
  - done.
Qed.


(** ** The operations *)

(** C10. On a sorted skiplist without the element, [zslInsert] of a score that
    is a number, when some draw of [random] stops the level loop, creates a
    node of height 1 to 32 and links it at its place: the list is split before
    and after the new item, and the result is again a well-formed sorted
    skiplist (levels, forward pointers, spans, backward pointers, tail,
    length). *)
Theorem zslInsert_correct junk z L draws s e : zsl_rep z L -> score_nan s = false -> (forall u, u ∈ L -> it_ele u <> e) ->
  Zlen L + 1 < 2 ^ 63 -> existsb (fun r => 536870911 <=? r) draws = true ->
  exists z' p h A B, zslInsert junk z draws s e = Ret (z', p) /\ L = A ++ B /\ 1 <= h <= ZSKIPLIST_MAXLEVEL /\
    zsl_rep z' (A ++ {| it_id := p; it_score := s; it_ele := e; it_h := h |} :: B).
Proof.
  intros Hrep Hnan Hne Hlen Hd. destruct (zslInsert_spec junk z L draws s e Hrep Hnan Hne Hlen Hd) as (z' & p & h & A & B & H1 & H2 & H3 & H4 & _).
  by exists z', p, h, A, B.
Qed.

(** C40. [zslDelete] of a node of the list asserts that the search finds it,
    unlinks it and frees it: the others keep their order and the skiplist is
    well formed without it. *)
Theorem zslDelete_correct z A w B : zsl_rep z (A ++ w :: B) ->
  exists z', zslDelete z (it_id w) = Ret z' /\ zsl_rep z' (A ++ B) /\ zsl_nodes z' !! it_id w = None.
Proof. intros Hrep. destruct (zslDelete_spec z A w B Hrep) as (z' & H1 & H2 & _ & H3). by exists z'. Qed.

(** C32. [zslUpdateScore], whether it changes the score in place or unlinks
    and reinserts the node, gives the sorted skiplist with the same node at the
    place of its new score. *)
Theorem zslUpdateScore_correct z A w B s : zsl_rep z (A ++ w :: B) -> score_nan s = false -> (forall u, u ∈ A ++ B -> it_ele u <> it_ele w) ->
  exists z' A' B', zslUpdateScore z (it_id w) s = Ret z' /\ A ++ B = A' ++ B' /\
    zsl_rep z' (A' ++ {| it_id := it_id w; it_score := s; it_ele := it_ele w; it_h := it_h w |} :: B').
Proof.
  intros Hrep Hnan Hne. destruct (zslUpdateScore_spec z A w B s Hrep Hnan Hne) as (z' & A' & B' & H1 & H2 & H3 & _). by exists z', A', B'.
Qed.

(** C29. The ranks agree: the spans crossed by the search of a key
    ([zslGetRank]), those crossed from the node to the end
    ([zslGetRankByNode]) and the walk to a rank ([zslGetElementByRank]) all
    give the 1-based position in the list; an absent key has rank 0 and there
    is no element beyond the length. *)
Theorem zsl_ranks_agree z L : zsl_rep z L ->
  (forall A w B, L = A ++ w :: B -> zslGetRank z (it_score w) (it_ele w) = Ret (Zlen A + 1) /\ zslGetRankByNode z (it_id w) = Ret (Zlen A + 1) /\
     zslGetElementByRank z (Zlen A + 1) = Ret (Some (it_id w))) /\
  (forall s e, score_nan s = false -> (forall u, u ∈ L -> it_ele u <> e) -> zslGetRank z s e = Ret 0) /\
  (forall rank, Zlen L < rank -> zslGetElementByRank z rank = Ret None).
Proof.
  intros Hrep. pose proof (zr_ok _ _ Hrep) as Hok. split; [|split].
  - intros A w B ->. split; [by apply (zslGetRank_found z A w B)|]. split; [by apply (zslGetRankByNode_spec z A w B)|by apply (zslGetElementByRank_some z A w B)].
  - intros s e. apply (zslGetRank_none z L s e Hrep).
  - intros rank. apply (zslGetElementByRank_none z L rank Hok).
Qed.

(** [zslDeleteRangeByScore] removes the nodes whose score is in the range
    and no other, deletes their elements from the dictionary in list order,
    and returns their number. *)
Theorem zslDeleteRangeByScore_correct {D} (dictDelete : D -> list Z -> outcome D) z L range : zsl_rep z L -> range_num range ->
  let M := List.filter (in_range (score_gte range) (score_lte range)) L in
  exists z', (forall dict, zslDeleteRangeByScore dictDelete z range dict =
      (d ← delete_keys dictDelete dict (it_ele <$> M); Ret (z', d, Zlen M))) /\
    zsl_rep z' (List.filter (fun u => negb (in_range (score_gte range) (score_lte range) u)) L).
Proof.
  intros Hrep Hr M. destruct (delete_range_spec dictDelete z L (score_gte range) (score_lte range) (fun n => Ret (negb (zslValueGteMin (zn_score n) range)))
    (fun n _ => Ret (zslValueLteMax (zn_score n) range)) Hrep) as (z' & Hd & Hz & _).
  - by apply score_range_tests; [apply Hrep|].
  - intros n u (H & _). by rewrite H.
  - intros t n u (H & _). by rewrite H.
  - by exists z'.
Qed.

(** [zslDeleteRangeByLex] does the same for the elements between two
    strings, on a skiplist whose scores are all equal. *)
Theorem zslDeleteRangeByLex_correct {D} (dictDelete : D -> list Z -> outcome D) z L range : zsl_rep z L -> same_scores L ->
  let M := List.filter (in_range (lex_gte range) (lex_lte range)) L in
  exists z', (forall dict, zslDeleteRangeByLex dictDelete z range dict =
      (d ← delete_keys dictDelete dict (it_ele <$> M); Ret (z', d, Zlen M))) /\
    zsl_rep z' (List.filter (fun u => negb (in_range (lex_gte range) (lex_lte range) u)) L).
Proof.
  intros Hrep Hr M. destruct (delete_range_spec dictDelete z L (lex_gte range) (lex_lte range)
    (fun n => e ← zslGetNodeElement n; Ret (negb (zslLexValueGteMin e range))) (fun n _ => e ← zslGetNodeElement n; Ret (zslLexValueLteMax e range)) Hrep)
    as (z' & Hd & Hz & _).
  - by apply lex_range_tests.
  - intros n u (_ & H & _). unfold zslGetNodeElement. by rewrite H.
  - intros t n u (_ & H & _). unfold zslGetNodeElement. by rewrite H.
  - by exists z'.
Qed.

(** [zslDeleteRangeByRank] removes the nodes whose 1-based rank is
    between [start] and [end]. *)
Theorem zslDeleteRangeByRank_correct {D} (dictDelete : D -> list Z -> outcome D) z L start end_ : zsl_rep z L -> 1 <= start -> start - 1 <= end_ ->
  let M := take (Z.to_nat (end_ - start + 1)) (drop (Z.to_nat (start - 1)) L) in
  exists z', (forall dict, zslDeleteRangeByRank dictDelete z start end_ dict =
      (d ← delete_keys dictDelete dict (it_ele <$> M); Ret (z', d, Zlen M))) /\
    zsl_rep z' (take (Z.to_nat (start - 1)) L ++ drop (Z.to_nat end_) L).
Proof.
  intros Hrep Hs He M. set (A := take (Z.to_nat (start - 1)) L). set (B := drop (Z.to_nat end_) L).
  assert (L = A ++ M ++ B) as EL.
  { assert (B = drop (Z.to_nat (end_ - start + 1)) (drop (Z.to_nat (start - 1)) L)) as ->.
    { rewrite drop_drop. subst B. f_equal. lia. }
    subst A M. by rewrite !take_drop. }
  assert (Zlen A = Z.min (start - 1) (Zlen L)) as HA by (subst A; unfold Zlen; rewrite length_take; lia).
  rewrite EL in Hrep, HA.
  assert (Zlen M = Z.max 0 (Z.min (end_ - start + 1) (Zlen L - (start - 1)))) as HM by (subst M; unfold Zlen; rewrite length_take, length_drop; lia).
  assert (Zlen B = Z.max 0 (Zlen L - end_)) as HB by (subst B; unfold Zlen; rewrite length_drop; lia).
  rewrite <- EL in HA. destruct (zslDeleteRangeByRank_spec dictDelete z A M B start end_ Hrep Hs) as (z' & Hd & Hz & _); [by rewrite <- EL| | |by exists z'].
  - destruct (decide (Zlen M = 0)) as [E|E]; [left; by apply nil_length_inv; unfold Zlen in E; lia|right; lia].
  - destruct (decide (Zlen B = 0)) as [E|E]; [left; by apply nil_length_inv; unfold Zlen in E; lia|right]. lia.
Qed.

(** [zslNthInRange] returns the [n]-th node of the score range, counted
    from the start or, when [n] is negative, from the end, with its 1-based
    rank, and nothing when there is none, by either of its searches (stepping
    from the edge, or by rank from the last node passed at the top level). *)
Theorem zslNthInRange_correct z L range n : zsl_rep z L -> range_num range -> - 2 ^ 63 < n < 2 ^ 63 ->
  let M := List.filter (in_range (score_gte range) (score_lte range)) L in
  zslNthInRange z range n = Ret (match nth_of M n with
    | Some w => Some (it_id w, Zlen (List.filter (fun u => negb (score_gte range u)) L) + nth_pos M n + 1)
    | None => None
    end).
Proof.
  intros Hrep Hr Hn. pose proof (zr_nan _ _ Hrep) as Hnan.
  apply (nth_any z L (score_gte range) (score_lte range) (node_gte range) (node_lte range) (score_range_ok range) n Hrep); try done.
  - apply tests_gte.
  - apply tests_lte.
  - by apply score_range_tests.
  - intros He u Hu. by apply score_range_empty; [|apply Hnan|].
  - intros He u Hu. by apply score_range_total; [|apply Hnan|].
Qed.

(** [zslNthInLexRange] does the same for a lexicographic range, on a
    skiplist whose scores are all equal. *)
Theorem zslNthInLexRange_correct z L range n : zsl_rep z L -> same_scores L -> - 2 ^ 63 < n < 2 ^ 63 ->
  let M := List.filter (in_range (lex_gte range) (lex_lte range)) L in
  zslNthInLexRange z range n = Ret (match nth_of M n with
    | Some w => Some (it_id w, Zlen (List.filter (fun u => negb (lex_gte range u)) L) + nth_pos M n + 1)
    | None => None
    end).
Proof.
  intros Hrep Hr Hn.
  apply (nth_any z L (lex_gte range) (lex_lte range) (node_lex_gte range) (node_lex_lte range) (lex_range_ok range) n Hrep); try done.
  - apply tests_lex_gte.
  - apply tests_lex_lte.
  - by apply lex_range_tests.
  - intros He u Hu. by apply lex_range_empty.
  - intros He u Hu. by apply lex_range_total.
Qed.
End operations.

(** ** Witnesses *)

(** Appending an item that comes last. *)
Lemma demo_append z L s e : zsl_rep z L -> Zlen L < 100 -> (forall u, u ∈ L -> it_ele u <> e /\ it_score u < s) ->
  exists z' p h, zsl_rep z' (L ++ [{| it_id := p; it_score := s; it_ele := e; it_h := h |}]).
Proof.
  intros Hrep Hlen Hlt.
  destruct (zslInsert_spec no_junk z L [0; 536870911] s e Hrep eq_refl) as (z' & p & h & A & B & _ & -> & _ & Hrep' & _); [|lia|done|].
  { intros u Hu. apply Hlt, Hu. }
  exists z', p, h. assert (B = []) as ->; [|by rewrite app_nil_r]. destruct B as [|u B]; [done|]. exfalso.
  destruct (Hlt u) as [_ Hu]; [apply elem_of_app; right; left|].
  destruct (sorted_delete _ _ _ (zr_sorted _ _ Hrep')) as (_ & _ & HB). specialize (HB u ltac:(left)).
  apply item_lt_score in HB. cbn in HB. apply Z.ltb_ge in HB. lia.
Qed.

(** A skiplist of the elements b, a and c with the scores 1, 5 and 7. *)
Lemma demo_rep : exists z u v w, zsl_rep z [u; v; w] /\ (it_score u, it_ele u) = (1, [98]) /\ (it_score v, it_ele v) = (5, [97]) /\
  (it_score w, it_ele w) = (7, [99]).
Proof.
  destruct (demo_append zslCreate [] 1 [98] zslCreate_spec) as (z1 & p1 & h1 & H1); [done|intros u Hu; by apply not_elem_of_nil in Hu|].
  destruct (demo_append z1 _ 5 [97] H1) as (z2 & p2 & h2 & H2); [done|intros u Hu; apply list_elem_of_singleton in Hu as ->; done|].
  destruct (demo_append z2 _ 7 [99] H2) as (z3 & p3 & h3 & H3); [done| |].
  { intros u Hu. apply elem_of_cons in Hu as [-> |Hu%list_elem_of_singleton]; [done|by subst u]. }
  eexists z3, _, _, _. split; [exact H3|done].
Qed.

Example zslInsert_witness : exists z p h A B, zslInsert no_junk zslCreate [0; 536870911] 5 [97] = Ret (z, p) /\ [] = A ++ B /\
  1 <= h <= ZSKIPLIST_MAXLEVEL /\ zsl_rep z (A ++ {| it_id := p; it_score := 5; it_ele := [97]; it_h := h |} :: B).
Proof.
  apply (zslInsert_correct no_junk zslCreate [] [0; 536870911] 5 [97] zslCreate_spec).
  - reflexivity.
  - intros u Hu. exfalso. by apply not_elem_of_nil in Hu.
  - reflexivity.
  - reflexivity.
Defined.

Example zslDelete_witness : exists z u v w z', zsl_rep z [u; v; w] /\ zslDelete z (it_id v) = Ret z' /\ zsl_rep z' [u; w] /\ zsl_nodes z' !! it_id v = None.
Proof.
  destruct demo_rep as (z & u & v & w & Hrep & _). destruct (zslDelete_correct z [u] v [w] Hrep) as (z' & H). by exists z, u, v, w, z'.
Defined.

(** The score 1 of b becomes 9. *)
Example zslUpdateScore_witness : exists z u v w z' A B, zsl_rep z [u; v; w] /\ it_score u = 1 /\ zslUpdateScore z (it_id u) 9 = Ret z' /\ [v; w] = A ++ B /\
  zsl_rep z' (A ++ {| it_id := it_id u; it_score := 9; it_ele := it_ele u; it_h := it_h u |} :: B).
Proof.
  destruct demo_rep as (z & u & v & w & Hrep & Hu & Hv & Hw). injection Hu as Hu1 Hu2. injection Hv as Hv1 Hv2. injection Hw as Hw1 Hw2.
  destruct (zslUpdateScore_correct z [] u [v; w] 9 Hrep eq_refl) as (z' & A & B & H1 & H2 & H3).
  - intros x Hx. apply elem_of_cons in Hx as [-> |Hx%list_elem_of_singleton]; [congruence|subst x; congruence].
  - by exists z, u, v, w, z', A, B.
Defined.

Example zsl_ranks_witness : exists z u v w, zsl_rep z [u; v; w] /\ zslGetRank z 5 [97] = Ret 2 /\ zslGetRank z 5 [98; 97] = Ret 0 /\
  zslGetElementByRank z 3 = Ret (Some (it_id w)) /\ zslGetElementByRank z 4 = Ret None.
Proof.
  destruct demo_rep as (z & u & v & w & Hrep & Hu & Hv & Hw). injection Hu as Hu1 Hu2. injection Hv as Hv1 Hv2. injection Hw as Hw1 Hw2.
  destruct (zsl_ranks_agree z _ Hrep) as (H1 & H2 & H3). exists z, u, v, w. split; [done|].
  destruct (H1 [u] v [w] eq_refl) as [E1 _]. rewrite Hv1, Hv2 in E1. split; [exact E1|].
  destruct (H1 [u; v] w [] eq_refl) as (_ & _ & E3). split; [|split; [exact E3|by apply H3]].
  apply H2; [done|]. intros x Hx. rewrite !elem_of_cons in Hx. destruct Hx as [-> |[-> |[-> |Hx]]]; [congruence..|by apply not_elem_of_nil in Hx].
Defined.

(** A dictionary as the list of the keys deleted from it. *)
Definition log_delete (d : list (list Z)) (e : list Z) : outcome (list (list Z)) := Ret (d ++ [e]).

Definition demo_range : zrangespec Z := {| rs_min := 1; rs_max := 7; rs_minex := true; rs_maxex := false |}.

Example zslDeleteRangeByScore_witness : exists z u v w z', zsl_rep z [u; v; w] /\
  zslDeleteRangeByScore log_delete z demo_range [] = Ret (z', [[97]; [99]], 2) /\ zsl_rep z' [u].
Proof.
  destruct demo_rep as (z & u & v & w & Hrep & Hu & Hv & Hw). injection Hu as Hu1 Hu2. injection Hv as Hv1 Hv2. injection Hw as Hw1 Hw2.
  destruct (zslDeleteRangeByScore_correct log_delete z _ demo_range Hrep) as (z' & Hd & Hz); [by split|].
  exists z, u, v, w, z'. split; [done|]. specialize (Hd []). revert Hd Hz. cbn [List.filter]. unfold in_range, score_gte, score_lte.
  rewrite Hu1, Hv1, Hw1. cbn. rewrite Hv2, Hw2. done.
Defined.

Definition demo_lex : zlexrangespec := {| ls_min := LexMin; ls_max := LexVal [98]; ls_minex := false; ls_maxex := false |}.

Example zslDeleteRangeByLex_witness : exists z u z', zsl_rep z [u] /\ it_ele u = [98] /\ zslDeleteRangeByLex log_delete z demo_lex [] = Ret (z', [[98]], 1) /\ zsl_rep z' [].
Proof.
  destruct (demo_append zslCreate [] 1 [98] zslCreate_spec) as (z & p & h & Hrep); [done|intros u Hu; exfalso; by apply not_elem_of_nil in Hu|].
  cbn [app] in Hrep. destruct (zslDeleteRangeByLex_correct log_delete z _ demo_lex Hrep) as (z' & Hd & Hz).
  - intros u v Hu Hv. apply list_elem_of_singleton in Hu as ->, Hv as ->. done.
  - eexists z, _, z'. split; [done|]. split; [done|]. by specialize (Hd []).
Defined.

Example zslDeleteRangeByRank_witness : exists z u v w z', zsl_rep z [u; v; w] /\
  zslDeleteRangeByRank log_delete z 2 2 [] = Ret (z', [[97]], 1) /\ zsl_rep z' [u; w].
Proof.
  destruct demo_rep as (z & u & v & w & Hrep & Hu & Hv & Hw). injection Hv as Hv1 Hv2.
  destruct (zslDeleteRangeByRank_correct log_delete z _ 2 2 Hrep) as (z' & Hd & Hz); [lia|lia|].
  exists z, u, v, w, z'. split; [done|]. specialize (Hd []). rewrite <- Hv2. split; [exact Hd|exact Hz].
Defined.

Example zslNthInRange_witness : exists z u v w, zsl_rep z [u; v; w] /\ zslNthInRange z demo_range (-1) = Ret (Some (it_id w, 3)) /\
  zslNthInRange z demo_range 2 = Ret None.
Proof.
  destruct demo_rep as (z & u & v & w & Hrep & Hu & Hv & Hw). injection Hu as Hu1 Hu2. injection Hv as Hv1 Hv2. injection Hw as Hw1 Hw2.
  exists z, u, v, w. split; [done|].
  split; (rewrite (zslNthInRange_correct z _ demo_range _ Hrep); [|by split|done]); cbn [List.filter]; unfold in_range, score_gte, score_lte;
    rewrite Hu1, Hv1, Hw1; reflexivity.
Defined.

Example zslNthInLexRange_witness : exists z u, zsl_rep z [u] /\ zslNthInLexRange z demo_lex 0 = Ret (Some (it_id u, 1)).
Proof.
  destruct (demo_append zslCreate [] 1 [98] zslCreate_spec) as (z & p & h & Hrep); [done|intros u Hu; exfalso; by apply not_elem_of_nil in Hu|].
  cbn [app] in Hrep. eexists z, _. split; [exact Hrep|]. rewrite (zslNthInLexRange_correct z _ demo_lex 0 Hrep); [reflexivity| |done].
  intros u v Hu Hv. apply list_elem_of_singleton in Hu as ->, Hv as ->. done.
Defined.
