(* ===== verification/Bitops.v ===== *)
(** * Bitops: bitmaps over strings (bitops.c)

    The counting and searching primitives, the integer fields, and the bit
    commands.  A buffer is a block of bytes and an index in it; bit number 0 of a
    buffer is the most significant bit of its first byte.  The commands are
    modelled from their arguments and the objects their keys hold to the replies
    and the string they store; the notifications, the statistics of key sizes and
    the vector variants (AVX2, AVX512, NEON) are left out. *)

From S2P Require Import Prelude Memory NumStr Sds.

(** ** Counting bits *)

Definition B2 (n : Z) : list Z := [n; n + 1; n + 1; n + 2].
Definition B4 (n : Z) : list Z := B2 n ++ B2 (n + 1) ++ B2 (n + 1) ++ B2 (n + 2).
Definition B6 (n : Z) : list Z := B4 n ++ B4 (n + 1) ++ B4 (n + 1) ++ B4 (n + 2).
Definition bitsinbyte : list Z := B6 0 ++ B6 1 ++ B6 1 ++ B6 2.

(** The builtin of the compiler, on 64 bits. *)
Definition popcountll (x : Z) : Z := zsum ((fun i => Z.b2z (Z.testbit x (Z.of_nat i))) <$> seq 0 64).

(** [while(count--) bits += bitsinbyte[*p++]]. *)
Fixpoint popcount_bytes (count : nat) (s : list Z) (p bits : Z) : outcome Z :=
  match count with
  | O => Ret bits
  | S count => b ← rd s p; c ← rd bitsinbyte b; popcount_bytes count s (p + 1) (bits + c)
  end.

(** [addr] is the address of [s]; the loop stops when [p] is aligned. *)
Fixpoint popcount_align (fuel : nat) (s : list Z) (addr align p count bits : Z) : outcome (Z * Z * Z) :=
  if (Z.land (addr + p) align =? 0) || (count =? 0) then Ret (p, count, bits) else
  match fuel with
  | O => OutOfFuel
  | S fuel =>
    b ← rd s p; c ← rd bitsinbyte b;
    popcount_align fuel s addr align (p + 1) (count - 1) (bits + c)
  end.

(** 32 bytes at a time, with the instruction. *)
Fixpoint popcount_popcnt (fuel : nat) (s : list Z) (p count cnt0 cnt1 cnt2 cnt3 : Z) : outcome (Z * Z * Z) :=
  if count <? 32 then Ret (p, count, cnt0 + cnt1 + cnt2 + cnt3) else
  match fuel with
  | O => OutOfFuel
  | S fuel =>
    w0 ← rdn s p 8; w1 ← rdn s (p + 8) 8; w2 ← rdn s (p + 16) 8; w3 ← rdn s (p + 24) 8;
    popcount_popcnt fuel s (p + 32) (count - 32)
      (cnt0 + popcountll (le_value w0)) (cnt1 + popcountll (le_value w1))
      (cnt2 + popcountll (le_value w2)) (cnt3 + popcountll (le_value w3))
  end.

(** The counts of the 4-bit fields of a word, and those of its bytes. *)
Definition swar_fields (aux : Z) : Z :=
  let aux := u32 (aux - Z.land (Z.shiftr aux 1) 0x55555555) in
  u32 (Z.land aux 0x33333333 + Z.land (Z.shiftr aux 2) 0x33333333).
Definition swar_bytes (aux : Z) : Z := Z.land (u32 (aux + Z.shiftr aux 4)) 0x0F0F0F0F.

(** 28 bytes at a time, without it. *)
Fixpoint popcount_swar (fuel : nat) (s : list Z) (p count bits : Z) : outcome (Z * Z * Z) :=
  if count <? 28 then Ret (p, count, bits) else
  match fuel with
  | O => OutOfFuel
  | S fuel =>
    aux1 ← rdn s p 4; aux2 ← rdn s (p + 4) 4; aux3 ← rdn s (p + 8) 4; aux4 ← rdn s (p + 12) 4;
    aux5 ← rdn s (p + 16) 4; aux6 ← rdn s (p + 20) 4; aux7 ← rdn s (p + 24) 4;
    let count_of aux := swar_bytes (swar_fields (le_value aux)) in
    let sum := u32 (count_of aux1 + count_of aux2 + count_of aux3 + count_of aux4 + count_of aux5 + count_of aux6 + count_of aux7) in
    popcount_swar fuel s (p + 28) (count - 28) (bits + Z.shiftr (u32 (sum * 0x01010101)) 24)
  end.

(** [use_popcnt] is whether the processor has the instruction. *)
Definition redisPopcount (use_popcnt : bool) (addr : Z) (s : list Z) (p count : Z) : outcome Z :=
  let align := if use_popcnt then 7 else 3 in
  '(p, count, bits) ← popcount_align (Z.to_nat count) s addr align p count 0;
  '(p, count, bits) ←
    (if use_popcnt then
       '(p, count, cnt) ← popcount_popcnt (Z.to_nat count) s p count 0 0 0 0; Ret (p, count, bits + cnt)
     else popcount_swar (Z.to_nat count) s p count bits);
  popcount_bytes (Z.to_nat count) s p bits.

(** ** Finding a bit *)

Fixpoint bitpos_align (fuel : nat) (s : list Z) (addr c count pos skipval : Z) : outcome (bool * Z * Z * Z) :=
  if (Z.land (addr + c) 7 =? 0) || (count =? 0) then Ret (false, c, count, pos) else
  match fuel with
  | O => OutOfFuel
  | S fuel =>
    b ← rd s c;
    if negb (b =? skipval) then Ret (true, c, count, pos) else
    bitpos_align fuel s addr (c + 1) (count - 1) (pos + 8) skipval
  end.

Fixpoint bitpos_words (fuel : nat) (s : list Z) (l count pos skipval : Z) : outcome (Z * Z * Z) :=
  if count <? 8 then Ret (l, count, pos) else
  match fuel with
  | O => OutOfFuel
  | S fuel =>
    w ← rdn s l 8;
    if negb (le_value w =? skipval) then Ret (l, count, pos) else
    bitpos_words fuel s (l + 8) (count - 8) (pos + 64) skipval
  end.

(** The next bytes as a big-endian word, padded with zeroes. *)
Fixpoint load_word (j : nat) (s : list Z) (c count word : Z) : outcome Z :=
  match j with
  | O => Ret word
  | S j =>
    let word := u64 (Z.shiftl word 8) in
    if negb (count =? 0) then b ← rd s c; load_word j s (c + 1) (count - 1) (Z.lor word b)
    else load_word j s c count word
  end.

(** [while(one)]; the end of the loop is the end of the function, a panic. *)
Fixpoint scan_word (fuel : nat) (one word bit pos : Z) : outcome Z :=
  if one =? 0 then AssertFail else
  match fuel with
  | O => OutOfFuel
  | S fuel =>
    if c_bool (negb (Z.land one word =? 0)) =? bit then Ret pos else
    scan_word fuel (Z.shiftr one 1) word bit (pos + 1)
  end.

Definition redisBitpos (addr : Z) (s : list Z) (p count bit : Z) : outcome Z :=
  let skipval := if negb (bit =? 0) then 0 else 255 in
  '(found, c, count, pos) ← bitpos_align (Z.to_nat count) s addr p count 0 skipval;
  '(l, count, pos) ←
    (if found : bool then Ret (c, count, pos) else
     let skipval := if negb (bit =? 0) then 0 else UINT64_MAX in
     bitpos_words (Z.to_nat count) s c count pos skipval);
  word ← load_word 8 s l count 0;
  if (bit =? 1) && (word =? 0) then Ret (-1) else
  let one := UINT64_MAX in
  let one := Z.shiftr one 1 in
  let one := UINT64_MAX - one in
  scan_word 64 one word bit pos.

(** ** Integer fields *)

(** The bits of [value] from the [n]-th down, at the bit [offset] of [p]. *)
Fixpoint set_bits (n : nat) (s : list Z) (p offset value : Z) : outcome (list Z) :=
  match n with
  | O => Ret s
  | S n =>
    let bitval := c_bool (negb (Z.land value (u64 (Z.shiftl 1 (Z.of_nat n))) =? 0)) in
    let byte := Z.shiftr offset 3 in
    let bit := 7 - Z.land offset 7 in
    byteval ← rd s (p + byte);
    let byteval := Z.land byteval (u64 (Z.lnot (Z.shiftl 1 bit))) in
    let byteval := Z.lor byteval (Z.shiftl bitval bit) in
    s ← wr s (p + byte) (Z.land byteval 0xff);
    set_bits n s p (u64 (offset + 1)) value
  end.

Definition setUnsignedBitfield (s : list Z) (p offset bits value : Z) : outcome (list Z) :=
  set_bits (Z.to_nat bits) s p offset value.

Definition setSignedBitfield (s : list Z) (p offset bits value : Z) : outcome (list Z) :=
  let uv := u64 value in setUnsignedBitfield s p offset bits uv.

Fixpoint get_bits (n : nat) (s : list Z) (p offset value : Z) : outcome Z :=
  match n with
  | O => Ret value
  | S n =>
    let byte := Z.shiftr offset 3 in
    let bit := 7 - Z.land offset 7 in
    byteval ← rd s (p + byte);
    let bitval := Z.land (Z.shiftr byteval bit) 1 in
    get_bits n s p (u64 (offset + 1)) (Z.lor (u64 (Z.shiftl value 1)) bitval)
  end.

Definition getUnsignedBitfield (s : list Z) (p offset bits : Z) : outcome Z :=
  get_bits (Z.to_nat bits) s p offset 0.

Definition getSignedBitfield (s : list Z) (p offset bits : Z) : outcome Z :=
  u ← getUnsignedBitfield s p offset bits;
  let value := s64 u in
  if (bits <? 64) && negb (Z.land (u64 value) (Z.shiftl 1 (bits - 1)) =? 0)
  then Ret (s64 (Z.lor (u64 value) (u64 (Z.shiftl UINT64_MAX bits))))
  else Ret value.

(** ** Overflow *)

Inductive owtype := BFOVERFLOW_WRAP | BFOVERFLOW_SAT | BFOVERFLOW_FAIL.

(** The value returned, and what is stored in [*limit], never NULL.  A shift by
    the width of the type is undefined. *)
Definition checkUnsignedBitfieldOverflow (value incr bits : Z) (ow : owtype) : outcome (Z * option Z) :=
  let max := if bits =? 64 then UINT64_MAX else Z.shiftl 1 bits - 1 in
  let maxincr := s64 (u64 (max - value)) in
  let minincr := s64 (u64 (- value)) in
  let handle_wrap :=
    _ ← c_assert (bits <? 64);
    let mask := u64 (Z.shiftl UINT64_MAX bits) in
    let res := u64 (value + incr) in
    Ret (1, Some (Z.land res (u64 (Z.lnot mask)))) in
  if (max <? value) || ((0 <? incr) && (maxincr <? incr)) then
    match ow with
    | BFOVERFLOW_WRAP => handle_wrap
    | BFOVERFLOW_SAT => Ret (1, Some max)
    | BFOVERFLOW_FAIL => Ret (1, None)
    end
  else if (incr <? 0) && (incr <? minincr) then
    match ow with
    | BFOVERFLOW_WRAP => handle_wrap
    | BFOVERFLOW_SAT => Ret (-1, Some 0)
    | BFOVERFLOW_FAIL => Ret (-1, None)
    end
  else Ret (0, None).

(** The subtraction [min-value] may overflow, then its result is not used. *)
Definition checkSignedBitfieldOverflow (value incr bits : Z) (ow : owtype) : outcome (Z * option Z) :=
  let max := if bits =? 64 then INT64_MAX else Z.shiftl 1 (bits - 1) - 1 in
  let min := - max - 1 in
  let maxincr := s64 (u64 (u64 max - u64 value)) in
  let minincr := s64 (min - value) in
  let handle_wrap :=
    let msb := Z.shiftl 1 (bits - 1) in
    let a := u64 value in
    let b := u64 incr in
    let c := u64 (a + b) in
    let c :=
      if bits <? 64 then
        let mask := u64 (Z.shiftl UINT64_MAX bits) in
        if negb (Z.land c msb =? 0) then Z.lor c mask else Z.land c (u64 (Z.lnot mask))
      else c in
    Ret (1, Some (s64 c)) in
  if (max <? value) || (negb (bits =? 64) && (maxincr <? incr)) || ((0 <=? value) && (0 <? incr) && (maxincr <? incr)) then
    match ow with
    | BFOVERFLOW_WRAP => handle_wrap
    | BFOVERFLOW_SAT => Ret (1, Some max)
    | BFOVERFLOW_FAIL => Ret (1, None)
    end
  else if (value <? min) || (negb (bits =? 64) && (incr <? minincr)) || ((value <? 0) && (incr <? 0) && (incr <? minincr)) then
    match ow with
    | BFOVERFLOW_WRAP => handle_wrap
    | BFOVERFLOW_SAT => Ret (-1, Some min)
    | BFOVERFLOW_FAIL => Ret (-1, None)
    end
  else Ret (0, None).

Example popcount_example : redisPopcount false 1 (map Z.of_nat (seq 0 80)) 2 78 = redisPopcount true 3 (map Z.of_nat (seq 0 80)) 2 78.
Proof. vm_compute. reflexivity. Qed.
Example bitpos_example : redisBitpos 0 (replicate 13 0 ++ [1; 7]) 0 15 1 = Ret 111.
Proof. vm_compute. reflexivity. Qed.
(** The field of bitops.c's comment: 23 in 5 bits at offset 7. *)
Example bitfield_example : setUnsignedBitfield [0; 0] 0 7 5 23 = Ret [1; 112].
Proof. vm_compute. reflexivity. Qed.
(** A value far below the range of the field saturates at the wrong end. *)
Example overflow_sat_example :
  checkSignedBitfieldOverflow (-1000) 0 8 BFOVERFLOW_SAT = Ret (-1, Some (-128)) /\
  checkSignedBitfieldOverflow INT64_MIN 0 8 BFOVERFLOW_SAT = Ret (1, Some 127).
Proof. vm_compute. split; reflexivity. Qed.

(** ** Commands *)

(** A value: a string, used in place when it is neither shared nor embedded, an
    integer, or another type. *)
Inductive kvobj := StrObj (in_place : bool) (s : sds) | IntObj (v : Z) | OtherObj.

Inductive bit_error :=
| ErrNotInteger | ErrBitOffset | ErrBitValue | ErrBitArgument | ErrSyntax | ErrWrongType
| ErrNotOneKey | ErrTwoKeys | ErrBitfieldType | ErrOverflowType | ErrReadOnly.

Inductive reply := ReplyLong (n : Z) | ReplyNull | ReplyArrayLen (n : Z) | ReplyError (e : bit_error).

(** What a command does to its key: nothing, a string stored, or a deletion. *)
Inductive key_effect := KeyKept | KeyStored (s : sds) | KeyDeleted.

(** The arguments are sds, read as C strings where the code does. *)
Definition c_string (s : sds) (i : Z) : outcome (list Z) :=
  n ← c_strlen (S (length (sds_block s))) (sds_block s) (sds_pos s + i); s_read s i n.

(** [!strcasecmp(s,word)], for a word in lower case. *)
Definition strcasecmp_is (s : sds) (word : list Z) : outcome bool :=
  t ← c_string s 0; Ret (bool_decide (map c_tolower t = word)).

Definition w_bit : list Z := [98; 105; 116].
Definition w_byte : list Z := [98; 121; 116; 101].

Definition checkType (o : option kvobj) : bool := match o with Some OtherObj => true | _ => false end.

(** The block, the index of the first byte and the length. *)
Definition getObjectReadOnlyString (o : option kvobj) : outcome (list Z * Z * Z) :=
  match o with
  | Some (IntObj v) => '(llbuf, len) ← ll2string (replicate (Z.to_nat LONG_STR_SIZE) 0) LONG_STR_SIZE v; Ret (llbuf, 0, len)
  | Some (StrObj _ s) => len ← sdslen s; Ret (sds_block s, sds_pos s, len)
  | Some OtherObj => AssertFail
  | None => Ret ([], 0, 0)
  end.

Definition getLongLongFromObject (o : sds) : outcome (option Z) := bs ← s_bytes o; Ret (string2ll bs).

(** [obey] is [mustObeyClient(c)]. *)
Definition getBitOffsetFromArgument (obey : bool) (proto_max_bulk_len : Z) (o : sds) (hash : bool) (bits : Z) : outcome (option Z) :=
  plen ← sdslen o;
  c ← s_get o 0;
  let usehash := (c =? 35) && hash && (0 <? bits) in
  bs ← s_read o (c_bool usehash) (plen - c_bool usehash);
  match string2ll bs with
  | None => Ret None
  | Some loffset =>
    if loffset <? 0 then Ret None else
    if usehash && (LLONG_MAX / bits <? loffset) then Ret None else
    let loffset := if usehash then loffset * bits else loffset in
    if negb obey && (proto_max_bulk_len <=? Z.shiftr loffset 3) then Ret None else Ret (Some loffset)
  end.

(** The sign and the number of bits. *)
Definition getBitfieldTypeFromArgument (o : sds) : outcome (option (bool * Z)) :=
  c ← s_get o 0;
  if negb ((c =? 105) || (c =? 117)) then Ret None else
  let sign := c =? 105 in
  t ← c_string o 1;
  match string2ll t with
  | None => Ret None
  | Some llbits =>
    if (llbits <? 1) || (sign && (64 <? llbits)) || (negb sign && (63 <? llbits)) then Ret None else Ret (Some (sign, llbits))
  end.

Section commands.
Context `{Allocator}.
Variables (use_popcnt : bool) (addr_of : list Z -> Z).
Variable lookupKeyRead : sds -> option kvobj.

(** Without the vector units. *)
Definition redisPopcountAuto (s : list Z) (p count : Z) : outcome Z := redisPopcount use_popcnt (addr_of s) s p count.

(** *** BITCOUNT and BITPOS *)

(** The masks of the bits of the first and the last byte that are outside a range of bits. *)
Definition first_mask (start : Z) : Z := Z.land (Z.lnot (Z.shiftl 1 (8 - Z.land start 7) - 1)) 0xff.
Definition last_mask (end_ : Z) : Z := Z.shiftl 1 (7 - Z.land end_ 7) - 1.

(** Negative indexes, and the end of the string. *)
Definition convert_range (totlen start end_ : Z) : Z * Z :=
  let start := if start <? 0 then totlen + start else start in
  let end_ := if end_ <? 0 then totlen + end_ else end_ in
  let start := if start <? 0 then 0 else start in
  let end_ := if end_ <? 0 then 0 else end_ in
  (start, if totlen <=? end_ then totlen - 1 else end_).

(** Bit offsets to byte offsets: the range and the masks. *)
Definition edge_masks (isbit : bool) (start end_ : Z) : Z * Z * Z * Z :=
  if isbit && (start <=? end_)
  then (Z.shiftr start 3, Z.shiftr end_ 3, first_mask start, last_mask end_) else (start, end_, 0, 0).

Definition bitcount_range (s : list Z) (p start end_ first_byte_neg_mask last_byte_neg_mask : Z) : outcome Z :=
  if end_ <? start then Ret 0 else
  let bytes := end_ - start + 1 in
  count ← redisPopcountAuto s (p + start) bytes;
  if negb (first_byte_neg_mask =? 0) || negb (last_byte_neg_mask =? 0) then
    first ← (if negb (first_byte_neg_mask =? 0) then b ← rd s (p + start); Ret (Z.land b first_byte_neg_mask) else Ret 0);
    last ← (if negb (last_byte_neg_mask =? 0) then b ← rd s (p + end_); Ret (Z.land b last_byte_neg_mask) else Ret 0);
    n ← redisPopcountAuto [first; last] 0 2;
    Ret (count - n)
  else Ret count.

Definition bitcount_in (key : sds) (start end_ : Z) (isbit : bool) : outcome reply :=
  let o := lookupKeyRead key in
  if checkType o then Ret (ReplyError ErrWrongType) else
  '(s, p, strlen) ← getObjectReadOnlyString o;
  let totlen := strlen in
  _ ← c_assert (totlen <=? Z.shiftr LLONG_MAX 3);
  if (start <? 0) && (end_ <? 0) && (end_ <? start) then Ret (ReplyLong 0) else
  let totlen := if isbit then Z.shiftl totlen 3 else totlen in
  let '(start, end_) := convert_range totlen start end_ in
  let '(start, end_, first, last) := edge_masks isbit start end_ in
  match o with
  | None => Ret (ReplyLong 0)
  | Some _ => n ← bitcount_range s p start end_ first last; Ret (ReplyLong n)
  end.

(** The unit of a range, [None] for a syntax error. *)
Definition range_unit (arg : option sds) : outcome (option bool) :=
  match arg with
  | None => Ret (Some false)
  | Some u =>
    b ← strcasecmp_is u w_bit;
    if (b : bool) then Ret (Some true) else
    b ← strcasecmp_is u w_byte; Ret (if (b : bool) then Some false else None)
  end.

(** [argv] without the name of the command. *)
Definition bitcountCommand (argv : list sds) : outcome reply :=
  match argv with
  | [key] =>
    let o := lookupKeyRead key in
    if checkType o then Ret (ReplyError ErrWrongType) else
    '(s, p, strlen) ← getObjectReadOnlyString o;
    match o with
    | None => Ret (ReplyLong 0)
    | Some _ => n ← bitcount_range s p 0 (strlen - 1) 0 0; Ret (ReplyLong n)
    end
  | key :: a :: b :: rest =>
    if 1 <? Zlen rest then Ret (ReplyError ErrSyntax) else
    start ← getLongLongFromObject a;
    match start with None => Ret (ReplyError ErrNotInteger) | Some start =>
    end_ ← getLongLongFromObject b;
    match end_ with None => Ret (ReplyError ErrNotInteger) | Some end_ =>
    isbit ← range_unit (head rest);
    match isbit with None => Ret (ReplyError ErrSyntax) | Some isbit => bitcount_in key start end_ isbit end
    end end
  | _ => Ret (ReplyError ErrSyntax)
  end.

(** From [pos] to the reply. *)
Definition bitpos_result (bit start bytes : Z) (end_given : bool) (pos : Z) : reply :=
  if end_given && (bit =? 0) && (pos =? Z.shiftl bytes 3) then ReplyLong (-1)
  else ReplyLong (if negb (pos =? -1) then pos + Z.shiftl start 3 else pos).

(** A byte with the bits of a mask made those that are not looked for. *)
Definition masked (bit b mask : Z) : Z :=
  if negb (bit =? 0) then Z.land b (u8 (Z.lnot mask)) else Z.lor b mask.

(** The bytes after the first, and the last one when it is masked. *)
Definition bitpos_tail (s : list Z) (p bit start bytes end_ last_byte_neg_mask : Z) (end_given : bool) : outcome reply :=
  let curbytes := bytes - (if negb (last_byte_neg_mask =? 0) then 1 else 0) in
  middle ←
    (if 0 <? curbytes then
       pos ← redisBitpos (addr_of s) s (p + start) curbytes bit;
       if (bytes =? curbytes) || (negb (pos =? -1) && negb (pos =? Z.shiftl curbytes 3))
       then Ret (inl (bitpos_result bit start bytes end_given pos))
       else Ret (inr (start + curbytes, bytes - curbytes))
     else Ret (inr (start, bytes)));
  match middle with inl r => Ret r | inr (start, bytes) =>
  b ← rd s (p + end_);
  let tmpchar := masked bit b last_byte_neg_mask in
  pos ← redisBitpos (addr_of [tmpchar]) [tmpchar] 0 1 bit;
  Ret (bitpos_result bit start bytes end_given pos)
  end.

Definition bitpos_range (s : list Z) (p bit start end_ first_byte_neg_mask last_byte_neg_mask : Z) (end_given : bool) : outcome reply :=
  if end_ <? start then Ret (ReplyLong (-1)) else
  let bytes := end_ - start + 1 in
  first ←
    (if negb (first_byte_neg_mask =? 0) then
       b ← rd s (p + start);
       let tmpchar := masked bit b first_byte_neg_mask in
       let tmpchar := if negb (last_byte_neg_mask =? 0) && (bytes =? 1) then masked bit tmpchar last_byte_neg_mask else tmpchar in
       pos ← redisBitpos (addr_of [tmpchar]) [tmpchar] 0 1 bit;
       if (bytes =? 1) || (negb (pos =? -1) && negb (pos =? 8)) then Ret (inl (bitpos_result bit start bytes end_given pos))
       else Ret (inr (start + 1, bytes - 1))
     else Ret (inr (start, bytes)));
  match first with inl r => Ret r | inr (start, bytes) => bitpos_tail s p bit start bytes end_ last_byte_neg_mask end_given end.

Definition bitpos_in (key : sds) (bit start : Z) (end_ : option Z) (isbit : bool) : outcome reply :=
  let o := lookupKeyRead key in
  if checkType o then Ret (ReplyError ErrWrongType) else
  '(s, p, strlen) ← getObjectReadOnlyString o;
  let totlen := strlen in
  _ ← c_assert (totlen <=? Z.shiftr LLONG_MAX 3);
  let end_given := bool_decide (is_Some end_) in
  let end_ := match end_ with
    | Some end_ => end_
    | None => if isbit then Z.shiftl totlen 3 + 7 else totlen - 1
    end in
  let totlen := if isbit then Z.shiftl totlen 3 else totlen in
  let '(start, end_) := convert_range totlen start end_ in
  let '(start, end_, first, last) := edge_masks isbit start end_ in
  match o with
  | None => Ret (ReplyLong (if negb (bit =? 0) then -1 else 0))
  | Some _ => bitpos_range s p bit start end_ first last end_given
  end.

Definition bitposCommand (argv : list sds) : outcome reply :=
  match argv with
  | key :: bit :: rest =>
    bit ← getLongLongFromObject bit;
    match bit with None => Ret (ReplyError ErrNotInteger) | Some bit =>
    if negb (bit =? 0) && negb (bit =? 1) then Ret (ReplyError ErrBitArgument) else
    match rest with
    | [] =>
      let o := lookupKeyRead key in
      if checkType o then Ret (ReplyError ErrWrongType) else
      '(s, p, strlen) ← getObjectReadOnlyString o;
      match o with
      | None => Ret (ReplyLong (if negb (bit =? 0) then -1 else 0))
      | Some _ => bitpos_range s p bit 0 (strlen - 1) 0 0 false
      end
    | a :: rest =>
      if 2 <? Zlen rest then Ret (ReplyError ErrSyntax) else
      start ← getLongLongFromObject a;
      match start with None => Ret (ReplyError ErrNotInteger) | Some start =>
      isbit ← range_unit (rest !! 1%nat);
      match isbit with None => Ret (ReplyError ErrSyntax) | Some isbit =>
      match rest with
      | [] => bitpos_in key bit start None isbit
      | e :: _ =>
        end_ ← getLongLongFromObject e;
        match end_ with None => Ret (ReplyError ErrNotInteger) | Some end_ => bitpos_in key bit start (Some end_) isbit end
      end end end
    end end
  | _ => Ret (ReplyError ErrSyntax)
  end.

(** *** BITOP *)

Inductive bitop := BITOP_AND | BITOP_OR | BITOP_XOR | BITOP_NOT | BITOP_DIFF | BITOP_DIFF1 | BITOP_ANDOR | BITOP_ONE.

(** The operations that combine the disjunction of the other keys with the first. *)
Definition is_disjunction (op : bitop) : bool :=
  match op with BITOP_DIFF | BITOP_DIFF1 | BITOP_ANDOR => true | _ => false end.

Definition parse_bitop (opname : sds) : outcome (option bitop) :=
  t ← c_string opname 0;
  let t := map c_tolower t in
  Ret (if bool_decide (t = [97; 110; 100]) then Some BITOP_AND
       else if bool_decide (t = [111; 114]) then Some BITOP_OR
       else if bool_decide (t = [120; 111; 114]) then Some BITOP_XOR
       else if bool_decide (t = [110; 111; 116]) then Some BITOP_NOT
       else if bool_decide (t = [100; 105; 102; 102]) then Some BITOP_DIFF
       else if bool_decide (t = [100; 105; 102; 102; 49]) then Some BITOP_DIFF1
       else if bool_decide (t = [97; 110; 100; 111; 114]) then Some BITOP_ANDOR
       else if bool_decide (t = [111; 110; 101]) then Some BITOP_ONE
       else None).

(** [src[i]] and [len[i]]; a missing key is NULL, of length 0. *)
Definition bitop_src : Type := option sds * Z.

Definition src_byte (src : bitop_src) (j : Z) : outcome Z :=
  if src.2 <=? j then Ret 0 else match src.1 with Some s => s_get s j | None => OutOfBounds end.

(** [lp[i][k]], and [lres[k] = f(lres[k])]. *)
Definition src_word (src : bitop_src) (k : Z) : outcome Z :=
  match src.1 with Some s => w ← s_read s (8 * k) 8; Ret (le_value w) | None => OutOfBounds end.
Definition res_word (res : sds) (k : Z) : outcome Z := w ← s_read res (8 * k) 8; Ret (le_value w).
Definition upd_word (res : sds) (k : Z) (f : Z -> Z) : outcome sds :=
  w ← res_word res k; s_write res (8 * k) (le_bytes 8 (u64 (f w))).

(** Four words, from the [k]-th on. *)
Definition four {A} (step : A -> Z -> outcome A) (a : A) (k : Z) : outcome A :=
  a ← step a k; a ← step a (k + 1); a ← step a (k + 2); step a (k + 3).

(** [for (i = 1; i < numkeys; i++)] over the keys but the first. *)
Fixpoint keys_words (f : Z -> Z -> Z) (keys : list bitop_src) (k : Z) (res : sds) : outcome sds :=
  match keys with
  | [] => Ret res
  | key :: keys =>
    res ← four (fun res k => w ← src_word key k; upd_word res k (fun r => f r w)) res k;
    keys_words f keys k res
  end.

(** BITOP ONE keeps the bits seen in more than one key in [lcommon_bits]. *)
Fixpoint keys_words_one (keys : list bitop_src) (k : Z) (res : sds) (lcommon_bits : list Z) : outcome (sds * list Z) :=
  match keys with
  | [] => Ret (res, lcommon_bits)
  | key :: keys =>
    lcommon_bits ← four (fun l i =>
      r ← res_word res (k + i); w ← src_word key (k + i); c ← rd l i; wr l i (Z.lor c (Z.land r w))) lcommon_bits 0;
    res ← four (fun res k => w ← src_word key k; upd_word res k (fun r => Z.lxor r w)) res k;
    keys_words_one keys k res lcommon_bits
  end.

(** The body of the loop of an operation. *)
Definition words_step (op : bitop) (keys : list bitop_src) (k : Z) (res : sds) : outcome sds :=
  match op with
  | BITOP_AND => keys_words Z.land keys k res
  | BITOP_OR | BITOP_DIFF | BITOP_DIFF1 | BITOP_ANDOR => keys_words Z.lor keys k res
  | BITOP_XOR => keys_words Z.lxor keys k res
  | BITOP_NOT => four (fun res k => upd_word res k Z.lnot) res k
  | BITOP_ONE =>
    '(res, lcommon_bits) ← keys_words_one keys k res [0; 0; 0; 0];
    four (fun res i => c ← rd lcommon_bits i; upd_word res (k + i) (fun r => Z.land r (Z.lnot c))) res 0
  end.

(** [while(minlen >= sizeof(unsigned long)*4)]: the result, [j] and [minlen]. *)
Fixpoint words_loop (fuel : nat) (op : bitop) (keys : list bitop_src) (k j minlen : Z) (res : sds) : outcome (sds * Z) :=
  if minlen <? 32 then Ret (res, j) else
  match fuel with
  | O => OutOfFuel
  | S fuel => res ← words_step op keys k res; words_loop fuel op keys (k + 4) (j + 32) (minlen - 32) res
  end.

(** The last step of an operation on a disjunction, for the first key. *)
Definition combine_first (op : bitop) (first disjunction : Z) : Z :=
  match op with
  | BITOP_DIFF => Z.land first (Z.lnot disjunction)
  | BITOP_DIFF1 => Z.land (Z.lnot first) disjunction
  | BITOP_ANDOR => Z.land first disjunction
  | _ => disjunction
  end.

Fixpoint first_loop (fuel : nat) (op : bitop) (first : bitop_src) (k i processed : Z) (res : sds) : outcome sds :=
  if processed <=? i then Ret res else
  match fuel with
  | O => OutOfFuel
  | S fuel =>
    res ← four (fun res k => f ← src_word first k; upd_word res k (combine_first op f)) res k;
    first_loop fuel op first (k + 4) (i + 32) processed res
  end.

(** The words of the part that all keys have: the result and [j]. *)
Definition bitop_words (op : bitop) (first : bitop_src) (keys : list bitop_src) (minlen : Z) (res : sds) : outcome (sds * Z) :=
  if minlen <? 32 then Ret (res, 0) else
  res ← (if is_disjunction op then Ret res else
         match first.1 with Some s => bs ← s_read s 0 minlen; s_write res 0 bs | None => OutOfBounds end);
  '(res, j) ← words_loop (Z.to_nat minlen) op keys 0 0 minlen res;
  if is_disjunction op then res ← first_loop (Z.to_nat minlen) op first 0 0 j res; Ret (res, j) else Ret (res, j).

(** The keys but the first, for one byte: [output], [disjunction] and [common_bits]. *)
Fixpoint keys_byte (op : bitop) (keys : list bitop_src) (j output disjunction common_bits : Z) : outcome (Z * Z) :=
  match keys with
  | [] => Ret (output, disjunction)
  | key :: keys =>
    byte ← src_byte key j;
    let '(output, disjunction, common_bits, skip) :=
      match op with
      | BITOP_AND => let output := Z.land output byte in (output, disjunction, common_bits, output =? 0)
      | BITOP_OR => let output := Z.lor output byte in (output, disjunction, common_bits, output =? 0xff)
      | BITOP_XOR => (Z.lxor output byte, disjunction, common_bits, false)
      | BITOP_DIFF | BITOP_DIFF1 | BITOP_ANDOR =>
        let disjunction := Z.lor disjunction byte in (output, disjunction, common_bits, disjunction =? 0xff)
      | BITOP_ONE =>
        let common_bits := Z.lor common_bits (Z.land output byte) in
        let output := Z.lxor output byte in
        let output := Z.land output (u8 (Z.lnot common_bits)) in
        (output, disjunction, common_bits, common_bits =? 0xff)
      | BITOP_NOT => (output, disjunction, common_bits, false)
      end in
    if skip then Ret (output, disjunction) else keys_byte op keys j output disjunction common_bits
  end.

(** [for (; j < maxlen; j++)]. *)
Fixpoint bytes_loop (n : nat) (op : bitop) (first : bitop_src) (keys : list bitop_src) (j : Z) (res : sds) : outcome sds :=
  match n with
  | O => Ret res
  | S n =>
    output ← src_byte first j;
    let output := match op with BITOP_NOT => u8 (Z.lnot output) | _ => output end in
    '(output, disjunction) ← keys_byte op keys j output 0 0;
    res ← s_put res j (if is_disjunction op then combine_first op output disjunction else output);
    bytes_loop n op first keys (j + 1) res
  end.

Definition bitop_compute (op : bitop) (first : bitop_src) (keys : list bitop_src) (minlen maxlen : Z) : outcome sds :=
  res ← sdsnewlen InitZero maxlen;
  '(res, j) ← bitop_words op first keys minlen res;
  bytes_loop (Z.to_nat (maxlen - j)) op first keys j res.

(** [getDecodedObject]. *)
Definition decoded_string (o : kvobj) : outcome sds :=
  match o with
  | StrObj _ s => Ret s
  | IntObj v => '(buf, len) ← ll2string (replicate 32 0) 32 v; bs ← rdn buf 0 len; sdsnewlen (InitFrom bs) len
  | OtherObj => AssertFail
  end.

(** The sources, with [minlen] and [maxlen]; [None] when one is not a string. *)
Fixpoint bitop_sources (names : list sds) (j minlen maxlen : Z) : outcome (option (list bitop_src * Z * Z)) :=
  match names with
  | [] => Ret (Some ([], minlen, maxlen))
  | name :: names =>
    match lookupKeyRead name with
    | None =>
      r ← bitop_sources names (j + 1) 0 maxlen;
      Ret (match r with Some (l, mn, mx) => Some ((None, 0) :: l, mn, mx) | None => None end)
    | Some kv =>
      if checkType (Some kv) then Ret None else
      s ← decoded_string kv; len ← sdslen s;
      let maxlen := if maxlen <? len then len else maxlen in
      let minlen := if (j =? 0) || (len <? minlen) then len else minlen in
      r ← bitop_sources names (j + 1) minlen maxlen;
      Ret (match r with Some (l, mn, mx) => Some ((Some s, len) :: l, mn, mx) | None => None end)
    end
  end.

(** [argv] without the name of the command. *)
Definition bitopCommand (argv : list sds) : outcome (reply * key_effect) :=
  match argv with
  | opname :: targetkey :: names =>
    op ← parse_bitop opname;
    match op with None => Ret (ReplyError ErrSyntax, KeyKept) | Some op =>
    if (match op with BITOP_NOT => true | _ => false end) && negb (Zlen names =? 1) then Ret (ReplyError ErrNotOneKey, KeyKept) else
    if is_disjunction op && (Zlen names <? 2) then Ret (ReplyError ErrTwoKeys, KeyKept) else
    srcs ← bitop_sources names 0 0 0;
    match srcs with
    | None => Ret (ReplyError ErrWrongType, KeyKept)
    | Some (first :: keys, minlen, maxlen) =>
      if negb (maxlen =? 0) then res ← bitop_compute op first keys minlen maxlen; Ret (ReplyLong maxlen, KeyStored res)
      else Ret (ReplyLong maxlen, KeyDeleted)
    | Some ([], _, maxlen) => Ret (ReplyLong maxlen, KeyDeleted)
    end end
  | _ => Ret (ReplyError ErrSyntax, KeyKept)
  end.

(** *** SETBIT, GETBIT and BITFIELD *)

Variables (obey : bool) (proto_max_bulk_len : Z).

(** The string to write to, its old size and its growth; [None] for another type. *)
Definition lookupStringForBitCommand (key : sds) (maxbit : Z) : outcome (option (sds * Z * Z)) :=
  let byte := Z.shiftr maxbit 3 in
  let o := lookupKeyRead key in
  if checkType o then Ret None else
  match o with
  | None => s ← sdsnewlen InitZero (byte + 1); Ret (Some (s, 0, byte + 1))
  | Some kv =>
    s ← match kv with StrObj true s => Ret s | _ => s ← decoded_string kv; sdsdup s end;
    strOldSize ← sdslen s;
    s ← sdsgrowzero s (byte + 1);
    len ← sdslen s;
    Ret (Some (s, strOldSize, len - strOldSize))
  end.

(** The reply, the string and whether it counts as changed. *)
Definition setbitCommand (argv : list sds) : outcome (reply * option (sds * bool)) :=
  match argv with
  | [key; offset; on] =>
    bitoffset ← getBitOffsetFromArgument obey proto_max_bulk_len offset false 0;
    match bitoffset with None => Ret (ReplyError ErrBitOffset, None) | Some bitoffset =>
    on ← getLongLongFromObject on;
    match on with None => Ret (ReplyError ErrBitValue, None) | Some on =>
    if negb (Z.land on (Z.lnot 1) =? 0) then Ret (ReplyError ErrBitValue, None) else
    o ← lookupStringForBitCommand key bitoffset;
    match o with None => Ret (ReplyError ErrWrongType, None) | Some (o, strOldSize, strGrowSize) =>
    let byte := Z.shiftr bitoffset 3 in
    byteval ← s_get o byte;
    let bit := 7 - Z.land bitoffset 7 in
    let bitval := Z.land byteval (Z.shiftl 1 bit) in
    let changed := negb (strGrowSize =? 0) || negb (c_bool (negb (bitval =? 0)) =? on) in
    o ← (if changed then
           let byteval := Z.land byteval (Z.lnot (Z.shiftl 1 bit)) in
           let byteval := Z.lor byteval (Z.shiftl (Z.land on 1) bit) in
           s_put o byte byteval
         else Ret o);
    Ret (ReplyLong (c_bool (negb (bitval =? 0))), Some (o, changed))
    end end end
  | _ => Ret (ReplyError ErrSyntax, None)
  end.

Definition getbitCommand (argv : list sds) : outcome reply :=
  match argv with
  | [key; offset] =>
    bitoffset ← getBitOffsetFromArgument obey proto_max_bulk_len offset false 0;
    match bitoffset with None => Ret (ReplyError ErrBitOffset) | Some bitoffset =>
    match lookupKeyRead key with
    | None => Ret (ReplyLong 0)
    | Some OtherObj => Ret (ReplyError ErrWrongType)
    | Some kv =>
      let byte := Z.shiftr bitoffset 3 in
      let bit := 7 - Z.land bitoffset 7 in
      '(s, p, len) ← getObjectReadOnlyString (Some kv);
      bitval ← (if byte <? len then b ← rd s (p + byte); Ret (Z.land b (Z.shiftl 1 bit)) else Ret 0);
      Ret (ReplyLong (c_bool (negb (bitval =? 0))))
    end end
  | _ => Ret (ReplyError ErrSyntax)
  end.

Inductive bitfield_opcode := BITFIELDOP_GET | BITFIELDOP_SET | BITFIELDOP_INCRBY.

Record bitfieldOp := {
  bf_offset : Z;
  bf_i64 : Z;
  bf_opcode : bitfield_opcode;
  bf_owtype : owtype;
  bf_bits : Z;
  bf_sign : bool;
}.

Definition w_get : list Z := [103; 101; 116].
Definition w_set : list Z := [115; 101; 116].
Definition w_incrby : list Z := [105; 110; 99; 114; 98; 121].
Definition w_overflow : list Z := [111; 118; 101; 114; 102; 108; 111; 119].

Definition parse_owtype (arg : sds) : outcome (option owtype) :=
  t ← c_string arg 0;
  let t := map c_tolower t in
  Ret (if bool_decide (t = [119; 114; 97; 112]) then Some BFOVERFLOW_WRAP
       else if bool_decide (t = [115; 97; 116]) then Some BFOVERFLOW_SAT
       else if bool_decide (t = [102; 97; 105; 108]) then Some BFOVERFLOW_FAIL else None).

(** The type and the offset of an operation. *)
Definition parse_field (type offset : sds) : outcome (bool * Z * Z + bit_error) :=
  t ← getBitfieldTypeFromArgument type;
  match t with None => Ret (inr ErrBitfieldType) | Some (sign, bits) =>
  bitoffset ← getBitOffsetFromArgument obey proto_max_bulk_len offset true bits;
  match bitoffset with None => Ret (inr ErrBitOffset) | Some bitoffset => Ret (inl (sign, bits, bitoffset)) end
  end.

(** The operations, whether none writes, and the highest bit written. *)
Fixpoint parse_ops (args : list sds) (ow : owtype) (ops : list bitfieldOp) (readonly : bool) (highest_write_offset : Z)
    : outcome (list bitfieldOp * bool * Z + bit_error) :=
  match args with
  | [] => Ret (inl (ops, readonly, highest_write_offset))
  | subcmd :: rest =>
    is_get ← strcasecmp_is subcmd w_get;
    is_set ← strcasecmp_is subcmd w_set;
    is_incrby ← strcasecmp_is subcmd w_incrby;
    is_overflow ← strcasecmp_is subcmd w_overflow;
    match rest with
    | arg :: rest1 =>
      match rest1 with
      | offset :: rest2 =>
        if is_get : bool then
          f ← parse_field arg offset;
          match f with inr e => Ret (inr e) | inl (sign, bits, bitoffset) =>
          let thisop := {| bf_offset := bitoffset; bf_i64 := 0; bf_opcode := BITFIELDOP_GET; bf_owtype := ow; bf_bits := bits; bf_sign := sign |} in
          parse_ops rest2 ow (ops ++ [thisop]) readonly highest_write_offset
          end
        else if (is_set || is_incrby) && (1 <=? Zlen rest2) then
          match rest2 with
          | value :: rest3 =>
            f ← parse_field arg offset;
            match f with inr e => Ret (inr e) | inl (sign, bits, bitoffset) =>
            let highest_write_offset := if highest_write_offset <? bitoffset + bits - 1 then bitoffset + bits - 1 else highest_write_offset in
            i64 ← getLongLongFromObject value;
            match i64 with None => Ret (inr ErrNotInteger) | Some i64 =>
            let thisop := {| bf_offset := bitoffset; bf_i64 := i64; bf_opcode := if (is_set : bool) then BITFIELDOP_SET else BITFIELDOP_INCRBY;
                             bf_owtype := ow; bf_bits := bits; bf_sign := sign |} in
            parse_ops rest3 ow (ops ++ [thisop]) false highest_write_offset
            end end
          | [] => Ret (inr ErrSyntax)
          end
        else if is_overflow : bool then
          ow ← parse_owtype arg;
          match ow with None => Ret (inr ErrOverflowType) | Some ow => parse_ops rest1 ow ops readonly highest_write_offset end
        else Ret (inr ErrSyntax)
      | [] =>
        if is_overflow : bool then
          ow ← parse_owtype arg;
          match ow with None => Ret (inr ErrOverflowType) | Some ow => parse_ops rest1 ow ops readonly highest_write_offset end
        else Ret (inr ErrSyntax)
      end
    | [] => Ret (inr ErrSyntax)
    end
  end.

(** SET and INCRBY: the reply, the string and whether it changed. *)
Definition write_op (o : sds) (strGrowSize : Z) (op : bitfieldOp) : outcome (reply * sds * bool) :=
  '(oldval, newval, retval, overflow) ←
    (if bf_sign op then
       oldval ← getSignedBitfield (sds_block o) (sds_pos o) (bf_offset op) (bf_bits op);
       match bf_opcode op with
       | BITFIELDOP_INCRBY =>
         '(overflow, wrapped) ← checkSignedBitfieldOverflow oldval (bf_i64 op) (bf_bits op) (bf_owtype op);
         let newval := if negb (overflow =? 0) then default 0 wrapped else oldval + bf_i64 op in
         Ret (oldval, newval, newval, overflow)
       | _ =>
         let newval := bf_i64 op in
         '(overflow, wrapped) ← checkSignedBitfieldOverflow newval 0 (bf_bits op) (bf_owtype op);
         let newval := if negb (overflow =? 0) then default 0 wrapped else newval in
         Ret (oldval, newval, oldval, overflow)
       end
     else
       oldval ← getUnsignedBitfield (sds_block o) (sds_pos o) (bf_offset op) (bf_bits op);
       match bf_opcode op with
       | BITFIELDOP_INCRBY =>
         let newval := u64 (oldval + bf_i64 op) in
         '(overflow, wrapped) ← checkUnsignedBitfieldOverflow oldval (bf_i64 op) (bf_bits op) (bf_owtype op);
         let newval := if negb (overflow =? 0) then default 0 wrapped else newval in
         Ret (oldval, newval, newval, overflow)
       | _ =>
         let newval := u64 (bf_i64 op) in
         '(overflow, wrapped) ← checkUnsignedBitfieldOverflow newval 0 (bf_bits op) (bf_owtype op);
         let newval := if negb (overflow =? 0) then default 0 wrapped else newval in
         Ret (oldval, newval, oldval, overflow)
       end);
  if negb (negb (overflow =? 0) && match bf_owtype op with BFOVERFLOW_FAIL => true | _ => false end) then
    block ← (if bf_sign op then setSignedBitfield (sds_block o) (sds_pos o) (bf_offset op) (bf_bits op) newval
             else setUnsignedBitfield (sds_block o) (sds_pos o) (bf_offset op) (bf_bits op) newval);
    Ret (ReplyLong (s64 retval), Build_sds block (sds_pos o), negb (strGrowSize =? 0) || negb (oldval =? newval))
  else Ret (ReplyNull, o, false).

(** GET copies up to nine bytes to a buffer of zeroes. *)
Fixpoint copy_bytes (n : nat) (src : list Z) (p byte strlen : Z) (i : Z) (buf : list Z) : outcome (list Z) :=
  match n with
  | O => Ret buf
  | S n => if strlen <=? i + byte then Ret buf else b ← rd src (p + i + byte); buf ← wr buf i b; copy_bytes n src p byte strlen (i + 1) buf
  end.

Definition get_op (o : option kvobj) (op : bitfieldOp) : outcome reply :=
  '(src, p, strlen) ← getObjectReadOnlyString o;
  let byte := Z.shiftr (bf_offset op) 3 in
  buf ← copy_bytes 9 src p byte strlen 0 (replicate 9 0);
  if bf_sign op then val ← getSignedBitfield buf 0 (bf_offset op - byte * 8) (bf_bits op); Ret (ReplyLong val)
  else val ← getUnsignedBitfield buf 0 (bf_offset op - byte * 8) (bf_bits op); Ret (ReplyLong (s64 val)).

(** The operations in order: the replies, the object and the number of changes. *)
Fixpoint exec_ops (ops : list bitfieldOp) (o : option kvobj) (strGrowSize changes : Z) : outcome (list reply * option kvobj * Z) :=
  match ops with
  | [] => Ret ([], o, changes)
  | op :: ops =>
    '(r, o, changes) ←
      match bf_opcode op, o with
      | BITFIELDOP_GET, _ => r ← get_op o op; Ret (r, o, changes)
      | _, Some (StrObj b s) => '(r, s, changed) ← write_op s strGrowSize op; Ret (r, Some (StrObj b s), changes + c_bool changed)
      | _, _ => OutOfBounds
      end;
    '(rs, o, changes) ← exec_ops ops o strGrowSize changes; Ret (r :: rs, o, changes)
  end.

(** The replies, the object written and the number of changes. *)
Definition bitfieldGeneric (ro : bool) (argv : list sds) : outcome (list reply * option (sds * Z)) :=
  match argv with
  | key :: args =>
    parsed ← parse_ops args BFOVERFLOW_WRAP [] true 0;
    match parsed with
    | inr e => Ret ([ReplyError e], None)
    | inl (ops, readonly, highest_write_offset) =>
      if readonly : bool then
        let o := lookupKeyRead key in
        if checkType o then Ret ([ReplyError ErrWrongType], None) else
        '(rs, _, _) ← exec_ops ops o 0 0; Ret (ReplyArrayLen (Zlen ops) :: rs, None)
      else if ro : bool then Ret ([ReplyError ErrReadOnly], None) else
      o ← lookupStringForBitCommand key highest_write_offset;
      match o with None => Ret ([ReplyError ErrWrongType], None) | Some (s, strOldSize, strGrowSize) =>
      '(rs, o, changes) ← exec_ops ops (Some (StrObj true s)) strGrowSize 0;
      match o with
      | Some (StrObj _ s) => Ret (ReplyArrayLen (Zlen ops) :: rs, Some (s, changes))
      | _ => OutOfBounds
      end end
    end
  | [] => Ret ([ReplyError ErrSyntax], None)
  end.

Definition bitfieldCommand (argv : list sds) : outcome (list reply * option (sds * Z)) := bitfieldGeneric false argv.
Definition bitfieldroCommand (argv : list sds) : outcome (list reply * option (sds * Z)) := bitfieldGeneric true argv.
End commands.

(** *** Data for examples *)

Definition demo_str (bs : list Z) : sds := match sdsnewlen (H := exact_allocator) (InitFrom bs) (Zlen bs) with Ret s => s | _ => Build_sds [] 0 end.
Definition demo_num (v : Z) : sds := demo_str (dec v).
(** A key of one letter names the string it stands for. *)
Definition demo_lookup (bs1 bs2 : list Z) (key : sds) : option kvobj :=
  match s_bytes key with
  | Ret [97] => Some (StrObj true (demo_str bs1))
  | Ret [98] => Some (StrObj false (demo_str bs2))
  | Ret [99] => Some (IntObj (-42))
  | Ret [100] => Some OtherObj
  | _ => None
  end.
Definition key_a := demo_str [97].
Definition key_b := demo_str [98].
Definition key_c := demo_str [99].
Definition key_x := demo_str [120].
