(* ===== verification/BitopsBits.v ===== *)
(** * BitopsBits: buffers as lists of bits

    [bits_of bs] lists the bits of the bytes [bs] in the order of the bit
    commands.  The primitives of [Bitops] are characterised on it: counting,
    finding the first bit of a value, and reading and writing integer fields. *)

From S2P Require Import Prelude Memory NumStr Sds Bitops.

(** Equality of returned tuples. *)
Ltac ret_eq := repeat match goal with |- Ret _ = Ret _ => f_equal | |- (_, _) = (_, _) => f_equal end; try reflexivity; try lia.

(** ** Bits *)

Definition byte_bits (b : Z) : list bool := (fun k => Z.testbit b (7 - Z.of_nat k)) <$> seq 0 8.
Definition bits_of (bs : list Z) : list bool := bs ≫= byte_bits.

Definition ones (l : list bool) : Z := zsum (Z.b2z <$> l).

Lemma length_byte_bits b : length (byte_bits b) = 8%nat.
Proof. done. Qed.

Lemma bits_cons b bs : bits_of (b :: bs) = byte_bits b ++ bits_of bs.
Proof. done. Qed.

Lemma bits_app bs1 bs2 : bits_of (bs1 ++ bs2) = bits_of bs1 ++ bits_of bs2.
Proof. apply bind_app. Qed.

Lemma length_bits bs : length (bits_of bs) = (8 * length bs)%nat.
Proof. induction bs as [|b bs IH]; [done|]. rewrite bits_cons, length_app, length_byte_bits, IH. cbn [length]. lia. Qed.

Lemma Zlen_bits bs : Zlen (bits_of bs) = 8 * Zlen bs.
Proof. unfold Zlen. rewrite length_bits. lia. Qed.

Lemma ones_app l1 l2 : ones (l1 ++ l2) = ones l1 + ones l2.
Proof. unfold ones. by rewrite fmap_app, zsum_app. Qed.

Lemma bits_lookup bs i b : bs !! (i / 8)%nat = Some b -> bits_of bs !! i = Some (Z.testbit b (7 - Z.of_nat (i mod 8))).
Proof.
  revert i. induction bs as [|c bs IH]; intros i Hi; [done|]. rewrite bits_cons. destruct (decide (i < 8)%nat) as [Hlt|Hge].
  - rewrite lookup_app_l by (rewrite length_byte_bits; lia). rewrite Nat.div_small in Hi by lia. injection Hi as [= ->].
    rewrite Nat.mod_small by lia. unfold byte_bits. rewrite list_lookup_fmap, lookup_seq_lt by lia. done.
  - rewrite lookup_app_r by (rewrite length_byte_bits; lia). rewrite length_byte_bits.
    assert (i = (i - 8) + 1 * 8)%nat as E by lia. rewrite E, Nat.div_add, Nat.add_1_r in Hi by lia.
    rewrite (IH (i - 8)%nat Hi). rewrite E at 2. by rewrite Nat.Div0.mod_add.
Qed.

(** The list [byte_bits] of a byte is checked on all bytes. *)
Lemma byte_bits_forall (P : Z -> list bool -> bool) :
  forallb (fun b => P b (byte_bits b)) (seqZ 0 256) = true -> forall b, is_byte b -> P b (byte_bits b) = true.
Proof. intros H. exact (byte_forallb (fun b => P b (byte_bits b)) H). Qed.

(** A read of a buffer, taken apart. *)
Lemma rdn_cons_inv (s : list Z) p b bs : rdn s p (Zlen (b :: bs)) = Ret (b :: bs) -> rd s p = Ret b /\ rdn s (p + 1) (Zlen bs) = Ret bs.
Proof.
  intros E. pose proof (rdn_split s p [b] bs) as Hs. rewrite Zlen_cons in E. change (Zlen [b]) with 1 in Hs. destruct (Hs E) as [H1 H2].
  split; [|done]. pose proof (rd_of_rdn _ _ _ _ 0 H1 ltac:(lia)) as H. by rewrite Z.add_0_r in H.
Qed.

Lemma rdn_app_inv (s : list Z) p a b : rdn s p (Zlen (a ++ b)) = Ret (a ++ b) -> rdn s p (Zlen a) = Ret a /\ rdn s (p + Zlen a) (Zlen b) = Ret b.
Proof. intros E. rewrite Zlen_app in E. by apply rdn_split. Qed.

(** ** Counting *)

Lemma bitsinbyte_spec b : is_byte b -> rd bitsinbyte b = Ret (ones (byte_bits b)).
Proof.
  intros Hb. assert (bitsinbyte = (fun b => ones (byte_bits b)) <$> seqZ 0 256) as -> by (vm_compute; reflexivity).
  unfold is_byte in Hb. apply rd_lookup; [lia|]. rewrite list_lookup_fmap, lookup_seqZ_lt by lia. cbn [fmap option_fmap option_map]. by replace (0 + Z.of_nat (Z.to_nat b)) with b by lia.
Qed.

Lemma popcount_bytes_spec bs : forall s p bits, Forall is_byte bs -> rdn s p (Zlen bs) = Ret bs ->
  popcount_bytes (length bs) s p bits = Ret (bits + ones (bits_of bs)).
Proof.
  induction bs as [|b bs IH]; intros s p bits Hb E; cbn [length popcount_bytes]; [unfold ones; cbn; f_equal; lia|].
  apply list.Forall_cons in Hb as [Hb Hbs]. destruct (rdn_cons_inv _ _ _ _ E) as [E1 E2].
  rewrite E1, ret_bind, bitsinbyte_spec, ret_bind, (IH s) by done. rewrite bits_cons, ones_app. f_equal. lia.
Qed.

(** The loop to an aligned address counts a first part. *)
Lemma popcount_align_spec fuel : forall s addr align p bs bits, (length bs <= fuel)%nat -> Forall is_byte bs -> rdn s p (Zlen bs) = Ret bs ->
  exists bs1 bs2, bs = bs1 ++ bs2 /\ popcount_align fuel s addr align p (Zlen bs) bits = Ret (p + Zlen bs1, Zlen bs2, bits + ones (bits_of bs1)).
Proof.
  induction fuel as [|fuel IH]; intros s addr align p bs bits Hf Hb E; cbn [popcount_align].
  - destruct bs; [|cbn in Hf; lia]. exists [], []. split; [done|]. change (Zlen (@nil Z)) with 0. rewrite Z.eqb_refl, orb_true_r. unfold ones. cbn. ret_eq.
  - destruct (_ || _) eqn:Estop.
    { exists [], bs. split; [done|]. change (Zlen (@nil Z)) with 0. unfold ones. cbn. ret_eq. }
    destruct bs as [|b bs]; [change (Zlen (@nil Z)) with 0 in Estop; by rewrite Z.eqb_refl, orb_true_r in Estop|]. clear Estop.
    apply list.Forall_cons in Hb as [Hb Hbs]. destruct (rdn_cons_inv _ _ _ _ E) as [E1 E2]. cbn in Hf.
    rewrite E1, ret_bind, bitsinbyte_spec, ret_bind by done.
    destruct (IH s addr align (p + 1) bs (bits + ones (byte_bits b)) ltac:(lia) Hbs E2) as (bs1 & bs2 & -> & Er).
    exists (b :: bs1), bs2. split; [done|]. rewrite Zlen_cons. replace (1 + Zlen (bs1 ++ bs2) - 1) with (Zlen (bs1 ++ bs2)) by lia.
    rewrite Er, bits_cons, ones_app, Zlen_cons. ret_eq.
Qed.

(** *** The instruction *)

Lemma testbit_cons b X j : is_byte b -> 0 <= j -> Z.testbit (b + 256 * X) j = if j <? 8 then Z.testbit b j else Z.testbit X (j - 8).
Proof.
  intros Hb Hj. unfold is_byte in Hb. assert (b + 256 * X = Z.lor b (Z.shiftl X 8)) as ->.
  { rewrite lor_shiftl_add by (change (2 ^ 8) with 256; lia). lia. }
  rewrite Z.lor_spec. destruct (Z.ltb_spec j 8).
  - rewrite Z.shiftl_spec_low by lia. apply orb_false_r.
  - rewrite Z.shiftl_spec by lia. assert (Z.testbit b j = false) as ->; [|done].
    apply Z.bits_above_log2; [lia|]. destruct (decide (b = 0)) as [->|]; [cbn; lia|]. apply Z.log2_lt_pow2; [lia|].
    apply Z.lt_le_trans with (2 ^ 8); [lia|]. apply Z.pow_le_mono_r; lia.
Qed.

(** The number of bits set among the first [n]. *)
Definition popn (n : nat) (x : Z) : Z := zsum ((fun i => Z.b2z (Z.testbit x (Z.of_nat i))) <$> seq 0 n).

Lemma popn_S n x : popn (S n) x = popn n x + Z.b2z (Z.testbit x (Z.of_nat n)).
Proof. unfold popn. rewrite seq_S, fmap_app, zsum_app. cbn. lia. Qed.

Lemma popn_byte b : is_byte b -> popn 8 b = ones (byte_bits b).
Proof. intros Hb. apply Z.eqb_eq. revert b Hb. apply byte_forallb. vm_compute. reflexivity. Qed.

Lemma popn_cons n b X : is_byte b -> popn (8 + n) (b + 256 * X) = ones (byte_bits b) + popn n X.
Proof.
  intros Hb. induction n as [|n IH].
  - rewrite <- popn_byte by done. change (popn 0 X) with 0. rewrite Z.add_0_r. unfold popn. f_equal. apply list_fmap_ext.
    intros k i [-> Hi]%lookup_seq. rewrite testbit_cons by (done || lia). by destruct (Z.ltb_spec (Z.of_nat (0 + k)) 8); [|lia].
  - rewrite <- plus_n_Sm, popn_S, IH, popn_S. rewrite testbit_cons by (done || lia).
    destruct (Z.ltb_spec (Z.of_nat (8 + n)) 8); [lia|]. replace (Z.of_nat (8 + n) - 8) with (Z.of_nat n) by lia. lia.
Qed.

Lemma popn_le_value bs : Forall is_byte bs -> popn (8 * length bs) (le_value bs) = ones (bits_of bs).
Proof.
  induction 1 as [|b bs Hb _ IH]; [done|]. cbn [length le_value]. replace (8 * S (length bs))%nat with (8 + 8 * length bs)%nat by lia.
  rewrite popn_cons, IH by done. by rewrite bits_cons, ones_app.
Qed.

Lemma popcountll_spec bs : Forall is_byte bs -> length bs = 8%nat -> popcountll (le_value bs) = ones (bits_of bs).
Proof. intros Hb Hl. rewrite <- (popn_le_value bs Hb), Hl. reflexivity. Qed.

(** The first bytes of a buffer. *)
Lemma first_bytes n (s : list Z) p bs : (n <= length bs)%nat -> Forall is_byte bs -> rdn s p (Zlen bs) = Ret bs ->
  exists a r, bs = a ++ r /\ length a = n /\ Zlen a = Z.of_nat n /\ Forall is_byte a /\ Forall is_byte r /\
    rdn s p (Z.of_nat n) = Ret a /\ rdn s (p + Z.of_nat n) (Zlen r) = Ret r.
Proof.
  intros Hn Hb E. exists (take n bs), (drop n bs). rewrite <- (take_drop n bs) in E. apply rdn_app_inv in E as [E1 E2].
  assert (length (take n bs) = n) as Hl by (rewrite length_take; lia). assert (Zlen (take n bs) = Z.of_nat n) as HZ by (unfold Zlen; lia).
  rewrite HZ in E1, E2. rewrite take_drop. repeat split; try done; [by apply Forall_take|by apply Forall_drop].
Qed.

Lemma popcount_popcnt_spec fuel : forall s p bs c0 c1 c2 c3, (length bs <= fuel)%nat -> Forall is_byte bs -> rdn s p (Zlen bs) = Ret bs ->
  exists bs1 bs2, bs = bs1 ++ bs2 /\
    popcount_popcnt fuel s p (Zlen bs) c0 c1 c2 c3 = Ret (p + Zlen bs1, Zlen bs2, c0 + c1 + c2 + c3 + ones (bits_of bs1)).
Proof.
  induction fuel as [|fuel IH]; intros s p bs c0 c1 c2 c3 Hf Hb E; cbn [popcount_popcnt]; (destruct (Z.ltb_spec (Zlen bs) 32) as [Hlt|Hge];
    [exists [], bs; split; [done|]; change (Zlen (@nil Z)) with 0; unfold ones; cbn; ret_eq|]); unfold Zlen in Hge; [lia|].
  destruct (first_bytes 8 s p bs) as (w0 & r0 & -> & L0 & Z0 & B0 & Hb0 & E0 & F0); [lia|done|done|].
  rewrite length_app in Hge, Hf. destruct (first_bytes 8 s (p + Z.of_nat 8) r0) as (w1 & r1 & -> & L1 & Z1 & B1 & Hb1 & E1 & F1); [lia|done|done|].
  rewrite length_app in Hge, Hf. destruct (first_bytes 8 s (p + Z.of_nat 8 + Z.of_nat 8) r1) as (w2 & r2 & -> & L2 & Z2 & B2 & Hb2 & E2 & F2); [lia|done|done|].
  rewrite length_app in Hge, Hf. destruct (first_bytes 8 s (p + Z.of_nat 8 + Z.of_nat 8 + Z.of_nat 8) r2) as (w3 & r3 & -> & L3 & Z3 & B3 & Hb3 & E3 & F3); [lia|done|done|].
  rewrite length_app in Hge, Hf. change (Z.of_nat 8) with 8 in *.
  replace (p + 8 + 8 + 8 + 8) with (p + 32) in * by lia. replace (p + 8 + 8 + 8) with (p + 24) in * by lia. replace (p + 8 + 8) with (p + 16) in * by lia.
  rewrite E0, ret_bind, E1, ret_bind, E2, ret_bind, E3, ret_bind, !popcountll_spec by done.
  assert (Zlen (w0 ++ w1 ++ w2 ++ w3 ++ r3) - 32 = Zlen r3) as -> by (rewrite !Zlen_app; lia).
  destruct (IH s (p + 32) r3 (c0 + ones (bits_of w0)) (c1 + ones (bits_of w1)) (c2 + ones (bits_of w2)) (c3 + ones (bits_of w3)))
    as (bs1 & bs2 & -> & Er); [lia|done|done|].
  exists (w0 ++ w1 ++ w2 ++ w3 ++ bs1), bs2. split; [by rewrite <- !app_assoc|]. rewrite Er, !bits_app, !ones_app, !Zlen_app, Z0, Z1, Z2, Z3. ret_eq.
Qed.

(** *** The word trick

    A word is the list of its bytes; each step works on every byte alone. *)

Lemma land_shiftr_cons b X m M k : is_byte b -> 0 <= k <= 8 -> 0 <= m < 2 ^ (8 - k) ->
  Z.land (Z.shiftr (b + 256 * X) k) (m + 256 * M) = Z.land (Z.shiftr b k) m + 256 * Z.land (Z.shiftr X k) M.
Proof.
  intros Hb Hk Hm. assert (is_byte m) as Hmb. { unfold is_byte. assert (2 ^ (8 - k) <= 2 ^ 8) as Hp by (apply Z.pow_le_mono_r; lia). change (2 ^ 8) with 256 in Hp. lia. }
  assert (is_byte (Z.land (Z.shiftr b k) m)) as Hlb.
  { unfold is_byte in *. rewrite Z.shiftr_div_pow2 by lia. pose proof (Z.pow_pos_nonneg 2 k).
    assert (0 <= b / 2 ^ k) by (apply Z.div_pos; lia). split; [apply Z.land_nonneg; lia|].
    destruct (decide (Z.land (b / 2 ^ k) m = 0)) as [->|]; [lia|]. apply (Z.log2_lt_pow2 _ 8); [pose proof (Z.land_nonneg (b / 2 ^ k) m); lia|].
    eapply Z.le_lt_trans; [apply Z.log2_land; lia|]. eapply Z.le_lt_trans; [apply Z.le_min_r|]. destruct (decide (m = 0)) as [->|]; [cbn; lia|].
    apply Z.log2_lt_pow2; [lia|]. lia. }
  apply Z.bits_inj'. intros n Hn. rewrite Z.land_spec, Z.shiftr_spec, !testbit_cons by (done || lia).
  destruct (Z.ltb_spec n 8).
  - rewrite Z.land_spec, Z.shiftr_spec by lia. destruct (Z.ltb_spec (n + k) 8); [done|].
    assert (Z.testbit m n = false) as ->; [|by rewrite !andb_false_r].
    destruct (decide (m = 0)) as [->|]; [apply Z.bits_0|]. apply Z.bits_above_log2; [lia|]. apply Z.log2_lt_pow2; [lia|].
    eapply Z.lt_le_trans; [apply Hm|]. apply Z.pow_le_mono_r; lia.
  - destruct (Z.ltb_spec (n + k) 8); [lia|]. rewrite Z.land_spec, Z.shiftr_spec by lia. by replace (n - 8 + k) with (n + k - 8) by lia.
Qed.

(** Four bytes as a word. *)
Definition word4 (b0 b1 b2 b3 : Z) : Z := b0 + 256 * (b1 + 256 * (b2 + 256 * b3)).

Lemma land_shiftr_word4 b0 b1 b2 b3 m k : is_byte b0 -> is_byte b1 -> is_byte b2 -> is_byte b3 -> 0 <= k <= 8 -> 0 <= m < 2 ^ (8 - k) ->
  Z.land (Z.shiftr (word4 b0 b1 b2 b3) k) (word4 m m m m) =
  word4 (Z.land (Z.shiftr b0 k) m) (Z.land (Z.shiftr b1 k) m) (Z.land (Z.shiftr b2 k) m) (Z.land (Z.shiftr b3 k) m).
Proof. intros H0 H1 H2 H3 Hk Hm. unfold word4. by rewrite !land_shiftr_cons. Qed.

Lemma word4_range b0 b1 b2 b3 : is_byte b0 -> is_byte b1 -> is_byte b2 -> is_byte b3 -> 0 <= word4 b0 b1 b2 b3 < 2 ^ 32.
Proof. unfold word4, is_byte. lia. Qed.

(** The first two steps on a byte. *)
Definition pairs (b : Z) : Z := b - Z.land (Z.shiftr b 1) 0x55.
Definition nibbles (b : Z) : Z := Z.land (pairs b) 0x33 + Z.land (Z.shiftr (pairs b) 2) 0x33.

Lemma pairs_byte b : is_byte b -> is_byte (pairs b).
Proof.
  intros Hb. assert ((0 <=? pairs b) && (pairs b <? 256) = true) as H; [|unfold is_byte; lia]. revert b Hb. apply byte_forallb. vm_compute. reflexivity.
Qed.

Lemma nibbles_spec b : is_byte b -> is_byte (nibbles b) /\ nibbles b mod 16 <= 4 /\ 0 <= nibbles b / 16 <= 4 /\
  nibbles b mod 16 + nibbles b / 16 = ones (byte_bits b).
Proof.
  intros Hb. set (n := nibbles b).
  assert ((0 <=? n) && (n <? 256) && (n mod 16 <=? 4) && (0 <=? n / 16) && (n / 16 <=? 4) && (n mod 16 + n / 16 =? ones (byte_bits b)) = true) as H.
  { subst n. revert b Hb. apply byte_forallb. vm_compute. reflexivity. }
  unfold is_byte. lia.
Qed.

Lemma swar_fields_word4 b0 b1 b2 b3 : is_byte b0 -> is_byte b1 -> is_byte b2 -> is_byte b3 ->
  swar_fields (word4 b0 b1 b2 b3) = word4 (nibbles b0) (nibbles b1) (nibbles b2) (nibbles b3).
Proof.
  intros H0 H1 H2 H3. unfold swar_fields. change 0x55555555 with (word4 0x55 0x55 0x55 0x55). change 0x33333333 with (word4 0x33 0x33 0x33 0x33).
  rewrite land_shiftr_word4 by (done || lia).
  assert (word4 b0 b1 b2 b3 - word4 (Z.land (Z.shiftr b0 1) 0x55) (Z.land (Z.shiftr b1 1) 0x55) (Z.land (Z.shiftr b2 1) 0x55) (Z.land (Z.shiftr b3 1) 0x55)
    = word4 (pairs b0) (pairs b1) (pairs b2) (pairs b3)) as -> by (unfold word4, pairs; lia).
  pose proof (pairs_byte b0 H0) as P0. pose proof (pairs_byte b1 H1) as P1. pose proof (pairs_byte b2 H2) as P2. pose proof (pairs_byte b3 H3) as P3.
  rewrite (wrapu_id 32 (word4 (pairs b0) (pairs b1) (pairs b2) (pairs b3))) by (by apply word4_range).
  rewrite <- (Z.shiftr_0_r (word4 (pairs b0) (pairs b1) (pairs b2) (pairs b3))) at 1.
  rewrite !land_shiftr_word4 by (done || lia). rewrite !Z.shiftr_0_r.
  pose proof (proj1 (nibbles_spec b0 H0)). pose proof (proj1 (nibbles_spec b1 H1)). pose proof (proj1 (nibbles_spec b2 H2)). pose proof (proj1 (nibbles_spec b3 H3)).
  assert (forall a b c d a' b' c' d', word4 a b c d + word4 a' b' c' d' = word4 (a + a') (b + b') (c + c') (d + d')) as -> by (unfold word4; lia).
  apply wrapu_id. by apply word4_range.
Qed.

(** The third step moves the high halves of the next byte into a byte, and the mask removes them. *)
Lemma swar_bytes_word4 n0 n1 n2 n3 : Forall (fun n => is_byte n /\ n mod 16 <= 4 /\ n / 16 <= 4) [n0; n1; n2; n3] ->
  swar_bytes (word4 n0 n1 n2 n3) = word4 (n0 mod 16 + n0 / 16) (n1 mod 16 + n1 / 16) (n2 mod 16 + n2 / 16) (n3 mod 16 + n3 / 16).
Proof.
  intros Hn. repeat match goal with H : Forall _ (_ :: _) |- _ => apply list.Forall_cons in H as [? H] end. clear Hn.
  unfold is_byte in *. unfold swar_bytes.
  assert (word4 n0 n1 n2 n3 + Z.shiftr (word4 n0 n1 n2 n3) 4 =
    word4 (n0 + n0 / 16 + 16 * (n1 mod 16)) (n1 + n1 / 16 + 16 * (n2 mod 16)) (n2 + n2 / 16 + 16 * (n3 mod 16)) (n3 + n3 / 16)) as ->.
  { rewrite Z.shiftr_div_pow2 by lia. change (2 ^ 4) with 16. unfold word4. Z.div_mod_to_equations. lia. }
  rewrite wrapu_id by (unfold word4; Z.div_mod_to_equations; lia). change 0x0F0F0F0F with (word4 15 15 15 15).
  rewrite <- (Z.shiftr_0_r (word4 (n0 + _ + _) _ _ _)). rewrite land_shiftr_word4 by (unfold is_byte; Z.div_mod_to_equations; lia). rewrite !Z.shiftr_0_r.
  assert (forall x, Z.land x 15 = x mod 16) as Hland by (intros x; exact (Z.land_ones x 4 ltac:(lia))). rewrite !Hland.
  f_equal; Z.div_mod_to_equations; lia.
Qed.

(** The number of bits of each byte of a word. *)
Lemma swar_word (a : list Z) : Forall is_byte a -> length a = 4%nat ->
  exists n0 n1 n2 n3, swar_bytes (swar_fields (le_value a)) = word4 n0 n1 n2 n3 /\ n0 + n1 + n2 + n3 = ones (bits_of a) /\
  Forall (fun n => 0 <= n <= 8) [n0; n1; n2; n3].
Proof.
  intros Hb Hl. destruct a as [|b0 [|b1 [|b2 [|b3 [|]]]]]; try done.
  repeat match goal with H : Forall is_byte (_ :: _) |- _ => apply list.Forall_cons in H as [? H] end.
  assert (le_value [b0; b1; b2; b3] = word4 b0 b1 b2 b3) as -> by (unfold word4; cbn; lia). rewrite swar_fields_word4 by done.
  rewrite !bits_cons, !ones_app. change (ones (bits_of [])) with 0.
  pose proof (nibbles_spec b0 ltac:(done)) as (? & ? & ? & <-). pose proof (nibbles_spec b1 ltac:(done)) as (? & ? & ? & <-).
  pose proof (nibbles_spec b2 ltac:(done)) as (? & ? & ? & <-). pose proof (nibbles_spec b3 ltac:(done)) as (? & ? & ? & <-).
  do 4 eexists. split; [apply swar_bytes_word4; repeat first [apply List.Forall_nil | apply Forall_cons_2; [split; [done|lia]|]]|]. split; [lia|].
  pose proof (Z.mod_pos_bound (nibbles b0) 16). pose proof (Z.mod_pos_bound (nibbles b1) 16).
  pose proof (Z.mod_pos_bound (nibbles b2) 16). pose proof (Z.mod_pos_bound (nibbles b3) 16). repeat first [apply List.Forall_nil | apply Forall_cons_2; [lia|]].
Qed.

(** The multiplication adds the bytes of the sum into its top byte. *)
Lemma top_byte s0 s1 s2 s3 : Forall (fun s => 0 <= s <= 56) [s0; s1; s2; s3] ->
  Z.shiftr (u32 (u32 (word4 s0 s1 s2 s3) * 0x01010101)) 24 = s0 + s1 + s2 + s3.
Proof.
  intros Hs. repeat match goal with H : Forall _ (_ :: _) |- _ => apply list.Forall_cons in H as [? H] end. clear Hs.
  rewrite (wrapu_id 32 (word4 s0 s1 s2 s3)) by (unfold word4; lia).
  rewrite Z.shiftr_div_pow2 by lia. unfold wrapu, word4. change (2 ^ 32) with 4294967296. change (2 ^ 24) with 16777216.
  set (low := s0 + 256 * (s0 + s1) + 65536 * (s0 + s1 + s2)). set (high := (s1 + s2 + s3) + 256 * (s2 + s3) + 65536 * s3).
  replace ((s0 + 256 * (s1 + 256 * (s2 + 256 * s3))) * 0x01010101) with ((low + 16777216 * (s0 + s1 + s2 + s3)) + high * 4294967296) by (subst low high; lia).
  rewrite Z_mod_plus_full, Z.mod_small by (subst low; lia). rewrite (Z.mul_comm 16777216), Z.div_add, Z.div_small by (subst low; lia). lia.
Qed.

Lemma popcount_swar_spec fuel : forall s p bs bits, (length bs <= fuel)%nat -> Forall is_byte bs -> rdn s p (Zlen bs) = Ret bs ->
  exists bs1 bs2, bs = bs1 ++ bs2 /\ popcount_swar fuel s p (Zlen bs) bits = Ret (p + Zlen bs1, Zlen bs2, bits + ones (bits_of bs1)).
Proof.
  induction fuel as [|fuel IH]; intros s p bs bits Hf Hb E; cbn [popcount_swar]; (destruct (Z.ltb_spec (Zlen bs) 28) as [Hlt|Hge];
    [exists [], bs; split; [done|]; change (Zlen (@nil Z)) with 0; unfold ones; cbn; ret_eq|]); unfold Zlen in Hge; [lia|].
  destruct (first_bytes 28 s p bs) as (w & r & -> & Lw & Zw & Bw & Hr & Ew & Er); [lia|done|done|].
  rewrite length_app in Hf. change (Z.of_nat 28) with 28 in *. rewrite <- Zw in Ew.
  assert (exists a1 a2 a3 a4 a5 a6 a7, w = a1 ++ a2 ++ a3 ++ a4 ++ a5 ++ a6 ++ a7 /\ Forall (fun a => length a = 4%nat) [a1; a2; a3; a4; a5; a6; a7])
    as (a1 & a2 & a3 & a4 & a5 & a6 & a7 & -> & Hl).
  { do 28 (destruct w as [|? w]; [done|]). destruct w; [|done].
    eexists [_; _; _; _], [_; _; _; _], [_; _; _; _], [_; _; _; _], [_; _; _; _], [_; _; _; _], [_; _; _; _]. by repeat constructor. }
  repeat match goal with H : Forall _ (_ :: _) |- _ => apply list.Forall_cons in H as [? H] end. clear Hl.
  clear E Hb. assert (forall a : list Z, length a = 4%nat -> Zlen a = 4) as HZ by (intros a Ha; unfold Zlen; lia).
  repeat match goal with H : Forall is_byte (_ ++ _) |- _ => apply list.Forall_app in H as [? H] end.
  repeat match goal with H : rdn _ _ (Zlen (_ ++ _)) = _ |- _ => apply rdn_app_inv in H as [? H]; match type of H with rdn _ (_ + Zlen ?a) _ = _ => rewrite (HZ a ltac:(assumption)) in H end end.
  repeat match goal with H : rdn _ _ (Zlen ?a) = Ret ?a, Ha : length ?a = 4%nat |- _ => rewrite (HZ a Ha) in H end.
  replace (p + 4 + 4 + 4 + 4 + 4 + 4) with (p + 24) in * by lia. replace (p + 4 + 4 + 4 + 4 + 4) with (p + 20) in * by lia.
  replace (p + 4 + 4 + 4 + 4) with (p + 16) in * by lia. replace (p + 4 + 4 + 4) with (p + 12) in * by lia. replace (p + 4 + 4) with (p + 8) in * by lia.
  repeat match goal with H : rdn _ _ 4 = Ret _ |- _ => rewrite H, ret_bind; clear H end.
  cbv beta zeta.
  repeat match goal with H : length ?a = 4%nat, Hb : Forall is_byte ?a |- _ =>
    let n0 := fresh "n" in let n1 := fresh "n" in let n2 := fresh "n" in let n3 := fresh "n" in
    destruct (swar_word a Hb H) as (n0 & n1 & n2 & n3 & -> & ? & ?); clear H Hb
  end.
  repeat match goal with H : Forall _ (_ :: _) |- _ => apply list.Forall_cons in H as [? H] end.
  match goal with |- context [u32 (?a + ?b + ?c + ?d + ?e + ?f + ?g)] => match a with word4 ?a0 ?a1 ?a2 ?a3 =>
    match b with word4 ?b0 ?b1 ?b2 ?b3 => match c with word4 ?c0 ?c1 ?c2 ?c3 => match d with word4 ?d0 ?d1 ?d2 ?d3 =>
    match e with word4 ?e0 ?e1 ?e2 ?e3 => match f with word4 ?f0 ?f1 ?f2 ?f3 => match g with word4 ?g0 ?g1 ?g2 ?g3 =>
    replace (a + b + c + d + e + f + g) with (word4 (a0 + b0 + c0 + d0 + e0 + f0 + g0) (a1 + b1 + c1 + d1 + e1 + f1 + g1)
      (a2 + b2 + c2 + d2 + e2 + f2 + g2) (a3 + b3 + c3 + d3 + e3 + f3 + g3)) by (unfold word4; lia) end end end end end end end end.
  rewrite top_byte by (repeat first [apply List.Forall_nil | apply Forall_cons_2; [lia|]]).
  rewrite Zlen_app, Zw. replace (28 + Zlen r - 28) with (Zlen r) by lia.
  match goal with |- context [popcount_swar fuel s _ _ ?b] => destruct (IH s (p + 28) r b) as (bs1 & bs2 & -> & Es); [lia|done|done|] end.
  eexists (_ ++ bs1), bs2. split; [by rewrite app_assoc|]. rewrite Es, !bits_app, !ones_app, !Zlen_app. rewrite !Zlen_app in Zw. ret_eq.
Qed.

(** The population count of a buffer, on any processor and at any address. *)
Lemma redisPopcount_spec use_popcnt addr s p bs : Forall is_byte bs -> rdn s p (Zlen bs) = Ret bs ->
  redisPopcount use_popcnt addr s p (Zlen bs) = Ret (ones (bits_of bs)).
Proof.
  intros Hb E. unfold redisPopcount.
  destruct (popcount_align_spec (Z.to_nat (Zlen bs)) s addr (if use_popcnt then 7 else 3) p bs 0) as (bs1 & bs2 & -> & ->); [unfold Zlen; lia|done|done|].
  rewrite ret_bind. apply list.Forall_app in Hb as [Hb1 Hb2]. apply rdn_app_inv in E as [E1 E2].
  assert (exists bs3 bs4, bs2 = bs3 ++ bs4 /\
    (if use_popcnt then '(p, count, cnt) ← popcount_popcnt (Z.to_nat (Zlen bs2)) s (p + Zlen bs1) (Zlen bs2) 0 0 0 0; Ret (p, count, 0 + ones (bits_of bs1) + cnt)
     else popcount_swar (Z.to_nat (Zlen bs2)) s (p + Zlen bs1) (Zlen bs2) (0 + ones (bits_of bs1))) =
    Ret (p + Zlen bs1 + Zlen bs3, Zlen bs4, ones (bits_of bs1) + ones (bits_of bs3))) as (bs3 & bs4 & -> & ->).
  { destruct use_popcnt.
    - destruct (popcount_popcnt_spec (Z.to_nat (Zlen bs2)) s (p + Zlen bs1) bs2 0 0 0 0) as (bs3 & bs4 & -> & ->); [unfold Zlen; lia|done|done|].
      exists bs3, bs4. split; [done|]. rewrite ret_bind. ret_eq.
    - destruct (popcount_swar_spec (Z.to_nat (Zlen bs2)) s (p + Zlen bs1) bs2 (0 + ones (bits_of bs1))) as (bs3 & bs4 & -> & ->); [unfold Zlen; lia|done|done|].
      by exists bs3, bs4. }
  rewrite ret_bind. apply list.Forall_app in Hb2 as [Hb3 Hb4]. apply rdn_app_inv in E2 as [E3 E4].
  replace (Z.to_nat (Zlen bs4)) with (length bs4) by (unfold Zlen; lia). rewrite popcount_bytes_spec by done.
  rewrite !bits_app, !ones_app. f_equal. lia.
Qed.

(** ** Finding a bit *)

(** The index of the first [b], or the length. *)
Fixpoint bit_index (b : bool) (l : list bool) : nat :=
  match l with [] => 0 | x :: l => if Bool.eqb x b then 0 else S (bit_index b l) end.

(** What [redisBitpos] promises: a string is followed by zeroes. *)
Definition bitpos_ref (b : bool) (l : list bool) : Z :=
  if b && (bit_index b l =? length l)%nat then -1 else Z.of_nat (bit_index b l).

Lemma bit_index_le b l : (bit_index b l <= length l)%nat.
Proof. induction l as [|x l IH]; cbn; [lia|]. destruct (Bool.eqb x b); lia. Qed.

Lemma bit_index_in b l : b ∈ l <-> (bit_index b l < length l)%nat.
Proof.
  induction l as [|x l IH]; cbn; [rewrite elem_of_nil; lia|]. rewrite elem_of_cons, IH.
  destruct (Bool.eqb_spec x b) as [->|Hx]; [split; [lia|by left]|]. split; [|right; lia]. intros [->|]; [done|lia].
Qed.

Lemma bit_index_out b l : b ∉ l -> bit_index b l = length l.
Proof. rewrite bit_index_in. pose proof (bit_index_le b l). lia. Qed.

Lemma bit_index_app b l1 l2 : b ∈ l1 -> bit_index b (l1 ++ l2) = bit_index b l1.
Proof.
  induction l1 as [|x l1 IH]; cbn; [by rewrite elem_of_nil|]. rewrite elem_of_cons. destruct (Bool.eqb_spec x b) as [|Hx]; [done|].
  intros [->|Hin]; [done|]. by rewrite IH.
Qed.

Lemma bit_index_skip b l1 l2 : b ∉ l1 -> bit_index b (l1 ++ l2) = (length l1 + bit_index b l2)%nat.
Proof.
  induction l1 as [|x l1 IH]; cbn; [done|]. rewrite elem_of_cons. intros Hn. destruct (Bool.eqb_spec x b) as [->|]; [by destruct Hn; left|].
  rewrite IH; [done|]. tauto.
Qed.

(** The position is that of the first such bit. *)
Lemma bit_index_first b l : let i := bit_index b l in
  (forall j, (j < i)%nat -> l !! j = Some (negb b)) /\ ((i < length l)%nat -> l !! i = Some b).
Proof.
  induction l as [|x l [IH1 IH2]]; cbn; [split; intros; lia|]. destruct (Bool.eqb_spec x b) as [->|Hx]; cbn; [split; [lia|done]|].
  split; [|intros; apply IH2; lia]. intros [|j] Hj; cbn; [by destruct x, b|]. apply IH1. lia.
Qed.

(** The bytes that are skipped. *)
Definition skip_byte (b : bool) : Z := if b then 0 else 255.

Lemma skip_byte_bits b x : is_byte x -> x = skip_byte b \/ (x <> skip_byte b /\ b ∈ byte_bits x).
Proof.
  intros Hx. destruct (decide (x = skip_byte b)) as [|Hne]; [by left|]. right. split; [done|]. apply bit_index_in.
  assert ((x =? skip_byte b) || (bit_index b (byte_bits x) <? length (byte_bits x))%nat = true) as H; [|apply orb_true_iff in H as [H%Z.eqb_eq|H%Nat.ltb_lt]; done].
  clear Hne. revert x Hx. apply byte_forallb. destruct b; vm_compute; reflexivity.
Qed.

Lemma skip_bits b n : b ∉ bits_of (replicate n (skip_byte b)).
Proof.
  induction n as [|n IH]; cbn [replicate]; [by intros ?%elem_of_nil|]. rewrite bits_cons, elem_of_app. intros [H|H]; [|done].
  revert H. destruct b; rewrite bit_index_in; vm_compute; lia.
Qed.

Lemma skip_value b (bit : Z) : bit = Z.b2z b -> (if negb (bit =? 0) then 0 else 255) = skip_byte b.
Proof. intros ->. by destruct b. Qed.

Lemma bitpos_align_spec b fuel : forall s addr c bs pos, (length bs <= fuel)%nat -> Forall is_byte bs -> rdn s c (Zlen bs) = Ret bs ->
  exists n bs2 found, bs = replicate n (skip_byte b) ++ bs2 /\
    bitpos_align fuel s addr c (Zlen bs) pos (skip_byte b) = Ret (found, c + Z.of_nat n, Zlen bs2, pos + 8 * Z.of_nat n) /\
    (found = true -> b ∈ bits_of (take 8 bs2)).
Proof.
  induction fuel as [|fuel IH]; intros s addr c bs pos Hf Hb E; cbn [bitpos_align].
  - destruct bs; [|cbn in Hf; lia]. exists 0%nat, [], false. split; [done|]. change (Zlen (@nil Z)) with 0. rewrite Z.eqb_refl, orb_true_r.
    split; [ret_eq|done].
  - destruct (_ || _) eqn:Estop. { exists 0%nat, bs, false. split; [done|]. split; [ret_eq|done]. }
    destruct bs as [|x bs]; [change (Zlen (@nil Z)) with 0 in Estop; by rewrite Z.eqb_refl, orb_true_r in Estop|]. clear Estop.
    apply list.Forall_cons in Hb as [Hb Hbs]. destruct (rdn_cons_inv _ _ _ _ E) as [E1 E2]. cbn in Hf. rewrite E1, ret_bind.
    destruct (skip_byte_bits b x Hb) as [->|[Hne Hin]].
    + rewrite Z.eqb_refl. cbn [negb]. rewrite Zlen_cons. replace (1 + Zlen bs - 1) with (Zlen bs) by lia.
      destruct (IH s addr (c + 1) bs (pos + 8) ltac:(lia) Hbs E2) as (n & bs2 & found & -> & -> & Hfound).
      exists (S n), bs2, found. split; [done|]. split; [ret_eq|done].
    + rewrite (proj2 (Z.eqb_neq _ _) Hne). cbn [negb]. exists 0%nat, (x :: bs), true. split; [done|]. split; [ret_eq|].
      intros _. cbn [take]. rewrite bits_cons, elem_of_app. by left.
Qed.

Lemma skip_word b (w : list Z) : Forall is_byte w -> length w = 8%nat -> le_value w = (if b : bool then 0 else UINT64_MAX) -> w = replicate 8 (skip_byte b).
Proof. intros Hb Hl Hv. rewrite <- (le_bytes_value w Hb), Hl, Hv. destruct b; reflexivity. Qed.

Lemma bits_all_skip b w : Forall is_byte w -> b ∉ bits_of w -> w = replicate (length w) (skip_byte b).
Proof.
  induction 1 as [|x w Hx _ IH]; [done|]. rewrite bits_cons, elem_of_app. intros Hn. cbn [length replicate]. rewrite <- IH by tauto.
  destruct (skip_byte_bits b x Hx) as [->|[_ Hin]]; [done|]. tauto.
Qed.

Lemma bitpos_words_spec b fuel : forall s l bs pos, (length bs <= fuel)%nat -> Forall is_byte bs -> rdn s l (Zlen bs) = Ret bs ->
  exists n bs2, bs = replicate n (skip_byte b) ++ bs2 /\
    bitpos_words fuel s l (Zlen bs) pos (if b then 0 else UINT64_MAX) = Ret (l + Z.of_nat n, Zlen bs2, pos + 8 * Z.of_nat n) /\
    ((length bs2 < 8)%nat \/ b ∈ bits_of (take 8 bs2)).
Proof.
  induction fuel as [|fuel IH]; intros s l bs pos Hf Hb E; cbn [bitpos_words]; (destruct (Z.ltb_spec (Zlen bs) 8) as [Hlt|Hge];
    [exists 0%nat, bs; split; [done|]; split; [ret_eq|left; unfold Zlen in *; lia]|]); unfold Zlen in Hge; [lia|].
  destruct (first_bytes 8 s l bs) as (w & r & -> & Lw & Zw & Bw & Hr & Ew & Er); [lia|done|done|]. change (Z.of_nat 8) with 8 in *.
  rewrite length_app, Lw in Hf. rewrite Ew, ret_bind. destruct (Z.eqb_spec (le_value w) (if b then 0 else UINT64_MAX)) as [Hv|Hv]; cbn [negb].
  - rewrite Zlen_app, Zw. replace (8 + Zlen r - 8) with (Zlen r) by lia. rewrite (skip_word b w Bw Lw Hv).
    destruct (IH s (l + 8) r (pos + 64)) as (n & bs2 & -> & -> & Hend); [lia|done|done|].
    exists (8 + n)%nat, bs2. split; [by rewrite app_assoc, <- replicate_add|]. split; [ret_eq|done].
  - exists 0%nat, (w ++ r). split; [done|]. split; [ret_eq|]. right. rewrite take_app_le, take_ge by lia.
    destruct (decide (b ∈ bits_of w)) as [|Hn]; [done|]. destruct Hv. rewrite (bits_all_skip b w Bw Hn), Lw. by destruct b.
Qed.

(** *** The last word *)

Fixpoint be_value (acc : Z) (bs : list Z) : Z := match bs with [] => acc | b :: bs => be_value (b + 256 * acc) bs end.

(** A zero-padded string of [n] bytes. *)
Definition pad (n : nat) (bs : list Z) : list Z := take n bs ++ replicate (n - length bs) 0.

Lemma pad_bytes n bs : Forall is_byte bs -> Forall is_byte (pad n bs).
Proof. intros Hb. apply Forall_app_2; [by apply Forall_take|]. apply Forall_replicate. done. Qed.

Lemma length_pad n bs : length (pad n bs) = n.
Proof. unfold pad. rewrite length_app, length_take, length_replicate. lia. Qed.

Lemma word_step word x n : 0 <= word < 2 ^ (64 - 8 * (Z.of_nat n + 1)) -> (n < 8)%nat -> is_byte x ->
  Z.lor (u64 (Z.shiftl word 8)) x = x + 256 * word /\ 0 <= x + 256 * word < 2 ^ (64 - 8 * Z.of_nat n).
Proof.
  intros Hw Hn Hx. unfold is_byte in Hx. replace (64 - 8 * Z.of_nat n) with (64 - 8 * (Z.of_nat n + 1) + 8) by lia.
  rewrite Z.pow_add_r by lia. change (2 ^ 8) with 256.
  assert (2 ^ (64 - 8 * (Z.of_nat n + 1)) <= 2 ^ 56) as Hp by (apply Z.pow_le_mono_r; lia). change (2 ^ 56) with 72057594037927936 in Hp.
  split; [|nia]. rewrite wrapu_id by (rewrite Z.shiftl_mul_pow2 by lia; change (2 ^ 8) with 256; change (2 ^ 64) with 18446744073709551616; lia).
  rewrite Z.lor_comm, lor_shiftl_add by (change (2 ^ 8) with 256; lia). change (2 ^ 8) with 256. lia.
Qed.

Lemma load_word_spec n : forall s c bs word, Forall is_byte bs -> rdn s c (Zlen bs) = Ret bs -> (n <= 8)%nat -> 0 <= word < 2 ^ (64 - 8 * Z.of_nat n) ->
  load_word n s c (Zlen bs) word = Ret (be_value word (pad n bs)).
Proof.
  induction n as [|n IH]; intros s c bs word Hb E Hn Hw; cbn [load_word]; [done|]. replace (Z.of_nat (S n)) with (Z.of_nat n + 1) in Hw by lia.
  destruct bs as [|x bs].
  - change (Zlen (@nil Z)) with 0. cbn [Z.eqb negb]. destruct (word_step word 0 n Hw ltac:(lia)) as [E0 Hw0]; [done|]. rewrite Z.lor_0_r in E0. rewrite E0.
    change 0 with (Zlen (@nil Z)) at 1. rewrite (IH s c [] (0 + 256 * word)) by (done || lia). f_equal. unfold pad. rewrite !take_nil. cbn [length app]. by rewrite !Nat.sub_0_r.
  - apply list.Forall_cons in Hb as [Hx Hb]. destruct (rdn_cons_inv _ _ _ _ E) as [E1 E2]. rewrite Zlen_cons. pose proof (Zlen_nonneg bs).
    destruct (Z.eqb_spec (1 + Zlen bs) 0); [lia|]. cbn [negb]. rewrite E1, ret_bind. replace (1 + Zlen bs - 1) with (Zlen bs) by lia.
    destruct (word_step word x n Hw ltac:(lia) Hx) as [-> Hw0]. rewrite (IH s (c + 1)) by (done || lia). done.
Qed.

Lemma be_value_bits bs : Forall is_byte bs -> forall acc, 0 <= acc ->
  (forall j, 0 <= j -> Z.testbit (be_value acc bs) (8 * Zlen bs + j) = Z.testbit acc j) /\
  (forall i, (i < 8 * length bs)%nat -> bits_of bs !! i = Some (Z.testbit (be_value acc bs) (8 * Zlen bs - 1 - Z.of_nat i))).
Proof.
  induction 1 as [|b bs Hb _ IH]; intros acc Hacc; cbn [be_value].
  { split; [|cbn; lia]. intros j Hj. by replace (8 * Zlen [] + j) with j by (change (Zlen (@nil Z)) with 0; lia). }
  assert (0 <= b + 256 * acc) as Hacc' by (unfold is_byte in Hb; lia). destruct (IH (b + 256 * acc) Hacc') as [IH1 IH2]. split.
  - intros j Hj. rewrite Zlen_cons. replace (8 * (1 + Zlen bs) + j) with (8 * Zlen bs + (8 + j)) by lia. rewrite IH1 by lia.
    rewrite testbit_cons by (done || lia). destruct (Z.ltb_spec (8 + j) 8); [lia|]. f_equal; lia.
  - intros i Hi. rewrite bits_cons, Zlen_cons. cbn [length] in Hi. destruct (decide (i < 8)%nat) as [Hlt|Hge].
    + rewrite lookup_app_l by (rewrite length_byte_bits; lia). unfold byte_bits. rewrite list_lookup_fmap, lookup_seq_lt by lia. cbn [fmap option_fmap option_map]. f_equal.
      replace (8 * (1 + Zlen bs) - 1 - Z.of_nat i) with (8 * Zlen bs + (7 - Z.of_nat i)) by lia. rewrite IH1 by lia. rewrite testbit_cons by (done || lia).
      destruct (Z.ltb_spec (7 - Z.of_nat i) 8); [|lia]. f_equal; lia.
    + rewrite lookup_app_r by (rewrite length_byte_bits; lia). rewrite length_byte_bits, IH2 by lia. do 2 f_equal; lia.
Qed.

(** The bits of [word] from the [k]-th down. *)
Fixpoint bits_down (k : nat) (word : Z) : list bool :=
  match k with O => [Z.testbit word 0] | S k' => Z.testbit word (Z.of_nat k) :: bits_down k' word end.

Lemma length_bits_down k word : length (bits_down k word) = S k.
Proof. induction k; cbn; congruence. Qed.

Lemma bits_down_lookup k word i : (i <= k)%nat -> bits_down k word !! i = Some (Z.testbit word (Z.of_nat (k - i))).
Proof.
  revert i. induction k as [|k IH]; intros i Hi; [by replace i with 0%nat by lia|]. destruct i as [|i]; [done|]. cbn [bits_down lookup list_lookup]. exact (IH i ltac:(lia)).
Qed.

Lemma scan_word_S fuel k word b pos : scan_word (S fuel) (2 ^ Z.of_nat k) word (Z.b2z b) pos =
  if Bool.eqb (Z.testbit word (Z.of_nat k)) b then Ret pos else scan_word fuel (Z.shiftr (2 ^ Z.of_nat k) 1) word (Z.b2z b) (pos + 1).
Proof.
  cbn [scan_word]. rewrite (proj2 (Z.eqb_neq (2 ^ Z.of_nat k) 0)) by (apply Z.pow_nonzero; lia). rewrite Z.land_comm, land_bit by lia.
  by destruct (Z.testbit word (Z.of_nat k)), b.
Qed.

Lemma scan_word_spec b k word pos : b ∈ bits_down k word ->
  scan_word (S k) (2 ^ Z.of_nat k) word (Z.b2z b) pos = Ret (pos + Z.of_nat (bit_index b (bits_down k word))).
Proof.
  revert pos. induction k as [|k IH]; intros pos Hin; rewrite scan_word_S; cbn [bits_down bit_index] in *.
  - apply list_elem_of_singleton in Hin as ->. change (Z.of_nat 0) with 0. rewrite Bool.eqb_reflx. ret_eq.
  - apply elem_of_cons in Hin. destruct (Bool.eqb_spec (Z.testbit word (Z.of_nat (S k))) b) as [_|Hb]; [ret_eq|].
    rewrite Z.shiftr_div_pow2 by lia. change (2 ^ 1) with 2. replace (2 ^ Z.of_nat (S k) / 2) with (2 ^ Z.of_nat k).
    2:{ rewrite Nat2Z.inj_succ, Z.pow_succ_r by lia. rewrite Z.mul_comm, Z.div_mul; lia. }
    rewrite IH by (destruct Hin as [->|]; done). ret_eq.
Qed.

Lemma be_value_down bs : Forall is_byte bs -> length bs = 8%nat -> bits_of bs = bits_down 63 (be_value 0 bs).
Proof.
  intros Hb Hl. apply list_eq. intros i. destruct (decide (i < 64)%nat) as [Hi|Hi].
  - destruct (be_value_bits bs Hb 0 ltac:(lia)) as [_ ->]; [|lia]. rewrite bits_down_lookup by lia. unfold Zlen. rewrite Hl. do 2 f_equal. lia.
  - rewrite !lookup_ge_None_2; [done|rewrite length_bits_down; lia|rewrite length_bits; lia].
Qed.

Lemma pad_bits bs : bits_of (pad 8 bs) = bits_of (take 8 bs) ++ replicate (64 - 8 * length bs) false.
Proof.
  unfold pad. rewrite bits_app. f_equal. replace (64 - 8 * length bs)%nat with (8 * (8 - length bs))%nat by lia.
  induction (8 - length bs)%nat as [|n IH]; [done|]. cbn [replicate]. rewrite bits_cons, IH. by replace (8 * S n)%nat with (8 + 8 * n)%nat by lia.
Qed.

Lemma zero_word bs : Forall is_byte bs -> length bs = 8%nat -> be_value 0 bs = 0 <-> true ∉ bits_of bs.
Proof.
  intros Hb Hl. split.
  - intros E. rewrite be_value_down, E by done. vm_compute. intros H. repeat (apply elem_of_cons in H as [H|H]; [done|]). by apply elem_of_nil in H.
  - intros Hn. rewrite (bits_all_skip true bs Hb Hn), Hl. reflexivity.
Qed.

Lemma redisBitpos_spec b addr s p bs : Forall is_byte bs -> rdn s p (Zlen bs) = Ret bs ->
  redisBitpos addr s p (Zlen bs) (Z.b2z b) = Ret (bitpos_ref b (bits_of bs)).
Proof.
  intros Hb E. unfold redisBitpos. rewrite (skip_value b) by done.
  destruct (bitpos_align_spec b (Z.to_nat (Zlen bs)) s addr p bs 0) as (n1 & bs1 & found & -> & -> & Hfound); [unfold Zlen; lia|done|done|].
  rewrite ret_bind. apply list.Forall_app in Hb as [_ Hb1]. apply rdn_app_inv in E as [_ E1].
  assert (Zlen (replicate n1 (skip_byte b)) = Z.of_nat n1) as Hz by (unfold Zlen; by rewrite length_replicate). rewrite Hz in E1.
  assert (exists n2 bs2, bs1 = replicate n2 (skip_byte b) ++ bs2 /\
    (if found then Ret (p + Z.of_nat n1, Zlen bs1, 0 + 8 * Z.of_nat n1)
     else bitpos_words (Z.to_nat (Zlen bs1)) s (p + Z.of_nat n1) (Zlen bs1) (0 + 8 * Z.of_nat n1) (if negb (Z.b2z b =? 0) then 0 else UINT64_MAX)) =
    Ret (p + Z.of_nat n1 + Z.of_nat n2, Zlen bs2, 8 * Z.of_nat (n1 + n2)) /\ ((length bs2 < 8)%nat \/ b ∈ bits_of (take 8 bs2)))
    as (n2 & bs2 & -> & -> & Hend).
  { destruct found.
    - exists 0%nat, bs1. split; [done|]. split; [ret_eq|]. right. by apply Hfound.
    - replace (if negb (Z.b2z b =? 0) then 0 else UINT64_MAX) with (if b then 0 else UINT64_MAX) by (by destruct b).
      destruct (bitpos_words_spec b (Z.to_nat (Zlen bs1)) s (p + Z.of_nat n1) bs1 (0 + 8 * Z.of_nat n1)) as (n2 & bs2 & -> & -> & Hend); [unfold Zlen; lia|done|done|].
      exists n2, bs2. split; [done|]. split; [ret_eq|done]. }
  rewrite ret_bind. apply list.Forall_app in Hb1 as [_ Hb2]. apply rdn_app_inv in E1 as [_ E2].
  assert (Zlen (replicate n2 (skip_byte b)) = Z.of_nat n2) as Hz2 by (unfold Zlen; by rewrite length_replicate). rewrite Hz2 in E2.
  rewrite load_word_spec, ret_bind by (done || lia).
  pose proof (pad_bytes 8 bs2 Hb2) as Hpb. pose proof (length_pad 8 bs2) as Hpl. set (w8 := pad 8 bs2) in *.
  rewrite !bits_app, app_assoc, <- bits_app, <- replicate_add. set (n := (n1 + n2)%nat).
  assert (bitpos_ref b (bits_of (replicate n (skip_byte b)) ++ bits_of bs2) =
    if b && (bit_index b (bits_of bs2) =? length (bits_of bs2))%nat then -1 else 8 * Z.of_nat n + Z.of_nat (bit_index b (bits_of bs2))) as ->.
  { unfold bitpos_ref. rewrite bit_index_skip, length_app, length_bits, length_replicate by apply skip_bits.
    destruct (Nat.eqb_spec (8 * n + bit_index b (bits_of bs2)) (8 * n + length (bits_of bs2))), (Nat.eqb_spec (bit_index b (bits_of bs2)) (length (bits_of bs2))); try lia; destruct b; cbn [andb]; lia. }
  assert (bits_of w8 = bits_of (take 8 bs2) ++ replicate (64 - 8 * length bs2) false) as Ew by apply pad_bits.
  destruct (decide (b ∈ bits_of (take 8 bs2))) as [Hin|Hout].
  - assert (b ∈ bits_of w8) as Hin8 by (rewrite Ew, elem_of_app; by left).
    assert ((Z.b2z b =? 1) && (be_value 0 w8 =? 0) = false) as ->.
    { destruct b; [|done]. cbn. apply Z.eqb_neq. intros H. by apply zero_word in H. }
    change (UINT64_MAX - Z.shiftr UINT64_MAX 1) with (2 ^ Z.of_nat 63). rewrite (be_value_down w8 Hpb Hpl) in Hin8.
    rewrite (scan_word_spec b 63) by done. rewrite <- (be_value_down w8 Hpb Hpl), Ew, bit_index_app by done.
    assert (bit_index b (bits_of bs2) = bit_index b (bits_of (take 8 bs2))) as Ei.
    { rewrite <- (take_drop 8 bs2) at 1. by rewrite bits_app, bit_index_app. }
    assert (b ∈ bits_of bs2) as Hin2 by (rewrite <- (take_drop 8 bs2), bits_app, elem_of_app; by left).
    apply bit_index_in in Hin2. rewrite (proj2 (Nat.eqb_neq _ _)) by lia. rewrite andb_false_r, Ei. ret_eq.
  - destruct Hend as [Hshort|]; [|done]. rewrite take_ge in Ew, Hout by lia. rewrite (bit_index_out b (bits_of bs2) Hout), Nat.eqb_refl.
    destruct b; cbn [andb].
    + assert (be_value 0 w8 = 0) as ->; [|done]. apply zero_word; [done|done|]. rewrite Ew, elem_of_app. intros [|H]; [done|]. by apply elem_of_replicate in H as [? _].
    + change ((Z.b2z false =? 1) && _) with false. cbv iota.
      change (UINT64_MAX - Z.shiftr UINT64_MAX 1) with (2 ^ Z.of_nat 63). assert (false ∈ replicate (64 - 8 * length bs2) false) as Hrep by (apply elem_of_replicate; split; [done|lia]).
      rewrite (scan_word_spec false 63) by (rewrite <- (be_value_down w8 Hpb Hpl), Ew, elem_of_app; by right).
      rewrite <- (be_value_down w8 Hpb Hpl), Ew, bit_index_skip by done.
      assert (bit_index false (replicate (64 - 8 * length bs2) false) = 0%nat) as -> by (by destruct (64 - 8 * length bs2)%nat eqn:?; [lia|]). ret_eq.
Qed.
