(* ===== verification/BitopsRange.v ===== *)
(** * BitopsRange: BITCOUNT and BITPOS

    The values of keys as byte strings, the arguments of the commands as texts,
    and the two commands against the bits of a range. *)

From S2P Require Import Prelude Memory NumStr Sds SdsInv SdsSpec Bitops BitopsBits.

(** ** Values and arguments *)

(** The string around its bytes: they can be replaced by as many others. *)
Lemma rep_frame s bs : sds_rep s bs -> exists h r, s = Build_sds (h ++ bs ++ 0 :: r) (Zlen h) /\
  forall bs', Zlen bs' = Zlen bs -> sds_rep (Build_sds (h ++ bs' ++ 0 :: r) (Zlen h)) bs'.
Proof.
  intros (type & alloc & fl & data & -> & Hok & [r Er] & Hd & Hb). exists (hdr_bytes type (Zlen bs) alloc fl), r.
  rewrite Er, <- app_assoc. split; [done|]. intros bs' Hl. exists type, alloc, fl, (bs' ++ 0 :: r). rewrite Hl.
  assert (Zlen (bs' ++ 0 :: r) = Zlen data) as -> by (rewrite Er, !Zlen_app, Zlen_cons, Hl; unfold Zlen; cbn [length]; lia).
  split; [done|]. split; [done|]. split; [|done]. exists r. by rewrite <- app_assoc.
Qed.

Inductive value := Missing | Str (bs : list Z) | WrongType.

Definition kv_value (o : option kvobj) (v : value) : Prop :=
  match o, v with
  | None, Missing => True
  | Some (StrObj _ s), Str bs => sds_rep s bs /\ Forall is_byte bs /\ Zlen bs < 2 ^ 60
  | Some (IntObj n), Str bs => bs = dec n /\ INT64_MIN <= n <= INT64_MAX
  | Some OtherObj, WrongType => True
  | _, _ => False
  end.

Lemma value_bytes o bs : kv_value o (Str bs) -> Forall is_byte bs /\ Zlen bs < 2 ^ 60.
Proof.
  destruct o as [[b s|n|]|]; try done; [by intros (_ & ? & ?)|]. intros [-> Hn]. split; [apply dec_bytes|].
  pose proof (dec_length n Hn). unfold LONG_STR_SIZE in *. lia.
Qed.

Lemma getObjectReadOnlyString_spec o bs : kv_value o (Str bs) -> exists s p, getObjectReadOnlyString o = Ret (s, p, Zlen bs) /\ rdn s p (Zlen bs) = Ret bs.
Proof.
  destruct o as [[b s|n|]|]; try done; cbn [getObjectReadOnlyString kv_value].
  - intros (Hs & _ & _). rewrite (rep_len _ _ Hs), ret_bind. exists (sds_block s), (sds_pos s). split; [done|].
    pose proof (rep_read _ _ Hs) as E. unfold s_read in E. by rewrite Z.add_0_r in E.
  - intros [-> Hn]. pose proof (dec_length n Hn). rewrite ll2string_ok, ret_bind by (done || unfold LONG_STR_SIZE in *; lia || (rewrite ?Zlen_replicate; unfold LONG_STR_SIZE in *; cbn; lia)).
    eexists _, 0. split; [done|]. apply rdn_head.
Qed.

(** The part of a text before its first zero byte. *)
Fixpoint c_cut (t : list Z) : list Z := match t with [] => [] | c :: t => if c =? 0 then [] else c :: c_cut t end.

Lemma c_cut_split t : exists r, t ++ [0] = c_cut t ++ 0 :: r /\ Forall (fun c => c <> 0) (c_cut t).
Proof.
  induction t as [|c t (r & E & Hnz)]; cbn [c_cut app]; [by exists []|]. destruct (Z.eqb_spec c 0) as [->|Hc]; [by exists (t ++ [0])|].
  exists r. cbn [app]. rewrite E. split; [done|]. by constructor.
Qed.

Lemma c_string_spec s t pre : sds_rep s (pre ++ t) -> c_string s (Zlen pre) = Ret (c_cut t).
Proof.
  intros Hs. destruct (rep_frame s (pre ++ t) Hs) as (h & r & -> & _). unfold c_string. cbn [sds_block sds_pos].
  destruct (c_cut_split t) as (r' & E & Hnz).
  assert (h ++ (pre ++ t) ++ 0 :: r = (h ++ pre) ++ c_cut t ++ 0 :: (r' ++ r)) as Eb.
  { rewrite <- !app_assoc. do 2 f_equal. change (0 :: r) with ([0] ++ r). rewrite app_assoc, E, <- app_assoc. done. }
  rewrite Eb, <- Zlen_app, c_strlen_spec, ret_bind by (done || rewrite !length_app; lia).
  unfold s_read. cbn [sds_block sds_pos]. rewrite <- Zlen_app. rewrite <- (Z.add_0_r (Zlen (h ++ pre))), rdn_app_off by lia. apply rdn_head.
Qed.

Lemma strcasecmp_is_spec s t word : sds_rep s t -> strcasecmp_is s word = Ret (bool_decide (map c_tolower (c_cut t) = word)).
Proof. intros Hs. unfold strcasecmp_is. pose proof (c_string_spec s t [] Hs) as E. change (Zlen (@nil Z)) with 0 in E. by rewrite E, ret_bind. Qed.

Lemma getLongLong_spec s t : sds_rep s t -> getLongLongFromObject s = Ret (string2ll t).
Proof. intros Hs. unfold getLongLongFromObject. by rewrite (rep_bytes _ _ Hs), ret_bind. Qed.

(** The unit of a range. *)
Definition unit_ref (u : option (list Z)) : option bool :=
  match u with
  | None => Some false
  | Some t => let w := map c_tolower (c_cut t) in
    if bool_decide (w = w_bit) then Some true else if bool_decide (w = w_byte) then Some false else None
  end.

Lemma range_unit_spec u t : option_Forall2 sds_rep u t -> range_unit u = Ret (unit_ref t).
Proof.
  destruct 1 as [s t Hs|]; [|done]. unfold range_unit, unit_ref. rewrite !(strcasecmp_is_spec s t) by done. rewrite ret_bind.
  destruct (bool_decide _); [done|]. rewrite ret_bind. by destruct (bool_decide _).
Qed.

(** ** Ranges *)

(** The elements from [lo] up to [hi]. *)
Definition between {A} (lo hi : Z) (l : list A) : list A := take (Z.to_nat (hi - lo)) (drop (Z.to_nat lo) l).

(** An index from the end when negative. *)
Definition from_end (tot x : Z) : Z := if x <? 0 then Z.max 0 (tot + x) else x.

(** The bits of a range: [isbit] says in which unit [start] and [end_] are. *)
Definition range_lo (isbit : bool) (len start : Z) : Z := if isbit then from_end (8 * len) start else 8 * from_end len start.
Definition range_hi (isbit : bool) (len end_ : Z) : Z :=
  Z.min (8 * len) (if isbit then from_end (8 * len) end_ + 1 else 8 * (from_end len end_ + 1)).

(** The masks are those of the bits before the first and after the last. *)
Lemma first_mask_byte k x : (k < 8)%nat -> is_byte x -> ones (byte_bits (Z.land x (first_mask (Z.of_nat k)))) = ones (take k (byte_bits x)).
Proof.
  intros Hk Hx. apply Z.eqb_eq. revert x Hx. apply byte_forallb.
  do 8 (destruct k as [|k]; [vm_compute; reflexivity|]). lia.
Qed.

Lemma last_mask_byte k x : (k < 8)%nat -> is_byte x -> ones (byte_bits (Z.land x (last_mask (Z.of_nat k)))) = ones (drop (S k) (byte_bits x)).
Proof.
  intros Hk Hx. apply Z.eqb_eq. revert x Hx. apply byte_forallb.
  do 8 (destruct k as [|k]; [vm_compute; reflexivity|]). lia.
Qed.

Lemma first_mask_mod a : first_mask a = first_mask (a mod 8).
Proof. unfold first_mask. assert (forall x, Z.land x 7 = x mod 8) as H by (intros x; exact (Z.land_ones x 3 ltac:(lia))). by rewrite !H, Zmod_mod. Qed.
Lemma last_mask_mod a : last_mask a = last_mask (a mod 8).
Proof. unfold last_mask. assert (forall x, Z.land x 7 = x mod 8) as H by (intros x; exact (Z.land_ones x 3 ltac:(lia))). by rewrite !H, Zmod_mod. Qed.

Lemma bits_drop i bs : bits_of (drop i bs) = drop (8 * i) (bits_of bs).
Proof.
  revert i. induction bs as [|b bs IH]; intros [|i]; [done|by rewrite drop_nil|done|]. cbn [drop]. rewrite IH, bits_cons.
  replace (8 * S i)%nat with (length (byte_bits b) + 8 * i)%nat by (rewrite length_byte_bits; lia). by rewrite drop_app_add.
Qed.

Lemma bits_take i bs : bits_of (take i bs) = take (8 * i) (bits_of bs).
Proof.
  revert i. induction bs as [|b bs IH]; intros [|i]; [done|by rewrite take_nil|done|]. cbn [take]. rewrite !bits_cons, IH.
  replace (8 * S i)%nat with (length (byte_bits b) + 8 * i)%nat by (rewrite length_byte_bits; lia). by rewrite take_app_add.
Qed.

(** Three parts of the bytes from that of the bit [a] to that of the bit [b]. *)
Lemma range_bytes bs a b : 0 <= a -> a <= b < 8 * Zlen bs -> exists x y mid,
  let k1 := Z.to_nat (a mod 8) in let k2 := Z.to_nat (b mod 8) in
  bs !! Z.to_nat (a / 8) = Some x /\ bs !! Z.to_nat (b / 8) = Some y /\ rdn bs (a / 8) (Zlen mid) = Ret mid /\ Zlen mid = b / 8 - a / 8 + 1 /\
  bits_of mid = take k1 (byte_bits x) ++ between a (b + 1) (bits_of bs) ++ drop (S k2) (byte_bits y).
Proof.
  intros Ha Hb. pose proof (Z.div_mod a 8 ltac:(lia)) as Ea. pose proof (Z.div_mod b 8 ltac:(lia)) as Eb.
  pose proof (Z.mod_pos_bound a 8 ltac:(lia)) as Ra. pose proof (Z.mod_pos_bound b 8 ltac:(lia)) as Rb.
  assert (a / 8 <= b / 8 < Zlen bs) as Hab by lia. assert (0 <= a / 8) as Ha0 by lia.
  destruct (lookup_lt_is_Some_2 bs (Z.to_nat (a / 8))) as [x Hx]; [unfold Zlen in *; lia|].
  destruct (lookup_lt_is_Some_2 bs (Z.to_nat (b / 8))) as [y Hy]; [unfold Zlen in *; lia|].
  set (n := Z.to_nat (b / 8 - a / 8 + 1)). set (i := Z.to_nat (a / 8)). set (mid := take n (drop i bs)).
  assert (length mid = n) as Hl by (unfold mid; rewrite length_take, length_drop; unfold Zlen in *; lia).
  assert (Zlen mid = b / 8 - a / 8 + 1) as Hz by (unfold Zlen; lia).
  exists x, y, mid. cbv zeta. split; [done|]. split; [done|]. split; [rewrite Hz, rdn_ok by lia; done|]. split; [done|].
  assert (bits_of mid = take (8 * n) (drop (8 * i) (bits_of bs))) as Em by (unfold mid; by rewrite bits_take, bits_drop).
  assert (forall j z, bs !! j = Some z -> byte_bits z = take 8 (drop (8 * j) (bits_of bs))) as Hbyte.
  { intros j z Hj. rewrite <- bits_drop, (drop_S _ _ _ Hj), bits_cons. by rewrite take_app_length' by done. }
  rewrite Em, (Hbyte _ _ Hx), (Hbyte _ _ Hy). unfold between. fold i. set (L := bits_of bs). set (M := drop (8 * i) L).
  rewrite take_take. replace (Z.to_nat (a mod 8) `min` 8)%nat with (Z.to_nat (a mod 8)) by lia.
  replace (drop (Z.to_nat a) L) with (drop (Z.to_nat (a mod 8)) M) by (unfold M; rewrite drop_drop; f_equal; lia).
  rewrite skipn_firstn_comm.
  replace (drop (S (Z.to_nat (b mod 8))) (drop (8 * Z.to_nat (b / 8)) L)) with (drop (Z.to_nat (b + 1 - a)) (drop (Z.to_nat (a mod 8)) M))
    by (unfold M; rewrite !drop_drop; f_equal; lia).
  rewrite take_take_drop, take_take_drop. f_equal. lia.
Qed.

(** ** BITCOUNT *)

Section ranges.
Context (use_popcnt : bool) (addr_of : list Z -> Z).

Lemma land_byte x m : is_byte x -> is_byte (Z.land x m).
Proof.
  unfold is_byte. intros Hx. split; [apply Z.land_nonneg; lia|]. destruct (decide (Z.land x m = 0)) as [->|Hne]; [lia|].
  assert (Z.land x m = Z.land x (Z.land m 255)) as ->.
  { rewrite (Z.land_comm m), Z.land_assoc, land_255. by rewrite Z.mod_small by lia. }
  rewrite Z.land_assoc, land_255. apply Z.mod_pos_bound. lia.
Qed.

Lemma div_le_mono8 a b : a <= b -> a / 8 <= b / 8.
Proof. intros. apply Z.div_le_mono; lia. Qed.

(** A byte of the buffer. *)
Lemma rd_byte (s : list Z) p bs i x : rdn s p (Zlen bs) = Ret bs -> 0 <= i -> bs !! Z.to_nat i = Some x -> rd s (p + i) = Ret x.
Proof.
  intros E Hi Hx. pose proof (lookup_lt_Some _ _ _ Hx). rewrite (rd_of_rdn _ _ _ _ i E) by (unfold Zlen; lia). by apply rd_lookup.
Qed.

Lemma bitcount_bits s p bs a b : Forall is_byte bs -> rdn s p (Zlen bs) = Ret bs -> 0 <= a -> a <= b < 8 * Zlen bs ->
  bitcount_range use_popcnt addr_of s p (a / 8) (b / 8) (first_mask a) (last_mask b) = Ret (ones (between a (b + 1) (bits_of bs))).
Proof.
  intros Hb E Ha Hab. destruct (range_bytes bs a b Ha Hab) as (x & y & mid & Hx & Hy & Em & Hz & Ebits). cbv zeta in *.
  pose proof (div_le_mono8 a b ltac:(lia)) as Hd. assert (0 <= a / 8) as Ha0 by (apply Z.div_pos; lia).
  unfold bitcount_range. destruct (Z.ltb_spec (b / 8) (a / 8)); [lia|]. rewrite <- Hz. unfold redisPopcountAuto.
  pose proof (proj1 (list.Forall_forall _ _) Hb x (list_elem_of_lookup_2 _ _ _ Hx)) as Bx.
  pose proof (proj1 (list.Forall_forall _ _) Hb y (list_elem_of_lookup_2 _ _ _ Hy)) as By.
  assert (Zlen mid <= Zlen bs - a / 8) as Hfit by (rewrite Hz; assert (b / 8 < Zlen bs) by (apply Z.div_lt_upper_bound; lia); lia).
  assert (Forall is_byte mid) as Bm.
  { apply rdn_length in Em as Hl. rewrite rdn_ok in Em by lia. injection Em as Em. rewrite <- Em. by apply Forall_take, Forall_drop. }
  rewrite redisPopcount_spec by (done || (rewrite (rdn_sub _ _ _ _ (a / 8) (Zlen mid) E); [done|lia|apply Zlen_nonneg|lia])). rewrite ret_bind.
  rewrite (rd_byte s p bs (a / 8) x E Ha0 Hx), (rd_byte s p bs (b / 8) y E ltac:(lia) Hy), !ret_bind.
  assert (forall z m, (if negb (m =? 0) then Ret (Z.land z m) else Ret 0) = Ret (Z.land z m)) as Hland.
  { intros z m. destruct (Z.eqb_spec m 0) as [->|]; cbn [negb]; [by rewrite Z.land_0_r|done]. }
  rewrite !Hland, !ret_bind. pose proof (land_byte x (first_mask a) Bx) as B1. pose proof (land_byte y (last_mask b) By) as B2.
  assert (Forall is_byte [Z.land x (first_mask a); Z.land y (last_mask b)]) as B12 by (apply Forall_cons_2; [done|]; by apply Forall_cons_2).
  pose proof (redisPopcount_spec use_popcnt (addr_of [Z.land x (first_mask a); Z.land y (last_mask b)]) [Z.land x (first_mask a); Z.land y (last_mask b)] 0 _ B12 eq_refl) as Efl.
  change (Zlen [_; _]) with 2 in Efl. rewrite Efl, ret_bind.
  rewrite !bits_cons, !ones_app. change (ones (bits_of [])) with 0.
  pose proof (Z.mod_pos_bound a 8 ltac:(lia)). pose proof (Z.mod_pos_bound b 8 ltac:(lia)).
  rewrite (first_mask_mod a), (last_mask_mod b).
  rewrite <- (Z2Nat.id (a mod 8)) by lia. rewrite <- (Z2Nat.id (b mod 8)) by lia. rewrite first_mask_byte, last_mask_byte by (done || lia).
  rewrite Ebits, !ones_app. destruct (_ || _) eqn:Emask; [ret_eq|].
  apply orb_false_iff in Emask as [E1%negb_false_iff%Z.eqb_eq E2%negb_false_iff%Z.eqb_eq].
  rewrite <- (first_mask_byte (Z.to_nat (a mod 8)) x), <- (last_mask_byte (Z.to_nat (b mod 8)) y), E1, E2, !Z.land_0_r by (done || lia).
  change (ones (byte_bits 0)) with 0. ret_eq.
Qed.

(** ** BITPOS *)

Lemma masked_first beta k x : (k < 8)%nat -> is_byte x ->
  byte_bits (masked (Z.b2z beta) x (first_mask (Z.of_nat k))) = replicate k (negb beta) ++ drop k (byte_bits x) /\ is_byte (masked (Z.b2z beta) x (first_mask (Z.of_nat k))).
Proof.
  intros Hk Hx. unfold is_byte. set (m := masked _ _ _).
  assert (bool_decide (byte_bits m = replicate k (negb beta) ++ drop k (byte_bits x)) && (0 <=? m) && (m <? 256) = true) as H; [|rewrite !andb_true_iff, bool_decide_eq_true in H; split; [tauto|lia]].
  subst m. revert x Hx. apply byte_forallb. do 8 (destruct k as [|k]; [destruct beta; vm_compute; reflexivity|]). lia.
Qed.

Lemma masked_last beta k x : (k < 8)%nat -> is_byte x ->
  byte_bits (masked (Z.b2z beta) x (last_mask (Z.of_nat k))) = take (S k) (byte_bits x) ++ replicate (7 - k) (negb beta) /\ is_byte (masked (Z.b2z beta) x (last_mask (Z.of_nat k))).
Proof.
  intros Hk Hx. unfold is_byte. set (m := masked _ _ _).
  assert (bool_decide (byte_bits m = take (S k) (byte_bits x) ++ replicate (7 - k) (negb beta)) && (0 <=? m) && (m <? 256) = true) as H; [|rewrite !andb_true_iff, bool_decide_eq_true in H; split; [tauto|lia]].
  subst m. revert x Hx. apply byte_forallb. do 8 (destruct k as [|k]; [destruct beta; vm_compute; reflexivity|]). lia.
Qed.

(** A search in a list surrounded by bits that are not looked for. *)
Lemma bitpos_padded beta n1 seg n2 : bitpos_ref beta (replicate n1 (negb beta) ++ seg ++ replicate n2 (negb beta)) =
  if decide (beta ∈ seg) then Z.of_nat (n1 + bit_index beta seg) else if beta then -1 else Z.of_nat (n1 + length seg + n2).
Proof.
  assert (forall n, beta ∉ replicate n (negb beta)) as Hrep by (intros n [H _]%elem_of_replicate; by destruct beta).
  unfold bitpos_ref. rewrite bit_index_skip, !length_app, !length_replicate by done. destruct (decide (beta ∈ seg)) as [Hin|Hout].
  - rewrite bit_index_app by done. apply bit_index_in in Hin. rewrite (proj2 (Nat.eqb_neq _ _)) by lia. by rewrite andb_false_r.
  - rewrite bit_index_skip, bit_index_out, length_replicate, Nat.eqb_refl by done. destruct beta; cbn [andb]; [done|lia].
Qed.

(** The reply for the bits [l] from the position [lo] on. *)
Definition bitpos_reply (beta : bool) (lo : Z) (l : list bool) (end_given : bool) : Z :=
  if decide (beta ∈ l) then lo + Z.of_nat (bit_index beta l)
  else if beta || end_given then -1 else lo + Zlen l.

Lemma bitpos_result_found beta start bytes eg pos : 0 <= pos < 8 * bytes ->
  bitpos_result (Z.b2z beta) start bytes eg pos = ReplyLong (8 * start + pos).
Proof.
  intros Hp. unfold bitpos_result. rewrite !Z.shiftl_mul_pow2 by lia. change (2 ^ 3) with 8.
  destruct (Z.eqb_spec pos (bytes * 8)); [lia|]. rewrite andb_false_r. destruct (Z.eqb_spec pos (-1)); [lia|]. cbn [negb]. f_equal. lia.
Qed.

(** No such bit in the last bytes of the range. *)
Lemma bitpos_result_end beta start bytes eg : 0 <= start -> 0 < bytes ->
  bitpos_result (Z.b2z beta) start bytes eg (if beta then -1 else 8 * bytes) = ReplyLong (if beta || eg then -1 else 8 * (start + bytes)).
Proof.
  intros Hs Hb. unfold bitpos_result. rewrite !Z.shiftl_mul_pow2 by lia. change (2 ^ 3) with 8.
  destruct beta; cbn [orb Z.b2z Z.eqb Pos.eqb negb]; [by rewrite andb_false_r|]. rewrite (Z.mul_comm bytes 8), Z.eqb_refl, !andb_true_r.
  destruct eg; [done|]. destruct (Z.eqb_spec (8 * bytes) (-1)); [lia|]. cbn [negb]. f_equal. lia.
Qed.

(** The reply after a search in the bytes [start] to [start+bytes-1]. *)
Lemma result_ref beta start bytes eg n1 seg n2 : 0 <= start -> 0 < bytes -> Z.of_nat (n1 + length seg + n2) = 8 * bytes -> eg = true \/ n2 = 0%nat ->
  bitpos_result (Z.b2z beta) start bytes eg (bitpos_ref beta (replicate n1 (negb beta) ++ seg ++ replicate n2 (negb beta))) =
  ReplyLong (bitpos_reply beta (8 * start + Z.of_nat n1) seg eg).
Proof.
  intros Hs Hb Hl Heg. rewrite bitpos_padded. unfold bitpos_reply. destruct (decide (beta ∈ seg)) as [Hin|Hout].
  - apply bit_index_in in Hin. rewrite bitpos_result_found by lia. f_equal. lia.
  - replace (if beta then -1 else Z.of_nat (n1 + length seg + n2)) with (if beta then -1 else 8 * bytes) by (by rewrite Hl).
    rewrite bitpos_result_end by done. destruct (beta || eg) eqn:E; [done|]. apply orb_false_iff in E as [_ ->]. f_equal. unfold Zlen. destruct Heg; [done|]. lia.
Qed.

Lemma reply_skip beta lo l1 l2 eg : beta ∉ l1 -> bitpos_reply beta lo (l1 ++ l2) eg = bitpos_reply beta (lo + Zlen l1) l2 eg.
Proof.
  intros Hn. unfold bitpos_reply. rewrite Zlen_app, bit_index_skip by done.
  destruct (decide (beta ∈ l1 ++ l2)) as [Hin|Hin], (decide (beta ∈ l2)) as [Hin'|Hin']; rewrite elem_of_app in Hin; try tauto; unfold Zlen; [lia|].
  destruct (beta || eg); lia.
Qed.

Lemma reply_found beta lo l1 l2 eg : beta ∈ l1 -> bitpos_reply beta lo (l1 ++ l2) eg = lo + Z.of_nat (bit_index beta l1).
Proof. intros Hin. unfold bitpos_reply. rewrite bit_index_app by done. rewrite decide_True; [done|]. rewrite elem_of_app. by left. Qed.

(** One byte in a buffer of its own. *)
Lemma bitpos_byte beta addr t : is_byte t -> redisBitpos addr [t] 0 1 (Z.b2z beta) = Ret (bitpos_ref beta (byte_bits t)).
Proof.
  intros Ht. change 1 with (Zlen [t]) at 1. rewrite redisBitpos_spec by (done || by apply Forall_cons_2). by rewrite bits_cons, app_nil_r.
Qed.

(** The masks that are zero. *)
Lemma first_mask_zero k : (k < 8)%nat -> (first_mask (Z.of_nat k) =? 0) = (k =? 0)%nat.
Proof. intros Hk. do 8 (destruct k as [|k]; [reflexivity|]). lia. Qed.
Lemma last_mask_zero k : (k < 8)%nat -> (last_mask (Z.of_nat k) =? 0) = (k =? 7)%nat.
Proof. intros Hk. do 8 (destruct k as [|k]; [reflexivity|]). lia. Qed.
Lemma masked_zero beta t : is_byte t -> masked (Z.b2z beta) t 0 = t.
Proof. intros Ht. unfold masked. destruct beta; cbn [Z.b2z Z.eqb Pos.eqb negb]; [|by rewrite Z.lor_0_r]. change (u8 (Z.lnot 0)) with 255. rewrite land_255. apply Z.mod_small. apply Ht. Qed.
End ranges.

(** The last byte, with the bits after the range masked. *)
Lemma last_stage (addr_of : list Z -> Z) beta e k2 y eg : (k2 < 8)%nat -> is_byte y -> 0 <= e -> eg = true \/ k2 = 7%nat ->
  (let tmpchar := masked (Z.b2z beta) y (last_mask (Z.of_nat k2)) in
   pos ← redisBitpos (addr_of [tmpchar]) [tmpchar] 0 1 (Z.b2z beta); Ret (bitpos_result (Z.b2z beta) e 1 eg pos)) =
  Ret (ReplyLong (bitpos_reply beta (8 * e) (take (S k2) (byte_bits y)) eg)).
Proof.
  intros Hk Hy He Heg. cbv zeta. destruct (masked_last beta k2 y Hk Hy) as [Eb Ht]. rewrite bitpos_byte, ret_bind, Eb by done. f_equal.
  pose proof (result_ref beta e 1 eg 0 (take (S k2) (byte_bits y)) (7 - k2)) as H. cbn [replicate app] in H. rewrite H; [by rewrite Z.add_0_r|done|lia| |].
  - rewrite length_take, length_byte_bits. lia.
  - destruct Heg; [by left|]. right. lia.
Qed.

(** The bytes from the [c]-th on, to the bit [b]. *)
Lemma tail_spec addr_of beta s p bs c b eg : Forall is_byte bs -> rdn s p (Zlen bs) = Ret bs -> 0 <= c -> 8 * c <= b < 8 * Zlen bs -> eg = true \/ b mod 8 = 7 ->
  bitpos_tail addr_of s p (Z.b2z beta) c (b / 8 - c + 1) (b / 8) (last_mask b) eg =
  Ret (ReplyLong (bitpos_reply beta (8 * c) (between (8 * c) (b + 1) (bits_of bs)) eg)).
Proof.
  intros Hb E Hc Hcb Heg. destruct (range_bytes bs (8 * c) b ltac:(lia) Hcb) as (x & y & mid & Hx & Hy & Em & Hz & Ebits). cbv zeta in *.
  rewrite (Z.mul_comm 8 c), Z.div_mul, Z.mod_mul in * by lia. rewrite (Z.mul_comm c 8) in *. change (take (Z.to_nat 0) (byte_bits x)) with (@nil bool) in Ebits. cbn [app] in Ebits.
  pose proof (Z.mod_pos_bound b 8 ltac:(lia)) as Rb. set (k2 := Z.to_nat (b mod 8)) in *. assert (b mod 8 = Z.of_nat k2) as Ek by lia.
  set (l := between (8 * c) (b + 1) (bits_of bs)) in *. assert (c <= b / 8 < Zlen bs) as Hcd by (split; [apply Z.div_le_lower_bound; lia|apply Z.div_lt_upper_bound; lia]).
  pose proof (proj1 (list.Forall_forall _ _) Hb y (list_elem_of_lookup_2 _ _ _ Hy)) as By.
  assert (rdn s (p + c) (Zlen mid) = Ret mid) as Emid by (rewrite (rdn_sub _ _ _ _ c (Zlen mid) E); [done|lia|apply Zlen_nonneg|lia]).
  assert (Forall is_byte mid) as Bm by (rewrite rdn_ok in Em by lia; injection Em as Em; rewrite <- Em; by apply Forall_take, Forall_drop).
  unfold bitpos_tail. rewrite last_mask_mod, Ek, last_mask_zero by lia. rewrite (rd_byte s p bs (b / 8) y E ltac:(lia) Hy), <- Hz.
  destruct (Nat.eqb_spec k2 7) as [E7|N7]; cbn [negb].
  - rewrite Z.sub_0_r. destruct (Z.ltb_spec 0 (Zlen mid)); [|lia]. rewrite redisBitpos_spec, ret_bind, Z.eqb_refl by done. cbn [orb]. rewrite ret_bind. f_equal.
    rewrite E7 in Ebits. rewrite (drop_ge (byte_bits y)), app_nil_r in Ebits by (rewrite length_byte_bits; lia). rewrite Ebits.
    pose proof (result_ref beta c (Zlen mid) eg 0 l 0) as H'. cbn [replicate app] in H'. rewrite app_nil_r in H'. rewrite H'; [by rewrite Z.add_0_r|done|lia| |by right].
    apply (f_equal length) in Ebits. rewrite length_bits in Ebits. unfold Zlen. lia.
  - destruct Heg as [->|]; [|lia].
    assert (exists m, mid = m ++ [y] /\ l = bits_of m ++ take (S k2) (byte_bits y)) as (m & -> & El).
    { exists (take (length mid - 1) mid). assert (mid = take (length mid - 1) mid ++ [y]) as E1.
      { pose proof (rd_of_rdn _ _ _ _ (Zlen mid - 1) Em ltac:(lia)) as Er. rewrite (rd_lookup bs _ y) in Er by (lia || (rewrite <- Hy; f_equal; lia)).
        symmetry in Er. apply rd_Ret_inv in Er as [_ Er]. rewrite <- (take_drop (length mid - 1) mid) at 1. f_equal.
        replace (Z.to_nat (Zlen mid - 1)) with (length mid - 1)%nat in Er by (unfold Zlen; lia). rewrite (drop_S _ _ _ Er). by rewrite drop_ge by lia. }
      split; [done|]. rewrite E1 in Ebits at 1. rewrite bits_app, bits_cons, app_nil_r in Ebits. rewrite <- (take_drop (S k2) (byte_bits y)) in Ebits at 1.
      rewrite app_assoc in Ebits. apply app_inv_tail in Ebits. by rewrite Ebits. }
    rewrite Zlen_app in *. change (Zlen [y]) with 1 in *. replace (Zlen m + 1 - 1) with (Zlen m) by lia.
    apply list.Forall_app in Bm as [Bm _]. pose proof (Zlen_nonneg m). rewrite El. destruct (Z.ltb_spec 0 (Zlen m)) as [Hm|Hm].
    + assert (rdn s (p + c) (Zlen m) = Ret m) as Em' by (replace (Zlen m + 1) with (Zlen (m ++ [y])) in Emid by (by rewrite Zlen_app); by destruct (rdn_app_inv _ _ _ _ Emid)).
      rewrite redisBitpos_spec, ret_bind by done. destruct (Z.eqb_spec (Zlen m + 1) (Zlen m)); [lia|]. cbn [orb].
      pose proof (bitpos_padded beta 0 (bits_of m) 0) as Hp. cbn [replicate app] in Hp. rewrite app_nil_r in Hp. rewrite Hp. clear Hp. rewrite Z.shiftl_mul_pow2 by lia. change (2 ^ 3) with 8.
      pose proof (Zlen_bits m) as Lm. unfold Zlen at 1 in Lm. destruct (decide (beta ∈ bits_of m)) as [Hin|Hout].
      * pose proof (proj1 (bit_index_in _ _) Hin). rewrite (proj2 (Z.eqb_neq (Z.of_nat _) (-1))), (proj2 (Z.eqb_neq (Z.of_nat _) (Zlen m * 8))) by lia. cbn [negb andb]. rewrite ret_bind.
        rewrite bitpos_result_found by lia. by rewrite reply_found.
      * assert (negb ((if beta then -1 else Z.of_nat (0 + length (bits_of m) + 0)) =? -1) && negb ((if beta then -1 else Z.of_nat (0 + length (bits_of m) + 0)) =? Zlen m * 8) = false) as ->.
        { destruct beta; [done|]. destruct (Z.eqb_spec (Z.of_nat (0 + length (bits_of m) + 0)) (Zlen m * 8)); [by rewrite andb_false_r|lia]. }
        rewrite !ret_bind. replace (c + Zlen m) with (b / 8) by lia. replace (Zlen m + 1 - Zlen m) with 1 by lia.
        rewrite reply_skip by done. rewrite Zlen_bits. replace (8 * c + 8 * Zlen m) with (8 * (b / 8)) by lia. apply last_stage; [lia|done|lia|by left].
    + assert (m = []) as -> by (destruct m; [done|rewrite Zlen_cons in Hm; pose proof (Zlen_nonneg m); lia]).
      rewrite !ret_bind. change (Zlen []) with 0 in *. cbn [Z.add bits_of mbind list_bind app]. replace c with (b / 8) by lia. apply last_stage; [lia|done|lia|by left].
Qed.

Lemma bitpos_bits addr_of beta s p bs a b eg : Forall is_byte bs -> rdn s p (Zlen bs) = Ret bs -> 0 <= a -> a <= b < 8 * Zlen bs -> eg = true \/ b mod 8 = 7 ->
  bitpos_range addr_of s p (Z.b2z beta) (a / 8) (b / 8) (first_mask a) (last_mask b) eg =
  Ret (ReplyLong (bitpos_reply beta a (between a (b + 1) (bits_of bs)) eg)).
Proof.
  intros Hb E Ha Hab Heg. destruct (range_bytes bs a b Ha Hab) as (x & y & mid & Hx & Hy & Em & Hz & Ebits). cbv zeta in *.
  pose proof (Z.mod_pos_bound a 8 ltac:(lia)) as Ra. pose proof (Z.mod_pos_bound b 8 ltac:(lia)) as Rb.
  set (k1 := Z.to_nat (a mod 8)) in *. set (k2 := Z.to_nat (b mod 8)) in *. assert (a mod 8 = Z.of_nat k1) as Ek1 by lia. assert (b mod 8 = Z.of_nat k2) as Ek2 by lia.
  pose proof (Z.div_mod a 8 ltac:(lia)) as Ea. pose proof (Z.div_mod b 8 ltac:(lia)) as Eb. pose proof (div_le_mono8 a b ltac:(lia)) as Hd.
  assert (0 <= a / 8) as Ha0 by (apply Z.div_pos; lia).
  pose proof (proj1 (list.Forall_forall _ _) Hb x (list_elem_of_lookup_2 _ _ _ Hx)) as Bx.
  unfold bitpos_range. destruct (Z.ltb_spec (b / 8) (a / 8)); [lia|]. rewrite first_mask_mod, Ek1, first_mask_zero by lia.
  rewrite (rd_byte s p bs (a / 8) x E Ha0 Hx). destruct (Nat.eqb_spec k1 0) as [E0|N0]; cbn [negb].
  { rewrite ret_bind. replace a with (8 * (a / 8)) by lia. rewrite (Z.mul_comm 8 (a / 8)), Z.div_mul, (Z.mul_comm (a / 8) 8) by lia. by apply tail_spec; [| |lia|lia|]. }
  rewrite ret_bind. destruct (masked_first beta k1 x) as [Et1 Bt1]; [lia|done|]. set (t1 := masked (Z.b2z beta) x (first_mask (Z.of_nat k1))) in *.
  destruct (Z.eqb_spec (b / 8 - a / 8 + 1) 1) as [E1|N1].
  - (* one byte *)
    rewrite andb_true_r. assert (y = x) as -> by (replace (b / 8) with (a / 8) in Hy by lia; congruence).
    assert (mid = [x]) as ->.
    { rewrite <- Hz in E1. destruct mid as [|z [|z2 mid']]; [done| |rewrite !Zlen_cons in E1; pose proof (Zlen_nonneg mid'); lia].
      change (Zlen [z]) with 1 in Em. apply (rd_of_rdn _ _ _ _ 0) in Em; [|lia]. rewrite Z.add_0_r, (rd_lookup bs _ x) in Em by (done || lia). by injection Em as ->. }
    rewrite bits_cons, app_nil_r in Ebits.
    assert ((if negb (last_mask b =? 0) then masked (Z.b2z beta) t1 (last_mask b) else t1) = masked (Z.b2z beta) t1 (last_mask (Z.of_nat k2))) as ->.
    { rewrite last_mask_mod, Ek2. destruct (Z.eqb_spec (last_mask (Z.of_nat k2)) 0) as [->|]; [by rewrite masked_zero|done]. }
    destruct (masked_last beta k2 t1) as [Et2 Bt2]; [lia|done|]. rewrite bitpos_byte, ret_bind by done. cbn [orb]. rewrite ret_bind. f_equal. rewrite Et2, Et1.
    assert (k1 <= k2)%nat as Hk by lia. set (l := between a (b + 1) (bits_of bs)) in *.
    assert (length l = S k2 - k1)%nat as Ll.
    { apply (f_equal length) in Ebits. rewrite !length_app, length_take, length_drop, !length_byte_bits in Ebits. lia. }
    assert (take (S k2) (replicate k1 (negb beta) ++ drop k1 (byte_bits x)) = replicate k1 (negb beta) ++ l) as ->.
    { rewrite Ebits. rewrite drop_app_length' by (rewrite length_take, length_byte_bits; lia). rewrite app_assoc, take_app_length'; [done|]. rewrite length_app, length_replicate. lia. }
    rewrite <- app_assoc, result_ref; [do 2 f_equal; lia|done|lia|lia|]. destruct Heg; [by left|right; lia].
  - rewrite andb_false_r. rewrite bitpos_byte, ret_bind, Et1 by done. cbn [orb].
    pose proof (bitpos_padded beta k1 (drop k1 (byte_bits x)) 0) as Hp. cbn [replicate] in Hp. rewrite app_nil_r in Hp. rewrite Hp. clear Hp.
    assert (length (drop k1 (byte_bits x)) = 8 - k1)%nat as L1 by (rewrite length_drop, length_byte_bits; lia).
    assert (between a (b + 1) (bits_of bs) = drop k1 (byte_bits x) ++ between (8 * (a / 8 + 1)) (b + 1) (bits_of bs)) as El.
    { unfold between. assert (drop k1 (byte_bits x) = take (8 - k1) (drop (Z.to_nat a) (bits_of bs))) as ->.
      { assert (byte_bits x = take 8 (drop (8 * Z.to_nat (a / 8)) (bits_of bs))) as ->.
        { rewrite <- bits_drop, (drop_S _ _ _ Hx), bits_cons. by rewrite take_app_length' by done. }
        rewrite skipn_firstn_comm, drop_drop. do 2 f_equal. lia. }
      replace (drop (Z.to_nat (8 * (a / 8 + 1))) (bits_of bs)) with (drop (8 - k1) (drop (Z.to_nat a) (bits_of bs))) by (rewrite drop_drop; f_equal; lia).
      rewrite take_take_drop. f_equal. lia. }
    rewrite El. destruct (decide (beta ∈ drop k1 (byte_bits x))) as [Hin|Hout].
    + pose proof (proj1 (bit_index_in _ _) Hin). rewrite (proj2 (Z.eqb_neq (Z.of_nat _) (-1))), (proj2 (Z.eqb_neq (Z.of_nat _) 8)) by lia. cbn [negb andb]. rewrite ret_bind.
      rewrite bitpos_result_found by lia. rewrite reply_found by done. do 2 f_equal. lia.
    + assert (negb ((if beta then -1 else Z.of_nat (k1 + length (drop k1 (byte_bits x)) + 0)) =? -1) && negb ((if beta then -1 else Z.of_nat (k1 + length (drop k1 (byte_bits x)) + 0)) =? 8) = false) as ->.
      { destruct beta; [done|]. rewrite (proj2 (Z.eqb_eq (Z.of_nat _) 8)) by lia. by rewrite andb_false_r. }
      rewrite ret_bind, reply_skip by done. replace (a + Zlen (drop k1 (byte_bits x))) with (8 * (a / 8 + 1)) by (unfold Zlen; lia).
      replace (b / 8 - a / 8 + 1 - 1) with (b / 8 - (a / 8 + 1) + 1) by lia. by apply tail_spec; [| |lia|lia|].
Qed.

(** ** The ranges of the commands *)

Lemma range_cases (isbit : bool) len start end_ : 0 <= len ->
  let '(s, e) := convert_range (if isbit then Z.shiftl len 3 else len) start end_ in
  let lo := range_lo isbit len start in
  let hi := range_hi isbit len end_ in
  (hi <= lo /\ exists s' e' m1 m2, edge_masks isbit s e = (s', e', m1, m2) /\ e' < s') \/
  (0 <= lo < hi /\ hi <= 8 * len /\ (isbit = false -> hi mod 8 = 0) /\
   edge_masks isbit s e = (lo / 8, (hi - 1) / 8, first_mask lo, last_mask (hi - 1))).
Proof.
  intros Hl. rewrite Z.shiftl_mul_pow2 by lia. change (2 ^ 3) with 8. set (tot := if isbit then len * 8 else len).
  assert (convert_range tot start end_ = (from_end tot start, Z.min (tot - 1) (from_end tot end_))) as ->.
  { unfold convert_range, from_end. f_equal; destruct (Z.ltb_spec start 0), (Z.ltb_spec end_ 0);
      repeat match goal with |- context [?x <? ?y] => destruct (Z.ltb_spec x y) | |- context [?x <=? ?y] => destruct (Z.leb_spec x y) end; lia. }
  assert (0 <= from_end tot start) as Hs by (unfold from_end; destruct (Z.ltb_spec start 0); lia).
  assert (0 <= from_end tot end_) as He by (unfold from_end; destruct (Z.ltb_spec end_ 0); lia).
  cbv zeta. unfold range_lo, range_hi, edge_masks. subst tot. destruct isbit; cbn [andb].
  - rewrite (Z.mul_comm 8 len). set (s := from_end (len * 8) start) in *. set (f := from_end (len * 8) end_) in *.
    destruct (Z.leb_spec s (Z.min (len * 8 - 1) f)); [right|left; split; [lia|]; eexists _, _, _, _; split; [done|lia]].
    split; [lia|]. split; [lia|]. split; [done|]. rewrite !Z.shiftr_div_pow2 by lia. change (2 ^ 3) with 8. by replace (Z.min (len * 8) (f + 1) - 1) with (Z.min (len * 8 - 1) f) by lia.
  - set (s := from_end len start) in *. set (f := from_end len end_) in *. set (e := Z.min (len - 1) f).
    replace (Z.min (8 * len) (8 * (f + 1))) with (8 * (e + 1)) by lia.
    destruct (Z.le_gt_cases s e); [right|left; split; [lia|]; eexists _, _, _, _; split; [done|lia]].
    split; [lia|]. split; [lia|]. split; [intros _; by rewrite Z.mul_comm, Z_mod_mult|].
    rewrite first_mask_mod, last_mask_mod. rewrite (Z.mul_comm 8 s), Z.div_mul, Z_mod_mult by lia.
    replace (8 * (e + 1) - 1) with (7 + e * 8) by lia. rewrite Z.div_add, Z_mod_plus_full by lia. reflexivity.
Qed.

Lemma between_empty {A} lo hi (l : list A) : hi <= lo -> between lo hi l = [].
Proof. intros H. unfold between. by replace (Z.to_nat (hi - lo)) with 0%nat by lia. Qed.

Lemma between_all {A} (l : list A) : between 0 (Zlen l) l = l.
Proof. unfold between, Zlen. rewrite Z.sub_0_r, Nat2Z.id. cbn [drop]. by apply firstn_all. Qed.

Lemma checkType_spec o v : kv_value o v -> checkType o = match v with WrongType => true | _ => false end.
Proof. by destruct o as [[]|], v. Qed.

Lemma llong_guard n : n < 2 ^ 60 -> c_assert (n <=? Z.shiftr LLONG_MAX 3) = Ret tt.
Proof. intros H. unfold c_assert. change (Z.shiftr LLONG_MAX 3) with (2 ^ 60 - 1). by rewrite (proj2 (Z.leb_le _ _)) by lia. Qed.

(** ** The commands *)

(** The reply of BITCOUNT, from the bytes of the value and the texts of the arguments. *)
Definition bitcount_ref (v : value) (args : list (list Z)) : reply :=
  let answer (n : list Z -> Z) :=
    match v with Missing => ReplyLong 0 | WrongType => ReplyError ErrWrongType | Str bs => ReplyLong (n bs) end in
  match args with
  | [] => answer (fun bs => ones (bits_of bs))
  | a :: b :: rest =>
    if 1 <? Zlen rest then ReplyError ErrSyntax else
    match string2ll a, string2ll b with
    | Some start, Some end_ =>
      match unit_ref (head rest) with
      | None => ReplyError ErrSyntax
      | Some isbit =>
        answer (fun bs => if (start <? 0) && (end_ <? 0) && (end_ <? start) then 0
          else ones (between (range_lo isbit (Zlen bs) start) (range_hi isbit (Zlen bs) end_) (bits_of bs)))
      end
    | _, _ => ReplyError ErrNotInteger
    end
  | _ => ReplyError ErrSyntax
  end.

(** The reply of BITPOS. *)
Definition bitpos_cmd_ref (v : value) (args : list (list Z)) : reply :=
  match args with
  | bit :: rest =>
    match string2ll bit with None => ReplyError ErrNotInteger | Some bit =>
    if negb (bit =? 0) && negb (bit =? 1) then ReplyError ErrBitArgument else
    let beta := bit =? 1 in
    let answer (n : list Z -> Z) :=
      match v with
      | Missing => ReplyLong (if beta then -1 else 0)
      | WrongType => ReplyError ErrWrongType
      | Str bs => ReplyLong (n bs)
      end in
    let search bs lo hi end_given := if hi <=? lo then -1 else bitpos_reply beta lo (between lo hi (bits_of bs)) end_given in
    match rest with
    | [] => answer (fun bs => search bs 0 (8 * Zlen bs) false)
    | a :: rest =>
      if 2 <? Zlen rest then ReplyError ErrSyntax else
      match string2ll a with None => ReplyError ErrNotInteger | Some start =>
      match unit_ref (rest !! 1%nat) with None => ReplyError ErrSyntax | Some isbit =>
      match rest with
      | [] => answer (fun bs => search bs (range_lo isbit (Zlen bs) start) (8 * Zlen bs) false)
      | e :: _ =>
        match string2ll e with None => ReplyError ErrNotInteger | Some end_ =>
        answer (fun bs => search bs (range_lo isbit (Zlen bs) start) (range_hi isbit (Zlen bs) end_) true)
        end
      end end end
    end end
  | [] => ReplyError ErrSyntax
  end.

Section commands_spec.
Context (use_popcnt : bool) (addr_of : list Z -> Z) (lookupKeyRead : sds -> option kvobj).

Lemma bitcount_range_ref s p bs (isbit : bool) start end_ : Forall is_byte bs -> rdn s p (Zlen bs) = Ret bs ->
  (let '(st, en) := convert_range (if isbit then Z.shiftl (Zlen bs) 3 else Zlen bs) start end_ in
   let '(st, en, first, last) := edge_masks isbit st en in
   bitcount_range use_popcnt addr_of s p st en first last) =
  Ret (ones (between (range_lo isbit (Zlen bs) start) (range_hi isbit (Zlen bs) end_) (bits_of bs))).
Proof.
  intros Hb E. pose proof (range_cases isbit (Zlen bs) start end_ (Zlen_nonneg bs)) as H.
  destruct (convert_range _ _ _) as [st en]. cbv zeta in H. destruct H as [(Hle & s' & e' & m1 & m2 & -> & Hlt)|(Hlo & Hhi & _ & ->)].
  - rewrite between_empty by done. unfold bitcount_range. by rewrite (proj2 (Z.ltb_lt _ _)) by done.
  - rewrite (bitcount_bits use_popcnt addr_of s p bs) by (done || lia). do 3 f_equal. lia.
Qed.

(** [LLONG_MAX >> 3] bounds the length. *)
Lemma bitcount_in_spec key v start end_ isbit : kv_value (lookupKeyRead key) v ->
  bitcount_in use_popcnt addr_of lookupKeyRead key start end_ isbit =
  Ret match v with Missing => ReplyLong 0 | WrongType => ReplyError ErrWrongType
      | Str bs => ReplyLong (if (start <? 0) && (end_ <? 0) && (end_ <? start) then 0
          else ones (between (range_lo isbit (Zlen bs) start) (range_hi isbit (Zlen bs) end_) (bits_of bs))) end.
Proof.
  intros Hv. unfold bitcount_in. cbv zeta. rewrite (checkType_spec _ _ Hv). destruct v as [|bs|]; [| |done].
  - destruct (lookupKeyRead key) as [[]|]; try done. cbn [getObjectReadOnlyString]. rewrite ret_bind, llong_guard, ret_bind by lia.
    destruct (_ && _); [done|]. destruct (convert_range _ _ _) as [st en]. by destruct (edge_masks _ _ _) as [[[? ?] ?] ?].
  - destruct (value_bytes _ _ Hv) as [Hb Hl]. destruct (getObjectReadOnlyString_spec _ _ Hv) as (s & p & -> & E).
    rewrite ret_bind, llong_guard, ret_bind by done. destruct ((start <? 0) && _ && _); [done|].
    pose proof (bitcount_range_ref s p bs isbit start end_ Hb E) as H. destruct (convert_range _ _ _) as [st en]. destruct (edge_masks _ _ _) as [[[s' e'] m1] m2].
    destruct (lookupKeyRead key); [|done]. by rewrite H.
Qed.

Lemma bitpos_range_ref beta s p bs (isbit : bool) start end_ eg : Forall is_byte bs -> rdn s p (Zlen bs) = Ret bs -> eg = true \/ isbit = false ->
  (let '(st, en) := convert_range (if isbit then Z.shiftl (Zlen bs) 3 else Zlen bs) start end_ in
   let '(st, en, first, last) := edge_masks isbit st en in
   bitpos_range addr_of s p (Z.b2z beta) st en first last eg) =
  Ret (ReplyLong (let lo := range_lo isbit (Zlen bs) start in let hi := range_hi isbit (Zlen bs) end_ in
    if hi <=? lo then -1 else bitpos_reply beta lo (between lo hi (bits_of bs)) eg)).
Proof.
  intros Hb E Heg. pose proof (range_cases isbit (Zlen bs) start end_ (Zlen_nonneg bs)) as H.
  destruct (convert_range _ _ _) as [st en]. cbv zeta in *. destruct H as [(Hle & s' & e' & m1 & m2 & -> & Hlt)|(Hlo & Hhi & Hm & ->)].
  - rewrite (proj2 (Z.leb_le _ _)) by done. unfold bitpos_range. by rewrite (proj2 (Z.ltb_lt _ _)) by done.
  - rewrite (proj2 (Z.leb_gt _ _)) by lia. rewrite (bitpos_bits addr_of beta s p bs) by (done || lia || (destruct Heg as [|Hi]; [by left|right; specialize (Hm Hi); set (h := range_hi _ _ _) in *; pose proof (Z.div_mod h 8 ltac:(lia)); replace (h - 1) with (7 + (h / 8 - 1) * 8) by lia; by rewrite Z_mod_plus_full])).
    by rewrite Z.sub_add.
Qed.

Lemma bitpos_in_spec beta key v start end_ isbit : kv_value (lookupKeyRead key) v -> is_Some end_ \/ isbit = false ->
  bitpos_in addr_of lookupKeyRead key (Z.b2z beta) start end_ isbit =
  Ret match v with Missing => ReplyLong (if beta then -1 else 0) | WrongType => ReplyError ErrWrongType
      | Str bs => let lo := range_lo isbit (Zlen bs) start in
          let hi := match end_ with Some e => range_hi isbit (Zlen bs) e | None => 8 * Zlen bs end in
          ReplyLong (if hi <=? lo then -1 else bitpos_reply beta lo (between lo hi (bits_of bs)) (bool_decide (is_Some end_))) end.
Proof.
  intros Hv Hend. unfold bitpos_in. cbv zeta. rewrite (checkType_spec _ _ Hv). destruct v as [|bs|]; [| |done].
  - destruct (lookupKeyRead key) as [[]|]; try done. cbn [getObjectReadOnlyString]. rewrite ret_bind, llong_guard, ret_bind by lia.
    destruct (convert_range _ _ _) as [st en]. destruct (edge_masks _ _ _) as [[[? ?] ?] ?]. by destruct beta.
  - destruct (value_bytes _ _ Hv) as [Hb Hl]. destruct (getObjectReadOnlyString_spec _ _ Hv) as (s & p & -> & E).
    rewrite ret_bind, llong_guard, ret_bind by done. pose proof (Zlen_nonneg bs).
    set (e := match end_ with Some e => e | None => _ end).
    assert (match end_ with Some e => range_hi isbit (Zlen bs) e | None => 8 * Zlen bs end = range_hi isbit (Zlen bs) e) as Ehi.
    { subst e. destruct end_ as [e|]; [done|]. destruct Hend as [[? ?]|Hi]; [done|]. rewrite Hi. unfold range_hi, from_end. destruct (Z.ltb_spec (Zlen bs - 1) 0); lia. }
    rewrite Ehi. pose proof (bitpos_range_ref beta s p bs isbit start e (bool_decide (is_Some end_)) Hb E) as Hr.
    destruct (convert_range _ _ _) as [st en]. destruct (edge_masks _ _ _) as [[[s' e'] m1] m2].
    destruct (lookupKeyRead key); [|done]. apply Hr. destruct Hend as [Hend|]; [left; by apply bool_decide_eq_true|by right].
Qed.

(** A value in whole. *)
Lemma whole_edges (bs : list Z) : bs <> [] -> (Zlen bs - 1) = (8 * Zlen bs - 1) / 8 /\ first_mask 0 = 0 /\ last_mask (8 * Zlen bs - 1) = 0 /\ 0 < Zlen bs /\ (8 * Zlen bs - 1) mod 8 = 7.
Proof.
  intros Hne. rewrite last_mask_mod. replace (8 * Zlen bs - 1) with (7 + (Zlen bs - 1) * 8) by lia. rewrite Z.div_add, Z_mod_plus_full by lia.
  split; [done|]. do 2 (split; [reflexivity|]). split; [|done]. destruct bs; [done|]. rewrite Zlen_cons. pose proof (Zlen_nonneg bs). lia.
Qed.

Lemma bitcount_whole s p bs : Forall is_byte bs -> rdn s p (Zlen bs) = Ret bs ->
  bitcount_range use_popcnt addr_of s p 0 (Zlen bs - 1) 0 0 = Ret (ones (bits_of bs)).
Proof.
  intros Hb E. destruct (decide (bs = [])) as [->|Hne]; [reflexivity|]. destruct (whole_edges bs Hne) as (E1 & E2 & E3 & Hl & _).
  pose proof (bitcount_bits use_popcnt addr_of s p bs 0 (8 * Zlen bs - 1) Hb E ltac:(lia) ltac:(lia)) as H. rewrite <- E1, E2, E3, Z.div_0_l in H by lia. rewrite H.
  by rewrite Z.sub_add, <- Zlen_bits, between_all.
Qed.

Lemma bitpos_whole beta s p bs : Forall is_byte bs -> rdn s p (Zlen bs) = Ret bs ->
  bitpos_range addr_of s p (Z.b2z beta) 0 (Zlen bs - 1) 0 0 false =
  Ret (ReplyLong (if 8 * Zlen bs <=? 0 then -1 else bitpos_reply beta 0 (between 0 (8 * Zlen bs) (bits_of bs)) false)).
Proof.
  intros Hb E. destruct (decide (bs = [])) as [->|Hne]; [reflexivity|]. destruct (whole_edges bs Hne) as (E1 & E2 & E3 & Hl & Hm).
  pose proof (bitpos_bits addr_of beta s p bs 0 (8 * Zlen bs - 1) false Hb E ltac:(lia) ltac:(lia) ltac:(by right)) as H. rewrite <- E1, E2, E3, Z.div_0_l in H by lia. rewrite H.
  rewrite (proj2 (Z.leb_gt _ _)) by lia. by rewrite Z.sub_add.
Qed.

(** BITCOUNT: whatever the arguments and the values of the keys, the command returns, reads nothing
    outside the value, and replies as [bitcount_ref] says: the number of ones among the bits of the range, which
    is given in bytes or in bits, from the start or from the end; the value in whole without one; 0 for a missing key. *)
Theorem bitcountCommand_correct key args v texts : kv_value (lookupKeyRead key) v -> Forall2 sds_rep args texts ->
  bitcountCommand use_popcnt addr_of lookupKeyRead (key :: args) = Ret (bitcount_ref v texts).
Proof.
  intros Hv Ha. destruct Ha as [|a ta args texts Ea Ha].
  - cbn [bitcountCommand bitcount_ref]. cbv zeta. rewrite (checkType_spec _ _ Hv). destruct v as [|bs|]; [| |done].
    + by destruct (lookupKeyRead key) as [[]|].
    + destruct (value_bytes _ _ Hv) as [Hb _]. destruct (getObjectReadOnlyString_spec _ _ Hv) as (s & p & -> & E). rewrite ret_bind.
      destruct (lookupKeyRead key); [|done]. by rewrite (bitcount_whole s p bs), ret_bind.
  - destruct Ha as [|b tb args texts Eb Ha]; [done|]. cbn [bitcountCommand bitcount_ref]. unfold Zlen. rewrite (list.Forall2_length _ _ _ Ha). destruct (1 <? _); [done|].
    rewrite (getLongLong_spec _ _ Ea), ret_bind. destruct (string2ll ta) as [start|]; [|done].
    rewrite (getLongLong_spec _ _ Eb), ret_bind. destruct (string2ll tb) as [end_|]; [|done].
    rewrite (range_unit_spec (head args) (head texts)) by (destruct Ha; by constructor). rewrite ret_bind.
    destruct (unit_ref _) as [isbit|]; [|done]. rewrite (bitcount_in_spec _ v) by done. by destruct v.
Qed.

(** BITPOS: the position of the first bit of a value in the range, the bit after the value for a zero
    searched without an end, -1 when there is none. *)
Theorem bitposCommand_correct key args v texts : kv_value (lookupKeyRead key) v -> Forall2 sds_rep args texts ->
  bitposCommand addr_of lookupKeyRead (key :: args) = Ret (bitpos_cmd_ref v texts).
Proof.
  intros Hv Ha. destruct Ha as [|a ta args texts Ea Ha]; [done|]. cbn [bitposCommand bitpos_cmd_ref].
  rewrite (getLongLong_spec _ _ Ea), ret_bind. destruct (string2ll ta) as [bit|]; [|done]. destruct (_ && _) eqn:Ebit; [done|].
  set (beta := bit =? 1). assert (bit = Z.b2z beta) as Eb by (subst beta; destruct (Z.eqb_spec bit 0), (Z.eqb_spec bit 1); subst; done). rewrite Eb. clearbody beta. clear Eb Ebit bit.
  destruct Ha as [|b tb args texts Eb Ha].
  - cbv zeta. rewrite (checkType_spec _ _ Hv). destruct v as [|bs|]; [| |done].
    + destruct (lookupKeyRead key) as [[]|]; try done. by destruct beta.
    + destruct (value_bytes _ _ Hv) as [Hb _]. destruct (getObjectReadOnlyString_spec _ _ Hv) as (s & p & -> & E). rewrite ret_bind.
      destruct (lookupKeyRead key); [|done]. by rewrite (bitpos_whole beta s p bs).
  - unfold Zlen at 1 2. rewrite (list.Forall2_length _ _ _ Ha). destruct (2 <? _); [done|].
    rewrite (getLongLong_spec _ _ Eb), ret_bind. destruct (string2ll tb) as [start|]; [|done].
    assert (option_Forall2 sds_rep (args !! 1%nat) (texts !! 1%nat)) as Hu by (destruct Ha as [|? ? ? ? ? [|]]; by constructor).
    rewrite (range_unit_spec _ _ Hu), ret_bind. destruct Ha as [|e te args texts Ee Ha].
    + cbn [lookup list_lookup unit_ref]. rewrite (bitpos_in_spec beta _ v) by (done || by right). by destruct v.
    + destruct (unit_ref _) as [isbit|]; [|done]. rewrite (getLongLong_spec _ _ Ee), ret_bind. destruct (string2ll te) as [end_|]; [|done].
      rewrite (bitpos_in_spec beta _ v) by (done || by left). by destruct v.
Qed.
End commands_spec.

(** ** Examples *)

Lemma demo_str_rep bs : Zlen bs < 2 ^ 62 -> sds_rep (demo_str bs) bs.
Proof. intros Hb. unfold demo_str. by destruct (@sdsnewlen_from exact_allocator exact_fits bs Hb) as (s & -> & Hs). Qed.

Lemma demo_strs_rep texts : Forall (fun t => Zlen t < 2 ^ 62) texts -> Forall2 sds_rep (map demo_str texts) texts.
Proof. induction 1 as [|t texts Ht _ IH]; constructor; [by apply demo_str_rep|done]. Qed.

Lemma demo_value_a bs1 bs2 : Forall is_byte bs1 -> Zlen bs1 < 2 ^ 60 -> kv_value (demo_lookup bs1 bs2 key_a) (Str bs1).
Proof.
  intros Hb Hl. unfold demo_lookup. assert (s_bytes key_a = Ret [97]) as -> by (vm_compute; reflexivity).
  split; [apply demo_str_rep; lia|done].
Qed.

Lemma demo_value_b bs1 bs2 : Forall is_byte bs2 -> Zlen bs2 < 2 ^ 60 -> kv_value (demo_lookup bs1 bs2 key_b) (Str bs2).
Proof.
  intros Hb Hl. unfold demo_lookup. assert (s_bytes key_b = Ret [98]) as -> by (vm_compute; reflexivity).
  split; [apply demo_str_rep; lia|done].
Qed.
