(* ===== verification/BitopsFields.v ===== *)
(** * BitopsFields: integer fields, SETBIT, GETBIT and BITFIELD

    A field of [n] bits is the big-endian number they spell.  The operations on
    fields, the overflow checks and the commands are characterised on the list
    of the bits of the value. *)

From S2P Require Import Prelude Memory NumStr Sds SdsInv SdsSpec Bitops BitopsBits BitopsRange.

(** ** Numbers as bits *)

(** The number spelled by a list of bits, after the digits of [acc]. *)
Fixpoint bits_value (acc : Z) (l : list bool) : Z := match l with [] => acc | b :: l => bits_value (2 * acc + Z.b2z b) l end.

(** The [n] low bits of a number. *)
Fixpoint value_bits (n : nat) (v : Z) : list bool := match n with O => [] | S n => Z.testbit v (Z.of_nat n) :: value_bits n v end.

Lemma length_value_bits n v : length (value_bits n v) = n.
Proof. induction n; cbn; congruence. Qed.

Lemma bits_value_acc l : forall acc, bits_value acc l = acc * 2 ^ Zlen l + bits_value 0 l.
Proof.
  induction l as [|b l IH]; intros acc; cbn [bits_value]; [change (Zlen (@nil bool)) with 0; lia|].
  rewrite (IH (2 * acc + _)), (IH (2 * 0 + _)), Zlen_cons. rewrite Z.pow_add_r by (pose proof (Zlen_nonneg l); lia). lia.
Qed.

Lemma bits_value_range l : 0 <= bits_value 0 l < 2 ^ Zlen l.
Proof.
  induction l as [|b l IH]; cbn [bits_value]; [change (Zlen (@nil bool)) with 0; lia|].
  rewrite bits_value_acc, Zlen_cons. rewrite Z.pow_add_r by (pose proof (Zlen_nonneg l); lia). destruct b; cbn [Z.b2z]; lia.
Qed.

Lemma bits_value_value_bits n v : bits_value 0 (value_bits n v) = wrapu (Z.of_nat n) v.
Proof.
  unfold wrapu. induction n as [|n IH]; cbn [value_bits bits_value]; [by rewrite Z.mod_1_r|].
  rewrite bits_value_acc, IH. unfold Zlen. rewrite length_value_bits. replace (Z.of_nat (S n)) with (Z.of_nat n + 1) by lia.
  rewrite Z.pow_add_r, Z.rem_mul_r by (try apply Z.pow_nonzero; lia). rewrite Z.testbit_spec' by lia. change (2 ^ 1) with 2. lia.
Qed.

Lemma value_bits_mod n m v : Z.of_nat n <= m -> value_bits n (wrapu m v) = value_bits n v.
Proof.
  unfold wrapu. induction n as [|n IH]; intros Hm; cbn [value_bits]; [done|]. rewrite IH by lia. f_equal.
  rewrite Z.mod_pow2_bits_low by lia. done.
Qed.

(** ** Reading a field *)

Lemma testbit_lookup bs o x : bs !! (Z.to_nat (o / 8)) = Some x -> 0 <= o -> bits_of bs !! Z.to_nat o = Some (Z.testbit x (7 - o mod 8)).
Proof.
  intros Hx Ho. pose proof (Z.mod_pos_bound o 8 ltac:(lia)). pose proof (Z.div_pos o 8 Ho ltac:(lia)).
  rewrite (bits_lookup bs (Z.to_nat o) x).
  - do 2 f_equal. rewrite Nat2Z.inj_mod, Z2Nat.id by lia. done.
  - rewrite <- Hx. f_equal. apply Nat2Z.inj. by rewrite Nat2Z.inj_div, !Z2Nat.id by lia.
Qed.

Lemma get_bits_spec n : forall s p bs offset value, rdn s p (Zlen bs) = Ret bs -> 0 <= offset -> offset + Z.of_nat n <= 8 * Zlen bs < 2 ^ 64 ->
  0 <= value < 2 ^ (64 - Z.of_nat n) -> Z.of_nat n <= 64 ->
  get_bits n s p offset value = Ret (bits_value value (take n (drop (Z.to_nat offset) (bits_of bs)))).
Proof.
  induction n as [|n IH]; intros s p bs offset value E Ho Hl Hv Hn; cbn [get_bits]; [done|].
  rewrite Z.shiftr_div_pow2 by lia. change (2 ^ 3) with 8. change (Z.land offset 7) with (Z.land offset (Z.ones 3)). rewrite Z.land_ones by lia. change (2 ^ 3) with 8.
  pose proof (Z.mod_pos_bound offset 8 ltac:(lia)). pose proof (Z.div_pos offset 8 Ho ltac:(lia)).
  destruct (lookup_lt_is_Some_2 bs (Z.to_nat (offset / 8))) as [x Hx]; [pose proof (Z.div_lt_upper_bound offset 8 (Zlen bs) ltac:(lia) ltac:(lia)); unfold Zlen in *; lia|].
  rewrite (rd_byte s p bs _ x E) by done. rewrite ret_bind.
  assert (Z.land (Z.shiftr x (7 - offset mod 8)) 1 = Z.b2z (Z.testbit x (7 - offset mod 8))) as ->.
  { rewrite Z.testbit_spec', Z.shiftr_div_pow2 by lia. exact (Z.land_ones _ 1 ltac:(lia)). }
  rewrite (wrapu_id 64 (offset + 1)) by lia. rewrite (drop_S _ _ _ (testbit_lookup bs offset x Hx Ho)). cbn [firstn take bits_value].
  set (b := Z.testbit x _). replace (64 - Z.of_nat (S n)) with (63 - Z.of_nat n) in Hv by lia.
  assert (2 ^ (64 - Z.of_nat n) = 2 * 2 ^ (63 - Z.of_nat n)) as E64 by (rewrite <- Z.pow_succ_r by lia; f_equal; lia).
  assert (2 ^ (63 - Z.of_nat n) <= 2 ^ 63) by (apply Z.pow_le_mono_r; lia).
  assert (Z.lor (u64 (Z.shiftl value 1)) (Z.b2z b) = 2 * value + Z.b2z b) as ->.
  { rewrite Z.shiftl_mul_pow2 by lia. change (2 ^ 1) with 2. rewrite wrapu_id by lia. rewrite Z.lor_comm.
    change (value * 2) with (value * 2 ^ 1). rewrite <- Z.shiftl_mul_pow2 by lia. rewrite lor_shiftl_add by (destruct b; cbn; lia). change (2 ^ 1) with 2. lia. }
  rewrite (IH s p bs) by (done || lia || (destruct b; cbn [Z.b2z]; lia)). ret_eq. do 2 f_equal. f_equal. lia.
Qed.

Lemma getUnsignedBitfield_spec s p bs offset bits : rdn s p (Zlen bs) = Ret bs -> 0 <= offset -> 0 <= bits <= 64 -> offset + bits <= 8 * Zlen bs < 2 ^ 64 ->
  getUnsignedBitfield s p offset bits = Ret (bits_value 0 (take (Z.to_nat bits) (drop (Z.to_nat offset) (bits_of bs)))).
Proof.
  intros E Ho Hb Hl. unfold getUnsignedBitfield. apply (get_bits_spec _ s p bs); [done|done|lia| |lia].
  pose proof (Z.pow_pos_nonneg 2 (64 - Z.of_nat (Z.to_nat bits)) ltac:(lia) ltac:(lia)). lia.
Qed.

(** The number of a field, with a sign or not. *)
Definition as_int (sign : bool) (n v : Z) : Z := if sign then wraps n v else wrapu n v.

(** Sign extension. *)
Lemma sign_extend u bits : 1 <= bits <= 64 -> 0 <= u < 2 ^ bits ->
  (let value := s64 u in
   if (bits <? 64) && negb (Z.land (u64 value) (Z.shiftl 1 (bits - 1)) =? 0)
   then s64 (Z.lor (u64 value) (u64 (Z.shiftl UINT64_MAX bits))) else value) = wraps bits u.
Proof.
  intros Hb Hu. cbv zeta. destruct (Z.ltb_spec bits 64) as [Hlt|]; cbn [andb]; [|by replace bits with 64 by lia].
  assert (2 ^ bits = 2 * 2 ^ (bits - 1)) as Ep by (rewrite <- Z.pow_succ_r by lia; f_equal; lia).
  assert (2 ^ bits <= 2 ^ 63) as Hp by (apply Z.pow_le_mono_r; lia). pose proof (Z.pow_pos_nonneg 2 (bits - 1) ltac:(lia) ltac:(lia)) as Hpos.
  rewrite (wraps_id 64 u), (wrapu_id 64 u) by lia. rewrite Z.shiftl_mul_pow2, Z.mul_1_l, land_bit by lia.
  assert (Z.testbit u (bits - 1) = (2 ^ (bits - 1) <=? u)) as ->.
  { destruct (Z.leb_spec (2 ^ (bits - 1)) u).
    - rewrite Z.testbit_true by lia. assert (u / 2 ^ (bits - 1) = 1) as -> by (symmetry; apply (Z.div_unique _ _ 1 (u - 2 ^ (bits - 1))); lia). done.
    - rewrite Z.testbit_false by lia. by rewrite Z.div_small by lia. }
  unfold wraps at 2. destruct (Z.leb_spec (2 ^ (bits - 1)) u).
  - cbv iota.
    assert (u64 (Z.shiftl UINT64_MAX bits) = Z.shiftl (2 ^ (64 - bits) - 1) bits) as ->.
    { rewrite !Z.shiftl_mul_pow2 by lia. unfold wrapu. change UINT64_MAX with (2 ^ 64 - 1).
      assert (2 ^ 64 = 2 ^ (64 - bits) * 2 ^ bits) as E64 by (rewrite <- Z.pow_add_r by lia; f_equal; lia).
      symmetry. apply (Z.mod_unique _ _ (2 ^ bits - 1)); [left; pose proof (Z.pow_pos_nonneg 2 (64 - bits) ltac:(lia) ltac:(lia)); nia|]. nia. }
    rewrite lor_shiftl_add by lia.
    assert (2 ^ 64 = 2 ^ (64 - bits) * 2 ^ bits) as E64 by (rewrite <- Z.pow_add_r by lia; f_equal; lia).
    replace (u + (2 ^ (64 - bits) - 1) * 2 ^ bits) with (u - 2 ^ bits + 1 * 2 ^ 64) by lia.
    assert (forall x k, wraps 64 (x + k * 2 ^ 64) = wraps 64 x) as Hw.
    { intros x k. unfold wraps. f_equal. replace (x + k * 2 ^ 64 + 2 ^ (64 - 1)) with (x + 2 ^ (64 - 1) + k * 2 ^ 64) by lia. apply Z_mod_plus_full. }
    rewrite Hw, wraps_id by lia. rewrite <- (Z.mod_unique (u + 2 ^ (bits - 1)) (2 ^ bits) 1 (u - 2 ^ (bits - 1))) by lia. lia.
  - cbv iota. rewrite Z.mod_small by lia. lia.
Qed.

Lemma getSignedBitfield_spec s p bs offset bits : rdn s p (Zlen bs) = Ret bs -> 0 <= offset -> 1 <= bits <= 64 -> offset + bits <= 8 * Zlen bs < 2 ^ 64 ->
  getSignedBitfield s p offset bits = Ret (wraps bits (bits_value 0 (take (Z.to_nat bits) (drop (Z.to_nat offset) (bits_of bs))))).
Proof.
  intros E Ho Hb Hl. unfold getSignedBitfield. rewrite (getUnsignedBitfield_spec s p bs) by (done || lia). rewrite ret_bind. set (l := take _ _).
  pose proof (bits_value_range l) as Hr. assert (Zlen l = bits) as El.
  { unfold Zlen, l. rewrite length_take, length_drop, length_bits. unfold Zlen in Hl. lia. }
  rewrite El in Hr. rewrite <- (sign_extend _ bits Hb Hr). cbv zeta. by destruct (_ && _).
Qed.

(** ** Writing a field *)

(** The bits of [l] from the [off]-th on replaced by [new]. *)
Definition splice {A} (off : nat) (new l : list A) : list A := take off l ++ new ++ drop (off + length new) l.

Lemma length_splice {A} off (new l : list A) : (off + length new <= length l)%nat -> length (splice off new l) = length l.
Proof. intros H. unfold splice. rewrite !length_app, length_take, length_drop. lia. Qed.

Lemma splice_step {A} off (b : A) new l : (off < length l)%nat -> splice (S off) new (<[off := b]> l) = splice off (b :: new) l.
Proof.
  intros Hl. unfold splice. cbn [length app]. rewrite (take_S_r _ _ b) by (by apply list_lookup_insert_eq).
  rewrite take_insert_ge by lia. rewrite <- app_assoc. cbn [app]. do 3 f_equal. rewrite drop_insert_lt by lia. f_equal. lia.
Qed.

(** One bit of a byte. *)
Definition put_bit (byteval bit bitval : Z) : Z :=
  Z.land (Z.lor (Z.land byteval (u64 (Z.lnot (Z.shiftl 1 bit)))) (Z.shiftl bitval bit)) 0xff.

Lemma put_bit_bits k (b : bool) x : (k < 8)%nat -> is_byte x ->
  byte_bits (put_bit x (7 - Z.of_nat k) (Z.b2z b)) = <[k := b]> (byte_bits x) /\ is_byte (put_bit x (7 - Z.of_nat k) (Z.b2z b)).
Proof.
  intros Hk Hx. unfold is_byte. set (y := put_bit _ _ _).
  assert (bool_decide (byte_bits y = <[k := b]> (byte_bits x)) && (0 <=? y) && (y <? 256) = true) as H; [|rewrite !andb_true_iff, bool_decide_eq_true in H; split; [tauto|lia]].
  subst y. revert x Hx. apply byte_forallb. do 8 (destruct k as [|k]; [destruct b; vm_compute; reflexivity|]). lia.
Qed.

Lemma bits_insert bs i x y k b : bs !! i = Some x -> (k < 8)%nat -> byte_bits y = <[k := b]> (byte_bits x) ->
  bits_of (<[i := y]> bs) = <[(8 * i + k)%nat := b]> (bits_of bs).
Proof.
  intros Hx Hk Hy. pose proof (lookup_lt_Some _ _ _ Hx). rewrite (insert_take_drop _ _ _ H). rewrite <- (take_drop_middle _ _ _ Hx) at 3.
  rewrite !bits_app, !bits_cons, Hy. assert (length (bits_of (take i bs)) = 8 * i)%nat as Hl by (rewrite length_bits, length_take; lia).
  rewrite <- Hl, insert_app_r. f_equal. rewrite insert_app_l by (rewrite length_byte_bits; lia). done.
Qed.

(** The block around a buffer. *)
Lemma rd_in (h bs t : list Z) i x : 0 <= i -> bs !! Z.to_nat i = Some x -> rd (h ++ bs ++ t) (Zlen h + i) = Ret x.
Proof. intros Hi Hx. rewrite rd_app_off by done. pose proof (lookup_lt_Some _ _ _ Hx). rewrite rd_app_l by (unfold Zlen; lia). by apply rd_lookup. Qed.

Lemma wr_in (h bs t : list Z) i y : 0 <= i < Zlen bs -> wr (h ++ bs ++ t) (Zlen h + i) y = Ret (h ++ <[Z.to_nat i := y]> bs ++ t).
Proof.
  intros Hi. pose proof (Zlen_nonneg h). pose proof (Zlen_nonneg t). rewrite wr_ok by (rewrite !Zlen_app; lia). f_equal.
  replace (Z.to_nat (Zlen h + i)) with (length h + Z.to_nat i)%nat by (unfold Zlen; lia).
  rewrite insert_app_r. f_equal. rewrite insert_app_l by (unfold Zlen in Hi; lia). done.
Qed.

Lemma set_bits_spec n : forall h bs t offset value, Forall is_byte bs -> 0 <= offset -> offset + Z.of_nat n <= 8 * Zlen bs < 2 ^ 64 -> 0 <= value -> (n <= 64)%nat ->
  exists bs', set_bits n (h ++ bs ++ t) (Zlen h) offset value = Ret (h ++ bs' ++ t) /\ Zlen bs' = Zlen bs /\ Forall is_byte bs' /\
    bits_of bs' = splice (Z.to_nat offset) (value_bits n value) (bits_of bs).
Proof.
  induction n as [|n IH]; intros h bs t offset value Hb Ho Hl Hv Hn; cbn [set_bits value_bits].
  { exists bs. do 3 (split; [done|]). unfold splice. cbn [length app]. by rewrite Nat.add_0_r, take_drop. }
  rewrite Z.shiftr_div_pow2 by lia. change (2 ^ 3) with 8. change (Z.land offset 7) with (Z.land offset (Z.ones 3)). rewrite Z.land_ones by lia. change (2 ^ 3) with 8.
  pose proof (Z.mod_pos_bound offset 8 ltac:(lia)). pose proof (Z.div_pos offset 8 Ho ltac:(lia)). pose proof (Z.div_mod offset 8 ltac:(lia)) as Ed.
  assert (offset / 8 < Zlen bs) by lia.
  destruct (lookup_lt_is_Some_2 bs (Z.to_nat (offset / 8))) as [x Hx]; [unfold Zlen in *; lia|].
  rewrite (rd_in h bs t _ x) by done. rewrite ret_bind, wr_in by lia. rewrite ret_bind.
  assert (c_bool (negb (Z.land value (u64 (Z.shiftl 1 (Z.of_nat n))) =? 0)) = Z.b2z (Z.testbit value (Z.of_nat n))) as ->.
  { rewrite Z.shiftl_mul_pow2, Z.mul_1_l by lia. rewrite wrapu_id by (split; [lia|]; apply Z.pow_lt_mono_r; lia). by rewrite land_bit by lia. }
  set (b := Z.testbit value _). set (k := Z.to_nat (offset mod 8)). replace (offset mod 8) with (Z.of_nat k) by lia.
  fold (put_bit x (7 - Z.of_nat k) (Z.b2z b)). destruct (put_bit_bits k b x) as [Hy By]; [lia|by apply (Forall_lookup_1 _ _ _ _ Hb Hx)|]. set (y := put_bit _ _ _) in *.
  rewrite (wrapu_id 64) by lia.
  destruct (IH h (<[Z.to_nat (offset / 8) := y]> bs) t (offset + 1) value) as (bs' & -> & El & Hb' & Ebits); [by apply Forall_insert|lia| |done|lia|].
  { unfold Zlen. rewrite length_insert. unfold Zlen in Hl. lia. }
  exists bs'. split; [done|]. split; [rewrite El; unfold Zlen; by rewrite length_insert|]. split; [done|]. rewrite Ebits.
  rewrite (bits_insert bs _ x y k b) by (done || lia). replace (8 * Z.to_nat (offset / 8) + k)%nat with (Z.to_nat offset) by lia.
  replace (Z.to_nat (offset + 1)) with (S (Z.to_nat offset)) by lia. apply splice_step. rewrite length_bits. unfold Zlen in Hl. lia.
Qed.

Lemma setUnsignedBitfield_spec h bs t offset bits value : Forall is_byte bs -> 0 <= offset -> 0 <= bits <= 64 -> offset + bits <= 8 * Zlen bs < 2 ^ 64 -> 0 <= value ->
  exists bs', setUnsignedBitfield (h ++ bs ++ t) (Zlen h) offset bits value = Ret (h ++ bs' ++ t) /\ Zlen bs' = Zlen bs /\ Forall is_byte bs' /\
    bits_of bs' = splice (Z.to_nat offset) (value_bits (Z.to_nat bits) value) (bits_of bs).
Proof. intros Hb Ho Hn Hl Hv. by apply set_bits_spec; [| |lia| |lia]. Qed.

Lemma setSignedBitfield_spec h bs t offset bits value : Forall is_byte bs -> 0 <= offset -> 0 <= bits <= 64 -> offset + bits <= 8 * Zlen bs < 2 ^ 64 ->
  exists bs', setSignedBitfield (h ++ bs ++ t) (Zlen h) offset bits value = Ret (h ++ bs' ++ t) /\ Zlen bs' = Zlen bs /\ Forall is_byte bs' /\
    bits_of bs' = splice (Z.to_nat offset) (value_bits (Z.to_nat bits) value) (bits_of bs).
Proof.
  intros Hb Ho Hn Hl. destruct (setUnsignedBitfield_spec h bs t offset bits (u64 value)) as (bs' & E & El & Hb' & Ebits); [done|done|done|done|by apply wrapu_range|].
  exists bs'. rewrite value_bits_mod in Ebits by lia. done.
Qed.

(** What is written is read back, and the bits around it stay. *)
Lemma splice_read {A} off (new l : list A) : (off + length new <= length l)%nat -> take (length new) (drop off (splice off new l)) = new.
Proof. intros H. unfold splice. rewrite drop_app_length' by (rewrite length_take; lia). by rewrite take_app_length. Qed.

Lemma splice_lookup {A} off (new l : list A) i : (off + length new <= length l)%nat -> (i < off \/ off + length new <= i)%nat -> splice off new l !! i = l !! i.
Proof.
  intros H [Hi|Hi]; unfold splice.
  - rewrite lookup_app_l by (rewrite length_take; lia). by rewrite lookup_take_lt.
  - rewrite lookup_app_r by (rewrite length_take; lia). rewrite lookup_app_r by (rewrite length_take; lia). rewrite lookup_drop, length_take. f_equal. lia.
Qed.

(** ** Overflow *)

Definition field_min (sign : bool) (n : Z) : Z := if sign then - 2 ^ (n - 1) else 0.
Definition field_max (sign : bool) (n : Z) : Z := if sign then 2 ^ (n - 1) - 1 else 2 ^ n - 1.

(** What the checks answer for the number [x] that a field of [n] bits should
    take; [above] is the side on which it is taken to be. *)
Definition check_ref (sign : bool) (n x : Z) (above : bool) (ow : owtype) : Z * option Z :=
  if (field_min sign n <=? x) && (x <=? field_max sign n) then (0, None) else
  match ow with
  | BFOVERFLOW_WRAP => (1, Some (as_int sign n x))
  | BFOVERFLOW_SAT => if above then (1, Some (field_max sign n)) else (-1, Some (field_min sign n))
  | BFOVERFLOW_FAIL => (if above then 1 else -1, None)
  end.

Lemma field_mask bits : 0 <= bits < 64 -> u64 (Z.shiftl UINT64_MAX bits) = Z.shiftl (2 ^ (64 - bits) - 1) bits /\ u64 (Z.lnot (u64 (Z.shiftl UINT64_MAX bits))) = Z.ones bits.
Proof.
  intros Hb. assert (2 ^ 64 = 2 ^ (64 - bits) * 2 ^ bits) as E64 by (rewrite <- Z.pow_add_r by lia; f_equal; lia).
  pose proof (Z.pow_pos_nonneg 2 (64 - bits) ltac:(lia) ltac:(lia)). pose proof (Z.pow_pos_nonneg 2 bits ltac:(lia) ltac:(lia)).
  assert (u64 (Z.shiftl UINT64_MAX bits) = Z.shiftl (2 ^ (64 - bits) - 1) bits) as ->.
  { rewrite !Z.shiftl_mul_pow2 by lia. unfold wrapu. change UINT64_MAX with (2 ^ 64 - 1).
    symmetry. apply (Z.mod_unique _ _ (2 ^ bits - 1)); [left; nia|]. nia. }
  split; [done|]. rewrite Z.shiftl_mul_pow2, Z.ones_equiv by lia. unfold wrapu, Z.lnot. symmetry. apply (Z.mod_unique _ _ (-1)); [left; nia|]. nia.
Qed.

Lemma wraps_mod n x : 0 < n -> wraps n (x mod 2 ^ n) = wraps n x.
Proof. intros Hn. unfold wraps. f_equal. rewrite Zplus_mod_idemp_l. done. Qed.

Lemma wraps_wider n m x : 0 < n <= m -> wraps n (x mod 2 ^ m) = wraps n x.
Proof.
  intros Hn. rewrite <- (wraps_mod n (x mod 2 ^ m)), <- (wraps_mod n x) by lia. apply (f_equal (wraps n)).
  assert (2 ^ m = 2 ^ n * 2 ^ (m - n)) as -> by (rewrite <- Z.pow_add_r by lia; f_equal; lia).
  pose proof (Z.pow_pos_nonneg 2 n ltac:(lia) ltac:(lia)). pose proof (Z.pow_pos_nonneg 2 (m - n) ltac:(lia) ltac:(lia)).
  rewrite Z.rem_mul_r by lia. rewrite (Z.mul_comm (2 ^ n)), Z_mod_plus_full. apply Zmod_mod.
Qed.

(** Sign extension of a number whose high bits are arbitrary. *)
Lemma sign_extend_word c bits : 1 <= bits < 64 ->
  s64 (if negb (Z.land c (Z.shiftl 1 (bits - 1)) =? 0) then Z.lor c (u64 (Z.shiftl UINT64_MAX bits)) else Z.land c (u64 (Z.lnot (u64 (Z.shiftl UINT64_MAX bits))))) = wraps bits c.
Proof.
  intros Hb. destruct (field_mask bits) as [Em El]; [lia|]. rewrite El, Em. rewrite Z.land_ones by lia.
  pose proof (Z.mod_pos_bound c (2 ^ bits) ltac:(apply Z.pow_pos_nonneg; lia)) as Hu. set (u := c mod 2 ^ bits) in *.
  assert (Z.lor c (Z.shiftl (2 ^ (64 - bits) - 1) bits) mod 2 ^ 64 = Z.lor u (Z.shiftl (2 ^ (64 - bits) - 1) bits)) as Elor.
  { rewrite <- Z.land_ones by lia. replace (2 ^ (64 - bits) - 1) with (Z.ones (64 - bits)) by (rewrite Z.ones_equiv; lia).
    apply Z.bits_inj'. intros i Hi. rewrite Z.land_spec, !Z.lor_spec, Z.shiftl_spec by lia. unfold u. rewrite (Z.testbit_ones_nonneg 64 i) by lia.
    destruct (Z.ltb_spec i bits); [rewrite Z.mod_pow2_bits_low by lia|rewrite Z.mod_pow2_bits_high by lia].
    - rewrite (Z.testbit_neg_r _ (i - bits)) by lia. rewrite (proj2 (Z.ltb_lt i 64)) by lia. by rewrite andb_true_r.
    - rewrite Z.testbit_ones_nonneg by lia. destruct (Z.ltb_spec (i - bits) (64 - bits)), (Z.ltb_spec i 64); lia. }
  assert (2 ^ bits <= 2 ^ 63) as Hp by (apply Z.pow_le_mono_r; lia).
  pose proof (sign_extend u bits ltac:(lia) Hu) as Hs. cbv zeta in Hs. rewrite (proj2 (Z.ltb_lt _ _)) in Hs by lia. cbn [andb] in Hs.
  rewrite (wraps_id 64 u), (wrapu_id 64 u), Em in Hs by lia. unfold u in Hs at 4. rewrite wraps_mod in Hs by lia. rewrite <- Hs.
  rewrite !Z.shiftl_mul_pow2, !Z.mul_1_l, !land_bit by lia. rewrite <- !Z.shiftl_mul_pow2 by lia.
  assert (Z.testbit u (bits - 1) = Z.testbit c (bits - 1)) as -> by (unfold u; by rewrite Z.mod_pow2_bits_low by lia).
  destruct (Z.testbit c (bits - 1)); [|rewrite wraps_id by lia; done]. rewrite <- (wraps_mod 64 (Z.lor c _)) by lia. by rewrite Elor.
Qed.

Lemma field_range_spec sign n x : (field_min sign n <=? x) && (x <=? field_max sign n) = true <-> field_min sign n <= x <= field_max sign n.
Proof. rewrite andb_true_iff, !Z.leb_le. done. Qed.

(** The three ways out, shared by the two checks. *)
Lemma check_ref_out sign n x above ow : x < field_min sign n \/ field_max sign n < x -> check_ref sign n x above ow =
  match ow with
  | BFOVERFLOW_WRAP => (1, Some (as_int sign n x))
  | BFOVERFLOW_SAT => if above then (1, Some (field_max sign n)) else (-1, Some (field_min sign n))
  | BFOVERFLOW_FAIL => (if above then 1 else -1, None)
  end.
Proof.
  intros H. unfold check_ref. destruct (Z.leb_spec (field_min sign n) x), (Z.leb_spec x (field_max sign n)); cbn [andb]; [lia|done..].
Qed.

Lemma check_ref_in sign n x above ow : field_min sign n <= x <= field_max sign n -> check_ref sign n x above ow = (0, None).
Proof. intros H. unfold check_ref. by rewrite (proj2 (field_range_spec _ _ _) H). Qed.

Lemma checkUnsigned_spec value incr bits ow : 1 <= bits <= 63 -> 0 <= value < 2 ^ 64 -> INT64_MIN <= incr <= INT64_MAX ->
  value <= field_max false bits \/ incr = 0 ->
  checkUnsignedBitfieldOverflow value incr bits ow = Ret (check_ref false bits (value + incr) (field_max false bits <? value + incr) ow).
Proof.
  intros Hb Hv Hi Hcase. unfold checkUnsignedBitfieldOverflow. rewrite (proj2 (Z.eqb_neq bits 64)) by lia. unfold c_assert. rewrite (proj2 (Z.ltb_lt bits 64)) by lia.
  assert (Z.shiftl 1 bits - 1 = field_max false bits) as -> by (rewrite Z.shiftl_mul_pow2 by lia; unfold field_max; lia).
  assert (2 ^ bits <= 2 ^ 63) as Hp by (apply Z.pow_le_mono_r; lia). pose proof (Z.pow_pos_nonneg 2 bits ltac:(lia) ltac:(lia)) as Hpos. change (2 ^ 63) with (INT64_MAX + 1) in Hp.
  destruct (field_mask bits) as [_ ->]; [lia|]. rewrite Z.land_ones by lia.
  assert (u64 (value + incr) mod 2 ^ bits = as_int false bits (value + incr)) as ->.
  { unfold as_int, wrapu. replace 64 with (bits + (64 - bits)) by lia. rewrite Z.pow_add_r by lia.
    pose proof (Z.pow_pos_nonneg 2 (64 - bits) ltac:(lia) ltac:(lia)). rewrite Z.rem_mul_r by lia. rewrite (Z.mul_comm (2 ^ bits)), Z_mod_plus_full. apply Zmod_mod. }
  cbv zeta iota. rewrite !ret_bind. set (max := field_max false bits) in *. assert (0 <= max < 2 ^ 63) as Hmax by (unfold max, field_max; change (2 ^ 63) with (INT64_MAX + 1); lia).
  assert (field_min false bits = 0) as Hmin by done. unfold INT64_MIN, INT64_MAX in *.
  destruct Hcase as [Hle| ->].
  - rewrite (wrapu_id 64 (max - value)) by lia. rewrite (wraps_id 64 (max - value)) by lia.
    assert (s64 (u64 (- value)) = - value) as ->.
    { unfold wrapu. rewrite wraps_wider, wraps_id by lia. done. }
    destruct (Z.ltb_spec max value); [lia|]. cbn [orb].
    destruct (Z.ltb_spec 0 incr), (Z.ltb_spec (max - value) incr), (Z.ltb_spec incr 0), (Z.ltb_spec incr (- value)), (Z.ltb_spec max (value + incr)); try lia; cbn [andb];
      (rewrite check_ref_out by lia; by destruct ow) || (rewrite check_ref_in by lia; done).
  - rewrite Z.add_0_r. cbn [Z.ltb Z.compare andb]. rewrite orb_false_r.
    destruct (Z.ltb_spec max value); [rewrite check_ref_out by lia; by destruct ow|rewrite check_ref_in by lia; done].
Qed.

(** The values so far below the field that the check takes them to be above it. *)
Definition far_below (bits value : Z) : bool := (bits <? 64) && (value <=? field_max true bits - 2 ^ 63).

Lemma checkSigned_spec value incr bits ow : 1 <= bits <= 64 -> INT64_MIN <= value <= INT64_MAX -> INT64_MIN <= incr <= INT64_MAX ->
  field_min true bits <= value <= field_max true bits \/ incr = 0 ->
  checkSignedBitfieldOverflow value incr bits ow =
  Ret (check_ref true bits (value + incr) ((field_max true bits <? value + incr) || far_below bits value) ow).
Proof.
  intros Hb Hv Hi Hcase. unfold checkSignedBitfieldOverflow. cbv zeta.
  assert ((if bits =? 64 then INT64_MAX else Z.shiftl 1 (bits - 1) - 1) = field_max true bits) as ->.
  { destruct (Z.eqb_spec bits 64) as [->|]; [done|]. rewrite Z.shiftl_mul_pow2 by lia. unfold field_max. lia. }
  assert (- field_max true bits - 1 = field_min true bits) as -> by (unfold field_max, field_min; lia).
  assert (s64 (if bits <? 64 then
      if negb (Z.land (u64 (u64 value + u64 incr)) (Z.shiftl 1 (bits - 1)) =? 0) then Z.lor (u64 (u64 value + u64 incr)) (u64 (Z.shiftl UINT64_MAX bits))
      else Z.land (u64 (u64 value + u64 incr)) (u64 (Z.lnot (u64 (Z.shiftl UINT64_MAX bits)))) else u64 (u64 value + u64 incr)) = as_int true bits (value + incr)) as ->.
  { assert (u64 (u64 value + u64 incr) = u64 (value + incr)) as -> by (unfold wrapu; by rewrite <- Zplus_mod).
    unfold as_int. destruct (Z.ltb_spec bits 64); [rewrite sign_extend_word by lia|replace bits with 64 by lia]; unfold wrapu; by rewrite wraps_wider by lia. }
  assert (2 ^ (bits - 1) <= 2 ^ 63) as Hp by (apply Z.pow_le_mono_r; lia). pose proof (Z.pow_pos_nonneg 2 (bits - 1) ltac:(lia) ltac:(lia)) as Hpos.
  assert (bits < 64 -> 2 ^ (bits - 1) <= 2 ^ 62) as Hp' by (intros; apply Z.pow_le_mono_r; lia).
  assert (bits = 64 -> 2 ^ (bits - 1) = 2 ^ 63) as Hp64 by (intros ->; done).
  change (2 ^ 63) with 9223372036854775808 in *. change (2 ^ 62) with 4611686018427387904 in *.
  unfold far_below. remember (field_max true bits) as max eqn:Fmax. remember (field_min true bits) as min eqn:Fmin.
  assert (max = 2 ^ (bits - 1) - 1) as Emax by (by subst max). assert (min = - 2 ^ (bits - 1)) as Emin by (by subst min). set (P := 2 ^ (bits - 1)) in *. clearbody P.
  unfold INT64_MIN, INT64_MAX in *.
  assert (s64 (u64 (u64 max - u64 value)) = wraps 64 (max - value)) as ->.
  { unfold wrapu. rewrite <- Zminus_mod. by rewrite wraps_wider by lia. }
  assert (forall z, - 2 ^ 63 <= z < 2 ^ 63 -> wraps 64 z = z) as Hid by (intros z Hz; by apply wraps_id).
  assert (forall z, 2 ^ 63 <= z < 3 * 2 ^ 63 -> wraps 64 z = z - 2 ^ 64) as Hhigh.
  { intros z Hz. unfold wraps. change (64 - 1) with 63. rewrite <- (Z.mod_unique (z + 2 ^ 63) (2 ^ 64) 1 (z - 2 ^ 63)) by lia. lia. }
  change (2 ^ 63) with 9223372036854775808 in *. change (2 ^ 64) with 18446744073709551616 in *.   destruct (Z.eqb_spec bits 64) as [E64|N64].
  - specialize (Hp64 E64). rewrite (proj2 (Z.ltb_ge bits 64)) by lia. cbn [negb andb orb]. rewrite !orb_false_r.
    destruct (Z.ltb_spec max value); [lia|]. destruct (Z.ltb_spec value min); [lia|]. cbn [orb].
    destruct (Z.leb_spec 0 value), (Z.ltb_spec value 0); try lia; cbn [andb].
    + rewrite (Hid (max - value)) by lia. destruct (Z.ltb_spec 0 incr), (Z.ltb_spec (max - value) incr), (Z.ltb_spec max (value + incr)); try lia; cbn [andb];
        (rewrite check_ref_out by lia; destruct ow; by rewrite <- ?Fmax, <- ?Fmin) || (rewrite check_ref_in by lia; done).
    + rewrite (Hid (min - value)) by lia. destruct (Z.ltb_spec incr 0), (Z.ltb_spec incr (min - value)), (Z.ltb_spec max (value + incr)); try lia; cbn [andb];
        (rewrite check_ref_out by lia; destruct ow; by rewrite <- ?Fmax, <- ?Fmin) || (rewrite check_ref_in by lia; done).
  - rewrite (proj2 (Z.ltb_lt bits 64)) by lia. cbn [negb andb]. specialize (Hp' ltac:(lia)).
    destruct Hcase as [Hin| ->].
    + rewrite (Hid (max - value)) by lia. rewrite (Hid (min - value)) by lia.
      destruct (Z.ltb_spec max value), (Z.ltb_spec value min); try lia. rewrite (proj2 (Z.leb_gt value _)) by lia. rewrite !orb_false_r. cbn [orb].
      destruct (Z.ltb_spec (max - value) incr), (Z.ltb_spec incr (min - value)), (Z.ltb_spec max (value + incr)); try lia; rewrite ?andb_false_r; cbn [orb];
        (rewrite check_ref_out by lia; destruct ow; by rewrite <- ?Fmax, <- ?Fmin) || (rewrite check_ref_in by lia; rewrite ?andb_false_r; done).
    + rewrite Z.add_0_r, Z.ltb_irrefl, !andb_false_r. cbn [andb]. rewrite !orb_false_r.
      destruct (Z.ltb_spec max value) as [Hgt|Hle]; cbn [orb]; [rewrite check_ref_out by lia; destruct ow; by rewrite <- ?Fmax, <- ?Fmin|].
      destruct (Z.leb_spec value (max - 9223372036854775808)) as [Hfar|Hnear].
      * rewrite (Hhigh (max - value)) by lia. rewrite (proj2 (Z.ltb_lt _ _)) by lia. rewrite check_ref_out by lia. destruct ow; by rewrite <- ?Fmax, <- ?Fmin.
      * rewrite (Hid (max - value)) by lia. rewrite (proj2 (Z.ltb_ge _ 0)) by lia.
        destruct (Z.ltb_spec value min); cbn [orb]; [rewrite check_ref_out by lia; destruct ow; by rewrite <- ?Fmax, <- ?Fmin|]. rewrite (Hid (min - value)) by lia. rewrite (proj2 (Z.ltb_ge 0 _)) by lia. by rewrite check_ref_in by lia.
Qed.

(** ** Operations on a value *)

(** The bits of a field; the value is followed by zeroes. *)
Definition field_bits (l : list bool) (off n : Z) : list bool :=
  take (Z.to_nat n) (drop (Z.to_nat off) (l ++ replicate (Z.to_nat (off + n)) false)).

Definition field_get (sign : bool) (l : list bool) (off n : Z) : Z := as_int sign n (bits_value 0 (field_bits l off n)).

Definition fit (sign : bool) (n x : Z) (above : bool) (ow : owtype) : option Z :=
  if (field_min sign n <=? x) && (x <=? field_max sign n) then Some x else
  match ow with
  | BFOVERFLOW_WRAP => Some (as_int sign n x)
  | BFOVERFLOW_SAT => Some (if above then field_max sign n else field_min sign n)
  | BFOVERFLOW_FAIL => None
  end.

(** The number an operation is to store, and whether it is taken to be above the field. *)
Definition op_target (op : bitfieldOp) (old : Z) : Z * bool :=
  let max := field_max (bf_sign op) (bf_bits op) in
  match bf_opcode op with
  | BITFIELDOP_INCRBY => let x := old + bf_i64 op in (x, max <? x)
  | _ => let x := if bf_sign op then bf_i64 op else u64 (bf_i64 op) in (x, (max <? x) || (bf_sign op && far_below (bf_bits op) x))
  end.

(** One operation on the bits: the reply, the bits, and whether they count as changed. *)
Definition op_ref (op : bitfieldOp) (grown : bool) (l : list bool) : reply * list bool * bool :=
  let old := field_get (bf_sign op) l (bf_offset op) (bf_bits op) in
  match bf_opcode op with
  | BITFIELDOP_GET => (ReplyLong old, l, false)
  | _ =>
    let '(x, above) := op_target op old in
    match fit (bf_sign op) (bf_bits op) x above (bf_owtype op) with
    | None => (ReplyNull, l, false)
    | Some new =>
      (ReplyLong (match bf_opcode op with BITFIELDOP_INCRBY => new | _ => old end),
       splice (Z.to_nat (bf_offset op)) (value_bits (Z.to_nat (bf_bits op)) new) l, grown || negb (old =? new))
    end
  end.

Definition op_ok (op : bitfieldOp) : Prop :=
  0 <= bf_offset op <= INT64_MAX /\ 1 <= bf_bits op <= (if bf_sign op then 64 else 63) /\ INT64_MIN <= bf_i64 op <= INT64_MAX.

Definition is_write (op : bitfieldOp) : bool := match bf_opcode op with BITFIELDOP_GET => false | _ => true end.

Lemma field_bits_length l off n : 0 <= off -> 0 <= n -> length (field_bits l off n) = Z.to_nat n.
Proof. intros Ho Hn. unfold field_bits. rewrite length_take, length_drop, length_app, length_replicate. lia. Qed.

Lemma field_bits_lookup l off n i : 0 <= off -> Z.of_nat i < n -> field_bits l off n !! i = Some (default false (l !! (Z.to_nat off + i)%nat)).
Proof.
  intros Ho Hi. unfold field_bits. rewrite lookup_take_lt, lookup_drop by lia. destruct (decide (Z.to_nat off + i < length l)%nat).
  - rewrite lookup_app_l by lia. destruct (lookup_lt_is_Some_2 l (Z.to_nat off + i)) as [x ->]; [lia|done].
  - rewrite lookup_app_r, (lookup_ge_None_2 l) by lia. rewrite lookup_replicate_2 by lia. done.
Qed.

Lemma field_bits_in l off n : 0 <= off -> 0 <= n -> off + n <= Zlen l -> field_bits l off n = take (Z.to_nat n) (drop (Z.to_nat off) l).
Proof.
  intros Ho Hn Hl. unfold field_bits. unfold Zlen in Hl. rewrite drop_app_le by lia. rewrite take_app_le; [done|]. rewrite length_drop. lia.
Qed.

Lemma pad_lookup n bs j : (j < 8 * n)%nat -> bits_of (pad n bs) !! j = Some (default false (bits_of bs !! j)).
Proof.
  intros Hj. unfold pad. rewrite bits_app. assert (forall m, bits_of (replicate m 0) = replicate (8 * m) false) as Hz.
  { induction m as [|m IH]; [done|]. cbn [replicate]. rewrite bits_cons, IH. by replace (8 * S m)%nat with (8 + 8 * m)%nat by lia. }
  rewrite Hz, bits_take. destruct (decide (j < length (bits_of bs))%nat) as [Hlt|Hge]; rewrite length_bits in *.
  - rewrite lookup_app_l by (rewrite length_take, length_bits; lia). rewrite lookup_take_lt by lia.
    destruct (lookup_lt_is_Some_2 (bits_of bs) j) as [x ->]; [rewrite length_bits; lia|done].
  - rewrite lookup_app_r by (rewrite length_take, length_bits; lia). rewrite (lookup_ge_None_2 (bits_of bs)) by (rewrite length_bits; lia).
    rewrite length_take, length_bits. apply lookup_replicate_2. lia.
Qed.

Lemma copy_bytes_spec n : forall src p bs byte i pre, rdn src p (Zlen bs) = Ret bs -> 0 <= byte -> i = Zlen pre ->
  copy_bytes n src p byte (Zlen bs) i (pre ++ replicate n 0) = Ret (pre ++ pad n (drop (Z.to_nat (byte + i)) bs)).
Proof.
  induction n as [|n IH]; intros src p bs byte i pre E Hb ->; cbn [copy_bytes]; [done|].
  pose proof (Zlen_nonneg pre) as Hp. destruct (Z.leb_spec (Zlen bs) (Zlen pre + byte)) as [Hle|Hlt].
  - rewrite drop_ge by (unfold Zlen in *; lia). done.
  - destruct (lookup_lt_is_Some_2 bs (Z.to_nat (byte + Zlen pre))) as [x Hx]; [unfold Zlen in *; lia|].
    replace (p + Zlen pre + byte) with (p + (byte + Zlen pre)) by lia. rewrite (rd_byte src p bs _ x E) by (done || lia). rewrite ret_bind.
    rewrite wr_ok, ret_bind by (unfold Zlen in *; rewrite length_app, length_replicate; lia).
    assert (<[Z.to_nat (Zlen pre) := x]> (pre ++ replicate (S n) 0) = (pre ++ [x]) ++ replicate n 0) as ->.
    { rewrite <- app_assoc. unfold Zlen. rewrite Nat2Z.id. rewrite <- (Nat.add_0_r (length pre)), insert_app_r. done. }
    rewrite (IH src p bs byte (Zlen pre + 1) (pre ++ [x])) by (done || by rewrite Zlen_app). rewrite <- app_assoc. replace (Z.to_nat (byte + (Zlen pre + 1))) with (S (Z.to_nat (byte + Zlen pre))) by lia.
    by rewrite (drop_S _ _ _ Hx).
Qed.

(** A field read from a copy of nine bytes. *)
Lemma field_copy bs off n : 0 <= off -> 1 <= n <= 64 ->
  take (Z.to_nat n) (drop (Z.to_nat (off - Z.shiftr off 3 * 8)) (bits_of (pad 9 (drop (Z.to_nat (Z.shiftr off 3)) bs)))) = field_bits (bits_of bs) off n.
Proof.
  intros Ho Hn. rewrite Z.shiftr_div_pow2 by lia. change (2 ^ 3) with 8. pose proof (Z.div_mod off 8 ltac:(lia)) as Ed. pose proof (Z.mod_pos_bound off 8 ltac:(lia)) as Rm. pose proof (Z.div_pos off 8 Ho ltac:(lia)).
  apply list_eq. intros i. destruct (decide (i < Z.to_nat n)%nat) as [Hi|Hi].
  - rewrite lookup_take_lt, lookup_drop by lia. rewrite pad_lookup by lia. rewrite field_bits_lookup by lia. rewrite bits_drop, lookup_drop. do 3 f_equal. lia.
  - rewrite (lookup_ge_None_2 (take _ _)) by (rewrite length_take; lia). symmetry. apply lookup_ge_None_2. rewrite field_bits_length by lia. lia.
Qed.

Lemma as_int_range sign n v : 1 <= n <= (if sign : bool then 64 else 63) -> field_min sign n <= as_int sign n v <= field_max sign n /\ INT64_MIN <= as_int sign n v <= INT64_MAX.
Proof.
  intros Hn. unfold as_int, field_min, field_max, INT64_MIN, INT64_MAX. destruct sign.
  - pose proof (wraps_range n v ltac:(lia)). assert (2 ^ (n - 1) <= 2 ^ 63) as Hp by (apply Z.pow_le_mono_r; lia). change (2 ^ 63) with 9223372036854775808 in Hp. lia.
  - pose proof (wrapu_range n v ltac:(lia)). assert (2 ^ n <= 2 ^ 63) as Hp by (apply Z.pow_le_mono_r; lia). change (2 ^ 63) with 9223372036854775808 in Hp. lia.
Qed.

Lemma s64_id z : INT64_MIN <= z <= INT64_MAX -> s64 z = z.
Proof. unfold INT64_MIN, INT64_MAX. intros H. apply wraps_id; lia. Qed.

(** Reading in place, with a sign or not. *)
Lemma read_field (sign : bool) s p bs off n : rdn s p (Zlen bs) = Ret bs -> 0 <= off -> 1 <= n <= 64 -> off + n <= 8 * Zlen bs < 2 ^ 64 ->
  (if sign then getSignedBitfield s p off n else getUnsignedBitfield s p off n) = Ret (field_get sign (bits_of bs) off n).
Proof.
  intros E Ho Hn Hl. unfold field_get, as_int. rewrite field_bits_in by (rewrite ?Zlen_bits; lia). destruct sign; [by apply getSignedBitfield_spec|].
  rewrite (getUnsignedBitfield_spec s p bs) by (done || lia). f_equal. set (l := take _ _). pose proof (bits_value_range l) as Hr. assert (Zlen l = n) as El.
  { unfold Zlen, l. rewrite length_take, length_drop, length_bits. unfold Zlen in Hl. lia. }
  rewrite El in Hr. by rewrite wrapu_id.
Qed.

Lemma get_op_spec o op s p bs : getObjectReadOnlyString o = Ret (s, p, Zlen bs) -> rdn s p (Zlen bs) = Ret bs -> op_ok op ->
  get_op o op = Ret (ReplyLong (field_get (bf_sign op) (bits_of bs) (bf_offset op) (bf_bits op))).
Proof.
  intros Eo E (Ho & Hn & _). assert (1 <= bf_bits op <= 64) as Hn' by (destruct (bf_sign op); lia). unfold get_op. rewrite Eo, ret_bind.
  assert (0 <= Z.shiftr (bf_offset op) 3) as Hs by (apply Z.shiftr_nonneg; lia).
  pose proof (copy_bytes_spec 9 s p bs (Z.shiftr (bf_offset op) 3) 0 [] E Hs eq_refl) as Hc. cbn [app] in Hc. rewrite Hc, ret_bind, Z.add_0_r. clear Hc.
  set (buf := pad 9 _). assert (rdn buf 0 (Zlen buf) = Ret buf) as Eb by (rewrite <- (app_nil_r buf) at 1; apply rdn_head).
  assert (Zlen buf = 9) as El by (unfold Zlen, buf; by rewrite length_pad).
  assert (0 <= bf_offset op - Z.shiftr (bf_offset op) 3 * 8 < 8) as Hr.
  { rewrite Z.shiftr_div_pow2 by lia. change (2 ^ 3) with 8. pose proof (Z.div_mod (bf_offset op) 8 ltac:(lia)). pose proof (Z.mod_pos_bound (bf_offset op) 8 ltac:(lia)). lia. }
  pose proof (read_field (bf_sign op) buf 0 buf (bf_offset op - Z.shiftr (bf_offset op) 3 * 8) (bf_bits op) Eb ltac:(lia) ltac:(lia) ltac:(lia)) as Hf.
  assert (field_get (bf_sign op) (bits_of buf) (bf_offset op - Z.shiftr (bf_offset op) 3 * 8) (bf_bits op) = field_get (bf_sign op) (bits_of bs) (bf_offset op) (bf_bits op)) as Eg.
  { unfold field_get. rewrite field_bits_in by (rewrite ?Zlen_bits; lia). unfold buf. by rewrite field_copy by lia. }
  rewrite Eg in Hf. pose proof (as_int_range (bf_sign op) (bf_bits op) (bits_value 0 (field_bits (bits_of bs) (bf_offset op) (bf_bits op))) Hn) as [_ Hi]. fold (field_get (bf_sign op) (bits_of bs) (bf_offset op) (bf_bits op)) in Hi.
  destruct (bf_sign op); rewrite Hf, ret_bind; [done|]. by rewrite s64_id.
Qed.

(** The answer of a check, and what is stored. *)
Lemma check_fit sign n x above ow : let r := check_ref sign n x above ow in
  negb (negb (r.1 =? 0) && match ow with BFOVERFLOW_FAIL => true | _ => false end) = bool_decide (is_Some (fit sign n x above ow)) /\
  (forall y, fit sign n x above ow = Some y -> (if negb (r.1 =? 0) then default 0 r.2 else x) = y).
Proof.
  cbv zeta. unfold check_ref, fit. destruct ((field_min sign n <=? x) && (x <=? field_max sign n)); [by split; [|intros y [= ->]]|].
  destruct ow, above; (split; [done|]); by intros y [= ->].
Qed.

Lemma fit_range sign n x above ow y : 1 <= n <= (if sign : bool then 64 else 63) -> fit sign n x above ow = Some y -> field_min sign n <= y <= field_max sign n.
Proof.
  intros Hn. unfold fit. pose proof (as_int_range sign n x Hn) as [Ha _].
  assert (field_min sign n <= field_max sign n) as Hr.
  { unfold field_min, field_max. destruct sign; [pose proof (Z.pow_pos_nonneg 2 (n - 1) ltac:(lia) ltac:(lia))|pose proof (Z.pow_pos_nonneg 2 n ltac:(lia) ltac:(lia))]; lia. }
  destruct (_ && _) eqn:E; [intros [= <-]; by apply field_range_spec in E|]. destruct ow; intros [= <-]; [done|destruct above; lia].
Qed.

Lemma field_limits sign n : 1 <= n <= (if sign : bool then 64 else 63) -> INT64_MIN <= field_min sign n <= 0 /\ 0 <= field_max sign n <= INT64_MAX.
Proof.
  intros Hn. unfold field_min, field_max, INT64_MIN, INT64_MAX.
  destruct sign; [assert (2 ^ (n - 1) <= 2 ^ 63) as Hp by (apply Z.pow_le_mono_r; lia); pose proof (Z.pow_pos_nonneg 2 (n - 1) ltac:(lia) ltac:(lia))
    |assert (2 ^ n <= 2 ^ 63) as Hp by (apply Z.pow_le_mono_r; lia); pose proof (Z.pow_pos_nonneg 2 n ltac:(lia) ltac:(lia))]; change (2 ^ 63) with 9223372036854775808 in Hp; lia.
Qed.

Definition is_incrby (op : bitfieldOp) : bool := match bf_opcode op with BITFIELDOP_INCRBY => true | _ => false end.

(** The values before the write: the old one, and the check on the new one. *)
Lemma write_check op old : op_ok op -> is_write op = true ->
  field_min (bf_sign op) (bf_bits op) <= old <= field_max (bf_sign op) (bf_bits op) ->
  let '(x, above) := op_target op old in
  let r := check_ref (bf_sign op) (bf_bits op) x above (bf_owtype op) in
  let new := if negb (r.1 =? 0) then default 0 r.2 else x in
  (if bf_sign op then
     match bf_opcode op with
     | BITFIELDOP_INCRBY =>
       '(overflow, wrapped) ← checkSignedBitfieldOverflow old (bf_i64 op) (bf_bits op) (bf_owtype op);
       let newval := if negb (overflow =? 0) then default 0 wrapped else old + bf_i64 op in
       Ret (old, newval, newval, overflow)
     | _ =>
       let newval := bf_i64 op in
       '(overflow, wrapped) ← checkSignedBitfieldOverflow newval 0 (bf_bits op) (bf_owtype op);
       let newval := if negb (overflow =? 0) then default 0 wrapped else newval in
       Ret (old, newval, old, overflow)
     end
   else
     match bf_opcode op with
     | BITFIELDOP_INCRBY =>
       let newval := u64 (old + bf_i64 op) in
       '(overflow, wrapped) ← checkUnsignedBitfieldOverflow old (bf_i64 op) (bf_bits op) (bf_owtype op);
       let newval := if negb (overflow =? 0) then default 0 wrapped else newval in
       Ret (old, newval, newval, overflow)
     | _ =>
       let newval := u64 (bf_i64 op) in
       '(overflow, wrapped) ← checkUnsignedBitfieldOverflow newval 0 (bf_bits op) (bf_owtype op);
       let newval := if negb (overflow =? 0) then default 0 wrapped else newval in
       Ret (old, newval, old, overflow)
     end) = Ret (old, new, if is_incrby op then new else old, r.1).
Proof.
  intros (_ & Hn & Hi) Hw Hold. pose proof (field_limits _ _ Hn) as [Hmin Hmax]. unfold op_target, is_incrby, is_write in *. cbv zeta.
  destruct (bf_sign op) eqn:Es, (bf_opcode op) eqn:Eo; try done; cbn [andb].
  - rewrite checkSigned_spec by (lia || by right). rewrite ret_bind, Z.add_0_r. by destruct (check_ref _ _ _ _ _).
  - rewrite checkSigned_spec by (unfold INT64_MIN, INT64_MAX in *; lia || by left). rewrite ret_bind.
    assert ((field_max true (bf_bits op) <? old + bf_i64 op) || far_below (bf_bits op) old = (field_max true (bf_bits op) <? old + bf_i64 op)) as ->.
    { unfold far_below. destruct (Z.ltb_spec (bf_bits op) 64); [|by rewrite orb_false_r]. cbn [andb].
      assert (2 ^ (bf_bits op - 1) <= 2 ^ 62) as Hp by (apply Z.pow_le_mono_r; lia). rewrite (proj2 (Z.leb_gt old _)); [by rewrite orb_false_r|].
      unfold field_min, field_max in *. change (2 ^ 63) with (2 * 2 ^ 62). lia. }
    by destruct (check_ref _ _ _ _ _).
  - rewrite checkUnsigned_spec by (lia || (apply wrapu_range; lia) || by right). rewrite ret_bind, Z.add_0_r, orb_false_r. by destruct (check_ref _ _ _ _ _).
  - rewrite checkUnsigned_spec by (unfold INT64_MIN, INT64_MAX, field_min in *; lia || (left; lia)). rewrite ret_bind.
    assert (u64 (old + bf_i64 op) = old + bf_i64 op \/ ~ (field_min false (bf_bits op) <= old + bf_i64 op <= field_max false (bf_bits op))) as [->|Hout].
    { unfold INT64_MIN, INT64_MAX in *. destruct (decide (field_min false (bf_bits op) <= old + bf_i64 op <= field_max false (bf_bits op))) as [H'|]; [left|by right].
      apply wrapu_id. unfold field_min in *. lia. }
    + by destruct (check_ref _ _ _ _ _).
    + rewrite check_ref_out by lia. destruct (bf_owtype op); [done|by destruct (_ <? _)|by destruct (_ <? _)].
Qed.

Definition field_ok (l : list bool) (op : bitfieldOp) : Prop := op_ok op /\ (is_write op = true -> bf_offset op + bf_bits op <= Zlen l).

Lemma field_get_range sign l off n : 1 <= n <= (if sign : bool then 64 else 63) -> field_min sign n <= field_get sign l off n <= field_max sign n.
Proof. intros Hn. by apply as_int_range. Qed.

Lemma length_op_ref op grown l : field_ok l op -> length (op_ref op grown l).1.2 = length l.
Proof.
  intros ((Ho & Hn & _) & Hw). unfold op_ref, is_write in *. assert (1 <= bf_bits op) by lia.
  destruct (bf_opcode op); [done|..]; destruct (op_target _ _) as [x above], (fit _ _ _ _ _); try done; specialize (Hw eq_refl); cbn [fst snd];
    apply length_splice; rewrite length_value_bits; unfold Zlen in Hw; lia.
Qed.

Lemma write_op_spec op o bs grow : sds_rep o bs -> Forall is_byte bs -> Zlen bs < 2 ^ 61 -> field_ok (bits_of bs) op -> is_write op = true ->
  exists o' bs', write_op o grow op = Ret ((op_ref op (negb (grow =? 0)) (bits_of bs)).1.1, o', (op_ref op (negb (grow =? 0)) (bits_of bs)).2) /\
    sds_rep o' bs' /\ Forall is_byte bs' /\ Zlen bs' = Zlen bs /\ bits_of bs' = (op_ref op (negb (grow =? 0)) (bits_of bs)).1.2.
Proof.
  intros Hr Hb Hl (Hok & Hfit) Hw. specialize (Hfit Hw). pose proof Hok as (Ho & Hn & _). rewrite Zlen_bits in Hfit.
  destruct (rep_frame o bs Hr) as (h & t & -> & Hframe). set (o := Build_sds _ _) in *.
  assert (rdn (sds_block o) (sds_pos o) (Zlen bs) = Ret bs) as E by (pose proof (rep_read _ _ Hr) as E; unfold s_read in E; by rewrite Z.add_0_r in E).
  assert (1 <= bf_bits op <= 64) as Hn' by (destruct (bf_sign op); lia).
  pose proof (read_field (bf_sign op) _ _ bs (bf_offset op) (bf_bits op) E ltac:(lia) Hn' ltac:(lia)) as Er.
  pose proof (field_get_range (bf_sign op) (bits_of bs) (bf_offset op) (bf_bits op) Hn) as Hold. set (old := field_get _ _ _ _) in *.
  pose proof (write_check op old Hok Hw Hold) as Hc. unfold op_ref. fold old. destruct (op_target op old) as [x above] eqn:Et. cbv zeta in Hc.
  pose proof (check_fit (bf_sign op) (bf_bits op) x above (bf_owtype op)) as [Hf1 Hf2]. cbv zeta in Hf1, Hf2.
  set (r := check_ref _ _ _ _ _) in *. set (new := if negb (r.1 =? 0) then _ else _) in *.
  assert (write_op o grow op = if bool_decide (is_Some (fit (bf_sign op) (bf_bits op) x above (bf_owtype op))) then
    block ← (if bf_sign op then setSignedBitfield (sds_block o) (sds_pos o) (bf_offset op) (bf_bits op) new
             else setUnsignedBitfield (sds_block o) (sds_pos o) (bf_offset op) (bf_bits op) new);
    Ret (ReplyLong (s64 (if is_incrby op then new else old)), Build_sds block (sds_pos o), negb (grow =? 0) || negb (old =? new)) else Ret (ReplyNull, o, false)) as ->.
  { rewrite <- Hf1. unfold write_op. destruct (bf_sign op); rewrite Er, ret_bind, Hc, ret_bind; done. }
  clearbody new r. unfold is_write, is_incrby in *. destruct (fit _ _ _ _ _) as [y|] eqn:Efit.
  - rewrite bool_decide_eq_true_2 by done. rewrite (Hf2 y) by done. pose proof (fit_range _ _ _ _ _ _ Hn Efit) as Hy. pose proof (field_limits _ _ Hn) as [Hmin Hmax].
    assert (exists bs', (if bf_sign op then setSignedBitfield (sds_block o) (sds_pos o) (bf_offset op) (bf_bits op) y
             else setUnsignedBitfield (sds_block o) (sds_pos o) (bf_offset op) (bf_bits op) y) = Ret (h ++ bs' ++ 0 :: t) /\ Zlen bs' = Zlen bs /\ Forall is_byte bs' /\
             bits_of bs' = splice (Z.to_nat (bf_offset op)) (value_bits (Z.to_nat (bf_bits op)) y) (bits_of bs)) as (bs' & -> & El & Hb' & Ebits).
    { unfold o. cbn [sds_block sds_pos]. destruct (bf_sign op); [apply setSignedBitfield_spec|apply setUnsignedBitfield_spec]; (done || lia || (cbn in Hy; lia)). }
    rewrite ret_bind. exists (Build_sds (h ++ bs' ++ 0 :: t) (Zlen h)), bs'. rewrite s64_id by (destruct (bf_opcode op); lia).
    split; [by destruct (bf_opcode op)|]. split; [by apply Hframe|]. split; [done|]. split; [done|]. rewrite Ebits. by destruct (bf_opcode op).
  - rewrite bool_decide_eq_false_2 by (by intros [? ?]). exists o, bs. split; [by destruct (bf_opcode op)|]. do 3 (split; [done|]). by destruct (bf_opcode op).
Qed.

(** The operations in order. *)
Fixpoint ops_ref (ops : list bitfieldOp) (grown : bool) (l : list bool) (changes : Z) : list reply * list bool * Z :=
  match ops with
  | [] => ([], l, changes)
  | op :: ops =>
    let '(r, l, changed) := op_ref op grown l in
    let '(rs, l, changes) := ops_ref ops grown l (changes + c_bool changed) in (r :: rs, l, changes)
  end.

Lemma exec_write_spec ops : forall o bs grow changes, sds_rep o bs -> Forall is_byte bs -> Zlen bs < 2 ^ 61 -> Forall (field_ok (bits_of bs)) ops ->
  exists o' bs', exec_ops ops (Some (StrObj true o)) grow changes =
      Ret ((ops_ref ops (negb (grow =? 0)) (bits_of bs) changes).1.1, Some (StrObj true o'), (ops_ref ops (negb (grow =? 0)) (bits_of bs) changes).2) /\
    sds_rep o' bs' /\ Forall is_byte bs' /\ Zlen bs' = Zlen bs /\ bits_of bs' = (ops_ref ops (negb (grow =? 0)) (bits_of bs) changes).1.2.
Proof.
  induction ops as [|op ops IH]; intros o bs grow changes Hr Hb Hl Hops; cbn [exec_ops ops_ref]; [by exists o, bs|].
  apply list.Forall_cons in Hops as [Hop Hops]. set (L := bits_of bs) in *. destruct (op_ref op (negb (grow =? 0)) L) as [[r l] changed] eqn:Eop.
  assert (exists o' bs', match bf_opcode op with
      | BITFIELDOP_GET => r ← get_op (Some (StrObj true o)) op; Ret (r, Some (StrObj true o), changes)
      | _ => '(r, s, changed) ← write_op o grow op; Ret (r, Some (StrObj true s), changes + c_bool changed) end = Ret (r, Some (StrObj true o'), changes + c_bool changed) /\
      sds_rep o' bs' /\ Forall is_byte bs' /\ Zlen bs' = Zlen bs /\ bits_of bs' = l) as (o1 & bs1 & E1 & Hr1 & Hb1 & Hl1 & El).
  { destruct (is_write op) eqn:Hw.
    - destruct (write_op_spec op o bs grow Hr Hb Hl Hop Hw) as (o' & bs' & E & H1 & H2 & H3 & H4). fold L in E, H4. rewrite Eop in E, H4. cbn [fst snd] in E, H4.
      exists o', bs'. split; [|done]. unfold is_write in Hw. destruct (bf_opcode op); [done|..]; by rewrite E, ret_bind.
    - unfold is_write in Hw. destruct Hop as [Hok _]. unfold op_ref in Eop. destruct (bf_opcode op); [|done..]. injection Eop as <- <- <-.
      exists o, bs. split; [|done]. rewrite (get_op_spec _ op (sds_block o) (sds_pos o) bs), ret_bind, Z.add_0_r; [done| | |done].
      + cbn [getObjectReadOnlyString]. by rewrite (rep_len _ _ Hr), ret_bind.
      + pose proof (rep_read _ _ Hr) as E. unfold s_read in E. by rewrite Z.add_0_r in E. }
  assert (Forall (field_ok (bits_of bs1)) ops) as Hops1.
  { eapply list.Forall_impl; [exact Hops|]. intros op' [H1 H2]. split; [done|]. intros Hw. specialize (H2 Hw). unfold L in H2. rewrite Zlen_bits in *. by rewrite Hl1. }
  destruct (IH o1 bs1 grow (changes + c_bool changed) Hr1 Hb1 ltac:(lia) Hops1) as (o2 & bs2 & E2 & Hr2 & Hb2 & Hl2 & El2). rewrite El in E2, El2.
  destruct (ops_ref ops (negb (grow =? 0)) l (changes + c_bool changed)) as [[rs l2] changes2]. cbn [fst snd] in *.
  exists o2, bs2. split; [|split; [done|split; [done|split; [lia|done]]]].
  assert (forall k : reply * option kvobj * Z -> outcome (list reply * option kvobj * Z), (x ← match bf_opcode op with
      | BITFIELDOP_GET => r ← get_op (Some (StrObj true o)) op; Ret (r, Some (StrObj true o), changes)
      | _ => '(r, s, changed) ← write_op o grow op; Ret (r, Some (StrObj true s), changes + c_bool changed) end; k x) = k (r, Some (StrObj true o1), changes + c_bool changed)) as Hk
    by (intros k; by rewrite E1, ret_bind).
  revert Hk. destruct (bf_opcode op); intros Hk; rewrite Hk, E2, ret_bind; done.
Qed.

(** GET alone, on any value. *)
Lemma exec_read_spec ops o v changes : kv_value o v -> v <> WrongType -> Forall op_ok ops -> Forall (fun op => is_write op = false) ops ->
  exec_ops ops o 0 changes = Ret ((ops_ref ops false (match v with Str bs => bits_of bs | _ => [] end) changes).1.1, o, changes).
Proof.
  intros Hv Hne Hok Hr. set (bs := match v with Str bs => bs | _ => [] end). assert (match v with Str bs => bits_of bs | _ => [] end = bits_of bs) as -> by (by destruct v).
  assert (exists s p, getObjectReadOnlyString o = Ret (s, p, Zlen bs) /\ rdn s p (Zlen bs) = Ret bs) as (s & p & Eo & E).
  { destruct v as [|bs'|]; [|by apply getObjectReadOnlyString_spec|done]. destruct o as [[]|]; try done. by exists [], 0. }
  induction Hok as [|op ops Hop Hok IH]; cbn [exec_ops ops_ref]; [done|]. apply list.Forall_cons in Hr as [Hw Hr]. specialize (IH Hr).
  unfold is_write in Hw. unfold op_ref at 1. destruct (bf_opcode op); [|done..]. rewrite (get_op_spec o op s p bs) by done. rewrite !ret_bind.
  cbn [c_bool Z.b2z]. rewrite Z.add_0_r, IH, ret_bind. by destruct (ops_ref ops false _ changes) as [[rs l] c].
Qed.
