(* ===== verification/BitopsCmd.v ===== *)
(** * BitopsCmd: the bit commands on their arguments

    The arguments of SETBIT, GETBIT, BITFIELD and BITOP as texts, and what the
    commands reply and store. *)

From S2P Require Import Prelude Memory NumStr Sds SdsInv SdsSpec Bitops BitopsBits BitopsRange BitopsFields.

(** ** Arguments *)

Definition offset_ref (obey : bool) (proto_max_bulk_len : Z) (hash : bool) (bits : Z) (t : list Z) : option Z :=
  let usehash := match t with c :: _ => (c =? 35) && hash && (0 <? bits) | [] => false end in
  match string2ll (if usehash then tail t else t) with
  | None => None
  | Some n =>
    let n := if usehash then n * bits else n in
    if (n <? 0) || (INT64_MAX <? n) || (negb obey && (proto_max_bulk_len <=? n / 8)) then None else Some n
  end.

Definition type_ref (t : list Z) : option (bool * Z) :=
  match t with
  | c :: t =>
    if (c =? 105) || (c =? 117) then
      match string2ll (c_cut t) with
      | Some n => if (1 <=? n) && (n <=? (if c =? 105 then 64 else 63)) then Some (c =? 105, n) else None
      | None => None
      end
    else None
  | [] => None
  end.

Lemma rep_head s t : sds_rep s t -> s_get s 0 = Ret (match t with c :: _ => c | [] => 0 end).
Proof.
  intros Hs. destruct (rep_frame s t Hs) as (h & r & -> & _). unfold s_get. cbn [sds_block sds_pos]. rewrite rd_app_off by lia. by destruct t.
Qed.

Lemma rep_tail s t (b : bool) : sds_rep s t -> (b = true -> t <> []) -> s_read s (c_bool b) (Zlen t - c_bool b) = Ret (if b then tail t else t).
Proof.
  intros Hs Hb. assert (0 <= c_bool b <= Zlen t) as Hl.
  { destruct b; cbn [c_bool Z.b2z]; [|pose proof (Zlen_nonneg t); lia]. destruct t as [|c t]; [by destruct Hb|]. rewrite Zlen_cons. pose proof (Zlen_nonneg t). lia. }
  rewrite (rep_read_sub s t) by (done || lia).
  destruct b; cbn [c_bool Z.b2z].
  - destruct t as [|c t]; [by destruct Hb|]. cbn [tail]. rewrite Zlen_cons. replace (1 + Zlen t - 1) with (Zlen t) by lia.
    pose proof (rdn_app [c] t []) as E. rewrite app_nil_r in E. exact E.
  - rewrite Z.sub_0_r. rewrite <- (app_nil_r t) at 1. apply rdn_head.
Qed.

Lemma string2ll_range t n : string2ll t = Some n -> INT64_MIN <= n <= INT64_MAX.
Proof. intros H. by apply string2ll_sound in H as [_ H]. Qed.

Lemma getBitOffset_spec obey maxlen o t hash bits : sds_rep o t -> (hash = true -> 0 < bits <= 64) ->
  getBitOffsetFromArgument obey maxlen o hash bits = Ret (offset_ref obey maxlen hash bits t).
Proof.
  intros Ho Hbits. unfold getBitOffsetFromArgument, offset_ref. rewrite (rep_len _ _ Ho), ret_bind, (rep_head _ _ Ho), ret_bind.
  assert (forall b, (match t with c :: _ => c | [] => 0 end =? 35) && hash && b = match t with c :: _ => (c =? 35) && hash && b | [] => false end) as Hu by (intros b; by destruct t).
  cbv zeta. rewrite Hu. set (u := match t with c :: _ => _ | [] => false end).
  rewrite (rep_tail _ _ u Ho) by (unfold u; by destruct t). rewrite ret_bind. destruct (string2ll _) as [n|] eqn:En; [|done]. pose proof (string2ll_range _ _ En) as Hn.
  assert (u = true -> 0 < bits <= 64) as Hub by (unfold u; destruct t; [done|]; intros [[_ ?]%andb_prop _]%andb_prop; by apply Hbits).
  rewrite Z.shiftr_div_pow2 by lia. change (2 ^ 3) with 8. unfold INT64_MIN, INT64_MAX in *. destruct u; cbn [andb].
  - specialize (Hub eq_refl). destruct (Z.ltb_spec n 0).
    + rewrite (proj2 (Z.ltb_lt (n * bits) 0)) by nia. done.
    + rewrite (proj2 (Z.ltb_ge (n * bits) 0)) by nia. cbn [orb]. set (M := 2 ^ 63 - 1). change LLONG_MAX with M.
      destruct (Z.ltb_spec (M / bits) n) as [Hlt|Hge].
      * rewrite (proj2 (Z.ltb_lt _ _)); [done|]. pose proof (Z.div_mod M bits ltac:(lia)). pose proof (Z.mod_pos_bound M bits ltac:(lia)). nia.
      * rewrite (proj2 (Z.ltb_ge _ _)); [|pose proof (Z.div_mod M bits ltac:(lia)); pose proof (Z.mod_pos_bound M bits ltac:(lia)); nia]. cbn [orb]. destruct (negb obey && _); reflexivity.
  - destruct (Z.ltb_spec n 0); [done|]. rewrite (proj2 (Z.ltb_ge _ n)) by lia. cbn [orb]. destruct (negb obey && _); reflexivity.
Qed.

Lemma offset_ref_range obey maxlen hash bits t n : offset_ref obey maxlen hash bits t = Some n -> 0 <= n <= INT64_MAX.
Proof.
  unfold offset_ref. cbv zeta. destruct (string2ll _) as [m|]; [|done]. set (k := if (match t with c :: _ => _ | [] => _ end : bool) then m * bits else m).
  destruct (_ || _) eqn:E; [done|]. intros [= <-]. apply orb_false_iff in E as [E _]. apply orb_false_iff in E as [E1 E2]. lia.
Qed.

Lemma getBitfieldType_spec o t : sds_rep o t -> getBitfieldTypeFromArgument o = Ret (type_ref t).
Proof.
  intros Ho. unfold getBitfieldTypeFromArgument, type_ref. rewrite (rep_head _ _ Ho), ret_bind. destruct t as [|c t]; [done|].
  destruct ((c =? 105) || (c =? 117)); [|done]. cbn [negb]. pose proof (c_string_spec o t [c] Ho) as E. change (Zlen [c]) with 1 in E. rewrite E, ret_bind.
  destruct (string2ll (c_cut t)) as [n|]; [|done]. destruct (c =? 105); cbn [andb negb].
  - destruct (Z.ltb_spec n 1), (Z.ltb_spec 64 n), (Z.leb_spec 1 n), (Z.leb_spec n 64); try lia; done.
  - destruct (Z.ltb_spec n 1), (Z.ltb_spec 63 n), (Z.leb_spec 1 n), (Z.leb_spec n 63); try lia; done.
Qed.

Lemma type_ref_range t sign n : type_ref t = Some (sign, n) -> 1 <= n <= (if sign then 64 else 63).
Proof.
  destruct t as [|c t]; [done|]. cbn [type_ref]. destruct (_ || _); [|done]. destruct (string2ll _) as [m|]; [|done].
  destruct (c =? 105); destruct (_ && _) eqn:E; [|done| |done]; intros [= <- <-]; lia.
Qed.

(** ** The string to write to *)

Section commands.
Context `{AllocFits}.
Context (use_popcnt : bool) (addr_of : list Z -> Z) (lookupKeyRead : sds -> option kvobj) (obey : bool) (proto_max_bulk_len : Z).

(** The bytes of a value, a missing one being empty. *)
Definition bytes_of (v : value) : list Z := match v with Str bs => bs | _ => [] end.

Definition is_wrong (v : value) : bool := match v with WrongType => true | _ => false end.

(** A value extended with zeroes so that it has the byte of the bit [maxbit]. *)
Definition grown (bs : list Z) (maxbit : Z) : list Z := bs ++ replicate (Z.to_nat (maxbit / 8 + 1 - Zlen bs)) 0.

Lemma grown_bytes bs maxbit : Forall is_byte bs -> Forall is_byte (grown bs maxbit).
Proof. intros Hb. apply Forall_app_2; [done|]. by apply Forall_replicate. Qed.

Lemma Zlen_grown bs maxbit : Zlen (grown bs maxbit) = Z.max (Zlen bs) (maxbit / 8 + 1).
Proof. unfold grown, Zlen. rewrite length_app, length_replicate. lia. Qed.

Lemma bytes_of_ok o v : kv_value o v -> Forall is_byte (bytes_of v) /\ Zlen (bytes_of v) < 2 ^ 60.
Proof. intros Hv. destruct v as [|bs|]; [by split|by apply (value_bytes o)|by split]. Qed.

Lemma decoded_string_spec kv bs : kv_value (Some kv) (Str bs) -> exists s, decoded_string kv = Ret s /\ sds_rep s bs.
Proof.
  destruct kv as [b s|n|]; cbn [kv_value]; [intros (Hs & _); by exists s| |done]. intros [-> Hn]. pose proof (dec_length n Hn) as Hl. unfold LONG_STR_SIZE in Hl.
  cbn [decoded_string]. rewrite ll2string_ok, ret_bind by (done || lia || (unfold Zlen; rewrite length_replicate; lia)).
  rewrite rdn_head, ret_bind. apply sdsnewlen_from. lia.
Qed.

Lemma lookupString_spec key v maxbit : kv_value (lookupKeyRead key) v -> is_wrong v = false -> 0 <= maxbit < 2 ^ 63 + 64 ->
  exists s, lookupStringForBitCommand lookupKeyRead key maxbit = Ret (Some (s, Zlen (bytes_of v), Zlen (grown (bytes_of v) maxbit) - Zlen (bytes_of v))) /\
    sds_rep s (grown (bytes_of v) maxbit).
Proof.
  intros Hv Hne Hm. unfold lookupStringForBitCommand. cbv zeta. rewrite (checkType_spec _ _ Hv), Z.shiftr_div_pow2 by lia. change (2 ^ 3) with 8.
  assert (0 <= maxbit / 8 < 2 ^ 61 - 1) as Hd by (split; [apply Z.div_pos; lia|apply Z.div_lt_upper_bound; lia]).
  destruct v as [|bs|]; [| |done].
  - destruct (lookupKeyRead key) as [[]|]; try done.
    destruct (sdsnewlen_spec InitZero (maxbit / 8 + 1)) as (s & bs & -> & _ & Hb & Hr); [lia|done|]. cbn [init_bytes] in Hb. rewrite ret_bind. exists s. cbn [bytes_of].
    rewrite Zlen_grown. change (Zlen (@nil Z)) with 0. rewrite Z.max_r, Z.sub_0_r by lia. split; [done|]. subst bs. unfold grown. change (Zlen (@nil Z)) with 0. by rewrite Z.sub_0_r.
  - destruct (value_bytes _ _ Hv) as [_ Hl]. destruct (lookupKeyRead key) as [kv|]; [|done].
    assert (exists s, match kv with StrObj true s => Ret s | _ => s ← decoded_string kv; sdsdup s end = Ret s /\ sds_rep s bs) as (s & -> & Hs).
    { destruct (decoded_string_spec kv bs Hv) as (s & E & Hs). destruct (sdsdup_spec s bs Hs) as (s' & E' & Hs'); [lia|].
      destruct kv as [[|] s0| |]; cbn [decoded_string] in *; [injection E as <-; by exists s0|exists s'; by rewrite E, ret_bind, E'..]. }
    rewrite ret_bind, (rep_len _ _ Hs), ret_bind. destruct (sdsgrowzero_spec s bs (maxbit / 8 + 1) Hs) as (s' & -> & Hr); [lia|].
    rewrite ret_bind, (rep_len _ _ Hr), ret_bind. by exists s'.
Qed.

Lemma lookupString_wrong key maxbit : kv_value (lookupKeyRead key) WrongType -> lookupStringForBitCommand lookupKeyRead key maxbit = Ret None.
Proof. intros Hv. unfold lookupStringForBitCommand. cbv zeta. by rewrite (checkType_spec _ _ Hv). Qed.

(** ** SETBIT and GETBIT *)

Definition bit_ref (t : list Z) : option bool := match string2ll t with Some n => if n =? 0 then Some false else if n =? 1 then Some true else None | None => None end.

(** The error of SETBIT, or the old bit, the bits stored, and whether they count as changed. *)
Definition setbit_ref (v : value) (toffset ton : list Z) : bit_error + bool * list bool * bool :=
  match offset_ref obey proto_max_bulk_len false 0 toffset, bit_ref ton with
  | None, _ => inl ErrBitOffset
  | _, None => inl ErrBitValue
  | Some off, Some b =>
    if is_wrong v then inl ErrWrongType else
    let l := bits_of (grown (bytes_of v) off) in
    let old := default false (l !! Z.to_nat off) in
    inr (old, <[Z.to_nat off := b]> l, negb (Zlen (bytes_of v) =? Zlen (grown (bytes_of v) off)) || negb (Bool.eqb old b))
  end.

Lemma bit_arg n : (if negb (Z.land n (Z.lnot 1) =? 0) then None else Some (n =? 1)) = if n =? 0 then Some false else if n =? 1 then Some true else None.
Proof.
  assert (Z.land n (Z.lnot 1) = 2 * (n / 2)) as ->.
  { change (Z.lnot 1) with (Z.lnot (Z.ones 1)). rewrite <- Z.ldiff_land, Z.ldiff_ones_r, Z.shiftl_mul_pow2, Z.shiftr_div_pow2 by lia. change (2 ^ 1) with 2. lia. }
  pose proof (Z.div_mod n 2 ltac:(lia)). pose proof (Z.mod_pos_bound n 2 ltac:(lia)).
  destruct (Z.eqb_spec (2 * (n / 2)) 0), (Z.eqb_spec n 0), (Z.eqb_spec n 1); cbn [negb]; try lia; done.
Qed.

(** One bit of a string. *)
Lemma get_bit_spec x k : (k < 8)%nat -> negb (Z.land x (Z.shiftl 1 (7 - Z.of_nat k)) =? 0) = Z.testbit x (7 - Z.of_nat k).
Proof. intros Hk. rewrite Z.shiftl_mul_pow2, Z.mul_1_l by lia. by rewrite land_bit by lia. Qed.

Lemma set_bit_byte k (b : bool) x : (k < 8)%nat -> is_byte x ->
  let y := u8 (Z.lor (Z.land x (Z.lnot (Z.shiftl 1 (7 - Z.of_nat k)))) (Z.shiftl (Z.land (Z.b2z b) 1) (7 - Z.of_nat k))) in
  byte_bits y = <[k := b]> (byte_bits x) /\ is_byte y.
Proof.
  intros Hk Hx. cbv zeta. unfold is_byte. set (y := u8 _).
  assert (bool_decide (byte_bits y = <[k := b]> (byte_bits x)) && (0 <=? y) && (y <? 256) = true) as Hy; [|rewrite !andb_true_iff, bool_decide_eq_true in Hy; split; [tauto|lia]].
  subst y. revert x Hx. apply byte_forallb. do 8 (destruct k as [|k]; [destruct b; vm_compute; reflexivity|]). lia.
Qed.

(** C17. SETBIT: a command with a bad offset, a bad bit or a key of another type
    stores nothing and replies with that error, the first in this order; any other
    grows the value with zeroes up to the byte of the offset, sets the bit and no
    other, replies with the old bit, and counts as a change exactly when the string
    grew or the bit differs. *)
Theorem setbitCommand_correct key offset on v toffset ton : kv_value (lookupKeyRead key) v -> sds_rep offset toffset -> sds_rep on ton ->
  match setbit_ref v toffset ton with
  | inl e => setbitCommand lookupKeyRead obey proto_max_bulk_len [key; offset; on] = Ret (ReplyError e, None)
  | inr (old, l, changed) => exists s bs,
      setbitCommand lookupKeyRead obey proto_max_bulk_len [key; offset; on] = Ret (ReplyLong (Z.b2z old), Some (s, changed)) /\
      sds_rep s bs /\ Forall is_byte bs /\ bits_of bs = l
  end.
Proof.
  intros Hv Ho Hon. unfold setbit_ref, setbitCommand. cbv zeta. rewrite (getBitOffset_spec _ _ _ _ _ _ Ho), ret_bind by done.
  destruct (offset_ref _ _ _ _ _) as [off|] eqn:Eoff; [|done]. apply offset_ref_range in Eoff as Hoff. change INT64_MAX with (2 ^ 63 - 1) in Hoff.
  rewrite (getLongLong_spec _ _ Hon), ret_bind. unfold bit_ref. destruct (string2ll ton) as [n|]; [|done]. rewrite <- bit_arg.
  destruct (negb (Z.land n (Z.lnot 1) =? 0)) eqn:En; [done|]. assert (exists b, n = Z.b2z b /\ (n =? 1) = b) as (b & -> & ->).
  { pose proof (bit_arg n) as Ha. rewrite En in Ha. destruct (Z.eqb_spec n 0) as [->|]; [by exists false|]. destruct (Z.eqb_spec n 1) as [->|]; [by exists true|done]. }
  destruct (is_wrong v) eqn:Hne; [destruct v; [done|done|]; by rewrite (lookupString_wrong key), ret_bind|].
  destruct (lookupString_spec key v off Hv Hne ltac:(lia)) as (s & -> & Hs). rewrite ret_bind.
  destruct (bytes_of_ok _ _ Hv) as [Hb Hlen]. pose proof (grown_bytes _ off Hb) as Hgb. pose proof (Zlen_grown (bytes_of v) off) as Hgl.
  set (g := grown (bytes_of v) off) in *. destruct (rep_frame s g Hs) as (h & t & -> & Hframe).
  rewrite Z.shiftr_div_pow2 by lia. change (2 ^ 3) with 8. assert (Z.land off 7 = off mod 8) as -> by exact (Z.land_ones off 3 ltac:(lia)).
  pose proof (Z.mod_pos_bound off 8 ltac:(lia)) as Hm. pose proof (Z.div_pos off 8 ltac:(lia) ltac:(lia)) as Hd. pose proof (Z.div_mod off 8 ltac:(lia)) as Ed.
  destruct (lookup_lt_is_Some_2 g (Z.to_nat (off / 8))) as [x Hx]; [unfold Zlen in *; lia|].
  pose proof (testbit_lookup g off x Hx ltac:(lia)) as Ebit. rewrite Ebit. cbn [default from_option id].
  rewrite (sds_rep_get _ _ _ Hs) by lia. rewrite (rd_lookup g _ x), ret_bind by done.
  set (k := Z.to_nat (off mod 8)). assert (off mod 8 = Z.of_nat k) as Ek by lia. rewrite Ek in *. rewrite get_bit_spec by lia. set (old := Z.testbit x _) in *.
  assert (negb (Zlen g - Zlen (bytes_of v) =? 0) = negb (Zlen (bytes_of v) =? Zlen g)) as -> by (f_equal; destruct (Z.eqb_spec (Zlen g - Zlen (bytes_of v)) 0), (Z.eqb_spec (Zlen (bytes_of v)) (Zlen g)); lia || done).
  assert (negb (c_bool old =? Z.b2z b) = negb (Bool.eqb old b)) as -> by (by destruct old, b).
  destruct (negb (Zlen (bytes_of v) =? Zlen g) || negb (Bool.eqb old b)) eqn:Ech.
  - unfold s_put. cbn [sds_block sds_pos]. rewrite wr_in, !ret_bind by lia.
    pose proof (set_bit_byte k b x ltac:(lia) (Forall_lookup_1 _ _ _ _ Hgb Hx)) as Hyb. cbv zeta in Hyb. destruct Hyb as [Hy By]. set (y := u8 _) in *.
    exists (Build_sds (h ++ <[Z.to_nat (off / 8) := y]> g ++ 0 :: t) (Zlen h)), (<[Z.to_nat (off / 8) := y]> g).
    split; [done|]. split; [apply Hframe; unfold Zlen; by rewrite length_insert|]. split; [by apply Forall_insert|].
    rewrite (bits_insert g _ x y k b) by (done || lia). f_equal. lia.
  - rewrite ret_bind. eexists _, g. split; [done|]. split; [done|]. split; [done|]. symmetry. apply list_insert_id. rewrite Ebit.
    apply orb_false_iff in Ech as [_ Ech%negb_false_iff%eqb_prop]. by rewrite Ech.
Qed.

Definition getbit_ref (v : value) (toffset : list Z) : reply :=
  match offset_ref obey proto_max_bulk_len false 0 toffset, v with
  | None, _ => ReplyError ErrBitOffset
  | _, WrongType => ReplyError ErrWrongType
  | Some off, _ => ReplyLong (Z.b2z (default false (bits_of (bytes_of v) !! Z.to_nat off)))
  end.

Lemma getbitCommand_spec key offset v toffset : kv_value (lookupKeyRead key) v -> sds_rep offset toffset ->
  getbitCommand lookupKeyRead obey proto_max_bulk_len [key; offset] = Ret (getbit_ref v toffset).
Proof.
  intros Hv Ho. unfold getbitCommand, getbit_ref. rewrite (getBitOffset_spec _ _ _ _ _ _ Ho), ret_bind by done.
  destruct (offset_ref _ _ _ _ _) as [off|] eqn:Eoff; [|by destruct v]. apply offset_ref_range in Eoff as Hoff.
  destruct v as [|bs|]; [by destruct (lookupKeyRead key) as [[]|]| |by destruct (lookupKeyRead key) as [[]|]].
  destruct (getObjectReadOnlyString_spec _ _ Hv) as (s & p & Es & E). cbn [bytes_of]. cbv zeta.
  rewrite Z.shiftr_div_pow2 by lia. change (2 ^ 3) with 8. assert (Z.land off 7 = off mod 8) as -> by exact (Z.land_ones off 3 ltac:(lia)).
  pose proof (Z.mod_pos_bound off 8 ltac:(lia)) as Hm. pose proof (Z.div_pos off 8 ltac:(lia) ltac:(lia)) as Hd.
  assert (forall kv, lookupKeyRead key = Some kv -> kv <> OtherObj) as Hkv by (intros kv Ek ->; by rewrite Ek in Hv).
  destruct (lookupKeyRead key) as [kv|]; [|done]. specialize (Hkv kv eq_refl). destruct kv as [?|?|]; [| |done];
    (rewrite Es, ret_bind; destruct (Z.ltb_spec (off / 8) (Zlen bs)) as [Hlt|Hge];
     [destruct (lookup_lt_is_Some_2 bs (Z.to_nat (off / 8))) as [x Hx]; [unfold Zlen in *; lia|];
      rewrite (rd_byte s p bs _ x E Hd Hx), (testbit_lookup bs off x Hx), !ret_bind by lia; cbn [default from_option id];
      rewrite <- (Z2Nat.id (off mod 8)) by lia; by rewrite get_bit_spec by lia
     |rewrite ret_bind, lookup_ge_None_2; [done|]; rewrite length_bits; pose proof (Z.div_mod off 8 ltac:(lia)); unfold Zlen in *; lia]).
Qed.

(** C16. The commands that read bits, for any value of the key and any arguments,
    wherever the string lies in memory and with or without the popcount
    instruction: BITCOUNT replies with the number of ones of the range, BITPOS
    with the first position of the bit looked for, GETBIT with the bit, zero after
    the end; they never read outside the string, and every error is the one the
    arguments ask for. *)
Theorem bit_reads_correct key v : kv_value (lookupKeyRead key) v ->
  (forall args texts, Forall2 sds_rep args texts ->
    bitcountCommand use_popcnt addr_of lookupKeyRead (key :: args) = Ret (bitcount_ref v texts) /\
    bitposCommand addr_of lookupKeyRead (key :: args) = Ret (bitpos_cmd_ref v texts)) /\
  (forall offset toffset, sds_rep offset toffset ->
    getbitCommand lookupKeyRead obey proto_max_bulk_len [key; offset] = Ret (getbit_ref v toffset)).
Proof.
  intros Hv. split; [|by intros; apply getbitCommand_spec].
  intros args texts Ha. split; [by apply bitcountCommand_correct|by apply bitposCommand_correct].
Qed.

(** ** The sub-commands of BITFIELD *)

Definition field_type : Type := bool * Z * Z.

Inductive subcmd := SubGet (f : field_type) | SubSet (f : field_type) (v : Z) | SubIncrby (f : field_type) (v : Z) | SubOverflow (ow : owtype).

Definition field_ref (type offset : list Z) : field_type + bit_error :=
  match type_ref type with
  | None => inr ErrBitfieldType
  | Some (sign, bits) => match offset_ref obey proto_max_bulk_len true bits offset with None => inr ErrBitOffset | Some off => inl (sign, bits, off) end
  end.

Definition policy_ref (t : list Z) : option owtype :=
  let w := map c_tolower (c_cut t) in
  if bool_decide (w = [119; 114; 97; 112]) then Some BFOVERFLOW_WRAP
  else if bool_decide (w = [115; 97; 116]) then Some BFOVERFLOW_SAT
  else if bool_decide (w = [102; 97; 105; 108]) then Some BFOVERFLOW_FAIL else None.

Definition cons_sub (s : subcmd) (r : list subcmd + bit_error) : list subcmd + bit_error := match r with inl l => inl (s :: l) | inr e => inr e end.

(** The sub-commands that the arguments spell, or the first error. *)
Fixpoint read_subcmds (args : list (list Z)) : list subcmd + bit_error :=
  match args with
  | [] => inl []
  | word :: rest =>
    let w := map c_tolower (c_cut word) in
    if bool_decide (w = w_get) then
      match rest with
      | t :: o :: rest => match field_ref t o with inl f => cons_sub (SubGet f) (read_subcmds rest) | inr e => inr e end
      | _ => inr ErrSyntax
      end
    else if bool_decide (w = w_set) || bool_decide (w = w_incrby) then
      match rest with
      | t :: o :: v :: rest =>
        match field_ref t o, string2ll v with
        | inr e, _ => inr e
        | _, None => inr ErrNotInteger
        | inl f, Some v => cons_sub (if bool_decide (w = w_set) then SubSet f v else SubIncrby f v) (read_subcmds rest)
        end
      | _ => inr ErrSyntax
      end
    else if bool_decide (w = w_overflow) then
      match rest with
      | p :: rest => match policy_ref p with Some ow => cons_sub (SubOverflow ow) (read_subcmds rest) | None => inr ErrOverflowType end
      | [] => inr ErrSyntax
      end
    else inr ErrSyntax
  end.

Definition mk_op (ow : owtype) (op : bitfield_opcode) (f : field_type) (v : Z) : bitfieldOp :=
  let '(sign, bits, off) := f in
  {| bf_offset := off; bf_i64 := v; bf_opcode := op; bf_owtype := ow; bf_bits := bits; bf_sign := sign |}.

(** OVERFLOW is about the operations that follow it, up to the next one. *)
Fixpoint compile (ow : owtype) (l : list subcmd) : list bitfieldOp :=
  match l with
  | [] => []
  | SubGet f :: l => mk_op ow BITFIELDOP_GET f 0 :: compile ow l
  | SubSet f v :: l => mk_op ow BITFIELDOP_SET f v :: compile ow l
  | SubIncrby f v :: l => mk_op ow BITFIELDOP_INCRBY f v :: compile ow l
  | SubOverflow ow :: l => compile ow l
  end.

Definition highest_write (ops : list bitfieldOp) (high : Z) : Z :=
  foldl (fun high op => if is_write op then Z.max high (bf_offset op + bf_bits op - 1) else high) high ops.

Definition parsed_ref (ow : owtype) (ops : list bitfieldOp) (ro : bool) (high : Z) (r : list subcmd + bit_error) : list bitfieldOp * bool * Z + bit_error :=
  match r with
  | inr e => inr e
  | inl l => inl (ops ++ compile ow l, ro && forallb (fun op => negb (is_write op)) (compile ow l), highest_write (compile ow l) high)
  end.

Lemma parse_field_spec type offset tt_ to : sds_rep type tt_ -> sds_rep offset to ->
  parse_field obey proto_max_bulk_len type offset = Ret (field_ref tt_ to).
Proof.
  intros Ht Ho. unfold parse_field, field_ref. rewrite (getBitfieldType_spec _ _ Ht), ret_bind. destruct (type_ref tt_) as [[sign bits]|] eqn:E; [|done].
  pose proof (type_ref_range _ _ _ E) as Hr. rewrite (getBitOffset_spec _ _ _ _ _ _ Ho), ret_bind by (intros _; destruct sign; lia).
  by destruct (offset_ref _ _ _ _ _).
Qed.

Lemma parse_owtype_spec o t : sds_rep o t -> parse_owtype o = Ret (policy_ref t).
Proof. intros Ho. unfold parse_owtype. pose proof (c_string_spec o t [] Ho) as E. change (Zlen (@nil Z)) with 0 in E. by rewrite E, ret_bind. Qed.

(** The four keywords exclude each other. *)
Lemma keywords w : (bool_decide (w = w_get) = true -> bool_decide (w = w_set) = false /\ bool_decide (w = w_incrby) = false /\ bool_decide (w = w_overflow) = false) /\
  (bool_decide (w = w_set) || bool_decide (w = w_incrby) = true -> bool_decide (w = w_overflow) = false).
Proof.
  split.
  - intros E%bool_decide_eq_true. subst w. done.
  - intros [E%bool_decide_eq_true|E%bool_decide_eq_true]%orb_true_iff; by subst w.
Qed.

Lemma parse_ops_spec n : forall args texts ow ops ro high, (length args <= n)%nat -> Forall2 sds_rep args texts ->
  parse_ops obey proto_max_bulk_len args ow ops ro high = Ret (parsed_ref ow ops ro high (read_subcmds texts)).
Proof.
  induction n as [|n IH]; intros args texts ow ops ro high Hn Ha; destruct Ha as [|a ta args texts Ea Ha]; try (cbn in Hn; lia);
    try (cbn; by rewrite app_nil_r, andb_true_r).
  cbn [length] in Hn. cbn [parse_ops read_subcmds]. cbv zeta. rewrite !(strcasecmp_is_spec _ _ _ Ea), !ret_bind. set (w := map c_tolower (c_cut ta)). destruct (keywords w) as [Hget Hset].
  assert (forall s op high', compile ow [s] = [op] -> (forall l, compile ow (s :: l) = op :: compile ow l) -> high' = (if is_write op then Z.max high (bf_offset op + bf_bits op - 1) else high) ->
    forall args texts, (length args <= n)%nat -> Forall2 sds_rep args texts ->
    parse_ops obey proto_max_bulk_len args ow (ops ++ [op]) (if is_write op then false else ro) high' = Ret (parsed_ref ow ops ro high (cons_sub s (read_subcmds texts)))) as Hstep.
  { intros s op high' _ Hc -> args' texts' Hl' Ha'. rewrite (IH args' texts') by done. destruct (read_subcmds texts') as [l|e]; [|done]. cbn [cons_sub parsed_ref].
    rewrite Hc. rewrite <- app_assoc. cbn [app forallb foldl]. unfold highest_write. cbn [foldl]. by destruct (is_write op), ro. }
  destruct Ha as [|b tb args texts Eb Ha].
  { destruct (bool_decide (w = w_get)), (bool_decide (w = w_set) || bool_decide (w = w_incrby)), (bool_decide (w = w_overflow)); done. }
  destruct (bool_decide (w = w_get)) eqn:Eg.
  { destruct (Hget eq_refl) as (_ & _ & ->). destruct Ha as [|c tc args texts Ec Ha]; [done|].
    rewrite (parse_field_spec _ _ _ _ Eb Ec), ret_bind. destruct (field_ref tb tc) as [[[sign bits] off]|e]; [|done].
    by apply (Hstep (SubGet (sign, bits, off)) (mk_op ow BITFIELDOP_GET (sign, bits, off) 0)); [| | |cbn in Hn; lia|]. }
  destruct (bool_decide (w = w_set) || bool_decide (w = w_incrby)) eqn:Es.
  { rewrite (Hset eq_refl). destruct Ha as [|c tc args texts Ec Ha]; [done|]. destruct Ha as [|d td args texts Ed Ha]; [done|].
    rewrite Zlen_cons. rewrite (proj2 (Z.leb_le 1 _)) by (pose proof (Zlen_nonneg args); lia). cbn [andb].
    rewrite (parse_field_spec _ _ _ _ Eb Ec), ret_bind. destruct (field_ref tb tc) as [[[sign bits] off]|e]; [|done].
    rewrite (getLongLong_spec _ _ Ed), ret_bind. destruct (string2ll td) as [v|]; [|done].
    assert ((if high <? off + bits - 1 then off + bits - 1 else high) = Z.max high (off + bits - 1)) as -> by (destruct (Z.ltb_spec high (off + bits - 1)); lia).
    destruct (bool_decide (w = w_set)).
    - by apply (Hstep (SubSet (sign, bits, off) v) (mk_op ow BITFIELDOP_SET (sign, bits, off) v)); [| | |cbn in Hn; lia|].
    - by apply (Hstep (SubIncrby (sign, bits, off) v) (mk_op ow BITFIELDOP_INCRBY (sign, bits, off) v)); [| | |cbn in Hn; lia|]. }
  cbn [andb].
  assert ((if bool_decide (w = w_overflow) then
      ow ← parse_owtype b;
      match ow with None => Ret (inr ErrOverflowType) | Some ow => parse_ops obey proto_max_bulk_len args ow ops ro high end
    else Ret (inr ErrSyntax)) = Ret (parsed_ref ow ops ro high (if bool_decide (w = w_overflow)
      then match policy_ref tb with Some ow => cons_sub (SubOverflow ow) (read_subcmds texts) | None => inr ErrOverflowType end else inr ErrSyntax))) as Hov.
  { destruct (bool_decide (w = w_overflow)); [|done]. rewrite (parse_owtype_spec _ _ Eb), ret_bind. destruct (policy_ref tb) as [ow'|]; [|done].
    rewrite (IH args texts) by (done || (cbn in Hn; lia)). by destruct (read_subcmds texts). }
  rewrite <- Hov. by destruct Ha.
Qed.

(** ** BITFIELD *)

Lemma field_ref_ok type offset sign bits off : field_ref type offset = inl (sign, bits, off) -> 0 <= off <= INT64_MAX /\ 1 <= bits <= (if sign then 64 else 63).
Proof.
  unfold field_ref. destruct (type_ref type) as [[s b]|] eqn:Et; [|done]. destruct (offset_ref _ _ _ _ _) as [o|] eqn:Eo; [|done]. intros [= <- <- <-].
  by apply offset_ref_range in Eo; apply type_ref_range in Et.
Qed.

Lemma cons_sub_inl s r l : cons_sub s r = inl l -> exists l', r = inl l' /\ l = s :: l'.
Proof. destruct r as [l'|]; [|done]. intros [= <-]. by exists l'. Qed.

Lemma read_ok n : forall texts l, (length texts <= n)%nat -> read_subcmds texts = inl l -> forall ow, Forall op_ok (compile ow l).
Proof.
  induction n as [|n IH]; intros [|ta texts] l Hn E ow; try (cbn in Hn; lia); try (by injection E as <-). cbn [read_subcmds] in E. cbn [length] in Hn. cbv zeta in E.
  assert (forall f a b texts' l', field_ref a b = inl f -> read_subcmds texts' = inl l' -> (length texts' <= n)%nat -> forall op v, INT64_MIN <= v <= INT64_MAX ->
    Forall op_ok (mk_op ow op f v :: compile ow l')) as Hstep.
  { intros [[sign bits] off] a b texts' l' Ef Er Hl op v Hv. apply field_ref_ok in Ef as [Ho Hb]. apply Forall_cons_2; [done|]. by apply (IH texts'). }
  destruct (bool_decide _).
  { destruct texts as [|tb [|tc texts]]; try done. destruct (field_ref tb tc) as [f|] eqn:Ef; [|done]. apply cons_sub_inl in E as (l' & E & ->).
    apply (Hstep f tb tc texts l' Ef E); [cbn in Hn; lia|done]. }
  destruct (_ || _).
  { destruct texts as [|tb [|tc [|td texts]]]; try done. destruct (field_ref tb tc) as [f|] eqn:Ef; [|done]. destruct (string2ll td) as [v|] eqn:Ev; [|done].
    apply cons_sub_inl in E as (l' & E & ->). apply string2ll_range in Ev. destruct (bool_decide _); apply (Hstep f tb tc texts l' Ef E); (cbn in Hn; lia) || done. }
  destruct (bool_decide _); [|done]. destruct texts as [|tb texts]; [done|]. destruct (policy_ref tb) as [ow'|]; [|done]. apply cons_sub_inl in E as (l' & E & ->).
  apply (IH texts l' ltac:(cbn in Hn; lia) E ow').
Qed.

Lemma highest_write_le ops : forall high, high <= highest_write ops high /\ Forall (fun op => is_write op = true -> bf_offset op + bf_bits op - 1 <= highest_write ops high) ops.
Proof.
  unfold highest_write. induction ops as [|op ops IH]; intros high; cbn [foldl]; [done|].
  destruct (IH (if is_write op then Z.max high (bf_offset op + bf_bits op - 1) else high)) as [Hle Hall]. split; [destruct (is_write op); lia|].
  apply Forall_cons_2; [|done]. intros Hw. rewrite Hw in *. lia.
Qed.

Lemma highest_write_range ops : Forall op_ok ops -> forall high, 0 <= high < 2 ^ 63 + 64 -> 0 <= highest_write ops high < 2 ^ 63 + 64.
Proof.
  unfold highest_write. induction 1 as [|op ops (Ho & Hb & _) _ IH]; intros high Hh; cbn [foldl]; [done|]. apply IH. unfold INT64_MAX in Ho. destruct (is_write op); [|done].
  destruct (bf_sign op); lia.
Qed.

(** What BITFIELD (or BITFIELD_RO) does: an error, the replies alone, or the
    replies with the bits stored and the number of changes. *)
Inductive bitfield_outcome :=
| FieldError (e : bit_error)
| FieldRead (rs : list reply)
| FieldWritten (rs : list reply) (l : list bool) (changes : Z).

Definition bitfield_ref (ro : bool) (v : value) (texts : list (list Z)) : bitfield_outcome :=
  match read_subcmds texts with
  | inr e => FieldError e
  | inl subs =>
    let ops := compile BFOVERFLOW_WRAP subs in
    if forallb (fun op => negb (is_write op)) ops then
      if is_wrong v then FieldError ErrWrongType else FieldRead (ReplyArrayLen (Zlen ops) :: (ops_ref ops false (bits_of (bytes_of v)) 0).1.1)
    else if ro then FieldError ErrReadOnly
    else if is_wrong v then FieldError ErrWrongType else
    let g := grown (bytes_of v) (highest_write ops 0) in
    let '(rs, l, changes) := ops_ref ops (negb (Zlen g - Zlen (bytes_of v) =? 0)) (bits_of g) 0 in
    FieldWritten (ReplyArrayLen (Zlen ops) :: rs) l changes
  end.

(** C14. BITFIELD: for any sub-commands on any value, the command returns and never
    reads or writes outside the string. An error in any sub-command stops it
    before the key is touched. Otherwise each operation, in order, reads its field
    as a big-endian number of its width and sign, and writes the new number into
    the bits of the field and no others; what does not fit wraps, saturates or is
    refused with a null reply, as the last OVERFLOW before it says. The value is
    first grown with zeroes to the last bit any operation writes; GET alone stores
    nothing and reads zeroes after the end. *)
Theorem bitfieldGeneric_correct ro key args v texts : kv_value (lookupKeyRead key) v -> Forall2 sds_rep args texts ->
  match bitfield_ref ro v texts with
  | FieldError e => bitfieldGeneric lookupKeyRead obey proto_max_bulk_len ro (key :: args) = Ret ([ReplyError e], None)
  | FieldRead rs => bitfieldGeneric lookupKeyRead obey proto_max_bulk_len ro (key :: args) = Ret (rs, None)
  | FieldWritten rs l changes => exists s bs,
      bitfieldGeneric lookupKeyRead obey proto_max_bulk_len ro (key :: args) = Ret (rs, Some (s, changes)) /\
      sds_rep s bs /\ Forall is_byte bs /\ bits_of bs = l
  end.
Proof.
  intros Hv Ha. unfold bitfield_ref, bitfieldGeneric. rewrite (parse_ops_spec _ _ _ _ _ _ _ (Nat.le_refl _) Ha), ret_bind. unfold parsed_ref.
  destruct (read_subcmds texts) as [subs|e] eqn:Er; [|done]. set (ops := compile BFOVERFLOW_WRAP subs). cbn [app andb].
  pose proof (read_ok _ _ _ (Nat.le_refl _) Er BFOVERFLOW_WRAP) as Hok. fold ops in Hok.
  destruct (forallb _ ops) eqn:Ero.
  - cbv zeta. rewrite (checkType_spec _ _ Hv). fold (is_wrong v). destruct (is_wrong v) eqn:Hne; [done|].
    rewrite (exec_read_spec ops _ v 0 Hv), ret_bind; [by destruct v| |done|]; [by destruct v|].
    apply list.Forall_forall. intros op Hin%list_elem_of_In. pose proof (proj1 (forallb_forall _ _) Ero op Hin) as Ew. cbn beta in Ew. by destruct (is_write op).
  - destruct ro; [done|]. destruct (is_wrong v) eqn:Hne; [destruct v; [done|done|]; by rewrite (lookupString_wrong key), ret_bind|].
    destruct (highest_write_le ops 0) as [_ Hall]. pose proof (highest_write_range ops Hok 0 ltac:(lia)) as Hhigh. set (high := highest_write ops 0) in *.
    destruct (lookupString_spec key v high Hv Hne Hhigh) as (s & -> & Hs). rewrite ret_bind.
    destruct (bytes_of_ok _ _ Hv) as [Hb Hlen]. pose proof (grown_bytes _ high Hb) as Hgb. pose proof (Zlen_grown (bytes_of v) high) as Hgl. set (g := grown (bytes_of v) high) in *.
    assert (high / 8 < 2 ^ 60 + 8) by (apply Z.div_lt_upper_bound; lia).
    destruct (exec_write_spec ops s g (Zlen g - Zlen (bytes_of v)) 0 Hs Hgb) as (s' & bs' & -> & Hs' & Hb' & _ & El); [lia| |].
    { apply list.Forall_forall. intros op Hin. pose proof (proj1 (list.Forall_forall _ _) Hok op Hin) as Hop. split; [done|]. intros Hw.
      pose proof (proj1 (list.Forall_forall _ _) Hall op Hin Hw) as Hle. rewrite Zlen_bits. pose proof (Z.div_mod high 8 ltac:(lia)). pose proof (Z.mod_pos_bound high 8 ltac:(lia)). cbn beta in Hle. lia. }
    rewrite ret_bind. destruct (ops_ref ops _ (bits_of g) 0) as [[rs l] changes]. cbn [fst snd] in *. by exists s', bs'.
Qed.
End commands.

(** ** Witnesses *)

Lemma bit_reads_witness :
  bitcountCommand false (fun _ => 3) (demo_lookup [102; 111; 111; 98; 97; 114] []) (key_a :: map demo_str [[49]; [45; 50]]) = Ret (ReplyLong 18) /\
  bitposCommand (fun _ => 3) (demo_lookup [102; 111; 111; 98; 97; 114] []) (key_a :: map demo_str [[49]; [51]; [45; 49]]) = Ret (ReplyLong 25).
Proof.
  destruct (bit_reads_correct false (fun _ => 3) (demo_lookup [102; 111; 111; 98; 97; 114] []) false 512 key_a (Str [102; 111; 111; 98; 97; 114])) as [H _].
  - apply demo_value_a; [by repeat constructor|done].
  - split; [exact (proj1 (H _ _ (demo_strs_rep [[49]; [45; 50]] ltac:(by repeat constructor))))|].
    exact (proj2 (H _ _ (demo_strs_rep [[49]; [51]; [45; 49]] ltac:(by repeat constructor)))).
Defined.

Lemma setbitCommand_witness : exists s bs,
  setbitCommand (H := exact_allocator) (demo_lookup [1] []) false 512 [key_a; demo_str [49; 48]; demo_str [49]] = Ret (ReplyLong 0, Some (s, true)) /\
  sds_rep s bs /\ Forall is_byte bs /\ bits_of bs = bits_of [1; 32].
Proof.
  exact (@setbitCommand_correct exact_allocator exact_fits (demo_lookup [1] []) false 512 key_a (demo_str [49; 48]) (demo_str [49]) (Str [1]) [49; 48] [49]
    (demo_value_a [1] [] ltac:(by repeat constructor) ltac:(done)) (demo_str_rep [49; 48] ltac:(done)) (demo_str_rep [49] ltac:(done))).
Defined.

(** INCRBY i5 100 17, OVERFLOW SAT, SET u8 #1 300, GET u8 8 on three bytes. *)
Definition demo_subcmds : list (list Z) :=
  [w_incrby; [105; 53]; [49; 48; 48]; [49; 55]; w_overflow; [115; 97; 116]; w_set; [117; 56]; [35; 49]; [51; 48; 48]; w_get; [117; 56]; [56]].

Lemma bitfieldGeneric_witness : exists s bs,
  bitfieldGeneric (H := exact_allocator) (demo_lookup [1; 2; 3] []) false 512 false (key_a :: map demo_str demo_subcmds) =
    Ret ([ReplyArrayLen 3; ReplyLong (-15); ReplyLong 2; ReplyLong 255], Some (s, 2)) /\
  sds_rep s bs /\ Forall is_byte bs /\ bits_of bs = bits_of [1; 255; 3; 0; 0; 0; 0; 0; 0; 0; 0; 0; 8; 128].
Proof.
  exact (@bitfieldGeneric_correct exact_allocator exact_fits (demo_lookup [1; 2; 3] []) false 512 false key_a (map demo_str demo_subcmds) (Str [1; 2; 3]) demo_subcmds
    (demo_value_a [1; 2; 3] [] ltac:(by repeat constructor) ltac:(done)) (demo_strs_rep demo_subcmds ltac:(by repeat constructor))).
Defined.

(** ** Examples *)

Example bitcount_examples :
  let run := bitcountCommand false (fun _ => 3) (demo_lookup [102; 111; 111; 98; 97; 114] []) in
  (run [key_a], run [key_a; demo_num 1; demo_num 1], run [key_a; demo_num 5; demo_num 30; demo_str [66; 105; 84]],
   run [key_a; demo_num (-100); demo_num (-200)], run [key_c; demo_num 0; demo_num (-1)]) =
  (Ret (ReplyLong 26), Ret (ReplyLong 6), Ret (ReplyLong 17), Ret (ReplyLong 0), Ret (ReplyLong 10)).
Proof. vm_compute. reflexivity. Qed.

(** Two negative indexes that both clamp to the first byte are an empty range for
    BITCOUNT, but not for BITPOS. *)
Example bitpos_examples :
  let run := bitposCommand (fun _ => 3) (demo_lookup [255; 240; 0] []) in
  (run [key_a; demo_num 0], run [key_a; demo_num 1; demo_num 2], run [key_a; demo_num 1; demo_num 7; demo_num 15; demo_str w_bit],
   run [key_a; demo_num 0; demo_num 0; demo_num 0], run [key_a; demo_num 1; demo_num (-100); demo_num (-200)]) =
  (Ret (ReplyLong 12), Ret (ReplyLong (-1)), Ret (ReplyLong 7), Ret (ReplyLong (-1)), Ret (ReplyLong 0)).
Proof. vm_compute. reflexivity. Qed.

Example bitfield_examples :
  let run := bitfieldGeneric (H := exact_allocator) (demo_lookup [1; 2; 3] []) false 512 false in
  let i5 := demo_str [105; 53] in
  let u8 := demo_str [117; 56] in
  ('(rs, o) ← run [key_a; demo_str w_incrby; i5; demo_num 100; demo_num 17; demo_str w_get; u8; demo_num 8;
      demo_str w_overflow; demo_str [115; 97; 116]; demo_str w_set; u8; demo_str [35; 49]; demo_num 300; demo_str w_get; u8; demo_num 8];
  match o with Some (s, changes) => bs ← s_bytes s; Ret (rs, bs, changes) | None => OutOfBounds end) =
  Ret ([ReplyArrayLen 4; ReplyLong (-15); ReplyLong 2; ReplyLong 2; ReplyLong 255], [1; 255; 3; 0; 0; 0; 0; 0; 0; 0; 0; 0; 8; 128], 2).
Proof. vm_compute. reflexivity. Qed.
