(* ===== verification/BitopsOp.v ===== *)
(** * BitopsOp: BITOP

    The result of BITOP, bit by bit: the loop on words, which treats the part that
    all keys have, and the loop on bytes, which treats the rest, agree. *)

From S2P Require Import Prelude Memory NumStr Sds SdsInv SdsSpec Bitops BitopsBits BitopsRange BitopsFields BitopsCmd.

(** ** One bit *)

Definition any (l : list bool) : bool := existsb id l.

(** The bit of the result, from the bit of the first key and those of the others. *)
Definition bitop_bit (op : bitop) (b : bool) (l : list bool) : bool :=
  match op with
  | BITOP_AND => forallb id (b :: l)
  | BITOP_OR => any (b :: l)
  | BITOP_XOR => foldl xorb b l
  | BITOP_NOT => negb b
  | BITOP_DIFF => b && negb (any l)
  | BITOP_DIFF1 => negb b && any l
  | BITOP_ANDOR => b && any l
  | BITOP_ONE => ones (b :: l) =? 1
  end.

(** The state of BITOP ONE after some keys: exactly one bit, more than one. *)
Lemma ones_nonneg l : 0 <= ones l.
Proof. unfold ones. induction l as [|b l IH]; [done|]. cbn [fmap list_fmap zsum foldr]. destruct b; cbn [Z.b2z]; lia. Qed.
Lemma ones_cons b l : ones (b :: l) = Z.b2z b + ones l.
Proof. done. Qed.
Lemma ones_snoc l b : ones (l ++ [b]) = ones l + Z.b2z b.
Proof. rewrite ones_app. unfold ones at 2. cbn. lia. Qed.

(** ** Bytes and words *)

(** A bitwise operation on words is one on their bytes. *)
Section bitwise.
Context (F : Z -> Z -> Z) (f : bool -> bool -> bool).
Context (HF : forall a b i, 0 <= i -> Z.testbit (F a b) i = f (Z.testbit a i) (Z.testbit b i)) (Hff : f false false = false).

Lemma F_range n a b : 0 <= n -> 0 <= a < 2 ^ n -> 0 <= b < 2 ^ n -> 0 <= F a b < 2 ^ n.
Proof.
  intros Hn Ha Hb. assert (forall x i, 0 <= x < 2 ^ n -> n <= i -> Z.testbit x i = false) as Hhigh.
  { intros x i Hx Hi. rewrite <- (Z.mod_small x (2 ^ n)) by done. apply Z.mod_pow2_bits_high. lia. }
  assert (F a b = F a b mod 2 ^ n) as ->; [|apply Z.mod_pos_bound; lia].
  apply Z.bits_inj'. intros i Hi. destruct (Z.lt_ge_cases i n); [by rewrite Z.mod_pow2_bits_low by lia|].
  by rewrite Z.mod_pow2_bits_high, HF, !Hhigh by lia.
Qed.

Lemma F_byte a b : is_byte a -> is_byte b -> is_byte (F a b).
Proof. unfold is_byte. change 256 with (2 ^ 8). by apply F_range. Qed.

Lemma F_cons x A y B : is_byte x -> is_byte y -> F (x + 256 * A) (y + 256 * B) = F x y + 256 * F A B.
Proof.
  intros Hx Hy. apply Z.bits_inj'. intros i Hi. rewrite HF, !testbit_cons by (done || by apply F_byte). destruct (Z.ltb_spec i 8); by rewrite HF by lia.
Qed.

Lemma F_le_value a : forall b, length a = length b -> Forall is_byte a -> Forall is_byte b -> F (le_value a) (le_value b) = le_value (zip_with F a b).
Proof.
  induction a as [|x a IH]; intros [|y b] Hl Ha Hb; try done; cbn [le_value zip_with].
  - apply Z.bits_inj'. intros i Hi. by rewrite HF, Z.bits_0 by done.
  - apply list.Forall_cons in Ha as [Hx Ha], Hb as [Hy Hb]. rewrite F_cons by done. f_equal. f_equal. apply IH; [by injection Hl|done|done].
Qed.

Lemma F_zip a : forall b, Forall is_byte a -> Forall is_byte b -> Forall is_byte (zip_with F a b).
Proof.
  induction a as [|x a IH]; intros [|y b] Ha Hb; cbn [zip_with]; try done.
  apply list.Forall_cons in Ha as [Hx Ha], Hb as [Hy Hb]. apply Forall_cons_2; [by apply F_byte|by apply IH].
Qed.

(** A word written back. *)
Lemma F_word a b : length a = 8%nat -> length b = 8%nat -> Forall is_byte a -> Forall is_byte b ->
  le_bytes 8 (u64 (F (le_value a) (le_value b))) = zip_with F a b.
Proof.
  intros Ha Hb Ba Bb. rewrite F_le_value by (done || congruence). pose proof (F_zip a b Ba Bb) as Bz.
  assert (length (zip_with F a b) = 8%nat) as Hl by (rewrite length_zip_with; lia).
  pose proof (le_value_u64 (zip_with F a b) Bz Hl) as Hr. unfold is_u64 in Hr. rewrite wrapu_id by lia. rewrite <- Hl. by apply le_bytes_value.
Qed.
End bitwise.

(** ** Updates of a part of a list *)

Definition on_range (i n : nat) (g : nat -> Z -> Z) (R : list Z) : list Z := imap (fun j x => if bool_decide (i <= j < i + n)%nat then g j x else x) R.

Definition slice {A} (i n : nat) (l : list A) : list A := take n (drop i l).

(** The [j]-th byte of a value that is followed by zeroes. *)
Definition byte_at (l : list Z) (j : nat) : Z := default 0 (l !! j).

Lemma length_on_range i n g R : length (on_range i n g R) = length R.
Proof. apply length_imap. Qed.

Lemma Zlen_on_range i n g R : Zlen (on_range i n g R) = Zlen R.
Proof. unfold Zlen. by rewrite length_on_range. Qed.

Lemma on_range_lookup i n g R j : on_range i n g R !! j = (fun x => if bool_decide (i <= j < i + n)%nat then g j x else x) <$> R !! j.
Proof. apply list_lookup_imap. Qed.

Lemma on_range_ext i n g1 g2 R : (forall j x, (i <= j < i + n)%nat -> R !! j = Some x -> g1 j x = g2 j x) -> on_range i n g1 R = on_range i n g2 R.
Proof.
  intros Hg. apply list_eq. intros j. rewrite !on_range_lookup. destruct (R !! j) as [x|] eqn:Hx; [|done]. cbn [fmap option_fmap option_map]. f_equal.
  destruct (bool_decide_reflect (i <= j < i + n)%nat); [by apply Hg|done].
Qed.

Lemma on_range_join i n m g R : on_range (i + n) m g (on_range i n g R) = on_range i (n + m) g R.
Proof.
  apply list_eq. intros j. rewrite !on_range_lookup. destruct (R !! j) as [x|]; [|done]. cbn [fmap option_fmap option_map]. f_equal.
  destruct (bool_decide_reflect (i + n <= j < i + n + m)%nat), (bool_decide_reflect (i <= j < i + n)%nat), (bool_decide_reflect (i <= j < i + (n + m))%nat); lia || done.
Qed.

Lemma on_range_compose i n g1 g2 R : on_range i n g2 (on_range i n g1 R) = on_range i n (fun j x => g2 j (g1 j x)) R.
Proof.
  apply list_eq. intros j. rewrite !on_range_lookup. destruct (R !! j) as [x|]; [|done]. cbn [fmap option_fmap option_map]. f_equal.
  by destruct (bool_decide_reflect (i <= j < i + n)%nat).
Qed.

Lemma on_range_zero i g R : on_range i 0 g R = R.
Proof.
  apply list_eq. intros j. rewrite on_range_lookup. destruct (R !! j) as [x|]; [|done]. cbn [fmap option_fmap option_map]. f_equal.
  by rewrite bool_decide_eq_false_2 by lia.
Qed.

Lemma on_range_id i n R : on_range i n (fun _ x => x) R = R.
Proof. apply list_eq. intros j. rewrite on_range_lookup. destruct (R !! j); [|done]. cbn [fmap option_fmap option_map]. by destruct (bool_decide _). Qed.

Lemma byte_at_on_range i n g R j : (j < length R)%nat -> byte_at (on_range i n g R) j = if bool_decide (i <= j < i + n)%nat then g j (byte_at R j) else byte_at R j.
Proof. intros Hj. unfold byte_at. rewrite on_range_lookup. destruct (lookup_lt_is_Some_2 R j Hj) as [x ->]. done. Qed.

Lemma on_range_bytes i n g R : Forall is_byte R -> (forall j x, is_byte x -> is_byte (g j x)) -> Forall is_byte (on_range i n g R).
Proof.
  intros HR Hg. apply Forall_lookup_2. intros j y Hy. rewrite on_range_lookup in Hy. destruct (R !! j) as [x|] eqn:Hx; [|done]. injection Hy as <-.
  pose proof (Forall_lookup_1 _ _ _ _ HR Hx). by destruct (bool_decide _); [apply Hg|].
Qed.

Lemma slice_lookup {A} i n (l : list A) j : (j < n)%nat -> slice i n l !! j = l !! (i + j)%nat.
Proof. intros Hj. unfold slice. by rewrite lookup_take_lt, lookup_drop. Qed.

Lemma length_slice {A} i n (l : list A) : (i + n <= length l)%nat -> length (slice i n l) = n.
Proof. intros H. unfold slice. rewrite length_take, length_drop. lia. Qed.

Lemma slice_bytes i n l : Forall is_byte l -> Forall is_byte (slice i n l).
Proof. intros H. by apply Forall_take, Forall_drop. Qed.

Lemma slice_eq {A} i n (l : list A) l' : (i + n <= length l)%nat -> length l' = n -> (forall j, (j < n)%nat -> l !! (i + j)%nat = l' !! j) -> slice i n l = l'.
Proof.
  intros Hl Hl' H. apply list_eq. intros j. destruct (decide (j < n)%nat) as [Hj|Hj]; [by rewrite slice_lookup, H|].
  rewrite !lookup_ge_None_2; [done|lia|rewrite length_slice; lia].
Qed.

(** A bitwise operation on a slice. *)
Lemma zip_slice (F : Z -> Z -> Z) i n R b : (i + n <= length R)%nat -> length b = n ->
  zip_with F (slice i n R) b = slice i n (on_range i n (fun j x => F x (byte_at b (j - i))) R).
Proof.
  intros Hl Hb. symmetry. apply slice_eq; [by rewrite length_on_range|rewrite length_zip_with, length_slice; lia|].
  intros j Hj. rewrite on_range_lookup, lookup_zip_with, slice_lookup by done. destruct (lookup_lt_is_Some_2 R (i + j)) as [x ->]; [lia|].
  destruct (lookup_lt_is_Some_2 b j) as [y Hy]; [lia|]. rewrite Hy. cbn [fmap option_fmap option_map mbind option_bind]. rewrite bool_decide_eq_true_2 by lia. unfold byte_at.
  replace (i + j - i)%nat with j by lia. by rewrite Hy.
Qed.

Lemma splice_slice i n g R : (i + n <= length R)%nat -> splice i (slice i n (on_range i n g R)) R = on_range i n g R.
Proof.
  intros Hl. apply list_eq. intros j. assert (length (slice i n (on_range i n g R)) = n) as Hn by (apply length_slice; by rewrite length_on_range).
  destruct (decide (i <= j < i + n)%nat) as [Hj|Hj].
  - unfold splice. rewrite lookup_app_r by (rewrite length_take; lia). rewrite lookup_app_l by (rewrite length_take; lia).
    rewrite length_take, slice_lookup by lia. f_equal. lia.
  - rewrite splice_lookup by lia. rewrite on_range_lookup. destruct (R !! j); [|done]. cbn [fmap option_fmap option_map]. by rewrite bool_decide_eq_false_2.
Qed.

Lemma slice_other i n i' n' g R : (i + n <= length R)%nat -> (i + n <= i' \/ i' + n' <= i)%nat -> slice i n (on_range i' n' g R) = slice i n R.
Proof.
  intros Hl Hd. apply slice_eq; [by rewrite length_on_range|by apply length_slice|]. intros j Hj. rewrite slice_lookup, on_range_lookup by done.
  destruct (R !! (i + j)%nat); [|done]. cbn [fmap option_fmap option_map]. by rewrite bool_decide_eq_false_2 by lia.
Qed.

Lemma byte_at_slice K i n j : (j < n)%nat -> byte_at (slice i n K) j = byte_at K (i + j).
Proof. intros Hj. unfold byte_at. by rewrite slice_lookup. Qed.

Lemma byte_at_byte K j : Forall is_byte K -> is_byte (byte_at K j).
Proof. intros H. unfold byte_at. destruct (K !! j) as [x|] eqn:E; [|done]. by apply (Forall_lookup_1 _ _ _ _ H E). Qed.

(** ** Words of strings *)

Lemma read_slice s K i n : sds_rep s K -> 0 <= i -> 0 <= n -> i + n <= Zlen K -> s_read s i n = Ret (slice (Z.to_nat i) (Z.to_nat n) K).
Proof. intros Hs Hi Hn Hl. rewrite (rep_read_sub s K) by done. by rewrite rdn_ok. Qed.

Lemma write_splice s R i xs : sds_rep s R -> 0 <= i -> i + Zlen xs <= Zlen R -> exists s', s_write s i xs = Ret s' /\ sds_rep s' (splice (Z.to_nat i) xs R).
Proof.
  intros Hs Hi Hl. destruct (rep_frame s R Hs) as (h & t & -> & Hframe). pose proof (Zlen_nonneg xs). pose proof (Zlen_nonneg h). pose proof (Zlen_nonneg (0 :: t)).
  unfold s_write. cbn [sds_block sds_pos]. rewrite wrn_ok, ret_bind by (rewrite ?Zlen_app; lia). eexists. split; [reflexivity|].
  assert (take (Z.to_nat (Zlen h + i)) (h ++ R ++ 0 :: t) ++ xs ++ drop (Z.to_nat (Zlen h + i + Zlen xs)) (h ++ R ++ 0 :: t) = h ++ splice (Z.to_nat i) xs R ++ 0 :: t) as ->.
  { unfold Zlen in *. replace (Z.to_nat (Z.of_nat (length h) + i)) with (length h + Z.to_nat i)%nat by lia.
    replace (Z.to_nat (Z.of_nat (length h) + i + Z.of_nat (length xs))) with (length h + (Z.to_nat i + length xs))%nat by lia.
    rewrite take_app_add, drop_app_add, take_app_le, drop_app_le by lia. unfold splice. by rewrite <- !app_assoc. }
  apply Hframe. unfold Zlen in *. rewrite length_splice; lia.
Qed.

Lemma src_word_spec s K k : sds_rep s K -> 0 <= k -> 8 * k + 8 <= Zlen K -> forall l, src_word (Some s, l) k = Ret (le_value (slice (Z.to_nat (8 * k)) 8 K)).
Proof. intros Hs Hk Hl l. unfold src_word. cbn [fst]. by rewrite (read_slice s K), ret_bind by (done || lia). Qed.

Lemma res_word_spec s R k : sds_rep s R -> 0 <= k -> 8 * k + 8 <= Zlen R -> res_word s k = Ret (le_value (slice (Z.to_nat (8 * k)) 8 R)).
Proof. intros Hs Hk Hl. unfold res_word. by rewrite (read_slice s R), ret_bind by (done || lia). Qed.

(** [lres[k] = f(lres[k])], where [f] is a bitwise operation with a constant. *)
Lemma upd_word_spec F f (HF : forall a b i, 0 <= i -> Z.testbit (F a b) i = f (Z.testbit a i) (Z.testbit b i)) (Hff : f false false = false) res R k upd b :
  sds_rep res R -> Forall is_byte R -> 0 <= k -> 8 * k + 8 <= Zlen R -> length b = 8%nat -> Forall is_byte b ->
  (forall w, 0 <= w < 2 ^ 64 -> u64 (upd w) = u64 (F w (le_value b))) ->
  exists res', upd_word res k upd = Ret res' /\ sds_rep res' (on_range (Z.to_nat (8 * k)) 8 (fun j x => F x (byte_at b (j - Z.to_nat (8 * k)))) R).
Proof.
  intros Hs HR Hk Hl Hb Bb Hu. unfold upd_word. rewrite (res_word_spec res R) by done. rewrite ret_bind. set (i := Z.to_nat (8 * k)).
  assert (i + 8 <= length R)%nat as Hi by (unfold Zlen in Hl; lia). assert (length (slice i 8 R) = 8%nat) as Ls by by apply length_slice.
  pose proof (slice_bytes i 8 R HR) as Bs. pose proof (le_value_u64 _ Bs Ls) as Hw. rewrite Hu by exact Hw.
  rewrite (F_word F f HF Hff) by done. rewrite zip_slice by done.
  destruct (write_splice res R (8 * k) (slice i 8 (on_range i 8 (fun j x => F x (byte_at b (j - i))) R)) Hs) as (s' & E & Hs'); [lia| |].
  { unfold Zlen at 1. rewrite length_slice by (by rewrite length_on_range). lia. }
  exists s'. split; [done|]. fold i in Hs'. by rewrite splice_slice in Hs'.
Qed.

(** ** The loop on words *)

(** A key and its bytes. *)
Definition src_rep (src : bitop_src) (K : list Z) : Prop :=
  Forall is_byte K /\ src.2 = Zlen K /\ match src.1 with Some s => sds_rep s K | None => K = [] end.

Lemma src_rep_some src K : src_rep src K -> 0 < Zlen K -> exists s, src.1 = Some s /\ sds_rep s K.
Proof. intros (_ & _ & H) Hl. destruct src.1 as [s|]; [by exists s|by subst K]. Qed.

(** A step that updates the word [k] of the result, whose bytes are a function of the index and the old ones. *)
Definition word_step (L N R0 : Z) (step : sds -> Z -> outcome sds) (g : nat -> Z -> Z) : Prop :=
  forall res R k, sds_rep res R -> Forall is_byte R -> Zlen R = R0 -> R0 < 2 ^ 61 -> 0 <= L <= 8 * k -> 8 * k + 8 <= N -> N <= R0 ->
    exists res', step res k = Ret res' /\ sds_rep res' (on_range (Z.to_nat (8 * k)) 8 g R).

Definition byte_fun (g : nat -> Z -> Z) : Prop := forall j x, is_byte x -> is_byte (g j x).

Lemma four_spec L N R0 step g res R k : word_step L N R0 step g -> byte_fun g ->
  sds_rep res R -> Forall is_byte R -> Zlen R = R0 -> R0 < 2 ^ 61 -> 0 <= L <= 8 * k -> 8 * k + 32 <= N -> N <= R0 ->
  exists res', four step res k = Ret res' /\ sds_rep res' (on_range (Z.to_nat (8 * k)) 32 g R).
Proof.
  intros Hst Hg Hs HR Hl Hb Hk Hn HN. unfold four.
  destruct (Hst res R k) as (r1 & E1 & H1); [done|done|done|done|lia|lia|lia|]. rewrite E1, ret_bind.
  destruct (Hst r1 _ (k + 1) H1) as (r2 & E2 & H2); [by apply on_range_bytes|by rewrite Zlen_on_range|done|lia|lia|lia|]. rewrite E2, ret_bind.
  replace (Z.to_nat (8 * (k + 1))) with (Z.to_nat (8 * k) + 8)%nat in H2 by lia. rewrite on_range_join in H2. cbn [Nat.add] in H2.
  destruct (Hst r2 _ (k + 2) H2) as (r3 & E3 & H3); [by apply on_range_bytes|by rewrite Zlen_on_range|done|lia|lia|lia|]. rewrite E3, ret_bind.
  replace (Z.to_nat (8 * (k + 2))) with (Z.to_nat (8 * k) + 16)%nat in H3 by lia. rewrite on_range_join in H3. cbn [Nat.add] in H3.
  destruct (Hst r3 _ (k + 3) H3) as (r4 & E4 & H4); [by apply on_range_bytes|by rewrite Zlen_on_range|done|lia|lia|lia|]. rewrite E4.
  replace (Z.to_nat (8 * (k + 3))) with (Z.to_nat (8 * k) + 24)%nat in H4 by lia. rewrite on_range_join in H4. by exists r4.
Qed.

Lemma obind_ext {A B} (m : outcome A) (f g : A -> outcome B) : (forall a, f a = g a) -> (m ≫= f) = (m ≫= g).
Proof. intros H. destruct m; [apply H|done..]. Qed.

(** The four words in another numbering. *)
Lemma four_shift {A} (step1 step2 : A -> Z -> outcome A) a k : (forall a i, 0 <= i < 4 -> step1 a i = step2 a (k + i)) -> four step1 a 0 = four step2 a k.
Proof.
  intros H. unfold four. rewrite H by lia. rewrite Z.add_0_r. apply obind_ext. intros a1. rewrite H by lia. apply obind_ext. intros a2.
  rewrite H by lia. apply obind_ext. intros a3. by rewrite H by lia.
Qed.

Section bitwise_steps.
Context (F : Z -> Z -> Z) (f : bool -> bool -> bool).
Context (HF : forall a b i, 0 <= i -> Z.testbit (F a b) i = f (Z.testbit a i) (Z.testbit b i)) (Hff : f false false = false).

(** The words of a key. *)
Lemma key_step N R0 key K : src_rep key K -> N <= Zlen K ->
  word_step 0 N R0 (fun res k => w ← src_word key k; upd_word res k (fun r => F r w)) (fun j x => F x (byte_at K j)).
Proof.
  intros Hkey HNK res R k Hs HR Hl Hb Hk Hn HN. destruct (src_rep_some _ _ Hkey) as (s & Es & Hsk); [lia|]. destruct key as [o len]. cbn [fst] in Es. subst o.
  rewrite (src_word_spec s K k Hsk) by lia. rewrite ret_bind. set (i := Z.to_nat (8 * k)). assert (i + 8 <= length K)%nat as Hi by (unfold Zlen in HNK; lia).
  destruct (upd_word_spec F f HF Hff res R k (fun r => F r (le_value (slice i 8 K))) (slice i 8 K)) as (res' & E & Hr); [done|done|lia|lia|by apply length_slice|apply slice_bytes, Hkey|done|].
  exists res'. split; [done|]. fold i in Hr. erewrite on_range_ext; [exact Hr|]. intros j x Hj _. cbn beta. rewrite byte_at_slice by lia. do 2 f_equal. lia.
Qed.

Lemma keys_words_spec N keys : forall Ks res R k, Forall2 src_rep keys Ks -> Forall (fun K => N <= Zlen K) Ks ->
  sds_rep res R -> Forall is_byte R -> Zlen R < 2 ^ 61 -> 0 <= k -> 8 * k + 32 <= N -> N <= Zlen R ->
  exists res', keys_words F keys k res = Ret res' /\ sds_rep res' (on_range (Z.to_nat (8 * k)) 32 (fun j x => foldl (fun x K => F x (byte_at K j)) x Ks) R).
Proof.
  induction keys as [|key keys IH]; intros Ks res R k Hkeys HN Hs HR Hl Hk Hn HNR; inversion Hkeys as [|? K ? Ks' Hkey Hkeys']; subst; cbn [keys_words foldl].
  - exists res. split; [done|]. by rewrite on_range_id.
  - apply list.Forall_cons in HN as [HNK HN].
    assert (byte_fun (fun j x => F x (byte_at K j))) as Hbf by (intros j x Hx; apply (F_byte F f HF Hff); [done|apply byte_at_byte, Hkey]).
    destruct (four_spec 0 N (Zlen R) _ _ res R k (key_step N (Zlen R) key K Hkey HNK) Hbf Hs HR eq_refl Hl ltac:(lia) Hn HNR) as (r1 & -> & H1). rewrite ret_bind.
    destruct (IH Ks' r1 _ k Hkeys' HN H1) as (r2 & -> & H2); [by apply on_range_bytes|by rewrite Zlen_on_range|done|done|by rewrite Zlen_on_range|].
    exists r2. split; [done|]. by rewrite on_range_compose in H2.
Qed.
End bitwise_steps.

(** *** BITOP ONE *)

(** The bits seen an odd number of times, and those seen more than once. *)
Definition one_step (s : Z * Z) (y : Z) : Z * Z := (Z.lxor s.1 y, Z.lor s.2 (Z.land s.1 y)).

Definition words4 (C : list Z) : list Z := (fun i => le_value (slice (8 * i) 8 C)) <$> seq 0 4.

Lemma words4_lookup C i : (i < 4)%nat -> words4 C !! i = Some (le_value (slice (8 * i) 8 C)).
Proof. intros Hi. unfold words4. by rewrite list_lookup_fmap, lookup_seq_lt. Qed.

Lemma words4_step C R W (i : nat) : length C = 32%nat -> length R = 8%nat -> length W = 8%nat -> Forall is_byte C -> Forall is_byte R -> Forall is_byte W -> (i < 4)%nat ->
  (c ← rd (words4 C) (Z.of_nat i); wr (words4 C) (Z.of_nat i) (Z.lor c (Z.land (le_value R) (le_value W)))) =
  Ret (words4 (on_range (8 * i) 8 (fun j c => Z.lor c (Z.land (byte_at R (j - 8 * i)) (byte_at W (j - 8 * i)))) C)).
Proof.
  intros HC HR HW BC BR BW Hi. rewrite (rd_lookup _ _ (le_value (slice (8 * i) 8 C))), ret_bind by (lia || rewrite Nat2Z.id; by apply words4_lookup).
  rewrite wr_ok by (unfold words4, Zlen; rewrite length_fmap, length_seq; lia). f_equal. rewrite Nat2Z.id.
  rewrite (F_le_value Z.land andb) by (done || congruence || (intros; apply Z.land_spec)).
  pose proof (F_zip Z.land andb (fun a b i _ => Z.land_spec a b i) eq_refl R W BR BW) as Bz. assert (length (zip_with Z.land R W) = 8%nat) as Lz by (rewrite length_zip_with; lia).
  rewrite (F_le_value Z.lor orb) by ((intros; apply Z.lor_spec) || done || (rewrite length_slice by lia; lia) || by apply slice_bytes).
  rewrite (zip_slice Z.lor) by lia.
  apply list_eq. intros i'. destruct (decide (i' < 4)%nat) as [Hi'|Hi'].
  - rewrite (words4_lookup (on_range _ _ _ _)) by done. destruct (decide (i' = i)) as [->|Hne].
    + rewrite list_lookup_insert_eq by (unfold words4; rewrite length_fmap, length_seq; lia). do 3 f_equal. apply on_range_ext. intros j x Hj _. f_equal.
      unfold byte_at. rewrite lookup_zip_with. destruct (lookup_lt_is_Some_2 R (j - 8 * i)) as [r ->]; [lia|]. by destruct (lookup_lt_is_Some_2 W (j - 8 * i)) as [w ->]; [lia|].
    + rewrite list_lookup_insert_ne by done. rewrite words4_lookup by done. do 2 f_equal. rewrite slice_other by lia. done.
  - rewrite !lookup_ge_None_2; [done|unfold words4; rewrite length_fmap, length_seq; lia|rewrite length_insert; unfold words4; rewrite length_fmap, length_seq; lia].
Qed.

(** The bits seen more than once, after one more key. *)
Lemma common_four N key K res R C k : src_rep key K -> N <= Zlen K -> sds_rep res R -> Forall is_byte R -> length C = 32%nat -> Forall is_byte C ->
  0 <= k -> 8 * k + 32 <= N -> N <= Zlen R ->
  four (fun l i => r ← res_word res (k + i); w ← src_word key (k + i); c ← rd l i; wr l i (Z.lor c (Z.land r w))) (words4 C) 0 =
  Ret (words4 (on_range 0 32 (fun j c => Z.lor c (Z.land (byte_at R (Z.to_nat (8 * k) + j)) (byte_at K (Z.to_nat (8 * k) + j)))) C)).
Proof.
  intros Hkey HNK Hs HR HC BC Hk Hn HN. destruct (src_rep_some _ _ Hkey) as (s & Es & Hsk); [lia|]. destruct key as [o len]. cbn [fst] in Es. subst o.
  set (g := fun j c => Z.lor c _). assert (byte_fun g) as Hg.
  { intros j x Hx. apply (F_byte Z.lor orb); [intros; apply Z.lor_spec|done|done|]. apply (F_byte Z.land andb); [intros; apply Z.land_spec|done|by apply byte_at_byte|apply byte_at_byte, Hkey]. }
  assert (forall (i : nat) C', (i < 4)%nat -> length C' = 32%nat -> Forall is_byte C' ->
    (r ← res_word res (k + Z.of_nat i); w ← src_word (Some s, len) (k + Z.of_nat i); c ← rd (words4 C') (Z.of_nat i); wr (words4 C') (Z.of_nat i) (Z.lor c (Z.land r w))) =
    Ret (words4 (on_range (8 * i) 8 g C'))) as Hstep.
  { intros i C' Hi HC' BC'. rewrite (res_word_spec res R), ret_bind by (done || lia). rewrite (src_word_spec s K _ Hsk), ret_bind by lia.
    pose proof (slice_bytes (Z.to_nat (8 * (k + Z.of_nat i))) 8 R HR). pose proof (slice_bytes (Z.to_nat (8 * (k + Z.of_nat i))) 8 K ltac:(apply Hkey)).
    rewrite words4_step by (done || (apply length_slice; unfold Zlen in *; lia)). do 2 f_equal. apply on_range_ext. intros j x Hj _. unfold g. rewrite !byte_at_slice by lia. do 3 f_equal; lia. }
  unfold four. change 0 with (Z.of_nat 0). rewrite (Hstep 0%nat) by (done || lia). rewrite ret_bind.
  change (Z.of_nat 0 + 1) with (Z.of_nat 1). rewrite (Hstep 1%nat) by (lia || by rewrite ?length_on_range || by repeat apply on_range_bytes). rewrite ret_bind, (on_range_join 0 8 8).
  change (Z.of_nat 0 + 2) with (Z.of_nat 2). rewrite (Hstep 2%nat) by (lia || by rewrite ?length_on_range || by repeat apply on_range_bytes). rewrite ret_bind, (on_range_join 0 16 8).
  change (Z.of_nat 0 + 3) with (Z.of_nat 3). rewrite (Hstep 3%nat) by (lia || by rewrite ?length_on_range || by repeat apply on_range_bytes). by rewrite (on_range_join 0 24 8).
Qed.

Definition one_fold (Ks : list (list Z)) (j : nat) (s : Z * Z) : Z * Z := foldl (fun s K => one_step s (byte_at K j)) s Ks.

Lemma one_fold_fst Ks j x c c' : (one_fold Ks j (x, c)).1 = (one_fold Ks j (x, c')).1.
Proof. revert x c c'. induction Ks as [|K Ks IH]; intros x c c'; [done|]. apply IH. Qed.

Lemma keys_words_one_spec N keys : forall Ks res R C k, Forall2 src_rep keys Ks -> Forall (fun K => N <= Zlen K) Ks ->
  sds_rep res R -> Forall is_byte R -> Zlen R < 2 ^ 61 -> length C = 32%nat -> Forall is_byte C -> 0 <= k -> 8 * k + 32 <= N -> N <= Zlen R ->
  exists res' C', keys_words_one keys k res (words4 C) = Ret (res', words4 C') /\ length C' = 32%nat /\ Forall is_byte C' /\
    sds_rep res' (on_range (Z.to_nat (8 * k)) 32 (fun j x => (one_fold Ks j (x, 0)).1) R) /\
    (forall j, (j < 32)%nat -> byte_at C' j = (one_fold Ks (Z.to_nat (8 * k) + j) (byte_at R (Z.to_nat (8 * k) + j), byte_at C j)).2).
Proof.
  induction keys as [|key keys IH]; intros Ks res R C k Hkeys HN Hs HR Hl HC BC Hk Hn HNR; inversion Hkeys as [|? K ? Ks' Hkey Hkeys']; subst; cbn [keys_words_one].
  - exists res, C. rewrite on_range_id. done.
  - apply list.Forall_cons in HN as [HNK HN]. rewrite (common_four N key K res R C k) by done. rewrite ret_bind. set (C1 := on_range 0 32 _ C).
    assert (byte_fun (fun j x => Z.lxor x (byte_at K j))) as Hbf by (intros j x Hx; apply (F_byte Z.lxor xorb); [intros; apply Z.lxor_spec|done|done|apply byte_at_byte, Hkey]).
    destruct (four_spec 0 N (Zlen R) _ _ res R k (key_step Z.lxor xorb (fun a b i _ => Z.lxor_spec a b i) eq_refl N (Zlen R) key K Hkey HNK) Hbf Hs HR eq_refl Hl ltac:(lia) Hn HNR) as (r1 & -> & H1).
    rewrite ret_bind. set (R1 := on_range _ 32 _ R) in *. assert (Forall is_byte R1) as HR1 by by apply on_range_bytes.
    assert (length C1 = 32%nat) as HC1 by (unfold C1; by rewrite length_on_range).
    assert (Forall is_byte C1) as BC1.
    { apply on_range_bytes; [done|]. intros j x Hx. apply (F_byte Z.lor orb); [intros; apply Z.lor_spec|done|done|]. apply (F_byte Z.land andb); [intros; apply Z.land_spec|done|by apply byte_at_byte|apply byte_at_byte, Hkey]. }
    destruct (IH Ks' r1 R1 C1 k Hkeys' HN H1 HR1) as (r2 & C2 & -> & HC2 & BC2 & H2 & E2); [by unfold R1; rewrite Zlen_on_range|done|done|done|done|by unfold R1; rewrite Zlen_on_range|].
    exists r2, C2. split; [done|]. split; [done|]. split; [done|]. split.
    + unfold R1 in H2. rewrite on_range_compose in H2. erewrite on_range_ext; [exact H2|]. intros j x _ _. cbn beta. unfold one_fold. cbn [foldl]. apply one_fold_fst.
    + intros j Hj. rewrite (E2 j Hj). unfold one_fold. cbn [foldl]. do 2 f_equal. unfold one_step. cbn [fst snd]. unfold R1, C1, Zlen in *.
      rewrite !byte_at_on_range by lia. by rewrite !bool_decide_eq_true_2 by lia.
Qed.

(** *** A step, and the loops *)

(** A byte of the result of the loop on words. *)
Definition word_byte (op : bitop) (Ks : list (list Z)) (j : nat) (x : Z) : Z :=
  match op with
  | BITOP_AND => foldl (fun x K => Z.land x (byte_at K j)) x Ks
  | BITOP_OR | BITOP_DIFF | BITOP_DIFF1 | BITOP_ANDOR => foldl (fun x K => Z.lor x (byte_at K j)) x Ks
  | BITOP_XOR => foldl (fun x K => Z.lxor x (byte_at K j)) x Ks
  | BITOP_NOT => Z.lxor x 255
  | BITOP_ONE => let '(r, c) := one_fold Ks j (x, 0) in Z.ldiff r c
  end.

Lemma fold_byte F f (HF : forall a b i, 0 <= i -> Z.testbit (F a b) i = f (Z.testbit a i) (Z.testbit b i)) (Hff : f false false = false) Ks j x :
  Forall (Forall is_byte) Ks -> is_byte x -> is_byte (foldl (fun x K => F x (byte_at K j)) x Ks).
Proof. intros HK. revert x. induction HK as [|K Ks HK _ IH]; intros x Hx; [done|]. apply IH. apply (F_byte F f HF Hff); [done|by apply byte_at_byte]. Qed.

Lemma one_fold_byte Ks j s : Forall (Forall is_byte) Ks -> is_byte s.1 -> is_byte s.2 -> is_byte (one_fold Ks j s).1 /\ is_byte (one_fold Ks j s).2.
Proof.
  intros HK. revert s. induction HK as [|K Ks HK _ IH]; intros s H1 H2; [done|]. apply (IH (one_step s (byte_at K j))); unfold one_step; cbn [fst snd].
  - apply (F_byte Z.lxor xorb); [intros; apply Z.lxor_spec|done|done|by apply byte_at_byte].
  - apply (F_byte Z.lor orb); [intros; apply Z.lor_spec|done|done|]. apply (F_byte Z.land andb); [intros; apply Z.land_spec|done|done|by apply byte_at_byte].
Qed.

Lemma word_byte_byte op Ks j x : Forall (Forall is_byte) Ks -> is_byte x -> is_byte (word_byte op Ks j x).
Proof.
  intros HK Hx. destruct op; cbn [word_byte].
  - apply (fold_byte Z.land andb); [intros; apply Z.land_spec|done..].
  - apply (fold_byte Z.lor orb); [intros; apply Z.lor_spec|done..].
  - apply (fold_byte Z.lxor xorb); [intros; apply Z.lxor_spec|done..].
  - by apply (F_byte Z.lxor xorb); [intros; apply Z.lxor_spec| | |].
  - apply (fold_byte Z.lor orb); [intros; apply Z.lor_spec|done..].
  - apply (fold_byte Z.lor orb); [intros; apply Z.lor_spec|done..].
  - apply (fold_byte Z.lor orb); [intros; apply Z.lor_spec|done..].
  - pose proof (one_fold_byte Ks j (x, 0) HK Hx ltac:(done)) as [H1 H2]. destruct (one_fold Ks j (x, 0)) as [r c].
    apply (F_byte Z.ldiff (fun a b => a && negb b)); [intros; apply Z.ldiff_spec|done..].
Qed.

Lemma lnot_word w : 0 <= w < 2 ^ 64 -> u64 (Z.lnot w) = u64 (Z.lxor w (le_value (replicate 8 255))).
Proof.
  intros Hw. change (le_value (replicate 8 255)) with (Z.ones 64). unfold wrapu. apply Z.bits_inj'. intros i Hi.
  destruct (Z.lt_ge_cases i 64); [|by rewrite !Z.mod_pow2_bits_high by lia]. rewrite !Z.mod_pow2_bits_low by lia.
  rewrite Z.lnot_spec, Z.lxor_spec, Z.testbit_ones_nonneg by lia. rewrite (proj2 (Z.ltb_lt i 64)) by done. by destruct (Z.testbit w i).
Qed.

(** The bits seen more than once are cleared. *)
Lemma mask_step C R0 k : length C = 32%nat -> Forall is_byte C -> 0 <= k ->
  word_step (8 * k) (8 * k + 32) R0 (fun res k' => c ← rd (words4 C) (k' - k); upd_word res k' (fun r => Z.land r (Z.lnot c))) (fun j x => Z.ldiff x (byte_at C (j - Z.to_nat (8 * k)))).
Proof.
  intros HC BC Hk r R k' Hr HR Hl Hb HL Hn HN. set (i := Z.to_nat (k' - k)). assert (i < 4)%nat as Hi by lia.
  rewrite (rd_lookup _ _ (le_value (slice (8 * i) 8 C))), ret_bind by (lia || by apply words4_lookup).
  destruct (upd_word_spec Z.ldiff (fun a b => a && negb b) (fun a b i _ => Z.ldiff_spec a b i) eq_refl r R k' (fun r => Z.land r (Z.lnot (le_value (slice (8 * i) 8 C)))) (slice (8 * i) 8 C))
    as (r' & E & Hr'); [done|done|lia|lia|apply length_slice; lia|by apply slice_bytes|intros w _; by rewrite Z.ldiff_land|].
  exists r'. split; [done|]. erewrite on_range_ext; [exact Hr'|]. intros j x Hj _. cbn beta. rewrite byte_at_slice by lia. do 2 f_equal. lia.
Qed.

Lemma not_step N R0 : word_step 0 N R0 (fun res k => upd_word res k Z.lnot) (fun _ x => Z.lxor x 255).
Proof.
  intros r R k Hr HR Hl Hb Hk Hn HN.
  destruct (upd_word_spec Z.lxor xorb (fun a b i _ => Z.lxor_spec a b i) eq_refl r R k Z.lnot (replicate 8 255)) as (r' & E & Hr'); [done|done|lia|lia|done|by apply Forall_replicate|apply lnot_word|].
  exists r'. split; [done|]. erewrite on_range_ext; [exact Hr'|]. intros j x Hj _. cbn beta. unfold byte_at. by rewrite lookup_replicate_2 by lia.
Qed.

Lemma keys_are_bytes keys Ks : Forall2 src_rep keys Ks -> Forall (Forall is_byte) Ks.
Proof. induction 1 as [|? ? ? ? [? _] _ IH]; [done|]. by apply Forall_cons_2. Qed.

Section step.
Context (N : Z) (keys : list bitop_src) (Ks : list (list Z)) (Hkeys : Forall2 src_rep keys Ks) (HN : Forall (fun K => N <= Zlen K) Ks).

Lemma words_step_one res R k : sds_rep res R -> Forall is_byte R -> Zlen R < 2 ^ 61 -> 0 <= k -> 8 * k + 32 <= N -> N <= Zlen R ->
  exists res', words_step BITOP_ONE keys k res = Ret res' /\ sds_rep res' (on_range (Z.to_nat (8 * k)) 32 (word_byte BITOP_ONE Ks) R).
Proof.
  intros Hs HR Hl Hk Hn HNR. cbn [words_step]. change [0; 0; 0; 0] with (words4 (replicate 32 0)).
  destruct (keys_words_one_spec N keys Ks res R (replicate 32 0) k Hkeys HN Hs HR Hl eq_refl ltac:(by apply Forall_replicate) Hk Hn HNR) as (r1 & C & -> & HC & BC & H1 & EC). rewrite ret_bind.
  set (R1 := on_range _ 32 _ R) in *. assert (Forall is_byte R1) as HR1 by (apply on_range_bytes; [done|]; intros j x Hx; by apply one_fold_byte; [apply (keys_are_bytes keys), Hkeys|..]).
  assert (Zlen R1 = Zlen R) as Hl1 by (unfold R1; by rewrite Zlen_on_range).
  rewrite (four_shift _ (fun res k' => c ← rd (words4 C) (k' - k); upd_word res k' (fun r => Z.land r (Z.lnot c))) r1 k)
    by (intros a i Hi; cbn beta; by replace (k + i - k) with i by lia).
  destruct (four_spec _ _ (Zlen R) _ _ r1 R1 k (mask_step C (Zlen R) k HC BC Hk)) as (r2 & E2 & H2); [|done|done|done|done|lia|lia|lia|].
  { intros j x Hx. apply (F_byte Z.ldiff (fun a b => a && negb b)); [intros; apply Z.ldiff_spec|done|done|by apply byte_at_byte]. }
  exists r2. split; [done|]. unfold R1 in H2. rewrite on_range_compose in H2. erewrite on_range_ext; [exact H2|]. intros j x Hj Hx. cbn beta. unfold word_byte.
  rewrite (EC (j - Z.to_nat (8 * k))%nat) by lia. replace (Z.to_nat (8 * k) + (j - Z.to_nat (8 * k)))%nat with j by lia.
  replace (byte_at R j) with x by (unfold byte_at; by rewrite Hx). unfold byte_at at 1. rewrite lookup_replicate_2 by lia. cbn [default from_option id]. by destruct (one_fold Ks j (x, 0)).
Qed.

Lemma words_step_spec op res R k : sds_rep res R -> Forall is_byte R -> Zlen R < 2 ^ 61 -> 0 <= k -> 8 * k + 32 <= N -> N <= Zlen R ->
  exists res', words_step op keys k res = Ret res' /\ sds_rep res' (on_range (Z.to_nat (8 * k)) 32 (word_byte op Ks) R).
Proof.
  intros Hs HR Hl Hk Hn HNR.
  assert (exists res', keys_words Z.lor keys k res = Ret res' /\ sds_rep res' (on_range (Z.to_nat (8 * k)) 32 (fun j x => foldl (fun x K => Z.lor x (byte_at K j)) x Ks) R)) as Hor
    by (apply (keys_words_spec Z.lor orb (fun a b i _ => Z.lor_spec a b i) eq_refl N); done).
  destruct op; cbn [words_step]; try exact Hor; [| | |by apply words_step_one].
  - apply (keys_words_spec Z.land andb (fun a b i _ => Z.land_spec a b i) eq_refl N); done.
  - apply (keys_words_spec Z.lxor xorb (fun a b i _ => Z.lxor_spec a b i) eq_refl N); done.
  - apply (four_spec 0 N (Zlen R) _ _ res R k (not_step N (Zlen R))); try done; [|lia]. intros j x Hx. by apply (F_byte Z.lxor xorb); [intros; apply Z.lxor_spec| | |].
Qed.

(** [n] turns of the loop. *)
Lemma words_loop_spec op fuel : forall n res R k minlen, Z.of_nat n = minlen / 32 -> 0 <= minlen -> (n <= fuel)%nat ->
  sds_rep res R -> Forall is_byte R -> Zlen R < 2 ^ 61 -> 0 <= k -> 8 * k + minlen <= N -> N <= Zlen R ->
  exists res', words_loop fuel op keys k (8 * k) minlen res = Ret (res', 8 * k + 32 * Z.of_nat n) /\ sds_rep res' (on_range (Z.to_nat (8 * k)) (32 * n) (word_byte op Ks) R).
Proof.
  induction fuel as [|fuel IH]; intros n res R k minlen Hn Hm Hf Hs HR Hl Hk HkN HNR; cbn [words_loop]; (destruct (Z.ltb_spec minlen 32) as [Hlt|Hge];
    [rewrite Z.div_small in Hn by lia; assert (n = 0%nat) as -> by lia; exists res; rewrite Z.add_0_r; split; [done|]; by rewrite on_range_zero|]).
  - pose proof (Z.div_le_lower_bound minlen 32 1 ltac:(lia) ltac:(lia)). lia.
  - pose proof (Z.div_le_lower_bound minlen 32 1 ltac:(lia) ltac:(lia)). destruct n as [|n]; [lia|].
    destruct (words_step_spec op res R k Hs HR Hl Hk ltac:(lia) HNR) as (r1 & -> & H1). rewrite ret_bind.
    assert (Z.of_nat n = (minlen - 32) / 32) as Hn' by (replace (minlen - 32) with (minlen + (-1) * 32) by lia; rewrite Z.div_add by lia; lia).
    destruct (IH n r1 (on_range (Z.to_nat (8 * k)) 32 (word_byte op Ks) R) (k + 4) (minlen - 32) Hn') as (r2 & E & H2); [lia|lia|exact H1| |by rewrite Zlen_on_range|lia|lia|by rewrite Zlen_on_range|].
    { apply on_range_bytes; [done|]. intros j x Hx. apply word_byte_byte; [apply (keys_are_bytes keys), Hkeys|done]. }
    replace (8 * (k + 4)) with (8 * k + 32) in E, H2 by lia. rewrite E. exists r2. split; [ret_eq|].
    replace (Z.to_nat (8 * k + 32)) with (Z.to_nat (8 * k) + 32)%nat in H2 by lia. rewrite on_range_join in H2. by replace (32 * S n)%nat with (32 + 32 * n)%nat by lia.
Qed.
End step.

(** *** The part that all keys have *)

Definition combine_bit (op : bitop) (d b : bool) : bool :=
  match op with BITOP_DIFF => b && negb d | BITOP_DIFF1 => negb b && d | BITOP_ANDOR => b && d | _ => d end.

Lemma combine_spec op d b i : 0 <= i -> Z.testbit (combine_first op b d) i = combine_bit op (Z.testbit d i) (Z.testbit b i).
Proof. intros Hi. destruct op; cbn [combine_first combine_bit]; rewrite ?Z.land_spec, ?Z.lnot_spec by done; done. Qed.

Lemma combine_false op : combine_bit op false false = false.
Proof. by destruct op. Qed.

Lemma combine_byte op d b : is_byte d -> is_byte b -> is_byte (combine_first op b d).
Proof. apply (F_byte (fun d b => combine_first op b d) (combine_bit op)); [intros; by apply combine_spec|apply combine_false]. Qed.

Lemma first_loop_spec op first K0 fuel : forall n res R k, src_rep first K0 -> (n <= fuel)%nat -> sds_rep res R -> Forall is_byte R -> Zlen R < 2 ^ 61 -> 0 <= k ->
  8 * k + 32 * Z.of_nat n <= Zlen K0 -> 8 * k + 32 * Z.of_nat n <= Zlen R ->
  exists res', first_loop fuel op first k (8 * k) (8 * k + 32 * Z.of_nat n) res = Ret res' /\
    sds_rep res' (on_range (Z.to_nat (8 * k)) (32 * n) (fun j x => combine_first op (byte_at K0 j) x) R).
Proof.
  induction fuel as [|fuel IH]; intros n res R k Hfirst Hf Hs HR Hl Hk HK0 HRl; cbn [first_loop]; (destruct (Z.leb_spec (8 * k + 32 * Z.of_nat n) (8 * k)) as [Hle|Hgt];
    [assert (n = 0%nat) as -> by lia; exists res; split; [done|]; by rewrite on_range_zero|]); [lia|].
  destruct n as [|n]; [lia|]. set (g := fun j x => combine_first op (byte_at K0 j) x).
  assert (byte_fun g) as Hg by (intros j x Hx; apply combine_byte; [done|apply byte_at_byte, Hfirst]).
  pose proof (key_step (fun d b => combine_first op b d) (combine_bit op) (fun d b i Hi => combine_spec op d b i Hi) (combine_false op) (8 * k + 32) (Zlen R) first K0 Hfirst ltac:(lia)) as Hst.
  destruct (four_spec 0 (8 * k + 32) (Zlen R) _ _ res R k Hst Hg Hs HR eq_refl Hl) as (r1 & E1 & H1); [lia|lia|lia|].
  change (four (fun res k => f ← src_word first k; upd_word res k (combine_first op f)) res k = Ret r1) in E1. rewrite E1, ret_bind.
  destruct (IH n r1 (on_range (Z.to_nat (8 * k)) 32 g R) (k + 4) Hfirst) as (r2 & E2 & H2); [lia|done|by apply on_range_bytes|by rewrite Zlen_on_range|lia|lia|rewrite Zlen_on_range; lia|].
  replace (8 * (k + 4) + 32 * Z.of_nat n) with (8 * k + 32 * Z.of_nat (S n)) in E2 by lia. replace (8 * (k + 4)) with (8 * k + 32) in E2, H2 by lia.
  exists r2. split; [done|]. replace (Z.to_nat (8 * k + 32)) with (Z.to_nat (8 * k) + 32)%nat in H2 by lia. fold g in H2. rewrite on_range_join in H2. by replace (32 * S n)%nat with (32 + 32 * n)%nat by lia.
Qed.

Definition words_result (op : bitop) (K0 : list Z) (Ks : list (list Z)) (j : nat) : Z :=
  if is_disjunction op then combine_first op (byte_at K0 j) (word_byte op Ks j 0) else word_byte op Ks j (byte_at K0 j).

Lemma bitop_words_spec op first keys K0 Ks minlen maxlen res : src_rep first K0 -> Forall2 src_rep keys Ks -> 0 <= minlen <= Zlen K0 -> Forall (fun K => minlen <= Zlen K) Ks ->
  minlen <= maxlen < 2 ^ 61 -> sds_rep res (replicate (Z.to_nat maxlen) 0) ->
  exists res' R (n : nat), bitop_words op first keys minlen res = Ret (res', Z.of_nat n) /\ sds_rep res' R /\ Forall is_byte R /\ Zlen R = maxlen /\ Z.of_nat n <= minlen /\
    forall j, (j < n)%nat -> byte_at R j = words_result op K0 Ks j.
Proof.
  intros Hfirst Hkeys HK0 HKs Hmax Hs. unfold bitop_words. set (R0 := replicate (Z.to_nat maxlen) 0) in *.
  assert (Forall is_byte R0) as HR0 by by apply Forall_replicate. assert (Zlen R0 = maxlen) as Hl0 by (unfold R0, Zlen; rewrite length_replicate; lia).
  destruct (Z.ltb_spec minlen 32) as [Hlt|Hge]; [exists res, R0, 0%nat; do 4 (split; [done|]); split; [lia|]; intros j Hj; lia|].
  assert (exists r1 R1, (if is_disjunction op then Ret res else match first.1 with Some s => bs ← s_read s 0 minlen; s_write res 0 bs | None => OutOfBounds end) = Ret r1 /\ sds_rep r1 R1 /\
    Forall is_byte R1 /\ Zlen R1 = maxlen /\ forall j, (j < Z.to_nat minlen)%nat -> byte_at R1 j = if is_disjunction op then 0 else byte_at K0 j) as (r1 & R1 & -> & H1 & HR1 & Hl1 & EC).
  { destruct (is_disjunction op).
    - exists res, R0. do 4 (split; [done|]). intros j Hj. unfold byte_at, R0. unfold Zlen in *. by rewrite lookup_replicate_2 by lia.
    - destruct (src_rep_some _ _ Hfirst) as (s & -> & Hsk); [lia|]. rewrite (read_slice s K0), ret_bind by (done || lia). change (Z.to_nat 0) with 0%nat. set (xs := slice 0 (Z.to_nat minlen) K0).
      assert (length xs = Z.to_nat minlen) as Lx by (apply length_slice; unfold Zlen in *; lia).
      destruct (write_splice res R0 0 xs Hs) as (r1 & E & H1); [lia|unfold Zlen in *; lia|]. change (Z.to_nat 0) with 0%nat in H1. exists r1, (splice 0 xs R0). split; [done|]. split; [done|].
      split; [|split].
      + unfold splice. apply Forall_app_2; [by apply Forall_take|]. apply Forall_app_2; [apply slice_bytes, Hfirst|by apply Forall_drop].
      + unfold Zlen in *. rewrite length_splice; lia.
      + intros j Hj. unfold byte_at at 1, splice. change (take 0 R0) with (@nil Z). cbn [app]. rewrite (lookup_app_l xs) by lia. fold (byte_at xs j). unfold xs. by rewrite byte_at_slice. }
  rewrite ret_bind. set (n := Z.to_nat (minlen / 32)). pose proof (Z.div_mod minlen 32 ltac:(lia)) as Ed. pose proof (Z.mod_pos_bound minlen 32 ltac:(lia)) as Rm. pose proof (Z.div_pos minlen 32 ltac:(lia) ltac:(lia)).
  assert (Z.of_nat n = minlen / 32) as En by (unfold n; lia). clearbody n.
  destruct (words_loop_spec minlen keys Ks Hkeys HKs op (Z.to_nat minlen) n r1 R1 0 minlen) as (r2 & E2 & H2); [lia|lia|lia|done|done|lia|lia|lia|lia|].
  change (8 * 0) with 0 in E2, H2. rewrite E2, ret_bind. rewrite Z.add_0_l in *. change (Z.to_nat 0) with 0%nat in H2. set (R2 := on_range 0 (32 * n) (word_byte op Ks) R1) in *.
  assert (Forall is_byte R2) as HR2 by (apply on_range_bytes; [done|]; intros j x Hx; apply word_byte_byte; [by apply (keys_are_bytes keys)|done]).
  assert (Zlen R2 = maxlen) as Hl2 by (unfold R2; by rewrite Zlen_on_range).
  assert (forall j, (j < 32 * n)%nat -> byte_at R2 j = word_byte op Ks j (if is_disjunction op then 0 else byte_at K0 j)) as E3.
  { intros j Hj. unfold R2, Zlen in *. rewrite byte_at_on_range, bool_decide_eq_true_2, EC by lia. done. }
  unfold words_result. destruct (is_disjunction op).
  - destruct (first_loop_spec op first K0 (Z.to_nat minlen) n r2 R2 0 Hfirst) as (r3 & E4 & H4); [lia|done|done|lia|lia|lia|lia|].
    change (8 * 0) with 0 in E4, H4. rewrite Z.add_0_l in E4. rewrite E4, ret_bind. eexists r3, _, (32 * n)%nat. split; [do 2 f_equal; lia|]. split; [exact H4|].
    split; [apply on_range_bytes; [done|]; intros j x Hx; apply combine_byte; [done|apply byte_at_byte, Hfirst]|]. split; [by rewrite Zlen_on_range|]. split; [lia|].
    intros j Hj. change (Z.to_nat 0) with 0%nat. unfold Zlen in *. rewrite byte_at_on_range, bool_decide_eq_true_2, E3 by lia. done.
  - exists r2, R2, (32 * n)%nat. split; [do 2 f_equal; lia|]. split; [done|]. split; [done|]. split; [done|]. split; [lia|]. exact E3.
Qed.

(** ** The loop on bytes *)

(** BITOP ONE on bytes: the bits seen once, those seen more than once. *)
Definition one_byte (s : Z * Z) (y : Z) : Z * Z :=
  let c := Z.lor s.2 (Z.land s.1 y) in (Z.land (Z.lxor s.1 y) (u8 (Z.lnot c)), c).

Definition bytes_result (op : bitop) (K0 : list Z) (Ks : list (list Z)) (j : nat) : Z :=
  let x := byte_at K0 j in
  let ys := (fun K => byte_at K j) <$> Ks in
  match op with
  | BITOP_AND => foldl Z.land x ys
  | BITOP_OR => foldl Z.lor x ys
  | BITOP_XOR => foldl Z.lxor x ys
  | BITOP_NOT => u8 (Z.lnot x)
  | BITOP_ONE => (foldl one_byte (x, 0) ys).1
  | _ => combine_first op x (foldl Z.lor 0 ys)
  end.

Lemma src_byte_spec src K j : src_rep src K -> 0 <= j -> src_byte src j = Ret (byte_at K (Z.to_nat j)).
Proof.
  intros (_ & El & Hs) Hj. unfold src_byte, byte_at. rewrite El. destruct (Z.leb_spec (Zlen K) j) as [Hle|Hlt].
  - by rewrite lookup_ge_None_2 by (unfold Zlen in Hle; lia).
  - destruct src.1 as [s|]; [|subst K; change (Zlen (@nil Z)) with 0 in Hlt; lia]. rewrite (sds_rep_get s K) by (done || lia).
    destruct (lookup_lt_is_Some_2 K (Z.to_nat j)) as [x Hx]; [unfold Zlen in Hlt; lia|]. rewrite Hx. by apply rd_lookup.
Qed.

(** The values at which the loop over the keys stops early stay. *)
Lemma land_stays ys : foldl Z.land 0 ys = 0.
Proof. induction ys; [done|]. cbn [foldl]. by rewrite Z.land_0_l. Qed.

Lemma lor_255 y : is_byte y -> Z.lor 255 y = 255.
Proof. intros Hy. apply Z.eqb_eq. revert y Hy. apply byte_forallb. vm_compute. reflexivity. Qed.

Lemma lor_stays ys : Forall is_byte ys -> foldl Z.lor 255 ys = 255.
Proof. induction 1 as [|y ys Hy _ IH]; [done|]. cbn [foldl]. by rewrite lor_255. Qed.

Lemma one_stays ys : Forall is_byte ys -> foldl one_byte (0, 255) ys = (0, 255).
Proof.
  induction 1 as [|y ys Hy _ IH]; [done|]. cbn [foldl]. assert (one_byte (0, 255) y = (0, 255)) as ->; [|done].
  unfold one_byte. cbn [fst snd]. rewrite Z.land_0_l, Z.lor_0_r. change (u8 (Z.lnot 255)) with 0. by rewrite Z.land_0_r.
Qed.

Lemma keys_byte_spec op keys : forall Ks j output disjunction common, Forall2 src_rep keys Ks -> 0 <= j ->
  let ys := (fun K => byte_at K (Z.to_nat j)) <$> Ks in
  keys_byte op keys j output disjunction common = Ret (
    match op with
    | BITOP_AND => (foldl Z.land output ys, disjunction)
    | BITOP_OR => (foldl Z.lor output ys, disjunction)
    | BITOP_XOR => (foldl Z.lxor output ys, disjunction)
    | BITOP_NOT => (output, disjunction)
    | BITOP_ONE => ((foldl one_byte (output, common) ys).1, disjunction)
    | _ => (output, foldl Z.lor disjunction ys)
    end).
Proof.
  induction keys as [|key keys IH]; intros Ks j output d c Hkeys Hj ys; inversion Hkeys as [|? K ? Ks' Hkey Hkeys']; subst; cbn [keys_byte]; [by destruct op|].
  rewrite (src_byte_spec key K j Hkey Hj), ret_bind. subst ys. cbn [fmap list_fmap map]. set (y := byte_at K (Z.to_nat j)).
  assert (Forall is_byte ((fun K => byte_at K (Z.to_nat j)) <$> Ks')) as Hys.
  { apply list.Forall_fmap. eapply list.Forall_impl; [exact (keys_are_bytes _ _ Hkeys')|]. intros K' HK'. by apply byte_at_byte. }
  destruct op; cbn [foldl].
  - destruct (Z.eqb_spec (Z.land output y) 0) as [->|_]; [by rewrite land_stays|]. by apply (IH Ks').
  - destruct (Z.eqb_spec (Z.lor output y) 255) as [->|_]; [by rewrite lor_stays|]. by apply (IH Ks').
  - by apply (IH Ks').
  - by apply (IH Ks').
  - destruct (Z.eqb_spec (Z.lor d y) 255) as [->|_]; [by rewrite lor_stays|]. by apply (IH Ks').
  - destruct (Z.eqb_spec (Z.lor d y) 255) as [->|_]; [by rewrite lor_stays|]. by apply (IH Ks').
  - destruct (Z.eqb_spec (Z.lor d y) 255) as [->|_]; [by rewrite lor_stays|]. by apply (IH Ks').
  - set (c' := Z.lor c (Z.land output y)). set (o' := Z.land (Z.lxor output y) (u8 (Z.lnot c'))).
    change (one_byte (output, c) y) with (o', c'). destruct (Z.eqb_spec c' 255) as [E|Hne].
    + assert (o' = 0) as -> by (unfold o'; rewrite E; change (u8 (Z.lnot 255)) with 0; apply Z.land_0_r). by rewrite E, one_stays.
    + by apply (IH Ks').
Qed.

(** ** The two loops compute the same bits *)

Section bits.
Context (op : bitop) (K0 : list Z) (Ks : list (list Z)) (j : nat) (k : Z) (Hk : 0 <= k < 8).

Definition key_bits : list bool := (fun K => Z.testbit (byte_at K j) k) <$> Ks.

Lemma fold_testbit F f (HF : forall a b i, 0 <= i -> Z.testbit (F a b) i = f (Z.testbit a i) (Z.testbit b i)) x :
  Z.testbit (foldl (fun x K => F x (byte_at K j)) x Ks) k = foldl f (Z.testbit x k) key_bits.
Proof. unfold key_bits. revert x. induction Ks as [|K Ks' IH]; intros x; [done|]. cbn [foldl fmap list_fmap]. by rewrite IH, HF by lia. Qed.

Lemma fold_and b l : foldl andb b l = forallb id (b :: l).
Proof. revert b. induction l as [|c l IH]; intros b; cbn [foldl forallb]; [by destruct b|]. rewrite IH. cbn [forallb]. by destruct b, c. Qed.

Lemma fold_or b l : foldl orb b l = any (b :: l).
Proof. unfold any. revert b. induction l as [|c l IH]; intros b; cbn [foldl existsb]; [by destruct b|]. rewrite IH. cbn [existsb]. by destruct b, c. Qed.

(** Counting, odd and above one. *)
Lemma odd_step b n c : Z.odd n = b -> xorb b c = Z.odd (n + Z.b2z c).
Proof. intros <-. rewrite Z.odd_add. by destruct c. Qed.

Lemma one_fold_testbit s n : 0 <= n -> Z.testbit s.1 k = Z.odd n -> Z.testbit s.2 k = (2 <=? n) ->
  Z.testbit (one_fold Ks j s).1 k = Z.odd (n + ones key_bits) /\ Z.testbit (one_fold Ks j s).2 k = (2 <=? n + ones key_bits).
Proof.
  unfold key_bits, one_fold. revert s n. induction Ks as [|K Ks' IH]; intros s n Hn H1 H2; [by rewrite Z.add_0_r|].
  cbn [foldl]. change ((fun K => Z.testbit (byte_at K j) k) <$> K :: Ks') with (Z.testbit (byte_at K j) k :: ((fun K => Z.testbit (byte_at K j) k) <$> Ks')). rewrite ones_cons.
  set (b := Z.testbit (byte_at K j) k). set (l := (fun K => Z.testbit (byte_at K j) k) <$> Ks') in *. replace (n + (Z.b2z b + ones l)) with (n + Z.b2z b + ones l) by lia.
  apply IH; unfold one_step; cbn [fst snd]; [destruct b; cbn; lia| |].
  - rewrite Z.lxor_spec, H1. fold b. by apply odd_step.
  - rewrite Z.lor_spec, Z.land_spec, H1, H2. fold b. destruct b; cbn [Z.b2z]; [|by rewrite andb_false_r, orb_false_r, Z.add_0_r]. rewrite andb_true_r.
    assert (n = 0 \/ n = 1 \/ 2 <= n) as [->|[->|H2n]] by lia; [done|done|]. rewrite (proj2 (Z.leb_le 2 n)), (proj2 (Z.leb_le 2 (n + 1))) by lia. done.
Qed.

Lemma one_byte_testbit s n : 0 <= n -> Z.testbit s.1 k = (n =? 1) -> Z.testbit s.2 k = (2 <=? n) ->
  Z.testbit (foldl one_byte s ((fun K => byte_at K j) <$> Ks)).1 k = (n + ones key_bits =? 1).
Proof.
  unfold key_bits. revert s n. induction Ks as [|K Ks' IH]; intros s n Hn H1 H2; [by rewrite Z.add_0_r|].
  change ((fun K => Z.testbit (byte_at K j) k) <$> K :: Ks') with (Z.testbit (byte_at K j) k :: ((fun K => Z.testbit (byte_at K j) k) <$> Ks')). rewrite ones_cons. cbn [fmap list_fmap foldl].
  set (b := Z.testbit (byte_at K j) k). set (l := (fun K => Z.testbit (byte_at K j) k) <$> Ks') in *. replace (n + (Z.b2z b + ones l)) with (n + Z.b2z b + ones l) by lia.
  assert (Z.testbit (Z.lor s.2 (Z.land s.1 (byte_at K j))) k = (2 <=? n + Z.b2z b)) as E2.
  { rewrite Z.lor_spec, Z.land_spec, H1, H2. fold b. destruct b; cbn [Z.b2z]; destruct (Z.leb_spec 2 n), (Z.eqb_spec n 1); lia. }
  apply IH; unfold one_byte; cbn [fst snd]; [destruct b; cbn; lia| |exact E2].
  unfold wrapu. rewrite Z.land_spec, Z.lxor_spec, Z.mod_pow2_bits_low, Z.lnot_spec, E2, H1 by lia. fold b.
  destruct b; cbn [Z.b2z]; destruct (Z.leb_spec 2 (n + 1)), (Z.leb_spec 2 (n + 0)), (Z.eqb_spec n 1), (Z.eqb_spec (n + 1) 1), (Z.eqb_spec (n + 0) 1); lia || done.
Qed.

Definition result_bit : bool := bitop_bit op (Z.testbit (byte_at K0 j) k) key_bits.

Lemma bytes_result_bit : Z.testbit (bytes_result op K0 Ks j) k = result_bit.
Proof.
  assert (forall F f (HF : forall a b i, 0 <= i -> Z.testbit (F a b) i = f (Z.testbit a i) (Z.testbit b i)) x, Z.testbit (foldl F x ((fun K => byte_at K j) <$> Ks)) k = foldl f (Z.testbit x k) key_bits) as Hf.
  { intros F f HF x. rewrite <- (fold_testbit F f HF). clear. revert x. induction Ks as [|K Ks' IH]; intros x; [done|]. cbn [fmap list_fmap foldl]. apply IH. }
  assert (any (false :: key_bits) = any key_bits) as Hany by done.
  unfold result_bit, bytes_result. cbv zeta. destruct op; cbn [bitop_bit].
  - rewrite (Hf Z.land andb) by (intros; apply Z.land_spec). apply fold_and.
  - rewrite (Hf Z.lor orb) by (intros; apply Z.lor_spec). apply fold_or.
  - rewrite (Hf Z.lxor xorb) by (intros; apply Z.lxor_spec). done.
  - unfold wrapu. by rewrite Z.mod_pow2_bits_low, Z.lnot_spec by lia.
  - rewrite combine_spec, (Hf Z.lor orb), fold_or, Z.bits_0, Hany by (lia || (intros; apply Z.lor_spec)). done.
  - rewrite combine_spec, (Hf Z.lor orb), fold_or, Z.bits_0, Hany by (lia || (intros; apply Z.lor_spec)). done.
  - rewrite combine_spec, (Hf Z.lor orb), fold_or, Z.bits_0, Hany by (lia || (intros; apply Z.lor_spec)). done.
  - rewrite ones_cons. apply one_byte_testbit; cbn [fst snd]; [destruct (Z.testbit _ _); done|by destruct (Z.testbit (byte_at K0 j) k)|]. rewrite Z.bits_0. by destruct (Z.testbit (byte_at K0 j) k).
Qed.

Lemma words_result_bit : Z.testbit (words_result op K0 Ks j) k = result_bit.
Proof.
  assert (Z.testbit (foldl (fun x K => Z.lor x (byte_at K j)) 0 Ks) k = any key_bits) as Hor by (rewrite (fold_testbit Z.lor orb), fold_or, Z.bits_0 by (intros; apply Z.lor_spec); done).
  unfold result_bit, words_result. destruct op; cbn [is_disjunction bitop_bit word_byte].
  - rewrite (fold_testbit Z.land andb) by (intros; apply Z.land_spec). apply fold_and.
  - rewrite (fold_testbit Z.lor orb) by (intros; apply Z.lor_spec). apply fold_or.
  - rewrite (fold_testbit Z.lxor xorb) by (intros; apply Z.lxor_spec). done.
  - rewrite Z.lxor_spec. change 255 with (Z.ones 8). rewrite Z.testbit_ones_nonneg by lia. rewrite (proj2 (Z.ltb_lt k 8)) by lia. apply xorb_true_r.
  - rewrite combine_spec, Hor by lia. done.
  - rewrite combine_spec, Hor by lia. done.
  - rewrite combine_spec, Hor by lia. done.
  - set (x := byte_at K0 j). destruct (one_fold_testbit (x, 0) (Z.b2z (Z.testbit x k))) as [H1 H2]; cbn [fst snd]; [by destruct (Z.testbit x k)|by destruct (Z.testbit x k)|rewrite Z.bits_0; by destruct (Z.testbit x k)|].
    destruct (one_fold Ks j (x, 0)) as [r c]. cbn [fst snd] in H1, H2. rewrite Z.ldiff_spec, H1, H2, ones_cons. set (m := Z.b2z _ + ones key_bits).
    assert (0 <= m) as Hm by (unfold m; pose proof (ones_nonneg key_bits); destruct (Z.testbit x k); cbn; lia).
    clearbody m. assert (m = 0 \/ m = 1 \/ 2 <= m) as [->|[->|H2m]] by lia; [done|done|].
    rewrite (proj2 (Z.leb_le 2 m)), (proj2 (Z.eqb_neq m 1)) by lia. apply andb_false_r.
Qed.
End bits.

(** ** The command *)

Lemma bytes_result_byte op K0 Ks j : Forall is_byte K0 -> Forall (Forall is_byte) Ks -> is_byte (bytes_result op K0 Ks j).
Proof.
  intros HK0 HKs. unfold bytes_result. cbv zeta. pose proof (byte_at_byte K0 j HK0) as Hx. set (x := byte_at K0 j) in *.
  assert (Forall is_byte ((fun K => byte_at K j) <$> Ks)) as Hys by (apply list.Forall_fmap; eapply list.Forall_impl; [exact HKs|]; intros K HK; by apply byte_at_byte).
  assert (forall F f (HF : forall a b i, 0 <= i -> Z.testbit (F a b) i = f (Z.testbit a i) (Z.testbit b i)) (Hff : f false false = false) z, is_byte z -> is_byte (foldl F z ((fun K => byte_at K j) <$> Ks))) as Hf.
  { intros F f HF Hff. clear Hx x HKs. induction Hys as [|y ys Hy _ IH]; intros z Hz; [done|]. cbn [foldl]. apply IH. by apply (F_byte F f HF Hff). }
  assert (is_byte (foldl Z.lor 0 ((fun K => byte_at K j) <$> Ks))) as Hor by (apply (Hf Z.lor orb); [intros; apply Z.lor_spec|done|done]).
  destruct op; try (by apply combine_byte).
  - apply (Hf Z.land andb); [intros; apply Z.land_spec|done|done].
  - apply (Hf Z.lor orb); [intros; apply Z.lor_spec|done|done].
  - apply (Hf Z.lxor xorb); [intros; apply Z.lxor_spec|done|done].
  - by apply wrapu_range.
  - assert (forall s, is_byte s.1 -> is_byte (foldl one_byte s ((fun K => byte_at K j) <$> Ks)).1) as Ho; [|by apply Ho].
    clear Hor Hf Hx x HKs. induction Hys as [|y ys Hy _ IH]; intros s Hs; [done|]. cbn [foldl]. apply IH. unfold one_byte. cbn [fst snd]. apply land_byte.
    apply (F_byte Z.lxor xorb); [intros; apply Z.lxor_spec|done..].
Qed.

Lemma bitop_bytes_loop_spec op first keys K0 Ks n : forall j res R, src_rep first K0 -> Forall2 src_rep keys Ks -> sds_rep res R -> Forall is_byte R -> (j + n <= length R)%nat ->
  exists res' R', bytes_loop n op first keys (Z.of_nat j) res = Ret res' /\ sds_rep res' R' /\ Forall is_byte R' /\ length R' = length R /\
    (forall i, (i < j)%nat -> byte_at R' i = byte_at R i) /\ (forall i, (j <= i < j + n)%nat -> byte_at R' i = bytes_result op K0 Ks i).
Proof.
  induction n as [|n IH]; intros j res R Hfirst Hkeys Hs HR Hl; cbn [bytes_loop]; [exists res, R; do 4 (split; [done|]); split; [done|]; intros i Hi; lia|].
  rewrite (src_byte_spec first K0), ret_bind by (done || lia). rewrite Nat2Z.id. rewrite (keys_byte_spec op keys Ks) by (done || lia). rewrite ret_bind, Nat2Z.id.
  pose proof (bytes_result_byte op K0 Ks j ltac:(apply Hfirst) (keys_are_bytes _ _ Hkeys)) as Hv.
  assert (exists r1, s_put res (Z.of_nat j) (bytes_result op K0 Ks j) = Ret r1 /\ sds_rep r1 (<[j := bytes_result op K0 Ks j]> R)) as (r1 & E & H1).
  { destruct (rep_frame res R Hs) as (h & t & -> & Hframe). unfold s_put. cbn [sds_block sds_pos]. rewrite wr_in, ret_bind by (unfold Zlen; lia). rewrite Nat2Z.id, (wrapu_id 8) by exact Hv.
    eexists. split; [done|]. apply Hframe. unfold Zlen. by rewrite length_insert. }
  destruct (IH (S j) r1 (<[j := bytes_result op K0 Ks j]> R) Hfirst Hkeys H1) as (r2 & R2 & E2 & H2 & HR2 & Hl2 & Elow & Ehigh); [by apply Forall_insert|rewrite length_insert; lia|].
  exists r2, R2. replace (Z.of_nat (S j)) with (Z.of_nat j + 1) in E2 by lia. split.
  { revert E. unfold bytes_result. cbv zeta. destruct op; cbn [is_disjunction]; intros E; rewrite E, ret_bind; exact E2. }
  split; [done|]. split; [done|]. rewrite length_insert in Hl2. split; [done|]. split; intros i Hi.
  - rewrite Elow by lia. unfold byte_at. by rewrite list_lookup_insert_ne by lia.
  - destruct (decide (i = j)) as [->|Hne]; [|apply Ehigh; lia]. rewrite Elow by lia. unfold byte_at at 1. by rewrite list_lookup_insert_eq by lia.
Qed.

Section command.
Context `{AllocFits}.

Lemma bitop_compute_spec op first keys K0 Ks minlen maxlen : src_rep first K0 -> Forall2 src_rep keys Ks -> 0 <= minlen <= Zlen K0 -> Forall (fun K => minlen <= Zlen K) Ks ->
  minlen <= maxlen < 2 ^ 61 -> exists s bs, bitop_compute op first keys minlen maxlen = Ret s /\ sds_rep s bs /\ Forall is_byte bs /\ Zlen bs = maxlen /\
    forall j k, 0 <= Z.of_nat j < maxlen -> 0 <= k < 8 -> Z.testbit (byte_at bs j) k = result_bit op K0 Ks j k.
Proof.
  intros Hfirst Hkeys HK0 HKs Hmax. unfold bitop_compute. destruct (sdsnewlen_spec InitZero maxlen) as (r0 & R0 & -> & _ & HR0 & H0'); [lia|done|]. cbn [init_bytes] in HR0. subst R0. rewrite ret_bind.
  destruct (bitop_words_spec op first keys K0 Ks minlen maxlen r0 Hfirst Hkeys HK0 HKs Hmax H0') as (r1 & R1 & n & -> & H1 & HR1 & Hl1 & Hn & E1). rewrite ret_bind.
  destruct (bitop_bytes_loop_spec op first keys K0 Ks (Z.to_nat (maxlen - Z.of_nat n)) n r1 R1 Hfirst Hkeys H1 HR1) as (r2 & R2 & -> & H2 & HR2 & Hl2 & Elow & Ehigh); [unfold Zlen in *; lia|].
  exists r2, R2. split; [done|]. split; [done|]. split; [done|]. split; [unfold Zlen in *; lia|]. intros j k Hj Hk.
  destruct (decide (j < n)%nat) as [Hlt|Hge].
  - rewrite Elow, E1 by done. by apply words_result_bit.
  - rewrite Ehigh by lia. by apply bytes_result_bit.
Qed.

Context (lookupKeyRead : sds -> option kvobj).

(** The lengths the code computes over the keys. *)
Definition min_len (j mn : Z) (Ks : list (list Z)) : Z := (foldl (fun '(j, mn) K => (j + 1, if (j =? 0) || (Zlen K <? mn) then Zlen K else mn)) (j, mn) Ks).2.
Definition max_len (mx : Z) (Ks : list (list Z)) : Z := foldl (fun mx K => Z.max mx (Zlen K)) mx Ks.

Lemma bitop_sources_spec names : forall vs j mn mx, Forall2 (fun name v => kv_value (lookupKeyRead name) v) names vs -> 0 <= j -> 0 <= mn -> 0 <= mx ->
  (existsb is_wrong vs = true /\ bitop_sources lookupKeyRead names j mn mx = Ret None) \/
  (existsb is_wrong vs = false /\ exists srcs, bitop_sources lookupKeyRead names j mn mx = Ret (Some (srcs, min_len j mn (bytes_of <$> vs), max_len mx (bytes_of <$> vs))) /\
    Forall2 src_rep srcs (bytes_of <$> vs)).
Proof.
  induction names as [|name names IH]; intros vs j mn mx Hv Hj Hmn Hmx; inversion Hv as [|? v ? vs' Hv1 Hvs]; subst; cbn [bitop_sources existsb]; [right; split; [done|]; by exists []|].
  pose proof (checkType_spec _ _ Hv1) as Hct. destruct (bytes_of_ok _ _ Hv1) as [Hb Hl]. pose proof (Zlen_nonneg (bytes_of v)) as Hpos.
  destruct v as [|bs|]; cbn [is_wrong orb].
  - destruct (lookupKeyRead name) as [[]|] eqn:El; try done.
    assert ((if (j =? 0) || (0 <? mn) then 0 else mn) = 0) as Emn by (destruct (Z.eqb_spec j 0); [done|]; destruct (Z.ltb_spec 0 mn); cbn [orb]; lia).
    destruct (IH vs' (j + 1) 0 mx Hvs) as [[Hw ->]|[Hw (srcs & -> & Hs)]]; [lia|lia|lia|left; by rewrite ret_bind|right]. split; [done|]. rewrite ret_bind. eexists. split.
    + unfold min_len, max_len. cbn [fmap list_fmap foldl bytes_of]. change (Zlen (@nil Z)) with 0. rewrite Emn, Z.max_l by lia. reflexivity.
    + apply Forall2_cons; [by split|done].
  - destruct (lookupKeyRead name) as [kv|] eqn:El; [|done]. rewrite Hct. destruct (decoded_string_spec kv bs Hv1) as (s & -> & Hs). rewrite ret_bind, (rep_len _ _ Hs), ret_bind. cbn [bytes_of] in *.
    assert ((if mx <? Zlen bs then Zlen bs else mx) = Z.max mx (Zlen bs)) as Emx by (destruct (Z.ltb_spec mx (Zlen bs)); lia).
    destruct (IH vs' (j + 1) (if (j =? 0) || (Zlen bs <? mn) then Zlen bs else mn) (if mx <? Zlen bs then Zlen bs else mx) Hvs) as [[Hw ->]|[Hw (srcs & -> & Hsr)]];
      [lia|destruct (_ || _); lia|rewrite Emx; lia|left; by rewrite ret_bind|right]. split; [done|]. rewrite ret_bind. eexists. split.
    + unfold min_len, max_len. cbn [fmap list_fmap foldl bytes_of]. by rewrite Emx.
    + apply Forall2_cons; [by split|done].
  - left. split; [done|]. destruct (lookupKeyRead name) as [kv|]; [|done]. by rewrite Hct.
Qed.

Lemma min_len_le Ks : forall j mn, 0 < j -> 0 <= mn -> 0 <= min_len j mn Ks <= mn /\ Forall (fun K => min_len j mn Ks <= Zlen K) Ks.
Proof.
  unfold min_len. induction Ks as [|K Ks IH]; intros j mn Hj Hmn; [split; [done|done]|]. cbn [foldl]. rewrite (proj2 (Z.eqb_neq j 0)) by lia. cbn [orb].
  pose proof (Zlen_nonneg K). set (m := if Zlen K <? mn then Zlen K else mn). assert (0 <= m <= mn /\ m <= Zlen K) as [Hm HmK] by (unfold m; destruct (Z.ltb_spec (Zlen K) mn); lia).
  destruct (IH (j + 1) m) as [Hle Hall]; [lia|lia|]. split; [lia|]. apply Forall_cons_2; [lia|done].
Qed.

Lemma max_len_le Ks : forall mx, mx <= max_len mx Ks /\ Forall (fun K => Zlen K <= max_len mx Ks) Ks /\ (forall b, mx < b -> Forall (fun K => Zlen K < b) Ks -> max_len mx Ks < b).
Proof.
  unfold max_len. induction Ks as [|K Ks IH]; intros mx; [split; [done|split; [done|by intros]]|]. cbn [foldl]. destruct (IH (Z.max mx (Zlen K))) as (H1 & H2 & H3).
  split; [lia|]. split; [apply Forall_cons_2; [lia|done]|]. intros b Hb HK. apply list.Forall_cons in HK as [HK HKs]. apply H3; [lia|done].
Qed.

Definition op_word (t : list Z) : option bitop :=
  let w := map c_tolower (c_cut t) in
  if bool_decide (w = [97; 110; 100]) then Some BITOP_AND
  else if bool_decide (w = [111; 114]) then Some BITOP_OR
  else if bool_decide (w = [120; 111; 114]) then Some BITOP_XOR
  else if bool_decide (w = [110; 111; 116]) then Some BITOP_NOT
  else if bool_decide (w = [100; 105; 102; 102]) then Some BITOP_DIFF
  else if bool_decide (w = [100; 105; 102; 102; 49]) then Some BITOP_DIFF1
  else if bool_decide (w = [97; 110; 100; 111; 114]) then Some BITOP_ANDOR
  else if bool_decide (w = [111; 110; 101]) then Some BITOP_ONE
  else None.

Lemma parse_bitop_spec o t : sds_rep o t -> parse_bitop o = Ret (op_word t).
Proof. intros Ho. unfold parse_bitop. pose proof (c_string_spec o t [] Ho) as E. change (Zlen (@nil Z)) with 0 in E. by rewrite E, ret_bind. Qed.

(** The error of BITOP, or its operation. *)
Definition bitop_check (t : list Z) (vs : list value) : bitop + bit_error :=
  match op_word t with
  | None => inr ErrSyntax
  | Some op =>
    if (match op with BITOP_NOT => true | _ => false end) && negb (Zlen vs =? 1) then inr ErrNotOneKey
    else if is_disjunction op && (Zlen vs <? 2) then inr ErrTwoKeys
    else if existsb is_wrong vs then inr ErrWrongType else inl op
  end.

(** C15. BITOP: for any operation and keys, the loops on words and on bytes together
    store, bit by bit, the operation on the bits of the keys, a missing key or the
    bits after the end of a shorter one being zeroes, in a string as long as the
    longest; without any bytes the target is deleted. A wrong name or number of
    keys, or a key of another type, leaves it as it was. *)
Theorem bitopCommand_correct opname target names t v0 vs : sds_rep opname t -> Forall2 (fun name v => kv_value (lookupKeyRead name) v) names (v0 :: vs) ->
  match bitop_check t (v0 :: vs) with
  | inr e => bitopCommand lookupKeyRead (opname :: target :: names) = Ret (ReplyError e, KeyKept)
  | inl op =>
    let maxlen := max_len 0 (bytes_of <$> v0 :: vs) in
    if maxlen =? 0 then bitopCommand lookupKeyRead (opname :: target :: names) = Ret (ReplyLong 0, KeyDeleted) else
    exists s bs, bitopCommand lookupKeyRead (opname :: target :: names) = Ret (ReplyLong maxlen, KeyStored s) /\
      sds_rep s bs /\ Forall is_byte bs /\ Zlen bs = maxlen /\
      forall i, Z.of_nat i < 8 * maxlen ->
        bits_of bs !! i = Some (bitop_bit op (default false (bits_of (bytes_of v0) !! i)) ((fun v => default false (bits_of (bytes_of v) !! i)) <$> vs))
  end.
Proof.
  intros Ht Hv. unfold bitopCommand, bitop_check. rewrite (parse_bitop_spec _ _ Ht), ret_bind. destruct (op_word t) as [op|]; [|done].
  assert (Zlen names = Zlen (v0 :: vs)) as -> by (unfold Zlen; by rewrite (list.Forall2_length _ _ _ Hv)).
  destruct (_ && negb (Zlen (v0 :: vs) =? 1)); [done|]. destruct (is_disjunction op && _); [done|].
  destruct (bitop_sources_spec names (v0 :: vs) 0 0 0 Hv) as [[Hw Es]|[Hw (srcs & Es & Hsr)]]; [done|done|done|by rewrite Es, ret_bind, Hw|]. rewrite Es, ret_bind, Hw. clear Es Hw.
  inversion Hv as [|name0 ? names' ? Hv0 Hvs]; subst. cbn [fmap list_fmap map] in Hsr. inversion Hsr as [|first ? keys ? Hfirst Hkeys]; subst. cbv zeta.
  cbn [fmap list_fmap map]. fold (fmap bytes_of vs) in *. set (K0 := bytes_of v0) in *. set (Ks := bytes_of <$> vs) in *. pose proof (Zlen_nonneg K0) as HK0.
  pose proof (max_len_le (K0 :: Ks) 0) as (Hmx0 & Hmx & Hlt). apply list.Forall_cons in Hmx as [HmK0 _].
  assert (max_len 0 (K0 :: Ks) < 2 ^ 61) as Hsmall.
  { apply Hlt; [done|]. apply Forall_cons_2; [destruct (bytes_of_ok _ _ Hv0) as [_ Hs0]; fold K0 in Hs0; lia|]. unfold Ks. apply list.Forall_fmap. clear -Hvs.
    induction Hvs as [|? v ? vs Hv _ IH]; [done|]. apply Forall_cons_2; [|done]. destruct (bytes_of_ok _ _ Hv) as [_ ?]. cbn. lia. }
  set (mx := max_len 0 (K0 :: Ks)) in *. destruct (Z.eqb_spec mx 0) as [->|Hne]; cbn [negb]; [done|].
  assert (min_len 0 0 (K0 :: Ks) = min_len 1 (Zlen K0) Ks) as -> by done. destruct (min_len_le Ks 1 (Zlen K0)) as [Hmn HmnK]; [lia|done|].
  destruct (bitop_compute_spec op first keys K0 Ks (min_len 1 (Zlen K0) Ks) mx Hfirst Hkeys Hmn HmnK) as (s & bs & -> & Hs & Hb & Hl & Hbit); [lia|].
  rewrite ret_bind. exists s, bs. split; [done|]. split; [done|]. split; [done|]. split; [done|]. intros i Hi.
  assert (forall K, default false (bits_of K !! i) = Z.testbit (byte_at K (i / 8)%nat) (7 - Z.of_nat (i mod 8))) as Hkey.
  { intros K. unfold byte_at. destruct (K !! (i / 8)%nat) as [x|] eqn:Hx; [by rewrite (bits_lookup _ _ _ Hx)|].
    rewrite lookup_ge_None_2; [by rewrite Z.bits_0|]. apply lookup_ge_None_1 in Hx. rewrite length_bits. pose proof (Nat.div_mod i 8 ltac:(lia)). lia. }
  pose proof (Nat.mod_upper_bound i 8 ltac:(lia)) as Hm8. pose proof (Nat.div_mod i 8 ltac:(lia)) as Ei.
  destruct (lookup_lt_is_Some_2 bs (i / 8)) as [x Hx]; [unfold Zlen in Hl; lia|]. rewrite (bits_lookup _ _ _ Hx).
  pose proof (Hbit (i / 8)%nat (7 - Z.of_nat (i mod 8)) ltac:(lia) ltac:(lia)) as E. unfold byte_at at 1 in E. rewrite Hx in E. cbn [default from_option id] in E. rewrite E. unfold result_bit, key_bits.
  f_equal. rewrite Hkey. f_equal. unfold Ks. rewrite <- list_fmap_compose. apply list_fmap_ext. intros j v _. cbn. by rewrite Hkey.
Qed.
End command.

(** ** Witness *)

(** XOR of forty bytes and of thirty-five. *)
Lemma bitopCommand_witness : exists s bs,
  bitopCommand (H := exact_allocator) (demo_lookup (replicate 40 60) (replicate 35 241)) [demo_str [120; 111; 114]; key_x; key_a; key_b] = Ret (ReplyLong 40, KeyStored s) /\
  sds_rep s bs /\ bits_of bs !! 283%nat = Some true.
Proof.
  destruct (@bitopCommand_correct exact_allocator exact_fits (demo_lookup (replicate 40 60) (replicate 35 241)) (demo_str [120; 111; 114]) key_x [key_a; key_b] [120; 111; 114]
    (Str (replicate 40 60)) [Str (replicate 35 241)]) as (s & bs & E & Hs & _ & _ & Hbit).
  - apply demo_str_rep. done.
  - apply Forall2_cons_2; [|apply Forall2_cons_2; [|apply Forall2_nil_2]].
    + exact (demo_value_a (replicate 40 60) (replicate 35 241) ltac:(by apply Forall_replicate) ltac:(done)).
    + exact (demo_value_b (replicate 40 60) (replicate 35 241) ltac:(by apply Forall_replicate) ltac:(done)).
  - exists s, bs. split; [exact E|]. split; [exact Hs|]. rewrite Hbit; vm_compute; reflexivity.
Defined.

Example bitop_examples :
  let run op := r ← bitopCommand (H := exact_allocator) (demo_lookup (replicate 40 0x3c) (replicate 35 0xf1)) (demo_str op :: key_x :: [key_a; key_b; key_a]);
    match r with (_, KeyStored s) => bs ← s_bytes s; Ret (take 2 bs ++ drop 34 bs) | _ => OutOfBounds end in
  (run [65; 78; 68], run [111; 114], run [120; 111; 114], run [100; 105; 102; 102; 49], run [79; 110; 101]) =
  (Ret [48; 48; 48; 0; 0; 0; 0; 0], Ret [253; 253; 253; 60; 60; 60; 60; 60], Ret [241; 241; 241; 0; 0; 0; 0; 0],
   Ret [193; 193; 193; 0; 0; 0; 0; 0], Ret [193; 193; 193; 0; 0; 0; 0; 0]).
Proof. vm_compute. reflexivity. Qed.
