(* ===== verification/Settype.v ===== *)
(** * Settype: set objects and their three encodings (t_set.c)

    A set is an intset, a listpack of its members, or a hash table whose keys
    are dynamic strings.  The operations of t_set.c dispatch on the encoding and
    convert a set to a wider one when a limit of the configuration is crossed;
    they are written here over the models of the three containers.  A member is
    passed as an sds, as a buffer and a length, or as an integer. *)

From stdpp Require Import countable sets fin_maps gmap.
From S2P Require Import Prelude Memory NumStr Intset ListpackEnc Listpack ListpackEdit Siphash Sds Dict DictLink DictIter.

(** ** The keys of the hash table: server.c *)

Section callbacks.
Variable dict_hash_function_seed : list Z.

Definition dictSdsHash (key : sds) : outcome Z :=
  len ← sdslen key; bs ← s_read key 0 len; dictGenHashFunction dict_hash_function_seed bs len.

(** The lengths are stored in variables of type [int]; [memcmp] takes a [size_t]. *)
Definition dictSdsKeyCompare (key1 key2 : sds) : outcome bool :=
  l1 ← sdslen key1;
  l2 ← sdslen key2;
  let l1 := s32 l1 in
  let l2 := s32 l2 in
  if negb (l1 =? l2) then Ret false else
  b1 ← s_read key1 0 (u64 l1); b2 ← s_read key2 0 (u64 l1);
  Ret (c_memcmp b1 b2 =? 0).

(** The strings on which the callbacks return: the header and the contents can
    be read, and the length is an [int]. *)
Definition key_ok (s : sds) : bool :=
  match s_bytes s, sdsAllocSize s with
  | Ret bs, Ret _ => forallb (fun b => (0 <=? b) && (b <? 256)) bs && (Zlen bs <? 2 ^ 31)
  | _, _ => false
  end.

Definition set_key : Type := { s : sds | key_ok s = true }.
Definition key_sds (k : set_key) : sds := proj1_sig k.

(** A string used as a key; on the others a callback reads out of bounds, or
    compares truncated lengths. *)
Definition key_of (s : sds) : outcome set_key :=
  (if key_ok s as b return (key_ok s = b -> outcome set_key)
   then fun e => Ret (exist _ s e) else fun _ => OutOfBounds) eq_refl.

(** The result of a call that returns. *)
Definition returned {A} (x : A) (o : outcome A) : A := match o with Ret a => a | _ => x end.

(** On keys the callbacks always return ([dictSdsHash_key], [dictSdsKeyCompare_keys]). *)
Definition setDictType : dictType set_key set_key unit :=
  {| hashFunction := fun k => returned 0 (dictSdsHash (key_sds k));
     keyDup := None;
     valDup := None;
     keyCompare := fun k1 k2 => returned false (dictSdsKeyCompare (key_sds k1) (key_sds k2));
     keyFromStoredKey := fun k => k;
     resizeAllowed := None;
     no_value := true;
     force_full_rehash := false |}.
End callbacks.

(** ** Objects *)

Inductive set_encoding := OBJ_ENCODING_INTSET | OBJ_ENCODING_LISTPACK | OBJ_ENCODING_HT.
#[global] Instance set_encoding_eq_dec : EqDecision set_encoding.
Proof. solve_decision. Defined.

(** An [robj] of type [OBJ_SET]: its encoding and what [ptr] points to.  The
    metadata of the dict is the total size of its keys ([htGetMetadataSize]). *)
Inductive set_obj :=
| IntsetObj (iset : intset)
| ListpackObj (lp : list Z)
| HtObj (ht : dict set_key unit) (alloc_size : Z).

Definition encoding_of (o : set_obj) : set_encoding :=
  match o with
  | IntsetObj _ => OBJ_ENCODING_INTSET
  | ListpackObj _ => OBJ_ENCODING_LISTPACK
  | HtObj _ _ => OBJ_ENCODING_HT
  end.

(** The fields of [server] that t_set.c reads, all [size_t]. *)
Record set_config := {
  set_max_intset_entries : Z;
  set_max_listpack_entries : Z;
  set_max_listpack_value : Z;
}.

(** A [char *]: an sds ([str_is_sds]) or any buffer. *)
Inductive set_str := SdsStr (s : sds) | CharStr (buf : list Z).

Definition str_read (str : set_str) (len : Z) : outcome (list Z) :=
  match str with SdsStr s => s_read s 0 len | CharStr buf => rdn buf 0 len end.

(** What an iterator yields: [*str] and [*len], or [*llele] when [*str] is NULL. *)
Inductive set_elem := StrElem (str : set_str) (len : Z) | IntElem (llele : Z).

Inductive setTypeIterator :=
| SiIntset (ii : Z)
| SiListpack (lpi : option Z)
| SiHt (di : dictIterator set_key unit).

(** [setobj->ptr = lp] with what an insertion returned: a NULL is dereferenced
    by the next call. *)
Definition lp_deref (r : option (list Z)) : outcome (list Z) :=
  match r with Some lp => Ret lp | None => OutOfBounds end.

(** [while ((e = next(&si)) != stop) body], with the state of the loop. *)
Fixpoint while_next {A E} (next : set_obj -> setTypeIterator -> outcome (set_obj * setTypeIterator * option E))
    (body : A -> E -> outcome A) (fuel : nat) (o : set_obj) (si : setTypeIterator) (a : A)
    : outcome (set_obj * setTypeIterator * A) :=
  match fuel with
  | O => OutOfFuel
  | S fuel =>
    '(o, si, e) ← next o si;
    match e with
    | None => Ret (o, si, a)
    | Some e => a ← body a e; while_next next body fuel o si a
    end
  end.

Section settype.
Context `{Allocator}.
Variables (dict_hash_function_seed : list Z) (can_resize : dictResizeEnable).
Variable table_addr : dict set_key unit -> Z -> Z.
Variable server : set_config.
Abbreviation setDictType := (setDictType dict_hash_function_seed).

Definition str_sdsnewlen (str : set_str) (len : Z) : outcome sds :=
  bs ← str_read str len; sdsnewlen (InitFrom bs) len.

(** *** Iteration *)

Definition setTypeInitIterator (subject : set_obj) : setTypeIterator :=
  match subject with
  | HtObj _ _ => SiHt dictInitIterator
  | IntsetObj _ => SiIntset 0
  | ListpackObj _ => SiListpack None
  end.

Definition setTypeResetIterator (subject : set_obj) (si : setTypeIterator) : outcome set_obj :=
  match si, subject with
  | SiHt di, HtObj d n => d ← dictResetIterator table_addr d di; Ret (HtObj d n)
  | _, _ => Ret subject
  end.

(** [None] is the end (-1).  The encoding of the iterator is that of its subject. *)
Definition setTypeNext (subject : set_obj) (si : setTypeIterator) : outcome (set_obj * setTypeIterator * option set_elem) :=
  match si, subject with
  | SiHt di, HtObj d n =>
    '(d, di, de) ← dictNext table_addr d di;
    if is_null de then Ret (HtObj d n, SiHt di, None) else
    k ← dictGetKey de;
    len ← sdslen (key_sds k);
    Ret (HtObj d n, SiHt di, Some (StrElem (SdsStr (key_sds k)) len))
  | SiIntset ii, IntsetObj iset =>
    v ← intsetGet iset (u32 ii);
    let si := SiIntset (s32 (ii + 1)) in
    match v with
    | None => Ret (subject, si, None)
    | Some llele => Ret (subject, si, Some (IntElem llele))
    end
  | SiListpack lpi, ListpackObj lp =>
    lpi' ← match lpi with None => lpFirst lp | Some p => lpNext lp p end;
    match lpi' with
    | None => Ret (subject, si, None)
    | Some p =>
      g ← lpGetValue lp p;
      Ret (subject, SiListpack (Some p), Some (match g with
        | GotPtr q l => StrElem (CharStr (drop (Z.to_nat q) lp)) l
        | GotBuf _ v | GotInt v => IntElem v
        end))
    end
  | _, _ => AssertFail
  end.

Definition setTypeNextObject (subject : set_obj) (si : setTypeIterator) : outcome (set_obj * setTypeIterator * option sds) :=
  '(subject, si, e) ← setTypeNext subject si;
  match e with
  | None => Ret (subject, si, None)
  | Some (StrElem str len) => s ← str_sdsnewlen str len; Ret (subject, si, Some s)
  | Some (IntElem intele) => s ← sdsfromlonglong intele; Ret (subject, si, Some s)
  end.

(** Enough rounds for every element and the end. *)
Definition iter_fuel (o : set_obj) : nat :=
  match o with
  | IntsetObj iset => S (Z.to_nat (ilength iset))
  | ListpackObj lp => S (length lp)
  | HtObj d _ => S (Z.to_nat (dictSize d))
  end.

(** *** Size *)

(** The object on return: counting a listpack may store the count. *)
Definition setTypeSize (subject : set_obj) : outcome (set_obj * Z) :=
  match subject with
  | HtObj d n => Ret (subject, dictSize d)
  | IntsetObj iset => Ret (subject, intsetLen iset)
  | ListpackObj lp => '(lp, count) ← lpLength lp; Ret (ListpackObj lp, count)
  end.

(** *** Creation *)

Definition isSdsRepresentableAsLongLong (s : sds) : outcome (option Z) := bs ← s_bytes s; Ret (string2ll bs).

Definition createSetObject : set_obj := HtObj dictCreate 0.
Definition createIntsetObject : set_obj := IntsetObj intsetNew.
Definition createSetListpackObject : outcome set_obj := lp ← lpNew 0; Ret (ListpackObj lp).

Definition setTypeCreate (value : sds) (size_hint : Z) : outcome set_obj :=
  v ← isSdsRepresentableAsLongLong value;
  if bool_decide (is_Some v) && (size_hint <=? set_max_intset_entries server) then Ret createIntsetObject else
  if size_hint <=? set_max_listpack_entries server then createSetListpackObject else
  match createSetObject with
  | HtObj d n => '(d, _) ← dictExpand setDictType can_resize d size_hint; Ret (HtObj d n)
  | o => Ret o
  end.

(** *** Conversion *)

(** [serverAssert(dictAdd(d,newval,NULL) == DICT_OK)] and the count of its size. *)
Definition ht_add_new (d : dict set_key unit) (alloc_size : Z) (newval : sds) : outcome (dict set_key unit * Z) :=
  k ← key_of newval;
  '(d, ok) ← dictAdd setDictType can_resize d k tt;
  _ ← c_assert ok;
  n ← sdsAllocSize newval;
  Ret (d, u64 (alloc_size + n)).

(** [C_OK] is [true]; [avail] is whether the allocation that may fail succeeds. *)
Definition setTypeConvertAndExpand (setobj : set_obj) (enc : set_encoding) (cap : Z) (panic avail : bool)
    : outcome (set_obj * bool) :=
  _ ← c_assert (negb (bool_decide (encoding_of setobj = enc)));
  match enc with
  | OBJ_ENCODING_HT =>
    '(d, ok) ← (if panic then '(d, _) ← dictExpand setDictType can_resize dictCreate cap; Ret (d, true)
                else dictTryExpand setDictType can_resize dictCreate cap avail);
    if negb ok then Ret (setobj, false) else
    '(setobj, si, (d, alloc_size)) ←
      while_next setTypeNextObject (fun r element => ht_add_new r.1 r.2 element)
        (iter_fuel setobj) setobj (setTypeInitIterator setobj) (d, 0);
    _ ← setTypeResetIterator setobj si;
    Ret (HtObj d alloc_size, true)
  | OBJ_ENCODING_LISTPACK =>
    estcap ← match setobj with
      | IntsetObj iset =>
        if 0 <? intsetLen iset then
          min ← intsetMin iset; max ← intsetMax iset;
          Ret (Z.max (lpEstimateBytesRepeatedInteger min cap) (lpEstimateBytesRepeatedInteger max cap))
        else Ret (u64 (cap * 2))
      | _ => Ret (u64 (cap * 2))
      end;
    lp ← lpNew estcap;
    '(setobj, si, lp) ←
      while_next setTypeNext (fun lp e =>
        r ← match e with
            | StrElem str len => ele ← str_read str (u32 len); lpAppend lp ele
            | IntElem llele => lpAppendInteger lp llele
            end;
        lp_deref r)
        (iter_fuel setobj) setobj (setTypeInitIterator setobj) lp;
    _ ← setTypeResetIterator setobj si;
    Ret (ListpackObj lp, true)
  | OBJ_ENCODING_INTSET => AssertFail
  end.

Definition setTypeConvert (setobj : set_obj) (enc : set_encoding) : outcome set_obj :=
  '(setobj, size) ← setTypeSize setobj;
  '(setobj, _) ← setTypeConvertAndExpand setobj enc size true true; Ret setobj.

Definition setTypeMaybeConvert (set : set_obj) (size_hint : Z) : outcome set_obj :=
  if (bool_decide (encoding_of set = OBJ_ENCODING_LISTPACK) && (set_max_listpack_entries server <? size_hint))
     || (bool_decide (encoding_of set = OBJ_ENCODING_INTSET) && (set_max_intset_entries server <? size_hint))
  then '(set, _) ← setTypeConvertAndExpand set OBJ_ENCODING_HT size_hint true true; Ret set
  else Ret set.

Definition intsetMaxEntries : Z :=
  let max_entries := set_max_intset_entries server in
  if Z.shiftl 1 30 <=? max_entries then Z.shiftl 1 30 else max_entries.

Definition maybeConvertIntset (subject : set_obj) : outcome set_obj :=
  match subject with
  | IntsetObj iset =>
    if intsetMaxEntries <? intsetLen iset then setTypeConvert subject OBJ_ENCODING_HT else Ret subject
  | _ => AssertFail
  end.

Definition maybeConvertToIntset (set : set_obj) : outcome set_obj :=
  match set with
  | IntsetObj _ => Ret set
  | _ =>
    '(set, size) ← setTypeSize set;
    if intsetMaxEntries <? size then Ret set else
    '(set, si, iset) ←
      while_next setTypeNext (fun iset e =>
        llval ← match e with
          | StrElem str len =>
            bs ← str_read str len;
            match string2ll bs with Some llval => Ret llval | None => AssertFail end
          | IntElem llval => Ret llval
          end;
        '(iset, success) ← intsetAdd iset llval;
        _ ← c_assert success; Ret iset)
        (iter_fuel set) set (setTypeInitIterator set) intsetNew;
    _ ← setTypeResetIterator set si;
    Ret (IntsetObj iset)
  end.

(** *** Adding *)

(** The branch of a hash table. *)
Definition setTypeAdd_ht (ht : dict set_key unit) (alloc_size : Z) (str : set_str) (len : Z) : outcome (set_obj * bool) :=
  sdsval ← match str with SdsStr s => Ret s | CharStr _ => str_sdsnewlen str len end;
  key ← key_of sdsval;
  '(ht, link, bucket) ← dictFindLink setDictType can_resize ht key true;
  match link with
  | None =>
    sdsval ← match str with SdsStr s => sdsdup s | CharStr _ => Ret sdsval end;
    key ← key_of sdsval;
    '(ht, _) ← dictSetKeyAtLink setDictType can_resize (fun k => k) ht key bucket true;
    n ← sdsAllocSize sdsval;
    Ret (HtObj ht (u64 (alloc_size + n)), true)
  | Some _ => Ret (HtObj ht alloc_size, false)
  end.

(** The hash table an addition falls back to: the set converted, and the new value added. *)
Definition convert_and_add (set : set_obj) (cap : Z) (str : set_str) (len : Z) : outcome (set_obj * bool) :=
  '(set, _) ← setTypeConvertAndExpand set OBJ_ENCODING_HT cap true true;
  newval ← str_sdsnewlen str len;
  match set with
  | HtObj d n => '(d, n) ← ht_add_new d n newval; Ret (HtObj d n, true)
  | _ => AssertFail
  end.

(** The branch of a listpack; [from_int] is whether [str] is the buffer an
    integer was printed to. *)
Definition setTypeAdd_listpack (lp : list Z) (str : set_str) (len : Z) (from_int : option Z) : outcome (set_obj * bool) :=
  p ← lpFirst lp;
  p ← match p with Some _ => s ← str_read str (u32 len); lpFind lp p s 0 | None => Ret None end;
  match p with
  | Some _ => Ret (ListpackObj lp, false)
  | None =>
    '(lp, n) ← lpLength lp;
    room ← (if (n <? set_max_listpack_entries server) && (len <=? set_max_listpack_value server)
            then lpSafeToAdd (Some lp) len else Ret false);
    if (room : bool) then
      r ← match from_int with
          | Some llval => lpAppendInteger lp llval
          | None => s ← str_read str (u32 len); lpAppend lp s
          end;
      lp ← lp_deref r; Ret (ListpackObj lp, true)
    else
      '(lp, n) ← lpLength lp;
      convert_and_add (ListpackObj lp) (n + 1) str len
  end.

(** The lengths and sizes the elements of an intset would have in a listpack. *)
Definition intset_as_listpack (iset : intset) : outcome (Z * Z) :=
  let n := intsetLen iset in
  if negb (n =? 0) then
    max ← intsetMax iset; min ← intsetMin iset;
    Ret (Z.max (sdigits10 max) (sdigits10 min),
         Z.max (lpEstimateBytesRepeatedInteger max n) (lpEstimateBytesRepeatedInteger min n))
  else Ret (0, 0).

(** The branch of an intset. *)
Definition setTypeAdd_intset (iset : intset) (str : set_str) (len : Z) : outcome (set_obj * bool) :=
  bs ← str_read str len;
  match string2ll bs with
  | Some value =>
    '(iset, success) ← intsetAdd iset value;
    if (success : bool) then set ← maybeConvertIntset (IntsetObj iset); Ret (set, true)
    else Ret (IntsetObj iset, false)
  | None =>
    '(maxelelen, totsize) ← intset_as_listpack iset;
    room ← (if (intsetLen iset <? set_max_listpack_entries server) && (len <=? set_max_listpack_value server)
               && (maxelelen <=? set_max_listpack_value server)
            then lpSafeToAdd None (u64 (totsize + len)) else Ret false);
    if (room : bool) then
      '(set, _) ← setTypeConvertAndExpand (IntsetObj iset) OBJ_ENCODING_LISTPACK (intsetLen iset + 1) true true;
      match set with
      | ListpackObj lp =>
        s ← str_read str (u32 len);
        r ← lpAppend lp s; lp ← lp_deref r;
        lp ← lpShrinkToFit lp; Ret (ListpackObj lp, true)
      | _ => AssertFail
      end
    else convert_and_add (IntsetObj iset) (intsetLen iset + 1) str len
  end.

(** [len = ll2string(tmpbuf, sizeof tmpbuf, llval)]. *)
Definition int_str (llval : Z) : outcome (set_str * Z) :=
  '(tmpbuf, len) ← ll2string (replicate (Z.to_nat LONG_STR_SIZE) 0) LONG_STR_SIZE llval;
  Ret (CharStr tmpbuf, len).

(** The rest of [setTypeAddAux], once [str] is not NULL. *)
Definition setTypeAdd_str (set : set_obj) (str : set_str) (len : Z) (from_int : option Z) : outcome (set_obj * bool) :=
  match set with
  | HtObj ht alloc_size => setTypeAdd_ht ht alloc_size str len
  | ListpackObj lp => setTypeAdd_listpack lp str len from_int
  | IntsetObj iset => setTypeAdd_intset iset str len
  end.

(** [str] is NULL when [None]; the boolean is the value returned. *)
Definition setTypeAddAux (set : set_obj) (str : option set_str) (len llval : Z) : outcome (set_obj * bool) :=
  match str, set with
  | None, IntsetObj iset =>
    '(iset, success) ← intsetAdd iset llval;
    if (success : bool) then set ← maybeConvertIntset (IntsetObj iset); Ret (set, true)
    else Ret (IntsetObj iset, false)
  | Some str, _ => setTypeAdd_str set str len None
  | None, _ => '(str, len) ← int_str llval; setTypeAdd_str set str len (Some llval)
  end.

Definition setTypeAdd (subject : set_obj) (value : sds) : outcome (set_obj * bool) :=
  len ← sdslen value; setTypeAddAux subject (Some (SdsStr value)) len 0.

(** *** Removing *)

(** [dictDelete] and [setSdsDestructor], which it calls on the key of the entry. *)
Definition ht_delete (d : dict set_key unit) (alloc_size : Z) (key : set_key) : outcome (dict set_key unit * Z * bool) :=
  '(d, he) ← dictGenericDelete setDictType can_resize d key false;
  if is_null he then Ret (d, alloc_size, false) else
  val ← dictGetKey he;
  n ← sdsAllocSize (key_sds val);
  Ret (d, u64 (alloc_size - n), true).

(** The rest of [setTypeRemoveAux], once [str] is not NULL. *)
Definition setTypeRemove_str (setobj : set_obj) (str : set_str) (len : Z) : outcome (set_obj * bool) :=
  match setobj with
  | HtObj ht alloc_size =>
    sdsval ← match str with SdsStr s => Ret s | CharStr _ => str_sdsnewlen str len end;
    key ← key_of sdsval;
    '(ht, alloc_size, deleted) ← ht_delete ht alloc_size key;
    Ret (HtObj ht alloc_size, deleted)
  | ListpackObj lp =>
    p ← lpFirst lp;
    match p with
    | None => Ret (setobj, false)
    | Some p =>
      s ← str_read str (u32 len);
      p ← lpFind lp (Some p) s 0;
      match p with
      | Some p => r ← lpDelete lp p; lp ← lp_deref (no_newp r); Ret (ListpackObj lp, true)
      | None => Ret (setobj, false)
      end
    end
  | IntsetObj iset =>
    bs ← str_read str len;
    match string2ll bs with
    | Some llval => '(iset, success) ← intsetRemove iset llval; Ret (IntsetObj iset, success)
    | None => Ret (setobj, false)
    end
  end.

Definition setTypeRemoveAux (setobj : set_obj) (str : option set_str) (len llval : Z) : outcome (set_obj * bool) :=
  match str, setobj with
  | None, IntsetObj iset => '(iset, success) ← intsetRemove iset llval; Ret (IntsetObj iset, success)
  | Some str, _ => setTypeRemove_str setobj str len
  | None, _ => '(str, len) ← int_str llval; setTypeRemove_str setobj str len
  end.

Definition setTypeRemove (setobj : set_obj) (value : sds) : outcome (set_obj * bool) :=
  len ← sdslen value; setTypeRemoveAux setobj (Some (SdsStr value)) len 0.

(** *** Membership *)

(** The rest of [setTypeIsMemberAux], once [str] is not NULL.  A lookup in the
    hash table may advance its rehashing. *)
Definition setTypeIsMember_str (set : set_obj) (str : set_str) (len : Z) : outcome (set_obj * bool) :=
  match set with
  | ListpackObj lp =>
    p ← lpFirst lp;
    match p with
    | None => Ret (set, false)
    | Some p => s ← str_read str (u32 len); p ← lpFind lp (Some p) s 0; Ret (set, bool_decide (is_Some p))
    end
  | IntsetObj iset =>
    bs ← str_read str len;
    match string2ll bs with
    | Some llval => found ← intsetFind iset llval; Ret (set, found)
    | None => Ret (set, false)
    end
  | HtObj d n =>
    sdsval ← match str with SdsStr s => Ret s | CharStr _ => str_sdsnewlen str len end;
    key ← key_of sdsval;
    '(d, de) ← dictFind setDictType can_resize d key;
    Ret (HtObj d n, negb (is_null de))
  end.

Definition setTypeIsMemberAux (set : set_obj) (str : option set_str) (len llval : Z) : outcome (set_obj * bool) :=
  match str, set with
  | None, IntsetObj iset => found ← intsetFind iset llval; Ret (set, found)
  | Some str, _ => setTypeIsMember_str set str len
  | None, _ => '(str, len) ← int_str llval; setTypeIsMember_str set str len
  end.

Definition setTypeIsMember (subject : set_obj) (value : sds) : outcome (set_obj * bool) :=
  len ← sdslen value; setTypeIsMemberAux subject (Some (SdsStr value)) len 0.

(** *** Duplication *)

(** The set copied and its duplicate. *)
Definition setTypeDup (o : set_obj) : outcome (set_obj * set_obj) :=
  match o with
  | IntsetObj iset =>
    let size := intsetBlobLen iset in
    let newis := zmalloc size in
    bs ← rdn (intset_block iset) 0 size;
    newis ← wrn newis 0 bs;
    Ret (o, IntsetObj (intset_of_bytes newis))
  | ListpackObj lp =>
    sz ← lpBytes lp;
    let new_lp := zmalloc sz in
    bs ← rdn lp 0 sz;
    new_lp ← wrn new_lp 0 bs;
    Ret (o, ListpackObj new_lp)
  | HtObj d n =>
    '(set, _) ← dictExpand setDictType can_resize dictCreate (dictSize d);
    '(o, si, set) ←
      while_next setTypeNext (fun set e =>
        match e with
        | StrElem (SdsStr str) _ => '(set, _) ← setTypeAdd set str; Ret set
        | _ => OutOfBounds
        end)
        (iter_fuel o) o (setTypeInitIterator o) (HtObj set 0);
    o ← setTypeResetIterator o si;
    Ret (o, set)
  end.
End settype.
