(* ===== verification/SettypeInv.v ===== *)
(** * SettypeInv: the sets that objects represent

    [set_rep] relates an object to the finite set of its members, for each of
    the three encodings: the integers of an intset stand for their decimal texts,
    the entries of a listpack for their values, the keys of a hash table for
    their bytes; the metadata of a hash table is the total size of its keys.
    There is one lemma per operation of t_set.c, with its result for every
    encoding, every way to pass a member and every conversion on the way.
    Iterators are handled once ([walk]), and every loop over a set is a fold over
    what they yield. *)

From stdpp Require Import countable sets fin_maps gmap.
From S2P Require Import Prelude Memory NumStr Intset ListpackEnc Listpack ListpackEdit Siphash Sds SdsInv SdsSpec.
From S2P Require Import Dict DictInv DictSpec DictLink DictIter DictFrame Settype.

(** ** Members and keys *)

(** The strings a set can hold: the callbacks of the dict store lengths in an [int]. *)
Definition member_ok (x : list Z) : Prop := Forall is_byte x /\ Zlen x < 2 ^ 31.

Lemma dec_member v : INT64_MIN <= v <= INT64_MAX -> member_ok (dec v).
Proof. intros Hv. split; [apply dec_bytes|]. pose proof (dec_length v Hv). unfold LONG_STR_SIZE in *. lia. Qed.

Definition key_bytes (k : set_key) : list Z := returned [] (s_bytes (key_sds k)).
Definition key_size (k : set_key) : Z := returned 0 (sdsAllocSize (key_sds k)).

Lemma key_ok_spec s : key_ok s = true <->
  exists x n, s_bytes s = Ret x /\ sdsAllocSize s = Ret n /\ member_ok x.
Proof.
  unfold key_ok, member_ok. destruct (s_bytes s) as [x| | |]; [|split; [done|by intros (? & ? & ? & _)]..].
  destruct (sdsAllocSize s) as [n| | |]; [|split; [done|by intros (? & ? & _ & ? & _)]..].
  rewrite andb_true_iff, forallb_forall, Z.ltb_lt. split.
  - intros [Hb Hl]. exists x, n. split; [done|]. split; [done|]. split; [|done]. apply list.Forall_forall. intros b Hin.
    apply list_elem_of_In, Hb in Hin. unfold is_byte. lia.
  - intros (y & m & [= <-] & _ & Hb & Hl). split; [|done]. intros b Hin. apply list_elem_of_In in Hin.
    apply (proj1 (list.Forall_forall _ _) Hb) in Hin. unfold is_byte in Hin. lia.
Qed.

Lemma key_facts k : s_bytes (key_sds k) = Ret (key_bytes k) /\ sdsAllocSize (key_sds k) = Ret (key_size k) /\ member_ok (key_bytes k).
Proof.
  destruct k as [s Hs]. unfold key_bytes, key_size, key_sds. cbn [proj1_sig]. pose proof (proj1 (key_ok_spec s) Hs) as (x & n & -> & -> & Hx). done.
Qed.

Lemma key_of_spec s : key_ok s = true -> exists k, key_of s = Ret k /\ key_sds k = s.
Proof.
  intros Hs. unfold key_of.
  enough (forall b (e : key_ok s = b), b = true -> exists k,
    (if b as b return (key_ok s = b -> outcome set_key) then fun e => Ret (exist _ s e) else fun _ => OutOfBounds) e = Ret k /\
    key_sds k = s) as Hgo by (by apply Hgo).
  intros [] e Hb; [by eexists|done].
Qed.

(** The bytes of a string, and the two reads they are the result of. *)
Lemma s_bytes_inv s x : s_bytes s = Ret x -> sdslen s = Ret (Zlen x) /\ s_read s 0 (Zlen x) = Ret x.
Proof.
  unfold s_bytes. intros H. apply bind_Ret in H as (len & Hlen & Hr). pose proof Hr as Hr'. unfold s_read in Hr'.
  apply rdn_length in Hr' as (Hl & _). rewrite Hl. done.
Qed.

Lemma rep_key_ok s x : sds_rep s x -> member_ok x -> key_ok s = true.
Proof.
  intros Hr Hx. apply key_ok_spec. exists x. rewrite (rep_bytes _ _ Hr). destruct Hr as (type & alloc & fl & data & -> & Hok & _ & Hl & Hsz).
  eexists. split; [done|]. split; [|done]. apply (sdsAllocSize_ok _ _ _ _ _ Hok). lia.
Qed.

(** A key made of a string. *)
Lemma key_of_bytes s x : key_ok s = true -> s_bytes s = Ret x -> exists k, key_of s = Ret k /\ key_sds k = s /\ key_bytes k = x.
Proof.
  intros Hs Hb. destruct (key_of_spec s Hs) as (k & Hk & E). exists k. split; [done|]. split; [done|]. unfold key_bytes. by rewrite E, Hb.
Qed.

(** ** The callbacks *)

(** [dictSdsKeyCompare] keeps the lengths in an [int]: two strings whose lengths
    differ by a multiple of 2^32 are compared on the truncated length alone, so
    two different strings can be found equal.  No set has such members unless
    [proto-max-bulk-len] is raised above its default. *)
Theorem dictSdsKeyCompare_truncates key1 key2 x rest :
  sds_rep key1 x -> sds_rep key2 (x ++ rest) -> Zlen x < 2 ^ 31 -> Zlen rest = 2 ^ 32 ->
  dictSdsKeyCompare key1 key2 = Ret true.
Proof.
  intros H1 H2 Hx Hrest. unfold dictSdsKeyCompare. rewrite (SdsSpec.rep_len _ _ H1), (SdsSpec.rep_len _ _ H2), !ret_bind.
  pose proof (Zlen_nonneg x). rewrite Zlen_app, Hrest.
  assert (s32 (Zlen x) = Zlen x) as E1 by (apply wraps_id; lia).
  assert (s32 (Zlen x + 2 ^ 32) = Zlen x) as E2.
  { rewrite <- E1 at 2. unfold wraps. rewrite <- Z.add_assoc, (Z.add_comm (2 ^ 32)), Z.add_assoc.
    replace (2 ^ 32) with (1 * 2 ^ 32) at 1 by lia. by rewrite Z_mod_plus_full. }
  cbv zeta. rewrite E1, E2, Z.eqb_refl. cbn [negb]. rewrite wrapu_id by lia.
  rewrite (rep_read _ _ H1), ret_bind. pose proof (rep_read _ _ H2) as Hr. rewrite Zlen_app in Hr. unfold s_read in *.
  assert (rdn (sds_block key2) (sds_pos key2 + 0) (Zlen x) = Ret x) as ->.
  { by apply rdn_split in Hr as [Hr _]. }
  rewrite ret_bind. f_equal. apply Z.eqb_eq. by apply c_memcmp_eq.
Qed.

Section keys.
Context (seed : list Z) (Hseed : Forall is_byte seed) (Hseed16 : Zlen seed = 16).

Lemma dictSdsHash_key k : exists h, dictSdsHash seed (key_sds k) = Ret h /\ is_u64 h /\ siphash (key_bytes k) (Zlen (key_bytes k)) seed = Ret h.
Proof using Hseed Hseed16.
  destruct (key_facts k) as (Hb & _ & Hm & _). apply s_bytes_inv in Hb as [Hl Hr].
  destruct (siphash_ok (key_bytes k) seed Hm Hseed Hseed16) as (h & Hh & Hu). exists h.
  unfold dictSdsHash, dictGenHashFunction. rewrite Hl, ret_bind, Hr, ret_bind. done.
Qed.

Lemma dictSdsKeyCompare_keys k1 k2 : dictSdsKeyCompare (key_sds k1) (key_sds k2) = Ret (bool_decide (key_bytes k1 = key_bytes k2)).
Proof.
  destruct (key_facts k1) as (Hb1 & _ & _ & Hs1). destruct (key_facts k2) as (Hb2 & _ & _ & Hs2).
  apply s_bytes_inv in Hb1 as [Hl1 Hr1], Hb2 as [Hl2 Hr2]. pose proof (Zlen_nonneg (key_bytes k1)). pose proof (Zlen_nonneg (key_bytes k2)).
  unfold dictSdsKeyCompare. rewrite Hl1, Hl2, !ret_bind. cbv zeta. rewrite !wraps_id by lia.
  destruct (Z.eqb_spec (Zlen (key_bytes k1)) (Zlen (key_bytes k2))) as [E|E]; cbn [negb].
  - rewrite wrapu_id by lia. rewrite Hr1, ret_bind, E, Hr2, ret_bind. f_equal. apply eq_true_iff_eq. rewrite Z.eqb_eq, bool_decide_eq_true.
    apply c_memcmp_eq. unfold Zlen in E. lia.
  - rewrite bool_decide_false; [done|congruence].
Qed.

#[export] Instance set_keys : DictKeys (setDictType seed) key_bytes.
Proof using Hseed Hseed16.
  split.
  - intros k1 k2. cbn. by rewrite dictSdsKeyCompare_keys.
  - intros k1 k2 E. cbn. destruct (dictSdsHash_key k1) as (h1 & -> & _ & H1). destruct (dictSdsHash_key k2) as (h2 & -> & _ & H2).
    rewrite E, H2 in H1. by injection H1.
  - intros k. cbn. destruct (dictSdsHash_key k) as (h & -> & Hu & _). exact Hu.
  - done.
Qed.
End keys.

(** ** What an object represents *)

Section rep.
Context (seed : list Z).
Abbreviation T := (setDictType seed).
Abbreviation sdict := (dict set_key unit).
Abbreviation ht_map := (dict_map T key_bytes).
Implicit Types (d : sdict) (o : set_obj) (m : gset (list Z)).

(** The total size of the keys. *)
Definition sizes_of (h : gmap (list Z) (set_key * option unit)) : Z := zsum ((fun p => key_size p.2.1) <$> map_to_list h).

(** A hash table of a set: nothing is paused, and the metadata is the total
    size of the keys, in a [size_t]. *)
Record ht_rep d (n : Z) m : Prop := {
  hr_wf : dict_wf T key_bytes d;
  hr_pause : same_pauses dictCreate d;
  hr_dom : m = dom (ht_map d);
  hr_size : n = u64 (sizes_of (ht_map d));
}.

Definition set_contents o m : Prop :=
  match o with
  | IntsetObj iset => exists vs, Rep iset vs /\ m = list_to_set (dec <$> vs)
  | ListpackObj lp => exists es, lp_rep lp es /\ NoDup (lp_value <$> es) /\ m = list_to_set (lp_value <$> es)
  | HtObj d n => ht_rep d n m
  end.

Record set_rep o m : Prop := {
  sr_contents : set_contents o m;
  sr_members : forall x, x ∈ m -> member_ok x;
}.

(** The sizes up to which an insertion is known to work: 2^29 for an intset
    (its [uint32_t] byte counts), 2^62 otherwise. *)
Definition set_room o m : Prop :=
  match o with IntsetObj _ => Z.of_nat (size m) + 1 < 2 ^ 29 | _ => Z.of_nat (size m) + 1 < 2 ^ 62 end.

(** *** The sizes of the keys *)

Lemma zsum_perm l1 l2 : l1 ≡ₚ l2 -> zsum l1 = zsum l2.
Proof. induction 1; simpl; lia. Qed.

Lemma sizes_insert h x k v : h !! x = None -> sizes_of (<[x := (k, v)]> h) = key_size k + sizes_of h.
Proof.
  intros Hx. unfold sizes_of. pose proof (map_to_list_insert h x (k, v) Hx) as Hp.
  apply (fmap_Permutation (fun p => key_size p.2.1)), zsum_perm in Hp. rewrite Hp. done.
Qed.

Lemma sizes_delete h x k v : h !! x = Some (k, v) -> sizes_of (delete x h) = sizes_of h - key_size k.
Proof.
  intros Hx. unfold sizes_of. pose proof (map_to_list_delete h x (k, v) Hx) as Hp.
  apply (fmap_Permutation (fun p => key_size p.2.1)), zsum_perm in Hp. cbn in Hp. lia.
Qed.

Lemma u64_add_l a b : u64 (u64 a + b) = u64 (a + b).
Proof. unfold wrapu. by rewrite Zplus_mod_idemp_l. Qed.

Lemma u64_sub_l a b : u64 (u64 a - b) = u64 (a - b).
Proof. unfold wrapu. by rewrite Zminus_mod_idemp_l. Qed.

(** *** The hash table *)

Context (Hseed : Forall is_byte seed) (Hseed16 : Zlen seed = 16).
#[local] Instance keys : DictKeys T key_bytes := set_keys seed Hseed Hseed16.
Context (can_resize : dictResizeEnable).

Lemma ht_rep_len d n m : ht_rep d n m -> Zlen (entries d) = Z.of_nat (size m).
Proof using Hseed Hseed16. intros [Hwf _ -> _]. rewrite (entries_size _ _ _ Hwf). by rewrite size_dom. Qed.

Lemma ht_rep_same d d' n m : ht_rep d n m -> same_contents T key_bytes d d' -> ht_rep d' n m.
Proof using Hseed Hseed16.
  intros [Hwf [Hp Ha] Hd Hn] Hsc. pose proof (dict_map_same _ _ _ _ Hsc) as Hm. split.
  - apply Hsc.
  - split; [by rewrite (sc_pause _ _ _ _ Hsc)|by rewrite (sc_auto _ _ _ _ Hsc)].
  - by rewrite Hm.
  - by rewrite Hm.
Qed.

(** Both facts about an added key. *)
Lemma ht_rep_insert d d' n m x k : ht_rep d n m -> dict_wf T key_bytes d' -> same_pauses d d' -> x ∉ m ->
  ht_map d' = <[x := (k, None)]> (ht_map d) -> ht_rep d' (u64 (n + key_size k)) ({[x]} ∪ m).
Proof.
  intros [Hwf [Hp Ha] -> ->] Hwf' [Hp' Ha'] Hx Hm. apply not_elem_of_dom in Hx. split; [done|by split; congruence| |].
  - by rewrite Hm, dom_insert_L.
  - rewrite Hm, sizes_insert, u64_add_l by done. f_equal. lia.
Qed.

Lemma created_rep : ht_rep dictCreate 0 ∅.
Proof using Hseed Hseed16.
  assert (ht_map dictCreate = ∅) as E by (by apply dict_map_nil). split; [apply dictCreate_wf|done| |].
  - by rewrite E, dom_empty_L.
  - rewrite E. unfold sizes_of. by rewrite map_to_list_empty.
Qed.

Lemma expand_rep d n m size : ht_rep d n m -> 0 <= size < 2 ^ 64 ->
  exists d' ok, dictExpand T can_resize d size = Ret (d', ok) /\ ht_rep d' n m.
Proof using Hseed Hseed16.
  intros Hr Hs. destruct (dictExpand_spec T key_bytes can_resize d size (hr_wf _ _ _ Hr) Hs) as (d' & ok & E & Hd').
  exists d', ok. split; [done|]. destruct (dictIsRehashing d); [by destruct Hd' as [-> _]|].
  destruct Hd' as [Hres _]. apply (ht_rep_same d); [done|]. by apply (rs_same _ _ _ _ _ _ Hres).
Qed.

(** An addition that must succeed. *)
Lemma ht_add_new_spec d n m s x : ht_rep d n m -> sds_rep s x -> member_ok x -> x ∉ m -> Z.of_nat (size m) + 1 < 2 ^ 62 ->
  exists d' n', ht_add_new seed can_resize d n s = Ret (d', n') /\ ht_rep d' n' ({[x]} ∪ m).
Proof using Hseed Hseed16.
  intros Hr Hs Hx Hnew Hsz. destruct (key_of_bytes s x) as (k & Hk & Hks & Hkb); [by eapply rep_key_ok|by apply rep_bytes|].
  unfold ht_add_new. rewrite Hk, ret_bind. pose proof (ht_rep_len _ _ _ Hr) as Hlen.
  destruct (dictAdd_spec T key_bytes can_resize d k tt (hr_wf _ _ _ Hr)) as (d' & E & Hwf' & Hp & Ha & Hm);
    [right; destruct (hr_pause _ _ _ Hr) as [_ ->]; done|lia|].
  assert (entry_canon T key_bytes (k, None (A:=unit)) = x) as Ec by exact Hkb. rewrite Ec in E, Hm.
  assert (ht_map d !! x = None) as Hno by (apply not_elem_of_dom; by rewrite <- (hr_dom _ _ _ Hr)).
  rewrite Hno in E, Hm. rewrite bool_decide_true in E by done. rewrite E, ret_bind. cbn [c_assert]. rewrite ret_bind.
  destruct (key_facts k) as (_ & Hks2 & _). rewrite Hks in Hks2. rewrite Hks2, ret_bind.
  eexists _, _. split; [done|]. by apply (ht_rep_insert d).
Qed.

(** The removal of a member. *)
Lemma ht_delete_spec d n m key : ht_rep d n m ->
  exists d' n', ht_delete seed can_resize d n key = Ret (d', n', bool_decide (key_bytes key ∈ m)) /\
    ht_rep d' n' (m ∖ {[key_bytes key]}).
Proof using Hseed Hseed16.
  intros Hr. pose proof Hr as [Hwf [Hp Ha] Hd Hn]. unfold ht_delete.
  destruct (dictGenericDelete_spec T key_bytes can_resize d key false Hwf) as (d' & he & -> & Hwf' & Hm & Hp' & Ha' & Hhe).
  rewrite ret_bind. set (x := key_bytes key) in *. destruct (ht_map d !! x) as [[k v]|] eqn:Ex.
  - destruct Hhe as [rest Hhe]. assert (is_null he = false) as -> by (by destruct he).
    assert (dictGetKey he = Ret k) as -> by (destruct he; cbn in Hhe |- *; congruence). rewrite ret_bind.
    destruct (key_facts k) as (_ & -> & _). rewrite ret_bind.
    rewrite bool_decide_true by (rewrite Hd; apply elem_of_dom; by rewrite Ex). eexists _, _. split; [done|].
    split; [done|by split; congruence|by rewrite Hm, Hd, dom_delete_L|].
    rewrite Hm, (sizes_delete _ _ k v Ex), Hn. apply u64_sub_l.
  - subst he. cbn [is_null]. assert (x ∉ m) as Hx by (rewrite Hd; by apply not_elem_of_dom).
    rewrite bool_decide_false by done. eexists _, _. split; [done|].
    rewrite delete_id in Hm by done. split; [done|by split; congruence| |by rewrite Hm].
    rewrite Hm, <- Hd. set_solver.
Qed.

(** The lookup of a member. *)
Lemma ht_find_spec d n m key : ht_rep d n m ->
  exists d' de, dictFind T can_resize d key = Ret (d', de) /\ ht_rep d' n m /\ negb (is_null de) = bool_decide (key_bytes key ∈ m).
Proof using Hseed Hseed16.
  intros Hr. destruct (dictFind_spec T key_bytes can_resize d key (hr_wf _ _ _ Hr)) as (d' & de & -> & Hsc & Hde).
  exists d', de. split; [done|]. split; [by apply (ht_rep_same d)|]. pose proof (elem_of_dom (ht_map d) (key_bytes key)) as Hdom.
  rewrite <- (hr_dom _ _ _ Hr) in Hdom. destruct (ht_map d !! key_bytes key) as [x|] eqn:Ex.
  - rewrite bool_decide_true by (by apply Hdom). destruct Hde as [rest Hde]. by destruct de.
  - rewrite bool_decide_false by (rewrite Hdom; by intros [? ?]). by subst de.
Qed.

(** ** Arguments *)

(** [str] and [len] pass the member [x]: an sds whose bytes are [x], or a buffer
    that starts with them. *)
Definition str_arg (str : set_str) (len : Z) (x : list Z) : Prop :=
  len = Zlen x /\ member_ok x /\
  match str with SdsStr s => key_ok s = true /\ s_bytes s = Ret x | CharStr buf => x `prefix_of` buf end.

Lemma str_arg_len str len x : str_arg str len x -> len = Zlen x /\ 0 <= len < 2 ^ 31 /\ u32 len = len.
Proof. intros (-> & [_ Hl] & _). pose proof (Zlen_nonneg x). split; [done|]. split; [lia|]. apply wrapu_id. lia. Qed.

Lemma str_arg_read str len x : str_arg str len x -> str_read str len = Ret x.
Proof.
  intros (-> & _ & Hs). destruct str as [s|buf]; cbn [str_read].
  - by apply s_bytes_inv, Hs.
  - destruct Hs as [rest ->]. apply rdn_head.
Qed.

Lemma str_arg_read32 str len x : str_arg str len x -> str_read str (u32 len) = Ret x.
Proof. intros Hs. destruct (str_arg_len _ _ _ Hs) as (_ & _ & ->). by apply str_arg_read. Qed.

Lemma str_arg_sds s x : sds_rep s x -> member_ok x -> str_arg (SdsStr s) (Zlen x) x.
Proof. intros Hs Hx. split; [done|]. split; [done|]. split; [by eapply rep_key_ok|by apply rep_bytes]. Qed.

Section alloc.
Context `{AllocFits}.

Lemma str_sdsnewlen_spec str len x : str_arg str len x -> exists s, str_sdsnewlen str len = Ret s /\ sds_rep s x.
Proof.
  intros Hs. unfold str_sdsnewlen. rewrite (str_arg_read _ _ _ Hs), ret_bind. destruct (str_arg_len _ _ _ Hs) as (-> & ? & _).
  apply sdsnewlen_from. lia.
Qed.

(** The key a lookup uses: the sds itself, or a temporary copy. *)
Lemma str_key_spec str len x : str_arg str len x ->
  exists s k, (match str with SdsStr s => Ret s | CharStr _ => str_sdsnewlen str len end) = Ret s /\
    key_of s = Ret k /\ key_sds k = s /\ key_bytes k = x /\ match str with SdsStr s' => s' = s | CharStr _ => sds_rep s x end.
Proof.
  intros Hs. pose proof Hs as (Hl & Hx & Hstr). destruct str as [s|buf].
  - destruct Hstr as [Hok Hb]. destruct (key_of_bytes s x Hok Hb) as (k & ? & ? & ?). by exists s, k.
  - destruct (str_sdsnewlen_spec _ _ _ Hs) as (s & E & Hr).
    destruct (key_of_bytes s x) as (k & ? & ? & ?); [by eapply rep_key_ok|by apply rep_bytes|]. by exists s, k.
Qed.

Lemma int_str_spec v : INT64_MIN <= v <= INT64_MAX -> exists str len, int_str v = Ret (str, len) /\ str_arg str len (dec v) /\
  match str with SdsStr _ => False | CharStr _ => True end.
Proof.
  intros Hv. unfold int_str. pose proof (dec_length v Hv) as Hl. unfold LONG_STR_SIZE in Hl.
  rewrite ll2string_ok, ret_bind; [|done|by vm_compute|unfold LONG_STR_SIZE; lia]. eexists _, _. split; [done|]. split; [|done].
  split; [done|]. split; [by apply dec_member|by eexists].
Qed.

(** *** Adding to a hash table *)

Lemma setTypeAdd_ht_spec d n m str len x : ht_rep d n m -> str_arg str len x -> Z.of_nat (size m) + 1 < 2 ^ 62 ->
  exists d' n', setTypeAdd_ht seed can_resize d n str len = Ret (HtObj d' n', negb (bool_decide (x ∈ m))) /\ ht_rep d' n' ({[x]} ∪ m).
Proof using All.
  intros Hr Hs Hsz. destruct (str_key_spec str len x Hs) as (s & k & E & Hk & Hks & Hkb & Hstr).
  unfold setTypeAdd_ht. rewrite E, ret_bind, Hk, ret_bind.
  pose proof (dictFindLink_spec T key_bytes can_resize d k true (hr_wf _ _ _ Hr)) as (d1 & r & b & Hf & _ & _).
  rewrite Hf, ret_bind. apply (dictFindLink_link T key_bytes can_resize) in Hf as [Hsc Hl]; [|apply Hr].
  rewrite Hkb in Hl. destruct r as [link|].
  - destruct Hl as (e & _ & Hm). assert (x ∈ m) as Hin by (rewrite (hr_dom _ _ _ Hr); apply elem_of_dom; by rewrite Hm).
    rewrite bool_decide_true by done. eexists _, _. split; [done|]. replace ({[x]} ∪ m) with m by (clear -Hin; set_solver).
    by apply (ht_rep_same d).
  - destruct Hl as [Hm Hb]. assert (x ∉ m) as Hout by (rewrite (hr_dom _ _ _ Hr); by apply not_elem_of_dom).
    rewrite bool_decide_false by done.
    assert (exists s2, (match str with SdsStr s => sdsdup s | CharStr _ => Ret s end) = Ret s2 /\ sds_rep s2 x) as (s2 & -> & Hs2).
    { destruct str as [s'|buf]; [|by exists s]. subst s'. pose proof Hs as (_ & [_ Hx] & _ & Hbs). apply s_bytes_inv in Hbs as [Hlen Hrd].
      unfold sdsdup. rewrite Hlen, ret_bind, Hrd, ret_bind. apply sdsnewlen_from. lia. }
    rewrite ret_bind. destruct Hs as (_ & Hx & _). destruct (key_of_bytes s2 x) as (k2 & -> & Hks2 & Hkb2);
      [by eapply rep_key_ok|by apply rep_bytes|]. rewrite ret_bind.
    destruct (set_new_spec T key_bytes can_resize (fun k => k) d d1 k k2 b Hsc) as (d2 & link & Hset & Hwf2 & _ & Hm2);
      [rewrite (ht_rep_len _ _ _ Hr); lia|change (key_bytes k2 = key_bytes k); congruence|by rewrite Hkb|done|].
    pose proof (dictSetKeyAtLink_frame T can_resize (fun k => k) same_pauses _ _ _ _ _ Hset) as Hp. cbn [fst] in Hp.
    rewrite Hset, ret_bind. destruct (key_facts k2) as (_ & Hsz2 & _). rewrite Hks2 in Hsz2. rewrite Hsz2, ret_bind.
    eexists _, _. split; [done|]. apply (ht_rep_insert d); [done|done| |done|by rewrite Hm2, Hkb].
    destruct Hp as [Hp1 Hp2]. split; [rewrite Hp1|rewrite Hp2]; apply Hsc.
Qed.

(** ** Iteration *)

Section walk.
Context (table_addr : sdict -> Z -> Z).

Definition elem_denotes (e : set_elem) (x : list Z) : Prop :=
  match e with
  | StrElem str len => str_arg str len x
  | IntElem v => x = dec v /\ INT64_MIN <= v <= INT64_MAX
  end.

(** The elements of a hash table are keys, those of an intset integers. *)
Definition elem_kind o (e : set_elem) : Prop :=
  match o with
  | HtObj _ _ => exists k, e = StrElem (SdsStr (key_sds k)) (Zlen (key_bytes k))
  | IntsetObj _ => exists v, e = IntElem v
  | ListpackObj _ => True
  end.

(** The calls of [setTypeNext] until the end. *)
Inductive walk o : setTypeIterator -> list set_elem -> setTypeIterator -> Prop :=
| walk_end si si' : setTypeNext table_addr o si = Ret (o, si', None) -> walk o si [] si'
| walk_cons si e si1 l si' : setTypeNext table_addr o si = Ret (o, si1, Some e) -> walk o si1 l si' -> walk o si (e :: l) si'.

Lemma intset_range iset vs : Rep iset vs -> Forall (fun v => INT64_MIN <= v <= INT64_MAX) vs.
Proof.
  intros HR. eapply list.Forall_impl; [apply (rep_fits _ _ HR)|]. intros v Hv.
  pose proof (valid_enc_bounds _ (rep_enc _ _ HR)). apply (fits_mono _ 8) in Hv; [|lia..]. unfold fits, INT64_MIN, INT64_MAX in *. lia.
Qed.

Lemma walk_intset iset vs i : Rep iset vs -> (i <= length vs)%nat ->
  exists si', walk (IntsetObj iset) (SiIntset (Z.of_nat i)) (IntElem <$> drop i vs) si'.
Proof.
  intros HR Hi. pose proof (Intset.rep_small _ _ HR) as Hsm. unfold Zlen in Hsm. remember (length vs - i)%nat as k eqn:Ek.
  revert i Hi Ek. induction k as [|k IH]; intros i Hi Ek.
  - exists (SiIntset (s32 (Z.of_nat i + 1))). rewrite drop_ge by lia. apply walk_end. cbn [setTypeNext]. unfold intsetGet.
    rewrite wrapu_id by lia. rewrite (Intset.rep_len _ _ HR). destruct (Z.ltb_spec (Z.of_nat i) (Zlen vs)) as [Hlt|]; [unfold Zlen in Hlt; lia|done].
  - destruct (lookup_lt_is_Some_2 vs i) as [v Hv]; [lia|]. destruct (IH (S i)) as [si' Hw]; [lia|lia|]. exists si'.
    rewrite (drop_S _ _ _ Hv). cbn [fmap list_fmap]. apply (walk_cons _ _ _ (SiIntset (Z.of_nat (S i)))); [|exact Hw].
    cbn [setTypeNext]. unfold intsetGet. rewrite wrapu_id by lia. rewrite (Intset.rep_len _ _ HR).
    destruct (Z.ltb_spec (Z.of_nat i) (Zlen vs)) as [_|Hge]; [|unfold Zlen in Hge; lia].
    rewrite (rep_get _ _ HR _ _ Hv), !ret_bind. do 3 f_equal. rewrite wraps_id by lia. f_equal. lia.
Qed.

(** The iterator of a listpack after [i] elements. *)
Definition lp_iter (es : list (list Z)) (i : nat) : setTypeIterator :=
  SiListpack match i with O => None | S j => Some (lp_off es j) end.

Lemma lpGetValue_wf lp es total i e : lp_wf lp es total -> es !! i = Some e -> member_ok (lp_value e) ->
  exists g, lpGetValue lp (lp_off es i) = Ret g /\
    elem_denotes (match g with GotPtr q l => StrElem (CharStr (drop (Z.to_nat q) lp)) l | GotBuf _ v | GotInt v => IntElem v end) (lp_value e).
Proof.
  intros Hwf He Hm. destruct (entry_get lp (lp_off es i) e 0 (wf_at _ _ _ Hwf _ _ He)) as (g & _ & Hg & Hgv).
  unfold lpGetValue. rewrite Hg, ret_bind. destruct g as [q n|buf n|v]; [|done|by eexists].
  destruct Hgv as [Hr ->]. pose proof (Zlen_nonneg (lp_value e)). destruct Hm as [Hb Hl]. rewrite wrapu_id by lia.
  eexists. split; [done|]. split; [done|]. split; [done|].
  pose proof (rdn_length _ _ _ _ Hr) as (_ & Hq & Hle). rewrite rdn_ok in Hr by lia. injection Hr as Hr.
  rewrite <- Hr at 1. exists (drop (Z.to_nat (Zlen (lp_value e))) (drop (Z.to_nat q) lp)). by rewrite take_drop.
Qed.

Lemma walk_listpack lp es i : lp_wf lp es (lp_total es) -> Forall (fun e => member_ok (lp_value e)) es -> (i <= length es)%nat ->
  exists l si', walk (ListpackObj lp) (lp_iter es i) l si' /\ Forall2 elem_denotes l (lp_value <$> drop i es).
Proof.
  intros Hwf Hm Hi. remember (length es - i)%nat as k eqn:Ek.
  assert (forall j, (j <= length es)%nat ->
    (match (match j with O => None | S j => Some (lp_off es j) end) with None => lpFirst lp | Some p => lpNext lp p end) = Ret (lp_ptr es j)) as Hnext.
  { intros [|j] Hj; [by apply (lpFirst_wf _ _ _ Hwf)|]. apply (lpNext_wf _ _ _ Hwf). lia. }
  revert i Hi Ek. induction k as [|k IH]; intros i Hi Ek.
  - exists [], (lp_iter es i). rewrite drop_ge by lia. split; [|constructor]. apply walk_end. cbn [setTypeNext lp_iter].
    rewrite Hnext, ret_bind by lia. unfold lp_ptr. by rewrite decide_False by lia.
  - destruct (lookup_lt_is_Some_2 es i) as [e He]; [lia|]. destruct (IH (S i)) as (l & si' & Hw & Hl); [lia|lia|].
    destruct (lpGetValue_wf lp es _ i e Hwf He) as (g & Hg & Hd); [by apply (Forall_lookup_1 _ _ _ _ Hm He)|].
    eexists (_ :: l), si'. rewrite (drop_S _ _ _ He). split; [|constructor; [exact Hd|exact Hl]].
    apply (walk_cons _ _ _ (lp_iter es (S i))); [|exact Hw].
    cbn [setTypeNext lp_iter]. rewrite Hnext, ret_bind by lia. unfold lp_ptr. rewrite decide_True by lia. by rewrite Hg, ret_bind.
Qed.

Lemma key_elem k : str_arg (SdsStr (key_sds k)) (Zlen (key_bytes k)) (key_bytes k).
Proof. destruct (key_facts k) as (Hb & _ & Hm). split; [done|]. split; [done|]. split; [|done]. by destruct k. Qed.

Definition key_elem_of (e : set_key * option unit) : set_elem := StrElem (SdsStr (key_sds e.1)) (Zlen (key_bytes e.1)).

Lemma walk_ht n l : forall d di d0 di0, shape T d ->
  next_result d di l (dictNext table_addr d0 di0) -> d0 = d ->
  exists di', walk (HtObj d n) (SiHt di0) (key_elem_of <$> l) (SiHt di') /\ it_safe di' = it_safe di /\
    it_fingerprint di' = it_fingerprint di /\ not_started di' = false.
Proof.
  induction l as [|[k v] l IH]; intros d di d0 di0 Hs (di1 & de & Hr & Hsafe & Hfp & Hst & Hl) ->.
  - subst de. exists di1. split; [|done]. apply walk_end. cbn [setTypeNext]. by rewrite Hr.
  - destruct Hl as (Hde & Hok & He & Hp). assert (is_null de = false) as Hnull by (by destruct de).
    assert (dictGetKey de = Ret k) as Hkey by (destruct de; cbn in Hde |- *; congruence).
    destruct (IH d di1 d di1 Hs) as (di2 & Hw & Hsafe' & Hfp' & Hst'); [|done|].
    { rewrite <- Hp. apply (dictNext_spec T); [done|done|]. rewrite He. by destruct de. }
    exists di2. rewrite Hsafe', Hfp'. split; [|done]. cbn [fmap list_fmap]. apply (walk_cons _ _ _ (SiHt di1)); [|exact Hw].
    cbn [setTypeNext]. rewrite Hr, ret_bind, Hnull, Hkey, ret_bind. destruct (key_facts k) as (Hb & _ & _).
    apply s_bytes_inv in Hb as [-> _]. done.
Qed.

Lemma ht_texts d n m : ht_rep d n m -> NoDup ((fun e => key_bytes e.1) <$> entries d) /\
  m = list_to_set ((fun e => key_bytes e.1) <$> entries d).
Proof.
  intros [Hwf _ Hd _]. split; [exact (wf_uniq _ _ _ Hwf)|]. rewrite Hd. unfold dict_map. rewrite dom_list_to_map_L, fst_entries. done.
Qed.

(** An iterator yields every member exactly once, leaves the set alone and can
    be reset. *)
Lemma iterator_spec o m : set_rep o m -> exists l si' xs,
  walk o (setTypeInitIterator o) l si' /\ Forall2 elem_denotes l xs /\ Forall (elem_kind o) l /\
  NoDup xs /\ m = list_to_set xs /\ (length l < iter_fuel o)%nat /\ setTypeResetIterator table_addr o si' = Ret o.
Proof using Hseed Hseed16.
  intros [Hc Hm]. destruct o as [iset|lp|d n]; cbn [set_contents setTypeInitIterator iter_fuel setTypeResetIterator] in *.
  - destruct Hc as (vs & HR & ->). destruct (walk_intset iset vs 0 HR) as [si' Hw]; [lia|]. rewrite drop_0 in Hw.
    exists (IntElem <$> vs), si', (dec <$> vs). split; [done|]. pose proof (intset_range _ _ HR) as Hrange.
    split; [|split; [|split; [|split; [done|split; [|]]]]].
    + apply Forall2_fmap_2. clear -Hrange. induction Hrange; constructor; [|done]. done.
    + apply Forall_fmap. apply list.Forall_true. intros v. by exists v.
    + apply NoDup_fmap_2_strong; [|apply sorted_NoDup, HR]. intros v w Hv Hw' E.
      assert (string2ll (dec v) = Some v) as E1 by (apply string2ll_dec; by apply (proj1 (list.Forall_forall _ _) Hrange)).
      rewrite E, string2ll_dec in E1 by (by apply (proj1 (list.Forall_forall _ _) Hrange)). by injection E1.
    + rewrite length_fmap, (Intset.rep_len _ _ HR). unfold Zlen. lia.
    + by destruct si'.
  - destruct Hc as (es & Hr & Hnd & ->). pose proof (rep_wf _ _ Hr) as Hwf.
    destruct (walk_listpack lp es 0 Hwf) as (l & si' & Hw & Hl); [|lia|].
    { apply list.Forall_forall. intros e He. apply Hm. apply elem_of_list_to_set, list_elem_of_fmap. by exists e. }
    rewrite drop_0 in Hl. exists l, si', (lp_value <$> es). split; [done|]. split; [done|]. split; [by apply list.Forall_true|].
    split; [done|]. split; [done|]. split; [|by destruct si'].
    pose proof (Forall2_length Hl) as El. rewrite length_fmap in El. pose proof (wf_fuel _ _ _ Hwf). lia.
  - destruct (ht_texts _ _ _ Hc) as [Hnd ->]. pose proof (hr_wf _ _ _ Hc) as Hwf. pose proof (wf_shape _ _ _ Hwf) as Hs.
    destruct (walk_ht n (entries d) d _ d dictInitIterator Hs (dictNext_first T table_addr d false Hs) eq_refl)
      as (di & Hw & Hsafe & Hfp & Hst). exists (key_elem_of <$> entries d), (SiHt di), ((fun e => key_bytes e.1) <$> entries d).
    split; [done|]. split; [|split; [|split; [done|split; [done|split]]]].
    + apply Forall2_fmap_2. clear. induction (entries d); constructor; [apply key_elem|done].
    + apply Forall_fmap, list.Forall_true. intros [k v]. by exists k.
    + rewrite length_fmap, (dictSize_spec _ _ _ Hwf). unfold Zlen. lia.
    + cbn [setTypeResetIterator]. unfold dictResetIterator. rewrite Hst, Hsafe, Hfp. cbn [negb it_safe it_fingerprint]. by rewrite Z.eqb_refl.
Qed.
End walk.

(** ** Loops over a set *)

Fixpoint fold_out {A E} (f : A -> E -> outcome A) (a : A) (l : list E) : outcome A :=
  match l with [] => Ret a | e :: l => a ← f a e; fold_out f a l end.

Section conversion.
Context (table_addr : sdict -> Z -> Z) (server : set_config).

Lemma while_walk {A} (body : A -> set_elem -> outcome A) o si l si' : walk table_addr o si l si' -> forall fuel a, (length l < fuel)%nat ->
  while_next (setTypeNext table_addr) body fuel o si a = (a ← fold_out body a l; Ret (o, si', a)).
Proof.
  induction 1 as [si si' E|si e si1 l si' E _ IH]; intros [|fuel] a Hf; cbn [length] in Hf; [lia| |lia|];
    cbn [while_next fold_out]; rewrite E, ret_bind; [done|].
  rewrite bind_assoc_outcome. destruct (body a e); try done. rewrite !ret_bind. apply IH. lia.
Qed.

(** [setTypeNextObject] makes a string of each element. *)
Definition elem_object (e : set_elem) : outcome sds :=
  match e with StrElem str len => str_sdsnewlen str len | IntElem v => sdsfromlonglong v end.

Lemma while_object {A} (body : A -> sds -> outcome A) fuel : forall o si a,
  while_next (setTypeNextObject table_addr) body fuel o si a =
  while_next (setTypeNext table_addr) (fun a e => s ← elem_object e; body a s) fuel o si a.
Proof.
  induction fuel as [|fuel IH]; intros o si a; cbn [while_next]; [done|]. unfold setTypeNextObject.
  destruct (setTypeNext table_addr o si) as [[[o' si'] [e|]]| | |]; try done. rewrite !ret_bind.
  destruct e as [str len|v]; cbn [elem_object].
  - destruct (str_sdsnewlen str len); try done. rewrite !ret_bind. destruct (body a _); try done. rewrite !ret_bind. apply IH.
  - destruct (sdsfromlonglong v); try done. rewrite !ret_bind. destruct (body a _); try done. rewrite !ret_bind. apply IH.
Qed.

Lemma elem_member e x : elem_denotes e x -> member_ok x.
Proof. destruct e as [str len|v]; [by intros (_ & ? & _)|intros [-> ?]; by apply dec_member]. Qed.

Lemma elem_object_spec e x : elem_denotes e x -> exists s, elem_object e = Ret s /\ sds_rep s x.
Proof. destruct e as [str len|v]; [by apply str_sdsnewlen_spec|intros [-> ?]; by apply sdsfromlonglong_spec]. Qed.

(** *** To a hash table *)

Lemma fold_ht l xs : Forall2 elem_denotes l xs -> forall d n m, NoDup xs -> (forall x, x ∈ xs -> x ∉ m) -> ht_rep d n m ->
  Z.of_nat (size m) + Zlen xs < 2 ^ 62 -> exists d' n',
  fold_out (fun r e => s ← elem_object e; ht_add_new seed can_resize r.1 r.2 s) (d, n) l = Ret (d', n') /\ ht_rep d' n' (list_to_set xs ∪ m).
Proof using All.
  induction 1 as [|e x l xs He _ IH]; intros d n m Hnd Hout Hr Hsz; cbn [fold_out].
  - exists d, n. split; [done|]. cbn [list_to_set]. by rewrite union_empty_l_L.
  - apply list.NoDup_cons in Hnd as [Hx Hnd]. rewrite Zlen_cons in Hsz. pose proof (Zlen_nonneg xs).
    assert (x ∉ m) as Hxm by (apply Hout; left).
    destruct (elem_object_spec e x He) as (s & -> & Hs). rewrite ret_bind. cbn [fst snd].
    destruct (ht_add_new_spec d n m s x Hr Hs (elem_member _ _ He) Hxm) as (d1 & n1 & -> & Hr1); [lia|]. rewrite ret_bind.
    destruct (IH d1 n1 ({[x]} ∪ m) Hnd) as (d' & n' & -> & Hr'); [|done| |].
    { intros y Hy. rewrite elem_of_union, elem_of_singleton. intros [->|Hym]; [done|]. by apply (Hout y); [right|]. }
    { rewrite size_union, size_singleton by (apply disjoint_singleton_l; done). lia. }
    exists d', n'. split; [done|]. cbn [list_to_set]. by rewrite (union_comm_L {[x]}), <- union_assoc_L.
Qed.

Lemma try_expand_rep cap avail : 0 <= cap < 2 ^ 64 -> exists d' ok,
  dictTryExpand T can_resize dictCreate cap avail = Ret (d', ok) /\ ht_rep d' 0 ∅ /\ (avail = true -> ok = true).
Proof using Hseed Hseed16.
  intros Hc. unfold dictTryExpand, _dictExpand. cbn [dictIsRehashing dictCreate rehashidx Z.eqb negb Pos.eqb orb].
  destruct (_ || _); [by exists dictCreate, true; split; [done|]; split; [apply created_rep|]|].
  destruct (_dictResize_spec T key_bytes can_resize dictCreate cap true avail (dictCreate_wf T key_bytes) eq_refl Hc) as (d' & ok & mf & -> & Hres & Hmf & _).
  rewrite ret_bind. eexists _, _. split; [done|]. split; [by eapply ht_rep_same; [apply created_rep|apply Hres]|].
  intros ->. destruct mf; [by specialize (Hmf eq_refl)|done].
Qed.

(** The elements of an object, as the conversions see them. *)
Lemma convert_ht_spec o m cap panic avail : set_rep o m -> encoding_of o <> OBJ_ENCODING_HT -> 0 <= cap < 2 ^ 64 ->
  Z.of_nat (size m) < 2 ^ 62 -> exists o' ok,
  setTypeConvertAndExpand seed can_resize table_addr o OBJ_ENCODING_HT cap panic avail = Ret (o', ok) /\
  set_rep o' m /\ (if ok then encoding_of o' = OBJ_ENCODING_HT else o' = o) /\ (panic = true \/ avail = true -> ok = true).
Proof using All.
  intros Hr Henc Hc Hsz. unfold setTypeConvertAndExpand. rewrite (bool_decide_false _ Henc). cbn [negb c_assert]. rewrite ret_bind.
  assert (exists d ok, (if panic then '(d, _) ← dictExpand T can_resize dictCreate cap; Ret (d, true)
    else dictTryExpand T can_resize dictCreate cap avail) = Ret (d, ok) /\ ht_rep d 0 ∅ /\ (panic = true \/ avail = true -> ok = true))
    as (d & ok & -> & Hd & Hok).
  { destruct panic.
    - destruct (expand_rep dictCreate 0 ∅ cap created_rep Hc) as (d & ok & -> & Hd). rewrite ret_bind. by exists d, true.
    - destruct (try_expand_rep cap avail Hc) as (d & ok & -> & Hd & Hok). exists d, ok. split; [done|]. split; [done|]. by intros [?|?]; [|apply Hok]. }
  rewrite ret_bind. destruct ok; cbn [negb]; [|by exists o, false].
  destruct (iterator_spec table_addr o m Hr) as (l & si' & xs & Hw & Hl & _ & Hnd & -> & Hf & Hreset).
  rewrite while_object, (while_walk _ _ _ _ _ Hw) by done.
  destruct (fold_ht l xs Hl d 0 ∅ Hnd) as (d' & n' & E & Hr'); [set_solver|done| |].
  { rewrite size_empty. rewrite size_list_to_set in Hsz by done. unfold Zlen. lia. }
  cbv beta in E. rewrite E, ret_bind, ret_bind, Hreset, ret_bind. exists (HtObj d' n'), true. split; [done|].
  split; [|done]. split; [|apply Hr]. by rewrite union_empty_r_L in Hr'.
Qed.

(** *** To a listpack *)

Lemma element_small x : member_ok x -> Zlen (lp_element x) < 2 ^ 32.
Proof.
  intros [_ Hl]. unfold lp_element. destruct (lpStringToInt64 x) as [v|] eqn:E.
  - apply lpStringToInt64_sound in E as [_ Hv]. by destruct (int_payload_valid v Hv) as (_ & ? & _).
  - rewrite Zlen_app. unfold lpStringHeader. repeat case_match; zlen; lia.
Qed.

Lemma element_value x : member_ok x -> lp_value (lp_element x) = x.
Proof. intros Hx. by apply lp_value_element, element_small. Qed.

Lemma element_dec v : INT64_MIN <= v <= INT64_MAX -> lp_element (dec v) = lpEncodeIntegerGetType v.
Proof. intros Hv. unfold lp_element. by rewrite (proj2 (lpStringToInt64_dec v (dec v) Hv)). Qed.

Lemma lp_total_app es1 es2 : lp_total (es1 ++ es2) = lp_total es1 + Zlen (body es2).
Proof. unfold lp_total. rewrite body_app, Zlen_app. lia. Qed.

Lemma lp_total_perm es1 es2 : es1 ≡ₚ es2 -> lp_total es1 = lp_total es2.
Proof. intros Hp. unfold lp_total. rewrite !Zlen_body. f_equal. apply zsum_perm. by rewrite Hp. Qed.

Lemma element_values xs : Forall member_ok xs -> lp_value <$> (lp_element <$> xs) = xs.
Proof.
  intros Hm. rewrite <- list_fmap_compose. induction Hm as [|x xs Hx _ IH]; [done|]. cbn [fmap list_fmap compose]. by rewrite element_value, IH.
Qed.

(** The size of a listpack of a set, whatever the order. *)
Lemma lp_total_set (m : gset (list Z)) xs : NoDup xs -> m = list_to_set xs -> lp_total (lp_element <$> elements m) = lp_total (lp_element <$> xs).
Proof. intros Hnd ->. by apply lp_total_perm, fmap_Permutation, elements_list_to_set. Qed.

(** A listpack made of members. *)
Lemma elements_rep lp xs : lp_rep lp (lp_element <$> xs) -> NoDup xs -> Forall member_ok xs -> set_rep (ListpackObj lp) (list_to_set xs).
Proof.
  intros Hr Hnd Hm. pose proof (element_values xs Hm) as E.
  split.
  - exists (lp_element <$> xs). by rewrite E.
  - intros x Hx. apply elem_of_list_to_set in Hx. by apply (proj1 (list.Forall_forall _ _) Hm).
Qed.

(** The members of a listpack set, with their encodings. *)
Lemma set_rep_intro_lp lp es m : lp_rep lp es -> NoDup (lp_value <$> es) -> m = list_to_set (lp_value <$> es) ->
  (forall x, x ∈ m -> member_ok x) -> set_rep (ListpackObj lp) m.
Proof. intros Hr Hnd Hm Hx. split; [|done]. by exists es. Qed.

Definition append_elem (lp : list Z) (e : set_elem) : outcome (list Z) :=
  r ← match e with
      | StrElem str len => ele ← str_read str (u32 len); lpAppend lp ele
      | IntElem llele => lpAppendInteger lp llele
      end;
  lp_deref r.

Lemma append_elem_spec lp es e x : lp_rep lp es -> elem_denotes e x -> lp_total (es ++ [lp_element x]) < 2 ^ 32 ->
  exists lp', append_elem lp e = Ret lp' /\ lp_rep lp' (es ++ [lp_element x]).
Proof.
  intros Hr He Ht. unfold append_elem. destruct e as [str len|v].
  - rewrite (str_arg_read32 _ _ _ He), ret_bind. destruct (elem_member _ _ He) as [Hb Hl].
    pose proof (lpAppend_spec lp es x Hr Hb ltac:(lia)) as Ha. unfold edit_result in Ha. rewrite (proj2 (Z.ltb_lt _ _) Ht) in Ha.
    destruct Ha as (lp' & -> & Hr'). exists lp'. by rewrite ret_bind.
  - destruct He as [-> Hv]. pose proof (lpAppendInteger_spec lp es v Hr Hv) as Ha. rewrite element_dec in * by done.
    unfold edit_result in Ha. rewrite (proj2 (Z.ltb_lt _ _) Ht) in Ha. destruct Ha as (lp' & -> & Hr'). exists lp'. by rewrite ret_bind.
Qed.

Lemma fold_lp l xs : Forall2 elem_denotes l xs -> forall lp es, lp_rep lp es -> lp_total (es ++ (lp_element <$> xs)) < 2 ^ 32 ->
  exists lp', fold_out append_elem lp l = Ret lp' /\ lp_rep lp' (es ++ (lp_element <$> xs)).
Proof.
  induction 1 as [|e x l xs He _ IH]; intros lp es Hr Ht; cbn [fold_out fmap list_fmap].
  - exists lp. by rewrite app_nil_r.
  - cbn [fmap list_fmap] in Ht. rewrite cons_middle, app_assoc in Ht |- *.
    destruct (append_elem_spec lp es e x Hr He) as (lp1 & -> & Hr1); [rewrite lp_total_app in Ht; pose proof (zlen_body_nonneg (lp_element <$> xs)); lia|].
    rewrite ret_bind. by apply IH.
Qed.

Lemma convert_listpack_spec o m cap panic avail : set_rep o m -> encoding_of o <> OBJ_ENCODING_LISTPACK ->
  lp_total (lp_element <$> elements m) < 2 ^ 32 ->
  exists lp xs, setTypeConvertAndExpand seed can_resize table_addr o OBJ_ENCODING_LISTPACK cap panic avail = Ret (ListpackObj lp, true) /\
    lp_rep lp (lp_element <$> xs) /\ NoDup xs /\ m = list_to_set xs /\ Forall member_ok xs.
Proof using All.
  intros Hr Henc Ht. unfold setTypeConvertAndExpand. rewrite (bool_decide_false _ Henc). cbn [negb c_assert]. rewrite ret_bind.
  match goal with |- context [estcap ← ?E; _] => assert (exists cap', E = Ret cap') as [cap' ->] end.
  { destruct o as [iset|lp|d n]; [|by eexists..]. destruct Hr as [(vs & HR & _) _]. unfold intsetLen. rewrite (Intset.rep_len _ _ HR).
    destruct (Z.ltb_spec 0 (Zlen vs)) as [Hlt|]; [|by eexists].
    destruct (min_max_spec iset vs HR) as (mn & mx & -> & -> & _); [by intros ->|]. rewrite !ret_bind. by eexists. }
  rewrite ret_bind. destruct (lpNew_spec cap') as (lp0 & -> & Hlp0). rewrite ret_bind.
  destruct (iterator_spec table_addr o m Hr) as (l & si' & xs & Hw & Hl & _ & Hnd & Em & Hf & Hreset).
  rewrite (while_walk _ _ _ _ _ Hw) by done. change (fun lp e => _) with append_elem.
  rewrite (lp_total_set m xs Hnd Em) in Ht.
  destruct (fold_lp l xs Hl lp0 []) as (lp & -> & Hlp); [done|done|]. rewrite !ret_bind, Hreset, ret_bind.
  exists lp, xs. split; [done|]. split; [done|]. split; [done|]. split; [done|].
  clear -Hl. induction Hl; constructor; [by eapply elem_member|done].
Qed.

(** ** Size, and conversion when a limit is crossed *)

Lemma size_of_texts (xs : list (list Z)) : NoDup xs -> Z.of_nat (size (list_to_set xs : gset (list Z))) = Zlen xs.
Proof. intros Hnd. by rewrite size_list_to_set. Qed.

Lemma dec_NoDup iset vs : Rep iset vs -> NoDup (dec <$> vs).
Proof.
  intros HR. pose proof (intset_range _ _ HR) as Hr. apply NoDup_fmap_2_strong; [|apply sorted_NoDup, HR]. intros v w Hv Hw E.
  assert (string2ll (dec v) = Some v) as E1 by (apply string2ll_dec; by apply (proj1 (list.Forall_forall _ _) Hr)).
  rewrite E, string2ll_dec in E1 by (by apply (proj1 (list.Forall_forall _ _) Hr)). by injection E1.
Qed.

Lemma Zlen_fmap {A B} (f : A -> B) (l : list A) : Zlen (f <$> l) = Zlen l.
Proof. unfold Zlen. by rewrite length_fmap. Qed.

Lemma intset_size iset vs : Rep iset vs -> Z.of_nat (size (list_to_set (dec <$> vs) : gset (list Z))) = Zlen vs.
Proof. intros HR. rewrite size_of_texts by (by eapply dec_NoDup). apply Zlen_fmap. Qed.

Lemma setTypeSize_spec o m : set_rep o m -> exists o', setTypeSize o = Ret (o', Z.of_nat (size m)) /\ set_rep o' m /\
  encoding_of o' = encoding_of o.
Proof using Hseed Hseed16.
  intros Hr. pose proof Hr as [Hc Hm]. destruct o as [iset|lp|d n]; cbn [set_contents setTypeSize] in *.
  - destruct Hc as (vs & HR & E). eexists. split; [|done]. unfold intsetLen. rewrite E, (intset_size _ _ HR), (Intset.rep_len _ _ HR). done.
  - destruct Hc as (es & Hlp & Hnd & E). destruct (lpLength_rep lp es Hlp) as (lp' & -> & Hlp'). rewrite ret_bind. exists (ListpackObj lp').
    split; [by rewrite E, size_of_texts, Zlen_fmap|]. split; [by eapply set_rep_intro_lp|done].
  - eexists. split; [|done]. by rewrite (dictSize_spec _ _ _ (hr_wf _ _ _ Hc)), (ht_rep_len _ _ _ Hc).
Qed.

Lemma setTypeConvert_ht_spec o m : set_rep o m -> encoding_of o <> OBJ_ENCODING_HT -> Z.of_nat (size m) < 2 ^ 62 -> exists o',
  setTypeConvert seed can_resize table_addr o OBJ_ENCODING_HT = Ret o' /\ set_rep o' m /\ encoding_of o' = OBJ_ENCODING_HT.
Proof using All.
  intros Hr He Hsz. unfold setTypeConvert. destruct (setTypeSize_spec o m Hr) as (o1 & -> & Hr1 & He1). rewrite ret_bind.
  destruct (convert_ht_spec o1 m (Z.of_nat (size m)) true true Hr1) as (o' & ok & -> & Hr' & He' & Hok); [congruence|lia|done|].
  rewrite ret_bind. exists o'. split; [done|]. split; [done|]. by rewrite (Hok (or_introl eq_refl)) in He'.
Qed.

(** The limits of the configuration on the compact encodings. *)
Definition within_limits o m : Prop :=
  match o with
  | IntsetObj _ => Z.of_nat (size m) <= intsetMaxEntries server
  | ListpackObj _ => Z.of_nat (size m) <= set_max_listpack_entries server /\
      forall x, x ∈ m -> Zlen x <= set_max_listpack_value server
  | HtObj _ _ => True
  end.

Lemma ht_limits o m : encoding_of o = OBJ_ENCODING_HT -> within_limits o m.
Proof. by destruct o. Qed.

Lemma maybeConvertIntset_spec iset m : set_rep (IntsetObj iset) m -> exists o',
  maybeConvertIntset seed can_resize table_addr server (IntsetObj iset) = Ret o' /\ set_rep o' m /\ within_limits o' m.
Proof using All.
  intros Hr. unfold maybeConvertIntset, intsetLen. pose proof Hr as [(vs & HR & E) _]. pose proof (intset_size _ _ HR) as Hsz.
  rewrite <- E in Hsz. rewrite (Intset.rep_len _ _ HR), <- Hsz. pose proof (Intset.rep_small _ _ HR).
  destruct (Z.ltb_spec (intsetMaxEntries server) (Z.of_nat (size m))).
  - destruct (setTypeConvert_ht_spec _ m Hr) as (o' & -> & Hr' & He'); [done|lia|]. exists o'. split; [done|]. split; [done|by apply ht_limits].
  - exists (IntsetObj iset). done.
Qed.

(** ** Integers in an intset *)

Lemma dec_elem vs v : Forall (fun v => INT64_MIN <= v <= INT64_MAX) vs -> INT64_MIN <= v <= INT64_MAX -> dec v ∈ dec <$> vs <-> v ∈ vs.
Proof.
  intros Hr Hv. rewrite list_elem_of_fmap. split; [|by exists v]. intros (w & E & Hw).
  assert (string2ll (dec v) = Some v) as E1 by (by apply string2ll_dec).
  rewrite E, string2ll_dec in E1 by (by apply (proj1 (list.Forall_forall _ _) Hr)). by injection E1 as ->.
Qed.

Lemma intset_texts iset m v : set_rep (IntsetObj iset) m -> INT64_MIN <= v <= INT64_MAX ->
  exists vs, Rep iset vs /\ (forall w, INT64_MIN <= w <= INT64_MAX -> dec w ∈ m <-> w ∈ vs) /\ Z.of_nat (size m) = Zlen vs /\
    bool_decide (dec v ∈ m) = bool_decide (v ∈ vs).
Proof.
  intros [(vs & HR & ->) _] Hv. exists vs. pose proof (intset_range _ _ HR) as Hrange.
  assert (forall w, INT64_MIN <= w <= INT64_MAX -> dec w ∈ (list_to_set (dec <$> vs) : gset (list Z)) <-> w ∈ vs) as Hw.
  { intros w Hw. rewrite elem_of_list_to_set. by apply dec_elem. }
  split; [done|]. split; [done|]. split; [by eapply intset_size|]. by apply bool_decide_ext, Hw.
Qed.

(** A text in an intset is that of an integer. *)
Lemma intset_not_int iset m x : set_rep (IntsetObj iset) m -> string2ll x = None -> x ∉ m.
Proof.
  intros [(vs & HR & ->) _] Hx. rewrite elem_of_list_to_set, list_elem_of_fmap. intros (v & -> & Hv).
  rewrite string2ll_dec in Hx; [done|]. by apply (proj1 (list.Forall_forall _ _) (intset_range _ _ HR)).
Qed.

(** An updated intset, from what its integers are. *)
Lemma intset_update iset' vs' m' : Rep iset' vs' -> (forall x, x ∈ m' <-> exists v, x = dec v /\ v ∈ vs') -> set_rep (IntsetObj iset') m'.
Proof.
  intros HR Hm. split.
  - exists vs'. split; [done|]. apply set_eq. intros x. rewrite Hm, elem_of_list_to_set, list_elem_of_fmap. done.
  - intros x (v & -> & Hv)%Hm. apply dec_member. by apply (proj1 (list.Forall_forall _ _) (intset_range _ _ HR)).
Qed.

Lemma intset_elem iset m x : set_rep (IntsetObj iset) m -> x ∈ m -> exists v, x = dec v /\ INT64_MIN <= v <= INT64_MAX.
Proof.
  intros [(vs & HR & ->) _]. rewrite elem_of_list_to_set, list_elem_of_fmap. intros (v & -> & Hv). exists v. split; [done|].
  by apply (proj1 (list.Forall_forall _ _) (intset_range _ _ HR)).
Qed.

Lemma intsetAdd_rep iset m v : set_rep (IntsetObj iset) m -> INT64_MIN <= v <= INT64_MAX -> Z.of_nat (size m) + 1 < 2 ^ 29 ->
  exists iset', intsetAdd iset v = Ret (iset', negb (bool_decide (dec v ∈ m))) /\ set_rep (IntsetObj iset') ({[dec v]} ∪ m).
Proof.
  intros Hr Hv Hsz. destruct (intset_texts iset m v Hr Hv) as (vs & HR & Hm & Hl & ->).
  destruct (add_spec iset vs v HR Hv ltac:(lia)) as (iset' & vs' & -> & HR' & Hvs). exists iset'. split; [done|].
  apply (intset_update _ vs'); [done|]. intros x. rewrite elem_of_union, elem_of_singleton. split.
  - intros [->|Hx]; [exists v; split; [done|apply Hvs; by left]|]. destruct (intset_elem _ _ _ Hr Hx) as (w & -> & Hw).
    exists w. split; [done|]. apply Hvs. right. by apply Hm.
  - intros (w & -> & Hw). pose proof (proj1 (list.Forall_forall _ _) (intset_range _ _ HR') w Hw) as Hwr. apply Hvs in Hw as [->|Hw]; [by left|].
    right. by apply Hm.
Qed.

Lemma intsetRemove_rep iset m v : set_rep (IntsetObj iset) m -> INT64_MIN <= v <= INT64_MAX -> Z.of_nat (size m) + 1 < 2 ^ 29 ->
  exists iset', intsetRemove iset v = Ret (iset', bool_decide (dec v ∈ m)) /\ set_rep (IntsetObj iset') (m ∖ {[dec v]}).
Proof.
  intros Hr Hv Hsz. destruct (intset_texts iset m v Hr Hv) as (vs & HR & Hm & Hl & ->).
  destruct (remove_spec iset vs v HR Hv ltac:(lia)) as (iset' & vs' & -> & HR' & Hvs). exists iset'. split; [done|].
  apply (intset_update _ vs'); [done|]. intros x. rewrite elem_of_difference, elem_of_singleton. split.
  - intros [Hx Hne]. destruct (intset_elem _ _ _ Hr Hx) as (w & -> & Hw).
    exists w. split; [done|]. apply Hvs. split; [congruence|by apply Hm].
  - intros (w & -> & Hw). pose proof (proj1 (list.Forall_forall _ _) (intset_range _ _ HR') w Hw) as Hwr. apply Hvs in Hw as [Hne Hw].
    split; [by apply Hm|]. intros E. apply Hne. assert (string2ll (dec w) = Some w) as E1 by (by apply string2ll_dec).
    rewrite E, string2ll_dec in E1 by done. congruence.
Qed.

Lemma intsetFind_rep iset m v : set_rep (IntsetObj iset) m -> INT64_MIN <= v <= INT64_MAX -> intsetFind iset v = Ret (bool_decide (dec v ∈ m)).
Proof. intros Hr Hv. destruct (intset_texts iset m v Hr Hv) as (vs & HR & _ & _ & ->). by apply find_spec. Qed.

(** Adding an integer to an intset, and leaving the encoding when it is full. *)
Lemma add_int_spec iset m v : set_rep (IntsetObj iset) m -> INT64_MIN <= v <= INT64_MAX -> Z.of_nat (size m) + 1 < 2 ^ 29 ->
  exists o', ('(iset, success) ← intsetAdd iset v;
    if (success : bool) then set ← maybeConvertIntset seed can_resize table_addr server (IntsetObj iset); Ret (set, true)
    else Ret (IntsetObj iset, false)) = Ret (o', negb (bool_decide (dec v ∈ m))) /\ set_rep o' ({[dec v]} ∪ m) /\
    (within_limits (IntsetObj iset) m -> within_limits o' ({[dec v]} ∪ m)).
Proof using All.
  intros Hr Hv Hsz. destruct (intsetAdd_rep iset m v Hr Hv Hsz) as (iset' & -> & Hr'). rewrite ret_bind.
  case_bool_decide as Hin; cbn [negb].
  - eexists. split; [done|]. split; [done|]. cbn [within_limits]. by replace ({[dec v]} ∪ m) with m by (clear -Hin; set_solver).
  - destruct (maybeConvertIntset_spec iset' _ Hr') as (o' & -> & Hro & Hlim). rewrite ret_bind. by exists o'.
Qed.

(** ** Members of a listpack *)

Lemma find_first x es : match find_skip x 0 0 es with
  | Some i => exists es1 e es2, es = es1 ++ e :: es2 /\ length es1 = i /\ lp_value e = x
  | None => x ∉ lp_value <$> es
  end.
Proof.
  induction es as [|e es IH]; cbn [find_skip fmap list_fmap]; [apply not_elem_of_nil|].
  destruct (decide (lp_value e = x)) as [<-|Hne]; [by exists [], e, es|].
  destruct (find_skip x 0 0 es) as [i|]; cbn [fmap option_fmap option_map].
  - destruct IH as (es1 & e' & es2 & -> & <- & Hv). by exists (e :: es1), e', es2.
  - rewrite not_elem_of_cons. split; [congruence|done].
Qed.

(** The first entry, and the search from there. *)
Lemma lp_search lp es x : lp_rep lp es -> lpFirst lp = Ret (lp_ptr es 0) /\
  match lp_ptr es 0 with
  | Some p => lpFind lp (Some p) x 0 = Ret (lp_off es <$> find_skip x 0 0 es)
  | None => es = []
  end.
Proof.
  intros Hr. pose proof (rep_wf _ _ Hr) as Hwf. split; [by apply (lpFirst_wf _ _ _ Hwf)|]. unfold lp_ptr. case_decide as Hd.
  - pose proof (lpFind_wf lp es _ Hwf x 0 ltac:(lia) 0 (Some (lp_off es 0)) Hd ltac:(by left)) as Hf. exact Hf.
  - destruct es; [done|cbn in Hd; lia].
Qed.

Lemma found_member (o : option nat) x es : o = find_skip x 0 0 es -> bool_decide (is_Some o) = bool_decide (x ∈ lp_value <$> es).
Proof.
  intros ->. pose proof (find_first x es) as Hf. destruct (find_skip x 0 0 es) as [i|].
  - rewrite bool_decide_true by done. destruct Hf as (es1 & e & es2 & -> & _ & <-). rewrite bool_decide_true; [done|].
    apply list_elem_of_fmap. exists e. split; [done|]. apply elem_of_app. right. left.
  - rewrite bool_decide_false by (by intros [? ?]). by rewrite bool_decide_false.
Qed.

Lemma fmap_is_Some_bool {A B} (f : A -> B) (o : option A) : bool_decide (is_Some (f <$> o)) = bool_decide (is_Some o).
Proof. apply bool_decide_ext. apply fmap_is_Some. Qed.

Lemma lpSafeToAdd_spec lp es add : lp_rep lp es -> exists b, lpSafeToAdd (Some lp) add = Ret b /\ (b = true -> lp_total es + add <= 2 ^ 30).
Proof.
  intros Hr. unfold lpSafeToAdd. rewrite (rep_get_total _ _ Hr), ret_bind. change LISTPACK_MAX_SAFETY_SIZE with (2 ^ 30).
  destruct (_ || _) eqn:E; [by exists false|]. exists true. split; [done|]. apply orb_false_iff in E as [_ E]. lia.
Qed.

(** The encoding of one element takes at most ten bytes more than its text. *)
Lemma element_body x : member_ok x -> Zlen (body [lp_element x]) <= Zlen x + 15.
Proof.
  intros Hx. rewrite Zlen_body_one. unfold entry_len. pose proof (backlen_bytes_range (Zlen (lp_element x))) as Hb.
  enough (Zlen (lp_element x) <= Zlen x + 10) by lia. pose proof (Zlen_nonneg x). unfold lp_element. destruct (lpStringToInt64 x) as [v|].
  - unfold lpEncodeIntegerGetType. repeat case_match; unfold Zlen in *; cbn [length]; lia.
  - rewrite Zlen_app. unfold lpStringHeader. repeat case_match; zlen; lia.
Qed.

(** ** Adding *)

Lemma convert_and_add_spec o m cap str len x : set_rep o m -> encoding_of o <> OBJ_ENCODING_HT -> 0 <= cap < 2 ^ 64 ->
  str_arg str len x -> x ∉ m -> Z.of_nat (size m) + 1 < 2 ^ 62 ->
  exists o', convert_and_add seed can_resize table_addr o cap str len = Ret (o', true) /\ set_rep o' ({[x]} ∪ m) /\ encoding_of o' = OBJ_ENCODING_HT.
Proof using All.
  intros Hr He Hc Hs Hx Hsz. unfold convert_and_add.
  destruct (convert_ht_spec o m cap true true Hr He Hc ltac:(lia)) as (o1 & ok & -> & Hr1 & He1 & Hok). rewrite ret_bind.
  destruct (str_sdsnewlen_spec str len x Hs) as (s & -> & Hsr). rewrite ret_bind.
  rewrite (Hok (or_introl eq_refl)) in He1. destruct o1 as [|lp1|d n]; [done|done|].
  destruct Hs as (_ & Hxm & _). destruct Hr1 as [Hd Hm].
  destruct (ht_add_new_spec d n m s x Hd Hsr Hxm Hx Hsz) as (d' & n' & -> & Hd'). rewrite ret_bind.
  exists (HtObj d' n'). split; [done|]. split; [|done]. split; [done|]. intros y. rewrite elem_of_union, elem_of_singleton. intros [->|]; auto.
Qed.

(** A member appended. *)
Lemma append_rep lp es m x : lp_rep lp (es ++ [lp_element x]) -> NoDup (lp_value <$> es) -> m = list_to_set (lp_value <$> es) ->
  (forall y, y ∈ m -> member_ok y) -> member_ok x -> x ∉ m -> set_rep (ListpackObj lp) ({[x]} ∪ m).
Proof.
  intros Hr Hnd -> Hm Hx Hout. apply (set_rep_intro_lp _ (es ++ [lp_element x])); [done|..]; rewrite ?fmap_app; cbn [fmap list_fmap]; rewrite ?element_value by done.
  - apply list.NoDup_app. split; [done|]. split; [|apply NoDup_singleton]. intros y Hy Hyx. apply list_elem_of_singleton in Hyx as ->.
    by apply Hout, elem_of_list_to_set.
  - rewrite list_to_set_app_L. cbn [list_to_set]. rewrite union_empty_r_L. apply union_comm_L.
  - intros y. rewrite elem_of_union, elem_of_singleton. intros [->|]; auto.
Qed.

(** One more entry in a listpack that is not full. *)
Lemma one_more lp lp' m x : x ∉ m -> Z.of_nat (size m) < set_max_listpack_entries server -> Zlen x <= set_max_listpack_value server ->
  within_limits (ListpackObj lp) m -> within_limits (ListpackObj lp') ({[x]} ∪ m).
Proof.
  intros Hx Hn Hl [_ Hm]. split.
  - rewrite size_union, size_singleton by (by apply disjoint_singleton_l). lia.
  - intros y. rewrite elem_of_union, elem_of_singleton. intros [->|]; auto.
Qed.

Lemma setTypeAdd_listpack_spec lp m str len from_int x : set_rep (ListpackObj lp) m -> str_arg str len x ->
  (forall v, from_int = Some v -> x = dec v /\ INT64_MIN <= v <= INT64_MAX) ->
  exists o', setTypeAdd_listpack seed can_resize table_addr server lp str len from_int = Ret (o', negb (bool_decide (x ∈ m))) /\ set_rep o' ({[x]} ∪ m) /\
    (within_limits (ListpackObj lp) m -> within_limits o' ({[x]} ∪ m)).
Proof using All.
  intros Hr Hs Hint. pose proof Hr as [(es & Hlp & Hnd & Em) Hm]. destruct (str_arg_len _ _ _ Hs) as (El & Hlen & _).
  unfold setTypeAdd_listpack. destruct (lp_search lp es x Hlp) as [-> Hfind]. rewrite ret_bind.
  assert (match lp_ptr es 0 with Some _ => s ← str_read str (u32 len); lpFind lp (lp_ptr es 0) s 0 | None => Ret None end
    = Ret (lp_off es <$> find_skip x 0 0 es)) as ->.
  { destruct (lp_ptr es 0); [by rewrite (str_arg_read32 _ _ _ Hs), ret_bind, Hfind|by rewrite Hfind]. }
  rewrite ret_bind. pose proof (found_member _ x es eq_refl) as Hfound.
  assert (bool_decide (x ∈ m) = bool_decide (x ∈ lp_value <$> es)) as -> by (apply bool_decide_ext; by rewrite Em, elem_of_list_to_set).
  rewrite <- Hfound. destruct (find_skip x 0 0 es) as [i|] eqn:Ei; cbn [fmap option_fmap option_map].
  { rewrite bool_decide_true in Hfound |- * by done. exists (ListpackObj lp). split; [done|].
    assert (x ∈ m) as Hin by (rewrite Em, elem_of_list_to_set; by eapply bool_decide_eq_true_1).
    by replace ({[x]} ∪ m) with m by (clear -Hin; set_solver). }
  rewrite bool_decide_false in Hfound |- * by (by intros [? ?]). cbn [negb].
  assert (x ∉ m) as Hout by (rewrite Em, elem_of_list_to_set; by eapply bool_decide_eq_false_1).
  clear Hfind Hfound Ei. pose proof Hs as (_ & Hxm & _).
  destruct (lpLength_rep lp es Hlp) as (lp1 & -> & Hlp1). rewrite ret_bind.
  assert (exists room, (if (Zlen es <? set_max_listpack_entries server) && (len <=? set_max_listpack_value server)
    then lpSafeToAdd (Some lp1) len else Ret false) = Ret room /\ (room = true -> lp_total es + len <= 2 ^ 30 /\
      Zlen es < set_max_listpack_entries server /\ len <= set_max_listpack_value server)) as (room & -> & Hroom).
  { destruct (_ && _) eqn:E; [|by exists false]. destruct (lpSafeToAdd_spec lp1 es len Hlp1) as (b & -> & Hb). exists b.
    split; [done|]. intros Hbt. apply andb_true_iff in E as [E1 E2]. split; [by apply Hb|lia]. }
  assert (Z.of_nat (size m) = Zlen es) as Hsz by (by rewrite Em, size_of_texts, Zlen_fmap).
  rewrite ret_bind. destruct room.
  - destruct (Hroom eq_refl) as (Hroom' & Hent & Hval).
    assert (exists lp2, append_elem lp1 (match from_int with Some v => IntElem v | None => StrElem str len end) = Ret lp2 /\
      lp_rep lp2 (es ++ [lp_element x])) as (lp2 & Happ & Hlp2).
    { apply append_elem_spec; [done| |].
      - destruct from_int as [v|]; [by apply Hint|done].
      - rewrite lp_total_app. pose proof (element_body x Hxm). lia. }
    exists (ListpackObj lp2). split; [|split; [by eapply append_rep|apply (one_more lp); [done|lia|lia]]]. unfold append_elem in Happ.
    revert Happ. destruct from_int as [v|]; cbv beta iota.
    + destruct (lpAppendInteger lp1 v); try done. rewrite !ret_bind. intros ->. by rewrite ret_bind.
    + destruct (str_read str (u32 len)); try done. rewrite !ret_bind. destruct (lpAppend lp1 _); try done.
      rewrite !ret_bind. intros ->. by rewrite ret_bind.
  - destruct (lpLength_rep lp1 es Hlp1) as (lp2 & -> & Hlp2). rewrite ret_bind.
    assert (set_rep (ListpackObj lp2) m) as Hr2 by (by eapply set_rep_intro_lp).
    pose proof (wf_count _ _ _ (rep_wf _ _ Hlp2)) as Hcount. fold (Zlen es) in Hcount. pose proof (Zlen_nonneg es).
    destruct (convert_and_add_spec _ m (Zlen es + 1) str len x Hr2) as (o' & -> & Hr' & He'); [done|lia|done|done|lia|].
    exists o'. split; [done|]. split; [done|]. intros _. by apply ht_limits.
Qed.

(** *** From an intset *)

Lemma enc_len v : Zlen (lpEncodeIntegerGetType v) =
  if (0 <=? v) && (v <=? 127) then 1 else if (-4096 <=? v) && (v <=? 4095) then 2
  else if (-32768 <=? v) && (v <=? 32767) then 3 else if (-8388608 <=? v) && (v <=? 8388607) then 4
  else if (-2147483648 <=? v) && (v <=? 2147483647) then 5 else 9.
Proof. unfold lpEncodeIntegerGetType. repeat case_match; reflexivity. Qed.

(** The integers of an interval are encoded in no more bytes than one of its ends. *)
Lemma entry_size_mono a v b : a <= v <= b -> 2 <= lpEntrySizeInteger v <= Z.max (lpEntrySizeInteger a) (lpEntrySizeInteger b) /\
  lpEntrySizeInteger a <= 10 /\ lpEntrySizeInteger b <= 10.
Proof.
  intros Hv. assert (forall w, lpEntrySizeInteger w = Zlen (lpEncodeIntegerGetType w) + 1) as E.
  { intros w. unfold lpEntrySizeInteger. f_equal. rewrite enc_len. repeat case_match; reflexivity. }
  rewrite !E, !enc_len. repeat case_match; lia.
Qed.

Lemma repeated_bound v n : 0 <= lpEntrySizeInteger v <= 10 -> 0 <= n < 2 ^ 29 ->
  lpEstimateBytesRepeatedInteger v n = 7 + lpEntrySizeInteger v * n.
Proof.
  intros Hv Hn. unfold lpEstimateBytesRepeatedInteger, LP_HDR_SIZE. rewrite (wrapu_id _ (lpEntrySizeInteger v * n)) by nia.
  rewrite wrapu_id by nia. lia.
Qed.

Lemma body_bound vs c : Forall (fun v => INT64_MIN <= v <= INT64_MAX) vs -> Forall (fun v => lpEntrySizeInteger v <= c) vs ->
  Zlen (body (lp_element <$> (dec <$> vs))) <= c * Zlen vs.
Proof.
  intros Hr Hc. rewrite Zlen_body. induction Hr as [|v vs Hv _ IH]; [unfold Zlen; simpl; lia|].
  apply list.Forall_cons in Hc as [Hv1 Hc]. specialize (IH Hc). cbn [fmap list_fmap map zsum]. rewrite Zlen_cons.
  rewrite element_dec by done. unfold lpEntrySizeInteger in Hv1. unfold entry_len at 1. lia.
Qed.

Lemma decimal_mono a b : 0 <= a <= b -> Zlen (decimal a) <= Zlen (decimal b).
Proof.
  intros Hab. assert (0 <= b) as Hb by lia. revert b Hb a Hab.
  apply (digit_ind (fun b => forall a, 0 <= a <= b -> Zlen (decimal a) <= Zlen (decimal b))); intros b Hb.
  - intros a Ha. rewrite !decimal_small by lia. done.
  - intros IH a Ha. destruct (Z.lt_ge_cases a 10) as [Hs|Hl].
    + rewrite (decimal_small a) by lia. apply decimal_length_pos.
    + rewrite (decimal_snoc a), (decimal_snoc b), !Zlen_app by lia. specialize (IH (a / 10)). unfold Zlen in *. cbn [length] in *. dlia.
Qed.

(** The text of an integer of an interval is no longer than that of one of its ends. *)
Lemma dec_between a v b : a <= v <= b -> Zlen (dec v) <= Z.max (Zlen (dec a)) (Zlen (dec b)).
Proof.
  intros Hv. unfold dec. destruct (Z.ltb_spec v 0).
  - rewrite (proj2 (Z.ltb_lt a 0)) by lia. rewrite !Zlen_cons. pose proof (decimal_mono (- v) (- a)). lia.
  - rewrite (proj2 (Z.ltb_ge b 0)) by lia. pose proof (decimal_mono v b). lia.
Qed.

(** The estimate is an upper bound of the size of the listpack, header aside
    when the set is empty. *)
Lemma intset_as_listpack_spec iset vs : Rep iset vs -> exists maxelelen totsize, intset_as_listpack iset = Ret (maxelelen, totsize) /\
  0 <= totsize < 2 ^ 40 /\ lp_total (lp_element <$> (dec <$> vs)) <= totsize + 7 /\ forall v, v ∈ vs -> Zlen (dec v) <= maxelelen.
Proof.
  intros HR. unfold intset_as_listpack, intsetLen. rewrite (Intset.rep_len _ _ HR). destruct (Z.eqb_spec (Zlen vs) 0) as [E|E]; cbn [negb].
  - exists 0, 0. split; [done|]. split; [done|]. destruct vs; [split; [done|by intros v ?%elem_of_nil]|]. rewrite Zlen_cons in E. pose proof (Zlen_nonneg vs). lia.
  - destruct (min_max_spec iset vs HR) as (mn & mx & -> & -> & Hmn & Hmx & Hb); [by intros ->|]. rewrite !ret_bind.
    eexists _, _. split; [done|]. pose proof (Intset.rep_small _ _ HR). pose proof (Zlen_nonneg vs).
    destruct (entry_size_mono mn mn mx) as (Hs & Hs1 & Hs2); [by apply Hb|].
    assert (2 <= lpEntrySizeInteger mx) as Hs3 by (apply (entry_size_mono mx mx mx); lia).
    rewrite !repeated_bound by lia. unfold lp_total.
    pose proof (body_bound vs (Z.max (lpEntrySizeInteger mn) (lpEntrySizeInteger mx)) (intset_range _ _ HR)) as Hbody.
    assert (Forall (fun v => lpEntrySizeInteger v <= Z.max (lpEntrySizeInteger mn) (lpEntrySizeInteger mx)) vs) as Hall.
    { apply list.Forall_forall. intros v Hv. by apply (entry_size_mono mn v mx), Hb. }
    specialize (Hbody Hall). split; [nia|]. split; [lia|]. intros v Hv. pose proof (intset_range _ _ HR) as Hr.
    rewrite !sdigits10_correct by (by apply (proj1 (list.Forall_forall _ _) Hr)). rewrite Z.max_comm. by apply dec_between, Hb.
Qed.

Lemma setTypeAdd_intset_spec iset m str len x : set_rep (IntsetObj iset) m -> str_arg str len x -> Z.of_nat (size m) + 1 < 2 ^ 29 ->
  exists o', setTypeAdd_intset seed can_resize table_addr server iset str len = Ret (o', negb (bool_decide (x ∈ m))) /\ set_rep o' ({[x]} ∪ m) /\
    (within_limits (IntsetObj iset) m -> within_limits o' ({[x]} ∪ m)).
Proof using All.
  intros Hr Hs Hsz. destruct (str_arg_len _ _ _ Hs) as (El & Hlen & _). unfold setTypeAdd_intset. rewrite (str_arg_read _ _ _ Hs), ret_bind.
  destruct (string2ll x) as [v|] eqn:Ex.
  { apply string2ll_sound in Ex as [-> Hv]. by apply add_int_spec. }
  pose proof (intset_not_int _ _ _ Hr Ex) as Hout. rewrite (bool_decide_false _ Hout). cbn [negb].
  pose proof Hr as [(vs & HR & Em) Hm]. destruct (intset_as_listpack_spec iset vs HR) as (maxelelen & totsize & -> & Htot & Hbound & Hmax).
  rewrite ret_bind.
  assert (exists room, (if (intsetLen iset <? set_max_listpack_entries server) && (len <=? set_max_listpack_value server)
      && (maxelelen <=? set_max_listpack_value server) then lpSafeToAdd None (u64 (totsize + len)) else Ret false) = Ret room /\
    (room = true -> totsize + len <= 2 ^ 30 /\ intsetLen iset < set_max_listpack_entries server /\
       len <= set_max_listpack_value server /\ maxelelen <= set_max_listpack_value server)) as (room & -> & Hroom).
  { destruct (_ && _ && _) eqn:E0; [|by exists false]. rewrite !andb_true_iff in E0. destruct E0 as [[Ea Eb] Ec]. unfold lpSafeToAdd. rewrite ret_bind. change LISTPACK_MAX_SAFETY_SIZE with (2 ^ 30).
    rewrite wrapu_id by lia. destruct (_ || _) eqn:E; [by exists false|]. exists true. split; [done|].
    apply orb_false_iff in E as [E _]. lia. }
  rewrite ret_bind. assert (intsetLen iset = Z.of_nat (size m)) as Hl.
  { unfold intsetLen. by rewrite (Intset.rep_len _ _ HR), Em, (intset_size _ _ HR). }
  rewrite Hl in *. pose proof Hs as (_ & Hxm & _). destruct room.
  - destruct (Hroom eq_refl) as (Hroom' & Hent & Hval & Hval'). assert (lp_total (lp_element <$> elements m) <= totsize + 7) as Helems.
    { by rewrite (lp_total_set m _ (dec_NoDup _ _ HR) Em). }
    destruct (convert_listpack_spec _ m (Z.of_nat (size m) + 1) true true Hr) as (lp & xs & -> & Hlp & Hnd & Exs & Hxs); [done|lia|].
    rewrite ret_bind, (str_arg_read32 _ _ _ Hs), ret_bind. rewrite (lp_total_set m xs Hnd Exs) in Helems.
    assert (lp_total ((lp_element <$> xs) ++ [lp_element x]) < 2 ^ 32) as Ht.
    { rewrite lp_total_app. pose proof (element_body x Hxm). lia. }
    destruct (append_elem_spec lp _ (StrElem str len) x Hlp Hs Ht) as (lp1 & Ha & Hlp1). unfold append_elem in Ha.
    rewrite (str_arg_read32 _ _ _ Hs), ret_bind in Ha. revert Ha. destruct (lpAppend lp x) as [r| | |]; try done.
    rewrite !ret_bind. intros ->. rewrite ret_bind. destruct (lpShrinkToFit_spec _ _ Hlp1) as (lp2 & -> & Hlp2). rewrite ret_bind. exists (ListpackObj lp2). split; [done|].
    split; [by apply (append_rep _ (lp_element <$> xs)); rewrite ?(element_values xs Hxs)|]. intros _.
    apply (one_more lp); [done|done|lia|]. split; [lia|]. intros y. rewrite Em, elem_of_list_to_set, list_elem_of_fmap.
    intros (v & -> & Hv). specialize (Hmax v Hv). lia.
  - destruct (convert_and_add_spec _ m (Z.of_nat (size m) + 1) str len x Hr) as (o' & -> & Hr' & He'); [done|lia|done|done|lia|].
    exists o'. split; [done|]. split; [done|]. intros _. by apply ht_limits.
Qed.

(** *** The operations *)

(** A call passes the member [x], as a string or as an integer. *)
Definition arg_denotes (str : option set_str) (len llval : Z) (x : list Z) : Prop :=
  match str with Some str => str_arg str len x | None => x = dec llval /\ INT64_MIN <= llval <= INT64_MAX end.

Abbreviation AddAux := (setTypeAddAux seed can_resize table_addr server).
Abbreviation RemoveAux := (setTypeRemoveAux seed can_resize).
Abbreviation IsMemberAux := (setTypeIsMemberAux seed can_resize).

Lemma add_union_members m x : (forall y, y ∈ m -> member_ok y) -> member_ok x -> forall y, y ∈ ({[x]} ∪ m : gset (list Z)) -> member_ok y.
Proof. intros Hm Hx y. rewrite elem_of_union, elem_of_singleton. intros [->|]; auto. Qed.

(** Adding, for a string. *)
Lemma add_str_spec o m str len from_int x : set_rep o m -> set_room o m -> str_arg str len x ->
  (forall v, from_int = Some v -> x = dec v /\ INT64_MIN <= v <= INT64_MAX) ->
  exists o', setTypeAdd_str seed can_resize table_addr server o str len from_int = Ret (o', negb (bool_decide (x ∈ m))) /\ set_rep o' ({[x]} ∪ m) /\
    (within_limits o m -> within_limits o' ({[x]} ∪ m)).
Proof using All.
  intros Hr Hroom Hs Hint. unfold setTypeAdd_str. destruct o as [iset|lp|d n].
  - by apply setTypeAdd_intset_spec.
  - by apply setTypeAdd_listpack_spec.
  - destruct Hr as [Hc Hm]. destruct (setTypeAdd_ht_spec d n m str len x Hc Hs Hroom) as (d' & n' & -> & Hd').
    eexists. split; [done|]. split; [|done]. split; [done|].
    apply add_union_members; [done|]. by destruct Hs as (_ & ? & _).
Qed.

Lemma setTypeAddAux_spec o m str len llval x : set_rep o m -> set_room o m -> arg_denotes str len llval x ->
  exists o', AddAux o str len llval = Ret (o', negb (bool_decide (x ∈ m))) /\ set_rep o' ({[x]} ∪ m) /\
    (within_limits o m -> within_limits o' ({[x]} ∪ m)).
Proof using All.
  intros Hr Hroom Harg. unfold setTypeAddAux. destruct str as [str|]; cbn [arg_denotes] in Harg.
  - apply (add_str_spec o m str len None x); [done..|discriminate].
  - destruct Harg as [-> Hv]. destruct (int_str_spec llval Hv) as (str & n & -> & Hs & _). rewrite ret_bind.
    pose proof (add_str_spec o m str n (Some llval) (dec llval) Hr Hroom Hs) as Hadd.
    destruct o as [iset|lp|d k]; [by apply add_int_spec|..]; apply Hadd; by intros v [= <-].
Qed.

Lemma setTypeAdd_spec o m value x : set_rep o m -> set_room o m -> str_arg (SdsStr value) (Zlen x) x ->
  exists o', setTypeAdd seed can_resize table_addr server o value = Ret (o', negb (bool_decide (x ∈ m))) /\ set_rep o' ({[x]} ∪ m) /\
    (within_limits o m -> within_limits o' ({[x]} ∪ m)).
Proof using All.
  intros Hr Hroom Hs. unfold setTypeAdd. pose proof Hs as (_ & _ & _ & Hb). apply s_bytes_inv in Hb as [-> _]. rewrite ret_bind.
  by apply setTypeAddAux_spec.
Qed.

(** Removing an entry from a listpack. *)
Lemma lpDelete_spec lp es1 e es2 : lp_rep lp (es1 ++ e :: es2) -> exists r lp',
  lpDelete lp (lp_off (es1 ++ e :: es2) (length es1)) = Ret r /\ no_newp r = Some lp' /\ lp_rep lp' (es1 ++ es2).
Proof.
  intros Hr. pose proof (lpInsert_replace_spec lp es1 e es2 None None Hr (List.Forall_nil _)) as Hi. unfold insert_result in Hi.
  cbn [ins_new app] in Hi. pose proof (ListpackEdit.rep_small _ _ Hr) as Ht. rewrite lp_total_app, body_cons, Zlen_app in Ht.
  pose proof (Zlen_nonneg (entry e)). rewrite (proj2 (Z.ltb_lt (lp_total (es1 ++ es2)) _)) in Hi by (rewrite lp_total_app; lia).
  destruct Hi as (lp' & Hi & Hr'). eexists _, lp'. split; [exact Hi|]. done.
Qed.

Lemma removed_rep lp es1 e es2 m : lp_rep lp (es1 ++ es2) -> NoDup (lp_value <$> (es1 ++ e :: es2)) ->
  m = list_to_set (lp_value <$> (es1 ++ e :: es2)) -> (forall y, y ∈ m -> member_ok y) -> set_rep (ListpackObj lp) (m ∖ {[lp_value e]}).
Proof.
  intros Hr Hnd -> Hm. assert (lp_value <$> (es1 ++ e :: es2) ≡ₚ lp_value e :: (lp_value <$> (es1 ++ es2))) as Hp.
  { rewrite <- Permutation_middle. done. }
  rewrite Hp in Hnd. apply list.NoDup_cons in Hnd as [Hout Hnd]. apply (set_rep_intro_lp _ (es1 ++ es2)); [done|done| |].
  - rewrite Hp. cbn [list_to_set]. apply set_eq. intros y. rewrite elem_of_difference, elem_of_union, !elem_of_singleton, elem_of_list_to_set.
    split; [by intros [[?|?] ?]|]. intros Hy. split; [by right|]. by intros ->.
  - intros y Hy. apply Hm. by apply elem_of_difference in Hy as [? _].
Qed.

Lemma remove_listpack_spec lp m str len x : set_rep (ListpackObj lp) m -> str_arg str len x -> exists o',
  setTypeRemove_str seed can_resize (ListpackObj lp) str len = Ret (o', bool_decide (x ∈ m)) /\ set_rep o' (m ∖ {[x]}) /\
    encoding_of o' = OBJ_ENCODING_LISTPACK.
Proof.
  intros Hr Hs. unfold setTypeRemove_str. pose proof Hr as [(es & Hlp & Hnd & Em) Hm].
  destruct (lp_search lp es x Hlp) as [-> Hfind]. rewrite ret_bind.
  assert (bool_decide (x ∈ m) = bool_decide (x ∈ lp_value <$> es)) as -> by (apply bool_decide_ext; by rewrite Em, elem_of_list_to_set).
  pose proof (find_first x es) as Hf. rewrite <- (found_member _ x es eq_refl).
  assert (find_skip x 0 0 es = None -> m ∖ {[x]} = m) as Hkeep.
  { intros E. rewrite E in Hf. rewrite Em. apply set_eq. intros y. rewrite elem_of_difference, elem_of_singleton, elem_of_list_to_set.
    split; [by intros [? _]|]. intros Hy. split; [done|]. by intros ->. }
  destruct (lp_ptr es 0) as [p|]; [|subst es; eexists; split; [done|]; by rewrite (Hkeep eq_refl)].
  rewrite (str_arg_read32 _ _ _ Hs), ret_bind, Hfind, ret_bind.
  destruct (find_skip x 0 0 es) as [i|]; cbn [fmap option_fmap option_map].
  - destruct Hf as (es1 & e & es2 & -> & <- & <-). destruct (lpDelete_spec lp es1 e es2 Hlp) as (r & lp' & -> & Hnp & Hlp').
    rewrite ret_bind, Hnp. cbn [lp_deref]. rewrite ret_bind. exists (ListpackObj lp'). split; [by rewrite bool_decide_true by done|].
    split; [by apply (removed_rep _ es1 e es2)|done].
  - exists (ListpackObj lp). split; [by rewrite bool_decide_false by (by intros [? ?])|]. by rewrite (Hkeep eq_refl).
Qed.

Lemma diff_members m x : (forall y, y ∈ m -> member_ok y) -> forall y, y ∈ (m ∖ {[x]} : gset (list Z)) -> member_ok y.
Proof. intros Hm y Hy. apply Hm. by apply elem_of_difference in Hy as [? _]. Qed.

Lemma remove_str_spec o m str len x : set_rep o m -> set_room o m -> str_arg str len x -> exists o',
  setTypeRemove_str seed can_resize o str len = Ret (o', bool_decide (x ∈ m)) /\ set_rep o' (m ∖ {[x]}) /\
    encoding_of o' = encoding_of o.
Proof using All.
  intros Hr Hroom Hs. destruct o as [iset|lp|d n]; [unfold setTypeRemove_str|by apply remove_listpack_spec|unfold setTypeRemove_str].
  - rewrite (str_arg_read _ _ _ Hs), ret_bind. destruct (string2ll x) as [v|] eqn:Ex.
    + apply string2ll_sound in Ex as [-> Hv]. destruct (intsetRemove_rep iset m v Hr Hv Hroom) as (iset' & -> & Hr'). rewrite ret_bind. by eexists.
    + pose proof (intset_not_int _ _ _ Hr Ex) as Hout. rewrite (bool_decide_false _ Hout). eexists. split; [done|].
      replace (m ∖ {[x]}) with m by (clear -Hout; set_solver). done.
  - destruct Hr as [Hc Hm]. destruct (str_key_spec str len x Hs) as (s & k & -> & Hk & _ & Hkb & _). rewrite ret_bind, Hk, ret_bind.
    destruct (ht_delete_spec d n m k Hc) as (d' & n' & -> & Hd'). rewrite ret_bind, Hkb in *. eexists. split; [done|].
    split; [|done]. split; [done|by apply diff_members].
Qed.

Lemma setTypeRemoveAux_spec o m str len llval x : set_rep o m -> set_room o m -> arg_denotes str len llval x ->
  exists o', RemoveAux o str len llval = Ret (o', bool_decide (x ∈ m)) /\ set_rep o' (m ∖ {[x]}) /\
    encoding_of o' = encoding_of o.
Proof using All.
  intros Hr Hroom Harg. unfold setTypeRemoveAux. destruct str as [str|]; cbn [arg_denotes] in Harg.
  - by apply (remove_str_spec o m str len x).
  - destruct Harg as [-> Hv]. destruct (int_str_spec llval Hv) as (str & n & -> & Hs & _). rewrite ret_bind.
    pose proof (remove_str_spec o m str n (dec llval) Hr Hroom Hs) as Hrem. destruct o as [iset|lp|d k]; [|exact Hrem..].
    destruct (intsetRemove_rep iset m llval Hr Hv Hroom) as (iset' & -> & Hr'). rewrite ret_bind. by eexists.
Qed.

Lemma member_str_spec o m str len x : set_rep o m -> str_arg str len x -> exists o',
  setTypeIsMember_str seed can_resize o str len = Ret (o', bool_decide (x ∈ m)) /\ set_rep o' m /\ encoding_of o' = encoding_of o.
Proof using All.
  intros Hr Hs. unfold setTypeIsMember_str. destruct o as [iset|lp|d n].
  - rewrite (str_arg_read _ _ _ Hs), ret_bind. destruct (string2ll x) as [v|] eqn:Ex.
    + apply string2ll_sound in Ex as [-> Hv]. rewrite (intsetFind_rep iset m v Hr Hv), ret_bind. by eexists.
    + rewrite (bool_decide_false _ (intset_not_int _ _ _ Hr Ex)). by eexists.
  - pose proof Hr as [(es & Hlp & Hnd & Em) Hm]. destruct (lp_search lp es x Hlp) as [-> Hfind]. rewrite ret_bind.
    assert (bool_decide (x ∈ m) = bool_decide (x ∈ lp_value <$> es)) as -> by (apply bool_decide_ext; by rewrite Em, elem_of_list_to_set).
    exists (ListpackObj lp). split; [|done]. destruct (lp_ptr es 0) as [p|]; [|by subst es].
    rewrite (str_arg_read32 _ _ _ Hs), ret_bind, Hfind, ret_bind, fmap_is_Some_bool. by rewrite (found_member _ x es eq_refl).
  - destruct Hr as [Hc Hm]. destruct (str_key_spec str len x Hs) as (s & k & -> & Hk & _ & Hkb & _). rewrite ret_bind, Hk, ret_bind.
    destruct (ht_find_spec d n m k Hc) as (d' & de & -> & Hd' & Hde). rewrite ret_bind, Hde, Hkb. by eexists.
Qed.

Lemma setTypeIsMemberAux_spec o m str len llval x : set_rep o m -> arg_denotes str len llval x ->
  exists o', IsMemberAux o str len llval = Ret (o', bool_decide (x ∈ m)) /\ set_rep o' m /\ encoding_of o' = encoding_of o.
Proof using All.
  intros Hr Harg. unfold setTypeIsMemberAux. destruct str as [str|]; cbn [arg_denotes] in Harg.
  - by apply (member_str_spec o m str len x).
  - destruct Harg as [-> Hv]. destruct (int_str_spec llval Hv) as (str & n & -> & Hs & _). rewrite ret_bind.
    pose proof (member_str_spec o m str n (dec llval) Hr Hs) as Hmem. destruct o as [iset|lp|d k]; [|exact Hmem..].
    rewrite (intsetFind_rep iset m llval Hr Hv), ret_bind. by eexists.
Qed.

(** *** Creation and conversion *)

Lemma setTypeCreate_spec value x size_hint : s_bytes value = Ret x -> 0 <= size_hint < 2 ^ 64 ->
  exists o, setTypeCreate seed can_resize server value size_hint = Ret o /\ set_rep o ∅ /\
  encoding_of o = if bool_decide (is_Some (string2ll x)) && (size_hint <=? set_max_intset_entries server) then OBJ_ENCODING_INTSET
                  else if size_hint <=? set_max_listpack_entries server then OBJ_ENCODING_LISTPACK else OBJ_ENCODING_HT.
Proof using All.
  intros Hb Hh. unfold setTypeCreate, isSdsRepresentableAsLongLong. rewrite Hb, !ret_bind. destruct (_ && _).
  - eexists. split; [done|]. split; [|done]. apply (intset_update _ []); [apply new_spec|]. intros y. split; [by intros ?%not_elem_of_empty|].
    by intros (v & _ & ?%elem_of_nil).
  - destruct (_ <=? _).
    + unfold createSetListpackObject. destruct (lpNew_spec 0) as (lp & -> & Hlp). rewrite ret_bind. eexists. split; [done|]. split; [|done].
      apply (set_rep_intro_lp _ []); [done|by apply base.NoDup_nil_2|done|by intros y ?%not_elem_of_empty].
    + cbn [createSetObject]. destruct (expand_rep dictCreate 0 ∅ size_hint created_rep Hh) as (d & ok & -> & Hd). rewrite ret_bind.
      eexists. split; [done|]. split; [|done]. split; [done|by intros y ?%not_elem_of_empty].
Qed.

Lemma setTypeMaybeConvert_spec o m size_hint : set_rep o m -> 0 <= size_hint < 2 ^ 64 -> Z.of_nat (size m) < 2 ^ 62 ->
  exists o', setTypeMaybeConvert seed can_resize table_addr server o size_hint = Ret o' /\ set_rep o' m /\
  encoding_of o' = if (bool_decide (encoding_of o = OBJ_ENCODING_LISTPACK) && (set_max_listpack_entries server <? size_hint))
     || (bool_decide (encoding_of o = OBJ_ENCODING_INTSET) && (set_max_intset_entries server <? size_hint)) then OBJ_ENCODING_HT else encoding_of o.
Proof using All.
  intros Hr Hh Hsz. unfold setTypeMaybeConvert. destruct (_ || _) eqn:E; [|by exists o].
  assert (encoding_of o <> OBJ_ENCODING_HT) as He.
  { intros He. rewrite He in E. cbn in E. done. }
  destruct (convert_ht_spec o m size_hint true true Hr He Hh Hsz) as (o' & ok & -> & Hr' & He' & Hok). rewrite ret_bind.
  exists o'. split; [done|]. split; [done|]. by rewrite (Hok (or_introl eq_refl)) in He'.
Qed.

(** An element is an integer in the way the conversion asks for it. *)
Definition add_elem (iset : intset) (e : set_elem) : outcome intset :=
  llval ← match e with
    | StrElem str len =>
      bs ← str_read str len;
      match string2ll bs with Some llval => Ret llval | None => AssertFail end
    | IntElem llval => Ret llval
    end;
  '(iset, success) ← intsetAdd iset llval;
  _ ← c_assert success; Ret iset.

Lemma add_elem_int iset e v : elem_denotes e (dec v) -> INT64_MIN <= v <= INT64_MAX ->
  add_elem iset e = ('(iset, success) ← intsetAdd iset v; _ ← c_assert success; Ret iset).
Proof.
  intros He Hv. unfold add_elem. destruct e as [str len|w].
  - by rewrite (str_arg_read _ _ _ He), ret_bind, string2ll_dec by done.
  - destruct He as [E Hw]. rewrite ret_bind. assert (string2ll (dec w) = Some w) as E1 by (by apply string2ll_dec).
    rewrite <- E, string2ll_dec in E1 by done. by injection E1 as <-.
Qed.

Lemma fold_intset l xs : Forall2 elem_denotes l xs -> forall iset m, set_rep (IntsetObj iset) m -> NoDup xs -> (forall x, x ∈ xs -> x ∉ m) ->
  (forall x, x ∈ xs -> exists v, x = dec v /\ INT64_MIN <= v <= INT64_MAX) -> Z.of_nat (size m) + Zlen xs < 2 ^ 29 ->
  exists iset', fold_out add_elem iset l = Ret iset' /\ set_rep (IntsetObj iset') (list_to_set xs ∪ m).
Proof.
  induction 1 as [|e x l xs He _ IH]; intros iset m Hr Hnd Hout Hint Hsz; cbn [fold_out].
  - exists iset. split; [done|]. cbn [list_to_set]. by rewrite union_empty_l_L.
  - apply list.NoDup_cons in Hnd as [Hx Hnd]. rewrite Zlen_cons in Hsz. pose proof (Zlen_nonneg xs).
    assert (x ∉ m) as Hxm by (apply Hout; left). destruct (Hint x) as (v & -> & Hv); [left|].
    rewrite (add_elem_int iset e v He Hv).
    destruct (intsetAdd_rep iset m v Hr Hv) as (iset1 & -> & Hr1); [lia|]. rewrite (bool_decide_false _ Hxm), ret_bind.
    cbn [negb c_assert]. rewrite !ret_bind. destruct (IH iset1 ({[dec v]} ∪ m) Hr1 Hnd) as (iset' & -> & Hr').
    { intros y Hy. rewrite elem_of_union, elem_of_singleton. intros [->|Hym]; [done|]. by apply (Hout y); [right|]. }
    { intros y Hy. apply Hint. by right. }
    { rewrite size_union, size_singleton by (apply disjoint_singleton_l; done). lia. }
    exists iset'. split; [done|]. cbn [list_to_set]. by rewrite (union_comm_L {[dec v]}), <- union_assoc_L.
Qed.

Lemma maybeConvertToIntset_spec o m : set_rep o m -> (forall x, x ∈ m -> exists v, x = dec v /\ INT64_MIN <= v <= INT64_MAX) ->
  Z.of_nat (size m) < 2 ^ 29 -> exists o', maybeConvertToIntset table_addr server o = Ret o' /\ set_rep o' m /\
  encoding_of o' = if Z.of_nat (size m) <=? intsetMaxEntries server then OBJ_ENCODING_INTSET else encoding_of o.
Proof using All.
  intros Hr Hint Hsz. unfold maybeConvertToIntset. destruct (setTypeSize_spec o m Hr) as (o1 & E1 & Hr1 & He1).
  assert (match o with IntsetObj _ => True | _ => exists o', ('(set, size) ← setTypeSize o;
    if intsetMaxEntries server <? size then Ret set else
    '(set, si, iset) ← while_next (setTypeNext table_addr) add_elem (iter_fuel set) set (setTypeInitIterator set) intsetNew;
    _ ← setTypeResetIterator table_addr set si; Ret (IntsetObj iset)) = Ret o' /\ set_rep o' m /\
    encoding_of o' = if Z.of_nat (size m) <=? intsetMaxEntries server then OBJ_ENCODING_INTSET else encoding_of o end) as Hgo.
  { rewrite E1, ret_bind. destruct (Z.ltb_spec (intsetMaxEntries server) (Z.of_nat (size m))) as [Hlt|Hle].
    - rewrite (proj2 (Z.leb_gt _ _) Hlt). destruct o; [done|by exists o1..].
    - rewrite (proj2 (Z.leb_le _ _) Hle). destruct (iterator_spec table_addr o1 m Hr1) as (l & si' & xs & Hw & Hl & _ & Hnd & Em & Hf & Hreset).
      rewrite (while_walk _ _ _ _ _ Hw) by done.
      destruct (fold_intset l xs Hl intsetNew ∅) as (iset & -> & Hr'); [|done|set_solver| | |].
      + apply (intset_update _ []); [apply new_spec|]. intros y. split; [by intros ?%not_elem_of_empty|by intros (v & _ & ?%elem_of_nil)].
      + intros x Hx. apply Hint. by rewrite Em, elem_of_list_to_set.
      + rewrite size_empty. rewrite <- size_of_texts, <- Em by done. lia.
      + rewrite !ret_bind, Hreset, ret_bind. rewrite union_empty_r_L, <- Em in Hr'. destruct o; [done|by eexists..]. }
  destruct o as [iset|lp|d n]; [|exact Hgo..]. exists (IntsetObj iset). split; [done|]. split; [done|]. by destruct (_ <=? _).
Qed.

(** *** Duplication *)

(** The first bytes of a block decide what a block stands for. *)
Lemma Rep_contents_ext iset c vs : Rep iset vs -> rdn c 0 (Zlen vs * encoding iset) = rdn (contents iset) 0 (Zlen vs * encoding iset) ->
  Rep {| encoding := encoding iset; ilength := ilength iset; contents := c |} vs.
Proof.
  intros HR E. pose proof (valid_enc_bounds _ (rep_enc _ _ HR)) as He. pose proof (rep_room _ _ HR) as Hroom.
  pose proof (Zlen_nonneg vs) as Hn. rewrite (rdn_ok (contents iset)) in E by nia. destruct (rdn_length _ _ _ _ E) as (_ & _ & Hle).
  destruct HR as [H1 H2 H3 H4 H5 H6 H7]. split; cbn [encoding ilength contents]; try done.
  intros i v Hi. pose proof (lookup_lt_Some _ _ _ Hi). pose proof (H7 i v Hi) as Hc. unfold chunk in *. rewrite <- Hc.
  assert (0 <= Z.of_nat i * encoding iset /\ Z.of_nat i * encoding iset + encoding iset <= Zlen vs * encoding iset) as [Hi1 Hi2] by (unfold Zlen in *; nia).
  pose proof (rdn_sub _ _ _ _ (Z.of_nat i * encoding iset) (encoding iset) E Hi1 ltac:(lia) Hi2) as E1. rewrite Z.add_0_l in E1. rewrite E1.
  assert (rdn (contents iset) 0 (Zlen vs * encoding iset) = Ret (take (Z.to_nat (Zlen vs * encoding iset)) (drop (Z.to_nat 0) (contents iset)))) as E2
    by (apply rdn_ok; nia).
  pose proof (rdn_sub _ _ _ _ (Z.of_nat i * encoding iset) (encoding iset) E2 Hi1 ltac:(lia) Hi2) as E3. by rewrite Z.add_0_l in E3.
Qed.

Lemma dup_intset_spec iset vs : Rep iset vs -> exists b,
  (bs ← rdn (intset_block iset) 0 (intsetBlobLen iset); wrn (zmalloc (intsetBlobLen iset)) 0 bs) = Ret b /\ Rep (intset_of_bytes b) vs.
Proof.
  intros HR. pose proof (valid_enc_bounds _ (rep_enc _ _ HR)) as He. pose proof (rep_room _ _ HR) as Hroom. pose proof (Zlen_nonneg vs) as Hn.
  pose proof (Intset.rep_small _ _ HR) as Hsm. pose proof (Intset.rep_len _ _ HR) as Hlen. set (k := Zlen vs * encoding iset) in *.
  assert (0 <= k) by (unfold k; nia). assert (intsetBlobLen iset = 8 + k) as El by (unfold intsetBlobLen, k; by rewrite Hlen).
  set (hdr := le_bytes 4 (encoding iset) ++ le_bytes 4 (ilength iset)). assert (Zlen hdr = 8) as Hh by (unfold hdr; rewrite Zlen_app, !Zlen_le_bytes; lia).
  set (pre := take (Z.to_nat k) (contents iset)). assert (Zlen pre = k) as Hp by (apply Zlen_take; lia).
  assert (intset_block iset = (hdr ++ pre) ++ drop (Z.to_nat k) (contents iset)) as Eb.
  { unfold intset_block, hdr, pre. by rewrite <- !app_assoc, take_drop. }
  assert (Zlen (hdr ++ pre) = 8 + k) as Hhp by (rewrite Zlen_app; lia).
  rewrite El, Eb, <- Hhp, rdn_head, ret_bind. pose proof (zmalloc_size_ge (Zlen (hdr ++ pre))) as Hz. rewrite wrn_ok by lia. rewrite Z.add_0_l.
  set (rest := drop _ (zmalloc _)). eexists. split; [done|]. change (Z.to_nat 0) with O. rewrite take_0, app_nil_l, <- app_assoc.
  assert (intset_of_bytes (hdr ++ pre ++ rest) = {| encoding := encoding iset; ilength := ilength iset; contents := pre ++ rest |}) as ->.
  { unfold intset_of_bytes, hdr, sizeof_intset. rewrite <- app_assoc. 
    assert (forall z (l : list Z), take 4 (le_bytes 4 z ++ l) = le_bytes 4 z) as Ht by done.
    assert (forall z (l : list Z), drop 4 (le_bytes 4 z ++ l) = l) as Hd by done.
    change (Z.to_nat 8) with (4 + 4)%nat. rewrite <- drop_drop, !Hd, !Ht, !le_value_bytes. change (8 * Z.of_nat 4) with 32.
    rewrite !Z.mod_small by lia. done. }
  apply Rep_contents_ext; [done|]. fold k. rewrite (rdn_ok (contents iset)) by lia. fold pre. rewrite <- Hp at 1. apply rdn_head.
Qed.

Definition dup_elem (set : set_obj) (e : set_elem) : outcome set_obj :=
  match e with
  | StrElem (SdsStr str) _ => '(set, _) ← setTypeAdd seed can_resize table_addr server set str; Ret set
  | _ => OutOfBounds
  end.

Lemma fold_dup l xs : Forall2 elem_denotes l xs -> forall d n m, Forall (fun e => exists k, e = StrElem (SdsStr (key_sds k)) (Zlen (key_bytes k))) l ->
  ht_rep d n m -> Z.of_nat (size m) + Zlen xs < 2 ^ 62 ->
  exists d' n', fold_out dup_elem (HtObj d n) l = Ret (HtObj d' n') /\ ht_rep d' n' (list_to_set xs ∪ m).
Proof using All.
  induction 1 as [|e x l xs He _ IH]; intros d n m Hk Hr Hsz; cbn [fold_out].
  - exists d, n. split; [done|]. cbn [list_to_set]. by rewrite union_empty_l_L.
  - apply list.Forall_cons in Hk as [[k ->] Hk]. rewrite Zlen_cons in Hsz. pose proof (Zlen_nonneg xs). cbn [elem_denotes] in He.
    pose proof He as (_ & _ & _ & Hb). apply s_bytes_inv in Hb as [Hl _]. unfold dup_elem at 2. unfold setTypeAdd. rewrite Hl, ret_bind.
    cbn [setTypeAddAux setTypeAdd_str]. pose proof (proj1 He) as El. rewrite El in He.
    destruct (setTypeAdd_ht_spec d n m _ _ x Hr He) as (d1 & n1 & -> & Hr1); [lia|]. rewrite !ret_bind.
    destruct (IH d1 n1 ({[x]} ∪ m) Hk Hr1) as (d' & n' & -> & Hr').
    { pose proof (size_union_alt {[x]} m) as Hu. rewrite size_singleton in Hu. pose proof (subseteq_size (m ∖ {[x]}) m ltac:(set_solver)). lia. }
    exists d', n'. split; [done|]. cbn [list_to_set]. by rewrite (union_comm_L {[x]}), <- union_assoc_L.
Qed.

Lemma setTypeDup_spec o m : set_rep o m -> Z.of_nat (size m) < 2 ^ 62 ->
  exists o2, setTypeDup seed can_resize table_addr server o = Ret (o, o2) /\ set_rep o2 m /\ encoding_of o2 = encoding_of o.
Proof using All.
  intros Hr Hsz. pose proof Hr as [Hc Hm]. destruct o as [iset|lp|d n]; cbn [setTypeDup set_contents] in *.
  - destruct Hc as (vs & HR & E). destruct (dup_intset_spec iset vs HR) as (b & Hb & HRb).
    apply bind_Ret in Hb as (bs & -> & Hb). rewrite ret_bind, Hb, ret_bind.
    eexists. split; [done|]. split; [|done]. split; [by exists vs|done].
  - destruct Hc as (es & Hlp & Hnd & E). destruct (lpDup_spec lp es Hlp) as (lp' & Hd & Hlp'). unfold lpDup in Hd.
    apply bind_Ret in Hd as (sz & -> & Hd). cbv zeta in Hd. apply bind_Ret in Hd as (bs & Hbs & Hd). rewrite ret_bind, Hbs, ret_bind, Hd, ret_bind.
    eexists. split; [done|]. split; [by eapply set_rep_intro_lp|done].
  - pose proof (dictSize_spec _ _ _ (hr_wf _ _ _ Hc)) as Hs. rewrite (ht_rep_len _ _ _ Hc) in Hs.
    destruct (expand_rep dictCreate 0 ∅ (dictSize d) created_rep) as (d0 & ok & -> & Hd0); [lia|]. rewrite ret_bind.
    destruct (iterator_spec table_addr _ m Hr) as (l & si' & xs & Hw & Hl & Hk & Hnd & Em & Hf & Hreset).
    rewrite (while_walk _ _ _ _ _ Hw) by done. destruct (fold_dup l xs Hl d0 0 ∅ Hk Hd0) as (d2 & n2 & E2 & Hr2).
    { rewrite size_empty. rewrite Em, size_of_texts in Hsz by done. lia. }
    change (fun set e => _) with dup_elem. rewrite E2, !ret_bind, Hreset, ret_bind. rewrite union_empty_r_L, <- Em in Hr2. by eexists.
Qed.
End conversion.
End alloc.
End rep.
