(* ===== verification/SettypeSpec.v ===== *)
(** * SettypeSpec: what the operations of a set object promise

    A client of t_set.c sees a finite set of byte strings.  The first theorem
    refines every sequence of calls, across conversions between the three
    encodings and the rehash steps they trigger, to the same sequence on a
    [gset]; the second shows that every such sequence keeps the encodings within
    the limits of the configuration.  The others give the contract of each call
    on any object, and what an iterator yields. *)

From stdpp Require Import countable sets fin_maps gmap.
From S2P Require Import Prelude Memory NumStr Intset ListpackEnc Listpack ListpackEdit Siphash Sds SdsInv SdsSpec.
From S2P Require Import Dict DictInv DictSpec DictLink DictIter DictFrame Settype SettypeInv.

(** ** Calls *)

(** A member is passed as a new sds ([setTypeAdd] and its like) or as an integer
    ([setTypeAddAux] with a NULL string). *)
Inductive set_call :=
| CallAdd (x : list Z) | CallAddInt (v : Z)
| CallRemove (x : list Z) | CallRemoveInt (v : Z)
| CallIsMember (x : list Z) | CallIsMemberInt (v : Z)
| CallSize | CallMaybeConvert (size_hint : Z) | CallConvert | CallDup.

Inductive set_answer := AnsBool (b : bool) | AnsSize (n : Z) | AnsNone.

Definition call_ok (c : set_call) : Prop :=
  match c with
  | CallAdd x | CallRemove x | CallIsMember x => member_ok x
  | CallAddInt v | CallRemoveInt v | CallIsMemberInt v => INT64_MIN <= v <= INT64_MAX
  | CallMaybeConvert size_hint => 0 <= size_hint < 2 ^ 64
  | CallSize | CallConvert | CallDup => True
  end.

(** The abstract set. *)
Definition ref_call (m : gset (list Z)) (c : set_call) : gset (list Z) * set_answer :=
  match c with
  | CallAdd x => ({[x]} ∪ m, AnsBool (negb (bool_decide (x ∈ m))))
  | CallAddInt v => ({[dec v]} ∪ m, AnsBool (negb (bool_decide (dec v ∈ m))))
  | CallRemove x => (m ∖ {[x]}, AnsBool (bool_decide (x ∈ m)))
  | CallRemoveInt v => (m ∖ {[dec v]}, AnsBool (bool_decide (dec v ∈ m)))
  | CallIsMember x => (m, AnsBool (bool_decide (x ∈ m)))
  | CallIsMemberInt v => (m, AnsBool (bool_decide (dec v ∈ m)))
  | CallSize => (m, AnsSize (Z.of_nat (size m)))
  | CallMaybeConvert _ | CallConvert | CallDup => (m, AnsNone)
  end.

Fixpoint ref_calls (m : gset (list Z)) (cs : list set_call) : gset (list Z) * list set_answer :=
  match cs with
  | [] => (m, [])
  | c :: cs => let '(m, a) := ref_call m c in let '(m, l) := ref_calls m cs in (m, a :: l)
  end.

Section calls.
Context `{Allocator}.
Context (seed : list Z) (can_resize : dictResizeEnable).
Context (table_addr : dict set_key unit -> Z -> Z) (server : set_config).

(** The sds of the call is built first, as the commands do. *)
Definition with_sds (f : set_obj -> sds -> outcome (set_obj * bool)) (o : set_obj) (x : list Z) : outcome (set_obj * set_answer) :=
  value ← sdsnewlen (InitFrom x) (Zlen x); '(o, b) ← f o value; Ret (o, AnsBool b).

Definition with_int (f : set_obj -> option set_str -> Z -> Z -> outcome (set_obj * bool)) (o : set_obj) (v : Z) : outcome (set_obj * set_answer) :=
  '(o, b) ← f o None 0 v; Ret (o, AnsBool b).

Definition call (o : set_obj) (c : set_call) : outcome (set_obj * set_answer) :=
  match c with
  | CallAdd x => with_sds (setTypeAdd seed can_resize table_addr server) o x
  | CallAddInt v => with_int (setTypeAddAux seed can_resize table_addr server) o v
  | CallRemove x => with_sds (setTypeRemove seed can_resize) o x
  | CallRemoveInt v => with_int (setTypeRemoveAux seed can_resize) o v
  | CallIsMember x => with_sds (setTypeIsMember seed can_resize) o x
  | CallIsMemberInt v => with_int (setTypeIsMemberAux seed can_resize) o v
  | CallSize => '(o, n) ← setTypeSize o; Ret (o, AnsSize n)
  | CallMaybeConvert size_hint => o ← setTypeMaybeConvert seed can_resize table_addr server o size_hint; Ret (o, AnsNone)
  | CallConvert =>
    match o with
    | HtObj _ _ => Ret (o, AnsNone)
    | _ => o ← setTypeConvert seed can_resize table_addr o OBJ_ENCODING_HT; Ret (o, AnsNone)
    end
  | CallDup => '(_, o2) ← setTypeDup seed can_resize table_addr server o; Ret (o2, AnsNone)
  end.

Fixpoint calls (o : set_obj) (cs : list set_call) : outcome (set_obj * list set_answer) :=
  match cs with
  | [] => Ret (o, [])
  | c :: cs => '(o, a) ← call o c; '(o, l) ← calls o cs; Ret (o, a :: l)
  end.
End calls.

(** Across the three encodings. *)
Example calls_example :
  let server := {| set_max_intset_entries := 2; set_max_listpack_entries := 3; set_max_listpack_value := 4 |} in
  ('(o, l) ← calls (H := exact_allocator) demo_seed DICT_RESIZE_ENABLE (fun _ n => n) server (createIntsetObject (H := exact_allocator))
     [CallAddInt 7; CallAdd [97]; CallAdd [55]; CallSize; CallAddInt (-12); CallAdd [98; 98; 98; 98; 98]; CallSize;
      CallRemove [45; 49; 50]; CallIsMemberInt 7; CallDup; CallSize]; Ret (encoding_of o, l)) =
  Ret (OBJ_ENCODING_HT, [AnsBool true; AnsBool true; AnsBool false; AnsSize 2; AnsBool true; AnsBool true; AnsSize 4;
      AnsBool true; AnsBool true; AnsNone; AnsSize 3]).
Proof. vm_compute. reflexivity. Qed.

(** *** A boundary of the intset

    [intsetMaxEntries] allows 2^30 entries "due to intset internals".  With 2^29
    entries of 64 bits the byte count of [intsetMoveTail], an [uint32_t], wraps to
    0: to make room for a new smallest element no byte is moved. *)
Theorem intsetMoveTail_wraps iset server : encoding iset = INTSET_ENC_INT64 -> intsetLen iset = 2 ^ 29 ->
  8 <= Zlen (contents iset) -> 2 ^ 30 <= set_max_intset_entries server ->
  intsetLen iset < intsetMaxEntries server /\ intsetMoveTail iset 0 1 = Ret iset.
Proof.
  unfold intsetLen. intros He Hl Hc Hs. split.
  - rewrite Hl. unfold intsetMaxEntries. change (Z.shiftl 1 30) with (2 ^ 30). destruct (Z.leb_spec (2 ^ 30) (set_max_intset_entries server)); lia.
  - unfold intsetMoveTail. rewrite He, Hl. change (INTSET_ENC_INT64 =? INTSET_ENC_INT64) with true. cbv iota.
    change (u32 (u32 (2 ^ 29 - 0) * 8)) with 0. unfold c_memmove. rewrite rdn_nil, ret_bind by lia.
    rewrite wrn_ok by (rewrite ?Zlen_nil; lia). rewrite ret_bind. rewrite app_nil_l. change (Z.to_nat (Zlen [])) with 0%nat. change (length []) with 0%nat. rewrite ?Nat.add_0_r, take_drop. by destruct iset.
Qed.

(** ** Every call implements the abstract one *)

Section spec.
Context (seed : list Z) (Hseed : Forall is_byte seed) (Hseed16 : Zlen seed = 16) (can_resize : dictResizeEnable).
Context `{AllocFits}.
Context (table_addr : dict set_key unit -> Z -> Z) (server : set_config).
Implicit Types (o : set_obj) (m : gset (list Z)).
Abbreviation call := (call seed can_resize table_addr server).
Abbreviation calls := (calls seed can_resize table_addr server).
Abbreviation srep := (set_rep seed).
Abbreviation limits := (within_limits server).

Lemma small_room o m : Z.of_nat (size m) + 1 < 2 ^ 29 -> set_room o m.
Proof. destruct o; cbn; lia. Qed.

(** The limits of an encoding are those of the members, and fewer members keep them. *)
Lemma limits_mono o o' m m' : encoding_of o' = encoding_of o -> m' ⊆ m -> limits o m -> limits o' m'.
Proof.
  intros He Hm Hl. pose proof (subseteq_size _ _ Hm). destruct o, o'; try done; cbn [within_limits] in *; [lia|].
  destruct Hl as [Hn Hv]. split; [lia|]. intros x Hx. apply Hv. set_solver.
Qed.

Lemma fresh_arg x : member_ok x -> exists value, sdsnewlen (InitFrom x) (Zlen x) = Ret value /\ str_arg (SdsStr value) (Zlen x) x /\
  sdslen value = Ret (Zlen x).
Proof.
  intros Hx. destruct (sdsnewlen_from x) as (s & E & Hs); [destruct Hx as [_ ?]; lia|].
  exists s. split; [done|]. split; [by apply str_arg_sds|]. by apply rep_len.
Qed.

Lemma int_arg v : INT64_MIN <= v <= INT64_MAX -> arg_denotes None 0 v (dec v).
Proof. done. Qed.

(** An object that represents [m] within the limits. *)
Definition holds o m : Prop := srep o m /\ limits o m.

Lemma answer_bool (r : outcome (set_obj * bool)) (b : bool) m (P : set_obj -> Prop) :
  (exists o, r = Ret (o, b) /\ P o) -> exists o, ('(o, b) ← r; Ret (o, AnsBool b)) = Ret (o, AnsBool b) /\ P o.
Proof. intros (o & -> & HP). by exists o. Qed.

Lemma call_spec o m c : holds o m -> Z.of_nat (size m) + 1 < 2 ^ 29 -> call_ok c ->
  exists o', call o c = Ret (o', (ref_call m c).2) /\ holds o' (ref_call m c).1.
Proof using All.
  intros [Hs Hl] Hn Hc. pose proof (small_room o m Hn) as Hroom.
  assert (forall x str len v, arg_denotes str len v x -> exists o', setTypeAddAux seed can_resize table_addr server o str len v =
    Ret (o', negb (bool_decide (x ∈ m))) /\ holds o' ({[x]} ∪ m)) as Hadd.
  { intros x str len v Hx. destruct (setTypeAddAux_spec seed Hseed Hseed16 can_resize table_addr server o m str len v x) as (o' & E & Hr & Hk); [done..|].
    exists o'. split; [done|]. split; [done|by apply Hk]. }
  assert (forall x str len v, arg_denotes str len v x -> exists o', setTypeRemoveAux seed can_resize o str len v =
    Ret (o', bool_decide (x ∈ m)) /\ holds o' (m ∖ {[x]})) as Hrem.
  { intros x str len v Hx. destruct (setTypeRemoveAux_spec seed Hseed Hseed16 can_resize table_addr server o m str len v x) as (o' & E & Hr & He); [done..|].
    exists o'. split; [done|]. split; [done|]. eapply limits_mono; [done| |done]. set_solver. }
  assert (forall x str len v, arg_denotes str len v x -> exists o', setTypeIsMemberAux seed can_resize o str len v =
    Ret (o', bool_decide (x ∈ m)) /\ holds o' m) as Hmem.
  { intros x str len v Hx. destruct (setTypeIsMemberAux_spec seed Hseed Hseed16 can_resize table_addr server o m str len v x) as (o' & E & Hr & He); [done..|].
    exists o'. split; [done|]. split; [done|]. by eapply limits_mono. }
  destruct c as [x|v|x|v|x|v| |h| |]; cbn [call_ok ref_call fst snd] in *; unfold SettypeSpec.call, with_sds, with_int.
  1,3,5: destruct (fresh_arg x Hc) as (value & -> & Ha & El); rewrite ret_bind; unfold setTypeAdd, setTypeRemove, setTypeIsMember;
    rewrite El, ret_bind; apply answer_bool; [exact m|]; eauto.
  1,2,3: apply answer_bool; [exact m|]; eauto using int_arg.
  - destruct (setTypeSize_spec seed Hseed Hseed16 o m Hs) as (o' & -> & Hr & He). exists o'. split; [done|]. split; [done|by eapply limits_mono].
  - destruct (setTypeMaybeConvert_spec seed Hseed Hseed16 can_resize table_addr server o m h) as (o' & -> & Hr & He); [done..|lia|].
    exists o'. split; [done|]. split; [done|]. destruct (_ || _) in He; [by apply ht_limits|by eapply limits_mono].
  - destruct (decide (encoding_of o = OBJ_ENCODING_HT)) as [He|He]; [destruct o; try done; by exists (HtObj ht alloc_size)|].
    destruct (setTypeConvert_ht_spec seed Hseed Hseed16 can_resize table_addr server o m) as (o' & E & Hr & He'); [done..|lia|].
    exists o'. destruct o; try done; rewrite E, ret_bind; (split; [done|]; split; [done|by apply ht_limits]).
  - destruct (setTypeDup_spec seed Hseed Hseed16 can_resize table_addr server o m) as (o' & -> & Hr & He); [done|lia|].
    exists o'. split; [done|]. split; [done|by eapply limits_mono].
Qed.

Lemma ref_call_size m c : Z.of_nat (size (ref_call m c).1) <= Z.of_nat (size m) + 1.
Proof.
  assert (forall x, (size ({[x]} ∪ m) <= S (size m))%nat) as Ha.
  { intros x. rewrite size_union_alt, size_singleton. pose proof (subseteq_size (m ∖ {[x]}) m ltac:(set_solver)). lia. }
  assert (forall x, (size (m ∖ {[x]}) <= size m)%nat) as Hr by (intros x; apply subseteq_size; set_solver).
  destruct c as [x|v|x|v|x|v| |h| |]; cbn [ref_call fst].
  1: specialize (Ha x). 2: specialize (Ha (dec v)). 3: specialize (Hr x). 4: specialize (Hr (dec v)). all: lia.
Qed.

Lemma calls_spec cs : forall o m, holds o m -> Forall call_ok cs -> Z.of_nat (size m) + Zlen cs < 2 ^ 29 ->
  exists o', calls o cs = Ret (o', (ref_calls m cs).2) /\ holds o' (ref_calls m cs).1.
Proof using All.
  induction cs as [|c cs IH]; intros o m Ho Hc Hn; cbn [SettypeSpec.calls ref_calls]; [by exists o|].
  apply list.Forall_cons in Hc as [Hc Hcs]. pose proof (ref_call_size m c) as Hsz. pose proof (Zlen_nonneg cs).
  unfold Zlen in Hn. cbn [length] in Hn. fold (Zlen cs) in *.
  destruct (call_spec o m c Ho) as (o1 & E & Ho1); [lia|done|]. rewrite E, ret_bind. destruct (ref_call m c) as [m1 a]. cbn [fst snd] in *.
  destruct (IH o1 m1 Ho1 Hcs) as (o2 & E2 & Ho2); [unfold Zlen; lia|]. rewrite E2, ret_bind. destruct (ref_calls m1 cs) as [m2 l]. by exists o2.
Qed.

Lemma empty_limits o : 0 <= set_max_intset_entries server -> 0 <= set_max_listpack_entries server -> limits o ∅.
Proof.
  intros Hi Hl. destruct o; cbn [within_limits]; rewrite ?size_empty; [|split; [done|]; set_solver|done].
  unfold intsetMaxEntries. destruct (_ <=? _); [done|lia].
Qed.

(** What the limits say of the containers. *)
Lemma limits_of_contents o m : srep o m -> limits o m ->
  match o with
  | IntsetObj iset => intsetLen iset <= set_max_intset_entries server /\ intsetLen iset <= 2 ^ 30
  | ListpackObj lp => exists es, lp_rep lp es /\ Zlen es <= set_max_listpack_entries server /\
      Forall (fun e => Zlen (lp_value e) <= set_max_listpack_value server) es
  | HtObj _ _ => True
  end.
Proof using Type.
  intros [Hc _] Hl. destruct o as [iset|lp|d n]; cbn [set_contents within_limits] in *; [| |done].
  - destruct Hc as (vs & HR & ->). unfold intsetLen. rewrite (Intset.rep_len _ _ HR). rewrite (intset_size _ _ HR) in Hl.
    unfold intsetMaxEntries in Hl. destruct (Z.leb_spec (Z.shiftl 1 30) (set_max_intset_entries server)); change (Z.shiftl 1 30) with (2 ^ 30) in *; lia.
  - destruct Hc as (es & Hr & Hnd & ->). destruct Hl as [Hn Hv]. exists es. split; [done|].
    rewrite (size_of_texts _ Hnd), Zlen_fmap in Hn. split; [done|]. apply list.Forall_forall. intros e He.
    apply Hv, elem_of_list_to_set. by apply list.list_elem_of_fmap_2.
Qed.

(** The metadata of a hash table, over its entries. *)
Lemma ht_key_sizes d n m : ht_rep seed d n m -> n = u64 (zsum (key_size ∘ fst <$> entries d)).
Proof using Type.
  intros [Hwf _ _ ->]. f_equal. unfold sizes_of, dict_map. rewrite (zsum_perm _ ((fun p => key_size p.2.1) <$> ((fun x => (key_bytes x.1, x)) <$> entries d))).
  { by rewrite <- list_fmap_compose. }
  apply fmap_Permutation, map_to_list_to_map. rewrite <- list_fmap_compose. exact (wf_uniq _ _ _ Hwf).
Qed.

(** The strings an iterator makes of its elements. *)
Lemma objects_of l xs : Forall2 elem_denotes l xs -> exists ss,
  (forall r, fold_out (fun r e => s ← elem_object e; Ret (r ++ [s])) r l = Ret (r ++ ss)) /\ Forall2 sds_rep ss xs.
Proof.
  induction 1 as [|e x l xs He _ IH]; [exists []; split; [|constructor]; intros r; by rewrite app_nil_r|].
  destruct IH as (ss & E & Hss). destruct (elem_object_spec e x He) as (s & Es & Hs). exists (s :: ss). split; [|by constructor].
  intros r. cbn [fold_out]. rewrite Es, !ret_bind, E. by rewrite <- app_assoc.
Qed.

Lemma collect {E} (l : list E) : forall r, fold_out (fun r e => Ret (r ++ [e])) r l = Ret (r ++ l).
Proof. induction l as [|e l IH]; intros r; cbn [fold_out]; [by rewrite app_nil_r|]. rewrite ret_bind, IH. by rewrite <- app_assoc. Qed.

(** ** The contracts *)

(** C4. Any sequence of calls on a set made by [setTypeCreate], with members
    passed as strings or as integers, returns what the same sequence returns on a
    mathematical set, and ends in an object that represents the resulting set:
    no conversion, rehash step or expansion on the way loses, duplicates or
    invents a member, and no call aborts or leaves its buffers. *)
Theorem setType_refines_set value x size_hint cs :
  s_bytes value = Ret x -> 0 <= size_hint < 2 ^ 64 -> 0 <= set_max_intset_entries server -> 0 <= set_max_listpack_entries server ->
  Forall call_ok cs -> Zlen cs < 2 ^ 29 ->
  exists o o', setTypeCreate seed can_resize server value size_hint = Ret o /\
    calls o cs = Ret (o', (ref_calls ∅ cs).2) /\ srep o' (ref_calls ∅ cs).1.
Proof using All.
  intros Hv Hh Hi Hlp Hc Hn.
  destruct (setTypeCreate_spec seed Hseed Hseed16 can_resize table_addr server value x size_hint Hv Hh) as (o & Eo & Ho & _).
  destruct (calls_spec cs o ∅) as (o' & E & Ho' & _); [|done|by rewrite size_empty|by exists o, o'].
  split; [done|]. by apply empty_limits.
Qed.

(** C22. The encodings stay within the limits of the configuration: from any
    object that keeps them, after any calls an intset has at most
    [set-max-intset-entries] members (and at most 2^30), a listpack at most
    [set-max-listpack-entries], none longer than [set-max-listpack-value]. *)
Theorem setType_encoding_limits o m cs :
  srep o m -> limits o m -> Forall call_ok cs -> Z.of_nat (size m) + Zlen cs < 2 ^ 29 ->
  exists o' l, calls o cs = Ret (o', l) /\
  match o' with
  | IntsetObj iset => intsetLen iset <= set_max_intset_entries server /\ intsetLen iset <= 2 ^ 30
  | ListpackObj lp => exists es, lp_rep lp es /\ Zlen es <= set_max_listpack_entries server /\
      Forall (fun e => Zlen (lp_value e) <= set_max_listpack_value server) es
  | HtObj _ _ => True
  end.
Proof using All.
  intros Hs Hl Hc Hn. destruct (calls_spec cs o m (conj Hs Hl) Hc Hn) as (o' & E & Ho' & Hl').
  exists o', (ref_calls m cs).2. split; [done|]. by eapply limits_of_contents.
Qed.

(** C30. On an object of any encoding and any size the sizes of the encodings
    allow, with the member passed as an sds, as a buffer and a length or as an
    integer: an addition answers whether the member was absent and adds it, a
    removal answers whether it was there, removes it and keeps the encoding, and
    a lookup answers membership and changes nothing. *)
Theorem setType_member_operations o m str len llval x :
  srep o m -> set_room o m -> arg_denotes str len llval x ->
  (exists o', setTypeAddAux seed can_resize table_addr server o str len llval = Ret (o', negb (bool_decide (x ∈ m))) /\ srep o' ({[x]} ∪ m)) /\
  (exists o', setTypeRemoveAux seed can_resize o str len llval = Ret (o', bool_decide (x ∈ m)) /\ srep o' (m ∖ {[x]}) /\ encoding_of o' = encoding_of o) /\
  (exists o', setTypeIsMemberAux seed can_resize o str len llval = Ret (o', bool_decide (x ∈ m)) /\ srep o' m /\ encoding_of o' = encoding_of o).
Proof using All.
  intros Hs Hr Hx. split; [|split].
  - destruct (setTypeAddAux_spec seed Hseed Hseed16 can_resize table_addr server o m str len llval x) as (o' & E & Ho & _); [done..|]. by exists o'.
  - by apply (setTypeRemoveAux_spec seed Hseed Hseed16 can_resize table_addr server).
  - by apply (setTypeIsMemberAux_spec seed Hseed Hseed16 can_resize table_addr server).
Qed.

(** A conversion keeps exactly the members.  To a hash table it succeeds when
    the caller panics on failure or the allocation succeeds, and otherwise leaves
    the object as it was; the table it returns counts the bytes of its keys.  To a
    listpack it succeeds when the elements fit in one. *)
Theorem setTypeConvertAndExpand_correct o m cap panic avail : srep o m ->
  (encoding_of o <> OBJ_ENCODING_HT -> 0 <= cap < 2 ^ 64 -> Z.of_nat (size m) < 2 ^ 62 ->
    exists o' ok, setTypeConvertAndExpand seed can_resize table_addr o OBJ_ENCODING_HT cap panic avail = Ret (o', ok) /\ srep o' m /\
      (if ok then exists d, o' = HtObj d (u64 (zsum (key_size ∘ fst <$> entries d))) else o' = o) /\
      (panic || avail = true -> ok = true)) /\
  (encoding_of o <> OBJ_ENCODING_LISTPACK -> lp_total (lp_element <$> elements m) < 2 ^ 32 ->
    exists lp xs, setTypeConvertAndExpand seed can_resize table_addr o OBJ_ENCODING_LISTPACK cap panic avail = Ret (ListpackObj lp, true) /\
      lp_rep lp (lp_element <$> xs) /\ xs ≡ₚ elements m).
Proof using All.
  intros Hs. split.
  - intros He Hc Hn. destruct (convert_ht_spec seed Hseed Hseed16 can_resize table_addr server o m cap panic avail) as (o' & ok & E & Hr & Ho & Hok); [done..|].
    exists o', ok. split; [done|]. split; [done|]. split; [|by rewrite orb_true_iff].
    destruct ok; [|done]. destruct o' as [| |d n]; [done..|]. exists d. f_equal. by eapply ht_key_sizes, Hr.
  - intros He Ht. destruct (convert_listpack_spec seed Hseed Hseed16 can_resize table_addr server o m cap panic avail) as (lp & xs & E & Hr & Hnd & -> & _); [done..|].
    exists lp, xs. split; [done|]. split; [done|]. by rewrite elements_list_to_set.
Qed.

(** C25. An iterator yields every member exactly once and then the end, and
    releasing it leaves the object as it was: the elements [setTypeNext] gives (a
    string, or an integer) denote the members in some order without repetition,
    and [setTypeNextObject] makes fresh strings of the same members. *)
Theorem setTypeNext_visits_each_member_once o m : srep o m ->
  exists l xs ss si', (length l < iter_fuel o)%nat /\ Forall2 elem_denotes l xs /\ Forall2 sds_rep ss xs /\ xs ≡ₚ elements m /\
  (forall fuel, (iter_fuel o <= fuel)%nat ->
    while_next (setTypeNext table_addr) (fun r e => Ret (r ++ [e])) fuel o (setTypeInitIterator o) [] = Ret (o, si', l) /\
    while_next (setTypeNextObject table_addr) (fun r s => Ret (r ++ [s])) fuel o (setTypeInitIterator o) [] = Ret (o, si', ss)) /\
  setTypeResetIterator table_addr o si' = Ret o.
Proof using All.
  intros Hs. destruct (iterator_spec seed Hseed Hseed16 table_addr o m Hs) as (l & si' & xs & Hw & Hl & _ & Hnd & -> & Hf & Hreset).
  destruct (objects_of l xs Hl) as (ss & Ess & Hss). exists l, xs, ss, si'. split; [done|]. split; [done|]. split; [done|].
  split; [by rewrite elements_list_to_set|]. split; [|done]. intros fuel Hfuel.
  split; [|rewrite while_object]; rewrite (while_walk _ _ _ _ _ _ Hw) by lia; [by rewrite collect|by rewrite Ess].
Qed.

(** [setTypeDup] returns the set it copies unchanged and a set of the same
    encoding with the same members; [maybeConvertToIntset] turns a set of integers
    into the intset of them when it has at most [intsetMaxEntries] members, and
    otherwise leaves its encoding alone. *)
Theorem setTypeDup_correct o m : srep o m -> Z.of_nat (size m) < 2 ^ 29 ->
  (exists o2, setTypeDup seed can_resize table_addr server o = Ret (o, o2) /\ srep o2 m /\ encoding_of o2 = encoding_of o) /\
  ((forall x, x ∈ m -> exists v, x = dec v /\ INT64_MIN <= v <= INT64_MAX) ->
   exists o', maybeConvertToIntset table_addr server o = Ret o' /\ srep o' m /\
     encoding_of o' = if Z.of_nat (size m) <=? intsetMaxEntries server then OBJ_ENCODING_INTSET else encoding_of o).
Proof using All.
  intros Hs Hn. split; [apply (setTypeDup_spec seed Hseed Hseed16 can_resize table_addr server); [done|lia]|].
  intros Hint. by apply (maybeConvertToIntset_spec seed Hseed Hseed16 can_resize table_addr server).
Qed.
End spec.

(** ** Witnesses *)

#[local] Existing Instance exact_allocator.
#[local] Existing Instance exact_fits.

Lemma demo_seed_ok : Forall is_byte demo_seed /\ Zlen demo_seed = 16.
Proof. split; [|reflexivity]. unfold demo_seed. cbn. repeat constructor; unfold is_byte; lia. Qed.

Definition demo_server : set_config := {| set_max_intset_entries := 2; set_max_listpack_entries := 3; set_max_listpack_value := 4 |}.
Definition demo_addr (d : dict set_key unit) (n : Z) : Z := n.
Definition demo_calls : list set_call :=
  [CallAddInt 7; CallAdd [97]; CallAdd [55]; CallSize; CallAddInt (-12); CallAdd [98; 98; 98; 98; 98]; CallRemove [45; 49; 50]; CallIsMemberInt 7; CallDup; CallSize].

Lemma demo_calls_ok : Forall call_ok demo_calls.
Proof. unfold demo_calls. repeat constructor; cbn; unfold is_byte; try lia; done. Qed.

(** The set of -5, 32 and 65535. *)
Definition demo_members : gset (list Z) := list_to_set (dec <$> [-5; 32; 65535]).

Lemma demo_set_rep : set_rep demo_seed (IntsetObj three) demo_members.
Proof.
  split; [exists [-5; 32; 65535]; split; [exact rep_three|done]|]. intros x Hx. unfold demo_members in Hx.
  apply elem_of_list_to_set, list.list_elem_of_fmap in Hx as (v & -> & Hv). apply dec_member.
  rewrite !elem_of_cons, elem_of_nil in Hv. unfold INT64_MIN, INT64_MAX. intuition lia.
Qed.

Lemma demo_size : Z.of_nat (size demo_members) = 3.
Proof. vm_compute. reflexivity. Qed.

Lemma setType_refines_set_witness : exists o o',
  setTypeCreate demo_seed DICT_RESIZE_ENABLE demo_server demo_sds 1 = Ret o /\
  calls demo_seed DICT_RESIZE_ENABLE demo_addr demo_server o demo_calls = Ret (o', (ref_calls ∅ demo_calls).2) /\
  set_rep demo_seed o' (ref_calls ∅ demo_calls).1.
Proof.
  apply (setType_refines_set demo_seed (proj1 demo_seed_ok) (proj2 demo_seed_ok) DICT_RESIZE_ENABLE demo_addr demo_server demo_sds [65; 66] 1 demo_calls).
  - exact (rep_bytes _ _ demo_sds_rep).
  - lia.
  - cbn. lia.
  - cbn. lia.
  - exact demo_calls_ok.
  - vm_compute. reflexivity.
Defined.

Lemma setType_encoding_limits_witness : exists o' l,
  calls demo_seed DICT_RESIZE_ENABLE demo_addr {| set_max_intset_entries := 4; set_max_listpack_entries := 3; set_max_listpack_value := 4 |}
    (IntsetObj three) demo_calls = Ret (o', l) /\
  match o' with
  | IntsetObj iset => intsetLen iset <= 4 /\ intsetLen iset <= 2 ^ 30
  | ListpackObj lp => exists es, lp_rep lp es /\ Zlen es <= 3 /\ Forall (fun e => Zlen (lp_value e) <= 4) es
  | HtObj _ _ => True
  end.
Proof.
  apply (setType_encoding_limits demo_seed (proj1 demo_seed_ok) (proj2 demo_seed_ok) DICT_RESIZE_ENABLE demo_addr
    {| set_max_intset_entries := 4; set_max_listpack_entries := 3; set_max_listpack_value := 4 |} (IntsetObj three) demo_members demo_calls demo_set_rep).
  - unfold within_limits. rewrite demo_size. vm_compute. discriminate.
  - exact demo_calls_ok.
  - rewrite demo_size. vm_compute. reflexivity.
Defined.

Lemma setType_member_operations_witness : exists o',
  setTypeAddAux demo_seed DICT_RESIZE_ENABLE demo_addr demo_server (IntsetObj three) (Some (CharStr [97; 98; 99])) 2 0 = Ret (o', true) /\
  set_rep demo_seed o' ({[ [97; 98] ]} ∪ demo_members).
Proof.
  refine (proj1 (setType_member_operations demo_seed (proj1 demo_seed_ok) (proj2 demo_seed_ok) DICT_RESIZE_ENABLE demo_addr demo_server
    (IntsetObj three) demo_members (Some (CharStr [97; 98; 99])) 2 0 [97; 98] demo_set_rep _ _)).
  - unfold set_room. rewrite demo_size. lia.
  - split; [reflexivity|]. split; [split; [repeat constructor; unfold is_byte; lia|reflexivity]|]. by exists [99].
Defined.

Lemma setTypeConvertAndExpand_witness : exists lp xs,
  setTypeConvertAndExpand demo_seed DICT_RESIZE_ENABLE demo_addr (IntsetObj three) OBJ_ENCODING_LISTPACK 4 true true = Ret (ListpackObj lp, true) /\
  lp_rep lp (lp_element <$> xs) /\ xs ≡ₚ elements demo_members.
Proof.
  apply (proj2 (setTypeConvertAndExpand_correct demo_seed (proj1 demo_seed_ok) (proj2 demo_seed_ok) DICT_RESIZE_ENABLE demo_addr demo_server
    (IntsetObj three) demo_members 4 true true demo_set_rep)); [discriminate|]. vm_compute. reflexivity.
Defined.

Lemma setTypeNext_witness : exists l xs ss si', (length l < iter_fuel (IntsetObj three))%nat /\ Forall2 elem_denotes l xs /\ Forall2 sds_rep ss xs /\
  xs ≡ₚ elements demo_members /\
  (forall fuel, (iter_fuel (IntsetObj three) <= fuel)%nat ->
    while_next (setTypeNext demo_addr) (fun r e => Ret (r ++ [e])) fuel (IntsetObj three) (setTypeInitIterator (IntsetObj three)) [] = Ret (IntsetObj three, si', l) /\
    while_next (setTypeNextObject demo_addr) (fun r s => Ret (r ++ [s])) fuel (IntsetObj three) (setTypeInitIterator (IntsetObj three)) [] = Ret (IntsetObj three, si', ss)) /\
  setTypeResetIterator demo_addr (IntsetObj three) si' = Ret (IntsetObj three).
Proof.
  exact (setTypeNext_visits_each_member_once demo_seed (proj1 demo_seed_ok) (proj2 demo_seed_ok) DICT_RESIZE_ENABLE demo_addr demo_server
    (IntsetObj three) demo_members demo_set_rep).
Defined.

Lemma setTypeDup_witness : exists o2,
  setTypeDup demo_seed DICT_RESIZE_ENABLE demo_addr demo_server (IntsetObj three) = Ret (IntsetObj three, o2) /\
  set_rep demo_seed o2 demo_members /\ encoding_of o2 = OBJ_ENCODING_INTSET.
Proof.
  refine (proj1 (setTypeDup_correct demo_seed (proj1 demo_seed_ok) (proj2 demo_seed_ok) DICT_RESIZE_ENABLE demo_addr demo_server
    (IntsetObj three) demo_members demo_set_rep _)). rewrite demo_size. lia.
Defined.
